(* ===== verification/_CoqProject ===== *)
-Q . S2P
Prelude.v
Types.v
Features.v
Numbers.v
Outcome.v
Rebuild.v
Base64.v
Wire.v
Projection.v
Grouping.v
Repository.v
Samples.v
GroupingProofs.v
WireProofs.v
Retry.v
Program.v
Settle.v
Store.v
RebuildBatch.v
Mem.v
MemInvariant.v
MemRefinement.v
MemRead.v
MemSafety.v
MemFence.v
MemMarker.v
LogBackend.v
MemBackend.v
Views.v
StoreLoad.v
Enumerate.v
StoreExecute.v
StoreOutcome.v
StoreSamples.v
StoreSystem.v
EnumerateMem.v
EnumerateSeeded.v
Transaction.v
TransactionOutcome.v
TransactionSystem.v
Sha256.v
CommitId.v
JournalScope.v
Compaction.v
JournalConfig.v
JournalRead.v
JournalRepository.v
JournalStage.v
JournalInvariant.v
RebuildDriver.v
ProjectionRebuild.v
Compact.v
CompactInvariant.v
JournalClients.v
CompactLease.v
JournalDrive.v
JournalPages.v
CompactChunks.v
CompactPlan.v
CompactBuild.v
CompactSafe.v
JournalSnapshot.v
JournalSamples.v
JournalReplayOk.v
RebuildAtomic.v
JournalRebuild.v
ProjectionAtomic.v
ProjectionDiff.v
ProjectionPlan.v
JournalSystem.v
Lambda.v
LambdaProofs.v
Dynamo.v
DynamoStores.v
DynamoLog.v
DynamoClients.v
DynamoSample.v
Postgres.v
PostgresStores.v
PostgresCommit.v
