(* ===== verification/Prelude.v ===== *)
(** * evt: a verification development

    ** The program

    evt is an event-sourcing library. An application's aggregates live as streams of events, one
    stream per entity, in a repository. Its parts, all under src/crates/evt/src, and how they
    interact:

    - a repository ([repository.rs], the [Repository] trait) keeps for each entity the events
      above its last compaction, the head sequence and a snapshot, and one outcome row per command
      ID. It accepts a commit (one stream) or a transaction (several streams, read fences, one
      outcome) atomically, if the events directly follow the head, the fences hold, no outcome is
      recorded for the command, and the view rows written with it satisfy their conditions;
    - [mem.rs] and [mem/views.rs] are the in-memory repository: a store shared by cloned handles,
      each operation one critical section. It also keeps the feature manifest ([features.rs]), the
      fence that keeps writers out while projections are rebuilt ([rebuild.rs]) and the view rows
      ([views.rs]);
    - [dynamodb.rs] and [dynamodb/] are the repository over a DynamoDB table, with conditional
      transactions where the in-memory one has a lock; [wire/dynamo.rs] is its item format.
      [postgres.rs] and [postgres/] are the repository over PostgreSQL tables, with advisory locks
      and database transactions, and a listener that wakes journal readers; [wire/postgres.rs] is
      its schema and its rows;
    - [projection.rs] turns commits into view operations, and groups stored events back into the
      commits that wrote them, in an order every stream agrees with;
    - [outcome.rs], [numbers.rs] and [json.rs] define the outcome row, the rejection a command may
      end with, and their canonical JSON;
    - [store.rs], [aggregate.rs], [upcast.rs], [retry.rs] and [transaction.rs] are the clients: they load an
      aggregate from its snapshot and events, run the command's handler, stage the commit, and
      settle what became of it when other clients commit at the same time or an answer is lost;
    - [journal/] is a repository around a repository: it gives every event of the entity types it
      covers a position in each scope it resolves to, in the commit that appends it, so that a scope
      has one gap-free journal; readers page through it, and a compaction replaces its oldest rows
      by chunks that a manifest lists, under a lease, while everyone goes on ([mem/journal.rs] is
      the store's side). [sha256.rs] and [commit_id.rs] are the hash and the ID generator;
    - [enumerate.rs] and [mem/enumerate.rs] list the streams of a repository, as events or folded
      into aggregates; [rebuild/projections.rs], its [diff.rs] and [journal/replay.rs] write the
      view rows and the journal again from the log, under the rebuild fence;
    - [evt-lambda] (src/crates/evt-lambda/src) consumes the change stream of a table: which records
      are events or journal wakeups, which of them a consumer wants, and where a batch resumes.

    ** The files

    Data and operations (each definition's comment names the source lines it translates):

    - [Prelude]: results with their notation, machine-width integers (i64, u32, saturating and
      checked arithmetic), strings, sorting, the tactics and the [evt] hint database;
    - [Types] (ids.rs, metadata.rs, event.rs, error.rs), [Features] (heads.rs,
      features.rs), [Numbers] (numbers.rs), [Outcome] (outcome.rs: rows and checks), [Rebuild]
      (rebuild.rs: generations, locks, leases, batches), [Base64] (json.rs), [Wire]
      (wire/dynamo.rs), [Projection] (projection.rs: operations and replay), [Grouping]
      (projection.rs: grouping events into commits), [Repository] (repository.rs: commits,
      validation, sizes, budget, snapshot schedule);
    - [Mem] (mem.rs, mem/views.rs): the whole state of the store as the record
      [MemStore], every operation a function from a handle to a handle and a result;
    - [Retry] (retry.rs), [Settle] (outcome.rs: identity and settlement), [Store] (store.rs,
      aggregate.rs, upcast.rs), [Transaction] (transaction.rs and store.rs's
      [execute_transaction]). Clients await calls of a repository, so they are programs of
      [Program]: trees whose nodes are the calls and whose branches are the answers. Between two
      calls other clients may run.

    - [Sha256] (sha256.rs, and the default digest of outcome.rs), [CommitId] (commit_id.rs);
    - [JournalScope] (journal/scope.rs, row.rs), [JournalConfig] (config.rs), [JournalRead]
      (read.rs), [JournalRepository] (repository.rs, projector.rs), [Compaction]
      (journal/compaction.rs), [Compact] (journal/compact.rs), [JournalInvariant] (its first part, mem/journal.rs): again
      programs over calls, of the journal's stores and of the repository underneath;
    - [Views] (views.rs: the default batch and listing methods; viewcodec.rs), [Enumerate] (enumerate.rs,
      mem/enumerate.rs: a stream is a state with its poll), [RebuildDriver] (rebuild.rs: the run
      that holds, renews and settles the fence; journal/replay.rs),
      [ProjectionRebuild] (rebuild/projections.rs and diff.rs), [Lambda] (evt-lambda);
    - [Dynamo] (dynamodb.rs, with the rest of wire/dynamo.rs), [DynamoStores] (dynamodb/rebuild.rs,
      enumerate.rs, views.rs, journal.rs): programs over the requests of the service, the critical
      sections of an instance's cells, the clock and the timer;
    - [Postgres] (wire/postgres.rs, postgres.rs), [PostgresStores] (postgres/views.rs, rebuild.rs,
      journal.rs, enumerate.rs, listener.rs): programs over the statements of pooled connections,
      with the texts of the statements as the source builds them.

    Proofs:

    - [MemInvariant]: the invariant [store_ok] of the store and its preservation by every
      operation;
    - [MemRefinement]: handles over one store as a step relation, the abstract specification [Abs] (the sequence of commits, which gives each
      entity an append-only log, and the outcome of each command), its atomic steps, and the refinement of every operation of every
      handle; [MemRead], [MemSafety], [MemFence], [MemMarker]: the functional behaviour of commits,
      reads and compaction, atomicity of failures, ownership of view rows, exclusivity of the
      rebuild fence, soundness of the marker cache;
    - [LogBackend]: the interface a client relies on. The class [LogBackend] says that every call
      moves the represented log forward and answers from it; [MemBackend] proves that the
      in-memory repository is an instance. [ensures] is the rely/guarantee judgement the
      clients are proved with, against the class;
    - [StoreLoad], [StoreExecute], [StoreOutcome]: loads, executions and recorded outcomes, for any
      aggregate that satisfies [AggregateLaws] and any backend; [StoreSystem]: any
      number of clients interleaved call by call, and what a client gets when it runs
      alone; [TransactionOutcome], [TransactionSystem]: the invariant of a
      transaction and of the handles of its reads, and commands over several streams;
    - [JournalStage]: what a staged commit is; [JournalInvariant]: the invariant
      [journal_ok] between the log and the journal's rows, kept by every journaled commit;
      [CompactInvariant]: the invariant [compaction_ok] of leases, chunks and manifests;
      [JournalClients]: the state with the log and the owners of leases that is only reasoned about,
      the invariant [journal_inv] and the roles of clients (as long as a client holds a lease, the
      others leave the scope's compaction); [JournalDrive], [JournalPages], [JournalSnapshot]: commits, pages and snapshots under any interleaving;
      [CompactLease], [CompactChunks], [CompactPlan], [CompactBuild], [CompactSafe]: the lease, packing, the writes, what a swapped manifest covers
      and the whole run; [JournalSystem]: the properties of any number of clients at once;
      [JournalSamples]: an encoding that satisfies the laws, and sample runs;
    - [EnumerateMem], [EnumerateSeeded]: streams of entities over any pages, over
      the in-memory repository and from heads and snapshots; [RebuildAtomic]: the
      fence on the in-memory repository and the rebuilder as a role beside the other clients;
      [JournalReplayOk], [JournalRebuild]: the replay of a journal and its rebuild;
      [ProjectionAtomic], [ProjectionDiff], [ProjectionPlan]: the rebuild of
      projections, its diff, its plan, and its race with compactions; [LambdaProofs]: consumers;
    - [DynamoLog]: the contract of the service, [DynamoService], how the items of a table represent
      the log, and what an applied transaction does to it; [DynamoClients]: any number of instances
      at once; [DynamoSample]: a service that satisfies the contract, and a run on it;
    - [PostgresCommit]: sessions and transactions of a server whose answers are arbitrary, the plan
      of each write (the reference its statements are compared with), and a run on a concrete
      server; [PostgresStores] (end): what the listener reports; [Postgres] (end): table names;
    - [Grouping] (second half), [GroupingProofs]: the grouping of events is a topological order of the
      streams' own orders; [WireProofs], [Base64]: items decode to what was encoded;
      [RebuildBatch]: batches fit the limits of a write; [Samples], [StoreSamples]: concrete data
      for the examples that accompany the properties.

    ** What the theorems show

    - The repository: every reachable state of the handles represents a log built by atomic
      appends at the ends of streams; what was committed stays; failed calls change nothing;
      commits read back; compaction cannot be seen by a reader above the snapshot; each command has
      at most one outcome; view rows change only for their owner; a rebuild excludes writers and a
      stale lease has no power.
    - DynamoDB: whatever instances commit, run transactions, write snapshots and compact one table at
      once, the table represents the log of its commits in some order, each applied at most once and
      in its place; success means applied, and an error means not applied unless it says so.
    - PostgreSQL: whatever the server answers and wherever the client stops, each write applies
      exactly the statements of its plan in one transaction, or nothing; it did if the call
      succeeds, and did not if it fails, unless the error says that the result is unknown. With rows
      of the schema's columns no call panics. The listener loses, repeats and reorders no
      wakeup. Accepted table names give relations that cannot clash.
    - The store: whatever interleaves, a successful command was decided on the state its events
      directly follow, every snapshot stays the replay of the log it covers, every returned
      outcome is the one recorded row of its command under its own digest, a recorded command is
      not run again, and no client panics or loops. Alone, a load returns the whole stream.
    - Transactions: one that commits, with or without an outcome, is one commit of the sequence, at
      a point where every stream it read, written or not, was still at the head it was read at.
    - Projections and items: grouping returns an order iff one exists, does not depend on the order
      of the read, and replays every stream; each item kind, cursor and encoded field round trips.

    - The journal: in every state any number of committing, reading and compacting clients reach,
      each scope's entries are numbered without a gap in the order of the log and the counter and
      rows say so; receipts hold; pages and snapshots are exact; a snapshot and the rows after it
      are the whole journal, through lost leases and takeovers; and every compaction returns.
    - Enumerations: while others write, the listing gives every stream that was there at the start,
      folded to a state its log had meanwhile; alone, it is exact; a scan folds every log whatever
      pages it arrives in; a seeded one loads every live entity whole.
    - Rebuilds: a journal or projection rebuild that settles the fence has written all its rows
      before anyone else wrote, and one that fails after it wrote leaves the fence up, so readers
      are told; a plan has the rows of every final state; a diff makes the stored rows the planned
      ones, also when its listing lags; a replayed journal is the journal. One theorem is negative:
      [rebuild_beside_compaction_goes_back] is a run in which a rebuild writes an older state,
      because snapshots and compactions are not fenced.
    - Consumers: over redeliveries every wanted event is acknowledged once and in order; merged
      wakeups lose no position; a pattern selects what its consumer accepts.
    - Hashing ends with a digest, a command's digest is of an unambiguous text, and commit IDs of
      one generator increase.

    ** Fuel and bounds

    The retry loops take the policy's attempts as fuel, the polling loop of a settlement one round
    per [POLL_FIRST] of its window, the grouping loop one round per commit, and the number writers
    the length of their text. That the fuel of the clients' loops is enough is part of the
    properties: a client never reaches [OutOfFuel]. The loops of a compaction take the positions
    that are left as fuel, and a consumer of a stream the number of items it takes and the polls a
    skipped batch costs; the loops of a projection rebuild take a fuel whose exhaustion is an
    outcome the atomicity theorem covers and the plan and diff theorems bound. The loops over pages of
    DynamoDB take a fuel of pages, for the service decides how many there are; what is shown of its
    clients holds at every moment of a run, with any fuel. The loops of PostgreSQL over rows and
    purged batches take a fuel for the same reason; the listener's needs one round per message that
    arrives and three, which is proved to be enough. Sequences, versions and generations are
    integers with the width's saturation or check written out where the source has it; times are
    integers of nanoseconds or seconds as in the source.

    ** Parameters

    [SerdeJson] stands for serde_json on the types the library encodes; where a round trip relies on
    it, a hypothesis says that it reads back the text it rendered for that value. [Aggregate] is the
    application, with what is relied on in [AggregateLaws]; [EntityKinds] says which aggregate each
    entity belongs to; the digester is a field of the configuration; error display texts are
    arguments. [JournalJson] and [CompactionJson] are serde_json on the journal's records, with the
    laws [JournalJsonLaws] and [CompactionJsonLaws] that what was written reads back. That SHA-256
    does not collide on the chunks of a scope is a premise ([collision_free]) where a property needs
    it: the code skips a chunk whose digest did not change. Tokens of leases are taken to stay below
    their limit ([bounded_backend]). The AWS SDK and DynamoDB are [Handles DynamoCall] with the
    contract [DynamoService] and the meaning of the log's expressions, [ExpressionLaws]; the display
    text of an SDK error is an argument. Retention is modelled, and the property of the table is
    for repositories that have none, since expired items are deleted by the service. The PostgreSQL driver, pool
    and server are [Handles PgCall], with what a connection does to its transaction
    ([pg_server]); the display texts of their errors are arguments. What the SQL texts do to rows is
    not interpreted: the properties are about which statements are applied together. The clock, the jitter, the commit-ID generator and the timers are calls whose
    answers are arbitrary.

    ** Not modelled

    The conformance suites, the testing helpers and the compatibility driver, which exercise the
    library; the effect of SQL statements on rows; tracing, display texts of errors, and typed
    adapters of projectors. *)

From Stdlib Require Export Ascii ZArith Lia.
From stdpp Require Export base gmap strings list fin_maps sorting pretty.

#[global] Open Scope Z_scope.
#[global] Arguments Ascii.eqb : simpl never.

(** ** Results

    Rust's [Result<A, E>] and its [?] operator. *)

Inductive result (A E : Type) : Type :=
| Ok (a : A)
| Err (e : E).
Arguments Ok {A E} a.
Arguments Err {A E} e.

Definition result_bind {A B E} (c : result A E) (k : A → result B E) : result B E :=
  match c with
  | Ok a => k a
  | Err e => Err e
  end.

Definition map_err {A E F} (f : E → F) (c : result A E) : result A F :=
  match c with
  | Ok a => Ok a
  | Err e => Err (f e)
  end.

Definition ok_or {A E} (o : option A) (e : E) : result A E :=
  match o with
  | Some a => Ok a
  | None => Err e
  end.

Definition is_ok {A E} (c : result A E) : bool :=
  match c with
  | Ok _ => true
  | Err _ => false
  end.

Declare Scope evt_scope.
Delimit Scope evt_scope with evt.
Notation "'let?' x ':=' c 'in' k" := (result_bind c (fun x => k))
  (at level 10, x pattern, c at level 100, k at level 200) : evt_scope.
Notation "'check?' c ; k" := (result_bind c (fun _ => k))
  (at level 10, c at level 100, k at level 200) : evt_scope.
#[global] Open Scope evt_scope.

(** [for x in l { f(x)?; }]: the first error, in list order. *)
Fixpoint check_each {A E} (f : A → result unit E) (l : list A) : result unit E :=
  match l with
  | [] => Ok tt
  | x :: rest => check? f x; check_each f rest
  end.

(** [l.iter().map(f).collect::<Result<Vec<_>, _>>()]. *)
Fixpoint collect {A B E} (f : A → result B E) (l : list A) : result (list B) E :=
  match l with
  | [] => Ok []
  | x :: rest => let? y := f x in let? ys := collect f rest in Ok (y :: ys)
  end.

(** ** Messages

    A [format!] call is kept as its template, verbatim, and its rendered arguments, so two
    messages are told apart exactly as their texts' templates and arguments are. *)

Record Message := Fmt { template : string; args : list string }.

#[export] Instance Message_eq_dec : EqDecision Message.
Proof. solve_decision. Defined.

(** [impl Display for i64] and the unsigned types. *)
Definition show (z : Z) : string := pretty z.

(** ** Machine integers *)

Definition i64_max : Z := 2 ^ 63 - 1.
Definition i64_min : Z := - 2 ^ 63.
Definition u64_max : Z := 2 ^ 64 - 1.
Definition usize_max : Z := 2 ^ 64 - 1.
Definition u32_max : Z := 2 ^ 32 - 1.

Definition in_i64 (z : Z) : bool := (i64_min <=? z) && (z <=? i64_max).
Definition in_u64 (z : Z) : bool := (0 <=? z) && (z <=? u64_max).

(** [a + b] on [i64], as a release build computes it: the low 64 bits of the sum. *)
Definition i64_add (a b : Z) : Z := (a + b + 2 ^ 63) mod 2 ^ 64 - 2 ^ 63.
Definition i64_saturating_add (a b : Z) : Z := Z.max i64_min (Z.min i64_max (a + b)).
Definition i64_checked_add (a b : Z) : option Z :=
  if in_i64 (a + b) then Some (a + b) else None.
Definition u64_checked_add (a b : Z) : option Z :=
  if in_u64 (a + b) then Some (a + b) else None.
Definition u64_saturating_add (a b : Z) : Z := Z.min u64_max (a + b).
Definition usize_saturating_add (a b : Z) : Z := Z.min usize_max (a + b).

(** ** Strings and byte strings

    A Rust [String] and a [Vec<u8>] are both sequences of bytes; both are [string] here. A
    [String] is moreover valid UTF-8. *)

Definition slen (s : string) : Z := Z.of_nat (String.length s).
Definition llen {A} (l : list A) : Z := Z.of_nat (length l).
Definition is_empty (s : string) : bool := match s with EmptyString => true | _ => false end.

Definition starts_with (p s : string) : bool := String.prefix p s.

Fixpoint contains_byte (b : ascii) (s : string) : bool :=
  match s with
  | EmptyString => false
  | String c rest => Ascii.eqb c b || contains_byte b rest
  end.

(** [s.contains('\0')]. *)
Definition contains_nul (s : string) : bool := contains_byte Ascii.zero s.

(** ** UTF-8 *)

Definition in_range (lo hi : Z) (c : ascii) : bool :=
  (lo <=? Z.of_N (N_of_ascii c)) && (Z.of_N (N_of_ascii c) <=? hi).

Definition is_continuation (c : ascii) : bool := in_range 128 191 c.

(** [std::str::from_utf8(bytes).is_ok()]: the well-formed byte sequences of the Unicode
    standard (no overlong forms, no surrogates, nothing above U+10FFFF). *)
Fixpoint valid_utf8 (s : string) : bool :=
  match s with
  | EmptyString => true
  | String a r1 =>
      if in_range 0 127 a then valid_utf8 r1
      else match r1 with
      | EmptyString => false
      | String b r2 =>
          if in_range 194 223 a then is_continuation b && valid_utf8 r2
          else match r2 with
          | EmptyString => false
          | String c r3 =>
              let second :=
                (in_range 224 224 a && in_range 160 191 b)
                || ((in_range 225 236 a || in_range 238 239 a) && is_continuation b)
                || (in_range 237 237 a && in_range 128 159 b) in
              if in_range 224 239 a then second && is_continuation c && valid_utf8 r3
              else match r3 with
              | EmptyString => false
              | String d r4 =>
                  let second :=
                    (in_range 240 240 a && in_range 144 191 b)
                    || (in_range 241 243 a && is_continuation b)
                    || (in_range 244 244 a && in_range 128 143 b) in
                  second && is_continuation c && is_continuation d && valid_utf8 r4
              end
          end
      end
  end.

(** [s.trim().is_empty()]: every character of [s] is Unicode white space. *)
Fixpoint is_blank (s : string) : bool :=
  match s with
  | EmptyString => true
  | String a r1 =>
      if in_range 9 13 a || in_range 32 32 a then is_blank r1
      else match r1 with
      | EmptyString => false
      | String b r2 =>
          if in_range 194 194 a && (in_range 133 133 b || in_range 160 160 b) then is_blank r2
          else match r2 with
          | EmptyString => false
          | String c r3 =>
              ((in_range 225 225 a && in_range 154 154 b && in_range 128 128 c)
               || (in_range 226 226 a && in_range 128 128 b
                   && (in_range 128 138 c || in_range 168 169 c || in_range 175 175 c))
               || (in_range 226 226 a && in_range 129 129 b && in_range 159 159 c)
               || (in_range 227 227 a && in_range 128 128 b && in_range 128 128 c))
              && is_blank r3
          end
      end
  end.

(** [Option::filter] on a string option: an empty string counts as absent. *)
Definition non_empty (o : option string) : option string :=
  match o with
  | Some s => if is_empty s then None else Some s
  | None => None
  end.

(** [l.is_empty()] on a vector. *)
Definition nil_b {A} (l : list A) : bool := match l with [] => true | _ => false end.

(** ** Stable sorting

    [slice::sort_by]: stable, by a total preorder. *)

Section sort_by.
Context {A : Type} (le : A → A → bool).

Fixpoint insert_by (x : A) (l : list A) : list A :=
  match l with
  | [] => [x]
  | y :: rest => if le x y then x :: y :: rest else y :: insert_by x rest
  end.

Definition sort_by (l : list A) : list A := foldr insert_by [] l.
End sort_by.

Definition string_leb (a b : string) : bool := String.leb a b.
Definition string_ltb (a b : string) : bool := String.ltb a b.

(** Lexicographic order on [(String, String)] keys. *)
Definition key_leb (a b : string * string) : bool :=
  string_ltb a.1 b.1 || (bool_decide (a.1 = b.1) && string_leb a.2 b.2).

(** ** Ordered maps

    A [BTreeMap] is a [gmap]; its iteration order is the sorted list of its entries. *)

Definition btree_entries {K V} `{Countable K} (le : K → K → bool) (m : gmap K V)
  : list (K * V) :=
  sort_by (λ a b, le a.1 b.1) (map_to_list m).

(** [Vec::dedup]: drops each element equal to the one kept before it. *)
Fixpoint dedup (l : list string) : list string :=
  match l with
  | a :: (b :: _) as rest => if bool_decide (a = b) then dedup rest else a :: dedup rest
  | _ => l
  end.

(** ** Numbers as text *)

Definition digit_value (c : ascii) : option Z :=
  let n := Z.of_N (N_of_ascii c) in
  if (48 <=? n) && (n <=? 57) then Some (n - 48) else None.

Fixpoint parse_digits (acc : Z) (s : string) : option Z :=
  match s with
  | EmptyString => Some acc
  | String c rest =>
      match digit_value c with
      | Some d => parse_digits (acc * 10 + d) rest
      | None => None
      end
  end.

(** [str::parse::<i64>]: an optional sign, at least one digit, and a value in range. *)
Definition parse_i64 (s : string) : option Z :=
  let '(negative, digits) :=
    match s with
    | String c rest =>
        if Ascii.eqb c "-" then (true, rest)
        else if Ascii.eqb c "+" then (false, rest)
        else (false, s)
    | EmptyString => (false, s)
    end in
  if is_empty digits then None
  else match parse_digits 0 digits with
       | Some n =>
           let z := if (negative : bool) then - n else n in
           if in_i64 z then Some z else None
       | None => None
       end.

(** [str::parse::<u64>]. *)
Definition parse_u64 (s : string) : option Z :=
  let digits :=
    match s with
    | String c rest => if Ascii.eqb c "+" then rest else s
    | EmptyString => s
    end in
  if is_empty digits then None
  else match parse_digits 0 digits with
       | Some n => if in_u64 n then Some n else None
       | None => None
       end.

(** [s.rsplit_once(b)]: the text before and after the last [b]. *)
Fixpoint rsplit_once (b : ascii) (s : string) : option (string * string) :=
  match s with
  | EmptyString => None
  | String c rest =>
      match rsplit_once b rest with
      | Some (before, after) => Some (String c before, after)
      | None => if Ascii.eqb c b then Some (EmptyString, rest) else None
      end
  end.

(** ** Tactics *)

(** Splits one guard of a result-valued definition. *)
Ltac split_guard :=
  match goal with
  | |- context [match ?x with _ => _ end] => destruct x eqn:?
  | H : context [match ?x with _ => _ end] |- _ => destruct x eqn:?
  end.

Ltac inv_ok :=
  repeat match goal with
  | H : Ok _ = Ok _ |- _ => injection H as H; subst
  | H : Err _ = Err _ |- _ => injection H as H; subst
  | H : Ok _ = Err _ |- _ => discriminate H
  | H : Err _ = Ok _ |- _ => discriminate H
  | H : Some _ = Some _ |- _ => injection H as H; subst
  | H : Some _ = None |- _ => discriminate H
  | H : None = Some _ |- _ => discriminate H
  end.

(** ** Lemmas on results *)

Create HintDb evt.
Create Rewrite HintDb evt.

Lemma result_bind_ok {A B E} (c : result A E) (k : A → result B E) b :
  result_bind c k = Ok b ↔ ∃ a, c = Ok a ∧ k a = Ok b.
Proof. split; [destruct c; simpl; eauto; done|]. intros (a & -> & H). done. Qed.

Lemma result_bind_err {A B E} (c : result A E) (k : A → result B E) e :
  result_bind c k = Err e ↔ c = Err e ∨ ∃ a, c = Ok a ∧ k a = Err e.
Proof.
  split.
  - destruct c; simpl; [eauto|]. intros [= ->]. by left.
  - intros [-> | (a & -> & H)]; done.
Qed.

Lemma check_bind_ok {B E} (c : result unit E) (k : result B E) b :
  result_bind c (λ _, k) = Ok b ↔ c = Ok tt ∧ k = Ok b.
Proof.
  rewrite result_bind_ok. split.
  - intros ([] & Hc & Hk). done.
  - intros [Hc Hk]. by exists tt.
Qed.

Lemma check_each_ok {A E} (f : A → result unit E) l :
  check_each f l = Ok tt ↔ Forall (λ x, f x = Ok tt) l.
Proof.
  induction l as [|x l IH]; simpl; [by split|].
  by rewrite check_bind_ok, Forall_cons, IH.
Qed.

(** A failing loop reports the error of the first element that fails. *)
Lemma check_each_err {A E} (f : A → result unit E) l e :
  check_each f l = Err e ↔
  ∃ l1 x l2, l = l1 ++ x :: l2 ∧ Forall (λ y, f y = Ok tt) l1 ∧ f x = Err e.
Proof.
  induction l as [|x l IH]; simpl.
  - split; [done|]. intros (l1 & x & l2 & H & _). by destruct l1.
  - rewrite result_bind_err. split.
    + intros [Hx | ([] & Hx & (l1 & y & l2 & -> & H1 & Hy)%IH)].
      * by exists [], x, l.
      * exists (x :: l1), y, l2. auto.
    + intros ([|z l1] & y & l2 & Heq & H1 & Hy); simplify_eq/=; [by left|].
      inversion H1; subst. right. exists tt. split; [done|]. apply IH. by exists l1, y, l2.
Qed.

Lemma collect_ok {A B E} (f : A → result B E) l ys :
  collect f l = Ok ys ↔ Forall2 (λ x y, f x = Ok y) l ys.
Proof.
  revert ys. induction l as [|x l IH]; intros ys; simpl.
  - split; [intros [= <-]; constructor|]. by inversion 1.
  - split.
    + intros (y & Hy & (ys' & Hys & [= <-])%result_bind_ok)%result_bind_ok.
      constructor; [done|]. by apply IH.
    + intros H. inversion H as [|? y ? ys' Hy Hys]; subst.
      apply result_bind_ok. exists y. split; [done|].
      apply result_bind_ok. exists ys'. by rewrite IH.
Qed.

Lemma collect_length {A B E} (f : A → result B E) l ys :
  collect f l = Ok ys → length ys = length l.
Proof. intros H%collect_ok%Forall2_length. done. Qed.

#[export] Hint Rewrite @check_bind_ok @result_bind_ok @check_each_ok @collect_ok : evt.

(** Turns every successful step of a hypothesis [H] into the facts that made it succeed. *)
Ltac bind_inv :=
  repeat match goal with
  | H : result_bind _ (λ _ : unit, _) = Ok _ |- _ =>
      apply check_bind_ok in H; destruct H as [? H]
  | H : result_bind _ _ = Ok _ |- _ =>
      apply result_bind_ok in H; destruct H as (? & ? & H)
  end.

(** ** Lemmas on sorting *)

Section sort_by_lemmas.
Context {A : Type} (le : A → A → bool).

Lemma insert_by_Permutation x l : insert_by le x l ≡ₚ x :: l.
Proof.
  induction l as [|y l IH]; simpl; [done|]. destruct (le x y); [done|].
  rewrite IH. apply Permutation_swap.
Qed.

Lemma sort_by_Permutation l : sort_by le l ≡ₚ l.
Proof.
  induction l as [|x l IH]; simpl; [done|].
  rewrite insert_by_Permutation. by apply Permutation_skip.
Qed.

Lemma elem_of_sort_by x l : x ∈ sort_by le l ↔ x ∈ l.
Proof. by rewrite sort_by_Permutation. Qed.

Lemma sort_by_length l : length (sort_by le l) = length l.
Proof. by rewrite sort_by_Permutation. Qed.

Context (Htotal : ∀ a b, le a b = true ∨ le b a = true).

Lemma insert_by_Sorted x l :
  Sorted (λ a b, le a b = true) l → Sorted (λ a b, le a b = true) (insert_by le x l).
Proof.
  induction 1 as [|y l Hs IH Hd]; simpl; [by repeat constructor|].
  destruct (le x y) eqn:Hxy; [by repeat constructor|].
  constructor; [done|]. destruct (Htotal x y) as [|Hyx]; [congruence|].
  destruct l as [|z l]; simpl; [by constructor|].
  inversion Hd; subst. destruct (le x z); by constructor.
Qed.

Lemma sort_by_Sorted l : Sorted (λ a b, le a b = true) (sort_by le l).
Proof. induction l; simpl; [constructor|]. by apply insert_by_Sorted. Qed.

Context (Htrans : ∀ a b c, le a b = true → le b c = true → le a c = true).

Lemma sort_by_StronglySorted l : StronglySorted (λ a b, le a b = true) (sort_by le l).
Proof.
  apply Sorted_StronglySorted; [|apply sort_by_Sorted].
  intros a b c. apply Htrans.
Qed.

(** Sorting a sorted list changes nothing. *)
Lemma sort_by_id l : StronglySorted (λ a b, le a b = true) l → sort_by le l = l.
Proof.
  induction 1 as [|x l Hs IH Hall]; simpl; [done|]. rewrite IH.
  destruct l as [|y l]; simpl; [done|]. inversion Hall; subst.
  by rewrite H1.
Qed.
End sort_by_lemmas.

Lemma existsb_none {A} (p : A → bool) l : (∀ x, x ∈ l → p x = false) → existsb p l = false.
Proof.
  intros Hp. induction l as [|x l IH]; [done|]. simpl. rewrite Hp by apply list_elem_of_here.
  apply IH. intros y Hy. apply Hp. by apply list_elem_of_further.
Qed.

(** Sorting by a key that [f] keeps commutes with [f]. *)
Lemma sort_by_map {A B} (f : A → B) (le : A → A → bool) (le' : B → B → bool) l :
  (∀ a b, le' (f a) (f b) = le a b) → sort_by le' (map f l) = map f (sort_by le l).
Proof.
  intros Hle. unfold sort_by. induction l as [|x l IH]; [done|]. simpl. rewrite IH. clear IH.
  induction (foldr (insert_by le) [] l) as [|y k IH]; [done|]. simpl. rewrite Hle.
  destruct (le x y); [done|]. simpl. by rewrite IH.
Qed.

Lemma string_leb_total a b : string_leb a b = true ∨ string_leb b a = true.
Proof.
  destruct (total String.le a b) as [H|H]; [left|right]; by apply Is_true_true in H.
Qed.

Lemma string_leb_trans a b c :
  string_leb a b = true → string_leb b c = true → string_leb a c = true.
Proof.
  intros H1 H2. apply Is_true_true. transitivity b; by apply Is_true_true.
Qed.

Lemma string_leb_antisym a b : string_leb a b = true → string_leb b a = true → a = b.
Proof. intros H1 H2. apply (anti_symm String.le); by apply Is_true_true. Qed.

Lemma string_ltb_leb a b : string_ltb a b = negb (string_leb b a).
Proof.
  unfold string_ltb, string_leb, String.ltb, String.leb.
  rewrite (String.compare_antisym b a). by destruct (String.compare a b).
Qed.

(** The order of view keys. *)

Lemma key_leb_cases a b :
  key_leb a b = true ↔ string_ltb a.1 b.1 = true ∨ (a.1 = b.1 ∧ string_leb a.2 b.2 = true).
Proof.
  unfold key_leb. rewrite orb_true_iff, andb_true_iff. by rewrite bool_decide_eq_true.
Qed.

Lemma string_ltb_trans_leb a b c :
  string_ltb a b = true → string_leb b c = true → string_ltb a c = true.
Proof.
  rewrite !string_ltb_leb, !negb_true_iff. intros Hab Hbc. apply not_true_iff_false. intros Hca.
  rewrite (string_leb_trans _ _ _ Hbc Hca) in Hab. done.
Qed.

Lemma string_ltb_le a b : string_ltb a b = true → string_leb a b = true.
Proof.
  rewrite string_ltb_leb, negb_true_iff. intros Hba. by destruct (string_leb_total a b); [|congruence].
Qed.

Lemma key_leb_total a b : key_leb a b = true ∨ key_leb b a = true.
Proof.
  rewrite !key_leb_cases. destruct (string_ltb a.1 b.1) eqn:Hab; [by left; left|].
  rewrite string_ltb_leb in Hab. apply negb_false_iff in Hab.
  destruct (string_ltb b.1 a.1) eqn:Hba; [by right; left|].
  rewrite string_ltb_leb in Hba. apply negb_false_iff in Hba.
  pose proof (string_leb_antisym _ _ Hab Hba) as Heq.
  destruct (string_leb_total a.2 b.2); [left|right]; right; by split.
Qed.

Lemma key_leb_fst a b : key_leb a b = true → string_leb a.1 b.1 = true.
Proof.
  rewrite key_leb_cases. intros [Hlt|[-> _]]; [by apply string_ltb_le|].
  by destruct (string_leb_total b.1 b.1).
Qed.

Lemma key_leb_trans a b c : key_leb a b = true → key_leb b c = true → key_leb a c = true.
Proof.
  intros Hab Hbc. pose proof (key_leb_fst _ _ Hab) as H1. pose proof (key_leb_fst _ _ Hbc) as H2.
  rewrite key_leb_cases in Hab, Hbc |- *. destruct Hab as [Hab|[Hab Hab']].
  - left. by eapply string_ltb_trans_leb.
  - rewrite Hab. destruct Hbc as [Hbc|[Hbc Hbc']]; [by left|]. right. split; [done|].
    by eapply string_leb_trans.
Qed.

Lemma key_leb_antisym a b : key_leb a b = true → key_leb b a = true → a = b.
Proof.
  intros Hab Hba. pose proof (string_leb_antisym _ _ (key_leb_fst _ _ Hab) (key_leb_fst _ _ Hba)) as Heq.
  rewrite key_leb_cases in Hab, Hba. rewrite Heq in Hab, Hba.
  assert (string_ltb b.1 b.1 = false) as Hirr.
  { rewrite string_ltb_leb. apply negb_false_iff. by destruct (string_leb_total b.1 b.1). }
  destruct Hab as [?|[_ Hab]]; [congruence|]. destruct Hba as [?|[_ Hba]]; [congruence|].
  destruct a, b. simpl in *. subst. f_equal. by apply string_leb_antisym.
Qed.

Lemma elem_of_btree_entries {K V} `{Countable K} le (m : gmap K V) k v :
  (k, v) ∈ btree_entries le m ↔ m !! k = Some v.
Proof. unfold btree_entries. by rewrite elem_of_sort_by, elem_of_map_to_list. Qed.

(** ** Lemmas on numbers as text *)

Lemma digit_value_pretty n : (n < 10)%N → digit_value (pretty_N_char n) = Some (Z.of_N n).
Proof.
  intros Hn. assert (n = 0 ∨ n = 1 ∨ n = 2 ∨ n = 3 ∨ n = 4 ∨ n = 5 ∨ n = 6 ∨ n = 7 ∨ n = 8 ∨ n = 9)%N
    as Hcases by lia.
  destruct_or! Hcases; subst; reflexivity.
Qed.

Lemma parse_digits_pretty_go x :
  ∀ s, ∃ k, 0 ≤ k ∧ ∀ acc,
    parse_digits acc (pretty_N_go x s) = parse_digits (acc * 10 ^ k + Z.of_N x) s.
Proof.
  induction (N.lt_wf_0 x) as [x _ IH]; intros s.
  destruct (decide (0 < x)%N) as [Hpos|Hz].
  - rewrite pretty_N_go_step by done.
    destruct (IH (x `div` 10)%N) with (s := String (pretty_N_char (x `mod` 10)) s)
      as (k & Hk & Hparse); [by apply N.div_lt|].
    exists (k + 1). split; [lia|]. intros acc. rewrite Hparse. simpl.
    rewrite digit_value_pretty by (by apply N.mod_lt). f_equal.
    rewrite Z.pow_add_r by lia. rewrite N2Z.inj_div, N2Z.inj_mod. simpl.
    pose proof (Z.div_mod (Z.of_N x) 10). lia.
  - assert (x = 0%N) as -> by lia. exists 0. split; [lia|]. intros acc.
    rewrite pretty_N_go_0. f_equal. lia.
Qed.

Lemma parse_digits_pretty (x : N) : parse_digits 0 (pretty x) = Some (Z.of_N x).
Proof.
  unfold pretty, pretty_N. destruct (decide (x = 0%N)) as [->|_]; [done|].
  destruct (parse_digits_pretty_go x "") as (k & _ & Hparse). rewrite Hparse. done.
Qed.

Lemma pretty_N_not_empty (x : N) : is_empty (pretty x) = false.
Proof.
  destruct (pretty x) eqn:E; [|done]. pose proof (parse_digits_pretty x) as H.
  rewrite E in H. simpl in H. assert (x = 0%N) as -> by (inversion H; lia). done.
Qed.

Lemma pretty_N_first (x : N) c rest :
  pretty x = String c rest → digit_value c ≠ None.
Proof.
  intros E. pose proof (parse_digits_pretty x) as H. rewrite E in H. simpl in H.
  by destruct (digit_value c).
Qed.

(** The digits of a natural number carry no sign. *)
Lemma pretty_N_unsigned (x : N) c rest :
  pretty x = String c rest → Ascii.eqb c "-" = false ∧ Ascii.eqb c "+" = false.
Proof.
  intros E. pose proof (pretty_N_first _ _ _ E) as Hc.
  destruct (Ascii.eqb_spec c "-") as [->|_]; [done|].
  destruct (Ascii.eqb_spec c "+") as [->|_]; done.
Qed.

(** Printing and parsing a number are inverse. *)
Lemma parse_i64_shown z : parse_i64 (show z) = if in_i64 z then Some z else None.
Proof.
  unfold parse_i64, show. destruct z as [|p|p]; [done| |].
  - change (pretty (Zpos p)) with (pretty (Npos p)).
    pose proof (parse_digits_pretty (Npos p)) as Hp.
    pose proof (pretty_N_not_empty (Npos p)) as Hne.
    destruct (pretty (Npos p)) as [|c rest] eqn:E; [done|].
    destruct (pretty_N_unsigned _ _ _ E) as [-> ->].
    by rewrite Hne, Hp.
  - change (pretty (Zneg p)) with (String "-" (pretty (Npos p))).
    cbv iota beta. rewrite (Ascii.eqb_refl "-"). cbv iota beta.
    by rewrite (pretty_N_not_empty (Npos p)), (parse_digits_pretty (Npos p)).
Qed.

Lemma parse_i64_show z : in_i64 z = true → parse_i64 (show z) = Some z.
Proof. intros Hz. by rewrite parse_i64_shown, Hz. Qed.

Lemma rsplit_once_app b s t :
  contains_byte b t = false → rsplit_once b (s +:+ String b t) = Some (s, t).
Proof.
  intros Ht. assert (rsplit_once b t = None) as Hnone.
  { induction t as [|c t IH]; simpl in *; [done|].
    apply orb_false_iff in Ht as [Hc Ht]. by rewrite IH, Hc. }
  induction s as [|c s IH]; simpl.
  - by rewrite Hnone, Ascii.eqb_refl.
  - change (String.append s (String b t)) with (s +:+ String b t). by rewrite IH.
Qed.

Lemma parse_digits_contains acc s n b :
  parse_digits acc s = Some n → digit_value b = None → contains_byte b s = false.
Proof.
  revert acc. induction s as [|c s IH]; intros acc Hp Hb; simpl in *; [done|].
  destruct (digit_value c) as [d|] eqn:Hc; [|done]. rewrite (IH _ Hp Hb), orb_false_r.
  apply Ascii.eqb_neq. intros ->. congruence.
Qed.

Lemma show_contains b z :
  digit_value b = None → b ≠ "-"%char → contains_byte b (show z) = false.
Proof.
  intros Hb Hm. unfold show. destruct z as [|p|p].
  - simpl. rewrite orb_false_r. apply Ascii.eqb_neq. by intros <-.
  - apply (parse_digits_contains _ _ _ _ (parse_digits_pretty (Npos p)) Hb).
  - change (pretty (Zneg p)) with (String "-" (pretty (Npos p))). simpl.
    rewrite (parse_digits_contains _ _ _ _ (parse_digits_pretty (Npos p)) Hb), orb_false_r.
    by apply Ascii.eqb_neq, not_eq_sym.
Qed.

(** ** Lemmas on ordered maps *)

Section btree.
Context {K V : Type} `{Countable K} (le : K → K → bool).
Context (Htotal : ∀ a b, le a b = true ∨ le b a = true).
Context (Htrans : ∀ a b c, le a b = true → le b c = true → le a c = true).

Lemma btree_entries_sorted (m : gmap K V) :
  StronglySorted (λ a b, le a.1 b.1 = true) (btree_entries le m).
Proof.
  apply sort_by_StronglySorted.
  - intros a b. apply Htotal.
  - intros a b c. apply Htrans.
Qed.
End btree.

Lemma btree_entries_NoDup {K V} `{Countable K} le (m : gmap K V) :
  NoDup (map fst (btree_entries le m)).
Proof.
  unfold btree_entries. rewrite (Permutation_map fst (sort_by_Permutation _ _)).
  apply NoDup_fst_map_to_list.
Qed.

Lemma Zleb_total a b : Z.leb a b = true ∨ Z.leb b a = true.
Proof. lia. Qed.

Lemma Zleb_trans a b c : Z.leb a b = true → Z.leb b c = true → Z.leb a c = true.
Proof. lia. Qed.

Lemma StronglySorted_last {A} (R : A → A → Prop) l x y :
  StronglySorted R l → last l = Some x → y ∈ l → y = x ∨ R y x.
Proof.
  intros Hs. revert x y. induction Hs as [|a l Hs IH Hall]; intros x y Hl Hy; [done|].
  destruct l as [|b l].
  - injection Hl as ->. left. by apply list_elem_of_singleton in Hy.
  - change (last (a :: b :: l)) with (last (b :: l)) in Hl.
    apply elem_of_cons in Hy as [->|Hy]; [|by apply IH].
    right. rewrite Forall_forall in Hall. apply Hall. by apply last_Some_elem_of.
Qed.

(** Two sorted lists of the same elements are equal when the order is antisymmetric on them. *)
Lemma StronglySorted_Permutation_eq {A} (R : A → A → Prop) l1 l2 :
  (∀ a b, a ∈ l1 → b ∈ l1 → R a b → R b a → a = b) →
  StronglySorted R l1 → StronglySorted R l2 → l1 ≡ₚ l2 → l1 = l2.
Proof.
  intros Hanti Hs1. revert l2 Hanti. induction Hs1 as [|a l1 Hs1 IH Hall]; intros l2 Hanti Hs2 Hp.
  { by apply Permutation_nil_l in Hp. }
  destruct Hs2 as [|b l2 Hs2 Hall2]; [by apply Permutation_nil_r in Hp|].
  assert (a = b) as ->.
  { assert (a ∈ b :: l2) as Ha by (rewrite <-Hp; by apply list_elem_of_here).
    assert (b ∈ a :: l1) as Hb by (rewrite Hp; by apply list_elem_of_here).
    apply elem_of_cons in Ha as [|Ha]; [done|]. apply elem_of_cons in Hb as [|Hb]; [done|].
    rewrite Forall_forall in Hall, Hall2. apply Hanti.
    - apply list_elem_of_here.
    - by apply list_elem_of_further.
    - by apply Hall.
    - by apply Hall2. }
  f_equal. apply IH; [|done|by apply Permutation_cons_inv in Hp].
  intros x y Hx Hy. apply Hanti; by apply list_elem_of_further.
Qed.

(** ** Lemmas on boolean filters *)

Lemma elem_of_list_filter {A} (p : A → bool) l x : x ∈ List.filter p l ↔ x ∈ l ∧ p x = true.
Proof. rewrite !list_elem_of_In. apply filter_In. Qed.

Lemma StronglySorted_filter {A} (R : A → A → Prop) (p : A → bool) l :
  StronglySorted R l → StronglySorted R (List.filter p l).
Proof.
  induction 1 as [|x l Hs IH Hall]; simpl; [constructor|]. destruct (p x); [|done].
  constructor; [done|]. apply Forall_forall. intros y Hy%elem_of_list_filter.
  rewrite Forall_forall in Hall. apply Hall, Hy.
Qed.

Lemma filter_all {B} (p : B → bool) l : Forall (λ x, p x = true) l → List.filter p l = l.
Proof. induction 1 as [|x l Hx _ IH]; [done|]. simpl. by rewrite Hx, IH. Qed.

Lemma NoDup_fmap_eq {B C} (f : B → C) l x y :
  NoDup (map f l) → x ∈ l → y ∈ l → f x = f y → x = y.
Proof.
  intros Hnd Hx Hy Heq. apply list_elem_of_lookup_1 in Hx as [i Hi], Hy as [j Hj].
  assert (i = j) as ->; [|congruence].
  apply (NoDup_lookup _ _ _ (f x) Hnd); by rewrite list_lookup_fmap, ?Hi, ?Hj; simpl; rewrite ?Heq.
Qed.

Lemma NoDup_map_filter {A B} (f : A → B) p l : NoDup (map f l) → NoDup (map f (List.filter p l)).
Proof.
  induction l as [|x l IH]; simpl; [done|]. intros [Hnin Hnd]%NoDup_cons.
  destruct (p x); simpl; [|by apply IH]. apply NoDup_cons. split; [|by apply IH].
  intros (y & Heq & Hy%elem_of_list_filter)%list_elem_of_fmap. apply Hnin.
  rewrite Heq. apply list_elem_of_fmap_2, Hy.
Qed.

(** ** Sorted lists without repeats *)

Lemma dedup_cons a b l :
  dedup (a :: b :: l) = if bool_decide (a = b) then dedup (b :: l) else a :: dedup (b :: l).
Proof. done. Qed.

Lemma dedup_elem_of x l : x ∈ dedup l ↔ x ∈ l.
Proof.
  induction l as [|a [|b l] IH]; [done|done|]. rewrite dedup_cons. case_bool_decide as Hab.
  - subst b. rewrite IH, !elem_of_cons. tauto.
  - by rewrite !elem_of_cons, IH, elem_of_cons.
Qed.

Lemma dedup_hd l : head (dedup l) = head l.
Proof.
  induction l as [|a [|b l] IH]; [done|done|]. rewrite dedup_cons. case_bool_decide as Hab; [|done].
  subst b. by rewrite IH.
Qed.

(** [sort()] and [dedup()] leave each element once, in strictly ascending order. *)
Lemma sort_dedup_ascending l :
  Sorted (λ a b, string_ltb a b = true) (dedup (sort_by string_leb l)).
Proof.
  pose proof (sort_by_Sorted string_leb string_leb_total l) as Hs. revert Hs.
  generalize (sort_by string_leb l). clear l. intros l.
  induction l as [|a [|b l] IH]; intros Hs; [constructor|by repeat constructor|].
  inversion Hs as [|? ? Htail Hhd]; subst. inversion Hhd as [|? ? Hle]; subst.
  rewrite dedup_cons. case_bool_decide as Hab; [by apply IH|]. constructor; [by apply IH|].
  pose proof (dedup_hd (b :: l)) as Hd. destruct (dedup (b :: l)) as [|c l']; [constructor|].
  simpl in Hd. injection Hd as ->. constructor. rewrite string_ltb_leb. apply negb_true_iff.
  destruct (string_leb b a) eqn:Hba; [|done]. destruct Hab. by apply string_leb_antisym.
Qed.

(** ** Lists of lists, and lists side by side *)

Lemma elem_of_concat {A} (x : A) ls : x ∈ concat ls ↔ ∃ l, x ∈ l ∧ l ∈ ls.
Proof.
  rewrite list_elem_of_In, in_concat. split; intros (l & H1 & H2); exists l;
    rewrite !list_elem_of_In in *; done.
Qed.

Lemma zip_with_app_take {A B C} (f : A → B → C) l1 l2 k :
  zip_with f (l1 ++ l2) k = zip_with f l1 k ++ zip_with f l2 (drop (length l1) k).
Proof.
  revert k. induction l1 as [|a l1 IH]; intros k; [by rewrite drop_0|].
  destruct k as [|b k]; simpl; [by destruct l2|]. by rewrite IH.
Qed.

Lemma elem_of_Forall2_r {A B} (R : A → B → Prop) l k y :
  Forall2 R l k → y ∈ k → ∃ x, x ∈ l ∧ R x y.
Proof.
  induction 1 as [|a b l k Hab _ IH]; intros Hy; [by apply not_elem_of_nil in Hy|].
  apply elem_of_cons in Hy as [->|Hy]; [exists a; split; [apply list_elem_of_here|done]|].
  destruct (IH Hy) as (x & Hx & HR). exists x. split; [by apply list_elem_of_further|done].
Qed.

Lemma elem_of_Forall2_l {A B} (R : A → B → Prop) l k x :
  Forall2 R l k → x ∈ l → ∃ y, y ∈ k ∧ R x y.
Proof.
  intros HR Hx. apply Forall2_flip in HR.
  destruct (elem_of_Forall2_r _ _ _ _ HR Hx) as (y & ? & ?). by exists y.
Qed.
