(* ===== verification/Types.v ===== *)
(** * Shared data types

    The data every component reads and writes: identifiers and sequences ([ids.rs]), metadata
    ([metadata.rs]), stored events and snapshots ([event.rs]), view operations and rows
    ([projection.rs]), outcomes and rejections ([outcome.rs]), the rebuild fence's rows
    ([rebuild.rs]), and the error type with its classifiers ([error.rs]). *)

From S2P Require Import Prelude.

(** ** Identifiers

    The [string_id!] newtypes are strings, the [number_id!] newtypes are [i64]s. *)

Abbreviation EntityId := string (only parsing).
Abbreviation EntityType := string (only parsing).
Abbreviation EventType := string (only parsing).
Abbreviation EventId := string (only parsing).
Abbreviation CommandId := string (only parsing).
Abbreviation PrincipalId := string (only parsing).
Abbreviation EventSequence := Z (only parsing).
Abbreviation EventVersion := Z (only parsing).

(** crates/evt/src/ids.rs:201-203 [EventSequence::next] *)
Definition next (sequence : EventSequence) : EventSequence :=
  i64_saturating_add sequence 1.

(** crates/evt/src/ids.rs:206-211 [EventSequence::checked_next] *)
Definition checked_next (sequence : EventSequence) : option EventSequence :=
  i64_checked_add sequence 1.

(** crates/evt/src/ids.rs:136-141 [EventId::for_event] *)
Definition for_event (entity_id : EntityId) (sequence : EventSequence) : EventId :=
  entity_id +:+ ":" +:+ show sequence.

(** ** Metadata *)

(** crates/evt/src/metadata.rs:68-78 [Origin] *)
Record Origin := mkOrigin { or_source : string; or_endpoint : string }.

(** crates/evt/src/metadata.rs:22-65 [Metadata] *)
Record Metadata := mkMetadata {
  md_command_id : option CommandId;
  md_trace : option (gmap string string);
  md_origin : option Origin;
  md_address : option string;
  md_region : string;
  md_timestamp : string;
  md_principal_id : option PrincipalId;
  md_causation_id : option CommandId;
  md_extensions : gmap string string;
  md_commit_id : string
}.

(** [Metadata::default()]. *)
Definition Metadata_default : Metadata :=
  mkMetadata None None None None "" "" None None ∅ "".

(** crates/evt/src/metadata.rs:164-166 [Metadata::effective_causation_id] *)
Definition effective_causation_id (m : Metadata) : option CommandId :=
  match md_causation_id m with
  | Some causation => Some causation
  | None => md_command_id m
  end.

#[export] Instance Origin_eq_dec : EqDecision Origin.
Proof. solve_decision. Defined.
#[export] Instance Metadata_eq_dec : EqDecision Metadata.
Proof. solve_decision. Defined.

Definition with_commit_id (m : Metadata) (commit_id : string) : Metadata :=
  mkMetadata (md_command_id m) (md_trace m) (md_origin m) (md_address m) (md_region m)
    (md_timestamp m) (md_principal_id m) (md_causation_id m) (md_extensions m) commit_id.

Definition with_extensions (m : Metadata) (extensions : gmap string string) : Metadata :=
  mkMetadata (md_command_id m) (md_trace m) (md_origin m) (md_address m) (md_region m)
    (md_timestamp m) (md_principal_id m) (md_causation_id m) extensions (md_commit_id m).

Definition with_causation (m : Metadata) (causation : option CommandId) : Metadata :=
  mkMetadata (md_command_id m) (md_trace m) (md_origin m) (md_address m) (md_region m)
    (md_timestamp m) (md_principal_id m) causation (md_extensions m) (md_commit_id m).

(** ** Stored events and snapshots *)

(** crates/evt/src/event.rs:15-48 [SerializedEvent] *)
Record SerializedEvent := mkEvent {
  ev_id : EventId;
  ev_sequence : EventSequence;
  ev_type : EventType;
  ev_version : EventVersion;
  ev_entity_id : EntityId;
  ev_entity_type : EntityType;
  ev_payload : string;
  ev_metadata : Metadata
}.

(** crates/evt/src/event.rs:66-87 [SerializedSnapshot] *)
Record SerializedSnapshot := mkSnapshot {
  sn_entity_type : EntityType;
  sn_entity_id : EntityId;
  sn_sequence : EventSequence;
  sn_event_sequence : EventSequence;
  sn_payload : string
}.

#[export] Instance SerializedEvent_eq_dec : EqDecision SerializedEvent.
Proof. solve_decision. Defined.
#[export] Instance SerializedSnapshot_eq_dec : EqDecision SerializedSnapshot.
Proof. solve_decision. Defined.

Definition with_metadata (e : SerializedEvent) (m : Metadata) : SerializedEvent :=
  mkEvent (ev_id e) (ev_sequence e) (ev_type e) (ev_version e) (ev_entity_id e)
    (ev_entity_type e) (ev_payload e) m.

(** ** JSON values

    [serde_json::Value], the type of a rejection's details. A number is kept as its text. *)

Inductive Value :=
| VNull
| VBool (b : bool)
| VNumber (text : string)
| VString (s : string)
| VArray (items : list Value)
| VObject (members : list (string * Value)).

Definition is_null (v : Value) : bool := match v with VNull => true | _ => false end.
Definition is_object (v : Value) : bool := match v with VObject _ => true | _ => false end.

(** ** Rejections and outcomes *)

(** crates/evt/src/outcome.rs:168-179 [Rejection] *)
Record Rejection := mkRejection {
  rj_code : string;
  rj_message : string;
  rj_details : option Value
}.

(** crates/evt/src/outcome.rs:48-55 [OutcomeStatus] *)
Inductive OutcomeStatus := Accepted | Rejected.

#[export] Instance OutcomeStatus_eq_dec : EqDecision OutcomeStatus.
Proof. solve_decision. Defined.

(** crates/evt/src/outcome.rs:402-411 [RecordedIdentity] *)
Record RecordedIdentity := mkIdentity {
  ri_command_type : string;
  ri_targets : list EntityId;
  ri_principal : option PrincipalId
}.

(** crates/evt/src/outcome.rs:374-397 [Outcome] *)
Record Outcome := mkOutcome {
  oc_command_id : CommandId;
  oc_status : OutcomeStatus;
  oc_digest : string;
  oc_response : option string;
  oc_event_ids : list EventId;
  oc_rejection : option Rejection;
  oc_identity : option RecordedIdentity
}.

(** ** View operations and rows *)

(** crates/evt/src/projection.rs:51-59 [ViewOperationKind] *)
Inductive ViewOperationKind := Put | Delete.

(** crates/evt/src/projection.rs:72-81 [ViewCondition] *)
Inductive ViewCondition := CondNone | CondAbsent | CondPresent.

#[export] Instance ViewOperationKind_eq_dec : EqDecision ViewOperationKind.
Proof. solve_decision. Defined.
#[export] Instance ViewCondition_eq_dec : EqDecision ViewCondition.
Proof. solve_decision. Defined.

(** The dynamic error an application attaches to a view operation: the journal's
    [PositionTaken], which the journal tells apart by its type, or any other error. *)
Inductive AppError :=
| PositionTaken (scope : string) (position : Z)
| OtherError (text : string).

#[export] Instance AppError_eq_dec : EqDecision AppError.
Proof. solve_decision. Defined.

(** crates/evt/src/projection.rs:88-132 [ViewOperation] *)
Record ViewOperation := mkViewOperation {
  vo_kind : ViewOperationKind;
  vo_pk : string;
  vo_sk : string;
  vo_owner : EntityId;
  vo_entity_type : string;
  vo_payload : string;
  vo_condition : ViewCondition;
  vo_conflict : option AppError;
  vo_expected_payload : option string
}.

(** crates/evt/src/projection.rs:258-275 [ViewRow] *)
Record ViewRow := mkViewRow {
  vr_pk : string;
  vr_sk : string;
  vr_entity_id : string;
  vr_entity_type : string;
  vr_payload : string;
  vr_ttl : Z
}.

#[export] Instance ViewOperation_eq_dec : EqDecision ViewOperation.
Proof. solve_decision. Defined.
#[export] Instance ViewRow_eq_dec : EqDecision ViewRow.
Proof. solve_decision. Defined.

(** crates/evt/src/projection.rs:529-540 [ProjectedView] *)
Record ProjectedView := mkProjectedView {
  pv_projector : string;
  pv_projector_index : Z;
  pv_operation : Z;
  pv_op : ViewOperation
}.

#[export] Instance ProjectedView_eq_dec : EqDecision ProjectedView.
Proof. solve_decision. Defined.

(** crates/evt/src/projection.rs:594-619 [ProjectorOperationError] *)
Record ProjectorOperationError := mkProjectorOperationError {
  po_projector : string;
  po_projector_index : Z;
  po_operation : Z;
  po_kind : ViewOperationKind;
  po_pk : string;
  po_sk : string;
  po_reason : string;
  po_mapped : option AppError;
  po_cause : option AppError
}.

(** ** Fences and the rebuild fence's rows *)

(** crates/evt/src/repository.rs:248-254 [FenceProvenance] *)
Inductive FenceProvenance := Engine | Caller.

#[export] Instance FenceProvenance_eq_dec : EqDecision FenceProvenance.
Proof. solve_decision. Defined.

(** crates/evt/src/rebuild.rs:168-176 [RebuildLease] *)
Record RebuildLease := mkRebuildLease {
  le_owner : string;
  le_generation : Z;
  le_expires_at : Z
}.

(** crates/evt/src/error.rs:748-762 [RowTooLarge] *)
Record RowTooLarge := mkRowTooLarge {
  rt_scope : string;
  rt_position : Z;
  rt_event_id : string;
  rt_size : Z;
  rt_limit : Z
}.

(** crates/evt/src/journal/compaction.rs:338-349 [JournalGone] *)
Record JournalGoneInfo := mkJournalGone {
  jg_scope : string;
  jg_after : Z;
  jg_checkpoint : Z;
  jg_chunk_count : Z;
  jg_digest : string
}.

(** crates/evt/src/error.rs:829-836 [ReplayPhase] *)
Inductive ReplayPhase := Upcast | Deserialize.

(** ** Errors

    [BoxError] is a dynamically typed error; the constructors are the concrete types the crate
    boxes or downcasts to. *)

(** crates/evt/src/error.rs:13-684 [Error] *)
Inductive Error :=
| Conflict (entity_id : EntityId) (message : Message)
| SequenceGap (entity_id : EntityId) (after found : EventSequence)
| DuplicateCommand (command_id : CommandId)
| StreamHeadDrift (entity_id : EntityId) (stored : option EventSequence)
    (derived : EventSequence)
| StreamHeadsNotMigrated
| StoreNotInitialized
| CompactionUncovered (entity_id : EntityId) (through : EventSequence)
    (covered : option EventSequence)
| Replay (event_type : EventType) (version : EventVersion) (phase : ReplayPhase)
    (source : BoxError)
| SnapshotError (entity_id : EntityId) (source : string)
| InvalidRecord (message : Message)
| CommitTooLarge (actions bytes largest_item : Z)
| FenceConflict (entity_id : EntityId) (head : EventSequence) (provenance : FenceProvenance)
| CommandOrder (reason : string)
| ProjectorWithoutEvents (operations : Z)
| ProjectorSetConflict (entity_id : EntityId)
| TransactionPoisoned
| RetentionConflict (entity_type : EntityType)
| RebuildInProgress
| RebuildLockHeld (owner : string) (lease_expires_at : Z)
| RebuildLeaseLost (owner : string)
| RebuildConflict (attempts : Z)
| RebuildBeginIndeterminate (lease : RebuildLease) (observed : Z) (source : BoxError)
| RebuildStateInvalid (message : Message)
| RebuildUnavailable (generation : Z) (force_released : bool)
| RebuildEpochChanged (observed current : Z)
| Json (source : string)
| Handler (source : BoxError)
| Projector (source : BoxError)
| ProjectorOperation (operation : ProjectorOperationError)
| InvalidViewOperation (message : Message)
| ViewKeyTooLong (field : string) (length max : Z) (projector : string) (operation : Z)
| DuplicateViewKey (pk sk : string) (first second : string * Z)
| ReservedViewKey (pk : string) (projector : string) (operation : Z)
| CommitOrder (commits : list string)
| SharedViewKey (pk sk first second : string)
| ViewsUnsupported (repository : string)
| ExpectedPayloadUnsupported (repository : string)
| HistoryDeclarationUnsupported (repository : string)
| ViewsNotConfigured (backend : string)
| JournalRowTooLarge (row : RowTooLarge)
| InvalidJournal (message : Message)
| JournalGone (gone : JournalGoneInfo)
| JournalSnapshotMoved (scope : string) (checkpoint : Z)
| ForeignJournalRow (pk sk owner entity_type : string)
| CompactionLeaseHeld (scope owner : string) (lease_expires_at : Z)
| CompactionLeaseLost (scope owner : string)
| Transient (source : BoxError)
| InvalidCommit (message : Message)
| InvalidConfig (message : Message)
| InvalidArgument (message : Message)
| ReservedEntityId (entity_id : EntityId)
| UnsupportedFeature (feature : string) (version : Z)
| HistoryDependentProjection (entity_type : EntityType) (entity_id : EntityId)
| CommandIdTooLong (length : Z)
| OutcomeTooLarge (what : string) (size : Z)
| IdempotencyKeyReuse (command_id : CommandId) (prior_outcome : Outcome)
| OutcomePrincipalMismatch (command_id : CommandId) (recorded : bool)
| OutcomeConflict (command_id : CommandId)
| AmbiguousWrite (command_id : CommandId) (source : BoxError)
| Indeterminate (source : BoxError)
| Backend (source : BoxError)
with BoxError :=
| BoxText (text : string)
| BoxApp (error : AppError)
| BoxCrate (error : Error)
| TransactionConflict (entity_id : EntityId) (source : BoxError)
| RecoveryReadFailed (commit : BoxError) (read : Error)
| CommitProjectorFailed (projector : string) (source : BoxError)
| BoxPayload (error : PayloadError)
with PayloadError :=
| UnknownType (event_type : string)
| VersionMismatch (event_type : string) (stored expected : EventVersion)
| PayloadJson (source : string).

(** A fallible operation of the crate: [Result<A, Error>]. *)
Abbreviation Result A := (result A Error).

(** crates/evt/src/error.rs:704-709 [Error::is_conflict] *)
Definition is_conflict (e : Error) : bool :=
  match e with
  | Conflict _ _ | SequenceGap _ _ _ | FenceConflict _ _ _ => true
  | _ => false
  end.

(** crates/evt/src/error.rs:712-714 [Error::is_duplicate_command] *)
Definition is_duplicate_command (e : Error) : bool :=
  match e with DuplicateCommand _ => true | _ => false end.

(** crates/evt/src/error.rs:722-739 [Error::is_retryable] *)
Definition is_retryable (e : Error) : bool :=
  match e with
  | Conflict _ _
  | SequenceGap _ _ _
  | Transient _
  | AmbiguousWrite _ _
  | RebuildInProgress
  | RebuildConflict _
  | RebuildUnavailable _ _
  | RebuildEpochChanged _ _
  | JournalSnapshotMoved _ _
  | FenceConflict _ _ Engine => true
  | _ => false
  end.

(** crates/evt/src/error.rs:848-858 [ExecuteError] *)
Inductive ExecuteError (E : Type) :=
| ExRejected (error : E)
| ExStore (error : Error).
Arguments ExRejected {E} error.
Arguments ExStore {E} error.

(** crates/evt/src/error.rs:862-867 [ExecuteError::as_store_error] *)
Definition as_store_error {E} (e : ExecuteError E) : option Error :=
  match e with
  | ExStore err => Some err
  | ExRejected _ => None
  end.

(** crates/evt/src/error.rs:881-883 [ExecuteError::is_retryable] *)
Definition execute_error_is_retryable {E} (e : ExecuteError E) : bool :=
  match as_store_error e with
  | Some err => is_retryable err
  | None => false
  end.

(** ** Lemmas on sequences and event IDs *)

Lemma next_in_range s : 0 ≤ s < i64_max → next s = s + 1.
Proof. unfold next, i64_saturating_add, i64_max, i64_min. lia. Qed.

Lemma checked_next_Some s t : checked_next s = Some t → t = s + 1 ∧ t ≤ i64_max.
Proof.
  unfold checked_next, i64_checked_add, in_i64. intros H.
  destruct (_ && _) eqn:E; inv_ok. apply andb_prop in E. lia.
Qed.

Lemma checked_next_spec s t : 0 ≤ s → checked_next s = Some t ↔ t = s + 1 ∧ t ≤ i64_max.
Proof.
  intros Hs. split; [apply checked_next_Some|]. intros [-> Ht].
  unfold checked_next, i64_checked_add, in_i64.
  replace (i64_min <=? s + 1) with true by (unfold i64_min; lia).
  by replace (s + 1 <=? i64_max) with true by lia.
Qed.

#[export] Hint Resolve next_in_range : evt.
