(* ===== verification/Features.v ===== *)
(** * Failure classification

    [heads.rs]: the failure-path probe that compares a stream's stored head with the head its
    log implies, the verdicts it leads to, and the rank by which a commit with several failed
    items reports one error. *)

From S2P Require Import Prelude Types.

(** crates/evt/src/repository.rs:257-268 [ReadFence] *)
Record ReadFence := mkReadFence {
  fe_entity_id : EntityId;
  fe_entity_type : EntityType;
  fe_head : EventSequence;
  fe_provenance : FenceProvenance
}.

#[export] Instance ReadFence_eq_dec : EqDecision ReadFence.
Proof. solve_decision. Defined.

(** crates/evt/src/heads.rs:20-29 [Probe] *)
Inductive Probe := Drift | Settled | Ahead.

#[export] Instance Probe_eq_dec : EqDecision Probe.
Proof. solve_decision. Defined.

(** crates/evt/src/heads.rs:33-39 [Probe::first] *)
Definition probe_first (stored derived : EventSequence) : Probe :=
  match stored ?= derived with
  | Lt => Drift
  | Eq => Settled
  | Gt => Ahead
  end.

(** crates/evt/src/heads.rs:44-50 [Probe::after_rederive] *)
Definition after_rederive (stored rederived : EventSequence) : Probe :=
  if rederived <? stored then Drift else Settled.

(** crates/evt/src/heads.rs:54-60 [drift] *)
Definition drift (entity_id : EntityId) (stored derived : EventSequence) : Error :=
  StreamHeadDrift entity_id (if 0 <? stored then Some stored else None) derived.

(** crates/evt/src/heads.rs:81-87 [conflict] *)
Definition conflict (entity_id : EntityId) : Error :=
  Conflict entity_id
    (Fmt "conditional check failed: the sequence or snapshot changed since it was read" []).

(** crates/evt/src/heads.rs:64-78 [gap_or_conflict] *)
Definition gap_or_conflict (entity_id : EntityId) (first stored : EventSequence) : Error :=
  if stored <? first - 1 then SequenceGap entity_id stored first
  else conflict entity_id.

(** crates/evt/src/heads.rs:90-96 [fence_conflict] *)
Definition fence_conflict (fence : ReadFence) : Error :=
  FenceConflict (fe_entity_id fence) (fe_head fence) (fe_provenance fence).

(** The key [rank] minimizes. *)
Definition rank_key (error : Error) : Z :=
  match error with
  | StreamHeadDrift _ _ _ => 0
  | SequenceGap _ _ _ => 1
  | _ => 2
  end.

(** [Iterator::min_by_key]: the first of several equal minima. *)
Fixpoint min_by_key {A} (key : A → Z) (best : A) (l : list A) : A :=
  match l with
  | [] => best
  | x :: rest => min_by_key key (if key x <? key best then x else best) rest
  end.

(** crates/evt/src/heads.rs:100-107 [rank] *)
Definition rank (verdicts : list Error) : option Error :=
  match verdicts with
  | [] => None
  | first :: rest => Some (min_by_key rank_key first rest)
  end.

(** ** Lemmas *)

Lemma min_by_key_spec {A} (key : A → Z) best l :
  ∃ l1 l2, best :: l = l1 ++ min_by_key key best l :: l2 ∧
    Forall (λ y, key (min_by_key key best l) < key y) l1 ∧
    Forall (λ y, key (min_by_key key best l) ≤ key y) l2.
Proof.
  revert best. induction l as [|x l IH]; intros best; simpl.
  { exists [], []. split; [done|]. split; constructor. }
  destruct (IH (if key x <? key best then x else best)) as (l1 & l2 & Heq & H1 & H2).
  revert Heq H1 H2.
  generalize (min_by_key key (if key x <? key best then x else best) l) as m.
  intros m Heq H1 H2. destruct (Z.ltb_spec (key x) (key best)) as [Hlt|Hle].
  - exists (best :: l1), l2. split; [by simpl; f_equal|]. split; [|done].
    constructor; [|done]. destruct l1; injection Heq as -> _; [done|].
    inversion H1; subst. lia.
  - destruct l1 as [|b l1]; injection Heq as -> Heq.
    + exists [], (x :: l). subst. split; [done|]. split; [constructor|].
      by constructor.
    + exists (b :: x :: l1), l2. inversion H1; subst. repeat split; try done.
      repeat constructor; try done. lia.
Qed.

(** The error a commit reports is one of its verdicts, of the highest rank, and the first of
    that rank. *)
Lemma rank_spec verdicts e :
  rank verdicts = Some e →
  ∃ l1 l2, verdicts = l1 ++ e :: l2 ∧
    Forall (λ y, rank_key e < rank_key y) l1 ∧ Forall (λ y, rank_key e ≤ rank_key y) l2.
Proof.
  destruct verdicts as [|first rest]; [done|]. intros [= <-]. apply min_by_key_spec.
Qed.

Lemma rank_None verdicts : rank verdicts = None ↔ verdicts = [].
Proof. by destruct verdicts. Qed.

(** * The feature manifest

    [features.rs]: reserved identifiers, the manifest a store declares its formats in, and the
    checks a writer makes against it before every write. The build modelled is the one with the
    [journal] feature, which is the largest. *)

(** crates/evt/src/features.rs:25-66 [SYSTEM_PREFIX] *)
Definition SYSTEM_PREFIX : string := "SYSTEM#".
Definition COMMAND_OUTCOME_PREFIX : string := "command-outcome#".
Definition FEATURES_ID : string := "SYSTEM#FEATURES".
Definition FEATURES_SORT_KEY : Z := 0.
Definition STREAM_HEADS_FEATURE : string := "stream-heads".
Definition STREAM_HEADS_VERSION : Z := 1.
Definition JOURNAL_FEATURE : string := "journal".
Definition JOURNAL_VERSION : Z := 1.
Definition JOURNAL_COMPACTION_FEATURE : string := "journal-compaction".
Definition JOURNAL_COMPACTION_VERSION : Z := 1.
Definition POSTGRES_VIEWS_FEATURE : string := "postgres-views".
Definition POSTGRES_VIEWS_VERSION : Z := 1.

(** crates/evt/src/features.rs:94-100 [SUPPORTED_FEATURES] *)
Definition SUPPORTED_FEATURES : list (string * Z) := [
  (JOURNAL_FEATURE, JOURNAL_VERSION);
  (JOURNAL_COMPACTION_FEATURE, JOURNAL_COMPACTION_VERSION);
  (POSTGRES_VIEWS_FEATURE, POSTGRES_VIEWS_VERSION);
  (STREAM_HEADS_FEATURE, STREAM_HEADS_VERSION)
].

(** crates/evt/src/features.rs:104-108 [is_reserved] *)
Definition is_reserved (entity_id : EntityId) : bool :=
  starts_with SYSTEM_PREFIX entity_id || starts_with COMMAND_OUTCOME_PREFIX entity_id.

(** crates/evt/src/features.rs:111-119 [check_not_reserved] *)
Definition check_not_reserved (entity_id : EntityId) : Result unit :=
  if is_reserved entity_id then Err (ReservedEntityId entity_id) else Ok tt.

(** crates/evt/src/features.rs:127-138 [FeatureManifest] *)
Record FeatureManifest := mkManifest {
  fm_version : Z;
  fm_features : gmap string Z;
  fm_history_dependent : gset string;
  fm_retention : gset string
}.

(** [FeatureManifest::default()]. *)
Definition FeatureManifest_default : FeatureManifest := mkManifest 0 ∅ ∅ ∅.

#[export] Instance FeatureManifest_eq_dec : EqDecision FeatureManifest.
Proof. solve_decision. Defined.

(** crates/evt/src/features.rs:178-180 [FeatureManifest::is_history_dependent] *)
Definition is_history_dependent (m : FeatureManifest) (entity_type : EntityType) : bool :=
  bool_decide (entity_type ∈ fm_history_dependent m).

(** crates/evt/src/features.rs:184-186 [FeatureManifest::is_retained] *)
Definition is_retained (m : FeatureManifest) (entity_type : EntityType) : bool :=
  bool_decide (entity_type ∈ fm_retention m).

(** crates/evt/src/features.rs:189-191 [FeatureManifest::declares_stream_heads] *)
Definition declares_stream_heads (m : FeatureManifest) : bool :=
  bool_decide (fm_features m !! STREAM_HEADS_FEATURE = Some STREAM_HEADS_VERSION).

(** crates/evt/src/features.rs:194-196 [FeatureManifest::declares_journal] *)
Definition declares_journal (m : FeatureManifest) : bool :=
  bool_decide (fm_features m !! JOURNAL_FEATURE = Some JOURNAL_VERSION).

(** crates/evt/src/features.rs:200-203 [FeatureManifest::declare_journal] *)
Definition declare_journal (m : FeatureManifest) : FeatureManifest :=
  mkManifest (fm_version m) (<[JOURNAL_FEATURE := JOURNAL_VERSION]> (fm_features m))
    (fm_history_dependent m) (fm_retention m).

(** crates/evt/src/features.rs:207-210 [FeatureManifest::declare_stream_heads] *)
Definition declare_stream_heads (m : FeatureManifest) : FeatureManifest :=
  mkManifest (fm_version m) (<[STREAM_HEADS_FEATURE := STREAM_HEADS_VERSION]> (fm_features m))
    (fm_history_dependent m) (fm_retention m).

(** [next.version = version]. *)
Definition with_version (m : FeatureManifest) (version : Z) : FeatureManifest :=
  mkManifest version (fm_features m) (fm_history_dependent m) (fm_retention m).

(** [manifest.history_dependent.extend(types)]. *)
Definition extend_history (m : FeatureManifest) (types : list EntityType) : FeatureManifest :=
  mkManifest (fm_version m) (fm_features m) (list_to_set types ∪ fm_history_dependent m)
    (fm_retention m).

(** [SUPPORTED_FEATURES.iter().any(|(supported, at)| supported == name && at == version)]. *)
Definition is_supported (feature : string * Z) : bool :=
  existsb (λ s, bool_decide (s = feature)) SUPPORTED_FEATURES.

(** crates/evt/src/features.rs:214-228 [FeatureManifest::validate_supported] *)
Definition validate_supported (m : FeatureManifest) : Result unit :=
  check_each
    (λ feature : string * Z,
      if is_supported feature then Ok tt
      else Err (UnsupportedFeature feature.1 feature.2))
    (btree_entries string_leb (fm_features m)).

(** crates/evt/src/features.rs:255-261 [ValidatedMarker] *)
Inductive ValidatedMarker := MarkerAbsent | MarkerVersion (version : Z).

(** crates/evt/src/features.rs:264-264 [CachedMarker] *)
Definition CachedMarker : Type := option ValidatedMarker.

(** crates/evt/src/features.rs:268-274 [marker_matches] *)
Definition marker_matches (validated : CachedMarker) (observed : option FeatureManifest) : bool :=
  match validated, observed with
  | Some MarkerAbsent, None => true
  | Some (MarkerVersion version), Some manifest => fm_version manifest =? version
  | _, _ => false
  end.

(** crates/evt/src/features.rs:311-311 [JOURNAL_ONLY] *)
Definition JOURNAL_ONLY : list string := [JOURNAL_FEATURE; JOURNAL_COMPACTION_FEATURE].

(** crates/evt/src/features.rs:314-325 [refuse_journal] *)
Definition refuse_journal (m : FeatureManifest) : Result unit :=
  check_each
    (λ feature, match fm_features m !! feature with
                | Some version => Err (UnsupportedFeature feature version)
                | None => Ok tt
                end)
    JOURNAL_ONLY.

(** crates/evt/src/features.rs:291-308 [validate_marker_for_write] *)
Definition validate_marker_for_write (observed : option FeatureManifest) (journaling : bool)
  : Result ValidatedMarker :=
  match observed with
  | None => Err StreamHeadsNotMigrated
  | Some manifest =>
      check? validate_supported manifest;
      check? (if journaling then Ok tt else refuse_journal manifest);
      if declares_stream_heads manifest then Ok (MarkerVersion (fm_version manifest))
      else Err StreamHeadsNotMigrated
  end.

(** The entity types of [types] the manifest does not declare yet, in order. *)
Definition missing_history (m : option FeatureManifest) (types : list EntityType)
  : list EntityType :=
  List.filter
    (λ t, negb match m with Some manifest => is_history_dependent manifest t | None => false end)
    types.

(** ** Lemmas *)

Lemma is_supported_spec feature : is_supported feature = true ↔ feature ∈ SUPPORTED_FEATURES.
Proof.
  unfold is_supported. rewrite existsb_exists. split.
  - intros (s & Hin & ->%bool_decide_eq_true). by apply list_elem_of_In.
  - intros Hin. exists feature. split; [by apply list_elem_of_In|]. by apply bool_decide_eq_true.
Qed.

Lemma validate_supported_ok m :
  validate_supported m = Ok tt ↔
  ∀ name version, fm_features m !! name = Some version → (name, version) ∈ SUPPORTED_FEATURES.
Proof.
  unfold validate_supported. rewrite check_each_ok, Forall_forall. split.
  - intros Hall name version Hl. apply is_supported_spec.
    specialize (Hall (name, version)). rewrite elem_of_btree_entries in Hall.
    specialize (Hall Hl). by destruct (is_supported _).
  - intros Hall [name version] Hin%elem_of_btree_entries.
    by rewrite (proj2 (is_supported_spec (name, version)) (Hall _ _ Hin)).
Qed.

Lemma refuse_journal_ok m :
  refuse_journal m = Ok tt ↔
  fm_features m !! JOURNAL_FEATURE = None ∧ fm_features m !! JOURNAL_COMPACTION_FEATURE = None.
Proof.
  unfold refuse_journal, JOURNAL_ONLY. rewrite check_each_ok, !Forall_cons.
  repeat case_match; intuition (constructor || congruence).
Qed.

(** What a writer has established once its marker check passed. *)
Lemma validate_marker_for_write_ok observed journaling marker :
  validate_marker_for_write observed journaling = Ok marker ↔
  ∃ m, observed = Some m ∧ marker = MarkerVersion (fm_version m) ∧
    validate_supported m = Ok tt ∧ declares_stream_heads m = true ∧
    (journaling = true ∨ refuse_journal m = Ok tt).
Proof.
  unfold validate_marker_for_write. destruct observed as [m|]; [|naive_solver].
  rewrite !check_bind_ok. split.
  - intros (Hs & Hj & Hm). exists m. destruct (declares_stream_heads m); inv_ok.
    destruct journaling; auto 10.
  - intros (? & [= <-] & -> & Hs & -> & [->|Hj]); [done|]. destruct journaling; auto.
Qed.
