(* ===== verification/Numbers.v ===== *)
(** * Canonical JSON numbers

    [numbers.rs]: a rejection's details are stored with every number written without an
    exponent, so each backend keeps the same text. The tokenizer walks the JSON text, and each
    number literal is checked against the storable range and written in plain decimal. *)

From S2P Require Import Prelude Types.

(** crates/evt/src/numbers.rs:13-13 [MAX_SCALE] *)
Definition MAX_SCALE : Z := 16383.

(** crates/evt/src/numbers.rs:16-16 [MAX_INTEGER_DIGITS] *)
Definition MAX_INTEGER_DIGITS : Z := 131072.

(** crates/evt/src/numbers.rs:21-21 [EXPONENT_CAP] *)
Definition EXPONENT_CAP : Z := Z.shiftl 1 30.

(** crates/evt/src/outcome.rs:42-42 [MAX_OUTCOME_BYTES] *)
Definition MAX_OUTCOME_BYTES : Z := 65536.

Definition byte_of (c : ascii) : Z := Z.of_N (N_of_ascii c).

(** [u8::is_ascii_digit]. *)
Definition is_ascii_digit (c : ascii) : bool := (48 <=? byte_of c) && (byte_of c <=? 57).

(** crates/evt/src/numbers.rs:140-142 [is_number_byte] *)
Definition is_number_byte (c : ascii) : bool :=
  is_ascii_digit c || Ascii.eqb c "-" || Ascii.eqb c "+" || Ascii.eqb c "."
    || Ascii.eqb c "e" || Ascii.eqb c "E".

(** [text.find(p)] as the text before the first match and the text after it. *)
Fixpoint split_at_first (p : ascii → bool) (s : string) : option (string * string) :=
  match s with
  | EmptyString => None
  | String c rest =>
      if p c then Some (EmptyString, rest)
      else match split_at_first p rest with
           | Some (before, after) => Some (String c before, after)
           | None => None
           end
  end.

(** The longest prefix of bytes that satisfy [p], and the rest. *)
Fixpoint span (p : ascii → bool) (s : string) : string * string :=
  match s with
  | EmptyString => (EmptyString, EmptyString)
  | String c rest =>
      if p c then let '(yes, no) := span p rest in (String c yes, no) else (EmptyString, s)
  end.

(** crates/evt/src/numbers.rs:282-296 [parse_exponent] *)
Definition parse_exponent (text : string) : Z :=
  let '(negative, digits) :=
    match text with
    | String c rest =>
        if Ascii.eqb c "-" then (true, rest)
        else if Ascii.eqb c "+" then (false, rest)
        else (false, text)
    | EmptyString => (false, text)
    end in
  let magnitude :=
    foldl (λ exponent c,
        let digit := if is_ascii_digit c then byte_of c - 48 else 0 in
        Z.min (exponent * 10 + digit) EXPONENT_CAP)
      0 (String.list_ascii_of_string digits) in
  if (negative : bool) then - magnitude else magnitude.

(** crates/evt/src/numbers.rs:145-155 [Number] *)
Record Number := mkNumber {
  nu_negative : bool;
  nu_integer : string;
  nu_fraction : string;
  nu_point : Z;
  nu_scale : Z
}.

Definition is_exponent_mark (c : ascii) : bool := Ascii.eqb c "e" || Ascii.eqb c "E".

(** crates/evt/src/numbers.rs:159-182 [Number::parse] *)
Definition parse_number (text : string) : Number :=
  let '(negative, text) :=
    match text with
    | String c rest => if Ascii.eqb c "-" then (true, rest) else (false, text)
    | EmptyString => (false, text)
    end in
  let '(mantissa, exponent) :=
    match split_at_first is_exponent_mark text with
    | Some (before, after) => (before, parse_exponent after)
    | None => (text, 0)
    end in
  let '(integer, fraction) :=
    match split_at_first (λ c, Ascii.eqb c ".") mantissa with
    | Some (before, after) => (before, after)
    | None => (mantissa, EmptyString)
    end in
  mkNumber negative integer fraction (slen integer + exponent)
    (Z.max (slen fraction - exponent) 0).

(** The byte of a string at a position, if it has one. *)
Definition byte_at (s : string) (index : Z) : option ascii :=
  if index <? 0 then None else String.get (Z.to_nat index) s.

(** crates/evt/src/numbers.rs:184-197 [Number::digit] *)
Definition digit (n : Number) (index : Z) : ascii :=
  if index <? 0 then "0"%char
  else if index <? slen (nu_integer n) then default "0"%char (byte_at (nu_integer n) index)
  else default "0"%char (byte_at (nu_fraction n) (index - slen (nu_integer n))).

(** crates/evt/src/numbers.rs:199-201 [Number::digit_count] *)
Definition digit_count (n : Number) : Z := slen (nu_integer n) + slen (nu_fraction n).

(** The number of leading bytes of [s] that are ['0']. *)
Fixpoint leading_zeros (s : string) : Z :=
  match s with
  | String c rest => if Ascii.eqb c "0" then 1 + leading_zeros rest else 0
  | EmptyString => 0
  end.

(** crates/evt/src/numbers.rs:204-210 [Number::first_significant] *)
Definition first_significant (n : Number) : Z :=
  leading_zeros (nu_integer n +:+ nu_fraction n).

(** crates/evt/src/numbers.rs:212-214 [Number::is_zero] *)
Definition number_is_zero (n : Number) : bool := first_significant n =? digit_count n.

(** crates/evt/src/numbers.rs:217-223 [Number::integer_digits] *)
Definition integer_digits (n : Number) : Z :=
  if number_is_zero n then 0 else Z.max (nu_point n - first_significant n) 0.

(** crates/evt/src/numbers.rs:226-240 [Number::check] *)
Definition check_number (n : Number) (text : string) : Result unit :=
  if (MAX_SCALE <? nu_scale n) || (MAX_INTEGER_DIGITS <? integer_digits n) then
    let shown :=
      if slen text <=? 64 then text
      else String.substring 0 64 text +:+ "... (" +:+ show (slen text) +:+ " bytes)" in
    Err (InvalidArgument
      (Fmt "rejection details hold a number out of the storable range: {shown}" [shown]))
  else Ok tt.

(** crates/evt/src/numbers.rs:242-254 [Number::canonical_length] *)
Definition canonical_length (n : Number) : Z :=
  Z.max (integer_digits n) 1
  + (if nu_negative n && negb (number_is_zero n) then 1 else 0)
  + (if 0 <? nu_scale n then 1 + nu_scale n else 0).

(** [for index in first..last { out.push(self.digit(index)) }]. *)
Definition digits_between (n : Number) (first last : Z) : string :=
  String.string_of_list_ascii (map (λ i, digit n (first + Z.of_nat i)) (seq 0 (Z.to_nat (last - first)))).

(** crates/evt/src/numbers.rs:258-277 [Number::write_canonical] *)
Definition write_canonical (n : Number) : string :=
  (if nu_negative n && negb (number_is_zero n) then "-" else "")
  +:+ (if integer_digits n =? 0 then "0"
       else digits_between n (first_significant n) (nu_point n))
  +:+ (if 0 <? nu_scale n then
         "." +:+ digits_between n (nu_point n) (nu_point n + nu_scale n)
       else "").

(** crates/evt/src/numbers.rs:75-80 [Token] *)
Inductive Token :=
| TOther (text : string)
| TNumber (text : string) (number : Number).

(** Emits the pending text, if there is any, before what follows it. *)
Definition flush (before : string) (rest : list Token) : list Token :=
  if is_empty before then rest else TOther before :: rest.

(** crates/evt/src/numbers.rs:83-138 [tokens]

    [before] is the text since the last token ([json[start..index]]). Every step consumes at
    least one byte, so fuel equal to the length of the text is enough (see
    [tokens_text]). *)
Fixpoint tokens_go (fuel : nat) (in_string : bool) (before s : string) : list Token :=
  match fuel, s with
  | O, _ => flush (before +:+ s) []
  | _, EmptyString => flush before []
  | S fuel, String c rest =>
      if in_string && Ascii.eqb c "\" then
        match rest with
        | String d rest' =>
            tokens_go fuel in_string (before +:+ String c (String d EmptyString)) rest'
        | EmptyString => flush (before +:+ String c EmptyString) []
        end
      else if Ascii.eqb c "034" then
        tokens_go fuel (negb in_string) (before +:+ String c EmptyString) rest
      else if negb in_string && (Ascii.eqb c "-" || is_ascii_digit c) then
        let '(more, rest') := span is_number_byte rest in
        let text := String c more in
        flush before (TNumber text (parse_number text) :: tokens_go fuel in_string EmptyString rest')
      else tokens_go fuel in_string (before +:+ String c EmptyString) rest
  end.

Definition tokens (json : string) : list Token :=
  tokens_go (String.length json) false EmptyString json.

Definition token_size (t : Token) : Z :=
  match t with
  | TOther text => slen text
  | TNumber _ number => canonical_length number
  end.

Definition token_check (t : Token) : Result unit :=
  match t with
  | TOther _ => Ok tt
  | TNumber text number => check_number number text
  end.

Definition token_changed (t : Token) : bool :=
  match t with
  | TOther _ => false
  | TNumber text number =>
      contains_byte "e" text || contains_byte "E" text
        || (nu_negative number && number_is_zero number)
  end.

Definition token_canonical (t : Token) : string :=
  match t with
  | TOther text => text
  | TNumber _ number => write_canonical number
  end.

Definition token_text (t : Token) : string :=
  match t with
  | TOther text => text
  | TNumber text _ => text
  end.

Definition concat_strings (l : list string) : string := foldr String.append EmptyString l.

(** crates/evt/src/numbers.rs:34-73 [canonical_numbers] *)
Definition canonical_numbers (json : string) : Result string :=
  let toks := tokens json in
  check? check_each token_check toks;
  let size := foldl (λ size t, size + token_size t) 0 toks in
  if MAX_OUTCOME_BYTES <? size then Err (OutcomeTooLarge "rejection" size)
  else if existsb token_changed toks then Ok (concat_strings (map token_canonical toks))
  else Ok json.

Example canonical_numbers_1 :
  canonical_numbers "{a:[1.50e3,7,-0,-12.5E-1]}" = Ok "{a:[1500,7,0,-1.25]}".
Proof. vm_compute. reflexivity. Qed.
