(* ===== verification/Outcome.v ===== *)
(** * Command outcomes

    [outcome.rs]: the durable row that records how a command ended, the checks it must pass
    before it is stored and after it is read, and the identity digest that tells a replay of a
    command from the reuse of its ID. *)

From S2P Require Import Prelude Types Features Numbers.

(** ** Third-party encoders

    [serde_json] is not part of the crate: its encodings are parameters. Each function stands
    for one call of [json::to_string] or [serde_json::from_str] in the crate. *)

Class SerdeJson := {
  json_metadata : Metadata → Result string;
  json_strings : list string → Result string;
  json_rejection : Rejection → Result string;
  json_parse_rejection : string → result Rejection string;
  json_parse_metadata : string → result (option Metadata) string;
  json_parse_strings : string → result (option (list string)) string;
  json_parse_string_options : string → result (list (option string)) string;
  json_feature_map : gmap string Z → string;
  json_string_set : gset string → string;
  json_parse_feature_map : string → result (gmap string Z) string;
  json_parse_string_set : string → result (gset string) string;
  json_string_map : gmap string string → Result string;
  json_parse_string_map : string → result (gmap string string) string
}.

(** crates/evt/src/outcome.rs:38-38 [MAX_COMMAND_ID_BYTES] *)
Definition MAX_COMMAND_ID_BYTES : Z := 512.

(** crates/evt/src/outcome.rs:45-45 [DIGEST_TAG] *)
Definition DIGEST_TAG : string := "evt-cmd-digest-v1".

(** crates/evt/src/outcome.rs:59-64 [OutcomeStatus::as_str] *)
Definition status_as_str (status : OutcomeStatus) : string :=
  match status with
  | Accepted => "accepted"
  | Rejected => "rejected"
  end.

(** crates/evt/src/outcome.rs:67-73 [OutcomeStatus::parse] *)
Definition status_parse (text : string) : option OutcomeStatus :=
  if bool_decide (text = "accepted"%string) then Some Accepted
  else if bool_decide (text = "rejected"%string) then Some Rejected
  else None.

(** ** Text checks *)

(** crates/evt/src/outcome.rs:1077-1085 [check_text] *)
Definition check_text (what value : string) : Result unit :=
  if contains_nul value then
    Err (InvalidArgument (Fmt "{what} must not contain U+0000" [what]))
  else Ok tt.

Definition check_optional_text (what : string) (value : option string) : Result unit :=
  match value with
  | Some value => check_text what value
  | None => Ok tt
  end.

(** Checks the key and then the value of every entry, in key order. *)
Definition check_map_text (what : string) (m : gmap string string) : Result unit :=
  check_each
    (λ entry : string * string, check? check_text what entry.1; check_text what entry.2)
    (btree_entries string_leb m).

(** crates/evt/src/outcome.rs:1092-1134 [check_metadata] *)
Definition check_metadata (metadata : Metadata) : Result unit :=
  check? check_optional_text "commandId" (md_command_id metadata);
  check? check_optional_text "causationId" (md_causation_id metadata);
  check? check_optional_text "principalId" (md_principal_id metadata);
  check? check_optional_text "address" (md_address metadata);
  check? check_text "region" (md_region metadata);
  check? check_text "timestamp" (md_timestamp metadata);
  check? check_text "commitId" (md_commit_id metadata);
  check? match md_origin metadata with
         | Some origin =>
             check? check_text "origin.source" (or_source origin);
             check_text "origin.endpoint" (or_endpoint origin)
         | None => Ok tt
         end;
  check? check_map_text "trace" (default ∅ (md_trace metadata));
  check_map_text "extensions" (md_extensions metadata).

(** crates/evt/src/outcome.rs:1138-1160 [check_commit_text] *)
Definition check_commit_text (events : list SerializedEvent) (entity_types : list EntityType)
    (entity_ids : list EntityId) : Result unit :=
  check? check_each
    (λ event,
      check? check_text "event.id" (ev_id event);
      check? check_text "event.type" (ev_type event);
      check? check_text "event.entityId" (ev_entity_id event);
      check? check_text "event.entityType" (ev_entity_type event);
      check_metadata (ev_metadata event)) events;
  check? check_each (check_text "entityType") entity_types;
  check_each (check_text "entityId") entity_ids.

(** crates/evt/src/outcome.rs:1163-1172 [value_has_nul] *)
Fixpoint value_has_nul (value : Value) : bool :=
  match value with
  | VString text => contains_nul text
  | VArray items => existsb value_has_nul items
  | VObject members =>
      existsb (λ member, contains_nul member.1 || value_has_nul member.2) members
  | _ => false
  end.

(** crates/evt/src/outcome.rs:1178-1198 [check_command_id] *)
Definition check_command_id (command_id : CommandId) : Result unit :=
  if is_empty command_id then
    Err (InvalidArgument (Fmt "a command ID is required when command outcomes are enabled" []))
  else if contains_nul command_id then
    Err (InvalidArgument (Fmt "a command ID must not contain U+0000" []))
  else if MAX_COMMAND_ID_BYTES <? slen command_id then
    Err (CommandIdTooLong (slen command_id))
  else Ok tt.

(** crates/evt/src/outcome.rs:1201-1216 [require_command_id] *)
Definition require_command_id (metadata : Metadata) : Result CommandId :=
  let? command_id :=
    ok_or (non_empty (md_command_id metadata))
      (InvalidArgument
        (Fmt "a command ID is required when command outcomes are enabled" [])) in
  check? check_command_id command_id;
  check? check_metadata metadata;
  Ok command_id.

(** crates/evt/src/outcome.rs:913-921 [check_targets] *)
Definition check_targets (targets : list EntityId) : Result unit :=
  check_each
    (λ target, check? check_text "a target stream ID" target; check_not_reserved target)
    targets.

(** crates/evt/src/outcome.rs:924-930 [principal] *)
Definition principal (metadata : Metadata) : string := default "" (md_principal_id metadata).

(** ** Rejections *)

(** crates/evt/src/outcome.rs:189-195 [Rejection::new] *)
Definition Rejection_new (code message : string) : Rejection := mkRejection code message None.

(** crates/evt/src/outcome.rs:199-203 [Rejection::with_details] *)
Definition with_details (r : Rejection) (details : Value) : Rejection :=
  mkRejection (rj_code r) (rj_message r) (if is_null details then None else Some details).

(** crates/evt/src/outcome.rs:264-268 [Rejection::with_code] *)
Definition with_code (r : Rejection) (code : string) : Rejection :=
  mkRejection code (rj_message r) (rj_details r).

(** crates/evt/src/outcome.rs:90-104 [RejectionCode::STALE_FENCE] *)
Definition STALE_FENCE : string := "stale-fence".
Definition STALE_VERSION : string := "stale-version".

(** crates/evt/src/outcome.rs:218-223 [Rejection::stale_fence] *)
Definition stale_fence : Rejection :=
  Rejection_new STALE_FENCE "a caller-stamped fence went stale".

(** crates/evt/src/outcome.rs:229-235 [Rejection::retries_exhausted] *)
Definition retries_exhausted (attempts : Z) : Rejection :=
  with_details
    (Rejection_new STALE_FENCE
      "the state this command was decided on kept changing; retries were exhausted")
    (VObject [("attempts"%string, VNumber (show attempts))]).

(** crates/evt/src/outcome.rs:945-953 [StaleVersion] *)
Record StaleVersion := mkStaleVersion {
  sv_entity_id : EntityId;
  sv_expected : EventSequence;
  sv_actual : EventSequence
}.

(** crates/evt/src/outcome.rs:241-261 [Rejection::stale_version] *)
Definition stale_version (stale : list StaleVersion) : Rejection :=
  let sorted := sort_by (λ a b, string_leb (sv_entity_id a) (sv_entity_id b)) stale in
  let streams :=
    map (λ stream,
      VObject [("actual"%string, VNumber (show (sv_actual stream)));
               ("entityId"%string, VString (sv_entity_id stream));
               ("expected"%string, VNumber (show (sv_expected stream)))]) sorted in
  with_details
    (Rejection_new STALE_VERSION "a client-expected stream version is stale")
    (VObject [("streams"%string, VArray streams)]).

Section rejection_encoding.
Context `{SerdeJson}.

(** crates/evt/src/outcome.rs:274-296 [Rejection::encode] *)
Definition encode_rejection (r : Rejection) : Result string :=
  if match rj_details r with Some details => negb (is_object details) | None => false end then
    Err (InvalidArgument (Fmt "rejection details must be a JSON object or absent" []))
  else if contains_nul (rj_code r) || contains_nul (rj_message r)
      || match rj_details r with Some details => value_has_nul details | None => false end then
    Err (InvalidArgument
      (Fmt "a rejection must not contain U+0000 in its code, message, or details" []))
  else
    let? encoded := json_rejection r in
    canonical_numbers encoded.

(** crates/evt/src/outcome.rs:305-323 [Rejection::decode] *)
Definition decode_rejection (text : string) : Result Rejection :=
  let? parsed :=
    map_err (λ err, InvalidRecord (Fmt "decode rejection: {err}" [err]))
      (json_parse_rejection text) in
  let details :=
    match rj_details parsed with
    | Some details => if is_null details then None else Some details
    | None => None
    end in
  if match details with Some details => negb (is_object details) | None => false end then
    Err (InvalidRecord
      (Fmt "decode rejection: details must be a JSON object or null" []))
  else Ok (mkRejection (rj_code parsed) (rj_message parsed) details).

(** crates/evt/src/outcome.rs:300-302 [Rejection::canonical] *)
Definition canonical_rejection (r : Rejection) : Result Rejection :=
  let? text := encode_rejection r in decode_rejection text.

(** ** Recorded identity *)

(** crates/evt/src/outcome.rs:444-446 [RecordedIdentity::encode_targets] *)
Definition encode_targets (identity : RecordedIdentity) : Result string :=
  json_strings (ri_targets identity).

(** crates/evt/src/outcome.rs:450-457 [RecordedIdentity::size] *)
Definition identity_size (identity : RecordedIdentity) : Result Z :=
  let? targets := encode_targets identity in
  Ok (slen (ri_command_type identity) + slen targets
      + match ri_principal identity with Some p => slen p | None => 0 end).

Definition corrupt {A} (command_id : CommandId) (reason : Message) : Result A :=
  Err (InvalidRecord
    (Fmt ("stored outcome for command {} is corrupt: " +:+ template reason)
      (command_id :: args reason))).

(** [into_iter().collect::<Option<Vec<_>>>()]. *)
Fixpoint all_some {A} (l : list (option A)) : option (list A) :=
  match l with
  | [] => Some []
  | Some x :: rest => match all_some rest with Some xs => Some (x :: xs) | None => None end
  | None :: _ => None
  end.

(** crates/evt/src/outcome.rs:463-506 [RecordedIdentity::decode] *)
Definition decode_identity (command_id : CommandId) (command_type targets principal : option string)
  : Result (option RecordedIdentity) :=
  match command_type with
  | None =>
      match targets, principal with
      | None, None => Ok None
      | _, _ =>
          corrupt command_id
            (Fmt "the recorded identity has targets or a principal but no command type" [])
      end
  | Some command_type =>
      match targets with
      | None =>
          corrupt command_id (Fmt "the recorded identity has a command type but no targets" [])
      | Some targets =>
          match json_parse_string_options targets with
          | Err _ =>
              corrupt command_id
                (Fmt "the recorded targets are not a JSON array of strings: {targets:?}" [targets])
          | Ok decoded =>
              match all_some decoded with
              | None =>
                  corrupt command_id (Fmt "the recorded targets hold a null: {targets:?}" [targets])
              | Some decoded => Ok (Some (mkIdentity command_type decoded principal))
              end
          end
      end
  end.

(** ** Checks on an outcome *)

(** crates/evt/src/outcome.rs:1220-1276 [check_outcome] *)
Definition check_outcome (outcome : Outcome) : Result unit :=
  check? check_command_id (oc_command_id outcome);
  check? (if is_empty (oc_digest outcome) then
            Err (InvalidArgument (Fmt "an outcome needs an identity digest" []))
          else Ok tt);
  check? check_text "an identity digest" (oc_digest outcome);
  check? match oc_status outcome with
         | Accepted =>
             match oc_rejection outcome with
             | Some _ =>
                 Err (InvalidArgument (Fmt "an accepted outcome carries no rejection" []))
             | None => Ok tt
             end
         | Rejected =>
             if match oc_rejection outcome with
                | None => true
                | Some rejection => is_empty (rj_code rejection)
                end then
               Err (InvalidArgument
                 (Fmt "a rejected outcome needs a rejection with a code" []))
             else Ok tt
         end;
  let response := match oc_response outcome with Some r => slen r | None => 0 end in
  check? (if MAX_OUTCOME_BYTES <? response then Err (OutcomeTooLarge "response" response)
          else Ok tt);
  check? match oc_rejection outcome with
         | Some rejection => check? encode_rejection rejection; Ok tt
         | None => Ok tt
         end;
  match oc_identity outcome with
  | Some identity =>
      let? size := identity_size identity in
      if MAX_OUTCOME_BYTES <? size then Err (OutcomeTooLarge "identity" size) else Ok tt
  | None => Ok tt
  end.
End rejection_encoding.

(** An event ID is the entity, a colon, and a positive sequence in its canonical text. *)
Definition canonical_event_id (id : EventId) : bool :=
  match rsplit_once ":" id with
  | Some (entity, sequence) =>
      negb (is_empty entity)
      && match parse_i64 sequence with
         | Some parsed => (1 <=? parsed) && bool_decide (show parsed = sequence)
         | None => false
         end
  | None => false
  end.

(** crates/evt/src/outcome.rs:515-557 [Outcome::validate_stored] *)
Definition validate_stored (o : Outcome) : Result unit :=
  if is_empty (oc_digest o) then
    corrupt (oc_command_id o) (Fmt "the digest is missing" [])
  else
    check? match oc_status o, oc_rejection o with
           | Accepted, Some _ =>
               corrupt (oc_command_id o) (Fmt "an accepted outcome carries a rejection" [])
           | Rejected, Some rejection =>
               if is_empty (rj_code rejection) then
                 corrupt (oc_command_id o) (Fmt "a rejected outcome has no rejection code" [])
               else Ok tt
           | Rejected, None =>
               corrupt (oc_command_id o) (Fmt "a rejected outcome has no rejection code" [])
           | Accepted, None => Ok tt
           end;
    check_each
      (λ id, if canonical_event_id id then Ok tt
             else corrupt (oc_command_id o)
               (Fmt "event ID {id:?} is not {{entityId}}:{{sequence}} with a positive canonical sequence"
                 [id]))
      (oc_event_ids o).

(** crates/evt/src/outcome.rs:1279-1281 [encode_event_ids] *)
Definition encode_event_ids `{SerdeJson} (ids : list EventId) : Result string := json_strings ids.

(** crates/evt/src/outcome.rs:1284-1288 [decode_event_ids] *)
Definition decode_event_ids `{SerdeJson} (text : string) : Result (list EventId) :=
  let? decoded :=
    map_err (λ err, InvalidRecord (Fmt "decode event IDs: {err}" [err]))
      (json_parse_strings text) in
  Ok (default [] decoded).

(** ** Building outcomes *)

(** crates/evt/src/outcome.rs:560-570 [Outcome::accepted] *)
Definition outcome_accepted (command_id : CommandId) (digest : string) : Outcome :=
  mkOutcome command_id Accepted digest None [] None None.

(** crates/evt/src/outcome.rs:573-587 [Outcome::rejected] *)
Definition outcome_rejected (command_id : CommandId) (digest : string) (rejection : Rejection)
  : Outcome :=
  mkOutcome command_id Rejected digest None [] (Some rejection) None.

(** crates/evt/src/outcome.rs:591-595 [Outcome::with_identity] *)
Definition with_identity (o : Outcome) (identity : RecordedIdentity) : Outcome :=
  mkOutcome (oc_command_id o) (oc_status o) (oc_digest o) (oc_response o) (oc_event_ids o)
    (oc_rejection o) (Some identity).

(** crates/evt/src/outcome.rs:598-603 [Outcome::with_response] *)
Definition outcome_with_response (o : Outcome) (response : string) : Outcome :=
  mkOutcome (oc_command_id o) (oc_status o) (oc_digest o)
    (if is_empty response then None else Some response) (oc_event_ids o)
    (oc_rejection o) (oc_identity o).

(** crates/evt/src/outcome.rs:622-628 [Outcome::stored] *)
Definition outcome_stored (o : Outcome) (event_ids : list EventId) : Outcome :=
  mkOutcome (oc_command_id o) (oc_status o) (oc_digest o) (non_empty (oc_response o)) event_ids
    (oc_rejection o) (oc_identity o).

(** crates/evt/src/outcome.rs:606-608 [Outcome::is_accepted] *)
Definition is_accepted (o : Outcome) : bool := bool_decide (oc_status o = Accepted).

(** crates/evt/src/outcome.rs:611-613 [Outcome::is_rejected] *)
Definition is_rejected (o : Outcome) : bool := bool_decide (oc_status o = Rejected).

(** crates/evt/src/outcome.rs:616-618 [Outcome::is_noop] *)
Definition is_noop (o : Outcome) : bool := is_accepted o && nil_b (oc_event_ids o).

(** crates/evt/src/outcome.rs:1437-1446 [same_command] *)
Definition same_command (stored : Outcome) (digest : string) : Result Outcome :=
  if bool_decide (oc_digest stored = digest) then Ok stored
  else Err (IdempotencyKeyReuse (oc_command_id stored) stored).

(** ** Lemmas *)

(** The IDs the engine gives its events decode to the entity and the sequence they were made
    from, so no two events of a store share an ID. *)
Lemma for_event_split entity_id sequence :
  rsplit_once ":" (for_event entity_id sequence) = Some (entity_id, show sequence).
Proof. apply rsplit_once_app. by apply show_contains. Qed.

Lemma for_event_canonical entity_id sequence :
  is_empty entity_id = false → 1 ≤ sequence ≤ i64_max →
  canonical_event_id (for_event entity_id sequence) = true.
Proof.
  intros Hne Hs. unfold canonical_event_id. rewrite for_event_split, Hne. simpl.
  rewrite parse_i64_show.
  - rewrite bool_decide_eq_true_2 by done. lia.
  - unfold in_i64, i64_min. lia.
Qed.

Lemma for_event_inj e1 s1 e2 s2 : for_event e1 s1 = for_event e2 s2 → e1 = e2 ∧ s1 = s2.
Proof.
  intros H. pose proof (for_event_split e1 s1) as H1. rewrite H, for_event_split in H1.
  inversion H1 as [[He Hs]]. split; [done|]. by apply (inj pretty) in Hs.
Qed.
