(* ===== verification/Rebuild.v ===== *)
(** * The rebuild fence

    [rebuild.rs]: the generation counter and lock row that fence projection rebuilds, the plan a
    [begin_rebuild] decides on the state it read, the reader's epoch, and the argument checks. *)

From S2P Require Import Prelude Types.

(** crates/evt/src/rebuild.rs:60-81 [REBUILD_LOCK_ID] *)
Definition REBUILD_LOCK_ID : string := "SYSTEM#REBUILD".
Definition REBUILD_GENERATION_ID : string := "SYSTEM#REBUILD#GENERATION".
Definition REBUILD_SORT_KEY : Z := 0.
Definition MAX_REBUILD_OWNER_BYTES : Z := 512.
Definition MAX_REBUILD_VIEW_BATCH : Z := 99.
Definition MAX_REBUILD_BEGIN_ATTEMPTS : nat := 8.
Definition NO_MATCH : Z := -1.

(** A [Duration]: whole seconds and the nanoseconds of the last one. *)
Record Duration := mkDuration { as_secs : Z; subsec_nanos : Z }.

(** crates/evt/src/rebuild.rs:91-97 [RebuildGeneration] *)
Record RebuildGeneration := mkGeneration { rg_value : Z; rg_force_released : bool }.

(** crates/evt/src/rebuild.rs:101-103 [RebuildGeneration::is_settled]

    Rust's [%] truncates toward zero, as [Z.rem] does. *)
Definition is_settled (g : RebuildGeneration) : bool := Z.rem (rg_value g) 2 =? 0.

(** crates/evt/src/rebuild.rs:108-117 [RebuildLock] *)
Record RebuildLock := mkLock {
  rl_owner : string;
  rl_generation : Z;
  rl_lease_expires_at : Z
}.

(** crates/evt/src/rebuild.rs:122-124 [RebuildLock::is_expired] *)
Definition is_expired (lock : RebuildLock) (now : Z) : bool := rl_lease_expires_at lock <? now.

(** crates/evt/src/rebuild.rs:129-136 [RebuildState] *)
Record RebuildState := mkRebuildState {
  rs_generation : RebuildGeneration;
  rs_lock : option RebuildLock
}.

#[export] Instance RebuildGeneration_eq_dec : EqDecision RebuildGeneration.
Proof. solve_decision. Defined.
#[export] Instance RebuildLock_eq_dec : EqDecision RebuildLock.
Proof. solve_decision. Defined.
#[export] Instance RebuildState_eq_dec : EqDecision RebuildState.
Proof. solve_decision. Defined.

(** [RebuildState::default()]. *)
Definition RebuildState_default : RebuildState := mkRebuildState (mkGeneration 0 false) None.

(** crates/evt/src/rebuild.rs:140-142 [RebuildState::in_progress] *)
Definition in_progress (s : RebuildState) : bool :=
  match rs_lock s with Some _ => true | None => false end.

(** crates/evt/src/rebuild.rs:180-182 [RebuildLease::holds] *)
Definition holds (lease : RebuildLease) (lock : RebuildLock) : bool :=
  bool_decide (rl_owner lock = le_owner lease) && (rl_generation lock =? le_generation lease).

(** crates/evt/src/rebuild.rs:195-197 [RebuildLease::acquired_from] *)
Definition acquired_from (lease : RebuildLease) (before : RebuildGeneration) : bool :=
  is_settled before && (le_generation lease =? rg_value before + 1).

(** crates/evt/src/rebuild.rs:156-162 [RebuildState::holds_begun] *)
Definition holds_begun (s : RebuildState) (lease : RebuildLease) (observed : Z) : option bool :=
  if match rs_lock s with Some lock => holds lease lock | None => false end then Some true
  else if negb (rg_value (rs_generation s) =? observed) then Some false
  else None.

(** crates/evt/src/rebuild.rs:389-398 [unavailable] *)
Definition unavailable (g : RebuildGeneration) : Result unit :=
  if is_settled g then Ok tt else Err (RebuildUnavailable (rg_value g) (rg_force_released g)).

(** crates/evt/src/rebuild.rs:350-353 [RebuildEpoch] *)
Record RebuildEpoch := mkEpoch { ep_generation : Z }.

(** crates/evt/src/rebuild.rs:358-364 [RebuildEpoch::observe] *)
Definition epoch_observe (g : RebuildGeneration) : Result RebuildEpoch :=
  check? unavailable g; Ok (mkEpoch (rg_value g)).

(** crates/evt/src/rebuild.rs:370-381 [RebuildEpoch::verify] *)
Definition epoch_verify (epoch : RebuildEpoch) (g : RebuildGeneration) : Result unit :=
  check? unavailable g;
  if rg_value g =? ep_generation epoch then Ok tt
  else Err (RebuildEpochChanged (ep_generation epoch) (rg_value g)).

(** crates/evt/src/rebuild.rs:439-460 [check_owner] *)
Definition check_rebuild_owner (owner : string) : Result unit :=
  if is_empty owner then
    Err (InvalidArgument (Fmt "a rebuild owner must not be empty" []))
  else if MAX_REBUILD_OWNER_BYTES <? slen owner then
    Err (InvalidArgument
      (Fmt "a rebuild owner is at most {MAX_REBUILD_OWNER_BYTES} bytes, got {}"
        [show MAX_REBUILD_OWNER_BYTES; show (slen owner)]))
  else if contains_nul owner then
    Err (InvalidArgument (Fmt "a rebuild owner must not contain U+0000" []))
  else Ok tt.

(** crates/evt/src/rebuild.rs:463-475 [lease_seconds] *)
Definition lease_seconds (lease : Duration) : Result Z :=
  if as_secs lease <? 1 then
    Err (InvalidArgument (Fmt "a rebuild lease is at least one second" []))
  else
    ok_or
      (match u64_checked_add (as_secs lease) (if 0 <? subsec_nanos lease then 1 else 0) with
       | Some seconds => if in_i64 seconds then Some seconds else None
       | None => None
       end)
      (InvalidArgument (Fmt "the rebuild lease is too long" [])).

(** crates/evt/src/rebuild.rs:478-482 [check_lease] *)
Definition check_lease (owner : string) (lease : Duration) : Result Z :=
  check? check_rebuild_owner owner; lease_seconds lease.

(** crates/evt/src/rebuild.rs:485-493 [PlanKind] *)
Inductive PlanKind := Acquire | AcquireForceReleased | Takeover.

(** crates/evt/src/rebuild.rs:497-510 [Plan] *)
Record Plan := mkPlan {
  pl_kind : PlanKind;
  pl_increment : Z;
  pl_seen_even : Z;
  pl_seen_odd : Z;
  pl_observed_owner : option string
}.

(** crates/evt/src/rebuild.rs:517-568 [Plan::decide] *)
Definition plan_decide (state : RebuildState) (now : Z) : Result Plan :=
  let generation := rs_generation state in
  match rs_lock state with
  | None =>
      if is_settled generation then
        Ok (mkPlan Acquire 1 (rg_value generation) NO_MATCH None)
      else if rg_force_released generation then
        Ok (mkPlan AcquireForceReleased 2 NO_MATCH (rg_value generation) None)
      else
        Err (RebuildStateInvalid
          (Fmt "generation {} is odd with no lock row and no force-release flag"
            [show (rg_value generation)]))
  | Some lock =>
      if is_settled generation then
        Err (RebuildStateInvalid
          (Fmt "a lock row exists for {:?} but generation {} is even"
            [rl_owner lock; show (rg_value generation)]))
      else if negb (is_expired lock now) then
        Err (RebuildLockHeld (rl_owner lock) (rl_lease_expires_at lock))
      else
        Ok (mkPlan Takeover 2 NO_MATCH (rg_value generation) (Some (rl_owner lock)))
  end.

(** crates/evt/src/rebuild.rs:573-575 [lock_check_size] *)
Definition lock_check_size : Z :=
  slen "pk" + slen REBUILD_LOCK_ID + slen "sk" + slen (show REBUILD_SORT_KEY).
