(* ===== verification/Base64.v ===== *)
(** * Base64

    [json.rs]'s [base64_bytes]: the standard alphabet with padding, as Go encodes [\[\]byte], and
    the strict decoder that ignores only line breaks. Decoding inverts encoding. *)

From S2P Require Import Prelude.

(** crates/evt/src/json.rs:140-140 [ALPHABET] *)
Definition ALPHABET : string :=
  "ABCDEFGHIJKLMNOPQRSTUVWXYZabcdefghijklmnopqrstuvwxyz0123456789+/".

Definition byte_to_Z (c : ascii) : Z := Z.of_N (N_of_ascii c).
(** [value as u8]. *)
Definition Z_to_byte (z : Z) : ascii := ascii_of_N (Z.to_N (z mod 256)).

(** [ALPHABET\[index\] as char]. *)
Definition symbol (index : Z) : ascii := default "A"%char (String.get (Z.to_nat index) ALPHABET).

(** The 24-bit group of a chunk: [(b0 << 16) | (b1 << 8) | b2]. *)
Definition triple_of (b0 b1 b2 : Z) : Z :=
  Z.lor (Z.lor (Z.shiftl b0 16) (Z.shiftl b1 8)) b2.

Definition sextet (triple shift : Z) : ascii := symbol (Z.land (Z.shiftr triple shift) 63).

(** crates/evt/src/json.rs:143-167 [base64_bytes::encode] *)
Fixpoint base64_encode (bytes : string) : string :=
  match bytes with
  | EmptyString => EmptyString
  | String a EmptyString =>
      let t := triple_of (byte_to_Z a) 0 0 in
      String (sextet t 18) (String (sextet t 12) "==")
  | String a (String b EmptyString) =>
      let t := triple_of (byte_to_Z a) (byte_to_Z b) 0 in
      String (sextet t 18) (String (sextet t 12) (String (sextet t 6) "="))
  | String a (String b (String c rest)) =>
      let t := triple_of (byte_to_Z a) (byte_to_Z b) (byte_to_Z c) in
      String (sextet t 18) (String (sextet t 12) (String (sextet t 6) (String (sextet t 0)
        (base64_encode rest))))
  end.

(** crates/evt/src/json.rs:212-221 [decode_symbol] *)
Definition decode_symbol (c : ascii) : option Z :=
  let s := byte_to_Z c in
  if (65 <=? s) && (s <=? 90) then Some (s - 65)
  else if (97 <=? s) && (s <=? 122) then Some (s - 97 + 26)
  else if (48 <=? s) && (s <=? 57) then Some (s - 48 + 52)
  else if s =? 43 then Some 62
  else if s =? 47 then Some 63
  else None.

(** [quad.iter().rev().take_while(|b| **b == b'=').count()]. *)
Definition quad_padding (a b c d : ascii) : Z :=
  if Ascii.eqb d "=" then
    if Ascii.eqb c "=" then
      if Ascii.eqb b "=" then (if Ascii.eqb a "=" then 4 else 3) else 2
    else 1
  else 0.

(** The value of the symbol at [offset] of a quad with [padding]. *)
Definition quad_value (at_byte padding offset : Z) (c : ascii) : result Z Message :=
  if 4 - padding <=? offset then Ok 0
  else ok_or (decode_symbol c)
    (Fmt "illegal base64 data at input byte {}" [show (at_byte + offset)]).

(** crates/evt/src/json.rs:179-210 [base64_bytes::decode]

    The loop over the quads, from the one at byte [at_byte]; [last] is an empty rest. *)
Fixpoint decode_quads (at_byte : Z) (symbols : list ascii) : result string Message :=
  match symbols with
  | a :: b :: c :: d :: rest =>
      let last := nil_b rest in
      let padding := quad_padding a b c d in
      if (2 <? padding) || ((0 <? padding) && negb last) then
        Err (Fmt "illegal base64 data at input byte {}" [show at_byte])
      else
        let? v0 := quad_value at_byte padding 0 a in
        let? v1 := quad_value at_byte padding 1 b in
        let? v2 := quad_value at_byte padding 2 c in
        let? v3 := quad_value at_byte padding 3 d in
        let t0 := Z.lor (Z.shiftl 0 6) v0 in
        let t1 := Z.lor (Z.shiftl t0 6) v1 in
        let t2 := Z.lor (Z.shiftl t1 6) v2 in
        let t := Z.lor (Z.shiftl t2 6) v3 in
        let? tail := decode_quads (at_byte + 4) rest in
        Ok (String (Z_to_byte (Z.shiftr t 16))
             ((if padding <? 2 then String (Z_to_byte (Z.shiftr t 8)) EmptyString else EmptyString)
              +:+ (if padding <? 1 then String (Z_to_byte t) EmptyString else EmptyString)
              +:+ tail))
  | _ => Ok EmptyString
  end.

(** crates/evt/src/json.rs:170-177 [base64_bytes::decode] *)
Definition base64_decode (text : string) : result string Message :=
  let symbols :=
    List.filter (λ c, negb (Ascii.eqb c "013") && negb (Ascii.eqb c "010"))
      (String.list_ascii_of_string text) in
  if negb (llen symbols mod 4 =? 0) then
    Err (Fmt "illegal base64 data: length {}" [show (llen symbols)])
  else decode_quads 0 symbols.

Example base64_1 : base64_encode "Many hands" = "TWFueSBoYW5kcw=="%string.
Proof. vm_compute. reflexivity. Qed.
Example base64_2 : base64_decode "TWFueSBoYW5kcw==" = Ok "Many hands"%string.
Proof. vm_compute. reflexivity. Qed.

(** ** Lemmas *)

Lemma byte_to_Z_range c : 0 ≤ byte_to_Z c < 256.
Proof. unfold byte_to_Z. pose proof (N_ascii_bounded c). lia. Qed.

Lemma Z_to_byte_to_Z c : Z_to_byte (byte_to_Z c) = c.
Proof.
  unfold Z_to_byte. rewrite Z.mod_small by apply byte_to_Z_range. unfold byte_to_Z.
  rewrite N2Z.id. apply ascii_N_embedding.
Qed.

(** A property of all values of a bounded range, by enumeration. *)
Lemma forall_range (n : nat) (p : Z → bool) :
  forallb p (map Z.of_nat (seq 0 n)) = true → ∀ z, 0 ≤ z < Z.of_nat n → p z = true.
Proof.
  intros H z Hz. rewrite forallb_forall in H. apply H. apply in_map_iff.
  exists (Z.to_nat z). split; [lia|]. apply in_seq. lia.
Qed.

Lemma decode_symbol_symbol i : 0 ≤ i < 64 → decode_symbol (symbol i) = Some i.
Proof.
  intros Hi.
  assert (bool_decide (decode_symbol (symbol i) = Some i) = true) as H.
  { revert i Hi. apply (forall_range 64). vm_compute. reflexivity. }
  by apply bool_decide_eq_true in H.
Qed.

Lemma symbol_not_special i :
  0 ≤ i < 64 →
  Ascii.eqb (symbol i) "=" = false ∧
  negb (Ascii.eqb (symbol i) "013") && negb (Ascii.eqb (symbol i) "010") = true.
Proof.
  intros Hi.
  assert (negb (Ascii.eqb (symbol i) "=") &&
    (negb (Ascii.eqb (symbol i) "013") && negb (Ascii.eqb (symbol i) "010")) = true) as H.
  { revert i Hi. apply (forall_range 64). vm_compute. reflexivity. }
  apply andb_prop in H as [H1 H2]. split; [by apply negb_true_iff|done].
Qed.

Lemma lor_shiftl_add a b n :
  0 ≤ n → 0 ≤ b < 2 ^ n → Z.lor (Z.shiftl a n) b = a * 2 ^ n + b.
Proof.
  intros Hn Hb. pose proof (Z.add_lor_land (Z.shiftl a n) b) as H.
  assert (Z.land (Z.shiftl a n) b = 0) as Hl.
  { destruct (decide (b = 0)) as [->|Hb0]; [apply Z.land_0_r|].
    apply Z.bits_inj'. intros i Hi. rewrite Z.land_spec, Z.bits_0.
    destruct (Z.ltb_spec i n) as [Hlt|Hge].
    - by rewrite Z.shiftl_spec_low by done.
    - rewrite (Z.bits_above_log2 b i), andb_false_r; [done|lia|].
      apply Z.log2_lt_pow2; [lia|]. assert (2 ^ n ≤ 2 ^ i) by (apply Z.pow_le_mono_r; lia). lia. }
  rewrite Hl, Z.shiftl_mul_pow2 in H by done. rewrite Z.shiftl_mul_pow2 by done. lia.
Qed.

(** A group is the base-256 number its bytes spell. *)
Lemma triple_of_sum a b c :
  0 ≤ a < 256 → 0 ≤ b < 256 → 0 ≤ c < 256 → triple_of a b c = a * 65536 + b * 256 + c.
Proof.
  intros Ha Hb Hc. unfold triple_of.
  assert (Z.lor (Z.shiftl a 16) (Z.shiftl b 8) = Z.shiftl (a * 256 + b) 8) as ->.
  { change 16 with (8 + 8). rewrite <-(Z.shiftl_shiftl a 8 8) by lia. rewrite <-Z.shiftl_lor.
    by rewrite lor_shiftl_add by (simpl; lia). }
  rewrite lor_shiftl_add by (simpl; lia). lia.
Qed.

(** The symbols of a group stand for its base-64 digits. *)
Definition digit (triple shift : Z) : Z := Z.land (Z.shiftr triple shift) 63.

Lemma digit_spec t n : 0 ≤ n → digit t n = (t / 2 ^ n) mod 64.
Proof.
  intros Hn. unfold digit. rewrite Z.shiftr_div_pow2 by done.
  change 63 with (Z.ones 6). by rewrite Z.land_ones by lia.
Qed.

Lemma digit_range t n : 0 ≤ n → 0 ≤ digit t n < 64.
Proof. intros Hn. rewrite digit_spec by done. apply Z.mod_pos_bound. lia. Qed.

Lemma decode_sextet t n : 0 ≤ n → decode_symbol (sextet t n) = Some (digit t n).
Proof. intros Hn. apply decode_symbol_symbol, digit_range, Hn. Qed.

Lemma sextet_not_pad t n : 0 ≤ n → Ascii.eqb (sextet t n) "=" = false.
Proof. intros Hn. by apply symbol_not_special, digit_range. Qed.

Lemma sextet_not_break t n : 0 ≤ n →
  negb (Ascii.eqb (sextet t n) "013") && negb (Ascii.eqb (sextet t n) "010") = true.
Proof. intros Hn. by apply symbol_not_special, digit_range. Qed.

(** The decoder's accumulation of four digits. *)
Definition quad_of (v0 v1 v2 v3 : Z) : Z :=
  Z.lor (Z.shiftl (Z.lor (Z.shiftl (Z.lor (Z.shiftl (Z.lor (Z.shiftl 0 6) v0) 6) v1) 6) v2) 6) v3.

Lemma quad_of_sum v0 v1 v2 v3 :
  0 ≤ v0 < 64 → 0 ≤ v1 < 64 → 0 ≤ v2 < 64 → 0 ≤ v3 < 64 →
  quad_of v0 v1 v2 v3 = v0 * 262144 + v1 * 4096 + v2 * 64 + v3.
Proof.
  intros H0 H1 H2 H3. unfold quad_of. rewrite !lor_shiftl_add by (simpl; lia). simpl. lia.
Qed.

Lemma Z_to_byte_shift a t n :
  0 ≤ n → (t / 2 ^ n) mod 256 = byte_to_Z a → Z_to_byte (Z.shiftr t n) = a.
Proof.
  intros Hn Ht. rewrite <-(Z_to_byte_to_Z a). unfold Z_to_byte.
  rewrite Z.shiftr_div_pow2 by done. rewrite Ht.
  by rewrite (Z.mod_small (byte_to_Z a)) by apply byte_to_Z_range.
Qed.

(** Every encoded text is a sequence of whole quads without line breaks. *)
Definition plain (c : ascii) : bool := negb (Ascii.eqb c "013") && negb (Ascii.eqb c "010").

Lemma string_ind3 (P : string → Prop) :
  P EmptyString → (∀ a, P (String a EmptyString)) →
  (∀ a b, P (String a (String b EmptyString))) →
  (∀ a b c s, P s → P (String a (String b (String c s)))) → ∀ s, P s.
Proof.
  intros H0 H1 H2 H3. assert (∀ n s, (String.length s ≤ n)%nat → P s) as H.
  { induction n as [|n IH]; intros [|a [|b [|c s]]] Hs; simpl in *; try done; try lia.
    apply H3, IH. lia. }
  intros s. by apply (H (String.length s)).
Qed.

Lemma encode_plain s :
  List.filter plain (String.list_ascii_of_string (base64_encode s))
  = String.list_ascii_of_string (base64_encode s).
Proof.
  induction s as [|a|a b|a b c s IH] using string_ind3; cbn -[sextet]; unfold plain;
    rewrite ?sextet_not_break by done; cbn -[sextet]; [done..|].
  repeat (f_equal; []). apply IH.
Qed.

Lemma encode_length s :
  llen (String.list_ascii_of_string (base64_encode s)) mod 4 = 0.
Proof.
  unfold llen. induction s as [|a|a b|a b c s IH] using string_ind3; cbn -[sextet Z.of_nat];
    [done..|].
  rewrite !Nat2Z.inj_succ. Z.div_mod_to_equations. lia.
Qed.

Lemma quad_padding_none a b c d : Ascii.eqb d "=" = false → quad_padding a b c d = 0.
Proof. unfold quad_padding. by intros ->. Qed.

Lemma quad_value_sextet at_byte padding offset t n :
  0 ≤ n → offset < 4 - padding →
  quad_value at_byte padding offset (sextet t n) = Ok (digit t n).
Proof.
  intros Hn Ho. unfold quad_value. rewrite decode_sextet by done.
  by replace (4 - padding <=? offset) with false by lia.
Qed.

Lemma quad_value_pad at_byte padding offset c :
  4 - padding ≤ offset → quad_value at_byte padding offset c = Ok 0.
Proof. intros Ho. unfold quad_value. by replace (4 - padding <=? offset) with true by lia. Qed.

Lemma Z_to_byte_shift0 a t : t mod 256 = byte_to_Z a → Z_to_byte t = a.
Proof.
  intros Ht. rewrite <-(Z_to_byte_shift a t 0); [by rewrite Z.shiftr_0_r|done|].
  change (2 ^ 0) with 1. by rewrite Z.div_1_r.
Qed.

(** The bytes of a group come back from its digits. *)
Lemma group_bytes a b c t :
  t = byte_to_Z a * 65536 + byte_to_Z b * 256 + byte_to_Z c →
  Z_to_byte (Z.shiftr t 16) = a ∧ Z_to_byte (Z.shiftr t 8) = b ∧ Z_to_byte t = c.
Proof.
  intros ->. pose proof (byte_to_Z_range a). pose proof (byte_to_Z_range b).
  pose proof (byte_to_Z_range c). repeat split.
  - apply Z_to_byte_shift; [done|]. change (2 ^ 16) with 65536. Z.div_mod_to_equations. lia.
  - apply Z_to_byte_shift; [done|]. change (2 ^ 8) with 256. Z.div_mod_to_equations. lia.
  - apply Z_to_byte_shift0. Z.div_mod_to_equations. lia.
Qed.

(** Splitting a group into digits and putting them back loses nothing; the digits of a
    short group beyond its padding are zero. *)
Ltac solve_digits :=
  rewrite quad_of_sum by (by apply digit_range || lia); rewrite !digit_spec by lia;
  change (2 ^ 18) with 262144; change (2 ^ 12) with 4096; change (2 ^ 6) with 64;
  change (2 ^ 0) with 1; Z.div_mod_to_equations; lia.

Lemma quad_of_digits t :
  0 ≤ t < 16777216 → quad_of (digit t 18) (digit t 12) (digit t 6) (digit t 0) = t.
Proof. intros Ht. solve_digits. Qed.

Lemma quad_of_three t :
  0 ≤ t < 16777216 → t mod 64 = 0 → quad_of (digit t 18) (digit t 12) (digit t 6) 0 = t.
Proof. intros Ht Hmod. solve_digits. Qed.

Lemma quad_of_two t :
  0 ≤ t < 16777216 → t mod 4096 = 0 → quad_of (digit t 18) (digit t 12) 0 0 = t.
Proof. intros Ht Hmod. solve_digits. Qed.

Lemma decode_quads_cons at_byte a b c d rest p v0 v1 v2 v3 tail :
  quad_padding a b c d = p → p ≤ 2 → (p = 0 ∨ rest = []) →
  quad_value at_byte p 0 a = Ok v0 → quad_value at_byte p 1 b = Ok v1 →
  quad_value at_byte p 2 c = Ok v2 → quad_value at_byte p 3 d = Ok v3 →
  decode_quads (at_byte + 4) rest = Ok tail →
  decode_quads at_byte (a :: b :: c :: d :: rest) =
  let t := quad_of v0 v1 v2 v3 in
  Ok (String (Z_to_byte (Z.shiftr t 16))
       ((if p <? 2 then String (Z_to_byte (Z.shiftr t 8)) EmptyString else EmptyString)
        +:+ (if p <? 1 then String (Z_to_byte t) EmptyString else EmptyString)
        +:+ tail)).
Proof.
  intros Hp Hle Hlast H0 H1 H2 H3 Ht. cbn [decode_quads]. rewrite Hp.
  replace ((2 <? p) || ((0 <? p) && negb (nil_b rest))) with false.
  - by rewrite H0, H1, H2, H3, Ht.
  - destruct Hlast as [->| ->]; [done|]. symmetry. rewrite andb_false_r, orb_false_r.
    by apply Z.ltb_ge.
Qed.

Lemma decode_quads_encode s at_byte :
  decode_quads at_byte (String.list_ascii_of_string (base64_encode s)) = Ok s.
Proof.
  revert at_byte. induction s as [|a|a b|a b c s IH] using string_ind3; intros at_byte.
  - done.
  - pose proof (byte_to_Z_range a). cbn -[sextet decode_quads].
    erewrite (decode_quads_cons _ _ _ _ _ _ 2);
      [|unfold quad_padding; by rewrite sextet_not_pad, !Ascii.eqb_refl|done|by right
       |by apply quad_value_sextet..|by apply quad_value_pad|by apply quad_value_pad|done].
    rewrite triple_of_sum by lia. rewrite quad_of_two by (Z.div_mod_to_equations; lia).
    cbv zeta. by destruct (group_bytes a "000" "000" (byte_to_Z a * 65536 + 0 * 256 + 0) eq_refl) as [-> _].
  - pose proof (byte_to_Z_range a). pose proof (byte_to_Z_range b). cbn -[sextet decode_quads].
    erewrite (decode_quads_cons _ _ _ _ _ _ 1);
      [|unfold quad_padding; by rewrite sextet_not_pad, !Ascii.eqb_refl|done|by right
       |by apply quad_value_sextet..|by apply quad_value_pad|done].
    rewrite triple_of_sum by lia. rewrite quad_of_three by (Z.div_mod_to_equations; lia).
    cbv zeta. by destruct (group_bytes a b "000" (byte_to_Z a * 65536 + byte_to_Z b * 256 + 0) eq_refl) as (-> & -> & _).
  - pose proof (byte_to_Z_range a). pose proof (byte_to_Z_range b).
    pose proof (byte_to_Z_range c). cbn -[sextet decode_quads].
    erewrite (decode_quads_cons _ _ _ _ _ _ 0);
      [|apply quad_padding_none; by rewrite sextet_not_pad|done|by left
       |by apply quad_value_sextet..|apply IH].
    rewrite triple_of_sum by lia. rewrite quad_of_digits by lia.
    cbv zeta. by destruct (group_bytes a b c _ eq_refl) as (-> & -> & ->).
Qed.

(** The bytes a text column stores come back exactly. *)
Lemma base64_roundtrip s : base64_decode (base64_encode s) = Ok s.
Proof.
  unfold base64_decode. fold plain. rewrite encode_plain, encode_length. apply decode_quads_encode.
Qed.

(** The base64 text of any bytes decodes to exactly those bytes, wherever carriage returns or
    line feeds were put into it, and is as long as the encoder reserves: four characters for every
    three bytes begun. *)
Theorem base64_field_roundtrip s text :
  List.filter plain (String.list_ascii_of_string text)
    = String.list_ascii_of_string (base64_encode s) →
  base64_decode text = Ok s ∧ slen (base64_encode s) = 4 * ((slen s + 2) / 3).
Proof.
  intros Htext. split.
  - unfold base64_decode. fold plain. rewrite Htext, encode_length. apply decode_quads_encode.
  - clear Htext. unfold slen. induction s as [|a|a b|a b c s IH] using string_ind3;
      cbn -[sextet Z.of_nat Z.mul Z.div]; [done..|].
    rewrite !Nat2Z.inj_succ, IH. Z.div_mod_to_equations. lia.
Qed.

Lemma base64_field_roundtrip_witness :
  base64_decode (String "T" (String "013" (String "010" "WFu"))) = Ok "Man"%string ∧
  slen (base64_encode "Man") = 4 * ((3 + 2) / 3).
Proof. apply (base64_field_roundtrip "Man"). vm_compute. reflexivity. Defined.
