(* ===== verification/Wire.v ===== *)
(** * The DynamoDB wire format

    [wire/dynamo.rs]: how events, snapshots, heads, outcomes, view rows, the feature manifest and
    the rebuild fence are laid out as items, how they are read back, and the conditions and sizes
    of a commit's actions. Numbers are decimal text and payloads are strings, as stored. *)

From S2P Require Import Prelude Types Features Outcome Rebuild Base64.

(** crates/evt/src/wire/dynamo.rs:61-64 [SNAPSHOT_SORT_KEY] *)
Definition SNAPSHOT_SORT_KEY : Z := 0.
Definition DEFAULT_VIEW_SORT_KEY : string := "VIEW".

(** crates/evt/src/wire/dynamo.rs:79-122 [HEAD_SORT_KEY] *)
Definition HEAD_SORT_KEY : Z := -1.
Definition HEAD_UPDATE : string := "SET head = :last".
Definition HEAD_UPDATE_RETAINED : string := "SET head = :last, #ttl = :t".
Definition HEAD_CREATE_CONDITION : string := "attribute_not_exists(head)".
Definition HEAD_APPEND_CONDITION : string := "head = :prev".
Definition HEAD_APPEND_RETAINED_CONDITION : string :=
  "head = :prev AND (attribute_not_exists(#ttl) OR #ttl <= :t)".
Definition HEAD_FENCE_CONDITION : string := "head = :head".
Definition HEAD_FENCE_ABSENT_CONDITION : string := "attribute_not_exists(head)".
Definition HEAD_COVERS_CONDITION : string := "head >= :new".
Definition HEAD_COVERS_OR_ABSENT_CONDITION : string :=
  "attribute_not_exists(head) OR head >= :new".
Definition HEAD_REFRESH_UPDATE : string := "SET #ttl = :t".
Definition HEAD_REFRESH_CONDITION : string :=
  "head >= :new AND (attribute_not_exists(#ttl) OR #ttl <= :t)".

(** crates/evt/src/wire/dynamo.rs:133-145 [OWNER_PLACEHOLDER] *)
Definition OWNER_PLACEHOLDER : string := ":owner".
Definition VIEW_ABSENT_CONDITION : string := "attribute_not_exists(pk)".
Definition VIEW_PUT_CONDITION : string := "attribute_not_exists(pk) OR entityID = :owner".
Definition VIEW_PRESENT_CONDITION : string := "attribute_exists(pk) AND entityID = :owner".
Definition VIEW_DELETE_CONDITION : string := "attribute_not_exists(pk) OR entityID = :owner".

(** crates/evt/src/wire/dynamo.rs:149-154 [put_condition] *)
Definition put_condition (condition : ViewCondition) : string :=
  match condition with
  | CondAbsent => VIEW_ABSENT_CONDITION
  | _ => VIEW_PUT_CONDITION
  end.

(** crates/evt/src/wire/dynamo.rs:157-162 [delete_condition] *)
Definition delete_condition (condition : ViewCondition) : string :=
  match condition with
  | CondPresent => VIEW_PRESENT_CONDITION
  | _ => VIEW_DELETE_CONDITION
  end.

(** crates/evt/src/wire/dynamo.rs:249-276 [AttributeValue]

    A nested map keeps the entries of its [BTreeMap]. *)
Inductive AttributeValue :=
| AS (text : string)
| AN (text : string)
| AB (bytes : string)
| ABool (b : bool)
| ANull (b : bool)
| AM (entries : list (string * AttributeValue))
| AL (values : list AttributeValue)
| ASs (texts : list string)
| ANs (texts : list string)
| ABs (texts : list string).

(** crates/evt/src/wire/dynamo.rs:279-279 [Item] *)
Abbreviation Item := (gmap string AttributeValue).

(** crates/evt/src/wire/dynamo.rs:285-287 [n] *)
Definition an (value : Z) : AttributeValue := AN (show value).

Definition sumZ (l : list Z) : Z := foldr Z.add 0 l.

(** crates/evt/src/repository.rs:694-704 [value_size] *)
Fixpoint value_size (value : AttributeValue) : Z :=
  match value with
  | AS s | AN s => slen s
  | AB b => slen b
  | ABool _ | ANull _ => 1
  | AM m =>
      3 + sumZ (map (λ entry : string * AttributeValue, slen entry.1 + value_size entry.2) m)
      + llen m
  | AL l => 3 + sumZ (map (λ v, 1 + value_size v) l)
  | ASs s | ANs s => sumZ (map slen s)
  | ABs b => sumZ (map slen b)
  end.

(** crates/evt/src/repository.rs:692-708 [item_size]

    The size of an item: its attribute names and values. *)
Definition item_size (item : Item) : Z :=
  map_fold (λ name value total, slen name + value_size value + total) 0 item.

(** crates/evt/src/wire/dynamo.rs:289-295 [utf8] *)
Definition utf8 (bytes what : string) : Result string :=
  if valid_utf8 bytes then Ok bytes
  else Err (InvalidRecord
    (Fmt "{what} is not valid UTF-8 and cannot be stored as a string" [what])).

(** crates/evt/src/wire/dynamo.rs:857-861 [insert_ttl] *)
Definition insert_ttl (item : Item) (ttl : option Z) : Item :=
  match ttl with
  | Some ttl => if 0 <? ttl then <["ttl" := an ttl]> item else item
  | None => item
  end.

(** ** Reading attributes *)

(** crates/evt/src/wire/dynamo.rs:1103-1111 [optional_string] *)
Definition optional_string (item : Item) (name : string) : Result (option string) :=
  match item !! name with
  | None | Some (ANull _) => Ok None
  | Some (AS value) => Ok (Some value)
  | Some _ => Err (InvalidRecord (Fmt "attribute {name} is not a string: {other:?}" [name]))
  end.

(** crates/evt/src/wire/dynamo.rs:1113-1123 [optional_number] *)
Definition optional_number (item : Item) (name : string) : Result (option Z) :=
  match item !! name with
  | None | Some (ANull _) => Ok None
  | Some (AN value) =>
      match parse_i64 value with
      | Some number => Ok (Some number)
      | None =>
          Err (InvalidRecord (Fmt "attribute {name} is not an integer: {value}" [name; value]))
      end
  | Some _ => Err (InvalidRecord (Fmt "attribute {name} is not a number: {other:?}" [name]))
  end.

(** crates/evt/src/wire/dynamo.rs:1093-1096 [required_string] *)
Definition required_string (item : Item) (name : string) : Result string :=
  let? value := optional_string item name in
  ok_or value (InvalidRecord (Fmt "item has no {name} attribute" [name])).

(** crates/evt/src/wire/dynamo.rs:1098-1101 [required_number] *)
Definition required_number (item : Item) (name : string) : Result Z :=
  let? value := optional_number item name in
  ok_or value (InvalidRecord (Fmt "item has no {name} attribute" [name])).

Section items.
Context `{SerdeJson}.

(** ** Events and snapshots *)

(** crates/evt/src/wire/dynamo.rs:298-310 [event_item] *)
Definition event_item (event : SerializedEvent) (ttl : option Z) : Result Item :=
  let? payload := utf8 (ev_payload event) "event payload" in
  let? metadata := json_metadata (ev_metadata event) in
  Ok (insert_ttl
    (<["metadata" := AS metadata]>
    (<["payload" := AS payload]>
    (<["entityType" := AS (ev_entity_type event)]>
    (<["version" := an (ev_version event)]>
    (<["type" := AS (ev_type event)]>
    (<["sk" := an (ev_sequence event)]>
    (<["pk" := AS (ev_entity_id event)]> ∅)))))))
    ttl).

(** crates/evt/src/wire/dynamo.rs:1046-1077 [event_from_item] *)
Definition event_from_item (item : Item) : Result SerializedEvent :=
  let? entity_id := required_string item "pk" in
  let? sequence := required_number item "sk" in
  let? metadata_json := optional_string item "metadata" in
  let metadata_json := default "" metadata_json in
  if is_blank metadata_json then
    Err (InvalidRecord
      (Fmt "event {entity_id}:{sequence} has empty metadata" [entity_id; show sequence]))
  else
    let? metadata :=
      map_err (λ err, InvalidRecord
          (Fmt "event {entity_id}:{sequence} metadata: {err}" [entity_id; show sequence; err]))
        (json_parse_metadata metadata_json) in
    let? event_type := optional_string item "type" in
    let? version := optional_number item "version" in
    let? entity_type := optional_string item "entityType" in
    let? payload := optional_string item "payload" in
    Ok (mkEvent (for_event entity_id sequence) sequence (default "" event_type)
      (default 0 version) entity_id (default "" entity_type) (default "" payload)
      (default Metadata_default metadata)).

(** crates/evt/src/wire/dynamo.rs:313-327 [snapshot_item] *)
Definition snapshot_item (snapshot : SerializedSnapshot) (ttl : option Z) : Result Item :=
  let? payload := utf8 (sn_payload snapshot) "snapshot payload" in
  Ok (insert_ttl
    (<["payload" := AS payload]>
    (<["entityType" := AS (sn_entity_type snapshot)]>
    (<["eventSeq" := an (sn_event_sequence snapshot)]>
    (<["seq" := an (sn_sequence snapshot)]>
    (<["sk" := an SNAPSHOT_SORT_KEY]>
    (<["pk" := AS (sn_entity_id snapshot)]> ∅))))))
    ttl).

(** crates/evt/src/wire/dynamo.rs:1080-1091 [snapshot_from_item] *)
Definition snapshot_from_item (item : Item) : Result SerializedSnapshot :=
  let? entity_type := optional_string item "entityType" in
  let? entity_id := required_string item "pk" in
  let? sequence := optional_number item "seq" in
  let? event_sequence := optional_number item "eventSeq" in
  let? payload := optional_string item "payload" in
  Ok (mkSnapshot (default "" entity_type) entity_id (default 0 sequence)
    (default 0 event_sequence) (default "" payload)).

(** ** Heads *)

(** crates/evt/src/wire/dynamo.rs:864-872 [head_item] *)
Definition head_item (entity_id : EntityId) (head : EventSequence) (ttl : option Z) : Item :=
  insert_ttl
    (<["head" := an head]> (<["sk" := an HEAD_SORT_KEY]> (<["pk" := AS entity_id]> ∅))) ttl.

(** crates/evt/src/wire/dynamo.rs:875-880 [head_from_item] *)
Definition head_from_item (item : Item) : Result (EventSequence * option Z) :=
  let? head := required_number item "head" in
  let? ttl := optional_number item "ttl" in
  Ok (head, ttl).

(** ** The feature manifest *)

(** crates/evt/src/wire/dynamo.rs:331-345 [feature_marker_item] *)
Definition feature_marker_item (m : FeatureManifest) : Item :=
  let item :=
    <["features" := AS (json_feature_map (fm_features m))]>
    (<["version" := an (fm_version m)]>
    (<["sk" := an FEATURES_SORT_KEY]>
    (<["pk" := AS FEATURES_ID]> ∅))) in
  let item :=
    if decide (fm_history_dependent m = ∅) then item
    else <["historyDependent" := AS (json_string_set (fm_history_dependent m))]> item in
  if decide (fm_retention m = ∅) then item
  else <["retention" := AS (json_string_set (fm_retention m))]> item.

(** crates/evt/src/features.rs:244-252 [optional_json] *)
Definition optional_json_set (text : option string) (what : string) : Result (gset string) :=
  match text with
  | Some text =>
      if is_blank text then Ok ∅
      else map_err (λ err, InvalidRecord (Fmt "feature manifest {what}: {err}" [what; err]))
        (json_parse_string_set text)
  | None => Ok ∅
  end.

(** crates/evt/src/features.rs:143-159 [FeatureManifest::from_attributes] *)
Definition from_attributes (version : Z) (features : string)
    (history_dependent retention : option string) : Result FeatureManifest :=
  let? features :=
    map_err (λ err, InvalidRecord (Fmt "feature manifest {what}: {err}" ["features"%string; err]))
      (json_parse_feature_map features) in
  let? history_dependent := optional_json_set history_dependent "historyDependent" in
  let? retention := optional_json_set retention "retention" in
  Ok (mkManifest version features history_dependent retention).

(** crates/evt/src/wire/dynamo.rs:348-355 [feature_marker_from_item] *)
Definition feature_marker_from_item (item : Item) : Result FeatureManifest :=
  let? version := required_number item "version" in
  let? features := required_string item "features" in
  let? history_dependent := optional_string item "historyDependent" in
  let? retention := optional_string item "retention" in
  from_attributes version features history_dependent retention.

(** ** The rebuild fence *)

(** crates/evt/src/wire/dynamo.rs:358-363 [rebuild_lock_key] *)
Definition rebuild_lock_key : Item :=
  <["sk" := an REBUILD_SORT_KEY]> (<["pk" := AS REBUILD_LOCK_ID]> ∅).

(** crates/evt/src/wire/dynamo.rs:366-371 [rebuild_generation_key] *)
Definition rebuild_generation_key : Item :=
  <["sk" := an REBUILD_SORT_KEY]> (<["pk" := AS REBUILD_GENERATION_ID]> ∅).

(** crates/evt/src/wire/dynamo.rs:375-382 [rebuild_lock_item] *)
Definition rebuild_lock_item (lock : RebuildLock) : Item :=
  <["leaseExpiresAt" := an (rl_lease_expires_at lock)]>
  (<["generation" := an (rl_generation lock)]>
  (<["owner" := AS (rl_owner lock)]> rebuild_lock_key)).

(** crates/evt/src/wire/dynamo.rs:387-392 [rebuild_force_released_item] *)
Definition rebuild_force_released_item : Item :=
  <["forceReleased" := ABool true]> rebuild_lock_key.

(** crates/evt/src/wire/dynamo.rs:404-420 [rebuild_lock_state_from_item] *)
Definition rebuild_lock_state_from_item (item : Item) : Result (option RebuildLock) :=
  match item !! "forceReleased" with
  | Some (ABool true) => Ok None
  | Some _ => Err (InvalidRecord (Fmt "rebuild lock: forceReleased is not true" []))
  | None =>
      let? owner := required_string item "owner" in
      let? generation := required_number item "generation" in
      let? lease_expires_at := required_number item "leaseExpiresAt" in
      Ok (Some (mkLock owner generation lease_expires_at))
  end.

(** crates/evt/src/wire/dynamo.rs:396-400 [rebuild_lock_from_item] *)
Definition rebuild_lock_from_item (item : Item) : Result RebuildLock :=
  let? lock := rebuild_lock_state_from_item item in
  ok_or lock (InvalidRecord
    (Fmt "rebuild lock: the item a force-release leaves holds no lock" [])).

(** crates/evt/src/wire/dynamo.rs:424-432 [rebuild_lock_item_of] *)
Definition rebuild_lock_item_of (state : RebuildState) : option Item :=
  match rs_lock state with
  | Some lock => Some (rebuild_lock_item lock)
  | None =>
      if rg_force_released (rs_generation state) && negb (is_settled (rs_generation state)) then
        Some rebuild_force_released_item
      else None
  end.

(** crates/evt/src/wire/dynamo.rs:435-443 [rebuild_generation_item] *)
Definition rebuild_generation_item (g : RebuildGeneration) : Item :=
  let item := <["value" := an (rg_value g)]> rebuild_generation_key in
  if rg_force_released g then <["forceReleased" := ABool true]> item else item.

(** crates/evt/src/wire/dynamo.rs:446-461 [rebuild_generation_from_item] *)
Definition rebuild_generation_from_item (item : Item) : Result RebuildGeneration :=
  let? force_released :=
    match item !! "forceReleased" with
    | None => Ok false
    | Some (ABool flag) => Ok flag
    | Some _ => Err (InvalidRecord (Fmt "rebuild generation: forceReleased is not a boolean" []))
    end in
  let? value := required_number item "value" in
  Ok (mkGeneration value force_released).

(** ** Command outcomes *)

(** crates/evt/src/wire/dynamo.rs:464-464 [OUTCOME_SORT_KEY] *)
Definition OUTCOME_SORT_KEY : Z := 1.

(** crates/evt/src/wire/dynamo.rs:467-469 [outcome_key] *)
Definition outcome_key (command_id : CommandId) : string := COMMAND_OUTCOME_PREFIX +:+ command_id.

(** crates/evt/src/wire/dynamo.rs:477-514 [outcome_item] *)
Definition outcome_item (outcome : Outcome) : Result Item :=
  let item :=
    <["digest" := AS (oc_digest outcome)]>
    (<["status" := AS (status_as_str (oc_status outcome))]>
    (<["sk" := an OUTCOME_SORT_KEY]>
    (<["pk" := AS (outcome_key (oc_command_id outcome))]> ∅))) in
  let item :=
    match non_empty (oc_response outcome) with
    | Some response => <["response" := AS (base64_encode response)]> item
    | None => item
    end in
  let? item :=
    if nil_b (oc_event_ids outcome) then Ok item
    else let? events := encode_event_ids (oc_event_ids outcome) in
         Ok (<["events" := AS events]> item) in
  let? item :=
    match oc_rejection outcome with
    | Some rejection =>
        let? encoded := encode_rejection rejection in
        Ok (<["code" := AS (rj_code rejection)]> (<["rejection" := AS encoded]> item))
    | None => Ok item
    end in
  match oc_identity outcome with
  | Some identity =>
      let? targets := encode_targets identity in
      let item :=
        <["targets" := AS targets]> (<["commandType" := AS (ri_command_type identity)]> item) in
      Ok (match ri_principal identity with
          | Some principal => <["principal" := AS principal]> item
          | None => item
          end)
  | None => Ok item
  end.

(** crates/evt/src/wire/dynamo.rs:519-521 [outcome_item_size] *)
Definition outcome_item_size (outcome : Outcome) : Result Z :=
  let? item := outcome_item outcome in Ok (item_size item).

(** [pk.strip_prefix(prefix)]. *)
Fixpoint strip_prefix (prefix text : string) : option string :=
  match prefix, text with
  | EmptyString, _ => Some text
  | String a p, String b t => if Ascii.eqb a b then strip_prefix p t else None
  | String _ _, EmptyString => None
  end.

(** crates/evt/src/wire/dynamo.rs:524-596 [outcome_from_item] *)
Definition outcome_from_item (item : Item) : Result Outcome :=
  let? pk := required_string item "pk" in
  let? command_id :=
    ok_or (strip_prefix COMMAND_OUTCOME_PREFIX pk)
      (InvalidRecord (Fmt "item {pk} is not a command outcome" [pk])) in
  let? status := required_string item "status" in
  let? status :=
    ok_or (status_parse status)
      (InvalidRecord (Fmt "unknown outcome status {status:?}" [status])) in
  let? response := optional_string item "response" in
  let? response :=
    match non_empty response with
    | Some text =>
        let? bytes :=
          map_err (λ err, InvalidRecord
              (Fmt ("decode outcome response: " +:+ template err) (args err)))
            (base64_decode text) in
        Ok (Some bytes)
    | None => Ok None
    end in
  let? events := optional_string item "events" in
  let? event_ids :=
    match non_empty events with
    | Some text => decode_event_ids text
    | None => Ok []
    end in
  let? rejection := optional_string item "rejection" in
  let? rejection :=
    match non_empty rejection with
    | Some text => let? rejection := decode_rejection text in Ok (Some rejection)
    | None => Ok None
    end in
  check? (if negb (Bool.eqb (bool_decide (status = Rejected))
                     match rejection with Some _ => true | None => false end) then
            Err (InvalidRecord
              (Fmt "outcome {command_id} is {status} but its rejection attribute disagrees"
                [command_id; status_as_str status]))
          else Ok tt);
  let? digest := optional_string item "digest" in
  let outcome :=
    mkOutcome command_id status (default "" digest) response event_ids rejection None in
  check? validate_stored outcome;
  check? match rejection with
         | None =>
             let? code := optional_string item "code" in
             match code with
             | Some _ =>
                 Err (InvalidRecord
                   (Fmt "stored outcome for command {command_id} is corrupt: an accepted outcome carries a code attribute"
                     [command_id]))
             | None => Ok tt
             end
         | Some rejection =>
             let? code := optional_string item "code" in
             if bool_decide (default "" code = rj_code rejection) then Ok tt
             else Err (InvalidRecord
               (Fmt "stored outcome for command {command_id} is corrupt: the code attribute disagrees with the rejection"
                 [command_id]))
         end;
  let? command_type := optional_string item "commandType" in
  let? targets := optional_string item "targets" in
  let? principal := optional_string item "principal" in
  let? identity := decode_identity command_id command_type targets principal in
  Ok (mkOutcome command_id status (default "" digest) response event_ids rejection identity).

(** ** View rows *)

(** crates/evt/src/wire/dynamo.rs:599-612 [view_item] *)
Definition view_item (entity_type : EntityType) (entity_id : EntityId) (payload : string)
  : Result Item :=
  let? payload := utf8 payload "view payload" in
  Ok (<["payload" := AS payload]>
    (<["entityType" := AS entity_type]>
    (<["entityID" := AS entity_id]>
    (<["sk" := AS DEFAULT_VIEW_SORT_KEY]>
    (<["pk" := AS (entity_type +:+ "#" +:+ entity_id)]> ∅))))).

(** crates/evt/src/wire/dynamo.rs:616-628 [view_operation_item] *)
Definition view_operation_item (operation : ViewOperation) : Result Item :=
  let? payload := utf8 (vo_payload operation) "view payload" in
  Ok (<["payload" := AS payload]>
    (<["entityType" := AS (vo_entity_type operation)]>
    (<["entityID" := AS (vo_owner operation)]>
    (<["sk" := AS (vo_sk operation)]>
    (<["pk" := AS (vo_pk operation)]> ∅))))).

(** crates/evt/src/wire/dynamo.rs:645-665 [view_row_item] *)
Definition view_row_item (row : ViewRow) : Result Item :=
  let? payload := utf8 (vr_payload row) "view payload" in
  let item :=
    <["payload" := AS payload]>
    (<["entityType" := AS (vr_entity_type row)]>
    (<["entityID" := AS (vr_entity_id row)]>
    (<["sk" := AS (if is_empty (vr_sk row) then DEFAULT_VIEW_SORT_KEY else vr_sk row)]>
    (<["pk" := AS (vr_pk row)]> ∅)))) in
  Ok (if negb (vr_ttl row =? 0) then <["ttl" := an (vr_ttl row)]> item else item).

(** crates/evt/src/wire/dynamo.rs:671-679 [view_row_from_item] *)
Definition view_text (item : Item) (name : string) : Result string :=
  match item !! name with
  | None | Some (ANull _) => Ok ""%string
  | Some (AS value) | Some (AN value) => Ok value
  | Some _ => Err (InvalidRecord (Fmt "view attribute {name} is not a string" [name]))
  end.

(** crates/evt/src/wire/dynamo.rs:670-701 [view_row_from_item] *)
Definition view_row_from_item (item : Item) : Result ViewRow :=
  let? ttl :=
    match item !! "ttl" with
    | None | Some (ANull _) => Ok 0
    | Some (AN value) =>
        ok_or (parse_i64 value)
          (InvalidRecord (Fmt "view attribute ttl is not an integer: {value}" [value]))
    | Some _ => Err (InvalidRecord (Fmt "view attribute ttl is not a number" []))
    end in
  let? pk := view_text item "pk" in
  let? sk := view_text item "sk" in
  let? entity_id := view_text item "entityID" in
  let? entity_type := view_text item "entityType" in
  let? payload := view_text item "payload" in
  Ok (mkViewRow pk sk entity_id entity_type payload ttl).

(** crates/evt/src/wire/dynamo.rs:704-706 [view_key] *)
Definition view_key (pk sk : string) : Item := <["sk" := AS sk]> (<["pk" := AS pk]> ∅).

(** [text.replace(from, to)] of one ASCII character by another. *)
Fixpoint replace_byte (from to : ascii) (text : string) : string :=
  match text with
  | EmptyString => EmptyString
  | String c rest =>
      String (if Ascii.eqb c from then to else c) (replace_byte from to rest)
  end.

(** crates/evt/src/wire/dynamo.rs:801-813 [encode_view_cursor] *)
Definition encode_view_cursor (key : Item) : Result string :=
  let strings := omap (λ value, match value with AS text => Some text | _ => None end) key in
  let? json := json_string_map strings in
  Ok (replace_byte "/" "_" (replace_byte "+" "-" (base64_encode json))).

Definition invalid_cursor (reason : Message) : Error :=
  InvalidArgument (Fmt ("invalid pagination cursor: " +:+ template reason) (args reason)).

(** crates/evt/src/wire/dynamo.rs:817-838 [decode_view_cursor] *)
Definition decode_view_cursor (cursor : string) : Result Item :=
  if contains_byte "+" cursor || contains_byte "/" cursor then
    Err (invalid_cursor (Fmt "illegal base64url data" []))
  else
    let? bytes :=
      map_err invalid_cursor
        (base64_decode (replace_byte "_" "/" (replace_byte "-" "+" cursor))) in
    let? strings :=
      map_err (λ err, invalid_cursor (Fmt "{}" [err])) (json_parse_string_map bytes) in
    match strings !! "pk", strings !! "sk" with
    | Some _, Some _ => Ok (AS <$> strings)
    | _, _ => Err (invalid_cursor (Fmt "the key has no pk and sk" []))
    end.

(** crates/evt/src/wire/dynamo.rs:883-888 [sort_key] *)
Definition sort_key (item : Item) : option Z :=
  match item !! "sk" with
  | Some (AN sk) => parse_i64 sk
  | _ => None
  end.

(** crates/evt/src/wire/dynamo.rs:891-896 [item_ttl] *)
Definition item_ttl (item : Item) : option Z :=
  match item !! "ttl" with
  | Some (AN ttl) => parse_i64 ttl
  | _ => None
  end.

(** crates/evt/src/wire/dynamo.rs:1040-1042 [is_snapshot_item] *)
Definition is_snapshot_item (item : Item) : bool :=
  match item !! "sk" with
  | Some (AN sk) => bool_decide (parse_i64 sk = Some SNAPSHOT_SORT_KEY)
  | _ => false
  end.
End items.

(** ** Head actions *)

(** crates/evt/src/wire/dynamo.rs:901-913 [HeadAction] *)
Record HeadAction := mkHeadAction {
  ha_entity_id : EntityId;
  ha_update_expression : option string;
  ha_condition_expression : string;
  ha_names : list (string * string);
  ha_values : list (string * Z)
}.

(** crates/evt/src/wire/dynamo.rs:919-952 [HeadAction::update] *)
Definition head_update (entity_id : EntityId) (first last : EventSequence) (ttl : option Z)
  : HeadAction :=
  let create := first <=? 1 in
  mkHeadAction entity_id
    (Some match ttl with Some _ => HEAD_UPDATE_RETAINED | None => HEAD_UPDATE end)
    (match create, ttl with
     | true, _ => HEAD_CREATE_CONDITION
     | false, None => HEAD_APPEND_CONDITION
     | false, Some _ => HEAD_APPEND_RETAINED_CONDITION
     end)
    (match ttl with Some _ => [("#ttl"%string, "ttl"%string)] | None => [] end)
    ([(":last"%string, last)]
     ++ (if create then [] else [(":prev"%string, first - 1)])
     ++ match ttl with Some ttl => [(":t"%string, ttl)] | None => [] end).

(** crates/evt/src/wire/dynamo.rs:955-973 [HeadAction::fence] *)
Definition head_fence (entity_id : EntityId) (head : EventSequence) : HeadAction :=
  if head <=? 0 then mkHeadAction entity_id None HEAD_FENCE_ABSENT_CONDITION [] []
  else mkHeadAction entity_id None HEAD_FENCE_CONDITION [] [(":head"%string, head)].

(** crates/evt/src/wire/dynamo.rs:996-1008 [HeadAction::snapshot_cover] *)
Definition snapshot_cover (entity_id : EntityId) (new : EventSequence) : HeadAction :=
  mkHeadAction entity_id None
    (if 0 <? new then HEAD_COVERS_CONDITION else HEAD_COVERS_OR_ABSENT_CONDITION)
    [] [(":new"%string, new)].

(** crates/evt/src/wire/dynamo.rs:980-991 [HeadAction::snapshot_guard] *)
Definition snapshot_guard (entity_id : EntityId) (new : EventSequence) (ttl : option Z)
  : HeadAction :=
  match ttl with
  | Some ttl =>
      if 0 <? new then
        mkHeadAction entity_id (Some HEAD_REFRESH_UPDATE) HEAD_REFRESH_CONDITION
          [("#ttl"%string, "ttl"%string)] [(":new"%string, new); (":t"%string, ttl)]
      else snapshot_cover entity_id new
  | None => snapshot_cover entity_id new
  end.

(** crates/evt/src/wire/dynamo.rs:1011-1016 [HeadAction::key] *)
Definition head_action_key (action : HeadAction) : Item :=
  <["sk" := an HEAD_SORT_KEY]> (<["pk" := AS (ha_entity_id action)]> ∅).

(** crates/evt/src/wire/dynamo.rs:1021-1036 [HeadAction::size] *)
Definition head_action_size (action : HeadAction) : Z :=
  let expressions :=
    match ha_update_expression action with Some update => slen update | None => 0 end
    + slen (ha_condition_expression action) in
  let names := sumZ (map (λ name : string * string, slen name.1 + slen name.2) (ha_names action)) in
  let values :=
    sumZ (map (λ value : string * Z, slen value.1 + slen (show value.2)) (ha_values action)) in
  item_size (head_action_key action) + expressions + names + values.
