(* ===== verification/Projection.v ===== *)
(** * Commit-wide projection

    [projection.rs]: the view operations a commit's projectors emit, the rules every operation
    obeys before it is written (keys, owners, reserved prefixes, one operation per key), and the
    replay that folds the operations of a sequence of commits into view rows. *)

From S2P Require Import Prelude Types Features Outcome Rebuild Wire.

(** crates/evt/src/projection.rs:29-48 [RESERVED_VIEW_PREFIXES] *)
Definition RESERVED_VIEW_PREFIXES : list string :=
  ["journal#"; "journal-counter#"; "journal-compaction#"]%string.
Definition ENGINE_ALLOCATION_KEY : string := "evt.journal".
Definition MAX_VIEW_PK_BYTES : Z := 2048.
Definition MAX_VIEW_SK_BYTES : Z := 1024.
Definition REASON_CONDITION_FAILED : string := "ConditionalCheckFailed".

(** ** Operations and rows *)

(** crates/evt/src/projection.rs:136-154 [ViewOperation::put] *)
Definition view_put (pk sk : string) (owner : EntityId) (entity_type payload : string)
  : ViewOperation :=
  mkViewOperation Put pk sk owner entity_type payload CondNone None None.

(** crates/evt/src/projection.rs:157-173 [ViewOperation::delete] *)
Definition view_delete (pk sk : string) (owner : EntityId) : ViewOperation :=
  mkViewOperation Delete pk sk owner "" "" CondNone None None.

(** crates/evt/src/projection.rs:178-189 [ViewOperation::if_absent] *)
Definition with_condition (op : ViewOperation) (condition : ViewCondition) : ViewOperation :=
  mkViewOperation (vo_kind op) (vo_pk op) (vo_sk op) (vo_owner op) (vo_entity_type op)
    (vo_payload op) condition (vo_conflict op) (vo_expected_payload op).
Definition if_absent (op : ViewOperation) : ViewOperation := with_condition op CondAbsent.
Definition if_present (op : ViewOperation) : ViewOperation := with_condition op CondPresent.

(** crates/evt/src/projection.rs:196-199 [ViewOperation::if_payload] *)
Definition if_payload (op : ViewOperation) (payload : string) : ViewOperation :=
  mkViewOperation (vo_kind op) (vo_pk op) (vo_sk op) (vo_owner op) (vo_entity_type op)
    (vo_payload op) (vo_condition op) (vo_conflict op) (Some payload).

(** crates/evt/src/projection.rs:205-208 [ViewOperation::on_conflict] *)
Definition on_conflict (op : ViewOperation) (error : AppError) : ViewOperation :=
  mkViewOperation (vo_kind op) (vo_pk op) (vo_sk op) (vo_owner op) (vo_entity_type op)
    (vo_payload op) (vo_condition op) (Some error) (vo_expected_payload op).

(** crates/evt/src/projection.rs:233-253 [view_operation_size] *)
Definition view_operation_size (operation : ViewOperation) : Z :=
  let keys := slen "pk" + slen (vo_pk operation) + slen "sk" + slen (vo_sk operation) in
  match vo_kind operation with
  | Delete =>
      keys + slen (delete_condition (vo_condition operation))
      + slen OWNER_PLACEHOLDER
      + slen (vo_owner operation)
  | Put =>
      keys + slen "entityID"
      + slen (vo_owner operation)
      + slen "entityType"
      + slen (vo_entity_type operation)
      + slen "payload"
      + slen (vo_payload operation)
  end.

(** crates/evt/src/projection.rs:304-313 [ViewRow::of] *)
Definition view_row_of (operation : ViewOperation) : ViewRow :=
  mkViewRow (vo_pk operation) (vo_sk operation) (vo_owner operation) (vo_entity_type operation)
    (vo_payload operation) 0.

(** ** Commits as projectors see them *)

(** crates/evt/src/projection.rs:317-331 [CommitStream] *)
Record CommitStream := mkCommitStream {
  cs_entity_id : EntityId;
  cs_entity_type : EntityType;
  cs_events : list SerializedEvent;
  cs_state : string
}.

(** crates/evt/src/projection.rs:363-371 [CommitView] *)
Record CommitView := mkCommitView {
  cv_commit_id : string;
  cv_streams : list CommitStream
}.

#[export] Instance CommitStream_eq_dec : EqDecision CommitStream.
Proof. solve_decision. Defined.
#[export] Instance CommitView_eq_dec : EqDecision CommitView.
Proof. solve_decision. Defined.

(** crates/evt/src/projection.rs:337-355 [CommitStream::new] *)
Definition commit_stream_new (entity_id : EntityId) (entity_type : EntityType)
    (events : list SerializedEvent) (state : string) : CommitStream :=
  mkCommitStream entity_id entity_type
    (map (λ event,
      match md_causation_id (ev_metadata event) with
      | None =>
          with_metadata event
            (with_causation (ev_metadata event) (md_command_id (ev_metadata event)))
      | Some _ => event
      end) events)
    state.

(** crates/evt/src/projection.rs:383-385 [CommitView::event_count] *)
Definition event_count (view : CommitView) : Z :=
  sumZ (map (λ stream, llen (cs_events stream)) (cv_streams view)).

Definition with_stream_events (stream : CommitStream) (events : list SerializedEvent)
  : CommitStream :=
  mkCommitStream (cs_entity_id stream) (cs_entity_type stream) events (cs_state stream).

(** [event.metadata.extensions.remove(ENGINE_ALLOCATION_KEY)]. *)
Definition strip_allocation (event : SerializedEvent) : SerializedEvent :=
  with_metadata event
    (with_extensions (ev_metadata event)
      (delete ENGINE_ALLOCATION_KEY (md_extensions (ev_metadata event)))).

(** [history.contains(&entity_type)]. *)
Definition declares (history : list EntityType) (entity_type : EntityType) : bool :=
  bool_decide (entity_type ∈ history).

(** crates/evt/src/projection.rs:393-425 [CommitView::visible_to] *)
Definition visible_to (view : CommitView) (history : list EntityType) (engine_metadata : bool)
  : CommitView :=
  let streams :=
    if engine_metadata then cv_streams view
    else map (λ stream, with_stream_events stream (map strip_allocation (cs_events stream)))
           (cv_streams view) in
  if nil_b history then
    mkCommitView "" (map (λ stream, with_stream_events stream []) streams)
  else
    mkCommitView (cv_commit_id view)
      (map (λ stream,
        if declares history (cs_entity_type stream) then stream
        else mkCommitStream (cs_entity_id stream) (cs_entity_type stream) [] "")
        streams).

(** ** Projectors *)

(** crates/evt/src/projection.rs:452-506 [CommitProjector] *)
Record CommitProjector := mkProjector {
  pj_name : string;
  pj_history : list EntityType;
  pj_engine_metadata : bool;
  pj_project : CommitView → result (list ViewOperation) BoxError
}.

(** crates/evt/src/projection.rs:624-645 [ProjectorOperationError::for_view] *)
Definition for_view (view : ProjectedView) (reason : string) (cause : option AppError)
  : ProjectorOperationError :=
  mkProjectorOperationError (pv_projector view) (pv_projector_index view) (pv_operation view)
    (vo_kind (pv_op view)) (vo_pk (pv_op view)) (vo_sk (pv_op view)) reason
    (if bool_decide (reason = REASON_CONDITION_FAILED) then vo_conflict (pv_op view) else None)
    cause.

(** crates/evt/src/projection.rs:649-651 [ProjectorOperationError::condition_failed] *)
Definition condition_failed (view : ProjectedView) : ProjectorOperationError :=
  for_view view REASON_CONDITION_FAILED None.

(** crates/evt/src/projection.rs:565-582 [ProjectedView::provenance] *)
Definition provenance (view : ProjectedView) : ProjectedView :=
  mkProjectedView (pv_projector view) (pv_projector_index view) (pv_operation view)
    (mkViewOperation (vo_kind (pv_op view)) (vo_pk (pv_op view)) (vo_sk (pv_op view))
      (vo_owner (pv_op view)) "" "" (vo_condition (pv_op view)) (vo_conflict (pv_op view)) None).

(** A double-quoted word. *)
Definition quoted (word : string) : string :=
  String "034" word +:+ String "034" EmptyString.

(** [text(name, value)]: the reason a value that holds U+0000 is refused. *)
Definition nul_reason (name value : string) : option string :=
  if contains_nul value then Some (name +:+ " contains U+0000") else None.

(** [Option::or_else]. *)
Definition or_else {A} (a b : option A) : option A := match a with Some _ => a | None => b end.

(** crates/evt/src/projection.rs:892-941 [invalid_reason] *)
Definition invalid_reason (op : ViewOperation) : option string :=
  match vo_kind op, vo_condition op with
  | Put, CondPresent =>
      Some ("a put cannot carry the " +:+ quoted "present" +:+ " condition")
  | Delete, CondAbsent =>
      Some ("a delete cannot carry the " +:+ quoted "absent" +:+ " condition")
  | _, _ =>
      if match vo_expected_payload op with Some _ => true | None => false end
         && (negb (bool_decide (vo_kind op = Put))
             || negb (bool_decide (vo_condition op = CondNone))) then
        Some "an expected payload is valid only on a put with no other condition"%string
      else if is_empty (vo_pk op) then Some "pk is empty"%string
      else if is_empty (vo_sk op) then Some "sk is empty"%string
      else if is_empty (vo_owner op) then Some "owner is empty"%string
      else match or_else (nul_reason "pk" (vo_pk op))
                   (or_else (nul_reason "sk" (vo_sk op)) (nul_reason "owner" (vo_owner op))) with
           | Some reason => Some reason
           | None =>
               match vo_kind op with
               | Put =>
                   or_else (nul_reason "entityType" (vo_entity_type op))
                     (if valid_utf8 (vo_payload op) then nul_reason "payload" (vo_payload op)
                      else Some "payload is not valid UTF-8"%string)
               | Delete => None
               end
           end
  end.

Definition invalid_view {A} (view : ProjectedView) (reason : Message) : Result A :=
  Err (InvalidViewOperation
    (Fmt ("projector {:?} (#{}) operation {}: " +:+ template reason)
      (pv_projector view :: show (pv_projector_index view) :: show (pv_operation view)
       :: args reason))).

(** The key and provenance [check_views] remembers of an operation. *)
Definition view_op_key (op : ViewOperation) : string * string := (vo_pk op, vo_sk op).

(** One iteration of [check_views]. *)
Definition check_view (seen : gmap (string * string) (string * Z)) (view : ProjectedView)
  : Result (gmap (string * string) (string * Z)) :=
  let op := pv_op view in
  match invalid_reason op with
  | Some reason => invalid_view view (Fmt "{reason}" [reason])
  | None =>
      if MAX_VIEW_PK_BYTES <? slen (vo_pk op) then
        Err (ViewKeyTooLong "pk" (slen (vo_pk op)) MAX_VIEW_PK_BYTES (pv_projector view)
          (pv_operation view))
      else if MAX_VIEW_SK_BYTES <? slen (vo_sk op) then
        Err (ViewKeyTooLong "sk" (slen (vo_sk op)) MAX_VIEW_SK_BYTES (pv_projector view)
          (pv_operation view))
      else match seen !! view_op_key op with
           | Some first =>
               Err (DuplicateViewKey (vo_pk op) (vo_sk op) first
                 (pv_projector view, pv_operation view))
           | None => Ok (<[view_op_key op := (pv_projector view, pv_operation view)]> seen)
           end
  end.

Fixpoint check_views_from (seen : gmap (string * string) (string * Z))
    (views : list ProjectedView) : Result unit :=
  match views with
  | [] => Ok tt
  | view :: rest => let? seen := check_view seen view in check_views_from seen rest
  end.

(** crates/evt/src/projection.rs:848-889 [check_views] *)
Definition check_views (views : list ProjectedView) : Result unit := check_views_from ∅ views.

(** crates/evt/src/projection.rs:1128-1160 [check_owner] *)
Definition check_owner (view : ProjectedView) (commit : CommitView) (history : list EntityType)
  : Result unit :=
  let owner := vo_owner (pv_op view) in
  match List.find (λ stream, bool_decide (cs_entity_id stream = owner)) (cv_streams commit) with
  | None =>
      invalid_view view
        (Fmt "the owner stream {owner:?} was not written by this commit" [owner])
  | Some stream =>
      if negb (nil_b history) && negb (declares history (cs_entity_type stream)) then
        invalid_view view
          (Fmt "the owner stream {owner:?} is of type {:?}, which the projector does not declare in its history"
            [owner; cs_entity_type stream])
      else Ok tt
  end.

(** crates/evt/src/projection.rs:1164-1177 [check_unreserved] *)
Definition check_unreserved (view : ProjectedView) : Result unit :=
  if existsb (λ prefix, starts_with prefix (vo_pk (pv_op view))) RESERVED_VIEW_PREFIXES then
    Err (ReservedViewKey (vo_pk (pv_op view)) (pv_projector view) (pv_operation view))
  else Ok tt.

(** [into_iter().enumerate()], from [index]. *)
Fixpoint enumerate_from {A} (index : Z) (l : list A) : list (Z * A) :=
  match l with
  | [] => []
  | x :: rest => (index, x) :: enumerate_from (index + 1) rest
  end.

(** The operations of one projector, numbered and checked. *)
Definition project_one (view : CommitView) (indexed : Z * CommitProjector)
  : Result (list ProjectedView) :=
  let projector := indexed.2 in
  let history := pj_history projector in
  let engine := pj_engine_metadata projector in
  let? operations :=
    map_err (λ source, Projector (CommitProjectorFailed (pj_name projector) source))
      (pj_project projector (visible_to view history engine)) in
  collect
    (λ numbered : Z * ViewOperation,
      let item := mkProjectedView (pj_name projector) indexed.1 numbered.1 numbered.2 in
      check? check_owner item view history;
      check? (if engine then Ok tt else check_unreserved item);
      Ok item)
    (enumerate_from 0 operations).

(** crates/evt/src/projection.rs:804-841 [project_with] *)
Definition project_with (projectors : list (Z * CommitProjector)) (view : CommitView)
  : Result (list ProjectedView) :=
  let? groups := collect (project_one view) projectors in
  let projected := concat groups in
  check? check_views projected;
  Ok projected.

(** crates/evt/src/projection.rs:770-779 [project_commit] *)
Definition project_commit (projectors : list CommitProjector) (view : CommitView)
  : Result (list ProjectedView) :=
  if nil_b projectors || (event_count view =? 0) then Ok []
  else project_with (enumerate_from 0 projectors) view.

(** crates/evt/src/projection.rs:786-799 [project_application] *)
Definition project_application (projectors : list CommitProjector) (view : CommitView)
  : Result (list ProjectedView) :=
  match List.find pj_engine_metadata projectors with
  | Some projector =>
      Err (InvalidConfig
        (Fmt "commit-wide projector {:?} reads engine metadata (the journal's); journal commits with a `JournalRepository`"
          [pj_name projector]))
  | None => project_commit projectors view
  end.

(** ** Replay *)

(** crates/evt/src/projection.rs:1081-1083 [ViewReplay] *)
Definition ViewReplay : Type := gmap (string * string) ProjectedView.

(** crates/evt/src/projection.rs:1088-1108 [ViewReplay::apply] *)
Definition replay_apply (replay : ViewReplay) (item : ProjectedView) : Result ViewReplay :=
  let key := view_op_key (pv_op item) in
  match replay !! key with
  | Some first =>
      if negb (bool_decide (vo_owner (pv_op first) = vo_owner (pv_op item))) then
        Err (SharedViewKey (vo_pk (pv_op item)) (vo_sk (pv_op item)) (vo_owner (pv_op first))
          (vo_owner (pv_op item)))
      else Ok (<[key := item]> replay)
  | None => Ok (<[key := item]> replay)
  end.

(** [self.last.values()], in key order. *)
Definition replay_values (replay : ViewReplay) : list ProjectedView :=
  map snd (btree_entries key_leb replay).

(** crates/evt/src/projection.rs:1111-1116 [ViewReplay::rows] *)
Definition replay_rows (replay : ViewReplay) : list ViewRow :=
  map (λ item, view_row_of (pv_op item))
    (List.filter (λ item, bool_decide (vo_kind (pv_op item) = Put)) (replay_values replay)).

(** A fold whose steps may fail. *)
Fixpoint fold_result {A S E} (f : S → A → result S E) (s : S) (l : list A) : result S E :=
  match l with
  | [] => Ok s
  | x :: rest => let? s := f s x in fold_result f s rest
  end.

(** crates/evt/src/projection.rs:1063-1076 [replay_views] *)
Definition replay_views (projectors : list CommitProjector) (commits : list CommitView)
  : Result (list ViewRow) :=
  let? replay :=
    fold_result
      (λ replay commit,
        let? items := project_commit projectors commit in
        fold_result replay_apply replay items)
      ∅ commits in
  Ok (replay_rows replay).

(** ** Lemmas *)

(** What every operation of a checked batch satisfies on its own. *)
Definition valid_view (op : ViewOperation) : Prop :=
  invalid_reason op = None ∧ slen (vo_pk op) ≤ MAX_VIEW_PK_BYTES ∧
  slen (vo_sk op) ≤ MAX_VIEW_SK_BYTES.

Definition view_keys (views : list ProjectedView) : list (string * string) :=
  map (λ view, view_op_key (pv_op view)) views.

Lemma check_view_ok seen view seen' :
  check_view seen view = Ok seen' ↔
  valid_view (pv_op view) ∧ seen !! view_op_key (pv_op view) = None ∧
  seen' = <[view_op_key (pv_op view) := (pv_projector view, pv_operation view)]> seen.
Proof.
  unfold check_view, valid_view. destruct (invalid_reason (pv_op view)); [naive_solver|].
  destruct (Z.ltb_spec MAX_VIEW_PK_BYTES (slen (vo_pk (pv_op view)))).
  { split; [done|]. intros ((_ & ? & _) & _). lia. }
  destruct (Z.ltb_spec MAX_VIEW_SK_BYTES (slen (vo_sk (pv_op view)))).
  { split; [done|]. intros ((_ & _ & ?) & _). lia. }
  destruct (seen !! view_op_key (pv_op view)); naive_solver.
Qed.

Lemma check_views_from_ok seen views :
  check_views_from seen views = Ok tt ↔
  Forall (λ view, valid_view (pv_op view)) views ∧ NoDup (view_keys views) ∧
  ∀ key, key ∈ view_keys views → seen !! key = None.
Proof.
  revert seen. induction views as [|view views IH]; intros seen; simpl.
  { split; [|done]. intros _. split; [constructor|]. split; [constructor|].
    intros key Hk. by apply not_elem_of_nil in Hk. }
  rewrite result_bind_ok, Forall_cons, NoDup_cons.
  setoid_rewrite check_view_ok. setoid_rewrite IH. setoid_rewrite elem_of_cons. split.
  - intros (? & (Hv & Hnone & ->) & Hall & Hnd & Hfresh). split; [done|]. split.
    + split; [|done]. intros Hin. specialize (Hfresh _ Hin). by rewrite lookup_insert_eq in Hfresh.
    + intros key [->|Hin]; [done|]. specialize (Hfresh _ Hin).
      destruct (decide (view_op_key (pv_op view) = key)) as [Heq|Hne]; [by subst|].
      by rewrite lookup_insert_ne in Hfresh.
  - intros ((Hv & Hall) & (Hnin & Hnd) & Hfresh).
    exists (<[view_op_key (pv_op view) := (pv_projector view, pv_operation view)]> seen).
    split; [split; [done|split; [auto|done]]|]. split; [done|]. split; [done|].
    intros key Hin. rewrite lookup_insert_ne; [auto|]. intros Heq. by rewrite <-Heq in Hin.
Qed.

(** The check accepts exactly the batches of valid operations on distinct keys. *)
Lemma check_views_ok views :
  check_views views = Ok tt ↔
  Forall (λ view, valid_view (pv_op view)) views ∧ NoDup (view_keys views).
Proof.
  unfold check_views. rewrite check_views_from_ok. split; [naive_solver|].
  intros [Hall Hnd]. split; [done|]. split; [done|]. intros key _. apply lookup_empty.
Qed.
