(* ===== verification/Grouping.v ===== *)
(** * Grouping stored events into commits

    [projection.rs]'s [group_commits]: stored events, read stream by stream, are put back into the
    commits that wrote them, and the commits are ordered so that every stream's events keep their
    sequence order. The order is a topological sort (Kahn's algorithm with a priority queue) of
    the commits under the edges the streams impose. *)

From S2P Require Import Prelude Types Features Outcome Rebuild Wire Projection.

(** ** The algorithm *)

(** crates/evt/src/projection.rs:1048-1054 [compare_events]

    Whether the comparison is not [Greater]. *)
Definition event_leb (a b : SerializedEvent) : bool :=
  string_ltb (ev_entity_id a) (ev_entity_id b)
  || (bool_decide (ev_entity_id a = ev_entity_id b) && (ev_sequence a <=? ev_sequence b)).

Record Grouping := mkGrouping {
  gr_groups : list (list SerializedEvent);
  gr_by_commit : gmap string nat;
  gr_members : list nat
}.

(** crates/evt/src/projection.rs:968-985 [group_commits] *)
Definition group_event (g : Grouping) (event : SerializedEvent) : Grouping :=
  let commit_id := md_commit_id (ev_metadata event) in
  if is_empty commit_id then
    mkGrouping (gr_groups g ++ [[event]]) (gr_by_commit g) (gr_members g ++ [length (gr_groups g)])
  else
    let '(groups, by_commit, index) :=
      match gr_by_commit g !! commit_id with
      | Some index => (gr_groups g, gr_by_commit g, index)
      | None =>
          (gr_groups g ++ [[]], <[commit_id := length (gr_groups g)]> (gr_by_commit g),
           length (gr_groups g))
      end in
    mkGrouping (alter (λ es, es ++ [event]) index groups) by_commit (gr_members g ++ [index]).

Definition group_events (sorted : list SerializedEvent) : Grouping :=
  fold_left group_event sorted (mkGrouping [] ∅ []).

(** crates/evt/src/projection.rs:991-999 [group_commits]

    The edges, in the order of the loop: from one commit of a stream to the next. *)
Fixpoint edges_of (labelled : list (SerializedEvent * nat)) : list (nat * nat) :=
  match labelled with
  | a :: (b :: _) as rest =>
      if bool_decide (ev_entity_id a.1 = ev_entity_id b.1) && negb (bool_decide (a.2 = b.2))
      then (a.2, b.2) :: edges_of rest
      else edges_of rest
  | _ => []
  end.

(** [successors\[previous\].push(current)] for every edge. *)
Definition successors_of (n : nat) (edges : list (nat * nat)) : list (list nat) :=
  fold_left (λ s (e : nat * nat), alter (λ l, l ++ [e.2]) e.1 s) edges (replicate n []).

(** [waiting\[current\] += 1] for every edge. *)
Definition waiting_of (n : nat) (edges : list (nat * nat)) : list nat :=
  fold_left (λ w (e : nat * nat), alter S e.2 w) edges (replicate n 0%nat).

(** crates/evt/src/projection.rs:1001-1005 [group_commits] *)
Definition group_key (groups : list (list SerializedEvent)) (group : nat) : string * Z :=
  match groups !! group with
  | Some (first :: _) => (ev_entity_id first, ev_sequence first)
  | _ => (""%string, 0)
  end.

(** The order of [Reverse<(CommitKey, usize)>] in the queue: the least pair pops first. *)
Definition ready_leb (a b : (string * Z) * nat) : bool :=
  string_ltb a.1.1 b.1.1
  || (bool_decide (a.1.1 = b.1.1)
      && ((a.1.2 <? b.1.2) || ((a.1.2 =? b.1.2) && (a.2 <=? b.2)%nat))).

Section loop.
Context (key : nat → string * Z) (successors : list (list nat)).

(** [ready.push]: the queue is kept in pop order. *)
Definition push_ready (group : nat) (ready : list ((string * Z) * nat)) : list ((string * Z) * nat) :=
  insert_by ready_leb (key group, group) ready.

(** crates/evt/src/projection.rs:1018-1023 [group_commits] *)
Definition release (state : list nat * list ((string * Z) * nat)) (successor : nat)
  : list nat * list ((string * Z) * nat) :=
  let waiting := alter pred successor state.1 in
  (waiting,
   if bool_decide (waiting !! successor = Some 0%nat) then push_ready successor state.2
   else state.2).

(** crates/evt/src/projection.rs:1014-1024 [group_commits]

    [fuel] bounds the number of pops; every group is pushed at most once, so the number of groups
    is enough. *)
Fixpoint order_loop (fuel : nat) (order waiting : list nat) (ready : list ((string * Z) * nat))
  : list nat * list nat :=
  match fuel, ready with
  | S fuel, (_, group) :: ready =>
      let '(waiting, ready) :=
        fold_left release (default [] (successors !! group)) (waiting, ready) in
      order_loop fuel (order ++ [group]) waiting ready
  | _, _ => (order, waiting)
  end.
End loop.

(** crates/evt/src/projection.rs:1007-1012 [group_commits] *)
Definition initial_ready (key : nat → string * Z) (waiting : list nat)
  : list ((string * Z) * nat) :=
  fold_left
    (λ ready (e : nat * nat), if bool_decide (e.2 = 0%nat) then push_ready key e.1 ready else ready)
    (imap pair waiting) [].

(** crates/evt/src/projection.rs:1036-1042 [group_commits]

    [order.into_iter().filter_map(|group| taken\[group\].take())]. *)
Fixpoint take_groups (taken : list (option (list SerializedEvent))) (order : list nat)
  : list (list SerializedEvent) :=
  match order with
  | [] => []
  | group :: rest =>
      match taken !! group with
      | Some (Some events) => events :: take_groups (<[group := None]> taken) rest
      | _ => take_groups taken rest
      end
  end.

(** [streams.last_mut()] extended by an event of its entity, or a new stream. *)
Definition push_event (streams : list CommitStream) (event : SerializedEvent) : list CommitStream :=
  match last streams with
  | Some stream =>
      if bool_decide (cs_entity_id stream = ev_entity_id event) then
        removelast streams ++ [with_stream_events stream (cs_events stream ++ [event])]
      else streams ++ [mkCommitStream (ev_entity_id event) (ev_entity_type event) [event] ""]
  | None => [mkCommitStream (ev_entity_id event) (ev_entity_type event) [event] ""]
  end.

(** crates/evt/src/projection.rs:1180-1200 [commit_view_of] *)
Definition commit_view_of (events : list SerializedEvent) : CommitView :=
  mkCommitView
    (match events with
     | event :: _ => md_commit_id (ev_metadata event)
     | [] => ""
     end)
    (fold_left push_event events []).

(** [groups\[group\]\[0\].metadata.commit_id]. *)
Definition group_commit_id (groups : list (list SerializedEvent)) (group : nat) : string :=
  match groups !! group with
  | Some (first :: _) => md_commit_id (ev_metadata first)
  | _ => ""
  end.

(** crates/evt/src/projection.rs:958-1043 [group_commits] *)
Definition group_commits (events : list SerializedEvent) : Result (list CommitView) :=
  let sorted := sort_by event_leb events in
  let grouping := group_events sorted in
  let groups := gr_groups grouping in
  let n := length groups in
  let edges := edges_of (zip sorted (gr_members grouping)) in
  let key := group_key groups in
  let waiting := waiting_of n edges in
  let '(order, waiting) :=
    order_loop key (successors_of n edges) n [] waiting (initial_ready key waiting) in
  if (length order <? n)%nat then
    Err (CommitOrder (sort_by string_leb
      (map (group_commit_id groups)
        (List.filter (λ group, (0 <? default 0 (waiting !! group))%nat) (seq 0 n)))))
  else Ok (map commit_view_of (take_groups (map Some groups) order)).

(** * The topological sort behind [group_commits]

    For any finite graph, the queue loop visits each node at most once and only after all its
    predecessors, it visits every node when the graph has a topological numbering, and the number
    of nodes is enough fuel. *)

(** ** Counting edges *)

Definition into (edges : list (nat * nat)) (c : nat) : nat :=
  count_occ Nat.eq_dec (map snd edges) c.

Definition edges_from (edges : list (nat * nat)) (p : nat) : list (nat * nat) :=
  List.filter (λ e : nat * nat, bool_decide (e.1 = p)) edges.

(** The edges whose source is not yet ordered. *)
Definition pending (edges : list (nat * nat)) (order : list nat) : list (nat * nat) :=
  List.filter (λ e : nat * nat, negb (bool_decide (e.1 ∈ order))) edges.

Lemma waiting_of_lookup n edges c :
  (c < n)%nat → waiting_of n edges !! c = Some (into edges c).
Proof.
  intros Hc. unfold waiting_of, into. induction edges as [|e edges IH] using rev_ind.
  - simpl. by apply lookup_replicate_2.
  - rewrite fold_left_app, map_app, count_occ_app. simpl.
    destruct (Nat.eq_dec e.2 c) as [->|Hne].
    + rewrite list_lookup_alter_eq, IH. simpl. f_equal. lia.
    + rewrite list_lookup_alter_ne, IH by done. f_equal. lia.
Qed.

Lemma waiting_of_length n edges : length (waiting_of n edges) = n.
Proof.
  unfold waiting_of. induction edges as [|e edges IH] using rev_ind; simpl.
  - apply length_replicate.
  - by rewrite fold_left_app; simpl; rewrite length_alter.
Qed.

Lemma successors_of_lookup n edges p :
  (p < n)%nat → successors_of n edges !! p = Some (map snd (edges_from edges p)).
Proof.
  intros Hp. unfold successors_of, edges_from. induction edges as [|e edges IH] using rev_ind.
  - simpl. by apply lookup_replicate_2.
  - rewrite fold_left_app, List.filter_app, map_app. simpl.
    destruct (bool_decide_reflect (e.1 = p)) as [->|Hne].
    + rewrite list_lookup_alter_eq, IH. done.
    + rewrite list_lookup_alter_ne, IH by done. by rewrite app_nil_r.
Qed.

(** Ordering one more node settles exactly the edges that leave it. *)
Lemma into_pending_snoc edges order g c :
  g ∉ order →
  into (pending edges order) c
  = (into (pending edges (order ++ [g])) c + into (edges_from edges g) c)%nat.
Proof.
  intros Hg. unfold into, pending, edges_from. induction edges as [|e edges IH]; [done|].
  cbn [List.filter]. destruct (bool_decide_reflect (e.1 ∈ order)) as [Hin|Hin];
    destruct (bool_decide_reflect (e.1 ∈ order ++ [g])) as [Hin'|Hin'];
    destruct (bool_decide_reflect (e.1 = g)) as [Heq|Heq]; cbn [negb map count_occ];
    repeat destruct (Nat.eq_dec _ _); rewrite ?IH; try lia;
    exfalso; rewrite elem_of_app, list_elem_of_singleton in Hin'; naive_solver.
Qed.

Lemma into_zero edges c : into edges c = 0%nat ↔ ∀ p, (p, c) ∉ edges.
Proof.
  unfold into. rewrite <-count_occ_not_In, in_map_iff. split.
  - intros Hn p Hp. apply Hn. exists (p, c). by rewrite <-list_elem_of_In.
  - intros Hn ([p c'] & Heq & Hin). simpl in Heq. subst. apply (Hn p). by apply list_elem_of_In.
Qed.

Lemma elem_of_pending edges order p c :
  (p, c) ∈ pending edges order ↔ (p, c) ∈ edges ∧ p ∉ order.
Proof.
  unfold pending. by rewrite elem_of_list_filter, negb_true_iff, bool_decide_eq_false.
Qed.

Lemma pending_nil edges : pending edges [] = edges.
Proof.
  unfold pending. induction edges as [|e l IH]; [done|]. cbn [List.filter].
  rewrite bool_decide_eq_false_2 by apply not_elem_of_nil. cbn [negb]. by f_equal.
Qed.

(** ** The queue *)

Section loop.
Context (key : nat → string * Z).

Lemma push_ready_snd g ready : map snd (push_ready key g ready) ≡ₚ g :: map snd ready.
Proof. unfold push_ready. by rewrite (Permutation_map snd (insert_by_Permutation _ _ _)). Qed.

(** Releasing the successors of a node lowers their counts and queues those that reach zero. *)
Lemma release_fold ss : ∀ waiting ready,
  (∀ c w, waiting !! c = Some w → (count_occ Nat.eq_dec ss c ≤ w)%nat) →
  (∀ s, s ∈ ss → (s < length waiting)%nat) →
  ∃ new, length (fold_left (release key) ss (waiting, ready)).1 = length waiting ∧
    (∀ c w, waiting !! c = Some w →
       (fold_left (release key) ss (waiting, ready)).1 !! c
       = Some (w - count_occ Nat.eq_dec ss c)%nat) ∧
    map snd (fold_left (release key) ss (waiting, ready)).2 ≡ₚ new ++ map snd ready ∧
    NoDup new ∧
    ∀ c, c ∈ new ↔ c ∈ ss ∧ waiting !! c = Some (count_occ Nat.eq_dec ss c).
Proof.
  induction ss as [|s ss IH]; intros waiting ready Hocc Hlt; simpl.
  { exists []. split; [done|]. split; [intros c w ->; f_equal; lia|]. split; [done|].
    split; [constructor|]. intros c. rewrite !elem_of_nil. naive_solver. }
  destruct (lookup_lt_is_Some_2 waiting s) as [w Hw]; [apply Hlt; apply list_elem_of_here|].
  pose proof (Hocc s w Hw) as Hsw. simpl in Hsw. destruct (Nat.eq_dec s s) as [_|]; [|done].
  set (waiting1 := alter pred s waiting).
  assert (waiting1 !! s = Some (w - 1)%nat) as Hs1.
  { unfold waiting1. rewrite list_lookup_alter_eq, Hw. simpl. f_equal. lia. }
  assert (∀ c, c ≠ s → waiting1 !! c = waiting !! c) as Hne1.
  { intros c Hc. unfold waiting1. by rewrite list_lookup_alter_ne. }
  set (ready1 := if bool_decide (waiting1 !! s = Some 0%nat) then push_ready key s ready else ready).
  unfold release at 2 4 6. cbn [fst snd]. fold waiting1. fold ready1.
  destruct (IH waiting1 ready1) as (new & Hlen & Hcounts & Hready & Hnd & Hnew).
  - intros c w' Hc. destruct (decide (c = s)) as [->|Hcs].
    + rewrite Hs1 in Hc. injection Hc as <-. lia.
    + rewrite Hne1 in Hc by done. specialize (Hocc c w' Hc). simpl in Hocc.
      destruct (Nat.eq_dec s c); [congruence|done].
  - intros c Hc. unfold waiting1. rewrite length_alter. apply Hlt. by apply list_elem_of_further.
  - assert (length waiting1 = length waiting) as Hlen1 by (unfold waiting1; apply length_alter).
    assert (∀ c w', waiting !! c = Some w' →
      (fold_left (release key) ss (waiting1, ready1)).1 !! c
      = Some (w' - count_occ Nat.eq_dec (s :: ss) c)%nat) as Hcounts'.
    { intros c w' Hc. simpl. destruct (Nat.eq_dec s c) as [<-|Hsc].
      - rewrite (Hcounts s _ Hs1). f_equal. rewrite Hw in Hc. injection Hc as <-. lia.
      - apply Hcounts. by rewrite Hne1. }
    assert (∀ c, c ≠ s → c ∈ new ↔ c ∈ s :: ss ∧ waiting !! c = Some (count_occ Nat.eq_dec (s :: ss) c))
      as Hother.
    { intros c Hc. rewrite Hnew, Hne1, elem_of_cons by done. simpl.
      destruct (Nat.eq_dec s c); [congruence|]. naive_solver. }
    destruct (bool_decide_reflect (waiting1 !! s = Some 0%nat)) as [Hz|Hz].
    + rewrite Hs1 in Hz. injection Hz as Hz.
      assert (s ∉ ss) as Hns by (rewrite list_elem_of_In, (count_occ_not_In Nat.eq_dec); lia).
      assert (s ∉ new) as Hsn by (rewrite Hnew; naive_solver).
      exists (s :: new). split; [by rewrite Hlen|]. split; [done|]. split.
      { rewrite Hready. unfold ready1. rewrite push_ready_snd. simpl. by rewrite Permutation_middle. }
      split; [by constructor|]. intros c. destruct (decide (c = s)) as [->|Hcs].
      * simpl. destruct (Nat.eq_dec s s); [|done]. rewrite Hw, !elem_of_cons.
        split; [|by left]. intros _. split; [by left|]. f_equal.
        rewrite list_elem_of_In, (count_occ_not_In Nat.eq_dec) in Hns. lia.
      * rewrite elem_of_cons. rewrite <-Hother by done. naive_solver.
    + exists new. split; [by rewrite Hlen|]. split; [done|]. split; [by rewrite Hready|].
      split; [done|]. intros c. destruct (decide (c = s)) as [->|Hcs]; [|by apply Hother].
      rewrite Hnew, Hs1, Hw. simpl. destruct (Nat.eq_dec s s); [|done]. rewrite elem_of_cons.
      rewrite Hs1 in Hz. split.
      * intros [Hin Heq]. injection Heq as Heq. split; [by left|]. f_equal. lia.
      * intros [_ Heq]. injection Heq as Heq. split; [|f_equal; lia].
        destruct (decide (s ∈ ss)) as [|Hns]; [done|]. exfalso. apply Hz. f_equal.
        assert (count_occ Nat.eq_dec ss s = 0%nat) as H0
          by (apply count_occ_not_In; by rewrite <-list_elem_of_In). lia.
Qed.

(** ** The loop *)

Context (n : nat) (edges : list (nat * nat)).
Context (Hedges : ∀ p c, (p, c) ∈ edges → (p < n)%nat ∧ (c < n)%nat).

Record loop_ok (order waiting : list nat) (ready : list ((string * Z) * nat)) : Prop := {
  lo_nodup : NoDup (order ++ map snd ready);
  lo_range : ∀ g, g ∈ order ++ map snd ready → (g < n)%nat;
  lo_length : length waiting = n;
  lo_waiting : ∀ c, (c < n)%nat → waiting !! c = Some (into (pending edges order) c);
  lo_zero : ∀ c, (c < n)%nat → into (pending edges order) c = 0%nat ↔ c ∈ order ++ map snd ready;
  lo_order : ∀ l1 g l2, order = l1 ++ g :: l2 → ∀ p, (p, g) ∈ edges → p ∈ l1
}.

Lemma initial_ready_snd l acc :
  map snd (fold_left (λ ready (e : nat * nat),
      if bool_decide (e.2 = 0%nat) then push_ready key e.1 ready else ready) l acc)
  ≡ₚ map fst (List.filter (λ e : nat * nat, bool_decide (e.2 = 0%nat)) l) ++ map snd acc.
Proof.
  revert acc. induction l as [|e l IH]; intros acc; simpl; [done|]. rewrite IH.
  destruct (bool_decide (e.2 = 0%nat)); simpl; [|done].
  by rewrite push_ready_snd, Permutation_middle.
Qed.

Lemma map_fst_imap {A} (l : list A) : ∀ k, map fst (imap (λ i x, ((k + i)%nat, x)) l) = seq k (length l).
Proof.
  induction l as [|x l IH]; intros k; simpl; [done|]. rewrite Nat.add_0_r. f_equal.
  rewrite <-(IH (S k)). f_equal. apply imap_ext. intros i y _. simpl. f_equal. lia.
Qed.

Lemma loop_ok_initial : loop_ok [] (waiting_of n edges) (initial_ready key (waiting_of n edges)).
Proof.
  set (w := waiting_of n edges).
  assert (map snd (initial_ready key w)
    ≡ₚ map fst (List.filter (λ e : nat * nat, bool_decide (e.2 = 0%nat)) (imap pair w))) as Hperm.
  { unfold initial_ready. by rewrite initial_ready_snd, app_nil_r. }
  assert (∀ c, c ∈ map snd (initial_ready key w) ↔ w !! c = Some 0%nat) as Helem.
  { intros c. rewrite Hperm. split.
    - intros ([c' x] & -> & [Hin Hx]%elem_of_list_filter)%list_elem_of_fmap.
      apply bool_decide_eq_true in Hx. simpl in Hx |- *. subst x.
      apply list_elem_of_lookup in Hin as [i Hi]. rewrite list_lookup_imap in Hi.
      destruct (w !! i) eqn:Hw; [|done]. by injection Hi as -> ->.
    - intros Hc. apply list_elem_of_fmap. exists (c, 0%nat). split; [done|].
      apply elem_of_list_filter. split; [|by apply bool_decide_eq_true].
      apply list_elem_of_lookup. exists c. by rewrite list_lookup_imap, Hc. }
  split; simpl.
  - rewrite Hperm. apply NoDup_map_filter.
    change (NoDup (map fst (imap (λ i x, ((0 + i)%nat, x)) w))). rewrite map_fst_imap.
    apply NoDup_seq.
  - intros g Hg%Helem. unfold w in Hg. apply lookup_lt_Some in Hg.
    by rewrite waiting_of_length in Hg.
  - apply waiting_of_length.
  - intros c Hc. rewrite pending_nil. by apply waiting_of_lookup.
  - intros c Hc. rewrite pending_nil, Helem. unfold w. rewrite (waiting_of_lookup _ _ _ Hc). naive_solver.
  - intros l1 g l2 Heq. by destruct l1.
Qed.

Lemma elem_of_successors g s :
  s ∈ map snd (edges_from edges g) ↔ (g, s) ∈ edges.
Proof.
  unfold edges_from. rewrite list_elem_of_fmap. split.
  - intros ([p c] & -> & [Hin Hp]%elem_of_list_filter). apply bool_decide_eq_true in Hp.
    simpl in *. by subst.
  - intros Hin. exists (g, s). split; [done|]. apply elem_of_list_filter.
    split; [done|]. by apply bool_decide_eq_true.
Qed.

(** One iteration: pop a node, append it, release its successors. *)
Lemma loop_ok_step order waiting k g ready :
  loop_ok order waiting ((k, g) :: ready) →
  let r := fold_left (release key) (default [] (successors_of n edges !! g)) (waiting, ready) in
  loop_ok (order ++ [g]) r.1 r.2.
Proof.
  intros [Hnd Hrange Hlen Hwait Hzero Horder]. simpl in *.
  assert (g < n)%nat as Hg by (apply Hrange; rewrite elem_of_app; right; apply list_elem_of_here).
  rewrite (successors_of_lookup _ _ _ Hg). simpl.
  set (ss := map snd (edges_from edges g)).
  assert (g ∉ order) as Hgo.
  { apply NoDup_app in Hnd as (_ & Hdisj & _). intros Hin. apply (Hdisj g Hin). apply list_elem_of_here. }
  assert (∀ c, into (pending edges order) c
    = (into (pending edges (order ++ [g])) c + count_occ Nat.eq_dec ss c)%nat) as Hcount
    by (intros c; by apply into_pending_snoc).
  destruct (release_fold ss waiting ready) as (new & Hrlen & Hrcounts & Hready & Hnew_nd & Hnew).
  { intros c w Hc. apply lookup_lt_Some in Hc as Hlt. rewrite Hlen in Hlt.
    rewrite (Hwait c Hlt) in Hc. injection Hc as <-. rewrite Hcount. lia. }
  { intros s Hs. rewrite Hlen. apply elem_of_successors in Hs. apply Hedges in Hs. lia. }
  set (r := fold_left (release key) ss (waiting, ready)) in *.
  assert (∀ c, c ∈ new ↔ c ∈ ss ∧ into (pending edges (order ++ [g])) c = 0%nat) as Hnew'.
  { intros c. rewrite Hnew. split; intros [Hin Hc]; (split; [done|]).
    - apply lookup_lt_Some in Hc as Hlt. rewrite Hlen in Hlt. rewrite (Hwait c Hlt) in Hc.
      injection Hc as Hc. rewrite Hcount in Hc. lia.
    - assert (c < n)%nat as Hlt by (apply elem_of_successors, Hedges in Hin; lia).
      rewrite (Hwait c Hlt), Hcount, Hc. done. }
  assert ((order ++ [g]) ++ map snd r.2 ≡ₚ new ++ order ++ g :: map snd ready) as Hperm.
  { rewrite Hready, <-app_assoc. simpl. rewrite (Permutation_app_swap_app new order).
    f_equiv. apply Permutation_middle. }
  assert (∀ c, c ∈ order ++ g :: map snd ready → c ∉ new) as Hdisj.
  { intros c Hc Hin. apply Hnew in Hin as [Hss Hw]. apply Hrange in Hc as Hlt.
    apply (Hzero c Hlt) in Hc. rewrite (Hwait c Hlt), Hc in Hw. injection Hw as Hw.
    symmetry in Hw. apply count_occ_not_In in Hw. by rewrite list_elem_of_In in Hss. }
  split.
  - rewrite Hperm. apply NoDup_app. split; [done|]. split; [|done]. intros c Hn Hc. by apply (Hdisj c).
  - intros c Hc. rewrite Hperm in Hc. apply elem_of_app in Hc as [Hc|Hc]; [|by apply Hrange].
    apply Hnew' in Hc as [Hc _]. apply elem_of_successors, Hedges in Hc. lia.
  - lia.
  - intros c Hc. rewrite (Hrcounts c _ (Hwait c Hc)), Hcount. f_equal. lia.
  - intros c Hc. rewrite Hperm, elem_of_app, Hnew'. rewrite <-(Hzero c Hc), Hcount. split.
    + intros H0. destruct (decide (c ∈ ss)) as [Hss|Hss]; [by left|right].
      rewrite list_elem_of_In, (count_occ_not_In Nat.eq_dec) in Hss. lia.
    + intros [[_ H0]|H0]; [done|lia].
  - intros l1 x l2 Heq p Hp. destruct l2 as [|y l2 _] using rev_ind.
    + apply app_inj_tail in Heq as [-> ->].
      assert (into (pending edges l1) x = 0%nat) as H0.
      { apply Hzero; [done|]. rewrite elem_of_app. right. apply list_elem_of_here. }
      rewrite into_zero in H0. specialize (H0 p). rewrite elem_of_pending in H0.
      destruct (decide (p ∈ l1)); [done|]. exfalso. by apply H0.
    + rewrite app_comm_cons, app_assoc in Heq. apply app_inj_tail in Heq as [-> ->].
      by eapply Horder.
Qed.

(** The number of nodes is enough fuel: the loop ends because the queue is empty. *)
Lemma order_loop_ok fuel : ∀ order waiting ready,
  loop_ok order waiting ready → (n ≤ length order + fuel)%nat →
  let r := order_loop key (successors_of n edges) fuel order waiting ready in
  loop_ok r.1 r.2 [].
Proof.
  induction fuel as [|fuel IH]; intros order waiting ready Hok Hfuel.
  - simpl. destruct ready as [|[k g] ready]; [done|]. exfalso.
    pose proof (lo_nodup _ _ _ Hok) as Hnd. pose proof (lo_range _ _ _ Hok) as Hr.
    assert (length (order ++ map snd ((k, g) :: ready)) ≤ length (seq 0 n))%nat as Hle.
    { apply submseteq_length, NoDup_submseteq; [done|]. intros c Hc. apply elem_of_seq.
      specialize (Hr c Hc). lia. }
    rewrite length_app, length_seq in Hle. simpl in Hle. lia.
  - destruct ready as [|[k g] ready]; [done|]. cbn [order_loop].
    pose proof (loop_ok_step _ _ _ _ _ Hok) as Hstep. cbv zeta in Hstep.
    destruct (fold_left _ _ _) as [waiting' ready'].
    apply IH; [done|]. rewrite length_app. simpl. lia.
Qed.

Definition final_order : list nat * list nat :=
  order_loop key (successors_of n edges) n [] (waiting_of n edges)
    (initial_ready key (waiting_of n edges)).

Lemma final_order_ok : loop_ok final_order.1 final_order.2 [].
Proof. apply order_loop_ok; [apply loop_ok_initial|simpl; lia]. Qed.

(** A complete order visits every node once. *)
Lemma final_order_complete : (n ≤ length final_order.1)%nat → final_order.1 ≡ₚ seq 0 n.
Proof.
  intros Hn. pose proof final_order_ok as [Hnd Hrange _ _ _ _]. rewrite app_nil_r in Hnd, Hrange.
  apply submseteq_length_Permutation.
  - apply NoDup_submseteq; [done|]. intros c Hc. apply elem_of_seq. specialize (Hrange c Hc). lia.
  - rewrite length_seq. lia.
Qed.

(** A graph with a topological numbering is ordered completely. *)
Lemma final_order_acyclic (f : nat → nat) :
  (∀ p c, (p, c) ∈ edges → (f p < f c)%nat) → (n ≤ length final_order.1)%nat.
Proof.
  intros Hf. pose proof final_order_ok as [Hnd Hrange _ _ Hzero _]. rewrite app_nil_r in Hnd, Hrange.
  assert (∀ k c, (f c < k)%nat → (c < n)%nat → c ∈ final_order.1) as Hall.
  { induction k as [|k IH]; intros c Hk Hc; [lia|].
    specialize (Hzero c Hc). rewrite app_nil_r in Hzero. apply Hzero, into_zero.
    intros p [Hp Hnp]%elem_of_pending. apply Hnp. apply IH; [|apply Hedges in Hp; lia].
    apply Hf in Hp. lia. }
  rewrite <-(length_seq n 0). apply submseteq_length, NoDup_submseteq; [apply NoDup_seq|].
  intros c Hc%elem_of_seq. apply (Hall (S (f c))); lia.
Qed.
End loop.
