(* ===== verification/Repository.v ===== *)
(** * The repository contract

    [repository.rs]: the commits a repository is handed, what makes one well formed, how a
    transaction is normalized, the budget every backend applies, and the snapshot schedule. *)

From S2P Require Import Prelude Types Features Outcome Rebuild Wire Projection.

(** crates/evt/src/repository.rs:15-24 [NewSnapshot] *)
Record NewSnapshot := mkNewSnapshot {
  ns_entity_type : EntityType;
  ns_sequence : EventSequence;
  ns_payload : string
}.

#[export] Instance NewSnapshot_eq_dec : EqDecision NewSnapshot.
Proof. solve_decision. Defined.

(** crates/evt/src/repository.rs:44-66 [Commit] *)
Record Commit (Op : Type) := mkCommit {
  cm_entity_id : EntityId;
  cm_events : list SerializedEvent;
  cm_snapshot : option NewSnapshot;
  cm_operations : list Op;
  cm_views : list ProjectedView;
  cm_outcome : option Outcome
}.
Arguments mkCommit {Op} _ _ _ _ _ _.
Arguments cm_entity_id {Op} _.
Arguments cm_events {Op} _.
Arguments cm_snapshot {Op} _.
Arguments cm_operations {Op} _.
Arguments cm_views {Op} _.
Arguments cm_outcome {Op} _.

(** crates/evt/src/repository.rs:289-304 [TransactionCommit] *)
Record TransactionCommit (Op : Type) := mkTransactionCommit {
  tc_streams : list (Commit Op);
  tc_fences : list ReadFence;
  tc_operations : list Op;
  tc_views : list ProjectedView;
  tc_outcome : option Outcome
}.
Arguments mkTransactionCommit {Op} _ _ _ _ _.
Arguments tc_streams {Op} _.
Arguments tc_fences {Op} _.
Arguments tc_operations {Op} _.
Arguments tc_views {Op} _.
Arguments tc_outcome {Op} _.

(** crates/evt/src/repository.rs:602-606 [MAX_COMMIT_BYTES] *)
Definition MAX_COMMIT_BYTES : Z := 3800000.
Definition MAX_COMMIT_ITEM_BYTES : Z := 380000.

Section commits.
Context {Op : Type}.

(** crates/evt/src/repository.rs:70-79 [Commit::new] *)
Definition commit_new (entity_id : EntityId) (events : list SerializedEvent) : Commit Op :=
  mkCommit entity_id events None [] [] None.

(** crates/evt/src/repository.rs:90-94 [Commit::stored_outcome] *)
Definition stored_outcome (commit : Commit Op) : option Outcome :=
  match cm_outcome commit with
  | Some outcome => Some (outcome_stored outcome (map ev_id (cm_events commit)))
  | None => None
  end.

(** crates/evt/src/repository.rs:120-122 [Commit::view_sizes] *)
Definition view_sizes (views : list ProjectedView) : list Z :=
  map (λ view, view_operation_size (pv_op view)) views.

(** [Iterator::find] on the adjacent pairs of a list. *)
Fixpoint find_window {A} (p : A → A → bool) (l : list A) : option (A * A) :=
  match l with
  | a :: (b :: _) as rest => if p a b then Some (a, b) else find_window p rest
  | _ => None
  end.

(** The text checks a commit with an outcome passes first. *)
Definition check_outcome_text `{SerdeJson} (commit : Commit Op) : Result unit :=
  match cm_outcome commit with
  | Some outcome =>
      check? check_outcome outcome;
      check_commit_text (cm_events commit)
        (match cm_snapshot commit with Some snapshot => [ns_entity_type snapshot] | None => [] end)
        [cm_entity_id commit]
  | None => Ok tt
  end.

(** crates/evt/src/repository.rs:160-244 [Commit::validate] *)
Definition validate `{SerdeJson} (commit : Commit Op) : Result unit :=
  check? check_outcome_text commit;
  match cm_events commit with
  | [] =>
      if negb (nil_b (cm_operations commit)) || negb (nil_b (cm_views commit)) then
        Err (ProjectorWithoutEvents (llen (cm_operations commit) + llen (cm_views commit)))
      else Ok tt
  | first :: _ =>
      check? match List.find (λ event, negb (bool_decide (ev_entity_type event = ev_entity_type first)))
                     (cm_events commit) with
             | Some event =>
                 Err (InvalidCommit
                   (Fmt "event {} has entity type {}, but the commit's first event has {}"
                     [ev_id event; ev_entity_type event; ev_entity_type first]))
             | None => Ok tt
             end;
      check? match cm_snapshot commit with
             | Some snapshot =>
                 if negb (bool_decide (ns_entity_type snapshot = ev_entity_type first)) then
                   Err (InvalidCommit
                     (Fmt "the snapshot has entity type {}, but the events have {}"
                       [ns_entity_type snapshot; ev_entity_type first]))
                 else if ns_sequence snapshot <? 1 then
                   Err (InvalidCommit
                     (Fmt "snapshot sequence {} is below 1; snapshot sequences start at 1"
                       [show (ns_sequence snapshot)]))
                 else Ok tt
             | None => Ok tt
             end;
      check? check_each
        (λ event,
          if negb (bool_decide (ev_entity_id event = cm_entity_id commit)) then
            Err (InvalidCommit
              (Fmt "event {} belongs to entity {}, not {}"
                [ev_id event; ev_entity_id event; cm_entity_id commit]))
          else
            let id := for_event (ev_entity_id event) (ev_sequence event) in
            if negb (bool_decide (ev_id event = id)) then
              Err (InvalidCommit (Fmt "event {} should have the ID {id}" [ev_id event; id]))
            else Ok tt)
        (cm_events commit);
      check? (if ev_sequence first <? 1 then
                Err (InvalidCommit
                  (Fmt "event sequence {} is below 1; sequences start at 1"
                    [show (ev_sequence first)]))
              else Ok tt);
      check? match find_window
                     (λ a b, negb (bool_decide
                       (checked_next (ev_sequence a) = Some (ev_sequence b))))
                     (cm_events commit) with
             | Some (a, b) =>
                 Err (InvalidCommit
                   (Fmt "event sequence {} follows {}; sequences must be contiguous"
                     [show (ev_sequence b); show (ev_sequence a)]))
             | None => Ok tt
             end;
      check_views (cm_views commit)
  end.

(** ** Transactions *)

(** crates/evt/src/repository.rs:308-316 [TransactionCommit::new] *)
Definition transaction_new (streams : list (Commit Op)) : TransactionCommit Op :=
  mkTransactionCommit streams [] [] [] None.

(** crates/evt/src/repository.rs:329-338 [TransactionCommit::stored_outcome] *)
Definition transaction_stored_outcome (commit : TransactionCommit Op) : option Outcome :=
  match tc_outcome commit with
  | Some outcome =>
      Some (outcome_stored outcome
        (concat (map (λ stream, map ev_id (cm_events stream)) (tc_streams commit))))
  | None => None
  end.

(** crates/evt/src/repository.rs:369-384 [TransactionCommit::normalize] *)
Definition check_transaction_text `{SerdeJson} (commit : TransactionCommit Op) : Result unit :=
  match tc_outcome commit with
  | Some outcome =>
      check? check_outcome outcome;
      check_commit_text
        (concat (map cm_events (tc_streams commit)))
        (map fe_entity_type (tc_fences commit)
         ++ map ns_entity_type (omap cm_snapshot (tc_streams commit)))
        (map fe_entity_id (tc_fences commit) ++ map cm_entity_id (tc_streams commit))
  | None => Ok tt
  end.

(** crates/evt/src/repository.rs:386-396 [TransactionCommit::normalize] *)
Fixpoint check_streams `{SerdeJson} (ids : gset EntityId) (streams : list (Commit Op))
  : Result unit :=
  match streams with
  | [] => Ok tt
  | stream :: rest =>
      check? validate stream;
      check? check_not_reserved (cm_entity_id stream);
      if bool_decide (cm_entity_id stream ∈ ids) then
        Err (InvalidCommit (Fmt "duplicate stream {}" [cm_entity_id stream]))
      else check_streams ({[cm_entity_id stream]} ∪ ids) rest
  end.

(** crates/evt/src/repository.rs:397-409 [TransactionCommit::normalize] *)
Fixpoint check_fences (ids : gset EntityId) (fences : list ReadFence) : Result unit :=
  match fences with
  | [] => Ok tt
  | fence :: rest =>
      check? check_not_reserved (fe_entity_id fence);
      if (fe_head fence <? 0)
         || bool_decide (checked_next (fe_head fence) = None)
         || bool_decide (fe_entity_id fence ∈ ids) then
        Err (InvalidCommit (Fmt "invalid or duplicate fence {}" [fe_entity_id fence]))
      else check_fences ({[fe_entity_id fence]} ∪ ids) rest
  end.

Definition has_events (stream : Commit Op) : bool := negb (nil_b (cm_events stream)).

(** [operations.append(&mut stream.operations); views.append(&mut stream.views)]. *)
Definition without_carried (stream : Commit Op) : Commit Op :=
  mkCommit (cm_entity_id stream) (cm_events stream) (cm_snapshot stream) [] []
    (cm_outcome stream).

Definition writes (streams : list (Commit Op)) (entity_id : EntityId) : bool :=
  existsb (λ stream, bool_decide (cm_entity_id stream = entity_id)) streams.

(** crates/evt/src/repository.rs:368-468 [TransactionCommit::normalize] *)
Definition normalize `{SerdeJson} (commit : TransactionCommit Op)
  : Result (TransactionCommit Op) :=
  check? check_transaction_text commit;
  check? check_streams ∅ (tc_streams commit);
  check? check_fences ∅ (tc_fences commit);
  check? check_each
    (λ stream,
      if match cm_snapshot stream with Some _ => true | None => false end
         && nil_b (cm_events stream) then
        Err (InvalidCommit
          (Fmt "snapshot for {} must cover this commit's last event" [cm_entity_id stream]))
      else Ok tt)
    (tc_streams commit);
  let carried :=
    llen (tc_operations commit) + llen (tc_views commit)
    + sumZ (map (λ stream, llen (cm_operations stream) + llen (cm_views stream))
        (tc_streams commit)) in
  if (0 <? carried) && forallb (λ stream, nil_b (cm_events stream)) (tc_streams commit) then
    Err (ProjectorWithoutEvents carried)
  else
    let written := List.filter has_events (tc_streams commit) in
    let operations := concat (map cm_operations written) ++ tc_operations commit in
    let views := concat (map cm_views written) ++ tc_views commit in
    check? check_views views;
    let streams :=
      sort_by (λ a b, string_leb (cm_entity_id a) (cm_entity_id b))
        (map without_carried written) in
    let fences :=
      sort_by (λ a b, string_leb (fe_entity_id a) (fe_entity_id b)) (tc_fences commit) in
    Ok (mkTransactionCommit streams
      (List.filter (λ fence, negb (writes streams (fe_entity_id fence))) fences)
      operations views (tc_outcome commit)).

(** crates/evt/src/repository.rs:470-474 [TransactionCommit::read_only_fences] *)
Definition read_only_fences (commit : TransactionCommit Op) : list ReadFence :=
  List.filter (λ fence, negb (writes (tc_streams commit) (fe_entity_id fence)))
    (tc_fences commit).

(** crates/evt/src/repository.rs:478-493 [TransactionCommit::check_retention] *)
Definition check_retention (commit : TransactionCommit Op) (manifest : option FeatureManifest)
    (locally_retained : EntityType → bool) : Result unit :=
  check_each
    (λ fence,
      let durable :=
        match manifest with Some m => is_retained m (fe_entity_type fence) | None => false end in
      if durable || locally_retained (fe_entity_type fence) then
        Err (RetentionConflict (fe_entity_type fence))
      else Ok tt)
    (tc_fences commit).

(** crates/evt/src/repository.rs:495-501 [TransactionCommit::is_empty] *)
Definition transaction_is_empty (commit : TransactionCommit Op) : bool :=
  nil_b (tc_streams commit) && nil_b (tc_fences commit) && nil_b (tc_operations commit)
  && nil_b (tc_views commit)
  && match tc_outcome commit with None => true | Some _ => false end.

(** ** Sizes and the budget *)

(** crates/evt/src/repository.rs:543-553 [marker_check_size] *)
Definition marker_check_size : Z :=
  item_size (<["sk" := AN (show FEATURES_SORT_KEY)]> (<["pk" := AS FEATURES_ID]> ∅)).

(** crates/evt/src/repository.rs:538-540 [control_check_sizes] *)
Definition control_check_sizes : list Z := [marker_check_size; lock_check_size].

(** The item of a commit's snapshot: it covers the commit's last event. *)
Definition snapshot_of (entity_id : EntityId) (snapshot : NewSnapshot) (last : EventSequence)
  : SerializedSnapshot :=
  mkSnapshot (ns_entity_type snapshot) entity_id (ns_sequence snapshot) last (ns_payload snapshot).

(** [events.last()]. *)
Definition last_event (events : list SerializedEvent) : option SerializedEvent :=
  List.last (map Some events) None.

(** crates/evt/src/repository.rs:559-599 [stream_sizes]

    The sizes it pushes. *)
Definition stream_sizes `{SerdeJson} (stream : Commit Op) (ttl : EntityType → option Z)
  : Result (list Z) :=
  match cm_events stream, last_event (cm_events stream) with
  | first :: _, Some last =>
      let head :=
        head_action_size (head_update (cm_entity_id stream) (ev_sequence first)
          (ev_sequence last) (ttl (ev_entity_type first))) in
      let? events :=
        collect
          (λ event, let? item := event_item event (ttl (ev_entity_type event)) in
                    Ok (item_size item))
          (cm_events stream) in
      let? snapshot :=
        match cm_snapshot stream with
        | Some snapshot =>
            let? item :=
              snapshot_item (snapshot_of (cm_entity_id stream) snapshot (ev_sequence last))
                (ttl (ns_entity_type snapshot)) in
            Ok [item_size item]
        | None => Ok []
        end in
      Ok (head :: events ++ snapshot)
  | _, _ => Ok []
  end.

(** The size of the outcome row, when there is one. *)
Definition outcome_sizes `{SerdeJson} (outcome : option Outcome) : Result (list Z) :=
  match outcome with
  | Some outcome => let? item := outcome_item outcome in Ok [item_size item]
  | None => Ok []
  end.

(** crates/evt/src/repository.rs:129-142 [Commit::sizes] *)
Definition commit_sizes `{SerdeJson} (commit : Commit Op) (ttl : EntityType → option Z)
  : Result (list Z) :=
  let? stream := stream_sizes commit ttl in
  let? outcome := outcome_sizes (stored_outcome commit) in
  Ok (control_check_sizes ++ stream ++ outcome).

(** crates/evt/src/repository.rs:513-533 [TransactionCommit::sizes] *)
Definition transaction_sizes `{SerdeJson} (commit : TransactionCommit Op)
    (ttl : EntityType → option Z) : Result (list Z) :=
  let? streams := collect (λ stream, stream_sizes stream ttl) (tc_streams commit) in
  let fences :=
    map (λ fence, head_action_size (head_fence (fe_entity_id fence) (fe_head fence)))
      (read_only_fences commit) in
  let? outcome := outcome_sizes (transaction_stored_outcome commit) in
  Ok (control_check_sizes ++ concat streams ++ fences ++ outcome).

(** One iteration of [check_budget]: the actions, the bytes and the largest item so far. *)
Definition budget_step (acc : Z * Z * Z) (size : Z) : Z * Z * Z :=
  let '(actions, bytes, largest_item) := acc in
  (actions + 1, usize_saturating_add bytes size, Z.max largest_item size).

(** crates/evt/src/repository.rs:672-689 [check_budget] *)
Definition check_budget (sizes : list Z) : Result unit :=
  let '(actions, bytes, largest_item) :=
    fold_left budget_step sizes (0, 0, 0) in
  if (100 <? actions) || (MAX_COMMIT_BYTES <? bytes) || (MAX_COMMIT_ITEM_BYTES <? largest_item)
  then Err (CommitTooLarge actions bytes largest_item)
  else Ok tt.

(** crates/evt/src/repository.rs:618-623 [snapshot_commit_size] *)
Definition snapshot_commit_size `{SerdeJson} (snapshot : SerializedSnapshot) : Result Z :=
  let? item := snapshot_item snapshot (Some i64_max) in
  Ok (item_size item).

(** crates/evt/src/repository.rs:628-645 [snapshot_fits] *)
Definition snapshot_fits `{SerdeJson} (snapshot : SerializedSnapshot) : Result bool :=
  let? size := snapshot_commit_size snapshot in
  Ok (size <=? MAX_COMMIT_ITEM_BYTES).

(** crates/evt/src/repository.rs:650-669 [NewSnapshot::within_budget] *)
Definition within_budget `{SerdeJson} (snapshot : NewSnapshot) (entity_id : EntityId)
    (event_sequence : EventSequence) : Result (option NewSnapshot) :=
  let? fits := snapshot_fits (snapshot_of entity_id snapshot event_sequence) in
  Ok (if fits then Some snapshot else None).

(** ** Receipts and the snapshot schedule *)

(** crates/evt/src/repository.rs:739-741 [CommitReceipt::of_commit] *)
Definition receipt_of_commit (commit : Commit Op) : list SerializedEvent := cm_events commit.

(** crates/evt/src/repository.rs:745-764 [CommitReceipt::of_transaction] *)
Definition receipt_of_transaction (commit : TransactionCommit Op) : list SerializedEvent :=
  concat (map cm_events
    (sort_by (λ a b, string_leb (cm_entity_id a) (cm_entity_id b))
      (List.filter has_events (tc_streams commit)))).

(** [interval as i64]: the same 64 bits, read as a signed number. *)
Definition usize_as_i64 (n : Z) : Z := if i64_max <? n then n - 2 ^ 64 else n.

(** [a.rem_euclid(n)]: the remainder in [0, |n|). *)
Definition rem_euclid (a n : Z) : Z := a mod (Z.abs n).

(** crates/evt/src/repository.rs:1135-1146 [snapshot_events_due] *)
Definition snapshot_events_due (current : EventSequence) (events interval : Z) : Z :=
  if interval =? 0 then 0
  else
    let next_snapshot_at := interval - rem_euclid current (usize_as_i64 interval) in
    if events <? next_snapshot_at then 0 else events.
End commits.

(** ** Lemmas *)

(** Events numbered without a gap from [first]. *)
Fixpoint numbered (first : EventSequence) (events : list SerializedEvent) : Prop :=
  match events with
  | [] => True
  | event :: rest => ev_sequence event = first ∧ numbered (first + 1) rest
  end.

(** What every event of a valid commit is. *)
Definition event_of (entity_id : EntityId) (event : SerializedEvent) : Prop :=
  ev_entity_id event = entity_id ∧ ev_id event = for_event entity_id (ev_sequence event).

Lemma numbered_lookup first events i event :
  numbered first events → events !! i = Some event → ev_sequence event = first + Z.of_nat i.
Proof.
  revert first i. induction events as [|e events IH]; intros first i Hn Hi; [done|].
  destruct Hn as [He Hn]. destruct i as [|i]; simpl in Hi; [inv_ok; lia|].
  rewrite (IH _ _ Hn Hi). lia.
Qed.

Lemma numbered_app first l1 l2 :
  numbered first (l1 ++ l2) ↔ numbered first l1 ∧ numbered (first + llen l1) l2.
Proof.
  revert first. induction l1 as [|e l1 IH]; intros first; simpl.
  - unfold llen. simpl. rewrite Z.add_0_r. naive_solver.
  - rewrite IH. unfold llen. simpl length. rewrite Nat2Z.inj_succ.
    replace (first + 1 + Z.of_nat (length l1)) with (first + Z.succ (Z.of_nat (length l1))) by lia.
    naive_solver.
Qed.

Lemma numbered_elem first events event :
  numbered first events → event ∈ events →
  first ≤ ev_sequence event < first + llen events ∧
  events !! Z.to_nat (ev_sequence event - first) = Some event.
Proof.
  intros Hn [i Hi]%list_elem_of_lookup. pose proof (numbered_lookup _ _ _ _ Hn Hi) as Hs.
  apply lookup_lt_Some in Hi as Hlt. unfold llen. split; [lia|].
  rewrite Hs. by replace (Z.to_nat (first + Z.of_nat i - first)) with i by lia.
Qed.

Lemma find_window_numbered events first rest :
  events = first :: rest →
  find_window (λ a b, negb (bool_decide (checked_next (ev_sequence a) = Some (ev_sequence b))))
    events = None →
  numbered (ev_sequence first) events ∧
  (ev_sequence first ≤ i64_max → Forall (λ e, ev_sequence e ≤ i64_max) events).
Proof.
  revert first rest. induction events as [|e events IH]; intros first rest Heq Hw; [done|].
  injection Heq as -> ->. destruct rest as [|b rest]; [simpl; split; [done|]; by repeat constructor|].
  cbn [find_window] in Hw. destruct (bool_decide _) eqn:Hb; [|done].
  apply bool_decide_eq_true, checked_next_Some in Hb as [Hb Hmax]. cbn [negb] in Hw.
  destruct (IH b rest eq_refl Hw) as [Hn Hall]. split.
  - simpl. split; [done|]. rewrite <-Hb. apply Hn.
  - intros _. constructor; [lia|]. apply Hall. lia.
Qed.

Section lemmas.
Context {Op : Type} `{SerdeJson}.

(** A valid commit's events belong to its entity, carry their canonical IDs, and are numbered
    without a gap from a positive sequence. *)
Lemma validate_events (commit : Commit Op) first rest :
  validate commit = Ok tt → cm_events commit = first :: rest →
  1 ≤ ev_sequence first ∧ numbered (ev_sequence first) (cm_events commit) ∧
  Forall (event_of (cm_entity_id commit)) (cm_events commit) ∧
  Forall (λ e, ev_entity_type e = ev_entity_type first) (cm_events commit) ∧
  check_views (cm_views commit) = Ok tt.
Proof.
  unfold validate. intros Hv Hev. apply check_bind_ok in Hv as [_ Hv].
  destruct (cm_events commit) as [|e es] eqn:Hes; [done|]. injection Hev as -> ->.
  rewrite !check_bind_ok in Hv. destruct Hv as (Htype & _ & Heach & Hone & Hwin & Hviews).
  rewrite check_each_ok in Heach. destruct (List.find _ _) eqn:Hfind in Htype; [done|].
  destruct (find_window _ _) as [[? ?]|] eqn:Hw in Hwin; [done|].
  destruct (ev_sequence first <? 1) eqn:Hlt in Hone; [done|].
  split; [lia|]. split; [by apply (find_window_numbered _ _ rest)|]. split; [|split; [|done]].
  - eapply Forall_impl; [exact Heach|]. intros e He. cbv beta zeta in He.
    destruct (bool_decide (ev_entity_id e = _)) eqn:H6; [|done].
    apply bool_decide_eq_true in H6. cbn [negb] in He.
    destruct (bool_decide (ev_id e = _)) eqn:H7; [|done].
    apply bool_decide_eq_true in H7. split; [done|]. by rewrite <-H6.
  - apply Forall_forall. intros e He%list_elem_of_In.
    pose proof (List.find_none _ _ Hfind e He) as Hn. simpl in Hn.
    apply negb_false_iff, bool_decide_eq_true in Hn. done.
Qed.

(** The snapshot of a valid commit with events has their type and a positive sequence. *)
Lemma validate_snapshot (commit : Commit Op) first rest snapshot :
  validate commit = Ok tt → cm_events commit = first :: rest →
  cm_snapshot commit = Some snapshot →
  ns_entity_type snapshot = ev_entity_type first ∧ 1 ≤ ns_sequence snapshot.
Proof.
  unfold validate. intros Hv Hev Hs. apply check_bind_ok in Hv as [_ Hv].
  rewrite Hev in Hv. rewrite !check_bind_ok, Hs in Hv. destruct Hv as (_ & Hsnap & _).
  destruct (bool_decide _) eqn:Ht in Hsnap; [|done].
  apply bool_decide_eq_true in Ht. cbn [negb] in Hsnap.
  destruct (ns_sequence snapshot <? 1) eqn:Hq; [done|]. split; [done|lia].
Qed.
End lemmas.

Lemma last_event_last events : last_event events = last events.
Proof.
  unfold last_event. induction events as [|e events IH]; [done|]. destruct events; [done|].
  apply IH.
Qed.

Lemma last_event_numbered first events last :
  numbered first events → last_event events = Some last →
  ev_sequence last = first + llen events - 1.
Proof.
  intros Hn Hl. rewrite last_event_last, last_lookup in Hl.
  apply lookup_lt_Some in Hl as Hlt.
  rewrite (numbered_lookup _ _ _ _ Hn Hl). unfold llen. lia.
Qed.

(** ** Normalized transactions *)

Lemma check_not_reserved_ok id : check_not_reserved id = Ok tt ↔ is_reserved id = false.
Proof. unfold check_not_reserved. by destruct (is_reserved id). Qed.

Lemma check_streams_ok {Op} `{SerdeJson} ids (streams : list (Commit Op)) :
  check_streams ids streams = Ok tt ↔
  Forall (λ c, validate c = Ok tt ∧ is_reserved (cm_entity_id c) = false) streams ∧
  NoDup (map cm_entity_id streams) ∧ Forall (λ c, cm_entity_id c ∉ ids) streams.
Proof.
  revert ids. induction streams as [|c streams IH]; intros ids; simpl.
  { split; [|done]. intros _. split; [constructor|]. split; [constructor|constructor]. }
  rewrite !check_bind_ok, check_not_reserved_ok, !Forall_cons, NoDup_cons.
  destruct (bool_decide _) eqn:Hb.
  { apply bool_decide_eq_true in Hb. naive_solver. }
  apply bool_decide_eq_false in Hb. rewrite IH, !Forall_forall. split.
  - intros (Hv & Hr & Hall & Hnd & Hfresh). split; [done|]. split; [split; [|done]|].
    + intros (c' & Hid & Hin)%list_elem_of_fmap. apply (Hfresh c' Hin). set_solver.
    + split; [done|]. intros c' Hin. specialize (Hfresh c' Hin). set_solver.
  - intros ([[Hv Hr] Hall] & [Hnin Hnd] & _ & Hfresh).
    split; [done|]. split; [done|]. split; [done|]. split; [done|].
    intros c' Hin. specialize (Hfresh c' Hin). intros [Heq|Hin']%elem_of_union; [|done].
    apply elem_of_singleton in Heq. apply Hnin. rewrite <-Heq. by apply list_elem_of_fmap_2.
Qed.

Lemma check_fences_ok ids fences :
  check_fences ids fences = Ok tt ↔
  Forall (λ f, is_reserved (fe_entity_id f) = false ∧ 0 ≤ fe_head f ∧
               checked_next (fe_head f) ≠ None) fences ∧
  NoDup (map fe_entity_id fences) ∧ Forall (λ f, fe_entity_id f ∉ ids) fences.
Proof.
  revert ids. induction fences as [|f fences IH]; intros ids; simpl.
  { split; [|done]. intros _. split; [constructor|]. split; [constructor|constructor]. }
  rewrite !check_bind_ok, check_not_reserved_ok, !Forall_cons, NoDup_cons.
  destruct ((fe_head f <? 0) || bool_decide (checked_next (fe_head f) = None)
    || bool_decide (fe_entity_id f ∈ ids)) eqn:Hb.
  { split; [naive_solver|]. rewrite !orb_true_iff, !bool_decide_eq_true in Hb.
    intros ([(? & ? & ?) _] & _ & ? & _). destruct Hb as [[|]|]; [lia|done|done]. }
  rewrite !orb_false_iff, !bool_decide_eq_false in Hb. destruct Hb as [[Hz Hn] Hb].
  rewrite IH, !Forall_forall. split.
  - intros (Hr & Hall & Hnd & Hfresh). split; [split; [|done]; split; [done|split; [lia|done]]|].
    split; [split; [|done]|].
    + intros (f' & Hid & Hin)%list_elem_of_fmap. apply (Hfresh f' Hin). set_solver.
    + split; [done|]. intros f' Hin. specialize (Hfresh f' Hin). set_solver.
  - intros ([(Hr & _) Hall] & [Hnin Hnd] & _ & Hfresh).
    split; [done|]. split; [done|]. split; [done|].
    intros f' Hin. specialize (Hfresh f' Hin). intros [Heq|Hin']%elem_of_union; [|done].
    apply elem_of_singleton in Heq. apply Hnin. rewrite <-Heq. by apply list_elem_of_fmap_2.
Qed.

(** What a transaction is once normalized: its write set is the streams with events, one per
    entity, in ID order, and its fences are on other streams. *)
Record normalized {Op} `{SerdeJson} (before after : TransactionCommit Op) : Prop := {
  nz_streams : tc_streams after ≡ₚ map without_carried (List.filter has_events (tc_streams before));
  nz_valid : Forall (λ c, validate c = Ok tt ∧ is_reserved (cm_entity_id c) = false)
    (tc_streams before);
  nz_ids : NoDup (map cm_entity_id (tc_streams after));
  nz_sorted : StronglySorted (λ a b, string_leb (cm_entity_id a) (cm_entity_id b) = true)
    (tc_streams after);
  nz_fences : ∀ f, f ∈ tc_fences after ↔
    f ∈ tc_fences before ∧ ∀ c, c ∈ tc_streams after → cm_entity_id c ≠ fe_entity_id f;
  nz_fence_ids : NoDup (map fe_entity_id (tc_fences after));
  nz_views : check_views (tc_views after) = Ok tt;
  nz_outcome : tc_outcome after = tc_outcome before;
  nz_receipt : concat (map cm_events (tc_streams after)) = receipt_of_transaction before
}.

Lemma writes_spec {Op} (streams : list (Commit Op)) id :
  writes streams id = true ↔ ∃ c, c ∈ streams ∧ cm_entity_id c = id.
Proof.
  unfold writes. rewrite existsb_exists. split.
  - intros (c & Hin%list_elem_of_In & Heq%bool_decide_eq_true). eauto.
  - intros (c & Hin & Heq). exists c. rewrite <-list_elem_of_In. split; [done|].
    by apply bool_decide_eq_true.
Qed.

Lemma normalize_ok {Op} `{SerdeJson} (before after : TransactionCommit Op) :
  normalize before = Ok after → normalized before after.
Proof.
  unfold normalize. rewrite !check_bind_ok. intros (_ & Hs & Hf & _ & Hn).
  apply check_streams_ok in Hs as (Hvalid & Hnd & _). apply check_fences_ok in Hf as (_ & Hfnd & _).
  destruct (_ && _); [done|]. apply check_bind_ok in Hn as [Hviews Hn].
  injection Hn as <-. set (le := λ a b : Commit Op, string_leb (cm_entity_id a) (cm_entity_id b)).
  set (written := map without_carried (List.filter has_events (tc_streams before))).
  split; cbn [tc_streams tc_fences tc_views tc_outcome]; fold written; fold le; try done.
  - apply sort_by_Permutation.
  - rewrite (Permutation_map cm_entity_id (sort_by_Permutation le written)).
    unfold written. rewrite map_map. simpl. by apply NoDup_map_filter.
  - apply sort_by_StronglySorted; unfold le; intros;
      [apply string_leb_total|by eapply string_leb_trans].
  - intros f. rewrite elem_of_list_filter, elem_of_sort_by, negb_true_iff, <-not_true_iff_false.
    rewrite writes_spec. naive_solver.
  - apply NoDup_map_filter.
    by rewrite (Permutation_map fe_entity_id (sort_by_Permutation _ (tc_fences before))).
  - unfold written, receipt_of_transaction. fold le.
    by rewrite (sort_by_map without_carried le le), map_map.
Qed.

(** ** The budget *)

Lemma budget_fold sizes actions bytes largest :
  Forall (λ size, 0 ≤ size) sizes → 0 ≤ bytes → 0 ≤ largest →
  ∃ largest', fold_left budget_step sizes (actions, bytes, largest)
      = (actions + llen sizes,
         match sizes with [] => bytes | _ => Z.min usize_max (bytes + sumZ sizes) end, largest') ∧
    (∀ limit, largest' ≤ limit ↔ largest ≤ limit ∧ Forall (λ size, size ≤ limit) sizes).
Proof.
  intros Hall. revert actions bytes largest.
  induction Hall as [|size sizes Hs Hall IH]; intros actions bytes largest Hb Hl; simpl.
  { exists largest. unfold llen. simpl. rewrite Z.add_0_r. split; [done|].
    intros limit. split; [intros; split; [done|constructor]|by intros [? _]]. }
  destruct (IH (actions + 1) (usize_saturating_add bytes size) (Z.max largest size))
    as (largest' & Heq & Hlim); [unfold usize_saturating_add, usize_max; lia|lia|].
  exists largest'. split.
  - rewrite Heq. unfold llen. simpl length. do 2 f_equal; [lia|].
    unfold usize_saturating_add. destruct sizes as [|size' sizes]; [simpl; lia|].
    assert (0 ≤ sumZ (size' :: sizes)).
    { clear -Hall. induction Hall; simpl in *; lia. }
    revert H. generalize (sumZ (size' :: sizes)). intros total Ht. lia.
  - intros limit. rewrite Hlim, Forall_cons. split; intros; split_and!; try lia; naive_solver lia.
Qed.

(** The budget accepts at most a hundred actions, none of them over the item limit, and no more
    bytes than a transaction may hold. *)
Lemma check_budget_ok sizes :
  Forall (λ size, 0 ≤ size) sizes →
  check_budget sizes = Ok tt ↔
  llen sizes ≤ 100 ∧ sumZ sizes ≤ MAX_COMMIT_BYTES ∧
  Forall (λ size, size ≤ MAX_COMMIT_ITEM_BYTES) sizes.
Proof.
  intros Hall. unfold check_budget.
  destruct (budget_fold sizes 0 0 0 Hall) as (largest & Heq & Hlim); [done..|].
  rewrite Heq. rewrite Z.add_0_l.
  specialize (Hlim MAX_COMMIT_ITEM_BYTES).
  assert (match sizes with [] => 0 | _ => Z.min usize_max (0 + sumZ sizes) end ≤ MAX_COMMIT_BYTES
    ↔ sumZ sizes ≤ MAX_COMMIT_BYTES) as Hbytes.
  { unfold usize_max, MAX_COMMIT_BYTES. destruct sizes; [done|]. lia. }
  revert Hbytes. generalize (match sizes with [] => 0 | _ => Z.min usize_max (0 + sumZ sizes) end).
  intros bytes Hbytes.
  destruct (Z.ltb_spec 100 (llen sizes)), (Z.ltb_spec MAX_COMMIT_BYTES bytes),
    (Z.ltb_spec MAX_COMMIT_ITEM_BYTES largest); cbn [orb]; split; try done; try lia.
  - intros (_ & _ & Hf). assert (largest ≤ MAX_COMMIT_ITEM_BYTES) by (apply Hlim; split; [done|done]).
    lia.
  - intros _. split; [lia|]. split; [by apply Hbytes|]. by apply Hlim.
Qed.
