(* ===== verification/Samples.v ===== *)
(** * Sample data

    A concrete instance of the parameters and a few concrete commits, on which the examples that
    accompany the properties evaluate. *)

From S2P Require Import Prelude Types Features Outcome Rebuild Wire Projection Repository.

(** A JSON library that renders every value as a fixed text and reads back the empty value. *)
Definition sample_json : SerdeJson := {|
  json_metadata := λ _, Ok "{}"%string;
  json_strings := λ _, Ok "[]"%string;
  json_rejection := λ _, Ok "{}"%string;
  json_parse_rejection := λ _, Ok (mkRejection "no" "" None);
  json_parse_metadata := λ _, Ok (Some Metadata_default);
  json_parse_strings := λ _, Ok (Some []);
  json_parse_string_options := λ _, Ok [];
  json_feature_map := λ _, "{}"%string;
  json_string_set := λ _, "[]"%string;
  json_parse_feature_map := λ _, Ok ∅;
  json_parse_string_set := λ _, Ok ∅;
  json_string_map := λ _, Ok "{}"%string;
  json_parse_string_map := λ _, Ok ∅
|}.

Definition sample_event (id : EntityId) (sequence : EventSequence) : SerializedEvent :=
  mkEvent (for_event id sequence) sequence "Opened" 1 id "Account" "{}" Metadata_default.

Definition sample_commit (id : EntityId) (sequences : list EventSequence) : Commit Empty_set :=
  commit_new id (map (sample_event id) sequences).

Definition sample_outcome (command_id : CommandId) : Outcome :=
  outcome_accepted command_id "digest".

Definition with_sample_outcome (c : Commit Empty_set) (command_id : CommandId) : Commit Empty_set :=
  mkCommit (cm_entity_id c) (cm_events c) (cm_snapshot c) (cm_operations c) (cm_views c)
    (Some (sample_outcome command_id)).

Definition sample_snapshot (id : EntityId) (sequence event_sequence : EventSequence)
  : SerializedSnapshot :=
  mkSnapshot "Account" id sequence event_sequence "{}".

Definition sample_view (pk sk : string) (owner : EntityId) : ProjectedView :=
  mkProjectedView "rows" 0 0 (view_put pk sk owner "Account" "{}").
