(* ===== verification/GroupingProofs.v ===== *)
(** * Correctness of [group_commits]

    The groups partition the events, each group is one commit, and the order keeps every stream's
    sequence order. *)

From S2P Require Import Prelude Types Features Outcome Rebuild Wire Projection Repository Samples.
From S2P Require Import Grouping.

(** ** Partitions by label *)

(** The elements with label [g]. *)
Definition part {A} (g : nat) (labelled : list (A * nat)) : list A :=
  map fst (List.filter (λ p : A * nat, bool_decide (p.2 = g)) labelled).

Lemma part_app {A} g (l1 l2 : list (A * nat)) : part g (l1 ++ l2) = part g l1 ++ part g l2.
Proof. unfold part. by rewrite List.filter_app, map_app. Qed.

Lemma part_cons {A} g (p : A * nat) l :
  part g (p :: l) = if bool_decide (p.2 = g) then p.1 :: part g l else part g l.
Proof. unfold part. simpl. by destruct (bool_decide (p.2 = g)). Qed.

Lemma elem_of_part {A} g (l : list (A * nat)) x : x ∈ part g l ↔ (x, g) ∈ l.
Proof.
  unfold part. rewrite list_elem_of_fmap. split.
  - intros ([y k] & -> & [Hin Hk]%elem_of_list_filter). apply bool_decide_eq_true in Hk.
    simpl in *. by subst.
  - intros Hin. exists (x, g). split; [done|]. apply elem_of_list_filter.
    split; [done|]. by apply bool_decide_eq_true.
Qed.

(** Concatenating the parts over a permutation of the labels permutes the elements. *)
Lemma concat_parts_Permutation {A} (labelled : list (A * nat)) order :
  NoDup order → (∀ x k, (x, k) ∈ labelled → k ∈ order) →
  concat (map (λ g, part g labelled) order) ≡ₚ map fst labelled.
Proof.
  intros Hnd. induction labelled as [|[x k] labelled IH]; intros Hin; simpl.
  { clear. induction order; simpl; done. }
  rewrite <-IH by (intros y j Hj; apply (Hin y); by apply list_elem_of_further).
  assert (k ∈ order) as Hk by (apply (Hin x); apply list_elem_of_here).
  clear Hin IH. induction order as [|g order IH]; [by apply not_elem_of_nil in Hk|].
  apply NoDup_cons in Hnd as [Hnin Hnd]. simpl. rewrite part_cons. simpl.
  destruct (bool_decide_reflect (k = g)) as [->|Hne].
  - simpl. apply Permutation_skip. f_equiv. clear IH Hnd Hk.
    induction order as [|g' order IH]; simpl; [done|]. rewrite part_cons. simpl.
    apply not_elem_of_cons in Hnin as [Hg Hnin].
    rewrite bool_decide_eq_false_2 by done. f_equiv. by apply IH.
  - apply elem_of_cons in Hk as [Hk|Hk]; [done|]. rewrite (IH Hnd Hk). symmetry. apply Permutation_middle.
Qed.

(** Concatenating the parts in the order of the labels gives back a list whose labels are
    ascending. *)
Lemma part_none {A} g (l : list (A * nat)) : (∀ x k, (x, k) ∈ l → k ≠ g) → part g l = [].
Proof.
  intros Hn. destruct (part g l) as [|x xs] eqn:Hp; [done|]. exfalso.
  assert (x ∈ part g l) as Hx by (rewrite Hp; apply list_elem_of_here).
  apply elem_of_part in Hx. by apply (Hn x g).
Qed.

Lemma concat_parts_none {A} (labelled : list (A * nat)) order :
  (∀ x k, (x, k) ∈ labelled → k ∉ order) → concat (map (λ g, part g labelled) order) = [].
Proof.
  induction order as [|g order IH]; intros Hn; simpl; [done|].
  rewrite (part_none g), IH; [done| |].
  - intros x k Hx Hk. apply (Hn x k Hx). by apply list_elem_of_further.
  - intros x k Hx ->. apply (Hn x g Hx). apply list_elem_of_here.
Qed.

(** [a] comes no later than [b] in [order]. *)
Definition no_later (order : list nat) (a b : nat) : Prop :=
  ∃ l1 l2, order = l1 ++ a :: l2 ∧ b ∈ a :: l2.

Lemma concat_parts_ascending {A} (labelled : list (A * nat)) order :
  NoDup order → StronglySorted (λ p q : A * nat, no_later order p.2 q.2) labelled →
  (∀ x k, (x, k) ∈ labelled → k ∈ order) →
  concat (map (λ g, part g labelled) order) = map fst labelled.
Proof.
  revert labelled. induction order as [|g order IH]; intros labelled Hnd Hs Hin; simpl.
  { destruct labelled as [|[x k] l]; [done|]. exfalso. apply (not_elem_of_nil k).
    apply (Hin x). apply list_elem_of_here. }
  apply NoDup_cons in Hnd as [Hgn Hnd].
  assert (∃ l1 l2, labelled = l1 ++ l2 ∧ Forall (λ p : A * nat, p.2 = g) l1 ∧
    (∀ x k, (x, k) ∈ l2 → k ∈ order) ∧
    StronglySorted (λ p q : A * nat, no_later order p.2 q.2) l2) as (l1 & l2 & -> & H1 & H2 & H3).
  { clear IH. induction Hs as [|[x k] l Hs IHs Hall].
    - exists [], []. split; [done|]. split; [constructor|]. split; [|constructor].
      intros x k Hx. by apply not_elem_of_nil in Hx.
    - destruct IHs as (l1 & l2 & -> & H1 & H2 & H3).
      { intros y j Hy. apply (Hin y). by apply list_elem_of_further. }
      destruct (decide (k = g)) as [->|Hne].
      + exists ((x, g) :: l1), l2. split; [done|]. split; [by constructor|]. by split.
      + assert (k ∈ order) as Hk.
        { specialize (Hin x k (list_elem_of_here _ _)). apply elem_of_cons in Hin. naive_solver. }
        assert (l1 = []) as ->.
        { destruct l1 as [|[y j] l1]; [done|]. exfalso. apply Forall_cons in H1 as [Hj _].
          simpl in Hj. subst j. apply Forall_cons in Hall as [Hle _]. simpl in Hle.
          destruct Hle as (m1 & m2 & Heq & Hmem). destruct m1 as [|z m1]; simplify_eq/=.
          apply Hgn. apply elem_of_cons in Hmem as [->|Hmem]; [done|].
          rewrite elem_of_app, elem_of_cons. by auto. }
        exists [], ((x, k) :: l2). split; [done|]. split; [constructor|]. split.
        * intros y j [Heq|Hy]%elem_of_cons; [by injection Heq as -> ->|by apply (H2 y)].
        * constructor; [done|]. apply Forall_forall. intros [y j] Hy.
          rewrite Forall_forall in Hall. specialize (Hall (y, j) Hy). simpl in *.
          destruct Hall as (m1 & m2 & Heq & Hmem). destruct m1 as [|z m1]; simplify_eq/=.
          by exists m1, m2. }
  rewrite part_app, (part_none g l2), app_nil_r.
  2: { intros x k Hx ->. by apply Hgn, (H2 x). }
  assert (part g l1 = map fst l1) as ->.
  { clear -H1. induction H1 as [|[x k] l1 Hk _ IH]; [done|]. rewrite part_cons. simpl in *.
    subst k. rewrite bool_decide_eq_true_2 by done. by rewrite IH. }
  rewrite map_app. f_equal. rewrite <-(IH l2 Hnd H3 H2). f_equal. apply map_ext_in.
  intros k Hk%list_elem_of_In. rewrite part_app, (part_none k l1); [done|].
  intros x j Hx ->. rewrite Forall_forall in H1. specialize (H1 _ Hx). simpl in H1. by subst.
Qed.

(** ** The groups *)

Definition commit_of (e : SerializedEvent) : string := md_commit_id (ev_metadata e).

Record grouping_ok (sorted : list SerializedEvent) (g : Grouping) : Prop := {
  go_members : length (gr_members g) = length sorted;
  go_range : ∀ k, k ∈ gr_members g → (k < length (gr_groups g))%nat;
  go_groups : ∀ k es, gr_groups g !! k = Some es → es = part k (zip sorted (gr_members g));
  go_nonempty : ∀ k es, gr_groups g !! k = Some es → es ≠ [];
  go_commit : ∀ cid k, gr_by_commit g !! cid = Some k →
    is_empty cid = false ∧ (k < length (gr_groups g))%nat ∧
    ∀ es, gr_groups g !! k = Some es → Forall (λ e, commit_of e = cid) es;
  go_single : ∀ k es, gr_groups g !! k = Some es →
    (∃ cid, gr_by_commit g !! cid = Some k) ∨ ∃ e, es = [e] ∧ is_empty (commit_of e) = true
}.

Lemma zip_snoc {A B} (l1 : list A) (l2 : list B) a b :
  length l2 = length l1 → zip (l1 ++ [a]) (l2 ++ [b]) = zip l1 l2 ++ [(a, b)].
Proof. intros Hl. by rewrite zip_with_app. Qed.

(** A new group for an event. *)
Lemma grouping_new sorted g e by_commit' :
  grouping_ok sorted g →
  (∀ cid k, gr_by_commit g !! cid = Some k → by_commit' !! cid = Some k) →
  (∀ cid k, by_commit' !! cid = Some k →
     gr_by_commit g !! cid = Some k ∨
     k = length (gr_groups g) ∧ cid = commit_of e ∧ is_empty cid = false) →
  ((∃ cid, by_commit' !! cid = Some (length (gr_groups g))) ∨ is_empty (commit_of e) = true) →
  grouping_ok (sorted ++ [e])
    (mkGrouping (gr_groups g ++ [[e]]) by_commit' (gr_members g ++ [length (gr_groups g)])).
Proof.
  intros [Hm Hr Hg Hn Hc Hs] Hold Hnew Hself.
  assert (part (length (gr_groups g)) (zip sorted (gr_members g)) = []) as Hfresh.
  { apply part_none. intros x k Hx ->. apply elem_of_zip_r, Hr in Hx. lia. }
  split; simpl.
  - rewrite !length_app. simpl. lia.
  - intros k. rewrite elem_of_app, list_elem_of_singleton, length_app. simpl.
    intros [Hk%Hr|Hk]; lia.
  - intros k es Hk. rewrite zip_snoc, part_app, part_cons by done. simpl.
    apply lookup_snoc_Some in Hk as [[Hlt Hk]|[-> <-]].
    + rewrite bool_decide_eq_false_2 by lia. rewrite app_nil_r. by apply Hg.
    + rewrite bool_decide_eq_true_2 by done. by rewrite Hfresh.
  - intros k es Hk. apply lookup_snoc_Some in Hk as [[_ Hk]|[_ <-]]; [by eapply Hn|done].
  - intros cid k Hk. rewrite length_app. simpl. apply Hnew in Hk as [Hk|(-> & -> & Hne)].
    + destruct (Hc _ _ Hk) as (H1 & H2 & H3). split; [done|]. split; [lia|].
      intros es He. apply lookup_snoc_Some in He as [[_ He]|[-> _]]; [by apply H3|lia].
    + split; [done|]. split; [lia|]. intros es He.
      apply lookup_snoc_Some in He as [[Hlt _]|[_ <-]]; [lia|]. by apply Forall_singleton.
  - intros k es Hk. apply lookup_snoc_Some in Hk as [[_ Hk]|[-> <-]].
    + destruct (Hs _ _ Hk) as [[cid Hcid]|?]; [left; eauto|by right].
    + destruct Hself as [?|He]; [by left|]. right. by exists e.
Qed.

(** An event added to an existing group. *)
Lemma grouping_more sorted g e k :
  grouping_ok sorted g → gr_by_commit g !! commit_of e = Some k →
  grouping_ok (sorted ++ [e])
    (mkGrouping (alter (λ es, es ++ [e]) k (gr_groups g)) (gr_by_commit g) (gr_members g ++ [k])).
Proof.
  intros [Hm Hr Hg Hn Hc Hs] Hk. destruct (Hc _ _ Hk) as (Hne & Hlt & Hall).
  assert (∀ j es, alter (λ es, es ++ [e]) k (gr_groups g) !! j = Some es →
    (j = k ∧ ∃ es', gr_groups g !! k = Some es' ∧ es = es' ++ [e]) ∨
    (j ≠ k ∧ gr_groups g !! j = Some es)) as Hlook.
  { intros j es Hj. destruct (decide (j = k)) as [->|Hjk].
    - left. split; [done|]. rewrite list_lookup_alter_eq in Hj.
      destruct (gr_groups g !! k) as [es'|]; [|done]. injection Hj as <-. by exists es'.
    - right. by rewrite list_lookup_alter_ne in Hj. }
  split; simpl.
  - rewrite !length_app. simpl. lia.
  - intros j. rewrite elem_of_app, list_elem_of_singleton, length_alter. intros [Hj%Hr|Hj]; lia.
  - intros j es Hj. rewrite zip_snoc, part_app, part_cons by done. simpl.
    apply Hlook in Hj as [(-> & es' & Hes & ->)|[Hjk Hes]].
    + rewrite bool_decide_eq_true_2 by done. by rewrite (Hg _ _ Hes).
    + rewrite bool_decide_eq_false_2 by done. rewrite app_nil_r. by apply Hg.
  - intros j es Hj. apply Hlook in Hj as [(_ & es' & _ & ->)|[_ Hes]]; [by destruct es'|by eapply Hn].
  - intros cid j Hj. rewrite length_alter. destruct (Hc _ _ Hj) as (H1 & H2 & H3).
    split; [done|]. split; [done|]. intros es He. apply Hlook in He as [(-> & es' & Hes & ->)|[_ Hes]].
    + apply Forall_app. split; [by apply H3|]. apply Forall_singleton.
      specialize (H3 _ Hes). specialize (Hall _ Hes). destruct es' as [|x es']; [by apply Hn in Hes|].
      apply Forall_cons in H3 as [<- _]. by apply Forall_cons in Hall as [-> _].
    + by apply H3.
  - intros j es Hj. apply Hlook in Hj as [(-> & _)|[_ Hes]]; [|by apply Hs].
    left. by exists (commit_of e).
Qed.

Lemma group_events_ok sorted : grouping_ok sorted (group_events sorted).
Proof.
  unfold group_events. induction sorted as [|e sorted IH] using rev_ind.
  { split; simpl; try done. intros k Hk. by apply not_elem_of_nil in Hk. }
  rewrite fold_left_app. simpl. revert IH. generalize (fold_left group_event sorted (mkGrouping [] ∅ [])).
  intros g Hok. unfold group_event. fold (commit_of e).
  destruct (is_empty (commit_of e)) eqn:He.
  - apply grouping_new; [done|done|by left|by right].
  - destruct (gr_by_commit g !! commit_of e) as [k|] eqn:Hk; [by apply grouping_more|].
    assert (alter (λ es : list SerializedEvent, es ++ [e]) (length (gr_groups g)) (gr_groups g ++ [[]])
      = gr_groups g ++ [[e]]) as ->.
    {
      apply list_eq. intros i. destruct (decide (i = length (gr_groups g))) as [->|Hne].
      - rewrite list_lookup_alter_eq, !lookup_app_r by lia. by rewrite Nat.sub_diag.
      - rewrite list_lookup_alter_ne by done.
        destruct (decide (i < length (gr_groups g))%nat); [by rewrite !lookup_app_l by lia|].
        rewrite !lookup_ge_None_2; [done|rewrite length_app; simpl; lia..]. }
    apply grouping_new; [done| | |].
    + intros cid k Hcid. rewrite lookup_insert_ne; [done|]. congruence.
    + intros cid k. destruct (decide (commit_of e = cid)) as [<-|Hne].
      * rewrite lookup_insert_eq. intros [= <-]. by right.
      * rewrite lookup_insert_ne by done. by left.
    + left. exists (commit_of e). by rewrite lookup_insert_eq.
Qed.

(** ** Edges *)

Lemma edges_of_elem labelled p c :
  (p, c) ∈ edges_of labelled →
  ∃ l1 a b l2, labelled = l1 ++ a :: b :: l2 ∧ a.2 = p ∧ b.2 = c ∧
    ev_entity_id a.1 = ev_entity_id b.1 ∧ p ≠ c.
Proof.
  induction labelled as [|a labelled IH]; [by intros ?%not_elem_of_nil|].
  destruct labelled as [|b labelled]; [by intros ?%not_elem_of_nil|].
  cbn [edges_of]. destruct (_ && _) eqn:Hb.
  - apply andb_prop in Hb as [He%bool_decide_eq_true Hne%negb_true_iff%bool_decide_eq_false].
    intros [Heq|Hin]%elem_of_cons.
    + injection Heq as -> ->. by exists [], a, b, labelled.
    + destruct (IH Hin) as (l1 & a' & b' & l2 & -> & Hrest). by exists (a :: l1), a', b', l2.
  - intros Hin. destruct (IH Hin) as (l1 & a' & b' & l2 & -> & Hrest). by exists (a :: l1), a', b', l2.
Qed.

Lemma edges_of_adjacent l1 a b l2 :
  ev_entity_id a.1 = ev_entity_id b.1 →
  a.2 = b.2 ∨ (a.2, b.2) ∈ edges_of (l1 ++ a :: b :: l2).
Proof.
  intros He. destruct (decide (a.2 = b.2)) as [|Hne]; [by left|right].
  induction l1 as [|x l1 IH].
  - cbn [app edges_of]. rewrite bool_decide_eq_true_2, bool_decide_eq_false_2 by done.
    apply list_elem_of_here.
  - destruct l1 as [|y l1]; cbn [app edges_of] in *;
      match goal with |- context [if ?c then _ :: _ else _] => destruct c end;
      [by apply list_elem_of_further|exact IH|by apply list_elem_of_further|exact IH].
Qed.

(** ** Order *)

Lemma event_leb_total a b : event_leb a b = true ∨ event_leb b a = true.
Proof.
  unfold event_leb. destruct (string_leb_total (ev_entity_id a) (ev_entity_id b)) as [H|H];
    rewrite !string_ltb_leb;
    destruct (string_leb (ev_entity_id a) (ev_entity_id b)) eqn:H1,
      (string_leb (ev_entity_id b) (ev_entity_id a)) eqn:H2; simpl; try done; try (by auto);
    rewrite (string_leb_antisym _ _ H1 H2); rewrite !bool_decide_eq_true_2 by done; simpl; lia.
Qed.

Lemma event_leb_entity a b :
  event_leb a b = true → string_leb (ev_entity_id a) (ev_entity_id b) = true.
Proof.
  unfold event_leb. rewrite orb_true_iff, andb_true_iff, string_ltb_leb, negb_true_iff.
  intros [H|[H%bool_decide_eq_true _]].
  - destruct (string_leb_total (ev_entity_id a) (ev_entity_id b)); [done|congruence].
  - rewrite H. by destruct (string_leb_total (ev_entity_id b) (ev_entity_id b)).
Qed.

Lemma event_leb_spec a b :
  event_leb a b = true ↔
  (string_leb (ev_entity_id b) (ev_entity_id a) = false) ∨
  (ev_entity_id a = ev_entity_id b ∧ ev_sequence a ≤ ev_sequence b).
Proof.
  unfold event_leb. rewrite orb_true_iff, andb_true_iff, string_ltb_leb, negb_true_iff.
  rewrite bool_decide_eq_true. by rewrite Z.leb_le.
Qed.

Lemma string_lt_trans a b c :
  string_leb b a = false → string_leb c b = false → string_leb c a = false.
Proof.
  intros H1 H2. destruct (string_leb c a) eqn:H; [|done].
  destruct (string_leb_total b c) as [Hbc|Hcb]; [|congruence].
  by rewrite (string_leb_trans _ _ _ Hbc H) in H1.
Qed.

Lemma event_leb_trans a b c : event_leb a b = true → event_leb b c = true → event_leb a c = true.
Proof.
  rewrite !event_leb_spec. intros [H1|[H1 H1']] [H2|[H2 H2']].
  - left. by eapply string_lt_trans.
  - left. by rewrite <-H2.
  - left. by rewrite H1.
  - right. split; [congruence|lia].
Qed.

Lemma sorted_events events : StronglySorted (λ a b, event_leb a b = true) (sort_by event_leb events).
Proof. apply sort_by_StronglySorted; [apply event_leb_total|apply event_leb_trans]. Qed.

Lemma no_later_lookup order a b :
  no_later order a b ↔ ∃ i j, order !! i = Some a ∧ order !! j = Some b ∧ (i ≤ j)%nat.
Proof.
  split.
  - intros (l1 & l2 & -> & Hb). apply list_elem_of_lookup in Hb as [j Hj].
    exists (length l1), (length l1 + j)%nat. rewrite !lookup_app_r by lia.
    rewrite Nat.sub_diag. replace (length l1 + j - length l1)%nat with j by lia.
    split; [done|]. split; [done|lia].
  - intros (i & j & Hi & Hj & Hle). exists (take i order), (drop (S i) order). split.
    + by rewrite take_drop_middle.
    + rewrite <-(drop_S order a i Hi). apply list_elem_of_lookup. exists (j - i)%nat.
      rewrite lookup_drop. by replace (i + (j - i))%nat with j by lia.
Qed.

Lemma no_later_trans order a b c :
  NoDup order → no_later order a b → no_later order b c → no_later order a c.
Proof.
  intros Hnd. rewrite !no_later_lookup. intros (i & j & Hi & Hj & Hij) (j' & k & Hj' & Hk & Hjk).
  assert (j = j') as <- by (by eapply NoDup_lookup). exists i, k. split; [done|]. split; [done|lia].
Qed.

Lemma no_later_refl order a : a ∈ order → no_later order a a.
Proof. intros [i Hi]%list_elem_of_lookup. rewrite no_later_lookup. by exists i, i. Qed.

(** The events of one entity are adjacent in the sorted list, so a relation between neighbours of
    one entity holds along its whole stream. *)
Lemma stream_sorted (R : nat → nat → Prop) (labelled : list (SerializedEvent * nat)) id :
  (∀ a b c, R a b → R b c → R a c) →
  StronglySorted (λ p q : SerializedEvent * nat, event_leb p.1 q.1 = true) labelled →
  (∀ l1 a b l2, labelled = l1 ++ a :: b :: l2 → ev_entity_id a.1 = ev_entity_id b.1 → R a.2 b.2) →
  StronglySorted (λ p q : SerializedEvent * nat, R p.2 q.2)
    (List.filter (λ p, bool_decide (ev_entity_id p.1 = id)) labelled).
Proof.
  intros Htrans Hs. induction Hs as [|a l Hs IH Hall]; intros Hadj; [constructor|].
  assert (StronglySorted (λ p q : SerializedEvent * nat, R p.2 q.2)
    (List.filter (λ p, bool_decide (ev_entity_id p.1 = id)) l)) as IH'.
  { apply IH. intros l1 x y l2 ->. apply (Hadj (a :: l1) x y l2). done. }
  cbn [List.filter]. destruct (bool_decide_reflect (ev_entity_id a.1 = id)) as [Ha|Ha]; [|done].
  constructor; [done|]. destruct l as [|b l]; [constructor|].
  destruct (decide (ev_entity_id b.1 = id)) as [Hb|Hb].
  - assert (R a.2 b.2) as Hab by (apply (Hadj [] a b l); [done|congruence]).
    cbn [List.filter] in *. rewrite (bool_decide_eq_true_2 _ Hb) in *.
    constructor; [done|]. inversion IH' as [|? ? _ Hrest]; subst.
    eapply Forall_impl; [exact Hrest|]. intros q Hq. by eapply Htrans.
  - assert (List.filter (λ p : SerializedEvent * nat, bool_decide (ev_entity_id p.1 = id)) (b :: l) = [])
      as ->; [|constructor].
    destruct (List.filter _ _) as [|q qs] eqn:Hf; [done|]. exfalso.
    assert (q ∈ q :: qs) as Hin by apply list_elem_of_here. rewrite <-Hf in Hin.
    apply elem_of_list_filter in Hin as [Hq Hqid].
    apply bool_decide_eq_true in Hqid. apply elem_of_cons in Hq as [->|Hq]; [done|].
    apply Forall_cons in Hall as [Hab _]. inversion Hs as [|? ? _ Hbl]; subst.
    rewrite Forall_forall in Hbl. specialize (Hbl q Hq).
    apply event_leb_entity in Hab, Hbl. apply Hb. rewrite Hqid in Hbl.
    by apply string_leb_antisym.
Qed.

(** ** The views *)

(** The events a view delivers, stream by stream. *)
Definition view_events (view : CommitView) : list SerializedEvent :=
  concat (map cs_events (cv_streams view)).

(** The events a list of commits delivers. *)
Definition delivered (commits : list CommitView) : list SerializedEvent :=
  concat (map view_events commits).

Lemma push_event_events streams e :
  concat (map cs_events (push_event streams e)) = concat (map cs_events streams) ++ [e].
Proof.
  unfold push_event. destruct streams as [|s streams _] using rev_ind; [done|].
  rewrite last_snoc. destruct (bool_decide _).
  - rewrite removelast_last, !map_app, !concat_app. simpl. by rewrite !app_nil_r, app_assoc.
  - by rewrite !map_app, !concat_app.
Qed.

Lemma view_events_of es : view_events (commit_view_of es) = es.
Proof.
  unfold view_events, commit_view_of. simpl. induction es as [|e es IH] using rev_ind; [done|].
  rewrite fold_left_app. simpl. by rewrite push_event_events, IH.
Qed.

Lemma take_groups_ok (groups : nat → list SerializedEvent) order taken :
  NoDup order → (∀ g, g ∈ order → taken !! g = Some (Some (groups g))) →
  take_groups taken order = map groups order.
Proof.
  revert taken. induction order as [|g order IH]; intros taken Hnd Ht; [done|]. simpl.
  apply NoDup_cons in Hnd as [Hg Hnd]. rewrite Ht by apply list_elem_of_here. f_equal.
  apply IH; [done|]. intros k Hk. rewrite list_lookup_insert_ne by (by intros ->).
  apply Ht. by apply list_elem_of_further.
Qed.

Lemma filter_concat {A} (f : A → bool) (ls : list (list A)) :
  List.filter f (concat ls) = concat (map (List.filter f) ls).
Proof. induction ls as [|l ls IH]; [done|]. simpl. by rewrite List.filter_app, IH. Qed.

Lemma filter_part {A} (f : A → bool) g (l : list (A * nat)) :
  List.filter f (part g l) = part g (List.filter (λ p : A * nat, f p.1) l).
Proof.
  induction l as [|[x k] l IH]; [done|]. rewrite part_cons. simpl.
  destruct (f x) eqn:Hf; [rewrite part_cons|]; simpl; destruct (bool_decide _); simpl;
    rewrite ?Hf, IH; done.
Qed.

Lemma filter_map_fst {A} (f : A → bool) (l : list (A * nat)) :
  map fst (List.filter (λ p : A * nat, f p.1) l) = List.filter f (map fst l).
Proof.
  induction l as [|[x k] l IH]; [done|]. simpl. destruct (f x); simpl; by rewrite IH.
Qed.

Lemma StronglySorted_zip {A B} (R : A → A → Prop) (l : list A) (k : list B) :
  StronglySorted R l → length k = length l →
  StronglySorted (λ p q : A * B, R p.1 q.1) (zip l k).
Proof.
  intros Hs. revert k. induction Hs as [|a l Hs IH Hall]; intros [|b k] Hl; try done; [constructor|].
  simpl. constructor; [apply IH; simpl in Hl; lia|]. apply Forall_forall. intros [x y] Hx%elem_of_zip_l.
  rewrite Forall_forall in Hall. by apply Hall.
Qed.

Lemma StronglySorted_sub {A} (R : A → A → Prop) (f : A → bool) l :
  StronglySorted R l → StronglySorted R (List.filter f l).
Proof.
  induction 1 as [|a l Hs IH Hall]; [constructor|]. simpl. destruct (f a); [|done].
  constructor; [done|]. apply Forall_forall. intros x [Hx _]%elem_of_list_filter.
  rewrite Forall_forall in Hall. by apply Hall.
Qed.

(** ** One grouping *)

Section grouped.
Context (events : list SerializedEvent).

Definition the_sorted : list SerializedEvent := sort_by event_leb events.
Definition the_groups : list (list SerializedEvent) := gr_groups (group_events the_sorted).
Definition the_labels : list (SerializedEvent * nat) :=
  zip the_sorted (gr_members (group_events the_sorted)).
Definition the_order : list nat :=
  (final_order (group_key the_groups) (length the_groups) (edges_of the_labels)).1.

Lemma labels_fst : map fst the_labels = the_sorted.
Proof. apply fst_zip. by rewrite (go_members _ _ (group_events_ok the_sorted)). Qed.

Lemma labels_range e k : (e, k) ∈ the_labels → (k < length the_groups)%nat.
Proof. intros Hk%elem_of_zip_r. by apply (go_range _ _ (group_events_ok the_sorted)). Qed.

Lemma groups_part k es : the_groups !! k = Some es → es = part k the_labels.
Proof. apply (go_groups _ _ (group_events_ok the_sorted)). Qed.

Lemma edges_range p c :
  (p, c) ∈ edges_of the_labels → (p < length the_groups)%nat ∧ (c < length the_groups)%nat.
Proof.
  intros (l1 & [a p'] & [b c'] & l2 & Heq & <- & <- & _)%edges_of_elem. simpl.
  split; [apply (labels_range a)|apply (labels_range b)]; rewrite Heq;
    rewrite elem_of_app, !elem_of_cons; auto.
Qed.

Lemma group_commits_eq :
  (∃ commits, group_commits events = Ok commits) ↔ (length the_groups ≤ length the_order)%nat.
Proof.
  unfold group_commits, the_order, final_order, the_groups, the_labels, the_groups, the_sorted.
  destruct (order_loop _ _ _ _ _ _) as [order waiting]. simpl.
  destruct (Nat.ltb_spec (length order) (length (gr_groups (group_events (sort_by event_leb events))))).
  - split; [by intros []|lia].
  - split; [done|eauto].
Qed.

Lemma group_commits_views commits :
  group_commits events = Ok commits →
  the_order ≡ₚ seq 0 (length the_groups) ∧
  commits = map (λ g, commit_view_of (part g the_labels)) the_order.
Proof.
  intros Hok. assert (the_order ≡ₚ seq 0 (length the_groups)) as Hp.
  { apply final_order_complete; [exact edges_range|]. apply group_commits_eq. eauto. }
  split; [done|]. revert Hok. rewrite <-(map_map (λ g, part g the_labels) commit_view_of).
  rewrite <-(take_groups_ok (λ g, part g the_labels) the_order (map Some the_groups)).
  - unfold group_commits, the_order, final_order, the_groups, the_labels, the_groups, the_sorted.
    destruct (order_loop _ _ _ _ _ _) as [order waiting]. simpl.
    destruct (_ <? _)%nat; [done|]. by intros [= <-].
  - rewrite Hp. apply NoDup_seq.
  - intros g Hg. rewrite Hp in Hg. apply elem_of_seq in Hg.
    rewrite list_lookup_fmap. destruct (lookup_lt_is_Some_2 the_groups g ltac:(lia)) as [es Hes].
    rewrite Hes. simpl. by rewrite (groups_part _ _ Hes).
Qed.

(** Along one entity's stream the labels never move back in the order. *)
Lemma stream_labels id :
  the_order ≡ₚ seq 0 (length the_groups) →
  StronglySorted (λ p q : SerializedEvent * nat, no_later the_order p.2 q.2)
    (List.filter (λ p, bool_decide (ev_entity_id p.1 = id)) the_labels).
Proof.
  intros Hp. assert (NoDup the_order) as Hnd by (rewrite Hp; apply NoDup_seq).
  assert (∀ e k, (e, k) ∈ the_labels → k ∈ the_order) as Hin.
  { intros e k Hk%labels_range. rewrite Hp. apply elem_of_seq. lia. }
  apply stream_sorted.
  - intros a b c. by apply no_later_trans.
  - apply (StronglySorted_zip (λ a b, event_leb a b = true)); [apply sorted_events|].
    apply (go_members _ _ (group_events_ok the_sorted)).
  - intros l1 a b l2 Heq He. destruct (edges_of_adjacent l1 a b l2 He) as [->|Hedge].
    + apply no_later_refl. apply (Hin b.1). rewrite <-surjective_pairing, Heq, elem_of_app, !elem_of_cons.
      auto.
    + rewrite <-Heq in Hedge.
      assert (b.2 ∈ the_order) as Hb.
      { apply (Hin b.1). rewrite <-surjective_pairing, Heq, elem_of_app, !elem_of_cons. auto. }
      apply list_elem_of_split in Hb as (m1 & m2 & Hm).
      pose proof (lo_order _ _ _ _ _ (final_order_ok (group_key the_groups) _ _ edges_range)
        _ _ _ Hm _ Hedge) as Ha.
      apply list_elem_of_split in Ha as (n1 & n2 & ->). exists n1, (n2 ++ b.2 :: m2).
      rewrite Hm. split; [by rewrite <-app_assoc|]. rewrite elem_of_cons, elem_of_app, elem_of_cons. auto.
Qed.

Lemma delivered_parts commits :
  commits = map (λ g, commit_view_of (part g the_labels)) the_order →
  delivered commits = concat (map (λ g, part g the_labels) the_order).
Proof.
  intros ->. unfold delivered. rewrite map_map. f_equal. apply map_ext. intros g. apply view_events_of.
Qed.

(** The delivered events of one entity are its events in sequence order. *)
Lemma delivered_stream commits id :
  group_commits events = Ok commits →
  List.filter (λ e, bool_decide (ev_entity_id e = id)) (delivered commits) =
  List.filter (λ e, bool_decide (ev_entity_id e = id)) the_sorted.
Proof.
  intros [Hp Hc]%group_commits_views. pose proof (stream_labels id Hp) as Hs. revert Hs.
  set (mine := λ e : SerializedEvent, bool_decide (ev_entity_id e = id)).
  change (λ p : SerializedEvent * nat, bool_decide (ev_entity_id p.1 = id))
    with (λ p : SerializedEvent * nat, mine p.1).
  clearbody mine. intros Hs. rewrite (delivered_parts _ Hc), filter_concat, map_map.
  rewrite (map_ext _ _ (λ g, filter_part mine g the_labels)).
  rewrite concat_parts_ascending.
  - by rewrite filter_map_fst, labels_fst.
  - rewrite Hp. apply NoDup_seq.
  - done.
  - intros x k [Hx _]%elem_of_list_filter. rewrite Hp. apply elem_of_seq. apply labels_range in Hx. lia.
Qed.

Lemma delivered_all commits :
  group_commits events = Ok commits → delivered commits ≡ₚ events.
Proof.
  intros [Hp Hc]%group_commits_views. rewrite (delivered_parts _ Hc).
  rewrite concat_parts_Permutation, labels_fst.
  - apply sort_by_Permutation.
  - rewrite Hp. apply NoDup_seq.
  - intros x k Hx%labels_range. rewrite Hp. apply elem_of_seq. lia.
Qed.

(** Events of one non-empty commit ID share a label. *)
Lemma label_of_commit e k :
  (e, k) ∈ the_labels → is_empty (commit_of e) = false →
  gr_by_commit (group_events the_sorted) !! commit_of e = Some k.
Proof.
  intros Hk He. destruct (lookup_lt_is_Some_2 the_groups k (labels_range _ _ Hk)) as [es Hes].
  pose proof (groups_part _ _ Hes) as Hpart. pose proof Hk as Hin. apply elem_of_part in Hin.
  rewrite <-Hpart in Hin.
  destruct (go_single _ _ (group_events_ok the_sorted) _ _ Hes) as [[cid Hcid]|(e' & -> & He')].
  - destruct (go_commit _ _ (group_events_ok the_sorted) _ _ Hcid) as (_ & _ & Hall).
    specialize (Hall _ Hes). rewrite Forall_forall in Hall. by rewrite (Hall _ Hin).
  - apply list_elem_of_singleton in Hin as ->. congruence.
Qed.

(** A group is one commit: its events share a commit ID, and an event without one is alone. *)
Lemma group_homogeneous k a b :
  (a, k) ∈ the_labels → (b, k) ∈ the_labels →
  commit_of a = commit_of b ∧ (is_empty (commit_of a) = true → part k the_labels = [a] ∧ a = b).
Proof.
  intros Ha Hb. destruct (lookup_lt_is_Some_2 the_groups k (labels_range _ _ Ha)) as [es Hes].
  pose proof (groups_part _ _ Hes) as Hpart. apply elem_of_part in Ha, Hb. rewrite <-Hpart in *.
  destruct (go_single _ _ (group_events_ok the_sorted) _ _ Hes) as [[cid Hcid]|(e' & -> & He')].
  - destruct (go_commit _ _ (group_events_ok the_sorted) _ _ Hcid) as (Hne & _ & Hall).
    specialize (Hall _ Hes). rewrite Forall_forall in Hall.
    rewrite (Hall _ Ha), (Hall _ Hb). split; [done|congruence].
  - apply list_elem_of_singleton in Ha as ->. by apply list_elem_of_singleton in Hb as ->.
Qed.

Lemma group_nonempty k : (k < length the_groups)%nat → ∃ e es, part k the_labels = e :: es.
Proof.
  intros [es Hes]%lookup_lt_is_Some_2. rewrite <-(groups_part _ _ Hes).
  pose proof (go_nonempty _ _ (group_events_ok the_sorted) _ _ Hes). destruct es; [done|eauto].
Qed.
End grouped.

(** A view is one commit of the log. *)
Record one_commit_view (view : CommitView) : Prop := {
  ocv_events : view_events view ≠ [];
  ocv_id : Forall (λ e, commit_of e = cv_commit_id view) (view_events view);
  ocv_anonymous : is_empty (cv_commit_id view) = true → length (view_events view) = 1%nat
}.

Lemma grouped_views events commits :
  group_commits events = Ok commits →
  Forall one_commit_view commits ∧
  NoDup (List.filter (λ cid, negb (is_empty cid)) (map cv_commit_id commits)).
Proof.
  intros [Hp ->]%group_commits_views.
  assert (∀ g, g ∈ the_order events → (g < length (the_groups events))%nat) as Hlt.
  { intros g Hg. rewrite Hp in Hg. apply elem_of_seq in Hg. lia. }
  assert (NoDup (the_order events)) as Hnd by (rewrite Hp; apply NoDup_seq).
  clear Hp. induction (the_order events) as [|g order IH]; [by split; constructor|].
  apply NoDup_cons in Hnd as [Hg Hnd].
  destruct IH as [IH1 IH2]; [intros k Hk; apply Hlt; by apply list_elem_of_further|done|].
  destruct (group_nonempty events g) as (e & es & Hpart); [apply Hlt, list_elem_of_here|].
  assert (∀ x, x ∈ e :: es → (x, g) ∈ the_labels events) as Hlab
    by (intros x; by rewrite <-Hpart, elem_of_part).
  assert ((e, g) ∈ the_labels events) as He by (apply Hlab, list_elem_of_here).
  simpl. split.
  - constructor; [|done]. split; rewrite view_events_of, Hpart; simpl.
    + done.
    + apply Forall_forall. intros x Hx. destruct (group_homogeneous _ _ _ _ He (Hlab _ Hx)) as [H _].
      by symmetry.
    + intros Hempty. destruct (group_homogeneous _ _ _ _ He He) as [_ H].
      destruct (H Hempty) as [H' _]. rewrite Hpart in H'. by injection H' as ->.
  - rewrite Hpart. simpl. destruct (is_empty (commit_of e)) eqn:Hempty; unfold commit_of in Hempty;
      rewrite Hempty; simpl; [done|]. apply NoDup_cons. split; [|done].
    intros [Hin _]%elem_of_list_filter. apply list_elem_of_fmap in Hin as (v & Hv & Hin).
    apply list_elem_of_fmap in Hin as (k & -> & Hk).
    destruct (group_nonempty events k) as (e' & es' & Hpart'); [by apply Hlt, list_elem_of_further|].
    rewrite Hpart' in Hv. simpl in Hv.
    assert ((e', k) ∈ the_labels events) as He'
      by (apply elem_of_part; rewrite Hpart'; apply list_elem_of_here).
    apply (label_of_commit events) in He; [|done]. apply (label_of_commit events) in He'.
    + unfold commit_of in He, He'. rewrite <-Hv in He'. congruence.
    + unfold commit_of. by rewrite <-Hv.
Qed.

(** ** When an order exists *)

(** Two events of one commit. *)
Definition one_commit (a b : SerializedEvent) : Prop :=
  a = b ∨ (commit_of a = commit_of b ∧ is_empty (commit_of a) = false).

(** A numbering of the commits that every stream agrees with. *)
Definition commit_ranking (events : list SerializedEvent) (rank : SerializedEvent → nat) : Prop :=
  (∀ a b, a ∈ events → b ∈ events → one_commit a b → rank a = rank b) ∧
  (∀ a b, a ∈ events → b ∈ events → ev_entity_id a = ev_entity_id b →
     ev_sequence a < ev_sequence b → ~ one_commit a b → (rank a < rank b)%nat).

(** The keys that identify stored events. *)
Definition event_key (e : SerializedEvent) : EntityId * EventSequence := (ev_entity_id e, ev_sequence e).

Lemma StronglySorted_both {A} (R S : A → A → Prop) l x y :
  StronglySorted R l → StronglySorted S l → x ∈ l → y ∈ l →
  x = y ∨ (R x y ∧ S x y) ∨ (R y x ∧ S y x).
Proof.
  intros HR. induction HR as [|a l HR IH Hall]; intros HS Hx Hy; [by apply not_elem_of_nil in Hx|].
  apply StronglySorted_inv in HS as [HS Hall']. rewrite Forall_forall in Hall, Hall'.
  apply elem_of_cons in Hx as [->|Hx], Hy as [->|Hy]; [by left| | |by apply IH];
    right; [left|right]; auto.
Qed.

Section ranking.
Context (events : list SerializedEvent) (Hkeys : NoDup (map event_key events)).

Lemma sorted_keys : NoDup (map event_key (the_sorted events)).
Proof. unfold the_sorted. by rewrite (sort_by_Permutation event_leb events). Qed.

Lemma label_elem e k : (e, k) ∈ the_labels events → e ∈ events.
Proof. intros He%elem_of_zip_l. by rewrite <-(sort_by_Permutation event_leb events). Qed.

Lemma labels_unique e j k : (e, j) ∈ the_labels events → (e, k) ∈ the_labels events → j = k.
Proof.
  pose proof sorted_keys as Hnd. rewrite <-labels_fst, map_map in Hnd.
  intros Hj Hk. apply list_elem_of_lookup in Hj as [i Hi], Hk as [i' Hi'].
  assert (i = i') as <-; [|congruence].
  eapply (NoDup_lookup _ _ _ (event_key e)); [exact Hnd| |]; rewrite list_lookup_fmap;
    [by rewrite Hi|by rewrite Hi'].
Qed.

Lemma one_commit_label a b j k :
  (a, j) ∈ the_labels events → (b, k) ∈ the_labels events → one_commit a b → j = k.
Proof.
  intros Ha Hb [<-|[Heq Hne]]; [by eapply labels_unique|].
  apply (label_of_commit events) in Ha; [|done]. apply (label_of_commit events) in Hb; congruence.
Qed.

Lemma label_one_commit a b k :
  (a, k) ∈ the_labels events → (b, k) ∈ the_labels events → one_commit a b.
Proof.
  intros Ha Hb. destruct (group_homogeneous events k a b Ha Hb) as [Heq Hanon].
  destruct (is_empty (commit_of a)) eqn:He; [left; by apply Hanon|by right].
Qed.

Lemma ranking_orders rank :
  commit_ranking events rank → ∃ commits, group_commits events = Ok commits.
Proof.
  intros [Hsame Hless]. apply group_commits_eq.
  apply (final_order_acyclic _ _ _ (edges_range events)
    (λ g, match part g (the_labels events) with e :: _ => rank e | [] => 0%nat end)).
  assert (∀ e k, (e, k) ∈ the_labels events →
    match part k (the_labels events) with e' :: _ => rank e' | [] => 0%nat end = rank e) as Hrank.
  { intros e k He. pose proof He as Hp. apply elem_of_part in Hp.
    destruct (part k (the_labels events)) as [|e' es] eqn:Hpart; [by apply not_elem_of_nil in Hp|].
    assert ((e', k) ∈ the_labels events) as He'
      by (apply elem_of_part; rewrite Hpart; apply list_elem_of_here).
    apply Hsame; [by eapply label_elem..|by eapply label_one_commit]. }
  intros p c (l1 & [a p'] & [b c'] & l2 & Heq & <- & <- & He & Hne)%edges_of_elem. simpl in *.
  assert ((a, p') ∈ the_labels events) as Ha by (rewrite Heq, elem_of_app, !elem_of_cons; auto).
  assert ((b, c') ∈ the_labels events) as Hb by (rewrite Heq, elem_of_app, !elem_of_cons; auto).
  rewrite (Hrank _ _ Ha), (Hrank _ _ Hb).
  apply Hless; [by eapply label_elem..|done| |intros Hone; by eapply Hne, one_commit_label].
  assert (the_sorted events = map fst l1 ++ a :: b :: map fst l2) as Hs
    by (rewrite <-labels_fst, Heq, map_app; done).
  pose proof (sorted_events events) as Hord. fold (the_sorted events) in Hord. rewrite Hs in Hord.
  apply StronglySorted_app_1_r in Hord. apply StronglySorted_inv in Hord as [_ Hab].
  apply Forall_cons in Hab as [[Hlt|[_ Hle]]%event_leb_spec _].
  - rewrite He in Hlt. by destruct (string_leb_total (ev_entity_id b) (ev_entity_id b)); congruence.
  - pose proof sorted_keys as Hnd. rewrite Hs, map_app in Hnd. apply NoDup_app in Hnd as (_ & _ & Hnd).
    simpl in Hnd. apply NoDup_cons in Hnd as [Hnin _]. apply not_elem_of_cons in Hnin as [Hnin _].
    unfold event_key in Hnin. assert (ev_sequence a ≠ ev_sequence b) by congruence. lia.
Qed.

(** The place of an event's commit in the order. *)
Definition place (e : SerializedEvent) : nat :=
  match list_find (λ p : SerializedEvent * nat, p.1 = e) (the_labels events) with
  | Some (_, (_, k)) =>
      match list_find (λ g, g = k) (the_order events) with Some (i, _) => i | None => 0%nat end
  | None => 0%nat
  end.

Lemma place_spec e k :
  (e, k) ∈ the_labels events → k ∈ the_order events → the_order events !! place e = Some k.
Proof.
  intros He Hk. unfold place.
  destruct (list_find_elem_of (λ p : SerializedEvent * nat, p.1 = e) _ _ He eq_refl)
    as [[i [e' k']] Hi]. rewrite Hi. apply list_find_Some in Hi as (Hi & Heq & _). simpl in Heq. subst e'.
  assert (k' = k) as -> by (eapply labels_unique; [by apply list_elem_of_lookup_2 in Hi|done]).
  destruct (list_find_elem_of (λ g, g = k) _ _ Hk eq_refl) as [[j g] Hj].
  rewrite Hj. by apply list_find_Some in Hj as (Hj & -> & _).
Qed.

Lemma orders_ranking commits :
  group_commits events = Ok commits → commit_ranking events place.
Proof.
  intros [Hp _]%group_commits_views.
  assert (NoDup (the_order events)) as Hnd by (rewrite Hp; apply NoDup_seq).
  assert (∀ e, e ∈ events → ∃ k, (e, k) ∈ the_labels events ∧ the_order events !! place e = Some k)
    as Hplace.
  { intros e He. rewrite <-(sort_by_Permutation event_leb events) in He.
    fold (the_sorted events) in He. rewrite <-labels_fst in He.
    apply list_elem_of_fmap in He as ([e' k] & -> & Hk). exists k. split; [done|].
    apply place_spec; [done|]. rewrite Hp. apply elem_of_seq. apply labels_range in Hk. lia. }
  split; intros a b Ha%Hplace Hb%Hplace;
    destruct Ha as (j & Hj & Hpj), Hb as (k & Hk & Hpk).
  - intros Hone. rewrite (one_commit_label _ _ _ _ Hj Hk Hone) in Hpj. by eapply NoDup_lookup.
  - intros He Hseq Hone.
    assert (j ≠ k) as Hjk by (intros ->; by eapply Hone, label_one_commit).
    destruct (StronglySorted_both _ _ _ (a, j) (b, k)
      (stream_labels events (ev_entity_id a) Hp)
      (StronglySorted_sub _ _ _ (StronglySorted_zip _ _ _ (sorted_events events)
        (go_members _ _ (group_events_ok (the_sorted events))))))
      as [Heq|[[Hle _]|[_ Hle]]].
    + apply elem_of_list_filter. split; [done|]. by apply bool_decide_eq_true.
    + apply elem_of_list_filter. split; [done|]. by apply bool_decide_eq_true.
    + congruence.
    + simpl in Hle. apply no_later_lookup in Hle as (i & i' & Hi & Hi' & Hle).
      assert (i = place a) as -> by (by eapply NoDup_lookup).
      assert (i' = place b) as -> by (by eapply NoDup_lookup).
      assert (place a ≠ place b) by congruence. lia.
    + simpl in Hle. apply event_leb_spec in Hle as [Hle|[_ Hle]]; [|lia].
      rewrite He in Hle. by destruct (string_leb_total (ev_entity_id b) (ev_entity_id b)); congruence.
Qed.
End ranking.

(** ** Properties *)

(** C32. When [group_commits] orders the stored events, the commits it returns deliver exactly those
    events; each view is one commit of the log (its events carry its commit ID, an event without
    one is alone, and no commit ID appears twice); and in the delivered order every entity's
    events stand in ascending sequence. *)
Theorem grouped_commits_replay_streams events commits :
  group_commits events = Ok commits →
  delivered commits ≡ₚ events ∧
  Forall one_commit_view commits ∧
  NoDup (List.filter (λ cid, negb (is_empty cid)) (map cv_commit_id commits)) ∧
  ∀ id, StronglySorted (λ a b, ev_sequence a ≤ ev_sequence b)
    (List.filter (λ e, bool_decide (ev_entity_id e = id)) (delivered commits)).
Proof.
  intros Hok. split; [by apply delivered_all|]. destruct (grouped_views _ _ Hok) as [Hv Hn].
  split; [done|]. split; [done|]. intros id. rewrite (delivered_stream _ _ id Hok).
  pose proof (StronglySorted_sub _ (λ e, bool_decide (ev_entity_id e = id)) _ (sorted_events events)) as Hs.
  assert (Forall (λ e, ev_entity_id e = id)
    (List.filter (λ e, bool_decide (ev_entity_id e = id)) (sort_by event_leb events))) as Hid.
  { apply Forall_forall. by intros e [_ He%bool_decide_eq_true]%elem_of_list_filter. }
  unfold the_sorted. revert Hid. induction Hs as [|a l Hs IH Hall]; intros Hid; [constructor|].
  apply Forall_cons in Hid as [Ha Hid]. constructor; [by apply IH|].
  apply Forall_forall. intros b Hb. rewrite Forall_forall in Hall, Hid.
  destruct (proj1 (event_leb_spec a b) (Hall b Hb)) as [Hlt|[_ Hle]]; [|done].
  rewrite Ha, (Hid b Hb) in Hlt. destruct (string_leb_total id id); congruence.
Qed.

(** C33. [group_commits] succeeds exactly when a commit order exists that every stream agrees with:
    a numbering that is constant on each commit and ascends along each stream from one commit to
    the next. Stored events are identified by entity and sequence. *)
Theorem commit_order_exists_iff events :
  NoDup (map event_key events) →
  (∃ commits, group_commits events = Ok commits) ↔ ∃ rank, commit_ranking events rank.
Proof.
  intros Hkeys. split.
  - intros [commits Hok]. exists (place events). by eapply orders_ranking.
  - intros [rank Hrank]. by eapply ranking_orders.
Qed.

(** The result does not depend on the order in which the stored events are read. *)
Theorem grouping_ignores_read_order events events' :
  NoDup (map event_key events) → events' ≡ₚ events → group_commits events' = group_commits events.
Proof.
  intros Hkeys Hp. assert (sort_by event_leb events' = sort_by event_leb events) as Heq.
  { apply (StronglySorted_Permutation_eq (λ a b, event_leb a b = true)); [|apply sorted_events..|].
    - intros a b Ha Hb Hab Hba.
      rewrite sort_by_Permutation, Hp in Ha, Hb.
      assert (event_key a = event_key b) as Hkey.
      { unfold event_key. apply event_leb_spec in Hab as [Hab|[He1 Hs1]],
          Hba as [Hba|[He2 Hs2]].
        - destruct (string_leb_total (ev_entity_id a) (ev_entity_id b)); congruence.
        - rewrite He2 in Hab. destruct (string_leb_total (ev_entity_id a) (ev_entity_id a)); congruence.
        - rewrite He1 in Hba. destruct (string_leb_total (ev_entity_id b) (ev_entity_id b)); congruence.
        - f_equal; [done|lia]. }
      apply list_elem_of_lookup in Ha as [i Hi], Hb as [j Hj].
      assert (i = j) as <-; [|congruence].
      eapply (NoDup_lookup _ _ _ (event_key a)); [exact Hkeys| |]; rewrite list_lookup_fmap;
        [by rewrite Hi|by rewrite Hj, Hkey].
    - by rewrite !sort_by_Permutation, Hp. }
  unfold group_commits. by rewrite Heq.
Qed.

(** ** Examples *)

Definition committed (id : EntityId) (sequence : EventSequence) (commit_id : string) : SerializedEvent :=
  with_metadata (sample_event id sequence) (with_commit_id Metadata_default commit_id).

(** Stream [b] must come before [a]'s second commit, although [a] sorts first. *)
Definition sample_log : list SerializedEvent :=
  [committed "a" 1 "y"; committed "a" 2 "z"; committed "b" 1 "x"; committed "b" 2 "y"].

(** Two streams that disagree about the order of two commits. *)
Definition crossed_log : list SerializedEvent :=
  [committed "a" 1 "x"; committed "a" 2 "y"; committed "b" 1 "y"; committed "b" 2 "x"].

Example sample_log_order :
  group_commits sample_log = Ok (map commit_view_of
    [[committed "b" 1 "x"]; [committed "a" 1 "y"; committed "b" 2 "y"]; [committed "a" 2 "z"]]).
Proof. vm_compute. reflexivity. Qed.

Example crossed_log_refused : group_commits crossed_log = Err (CommitOrder ["x"; "y"]%string).
Proof. vm_compute. reflexivity. Qed.

Lemma grouped_commits_replay_streams_witness :
  delivered (map commit_view_of
    [[committed "b" 1 "x"]; [committed "a" 1 "y"; committed "b" 2 "y"]; [committed "a" 2 "z"]])
  ≡ₚ sample_log.
Proof. apply (grouped_commits_replay_streams sample_log). vm_compute. reflexivity. Defined.

Lemma commit_order_exists_iff_witness : ~ ∃ rank, commit_ranking crossed_log rank.
Proof.
  intros Hrank. destruct (proj2 (commit_order_exists_iff crossed_log
    ltac:(apply (bool_decide_unpack _); vm_compute; exact I)) Hrank) as [commits Hok].
  vm_compute in Hok. discriminate Hok.
Defined.

Lemma grouping_ignores_read_order_witness :
  group_commits (reverse sample_log) = group_commits sample_log.
Proof.
  apply (grouping_ignores_read_order sample_log).
  - apply (bool_decide_unpack _). vm_compute. exact I.
  - apply reverse_Permutation.
Defined.
