(* ===== verification/WireProofs.v ===== *)
(** * Round trips of the wire format

    What the encoders of [wire/dynamo.rs] store, its decoders read back. The JSON texts inside an
    item are the JSON library's; where one is involved, a hypothesis says that the library reads
    back the very text it rendered for that value. *)

From S2P Require Import Prelude Types Features Outcome Rebuild Base64 Wire Samples.

(** ** Reading one attribute *)

Lemma insert_ttl_lookup item ttl name :
  name ≠ "ttl"%string → insert_ttl item ttl !! name = item !! name.
Proof.
  intros Hne. unfold insert_ttl. destruct ttl as [ttl|]; [|done].
  destruct (0 <? ttl); [|done]. by rewrite lookup_insert_ne.
Qed.

Lemma optional_string_text item name text :
  item !! name = Some (AS text) → optional_string item name = Ok (Some text).
Proof. intros Hl. unfold optional_string. by rewrite Hl. Qed.

Lemma optional_string_none item name : item !! name = None → optional_string item name = Ok None.
Proof. intros Hl. unfold optional_string. by rewrite Hl. Qed.

Lemma optional_number_value item name value :
  item !! name = Some (an value) → in_i64 value = true →
  optional_number item name = Ok (Some value).
Proof. intros Hl Hv. unfold optional_number. by rewrite Hl; simpl; rewrite parse_i64_show. Qed.

Lemma optional_number_none item name : item !! name = None → optional_number item name = Ok None.
Proof. intros Hl. unfold optional_number. by rewrite Hl. Qed.

Lemma required_string_text item name text :
  item !! name = Some (AS text) → required_string item name = Ok text.
Proof. intros Hl. unfold required_string. by rewrite (optional_string_text _ _ _ Hl). Qed.

Lemma required_number_value item name value :
  item !! name = Some (an value) → in_i64 value = true → required_number item name = Ok value.
Proof. intros Hl Hv. unfold required_number. by rewrite (optional_number_value _ _ _ Hl Hv). Qed.

(** Looks an attribute up in an item built by insertions. *)
Ltac attribute :=
  rewrite ?insert_ttl_lookup by done;
  repeat (rewrite lookup_insert_ne by done);
  first [apply lookup_insert_eq | apply lookup_empty].

(** Reads the attributes a decoder asks for. *)
Ltac read_item :=
  repeat first
    [ erewrite required_string_text by attribute
    | erewrite required_number_value by (first [attribute|done])
    | erewrite optional_string_text by attribute
    | erewrite optional_number_value by (first [attribute|done])
    | rewrite optional_string_none by attribute
    | rewrite optional_number_none by attribute
    | progress simpl ].

Lemma utf8_ok bytes what : valid_utf8 bytes = true → utf8 bytes what = Ok bytes.
Proof. intros Hv. unfold utf8. by rewrite Hv. Qed.

Lemma item_ttl_insert item ttl :
  item !! "ttl"%string = None → (∀ t, ttl = Some t → in_i64 t = true) →
  item_ttl (insert_ttl item ttl) = match ttl with Some t => if 0 <? t then Some t else None | None => None end.
Proof.
  intros Hn Ht. unfold item_ttl, insert_ttl. destruct ttl as [t|]; [|by rewrite Hn].
  destruct (0 <? t) eqn:He; [|by rewrite Hn].
  rewrite lookup_insert_eq. simpl. apply parse_i64_show. by apply Ht.
Qed.

(** ** Events *)



(** ** Snapshots, heads and view rows *)

(** The sort key a stored row carries. *)
Definition stored_row (row : ViewRow) : ViewRow :=
  mkViewRow (vr_pk row) (if is_empty (vr_sk row) then DEFAULT_VIEW_SORT_KEY else vr_sk row)
    (vr_entity_id row) (vr_entity_type row) (vr_payload row) (vr_ttl row).

(** Snapshots, heads and view rows read back as they were stored; a row without a sort key
    reads back with the default one. *)
Theorem plain_items_roundtrip `{SerdeJson} snapshot entity_id head row ttl :
  in_i64 (sn_sequence snapshot) = true → in_i64 (sn_event_sequence snapshot) = true →
  valid_utf8 (sn_payload snapshot) = true →
  in_i64 head = true → (∀ t, ttl = Some t → in_i64 t = true) →
  valid_utf8 (vr_payload row) = true → in_i64 (vr_ttl row) = true →
  (let? item := snapshot_item snapshot ttl in snapshot_from_item item) = Ok snapshot ∧
  (let? item := snapshot_item snapshot ttl in Ok (is_snapshot_item item)) = Ok true ∧
  head_from_item (head_item entity_id head ttl) =
    Ok (head, match ttl with Some t => if 0 <? t then Some t else None | None => None end) ∧
  (let? item := view_row_item row in view_row_from_item item) = Ok (stored_row row).
Proof.
  intros Hseq Heseq Hpay Hhead Httl Hrpay Hrttl. split; [|split; [|split]].
  - unfold snapshot_item. rewrite (utf8_ok _ _ Hpay). simpl. unfold snapshot_from_item. read_item.
    by destruct snapshot.
  - unfold snapshot_item. rewrite (utf8_ok _ _ Hpay). simpl. unfold is_snapshot_item.
    rewrite insert_ttl_lookup by done. repeat (rewrite lookup_insert_ne by done).
    by rewrite lookup_insert_eq.
  - unfold head_item, head_from_item. read_item. unfold insert_ttl.
    destruct ttl as [t|]; [|by read_item]. destruct (0 <? t); [|by read_item].
    specialize (Httl t eq_refl). by read_item.
  - unfold view_row_item. rewrite (utf8_ok _ _ Hrpay). simpl. unfold view_row_from_item, view_text.
    destruct row as [pk sk id type pay t]. simpl in *.
    destruct (Z.eqb_spec t 0) as [->|Hne]; simpl;
      repeat (rewrite lookup_insert_eq || rewrite lookup_insert_ne by done);
      rewrite ?lookup_empty; simpl; [done|].
    rewrite parse_i64_show by done. done.
Qed.

Lemma plain_items_roundtrip_witness :
  (let? item := @view_row_item (mkViewRow "p" "" "a" "Account" "{}" 7) in view_row_from_item item)
  = Ok (mkViewRow "p" "VIEW" "a" "Account" "{}" 7).
Proof.
  apply (@plain_items_roundtrip sample_json (sample_snapshot "a" 1 1) "a" 1
    (mkViewRow "p" "" "a" "Account" "{}" 7) None); by try reflexivity.
Defined.

(** ** The rebuild fence *)

(** What the fence's items say of a state: the lock row, and the generation row. *)
Definition read_fence (lock generation : option Item) : Result RebuildState :=
  let? lock :=
    match lock with Some item => rebuild_lock_state_from_item item | None => Ok None end in
  let? generation :=
    match generation with
    | Some item => rebuild_generation_from_item item
    | None => Ok (mkGeneration 0 false)
    end in
  Ok (mkRebuildState generation lock).

(** The rows of the rebuild fence read back as the state they were written for, a
    force-released fence included. *)
Theorem fence_items_roundtrip state :
  in_i64 (rg_value (rs_generation state)) = true →
  (∀ lock, rs_lock state = Some lock →
     in_i64 (rl_generation lock) = true ∧ in_i64 (rl_lease_expires_at lock) = true) →
  read_fence (rebuild_lock_item_of state) (Some (rebuild_generation_item (rs_generation state)))
  = Ok state.
Proof.
  intros Hg Hlock. unfold read_fence, rebuild_lock_item_of.
  assert (rebuild_generation_from_item (rebuild_generation_item (rs_generation state))
    = Ok (rs_generation state)) as Hgen.
  { unfold rebuild_generation_from_item, rebuild_generation_item, rebuild_generation_key.
    destruct (rs_generation state) as [value flag]. simpl in *.
    destruct flag; repeat (rewrite lookup_insert_eq || rewrite lookup_insert_ne by done);
      rewrite ?lookup_empty; simpl; by read_item. }
  destruct state as [gen [lock|]]; simpl in *.
  - destruct (Hlock lock eq_refl) as [H1 H2].
    unfold rebuild_lock_state_from_item, rebuild_lock_item, rebuild_lock_key.
    rewrite !lookup_insert_ne, lookup_empty by done. read_item. rewrite Hgen. simpl.
    by destruct lock.
  - destruct (_ && _).
    + unfold rebuild_lock_state_from_item, rebuild_force_released_item.
      rewrite lookup_insert_eq. simpl. by rewrite Hgen.
    + simpl. by rewrite Hgen.
Qed.

Lemma fence_items_roundtrip_witness :
  let state := mkRebuildState (mkGeneration 3 true) (Some (mkLock "me" 3 60)) in
  read_fence (rebuild_lock_item_of state) (Some (rebuild_generation_item (rs_generation state)))
  = Ok state.
Proof.
  apply (fence_items_roundtrip (mkRebuildState (mkGeneration 3 true) (Some (mkLock "me" 3 60))));
    [reflexivity|]. by intros lock [= <-].
Defined.

(** ** The feature manifest *)

(** The feature manifest reads back as it was stored, its optional sets included, whenever the
    JSON library reads back the three texts it rendered for it. *)
Theorem manifest_item_roundtrip `{SerdeJson} m :
  in_i64 (fm_version m) = true →
  json_parse_feature_map (json_feature_map (fm_features m)) = Ok (fm_features m) →
  (∀ s, s = fm_history_dependent m ∨ s = fm_retention m →
     is_blank (json_string_set s) = false ∧ json_parse_string_set (json_string_set s) = Ok s) →
  feature_marker_from_item (feature_marker_item m) = Ok m.
Proof.
  intros Hv Hf Hsets. destruct (Hsets _ (or_introl eq_refl)) as [Hb1 Hp1].
  destruct (Hsets _ (or_intror eq_refl)) as [Hb2 Hp2].
  unfold feature_marker_from_item, feature_marker_item.
  destruct (decide (fm_history_dependent m = ∅)) as [H1|H1],
    (decide (fm_retention m = ∅)) as [H2|H2]; read_item;
    unfold from_attributes, optional_json_set; rewrite Hf; simpl; rewrite ?Hb1, ?Hb2; simpl;
    rewrite ?Hp1; simpl; rewrite ?Hp2; simpl; destruct m; simpl in *; by subst.
Qed.

Lemma manifest_item_roundtrip_witness :
  @feature_marker_from_item sample_json (@feature_marker_item sample_json (mkManifest 1 ∅ ∅ ∅))
  = Ok (mkManifest 1 ∅ ∅ ∅).
Proof.
  apply (@manifest_item_roundtrip sample_json (mkManifest 1 ∅ ∅ ∅)); [reflexivity..|].
  intros s [->| ->]; by split.
Defined.

(** ** Command outcomes *)

(** What the JSON library is relied on for, for the texts of one outcome. *)
Record outcome_json `{SerdeJson} (o : Outcome) : Prop := {
  oj_events : nil_b (oc_event_ids o) = false → ∃ text,
    json_strings (oc_event_ids o) = Ok text ∧ is_empty text = false ∧
    json_parse_strings text = Ok (Some (oc_event_ids o));
  oj_rejection : ∀ r, oc_rejection o = Some r → ∃ text,
    encode_rejection r = Ok text ∧ is_empty text = false ∧ decode_rejection text = Ok r;
  oj_targets : ∀ i, oc_identity o = Some i → ∃ text,
    json_strings (ri_targets i) = Ok text ∧
    json_parse_string_options text = Ok (map Some (ri_targets i))
}.

Lemma all_some_map {A} (l : list A) : all_some (map Some l) = Some l.
Proof. induction l as [|x l IH]; [done|]. simpl. by rewrite IH. Qed.

Lemma strip_prefix_app p s : strip_prefix p (p +:+ s) = Some s.
Proof. induction p as [|c p IH]; [done|]. simpl. by rewrite Ascii.eqb_refl. Qed.

Lemma status_roundtrip status : status_parse (status_as_str status) = Some status.
Proof. by destruct status. Qed.

Lemma base64_not_empty s : is_empty s = false → is_empty (base64_encode s) = false.
Proof. destruct s as [|a [|b [|c s]]]; done. Qed.

(** What [check_outcome] lets through, [validate_stored] accepts. *)
Lemma check_outcome_stored `{SerdeJson} o :
  check_outcome o = Ok tt → Forall (λ id, canonical_event_id id = true) (oc_event_ids o) →
  validate_stored o = Ok tt ∧
  bool_decide (oc_status o = Rejected) = match oc_rejection o with Some _ => true | None => false end.
Proof.
  unfold check_outcome, validate_stored. intros Hc Hids.
  destruct (check_command_id _) as [[]|]; [|done]. simpl in Hc.
  destruct (is_empty (oc_digest o)); [done|]. simpl in Hc.
  destruct (check_text _ _) as [[]|]; [|done]. simpl in Hc.
  assert (check_each (λ id, if canonical_event_id id then Ok tt
    else corrupt (oc_command_id o)
      (Fmt "event ID {id:?} is not {{entityId}}:{{sequence}} with a positive canonical sequence" [id]))
    (oc_event_ids o) = Ok tt) as Hids'.
  { clear Hc. induction Hids as [|id ids Hid _ IH]; [done|]. simpl. by rewrite Hid. }
  destruct (oc_status o), (oc_rejection o) as [r|]; try done.
  destruct (is_empty (rj_code r)); [done|]. by split.
Qed.

Lemma optional_string_of item name (text : option string) :
  item !! name = AS <$> text → optional_string item name = Ok text.
Proof. intros Hl. unfold optional_string. rewrite Hl. by destruct text. Qed.

(** The attributes of an outcome's item. *)
Record outcome_attributes (o : Outcome) (events rejection targets : option string) (item : Item)
  : Prop := {
  oa_pk : item !! "pk"%string = Some (AS (outcome_key (oc_command_id o)));
  oa_status : item !! "status"%string = Some (AS (status_as_str (oc_status o)));
  oa_digest : item !! "digest"%string = Some (AS (oc_digest o));
  oa_response : item !! "response"%string = AS <$> (base64_encode <$> non_empty (oc_response o));
  oa_events : item !! "events"%string = AS <$> events;
  oa_rejection : item !! "rejection"%string = AS <$> rejection;
  oa_code : item !! "code"%string = AS <$> (rj_code <$> oc_rejection o);
  oa_type : item !! "commandType"%string = AS <$> (ri_command_type <$> oc_identity o);
  oa_targets : item !! "targets"%string = AS <$> targets;
  oa_principal : item !! "principal"%string = AS <$> (oc_identity o ≫= ri_principal)
}.

(** The texts of an outcome's optional attributes, and what they decode to. *)
Definition events_text `{SerdeJson} (o : Outcome) : Result (option string) :=
  if nil_b (oc_event_ids o) then Ok None
  else let? t := encode_event_ids (oc_event_ids o) in Ok (Some t).
Definition rejection_text `{SerdeJson} (o : Outcome) : Result (option string) :=
  match oc_rejection o with
  | Some r => let? t := encode_rejection r in Ok (Some t)
  | None => Ok None
  end.
Definition targets_text `{SerdeJson} (o : Outcome) : Result (option string) :=
  match oc_identity o with
  | Some i => let? t := encode_targets i in Ok (Some t)
  | None => Ok None
  end.

Lemma outcome_item_attributes `{SerdeJson} o events rejection targets :
  events_text o = Ok events → rejection_text o = Ok rejection → targets_text o = Ok targets →
  ∃ item, outcome_item o = Ok item ∧ outcome_attributes o events rejection targets item.
Proof.
  unfold events_text, rejection_text, targets_text. intros He Hr Ht. unfold outcome_item.
  destruct (nil_b (oc_event_ids o)) eqn:Hnil; [injection He as <-|
    destruct (encode_event_ids _) as [t|] eqn:Henc; [|done]; injection He as <-]; simpl;
  (destruct (oc_rejection o) as [r|] eqn:Hrej; [
    destruct (encode_rejection r) as [rt|] eqn:Hren; [|done]; injection Hr as <-; simpl
    |injection Hr as <-; simpl]);
  (destruct (oc_identity o) as [i|] eqn:Hid; [
    destruct (encode_targets i) as [tt|] eqn:Hten; [|done]; injection Ht as <-; simpl;
      destruct (ri_principal i) as [p|] eqn:Hp
    |injection Ht as <-; simpl]);
  (eexists; split; [reflexivity|]);
  destruct (non_empty (oc_response o)) as [resp|] eqn:Hresp;
  split; rewrite ?Hrej, ?Hid, ?Hresp; simpl; rewrite ?Hp;
  repeat (rewrite lookup_insert_eq || rewrite lookup_insert_ne by done); rewrite ?lookup_empty; done.
Qed.

Section outcome_texts.
Context `{SerdeJson} (o : Outcome) (Hjson : outcome_json o).

Lemma events_text_roundtrip :
  ∃ events, events_text o = Ok events ∧
    match non_empty events with Some t => decode_event_ids t | None => Ok [] end
    = Ok (oc_event_ids o).
Proof.
  unfold events_text. destruct (nil_b (oc_event_ids o)) eqn:Hnil.
  - exists None. split; [done|]. by destruct (oc_event_ids o).
  - destruct (oj_events _ Hjson Hnil) as (t & Ht & Hne & Hp). exists (Some t). unfold encode_event_ids.
    rewrite Ht. split; [done|]. simpl. rewrite Hne. unfold decode_event_ids. by rewrite Hp.
Qed.

Lemma rejection_text_roundtrip :
  ∃ rejection, rejection_text o = Ok rejection ∧
    match non_empty rejection with
    | Some t => let? r := decode_rejection t in Ok (Some r) | None => Ok None end
    = Ok (oc_rejection o).
Proof.
  unfold rejection_text. destruct (oc_rejection o) as [r|] eqn:Hr; [|by exists None].
  destruct (oj_rejection _ Hjson r Hr) as (t & Ht & Hne & Hp). exists (Some t). rewrite Ht.
  split; [done|]. simpl. rewrite Hne. by rewrite Hp.
Qed.

Lemma targets_text_roundtrip :
  ∃ targets, targets_text o = Ok targets ∧
    decode_identity (oc_command_id o) (ri_command_type <$> oc_identity o) targets
      (oc_identity o ≫= ri_principal) = Ok (oc_identity o).
Proof.
  unfold targets_text. destruct (oc_identity o) as [i|] eqn:Hi; [|by exists None].
  destruct (oj_targets _ Hjson i Hi) as (t & Ht & Hp). exists (Some t). unfold encode_targets.
  rewrite Ht. split; [done|]. unfold decode_identity. simpl. rewrite Hp, all_some_map. by destruct i.
Qed.
End outcome_texts.

Lemma response_roundtrip (response : option string) (f : Message → Error) :
  non_empty response = response →
  match non_empty (base64_encode <$> non_empty response) with
  | Some text => let? bytes := map_err f (base64_decode text) in Ok (Some bytes)
  | None => Ok None
  end = Ok response.
Proof.
  intros Hresp. rewrite Hresp. destruct response as [r|]; simpl in *; [|done].
  destruct (is_empty r) eqn:Hempty; [done|].
  by rewrite (base64_not_empty _ Hempty), base64_roundtrip.
Qed.


Definition sample_stored_outcome : Outcome :=
  mkOutcome "cmd" Rejected "digest" (Some "body"%string) [] (Some (mkRejection "no" "" None))
    (Some (mkIdentity "Open" [] (Some "me"%string))).


(** ** Pagination cursors *)

Lemma replace_byte_absent a b s : a ≠ b → contains_byte a (replace_byte a b s) = false.
Proof.
  intros Hab. induction s as [|c s IH]; [done|]. simpl. rewrite IH, orb_false_r.
  destruct (Ascii.eqb_spec c a) as [->|Hc]; by apply Ascii.eqb_neq.
Qed.

Lemma replace_byte_other a b x s :
  contains_byte x s = false → x ≠ b → contains_byte x (replace_byte a b s) = false.
Proof.
  intros Hs Hx. induction s as [|c s IH]; [done|]. simpl in *.
  apply orb_false_iff in Hs as [Hc Hs]. rewrite IH, orb_false_r by done.
  destruct (Ascii.eqb c a); [by apply Ascii.eqb_neq|done].
Qed.

Lemma replace_byte_back a b s :
  contains_byte b s = false → replace_byte b a (replace_byte a b s) = s.
Proof.
  intros Hs. induction s as [|c s IH]; [done|]. simpl in *.
  apply orb_false_iff in Hs as [Hc Hs]. rewrite IH by done. f_equal.
  destruct (Ascii.eqb_spec c a) as [->|Hne]; [by rewrite Ascii.eqb_refl|by rewrite Hc].
Qed.

(** The encoder's characters are the alphabet's and the padding. *)
Lemma base64_encode_alphabet b s :
  decode_symbol b = None → b ≠ "="%char → contains_byte b (base64_encode s) = false.
Proof.
  intros Hd Hb. assert (∀ t n, 0 ≤ n → Ascii.eqb (sextet t n) b = false) as Hs.
  { intros t n Hn. apply Ascii.eqb_neq. intros <-. by rewrite (decode_sextet t n Hn) in Hd. }
  assert (Ascii.eqb "=" b = false) as Hpad by (apply Ascii.eqb_neq; congruence).
  induction s as [|x|x y|x y z s IH] using string_ind3; cbn -[sextet];
    rewrite ?Hs, ?Hpad by lia; simpl; done.
Qed.

(** A page's cursor decodes to the key it was made from, whatever bytes the key's text holds,
    and is safe to put in a URL: it has no ['+'] and no ['/']. *)
Theorem view_cursor_roundtrip `{SerdeJson} pk sk json :
  json_string_map (<["sk"%string := sk]> (<["pk"%string := pk]> ∅)) = Ok json →
  json_parse_string_map json = Ok (<["sk"%string := sk]> (<["pk"%string := pk]> ∅)) →
  ∃ cursor, encode_view_cursor (view_key pk sk) = Ok cursor ∧
    contains_byte "+" cursor = false ∧ contains_byte "/" cursor = false ∧
    decode_view_cursor cursor = Ok (view_key pk sk).
Proof.
  intros Henc Hdec. unfold encode_view_cursor, view_key.
  assert (omap (λ value, match value with AS text => Some text | _ => None end)
    (<["sk"%string := AS sk]> (<["pk"%string := AS pk]> (∅ : Item)))
    = <["sk"%string := sk]> (<["pk"%string := pk]> ∅)) as ->.
  { rewrite (omap_insert_Some _ _ _ _ sk), (omap_insert_Some _ _ _ _ pk) by done.
    by rewrite omap_empty. }
  rewrite Henc. simpl. eexists. split; [reflexivity|].
  assert (contains_byte "+" (replace_byte "/" "_" (replace_byte "+" "-" (base64_encode json))) = false)
    as Hp by (apply replace_byte_other; [by apply replace_byte_absent|done]).
  assert (contains_byte "/" (replace_byte "/" "_" (replace_byte "+" "-" (base64_encode json))) = false)
    as Hs by (by apply replace_byte_absent).
  split; [done|]. split; [done|]. unfold decode_view_cursor. rewrite Hp, Hs. simpl.
  assert (replace_byte "_" "/" (replace_byte "-" "+"
    (replace_byte "/" "_" (replace_byte "+" "-" (base64_encode json)))) = base64_encode json) as ->.
  { assert (∀ s, replace_byte "-" "+" (replace_byte "/" "_" s)
      = replace_byte "/" "_" (replace_byte "-" "+" s)) as ->.
    { induction s as [|c s IH]; [done|]. simpl. rewrite IH. f_equal.
      destruct (Ascii.eqb_spec c "-") as [->|H2]; [done|].
      destruct (Ascii.eqb_spec c "/") as [->|H1]; [done|].
      by rewrite (proj2 (Ascii.eqb_neq c "-") H2). }
    rewrite (replace_byte_back "+" "-") by (by apply base64_encode_alphabet).
    apply replace_byte_back. by apply base64_encode_alphabet. }
  rewrite base64_roundtrip. simpl. rewrite Hdec. simpl.
  rewrite lookup_insert_eq, lookup_insert_ne, lookup_insert_eq by done.
  by rewrite !fmap_insert, fmap_empty.
Qed.

(** A JSON library that reads one text as a key. *)
Definition key_json : SerdeJson := {|
  json_metadata := json_metadata (SerdeJson := sample_json);
  json_strings := json_strings (SerdeJson := sample_json);
  json_rejection := json_rejection (SerdeJson := sample_json);
  json_parse_rejection := json_parse_rejection (SerdeJson := sample_json);
  json_parse_metadata := json_parse_metadata (SerdeJson := sample_json);
  json_parse_strings := json_parse_strings (SerdeJson := sample_json);
  json_parse_string_options := json_parse_string_options (SerdeJson := sample_json);
  json_feature_map := json_feature_map (SerdeJson := sample_json);
  json_string_set := json_string_set (SerdeJson := sample_json);
  json_parse_feature_map := json_parse_feature_map (SerdeJson := sample_json);
  json_parse_string_set := json_parse_string_set (SerdeJson := sample_json);
  json_string_map := λ m, Ok (default "" (m !! "pk"%string) +:+ default "" (m !! "sk"%string));
  json_parse_string_map := λ text,
    match text with
    | String a (String b _) =>
        Ok (<["sk"%string := String b ""]> (<["pk"%string := String a ""]> ∅))
    | _ => Err "short"%string
    end
|}.

Lemma view_cursor_roundtrip_witness :
  ∃ cursor, @encode_view_cursor key_json (view_key "p" "s") = Ok cursor ∧
    contains_byte "+" cursor = false ∧ contains_byte "/" cursor = false ∧
    @decode_view_cursor key_json cursor = Ok (view_key "p" "s").
Proof. apply (@view_cursor_roundtrip key_json "p" "s" "ps"); reflexivity. Defined.
