(* ===== verification/Retry.v ===== *)
(** * Retries

    [retry.rs]: the jittered delay before a retry, the budget of attempts of one command, and what
    a failed attempt means for the retry loop. Durations are whole nanoseconds. *)

From S2P Require Import Prelude Types.

(** [Duration::MAX], in nanoseconds. *)
Definition DURATION_MAX : Z := (2 ^ 64 - 1) * 1000000000 + 999999999.
Definition NANOS_PER_MILLI : Z := 1000000.
Definition NANOS_PER_SEC : Z := 1000000000.
Definition u32_max : Z := 2 ^ 32 - 1.

(** [Duration::saturating_mul]. *)
Definition duration_saturating_mul (d n : Z) : Z := Z.min (d * n) DURATION_MAX.
(** [Duration::saturating_add]. *)
Definition duration_saturating_add (d e : Z) : Z := Z.min (d + e) DURATION_MAX.
(** [2u32.saturating_pow(n)]. *)
Definition two_saturating_pow (n : Z) : Z := Z.min (2 ^ n) u32_max.

(** crates/evt/src/retry.rs:36-48 [RetryPolicy] *)
Record RetryPolicy := mkRetryPolicy {
  rp_max_attempts : Z;
  rp_base_delay : Z;
  rp_max_delay : Z;
  rp_deadline : option Z
}.

(** crates/evt/src/retry.rs:59-65 [DEFAULT_MAX_ATTEMPTS] *)
Definition DEFAULT_MAX_ATTEMPTS : Z := 5.
Definition DEFAULT_BASE_DELAY_MS : Z := 25.
Definition DEFAULT_MAX_DELAY_MS : Z := 1000.

(** crates/evt/src/retry.rs:69-76 [RetryPolicy::new] *)
Definition retry_policy_new (max_attempts : Z) : RetryPolicy :=
  mkRetryPolicy max_attempts (DEFAULT_BASE_DELAY_MS * NANOS_PER_MILLI)
    (DEFAULT_MAX_DELAY_MS * NANOS_PER_MILLI) None.

(** crates/evt/src/retry.rs:79-86 [RetryPolicy::immediate] *)
Definition retry_immediate (max_attempts : Z) : RetryPolicy :=
  mkRetryPolicy max_attempts 0 0 None.

(** crates/evt/src/retry.rs:90-94 [RetryPolicy::with_backoff] *)
Definition with_backoff (p : RetryPolicy) (base_delay max_delay : Z) : RetryPolicy :=
  mkRetryPolicy (rp_max_attempts p) base_delay max_delay (rp_deadline p).

(** crates/evt/src/retry.rs:102-105 [RetryPolicy::with_deadline] *)
Definition with_deadline (p : RetryPolicy) (deadline : Z) : RetryPolicy :=
  mkRetryPolicy (rp_max_attempts p) (rp_base_delay p) (rp_max_delay p) (Some deadline).

(** The largest delay before a retry. *)
Definition delay_ceiling (p : RetryPolicy) (retry : Z) : Z :=
  Z.min (duration_saturating_mul (rp_base_delay p) (two_saturating_pow retry)) (rp_max_delay p).

(** crates/evt/src/retry.rs:108-121 [RetryPolicy::delay]

    [random] is the value the process's hasher keys give; [None] is the panic of a spread that
    fills 64 bits, whose successor overflows. *)
Definition delay (p : RetryPolicy) (retry random : Z) : option Z :=
  let ceiling := delay_ceiling p retry in
  let floor := ceiling / 2 in
  let spread := (ceiling - floor) mod 2 ^ 64 in
  if spread =? 0 then Some ceiling
  else if spread =? 2 ^ 64 - 1 then None
  else Some (floor + random mod (spread + 1)).

(** crates/evt/src/retry.rs:125-129 [Budget]

    [started] is the reading of the clock when the first attempt began. *)
Record Budget := mkBudget {
  bu_policy : RetryPolicy;
  bu_started : Z;
  bu_attempt : Z
}.

(** crates/evt/src/retry.rs:133-139 [Budget::new] *)
Definition budget_new (policy : RetryPolicy) (now : Z) : Budget := mkBudget policy now 1.

(** crates/evt/src/retry.rs:148-162 [Budget::next]

    [now] is the clock, [random] the jitter. *)
Definition budget_next (b : Budget) (now random : Z) : option (Budget * option Z) :=
  match delay (bu_policy b) (bu_attempt b - 1) random with
  | None => None
  | Some delay =>
      let past_deadline :=
        match rp_deadline (bu_policy b) with
        | Some deadline =>
            deadline <=? duration_saturating_add (Z.max 0 (now - bu_started b)) delay
        | None => false
        end in
      Some (if (Z.max (rp_max_attempts (bu_policy b)) 1 <=? bu_attempt b) || past_deadline then
              (b, None)
            else (mkBudget (bu_policy b) (bu_started b) (bu_attempt b + 1), Some delay))
  end.

(** crates/evt/src/retry.rs:167-178 [Retry] *)
Inductive Retry := Never | RetryTransient | RetryConflict.

#[export] Instance Retry_eq_dec : EqDecision Retry.
Proof. solve_decision. Defined.

(** crates/evt/src/retry.rs:183-213 [Retry::of] *)
Definition retry_of (error : Error) : Retry :=
  match error with
  | Conflict _ _ | SequenceGap _ _ _ | FenceConflict _ _ Engine => RetryConflict
  | Transient _ | AmbiguousWrite _ _ => RetryTransient
  | RebuildInProgress | RebuildConflict _ | RebuildUnavailable _ _ | RebuildEpochChanged _ _ =>
      RetryTransient
  | StreamHeadDrift _ _ _ | StreamHeadsNotMigrated | StoreNotInitialized => Never
  | _ => Never
  end.

(** crates/evt/src/retry.rs:220-225 [Retry::of_decision] *)
Definition retry_of_decision (error : Error) : Retry :=
  match retry_of error with
  | RetryConflict => RetryTransient
  | other => other
  end.

(** crates/evt/src/retry.rs:230-238 [Phase] *)
Inductive Phase := Internal | Deciding | Committing.

(** crates/evt/src/retry.rs:241-244 [Failed] *)
Record Failed := mkFailed { fa_error : Error; fa_phase : Phase }.

(** crates/evt/src/retry.rs:248-253 [Failed::internal] *)
Definition failed_internal (error : Error) : Failed := mkFailed error Internal.

(** crates/evt/src/retry.rs:256-261 [Failed::deciding] *)
Definition failed_deciding (error : Error) : Failed := mkFailed error Deciding.

(** crates/evt/src/retry.rs:264-269 [Failed::committing] *)
Definition failed_committing (error : Error) : Failed := mkFailed error Committing.

(** crates/evt/src/retry.rs:272-278 [Failed::retry] *)
Definition failed_retry (f : Failed) : Retry :=
  match fa_phase f with
  | Internal => Never
  | Deciding => retry_of_decision (fa_error f)
  | Committing => retry_of (fa_error f)
  end.

(** ** Lemmas *)

(** A policy whose numbers are those of its machine types, with delays short enough to jitter. *)
Record policy_ok (p : RetryPolicy) : Prop := {
  pk_attempts : 0 ≤ rp_max_attempts p ≤ u32_max;
  pk_base : 0 ≤ rp_base_delay p ≤ DURATION_MAX;
  pk_max : 0 ≤ rp_max_delay p < 2 ^ 64
}.

Lemma delay_ceiling_range p retry :
  policy_ok p → 0 ≤ retry → 0 ≤ delay_ceiling p retry ≤ rp_max_delay p.
Proof.
  intros [_ Hb Hm] Hr. unfold delay_ceiling, duration_saturating_mul, two_saturating_pow.
  assert (0 < 2 ^ retry) by (apply Z.pow_pos_nonneg; lia).
  assert (0 ≤ rp_base_delay p * Z.min (2 ^ retry) u32_max) by (unfold u32_max; nia).
  unfold DURATION_MAX. lia.
Qed.

(** The delay lies in the upper half below its ceiling, and there is one. *)
Lemma delay_range p retry random :
  policy_ok p → 0 ≤ retry → 0 ≤ random →
  ∃ d, delay p retry random = Some d ∧
    delay_ceiling p retry / 2 ≤ d ≤ delay_ceiling p retry.
Proof.
  intros Hp Hr Hrand. pose proof (delay_ceiling_range p retry Hp Hr) as Hc.
  destruct Hp as [_ _ Hm]. unfold delay. set (c := delay_ceiling p retry) in *.
  assert (0 ≤ c - c / 2 < 2 ^ 63 + 1) as Hs by (Z.div_mod_to_equations; lia).
  rewrite (Z.mod_small (c - c / 2)) by lia.
  destruct (Z.eqb_spec (c - c / 2) 0) as [H0|H0].
  - exists c. split; [done|]. Z.div_mod_to_equations. lia.
  - destruct (Z.eqb_spec (c - c / 2) (2 ^ 64 - 1)) as [H1|_]; [lia|].
    eexists. split; [done|].
    pose proof (Z.mod_pos_bound random (c - c / 2 + 1) ltac:(lia)). lia.
Qed.

Lemma budget_next_attempts b now random b' d :
  budget_next b now random = Some (b', Some d) →
  bu_attempt b' = bu_attempt b + 1 ∧ bu_policy b' = bu_policy b ∧ bu_started b' = bu_started b ∧
  bu_attempt b < Z.max (rp_max_attempts (bu_policy b)) 1.
Proof.
  unfold budget_next. destruct (delay _ _ _); [|done].
  destruct (Z.max (rp_max_attempts (bu_policy b)) 1 <=? bu_attempt b) eqn:E; [done|]. simpl.
  destruct (match rp_deadline (bu_policy b) with Some _ => _ | None => _ end); [done|].
  intros [= <- <-]. simpl. repeat split; lia.
Qed.

(** The delays granted to a command whose attempts keep failing, one per reading of the clock and
    the jitter, until the budget refuses; [None] when computing a delay panics. *)
Fixpoint grants (b : Budget) (readings : list (Z * Z)) : option (list (Z * Z)) :=
  match readings with
  | [] => Some []
  | (now, random) :: rest =>
      match budget_next b now random with
      | None => None
      | Some (_, None) => Some []
      | Some (b', Some d) =>
          match grants b' rest with
          | Some more => Some ((now, d) :: more)
          | None => None
          end
      end
  end.

Lemma budget_next_some b now random :
  policy_ok (bu_policy b) → 1 ≤ bu_attempt b → 0 ≤ random →
  ∃ b' o, budget_next b now random = Some (b', o) ∧
    ∀ d, o = Some d →
      delay_ceiling (bu_policy b) (bu_attempt b - 1) / 2 ≤ d
        ≤ delay_ceiling (bu_policy b) (bu_attempt b - 1) ∧
      ∀ deadline, rp_deadline (bu_policy b) = Some deadline → deadline ≤ DURATION_MAX →
        Z.max 0 (now - bu_started b) + d < deadline.
Proof.
  intros Hp Ha Hr. destruct (delay_range (bu_policy b) (bu_attempt b - 1) random Hp) as (d & Hd & Hrange);
    [lia|done|]. unfold budget_next. rewrite Hd.
  destruct (Z.max (rp_max_attempts (bu_policy b)) 1 <=? bu_attempt b); simpl.
  { eexists _, _. split; [reflexivity|done]. }
  destruct (rp_deadline (bu_policy b)) as [deadline|] eqn:Hdl.
  - destruct (deadline <=? _) eqn:Hle; eexists _, _; (split; [reflexivity|]); [done|].
    intros d' [= <-]. split; [done|]. intros dl [= <-] Hmax.
    apply Z.leb_gt in Hle. unfold duration_saturating_add in Hle. lia.
  - eexists _, _. split; [reflexivity|]. by intros d' [= <-].
Qed.

(** The budget of a command: whatever the clock and the jitter are, computing a delay never
    panics, at most [max(max_attempts, 1) - 1] retries are granted, the [i]-th delay lies between
    half of and the whole exponential ceiling, never above the policy's longest delay, and no
    granted wait ends at or past the deadline. *)
Theorem budget_is_bounded policy started readings :
  policy_ok policy → Forall (λ r : Z * Z, 0 ≤ r.2) readings →
  ∃ delays, grants (budget_new policy started) readings = Some delays ∧
    llen delays ≤ Z.max (rp_max_attempts policy) 1 - 1 ∧
    (∀ i now d, delays !! i = Some (now, d) →
       delay_ceiling policy (Z.of_nat i) / 2 ≤ d ≤ delay_ceiling policy (Z.of_nat i) ∧
       d ≤ rp_max_delay policy ∧
       ∀ deadline, rp_deadline policy = Some deadline → deadline ≤ DURATION_MAX →
         Z.max 0 (now - started) + d < deadline).
Proof.
  intros Hp Hr.
  assert (∀ b, bu_policy b = policy → bu_started b = started → 1 ≤ bu_attempt b →
    bu_attempt b ≤ Z.max (rp_max_attempts policy) 1 →
    ∃ delays, grants b readings = Some delays ∧
      llen delays ≤ Z.max (rp_max_attempts policy) 1 - bu_attempt b ∧
      ∀ i now d, delays !! i = Some (now, d) →
        delay_ceiling policy (bu_attempt b - 1 + Z.of_nat i) / 2 ≤ d
          ≤ delay_ceiling policy (bu_attempt b - 1 + Z.of_nat i) ∧
        ∀ deadline, rp_deadline policy = Some deadline → deadline ≤ DURATION_MAX →
          Z.max 0 (now - started) + d < deadline) as Hall.
  { induction Hr as [|[now random] readings Hrand _ IH]; intros b Hbp Hbs Ha Hmax; simpl.
    { exists []. unfold llen. simpl. split; [done|]. split; [lia|]. done. }
    destruct (budget_next_some b now random) as (b' & o & Hnext & Hd); [by rewrite Hbp|done|done|].
    rewrite Hnext. destruct o as [d|].
    - apply budget_next_attempts in Hnext as (Hatt & Hpol & Hst & Hlt).
      destruct (IH b') as (delays & -> & Hlen & Hrest); [congruence..|lia|rewrite Hbp in Hlt; lia|].
      eexists. split; [reflexivity|]. split; [unfold llen in *; simpl; lia|].
      intros [|i] t x Hx; simpl in Hx.
      + injection Hx as -> ->. rewrite Z.add_0_r. rewrite <-Hbp, <-Hbs. by apply Hd.
      + apply Hrest in Hx. replace (bu_attempt b - 1 + Z.of_nat (S i))
          with (bu_attempt b' - 1 + Z.of_nat i) by lia. done.
    - exists []. unfold llen. simpl. split; [done|]. split; [lia|]. done. }
  destruct (Hall (budget_new policy started) eq_refl eq_refl ltac:(simpl; lia) ltac:(simpl; lia))
    as (delays & Hg & Hlen & Hd).
  exists delays. split; [done|]. split; [done|]. intros i now d Hi. destruct (Hd i now d Hi) as [H1 H2].
  simpl in H1. split; [done|]. split; [|done].
  pose proof (delay_ceiling_range policy (Z.of_nat i) Hp (Nat2Z.is_nonneg i)).
  replace (1 - 1 + Z.of_nat i) with (Z.of_nat i) in H1 by lia. lia.
Qed.

Lemma budget_is_bounded_witness :
  ∃ delays, grants (budget_new (retry_policy_new 3) 0) [(5, 7); (60, 1); (99, 2)] = Some delays ∧
    llen delays ≤ 2.
Proof.
  destruct (budget_is_bounded (retry_policy_new 3) 0 [(5, 7); (60, 1); (99, 2)])
    as (delays & Hg & Hlen & _).
  - split; unfold u32_max, DURATION_MAX, retry_policy_new, DEFAULT_BASE_DELAY_MS, NANOS_PER_MILLI,
      DEFAULT_MAX_DELAY_MS; simpl; lia.
  - repeat constructor; simpl; lia.
  - exists delays. split; [exact Hg|exact Hlen].
Defined.
