(* ===== verification/Program.v ===== *)
(** * Programs over a repository

    The client side of the library (the store, transactions, outcome settlement) is asynchronous
    code that awaits repository calls. Here it is a tree of calls: what runs between two calls is
    a Rocq function, and every call is a point where other clients may run. [wp] is what holds of
    a program whatever the other clients do, and [pool_step] is how programs interleave. *)

From S2P Require Import Prelude Types Outcome Repository.

(** ** Calls *)

(** crates/evt/src/repository.rs:805-1018 [Repository]

    The calls the library makes on a repository and on what it shares with other clients: the
    ledger of declared history types, the commit-ID generator, the counter that numbers
    transactions, the timers, the clock and the jitter. [QReadBounded] is a read raced against the repository's deadline; [QReadPolled] and
    [QSleepPolled] are a read and a sleep of a poll that is raced as a whole, whose answer says
    whether the deadline fired meanwhile. *)
Inductive Call (Op : Type) : Type → Type :=
| QSnapshot (entity_id : EntityId) : Call Op (Result (option SerializedSnapshot))
| QEvents (entity_id : EntityId) : Call Op (Result (list SerializedEvent))
| QEventsAfter (entity_id : EntityId) (after : EventSequence)
    : Call Op (Result (list SerializedEvent))
| QOutcome (command_id : CommandId) : Call Op (Result (option Outcome))
| QCommit (commit : Commit Op) : Call Op (Result (list SerializedEvent))
| QCommitTransaction (commit : TransactionCommit Op) : Call Op (Result (list SerializedEvent))
| QPutSnapshot (snapshot : SerializedSnapshot) : Call Op (Result bool)
| QDeclareHistory (types : list EntityType) : Call Op (Result unit)
| QWritesViews : Call Op bool
| QLedger : Call Op (gset EntityType)
| QLedgerExtend (types : list EntityType) : Call Op unit
| QCommitId : Call Op string
| QTransactionId : Call Op Z
| QBackoff (duration : Z) : Call Op unit
| QReadBounded (command_id : CommandId) (limit : Z)
    : Call Op (option (Result (option Outcome)))
| QReadPolled (command_id : CommandId) : Call Op (option (Result (option Outcome)))
| QSleepPolled (duration : Z) : Call Op bool
| QRandom : Call Op Z
| QClock : Call Op Z.
Arguments QSnapshot {Op} entity_id.
Arguments QEvents {Op} entity_id.
Arguments QEventsAfter {Op} entity_id after.
Arguments QOutcome {Op} command_id.
Arguments QCommit {Op} commit.
Arguments QCommitTransaction {Op} commit.
Arguments QPutSnapshot {Op} snapshot.
Arguments QDeclareHistory {Op} types.
Arguments QWritesViews {Op}.
Arguments QLedger {Op}.
Arguments QLedgerExtend {Op} types.
Arguments QCommitId {Op}.
Arguments QTransactionId {Op}.
Arguments QBackoff {Op} duration.
Arguments QReadBounded {Op} command_id limit.
Arguments QReadPolled {Op} command_id.
Arguments QSleepPolled {Op} duration.
Arguments QRandom {Op}.
Arguments QClock {Op}.

(** A program over a family of calls: it returns, asks and goes on with the answer, panics, or has
    used up the fuel of a loop. The last two are proved never to happen. *)
Inductive Tree (E : Type → Type) (A : Type) : Type :=
| Ret (a : A)
| Ask (B : Type) (q : E B) (k : B → Tree E A)
| Panic
| OutOfFuel.
Arguments Ret {E A} a.
Arguments Ask {E A B} q k.
Arguments Panic {E A}.
Arguments OutOfFuel {E A}.

(** A program over a repository. *)
Abbreviation Prog Op A := (Tree (Call Op) A).

Fixpoint bind {E A C} (p : Tree E A) (f : A → Tree E C) : Tree E C :=
  match p with
  | Ret a => f a
  | Ask q k => Ask q (λ b, bind (k b) f)
  | Panic => Panic
  | OutOfFuel => OutOfFuel
  end.

(** The [?] operator on an awaited fallible program. *)
Definition try_bind {E A C F} (p : Tree E (result A F)) (f : A → Tree E (result C F))
  : Tree E (result C F) :=
  bind p (λ r, match r with Ok a => f a | Err e => Ret (Err e) end).

Definition call {E : Type → Type} {B} (q : E B) : Tree E B := Ask q Ret.

(** A program run with every call of it answered by a program over other calls. *)
Fixpoint interpret {E F : Type → Type} {A} (h : ∀ B, E B → Tree F B) (p : Tree E A) : Tree F A :=
  match p with
  | Ret a => Ret a
  | Ask q k => bind (h _ q) (λ b, interpret h (k b))
  | Panic => Panic
  | OutOfFuel => OutOfFuel
  end.

Declare Scope prog_scope.
Delimit Scope prog_scope with prog.
Notation "'await' x ':=' p 'in' k" := (bind p (λ x, k))
  (at level 200, x name, p at level 100, k at level 200, right associativity) : prog_scope.
Notation "'await?' x ':=' p 'in' k" := (try_bind p (λ x, k))
  (at level 200, x name, p at level 100, k at level 200, right associativity) : prog_scope.
Notation "'await?' ''' x ':=' p 'in' k" := (try_bind p (λ x, k))
  (at level 200, x strict pattern, p at level 100, k at level 200, right associativity)
  : prog_scope.
Open Scope prog_scope.

(** [map_err] on an awaited result. *)
Definition map_err_prog {E A F G} (f : F → G) (p : Tree E (result A F)) : Tree E (result A G) :=
  bind p (λ r, Ret (map_err f r)).

(** ** Backends *)

(** What a call may answer in a world, and the world it leaves. *)
Class Handles (E : Type → Type) (W : Type) :=
  performs : ∀ {B}, E B → W → B → W → Prop.

Abbreviation Backend Op W := (Handles (Call Op) W).

(** ** Reasoning *)

Section wp.
Context {E : Type → Type} {W : Type} `{!Handles E W} (rely guar : W → W → Prop) (stops : Prop).

(** From world [w], whatever the environment does within [rely] before each call, every call the
    program makes is within [guar], it returns with [Q], and it may panic or run out of fuel only
    if [stops] lets it. *)
Fixpoint wp {A} (p : Tree E A) (Q : A → W → Prop) (w : W) : Prop :=
  match p with
  | Ret a => Q a w
  | Ask q k => ∀ w1 b w2, rely w w1 → performs q w1 b w2 → guar w1 w2 ∧ wp (k b) Q w2
  | Panic | OutOfFuel => stops
  end.

Lemma wp_mono {A} (p : Tree E A) (Q Q' : A → W → Prop) w :
  (∀ a w', Q a w' → Q' a w') → wp p Q w → wp p Q' w.
Proof.
  intros HQ. revert w. induction p as [a|B q k IH| |]; intros w; simpl; [apply HQ| |done|done].
  intros Hp w1 b w2 Hr Hq. destruct (Hp w1 b w2 Hr Hq) as [Hg Hk]. split; [done|]. by apply IH.
Qed.

Lemma wp_bind {A C} (p : Tree E A) (f : A → Tree E C) (Q : C → W → Prop) w :
  wp p (λ a w', wp (f a) Q w') w → wp (bind p f) Q w.
Proof.
  revert w. induction p as [a|B q k IH| |]; intros w; simpl; [done| |done|done].
  intros Hp w1 b w2 Hr Hq. destruct (Hp w1 b w2 Hr Hq) as [Hg Hk]. split; [done|]. by apply IH.
Qed.

(** The environment may run before the program does. *)
Lemma wp_rely {A} (p : Tree E A) (Q : A → W → Prop) w w' :
  Transitive rely → (∀ a x y, Q a x → rely x y → Q a y) →
  rely w w' → wp p Q w → wp p Q w'.
Proof.
  intros Htrans HQ Hr. destruct p as [a|B q k| |]; simpl; [by intros; eapply HQ| |done|done].
  intros Hp w1 b w2 Hr1 Hq. apply (Hp w1 b w2); [by etransitivity|done].
Qed.
End wp.

(** What a client does may be promised less of. *)
Lemma wp_weaken {E W} `{!Handles E W} (rely guar guar' : W → W → Prop) stops {A} (p : Tree E A) Q w :
  (∀ x y, guar x y → guar' x y) → wp rely guar stops p Q w → wp rely guar' stops p Q w.
Proof.
  intros Hg. revert w. induction p as [a|B q k IH| |]; intros w; simpl; [done| |done|done].
  intros Hp w1 b w2 Hr Hq. destruct (Hp w1 b w2 Hr Hq) as [H1 Hk]. split; [by apply Hg|by apply IH].
Qed.

(** ** Concurrent programs *)

Section pool.
Context {E : Type → Type} {W A : Type} `{!Handles E W} (env : W → W → Prop).

(** One client makes its next call, or something else happens to the world. *)
Inductive pool_step : W * list (Tree E A) → W * list (Tree E A) → Prop :=
| pool_call w ps i B (q : E B) k b w' :
    ps !! i = Some (Ask q k) → performs q w b w' → pool_step (w, ps) (w', <[i := k b]> ps)
| pool_env w ps w' : env w w' → pool_step (w, ps) (w', ps).
End pool.

(** ** Clients that keep an invariant

    Every client keeps [inv] and moves the world forward in the order [le]. A role says which of
    these moves a client tolerates from the others and which it makes itself, and whether it may
    stop short: panic, or still be in a loop when its fuel is used up. [g] is the world
    together with what is only reasoned about. *)

Record Role {G : Type} (le : G → G → Prop) := mkRoleOf {
  rl_rely : G → G → Prop;
  rl_guar : G → G → Prop;
  rl_stops : Prop;
  rl_preorder : PreOrder rl_rely;
  rl_rely_le : ∀ g g', rl_rely g g' → le g g';
  rl_guar_le : ∀ g g', rl_guar g g' → le g g'
}.
Arguments mkRoleOf {G le} rl_rely rl_guar rl_stops.
Arguments rl_rely {G le} r.
Arguments rl_guar {G le} r.
Arguments rl_stops {G le} r.
Arguments rl_preorder {G le} r.
Arguments rl_rely_le {G le} r g g'.
Arguments rl_guar_le {G le} r g g'.
#[export] Existing Instance rl_preorder.

(** The role of a client that never stops short. *)
Definition mkRole {G : Type} {le : G → G → Prop} (rely guar : G → G → Prop)
    (preorder : PreOrder rely) (rely_le : ∀ g g', rely g g' → le g g')
    (guar_le : ∀ g g', guar g g' → le g g') : Role le :=
  mkRoleOf rely guar False preorder rely_le guar_le.

(** The role with no more to it than the order. *)
Definition anyone {G} (le : G → G → Prop) {Hle : PreOrder le} : Role le :=
  mkRole le le Hle (λ _ _ H, H) (λ _ _ H, H).

Section keeping.
Context {G : Type} (inv : G → Prop) (le : G → G → Prop).

Definition keeping (g g' : G) : Prop := inv g → inv g' ∧ le g g'.

#[export] Instance keeping_preorder `{!PreOrder le} : PreOrder keeping.
Proof.
  split.
  - intros g Hg. by split.
  - intros g1 g2 g3 H1 H2 Hg. destruct (H1 Hg) as [Hg2 Hle]. destruct (H2 Hg2) as [Hg3 Hle'].
    split; [done|]. by etrans.
Qed.
End keeping.

Section clients.
Context {E : Type → Type} {G : Type} `{!Handles E G} (inv : G → Prop).
Context {le : G → G → Prop} `{!PreOrder le} (role : Role le).

Definition assures {A} (p : Tree E A) (Q : A → G → Prop) (g : G) : Prop :=
  wp (keeping inv (rl_rely role)) (keeping inv (rl_guar role)) (rl_stops role) p
    (λ a g', inv g' ∧ le g g' ∧ Q a g') g.

Lemma assures_ret {A} (a : A) (Q : A → G → Prop) g : inv g → Q a g → assures (Ret a) Q g.
Proof. intros Hg HQ. by split. Qed.

Lemma assures_mono {A} (p : Tree E A) (Q Q' : A → G → Prop) g :
  (∀ a g', inv g' → le g g' → Q a g' → Q' a g') → assures p Q g → assures p Q' g.
Proof. intros HQ. apply wp_mono. intros a g' (Hi & Hle & Hq). auto. Qed.

Lemma assures_bind {A C} (p : Tree E A) (f : A → Tree E C) (Q : C → G → Prop) g :
  assures p (λ a g', assures (f a) Q g') g → assures (bind p f) Q g.
Proof.
  intros Hp. apply wp_bind. eapply wp_mono, Hp. intros a g' (Hi & Hle & Hf).
  eapply wp_mono, Hf. intros c g'' (Hi' & Hle' & HQ). split; [done|]. split; [by etrans|done].
Qed.

Lemma assures_try {A C F} (p : Tree E (result A F)) (f : A → Tree E (result C F))
    (Q : result C F → G → Prop) g :
  assures p (λ r g', match r with Ok a => assures (f a) Q g' | Err e => Q (Err e) g' end) g →
  assures (try_bind p f) Q g.
Proof.
  intros Hp. apply assures_bind. eapply assures_mono, Hp. intros [a|e] g' Hi _ Hq; [done|].
  by apply assures_ret.
Qed.

Lemma assures_map_err {A F F'} (f : F → F') (p : Tree E (result A F))
    (Q : result A F' → G → Prop) g :
  assures p (λ r g', Q (map_err f r) g') g → assures (map_err_prog f p) Q g.
Proof.
  intros Hp. apply assures_bind. eapply assures_mono, Hp. intros r g' Hi _ Hq.
  by apply assures_ret.
Qed.

Lemma assures_call {B} (q : E B) (Q : B → G → Prop) g :
  inv g →
  (∀ g1 b g2, inv g1 → rl_rely role g g1 → performs q g1 b g2 →
     inv g2 ∧ rl_guar role g1 g2 ∧ Q b g2) →
  assures (call q) Q g.
Proof.
  intros Hg Hq g1 b g2 Hr Hp. destruct (Hr Hg) as [Hg1 Hle].
  destruct (Hq g1 b g2 Hg1 Hle Hp) as (Hg2 & Hle' & HQ).
  split; [by intros _|]. split; [done|]. split; [|done].
  transitivity g1; [by apply (rl_rely_le role)|by apply (rl_guar_le role)].
Qed.
End clients.

(** Clients that run concurrently, with whatever else moves the world within the invariant: each
    ends as it would alone. [view] is the world of [g], over which the clients run, and each client
    has its own account [H i] of what its calls do. *)
Section pool_clients.
Context {E : Type → Type} {G W A : Type} `{!Handles E W} (view : G → W) (inv : G → Prop).
Context {le : G → G → Prop} `{!PreOrder le} (H : nat → Handles E G) (role : nat → Role le).
Context (env : W → W → Prop) (Q : nat → A → G → Prop).
Context (Hlaw : ∀ i g B (q : E B) b w', inv g → performs q (view g) b w' →
  ∃ g', view g' = w' ∧ @performs _ _ (H i) _ q g b g').
Context (Henv : ∀ g w', inv g → env (view g) w' →
  ∃ g', view g' = w' ∧ inv g' ∧ le g g' ∧ ∀ i, rl_rely (role i) g g').
Context (Hroles : ∀ i j g g', i ≠ j → inv g → inv g' → rl_guar (role i) g g' → rl_rely (role j) g g').
Context (HQ : ∀ i a x y, inv x → inv y → rl_rely (role i) x y → Q i a x → Q i a y).

(** What is left of a client. *)
Definition ends (i : nat) (p : Tree E A) (g : G) : Prop :=
  @wp E G (H i) (keeping inv (rl_rely (role i))) (keeping inv (rl_guar (role i))) (rl_stops (role i)) A p
    (λ x g, inv g ∧ Q i x g) g.

Lemma ends_later i p g g' : inv g' → rl_rely (role i) g g' → ends i p g → ends i p g'.
Proof.
  intros Hi Hle. apply wp_rely; [apply _| |by intros _].
  intros z x y [Hx Hq] Hk. destruct (Hk Hx) as [Hy Hxy]. split; [done|]. by apply (HQ i z x y).
Qed.

Lemma assures_pool g ps w' ps' :
  inv g → (∀ i p, ps !! i = Some p → @assures E G (H i) inv le (role i) A p (Q i) g) →
  rtc (pool_step env) (view g, ps) (w', ps') →
  ∃ g', view g' = w' ∧ inv g' ∧ le g g' ∧ ∀ i p, ps' !! i = Some p → ends i p g'.
Proof.
  intros Hi Hps Hrtc.
  assert (∀ i p, ps !! i = Some p → ends i p g) as Hwp.
  { intros i p Hp. eapply wp_mono, (Hps i p Hp). by intros x y (? & _ & ?). }
  clear Hps. remember (view g, ps) as x eqn:Hx. remember (w', ps') as y eqn:Hy.
  revert g ps Hx Hi Hwp. induction Hrtc as [x|x y' z Hstep _ IH]; intros g ps -> Hi Hwp.
  { injection Hy as <- <-. exists g. by split. }
  inversion Hstep as [w0 ps0 i B q k b w1 Hl Hq Hw Hz|w0 ps0 w1 He Hw Hz]; subst.
  - destruct (Hlaw i g B q b w1 Hi Hq) as (g1 & <- & Hq1).
    destruct (Hwp i _ Hl g b g1) as [Hg Hk]; [reflexivity|done|].
    destruct (Hg Hi) as [Hi1 Hle1].
    destruct (IH eq_refl g1 _ eq_refl Hi1) as (g' & Hv & Hi' & Hle' & Hrest).
    + intros j p Hj. destruct (decide (i = j)) as [<-|Hne].
      * rewrite list_lookup_insert_eq in Hj by (by eapply lookup_lt_Some). by injection Hj as <-.
      * rewrite list_lookup_insert_ne in Hj by done.
        apply (ends_later j p g); [done|by apply (Hroles i)|by apply Hwp].
    + exists g'. split; [done|]. split; [done|]. split; [|done].
      transitivity g1; [by apply (rl_guar_le (role i))|done].
  - destruct (Henv g w1 Hi He) as (g1 & <- & Hi1 & Hle & Hrely).
    destruct (IH eq_refl g1 _ eq_refl Hi1) as (g' & Hv & Hi' & Hle' & Hrest).
    + intros j p Hj. by apply (ends_later j p g); [| |apply Hwp].
    + exists g'. split; [done|]. split; [done|]. split; [by etrans|done].
Qed.
End pool_clients.

(** The steps of a client: a fallible call, a call, and the end. *)
Ltac step_try := apply assures_try; [apply _|].
Ltac step_bind := apply assures_bind; [apply _|].
Ltac returns := apply assures_ret; [apply _|done|].
