(* ===== verification/Settle.v ===== *)
(** * Command identity and settlement

    [outcome.rs]: the identity a command is recorded under, the configuration of outcomes, and how
    the result of a commit that carried an outcome is resolved when another commit won the race or
    the result is unknown. [transaction.rs]'s pending command and terminal rejections are here
    too, since the store uses them. *)

From S2P Require Import Prelude Types Outcome Repository Retry Program.

(** ** The identity of a command *)

(** crates/evt/src/outcome.rs:700-714 [DigestInput] *)
Record DigestInput := mkDigestInput {
  di_command_type : string;
  di_targets : list EntityId;
  di_payload : string;
  di_principal : string
}.

(** [targets.sort(); targets.dedup()]. *)
Definition sorted_targets (targets : list EntityId) : list EntityId :=
  dedup (sort_by string_leb targets).

(** crates/evt/src/outcome.rs:429-440 [RecordedIdentity::of] *)
Definition recorded_identity (input : DigestInput) : RecordedIdentity :=
  mkIdentity (di_command_type input) (sorted_targets (di_targets input))
    (if is_empty (di_principal input) then None else Some (di_principal input)).

(** crates/evt/src/outcome.rs:830-834 [CommandIdentity] *)
Record CommandIdentity := mkCommandIdentity {
  ci_command_type : string;
  ci_targets : list EntityId;
  ci_payload : string
}.

(** crates/evt/src/outcome.rs:900-907 [CommandIdentity::digest_input] *)
Definition digest_input (identity : CommandIdentity) (metadata : Metadata) : DigestInput :=
  mkDigestInput (ci_command_type identity) (ci_targets identity) (ci_payload identity)
    (principal metadata).

(** crates/evt/src/outcome.rs:935-941 [OutcomeConfig] *)
Record OutcomeConfig := mkOutcomeConfig {
  oc_digester : DigestInput → result string string;
  oc_recovery_wait : Z;
  oc_retry : RetryPolicy;
  oc_stale_fence_code : string;
  oc_stale_version_code : string
}.

(** crates/evt/src/outcome.rs:1050-1071 [OutcomeConfig::digest] *)
Definition config_digest (config : OutcomeConfig) (input : DigestInput) : Result string :=
  check? check_text "the command type" (di_command_type input);
  check? check_text "the principal" (di_principal input);
  let? digest :=
    map_err (λ err, InvalidArgument (Fmt "the command digester failed: {err}" [err]))
      (oc_digester config input) in
  if is_empty digest then
    Err (InvalidArgument (Fmt "the command digester returned an empty digest" []))
  else if contains_nul digest then
    Err (InvalidArgument (Fmt "the command digester returned a digest containing U+0000" []))
  else Ok digest.

(** crates/evt/src/outcome.rs:1004-1006 [OutcomeConfig::stale_fence] *)
Definition config_stale_fence (config : OutcomeConfig) (r : Rejection) : Rejection :=
  with_code r (oc_stale_fence_code config).

(** crates/evt/src/outcome.rs:1009-1011 [OutcomeConfig::stale_version] *)
Definition config_stale_version (config : OutcomeConfig) (stale : list StaleVersion) : Rejection :=
  with_code (stale_version stale) (oc_stale_version_code config).

(** crates/evt/src/transaction.rs:45-51 [PendingCommand] *)
Record PendingCommand := mkPending {
  pc_command_id : CommandId;
  pc_digest : string;
  pc_identity : RecordedIdentity;
  pc_metadata : Metadata
}.

(** crates/evt/src/transaction.rs:56-68 [PendingCommand::new] *)
Definition pending_new (config : OutcomeConfig) (command_id : CommandId) (input : DigestInput)
    (metadata : Metadata) : Result PendingCommand :=
  let? digest := config_digest config input in
  Ok (mkPending command_id digest (recorded_identity input) metadata).

(** crates/evt/src/transaction.rs:79-82 [PendingCommand::accepted] *)
Definition pending_accepted (pending : PendingCommand) : Outcome :=
  with_identity (outcome_accepted (pc_command_id pending) (pc_digest pending)) (pc_identity pending).

(** crates/evt/src/transaction.rs:85-88 [PendingCommand::rejected] *)
Definition pending_rejected (pending : PendingCommand) (rejection : Rejection) : Outcome :=
  with_identity (outcome_rejected (pc_command_id pending) (pc_digest pending) rejection)
    (pc_identity pending).

(** crates/evt/src/transaction.rs:93-107 [freeze_command] *)
Definition freeze_command (config : OutcomeConfig) (identity : CommandIdentity)
    (metadata : Metadata) : Result PendingCommand :=
  check? check_targets (ci_targets identity);
  let? command_id := require_command_id metadata in
  pending_new config command_id (digest_input identity metadata) metadata.

(** crates/evt/src/outcome.rs:635-648 [CommandOutcome] *)
Record CommandOutcome (E : Type) := mkCommandOutcome {
  co_outcome : Outcome;
  co_events : list SerializedEvent;
  co_typed_events : list E;
  co_replayed : bool
}.
Arguments mkCommandOutcome {E}.
Arguments co_outcome {E}.
Arguments co_events {E}.
Arguments co_typed_events {E}.
Arguments co_replayed {E}.

(** crates/evt/src/outcome.rs:651-662 [CommandOutcome::fresh] *)
Definition outcome_fresh {E} (outcome : Outcome) (events : list SerializedEvent)
    (typed_events : list E) : CommandOutcome E :=
  mkCommandOutcome outcome events typed_events false.

(** crates/evt/src/outcome.rs:664-671 [CommandOutcome::replay] *)
Definition outcome_replay {E} (outcome : Outcome) : CommandOutcome E :=
  mkCommandOutcome outcome [] [] true.

(** ** Settlement *)

(** crates/evt/src/outcome.rs:1292-1297 [Settled] *)
Inductive Settled :=
| Committed
| Replayed (outcome : Outcome).

(** crates/evt/src/outcome.rs:1301-1311 [Polled] *)
Inductive Polled :=
| Found (outcome : Outcome)
| Absent
| Unreadable (error : option Error)
| Corrupt (error : Error).

Definition POLL_FIRST : Z := 50 * NANOS_PER_MILLI.
Definition POLL_LAST : Z := NANOS_PER_SEC.

Section settle.
Context {Op : Type}.

(** crates/evt/src/outcome.rs:1451-1460 [pre_check] *)
Definition pre_check (command_id : CommandId) (digest : string)
  : Prog Op (Result (option Outcome)) :=
  await? stored := call (QOutcome command_id) in
  Ret match stored with
      | Some stored => let? stored := same_command stored digest in Ok (Some stored)
      | None => Ok None
      end.

(** crates/evt/src/outcome.rs:1406-1433 [poll_loop]

    With [poll_for_row]'s race against the deadline: a read or a sleep that the deadline cuts short
    ends the poll as [Unreadable(None)]. *)
Fixpoint poll_loop (fuel : nat) (command_id : CommandId) (window delay waited : Z)
  : Prog Op Polled :=
  match fuel with
  | O => OutOfFuel
  | S fuel =>
      await read := call (QReadPolled command_id) in
      match read with
      | None => Ret (Unreadable None)
      | Some (Ok (Some outcome)) => Ret (Found outcome)
      | Some (Err (InvalidRecord message)) => Ret (Corrupt (InvalidRecord message))
      | Some (Err err) => Ret (Unreadable (Some err))
      | Some (Ok None) =>
          if window <=? waited then Ret Absent
          else
            let step := Z.min delay (window - waited) in
            await expired := call (QSleepPolled step) in
            if expired : bool then Ret (Unreadable None)
            else poll_loop fuel command_id window (Z.min (delay * 2) POLL_LAST) (waited + step)
      end
  end.

(** crates/evt/src/outcome.rs:1384-1404 [poll_for_row]

    A round waits at least [POLL_FIRST], or up to the end of the window. *)
Definition poll_for_row (command_id : CommandId) (window : Z) : Prog Op Polled :=
  poll_loop (Z.to_nat (window / POLL_FIRST) + 2) command_id window POLL_FIRST 0.

(** crates/evt/src/outcome.rs:1548-1554 [may_have_lost_the_race] *)
Definition may_have_lost_the_race (error : Error) : bool :=
  match error with
  | Conflict _ _ | SequenceGap _ _ _ | FenceConflict _ _ _ => true
  | Transient (TransactionConflict _ _) => true
  | _ => false
  end.

(** The winner's row as a settlement. *)
Definition settle_stored (stored : Outcome) (digest : string) : Result Settled :=
  let? outcome := same_command stored digest in Ok (Replayed outcome).

(** crates/evt/src/outcome.rs:1472-1544 [settle]

    The text of an error in another's message is not modelled. *)
Definition settle (command_id : CommandId) (digest : string) (window : Z) (result : Result unit)
  : Prog Op (Result Settled) :=
  match result with
  | Ok tt => Ret (Ok Committed)
  | Err (OutcomeConflict id) =>
      await read := call (QReadBounded command_id window) in
      Ret match read with
          | Some (Ok (Some stored)) => settle_stored stored digest
          | Some (Ok None) => Err (OutcomeConflict id)
          | Some (Err err) => Err err
          | None => Err (Transient (BoxText "its outcome row could not be read in time"))
          end
  | Err (Indeterminate source) =>
      await polled := poll_for_row command_id window in
      Ret match polled with
          | Found stored => settle_stored stored digest
          | Corrupt err => Err err
          | Absent | Unreadable None => Err (AmbiguousWrite command_id source)
          | Unreadable (Some read) =>
              Err (AmbiguousWrite command_id (RecoveryReadFailed source read))
          end
  | Err conflict =>
      if may_have_lost_the_race conflict then
        await read := call (QReadBounded command_id window) in
        Ret match read with
            | Some (Ok (Some stored)) => settle_stored stored digest
            | Some (Err (InvalidRecord message)) => Err (InvalidRecord message)
            | _ => Err conflict
            end
      else Ret (Err conflict)
  end.

(** The outcome of a settled commit: fresh when it applied, the stored one otherwise. *)
Definition settled_outcome {E} (settled : Settled) (stored : Outcome)
    (committed : list SerializedEvent) (typed_events : list E) : CommandOutcome E :=
  match settled with
  | Committed => outcome_fresh stored committed typed_events
  | Replayed outcome => outcome_replay outcome
  end.

Context `{SerdeJson}.

(** crates/evt/src/transaction.rs:1259-1278 [persist_rejection] *)
Definition persist_rejection {E} (pending : PendingCommand) (recovery_wait : Z)
    (rejection : Rejection) : Prog Op (Result (CommandOutcome E)) :=
  match canonical_rejection rejection with
  | Err error => Ret (Err error)
  | Ok rejection =>
      let outcome := pending_rejected pending rejection in
      let commit := mkTransactionCommit [] [] [] [] (Some outcome) in
      match transaction_stored_outcome commit with
      | None => Panic
      | Some stored =>
          await result := call (QCommitTransaction commit) in
          let result := match result with Ok _ => Ok tt | Err error => Err error end in
          await? settled :=
            settle (pc_command_id pending) (pc_digest pending) recovery_wait result in
          Ret (Ok (settled_outcome settled stored [] []))
      end
  end.
End settle.
