(* ===== verification/Store.v ===== *)
(** * The store

    [store.rs], [aggregate.rs] and [upcast.rs]: loading an aggregate from its snapshot and the
    events above it, staging the commit of a command's events, and executing commands, without
    outcomes ([execute]) and with recorded outcomes ([execute_with_response]). Everything that
    awaits the repository is a program ([Program.v]). *)

From S2P Require Import Prelude Types Outcome Projection Repository Retry Program Settle.

(** ** Aggregates *)

(** crates/evt/src/upcast.rs:14-20 [Upcaster] *)
Record Upcaster := mkUpcaster {
  uc_can_upcast : EventType → EventVersion → bool;
  uc_upcast : SerializedEvent → result SerializedEvent BoxError
}.

(** crates/evt/src/aggregate.rs:70-131 [Aggregate]

    With the methods of its [DomainEvent] and [ToRejection], its serde encodings, and its
    command's [OutcomeCommand]. [handle] is taken at the services the store was built with. *)
Class Aggregate := {
  ag_state : Type;
  ag_event : Type;
  ag_command : Type;
  ag_error : Type;
  ag_TYPE : EntityType;
  ag_SNAPSHOT_INTERVAL : option Z;
  ag_default : ag_state;
  ag_handle : ag_state → ag_command → result (list ag_event) ag_error;
  ag_apply : ag_state → ag_event → ag_state;
  ag_rejection_events : ag_state → ag_error → list ag_event;
  ag_upcasters : list Upcaster;
  ag_event_type : ag_event → EventType;
  ag_event_version : ag_event → EventVersion;
  ag_to_payload : ag_event → Result string;
  ag_from_payload : EventType → EventVersion → string → result ag_event PayloadError;
  ag_to_json : ag_state → Result string;
  ag_from_json : string → result ag_state string;
  ag_to_rejection : ag_error → option Rejection;
  ag_box : ag_error → BoxError;
  ag_command_type : ag_command → string;
  ag_canonical_payload : ag_command → result (option string) string
}.

(** crates/evt/src/upcast.rs:82-86 [UpcastFailure] *)
Record UpcastFailure := mkUpcastFailure {
  uf_event_type : EventType;
  uf_version : EventVersion;
  uf_source : BoxError
}.

(** crates/evt/src/upcast.rs:89-107 [upcast_event] *)
Fixpoint upcast_event (upcasters : list Upcaster) (event : SerializedEvent)
  : result SerializedEvent UpcastFailure :=
  match upcasters with
  | [] => Ok event
  | upcaster :: rest =>
      if uc_can_upcast upcaster (ev_type event) (ev_version event) then
        match uc_upcast upcaster event with
        | Ok event => upcast_event rest event
        | Err source => Err (mkUpcastFailure (ev_type event) (ev_version event) source)
        end
      else upcast_event rest event
  end.

(** crates/evt/src/store.rs:35-38 [LOAD_ATTEMPTS] *)
Definition LOAD_ATTEMPTS : nat := 3.
Definition DEFAULT_SNAPSHOT_INTERVAL : Z := 5.

Section store.
Context `{SerdeJson} `{A : Aggregate} {Op : Type}.

(** crates/evt/src/aggregate.rs:138-146 [Projector] *)
Definition AggregateProjector : Type :=
  EntityId → ag_state → list ag_event → result (list Op) BoxError.

(** ** Loaded aggregates *)

(** crates/evt/src/store.rs:1197-1203 [Loaded] *)
Record Loaded := mkLoaded {
  ld_entity_id : EntityId;
  ld_aggregate : ag_state;
  ld_sequence : EventSequence;
  ld_snapshot_sequence : EventSequence;
  ld_seen_command_ids : gset CommandId
}.

(** crates/evt/src/store.rs:1206-1214 [Loaded::new] *)
Definition loaded_new (entity_id : EntityId) : Loaded := mkLoaded entity_id ag_default 0 0 ∅.

(** crates/evt/src/store.rs:1226-1240 [Loaded::replay]

    The event a stored one stands for. *)
Definition decode_event (stored : SerializedEvent) : Result (SerializedEvent * ag_event) :=
  let? stored :=
    map_err (λ f, Replay (uf_event_type f) (uf_version f) Upcast (uf_source f))
      (upcast_event ag_upcasters stored) in
  let? event :=
    map_err (λ source, Replay (ev_type stored) (ev_version stored) Deserialize (BoxPayload source))
      (ag_from_payload (ev_type stored) (ev_version stored) (ev_payload stored)) in
  Ok (stored, event).

Definition add_seen (seen : gset CommandId) (command_id : option CommandId) : gset CommandId :=
  match non_empty command_id with
  | Some command_id => {[command_id]} ∪ seen
  | None => seen
  end.

(** crates/evt/src/store.rs:1217-1254 [Loaded::replay] *)
Definition replay (loaded : Loaded) (stored : SerializedEvent) : Result Loaded :=
  if negb (ev_sequence stored =? next (ld_sequence loaded)) then
    Err (SequenceGap (ld_entity_id loaded) (ld_sequence loaded) (ev_sequence stored))
  else
    let? decoded := decode_event stored in
    let stored := decoded.1 in
    Ok (mkLoaded (ld_entity_id loaded) (ag_apply (ld_aggregate loaded) decoded.2)
      (ev_sequence stored) (ld_snapshot_sequence loaded)
      (add_seen (ld_seen_command_ids loaded) (md_command_id (ev_metadata stored)))).

(** crates/evt/src/store.rs:1282-1285 [Loaded::has_seen] *)
Definition has_seen (loaded : Loaded) (command_id : CommandId) : bool :=
  negb (is_empty command_id) && bool_decide (command_id ∈ ld_seen_command_ids loaded).

(** crates/evt/src/store.rs:1160-1177 [load_once] *)
Definition loaded_from (entity_id : EntityId) (snapshot : option SerializedSnapshot)
  : Result Loaded :=
  match snapshot with
  | Some snapshot =>
      let? aggregate :=
        map_err (λ source, SnapshotError entity_id source) (ag_from_json (sn_payload snapshot)) in
      Ok (mkLoaded entity_id aggregate (sn_event_sequence snapshot) (sn_sequence snapshot) ∅)
  | None => Ok (loaded_new entity_id)
  end.

(** crates/evt/src/store.rs:1153-1193 [load_once] *)
Definition load_once (entity_id : EntityId) : Prog Op (Result (Loaded * Z)) :=
  await? snapshot := call (QSnapshot entity_id) in
  match loaded_from entity_id snapshot with
  | Err error => Ret (Err error)
  | Ok loaded =>
      await? events :=
        match snapshot with
        | Some _ => call (QEventsAfter (ld_entity_id loaded) (ld_sequence loaded))
        | None => call (QEvents (ld_entity_id loaded))
        end in
      Ret (let? loaded := fold_result replay loaded events in
           Ok (loaded, llen events))
  end.

(** crates/evt/src/store.rs:1107-1149 [catch_up_snapshot] *)
Definition catch_up_snapshot (loaded : Loaded) : Prog Op Loaded :=
  match ag_to_json (ld_aggregate loaded) with
  | Err _ => Ret loaded
  | Ok payload =>
      let snapshot :=
        mkSnapshot ag_TYPE (ld_entity_id loaded) (next (ld_snapshot_sequence loaded))
          (ld_sequence loaded) payload in
      match snapshot_fits snapshot with
      | Ok true =>
          await written := call (QPutSnapshot snapshot) in
          Ret match written with
              | Ok true =>
                  mkLoaded (ld_entity_id loaded) (ld_aggregate loaded) (ld_sequence loaded)
                    (sn_sequence snapshot) (ld_seen_command_ids loaded)
              | _ => loaded
              end
      | _ => Ret loaded
      end
  end.

(** crates/evt/src/store.rs:1083-1088 [load_with_catch_up]

    [retries] is how many attempts are left after this one. *)
Fixpoint load_attempts (retries : nat) (entity_id : EntityId) : Prog Op (Result (Loaded * Z)) :=
  await result := load_once entity_id in
  match result, retries with
  | Err error, S retries => if is_conflict error then load_attempts retries entity_id else Ret (Err error)
  | _, _ => Ret result
  end.

(** crates/evt/src/store.rs:1063-1102 [load_with_catch_up] *)
Definition load_with_catch_up (entity_id : EntityId) (catch_up_threshold : Z)
  : Prog Op (Result Loaded) :=
  await? loaded := load_attempts (LOAD_ATTEMPTS - 1) entity_id in
  if (0 <? catch_up_threshold) && (catch_up_threshold <=? loaded.2) then
    await loaded := catch_up_snapshot loaded.1 in Ret (Ok loaded)
  else Ret (Ok loaded.1).

(** ** The store *)

(** crates/evt/src/store.rs:46-56 [Store]

    The repository, the shared ledger and the commit-ID generator are reached through calls. *)
Record Store := mkStore {
  so_snapshot_interval : Z;
  so_catch_up_threshold : Z;
  so_projectors : list AggregateProjector;
  so_commit_projectors : list CommitProjector;
  so_outcomes : option OutcomeConfig;
  so_repository_name : string
}.

(** crates/evt/src/store.rs:202-204 [Store::snapshot_interval] *)
Definition store_snapshot_interval (s : Store) : Z :=
  default (so_snapshot_interval s) ag_SNAPSHOT_INTERVAL.

(** crates/evt/src/store.rs:234-236 [Store::load] *)
Definition store_load (s : Store) (entity_id : EntityId) : Prog Op (Result Loaded) :=
  load_with_catch_up entity_id (so_catch_up_threshold s).

(** crates/evt/src/store.rs:365-374 [Store::refuse_outcomes] *)
Definition refuse_outcomes (s : Store) (method : string) : Result unit :=
  match so_outcomes s with
  | Some _ =>
      Err (InvalidConfig
        (Fmt "this store records command outcomes: {method} would skip the outcome row; use execute_with_outcome (or a Transaction with begin_command)"
          [method]))
  | None => Ok tt
  end.

(** The history types the projectors name that are not declared yet, each once. *)
Definition pending_types (projectors : list CommitProjector) (declared : gset EntityType)
  : list EntityType :=
  fold_left
    (λ pending entity_type,
      if bool_decide (entity_type ∈ declared) || bool_decide (entity_type ∈ pending) then pending
      else pending ++ [entity_type])
    (concat (map pj_history projectors)) [].

(** crates/evt/src/projection.rs:716-757 [ready_projectors] *)
Definition ready_projectors (repository : string) (projectors : list CommitProjector)
  : Prog Op (Result unit) :=
  if nil_b projectors then Ret (Ok tt)
  else
    await writes := call QWritesViews in
    if negb writes then Ret (Err (ViewsUnsupported repository))
    else
      await declared := call QLedger in
      let pending := pending_types projectors declared in
      if nil_b pending then Ret (Ok tt)
      else
        await? done := call (QDeclareHistory pending) in
        await extended := call (QLedgerExtend pending) in
        Ret (Ok tt).

(** crates/evt/src/store.rs:1323-1352 [serialize_events] *)
Fixpoint serialize_events (entity_id : EntityId) (sequence : EventSequence)
    (events : list ag_event) (metadata : Metadata) : Result (list SerializedEvent) :=
  match events with
  | [] => Ok []
  | event :: rest =>
      let? sequence :=
        ok_or (checked_next sequence)
          (InvalidCommit (Fmt "entity {entity_id} is at the maximum event sequence" [entity_id])) in
      let? payload := ag_to_payload event in
      let serialized :=
        mkEvent (for_event entity_id sequence) sequence (ag_event_type event)
          (ag_event_version event) entity_id ag_TYPE payload metadata in
      let? rest := serialize_events entity_id sequence rest metadata in
      Ok (serialized :: rest)
  end.

(** crates/evt/src/store.rs:1357-1377 [stamp_commit_id] *)
Definition stamp_commit_id (metadata : Metadata) : Prog Op Metadata :=
  match non_empty (md_command_id metadata) with
  | Some command_id => Ret (with_commit_id metadata command_id)
  | None =>
      if is_empty (md_commit_id metadata) then
        await commit_id := call QCommitId in Ret (with_commit_id metadata commit_id)
      else Ret metadata
  end.
End store.
Arguments Loaded {A}.
Arguments Store {A} Op.

Section execute.
Context `{SerdeJson} `{A : Aggregate} {Op : Type}.
Implicit Types s : Store Op.

(** ** Staging *)

(** crates/evt/src/store.rs:398-406 [Store::stage]

    The operations of the aggregate's own projectors. *)
Definition project_all (s : Store Op) (entity_id : EntityId) (aggregate : ag_state)
    (events : list ag_event) : Result (list Op) :=
  let? groups :=
    collect (λ projector : AggregateProjector, map_err Projector (projector entity_id aggregate events))
      (so_projectors s) in
  Ok (concat groups).

(** crates/evt/src/store.rs:388-468 [Store::stage]

    What follows the stamp: the commit and the aggregate after it. *)
Definition stage_stamped (s : Store Op) (loaded : Loaded) (events : list ag_event)
    (metadata stamped : Metadata) : Result (Loaded * Commit Op) :=
  let? serialized :=
    serialize_events (ld_entity_id loaded) (ld_sequence loaded) events stamped in
  let snapshot_due :=
    0 <? snapshot_events_due (ld_sequence loaded) (llen events) (store_snapshot_interval s) in
  let aggregate := fold_left ag_apply events (ld_aggregate loaded) in
  let? operations :=
    if nil_b (so_projectors s) then Ok []
    else project_all s (ld_entity_id loaded) aggregate events in
  let? state :=
    if snapshot_due || negb (nil_b (so_commit_projectors s)) then
      let? state := ag_to_json aggregate in Ok (Some state)
    else Ok None in
  let? views :=
    if nil_b (so_commit_projectors s) then Ok []
    else
      project_application (so_commit_projectors s)
        (mkCommitView (md_commit_id stamped)
          [commit_stream_new (ld_entity_id loaded) ag_TYPE serialized (default "" state)]) in
  let? snapshot :=
    match snapshot_due, last serialized with
    | true, Some last =>
        within_budget
          (mkNewSnapshot ag_TYPE (next (ld_snapshot_sequence loaded)) (default "" state))
          (ld_entity_id loaded) (ev_sequence last)
    | _, _ => Ok None
    end in
  Ok (mkLoaded (ld_entity_id loaded) aggregate
        (match last serialized with Some last => ev_sequence last | None => ld_sequence loaded end)
        (match snapshot with
         | Some snapshot => ns_sequence snapshot
         | None => ld_snapshot_sequence loaded
         end)
        (add_seen (ld_seen_command_ids loaded) (md_command_id metadata)),
      mkCommit (ld_entity_id loaded) serialized snapshot operations views None).

(** crates/evt/src/store.rs:380-469 [Store::stage] *)
Definition stage (s : Store Op) (loaded : Loaded) (events : list ag_event) (metadata : Metadata)
  : Prog Op (Result (Loaded * Commit Op)) :=
  await stamped := stamp_commit_id metadata in
  Ret (stage_stamped s loaded events metadata stamped).

(** ** Executing without outcomes *)

Definition duplicate_of (loaded : Loaded) (metadata : Metadata) : option CommandId :=
  match md_command_id metadata with
  | Some command_id => if has_seen loaded command_id then Some command_id else None
  | None => None
  end.

(** crates/evt/src/store.rs:356-363 [Store::ready_projectors] *)
Definition store_ready_projectors (s : Store Op) : Prog Op (Result unit) :=
  ready_projectors (so_repository_name s) (so_commit_projectors s).

(** crates/evt/src/store.rs:326-351 [Store::commit] *)
Definition store_commit (s : Store Op) (loaded : Loaded) (events : list ag_event)
    (metadata : Metadata) : Prog Op (Result (Loaded * list SerializedEvent)) :=
  match refuse_outcomes s "commit" with
  | Err error => Ret (Err error)
  | Ok _ =>
      match duplicate_of loaded metadata with
      | Some command_id => Ret (Err (DuplicateCommand command_id))
      | None =>
          if nil_b events then Ret (Ok (loaded, []))
          else
            await? ready := store_ready_projectors s in
            await? staged := stage s loaded events metadata in
            await? receipt := call (QCommit staged.2) in
            Ret (Ok (staged.1, receipt))
      end
  end.

(** crates/evt/src/store.rs:1291-1298 [Executed] *)
Record Executed := mkExecuted {
  ex_state : Loaded;
  ex_events : list SerializedEvent
}.

(** crates/evt/src/store.rs:250-275 [Store::execute] *)
Definition execute (s : Store Op) (entity_id : EntityId) (command : ag_command)
    (metadata : Metadata) : Prog Op (result Executed (ExecuteError ag_error)) :=
  match refuse_outcomes s "execute" with
  | Err error => Ret (Err (ExStore error))
  | Ok _ =>
      await? loaded := map_err_prog ExStore (store_load s entity_id) in
      match duplicate_of loaded metadata with
      | Some command_id => Ret (Err (ExStore (DuplicateCommand command_id)))
      | None =>
          match ag_handle (ld_aggregate loaded) command with
          | Err error => Ret (Err (ExRejected error))
          | Ok events =>
              await? committed := map_err_prog ExStore (store_commit s loaded events metadata) in
              Ret (Ok (mkExecuted committed.1 committed.2))
          end
      end
  end.

(** crates/evt/src/store.rs:303-314 [Store::execute_with_retry]

    The loop, at its [retry]-th repetition. *)
Fixpoint execute_loop (fuel : nat) (s : Store Op) (entity_id : EntityId) (command : ag_command)
    (metadata : Metadata) (policy : RetryPolicy) (retry : Z)
  : Prog Op (result Executed (ExecuteError ag_error)) :=
  match fuel with
  | O => OutOfFuel
  | S fuel =>
      await result := execute s entity_id command metadata in
      match result with
      | Err err =>
          if execute_error_is_retryable err && (retry + 1 <? Z.max (rp_max_attempts policy) 1) then
            await random := call QRandom in
            match delay policy retry random with
            | None => Panic
            | Some delay =>
                await slept := call (QBackoff delay) in
                execute_loop fuel s entity_id command metadata policy (retry + 1)
            end
          else Ret result
      | Ok _ => Ret result
      end
  end.

(** crates/evt/src/store.rs:286-315 [Store::execute_with_retry]

    The caller's sleep is a wait; there are at most [max_attempts] attempts. *)
Definition execute_with_retry (s : Store Op) (entity_id : EntityId) (command : ag_command)
    (metadata : Metadata) (policy : RetryPolicy)
  : Prog Op (result Executed (ExecuteError ag_error)) :=
  execute_loop (Z.to_nat (Z.max (rp_max_attempts policy) 1)) s entity_id command metadata policy 0.

(** ** Executing with outcomes *)

Context (row_message : RowTooLarge → string).

(** crates/evt/src/error.rs:769-778 [RowTooLarge::to_rejection]

    [row_message] is the row's display text. *)
Definition row_to_rejection (row : RowTooLarge) : Rejection :=
  with_details (Rejection_new "journal-row-too-large" (row_message row))
    (VObject [("eventId"%string, VString (rt_event_id row));
              ("limit"%string, VNumber (show (rt_limit row)));
              ("scope"%string, VString (rt_scope row));
              ("size"%string, VNumber (show (rt_size row)))]).

(** crates/evt/src/store.rs:1302-1309 [split_receipt] *)
Definition split_receipt (result : Result (list SerializedEvent))
  : Result unit * list SerializedEvent :=
  match result with
  | Ok events => (Ok tt, events)
  | Err error => (Err error, [])
  end.

(** crates/evt/src/store.rs:1315-1320 [with_response] *)
Definition with_response (outcome : Outcome) (response : option string) : Outcome :=
  match response with
  | Some response => outcome_with_response outcome response
  | None => outcome
  end.

(** crates/evt/src/store.rs:1311-1313 [response_error] *)
Definition response_error (err : string) : Error :=
  InvalidArgument (Fmt "the response callback failed: {err}" [err]).

Definition recovery_window (s : Store Op) : Z :=
  match so_outcomes s with Some config => oc_recovery_wait config | None => 0 end.

(** crates/evt/src/store.rs:863-884 [Store::record] *)
Definition record (s : Store Op) (commit : Commit Op) (typed_events : list ag_event)
  : Prog Op (Result (CommandOutcome ag_event)) :=
  match stored_outcome commit with
  | None => Panic
  | Some stored =>
      await receipt := call (QCommit commit) in
      let '(result, committed) := split_receipt receipt in
      await? settled :=
        settle (oc_command_id stored) (oc_digest stored) (recovery_window s) result in
      Ret (Ok (settled_outcome settled stored committed typed_events))
  end.

Definition with_commit_outcome (commit : Commit Op) (outcome : Outcome) : Commit Op :=
  mkCommit (cm_entity_id commit) (cm_events commit) (cm_snapshot commit) (cm_operations commit)
    (cm_views commit) (Some outcome).

(** What a command answers with, computed from the aggregate and its events. *)
Definition Respond : Type := ag_state → list ag_event → result (option string) string.

(** crates/evt/src/store.rs:659-692 [Store::attempt_with_response]

    The handler refused the command. *)
Definition attempt_rejected (s : Store Op) (loaded : Loaded) (metadata : Metadata)
    (pending : PendingCommand) (error : ag_error)
  : Prog Op (result (CommandOutcome ag_event) Failed) :=
  match ag_to_rejection error with
  | None => Ret (Err (failed_internal (Handler (ag_box error))))
  | Some rejection =>
      match canonical_rejection rejection with
      | Err err => Ret (Err (failed_internal err))
      | Ok rejection =>
          let outcome := pending_rejected pending rejection in
          let failure_events := ag_rejection_events (ld_aggregate loaded) error in
          if nil_b failure_events then
            map_err_prog failed_committing
              (record s (with_commit_outcome (commit_new (ld_entity_id loaded) []) outcome) [])
          else
            await? ready := map_err_prog failed_internal (store_ready_projectors s) in
            await? staged := map_err_prog failed_internal (stage s loaded failure_events metadata) in
            map_err_prog failed_committing
              (record s (with_commit_outcome staged.2 outcome) failure_events)
      end
  end.

(** crates/evt/src/store.rs:696-722 [Store::attempt_with_response]

    The handler accepted the command. *)
Definition attempt_accepted (s : Store Op) (loaded : Loaded) (metadata : Metadata)
    (pending : PendingCommand) (respond : Respond) (events : list ag_event)
  : Prog Op (result (CommandOutcome ag_event) Failed) :=
  if nil_b events then
    match respond (ld_aggregate loaded) [] with
    | Err err => Ret (Err (failed_internal (response_error err)))
    | Ok response =>
        map_err_prog failed_committing
          (record s
            (with_commit_outcome (commit_new (ld_entity_id loaded) [])
              (with_response (pending_accepted pending) response)) events)
    end
  else
    await? ready := map_err_prog failed_internal (store_ready_projectors s) in
    await? staged := map_err_prog failed_internal (stage s loaded events metadata) in
    match respond (ld_aggregate staged.1) events with
    | Err err => Ret (Err (failed_internal (response_error err)))
    | Ok response =>
        map_err_prog failed_committing
          (record s
            (with_commit_outcome staged.2 (with_response (pending_accepted pending) response))
            events)
    end.

(** crates/evt/src/store.rs:625-723 [Store::attempt_with_response] *)
Definition attempt_with_response (s : Store Op) (entity_id : EntityId) (command : ag_command)
    (metadata : Metadata) (pending : PendingCommand) (respond : Respond)
  : Prog Op (result (CommandOutcome ag_event) Failed) :=
  await? stored :=
    map_err_prog failed_deciding (pre_check (pc_command_id pending) (pc_digest pending)) in
  match stored with
  | Some stored => Ret (Ok (outcome_replay stored))
  | None =>
      await? loaded := map_err_prog failed_deciding (store_load s entity_id) in
      if has_seen loaded (pc_command_id pending) then
        Ret (Err (failed_internal (DuplicateCommand (pc_command_id pending))))
      else
        match ag_handle (ld_aggregate loaded) command with
        | Err error => attempt_rejected s loaded metadata pending error
        | Ok events => attempt_accepted s loaded metadata pending respond events
        end
  end.

(** crates/evt/src/store.rs:569-620 [Store::execute_with_response] *)
Fixpoint response_loop (fuel : nat) (s : Store Op) (config : OutcomeConfig) (entity_id : EntityId)
    (command : ag_command) (metadata : Metadata) (pending : PendingCommand) (respond : Respond)
    (budget : Budget) : Prog Op (Result (CommandOutcome ag_event)) :=
  match fuel with
  | O => OutOfFuel
  | S fuel =>
      await result := attempt_with_response s entity_id command metadata pending respond in
      match result with
      | Ok outcome => Ret (Ok outcome)
      | Err failed =>
          match fa_error failed with
          | JournalRowTooLarge row =>
              persist_rejection pending (oc_recovery_wait config) (row_to_rejection row)
          | error =>
              match failed_retry failed with
              | Never => Ret (Err error)
              | kind =>
                  await random := call QRandom in
                  await now := call QClock in
                  match budget_next budget now random with
                  | None => Panic
                  | Some (budget, None) =>
                      if bool_decide (kind = RetryTransient) then Ret (Err error)
                      else
                        persist_rejection pending (oc_recovery_wait config)
                          (config_stale_fence config (retries_exhausted (bu_attempt budget)))
                  | Some (budget, Some delay) =>
                      await slept := call (QBackoff delay) in
                      response_loop fuel s config entity_id command metadata pending respond budget
                  end
              end
          end
      end
  end.

(** crates/evt/src/store.rs:537-567 [Store::execute_with_response]

    What the call checks and freezes before the first attempt. *)
Definition freeze (s : Store Op) (entity_id : EntityId) (command : ag_command)
    (metadata : Metadata) : Result (OutcomeConfig * PendingCommand) :=
  let? config :=
    ok_or (so_outcomes s)
      (InvalidConfig (Fmt "command outcomes are not enabled; call with_outcomes" [])) in
  check? check_targets [entity_id];
  let? command_id := require_command_id metadata in
  let? payload :=
    map_err (λ err, InvalidArgument (Fmt "the command payload: {err}" [err]))
      (ag_canonical_payload command) in
  let input :=
    mkDigestInput (ag_command_type command) [entity_id] (default "" payload)
      (principal metadata) in
  let? pending := pending_new config command_id input metadata in
  Ok (config, pending).

(** crates/evt/src/store.rs:537-621 [Store::execute_with_response]

    Every repetition spends an attempt, so the budget's attempts are enough. *)
Definition execute_with_response (s : Store Op) (entity_id : EntityId) (command : ag_command)
    (metadata : Metadata) (respond : Respond) : Prog Op (Result (CommandOutcome ag_event)) :=
  match freeze s entity_id command metadata with
  | Err error => Ret (Err error)
  | Ok (config, pending) =>
      await started := call QClock in
      response_loop (Z.to_nat (Z.max (rp_max_attempts (oc_retry config)) 1)) s config entity_id
        command metadata pending respond (budget_new (oc_retry config) started)
  end.

(** crates/evt/src/store.rs:516-529 [Store::execute_with_outcome] *)
Definition execute_with_outcome (s : Store Op) (entity_id : EntityId) (command : ag_command)
    (metadata : Metadata) : Prog Op (Result (CommandOutcome ag_event)) :=
  execute_with_response s entity_id command metadata (λ _ _, Ok None).

(** ** Resolving outcomes *)

(** crates/evt/src/store.rs:855-859 [Store::outcomes_config] *)
Definition outcomes_config (s : Store Op) : Result OutcomeConfig :=
  ok_or (so_outcomes s)
    (InvalidConfig (Fmt "command outcomes are not enabled; call with_outcomes" [])).

(** crates/evt/src/store.rs:845-853 [Store::resolve] *)
Definition resolve (s : Store Op) (identity : CommandIdentity) (metadata : Metadata)
  : Prog Op (Result (option Outcome)) :=
  match (let? config := outcomes_config s in freeze_command config identity metadata) with
  | Err error => Ret (Err error)
  | Ok pending => pre_check (pc_command_id pending) (pc_digest pending)
  end.

(** crates/evt/src/store.rs:781-790 [Store::resolve_command] *)
Definition resolve_command (s : Store Op) (identity : CommandIdentity) (metadata : Metadata)
  : Prog Op (Result (option (CommandOutcome unit))) :=
  await? stored := resolve s identity metadata in
  Ret (Ok (option_map outcome_replay stored)).

(** crates/evt/src/store.rs:809-842 [Store::resolve_command_for_principal] *)
Definition resolve_command_for_principal (s : Store Op) (command_id : CommandId)
    (principal : option string) : Prog Op (Result (option (CommandOutcome unit))) :=
  match (check? match outcomes_config s with Ok _ => Ok tt | Err e => Err e end;
         check? check_command_id command_id;
         match non_empty principal with
         | Some principal =>
             check_metadata
               (mkMetadata None None None None "" "" (Some principal) None ∅ "")
         | None => Ok tt
         end) with
  | Err error => Ret (Err error)
  | Ok _ =>
      await? stored := call (QOutcome command_id) in
      Ret match stored with
          | None => Ok None
          | Some stored =>
              match oc_identity stored with
              | None => Err (OutcomePrincipalMismatch command_id false)
              | Some identity =>
                  if bool_decide (ri_principal identity = non_empty principal) then
                    Ok (Some (outcome_replay stored))
                  else Err (OutcomePrincipalMismatch command_id true)
              end
          end
  end.
End execute.
Arguments Executed {A}.
