(* ===== verification/RebuildBatch.v ===== *)
(** * Rebuild writes

    [rebuild.rs]'s batching: the rule a batch of rebuilt view operations obeys, and how a
    sequence of operations is cut into batches that obey it. *)

From S2P Require Import Prelude Types Features Outcome Rebuild Wire Projection Repository Samples.

(** crates/evt/src/rebuild.rs:581-596 [check_view_batch] *)
Definition check_view_batch (views : list ProjectedView) : Result unit :=
  if nil_b views then
    Err (InvalidArgument (Fmt "a rebuild write carries at least one view operation" []))
  else
    check? check_views views;
    check_budget (view_sizes views ++ [lock_check_size]).

(** crates/evt/src/rebuild.rs:609-618 [rebuild_batches]

    The inner loop, over the operations not yet taken: how many more it takes. *)
Fixpoint batch_end (end_ : nat) (bytes : Z) (rest : list ProjectedView) : nat :=
  match rest with
  | [] => end_
  | view :: rest =>
      if Z.of_nat end_ <? MAX_REBUILD_VIEW_BATCH then
        let size := view_operation_size (pv_op view) in
        if (0 <? Z.of_nat end_) && (MAX_COMMIT_BYTES <? bytes + size) then end_
        else batch_end (S end_) (bytes + size) rest
      else end_
  end.

(** crates/evt/src/rebuild.rs:601-625 [rebuild_batches]

    [fuel] bounds the number of batches; a batch is never empty, so the number of operations
    is enough. *)
Fixpoint rebuild_batches_from (fuel : nat) (rest : list ProjectedView)
  : list (list ProjectedView) :=
  match fuel with
  | O => []
  | S fuel =>
      if nil_b rest then []
      else
        let end_ := batch_end 0 lock_check_size rest in
        take end_ rest :: rebuild_batches_from fuel (drop end_ rest)
  end.

Definition rebuild_batches (views : list ProjectedView) : list (list ProjectedView) :=
  rebuild_batches_from (length views) views.

(** ** Lemmas *)

Lemma view_operation_size_nonneg op : 0 ≤ view_operation_size op.
Proof. unfold view_operation_size, slen. destruct (vo_kind op); lia. Qed.

Lemma view_sizes_nonneg views : Forall (λ size, 0 ≤ size) (view_sizes views).
Proof.
  unfold view_sizes. apply Forall_forall. intros size (v & -> & _)%list_elem_of_fmap.
  apply view_operation_size_nonneg.
Qed.

Definition bytes_of (views : list ProjectedView) : Z := sumZ (view_sizes views).

(** Where a batch ends: it takes operations while both limits hold, and at least one. *)
Lemma batch_end_spec rest : ∀ taken bytes,
  Z.of_nat taken ≤ MAX_REBUILD_VIEW_BATCH →
  (Z.of_nat taken ≤ 1 ∨ bytes ≤ MAX_COMMIT_BYTES) →
  ∃ more, batch_end taken bytes rest = (taken + more)%nat ∧ (more ≤ length rest)%nat ∧
    Z.of_nat (taken + more) ≤ MAX_REBUILD_VIEW_BATCH ∧
    (taken = 0%nat → rest ≠ [] → (0 < more)%nat) ∧
    (Z.of_nat (taken + more) ≤ 1 ∨ bytes + bytes_of (take more rest) ≤ MAX_COMMIT_BYTES).
Proof.
  unfold bytes_of. induction rest as [|view rest IH]; intros taken bytes Hmax Hb; simpl.
  { exists 0%nat. rewrite Nat.add_0_r. simpl. split; [done|]. split; [lia|]. split; [done|].
    split; [done|]. rewrite Z.add_0_r. done. }
  destruct (Z.ltb_spec (Z.of_nat taken) MAX_REBUILD_VIEW_BATCH) as [Hlt|Hge].
  - destruct ((0 <? Z.of_nat taken) && _) eqn:Hstopped.
    + apply andb_prop in Hstopped as [Hpos _]. exists 0%nat. rewrite Nat.add_0_r. simpl.
      rewrite Z.add_0_r. repeat split; try done; lia.
    + destruct (IH (S taken) (bytes + view_operation_size (pv_op view)))
        as (more & Heq & Hlen & Hm & _ & Hbytes).
      * unfold MAX_REBUILD_VIEW_BATCH in *. lia.
      * apply andb_false_iff in Hstopped as [H0|H0]; lia.
      * exists (S more). rewrite Heq. replace (S taken + more)%nat with (taken + S more)%nat in *
          by lia. split; [done|]. split; [lia|]. split; [done|]. split; [lia|].
        simpl. rewrite Z.add_assoc. done.
  - exists 0%nat. rewrite Nat.add_0_r. simpl. rewrite Z.add_0_r.
    unfold MAX_REBUILD_VIEW_BATCH in *. repeat split; try done; lia.
Qed.

(** A batch the cutter makes. *)
Definition fits_batch (batch : list ProjectedView) : Prop :=
  batch ≠ [] ∧ llen batch ≤ MAX_REBUILD_VIEW_BATCH ∧
  (llen batch = 1 ∨ lock_check_size + bytes_of batch ≤ MAX_COMMIT_BYTES).

Lemma rebuild_batches_from_spec fuel : ∀ rest,
  (length rest ≤ fuel)%nat →
  concat (rebuild_batches_from fuel rest) = rest ∧ Forall fits_batch (rebuild_batches_from fuel rest).
Proof.
  induction fuel as [|fuel IH]; intros rest Hlen; simpl.
  { destruct rest; [by split; [|constructor]|simpl in Hlen; lia]. }
  destruct (nil_b rest) eqn:Hnil; [by destruct rest; [split; [|constructor]|]|].
  destruct (batch_end_spec rest 0 lock_check_size) as (more & Heq & Hml & Hmax & Hpos & Hbytes);
    [vm_compute; discriminate|left; lia|].
  rewrite Nat.add_0_l in *. specialize (Hpos eq_refl). assert (rest ≠ []) as Hne by (by destruct rest).
  specialize (Hpos Hne). clear Hnil. cbv zeta. rewrite Heq.
  destruct (IH (drop more rest)) as [Hcat Hall]; [rewrite length_drop; lia|].
  split; [cbn [concat]; by rewrite Hcat, take_drop|]. constructor; [|done].
  unfold fits_batch, llen. rewrite length_take, Nat.min_l by lia.
  split; [intros Hnil; apply (f_equal length) in Hnil; rewrite length_take in Hnil; simpl in Hnil; lia|].
  split; [done|]. destruct Hbytes as [Hone|Hb]; [left; lia|by right].
Qed.

Lemma NoDup_concat_elem {A} (ls : list (list A)) l : NoDup (concat ls) → l ∈ ls → NoDup l.
Proof.
  induction ls as [|l' ls IH]; intros Hnd Hin; [by apply not_elem_of_nil in Hin|].
  simpl in Hnd. apply NoDup_app in Hnd as (H1 & _ & H2).
  apply elem_of_cons in Hin as [->|Hin]; [done|by apply IH].
Qed.

(** A batch of a checked sequence is a checked batch. *)
Lemma check_views_batch views batches batch :
  concat batches = views → batch ∈ batches → check_views views = Ok tt → check_views batch = Ok tt.
Proof.
  intros <- Hin [Hall Hnd]%check_views_ok. apply check_views_ok. split.
  - apply Forall_forall. intros v Hv. rewrite Forall_forall in Hall. apply Hall.
    apply list_elem_of_In, in_concat. exists batch. by rewrite <-!list_elem_of_In.
  - unfold view_keys in *. rewrite concat_map in Hnd. eapply NoDup_concat_elem; [exact Hnd|].
    by apply (list_elem_of_fmap_2 (map (λ view, view_op_key (pv_op view)))).
Qed.

(** ** Properties *)


