(* ===== verification/Mem.v ===== *)
(** * The in-memory repository

    [mem.rs]: the reference backend. Its handles share one store (streams, views, outcomes, the
    manifest and the rebuild fence); each handle keeps the marker it last validated. Every
    operation holds the locks it needs from start to end, so an operation is one step of the
    store. *)

From S2P Require Import Prelude Types Features Outcome Rebuild Wire Projection Repository.
From S2P Require Import RebuildBatch.

(** crates/evt/src/mem.rs:77-84 [Stream] *)
Record Stream := mkStream {
  st_events : gmap EventSequence SerializedEvent;
  st_snapshot : option SerializedSnapshot;
  st_head : EventSequence
}.

(** [Stream::default()]. *)
Definition Stream_default : Stream := mkStream ∅ None 0.

(** The fields every handle shares, each behind its own lock. *)
Record MemStore := mkMemStore {
  ms_streams : gmap EntityId Stream;
  ms_views : gmap (string * string) ViewRow;
  ms_outcomes : gmap CommandId Outcome;
  ms_manifest : option FeatureManifest;
  ms_rebuild : RebuildState
}.

(** crates/evt/src/mem.rs:42-60 [MemRepository]

    The clock is read where it is used: the operations that need it take the second it shows. *)
Record MemRepository := mkMemRepository {
  mr_store : MemStore;
  mr_validated : CachedMarker;
  mr_journaling : bool
}.

(** crates/evt/src/mem.rs:131-133 [MemRepository::new] *)
Definition mem_new : MemRepository :=
  mkMemRepository (mkMemStore ∅ ∅ ∅ None RebuildState_default) None false.

Definition set_streams (s : MemStore) (streams : gmap EntityId Stream) : MemStore :=
  mkMemStore streams (ms_views s) (ms_outcomes s) (ms_manifest s) (ms_rebuild s).
Definition set_views (s : MemStore) (views : gmap (string * string) ViewRow) : MemStore :=
  mkMemStore (ms_streams s) views (ms_outcomes s) (ms_manifest s) (ms_rebuild s).
Definition set_manifest (s : MemStore) (manifest : option FeatureManifest) : MemStore :=
  mkMemStore (ms_streams s) (ms_views s) (ms_outcomes s) manifest (ms_rebuild s).
Definition set_rebuild (s : MemStore) (rebuild : RebuildState) : MemStore :=
  mkMemStore (ms_streams s) (ms_views s) (ms_outcomes s) (ms_manifest s) rebuild.
Definition with_store (r : MemRepository) (s : MemStore) : MemRepository :=
  mkMemRepository s (mr_validated r) (mr_journaling r).
Definition with_validated (r : MemRepository) (v : CachedMarker) : MemRepository :=
  mkMemRepository (mr_store r) v (mr_journaling r).

(** An operation that reads and writes the repository, and may fail. *)
Definition Op (A : Type) : Type := MemRepository → MemRepository * Result A.

(** ** Streams *)

(** [events.keys().next_back()]. *)
Definition last_key (events : gmap EventSequence SerializedEvent) : option EventSequence :=
  List.last (map (λ e : Z * SerializedEvent, Some e.1) (btree_entries Z.leb events)) None.

(** [events.values().next()]. *)
Definition first_value (events : gmap EventSequence SerializedEvent) : option SerializedEvent :=
  match btree_entries Z.leb events with
  | [] => None
  | e :: _ => Some e.2
  end.

(** crates/evt/src/mem.rs:87-93 [Stream::entity_type] *)
Definition stream_entity_type (s : Stream) : option EntityType :=
  match first_value (st_events s) with
  | Some event => Some (ev_entity_type event)
  | None => match st_snapshot s with
            | Some snapshot => Some (sn_entity_type snapshot)
            | None => None
            end
  end.

(** crates/evt/src/mem.rs:97-106 [Stream::derived_head] *)
Definition derived_head (s : Stream) : EventSequence :=
  let last_event := default 0 (last_key (st_events s)) in
  let snapshot := match st_snapshot s with Some s => sn_event_sequence s | None => 0 end in
  Z.max last_event snapshot.

(** crates/evt/src/mem.rs:108-110 [Stream::holds_data] *)
Definition holds_data (s : Stream) : bool :=
  negb (bool_decide (st_events s = ∅)) || match st_snapshot s with Some _ => true | None => false end.

(** crates/evt/src/mem.rs:115-126 [Stream::probe] *)
Definition probe (s : Stream) (entity_id : EntityId) (healthy : EventSequence → Error) : Error :=
  let stored := st_head s in
  let derived := derived_head s in
  let verdict :=
    match probe_first stored derived with
    | Ahead => after_rederive stored (derived_head s)
    | other => other
    end in
  match verdict with
  | Settled => if stored =? derived then healthy stored else drift entity_id stored derived
  | _ => drift entity_id stored derived
  end.

(** [streams.values().any(Stream::holds_data)]. *)
Definition any_data (streams : gmap EntityId Stream) : bool :=
  existsb (λ e : EntityId * Stream, holds_data e.2) (map_to_list streams).

(** The manifest that declares stream heads on a store without any. *)
Definition declared (stored : option FeatureManifest) : FeatureManifest :=
  with_version (declare_stream_heads (default FeatureManifest_default stored))
    match stored with Some m => i64_add (fm_version m) 1 | None => 1 end.

(** crates/evt/src/mem.rs:244-269 [MemRepository::check_manifest]

    The manifest and the validated marker after a check that passed. *)
Definition check_manifest (r : MemRepository) : Result (option FeatureManifest * CachedMarker) :=
  let stored := ms_manifest (mr_store r) in
  if marker_matches (mr_validated r) stored then Ok (stored, mr_validated r)
  else
    match validate_marker_for_write stored (mr_journaling r) with
    | Ok marker => Ok (stored, Some marker)
    | Err StreamHeadsNotMigrated =>
        if any_data (ms_streams (mr_store r)) then Err StreamHeadsNotMigrated
        else
          let next := declared stored in
          Ok (Some next, Some (MarkerVersion (fm_version next)))
    | Err error => Err error
    end.

(** ** View rows *)

(** crates/evt/src/mem.rs:425-435 [check_view_conditions]

    Whether one operation's conditions hold of the stored rows. *)
Definition view_condition_held (rows : gmap (string * string) ViewRow) (op : ViewOperation)
  : bool :=
  let stored := rows !! view_op_key op in
  let owned :=
    match stored with Some row => bool_decide (vr_entity_id row = vo_owner op) | None => true end in
  let present := match stored with Some _ => true | None => false end in
  match vo_condition op with
  | CondNone => owned
  | CondAbsent => negb present
  | CondPresent => present && owned
  end
  && match vo_expected_payload op with
     | None => true
     | Some expected =>
         match stored with
         | Some row => owned && bool_decide (vr_payload row = expected)
         | None => false
         end
     end.

(** crates/evt/src/mem.rs:420-445 [check_view_conditions] *)
Definition check_view_conditions (rows : gmap (string * string) ViewRow)
    (views : list ProjectedView) : Result unit :=
  check_each
    (λ view, if view_condition_held rows (pv_op view) then Ok tt
             else Err (ProjectorOperation (condition_failed view)))
    views.

Definition apply_view (rows : gmap (string * string) ViewRow) (op : ViewOperation)
  : gmap (string * string) ViewRow :=
  match vo_kind op with
  | Put => <[view_op_key op := view_row_of op]> rows
  | Delete => delete (view_op_key op) rows
  end.

(** crates/evt/src/mem.rs:448-461 [apply_views] *)
Definition apply_views (rows : gmap (string * string) ViewRow) (views : list ProjectedView)
  : gmap (string * string) ViewRow :=
  fold_left (λ rows view, apply_view rows (pv_op view)) views rows.

(** ** Writing *)

(** [stored.get(&entity_id).unwrap_or(&absent)]. *)
Definition stream_at (streams : gmap EntityId Stream) (entity_id : EntityId) : Stream :=
  default Stream_default (streams !! entity_id).

Section write.
Context {X : Type}.
Abbreviation Commit := (Commit X).

(** [first <= 1 ? head == 0 : head == first - 1]. *)
Definition head_passes (held : Stream) (first : EventSequence) : bool :=
  if first <=? 1 then st_head held =? 0 else st_head held =? first - 1.

Definition events_pass (held : Stream) (events : list SerializedEvent) : bool :=
  forallb (λ event, bool_decide (st_events held !! ev_sequence event = None)) events.

(** crates/evt/src/mem.rs:317-360 [MemRepository::write]

    The failure one written stream contributes. *)
Definition stream_failure (streams : gmap EntityId Stream) (stream : Commit) : list Error :=
  match cm_events stream with
  | [] => []
  | first_event :: _ =>
      let held := stream_at streams (cm_entity_id stream) in
      let first := ev_sequence first_event in
      if negb (head_passes held first) then
        [probe held (cm_entity_id stream) (λ stored, gap_or_conflict (cm_entity_id stream) first stored)]
      else if negb (events_pass held (cm_events stream)) then
        [drift (cm_entity_id stream) (st_head held) (derived_head held)]
      else
        match cm_snapshot stream with
        | Some new =>
            let stored_sequence :=
              match st_snapshot held with Some existing => sn_sequence existing | None => 0 end in
            if negb (next stored_sequence =? ns_sequence new) then
              [Conflict (cm_entity_id stream)
                (Fmt "snapshot sequence moved: stored {stored_sequence}, commit writes {}"
                  [show stored_sequence; show (ns_sequence new)])]
            else []
        | None => []
        end
  end.

(** crates/evt/src/mem.rs:362-375 [MemRepository::write] *)
Definition fence_failure (streams : gmap EntityId Stream) (written : list Commit)
    (fence : ReadFence) : list Error :=
  if existsb (λ stream, has_events stream
                        && bool_decide (cm_entity_id stream = fe_entity_id fence)) written then []
  else
    let held := stream_at streams (fe_entity_id fence) in
    if negb (st_head held =? fe_head fence) then
      [probe held (fe_entity_id fence) (λ _, fence_conflict fence)]
    else [].

(** crates/evt/src/mem.rs:386-406 [MemRepository::write]

    One written stream: its events, its head, and its snapshot. *)
Definition apply_stream (streams : gmap EntityId Stream) (stream : Commit)
  : gmap EntityId Stream :=
  match last_event (cm_events stream) with
  | None => streams
  | Some last =>
      let held := stream_at streams (cm_entity_id stream) in
      let events :=
        fold_left (λ events event, <[ev_sequence event := event]> events)
          (cm_events stream) (st_events held) in
      let head := Z.max (st_head held) (ev_sequence last) in
      let snapshot :=
        match cm_snapshot stream with
        | Some snapshot => Some (snapshot_of (cm_entity_id stream) snapshot (ev_sequence last))
        | None => st_snapshot held
        end in
      <[cm_entity_id stream := mkStream events snapshot head]> streams
  end.

Definition apply_streams (streams : gmap EntityId Stream) (written : list Commit)
  : gmap EntityId Stream :=
  fold_left apply_stream written streams.

(** crates/evt/src/mem.rs:287-412 [MemRepository::write]

    The checks and the write that follow the marker check, with every lock held. *)
Definition write_locked (s : MemStore) (streams : list Commit) (fences : list ReadFence)
    (views : list ProjectedView) (outcome : option Outcome)
    (check_retention : option FeatureManifest → Result unit) : Result MemStore :=
  check? check_retention (ms_manifest s);
  check? (if in_progress (ms_rebuild s) || negb (is_settled (rs_generation (ms_rebuild s))) then
            Err RebuildInProgress
          else Ok tt);
  check? match outcome with
         | Some outcome =>
             if bool_decide (is_Some (ms_outcomes s !! oc_command_id outcome)) then
               Err (OutcomeConflict (oc_command_id outcome))
             else Ok tt
         | None => Ok tt
         end;
  let failures :=
    concat (map (stream_failure (ms_streams s)) streams)
    ++ concat (map (fence_failure (ms_streams s) streams) fences) in
  check? match rank failures with Some error => Err error | None => Ok tt end;
  check? check_view_conditions (ms_views s) views;
  Ok (mkMemStore (apply_streams (ms_streams s) streams) (apply_views (ms_views s) views)
    (match outcome with
     | Some outcome => <[oc_command_id outcome := outcome]> (ms_outcomes s)
     | None => ms_outcomes s
     end)
    (ms_manifest s) (ms_rebuild s)).

(** crates/evt/src/mem.rs:273-413 [MemRepository::write] *)
Definition mem_write (streams : list Commit) (fences : list ReadFence)
    (views : list ProjectedView) (outcome : option Outcome)
    (check_retention : option FeatureManifest → Result unit) : Op unit :=
  λ r,
    match check_manifest r with
    | Err error => (r, Err error)
    | Ok (manifest, validated) =>
        let r := with_validated (with_store r (set_manifest (mr_store r) manifest)) validated in
        match write_locked (mr_store r) streams fences views outcome check_retention with
        | Err error => (r, Err error)
        | Ok s => (with_store r s, Ok tt)
        end
    end.
End write.

Definition pure_op {A} (c : Result A) : Op A := λ r, (r, c).

(** Runs [k] only when the checks that precede it pass. *)
Definition guarded {A B} (c : Result A) (k : A → Op B) : Op B :=
  λ r, match c with
       | Ok a => k a r
       | Err error => (r, Err error)
       end.

Section repository.
Context `{SerdeJson}.

(** crates/evt/src/mem.rs:478-498 [MemRepository::commit] *)
Definition mem_commit (commit : Commit Empty_set) : Op unit :=
  guarded (check? validate commit; check_not_reserved (cm_entity_id commit)) (λ _,
    if nil_b (cm_events commit)
       && match cm_outcome commit with None => true | Some _ => false end then pure_op (Ok tt)
    else
      guarded
        (let? sizes := commit_sizes commit (λ _, None) in
         check_budget (sizes ++ view_sizes (cm_views commit)))
        (λ _, mem_write [commit] [] (cm_views commit) (stored_outcome commit) (λ _, Ok tt))).

(** crates/evt/src/mem.rs:500-522 [MemRepository::commit_transaction] *)
Definition mem_commit_transaction (commit : TransactionCommit Empty_set) : Op unit :=
  guarded (normalize commit) (λ commit,
    if transaction_is_empty commit then pure_op (Ok tt)
    else
      guarded
        (let? sizes := transaction_sizes commit (λ _, None) in
         check_budget (sizes ++ view_sizes (tc_views commit)))
        (λ _, mem_write (tc_streams commit) (tc_fences commit) (tc_views commit)
                (transaction_stored_outcome commit)
                (λ manifest, check_retention commit manifest (λ _, false)))).
End repository.

(** crates/evt/src/mem.rs:524-530 [MemRepository::outcome] *)
Definition mem_outcome (s : MemStore) (command_id : CommandId) : Result (option Outcome) :=
  check? check_command_id command_id;
  Ok (ms_outcomes s !! command_id).

(** The stored events of a stream, in sequence order. *)
Definition stream_values (stream : Stream) : list SerializedEvent :=
  map snd (btree_entries Z.leb (st_events stream)).

(** crates/evt/src/mem.rs:536-553 [MemRepository::events_after] *)
Definition mem_events_after (s : MemStore) (entity_id : EntityId) (after : EventSequence)
  : list SerializedEvent :=
  match ms_streams s !! entity_id with
  | Some stream =>
      map snd (List.filter (λ e : Z * SerializedEvent, after <? e.1)
        (btree_entries Z.leb (st_events stream)))
  | None => []
  end.

(** crates/evt/src/mem.rs:532-534 [MemRepository::events] *)
Definition mem_events (s : MemStore) (entity_id : EntityId) : list SerializedEvent :=
  mem_events_after s entity_id 0.

(** crates/evt/src/mem.rs:555-568 [MemRepository::latest] *)
Definition mem_latest (s : MemStore) (entity_id : EntityId) (n : nat)
  : Result (list SerializedEvent) :=
  if bool_decide (n = 0%nat) then
    Err (InvalidArgument (Fmt "latest(n) requires at least one event: got n = 0" []))
  else
    Ok match ms_streams s !! entity_id with
       | Some stream => take n (reverse (stream_values stream))
       | None => []
       end.

(** crates/evt/src/mem.rs:570-575 [MemRepository::snapshot] *)
Definition mem_snapshot (s : MemStore) (entity_id : EntityId) : option SerializedSnapshot :=
  match ms_streams s !! entity_id with
  | Some stream => st_snapshot stream
  | None => None
  end.

(** crates/evt/src/mem.rs:577-609 [MemRepository::put_snapshot] *)
Definition mem_put_snapshot (snapshot : SerializedSnapshot) : Op bool :=
  guarded (check_not_reserved (sn_entity_id snapshot)) (λ _ r,
    match check_manifest r with
    | Err error => (r, Err error)
    | Ok (manifest, validated) =>
        let r := with_validated (with_store r (set_manifest (mr_store r) manifest)) validated in
        let streams := ms_streams (mr_store r) in
        let held := streams !! sn_entity_id snapshot in
        let head := match held with Some stream => st_head stream | None => 0 end in
        if (0 <? sn_event_sequence snapshot) && (head <? sn_event_sequence snapshot) then
          let derived :=
            Z.max (match held with Some stream => derived_head stream | None => 0 end)
              (sn_event_sequence snapshot) in
          (r, Err (drift (sn_entity_id snapshot) head derived))
        else if match held with
                | Some stream =>
                    match st_snapshot stream with
                    | Some existing => sn_event_sequence snapshot <? sn_event_sequence existing
                    | None => false
                    end
                | None => false
                end then (r, Ok false)
        else
          let stream := stream_at streams (sn_entity_id snapshot) in
          (with_store r (set_streams (mr_store r)
             (<[sn_entity_id snapshot :=
                mkStream (st_events stream) (Some snapshot) (st_head stream)]> streams)),
           Ok true)
    end).

(** crates/evt/src/mem.rs:628-662 [MemRepository::compact_below]

    The part that follows the marker check: the compacted stream and how many events went. *)
Definition compact_stream (s : MemStore) (entity_id : EntityId) (through : EventSequence)
  : Result (Stream * Z) :=
  match ms_streams s !! entity_id with
  | None => Err (CompactionUncovered entity_id through None)
  | Some stream =>
      let covered :=
        match st_snapshot stream with
        | Some snapshot => Some (sn_event_sequence snapshot)
        | None => None
        end in
      if match covered with Some covered => covered <? through | None => true end then
        Err (CompactionUncovered entity_id through covered)
      else
        check? match ms_manifest s, stream_entity_type stream with
               | Some manifest, Some entity_type =>
                   if is_history_dependent manifest entity_type then
                     Err (HistoryDependentProjection entity_type entity_id)
                   else Ok tt
               | _, _ => Ok tt
               end;
        let events := filter (λ e : Z * SerializedEvent, through < e.1) (st_events stream) in
        Ok (mkStream events (st_snapshot stream) (st_head stream),
            Z.of_nat (size (st_events stream)) - Z.of_nat (size events))
  end.

(** crates/evt/src/mem.rs:611-663 [MemRepository::compact_below] *)
Definition mem_compact_below (entity_id : EntityId) (through : EventSequence) : Op Z :=
  guarded (check_not_reserved entity_id) (λ _ r,
    if through <? 1 then (r, Ok 0)
    else
      match validate_marker_for_write (ms_manifest (mr_store r)) (mr_journaling r) with
      | Err error => (r, Err error)
      | Ok _ =>
          match compact_stream (mr_store r) entity_id through with
          | Err error => (r, Err error)
          | Ok (stream, removed) =>
              (with_store r (set_streams (mr_store r)
                 (<[entity_id := stream]> (ms_streams (mr_store r)))),
               Ok removed)
          end
      end).

(** crates/evt/src/mem.rs:665-680 [MemRepository::entity_heads] *)
Definition mem_entity_heads (s : MemStore) (entity_type : option EntityType)
  : gmap EntityId EventSequence :=
  map_imap
    (λ id stream,
      if negb (is_reserved id)
         && match entity_type with
            | None => true
            | Some wanted => bool_decide (stream_entity_type stream = Some wanted)
            end
         && (0 <? derived_head stream)
      then Some (derived_head stream) else None)
    (ms_streams s).

(** ** The manifest *)

(** crates/evt/src/mem.rs:684-686 [MemRepository::accept_journal] *)
Definition mem_accept_journal : Op unit :=
  λ r, (mkMemRepository (mr_store r) (mr_validated r) true, Ok tt).

(** crates/evt/src/mem.rs:692-706 [MemRepository::update_manifest] *)
Definition mem_update_manifest (change : FeatureManifest → FeatureManifest) : Op unit :=
  λ r,
    let stored := ms_manifest (mr_store r) in
    let next := change (default FeatureManifest_default stored) in
    let version := match stored with Some m => i64_add (fm_version m) 1 | None => 1 end in
    (with_validated (with_store r (set_manifest (mr_store r) (Some (with_version next version))))
       None, Ok tt).

(** The entity types of a list that a manifest does not declare history-dependent. *)
Definition undeclared_types (manifest : option FeatureManifest) (types : list EntityType)
  : list EntityType :=
  List.filter
    (λ entity_type,
      negb match manifest with Some m => is_history_dependent m entity_type | None => false end)
    types.

(** crates/evt/src/features.rs:404-428 [declare_history] *)
Definition mem_declare_history (types : list EntityType) : Op unit :=
  λ r,
    let missing := undeclared_types (ms_manifest (mr_store r)) types in
    if nil_b missing then (r, Ok tt)
    else
      mem_update_manifest
        (λ m, mkManifest (fm_version m) (fm_features m)
                (fm_history_dependent m ∪ list_to_set missing) (fm_retention m)) r.

(** crates/evt/src/mem.rs:711-734 [MemRepository::initialize] *)
Definition mem_initialize : Op bool :=
  λ r,
    let stored := ms_manifest (mr_store r) in
    match match stored with
          | Some manifest =>
              check? validate_supported manifest; Ok (declares_stream_heads manifest)
          | None => Ok false
          end with
    | Err error => (r, Err error)
    | Ok true => (r, Ok false)
    | Ok false =>
        if any_data (ms_streams (mr_store r)) then (r, Err StreamHeadsNotMigrated)
        else
          (with_validated (with_store r (set_manifest (mr_store r) (Some (declared stored)))) None,
           Ok true)
    end.

(** ** The rebuild fence *)

(** crates/evt/src/mem.rs:859-863 [lease_lost] *)
Definition lease_lost (owner : string) : Error := RebuildLeaseLost owner.

(** [state.lock.as_ref().is_some_and(held)]. *)
Definition lock_is (state : RebuildState) (held : RebuildLock → bool) : bool :=
  match rs_lock state with Some lock => held lock | None => false end.

(** crates/evt/src/mem.rs:751-769 [MemRepository::begin_rebuild] *)
Definition begin_state (state : RebuildState) (owner : string) (now seconds : Z)
  : Result (RebuildState * RebuildLease) :=
  let? plan := plan_decide state now in
  let lease_expires_at := i64_saturating_add now seconds in
  let value := i64_add (rg_value (rs_generation state)) (pl_increment plan) in
  Ok (mkRebuildState (mkGeneration value (rg_force_released (rs_generation state)))
        (Some (mkLock owner value lease_expires_at)),
      mkRebuildLease owner value lease_expires_at).

(** Replaces the fence's state when the step succeeds. *)
Definition rebuild_op {A} (f : RebuildState → Result (RebuildState * A)) : Op A :=
  λ r, match f (ms_rebuild (mr_store r)) with
       | Ok (state, a) => (with_store r (set_rebuild (mr_store r) state), Ok a)
       | Err error => (r, Err error)
       end.

(** crates/evt/src/mem.rs:748-770 [MemRepository::begin_rebuild] *)
Definition mem_begin_rebuild (owner : string) (lease : Duration) (now : Z) : Op RebuildLease :=
  guarded (check_lease owner lease) (λ seconds,
    rebuild_op (λ state, begin_state state owner now seconds)).

(** crates/evt/src/mem.rs:779-790 [MemRepository::renew_rebuild] *)
Definition renew_state (state : RebuildState) (lease : RebuildLease) (now seconds : Z)
  : Result (RebuildState * RebuildLease) :=
  let lease_expires_at := i64_saturating_add now seconds in
  match rs_lock state with
  | Some lock =>
      if holds lease lock then
        Ok (mkRebuildState (rs_generation state)
              (Some (mkLock (rl_owner lock) (rl_generation lock) lease_expires_at)),
            mkRebuildLease (le_owner lease) (le_generation lease) lease_expires_at)
      else Err (lease_lost (le_owner lease))
  | None => Err (lease_lost (le_owner lease))
  end.

(** crates/evt/src/mem.rs:772-791 [MemRepository::renew_rebuild] *)
Definition mem_renew_rebuild (lease : RebuildLease) (extend : Duration) (now : Z)
  : Op RebuildLease :=
  guarded (check_lease (le_owner lease) extend) (λ seconds,
    rebuild_op (λ state, renew_state state lease now seconds)).

(** crates/evt/src/mem.rs:837-856 [MemRepository::release] *)
Definition release_state (owner : string) (held : RebuildLock → bool) (increment : Z)
    (force_released : bool) (state : RebuildState) : Result (RebuildState * RebuildGeneration) :=
  if lock_is state held then
    let generation :=
      mkGeneration (i64_add (rg_value (rs_generation state)) increment) force_released in
    Ok (mkRebuildState generation None, generation)
  else Err (lease_lost owner).

(** crates/evt/src/mem.rs:793-797 [MemRepository::end_rebuild] *)
Definition mem_end_rebuild (lease : RebuildLease) : Op RebuildGeneration :=
  guarded (check_rebuild_owner (le_owner lease)) (λ _,
    rebuild_op (release_state (le_owner lease) (holds lease) 1 false)).

(** crates/evt/src/mem.rs:799-803 [MemRepository::force_release_rebuild] *)
Definition mem_force_release_rebuild (owner : string) : Op RebuildGeneration :=
  guarded (check_rebuild_owner owner) (λ _,
    rebuild_op (release_state owner (λ lock, bool_decide (rl_owner lock = owner)) 2 true)).

(** crates/evt/src/mem.rs:815-829 [MemRepository::write_rebuild_views] *)
Definition rebuild_views (s : MemStore) (lease : RebuildLease) (views : list ProjectedView)
    (now : Z) : Result MemStore :=
  check? (if lock_is (ms_rebuild s) (λ lock, holds lease lock && (now <? rl_lease_expires_at lock))
          then Ok tt else Err (lease_lost (le_owner lease)));
  check? check_view_conditions (ms_views s) views;
  Ok (set_views s (apply_views (ms_views s) views)).

(** crates/evt/src/mem.rs:805-830 [MemRepository::write_rebuild_views] *)
Definition mem_write_rebuild_views (lease : RebuildLease) (views : list ProjectedView) (now : Z)
  : Op unit :=
  guarded (check? check_rebuild_owner (le_owner lease); check_view_batch views) (λ _ r,
    match rebuild_views (mr_store r) lease views now with
    | Ok s => (with_store r s, Ok tt)
    | Err error => (r, Err error)
    end).

(** * View rows read and written directly

    [views.rs] and [mem/views.rs]: the contract for reading and writing view rows outside a
    commit, and the in-memory repository's implementation with its paged listings. *)

(** crates/evt/src/views.rs:30-41 [ViewPage] *)
Record ViewPage := mkViewPage { vp_views : list ViewRow; vp_next_cursor : option string }.

(** crates/evt/src/views.rs:246-254 [nul_free] *)
Definition nul_free (value field : string) : Result unit :=
  if contains_nul value then
    Err (InvalidArgument (Fmt "a view {field} cannot contain U+0000" [field]))
  else Ok tt.

(** crates/evt/src/views.rs:223-241 [check_view_row] *)
Definition check_view_row (view : ViewRow) : Result unit :=
  if is_empty (vr_pk view) then
    Err (InvalidArgument (Fmt "a view row needs a non-empty pk" []))
  else if negb (valid_utf8 (vr_payload view)) then
    Err (InvalidRecord
      (Fmt "view payload is not valid UTF-8 and cannot be stored as a string" []))
  else
    check? nul_free (vr_pk view) "pk";
    check? nul_free (vr_sk view) "sk";
    check? nul_free (vr_entity_id view) "owner";
    check? nul_free (vr_entity_type view) "entity type";
    nul_free (vr_payload view) "payload".

(** crates/evt/src/views.rs:257-259 [page_limit] *)
Definition page_limit (limit : option nat) : option nat :=
  match limit with
  | Some limit => if bool_decide (0 < limit)%nat then Some limit else None
  | None => None
  end.

(** crates/evt/src/views.rs:339-350 [resolve_key] *)
Definition resolve_key (pk sk : string) : Result string :=
  if is_empty pk then Err (InvalidArgument (Fmt "a view key needs a non-empty pk" []))
  else
    check? nul_free pk "pk";
    check? nul_free sk "sk";
    Ok (if is_empty sk then DEFAULT_VIEW_SORT_KEY else sk).

(** crates/evt/src/mem.rs:186-190 [MemRepository::view] *)
Definition mem_view (s : MemStore) (pk sk : string) : option ViewRow := ms_views s !! (pk, sk).

(** crates/evt/src/mem.rs:193-195 [MemRepository::views] *)
Definition mem_views (s : MemStore) : list ViewRow :=
  map snd (btree_entries key_leb (ms_views s)).

(** crates/evt/src/mem/views.rs:16-18 [MemRepository::get_view_at] *)
Definition mem_get_view_at (s : MemStore) (pk sk : string) : Result (option ViewRow) :=
  let? sk := resolve_key pk sk in Ok (mem_view s pk sk).

(** [if row.sk.is_empty() { row.sk = DEFAULT_VIEW_SK }]. *)
Definition default_sk (row : ViewRow) : ViewRow :=
  if is_empty (vr_sk row) then
    mkViewRow (vr_pk row) DEFAULT_VIEW_SORT_KEY (vr_entity_id row) (vr_entity_type row)
      (vr_payload row) (vr_ttl row)
  else row.

(** crates/evt/src/mem/views.rs:20-32 [MemRepository::put_view] *)
Definition mem_put_view (view : ViewRow) : Op unit :=
  guarded (check_view_row view) (λ _ r,
    let row := default_sk view in
    (with_store r (set_views (mr_store r)
       (<[(vr_pk row, vr_sk row) := row]> (ms_views (mr_store r)))), Ok tt)).

(** crates/evt/src/mem/views.rs:34-40 [MemRepository::delete_view] *)
Definition mem_delete_view (pk sk : string) : Op unit :=
  guarded (resolve_key pk sk) (λ sk r,
    (with_store r (set_views (mr_store r) (delete (pk, sk) (ms_views (mr_store r)))), Ok tt)).

(** ** Paged listings *)

(** crates/evt/src/mem/views.rs:104-109 [text] *)
Definition key_text (key : Item) (name : string) : option string :=
  match key !! name with
  | Some (AS value) => Some value
  | _ => None
  end.

(** crates/evt/src/mem/views.rs:129-145 [cursor_key] *)
Definition cursor_key `{SerdeJson} {T} (resume : Item → option T) (cursor : option string)
    (belongs : Item → bool) : Result (option T) :=
  match non_empty cursor with
  | None => Ok None
  | Some cursor =>
      let? key := decode_view_cursor cursor in
      if belongs key then Ok (resume key)
      else Err (InvalidArgument
        (Fmt "invalid pagination cursor: it belongs to another listing" []))
  end.

(** crates/evt/src/mem/views.rs:117-121 [Resume::of] *)
Definition resume_sk (key : Item) : option string := key_text key "sk".

(** crates/evt/src/mem/views.rs:123-127 [Resume::of] *)
Definition resume_key (key : Item) : option (string * string) :=
  match key_text key "pk", key_text key "sk" with
  | Some pk, Some sk => Some (pk, sk)
  | _, _ => None
  end.

(** crates/evt/src/mem/views.rs:149-165 [paged] *)
Definition paged `{SerdeJson} (rows : list ViewRow) (limit : option nat) (key : ViewRow → Item)
  : Result ViewPage :=
  match page_limit limit with
  | None => Ok (mkViewPage rows None)
  | Some limit =>
      let views := take limit rows in
      let? cursor :=
        match last views, drop limit rows with
        | Some last, _ :: _ => let? cursor := encode_view_cursor (key last) in Ok (Some cursor)
        | _, _ => Ok None
        end in
      Ok (mkViewPage views cursor)
  end.

(** The entries of an ordered map whose keys pass a bound. *)
Definition range_from {V} (bound : string * string → bool) (m : gmap (string * string) V)
  : list ((string * string) * V) :=
  List.filter (λ e : (string * string) * V, bound e.1) (btree_entries key_leb m).

(** [Bound::Excluded(key)] as a lower bound. *)
Definition after_key (key other : string * string) : bool := negb (key_leb other key).

Fixpoint take_while {A} (p : A → bool) (l : list A) : list A :=
  match l with
  | [] => []
  | x :: rest => if p x then x :: take_while p rest else []
  end.

Section listings.
Context `{SerdeJson}.

(** crates/evt/src/mem/views.rs:42-68 [MemRepository::list_views_by_pk_paged] *)
Definition mem_list_views_by_pk_paged (s : MemStore) (pk : string) (limit : option nat)
    (cursor : option string) : Result ViewPage :=
  check? nul_free pk "pk";
  let? after := cursor_key resume_sk cursor (λ key, bool_decide (key_text key "pk" = Some pk)) in
  let bound :=
    match after with
    | Some sk => after_key (pk, sk)
    | None => key_leb (pk, ""%string)
    end in
  let page :=
    take_while (λ e : (string * string) * ViewRow, bool_decide (e.1.1 = pk))
      (range_from bound (ms_views s)) in
  paged (map snd page) limit (λ row, view_key (vr_pk row) (vr_sk row)).

(** crates/evt/src/mem/views.rs:70-101 [MemRepository::list_views_by_entity_type_paged] *)
Definition mem_list_views_by_entity_type_paged (s : MemStore) (entity_type : string)
    (limit : option nat) (cursor : option string) : Result ViewPage :=
  check? nul_free entity_type "entity type";
  let? after :=
    cursor_key resume_key cursor
      (λ key, bool_decide (key_text key "entityType" = Some entity_type)) in
  let bound :=
    match after with
    | Some key => after_key key
    | None => λ _, true
    end in
  let page :=
    List.filter (λ row, bool_decide (vr_entity_type row = entity_type))
      (map snd (range_from bound (ms_views s))) in
  paged page limit
    (λ row, <["entityType" := AS (vr_entity_type row)]> (view_key (vr_pk row) (vr_sk row))).
End listings.
