(* ===== verification/MemInvariant.v ===== *)
(** * Invariants of the in-memory repository

    What is true of every store the repository's operations can reach: the stored head is the
    head the log implies, a stream's events are contiguous up to its head and a snapshot covers
    whatever compaction removed, view rows are filed under their own keys, and the rebuild
    fence's generation, lock and flag agree. *)

From S2P Require Import Prelude Types Features Outcome Rebuild Wire Projection Repository.
From S2P Require Import RebuildBatch Mem.

(** ** Streams *)

Record stream_ok (id : EntityId) (s : Stream) : Prop := {
  so_head : 0 ≤ st_head s;
  so_event : ∀ k e, st_events s !! k = Some e →
    1 ≤ k ≤ st_head s ∧ ev_sequence e = k ∧ event_of id e;
  so_suffix : ∀ j k, is_Some (st_events s !! j) → j ≤ k ≤ st_head s → is_Some (st_events s !! k);
  so_covered : ∀ k, 1 ≤ k ≤ st_head s → st_events s !! k = None →
    ∃ sn, st_snapshot s = Some sn ∧ k ≤ sn_event_sequence sn;
  so_snapshot : ∀ sn, st_snapshot s = Some sn →
    sn_entity_id sn = id ∧ sn_event_sequence sn ≤ st_head s
}.

Lemma stream_default_ok id : stream_ok id Stream_default.
Proof.
  split; simpl.
  - done.
  - intros k e He. by rewrite lookup_empty in He.
  - intros j k [x Hx]. by rewrite lookup_empty in Hx.
  - lia.
  - done.
Qed.

Lemma events_sorted (m : gmap Z SerializedEvent) :
  StronglySorted (λ a b : Z * SerializedEvent, Z.leb a.1 b.1 = true) (btree_entries Z.leb m).
Proof. apply btree_entries_sorted; [apply Zleb_total|apply Zleb_trans]. Qed.

Lemma last_map_Some {A B} (f : A → B) (l : list A) :
  List.last (map (λ x, Some (f x)) l) None = f <$> last l.
Proof. induction l as [|x l IH]; [done|]. destruct l; [done|]. apply IH. Qed.

(** The last key is the greatest one. *)
Lemma last_key_spec m k :
  last_key m = Some k → is_Some (m !! k) ∧ ∀ j, is_Some (m !! j) → j ≤ k.
Proof.
  unfold last_key. rewrite last_map_Some. intros H.
  destruct (last (btree_entries Z.leb m)) as [[k' e]|] eqn:Hl; [|done]. injection H as <-.
  split.
  - exists e. apply (elem_of_btree_entries Z.leb). by apply last_Some_elem_of.
  - intros j [e' Hj]. apply (elem_of_btree_entries Z.leb) in Hj.
    destruct (StronglySorted_last _ _ _ _ (events_sorted m) Hl Hj) as [Heq|Hle].
    + by injection Heq as -> ->.
    + simpl in Hle. simpl. lia.
Qed.

Lemma last_key_None m : last_key m = None → m = ∅.
Proof.
  unfold last_key. rewrite last_map_Some. intros H.
  destruct (last (btree_entries Z.leb m)) as [|] eqn:Hl; [done|]. apply last_None in Hl.
  apply map_empty. intros k. destruct (m !! k) as [e|] eqn:Hk; [|done].
  apply (elem_of_btree_entries Z.leb) in Hk. rewrite Hl in Hk. by apply not_elem_of_nil in Hk.
Qed.

(** In a well-formed stream the log implies the stored head. *)
Lemma derived_head_ok id s : stream_ok id s → derived_head s = st_head s.
Proof.
  intros Hok. pose proof (so_head _ _ Hok) as Hh. unfold derived_head.
  assert (∀ sn, st_snapshot s = Some sn → sn_event_sequence sn ≤ st_head s) as Hsn.
  { intros sn Hs. by apply (so_snapshot _ _ Hok). }
  destruct (last_key (st_events s)) as [k|] eqn:Hk; simpl.
  - apply last_key_spec in Hk as [[e He] Hmax].
    destruct (so_event _ _ Hok _ _ He) as [Hrange _].
    assert (is_Some (st_events s !! st_head s)) as Hlast
      by (apply (so_suffix _ _ Hok k); [by exists e|lia]).
    specialize (Hmax _ Hlast). destruct (st_snapshot s); [specialize (Hsn _ eq_refl)|]; lia.
  - apply last_key_None in Hk. destruct (decide (st_head s = 0)) as [H0|H0].
    + destruct (st_snapshot s); [specialize (Hsn _ eq_refl)|]; lia.
    + destruct (so_covered _ _ Hok (st_head s)) as (sn & Hs & Hle);
        [lia|by rewrite Hk|]. specialize (Hsn _ Hs). rewrite Hs. lia.
Qed.

(** ** Writing events *)

Definition insert_events (events : list SerializedEvent) (m : gmap Z SerializedEvent)
  : gmap Z SerializedEvent :=
  fold_left (λ m event, <[ev_sequence event := event]> m) events m.

Lemma insert_events_lookup first events m k :
  numbered first events →
  insert_events events m !! k =
  if decide (first ≤ k < first + llen events) then events !! Z.to_nat (k - first) else m !! k.
Proof.
  unfold insert_events. revert first m. induction events as [|e events IH]; intros first m Hn.
  { unfold llen. simpl. destruct (decide _); [lia|done]. }
  destruct Hn as [He Hn]. simpl. rewrite (IH (first + 1)) by done. unfold llen. simpl length.
  destruct (decide (k = first)) as [->|Hne].
  - destruct (decide (first + 1 ≤ first < _)); [lia|].
    destruct (decide (first ≤ first < _)); [|lia].
    replace (Z.to_nat (first - first)) with 0%nat by lia. rewrite He. by rewrite lookup_insert_eq.
  - destruct (decide (first + 1 ≤ k < _)), (decide (first ≤ k < _)); try lia.
    + replace (Z.to_nat (k - first)) with (S (Z.to_nat (k - (first + 1)))) by lia. done.
    + rewrite lookup_insert_ne; [done|]. lia.
Qed.

(** What the repository knows of a commit it writes. *)
Definition commit_ok {X} (c : Commit X) : Prop :=
  is_reserved (cm_entity_id c) = false ∧
  ∀ first rest, cm_events c = first :: rest →
    1 ≤ ev_sequence first ∧ numbered (ev_sequence first) (cm_events c) ∧
    Forall (event_of (cm_entity_id c)) (cm_events c).

(** The stream a commit leaves behind. *)
Definition appended {X} (held : Stream) (c : Commit X) (last : SerializedEvent) : Stream :=
  mkStream (insert_events (cm_events c) (st_events held))
    (match cm_snapshot c with
     | Some snapshot => Some (snapshot_of (cm_entity_id c) snapshot (ev_sequence last))
     | None => st_snapshot held
     end)
    (Z.max (st_head held) (ev_sequence last)).

Lemma apply_stream_appended {X} streams (c : Commit X) last :
  last_event (cm_events c) = Some last →
  apply_stream streams c =
  <[cm_entity_id c := appended (stream_at streams (cm_entity_id c)) c last]> streams.
Proof. unfold apply_stream. by intros ->. Qed.

Lemma apply_stream_empty {X} streams (c : Commit X) :
  cm_events c = [] → apply_stream streams c = streams.
Proof. unfold apply_stream. by intros ->. Qed.

(** A stream that raises no failure is extended exactly at its head. *)
Lemma stream_failure_nil {X} streams (c : Commit X) first rest :
  commit_ok c → cm_events c = first :: rest → stream_failure streams c = [] →
  let held := stream_at streams (cm_entity_id c) in
  ev_sequence first = st_head held + 1 ∧
  Forall (λ e, st_events held !! ev_sequence e = None) (cm_events c) ∧
  ∀ new, cm_snapshot c = Some new →
    ns_sequence new = next match st_snapshot held with Some sn => sn_sequence sn | None => 0 end.
Proof.
  intros [_ Hok] Hev Hf held. destruct (Hok _ _ Hev) as (Hone & _ & _).
  unfold stream_failure in Hf. rewrite Hev in Hf. fold held in Hf.
  destruct (head_passes held (ev_sequence first)) eqn:Hh; [|done]. cbn [negb] in Hf.
  destruct (events_pass held (first :: rest)) eqn:He; [|done]. cbn [negb] in Hf.
  split; [|split].
  - unfold head_passes in Hh. destruct (Z.leb_spec (ev_sequence first) 1); lia.
  - rewrite Hev. apply Forall_forall. intros e Hin%list_elem_of_In.
    unfold events_pass in He. rewrite forallb_forall in He. apply He in Hin.
    by apply bool_decide_eq_true in Hin.
  - intros new Hs. rewrite Hs in Hf.
    destruct (Z.eqb_spec (next match st_snapshot held with Some sn => sn_sequence sn | None => 0 end)
      (ns_sequence new)); done.
Qed.

Lemma appended_ok {X} (c : Commit X) held first rest last :
  commit_ok c → stream_ok (cm_entity_id c) held → cm_events c = first :: rest →
  ev_sequence first = st_head held + 1 → last_event (cm_events c) = Some last →
  stream_ok (cm_entity_id c) (appended held c last) ∧
  st_head (appended held c last) = st_head held + llen (cm_events c).
Proof.
  intros [_ Hc] Hok Hev Hfirst Hlast. destruct (Hc _ _ Hev) as (Hone & Hn & Hall).
  pose proof (last_event_numbered _ _ _ Hn Hlast) as Hl. rewrite Hfirst in Hn, Hl.
  pose proof (so_head _ _ Hok) as Hh.
  assert (0 < llen (cm_events c)) as Hpos by (rewrite Hev; unfold llen; simpl length; lia).
  assert (st_head (appended held c last) = st_head held + llen (cm_events c)) as Hhead
    by (simpl; lia).
  split; [|done].
  split; rewrite ?Hhead; try (simpl st_events; setoid_rewrite (insert_events_lookup _ _ _ _ Hn)).
  - lia.
  - intros k e Hk. destruct (decide _) as [Hr|Hr].
    + apply list_elem_of_lookup_2 in Hk as Hin.
      pose proof (numbered_lookup _ _ _ _ Hn Hk). rewrite Forall_forall in Hall.
      split; [lia|]. split; [lia|]. by apply Hall.
    + destruct (so_event _ _ Hok _ _ Hk) as (? & ? & ?). split; [lia|done].
  - intros j k Hj Hjk. destruct (decide (st_head held + 1 ≤ k < _)) as [Hr|Hr].
    + apply lookup_lt_is_Some. unfold llen in *. lia.
    + destruct (decide (st_head held + 1 ≤ j < _)) as [Hr'|Hr']; [lia|].
      apply (so_suffix _ _ Hok j); [done|]. lia.
  - intros k Hk Hnone. destruct (decide _) as [Hr|Hr].
    + apply lookup_ge_None in Hnone. unfold llen in *. lia.
    + destruct (so_covered _ _ Hok k) as (sn & Hs & Hle); [lia|done|].
      simpl. rewrite Hs. destruct (cm_snapshot c) as [new|]; [|by exists sn].
      eexists. split; [done|]. simpl. lia.
  - simpl. intros sn Hsn. destruct (cm_snapshot c) as [new|].
    + injection Hsn as <-. simpl. split; [done|lia].
    + apply (so_snapshot _ _ Hok) in Hsn as [? ?]. split; [done|lia].
Qed.

(** What a write does to the stream of one entity. *)
Lemma apply_streams_lookup {X} (written : list (Commit X)) streams id :
  NoDup (map cm_entity_id written) →
  (∃ c last, c ∈ written ∧ cm_entity_id c = id ∧ last_event (cm_events c) = Some last ∧
     apply_streams streams written !! id = Some (appended (stream_at streams id) c last)) ∨
  ((∀ c, c ∈ written → cm_entity_id c = id → cm_events c = []) ∧
     apply_streams streams written !! id = streams !! id).
Proof.
  unfold apply_streams. revert streams.
  induction written as [|c written IH]; intros streams Hnd; simpl.
  { right. split; [|done]. intros c Hc. by apply not_elem_of_nil in Hc. }
  apply NoDup_cons in Hnd as [Hnin Hnd].
  destruct (last_event (cm_events c)) as [last|] eqn:Hl.
  - rewrite (apply_stream_appended _ _ _ Hl).
    destruct (IH (<[cm_entity_id c := appended (stream_at streams (cm_entity_id c)) c last]> streams)
      Hnd) as [(c' & last' & Hin & Hid & Hl' & Hlook)|[Hnone Hlook]].
    + left. exists c', last'. rewrite Hlook. split; [by apply list_elem_of_further|].
      split; [done|]. split; [done|]. unfold stream_at. rewrite lookup_insert_ne; [done|].
      intros <-. apply Hnin. rewrite <-Hid. by apply list_elem_of_fmap_2.
    + rewrite Hlook. destruct (decide (cm_entity_id c = id)) as [<-|Hne].
      * left. exists c, last. split; [apply list_elem_of_here|]. split; [done|]. split; [done|].
        by rewrite lookup_insert_eq.
      * right. split; [|by rewrite lookup_insert_ne].
        intros c' [->|Hin]%elem_of_cons; [done|]. by apply Hnone.
  - rewrite last_event_last, last_None in Hl. rename Hl into Hev.
    rewrite (apply_stream_empty _ _ Hev).
    destruct (IH streams Hnd) as [(c' & last' & Hin & Hrest)|[Hnone Hlook]].
    + left. exists c', last'. split; [by apply list_elem_of_further|done].
    + right. split; [|done]. intros c' [->|Hin]%elem_of_cons; [done|]. by apply Hnone.
Qed.

Lemma last_event_nonempty events last :
  last_event events = Some last → ∃ first rest, events = first :: rest.
Proof. destruct events; [done|]. eauto. Qed.

(** ** The rebuild fence *)

Record rebuild_ok (s : RebuildState) : Prop := {
  ro_lock : ∀ lock, rs_lock s = Some lock →
    is_settled (rs_generation s) = false ∧ rl_generation lock = rg_value (rs_generation s);
  ro_free : rs_lock s = None → is_settled (rs_generation s) = negb (rg_force_released (rs_generation s));
  ro_flag : is_settled (rs_generation s) = true → rg_force_released (rs_generation s) = false
}.

Lemma is_settled_even g : is_settled g = Z.even (rg_value g).
Proof.
  unfold is_settled. pose proof (Z.rem_bound_abs (rg_value g) 2 ltac:(lia)).
  pose proof (Z.quot_rem' (rg_value g) 2) as Hq.
  destruct (Z.even (rg_value g)) eqn:He.
  - apply Z.even_spec in He as [k Hk]. lia.
  - assert (Z.odd (rg_value g) = true) as Ho by (by rewrite <-Z.negb_even, He).
    apply Z.odd_spec in Ho as [k Hk]. lia.
Qed.

Lemma even_i64_add a b : Z.even (i64_add a b) = Z.even (a + b).
Proof.
  unfold i64_add. rewrite Z.even_sub.
  replace (Z.even (2 ^ 63)) with true by done.
  assert (∀ x, Z.even (x mod 2 ^ 64) = Z.even x) as ->.
  { intros x. rewrite <-!Z.negb_odd, <-!Z.bit0_odd. by rewrite Z.mod_pow2_bits_low by lia. }
  rewrite (Z.even_add (a + b)). replace (Z.even (2 ^ 63)) with true by done.
  by destruct (Z.even (a + b)).
Qed.

(** Within 64 bits the addition is exact. *)
Lemma i64_add_small a b : i64_min ≤ a + b ≤ i64_max → i64_add a b = a + b.
Proof.
  unfold i64_add, i64_min, i64_max. intros H. rewrite Z.mod_small; lia.
Qed.

Lemma rebuild_default_ok : rebuild_ok RebuildState_default.
Proof. by split. Qed.

Ltac parity := rewrite ?is_settled_even in *; cbn [rg_value rg_force_released] in *;
  rewrite ?even_i64_add, ?Z.even_add in *; cbn [Z.even] in *.

Lemma begin_state_ok state owner now seconds state' lease :
  rebuild_ok state → begin_state state owner now seconds = Ok (state', lease) →
  rebuild_ok state' ∧ rs_lock state' = Some (mkLock owner (le_generation lease) (le_expires_at lease)).
Proof.
  intros [Hlock Hfree Hflag] H. unfold begin_state in H. bind_inv. injection H as <- <-.
  rename H0 into Hplan. split; [|done]. unfold plan_decide in Hplan.
  split; cbn [rs_lock rs_generation]; [intros ? [= <-]; split; [|done]|done|];
    destruct (rs_lock state) as [lock|] eqn:Hl.
  - destruct (Hlock _ eq_refl) as [Hodd _]. rewrite Hodd in Hplan. destruct (is_expired _ _); [|done].
    injection Hplan as <-. cbn [pl_increment]. parity. by rewrite Hodd.
  - specialize (Hfree eq_refl). destruct (is_settled (rs_generation state)) eqn:Hs.
    + injection Hplan as <-. cbn [pl_increment]. parity. by rewrite Hs.
    + destruct (rg_force_released _); [|done]. injection Hplan as <-. cbn [pl_increment]. parity.
      by rewrite Hs.
  - destruct (Hlock _ eq_refl) as [Hodd _]. rewrite Hodd in Hplan. destruct (is_expired _ _); [|done].
    injection Hplan as <-. cbn [pl_increment]. parity. by rewrite Hodd.
  - specialize (Hfree eq_refl). destruct (is_settled (rs_generation state)) eqn:Hs.
    + injection Hplan as <-. cbn [pl_increment]. parity. by rewrite Hs.
    + destruct (rg_force_released _); [|done]. injection Hplan as <-. cbn [pl_increment]. parity.
      by rewrite Hs.
Qed.

Lemma renew_state_ok state lease now seconds state' lease' :
  rebuild_ok state → renew_state state lease now seconds = Ok (state', lease') →
  rebuild_ok state' ∧ rs_generation state' = rs_generation state ∧ is_Some (rs_lock state').
Proof.
  intros [Hlock Hfree Hflag] H. unfold renew_state in H.
  destruct (rs_lock state) as [lock|]; [|done]. destruct (holds lease lock); [|done].
  injection H as <- <-. destruct (Hlock _ eq_refl) as [Hodd Hgen].
  split; [|by split]. split; cbn; [|done|done]. by intros ? [= <-].
Qed.

Lemma release_state_ok owner held increment force_released state state' g :
  rebuild_ok state → release_state owner held increment force_released state = Ok (state', g) →
  (increment = 1 ∧ force_released = false ∨ increment = 2 ∧ force_released = true) →
  rebuild_ok state' ∧ rs_lock state' = None ∧ rs_generation state' = g.
Proof.
  intros [Hlock Hfree Hflag] H Hinc. unfold release_state, lock_is in H.
  destruct (rs_lock state) as [lock|]; [|done]. destruct (held lock); [|done].
  injection H as <- <-. destruct (Hlock _ eq_refl) as [Hodd _]. split; [|done].
  split; cbn [rs_lock rs_generation]; [done| |]; destruct Hinc as [[-> ->]|[-> ->]];
    parity; rewrite Hodd; done.
Qed.

(** ** The store *)

Record store_ok (s : MemStore) : Prop := {
  ok_streams : ∀ id stream, ms_streams s !! id = Some stream →
    stream_ok id stream ∧ is_reserved id = false;
  ok_views : ∀ key row, ms_views s !! key = Some row → key = (vr_pk row, vr_sk row);
  ok_outcomes : ∀ id o, ms_outcomes s !! id = Some o → oc_command_id o = id;
  ok_rebuild : rebuild_ok (ms_rebuild s)
}.

Lemma mem_new_ok : store_ok (mr_store mem_new).
Proof.
  split; simpl; [| | |apply rebuild_default_ok]; intros ? ? Hl; by rewrite lookup_empty in Hl.
Qed.

Lemma stream_at_ok s id : store_ok s → stream_ok id (stream_at (ms_streams s) id).
Proof.
  intros Hok. unfold stream_at. destruct (ms_streams s !! id) as [stream|] eqn:Hl; simpl.
  - by apply (ok_streams _ Hok).
  - apply stream_default_ok.
Qed.

Lemma set_manifest_ok s m : store_ok s → store_ok (set_manifest s m).
Proof. intros []. by split. Qed.

Lemma set_rebuild_ok s state : store_ok s → rebuild_ok state → store_ok (set_rebuild s state).
Proof. intros [] ?. by split. Qed.

Lemma insert_stream_ok s id stream :
  store_ok s → stream_ok id stream → is_reserved id = false →
  store_ok (set_streams s (<[id := stream]> (ms_streams s))).
Proof.
  intros [Hs Hv Ho Hr] Hst Hres. split; simpl; try done. intros id' stream'.
  destruct (decide (id = id')) as [<-|Hne].
  - rewrite lookup_insert_eq. by intros [= <-].
  - rewrite lookup_insert_ne by done. apply Hs.
Qed.

Lemma apply_views_keyed rows views :
  (∀ key row, rows !! key = Some row → key = (vr_pk row, vr_sk row)) →
  ∀ key row, apply_views rows views !! key = Some row → key = (vr_pk row, vr_sk row).
Proof.
  unfold apply_views. revert rows. induction views as [|view views IH]; intros rows Hrows; [done|].
  simpl. apply IH. intros key row. unfold apply_view.
  destruct (decide (view_op_key (pv_op view) = key)) as [<-|Hne]; destruct (vo_kind (pv_op view)).
  - rewrite lookup_insert_eq. by intros [= <-].
  - by rewrite lookup_delete_eq.
  - rewrite lookup_insert_ne by done. apply Hrows.
  - rewrite lookup_delete_ne by done. apply Hrows.
Qed.

Lemma set_views_ok s views :
  store_ok s → store_ok (set_views s (apply_views (ms_views s) views)).
Proof. intros [Hs Hv Ho Hr]. split; simpl; try done. by apply apply_views_keyed. Qed.

(** ** Writes *)

Lemma concat_map_nil {A B} (f : A → list B) l :
  concat (map f l) = [] ↔ Forall (λ x, f x = []) l.
Proof.
  induction l as [|x l IH]; simpl; [by split|]. rewrite Forall_cons, <-IH. split.
  - by intros [-> ->]%app_eq_nil.
  - by intros [-> ->].
Qed.

Lemma check_view_conditions_ok rows views :
  check_view_conditions rows views = Ok tt ↔
  Forall (λ v, view_condition_held rows (pv_op v) = true) views.
Proof.
  unfold check_view_conditions. rewrite check_each_ok. apply Forall_proper; [|done].
  intros v. by destruct (view_condition_held rows (pv_op v)).
Qed.

(** Everything a write has established when it succeeds, and the store it leaves. *)
Record written {X} (s : MemStore) (streams : list (Commit X)) (fences : list ReadFence)
    (views : list ProjectedView) (outcome : option Outcome) (s' : MemStore) : Prop := {
  wr_settled : in_progress (ms_rebuild s) = false ∧ is_settled (rs_generation (ms_rebuild s)) = true;
  wr_fresh : ∀ o, outcome = Some o → ms_outcomes s !! oc_command_id o = None;
  wr_streams : Forall (λ c, stream_failure (ms_streams s) c = []) streams;
  wr_fences : Forall (λ f, fence_failure (ms_streams s) streams f = []) fences;
  wr_views : Forall (λ v, view_condition_held (ms_views s) (pv_op v) = true) views;
  wr_store : s' = mkMemStore (apply_streams (ms_streams s) streams)
    (apply_views (ms_views s) views)
    (match outcome with Some o => <[oc_command_id o := o]> (ms_outcomes s) | None => ms_outcomes s end)
    (ms_manifest s) (ms_rebuild s)
}.

Lemma write_locked_ok {X} s (streams : list (Commit X)) fences views outcome retention s' :
  write_locked s streams fences views outcome retention = Ok s' →
  written s streams fences views outcome s' ∧ retention (ms_manifest s) = Ok tt.
Proof.
  unfold write_locked. rewrite !check_bind_ok. intros (Hret & Hreb & Hout & Hrank & Hcond & Hs).
  split; [|done]. injection Hs as <-.
  destruct (rank _) eqn:Hr in Hrank; [done|]. apply rank_None, app_eq_nil in Hr as [Hst Hfe].
  split; [| |by apply concat_map_nil|by apply concat_map_nil| |done].
  - destruct (in_progress (ms_rebuild s)); [done|].
    by destruct (is_settled (rs_generation (ms_rebuild s))).
  - intros o ->. destruct (bool_decide _) eqn:Hb; [done|].
    apply bool_decide_eq_false in Hb. by apply eq_None_not_Some.
  - by apply check_view_conditions_ok.
Qed.

(** What a successful write does to one stream. *)
Lemma written_stream {X} s (streams : list (Commit X)) fences views outcome s' id :
  written s streams fences views outcome s' → store_ok s →
  Forall commit_ok streams → NoDup (map cm_entity_id streams) →
  (∃ c first rest last, c ∈ streams ∧ cm_entity_id c = id ∧ cm_events c = first :: rest ∧
     last_event (cm_events c) = Some last ∧
     ev_sequence first = st_head (stream_at (ms_streams s) id) + 1 ∧
     ms_streams s' !! id = Some (appended (stream_at (ms_streams s) id) c last)) ∨
  ((∀ c, c ∈ streams → cm_entity_id c = id → cm_events c = []) ∧
     ms_streams s' !! id = ms_streams s !! id).
Proof.
  intros Hw Hok Hc Hnd. rewrite (wr_store _ _ _ _ _ _ Hw). simpl.
  destruct (apply_streams_lookup streams (ms_streams s) id Hnd)
    as [(c & last & Hin & Hid & Hl & Hlook)|Hnone]; [|by right].
  left. destruct (last_event_nonempty _ _ Hl) as (first & rest & Hev).
  pose proof (wr_streams _ _ _ _ _ _ Hw) as Hf. rewrite Forall_forall in Hc, Hf.
  destruct (stream_failure_nil _ _ _ _ (Hc c Hin) Hev (Hf c Hin)) as [Hfirst _].
  rewrite Hid in Hfirst. by exists c, first, rest, last.
Qed.

Lemma written_ok {X} s (streams : list (Commit X)) fences views outcome s' :
  written s streams fences views outcome s' → store_ok s →
  Forall commit_ok streams → NoDup (map cm_entity_id streams) → store_ok s'.
Proof.
  intros Hw Hok Hc Hnd. split.
  - intros id stream Hlook.
    destruct (written_stream _ _ _ _ _ _ id Hw Hok Hc Hnd)
      as [(c & first & rest & last & Hin & Hid & Hev & Hl & Hfirst & Heq)|[_ Heq]];
      rewrite Heq in Hlook.
    + injection Hlook as <-. rewrite Forall_forall in Hc. specialize (Hc c Hin).
      split; [|subst id; apply Hc]. subst id.
      by eapply appended_ok; [|apply stream_at_ok| | |].
    + by apply (ok_streams _ Hok).
  - rewrite (wr_store _ _ _ _ _ _ Hw). apply apply_views_keyed, Hok.
  - rewrite (wr_store _ _ _ _ _ _ Hw). simpl. intros id o. destruct outcome as [o'|];
      [|apply (ok_outcomes _ Hok)].
    destruct (decide (oc_command_id o' = id)) as [<-|Hne].
    + rewrite lookup_insert_eq. by intros [= <-].
    + rewrite lookup_insert_ne by done. apply (ok_outcomes _ Hok).
  - rewrite (wr_store _ _ _ _ _ _ Hw). apply Hok.
Qed.

(** ** Operations preserve the invariant *)

Definition op_preserves {A} (o : Op A) : Prop :=
  ∀ r, store_ok (mr_store r) → store_ok (mr_store (o r).1).

Lemma guarded_preserves {A B} (c : Result A) (k : A → Op B) :
  (∀ a, c = Ok a → op_preserves (k a)) → op_preserves (guarded c k).
Proof. intros Hk r Hok. unfold guarded. destruct c; [|done]. by apply Hk. Qed.

Lemma pure_op_preserves {A} (c : Result A) : op_preserves (pure_op c).
Proof. by intros r. Qed.

Lemma mem_write_preserves {X} (streams : list (Commit X)) fences views outcome retention :
  Forall commit_ok streams → NoDup (map cm_entity_id streams) →
  op_preserves (mem_write streams fences views outcome retention).
Proof.
  intros Hc Hnd r Hok. unfold mem_write. destruct (check_manifest r) as [[m v]|e]; [|done].
  destruct (write_locked _ _ _ _ _ _) as [s'|e] eqn:Hw; simpl; [|by apply set_manifest_ok].
  apply write_locked_ok in Hw as [Hw _].
  by apply (written_ok _ _ _ _ _ _ Hw); [apply set_manifest_ok| |].
Qed.

#[export] Hint Resolve guarded_preserves pure_op_preserves mem_write_preserves : evt.

Section json.
Context `{SerdeJson}.

Lemma validate_commit_ok {X} (c : Commit X) :
  validate c = Ok tt → is_reserved (cm_entity_id c) = false → commit_ok c.
Proof.
  intros Hv Hr. split; [done|]. intros first rest Hev.
  by destruct (validate_events c first rest Hv Hev) as (? & ? & ? & _).
Qed.

Lemma commit_ok_without_carried {X} (c : Commit X) : commit_ok c → commit_ok (without_carried c).
Proof. by intros [Hr Hc]. Qed.

Lemma normalized_commit_ok {X} (before after : TransactionCommit X) :
  normalized before after → Forall commit_ok (tc_streams after).
Proof.
  intros Hn. rewrite (nz_streams _ _ Hn). apply Forall_forall.
  intros c (c' & -> & Hin%elem_of_list_filter)%list_elem_of_fmap.
  apply commit_ok_without_carried. pose proof (nz_valid _ _ Hn) as Hv.
  rewrite Forall_forall in Hv. destruct (Hv c') as [? ?]; [apply Hin|]. by apply validate_commit_ok.
Qed.

Lemma mem_commit_preserves c : op_preserves (mem_commit c).
Proof.
  unfold mem_commit. apply guarded_preserves. intros [] Hv.
  apply check_bind_ok in Hv as [Hv Hr]. apply check_not_reserved_ok in Hr.
  destruct (_ && _); [auto with evt|]. apply guarded_preserves. intros [] _.
  apply mem_write_preserves; [|apply NoDup_singleton].
  apply Forall_singleton. by apply validate_commit_ok.
Qed.

Lemma mem_commit_transaction_preserves c : op_preserves (mem_commit_transaction c).
Proof.
  unfold mem_commit_transaction. apply guarded_preserves. intros c' Hn%normalize_ok.
  destruct (transaction_is_empty c'); [auto with evt|]. apply guarded_preserves. intros [] _.
  apply mem_write_preserves; [by eapply normalized_commit_ok|apply Hn].
Qed.
End json.

Lemma put_snapshot_stream_ok id s sn :
  stream_ok id s → sn_entity_id sn = id → sn_event_sequence sn ≤ st_head s →
  (∀ old, st_snapshot s = Some old → sn_event_sequence old ≤ sn_event_sequence sn) →
  stream_ok id (mkStream (st_events s) (Some sn) (st_head s)).
Proof.
  intros Hok Hid Hle Hold. split; simpl.
  - apply Hok.
  - apply Hok.
  - apply Hok.
  - intros k Hk Hnone. destruct (so_covered _ _ Hok k Hk Hnone) as (old & Hs & Hcov).
    exists sn. split; [done|]. specialize (Hold _ Hs). lia.
  - by intros ? [= <-].
Qed.

Lemma mem_put_snapshot_preserves sn : op_preserves (mem_put_snapshot sn).
Proof.
  unfold mem_put_snapshot. apply guarded_preserves. intros [] Hr%check_not_reserved_ok r Hok.
  destruct (check_manifest r) as [[m v]|e]; [|done].
  set (r' := with_validated _ _). assert (store_ok (mr_store r')) as Hok'
    by (by apply set_manifest_ok).
  cbv zeta. clearbody r'. destruct (_ && _) eqn:Hhead; [done|].
  match goal with |- context [if ?b then (r', Ok false) else _] => destruct b eqn:Hold end;
    [done|]. simpl. apply insert_stream_ok; [done| |done].
  pose proof (stream_at_ok _ (sn_entity_id sn) Hok') as Hst. apply put_snapshot_stream_ok; try done.
  - pose proof (so_head _ _ Hst). unfold stream_at in *.
    destruct (ms_streams (mr_store r') !! sn_entity_id sn); simpl in *; lia.
  - intros old Hs. unfold stream_at in Hs.
    destruct (ms_streams (mr_store r') !! sn_entity_id sn); simpl in *; [|done].
    rewrite Hs in Hold. lia.
Qed.

(** What compaction established, and the stream it leaves. *)
Lemma compact_stream_ok s id through stream' removed :
  compact_stream s id through = Ok (stream', removed) →
  ∃ stream sn, ms_streams s !! id = Some stream ∧ st_snapshot stream = Some sn ∧
    through ≤ sn_event_sequence sn ∧
    (∀ m t, ms_manifest s = Some m → stream_entity_type stream = Some t →
       is_history_dependent m t = false) ∧
    stream' = mkStream (filter (λ e, through < e.1) (st_events stream)) (Some sn) (st_head stream) ∧
    removed = Z.of_nat (size (st_events stream)) - Z.of_nat (size (st_events stream')).
Proof.
  unfold compact_stream. intros Hc. destruct (ms_streams s !! id) as [stream|]; [|done].
  destruct (st_snapshot stream) as [sn|] eqn:Hs; [|done].
  destruct (Z.ltb_spec (sn_event_sequence sn) through); [done|].
  apply check_bind_ok in Hc as [Hh Hc]. injection Hc as <- <-. exists stream, sn.
  split; [done|]. split; [done|]. split; [done|]. split; [|done].
  intros m t Hm Ht. rewrite Hm, Ht in Hh. by destruct (is_history_dependent m t).
Qed.

Lemma compacted_stream_ok id stream sn through :
  stream_ok id stream → st_snapshot stream = Some sn → through ≤ sn_event_sequence sn →
  stream_ok id (mkStream (filter (λ e, through < e.1) (st_events stream)) (Some sn) (st_head stream)).
Proof.
  intros Hok Hs Hle. split; simpl.
  - apply Hok.
  - intros k e He. apply map_lookup_filter_Some in He as [He _]. by apply Hok.
  - intros j k [e He] Hjk. apply map_lookup_filter_Some in He as [He Hlt]. simpl in Hlt.
    destruct (so_suffix _ _ Hok j k) as [e' He']; [by exists e|done|].
    exists e'. apply map_lookup_filter_Some. simpl. split; [done|lia].
  - intros k Hk Hnone. exists sn. split; [done|].
    destruct (st_events stream !! k) as [e|] eqn:He.
    + rewrite map_lookup_filter_None in Hnone. destruct Hnone as [Hn|Hn]; [congruence|].
      specialize (Hn _ He). simpl in Hn. lia.
    + destruct (so_covered _ _ Hok k Hk He) as (sn' & Hs' & Hcov). congruence.
  - intros ? [= <-]. by apply (so_snapshot _ _ Hok).
Qed.

Lemma mem_compact_below_preserves id through : op_preserves (mem_compact_below id through).
Proof.
  unfold mem_compact_below. apply guarded_preserves. intros [] Hr%check_not_reserved_ok r Hok.
  destruct (through <? 1); [done|]. destruct (validate_marker_for_write _ _); [|done].
  destruct (compact_stream _ _ _) as [[stream' removed]|] eqn:Hc; [|done]. simpl.
  apply compact_stream_ok in Hc as (stream & sn & Hl & Hs & Hle & _ & -> & _).
  apply insert_stream_ok; [done| |done]. apply compacted_stream_ok; [|done|done].
  by apply (ok_streams _ Hok).
Qed.

Lemma mem_accept_journal_preserves : op_preserves mem_accept_journal.
Proof. by intros r. Qed.

Lemma mem_update_manifest_preserves change : op_preserves (mem_update_manifest change).
Proof. intros r Hok. by apply set_manifest_ok. Qed.

Lemma mem_initialize_preserves : op_preserves mem_initialize.
Proof.
  intros r Hok. unfold mem_initialize.
  match goal with |- context [match ?x with Ok _ => _ | Err _ => _ end] => destruct x as [[]|] end;
    [done| |done]. destruct (any_data _); [done|]. by apply set_manifest_ok.
Qed.

Lemma rebuild_op_preserves {A} (f : RebuildState → Result (RebuildState * A)) :
  (∀ state state' a, rebuild_ok state → f state = Ok (state', a) → rebuild_ok state') →
  op_preserves (rebuild_op f).
Proof.
  intros Hf r Hok. unfold rebuild_op. destruct (f _) as [[state a]|] eqn:He; [|done].
  apply set_rebuild_ok; [done|]. eapply Hf; [apply Hok|done].
Qed.

Lemma mem_begin_rebuild_preserves owner lease now : op_preserves (mem_begin_rebuild owner lease now).
Proof.
  apply guarded_preserves. intros seconds _. apply rebuild_op_preserves.
  intros state state' a Hok Hb. by eapply begin_state_ok.
Qed.

Lemma mem_renew_rebuild_preserves lease extend now : op_preserves (mem_renew_rebuild lease extend now).
Proof.
  apply guarded_preserves. intros seconds _. apply rebuild_op_preserves.
  intros state state' a Hok Hb. by eapply renew_state_ok.
Qed.

Lemma mem_end_rebuild_preserves lease : op_preserves (mem_end_rebuild lease).
Proof.
  apply guarded_preserves. intros [] _. apply rebuild_op_preserves.
  intros state state' a Hok Hb. eapply release_state_ok; [done|exact Hb|by left].
Qed.

Lemma mem_force_release_rebuild_preserves owner : op_preserves (mem_force_release_rebuild owner).
Proof.
  apply guarded_preserves. intros [] _. apply rebuild_op_preserves.
  intros state state' a Hok Hb. eapply release_state_ok; [done|exact Hb|by right].
Qed.

Lemma mem_write_rebuild_views_preserves lease views now :
  op_preserves (mem_write_rebuild_views lease views now).
Proof.
  apply guarded_preserves. intros [] _ r Hok. destruct (rebuild_views _ _ _ _) eqn:Hv; [|done].
  unfold rebuild_views in Hv. rewrite !check_bind_ok in Hv. destruct Hv as (_ & _ & Hv).
  injection Hv as <-. by apply set_views_ok.
Qed.

Lemma mem_put_view_preserves row : op_preserves (mem_put_view row).
Proof.
  apply guarded_preserves. intros [] _ r [Hs Hv Ho Hr]. split; simpl; try done.
  intros key row'. destruct (decide ((vr_pk (default_sk row), vr_sk (default_sk row)) = key))
    as [<-|Hne].
  - rewrite lookup_insert_eq. by intros [= <-].
  - rewrite lookup_insert_ne by done. apply Hv.
Qed.

Lemma mem_delete_view_preserves pk sk : op_preserves (mem_delete_view pk sk).
Proof.
  apply guarded_preserves. intros sk' _ r [Hs Hv Ho Hr]. split; simpl; try done.
  intros key row'. rewrite lookup_delete_Some. intros [_ Hl]. by apply Hv.
Qed.
