(* ===== verification/MemRefinement.v ===== *)
(** * The repository as a concurrent system

    Handles are cloned from one another and share one store; each operation of a handle is one
    atomic step. This file lists the operations that change the store, gives the system its step
    relation, and proves what holds of every reachable state, whichever handle ran which
    operation in whichever order. *)

From S2P Require Import Prelude Types Features Outcome Rebuild Wire Projection Repository.
From S2P Require Import Samples RebuildBatch Mem MemInvariant.

(** ** Calls *)

Inductive mem_call :=
| CCommit (c : Commit Empty_set)
| CTransaction (c : TransactionCommit Empty_set)
| CPutSnapshot (sn : SerializedSnapshot)
| CCompact (id : EntityId) (through : EventSequence)
| CAcceptJournal
| CUpdateManifest (change : FeatureManifest → FeatureManifest)
| CInitialize
| CBegin (owner : string) (lease : Duration) (now : Z)
| CRenew (lease : RebuildLease) (extend : Duration) (now : Z)
| CEnd (lease : RebuildLease)
| CForceRelease (owner : string)
| CWriteViews (lease : RebuildLease) (views : list ProjectedView) (now : Z)
| CPutView (row : ViewRow)
| CDeleteView (pk sk : string).

(** What a call returns, as far as its caller can tell success from failure. *)
Definition forget {A} (x : MemRepository * Result A) : MemRepository * Result unit :=
  (x.1, let? _ := x.2 in Ok tt).

Definition exec `{SerdeJson} (c : mem_call) (r : MemRepository) : MemRepository * Result unit :=
  match c with
  | CCommit c => mem_commit c r
  | CTransaction c => mem_commit_transaction c r
  | CPutSnapshot sn => forget (mem_put_snapshot sn r)
  | CCompact id through => forget (mem_compact_below id through r)
  | CAcceptJournal => mem_accept_journal r
  | CUpdateManifest change => mem_update_manifest change r
  | CInitialize => forget (mem_initialize r)
  | CBegin owner lease now => forget (mem_begin_rebuild owner lease now r)
  | CRenew lease extend now => forget (mem_renew_rebuild lease extend now r)
  | CEnd lease => forget (mem_end_rebuild lease r)
  | CForceRelease owner => forget (mem_force_release_rebuild owner r)
  | CWriteViews lease views now => mem_write_rebuild_views lease views now r
  | CPutView row => mem_put_view row r
  | CDeleteView pk sk => mem_delete_view pk sk r
  end.

(** ** Handles *)

Record Handle := mkHandle { hd_validated : CachedMarker; hd_journaling : bool }.

Record System := mkSystem { sy_store : MemStore; sy_handles : list Handle }.

Definition repository_of (s : MemStore) (h : Handle) : MemRepository :=
  mkMemRepository s (hd_validated h) (hd_journaling h).
Definition handle_of (r : MemRepository) : Handle := mkHandle (mr_validated r) (mr_journaling r).

(** crates/evt/src/mem.rs:62-75 [MemRepository::clone]

    A clone shares the store and starts with its original's marker and journaling. *)
Definition clone_handle (h : Handle) : Handle := mkHandle (hd_validated h) (hd_journaling h).

Definition initial : System :=
  mkSystem (mr_store mem_new) [handle_of mem_new].

Section system.
Context `{SerdeJson}.

Inductive step : System → System → Prop :=
| step_call s hs i h c r' res :
    hs !! i = Some h → exec c (repository_of s h) = (r', res) →
    step (mkSystem s hs) (mkSystem (mr_store r') (<[i := handle_of r']> hs))
| step_clone s hs i h :
    hs !! i = Some h → step (mkSystem s hs) (mkSystem s (hs ++ [clone_handle h])).

(** The systems reachable in [n] steps. *)
Inductive reach : nat → System → Prop :=
| reach_init : reach 0 initial
| reach_step n x y : reach n x → step x y → reach (S n) y.

(** One handle running a sequence of calls. *)
Definition run_call (x : System) (c : mem_call) : System :=
  match sy_handles x with
  | h :: hs =>
      let r' := (exec c (repository_of (sy_store x) h)).1 in
      mkSystem (mr_store r') (handle_of r' :: hs)
  | [] => x
  end.

Definition run (calls : list mem_call) : System := fold_left run_call calls initial.

Lemma run_call_step x c : sy_handles x ≠ [] → step x (run_call x c) ∧ sy_handles (run_call x c) ≠ [].
Proof.
  destruct x as [s [|h hs]]; [done|]. intros _. unfold run_call. simpl. split; [|done].
  destruct (exec c (repository_of s h)) as [r' res] eqn:He.
  by apply (step_call s (h :: hs) 0 h c r' res).
Qed.

Lemma fold_run_reach n x calls :
  reach n x → sy_handles x ≠ [] → reach (n + length calls) (fold_left run_call calls x).
Proof.
  revert n x. induction calls as [|c calls IH]; intros n x Hn Hx; simpl.
  - by rewrite Nat.add_0_r.
  - destruct (run_call_step x c Hx) as [Hstep Hx'].
    replace (n + S (length calls))%nat with (S n + length calls)%nat by lia.
    apply IH; [by eapply reach_step|done].
Qed.

Lemma run_reach calls : reach (length calls) (run calls).
Proof. by apply (fold_run_reach 0); [constructor|]. Qed.

(** ** The store invariant *)

Lemma exec_preserves c r : store_ok (mr_store r) → store_ok (mr_store (exec c r).1).
Proof.
  intros Hok. destruct c; simpl.
  - by apply mem_commit_preserves.
  - by apply mem_commit_transaction_preserves.
  - by apply mem_put_snapshot_preserves.
  - by apply mem_compact_below_preserves.
  - by apply mem_accept_journal_preserves.
  - by apply mem_update_manifest_preserves.
  - by apply mem_initialize_preserves.
  - by apply mem_begin_rebuild_preserves.
  - by apply mem_renew_rebuild_preserves.
  - by apply mem_end_rebuild_preserves.
  - by apply mem_force_release_rebuild_preserves.
  - by apply mem_write_rebuild_views_preserves.
  - by apply mem_put_view_preserves.
  - by apply mem_delete_view_preserves.
Qed.

Lemma reach_ok n x : reach n x → store_ok (sy_store x).
Proof.
  induction 1 as [|n x y _ IH Hstep]; [apply mem_new_ok|].
  destruct Hstep as [s hs i h c r' res Hh He|]; [|done]. simpl in *.
  pose proof (exec_preserves c (repository_of s h) IH) as Hok. by rewrite He in Hok.
Qed.
End system.

(** The calls of the example: two commits to one stream, a snapshot, and a compaction. *)
Definition sample_calls : list mem_call := [
  CCommit (sample_commit "a" [1; 2]);
  CCommit (sample_commit "a" [3; 4]);
  CPutSnapshot (sample_snapshot "a" 1 3);
  CCompact "a" 2
].

(** * Refinement of an append-only log

    The abstract store is what the library promises its users: a sequence of commits, each of which
    appended events to some streams at once, so that every entity has the list of all events ever
    committed to it, growing only at its end; and for every command the outcome that was recorded
    first. Compaction, snapshots, views, the manifest and the rebuild fence do not exist
    there. Every step of the concrete system, run by any handle, is a step of the abstract store. *)

Definition log_at (log : gmap EntityId (list SerializedEvent)) (id : EntityId)
  : list SerializedEvent := default [] (log !! id).

Definition append_batch (log : gmap EntityId (list SerializedEvent))
    (batch : EntityId * list SerializedEvent) : gmap EntityId (list SerializedEvent) :=
  <[batch.1 := log_at log batch.1 ++ batch.2]> log.

Definition append_all (log : gmap EntityId (list SerializedEvent))
    (batches : list (EntityId * list SerializedEvent)) : gmap EntityId (list SerializedEvent) :=
  fold_left append_batch batches log.

(** The abstract store: the commits in the order they took effect, each the events it appended to
    some streams, and the recorded outcomes. *)
Record Abs := mkAbs {
  ab_commits : list (list (EntityId * list SerializedEvent));
  ab_outcomes : gmap CommandId Outcome
}.

(** The streams after a sequence of commits, and after all of them. *)
Definition log_after (commits : list (list (EntityId * list SerializedEvent)))
  : gmap EntityId (list SerializedEvent) := fold_left append_all commits ∅.

Definition ab_log (a : Abs) : gmap EntityId (list SerializedEvent) := log_after (ab_commits a).

Definition abs_initial : Abs := mkAbs [] ∅.

(** One atomic step of the abstract store: nothing, or events appended to some streams, each
    numbered from the end of its stream, together with at most one outcome that is new. *)
Inductive abs_step : Abs → Abs → Prop :=
| abs_same a : abs_step a a
| abs_append a batches outcome :
    NoDup (map fst batches) →
    Forall (λ b, numbered (llen (log_at (ab_log a) b.1) + 1) b.2 ∧
                 Forall (event_of b.1) b.2) batches →
    (∀ o, outcome = Some o → ab_outcomes a !! oc_command_id o = None) →
    abs_step a (mkAbs (ab_commits a ++ [batches])
      match outcome with
      | Some o => <[oc_command_id o := o]> (ab_outcomes a)
      | None => ab_outcomes a
      end).

(** The concrete store [s] represents the abstract store [a]: heads are lengths, stored events
    are the committed ones, outcomes agree. *)
Record refines (a : Abs) (s : MemStore) : Prop := {
  rf_head : ∀ id, st_head (stream_at (ms_streams s) id) = llen (log_at (ab_log a) id);
  rf_event : ∀ id k e, st_events (stream_at (ms_streams s) id) !! k = Some e →
    log_at (ab_log a) id !! Z.to_nat (k - 1) = Some e;
  rf_outcomes : ms_outcomes s = ab_outcomes a
}.

Lemma refines_initial : refines abs_initial (mr_store mem_new).
Proof. by split. Qed.

Lemma append_batch_lookup log id es id' :
  log_at (append_batch log (id, es)) id' =
  if decide (id = id') then log_at log id ++ es else log_at log id'.
Proof.
  unfold append_batch, log_at. simpl. destruct (decide (id = id')) as [<-|Hne].
  - by rewrite lookup_insert_eq.
  - by rewrite lookup_insert_ne.
Qed.

Lemma append_all_lookup batches log id :
  NoDup (map fst batches) →
  (∃ es, (id, es) ∈ batches ∧ log_at (append_all log batches) id = log_at log id ++ es) ∨
  (id ∉ map fst batches ∧ log_at (append_all log batches) id = log_at log id).
Proof.
  unfold append_all. revert log. induction batches as [|[id' es'] batches IH]; intros log Hnd; simpl.
  { right. split; [apply not_elem_of_nil|done]. }
  apply NoDup_cons in Hnd as [Hnin Hnd]. simpl in Hnin.
  destruct (IH (append_batch log (id', es')) Hnd) as [(es & Hin & Heq)|[Hn Heq]].
  - left. exists es. split; [by apply list_elem_of_further|]. rewrite Heq, append_batch_lookup.
    destruct (decide (id' = id)) as [->|Hne]; [|done].
    destruct Hnin. by apply (list_elem_of_fmap_2 fst _ (id, es)).
  - rewrite Heq, append_batch_lookup. destruct (decide (id' = id)) as [<-|Hne].
    + left. exists es'. split; [apply list_elem_of_here|done].
    + right. split; [|done]. rewrite not_elem_of_cons. by split.
Qed.

(** ** The simulation *)

(** The batches of a write. *)
Definition batches_of {X} (streams : list (Commit X)) : list (EntityId * list SerializedEvent) :=
  map (λ c, (cm_entity_id c, cm_events c)) streams.

Definition abs_after {X} (a : Abs) (streams : list (Commit X)) (outcome : option Outcome) : Abs :=
  mkAbs (ab_commits a ++ [batches_of streams])
    match outcome with
    | Some o => <[oc_command_id o := o]> (ab_outcomes a)
    | None => ab_outcomes a
    end.

Lemma log_after_append commits batches :
  log_after (commits ++ [batches]) = append_all (log_after commits) batches.
Proof. apply fold_left_app. Qed.

Lemma abs_after_log {X} a (streams : list (Commit X)) outcome :
  ab_log (abs_after a streams outcome) = append_all (ab_log a) (batches_of streams).
Proof. apply log_after_append. Qed.

Lemma batches_ids {X} (streams : list (Commit X)) :
  map fst (batches_of streams) = map cm_entity_id streams.
Proof. unfold batches_of. by rewrite map_map. Qed.

Section write.
Context {X : Type} (a : Abs) (s : MemStore) (streams : list (Commit X)) (fences : list ReadFence)
  (views : list ProjectedView) (outcome : option Outcome) (s' : MemStore).
Context (Hr : refines a s) (Hok : store_ok s) (Hc : Forall commit_ok streams)
  (Hnd : NoDup (map cm_entity_id streams)) (Hw : written s streams fences views outcome s').

Lemma written_abs_step : abs_step a (abs_after a streams outcome).
Proof.
  apply abs_append.
  - by rewrite batches_ids.
  - apply Forall_forall. intros [id es] (c & Heq & Hin)%list_elem_of_fmap.
    injection Heq as -> ->. simpl. pose proof (wr_streams _ _ _ _ _ _ Hw) as Hf.
    rewrite Forall_forall in Hc, Hf. destruct (cm_events c) as [|first rest] eqn:Hev;
      [by split; constructor|]. rewrite <-Hev.
    destruct (stream_failure_nil _ _ _ _ (Hc c Hin) Hev (Hf c Hin)) as [Hfirst _].
    destruct (Hc c Hin) as [_ Hcok]. destruct (Hcok _ _ Hev) as (_ & Hn & Hall).
    rewrite <-(rf_head _ _ Hr), <-Hfirst. by split.
  - intros o Ho. rewrite <-(rf_outcomes _ _ Hr). by apply (wr_fresh _ _ _ _ _ _ Hw).
Qed.

Lemma written_log id :
  (∃ c first rest last, c ∈ streams ∧ cm_entity_id c = id ∧ cm_events c = first :: rest ∧
     last_event (cm_events c) = Some last ∧
     ev_sequence first = st_head (stream_at (ms_streams s) id) + 1 ∧
     stream_at (ms_streams s') id = appended (stream_at (ms_streams s) id) c last ∧
     log_at (append_all (ab_log a) (batches_of streams)) id = log_at (ab_log a) id ++ cm_events c) ∨
  (stream_at (ms_streams s') id = stream_at (ms_streams s) id ∧
     log_at (append_all (ab_log a) (batches_of streams)) id = log_at (ab_log a) id).
Proof.
  destruct (append_all_lookup (batches_of streams) (ab_log a) id) as [(es & Hin & Hlog)|[Hnin Hlog]];
    [by rewrite batches_ids| |].
  - apply list_elem_of_fmap in Hin as (c' & Heq & Hin'). injection Heq as -> ->.
    destruct (written_stream _ _ _ _ _ _ (cm_entity_id c') Hw Hok Hc Hnd)
      as [(c & first & rest & last & Hin & Hid & Hev & Hl & Hfirst & Heq)|[Hnone Heq]].
    + left. exists c, first, rest, last. unfold stream_at at 2. rewrite Heq. simpl.
      split; [done|]. split; [done|]. split; [done|]. split; [done|]. split; [done|].
      split; [done|]. rewrite Hlog. f_equal.
      (* one commit per entity *)
      apply list_elem_of_lookup in Hin as [i Hi]. apply list_elem_of_lookup in Hin' as [j Hj].
      assert (i = j) as ->.
      { apply (NoDup_lookup (map cm_entity_id streams) i j (cm_entity_id c')); [done| |].
        - rewrite list_lookup_fmap, Hi. simpl. by rewrite Hid.
        - by rewrite list_lookup_fmap, Hj. }
      congruence.
    + right. unfold stream_at. rewrite Heq. split; [done|].
      rewrite Hlog, (Hnone c' Hin' eq_refl). by rewrite app_nil_r.
  - right. split; [|done].
    destruct (written_stream _ _ _ _ _ _ id Hw Hok Hc Hnd)
      as [(c & first & rest & last & Hin & Hid & _)|[_ Heq]].
    + exfalso. apply Hnin. rewrite batches_ids, <-Hid. by apply list_elem_of_fmap_2.
    + unfold stream_at. by rewrite Heq.
Qed.

Lemma written_refines : refines (abs_after a streams outcome) s'.
Proof.
  split.
  - intros id. rewrite abs_after_log.
    destruct (written_log id) as [(c & first & rest & last & Hin & Hid & Hev & Hl & Hfirst & Heq & Hlog)
      |[Heq Hlog]]; rewrite Heq, Hlog; [|apply Hr].
    rewrite Forall_forall in Hc. subst id.
    destruct (appended_ok c (stream_at (ms_streams s) (cm_entity_id c)) first rest last
      (Hc c Hin) (stream_at_ok _ _ Hok) Hev Hfirst Hl) as [_ Hhead].
    rewrite Hhead, (rf_head _ _ Hr). unfold llen. rewrite length_app. lia.
  - intros id k e. rewrite abs_after_log.
    destruct (written_log id) as [(c & first & rest & last & Hin & Hid & Hev & Hl & Hfirst & Heq & Hlog)
      |[Heq Hlog]]; rewrite Heq, Hlog; [|apply Hr].
    rewrite Forall_forall in Hc. destruct (Hc c Hin) as [_ Hcok].
    destruct (Hcok _ _ Hev) as (_ & Hn & _). simpl st_events.
    rewrite (insert_events_lookup _ _ _ _ Hn). rewrite Hfirst, (rf_head _ _ Hr).
    unfold llen. destruct (decide _) as [Hrange|Hrange]; intros He.
    + rewrite lookup_app_r by lia.
      by replace (Z.to_nat (k - 1) - length (log_at (ab_log a) id))%nat
        with (Z.to_nat (k - (Z.of_nat (length (log_at (ab_log a) id)) + 1))) by lia.
    + apply (rf_event _ _ Hr) in He as He'. by apply lookup_app_l_Some.
  - rewrite (wr_store _ _ _ _ _ _ Hw). simpl. by rewrite (rf_outcomes _ _ Hr).
Qed.
End write.

Lemma refines_same a s s' :
  refines a s → ms_outcomes s' = ms_outcomes s →
  (∀ id, st_head (stream_at (ms_streams s') id) = st_head (stream_at (ms_streams s) id) ∧
     st_events (stream_at (ms_streams s') id) ⊆ st_events (stream_at (ms_streams s) id)) →
  refines a s'.
Proof.
  intros [Hh He Ho] Hout Hst. split.
  - intros id. destruct (Hst id) as [-> _]. apply Hh.
  - intros id k e Hk. destruct (Hst id) as [_ Hsub]. apply He. by eapply lookup_weaken.
  - by rewrite Hout.
Qed.

Lemma stream_at_insert streams id stream id' :
  stream_at (<[id := stream]> streams) id' =
  if decide (id = id') then stream else stream_at streams id'.
Proof.
  unfold stream_at. destruct (decide (id = id')) as [<-|Hne].
  - by rewrite lookup_insert_eq.
  - by rewrite lookup_insert_ne.
Qed.

(** An operation simulates when each of its runs is one abstract step. *)
Definition op_simulates {A} (o : Op A) : Prop :=
  ∀ a r, refines a (mr_store r) → store_ok (mr_store r) →
  ∃ a', abs_step a a' ∧ refines a' (mr_store (o r).1).

(** An operation that changes no stream's head, adds no event, and records no outcome. *)
Definition op_silent {A} (o : Op A) : Prop :=
  ∀ r, let s := mr_store r in let s' := mr_store (o r).1 in
  store_ok s → ms_outcomes s' = ms_outcomes s ∧
  ∀ id, st_head (stream_at (ms_streams s') id) = st_head (stream_at (ms_streams s) id) ∧
     st_events (stream_at (ms_streams s') id) ⊆ st_events (stream_at (ms_streams s) id).

Lemma silent_simulates {A} (o : Op A) : op_silent o → op_simulates o.
Proof.
  intros Ho a r Hr Hok. exists a. split; [constructor|].
  destruct (Ho r Hok) as [Hout Hst]. by eapply refines_same.
Qed.

Lemma guarded_simulates {A B} (c : Result A) (k : A → Op B) :
  (∀ x, c = Ok x → op_simulates (k x)) → op_simulates (guarded c k).
Proof.
  intros Hk a r Hr Hok. unfold guarded. destruct c; [by apply Hk|].
  exists a. split; [constructor|done].
Qed.

Lemma guarded_silent {A B} (c : Result A) (k : A → Op B) :
  (∀ x, c = Ok x → op_silent (k x)) → op_silent (guarded c k).
Proof. intros Hk r s s' Hok. unfold s', guarded. destruct c; [by apply Hk|done]. Qed.

Lemma pure_op_silent {A} (c : Result A) : op_silent (pure_op c).
Proof. done. Qed.

Lemma refines_set_manifest a s m : refines a s → refines a (set_manifest s m).
Proof. intros []. by split. Qed.

Lemma mem_write_simulates {X} (streams : list (Commit X)) fences views outcome retention :
  Forall commit_ok streams → NoDup (map cm_entity_id streams) →
  op_simulates (mem_write streams fences views outcome retention).
Proof.
  intros Hc Hnd a r Hr Hok. unfold mem_write.
  destruct (check_manifest r) as [[m v]|e]; [|exists a; split; [constructor|done]].
  apply (refines_set_manifest _ _ m) in Hr. apply (set_manifest_ok _ m) in Hok.
  destruct (write_locked _ _ _ _ _ _) as [s'|e] eqn:Hw; simpl.
  - apply write_locked_ok in Hw as [Hw _]. exists (abs_after a streams outcome).
    split; [by eapply written_abs_step|by eapply written_refines].
  - exists a. split; [constructor|done].
Qed.

Section json.
Context `{SerdeJson}.

Lemma mem_commit_simulates c : op_simulates (mem_commit c).
Proof.
  apply guarded_simulates. intros [] Hv. apply check_bind_ok in Hv as [Hv Hr].
  apply check_not_reserved_ok in Hr. destruct (_ && _); [apply silent_simulates, pure_op_silent|].
  apply guarded_simulates. intros [] _. apply mem_write_simulates; [|apply NoDup_singleton].
  apply Forall_singleton. by apply validate_commit_ok.
Qed.

Lemma mem_commit_transaction_simulates c : op_simulates (mem_commit_transaction c).
Proof.
  apply guarded_simulates. intros c' Hn%normalize_ok.
  destruct (transaction_is_empty c'); [apply silent_simulates, pure_op_silent|].
  apply guarded_simulates. intros [] _.
  apply mem_write_simulates; [by eapply normalized_commit_ok|apply Hn].
Qed.
End json.

Lemma mem_put_snapshot_silent sn : op_silent (mem_put_snapshot sn).
Proof.
  apply guarded_silent. intros [] _ r s s' Hok. unfold s'.
  destruct (check_manifest r) as [[m v]|e]; [|done]. cbv zeta.
  destruct (_ && _); [done|].
  match goal with |- context [if ?b then (_, Ok false) else _] => destruct b end; [done|].
  split; [done|]. simpl. intros id. rewrite stream_at_insert.
  by destruct (decide _) as [<-|]; simpl.
Qed.

Lemma mem_compact_below_silent id through : op_silent (mem_compact_below id through).
Proof.
  apply guarded_silent. intros [] _ r s s' Hok. unfold s'. destruct (through <? 1); [done|].
  destruct (validate_marker_for_write _ _); [|done].
  destruct (compact_stream _ _ _) as [[stream' removed]|] eqn:Hc; [|done]. simpl.
  apply compact_stream_ok in Hc as (stream & sn & Hl & Hs & Hle & _ & -> & _).
  split; [done|]. intros id'. rewrite stream_at_insert. destruct (decide _) as [<-|]; [|done].
  unfold s, stream_at. rewrite Hl. simpl. split; [done|]. apply map_filter_subseteq.
Qed.

Lemma mem_initialize_silent : op_silent mem_initialize.
Proof.
  intros r s s' _. unfold s', mem_initialize.
  match goal with |- context [match ?x with Ok _ => _ | Err _ => _ end] => destruct x as [[]|] end;
    [done| |done]. by destruct (any_data _).
Qed.

Lemma rebuild_op_silent {A} (f : RebuildState → Result (RebuildState * A)) : op_silent (rebuild_op f).
Proof. intros r s s' _. unfold s', rebuild_op. by destruct (f _) as [[? ?]|]. Qed.

Lemma mem_write_rebuild_views_silent lease views now :
  op_silent (mem_write_rebuild_views lease views now).
Proof.
  apply guarded_silent. intros [] _ r s s' _. unfold s'.
  destruct (rebuild_views _ _ _ _) eqn:Hv; [|done]. unfold rebuild_views in Hv.
  rewrite !check_bind_ok in Hv. destruct Hv as (_ & _ & Hv). by injection Hv as <-.
Qed.

Lemma exec_simulates `{SerdeJson} c a r :
  refines a (mr_store r) → store_ok (mr_store r) →
  ∃ a', abs_step a a' ∧ refines a' (mr_store (exec c r).1).
Proof.
  intros Hr Hok. destruct c; simpl;
    [by apply mem_commit_simulates|by apply mem_commit_transaction_simulates|..].
  - by apply (silent_simulates (mem_put_snapshot sn)); [apply mem_put_snapshot_silent| |].
  - by apply (silent_simulates (mem_compact_below id through)); [apply mem_compact_below_silent| |].
  - by apply (silent_simulates mem_accept_journal).
  - by apply (silent_simulates (mem_update_manifest change)).
  - by apply (silent_simulates mem_initialize); [apply mem_initialize_silent| |].
  - apply (silent_simulates (mem_begin_rebuild owner lease now)); [|done..].
    apply guarded_silent. intros x _. apply rebuild_op_silent.
  - apply (silent_simulates (mem_renew_rebuild lease extend now)); [|done..].
    apply guarded_silent. intros x _. apply rebuild_op_silent.
  - apply (silent_simulates (mem_end_rebuild lease)); [|done..].
    apply guarded_silent. intros x _. apply rebuild_op_silent.
  - apply (silent_simulates (mem_force_release_rebuild owner)); [|done..].
    apply guarded_silent. intros x _. apply rebuild_op_silent.
  - by apply (silent_simulates (mem_write_rebuild_views lease views now));
      [apply mem_write_rebuild_views_silent| |].
  - by apply (silent_simulates (mem_put_view row)); [apply guarded_silent| |].
  - by apply (silent_simulates (mem_delete_view pk sk)); [apply guarded_silent| |].
Qed.

Section system.
Context `{SerdeJson}.

Lemma step_refines n x y a :
  reach n x → refines a (sy_store x) → step x y →
  ∃ a', abs_step a a' ∧ refines a' (sy_store y).
Proof.
  intros Hn Hr Hstep. pose proof (reach_ok n x Hn) as Hok.
  destruct Hstep as [s hs i h c r' res Hh He|]; [|exists a; split; [constructor|done]].
  destruct (exec_simulates c a (repository_of s h) Hr Hok) as (a' & Ha & Hr').
  exists a'. by rewrite He in Hr'.
Qed.

Lemma reach_refines n x :
  reach n x → ∃ a, rtc abs_step abs_initial a ∧ refines a (sy_store x).
Proof.
  induction 1 as [|n x y Hn (a & Hrtc & Hr) Hstep].
  - exists abs_initial. split; [constructor|apply refines_initial].
  - destruct (step_refines n x y a Hn Hr Hstep) as (a' & Ha & Hr').
    exists a'. split; [|done]. by eapply rtc_r.
Qed.

(** The abstract store only grows. *)
Definition abs_le (a a' : Abs) : Prop :=
  (∀ id, log_at (ab_log a) id `prefix_of` log_at (ab_log a') id) ∧
  ab_outcomes a ⊆ ab_outcomes a' ∧
  ab_commits a `prefix_of` ab_commits a'.

#[export] Instance abs_le_preorder : PreOrder abs_le.
Proof.
  split.
  - intros a. by split.
  - intros a b c (H1 & H2 & H3) (H4 & H5 & H6). split_and!; [|by etrans|by etrans].
    intros id. by transitivity (log_at (ab_log b) id).
Qed.

Lemma abs_step_le a a' : abs_step a a' → abs_le a a'.
Proof.
  intros Hs. destruct Hs as [|a batches outcome Hnd _ Hfresh]; [reflexivity|]. split_and!.
  - intros id. unfold ab_log at 2. cbn [ab_commits]. rewrite log_after_append. fold (ab_log a).
    destruct (append_all_lookup batches (ab_log a) id Hnd) as [(es & _ & ->)|[_ ->]]; [|done].
    by apply prefix_app_r.
  - simpl. destruct outcome as [o|]; [|done]. apply insert_subseteq. by apply Hfresh.
  - by apply prefix_app_r.
Qed.

Lemma steps_le n x y a :
  reach n x → refines a (sy_store x) → rtc step x y →
  ∃ m a', reach m y ∧ refines a' (sy_store y) ∧ abs_le a a'.
Proof.
  intros Hn Hr Hrtc. revert n a Hn Hr. induction Hrtc as [x|x y z Hstep _ IH]; intros n a Hn Hr.
  - exists n, a. by split; [|split].
  - destruct (step_refines n x y a Hn Hr Hstep) as (a1 & Ha & Hr1).
    destruct (IH (S n) a1) as (m & a2 & Hm & Hr2 & Hle); [by eapply reach_step|done|].
    exists m, a2. split; [done|]. split; [done|]. etrans; [by apply abs_step_le|done].
Qed.

(** ** Properties *)

(** C1. Every state the system can reach, whichever handles ran whichever operations, represents
    an append-only log built by atomic appends from the empty one, and every further step of the
    system is one atomic step of that log: it appends to some streams exactly at their ends and
    records at most one outcome, for a command that had none, or it changes nothing. *)
Theorem system_refines_log (n : nat) (x : System) :
  reach n x →
  ∃ a, rtc abs_step abs_initial a ∧ refines a (sy_store x) ∧
    ∀ y, step x y → ∃ a', abs_step a a' ∧ refines a' (sy_store y).
Proof.
  intros Hn. destruct (reach_refines n x Hn) as (a & Hrtc & Hr). exists a.
  split; [done|]. split; [done|]. intros y. by eapply step_refines.
Qed.

(** C2. What is committed stays: whatever the handles do after a reachable state, a stream's head
    never goes back, a stored event is either still stored, unchanged, or was compacted away
    behind a snapshot that covers it, and a recorded outcome is never changed or lost. *)
Theorem committed_is_permanent (n : nat) (x y : System) :
  reach n x → rtc step x y →
  ms_outcomes (sy_store x) ⊆ ms_outcomes (sy_store y) ∧
  ∀ id, let before := stream_at (ms_streams (sy_store x)) id in
    let after := stream_at (ms_streams (sy_store y)) id in
    st_head before ≤ st_head after ∧
    ∀ k e, st_events before !! k = Some e →
      st_events after !! k = Some e ∨
      (st_events after !! k = None ∧
       ∃ sn, st_snapshot after = Some sn ∧ k ≤ sn_event_sequence sn).
Proof.
  intros Hn Hrtc. destruct (reach_refines n x Hn) as (a & _ & Hr).
  destruct (steps_le n x y a Hn Hr Hrtc) as (m & a' & Hm & Hr' & Hlog & Hout & _).
  pose proof (reach_ok n x Hn) as Hokx. pose proof (reach_ok m y Hm) as Hoky.
  split; [by rewrite (rf_outcomes _ _ Hr), (rf_outcomes _ _ Hr')|].
  intros id before after. specialize (Hlog id).
  assert (st_head before ≤ st_head after) as Hhead.
  { unfold before, after. rewrite (rf_head _ _ Hr), (rf_head _ _ Hr'). unfold llen.
    apply prefix_length in Hlog. lia. }
  split; [done|]. intros k e Hk.
  destruct (so_event _ _ (stream_at_ok _ id Hokx) k e Hk) as [Hrange _].
  change (1 ≤ k ≤ st_head before) in Hrange.
  destruct (st_events after !! k) as [e'|] eqn:He'.
  - left. apply (rf_event _ _ Hr) in Hk. apply (rf_event _ _ Hr') in He'.
    rewrite (prefix_lookup_Some _ _ _ _ Hk Hlog) in He'. by rewrite He'.
  - right. split; [done|]. apply (so_covered _ _ (stream_at_ok _ id Hoky)); [|done].
    change (1 ≤ k ≤ st_head after). lia.
Qed.
End system.

Lemma system_refines_log_witness :
  ∃ a, rtc abs_step abs_initial a ∧
    llen (log_at (ab_log a) "a") = 4 ∧
    refines a (sy_store (@run sample_json sample_calls)).
Proof.
  destruct (@system_refines_log sample_json _ _ (@run_reach sample_json sample_calls))
    as (a & Hrtc & Hr & _).
  exists a. split; [exact Hrtc|]. split; [|exact Hr].
  rewrite <-(rf_head _ _ Hr). vm_compute. reflexivity.
Defined.

Lemma committed_is_permanent_witness :
  ms_outcomes (sy_store (@run sample_json (take 2 sample_calls)))
    ⊆ ms_outcomes (sy_store (@run sample_json (take 3 sample_calls))) ∧
  st_head (stream_at (ms_streams (sy_store (@run sample_json (take 2 sample_calls)))) "a")
    ≤ st_head (stream_at (ms_streams (sy_store (@run sample_json (take 3 sample_calls)))) "a").
Proof.
  destruct (@committed_is_permanent sample_json _ _ (@run sample_json (take 3 sample_calls))
    (@run_reach sample_json (take 2 sample_calls))) as [Hout Hst].
  - apply rtc_once. apply (@run_call_step sample_json). vm_compute. discriminate.
  - split; [exact Hout|]. apply (Hst "a"%string).
Defined.
