(* ===== verification/MemRead.v ===== *)
(** * Reading what was written

    The reads of the in-memory repository, on stores that satisfy the invariant: a tail read
    returns exactly the events above its bound, in order and without a gap; a commit is read back
    as it was written; compaction is invisible to a reader that starts from the snapshot. *)

From S2P Require Import Prelude Types Features Outcome Rebuild Wire Projection Repository.
From S2P Require Import Samples RebuildBatch Mem MemInvariant MemRefinement.

(** ** Lemmas *)

Lemma numbered_sorted first events :
  numbered first events →
  StronglySorted (λ a b : Z * SerializedEvent, Z.leb a.1 b.1 = true)
    (map (λ e, (ev_sequence e, e)) events).
Proof.
  revert first. induction events as [|e events IH]; intros first Hn; simpl; [constructor|].
  destruct Hn as [He Hn]. constructor; [by eapply IH|]. apply Forall_forall.
  intros p (e' & -> & Hin)%list_elem_of_fmap. simpl.
  destruct (numbered_elem _ _ _ Hn Hin) as [Hr _]. lia.
Qed.

Lemma numbered_NoDup first events : numbered first events → NoDup events.
Proof.
  intros Hn. apply NoDup_alt. intros i j e Hi Hj.
  pose proof (numbered_lookup _ _ _ _ Hn Hi). pose proof (numbered_lookup _ _ _ _ Hn Hj). lia.
Qed.

(** A listing of an ordered map above a bound is the numbered list that holds its entries. *)
Lemma range_numbered (m : gmap Z SerializedEvent) after events :
  numbered (after + 1) events →
  (∀ k e, after < k → m !! k = Some e ↔ events !! Z.to_nat (k - after - 1) = Some e) →
  map snd (List.filter (λ e : Z * SerializedEvent, after <? e.1) (btree_entries Z.leb m)) = events.
Proof.
  intros Hn Hm.
  assert (List.filter (λ e : Z * SerializedEvent, after <? e.1) (btree_entries Z.leb m)
    = map (λ e, (ev_sequence e, e)) events) as ->.
  2: { rewrite map_map. simpl. apply map_id. }
  assert (∀ k e, (k, e) ∈ List.filter (λ e : Z * SerializedEvent, after <? e.1) (btree_entries Z.leb m)
    ↔ (k, e) ∈ map (λ e, (ev_sequence e, e)) events) as Helem.
  { intros k e. rewrite elem_of_list_filter, elem_of_btree_entries. simpl. split.
    - intros [Hk Hlt]. apply Hm in Hk; [|lia]. apply list_elem_of_fmap. exists e.
      pose proof (numbered_lookup _ _ _ _ Hn Hk). split; [f_equal; lia|].
      by eapply list_elem_of_lookup_2.
    - intros (e' & Heq & Hin)%list_elem_of_fmap. injection Heq as -> ->.
      destruct (numbered_elem _ _ _ Hn Hin) as [Hr Hl]. split; [|lia]. apply Hm; [lia|].
      by replace (ev_sequence e' - after - 1) with (ev_sequence e' - (after + 1)) by lia. }
  apply (StronglySorted_Permutation_eq (λ a b : Z * SerializedEvent, Z.leb a.1 b.1 = true)).
  - intros [k1 e1] [k2 e2] H1 H2 Hle1 Hle2. simpl in *. assert (k1 = k2) as -> by lia.
    apply elem_of_list_filter in H1 as [H1 _]. apply elem_of_list_filter in H2 as [H2 _].
    apply elem_of_btree_entries in H1, H2. congruence.
  - apply StronglySorted_filter, events_sorted.
  - by eapply numbered_sorted.
  - apply NoDup_Permutation.
    + eapply NoDup_fmap_1 with (f := fst). apply NoDup_map_filter, btree_entries_NoDup.
    + apply (NoDup_fmap_1 snd).
      change (NoDup (map snd (map (λ e, (ev_sequence e, e)) events))).
      rewrite map_map. simpl. rewrite map_id. by eapply numbered_NoDup.
    + by intros [k e].
Qed.

(** Two ordered maps that agree above a bound are listed alike above it. *)
Lemma range_ext (m1 m2 : gmap Z SerializedEvent) after :
  (∀ k, after < k → m1 !! k = m2 !! k) →
  List.filter (λ e : Z * SerializedEvent, after <? e.1) (btree_entries Z.leb m1) =
  List.filter (λ e : Z * SerializedEvent, after <? e.1) (btree_entries Z.leb m2).
Proof.
  intros Hm. apply (StronglySorted_Permutation_eq (λ a b : Z * SerializedEvent, Z.leb a.1 b.1 = true)).
  - intros [k1 e1] [k2 e2] H1 H2 Hle1 Hle2. simpl in *. assert (k1 = k2) as -> by lia.
    apply elem_of_list_filter in H1 as [H1 _]. apply elem_of_list_filter in H2 as [H2 _].
    apply elem_of_btree_entries in H1, H2. congruence.
  - apply StronglySorted_filter, events_sorted.
  - apply StronglySorted_filter, events_sorted.
  - apply NoDup_Permutation.
    + eapply NoDup_fmap_1 with (f := fst). apply NoDup_map_filter, btree_entries_NoDup.
    + eapply NoDup_fmap_1 with (f := fst). apply NoDup_map_filter, btree_entries_NoDup.
    + intros [k e]. rewrite !elem_of_list_filter, !elem_of_btree_entries. simpl.
      split; intros [Hl Hlt]; (split; [|done]); specialize (Hm k); rewrite <-Hl;
        [symmetry|]; apply Hm; lia.
Qed.

(** The consecutive entries of a map, as a list. *)
Lemma entries_list (m : gmap Z SerializedEvent) (n : nat) base :
  (∀ k, base < k ≤ base + Z.of_nat n → ∃ e, m !! k = Some e ∧ ev_sequence e = k) →
  ∃ events, numbered (base + 1) events ∧ length events = n ∧
    ∀ k, base < k ≤ base + Z.of_nat n → m !! k = events !! Z.to_nat (k - base - 1).
Proof.
  revert base. induction n as [|n IH]; intros base Hm.
  { exists []. split; [done|]. split; [done|]. lia. }
  destruct (Hm (base + 1)) as (e & He & Hs); [lia|].
  destruct (IH (base + 1)) as (events & Hn & Hlen & Hlook); [intros k Hk; apply Hm; lia|].
  exists (e :: events). split; [done|]. split; [simpl; lia|]. intros k Hk.
  destruct (decide (k = base + 1)) as [->|Hne].
  - replace (Z.to_nat (base + 1 - base - 1)) with 0%nat by lia. done.
  - rewrite Hlook by lia.
    by replace (Z.to_nat (k - base - 1)) with (S (Z.to_nat (k - (base + 1) - 1))) by lia.
Qed.

(** The sequence up to which a stream's snapshot covers it. *)
Definition covered (s : Stream) : EventSequence :=
  Z.max 0 match st_snapshot s with Some sn => sn_event_sequence sn | None => 0 end.

Lemma stream_tail id s base :
  stream_ok id s → covered s ≤ base ≤ st_head s →
  ∃ events, numbered (base + 1) events ∧ llen events = st_head s - base ∧
    (∀ k e, base < k → st_events s !! k = Some e ↔ events !! Z.to_nat (k - base - 1) = Some e) ∧
    map snd (List.filter (λ e : Z * SerializedEvent, base <? e.1)
      (btree_entries Z.leb (st_events s))) = events.
Proof.
  intros Hok Hb. unfold covered in Hb.
  destruct (entries_list (st_events s) (Z.to_nat (st_head s - base)) base)
    as (events & Hn & Hlen & Hlook).
  { intros k Hk. destruct (st_events s !! k) as [e|] eqn:He.
    - exists e. split; [done|]. by apply (so_event _ _ Hok) in He as (_ & ? & _).
    - destruct (so_covered _ _ Hok k) as (sn & Hs & Hle); [lia|done|]. rewrite Hs in Hb. lia. }
  assert (∀ k e, base < k →
    st_events s !! k = Some e ↔ events !! Z.to_nat (k - base - 1) = Some e) as Hiff.
  { intros k e Hk. destruct (decide (k ≤ st_head s)) as [Hle|Hgt].
    - rewrite Hlook by lia. done.
    - split; intros He.
      + apply (so_event _ _ Hok) in He as [? _]. lia.
      + apply lookup_lt_Some in He. lia. }
  exists events. split; [done|]. split; [unfold llen; lia|]. split; [done|].
  by apply range_numbered.
Qed.

Lemma mem_events_after_stream s id after :
  mem_events_after s id after =
  map snd (List.filter (λ e : Z * SerializedEvent, after <? e.1)
    (btree_entries Z.leb (st_events (stream_at (ms_streams s) id)))).
Proof.
  unfold mem_events_after, stream_at. by destruct (ms_streams s !! id).
Qed.

(** Everything a successful commit of events has established. *)
Lemma mem_commit_written `{SerdeJson} c r r' :
  mem_commit c r = (r', Ok tt) → has_events c = true →
  ∃ manifest, commit_ok c ∧
    check_views (cm_views c) = Ok tt ∧
    written (set_manifest (mr_store r) manifest) [c] [] (cm_views c) (stored_outcome c)
      (mr_store r').
Proof.
  unfold mem_commit, guarded. intros Hc Hev.
  destruct (result_bind _ _) as [[]|] eqn:Hv in Hc; [|done].
  apply check_bind_ok in Hv as [Hv Hr]. apply check_not_reserved_ok in Hr.
  unfold has_events in Hev. destruct (cm_events c) as [|first rest] eqn:Hes; [done|].
  cbn [nil_b andb] in Hc. destruct (result_bind _ _) as [[]|] in Hc; [|done].
  unfold mem_write in Hc. destruct (check_manifest r) as [[m v]|]; [|done].
  destruct (write_locked _ _ _ _ _ _) as [s'|] eqn:Hw in Hc; [|done].
  injection Hc as <-. apply write_locked_ok in Hw as [Hw _]. exists m.
  split; [by apply validate_commit_ok|]. split; [|done].
  by destruct (validate_events c first rest Hv Hes) as (_ & _ & _ & _ & ?).
Qed.

Lemma appended_tail {X} (c : Commit X) held first rest last :
  commit_ok c → stream_ok (cm_entity_id c) held → cm_events c = first :: rest →
  ev_sequence first = st_head held + 1 → last_event (cm_events c) = Some last →
  map snd (List.filter (λ e : Z * SerializedEvent, st_head held <? e.1)
    (btree_entries Z.leb (st_events (appended held c last)))) = cm_events c.
Proof.
  intros [_ Hc] Hok Hev Hfirst Hl. destruct (Hc _ _ Hev) as (_ & Hn & _). rewrite Hfirst in Hn.
  apply range_numbered; [done|]. intros k e Hk. simpl st_events.
  rewrite (insert_events_lookup _ _ _ _ Hn). destruct (decide _) as [Hr|Hr].
  - by replace (Z.to_nat (k - st_head held - 1)) with (Z.to_nat (k - (st_head held + 1))) by lia.
  - split; intros He.
    + apply (so_event _ _ Hok) in He as [? _]. lia.
    + apply lookup_lt_Some in He. unfold llen in Hr. lia.
Qed.

(** ** Properties *)

(** C29. A tail read never has a gap: in every reachable state, reading a stream above any sequence
    its snapshot covers up to (or above zero, without one) returns events numbered consecutively
    from the next sequence, and as many as the stored head is ahead. *)
Theorem tail_reads_have_no_gap `{SerdeJson} (n : nat) (x : System) (id : EntityId)
    (after : EventSequence) :
  reach n x →
  let stream := stream_at (ms_streams (sy_store x)) id in
  covered stream ≤ after ≤ st_head stream →
  numbered (after + 1) (mem_events_after (sy_store x) id after) ∧
  llen (mem_events_after (sy_store x) id after) = st_head stream - after ∧
  derived_head stream = st_head stream.
Proof.
  intros Hn stream Ha. pose proof (stream_at_ok _ id (reach_ok n x Hn)) as Hok.
  destruct (stream_tail _ _ _ Hok Ha) as (events & Hnum & Hlen & _ & Heq).
  rewrite mem_events_after_stream, Heq.
  split; [done|]. split; [done|]. by apply derived_head_ok with id.
Qed.

Lemma tail_reads_have_no_gap_witness :
  map ev_sequence (mem_events_after (sy_store (@run sample_json sample_calls)) "a" 3) = [4] ∧
  numbered 4 (mem_events_after (sy_store (@run sample_json sample_calls)) "a" 3).
Proof.
  split; [vm_compute; reflexivity|].
  apply (@tail_reads_have_no_gap sample_json _ _ "a" 3 (@run_reach sample_json sample_calls)).
  vm_compute. split; discriminate.
Defined.

(** A successful commit is read back as it was written: its events start right above the head
    the stream had, they are exactly what a tail read above that head returns, the new head is
    the last of them, the snapshot it carried is the stream's snapshot and covers the new head,
    and no other stream changed. *)
Theorem commit_reads_back `{SerdeJson} (c : Commit Empty_set) (r r' : MemRepository) :
  store_ok (mr_store r) → mem_commit c r = (r', Ok tt) → has_events c = true →
  let id := cm_entity_id c in
  let before := stream_at (ms_streams (mr_store r)) id in
  let after := stream_at (ms_streams (mr_store r')) id in
  mem_events_after (mr_store r') id (st_head before) = cm_events c ∧
  numbered (st_head before + 1) (cm_events c) ∧
  st_head after = st_head before + llen (cm_events c) ∧
  (∀ new, cm_snapshot c = Some new →
     mem_snapshot (mr_store r') id = Some (snapshot_of id new (st_head after))) ∧
  ∀ other, other ≠ id → ms_streams (mr_store r') !! other = ms_streams (mr_store r) !! other.
Proof.
  intros Hok Hc Hev id before after.
  destruct (mem_commit_written c r r' Hc Hev) as (m & Hcok & _ & Hw).
  assert (Forall commit_ok [c]) as Hall by (by apply Forall_singleton).
  pose proof (NoDup_singleton (cm_entity_id c)) as Hnd.
  pose proof (set_manifest_ok _ m Hok) as Hok'.
  destruct (written_stream _ _ _ _ _ _ id Hw Hok' Hall Hnd)
    as [(c' & first & rest & last & Hin & Hid & Hes & Hl & Hfirst & Heq)|[Hnone _]].
  2: { unfold has_events in Hev. rewrite (Hnone c) in Hev; [done|apply list_elem_of_here|done]. }
  apply list_elem_of_singleton in Hin as ->.
  change (ev_sequence first = st_head before + 1) in Hfirst.
  change (ms_streams (mr_store r') !! id = Some (appended before c last)) in Heq.
  pose proof (stream_at_ok _ id Hok) as Hst.
  destruct (appended_ok c before first rest last Hcok Hst Hes Hfirst Hl) as [_ Hhead].
  assert (after = appended before c last) as Hafter by (unfold after, stream_at; by rewrite Heq).
  split; [|split; [|split; [|split]]].
  - rewrite mem_events_after_stream. change (stream_at (ms_streams (mr_store r')) id) with after.
    rewrite Hafter. by eapply appended_tail.
  - destruct Hcok as [_ Hcok]. destruct (Hcok _ _ Hes) as (_ & Hn & _). by rewrite <-Hfirst.
  - by rewrite Hafter.
  - intros new Hnew. unfold mem_snapshot. rewrite Heq. simpl. rewrite Hnew, Hafter, Hhead.
    do 2 f_equal. destruct Hcok as [_ Hcok]. destruct (Hcok _ _ Hes) as (_ & Hn & _).
    rewrite (last_event_numbered _ _ _ Hn Hl). lia.
  - intros other Hne.
    destruct (written_stream _ _ _ _ _ _ other Hw Hok' Hall Hnd)
      as [(c' & ? & ? & ? & Hin & Hid' & _)|[_ Heq']]; [|done].
    apply list_elem_of_singleton in Hin as ->. done.
Qed.

Definition snapshot_commit : Commit Empty_set :=
  mkCommit "a" [sample_event "a" 1; sample_event "a" 2] (Some (mkNewSnapshot "Account" 1 "{}"))
    [] [] None.

Lemma commit_reads_back_witness :
  map ev_sequence (mem_events_after (mr_store (@mem_commit sample_json snapshot_commit mem_new).1)
    "a" 0) = [1; 2] ∧
  mem_snapshot (mr_store (@mem_commit sample_json snapshot_commit mem_new).1) "a"
    = Some (sample_snapshot "a" 1 2).
Proof.
  destruct (@commit_reads_back sample_json snapshot_commit mem_new
    (@mem_commit sample_json snapshot_commit mem_new).1 mem_new_ok)
    as (Hread & _ & _ & Hsnap & _); [vm_compute; reflexivity|reflexivity|].
  split; [vm_compute; reflexivity|]. exact (Hsnap _ eq_refl).
Defined.

(** Compaction is invisible to a reader that starts at the snapshot: it removes exactly the
    events at or below [through], only when a snapshot covers them and the stream's type is not
    declared history-dependent, and it changes neither the snapshot, nor the head, nor any read
    above [through], nor any other stream. *)
Theorem compaction_is_transparent (id : EntityId) (through removed : Z) (r r' : MemRepository) :
  store_ok (mr_store r) → mem_compact_below id through r = (r', Ok removed) → 1 ≤ through →
  let before := stream_at (ms_streams (mr_store r)) id in
  let after := stream_at (ms_streams (mr_store r')) id in
  (∃ sn, st_snapshot before = Some sn ∧ through ≤ sn_event_sequence sn) ∧
  st_snapshot after = st_snapshot before ∧ st_head after = st_head before ∧
  (∀ k, st_events after !! k = if decide (k ≤ through) then None else st_events before !! k) ∧
  (∀ m t, ms_manifest (mr_store r) = Some m → stream_entity_type before = Some t →
     is_history_dependent m t = false) ∧
  (∀ from, through ≤ from →
     mem_events_after (mr_store r') id from = mem_events_after (mr_store r) id from) ∧
  ∀ other, other ≠ id → ms_streams (mr_store r') !! other = ms_streams (mr_store r) !! other.
Proof.
  intros Hok Hc Hone before after. unfold mem_compact_below, guarded in Hc.
  destruct (check_not_reserved id) eqn:Hres; [|done].
  replace (through <? 1) with false in Hc by lia.
  destruct (validate_marker_for_write _ _); [|done].
  destruct (compact_stream _ _ _) as [[stream' removed']|] eqn:Hcs; [|done].
  injection Hc as <- <-.
  apply compact_stream_ok in Hcs as (stream & sn & Hl & Hs & Hle & Hhist & -> & _).
  assert (before = stream) as Hbefore by (unfold before, stream_at; by rewrite Hl).
  assert (after = mkStream (filter (λ e, through < e.1) (st_events stream)) (Some sn) (st_head stream))
    as Hafter by (unfold after; simpl; rewrite stream_at_insert; by destruct (decide (id = id))).
  pose proof (stream_at_ok _ id Hok) as Hst. change (stream_ok id before) in Hst.
  rewrite Hbefore in Hst. rewrite Hbefore, Hafter. cbn [st_snapshot st_head st_events].
  split; [by exists sn|]. split; [done|]. split; [done|].
  assert (∀ k, filter (λ e : Z * SerializedEvent, through < e.1) (st_events stream) !! k =
    if decide (k ≤ through) then None else st_events stream !! k) as Hlook.
  { intros k. destruct (decide (k ≤ through)) as [Hk|Hk].
    - apply map_lookup_filter_None. right. intros e _. simpl. lia.
    - destruct (st_events stream !! k) as [e|] eqn:He.
      + apply map_lookup_filter_Some. split; [done|]. simpl. lia.
      + apply map_lookup_filter_None. by left. }
  split; [done|]. split; [done|]. split.
  - intros from Hfrom. rewrite !mem_events_after_stream.
    change (stream_at (ms_streams (mr_store r)) id) with before. rewrite Hbefore.
    cbn [mr_store with_store ms_streams set_streams]. rewrite stream_at_insert.
    destruct (decide (id = id)); [|done]. cbn [st_events].
    f_equal. apply range_ext. intros k Hk. rewrite Hlook. destruct (decide _); [lia|done].
  - intros other Hne. simpl. by rewrite lookup_insert_ne.
Qed.

(** A handle on the store after the first three calls of the example. *)
Definition sample_repository : MemRepository :=
  repository_of (sy_store (@run sample_json (take 3 sample_calls))) (mkHandle None false).

Lemma compaction_is_transparent_witness :
  map ev_sequence (mem_events_after (mr_store (mem_compact_below "a" 2 sample_repository).1) "a" 2)
    = [3; 4] ∧
  st_events (stream_at (ms_streams (mr_store (mem_compact_below "a" 2 sample_repository).1)) "a")
    !! 2 = None.
Proof.
  assert (store_ok (mr_store sample_repository)) as Hok
    by exact (@reach_ok sample_json _ _ (@run_reach sample_json (take 3 sample_calls))).
  assert (mem_compact_below "a" 2 sample_repository =
    ((mem_compact_below "a" 2 sample_repository).1, Ok 2)) as Hc by (vm_compute; reflexivity).
  destruct (compaction_is_transparent "a" 2 2 _ _ Hok Hc ltac:(lia))
    as (_ & _ & _ & Hevents & _).
  split; [vm_compute; reflexivity|]. exact (Hevents 2).
Defined.
