(* ===== verification/MemSafety.v ===== *)
(** * Safety of the in-memory repository

    Atomicity of failures, the exact verdict on a stale or early append, one outcome per command,
    ownership of view rows, the rebuild fence, and the marker cache: what no interleaving of
    handles can break. *)

From S2P Require Import Prelude Types Features Outcome Rebuild Wire Projection Repository.
From S2P Require Import Samples RebuildBatch Mem MemInvariant MemRefinement.
From S2P Require Import MemRead.

(** ** Failures change nothing *)

(** The two stores agree except for a declaration of stream heads on a store without data. *)
Record same_but_marker (r r' : MemRepository) : Prop := {
  sm_streams : ms_streams (mr_store r') = ms_streams (mr_store r);
  sm_views : ms_views (mr_store r') = ms_views (mr_store r);
  sm_outcomes : ms_outcomes (mr_store r') = ms_outcomes (mr_store r);
  sm_rebuild : ms_rebuild (mr_store r') = ms_rebuild (mr_store r);
  sm_manifest : ms_manifest (mr_store r') = ms_manifest (mr_store r) ∨
    (any_data (ms_streams (mr_store r)) = false ∧
     ms_manifest (mr_store r') = Some (declared (ms_manifest (mr_store r))));
  sm_journaling : mr_journaling r' = mr_journaling r
}.

Lemma same_refl r : same_but_marker r r.
Proof. split; try done. by left. Qed.

(** What the marker check may leave behind. *)
Lemma check_manifest_same r m v :
  check_manifest r = Ok (m, v) →
  same_but_marker r (with_validated (with_store r (set_manifest (mr_store r) m)) v).
Proof.
  unfold check_manifest. intros Hc. split; try done. simpl.
  destruct (marker_matches _ _); [injection Hc as <- <-; by left|].
  destruct (validate_marker_for_write _ _) as [marker|e]; [injection Hc as <- <-; by left|].
  destruct e; try done. destruct (any_data _) eqn:Hd; [done|]. injection Hc as <- <-. by right.
Qed.

Lemma mem_write_failed {X} (streams : list (Commit X)) fences views outcome retention r r' e :
  mem_write streams fences views outcome retention r = (r', Err e) → same_but_marker r r'.
Proof.
  unfold mem_write. destruct (check_manifest r) as [[m v]|] eqn:Hc.
  - destruct (write_locked _ _ _ _ _ _); [done|]. intros [= <- _].
    by apply check_manifest_same.
  - intros [= <- _]. apply same_refl.
Qed.

Lemma guarded_failed {A B} (c : Result A) (k : A → Op B) r r' e :
  (∀ a, c = Ok a → k a r = (r', Err e) → same_but_marker r r') →
  guarded c k r = (r', Err e) → same_but_marker r r'.
Proof.
  unfold guarded. destruct c as [a|]; intros Hk Hg; [by eapply Hk|].
  injection Hg as <- _. apply same_refl.
Qed.

Lemma forget_failed {A} (x : MemRepository * Result A) r' e :
  forget x = (r', Err e) → ∃ e', x = (r', Err e').
Proof. destruct x as [r [a|e']]; [done|]. intros [= <- _]. eauto. Qed.

Lemma rebuild_op_failed {A} (f : RebuildState → Result (RebuildState * A)) r r' e :
  rebuild_op f r = (r', Err e) → same_but_marker r r'.
Proof.
  unfold rebuild_op. destruct (f _) as [[? ?]|]; [done|]. intros [= <- _]. apply same_refl.
Qed.

(** Reduces a failed run to the branch that failed. *)
Ltac failed :=
  repeat match goal with
  | H : guarded _ _ _ = (_, Err _) |- _ => revert H; apply guarded_failed; intros ? ? H
  | H : rebuild_op _ _ = (_, Err _) |- _ => exact (rebuild_op_failed _ _ _ _ H)
  | H : (_, Err _) = (_, Err _) |- _ => injection H as <- _; apply same_refl
  | H : (_, Ok _) = (_, Err _) |- _ => discriminate H
  end.

Lemma mem_commit_failed `{SerdeJson} c r r' e :
  mem_commit c r = (r', Err e) → same_but_marker r r'.
Proof.
  unfold mem_commit. intros Hc. failed. destruct (_ && _); [done|]. failed.
  by eapply mem_write_failed.
Qed.

Lemma mem_commit_transaction_failed `{SerdeJson} c r r' e :
  mem_commit_transaction c r = (r', Err e) → same_but_marker r r'.
Proof.
  unfold mem_commit_transaction. intros Hc. failed. destruct (transaction_is_empty _); [done|].
  failed. by eapply mem_write_failed.
Qed.

Lemma mem_put_snapshot_failed sn r r' e :
  mem_put_snapshot sn r = (r', Err e) → same_but_marker r r'.
Proof.
  unfold mem_put_snapshot. intros Hc. failed.
  destruct (check_manifest r) as [[m v]|] eqn:Hm; [|by failed].
  cbv zeta in Hc. destruct (_ && _) in Hc.
  - injection Hc as <- _. by apply check_manifest_same.
  - match type of Hc with (if ?b then _ else _) = _ => destruct b end; done.
Qed.

Lemma mem_compact_below_failed id through r r' e :
  mem_compact_below id through r = (r', Err e) → same_but_marker r r'.
Proof.
  unfold mem_compact_below. intros Hc. failed. destruct (through <? 1); [done|].
  destruct (validate_marker_for_write _ _); [|by failed].
  destruct (compact_stream _ _ _) as [[? ?]|]; by failed.
Qed.

Lemma mem_initialize_failed r r' e : mem_initialize r = (r', Err e) → same_but_marker r r'.
Proof.
  unfold mem_initialize. intros Hc.
  match type of Hc with match ?x with Ok _ => _ | Err _ => _ end = _ => destruct x as [[]|] end;
    [done| |by failed]. destruct (any_data _); by failed.
Qed.

Lemma mem_write_rebuild_views_failed lease views now r r' e :
  mem_write_rebuild_views lease views now r = (r', Err e) → same_but_marker r r'.
Proof.
  unfold mem_write_rebuild_views. intros Hc. failed.
  destruct (rebuild_views _ _ _ _); by failed.
Qed.

(** ** Properties: atomicity *)

(** C28. A failed operation changes nothing: whatever call fails, for whatever reason, every
    stream, view row, recorded outcome and the rebuild fence are exactly as before. The one
    change a failed call may leave is the declaration of stream heads it makes first on a store
    that holds no data. *)
Theorem failed_call_changes_nothing `{SerdeJson} (c : mem_call) (r r' : MemRepository) (e : Error) :
  exec c r = (r', Err e) →
  ms_streams (mr_store r') = ms_streams (mr_store r) ∧
  ms_views (mr_store r') = ms_views (mr_store r) ∧
  ms_outcomes (mr_store r') = ms_outcomes (mr_store r) ∧
  ms_rebuild (mr_store r') = ms_rebuild (mr_store r) ∧
  (ms_manifest (mr_store r') = ms_manifest (mr_store r) ∨
    (any_data (ms_streams (mr_store r)) = false ∧
     ms_manifest (mr_store r') = Some (declared (ms_manifest (mr_store r))))).
Proof.
  intros He. assert (same_but_marker r r') as []; [|done].
  destruct c; simpl in He; try (apply forget_failed in He as [e' He]); try done.
  - by eapply mem_commit_failed.
  - by eapply mem_commit_transaction_failed.
  - by eapply mem_put_snapshot_failed.
  - by eapply mem_compact_below_failed.
  - by eapply mem_initialize_failed.
  - unfold mem_begin_rebuild in He. by failed.
  - unfold mem_renew_rebuild in He. by failed.
  - unfold mem_end_rebuild in He. by failed.
  - unfold mem_force_release_rebuild in He. by failed.
  - by eapply mem_write_rebuild_views_failed.
  - unfold mem_put_view in He. by failed.
  - unfold mem_delete_view in He. by failed.
Qed.

Lemma failed_call_changes_nothing_witness :
  ms_streams (mr_store (@exec sample_json (CCommit (sample_commit "a" [7])) sample_repository).1)
  = ms_streams (mr_store sample_repository).
Proof.
  apply (@failed_call_changes_nothing sample_json (CCommit (sample_commit "a" [7]))
    sample_repository _ (SequenceGap "a" 4 7)).
  vm_compute. reflexivity.
Defined.

(** ** The verdict on an append *)

Lemma probe_healthy id s healthy :
  stream_ok id s → probe s id healthy = healthy (st_head s).
Proof.
  intros Hok. unfold probe. rewrite (derived_head_ok id s Hok). unfold probe_first.
  by rewrite Z.compare_refl, Z.eqb_refl.
Qed.

(** A commit that gets as far as the streams: everything before them passed. *)
Record cleared `{SerdeJson} (c : Commit Empty_set) (r : MemRepository) : Prop := {
  ad_valid : validate c = Ok tt;
  ad_reserved : is_reserved (cm_entity_id c) = false;
  ad_budget :
    (let? sizes := commit_sizes c (λ _, None) in check_budget (sizes ++ view_sizes (cm_views c)))
    = Ok tt;
  ad_marker : is_ok (check_manifest r) = true;
  ad_settled : in_progress (ms_rebuild (mr_store r)) = false ∧
    is_settled (rs_generation (ms_rebuild (mr_store r))) = true;
  ad_outcome : ∀ o, cm_outcome c = Some o → ms_outcomes (mr_store r) !! oc_command_id o = None
}.

Lemma stored_outcome_id {X} (c : Commit X) o :
  stored_outcome c = Some o → ∃ o', cm_outcome c = Some o' ∧ oc_command_id o' = oc_command_id o.
Proof.
  unfold stored_outcome. destruct (cm_outcome c) as [o'|]; [|done]. intros [= <-]. by exists o'.
Qed.

(** An cleared commit is decided by its stream and its view conditions alone. *)
Lemma cleared_commit `{SerdeJson} c r :
  cleared c r → has_events c = true →
  (mem_commit c r).2 =
  let? _ := match rank (stream_failure (ms_streams (mr_store r)) c) with
            | Some error => Err error
            | None => Ok tt
            end in
  check_view_conditions (ms_views (mr_store r)) (cm_views c).
Proof.
  intros [Hv Hr Hb Hm [Hp Hs] Ho] Hev. unfold mem_commit, guarded.
  rewrite Hv. cbn [result_bind]. unfold check_not_reserved. rewrite Hr.
  unfold has_events in Hev. destruct (nil_b (cm_events c)) eqn:Hn; [done|].
  cbn [andb]. rewrite Hb. unfold mem_write.
  destruct (check_manifest r) as [[m v]|]; [|done]. unfold write_locked.
  cbn [result_bind mr_store with_validated with_store set_manifest ms_rebuild ms_outcomes
    ms_streams ms_views].
  rewrite Hp, Hs. cbn [orb negb result_bind].
  assert (match stored_outcome c with
    | Some o => if bool_decide (is_Some (ms_outcomes (mr_store r) !! oc_command_id o))
                then Err (OutcomeConflict (oc_command_id o)) else Ok tt
    | None => Ok tt end = (Ok tt : Result unit)) as ->.
  { destruct (stored_outcome c) as [o|] eqn:Hso; [|done].
    apply stored_outcome_id in Hso as (o' & Ho' & Hid). rewrite <-Hid, (Ho _ Ho').
    by rewrite bool_decide_eq_false_2. }
  cbn [result_bind map concat app]. rewrite !app_nil_r.
  destruct (rank _); [done|]. cbn [result_bind].
  by destruct (check_view_conditions _ _) as [[]|].
Qed.

(** The verdict on an append is exact: on a well-formed store, a commit that nothing else
    refuses and that does not start right above the stream's head fails with a sequence gap that
    names the head when it starts further up, and with a conflict when it starts at or below the
    head, so of two commits decided on the same head only the first can succeed. *)
Theorem misplaced_append_verdict `{SerdeJson} (c : Commit Empty_set) (r : MemRepository)
    (first : SerializedEvent) (rest : list SerializedEvent) :
  store_ok (mr_store r) → cleared c r → cm_events c = first :: rest →
  let head := st_head (stream_at (ms_streams (mr_store r)) (cm_entity_id c)) in
  ev_sequence first ≠ head + 1 →
  (mem_commit c r).2 =
    Err (if head + 1 <? ev_sequence first
         then SequenceGap (cm_entity_id c) head (ev_sequence first)
         else conflict (cm_entity_id c)).
Proof.
  intros Hok Had Hev head Hne.
  rewrite (cleared_commit c r Had) by (unfold has_events; by rewrite Hev).
  pose proof (stream_at_ok _ (cm_entity_id c) Hok) as Hst. pose proof (so_head _ _ Hst) as Hh.
  destruct (validate_events c first rest (ad_valid _ _ Had) Hev) as (Hone & _).
  unfold stream_failure. rewrite Hev, (probe_healthy _ _ _ Hst).
  replace (head_passes _ _) with false.
  - cbn [negb rank min_by_key result_bind]. unfold gap_or_conflict. fold head.
    destruct (Z.ltb_spec head (ev_sequence first - 1)), (Z.ltb_spec (head + 1) (ev_sequence first));
      try done; lia.
  - unfold head_passes. fold head. destruct (Z.leb_spec (ev_sequence first) 1); symmetry; lia.
Qed.

Lemma sample_cleared c :
  @validate Empty_set sample_json c = Ok tt → is_reserved (cm_entity_id c) = false →
  (let? sizes := @commit_sizes Empty_set sample_json c (λ _, None) in
   check_budget (sizes ++ view_sizes (cm_views c))) = Ok tt →
  cm_outcome c = None → @cleared sample_json c sample_repository.
Proof.
  intros Hv Hr Hb Ho. split; by rewrite ?Ho.
Qed.

Lemma misplaced_append_verdict_witness :
  (@mem_commit sample_json (sample_commit "a" [3]) sample_repository).2 = Err (conflict "a").
Proof.
  apply (@misplaced_append_verdict sample_json (sample_commit "a" [3]) sample_repository
    (sample_event "a" 3) []).
  - exact (@reach_ok sample_json _ _ (@run_reach sample_json (take 3 sample_calls))).
  - by apply sample_cleared; vm_compute.
  - reflexivity.
  - vm_compute. discriminate.
Defined.

(** ** One outcome per command *)

(** A command runs at most once: after an outcome is recorded for a command ID, no later
    state of the system has another outcome for it, and a commit or a transaction that carries
    that ID and passes the checks that precede the row fails with an outcome conflict. *)
Theorem outcome_is_recorded_once `{SerdeJson} (n : nat) (x y : System) (id : CommandId)
    (o : Outcome) :
  reach n x → rtc step x y → ms_outcomes (sy_store x) !! id = Some o →
  ms_outcomes (sy_store y) !! id = Some o ∧
  ∀ (streams : list (Commit Empty_set)) fences views o' retention,
    oc_command_id o' = id → retention (ms_manifest (sy_store y)) = Ok tt →
    in_progress (ms_rebuild (sy_store y)) = false →
    is_settled (rs_generation (ms_rebuild (sy_store y))) = true →
    write_locked (sy_store y) streams fences views (Some o') retention = Err (OutcomeConflict id).
Proof.
  intros Hn Hrtc Ho. assert (ms_outcomes (sy_store y) !! id = Some o) as Hy.
  { destruct (reach_refines n x Hn) as (a & _ & Hr).
    destruct (steps_le n x y a Hn Hr Hrtc) as (m & a' & Hm & Hr' & _ & Hout & _).
    rewrite (rf_outcomes _ _ Hr) in Ho. rewrite (rf_outcomes _ _ Hr'). by eapply lookup_weaken. }
  split; [done|]. intros streams fences views o' retention Hid Hret Hp Hs.
  unfold write_locked. rewrite Hret, Hp, Hs. cbn [result_bind orb negb]. rewrite Hid, Hy.
  by rewrite bool_decide_eq_true_2 by (by exists o).
Qed.

Definition outcome_calls : list mem_call :=
  [CCommit (with_sample_outcome (sample_commit "a" [1]) "cmd")].

Lemma outcome_is_recorded_once_witness :
  is_Some (ms_outcomes (sy_store (@run sample_json outcome_calls)) !! "cmd") ∧
  @write_locked Empty_set (sy_store (@run sample_json outcome_calls)) [] [] []
    (Some (sample_outcome "cmd")) (λ _, Ok tt) = Err (OutcomeConflict "cmd").
Proof.
  destruct (@outcome_is_recorded_once sample_json _ _ (@run sample_json outcome_calls) "cmd"
    (outcome_stored (sample_outcome "cmd") ["a:1"%string])
    (@run_reach sample_json outcome_calls) (rtc_refl _ _)) as [Ho Hw]; [vm_compute; reflexivity|].
  split; [by eexists|]. apply Hw; reflexivity.
Defined.

(** ** View rows *)

(** The row an operation leaves under its key. *)
Definition view_result (op : ViewOperation) : option ViewRow :=
  match vo_kind op with Put => Some (view_row_of op) | Delete => None end.

Lemma apply_view_lookup rows op key :
  apply_view rows op !! key = if decide (view_op_key op = key) then view_result op else rows !! key.
Proof.
  unfold apply_view, view_result. destruct (decide (view_op_key op = key)) as [<-|Hne];
    destruct (vo_kind op).
  - by rewrite lookup_insert_eq.
  - by rewrite lookup_delete_eq.
  - by rewrite lookup_insert_ne.
  - by rewrite lookup_delete_ne.
Qed.

(** A batch on distinct keys writes each of its keys once and no other. *)
Lemma apply_views_lookup rows views key :
  NoDup (view_keys views) →
  (∃ view, view ∈ views ∧ view_op_key (pv_op view) = key ∧
     apply_views rows views !! key = view_result (pv_op view)) ∨
  (key ∉ view_keys views ∧ apply_views rows views !! key = rows !! key).
Proof.
  unfold apply_views. revert rows. induction views as [|view views IH]; intros rows Hnd; simpl.
  { right. split; [apply not_elem_of_nil|done]. }
  apply NoDup_cons in Hnd as [Hnin Hnd].
  destruct (IH (apply_view rows (pv_op view)) Hnd) as [(v & Hin & Hk & Heq)|[Hn Heq]].
  - left. exists v. split; [by apply list_elem_of_further|done].
  - rewrite Heq, apply_view_lookup. destruct (decide _) as [Hk|Hk].
    + left. exists view. split; [apply list_elem_of_here|done].
    + right. split; [|done]. rewrite not_elem_of_cons. split; [congruence|done].
Qed.

(** A batch whose conditions hold touches a stored row only on behalf of its owner. *)
Lemma checked_views_owned rows views key row :
  check_views views = Ok tt →
  Forall (λ v, view_condition_held rows (pv_op v) = true) views →
  rows !! key = Some row →
  apply_views rows views !! key = Some row ∨
  ∃ view, view ∈ views ∧ view_op_key (pv_op view) = key ∧
    vo_owner (pv_op view) = vr_entity_id row ∧ vo_condition (pv_op view) ≠ CondAbsent ∧
    apply_views rows views !! key = view_result (pv_op view).
Proof.
  intros [_ Hnd]%check_views_ok Hall Hrow.
  destruct (apply_views_lookup rows views key Hnd) as [(v & Hin & Hk & Heq)|[_ Heq]];
    [|left; by rewrite Heq].
  right. exists v. rewrite Forall_forall in Hall. specialize (Hall v Hin). cbv beta in Hall.
  unfold view_condition_held in Hall. rewrite Hk, Hrow in Hall.
  apply andb_prop in Hall as [Hall _].
  destruct (vo_condition (pv_op v)); [..|]; try done; cbn [negb andb] in Hall;
    apply bool_decide_eq_true in Hall; by repeat split.
Qed.

(** The view operations a call writes. *)
Definition call_views (c : mem_call) : list ProjectedView :=
  match c with
  | CCommit c => cm_views c
  | CTransaction c => concat (map cm_views (List.filter has_events (tc_streams c))) ++ tc_views c
  | CWriteViews _ views _ => views
  | _ => []
  end.

(** Whether a call writes view rows under the projection rules. *)
Definition projects (c : mem_call) : bool :=
  match c with CCommit _ | CTransaction _ | CWriteViews _ _ _ => true | _ => false end.

Definition views_written (rows : gmap (string * string) ViewRow) (views : list ProjectedView)
    (rows' : gmap (string * string) ViewRow) : Prop :=
  rows' = rows ∨
  (check_views views = Ok tt ∧ Forall (λ v, view_condition_held rows (pv_op v) = true) views ∧
   rows' = apply_views rows views).

Lemma mem_write_views {X} (streams : list (Commit X)) fences views outcome retention r :
  check_views views = Ok tt →
  views_written (ms_views (mr_store r)) views
    (ms_views (mr_store (mem_write streams fences views outcome retention r).1)).
Proof.
  intros Hv. unfold mem_write. destruct (check_manifest r) as [[m v]|]; [|by left].
  destruct (write_locked _ _ _ _ _ _) as [s'|] eqn:Hw; [|by left].
  apply write_locked_ok in Hw as [Hw _]. right. split; [done|]. split; [apply Hw|].
  cbn [fst mr_store with_store]. by rewrite (wr_store _ _ _ _ _ _ Hw).
Qed.

Lemma normalize_views `{SerdeJson} {X} (c c' : TransactionCommit X) :
  normalize c = Ok c' →
  tc_views c' = concat (map cm_views (List.filter has_events (tc_streams c))) ++ tc_views c.
Proof.
  unfold normalize. rewrite !check_bind_ok. intros (_ & _ & _ & _ & Hn).
  destruct (_ && _); [done|]. apply check_bind_ok in Hn as [_ Hn]. by injection Hn as <-.
Qed.

Lemma guarded_views {A B} (c : Result A) (k : A → Op B) views r :
  (∀ a, c = Ok a → views_written (ms_views (mr_store r)) views (ms_views (mr_store (k a r).1))) →
  views_written (ms_views (mr_store r)) views (ms_views (mr_store (guarded c k r).1)).
Proof. unfold guarded. destruct c as [a|]; intros Hk; [by apply Hk|by left]. Qed.

(** The views of a valid commit pass the batch check, with or without events. *)
Lemma validate_views `{SerdeJson} {X} (c : Commit X) :
  validate c = Ok tt → check_views (cm_views c) = Ok tt.
Proof.
  intros Hv. destruct (cm_events c) as [|first rest] eqn:Hev.
  - unfold validate in Hv. apply check_bind_ok in Hv as [_ Hv]. rewrite Hev in Hv.
    destruct (cm_views c); [done|]. by rewrite orb_true_r in Hv.
  - by destruct (validate_events c first rest Hv Hev) as (_ & _ & _ & _ & ?).
Qed.

Lemma exec_views `{SerdeJson} c r :
  projects c = true →
  views_written (ms_views (mr_store r)) (call_views c) (ms_views (mr_store (exec c r).1)).
Proof.
  intros Hp. destruct c as [c|c| | | | | | | | | |lease views now| |]; try done;
    cbn [exec call_views]; apply guarded_views.
  - intros [] Hv. apply check_bind_ok in Hv as [Hv _]. destruct (_ && _); [by left|].
    apply guarded_views. intros [] _. by apply mem_write_views, validate_views.
  - intros c' Hn. destruct (transaction_is_empty c'); [by left|].
    apply guarded_views. intros [] _. rewrite <-(normalize_views _ _ Hn). apply mem_write_views.
    by apply normalize_ok in Hn as [].
  - intros [] Hb. destruct (rebuild_views _ _ _ _) as [s'|] eqn:Hr; [|by left].
    unfold rebuild_views in Hr. rewrite !check_bind_ok in Hr. destruct Hr as (_ & Hcond & Hr).
    injection Hr as <-. right. apply check_bind_ok in Hb as [_ Hb]. unfold check_view_batch in Hb.
    destruct (nil_b views); [done|]. apply check_bind_ok in Hb as [Hb _].
    split; [done|]. split; [by apply check_view_conditions_ok|done].
Qed.

(** C30. Projection respects ownership: a commit, a transaction or a rebuild batch leaves a stored
    view row as it is unless one of its operations names that row's key, and then that operation
    is on behalf of the row's owner, did not demand the row's absence, and the row is afterwards
    exactly what that operation says. *)
Theorem view_rows_change_by_owner `{SerdeJson} (c : mem_call) (r : MemRepository)
    (key : string * string) (row : ViewRow) :
  projects c = true → ms_views (mr_store r) !! key = Some row →
  let after := ms_views (mr_store (exec c r).1) in
  after !! key = Some row ∨
  ∃ view, view ∈ call_views c ∧ view_op_key (pv_op view) = key ∧
    vo_owner (pv_op view) = vr_entity_id row ∧ vo_condition (pv_op view) ≠ CondAbsent ∧
    after !! key = view_result (pv_op view).
Proof.
  intros Hp Hrow after. unfold after.
  destruct (exec_views c r Hp) as [->|(Hv & Hall & ->)]; [by left|].
  by apply checked_views_owned.
Qed.

Definition view_commit (id : EntityId) (sequence : EventSequence) (pk : string) : Commit Empty_set :=
  mkCommit id [sample_event id sequence] None [] [sample_view pk "s" id] None.

(** A handle on the store in which entity [a] owns the row [p/s]. *)
Definition view_repository : MemRepository :=
  repository_of (sy_store (@run sample_json [CCommit (view_commit "a" 1 "p")])) (mkHandle None false).

Lemma view_rows_change_by_owner_witness :
  ms_views (mr_store (@exec sample_json (CCommit (view_commit "b" 1 "p")) view_repository).1)
    !! ("p"%string, "s"%string) = Some (mkViewRow "p" "s" "a" "Account" "{}" 0).
Proof.
  destruct (@view_rows_change_by_owner sample_json (CCommit (view_commit "b" 1 "p"))
    view_repository ("p"%string, "s"%string) (mkViewRow "p" "s" "a" "Account" "{}" 0))
    as [Hsame|(view & Hin & _ & Howner & _)]; [reflexivity|vm_compute; reflexivity|exact Hsame|].
  simpl in Hin. apply list_elem_of_singleton in Hin. subst view. discriminate Howner.
Defined.
