(* ===== verification/MemFence.v ===== *)
(** * The rebuild fence in the running system

    The generation counter is a fencing token: it never goes back, every lease carries the
    generation that made it, and a lease of an older generation can neither write rows, nor renew,
    nor end the rebuild, in any later state. While the generation is not settled no commit changes
    anything. *)

From S2P Require Import Prelude Types Features Outcome Rebuild Wire Projection Repository.
From S2P Require Import Samples RebuildBatch Mem MemInvariant MemRefinement.
From S2P Require Import MemRead MemSafety.

(** ** The generation only grows *)

Definition generation (s : MemStore) : Z := rg_value (rs_generation (ms_rebuild s)).

(** What one step may do to the fence's state. *)
Definition fence_moves (a b : RebuildState) : Prop :=
  rs_generation a = rs_generation b ∨ ∃ d, 0 ≤ d ≤ 2 ∧
    rg_value (rs_generation b) = i64_add (rg_value (rs_generation a)) d.

Lemma plan_decide_increment state now plan :
  plan_decide state now = Ok plan → 1 ≤ pl_increment plan ≤ 2.
Proof.
  unfold plan_decide. destruct (rs_lock state); destruct (is_settled _);
    repeat (destruct (rg_force_released _) || destruct (is_expired _ _));
    cbn [negb]; intros Hp; inv_ok; simpl; lia.
Qed.

Lemma begin_state_moves state owner now seconds state' lease :
  begin_state state owner now seconds = Ok (state', lease) →
  ∃ d, 1 ≤ d ≤ 2 ∧ rg_value (rs_generation state') = i64_add (rg_value (rs_generation state)) d ∧
    le_generation lease = rg_value (rs_generation state').
Proof.
  unfold begin_state. intros (plan & Hp & Hs)%result_bind_ok. injection Hs as <- <-.
  exists (pl_increment plan). split; [by eapply plan_decide_increment|done].
Qed.

Lemma fence_moves_refl a : fence_moves a a.
Proof. by left. Qed.

#[export] Hint Resolve fence_moves_refl : evt.

Definition op_moves {A} (o : Op A) : Prop :=
  ∀ r, fence_moves (ms_rebuild (mr_store r)) (ms_rebuild (mr_store (o r).1)).

Lemma guarded_moves {A B} (c : Result A) (k : A → Op B) :
  (∀ a, op_moves (k a)) → op_moves (guarded c k).
Proof. intros Hk r. unfold guarded. destruct c as [a|]; [by apply Hk|by left]. Qed.

Lemma mem_write_rebuild {X} (streams : list (Commit X)) fences views outcome retention r :
  ms_rebuild (mr_store (mem_write streams fences views outcome retention r).1)
  = ms_rebuild (mr_store r).
Proof.
  unfold mem_write. destruct (check_manifest r) as [[m v]|]; [|done].
  destruct (write_locked _ _ _ _ _ _) as [s'|] eqn:Hw; [|done].
  apply write_locked_ok in Hw as [Hw _]. simpl. by rewrite (wr_store _ _ _ _ _ _ Hw).
Qed.

Lemma mem_write_moves {X} (streams : list (Commit X)) fences views outcome retention :
  op_moves (mem_write streams fences views outcome retention).
Proof. intros r. rewrite mem_write_rebuild. by left. Qed.

Lemma rebuild_op_moves {A} (f : RebuildState → Result (RebuildState * A)) :
  (∀ s s' a, f s = Ok (s', a) → fence_moves s s') → op_moves (rebuild_op f).
Proof.
  intros Hf r. unfold rebuild_op. destruct (f _) as [[s' a]|] eqn:He; [|by left]. by apply Hf in He.
Qed.

Lemma release_moves owner held increment force_released s s' g :
  0 ≤ increment ≤ 2 → release_state owner held increment force_released s = Ok (s', g) →
  fence_moves s s'.
Proof.
  unfold release_state. intros Hi. destruct (lock_is s held); [|done]. intros [= <- _].
  right. by exists increment.
Qed.

Lemma mem_put_snapshot_moves sn : op_moves (mem_put_snapshot sn).
Proof.
  apply guarded_moves. intros [] r. destruct (check_manifest r) as [[m v]|]; [|by left].
  cbv zeta. destruct (_ && _); [by left|].
  match goal with |- context [if ?b then (_, Ok false) else _] => destruct b end; by left.
Qed.

Lemma mem_compact_below_moves id through : op_moves (mem_compact_below id through).
Proof.
  apply guarded_moves. intros [] r. destruct (through <? 1); [by left|].
  destruct (validate_marker_for_write _ _); [|by left].
  destruct (compact_stream _ _ _) as [[? ?]|]; by left.
Qed.

Lemma mem_initialize_moves : op_moves mem_initialize.
Proof.
  intros r. unfold mem_initialize.
  match goal with |- context [match ?x with Ok _ => _ | Err _ => _ end] => destruct x as [[]|] end;
    [by left| |by left]. destruct (any_data _); by left.
Qed.

Lemma mem_begin_rebuild_moves owner lease now : op_moves (mem_begin_rebuild owner lease now).
Proof.
  apply guarded_moves. intros seconds. apply rebuild_op_moves.
  intros s s' a (d & Hd & Heq & _)%begin_state_moves. right. exists d. split; [lia|done].
Qed.

Lemma mem_renew_rebuild_moves lease extend now : op_moves (mem_renew_rebuild lease extend now).
Proof.
  apply guarded_moves. intros seconds. apply rebuild_op_moves. intros s s' a Hr.
  unfold renew_state in Hr. destruct (rs_lock s) as [lock|]; [|done].
  destruct (holds lease lock); [|done]. injection Hr as <- _. by left.
Qed.

Lemma mem_write_rebuild_views_moves lease views now :
  op_moves (mem_write_rebuild_views lease views now).
Proof.
  apply guarded_moves. intros [] r. destruct (rebuild_views _ _ _ _) eqn:Hv; [|by left].
  unfold rebuild_views in Hv. rewrite !check_bind_ok in Hv. destruct Hv as (_ & _ & Hv).
  injection Hv as <-. by left.
Qed.

Lemma exec_moves `{SerdeJson} c r :
  fence_moves (ms_rebuild (mr_store r)) (ms_rebuild (mr_store (exec c r).1)).
Proof.
  destruct c as [c|c|sn|id through| |change| |owner lease now|lease extend now|lease|owner
    |lease views now|row|pk sk]; cbn [exec forget fst].
  - apply guarded_moves. intros [] r'. destruct (_ && _); [by left|].
    apply guarded_moves. intros []. apply mem_write_moves.
  - apply guarded_moves. intros c' r'. destruct (transaction_is_empty c'); [by left|].
    apply guarded_moves. intros []. apply mem_write_moves.
  - apply mem_put_snapshot_moves.
  - apply mem_compact_below_moves.
  - by left.
  - by left.
  - apply mem_initialize_moves.
  - apply mem_begin_rebuild_moves.
  - apply mem_renew_rebuild_moves.
  - apply guarded_moves. intros []. apply rebuild_op_moves. intros s s' a. by apply release_moves.
  - apply guarded_moves. intros []. apply rebuild_op_moves. intros s s' a. by apply release_moves.
  - apply mem_write_rebuild_views_moves.
  - apply guarded_moves. intros [] r'. by left.
  - apply guarded_moves. intros sk' r'. by left.
Qed.

(** Within [n] steps the counter is between 0 and [2 n], so 64 bits hold it for longer than any
    store lives, and along a run it never goes back. *)
Lemma fence_moves_bounded a b n :
  fence_moves a b → 0 ≤ rg_value (rs_generation a) ≤ 2 * n → 2 * n + 2 ≤ i64_max →
  rg_value (rs_generation a) ≤ rg_value (rs_generation b) ≤ 2 * n + 2.
Proof.
  intros [->|(d & Hd & ->)] Ha Hn; [lia|]. rewrite i64_add_small; [lia|]. unfold i64_min. lia.
Qed.

Lemma reach_generation `{SerdeJson} n x :
  reach n x → 2 * Z.of_nat n ≤ i64_max → 0 ≤ generation (sy_store x) ≤ 2 * Z.of_nat n.
Proof.
  induction 1 as [|n x y _ IH Hstep]; intros Hn; [done|].
  destruct Hstep as [s hs i h c r' res Hh He|s hs i h Hh]; [|simpl in *; lia].
  specialize (IH ltac:(lia)). simpl in *. pose proof (exec_moves c (repository_of s h)) as Hm.
  rewrite He in Hm. simpl in Hm. unfold generation in *.
  pose proof (fence_moves_bounded _ _ (Z.of_nat n) Hm IH ltac:(lia)). lia.
Qed.

Lemma nsteps_reach `{SerdeJson} n m x y : reach n x → nsteps step m x y → reach (n + m) y.
Proof.
  intros Hn Hs. revert n Hn. induction Hs as [x|m x y z Hxy _ IH]; intros n Hn.
  - by rewrite Nat.add_0_r.
  - rewrite <-Nat.add_succ_comm. apply IH. by eapply reach_step.
Qed.

Lemma nsteps_generation `{SerdeJson} n m x y :
  reach n x → nsteps step m x y → 2 * Z.of_nat (n + m) ≤ i64_max →
  generation (sy_store x) ≤ generation (sy_store y).
Proof.
  intros Hn Hs. revert n Hn. induction Hs as [x|m x y z Hxy Hyz IH]; intros n Hn Hb; [done|].
  transitivity (generation (sy_store y)); [|apply (IH (S n)); [by eapply reach_step|lia]].
  pose proof (reach_generation n x Hn ltac:(lia)) as Hg.
  destruct Hxy as [s hs i h c r' res Hh He|]; [|done]. simpl in *.
  pose proof (exec_moves c (repository_of s h)) as Hm. rewrite He in Hm. simpl in Hm.
  unfold generation in *. pose proof (fence_moves_bounded _ _ (Z.of_nat n) Hm Hg ltac:(lia)). lia.
Qed.

(** ** Properties *)

(** The calls that present a lease. *)
Definition presents (lease : RebuildLease) (c : mem_call) : Prop :=
  (∃ extend now, c = CRenew lease extend now) ∨ c = CEnd lease ∨
  ∃ views now, c = CWriteViews lease views now.

Lemma stale_lease_refused `{SerdeJson} s h lease c :
  rebuild_ok (ms_rebuild s) → le_generation lease < generation s → presents lease c →
  ∃ e, exec c (repository_of s h) = (repository_of s h, Err e).
Proof.
  intros Hok Hlt Hc.
  assert (∀ lock, rs_lock (ms_rebuild s) = Some lock → holds lease lock = false) as Hheld.
  { intros lock Hl. destruct (ro_lock _ Hok _ Hl) as [_ Hg]. unfold holds. unfold generation in Hlt.
    rewrite andb_false_iff. right. lia. }
  destruct Hc as [(extend & now & ->)|[->|(views & now & ->)]]; cbn [exec forget].
  - unfold mem_renew_rebuild, guarded. destruct (check_lease _ _); [|by eexists].
    unfold rebuild_op, renew_state. simpl.
    destruct (rs_lock (ms_rebuild s)) as [lock|] eqn:Hl; [|by eexists].
    rewrite (Hheld _ eq_refl). by eexists.
  - unfold mem_end_rebuild, guarded. destruct (check_rebuild_owner _); [|by eexists].
    unfold rebuild_op, release_state, lock_is. simpl.
    destruct (rs_lock (ms_rebuild s)) as [lock|] eqn:Hl; [|by eexists].
    rewrite (Hheld _ eq_refl). by eexists.
  - unfold mem_write_rebuild_views, guarded. destruct (result_bind _ _); [|by eexists].
    unfold rebuild_views, lock_is. simpl.
    destruct (rs_lock (ms_rebuild s)) as [lock|] eqn:Hl; [|by eexists].
    rewrite (Hheld _ eq_refl). by eexists.
Qed.

(** C31. A superseded lease is powerless: once the generation has passed the one a lease was made
    with, in every later state, for as long as the counter's 64 bits last, every call that
    presents the lease (to renew it, to end the rebuild, or to write rebuilt rows) fails and
    changes nothing. *)
Theorem stale_lease_is_powerless `{SerdeJson} (n m : nat) (x y : System) (lease : RebuildLease)
    (h : Handle) (c : mem_call) :
  reach n x → nsteps step m x y → 2 * Z.of_nat (n + m) ≤ i64_max →
  le_generation lease < generation (sy_store x) → presents lease c →
  ∃ e, exec c (repository_of (sy_store y) h) = (repository_of (sy_store y) h, Err e).
Proof.
  intros Hn Hs Hb Hlt Hc. pose proof (nsteps_generation n m x y Hn Hs Hb) as Hle.
  pose proof (reach_ok _ _ (nsteps_reach n m x y Hn Hs)) as Hok.
  apply (stale_lease_refused (sy_store y) h lease); [apply Hok|lia|done].
Qed.

(** Two rebuilders: the second takes over after the first one's lease lapsed. *)
Definition takeover_calls : list mem_call :=
  [CBegin "w1" (mkDuration 10 0) 100; CBegin "w2" (mkDuration 10 0) 200].

Lemma stale_lease_is_powerless_witness :
  generation (sy_store (@run sample_json takeover_calls)) = 3 ∧
  ∃ e, @exec sample_json (CEnd (mkRebuildLease "w1" 1 110))
    (repository_of (sy_store (@run sample_json takeover_calls)) (mkHandle None false))
    = (repository_of (sy_store (@run sample_json takeover_calls)) (mkHandle None false), Err e).
Proof.
  split; [vm_compute; reflexivity|].
  apply (@stale_lease_is_powerless sample_json 2 0 (@run sample_json takeover_calls)
    (@run sample_json takeover_calls) (mkRebuildLease "w1" 1 110)).
  - exact (@run_reach sample_json takeover_calls).
  - constructor.
  - vm_compute. discriminate.
  - vm_compute. reflexivity.
  - right. by left.
Defined.

(** At most one rebuilder holds the fence: a begin succeeds only when no lock is held or the
    held one has lapsed, it refuses a live lock by naming its owner and expiry, and the lease it
    returns is the lock that is then stored, under a generation that differs from the one
    before. *)
Theorem begin_is_exclusive (owner : string) (lease : Duration) (now : Z) (r : MemRepository) :
  rebuild_ok (ms_rebuild (mr_store r)) →
  match mem_begin_rebuild owner lease now r with
  | (r', Ok granted) =>
      (∀ lock, rs_lock (ms_rebuild (mr_store r)) = Some lock → rl_lease_expires_at lock < now) ∧
      rs_lock (ms_rebuild (mr_store r')) =
        Some (mkLock owner (le_generation granted) (le_expires_at granted)) ∧
      le_owner granted = owner ∧ le_generation granted = generation (mr_store r') ∧
      generation (mr_store r') ≠ generation (mr_store r) ∧
      is_settled (rs_generation (ms_rebuild (mr_store r'))) = false
  | (r', Err e) =>
      r' = r ∧
      ∀ lock, rs_lock (ms_rebuild (mr_store r)) = Some lock → now ≤ rl_lease_expires_at lock →
        is_ok (check_lease owner lease) = true →
        e = RebuildLockHeld (rl_owner lock) (rl_lease_expires_at lock)
  end.
Proof.
  intros Hok. unfold mem_begin_rebuild, guarded.
  destruct (check_lease owner lease) as [seconds|e] eqn:Hl; [|by split].
  unfold rebuild_op. destruct (begin_state _ _ _ _) as [[state' granted]|e] eqn:Hb.
  - destruct (begin_state_ok _ _ _ _ _ _ Hok Hb) as [Hok' Hlock].
    destruct (begin_state_moves _ _ _ _ _ _ Hb) as (d & Hd & Hgen & Hleg).
    unfold begin_state in Hb. apply result_bind_ok in Hb as (plan & Hp & Hb).
    injection Hb as <- <-. split; [|split; [done|split; [done|split; [done|split]]]].
    + intros lock Hlk. unfold plan_decide in Hp. rewrite Hlk in Hp.
      destruct (is_settled _); [done|]. destruct (is_expired lock now) eqn:Hexp; [|done].
      unfold is_expired in Hexp. lia.
    + unfold generation. simpl in *. rewrite Hgen. unfold i64_add.
      intros Heq. assert ((rg_value (rs_generation (ms_rebuild (mr_store r))) + d + 2 ^ 63) mod 2 ^ 64
        = rg_value (rs_generation (ms_rebuild (mr_store r))) + 2 ^ 63) as Hmod by lia.
      revert Hmod. generalize (rg_value (rs_generation (ms_rebuild (mr_store r)))). intros v Hv.
      pose proof (Z.mod_eq (v + d + 2 ^ 63) (2 ^ 64) ltac:(lia)) as Hm. rewrite Hv in Hm.
      assert (d = 2 ^ 64 * ((v + d + 2 ^ 63) / 2 ^ 64)) as Hdd by lia. lia.
    + by apply (ro_lock _ Hok' _ Hlock).
  - split; [done|]. intros lock Hlk Hlive _. unfold begin_state in Hb.
    apply result_bind_err in Hb as [Hb|(plan & _ & Hb)]; [|done].
    unfold plan_decide in Hb. rewrite Hlk in Hb.
    destruct (ro_lock _ Hok _ Hlk) as [-> _] in Hb.
    unfold is_expired in Hb. replace (rl_lease_expires_at lock <? now) with false in Hb by lia.
    by injection Hb as <-.
Qed.

Lemma begin_is_exclusive_witness :
  (mem_begin_rebuild "w3" (mkDuration 10 0) 205
    (repository_of (sy_store (@run sample_json takeover_calls)) (mkHandle None false))).2
  = Err (RebuildLockHeld "w2" 210).
Proof.
  pose proof (begin_is_exclusive "w3" (mkDuration 10 0) 205
    (repository_of (sy_store (@run sample_json takeover_calls)) (mkHandle None false))
    (ok_rebuild _ (@reach_ok sample_json _ _ (@run_reach sample_json takeover_calls)))) as Hb.
  destruct (mem_begin_rebuild _ _ _ _) as [r' [granted|e]] eqn:He in Hb |- *.
  - destruct Hb as [Hb _]. specialize (Hb (mkLock "w2" 3 210) eq_refl). simpl in Hb. lia.
  - destruct Hb as [_ Hb]. simpl. f_equal.
    apply (Hb (mkLock "w2" 3 210)); [reflexivity|vm_compute; discriminate|reflexivity].
Defined.

(** Writers wait for a rebuild: while a lock row exists (lapsed or not) or the generation is
    not settled, no commit and no transaction changes a stream, a view row or an outcome. *)
Theorem rebuild_blocks_writers `{SerdeJson} (c : mem_call) (r : MemRepository) :
  in_progress (ms_rebuild (mr_store r)) = true ∨
    is_settled (rs_generation (ms_rebuild (mr_store r))) = false →
  (∃ commit, c = CCommit commit) ∨ (∃ commit, c = CTransaction commit) →
  let r' := (exec c r).1 in
  ms_streams (mr_store r') = ms_streams (mr_store r) ∧
  ms_views (mr_store r') = ms_views (mr_store r) ∧
  ms_outcomes (mr_store r') = ms_outcomes (mr_store r).
Proof.
  intros Hun Hc r'.
  assert (∀ X (streams : list (Commit X)) fences views outcome retention,
    let r' := (mem_write streams fences views outcome retention r).1 in
    ms_streams (mr_store r') = ms_streams (mr_store r) ∧
    ms_views (mr_store r') = ms_views (mr_store r) ∧
    ms_outcomes (mr_store r') = ms_outcomes (mr_store r)) as Hwrite.
  { intros X streams fences views outcome retention. unfold mem_write.
    destruct (check_manifest r) as [[m v]|]; [|done].
    destruct (write_locked _ _ _ _ _ _) as [s'|] eqn:Hw; [|done].
    apply write_locked_ok in Hw as [Hw _]. destruct (wr_settled _ _ _ _ _ _ Hw) as [Hp Hs].
    simpl in Hp, Hs. destruct Hun; congruence. }
  destruct Hc as [[commit ->]|[commit ->]]; unfold r'; cbn [exec].
  - unfold mem_commit, guarded at 1. destruct (result_bind _ _); [|done].
    destruct (_ && _); [done|]. unfold guarded. destruct (result_bind _ _); [|done]. apply Hwrite.
  - unfold mem_commit_transaction, guarded. destruct (normalize commit) as [c'|]; [|done].
    destruct (transaction_is_empty c'); [done|].
    destruct (result_bind _ _); [|done]. apply Hwrite.
Qed.

Lemma rebuild_blocks_writers_witness :
  (@exec sample_json (CCommit (sample_commit "a" [1]))
    (repository_of (sy_store (@run sample_json takeover_calls)) (mkHandle None false))).2
    = Err RebuildInProgress ∧
  ms_streams (mr_store (@exec sample_json (CCommit (sample_commit "a" [1]))
    (repository_of (sy_store (@run sample_json takeover_calls)) (mkHandle None false))).1)
    = ms_streams (sy_store (@run sample_json takeover_calls)).
Proof.
  split; [vm_compute; reflexivity|].
  apply (@rebuild_blocks_writers sample_json (CCommit (sample_commit "a" [1]))
    (repository_of (sy_store (@run sample_json takeover_calls)) (mkHandle None false))).
  - by left.
  - left. by eexists.
Defined.
