(* ===== verification/MemMarker.v ===== *)
(** * The marker cache

    A handle remembers the version of the manifest it last validated and skips validation while
    the stored version is that one, although other handles change the manifest. Every change
    bumps the version, so the skip is sound: no handle ever writes to a store whose manifest it
    would refuse. *)

From S2P Require Import Prelude Types Features Outcome Rebuild Wire Projection Repository.
From S2P Require Import Samples RebuildBatch Mem MemInvariant MemRefinement.
From S2P Require Import MemRead MemSafety MemFence.

(** A manifest a handle with this journaling may write under. *)
Definition writable (m : FeatureManifest) (journaling : bool) : Prop :=
  validate_marker_for_write (Some m) journaling = Ok (MarkerVersion (fm_version m)).

(** A handle's cached marker tells the truth about the stored manifest: the version it names is
    not ahead, and if it is the stored one, the stored manifest is one the handle may write
    under. *)
Definition marker_ok (stored : option FeatureManifest) (h : Handle) : Prop :=
  match hd_validated h with
  | None => True
  | Some MarkerAbsent => False
  | Some (MarkerVersion v) =>
      ∃ m, stored = Some m ∧ v ≤ fm_version m ∧ (fm_version m = v → writable m (hd_journaling h))
  end.

(** ** Validating *)

Lemma writable_journaling m : writable m false → writable m true.
Proof.
  unfold writable. rewrite !validate_marker_for_write_ok.
  intros (m' & [= <-] & Hv & Hs & Hd & _). exists m. by auto 6.
Qed.

Lemma validate_marker_writable stored journaling marker :
  validate_marker_for_write stored journaling = Ok marker →
  ∃ m, stored = Some m ∧ marker = MarkerVersion (fm_version m) ∧ writable m journaling.
Proof.
  intros Hv. pose proof Hv as (m & -> & -> & _)%validate_marker_for_write_ok. by exists m.
Qed.

Lemma declare_supported m :
  validate_supported m = Ok tt → validate_supported (declare_stream_heads m) = Ok tt.
Proof.
  rewrite !validate_supported_ok. intros Hs name version. simpl.
  destruct (decide (STREAM_HEADS_FEATURE = name)) as [<-|Hne].
  - rewrite lookup_insert_eq. intros [= <-]. unfold SUPPORTED_FEATURES.
    apply elem_of_cons. right. apply elem_of_cons. right. apply elem_of_cons. right.
    by apply list_elem_of_singleton.
  - rewrite lookup_insert_ne by done. apply Hs.
Qed.

(** Declaring stream heads on a manifest whose only fault was their absence makes it writable. *)
Lemma declared_writable stored journaling :
  validate_marker_for_write stored journaling = Err StreamHeadsNotMigrated →
  writable (declared stored) journaling.
Proof.
  intros Hv. apply validate_marker_for_write_ok. exists (declared stored).
  split; [done|]. split; [done|].
  assert (validate_supported (default FeatureManifest_default stored) = Ok tt ∧
    (journaling = true ∨ refuse_journal (default FeatureManifest_default stored) = Ok tt)) as [Hs Hj].
  { destruct stored as [m|]; simpl in *; [|by split; [|right]].
    apply result_bind_err in Hv as [Hv|([] & Hs & Hv)].
    - exfalso. unfold validate_supported in Hv. apply check_each_err in Hv as (? & f & ? & _ & _ & Hf).
      by destruct (is_supported f).
    - split; [done|]. destruct journaling; [by left|]. right.
      apply result_bind_err in Hv as [Hv|([] & Hj & _)]; [|done].
      exfalso. unfold refuse_journal in Hv. apply check_each_err in Hv as (? & f & ? & _ & _ & Hf).
      by destruct (fm_features m !! f). }
  split; [by apply declare_supported|]. split.
  - apply bool_decide_eq_true. simpl. by rewrite lookup_insert_eq.
  - destruct Hj as [Hj|Hj]; [by left|right]. revert Hj. rewrite !refuse_journal_ok. simpl.
    by rewrite !lookup_insert_ne by done.
Qed.

(** The version a manifest has after its next change. *)
Definition next_version (stored : option FeatureManifest) : Z :=
  match stored with Some m => i64_add (fm_version m) 1 | None => 1 end.

(** What one operation may do to the manifest and to the handle that ran it. *)
Definition marker_moves (r r' : MemRepository) : Prop :=
  let stored := ms_manifest (mr_store r) in
  let stored' := ms_manifest (mr_store r') in
  (stored' = stored ∧ mr_validated r' = mr_validated r ∧
     (mr_journaling r = true → mr_journaling r' = true)) ∨
  (stored' = stored ∧ mr_journaling r' = mr_journaling r ∧ ∃ m, stored = Some m ∧
     mr_validated r' = Some (MarkerVersion (fm_version m)) ∧ writable m (mr_journaling r)) ∨
  (∃ m', stored' = Some m' ∧ fm_version m' = next_version stored ∧
     mr_journaling r' = mr_journaling r ∧
     (mr_validated r' = None ∨
      mr_validated r' = Some (MarkerVersion (fm_version m')) ∧ writable m' (mr_journaling r))).

Lemma marker_moves_refl r : marker_moves r r.
Proof. by left. Qed.

Lemma check_manifest_moves r m v :
  check_manifest r = Ok (m, v) →
  marker_moves r (with_validated (with_store r (set_manifest (mr_store r) m)) v).
Proof.
  unfold check_manifest. intros Hc.
  destruct (marker_matches _ _); [injection Hc as <- <-; by left|].
  destruct (validate_marker_for_write _ _) as [marker|e] eqn:Hv.
  - injection Hc as <- <-. apply validate_marker_writable in Hv as (m & Hm & -> & Hw).
    right. left. split; [done|]. split; [done|]. by exists m.
  - destruct e; try done. destruct (any_data _); [done|]. injection Hc as <- <-.
    right. right. exists (declared (ms_manifest (mr_store r))). split; [done|].
    split; [by destruct (ms_manifest (mr_store r))|]. split; [done|]. right. split; [done|].
    by apply declared_writable.
Qed.

(** Updating the data of the store afterwards makes no difference. *)
Lemma marker_moves_store r r' s :
  marker_moves r r' → ms_manifest s = ms_manifest (mr_store r') → marker_moves r (with_store r' s).
Proof. unfold marker_moves. simpl. by intros Hm ->. Qed.

Definition op_marks {A} (o : Op A) : Prop := ∀ r, marker_moves r (o r).1.

Lemma guarded_marks {A B} (c : Result A) (k : A → Op B) :
  (∀ a, op_marks (k a)) → op_marks (guarded c k).
Proof. intros Hk r. unfold guarded. destruct c as [a|]; [by apply Hk|by left]. Qed.

Lemma mem_write_marks {X} (streams : list (Commit X)) fences views outcome retention :
  op_marks (mem_write streams fences views outcome retention).
Proof.
  intros r. unfold mem_write. destruct (check_manifest r) as [[m v]|] eqn:Hc; [|by left].
  apply check_manifest_moves in Hc.
  destruct (write_locked _ _ _ _ _ _) as [s'|] eqn:Hw; [|done].
  apply write_locked_ok in Hw as [Hw _]. apply marker_moves_store; [done|].
  by rewrite (wr_store _ _ _ _ _ _ Hw).
Qed.

Lemma mem_put_snapshot_marks sn : op_marks (mem_put_snapshot sn).
Proof.
  apply guarded_marks. intros [] r. destruct (check_manifest r) as [[m v]|] eqn:Hc; [|by left].
  apply check_manifest_moves in Hc. cbv zeta. destruct (_ && _); [done|].
  match goal with |- context [if ?b then (_, Ok false) else _] => destruct b end; [done|].
  by apply marker_moves_store.
Qed.

Lemma mem_compact_below_marks id through : op_marks (mem_compact_below id through).
Proof.
  apply guarded_marks. intros [] r. destruct (through <? 1); [by left|].
  destruct (validate_marker_for_write _ _); [|by left].
  destruct (compact_stream _ _ _) as [[? ?]|]; by left.
Qed.

Lemma mem_initialize_marks : op_marks mem_initialize.
Proof.
  intros r. unfold mem_initialize.
  match goal with |- context [match ?x with Ok _ => _ | Err _ => _ end] => destruct x as [[]|] end;
    [by left| |by left]. destruct (any_data _); [by left|].
  right. right. exists (declared (ms_manifest (mr_store r))). split; [done|].
  split; [by destruct (ms_manifest (mr_store r))|]. split; [done|]. by left.
Qed.

Lemma rebuild_op_marks {A} (f : RebuildState → Result (RebuildState * A)) : op_marks (rebuild_op f).
Proof. intros r. unfold rebuild_op. destruct (f _) as [[? ?]|]; by left. Qed.

Lemma mem_write_rebuild_views_marks lease views now :
  op_marks (mem_write_rebuild_views lease views now).
Proof.
  apply guarded_marks. intros [] r. destruct (rebuild_views _ _ _ _) eqn:Hv; [|by left].
  unfold rebuild_views in Hv. rewrite !check_bind_ok in Hv. destruct Hv as (_ & _ & Hv).
  injection Hv as <-. by left.
Qed.

Lemma exec_marks `{SerdeJson} c r : marker_moves r (exec c r).1.
Proof.
  destruct c as [c|c|sn|id through| |change| |owner lease now|lease extend now|lease|owner
    |lease views now|row|pk sk]; cbn [exec forget fst].
  - apply guarded_marks. intros [] r'. destruct (_ && _); [by left|].
    apply guarded_marks. intros []. apply mem_write_marks.
  - apply guarded_marks. intros c' r'. destruct (transaction_is_empty c'); [by left|].
    apply guarded_marks. intros []. apply mem_write_marks.
  - apply mem_put_snapshot_marks.
  - apply mem_compact_below_marks.
  - by left.
  - right. right. eexists. split; [done|]. split; [by destruct (ms_manifest (mr_store r))|].
    split; [done|]. by left.
  - apply mem_initialize_marks.
  - apply guarded_marks. intros seconds. apply rebuild_op_marks.
  - apply guarded_marks. intros seconds. apply rebuild_op_marks.
  - apply guarded_marks. intros []. apply rebuild_op_marks.
  - apply guarded_marks. intros []. apply rebuild_op_marks.
  - apply mem_write_rebuild_views_marks.
  - apply guarded_marks. intros [] r'. by left.
  - apply guarded_marks. intros sk' r'. by left.
Qed.

(** ** The cache is sound *)

Definition version_of (stored : option FeatureManifest) : Z :=
  match stored with Some m => fm_version m | None => 0 end.

(** The system invariant: versions are small, and every handle's marker tells the truth. *)
Definition markers_ok (n : Z) (x : System) : Prop :=
  0 ≤ version_of (ms_manifest (sy_store x)) ≤ n ∧
  Forall (marker_ok (ms_manifest (sy_store x))) (sy_handles x).

Lemma next_version_small stored n :
  0 ≤ version_of stored ≤ n → n < i64_max → next_version stored = version_of stored + 1.
Proof.
  intros Hv Hn. unfold next_version, version_of in *. destruct stored as [m|]; [|done].
  apply i64_add_small. unfold i64_min. lia.
Qed.

(** A marker survives another handle's step. *)
Lemma marker_ok_other r r' h n :
  marker_moves r r' → 0 ≤ version_of (ms_manifest (mr_store r)) ≤ n → n < i64_max →
  marker_ok (ms_manifest (mr_store r)) h → marker_ok (ms_manifest (mr_store r')) h.
Proof.
  intros Hm Hv Hn Hh. unfold marker_ok in *. destruct (hd_validated h) as [[|v]|]; [done| |done].
  destruct Hh as (m & Hst & Hle & Hw).
  destruct Hm as [(-> & _)|[(-> & _)|(m' & Hst' & Hver & _)]]; [by exists m..|].
  exists m'. split; [done|]. rewrite (next_version_small _ n Hv Hn), Hst in Hver. simpl in Hver.
  split; [lia|]. intros Heq. lia.
Qed.

(** A marker survives, or is made by, its own handle's step. *)
Lemma marker_ok_self r r' n :
  marker_moves r r' → 0 ≤ version_of (ms_manifest (mr_store r)) ≤ n → n < i64_max →
  marker_ok (ms_manifest (mr_store r)) (handle_of r) →
  marker_ok (ms_manifest (mr_store r')) (handle_of r').
Proof.
  intros Hm Hv Hn Hh. unfold marker_ok, handle_of in *. simpl in *.
  destruct Hm as [(-> & -> & Hj)|[(-> & Hj & m & Hst & -> & Hw)|(m' & Hst' & _ & Hj & Hval)]].
  - destruct (mr_validated r) as [[|v]|]; [done| |done]. destruct Hh as (m & Hst & Hle & Hw).
    exists m. split; [done|]. split; [done|]. intros Heq. specialize (Hw Heq).
    destruct (mr_journaling r) eqn:Hjr; [by rewrite (Hj eq_refl)|].
    destruct (mr_journaling r'); [by apply writable_journaling|done].
  - exists m. rewrite Hj. by split.
  - destruct Hval as [->|[-> Hw]]; [done|]. exists m'. rewrite Hj. by split.
Qed.

Lemma marker_moves_version r r' n :
  marker_moves r r' → 0 ≤ version_of (ms_manifest (mr_store r)) ≤ n → n < i64_max →
  0 ≤ version_of (ms_manifest (mr_store r')) ≤ n + 1.
Proof.
  intros Hm Hv Hn. destruct Hm as [(-> & _)|[(-> & _)|(m' & -> & Hver & _)]]; [lia|lia|].
  simpl. rewrite (next_version_small _ n Hv Hn) in Hver. lia.
Qed.

Lemma reach_markers `{SerdeJson} n x :
  reach n x → Z.of_nat n ≤ i64_max → markers_ok (Z.of_nat n) x.
Proof.
  induction 1 as [|n x y _ IH Hstep]; intros Hn.
  { split; [done|]. by repeat constructor. }
  destruct (IH ltac:(lia)) as [Hv Hall]. clear IH. rewrite Nat2Z.inj_succ in Hn |- *.
  destruct Hstep as [s hs i h c r' res Hh He|s hs i h Hh]; simpl in *.
  - pose proof (exec_marks c (repository_of s h)) as Hm. rewrite He in Hm. simpl in Hm.
    rewrite Forall_forall in Hall.
    split; [cbn [sy_store]; pose proof (marker_moves_version _ _ _ Hm Hv ltac:(lia)); lia|]. simpl.
    apply Forall_forall. intros h' (j & Hj)%list_elem_of_lookup.
    destruct (decide (i = j)) as [<-|Hne].
    + rewrite list_lookup_insert_eq in Hj by (by eapply lookup_lt_Some). injection Hj as <-.
      apply (marker_ok_self _ _ _ Hm Hv); [lia|]. apply Hall. destruct h.
      by eapply list_elem_of_lookup_2.
    + rewrite list_lookup_insert_ne in Hj by done.
      apply (marker_ok_other _ _ _ _ Hm Hv); [lia|]. apply Hall. by eapply list_elem_of_lookup_2.
  - split; [simpl; lia|]. simpl. apply Forall_app. split; [done|]. apply Forall_singleton.
    rewrite Forall_forall in Hall. destruct h. apply Hall. by eapply list_elem_of_lookup_2.
Qed.

(** ** Properties *)

(** The cached marker is sound: in every state the system reaches in as many steps as 64 bits
    can count, whatever manifest changes other handles made in between, a handle whose marker
    check passes writes under a stored manifest that this handle's full validation accepts: every
    feature it declares is supported, it declares stream heads, and it declares no journal unless
    the handle journals. *)
Theorem marker_check_is_sound `{SerdeJson} (n : nat) (x : System) (i : nat) (h : Handle)
    (manifest : option FeatureManifest) (marker : CachedMarker) :
  reach n x → Z.of_nat n < i64_max → sy_handles x !! i = Some h →
  check_manifest (repository_of (sy_store x) h) = Ok (manifest, marker) →
  ∃ m, manifest = Some m ∧
    (∀ name version, fm_features m !! name = Some version → (name, version) ∈ SUPPORTED_FEATURES) ∧
    fm_features m !! STREAM_HEADS_FEATURE = Some STREAM_HEADS_VERSION ∧
    (hd_journaling h = false → fm_features m !! JOURNAL_FEATURE = None ∧
       fm_features m !! JOURNAL_COMPACTION_FEATURE = None).
Proof.
  intros Hn Hb Hh Hc. destruct (reach_markers n x Hn ltac:(lia)) as [Hv Hall].
  assert (∃ m, manifest = Some m ∧ writable m (hd_journaling h)) as (m & -> & Hw).
  { rewrite Forall_forall in Hall. specialize (Hall h (list_elem_of_lookup_2 _ _ _ Hh)).
    unfold check_manifest in Hc. destruct (marker_matches _ _) eqn:Hm.
    - injection Hc as <- <-. unfold marker_ok in Hall. simpl in Hm |- *.
      destruct (hd_validated h) as [[|v]|]; [done| |done]. destruct Hall as (m & Hst & _ & Hw).
      exists m. split; [done|]. apply Hw. simpl in Hm. rewrite Hst in Hm. lia.
    - destruct (validate_marker_for_write _ _) as [mk|e] eqn:Hval.
      + injection Hc as <- <-. apply validate_marker_writable in Hval as (m & Hst & _ & Hw).
        exists m. by split.
      + destruct e; try done. destruct (any_data _); [done|]. injection Hc as <- <-.
        eexists. split; [done|]. by apply declared_writable. }
  exists m. split; [done|].
  apply validate_marker_for_write_ok in Hw as (m' & [= <-] & _ & Hs & Hd & Hj).
  split; [by apply validate_supported_ok|]. split; [by apply bool_decide_eq_true in Hd|].
  intros Hjf. destruct Hj as [Hj|Hj]; [congruence|]. by apply refuse_journal_ok.
Qed.

Definition marker_calls : list mem_call :=
  [CCommit (sample_commit "a" [1]); CUpdateManifest declare_journal].

Lemma marker_check_is_sound_witness :
  check_manifest (repository_of (sy_store (@run sample_json (take 1 marker_calls)))
    (mkHandle (Some (MarkerVersion 1)) false))
    = Ok (ms_manifest (sy_store (@run sample_json (take 1 marker_calls))),
          Some (MarkerVersion 1)) ∧
  check_manifest (repository_of (sy_store (@run sample_json marker_calls))
    (mkHandle (Some (MarkerVersion 1)) false)) = Err (UnsupportedFeature "journal" 1) ∧
  ∃ m, ms_manifest (sy_store (@run sample_json (take 1 marker_calls))) = Some m ∧
    fm_features m !! STREAM_HEADS_FEATURE = Some STREAM_HEADS_VERSION.
Proof.
  split; [vm_compute; reflexivity|]. split; [vm_compute; reflexivity|].
  destruct (@marker_check_is_sound sample_json 1 (@run sample_json (take 1 marker_calls)) 0
    (mkHandle (Some (MarkerVersion 1)) false)
    (ms_manifest (sy_store (@run sample_json (take 1 marker_calls)))) (Some (MarkerVersion 1))
    (@run_reach sample_json (take 1 marker_calls))) as (m & Hm & _ & Hd & _);
    [vm_compute; reflexivity|vm_compute; reflexivity|vm_compute; reflexivity|].
  exists m. split; [exact Hm|exact Hd].
Defined.
