(* ===== verification/LogBackend.v ===== *)
(** * What a backend promises the store

    The store's theorems are proved against this interface: a backend's world represents an
    append-only log (the abstract store of [MemRefinement.v]), every call moves the log forward,
    and the answers are about the log. [MemBackend.v] shows that the in-memory repository is such
    a backend. *)

From S2P Require Import Prelude Types Features Outcome Repository Program MemRefinement.

(** The events of an entity. *)
Definition log_of (a : Abs) (id : EntityId) : list SerializedEvent := log_at (ab_log a) id.

(** A list of events read from a stream above [after]: a tail of its log, which may start later
    than [after] when a compaction ran. *)
Definition is_tail (log : list SerializedEvent) (after : EventSequence)
    (events : list SerializedEvent) : Prop :=
  ∃ k, after ≤ k ∧ 0 ≤ k ∧ events = drop (Z.to_nat k) log.

(** What a successful commit of [c] did. *)
Definition commit_applied {X} (a a' : Abs) (c : Commit X) : Prop :=
  (cm_events c ≠ [] →
     log_of a' (cm_entity_id c) = log_of a (cm_entity_id c) ++ cm_events c ∧
     numbered (llen (log_of a (cm_entity_id c)) + 1) (cm_events c)) ∧
  ∀ o, stored_outcome c = Some o →
    ab_outcomes a !! oc_command_id o = None ∧ ab_outcomes a' !! oc_command_id o = Some o.

(** The streams a transaction writes. *)
Definition tc_writes {X} (t : TransactionCommit X) (id : EntityId) : Prop :=
  ∃ c, c ∈ tc_streams t ∧ cm_entity_id c = id ∧ cm_events c ≠ [].

(** What a successful transaction did, all at once: it appended to each stream it writes right
    after its end, every other stream it fences was at the fence's head, the appends are one commit
    of the sequence, and its outcome is the row of a command that had none. *)
Record transaction_applied {X} (a a' : Abs) (t : TransactionCommit X) : Prop := {
  ta_streams : ∀ c, c ∈ tc_streams t → cm_events c ≠ [] →
    log_of a' (cm_entity_id c) = log_of a (cm_entity_id c) ++ cm_events c ∧
    numbered (llen (log_of a (cm_entity_id c)) + 1) (cm_events c);
  ta_fences : ∀ f, f ∈ tc_fences t → ¬ tc_writes t (fe_entity_id f) →
    log_of a' (fe_entity_id f) = log_of a (fe_entity_id f) ∧
    llen (log_of a (fe_entity_id f)) = fe_head f;
  ta_commit : (∃ id, tc_writes t id) → ∃ batches, ab_commits a' = ab_commits a ++ [batches] ∧
    ∀ id es, (id, es) ∈ batches ↔
      ∃ c, c ∈ tc_streams t ∧ cm_entity_id c = id ∧ cm_events c = es ∧ es ≠ [];
  ta_outcome : ∀ o, tc_outcome t = Some o →
    ab_outcomes a !! oc_command_id o = None ∧
    ab_outcomes a' !! oc_command_id o =
      Some (outcome_stored o (map ev_id (receipt_of_transaction t)))
}.

(** What the answer [b] to a call says, the call having moved the log from [a] to [a'];
    [snapshot] is the stored snapshot of each entity. *)
Definition reply_ok {X B} (a a' : Abs) (snapshot : EntityId → option SerializedSnapshot)
    (q : Call X B) : B → Prop :=
  match q in Call _ B return B → Prop with
  | QSnapshot id => λ r, ∀ o, r = Ok o → o = snapshot id
  | QEvents id => λ r, ∀ es, r = Ok es → is_tail (log_of a' id) 0 es
  | QEventsAfter id after => λ r, ∀ es, r = Ok es → is_tail (log_of a' id) after es
  | QOutcome cid => λ r, ∀ o, r = Ok o → o = ab_outcomes a' !! cid
  | QReadBounded cid _ => λ r, ∀ o, r = Some (Ok o) → o = ab_outcomes a' !! cid
  | QReadPolled cid => λ r, ∀ o, r = Some (Ok o) → o = ab_outcomes a' !! cid
  | QCommit c => λ r, ∀ es, r = Ok es → es = cm_events c ∧ commit_applied a a' c
  | QCommitTransaction t => λ r, ∀ es, r = Ok es →
      es = receipt_of_transaction t ∧ transaction_applied a a' t
  | QRandom => λ r, 0 ≤ r
  | _ => λ _, True
  end.

(** A snapshot that a call may leave behind for entity [id]: one it was asked to write. *)
Definition snapshot_written {X B} (a a' : Abs) (q : Call X B) (id : EntityId)
    (sn : SerializedSnapshot) : Prop :=
  match q with
  | QCommit c =>
      id = cm_entity_id c ∧ cm_events c ≠ [] ∧ log_of a' id = log_of a id ++ cm_events c ∧
      ∃ new, cm_snapshot c = Some new ∧ sn = snapshot_of id new (llen (log_of a' id))
  | QCommitTransaction t =>
      ∃ c, c ∈ tc_streams t ∧ id = cm_entity_id c ∧ cm_events c ≠ [] ∧
        log_of a' id = log_of a id ++ cm_events c ∧
        ∃ new, cm_snapshot c = Some new ∧ sn = snapshot_of id new (llen (log_of a' id))
  | QPutSnapshot s => id = sn_entity_id s ∧ sn = s
  | _ => False
  end.

Class LogBackend (X W : Type) `{!Backend X W} := {
  represents : Abs → W → Prop;
  snapshots : W → EntityId → option SerializedSnapshot;
  represents_numbered : ∀ a w id, represents a w → numbered 1 (log_of a id);
  performs_law : ∀ a w B (q : Call X B) b w',
    represents a w → performs q w b w' →
    ∃ a', abs_le a a' ∧ represents a' w' ∧ reply_ok a a' (snapshots w) q b ∧
      ∀ id sn, snapshots w' id = Some sn →
        snapshots w id = Some sn ∨ snapshot_written a a' q id sn
}.

(** ** Clients of the interface

    A client's assertions are about the world and the log it represents, so its programs are
    reasoned about over pairs of the two. [inv] is what all clients maintain. *)

Section clients.
Context {X W : Type} `{LogBackend X W} (inv : Abs * W → Prop).

#[export] Instance logged : Backend X (Abs * W) :=
  λ B q g b g',
    performs q g.2 b g'.2 ∧ abs_le g.1 g'.1 ∧ represents g'.1 g'.2 ∧
    reply_ok g.1 g'.1 (snapshots g.2) q b ∧
    ∀ id sn, snapshots g'.2 id = Some sn →
      snapshots g.2 id = Some sn ∨ snapshot_written g.1 g'.1 q id sn.

(** The log only grows. *)
Definition log_grows (g g' : Abs * W) : Prop := abs_le g.1 g'.1.

#[export] Instance log_grows_preorder : PreOrder log_grows.
Proof. unfold log_grows. split; [by intros g|]. intros g1 g2 g3 H1 H2. by etrans. Qed.

(** What a client tolerates and what it does itself: the invariant holds and the log grows. *)
Definition keeps (g g' : Abs * W) : Prop := keeping inv log_grows g g'.

Definition ensures {A} (p : Prog X A) (Q : A → Abs * W → Prop) (g : Abs * W) : Prop :=
  assures inv (anyone log_grows) p Q g.

(** What survives interference. *)
Definition stable {A} (Q : A → Abs * W → Prop) : Prop :=
  ∀ a g g', inv g → inv g' → abs_le g.1 g'.1 → Q a g → Q a g'.

Lemma ensures_ret {A} (a : A) (Q : A → Abs * W → Prop) g : inv g → Q a g → ensures (Ret a) Q g.
Proof. apply assures_ret, _. Qed.

Lemma ensures_mono {A} (p : Prog X A) (Q Q' : A → Abs * W → Prop) g :
  (∀ a g', inv g' → abs_le g.1 g'.1 → Q a g' → Q' a g') → ensures p Q g → ensures p Q' g.
Proof. exact (assures_mono inv (anyone log_grows) p Q Q' g). Qed.

Lemma ensures_bind {A C} (p : Prog X A) (f : A → Prog X C) (Q : C → Abs * W → Prop) g :
  ensures p (λ a g', ensures (f a) Q g') g → ensures (bind p f) Q g.
Proof. apply assures_bind, _. Qed.

Lemma ensures_try {A C E} (p : Prog X (result A E)) (f : A → Prog X (result C E))
    (Q : result C E → Abs * W → Prop) g :
  ensures p (λ r g', match r with Ok a => ensures (f a) Q g' | Err e => Q (Err e) g' end) g →
  ensures (try_bind p f) Q g.
Proof. apply assures_try, _. Qed.

Lemma ensures_map_err {A E F} (f : E → F) (p : Prog X (result A E))
    (Q : result A F → Abs * W → Prop) g :
  ensures p (λ r g', Q (map_err f r) g') g → ensures (map_err_prog f p) Q g.
Proof. apply assures_map_err, _. Qed.

Lemma ensures_call {B} (q : Call X B) (Q : B → Abs * W → Prop) g :
  inv g →
  (∀ g1 b g2, inv g1 → abs_le g.1 g1.1 → performs q g1 b g2 → inv g2 ∧ Q b g2) →
  ensures (call q) Q g.
Proof.
  intros Hg Hq. apply assures_call; [apply _|done|]. intros g1 b g2 Hg1 Hle Hp.
  destruct (Hq g1 b g2 Hg1 Hle Hp) as [Hg2 HQ]. destruct Hp as (_ & Hle' & _). by split.
Qed.

(** Clients that run concurrently, with whatever else moves the world within the invariant: each
    ends as it would alone. *)
Lemma clients_sound {A} (env : W → W → Prop) (Q : nat → A → Abs * W → Prop) a w ps w' ps' :
  (∀ a w, inv (a, w) → represents a w) →
  (∀ a w w', inv (a, w) → env w w' → ∃ a', inv (a', w') ∧ abs_le a a') →
  (∀ i, stable (Q i)) →
  inv (a, w) → (∀ i p, ps !! i = Some p → ensures p (Q i) (a, w)) →
  rtc (pool_step env) (w, ps) (w', ps') →
  ∃ a', inv (a', w') ∧ abs_le a a' ∧
    ∀ i p, ps' !! i = Some p → wp keeps keeps False p (λ x g, inv g ∧ Q i x g) (a', w').
Proof.
  intros Hrep Henv HQ Hi Hps Hrtc.
  destruct (assures_pool snd inv (λ _, logged) (λ _, anyone log_grows) env Q) with (g := (a, w)) (ps := ps)
    (w' := w') (ps' := ps') as ([a' w''] & Heq & Hi' & Hle & Hwp); [| | | |done..|].
  - intros _ [a1 w1] B q b w2 Hi1 Hq.
    destruct (performs_law a1 w1 B q b w2 (Hrep _ _ Hi1) Hq) as (a2 & Hle & Hr2 & Hreply & Hsn).
    by exists (a2, w2).
  - intros [a1 w1] w2 Hi1 He. destruct (Henv a1 w1 w2 Hi1 He) as (a2 & Hi2 & Hle).
    by exists (a2, w2).
  - by intros i j g g' _ _ _ Hle.
  - intros i x g g' Hg Hg' Hle. by apply HQ.
  - simpl in Heq. subst w''. by exists a'.
Qed.
End clients.
