(* ===== verification/MemBackend.v ===== *)
(** * The in-memory repository as a backend

    How [MemRepository] answers the store's calls, and that it keeps the interface's promise. *)

From S2P Require Import Prelude Types Features Outcome Rebuild Projection Repository Mem.
From S2P Require Import Samples MemInvariant MemRefinement MemRead.
From S2P Require Import Program LogBackend.

(** The repository a store holds, the ledger it shares with its clones, and the process-wide
    counter that numbers transactions. *)
Record World := mkWorld {
  w_repository : MemRepository;
  w_declared : gset EntityType;
  w_transaction : Z
}.

Notation with_repository w r := (mkWorld r (w_declared w) (w_transaction w)) (only parsing).

Definition w_store (w : World) : MemStore := mr_store (w_repository w).

(** What the world outside answers: the jitter, the clock, and the commit-ID generator. *)
Record Oracle := mkOracle { or_random : Z; or_clock : Z; or_commit_id : string }.

(** The receipt of a commit that succeeded. *)
Definition with_receipt {A} (w : World) (receipt : A) (x : MemRepository * Result unit)
  : World * Result A :=
  (with_repository w x.1, let? done := x.2 in Ok receipt).

Section answers.
Context `{SerdeJson}.

(** crates/evt/src/mem.rs:463-609 [MemRepository]

    The answers of the in-memory repository: its reads bound themselves, so a deadline never
    fires, and its backoff returns at once. *)
Definition mem_answer {B} (o : Oracle) (q : Call Empty_set B) (w : World) : World * B :=
  match q in Call _ B return World * B with
  | QSnapshot id => (w, Ok (mem_snapshot (w_store w) id))
  | QEvents id => (w, Ok (mem_events (w_store w) id))
  | QEventsAfter id after => (w, Ok (mem_events_after (w_store w) id after))
  | QOutcome cid => (w, mem_outcome (w_store w) cid)
  | QCommit c => with_receipt w (receipt_of_commit c) (mem_commit c (w_repository w))
  | QCommitTransaction t =>
      with_receipt w (receipt_of_transaction t) (mem_commit_transaction t (w_repository w))
  | QPutSnapshot sn =>
      let x := mem_put_snapshot sn (w_repository w) in (with_repository w x.1, x.2)
  | QDeclareHistory types =>
      let x := mem_declare_history types (w_repository w) in (with_repository w x.1, x.2)
  | QWritesViews => (w, true)
  | QLedger => (w, w_declared w)
  | QLedgerExtend types => 
      (mkWorld (w_repository w) (w_declared w ∪ list_to_set types) (w_transaction w), tt)
  | QCommitId => (w, or_commit_id o)
  | QTransactionId =>
      (mkWorld (w_repository w) (w_declared w) ((w_transaction w + 1) mod 2 ^ 64), w_transaction w)
  | QBackoff _ => (w, tt)
  | QReadBounded cid _ => (w, Some (mem_outcome (w_store w) cid))
  | QReadPolled cid => (w, Some (mem_outcome (w_store w) cid))
  | QSleepPolled _ => (w, false)
  | QRandom => (w, or_random o)
  | QClock => (w, or_clock o)
  end.

#[export] Instance mem_backend : Backend Empty_set World :=
  λ B q w b w', ∃ o, 0 ≤ or_random o ∧ mem_answer o q w = (w', b).

(** One client running alone, with fixed answers from outside. *)
Fixpoint run_prog {A} (o : Oracle) (p : Prog Empty_set A) (w : World) : World * option A :=
  match p with
  | Ret a => (w, Some a)
  | Ask q k => let x := mem_answer o q w in run_prog o (k x.2) x.1
  | Panic | OutOfFuel => (w, None)
  end.
End answers.

(** ** Reads *)

Lemma filter_skip (m : gmap Z SerializedEvent) base :
  m !! (base + 1) = None →
  List.filter (λ e : Z * SerializedEvent, base <? e.1) (btree_entries Z.leb m) =
  List.filter (λ e : Z * SerializedEvent, base + 1 <? e.1) (btree_entries Z.leb m).
Proof.
  intros Hn. apply filter_ext_in. intros [k e] Hin%list_elem_of_In.
  apply elem_of_btree_entries in Hin. simpl.
  destruct (Z.ltb_spec base k), (Z.ltb_spec (base + 1) k); try done; try lia.
  assert (k = base + 1) as -> by lia. congruence.
Qed.

(** A read above any sequence is a tail of the log. *)
Lemma read_is_tail a s id after :
  refines a s → store_ok s → is_tail (log_of a id) after (mem_events_after s id after).
Proof.
  intros Hr Hok. rewrite mem_events_after_stream.
  pose proof (stream_at_ok _ id Hok) as Hst. pose proof (rf_head _ _ Hr id) as Hhead.
  pose proof (rf_event _ _ Hr id) as Hev. fold (log_of a id) in Hhead, Hev.
  revert Hst Hhead Hev. generalize (stream_at (ms_streams s) id). intros st Hst Hhead Hev.
  assert (∀ n base, 0 ≤ base → after ≤ base → Z.of_nat n = Z.max 0 (st_head st - base) →
    ∃ k, base ≤ k ∧ map snd (List.filter (λ e : Z * SerializedEvent, base <? e.1)
      (btree_entries Z.leb (st_events st))) = drop (Z.to_nat k) (log_of a id)) as Hall.
  { induction n as [|n IH]; intros base H0 Hb Hn.
    - exists (Z.max base (llen (log_of a id))). split; [lia|].
      rewrite drop_ge by (unfold llen; lia).
      destruct (List.filter _ _) as [|[k e] l] eqn:Hf; [done|]. exfalso.
      assert ((k, e) ∈ (k, e) :: l) as Hin by apply list_elem_of_here. rewrite <-Hf in Hin.
      apply elem_of_list_filter in Hin as [Hin Hlt]. apply elem_of_btree_entries in Hin.
      apply (so_event _ _ Hst) in Hin as [Hrange _]. simpl in Hlt. lia.
    - destruct (st_events st !! (base + 1)) as [e|] eqn:He.
      + exists base. split; [done|].
        destruct (entries_list (st_events st) (Z.to_nat (st_head st - base)) base)
          as (events & Hnum & Hlen & Hlook).
        { intros k Hk. destruct (so_suffix _ _ Hst (base + 1) k) as [x Hx]; [by exists e|lia|].
          exists x. split; [done|]. by apply (so_event _ _ Hst) in Hx as (_ & ? & _). }
        rewrite (range_numbered (st_events st) base events Hnum).
        * apply list_eq. intros i. rewrite lookup_drop.
          destruct (decide (i < length events)%nat) as [Hi|Hi].
          -- specialize (Hlook (base + 1 + Z.of_nat i) ltac:(lia)).
             replace (Z.to_nat (base + 1 + Z.of_nat i - base - 1)) with i in Hlook by lia.
             destruct (so_suffix _ _ Hst (base + 1) (base + 1 + Z.of_nat i)) as [x Hx];
               [by exists e|lia|].
             pose proof (Hev _ _ Hx) as Hlog. rewrite <-Hlook, Hx.
             by replace (Z.to_nat base + i)%nat with (Z.to_nat (base + 1 + Z.of_nat i - 1)) by lia.
          -- rewrite !lookup_ge_None_2; [done|unfold llen in *; lia|lia].
        * intros k x Hk. destruct (decide (k ≤ st_head st)) as [Hle|Hgt].
          -- by rewrite Hlook by lia.
          -- split; intros Hx.
             ++ apply (so_event _ _ Hst) in Hx as [? _]. lia.
             ++ apply lookup_lt_Some in Hx. lia.
      + rewrite (filter_skip _ _ He). destruct (IH (base + 1)) as (k & Hk & Heq); [lia..|].
        exists k. split; [lia|done]. }
  destruct (decide (0 ≤ after)) as [H0|H0].
  - destruct (Hall (Z.to_nat (Z.max 0 (st_head st - after))) after) as (k & Hk & Heq); [lia..|].
    exists k. split; [done|]. split; [lia|done].
  - destruct (Hall (Z.to_nat (Z.max 0 (st_head st - 0))) 0) as (k & Hk & Heq); [lia..|].
    exists k. split; [lia|]. split; [done|]. rewrite <-Heq. f_equal. apply filter_ext_in.
    intros [j e] Hin%list_elem_of_In. apply elem_of_btree_entries in Hin.
    apply (so_event _ _ Hst) in Hin as [Hrange _]. simpl. lia.
Qed.

(** ** Commits *)

Section commits.
Context `{SerdeJson}.

(** A write that fails leaves every stream and every outcome. *)
Definition untouched (s s' : MemStore) : Prop :=
  ms_streams s' = ms_streams s ∧ ms_outcomes s' = ms_outcomes s.

Lemma mem_write_result {X} (streams : list (Commit X)) fences views outcome retention r r' res :
  mem_write streams fences views outcome retention r = (r', res) →
  (∃ error, res = Err error ∧ untouched (mr_store r) (mr_store r')) ∨
  (res = Ok tt ∧ ∃ m, written (set_manifest (mr_store r) m) streams fences views outcome (mr_store r')).
Proof.
  unfold mem_write. destruct (check_manifest r) as [[m v]|e].
  - destruct (write_locked _ _ _ _ _ _) as [s'|e] eqn:Hw; intros [= <- <-].
    + right. split; [done|]. exists m. by apply write_locked_ok in Hw as [Hw _].
    + left. exists e. by split.
  - intros [= <- <-]. left. exists e. by split.
Qed.

Lemma mem_commit_result c r r' res :
  mem_commit c r = (r', res) →
  (∃ error, res = Err error ∧ untouched (mr_store r) (mr_store r')) ∨
  (res = Ok tt ∧ cm_events c = [] ∧ cm_outcome c = None ∧ r' = r) ∨
  (res = Ok tt ∧ commit_ok c ∧
     ∃ m, written (set_manifest (mr_store r) m) [c] [] (cm_views c) (stored_outcome c) (mr_store r')).
Proof.
  unfold mem_commit, guarded.
  destruct (result_bind _ _) as [[]|e] eqn:Hv; [|intros [= <- <-]; left; by exists e].
  apply check_bind_ok in Hv as [Hv Hr]. apply check_not_reserved_ok in Hr.
  destruct (nil_b (cm_events c) && _) eqn:Hn.
  - intros [= <- <-]. right. left. apply andb_prop in Hn as [Hn1 Hn2].
    split; [done|]. by destruct (cm_events c), (cm_outcome c).
  - destruct (result_bind _ _) as [[]|e] in |- *; [|intros [= <- <-]; left; by exists e].
    intros [He|[Hok Hm]]%mem_write_result; [by left|]. right. right.
    split; [done|]. split; [by apply validate_commit_ok|done].
Qed.

(** The abstract log stays numbered from one. *)
Lemma abs_step_numbered a a' :
  abs_step a a' → (∀ id, numbered 1 (log_of a id)) → ∀ id, numbered 1 (log_of a' id).
Proof.
  intros Hs Hnum id. destruct Hs as [|a batches outcome Hnd Hall _]; [done|].
  unfold log_of, ab_log. cbn [ab_commits]. rewrite log_after_append. fold (ab_log a).
  destruct (append_all_lookup batches (ab_log a) id Hnd) as [(es & Hin & ->)|[_ ->]]; [|apply Hnum].
  rewrite Forall_forall in Hall. destruct (Hall _ Hin) as [Hes _]. simpl in Hes.
  apply numbered_app. split; [apply Hnum|]. by rewrite Z.add_comm.
Qed.

Lemma abs_after_le {X} a s (streams : list (Commit X)) fences views outcome s' :
  refines a s → store_ok s → Forall commit_ok streams → NoDup (map cm_entity_id streams) →
  written s streams fences views outcome s' →
  abs_le a (abs_after a streams outcome) ∧ refines (abs_after a streams outcome) s' ∧ store_ok s' ∧
  ((∀ id, numbered 1 (log_of a id)) → ∀ id, numbered 1 (log_of (abs_after a streams outcome) id)).
Proof.
  intros Hr Hok Hc Hnd Hw. split; [|split; [|split]].
  - apply abs_step_le. by eapply written_abs_step.
  - by eapply written_refines.
  - by eapply written_ok.
  - apply abs_step_numbered. by eapply written_abs_step.
Qed.

(** The snapshot a write leaves on an entity. *)
Lemma written_snapshot {X} a s (streams : list (Commit X)) fences views outcome s' id sn :
  refines a s → store_ok s → Forall commit_ok streams → NoDup (map cm_entity_id streams) →
  written s streams fences views outcome s' → mem_snapshot s' id = Some sn →
  mem_snapshot s id = Some sn ∨
  ∃ c, c ∈ streams ∧ id = cm_entity_id c ∧ cm_events c ≠ [] ∧
    log_of (abs_after a streams outcome) id = log_of a id ++ cm_events c ∧
    ∃ new, cm_snapshot c = Some new ∧
      sn = snapshot_of id new (llen (log_of (abs_after a streams outcome) id)).
Proof.
  intros Hr Hok Hc Hnd Hw Hsn.
  destruct (abs_after_le a s streams fences views outcome s' Hr Hok Hc Hnd Hw) as (_ & Hr' & Hok' & _).
  assert (log_of (abs_after a streams outcome) id =
    log_at (append_all (ab_log a) (batches_of streams)) id) as Hafter
    by (unfold log_of; by rewrite abs_after_log).
  rewrite Hafter.
  destruct (written_log a s streams fences views outcome s' Hok Hc Hnd Hw id)
    as [(c & first & rest & last & Hin & Hid & Hev & Hl & Hfirst & Heq & Hlog)|[Heq Hlog]].
  - destruct (cm_snapshot c) as [new|] eqn:Hnew.
    + right. exists c. split; [done|]. split; [done|]. split; [by rewrite Hev|]. split; [done|].
      exists new. split; [done|].
      assert (sn = snapshot_of id new (ev_sequence last)) as ->.
      { unfold mem_snapshot in Hsn. unfold stream_at in Heq at 1.
        destruct (ms_streams s' !! id) as [st|]; [|done]. simpl in Heq. subst st.
        unfold appended in Hsn. simpl in Hsn. rewrite Hnew in Hsn. injection Hsn as <-. by subst id. }
      f_equal. rewrite <-Hafter. unfold log_of. rewrite <-(rf_head _ _ Hr' id), Heq. subst id.
      rewrite Forall_forall in Hc.
      destruct (Hc c Hin) as [_ Hcok]. destruct (Hcok _ _ Hev) as (_ & Hn & _).
      pose proof (last_event_numbered _ _ _ Hn Hl) as Hlast.
      rewrite Hev in Hlast. unfold llen in Hlast. cbn [length] in Hlast. cbn [appended st_head]. lia.
    + left. unfold mem_snapshot in *. unfold stream_at in Heq.
      destruct (ms_streams s' !! id) as [st|]; [|done]. simpl in Heq. subst st.
      unfold appended in Hsn. simpl in Hsn. rewrite Hnew in Hsn.
      by destruct (ms_streams s !! id).
  - left. unfold mem_snapshot in *. unfold stream_at in Heq.
    destruct (ms_streams s' !! id) as [st|] eqn:H1, (ms_streams s !! id) as [st'|] eqn:H2;
      simpl in Heq; subst; done.
Qed.
End commits.

(** ** The promise *)

Section law.
Context `{SerdeJson}.

Definition mem_represents (a : Abs) (w : World) : Prop :=
  refines a (w_store w) ∧ store_ok (w_store w) ∧ ∀ id, numbered 1 (log_of a id).

Definition mem_snapshots (w : World) (id : EntityId) : option SerializedSnapshot :=
  mem_snapshot (w_store w) id.

Lemma untouched_represents a w r' :
  mem_represents a w → untouched (w_store w) (mr_store r') → store_ok (mr_store r') →
  mem_represents a (with_repository w r') ∧
  ∀ id, mem_snapshots (with_repository w r') id = mem_snapshots w id.
Proof.
  intros ([Hh He Ho] & Hok & Hnum) [Hs Hout] Hok'. split; [split; [split|by split]|].
  - intros id. unfold w_store in *. simpl. rewrite Hs. apply Hh.
  - intros id k e. unfold w_store in *. simpl. rewrite Hs. apply He.
  - unfold w_store in *. simpl. by rewrite Hout.
  - intros id. unfold mem_snapshots, mem_snapshot, w_store in *. simpl. by rewrite Hs.
Qed.

Lemma commit_law a w c r' res :
  mem_represents a w → mem_commit c (w_repository w) = (r', res) →
  let w' := with_repository w r' in
  ∃ a', abs_le a a' ∧ mem_represents a' w' ∧ (res = Ok tt → commit_applied a a' c) ∧
    ∀ id sn, mem_snapshots w' id = Some sn →
      mem_snapshots w id = Some sn ∨ snapshot_written a a' (QCommit c) id sn.
Proof.
  intros (Hr & Hok & Hnum) Hc w'. pose proof (mem_commit_preserves c (w_repository w) Hok) as Hok'.
  rewrite Hc in Hok'. simpl in Hok'.
  destruct (mem_commit_result c _ _ _ Hc)
    as [(e & -> & Hun)|[(-> & Hev & Hout & ->)|(-> & Hcok & m & Hw)]].
  - destruct (untouched_represents a w r' (conj Hr (conj Hok Hnum)) Hun Hok') as [Hrep Hsn].
    exists a. split; [reflexivity|]. split; [done|]. split; [done|]. intros id sn. rewrite Hsn. by left.
  - exists a. split; [reflexivity|]. split; [done|]. split.
    + intros _. split; [by rewrite Hev|]. unfold stored_outcome. by rewrite Hout.
    + by left.
  - apply (refines_set_manifest _ _ m) in Hr. apply (set_manifest_ok _ m) in Hok.
    assert (Forall commit_ok [c]) as Hall by (by apply Forall_singleton).
    pose proof (NoDup_singleton (cm_entity_id c)) as Hnd.
    destruct (abs_after_le a _ _ _ _ _ _ Hr Hok Hall Hnd Hw) as (Hle & Hr' & _ & Hnum').
    exists (abs_after a [c] (stored_outcome c)). split; [done|].
    split; [split; [done|split; [done|by apply Hnum']]|]. split.
    + intros _. split.
      * intros Hne. destruct (cm_events c) as [|first rest] eqn:Hev; [done|]. rewrite <-Hev.
        destruct Hcok as [_ Hcok]. destruct (Hcok _ _ Hev) as (_ & Hn & _).
        pose proof (wr_streams _ _ _ _ _ _ Hw) as Hf.
        rewrite Forall_singleton in Hf, Hall.
        destruct (stream_failure_nil _ _ _ _ Hall Hev Hf) as [Hfirst _]. split.
        -- unfold log_of. rewrite abs_after_log. simpl. rewrite append_batch_lookup.
           by destruct (decide (cm_entity_id c = cm_entity_id c)).
        -- unfold log_of. rewrite <-(rf_head _ _ Hr). unfold w_store. by rewrite <-Hfirst.
      * intros o Ho. unfold abs_after. rewrite Ho. simpl. rewrite lookup_insert_eq. split; [|done].
        rewrite <-(rf_outcomes _ _ Hr). by apply (wr_fresh _ _ _ _ _ _ Hw).
    + intros id sn Hsn.
      destruct (written_snapshot a _ _ _ _ _ _ id sn Hr Hok Hall Hnd Hw Hsn)
        as [Hold|(c' & Hin & Hrest)]; [by left|].
      apply list_elem_of_singleton in Hin as ->. by right.
Qed.

(** A normalized transaction writes what it wrote before. *)
Lemma normalized_writes {X} (t t' : TransactionCommit X) c :
  normalized t t' → c ∈ tc_streams t → cm_events c ≠ [] → without_carried c ∈ tc_streams t'.
Proof.
  intros Hnz Hin Hne. rewrite (nz_streams _ _ Hnz). apply list_elem_of_fmap. exists c.
  split; [done|]. apply elem_of_list_filter. split; [done|]. unfold has_events. by destruct (cm_events c).
Qed.

Lemma normalized_written {X} (t t' : TransactionCommit X) c :
  normalized t t' → c ∈ tc_streams t' → tc_writes t (cm_entity_id c).
Proof.
  intros Hnz Hin. rewrite (nz_streams _ _ Hnz) in Hin. apply list_elem_of_fmap in Hin as (c' & -> & Hin).
  apply elem_of_list_filter in Hin as [Hin He]. exists c'. split; [done|]. split; [done|].
  unfold has_events in He. by destruct (cm_events c').
Qed.

Lemma empty_applied {X} a (t t' : TransactionCommit X) :
  normalized t t' → transaction_is_empty t' = true → transaction_applied a a t.
Proof.
  intros Hnz He. unfold transaction_is_empty in He. rewrite !andb_true_iff in He.
  destruct He as ((((Hs & Hf) & _) & _) & Ho).
  destruct (tc_streams t') as [|] eqn:Hst; [|done]. destruct (tc_fences t') as [|] eqn:Hfe; [|done].
  split.
  - intros c Hin Hne. pose proof (normalized_writes t t' c Hnz Hin Hne) as Hin'. rewrite Hst in Hin'.
    by apply not_elem_of_nil in Hin'.
  - intros f Hin Hno. exfalso. apply (not_elem_of_nil f). rewrite <-Hfe. apply (nz_fences _ _ Hnz).
    split; [done|]. intros c Hc. rewrite Hst in Hc. by apply not_elem_of_nil in Hc.
  - intros (id & c & Hin & _ & Hne). pose proof (normalized_writes t t' c Hnz Hin Hne) as Hin'.
    rewrite Hst in Hin'. by apply not_elem_of_nil in Hin'.
  - intros o Hout. rewrite <-(nz_outcome _ _ Hnz) in Hout. by rewrite Hout in Ho.
Qed.

Lemma append_all_batch log batches id es :
  NoDup (map fst batches) → (id, es) ∈ batches →
  log_at (append_all log batches) id = log_at log id ++ es.
Proof.
  intros Hnd Hin. destruct (append_all_lookup batches log id Hnd) as [(es' & Hin' & ->)|[Hno _]].
  - f_equal. apply list_elem_of_lookup_1 in Hin as [i Hi], Hin' as [j Hj].
    assert (i = j) as ->; [|congruence].
    apply (NoDup_lookup _ _ _ id Hnd); by rewrite list_lookup_fmap, ?Hi, ?Hj.
  - exfalso. apply Hno, list_elem_of_fmap. by exists (id, es).
Qed.

(** A write of a normalized transaction applied it. *)
Lemma written_applied {X} a s (t t' : TransactionCommit X) views s' :
  refines a s → normalized t t' →
  written s (tc_streams t') (tc_fences t') views (transaction_stored_outcome t') s' →
  transaction_applied a (abs_after a (tc_streams t') (transaction_stored_outcome t')) t.
Proof.
  intros Hr Hnz Hw. pose proof (normalized_commit_ok _ _ Hnz) as Hall. rewrite Forall_forall in Hall.
  pose proof (nz_ids _ _ Hnz) as Hnd. rewrite <-batches_ids in Hnd. split.
  - intros c Hin Hne. pose proof (normalized_writes t t' c Hnz Hin Hne) as Hin'. split.
    + unfold log_of. rewrite abs_after_log. apply append_all_batch; [done|]. apply list_elem_of_fmap. by exists (without_carried c).
    + pose proof (wr_streams _ _ _ _ _ _ Hw) as Hf. rewrite Forall_forall in Hf.
      destruct (cm_events c) as [|first rest] eqn:Hev; [done|].
      destruct (stream_failure_nil _ (without_carried c) first rest (Hall _ Hin') Hev (Hf _ Hin'))
        as [Hfirst _].
      unfold log_of. rewrite <-(rf_head _ _ Hr). simpl in Hfirst. rewrite <-Hfirst, <-Hev.
      destruct (Hall _ Hin') as [_ Hcok]. by destruct (Hcok _ _ Hev) as (_ & Hn & _).
  - intros f Hin Hno.
    assert (∀ c, c ∈ tc_streams t' → cm_entity_id c ≠ fe_entity_id f) as Hfree.
    { intros c Hc Heq. apply Hno. rewrite <-Heq. by eapply normalized_written. }
    split.
    + unfold log_of. rewrite abs_after_log.
      destruct (append_all_lookup (batches_of (tc_streams t')) (ab_log a) (fe_entity_id f) Hnd)
        as [(es & Hes & _)|[_ ->]]; [|done].
      apply list_elem_of_fmap in Hes as (c & [= Heq _] & Hc). by destruct (Hfree c Hc).
    + pose proof (wr_fences _ _ _ _ _ _ Hw) as Hf. rewrite Forall_forall in Hf.
      specialize (Hf f). rewrite (nz_fences _ _ Hnz) in Hf. specialize (Hf (conj Hin Hfree)).
      unfold fence_failure in Hf. rewrite existsb_none in Hf.
      * unfold log_of. rewrite <-(rf_head _ _ Hr).
        by destruct (Z.eqb_spec (st_head (stream_at (ms_streams s) (fe_entity_id f))) (fe_head f)).
      * intros c Hc. rewrite bool_decide_false; [by rewrite andb_false_r|by apply Hfree].
  - intros _. eexists. split; [reflexivity|]. intros id es. unfold batches_of.
    rewrite list_elem_of_fmap. split.
    + intros (c & [= -> ->] & Hin). rewrite (nz_streams _ _ Hnz) in Hin.
      apply list_elem_of_fmap in Hin as (c' & -> & Hin). apply elem_of_list_filter in Hin as [Hin He].
      exists c'. split; [done|]. split; [done|]. split; [done|]. simpl. unfold has_events in He.
      by destruct (cm_events c').
    + intros (c & Hin & <- & <- & Hne). exists (without_carried c). split; [done|].
      by apply normalized_writes with t.
  - intros o Ho. rewrite <-(nz_outcome _ _ Hnz) in Ho. pose proof (wr_fresh _ _ _ _ _ _ Hw) as Hfresh.
    revert Hfresh. unfold abs_after, transaction_stored_outcome. rewrite Ho. simpl. intros Hfresh.
    split; [rewrite <-(rf_outcomes _ _ Hr); exact (Hfresh _ eq_refl)|].
    rewrite lookup_insert_eq, <-(nz_receipt _ _ Hnz), concat_map, map_map. done.
Qed.

Lemma transaction_law a w t r' res :
  mem_represents a w → mem_commit_transaction t (w_repository w) = (r', res) →
  let w' := with_repository w r' in
  ∃ a', abs_le a a' ∧ mem_represents a' w' ∧
    (res = Ok tt → transaction_applied a a' t) ∧
    ∀ id sn, mem_snapshots w' id = Some sn →
      mem_snapshots w id = Some sn ∨ snapshot_written a a' (QCommitTransaction t) id sn.
Proof.
  intros (Hr & Hok & Hnum) Hc w'. pose proof (mem_commit_transaction_preserves t (w_repository w) Hok) as Hok'.
  rewrite Hc in Hok'. simpl in Hok'. revert Hc. unfold mem_commit_transaction, guarded.
  destruct (normalize t) as [t'|e] eqn:Hn.
  2: { intros [= <- <-]. exists a. split; [reflexivity|]. split; [done|]. split; [done|]. by left. }
  apply normalize_ok in Hn as Hnz. pose proof (normalized_commit_ok _ _ Hnz) as Hall.
  pose proof (nz_ids _ _ Hnz) as Hnd.
  destruct (transaction_is_empty t') eqn:Hempty.
  { intros [= <- <-]. exists a. split; [reflexivity|]. split; [done|]. split; [|by left].
    intros _. by apply (empty_applied a t t'). }
  destruct (result_bind _ _) as [[]|e] in |- *.
  2: { intros [= <- <-]. exists a. split; [reflexivity|]. split; [done|]. split; [done|]. by left. }
  intros [(e & -> & Hun)|(-> & m & Hw)]%mem_write_result.
  - destruct (untouched_represents a w r' (conj Hr (conj Hok Hnum)) Hun Hok') as [Hrep Hsn].
    exists a. split; [reflexivity|]. split; [done|]. split; [done|]. intros id sn. rewrite Hsn. by left.
  - apply (refines_set_manifest _ _ m) in Hr. apply (set_manifest_ok _ m) in Hok.
    destruct (abs_after_le a _ _ _ _ _ _ Hr Hok Hall Hnd Hw) as (Hle & Hr' & _ & Hnum').
    exists (abs_after a (tc_streams t') (transaction_stored_outcome t')).
    split; [done|]. split; [split; [done|split; [done|by apply Hnum']]|]. split.
    + intros _. by eapply written_applied.
    + intros id sn Hsn.
      destruct (written_snapshot a _ _ _ _ _ _ id sn Hr Hok Hall Hnd Hw Hsn)
        as [Hold|(c' & Hin & Hid & Hne & Hlog & new & Hnew & ->)]; [by left|].
      right. rewrite (nz_streams _ _ Hnz) in Hin.
      apply list_elem_of_fmap in Hin as (c & -> & Hin). apply elem_of_list_filter in Hin as [Hin _].
      exists c. split; [done|]. split; [done|]. split; [done|]. split; [done|]. by exists new.
Qed.

Lemma put_snapshot_law a w sn r' res :
  mem_represents a w → mem_put_snapshot sn (w_repository w) = (r', res) →
  let w' := with_repository w r' in
  mem_represents a w' ∧
  ∀ id sn', mem_snapshots w' id = Some sn' →
    mem_snapshots w id = Some sn' ∨ (id = sn_entity_id sn ∧ sn' = sn).
Proof.
  intros (Hr & Hok & Hnum) Hp w'. pose proof (mem_put_snapshot_preserves sn (w_repository w) Hok) as Hok'.
  destruct (mem_put_snapshot_silent sn (w_repository w) Hok) as [Hout Hst].
  rewrite Hp in Hok', Hout, Hst. simpl in Hok', Hout, Hst.
  split; [split; [by eapply refines_same|by split]|].
  intros id sn'. unfold mem_snapshots, mem_snapshot, w_store. revert Hp. clear.
  unfold mem_put_snapshot, guarded. destruct (check_not_reserved _); [|intros [= <- <-]; by left].
  destruct (check_manifest _) as [[m v]|]; [|intros [= <- <-]; by left].
  destruct (_ && _); [intros [= <- <-]; by left|].
  match goal with |- context [if ?c then _ else _] => destruct c end; [intros [= <- <-]; by left|].
  intros [= <- <-]. simpl. destruct (decide (sn_entity_id sn = id)) as [<-|Hne].
  - rewrite lookup_insert_eq. simpl. intros [= <-]. by right.
  - rewrite lookup_insert_ne by done. by left.
Qed.

(** The in-memory repository keeps the interface's promise. *)
#[export] Program Instance mem_log_backend : LogBackend Empty_set World := {|
  represents := mem_represents;
  snapshots := mem_snapshots
|}.
Next Obligation. by intros a w id (_ & _ & Hnum). Qed.
Next Obligation.
  intros a w B q b w' Hrep (o & Ho & Hans).
  destruct q; simpl in Hans; try (injection Hans as <- <-;
    exists a; split; [reflexivity|]; split; [done|]; split; [|by left]; simpl; try done).
  - by intros x [= <-].
  - intros es [= <-]. by apply read_is_tail; apply Hrep.
  - intros es [= <-]. by apply read_is_tail; apply Hrep.
  - intros x. unfold mem_outcome. destruct (check_command_id _); [|done]. simpl. intros [= <-].
    by rewrite (rf_outcomes _ _ (proj1 Hrep)).
  - unfold with_receipt in Hans. destruct (mem_commit commit (w_repository w)) as [r' res] eqn:Hc.
    injection Hans as <- <-. destruct (commit_law a w commit r' res Hrep Hc) as (a' & H1 & H2 & H3 & H4).
    exists a'. split; [done|]. split; [done|]. split; [|done]. simpl. intros es.
    destruct res as [[]|e]; [|done]. simpl. intros [= <-]. split; [done|]. by apply H3.
  - unfold with_receipt in Hans.
    destruct (mem_commit_transaction commit (w_repository w)) as [r' res] eqn:Hc.
    injection Hans as <- <-.
    destruct (transaction_law a w commit r' res Hrep Hc) as (a' & H1 & H2 & H3 & H4).
    exists a'. split; [done|]. split; [done|]. split; [|done]. simpl. intros es.
    destruct res as [[]|e]; [|done]. simpl. intros [= <-]. split; [done|]. by apply H3.
  - destruct (mem_put_snapshot snapshot (w_repository w)) as [r' res] eqn:Hc.
    injection Hans as <- <-. destruct (put_snapshot_law a w snapshot r' res Hrep Hc) as [H1 H2].
    exists a. split; [reflexivity|]. split; [done|]. by split.
  - unfold mem_declare_history in Hans.
    destruct (nil_b _); simpl in Hans; injection Hans as <- <-; exists a;
      (split; [reflexivity|]); [by split; [destruct w|split; [|left]]|].
    destruct Hrep as (Hr & Hok & Hnum). split; [|split; [done|by left]].
    split; [by apply refines_set_manifest|split; [by apply set_manifest_ok|done]].
  - intros x [= Hx]. revert Hx. unfold mem_outcome. destruct (check_command_id _); [|done]. simpl.
    intros [= <-]. by rewrite (rf_outcomes _ _ (proj1 Hrep)).
  - intros x [= Hx]. revert Hx. unfold mem_outcome. destruct (check_command_id _); [|done]. simpl.
    intros [= <-]. by rewrite (rf_outcomes _ _ (proj1 Hrep)).
Qed.
End law.
