(* ===== verification/Views.v ===== *)
(** * The view repository's provided methods

    [views.rs]: what [ViewRepository] builds from its required methods. A listing that runs through
    the pages is a loop over the cursors the backend returns. [viewcodec.rs]: views of an
    application's type over any view repository. *)

From S2P Require Import Prelude Types Features Outcome Rebuild Wire Projection Repository.
From S2P Require Import RebuildBatch Program Mem.

(** crates/evt/src/views.rs:71-106 [ViewRepository]

    The required methods. *)
Inductive ViewCall : Type → Type :=
| VGetAt (pk sk : string) : ViewCall (Result (option ViewRow))
| VPut (view : ViewRow) : ViewCall (Result unit)
| VDelete (pk sk : string) : ViewCall (Result unit)
| VListByPk (pk : string) (limit : option nat) (cursor : option string) : ViewCall (Result ViewPage)
| VListByType (entity_type : string) (limit : option nat) (cursor : option string)
    : ViewCall (Result ViewPage).

(** Calls among which the view repository's are. *)
Class HasViews (E : Type → Type) := view_call : ∀ {B}, ViewCall B → E B.

#[export] Instance views_have_views : HasViews ViewCall := λ B q, q.

Section provided.
Context {E : Type → Type} `{!HasViews E}.

Abbreviation ask q := (call (E := E) (view_call q)).

(** crates/evt/src/views.rs:110-112 [ViewRepository::get_view] *)
Definition get_view (pk : string) : Tree E (Result (option ViewRow)) :=
  ask (VGetAt pk DEFAULT_VIEW_SORT_KEY).

(** crates/evt/src/views.rs:125-127 [ViewRepository::put_views] *)
Fixpoint put_each (views : list ViewRow) : Tree E (Result unit) :=
  match views with
  | [] => Ret (Ok tt)
  | view :: views => await? done := ask (VPut view) in put_each views
  end.

(** crates/evt/src/views.rs:118-131 [ViewRepository::put_views] *)
Definition put_views (views : list ViewRow) : Tree E (Result unit) :=
  match check_each check_view_row views with
  | Err error => Ret (Err error)
  | Ok _ => put_each views
  end.

(** crates/evt/src/views.rs:148-159 [ViewRepository::batch_get_views_at] *)
Fixpoint get_each (sk : string) (seen : gset string) (views : list ViewRow) (pks : list string)
  : Tree E (Result (list ViewRow)) :=
  match pks with
  | [] => Ret (Ok views)
  | pk :: pks =>
      if is_empty pk || bool_decide (pk ∈ seen) then get_each sk seen views pks
      else
        await? found := ask (VGetAt pk sk) in
        get_each sk ({[pk]} ∪ seen) (views ++ option_list found) pks
  end.

(** crates/evt/src/views.rs:136-161 [ViewRepository::batch_get_views_at] *)
Definition batch_get_views_at (pks : list string) (sk : string) : Tree E (Result (list ViewRow)) :=
  match (let? sk := resolve_key "-" sk in
         check? check_each (λ pk, nul_free pk "pk") pks;
         Ok sk) with
  | Err error => Ret (Err error)
  | Ok sk => get_each sk ∅ [] pks
  end.

(** crates/evt/src/views.rs:164-169 [ViewRepository::batch_get_views] *)
Definition batch_get_views (pks : list string) : Tree E (Result (list ViewRow)) :=
  batch_get_views_at pks DEFAULT_VIEW_SORT_KEY.

(** crates/evt/src/views.rs:177-192 [ViewRepository::list_views_by_pk]

    [fuel] bounds the pages. *)
Fixpoint pages_from (page : option string → Tree E (Result ViewPage)) (fuel : nat)
    (views : list ViewRow) (cursor : option string) : Tree E (Result (list ViewRow)) :=
  match fuel with
  | O => OutOfFuel
  | S fuel =>
      await? page_ := page cursor in
      let views := views ++ vp_views page_ in
      match vp_next_cursor page_ with
      | Some next => pages_from page fuel views (Some next)
      | None => Ret (Ok views)
      end
  end.

(** crates/evt/src/views.rs:173-193 [ViewRepository::list_views_by_pk] *)
Definition list_views_by_pk (fuel : nat) (pk : string) : Tree E (Result (list ViewRow)) :=
  pages_from (λ cursor, ask (VListByPk pk None cursor)) fuel [] None.

(** crates/evt/src/views.rs:197-217 [ViewRepository::list_views_by_entity_type] *)
Definition list_views_by_entity_type (fuel : nat) (entity_type : string)
  : Tree E (Result (list ViewRow)) :=
  pages_from (λ cursor, ask (VListByType entity_type None cursor)) fuel [] None.
End provided.

(** ** The in-memory repository *)

Section mem.
Context `{SerdeJson}.

(** crates/evt/src/mem/views.rs:15-102 [ViewRepository for MemRepository] *)
Definition mem_view_answer {B} (q : ViewCall B) (r : MemRepository) : MemRepository * B :=
  match q in ViewCall B return MemRepository * B with
  | VGetAt pk sk => (r, mem_get_view_at (mr_store r) pk sk)
  | VPut view => mem_put_view view r
  | VDelete pk sk => mem_delete_view pk sk r
  | VListByPk pk limit cursor => (r, mem_list_views_by_pk_paged (mr_store r) pk limit cursor)
  | VListByType entity_type limit cursor =>
      (r, mem_list_views_by_entity_type_paged (mr_store r) entity_type limit cursor)
  end.

(** The calls of a program answered one after the other. *)
Fixpoint run_views {B} (p : Tree ViewCall B) (r : MemRepository) : MemRepository * option B :=
  match p with
  | Ret b => (r, Some b)
  | Ask q k => let x := mem_view_answer q r in run_views (k x.2) x.1
  | Panic | OutOfFuel => (r, None)
  end.
End mem.

(** ** Typed views *)

(** crates/evt/src/viewcodec.rs:26-37 [ViewDecodeError] *)
Record ViewDecodeError := mkViewDecodeError { vd_pk : string; vd_sk : string; vd_source : string }.

(** crates/evt/src/viewcodec.rs:40-62 [ViewCodecError] *)
Inductive ViewCodecError :=
| CodecRepository (error : Error)
| CodecDecode (error : ViewDecodeError)
| CodecEncode (pk sk source : string).

Section codec.
(** The typed value, with its JSON encoding and decoding, and the calls of the repository. *)
Context {T : Type} (to_vec : T → result string string) (from_slice : string → result T string).
Context {E : Type → Type} `{!HasViews E}.

(** crates/evt/src/viewcodec.rs:79-83 [ViewCodec] *)
Record ViewCodec := mkViewCodec { vc_entity_type : string; vc_decoder : option (string → result T string) }.

(** crates/evt/src/viewcodec.rs:111-117 [ViewCodec::new] *)
Definition view_codec_new (entity_type : string) : ViewCodec := mkViewCodec entity_type None.

(** crates/evt/src/viewcodec.rs:123-129 [ViewCodec::with_decoder] *)
Definition with_decoder (codec : ViewCodec) (decoder : string → result T string) : ViewCodec :=
  mkViewCodec (vc_entity_type codec) (Some decoder).

(** crates/evt/src/viewcodec.rs:65-71 [decode_json_view] *)
Definition decode_json_view (view : ViewRow) : result T ViewDecodeError :=
  map_err (mkViewDecodeError (vr_pk view) (vr_sk view)) (from_slice (vr_payload view)).

(** crates/evt/src/viewcodec.rs:143-152 [ViewCodec::decode] *)
Definition codec_decode (codec : ViewCodec) (view : ViewRow) : result T ViewDecodeError :=
  match vc_decoder codec with
  | Some decoder => map_err (mkViewDecodeError (vr_pk view) (vr_sk view)) (decoder (vr_payload view))
  | None => decode_json_view view
  end.

Definition decoded_row (codec : ViewCodec) (row : option ViewRow) : result (option T) ViewCodecError :=
  match row with
  | Some row => let? value := map_err CodecDecode (codec_decode codec row) in Ok (Some value)
  | None => Ok None
  end.

(** crates/evt/src/viewcodec.rs:155-159 [ViewCodec::get] *)
Definition codec_get (codec : ViewCodec) (pk : string) : Tree E (result (option T) ViewCodecError) :=
  await? row := map_err_prog CodecRepository (get_view pk) in Ret (decoded_row codec row).

(** crates/evt/src/viewcodec.rs:162-166 [ViewCodec::get_at] *)
Definition codec_get_at (codec : ViewCodec) (pk sk : string) : Tree E (result (option T) ViewCodecError) :=
  await? row := map_err_prog CodecRepository (call (view_call (VGetAt pk sk))) in Ret (decoded_row codec row).

(** crates/evt/src/viewcodec.rs:190-201 [ViewCodec::put_row] *)
Definition codec_put_row (template : ViewRow) (value : T) : Tree E (result unit ViewCodecError) :=
  await? payload := Ret (map_err (CodecEncode (vr_pk template) (vr_sk template)) (to_vec value)) in
  map_err_prog CodecRepository (call (view_call (VPut (mkViewRow (vr_pk template) (vr_sk template)
    (vr_entity_id template) (vr_entity_type template) payload (vr_ttl template))))).

(** crates/evt/src/viewcodec.rs:169-181 [ViewCodec::put] *)
Definition codec_put (codec : ViewCodec) (pk sk entity_id : string) (value : T) : Tree E (result unit ViewCodecError) :=
  codec_put_row (mkViewRow pk sk entity_id (vc_entity_type codec) EmptyString 0) value.

(** crates/evt/src/viewcodec.rs:184-186 [ViewCodec::put_at] *)
Definition codec_put_at (codec : ViewCodec) (pk entity_id : string) (value : T) : Tree E (result unit ViewCodecError) :=
  codec_put codec pk EmptyString entity_id value.

(** crates/evt/src/viewcodec.rs:260-262 [ViewCodec::decode_all] *)
Definition decode_all (codec : ViewCodec) (rows : list ViewRow) : result (list T) ViewDecodeError :=
  collect (codec_decode codec) rows.

(** crates/evt/src/viewcodec.rs:264-279 [ViewCodec::decode_valid]

    The values, and what [on_decode_error] is called with, in order. *)
Fixpoint decode_valid (codec : ViewCodec) (rows : list ViewRow) : list T * list (ViewRow * ViewDecodeError) :=
  match rows with
  | [] => ([], [])
  | row :: rows =>
      let rest := decode_valid codec rows in
      match codec_decode codec row with
      | Ok value => (value :: rest.1, rest.2)
      | Err err => (rest.1, (row, err) :: rest.2)
      end
  end.

(** crates/evt/src/viewcodec.rs:206-214 [ViewCodec::list_by_pk] *)
Definition codec_list_by_pk (codec : ViewCodec) (fuel : nat) (pk : string)
  : Tree E (result (list T * list (ViewRow * ViewDecodeError)) ViewCodecError) :=
  await? rows := map_err_prog CodecRepository (list_views_by_pk fuel pk) in Ret (Ok (decode_valid codec rows)).

(** crates/evt/src/viewcodec.rs:218-228 [ViewCodec::list_all] *)
Definition codec_list_all (codec : ViewCodec) (fuel : nat)
  : Tree E (result (list T * list (ViewRow * ViewDecodeError)) ViewCodecError) :=
  await? rows := map_err_prog CodecRepository (list_views_by_entity_type fuel (vc_entity_type codec)) in
  Ret (Ok (decode_valid codec rows)).

(** crates/evt/src/viewcodec.rs:231-235 [ViewCodec::list_by_pk_strict] *)
Definition codec_list_by_pk_strict (codec : ViewCodec) (fuel : nat) (pk : string) : Tree E (result (list T) ViewCodecError) :=
  await? rows := map_err_prog CodecRepository (list_views_by_pk fuel pk) in Ret (map_err CodecDecode (decode_all codec rows)).

(** crates/evt/src/viewcodec.rs:238-245 [ViewCodec::list_all_strict] *)
Definition codec_list_all_strict (codec : ViewCodec) (fuel : nat) : Tree E (result (list T) ViewCodecError) :=
  await? rows := map_err_prog CodecRepository (list_views_by_entity_type fuel (vc_entity_type codec)) in
  Ret (map_err CodecDecode (decode_all codec rows)).

(** crates/evt/src/viewcodec.rs:248-258 [ViewCodec::list_by_pk_paged] *)
Definition codec_list_by_pk_paged (codec : ViewCodec) (pk : string) (limit : option nat) (cursor : option string)
  : Tree E (result (list T * option string) ViewCodecError) :=
  await? page := map_err_prog CodecRepository (call (view_call (VListByPk pk limit cursor))) in
  Ret (let? values := map_err CodecDecode (decode_all codec (vp_views page)) in Ok (values, vp_next_cursor page)).

(** crates/evt/src/viewcodec.rs:297-301 [SingleView] *)
Record SingleView (K : Type) := mkSingleView {
  sv_codec : ViewCodec;
  sv_pk_for : K → string;
  sv_entity_id_of : option (T → string)
}.
#[global] Arguments mkSingleView {K} sv_codec sv_pk_for sv_entity_id_of.
#[global] Arguments sv_codec {K} s.
#[global] Arguments sv_pk_for {K} s k.
#[global] Arguments sv_entity_id_of {K} s.

(** crates/evt/src/viewcodec.rs:283-292 [ViewCodec::single] *)
Definition codec_single {K} (codec : ViewCodec) (pk_for : K → string) : SingleView K := mkSingleView codec pk_for None.

(** crates/evt/src/viewcodec.rs:319-325 [SingleView::with_entity_id] *)
Definition with_entity_id {K} (view : SingleView K) (entity_id_of : T → string) : SingleView K :=
  mkSingleView (sv_codec view) (sv_pk_for view) (Some entity_id_of).

(** crates/evt/src/viewcodec.rs:334-336 [SingleView::get] *)
Definition single_get {K} (view : SingleView K) (id : K) : Tree E (result (option T) ViewCodecError) :=
  codec_get (sv_codec view) (sv_pk_for view id).

(** crates/evt/src/viewcodec.rs:339-349 [SingleView::put] *)
Definition single_put {K} (view : SingleView K) (id : K) (value : T) : Tree E (result unit ViewCodecError) :=
  let entity_id := match sv_entity_id_of view with Some f => f value | None => EmptyString end in
  codec_put_at (sv_codec view) (sv_pk_for view id) entity_id value.

(** crates/evt/src/viewcodec.rs:352-357 [SingleView::list_all] *)
Definition single_list_all {K} (view : SingleView K) (fuel : nat)
  : Tree E (result (list T * list (ViewRow * ViewDecodeError)) ViewCodecError) := codec_list_all (sv_codec view) fuel.

(** A listing that skips what does not decode reports exactly the rows it skips, in order: what it
    returns and what it reports are the rows that were listed. *)
Lemma decode_valid_partitions codec rows :
  let x := decode_valid codec rows in
  collect (codec_decode codec) (List.filter (λ row, match codec_decode codec row with Ok _ => true | Err _ => false end) rows)
    = Ok x.1 ∧
  map fst x.2 = List.filter (λ row, match codec_decode codec row with Ok _ => false | Err _ => true end) rows ∧
  Forall (λ e, codec_decode codec e.1 = Err e.2) x.2.
Proof.
  induction rows as [|row rows (H1 & H2 & H3)]; [by repeat constructor|]. simpl in *.
  destruct (codec_decode codec row) as [value|err] eqn:Hd; simpl.
  - rewrite Hd, H1. by split_and!.
  - rewrite H1, H2. split_and!; [done..|]. by constructor.
Qed.
End codec.

Arguments ViewCodec : clear implicits.

Section codec_mem.
Context `{SerdeJson} {T : Type} (to_vec : T → result string string) (from_slice : string → result T string).

(** A value that is put is the one that is read at its key, on the in-memory repository, if its text
    reads back as it and the row can be stored. *)
Theorem codec_put_get codec pk sk entity_id value payload r :
  vc_decoder codec = None → to_vec value = Ok payload → from_slice payload = Ok value →
  check_view_row (mkViewRow pk sk entity_id (vc_entity_type codec) payload 0) = Ok tt →
  let put := run_views (codec_put to_vec codec pk sk entity_id value) r in
  put.2 = Some (Ok tt) ∧ (run_views (codec_get_at from_slice codec pk sk) put.1).2 = Some (Ok (Some value)).
Proof.
  intros Hd He Hf Hc put. subst put. unfold codec_put, codec_put_row. rewrite He. simpl.
  unfold mem_put_view, guarded. rewrite Hc. simpl. split; [done|].
  assert (resolve_key pk sk = Ok (if is_empty sk then DEFAULT_VIEW_SORT_KEY else sk)) as Hk.
  { revert Hc. unfold check_view_row, resolve_key. simpl. destruct (is_empty pk); [done|].
    destruct (negb _); [done|]. unfold nul_free. destruct (contains_nul pk), (contains_nul sk); done. }
  unfold mem_get_view_at, mem_view, default_sk. rewrite Hk. simpl.
  destruct (is_empty sk); simpl; rewrite lookup_insert_eq; simpl; unfold codec_decode, decode_json_view; rewrite Hd; simpl;
    by rewrite Hf.
Qed.
End codec_mem.
