(* ===== verification/StoreLoad.v ===== *)
(** * Loading is replaying

    Against any backend that represents a log: whatever other clients do meanwhile, an aggregate
    the store loads is the replay of a prefix of its entity's log, and the snapshots the store
    writes are faithful, so that loads stay right. *)

From S2P Require Import Prelude Types Outcome Projection Repository Retry Program Settle Store.
From S2P Require Import MemRefinement LogBackend.

(** ** What the store relies on of an aggregate *)

(** The encodings read back what they wrote, upcasters keep an event's sequence and leave events
    of the current version alone. *)
Class AggregateLaws (A : Aggregate) : Prop := {
  al_json : ∀ state text, ag_to_json state = Ok text → ag_from_json text = Ok state;
  al_payload : ∀ event text, ag_to_payload event = Ok text →
    ag_from_payload (ag_event_type event) (ag_event_version event) text = Ok event;
  al_sequence : ∀ u event event', u ∈ ag_upcasters → uc_upcast u event = Ok event' →
    ev_sequence event' = ev_sequence event;
  al_current : ∀ u event, u ∈ ag_upcasters →
    uc_can_upcast u (ag_event_type event) (ag_event_version event) = false
}.

Section replay.
Context `{SerdeJson} `{A : Aggregate} `{!AggregateLaws A}.

(** The state a log stands for: every event decoded and applied in turn. *)
Definition apply_stored (state : option ag_state) (stored : SerializedEvent) : option ag_state :=
  match state, decode_event stored with
  | Some state, Ok (_, event) => Some (ag_apply state event)
  | _, _ => None
  end.

Definition replay_log (log : list SerializedEvent) : option ag_state :=
  fold_left apply_stored log (Some ag_default).

Lemma replay_log_app l1 l2 :
  replay_log (l1 ++ l2) = fold_left apply_stored l2 (replay_log l1).
Proof. apply fold_left_app. Qed.

(** A snapshot that holds the state of the log up to the sequence it covers. *)
Definition faithful (log : list SerializedEvent) (sn : SerializedSnapshot) : Prop :=
  0 ≤ sn_event_sequence sn ≤ llen log ∧
  ∃ state, ag_from_json (sn_payload sn) = Ok state ∧
    replay_log (take (Z.to_nat (sn_event_sequence sn)) log) = Some state.

Lemma take_prefix {B} (l1 l2 : list B) n :
  l1 `prefix_of` l2 → (n ≤ length l1)%nat → take n l2 = take n l1.
Proof. intros [k ->] Hn. by rewrite take_app_le. Qed.

Lemma faithful_prefix l1 l2 sn : l1 `prefix_of` l2 → faithful l1 sn → faithful l2 sn.
Proof.
  intros Hp ([H0 Hle] & state & Hj & Hr). pose proof (prefix_length _ _ Hp) as Hlen.
  unfold llen in *. split; [unfold llen; lia|]. exists state. split; [done|].
  rewrite (take_prefix _ _ _ Hp); [done|lia].
Qed.

(** A loaded aggregate is the replay of the log up to its sequence. *)
Record loaded_ok (log : list SerializedEvent) (id : EntityId) (loaded : Loaded) : Prop := {
  lk_entity : ld_entity_id loaded = id;
  lk_range : 0 ≤ ld_sequence loaded ≤ llen log;
  lk_state : replay_log (take (Z.to_nat (ld_sequence loaded)) log) = Some (ld_aggregate loaded)
}.

Lemma loaded_ok_prefix l1 l2 id loaded :
  l1 `prefix_of` l2 → loaded_ok l1 id loaded → loaded_ok l2 id loaded.
Proof.
  intros Hp [Hid Hr Hs]. pose proof (prefix_length _ _ Hp) as Hlen. unfold llen in *.
  split; [done|unfold llen; lia|]. rewrite (take_prefix _ _ _ Hp); [done|lia].
Qed.

Lemma upcast_sequence us event event' :
  (∀ u, u ∈ us → u ∈ ag_upcasters) → upcast_event us event = Ok event' →
  ev_sequence event' = ev_sequence event.
Proof.
  revert event. induction us as [|u us IH]; intros event Hus; simpl; [by intros [= <-]|].
  assert (∀ v, v ∈ us → v ∈ ag_upcasters) as Hus' by (intros v Hv; apply Hus; by apply list_elem_of_further).
  destruct (uc_can_upcast u _ _); [|by apply IH].
  destruct (uc_upcast u event) as [e|] eqn:Hu; [|done]. intros He.
  rewrite (IH e Hus' He). eapply al_sequence; [|done]. apply Hus, list_elem_of_here.
Qed.

Lemma decode_event_sequence stored stored' event :
  decode_event stored = Ok (stored', event) → ev_sequence stored' = ev_sequence stored.
Proof.
  unfold decode_event. destruct (upcast_event _ _) as [e|] eqn:Hu; [|done]. simpl.
  destruct (ag_from_payload _ _ _); [|done]. simpl. intros [= <- <-].
  by eapply upcast_sequence.
Qed.

(** One step of a replay. *)
Lemma replay_ok loaded stored loaded' :
  replay loaded stored = Ok loaded' →
  ev_sequence stored = next (ld_sequence loaded) ∧
  ld_entity_id loaded' = ld_entity_id loaded ∧
  ld_sequence loaded' = ev_sequence stored ∧
  apply_stored (Some (ld_aggregate loaded)) stored = Some (ld_aggregate loaded').
Proof.
  unfold replay, apply_stored. destruct (Z.eqb_spec (ev_sequence stored) (next (ld_sequence loaded)));
    [|done]. simpl. destruct (decode_event stored) as [[stored' event]|] eqn:Hd; [|done].
  simpl. intros [= <-]. simpl. rewrite (decode_event_sequence _ _ _ Hd). done.
Qed.

Lemma replay_step log id loaded e loaded' :
  numbered 1 log → loaded_ok log id loaded →
  log !! Z.to_nat (ld_sequence loaded) = Some e → replay loaded e = Ok loaded' →
  loaded_ok log id loaded' ∧ Z.to_nat (ld_sequence loaded') = S (Z.to_nat (ld_sequence loaded)).
Proof.
  intros Hn [Hid [H0 Hle] Hst] Hlook Hr. apply replay_ok in Hr as (Hseq & Hid' & Hs & Happ).
  pose proof (numbered_lookup _ _ _ _ Hn Hlook) as Hnum.
  pose proof (lookup_lt_Some _ _ _ Hlook) as Hlt.
  assert (Z.to_nat (ld_sequence loaded') = S (Z.to_nat (ld_sequence loaded))) as HS by lia.
  split; [|done]. split; [by rewrite Hid'|unfold llen in *; lia|].
  by rewrite HS, (take_S_r _ _ e Hlook), replay_log_app, Hst.
Qed.

(** The first event above a loaded sequence, and those after it. *)
Lemma drop_next (log : list SerializedEvent) n e events :
  e :: events = drop n log → log !! n = Some e ∧ events = drop (S n) log.
Proof.
  intros Hev.
  assert (log !! n = Some e) as Hlook by (rewrite <-(Nat.add_0_r n), <-lookup_drop, <-Hev; done).
  split; [done|]. rewrite (drop_S log e n Hlook) in Hev. by injection Hev as ->.
Qed.

Lemma replay_fold log id events : ∀ loaded loaded',
  numbered 1 log → loaded_ok log id loaded →
  events = drop (Z.to_nat (ld_sequence loaded)) log →
  fold_result replay loaded events = Ok loaded' → loaded_ok log id loaded'.
Proof.
  induction events as [|e events IH]; intros loaded loaded' Hn Hl Hev Hf; simpl in Hf;
    [by injection Hf as <-|].
  destruct (replay loaded e) as [loaded1|] eqn:Hr; [|done]. simpl in Hf.
  apply drop_next in Hev as [Hlook Hev].
  destruct (replay_step _ _ _ _ _ Hn Hl Hlook Hr) as [Hl1 HS].
  apply (IH loaded1 loaded' Hn Hl1); [by rewrite HS|done].
Qed.

(** The events above a loaded sequence, wherever their tail starts. *)
Lemma replay_tail log id events loaded loaded' :
  numbered 1 log → loaded_ok log id loaded → is_tail log (ld_sequence loaded) events →
  fold_result replay loaded events = Ok loaded' → loaded_ok log id loaded'.
Proof.
  intros Hn Hl (k & Hk & Hk0 & ->) Hf. destruct (drop (Z.to_nat k) log) as [|e es] eqn:Hd.
  { simpl in Hf. by injection Hf as <-. }
  assert (k = ld_sequence loaded) as ->.
  { simpl in Hf. destruct (replay loaded e) as [l1|] eqn:Hr; [|done].
    apply replay_ok in Hr as (Hseq & _).
    assert (log !! Z.to_nat k = Some e) as Hlook
      by (rewrite <-(Nat.add_0_r (Z.to_nat k)), <-lookup_drop, Hd; done).
    pose proof (numbered_lookup _ _ _ _ Hn Hlook) as Hnum.
    assert (next (ld_sequence loaded) ≤ ld_sequence loaded + 1).
    { unfold next, i64_saturating_add. destruct Hl as [_ [H0 _] _]. unfold i64_min. lia. }
    lia. }
  by eapply replay_fold; [| |symmetry|].
Qed.

Lemma loaded_from_ok log id snapshot loaded :
  (∀ sn, snapshot = Some sn → faithful log sn) →
  loaded_from id snapshot = Ok loaded → loaded_ok log id loaded.
Proof.
  intros Hs. unfold loaded_from. destruct snapshot as [sn|].
  - destruct (Hs sn eq_refl) as (Hr & state & Hj & Hrep). rewrite Hj. simpl. intros [= <-].
    by split.
  - intros [= <-]. split; [done|unfold llen; simpl; lia|done].
Qed.
End replay.

(** ** The invariant of the store's clients *)

(** Which aggregate the stream of each entity belongs to: several types share a repository. *)
Class EntityKinds := kind : EntityId → Aggregate.

Class HasKind `{EntityKinds} (id : EntityId) (A : Aggregate) : Prop := has_kind : kind id = A.

Section invariant.
Context `{EntityKinds} {X W : Type} `{LogBackend X W}.

(** Every stored snapshot is faithful to the log, for the aggregate of its entity. *)
Definition store_inv (g : Abs * W) : Prop :=
  represents g.1 g.2 ∧
  ∀ id sn, snapshots g.2 id = Some sn → @faithful (kind id) (log_of g.1 id) sn.

Lemma store_inv_snapshot id A `{!HasKind id A} (g : Abs * W) sn :
  store_inv g → snapshots g.2 id = Some sn → @faithful A (log_of g.1 id) sn.
Proof. intros [_ Hsn] Hs. rewrite <-(has_kind (id := id) (A := A)). by apply Hsn. Qed.
End invariant.

Section load.
Context `{SerdeJson} `{EntityKinds} `{A : Aggregate} `{!AggregateLaws A} {X W : Type} `{LogBackend X W}.
Implicit Types g : Abs * W.

Lemma store_inv_step {B} (q : Call X B) g1 b g2 :
  store_inv g1 → performs q g1 b g2 →
  (∀ id sn, snapshot_written g1.1 g2.1 q id sn → @faithful (kind id) (log_of g2.1 id) sn) →
  store_inv g2.
Proof.
  intros [Hr Hsn] (_ & Hle & Hr2 & _ & Hs) Hnew. split; [done|]. intros id sn Hid.
  destruct (Hs id sn Hid) as [Hold|Hw]; [|by apply Hnew].
  eapply faithful_prefix; [apply Hle|]. by apply Hsn.
Qed.

(** The calls that write no snapshot. *)
Definition quiet {B} (q : Call X B) : bool :=
  match q with QCommit _ | QCommitTransaction _ | QPutSnapshot _ => false | _ => true end.

Lemma ensures_quiet {B} (q : Call X B) (Q : B → Abs * W → Prop) g :
  store_inv g → quiet q = true →
  (∀ g1 b g2, store_inv g1 → abs_le g.1 g1.1 → performs q g1 b g2 → store_inv g2 → Q b g2) →
  ensures store_inv (call q) Q g.
Proof.
  intros Hg Hq HQ. apply ensures_call; [done|]. intros g1 b g2 Hg1 Hle Hp.
  assert (store_inv g2) as Hg2.
  { apply (store_inv_step q g1 b g2 Hg1 Hp). intros id sn Hw. by destruct q. }
  split; [done|]. by apply (HQ g1).
Qed.

(** The post-condition of a load. *)
Definition loads (id : EntityId) (r : Result Loaded) (g : Abs * W) : Prop :=
  ∀ loaded, r = Ok loaded → loaded_ok (log_of g.1 id) id loaded.

Lemma load_once_ensures id `{!HasKind id A} g :
  store_inv g →
  ensures store_inv (load_once id)
    (λ r g', ∀ loaded n, r = Ok (loaded, n) → loaded_ok (log_of g'.1 id) id loaded) g.
Proof.
  intros Hg. unfold load_once. apply ensures_try, ensures_quiet; [done|done|].
  intros g1 r g2 Hg1 _ Hp Hg2. destruct r as [snapshot|e]; [|done].
  assert (∀ sn, snapshot = Some sn → faithful (log_of g2.1 id) sn) as Hf.
  { destruct Hp as (_ & Hle & _ & Hreply & _). intros sn ->. specialize (Hreply _ eq_refl).
    eapply faithful_prefix; [apply Hle|]. by apply store_inv_snapshot. }
  destruct (loaded_from id snapshot) as [loaded|e] eqn:Hl; [|by apply ensures_ret].
  pose proof (loaded_from_ok _ _ _ _ Hf Hl) as Hok. apply ensures_try.
  assert (∀ g3 es g4, abs_le g2.1 g3.1 → abs_le g3.1 g4.1 → store_inv g4 →
    is_tail (log_of g4.1 id) (ld_sequence loaded) es →
    ∀ l n, (let? l := fold_result replay loaded es in Ok (l, llen es)) = Ok (l, n) →
      loaded_ok (log_of g4.1 id) id l) as Hall.
  { intros g3 es g4 Hle3 Hle4 Hg4 Htail l n Hr.
    destruct (fold_result replay loaded es) as [l'|] eqn:Hfold; [|done]. injection Hr as -> _.
    eapply replay_tail; [by eapply represents_numbered, Hg4| |exact Htail|exact Hfold].
    eapply loaded_ok_prefix, Hok. etransitivity; [apply Hle3|apply Hle4]. }
  assert (ld_entity_id loaded = id) as Hid by apply Hok.
  destruct snapshot as [sn|]; (apply ensures_quiet; [done|done|]);
    intros g3 [es|e] g4 Hg3 Hle3 (_ & Hle4 & _ & Hreply & _) Hg4; try done;
    (apply ensures_ret; [done|]); specialize (Hreply _ eq_refl); rewrite Hid in Hreply.
  - by apply (Hall g3).
  - apply (Hall g3); [done|done|done|]. simpl in Hl. injection Hl as <-. done.
Qed.

Lemma load_attempts_ensures id `{!HasKind id A} n : ∀ g,
  store_inv g →
  ensures store_inv (load_attempts n id)
    (λ r g', ∀ loaded k, r = Ok (loaded, k) → loaded_ok (log_of g'.1 id) id loaded) g.
Proof.
  induction n as [|n IH]; intros g Hg; cbn [load_attempts]; apply ensures_bind;
    (eapply ensures_mono; [|by apply load_once_ensures]); intros r g' Hg' _ Hr.
  - destruct r; by apply ensures_ret.
  - destruct r as [x|e]; [by apply ensures_ret|]. destruct (is_conflict e); [by apply IH|].
    by apply ensures_ret.
Qed.

Lemma loaded_faithful log id loaded text entity_type sequence :
  loaded_ok log id loaded → ag_to_json (ld_aggregate loaded) = Ok text →
  faithful log (mkSnapshot entity_type id sequence (ld_sequence loaded) text).
Proof.
  intros [_ Hr Hs] Hj. split; [done|]. exists (ld_aggregate loaded). split; [by apply al_json|done].
Qed.

Lemma catch_up_ensures id `{!HasKind id A} loaded g :
  store_inv g → loaded_ok (log_of g.1 id) id loaded →
  ensures store_inv (catch_up_snapshot loaded)
    (λ loaded' g', loaded_ok (log_of g'.1 id) id loaded') g.
Proof.
  intros Hg Hl. unfold catch_up_snapshot.
  destruct (ag_to_json (ld_aggregate loaded)) as [text|e] eqn:Hj; [|by apply ensures_ret].
  destruct (snapshot_fits _) as [[]|e]; [|by apply ensures_ret..].
  apply ensures_bind, ensures_call; [done|]. intros g1 r g2 Hg1 Hle Hp.
  assert (abs_le g.1 g2.1) as Hle2 by (etransitivity; [exact Hle|apply Hp]).
  assert (loaded_ok (log_of g2.1 id) id loaded) as Hl2
    by (eapply loaded_ok_prefix, Hl; apply Hle2).
  assert (store_inv g2) as Hg2.
  { apply (store_inv_step _ g1 r g2 Hg1 Hp). intros id' sn [-> ->]. simpl.
    pose proof (lk_entity _ _ _ Hl) as Hid. rewrite Hid, has_kind. by apply loaded_faithful. }
  split; [done|]. apply ensures_ret; [done|]. destruct r as [[]|]; [|done..].
  destruct Hl2 as [? ? ?]. by split.
Qed.

Lemma load_ensures id `{!HasKind id A} threshold g :
  store_inv g → ensures store_inv (load_with_catch_up id threshold) (loads id) g.
Proof.
  intros Hg. unfold load_with_catch_up. apply ensures_try.
  eapply ensures_mono; [|by apply load_attempts_ensures]. intros [[loaded n]|e] g' Hg' _ Hr; [|done].
  specialize (Hr _ _ eq_refl). simpl. destruct (_ && _).
  - apply ensures_bind. eapply ensures_mono; [|by apply catch_up_ensures].
    intros l g'' Hg'' _ Hl. apply ensures_ret; [done|]. by intros x [= <-].
  - apply ensures_ret; [done|]. by intros x [= <-].
Qed.
End load.
