(* ===== verification/Enumerate.v ===== *)
(** * Event-log enumeration

    [enumerate.rs] and [mem/enumerate.rs]: walking the whole log in batches, folding it into
    aggregates, and loading every aggregate from its snapshot. A stream is polled one item at a
    time; its step is a program, so other clients run between two polls and between the calls of
    one. A consumer is [consume]: it polls until the stream ends or it has had enough. *)

From S2P Require Import Prelude Types Features Outcome Projection Repository Retry Program Settle Store.
From S2P Require Import Mem.

(** ** Filters *)

(** crates/evt/src/enumerate.rs:24-29 [StreamFilter] *)
Record StreamFilter := mkStreamFilter { sf_entity_type : option EntityType }.

(** crates/evt/src/enumerate.rs:33-35 [StreamFilter::all] *)
Definition StreamFilter_all : StreamFilter := mkStreamFilter None.

(** crates/evt/src/enumerate.rs:38-42 [StreamFilter::of_type] *)
Definition StreamFilter_of_type (entity_type : EntityType) : StreamFilter :=
  mkStreamFilter (Some entity_type).

(** crates/evt/src/enumerate.rs:45-49 [StreamFilter::matches] *)
Definition filter_matches (filter : StreamFilter) (entity_type : EntityType) : bool :=
  match sf_entity_type filter with
  | None => true
  | Some wanted => bool_decide (wanted = entity_type)
  end.

(** crates/evt/src/enumerate.rs:53-53 [EventBatch] *)
Definition EventBatch : Type := Result (list SerializedEvent).

(** ** Streams *)

Section unfold.
Context {E : Type → Type} {S T : Type}.

(** crates/evt/src/enumerate.rs:335-387 [Unfold]

    A poll driven to its item: the state is taken, the step runs, and a step that ends the stream
    leaves no state, so every later poll is [None]. *)
Definition poll_next (step : S → Tree E (option (T * S))) (state : option S)
  : Tree E (option T * option S) :=
  match state with
  | None => Ret (None, None)
  | Some state =>
      await output := step state in
      Ret match output with
          | Some (item, state) => (Some item, Some state)
          | None => (None, None)
          end
  end.

(** A consumer that polls at most [n] times: the items, and whether the stream ended. *)
Fixpoint consume (step : S → Tree E (option (T * S))) (n : nat) (state : option S)
  : Tree E (list T * bool) :=
  match n with
  | O => Ret ([], false)
  | Datatypes.S n =>
      await polled := poll_next step state in
      match polled with
      | (Some item, state) =>
          await rest := consume step n state in Ret (item :: rest.1, rest.2)
      | (None, _) => Ret ([], true)
      end
  end.
End unfold.

(** ** Grouping *)

(** crates/evt/src/enumerate.rs:252-255 [Group] *)
Record Group := mkGroup {
  gr_order : list EntityId;
  gr_events : gmap EntityId (list SerializedEvent)
}.

Definition Group_default : Group := mkGroup [] ∅.

(** crates/evt/src/enumerate.rs:259-268 [Group::add] *)
Definition group_event (group : Group) (event : SerializedEvent) : Group :=
  let id := ev_entity_id event in
  mkGroup
    (match gr_events group !! id with
     | None => gr_order group ++ [id]
     | Some _ => gr_order group
     end)
    (<[id := default [] (gr_events group !! id) ++ [event]]> (gr_events group)).

(** crates/evt/src/enumerate.rs:258-269 [Group::add] *)
Definition group_add (group : Group) (batch : list SerializedEvent) : Group :=
  fold_left group_event batch group.

(** crates/evt/src/enumerate.rs:274-276 [Group::take]

    Every ID in turn, with its events removed from the map. *)
Fixpoint take_ready (order : list EntityId) (events : gmap EntityId (list SerializedEvent))
  : list (EntityId * list SerializedEvent) :=
  match order with
  | [] => []
  | id :: order =>
      match events !! id with
      | Some found => (id, found) :: take_ready order (delete id events)
      | None => take_ready order events
      end
  end.

(** crates/evt/src/enumerate.rs:271-279 [Group::take] *)
Definition group_take (group : Group) : list (EntityId * list SerializedEvent) * Group :=
  (take_ready (gr_order group) (gr_events group), Group_default).

(** ** Entities *)

Section entities.
Context `{A : Aggregate} {E : Type → Type} {C : Type}.
Context (batches : C → Tree E (option (EventBatch * C))).

(** crates/evt/src/enumerate.rs:241-248 [Entities]

    The stream of batches is its state; its step is [batches]. *)
Record Entities := mkEntities {
  en_events : option C;
  en_grouping : bool;
  en_group : Group;
  en_ready : list (EntityId * list SerializedEvent);
  en_finished : bool
}.

(** The order of [events.sort_by_key(|event| event.sequence)]. *)
Definition sequence_leb (a b : SerializedEvent) : bool := ev_sequence a <=? ev_sequence b.

(** crates/evt/src/enumerate.rs:321-330 [fold] *)
Definition fold (id : EntityId) (events : list SerializedEvent) : Result Loaded :=
  fold_result replay (loaded_new id) (sort_by sequence_leb events).

(** crates/evt/src/enumerate.rs:286-319 [next_entity]

    [fuel] bounds the iterations of the loop: one for each batch read, and one more to take what
    is ready or to see that the stream has ended. *)
Fixpoint next_entity (fuel : nat) (state : Entities)
  : Tree E (option (Result Loaded * Entities)) :=
  match fuel with
  | O => OutOfFuel
  | Datatypes.S fuel =>
      match en_ready state with
      | (id, events) :: ready =>
          Ret (Some (fold id events,
            mkEntities (en_events state) (en_grouping state) (en_group state) ready
              (en_finished state)))
      | [] =>
          if en_finished state then Ret None
          else
            await polled := poll_next batches (en_events state) in
            match polled.1 with
            | None =>
                let taken := group_take (en_group state) in
                next_entity fuel
                  (mkEntities polled.2 (en_grouping state) taken.2 taken.1 true)
            | Some (Err err) =>
                Ret (Some (Err err,
                  mkEntities polled.2 (en_grouping state) Group_default [] true))
            | Some (Ok batch) =>
                let group := group_add (en_group state) batch in
                next_entity fuel
                  (if en_grouping state then
                     mkEntities polled.2 (en_grouping state) group [] (en_finished state)
                   else
                     let taken := group_take group in
                     mkEntities polled.2 (en_grouping state) taken.2 taken.1 (en_finished state))
            end
      end
  end.

(** crates/evt/src/enumerate.rs:130-132 [EventLog::stream_entities]

    The filter narrowed to the aggregate's type, unless it names one. *)
Definition entities_filter (filter : StreamFilter) : StreamFilter :=
  mkStreamFilter match sf_entity_type filter with
                 | Some entity_type => Some entity_type
                 | None => Some ag_TYPE
                 end.

(** crates/evt/src/enumerate.rs:126-145 [EventLog::stream_entities]

    The state the stream starts in. *)
Definition entities_start (batches_by_entity : bool) (stream_all_events : StreamFilter → C)
    (filter : StreamFilter) : Entities :=
  mkEntities (Some (stream_all_events (entities_filter filter))) (negb batches_by_entity)
    Group_default [] false.
End entities.
Arguments Entities C : clear implicits.

(** ** Entities from snapshots *)

(** The calls of [stream_entities_from_snapshots]: a repository's, and its listing of heads. *)
Inductive HeadsCall (Op : Type) : Type → Type :=
| HRepository (B : Type) (q : Call Op B) : HeadsCall Op B
| HEntityHeads (entity_type : option EntityType)
    : HeadsCall Op (Result (gmap EntityId EventSequence)).
Arguments HRepository {Op B} q.
Arguments HEntityHeads {Op} entity_type.

Section seeded.
Context `{SerdeJson} `{A : Aggregate} {Op : Type}.

(** crates/evt/src/enumerate.rs:207-211 [Seeded] *)
Record Seeded := mkSeeded {
  se_entity_type : EntityType;
  se_ids : option (list EntityId)
}.

(** crates/evt/src/store.rs:1052-1057 [load_aggregate] *)
Definition load_aggregate (entity_id : EntityId) : Prog Op (Result Loaded) :=
  load_with_catch_up entity_id 0.

Definition of_repository {B} (p : Prog Op B) : Tree (HeadsCall Op) B :=
  interpret (λ B q, call (HRepository q)) p.

(** crates/evt/src/enumerate.rs:231-234 [next_seeded] *)
Definition next_loaded (state : Seeded) (ids : list EntityId)
  : Tree (HeadsCall Op) (option (Result Loaded * Seeded)) :=
  match ids with
  | [] => Ret None
  | id :: ids =>
      await loaded := of_repository (load_aggregate id) in
      Ret (Some (loaded, mkSeeded (se_entity_type state) (Some ids)))
  end.

(** crates/evt/src/enumerate.rs:213-235 [next_seeded]

    The keys of the heads come in the order of an ordered map. *)
Definition next_seeded (state : Seeded) : Tree (HeadsCall Op) (option (Result Loaded * Seeded)) :=
  match se_ids state with
  | Some ids => next_loaded state ids
  | None =>
      await heads := call (HEntityHeads (Some (se_entity_type state))) in
      match heads with
      | Ok heads => next_loaded state (map fst (btree_entries string_leb heads))
      | Err err => Ret (Some (Err err, mkSeeded (se_entity_type state) (Some [])))
      end
  end.

(** crates/evt/src/enumerate.rs:168-187 [EventLog::stream_entities_from_snapshots] *)
Definition seeded_start (filter : StreamFilter) : Seeded :=
  mkSeeded (default ag_TYPE (sf_entity_type filter)) None.
End seeded.

(** ** The in-memory log *)

(** crates/evt/src/mem/enumerate.rs:28-32 [Cursor]

    The streams are reached through a call. *)
Record Cursor := mkCursor { cu_after : option EntityId; cu_filter : StreamFilter }.

(** The next stream after a cursor, under the log's lock. *)
Inductive StreamsCall : Type → Type :=
| QNextStream (cursor : Cursor) : StreamsCall (option (EntityId * list SerializedEvent)).

(** [Bound::Excluded] of the last ID, or unbounded. *)
Definition above (after : option EntityId) (id : EntityId) : bool :=
  match after with None => true | Some after => string_ltb after id end.

(** A stream the enumeration yields. *)
Definition enumerated (filter : StreamFilter) (id : EntityId) (stream : Stream) : bool :=
  negb (is_reserved id)
  && match stream_entity_type stream with
     | Some entity_type => filter_matches filter entity_type
     | None => false
     end
  && negb (bool_decide (st_events stream = ∅)).

(** crates/evt/src/mem/enumerate.rs:35-55 [next_batch]

    What is found while the lock is held. *)
Definition mem_next_stream (s : MemStore) (cursor : Cursor)
  : option (EntityId * list SerializedEvent) :=
  match List.filter (λ e : EntityId * Stream, above (cu_after cursor) e.1
                       && enumerated (cu_filter cursor) e.1 e.2)
          (btree_entries string_leb (ms_streams s)) with
  | [] => None
  | e :: _ => Some (e.1, stream_values e.2)
  end.

(** crates/evt/src/mem/enumerate.rs:34-61 [next_batch] *)
Definition mem_next_batch (cursor : Cursor) : Tree StreamsCall (option (EventBatch * Cursor)) :=
  await found := call (QNextStream cursor) in
  Ret match found with
      | None => None
      | Some (id, events) => Some (Ok events, mkCursor (Some id) (cu_filter cursor))
      end.

(** crates/evt/src/mem/enumerate.rs:13-22 [MemRepository::stream_all_events] *)
Definition mem_stream_all_events (filter : StreamFilter) : Cursor := mkCursor None filter.

(** crates/evt/src/mem/enumerate.rs:11-11 [MemRepository::BATCHES_BY_ENTITY] *)
Definition MEM_BATCHES_BY_ENTITY : bool := true.
