(* ===== verification/StoreExecute.v ===== *)
(** * Executing commands

    The decisions of concurrent clients are serialized: whatever the others do, a command whose
    events were committed was decided on exactly the state those events follow, and the events
    replay to the state the command returned. *)

From S2P Require Import Prelude Types Outcome Projection Repository Retry Program Settle Store.
From S2P Require Import MemRefinement LogBackend StoreLoad.

(** ** Staging *)

Section stage.
Context `{SerdeJson} `{A : Aggregate} `{!AggregateLaws A} {X : Type}.

Lemma upcast_current us event stored :
  (∀ u, u ∈ us → u ∈ ag_upcasters) →
  ev_type stored = ag_event_type event → ev_version stored = ag_event_version event →
  upcast_event us stored = Ok stored.
Proof.
  intros Hus Ht Hv. induction us as [|u us IH]; [done|]. simpl. rewrite Ht, Hv, al_current.
  - apply IH. intros v Hv'. apply Hus. by apply list_elem_of_further.
  - apply Hus, list_elem_of_here.
Qed.

Lemma decode_serialized event stored :
  ev_type stored = ag_event_type event → ev_version stored = ag_event_version event →
  ag_to_payload event = Ok (ev_payload stored) → decode_event stored = Ok (stored, event).
Proof.
  intros Ht Hv Hp. unfold decode_event. rewrite (upcast_current _ event) by done. simpl.
  rewrite Ht, Hv, (al_payload _ _ Hp). done.
Qed.

(** The serialized events are numbered from the next sequence and replay to the events. *)
Lemma serialize_events_ok id events metadata : ∀ sequence serialized,
  0 ≤ sequence → serialize_events id sequence events metadata = Ok serialized →
  numbered (sequence + 1) serialized ∧ length serialized = length events ∧
  Forall (λ e, ev_metadata e = metadata) serialized ∧
  ∀ state, fold_left apply_stored serialized (Some state) = Some (fold_left ag_apply events state).
Proof.
  induction events as [|event events IH]; intros sequence serialized H0 Hs; simpl in Hs.
  { injection Hs as <-. by repeat split. }
  destruct (checked_next sequence) as [s'|] eqn:Hc; [|done]. simpl in Hs.
  apply checked_next_Some in Hc as [-> _].
  destruct (ag_to_payload event) as [payload|] eqn:Hp; [|done]. simpl in Hs.
  destruct (serialize_events id (sequence + 1) events metadata) as [rest|] eqn:Hr; [|done].
  simpl in Hs. injection Hs as <-. destruct (IH (sequence + 1) rest ltac:(lia) Hr) as (Hn & Hl & Hm & Hf).
  split; [done|]. split; [simpl; lia|]. split; [by constructor|]. intros state.
  cbn [fold_left]. rewrite <-Hf. f_equal. unfold apply_stored. by rewrite (decode_serialized event).
Qed.

(** What staging a command's events gives. *)
Record staged_ok (loaded : Loaded) (events : list ag_event) (loaded' : Loaded) (c : Commit X)
  : Prop := {
  sg_entity : cm_entity_id c = ld_entity_id loaded;
  sg_outcome : cm_outcome c = None;
  sg_numbered : numbered (ld_sequence loaded + 1) (cm_events c);
  sg_length : length (cm_events c) = length events;
  sg_replay : ∀ state,
    fold_left apply_stored (cm_events c) (Some state) = Some (fold_left ag_apply events state);
  sg_loaded : ld_entity_id loaded' = ld_entity_id loaded ∧
    ld_aggregate loaded' = fold_left ag_apply events (ld_aggregate loaded) ∧
    ld_sequence loaded' = ld_sequence loaded + llen events;
  sg_snapshot : ∀ new, cm_snapshot c = Some new →
    ag_to_json (ld_aggregate loaded') = Ok (ns_payload new)
}.

Lemma numbered_last first events e :
  numbered first events → last events = Some e → ev_sequence e = first + llen events - 1.
Proof.
  intros Hn Hl. rewrite last_lookup in Hl. rewrite (numbered_lookup _ _ _ _ Hn Hl).
  destruct events as [|x events]; [done|]. unfold llen. simpl. lia.
Qed.

Lemma stage_stamped_ok (s : Store X) loaded events metadata stamped loaded' c :
  0 ≤ ld_sequence loaded →
  stage_stamped s loaded events metadata stamped = Ok (loaded', c) →
  staged_ok loaded events loaded' c.
Proof.
  intros H0. unfold stage_stamped.
  destruct (serialize_events _ _ _ _) as [ser|] eqn:Hser; [|done]. cbn [result_bind].
  destruct (serialize_events_ok _ _ _ _ _ H0 Hser) as (Hn & Hlen & _ & Hrep).
  match goal with |- context [result_bind ?p _] => destruct p as [operations|]; [|done] end.
  cbn [result_bind].
  match goal with |- context [result_bind (if ?d || ?n then _ else _) _] =>
    destruct d eqn:Hdue; [|destruct n] end; cbn [orb].
  - destruct (ag_to_json _) as [text|] eqn:Hj; [|done]. cbn [result_bind].
    match goal with |- context [result_bind ?p _] => destruct p as [views|]; [|done] end.
    cbn [result_bind]. destruct (last ser) as [e|] eqn:Hlast.
    + unfold within_budget. destruct (snapshot_fits _) as [fits|]; [|done]. cbn [result_bind].
      intros Hr. injection Hr as <- <-. pose proof (numbered_last _ _ _ Hn Hlast) as Hseq.
      split; try done; simpl.
      * split; [done|]. split; [done|]. unfold llen in *. lia.
      * intros new Hnew. destruct fits; [|done]. by injection Hnew as <-.
    + cbn [result_bind]. intros Hr. injection Hr as <- <-. destruct ser; [|by rewrite last_cons in Hlast; destruct (last ser)].
      split; try done; simpl. split; [done|]. split; [done|]. unfold llen. simpl in Hlen. lia.
  - destruct (ag_to_json _) as [text|] eqn:Hj; [|done]. cbn [result_bind].
    match goal with |- context [result_bind ?p _] => destruct p as [views|]; [|done] end.
    cbn [result_bind]. intros Hr. injection Hr as <- <-. split; try done; simpl.
    split; [done|]. split; [done|]. destruct (last ser) as [e|] eqn:Hlast.
    + pose proof (numbered_last _ _ _ Hn Hlast). unfold llen in *. lia.
    + destruct ser; [|by rewrite last_cons in Hlast; destruct (last ser)].
      unfold llen. simpl in Hlen. lia.
  - cbn [result_bind].
    match goal with |- context [result_bind ?p _] => destruct p as [views|]; [|done] end.
    cbn [result_bind]. intros Hr. injection Hr as <- <-. split; try done; simpl.
    split; [done|]. split; [done|]. destruct (last ser) as [e|] eqn:Hlast.
    + pose proof (numbered_last _ _ _ Hn Hlast). unfold llen in *. lia.
    + destruct ser; [|by rewrite last_cons in Hlast; destruct (last ser)].
      unfold llen. simpl in Hlen. lia.
Qed.

(** Committed right where it was loaded, a staged commit leaves a faithful state and snapshot. *)
Lemma staged_committed log id loaded events loaded' c :
  loaded_ok log id loaded → staged_ok loaded events loaded' c → cm_events c ≠ [] →
  numbered 1 (log ++ cm_events c) →
  ld_sequence loaded = llen log ∧ replay_log log = Some (ld_aggregate loaded) ∧
  loaded_ok (log ++ cm_events c) id loaded' ∧
  ∀ new, cm_snapshot c = Some new →
    faithful (log ++ cm_events c) (snapshot_of id new (llen (log ++ cm_events c))).
Proof.
  intros Hl Hs Hne Hn. apply numbered_app in Hn as [_ Hn].
  assert (ld_sequence loaded = llen log) as Hseq.
  { pose proof (sg_numbered _ _ _ _ Hs) as Hn'. destruct (cm_events c) as [|e es]; [done|].
    destruct Hn as [He _], Hn' as [He' _]. lia. }
  assert (replay_log log = Some (ld_aggregate loaded)) as Hrep.
  { pose proof (lk_state _ _ _ Hl) as Hst. rewrite Hseq in Hst. unfold llen in Hst.
    by rewrite Nat2Z.id, firstn_all in Hst. }
  destruct (sg_loaded _ _ _ _ Hs) as (Hid & Hagg & Hseq').
  assert (llen (log ++ cm_events c) = ld_sequence loaded') as Hlen.
  { unfold llen in *. rewrite length_app, (sg_length _ _ _ _ Hs). lia. }
  assert (loaded_ok (log ++ cm_events c) id loaded') as Hl'.
  { split; [by rewrite Hid; apply Hl|unfold llen in *; lia|]. rewrite <-Hlen. unfold llen.
    rewrite Nat2Z.id, firstn_all, replay_log_app, Hrep, Hagg. apply Hs. }
  split; [done|]. split; [done|]. split; [done|]. intros new Hnew. rewrite Hlen.
  unfold snapshot_of. by apply loaded_faithful; [|apply Hs].
Qed.
End stage.

(** ** Committing *)

Section execute.
Context `{SerdeJson} `{EntityKinds} `{A : Aggregate} `{!AggregateLaws A} {X W : Type} `{LogBackend X W}.
Implicit Types (g : Abs * W) (s : Store X).

Lemma ready_projectors_ensures name projectors g :
  store_inv g → ensures store_inv (ready_projectors (Op := X) name projectors) (λ _ _, True) g.
Proof.
  intros Hg. unfold ready_projectors. destruct (nil_b projectors); [by apply ensures_ret|].
  apply ensures_bind, ensures_quiet; [done|done|]. intros _ writes g1 _ _ _ Hg1.
  destruct (negb writes); [by apply ensures_ret|].
  apply ensures_bind, ensures_quiet; [done|done|]. intros _ declared g2 _ _ _ Hg2.
  destruct (nil_b _); [by apply ensures_ret|].
  apply ensures_try, ensures_quiet; [done|done|]. intros _ [[]|e] g3 _ _ _ Hg3; [|done].
  apply ensures_bind, ensures_quiet; [done|done|]. intros _ extended g4 _ _ _ Hg4.
  by apply ensures_ret.
Qed.

Lemma stage_ensures s loaded events metadata g :
  store_inv g → 0 ≤ ld_sequence loaded →
  ensures store_inv (stage s loaded events metadata)
    (λ r _, ∀ loaded' c, r = Ok (loaded', c) → staged_ok loaded events loaded' c) g.
Proof.
  intros Hg Hnonneg. unfold stage, stamp_commit_id. apply ensures_bind.
  assert (∀ stamped g1, store_inv g1 → ensures store_inv
    (Ret (E := Call X) (stage_stamped s loaded events metadata stamped))
    (λ r _, ∀ loaded' c, r = Ok (loaded', c) → staged_ok loaded events loaded' c) g1) as Hret.
  { intros stamped g1 Hg1. apply ensures_ret; [done|]. intros loaded' c.
    by apply stage_stamped_ok. }
  destruct (non_empty _); [by apply ensures_ret; [|apply Hret]|].
  destruct (is_empty _); [|by apply ensures_ret; [|apply Hret]].
  apply ensures_bind, ensures_quiet; [done|done|]. intros _ cid g1 _ _ _ Hg1.
  by apply ensures_ret; [|apply Hret].
Qed.

(** Events committed right after the state they were decided on. *)
Definition follows (log : list SerializedEvent) (id : EntityId) (loaded : Loaded)
    (committed : list SerializedEvent) (loaded' : Loaded) : Prop :=
  ∃ pre post, log = pre ++ committed ++ post ∧
    replay_log pre = Some (ld_aggregate loaded) ∧ loaded_ok (pre ++ committed) id loaded'.

Lemma follows_prefix l1 l2 id loaded committed loaded' :
  l1 `prefix_of` l2 → follows l1 id loaded committed loaded' → follows l2 id loaded committed loaded'.
Proof.
  intros [k ->] (pre & post & -> & Hrep & Hl). exists pre, (post ++ k).
  by rewrite <-!app_assoc.
Qed.

(** A command without a row had none before. *)
Lemma fresh_before (a a' : Abs) cid :
  abs_le a a' → ab_outcomes a' !! cid = None → ab_outcomes a !! cid = None.
Proof. intros (_ & Hle & _) Hn. by eapply lookup_weaken_None. Qed.

(** A staged commit, with or without an outcome, as a call. *)
Lemma commit_call_ensures id `{!HasKind id A} loaded events loaded' (c c' : Commit X) g :
  store_inv g → loaded_ok (log_of g.1 id) id loaded → staged_ok loaded events loaded' c →
  cm_entity_id c' = cm_entity_id c → cm_events c' = cm_events c → cm_snapshot c' = cm_snapshot c →
  cm_events c ≠ [] →
  ensures store_inv (call (QCommit c'))
    (λ r g', ∀ es, r = Ok es →
       es = cm_events c ∧ follows (log_of g'.1 id) id loaded es loaded' ∧
       ∀ o, stored_outcome c' = Some o →
         ab_outcomes g'.1 !! oc_command_id o = Some o ∧ ab_outcomes g.1 !! oc_command_id o = None) g.
Proof.
  intros Hg Hl Hs Hid Hev Hsn Hne. apply ensures_call; [done|]. intros g1 r g2 Hg1 Hle Hp.
  assert (cm_entity_id c = id) as Hcid by (rewrite (sg_entity _ _ _ _ Hs); apply Hl).
  assert (loaded_ok (log_of g1.1 id) id loaded) as Hl1 by (eapply loaded_ok_prefix, Hl; apply Hle).
  pose proof Hp as (_ & Hle2 & Hr2 & Hreply & _). pose proof (represents_numbered _ _ id Hr2) as Hn2.
  split.
  - apply (store_inv_step _ g1 r g2 Hg1 Hp). intros id' sn (-> & _ & Hlog & new & Hnew & ->).
    rewrite Hid, Hcid, Hev, Hsn in *. rewrite Hlog in *.
    destruct (staged_committed _ _ _ _ _ _ Hl1 Hs Hne Hn2) as (_ & _ & _ & Hf). rewrite has_kind. by apply Hf.
  - intros es ->. destruct (Hreply _ eq_refl) as (-> & Happ & Hout).
    rewrite Hid, Hcid, Hev in *. destruct (Happ Hne) as [Hlog _]. rewrite Hlog in *.
    destruct (staged_committed _ _ _ _ _ _ Hl1 Hs Hne Hn2) as (_ & Hrep & Hl' & _).
    split; [done|]. split; [exists (log_of g1.1 id), []; by rewrite app_nil_r|].
    intros o Ho. destruct (Hout o Ho) as [Hfresh Hrow]. split; [done|].
    by apply (fresh_before g.1 g1.1).
Qed.

Lemma staged_nonempty loaded events loaded' (c : Commit X) :
  staged_ok loaded events loaded' c → nil_b events = false → cm_events c ≠ [].
Proof.
  intros Hs Hne. pose proof (sg_length _ _ _ _ Hs) as Hl. intros Heq. rewrite Heq in Hl.
  by destruct events.
Qed.

Lemma commit_ensures s id `{!HasKind id A} loaded events metadata g :
  store_inv g → loaded_ok (log_of g.1 id) id loaded →
  ensures store_inv (store_commit s loaded events metadata)
    (λ r g', ∀ loaded' es, r = Ok (loaded', es) →
       length es = length events ∧ follows (log_of g'.1 id) id loaded es loaded') g.
Proof.
  intros Hg Hl. unfold store_commit. destruct (refuse_outcomes _ _); [|by apply ensures_ret].
  destruct (duplicate_of _ _); [by apply ensures_ret|].
  destruct (nil_b events) eqn:Hnil.
  { apply ensures_ret; [done|]. intros loaded' es [= <- <-]. split; [by destruct events|].
    exists (take (Z.to_nat (ld_sequence loaded)) (log_of g.1 id)),
      (drop (Z.to_nat (ld_sequence loaded)) (log_of g.1 id)). destruct Hl as [Hid Hr Hst].
    simpl. rewrite take_drop, app_nil_r. split; [done|]. split; [done|].
    split; [done|unfold llen in *; rewrite length_take; lia|].
    by rewrite take_take, Nat.min_id. }
  apply ensures_try. eapply ensures_mono, ready_projectors_ensures, Hg.
  intros [[]|e] g1 Hg1 Hle1 _; [|done].
  assert (loaded_ok (log_of g1.1 id) id loaded) as Hl1 by (eapply loaded_ok_prefix, Hl; apply Hle1).
  apply ensures_try. eapply ensures_mono; [|apply stage_ensures; [done|apply Hl]].
  intros [[loaded' c]|e] g2 Hg2 Hle2 Hst; [|done]. specialize (Hst _ _ eq_refl).
  assert (loaded_ok (log_of g2.1 id) id loaded) as Hl2 by (eapply loaded_ok_prefix, Hl1; apply Hle2).
  apply ensures_try. eapply ensures_mono; [|eapply (commit_call_ensures id loaded events loaded' c c);
    try done; by eapply staged_nonempty].
  intros [es|e] g3 Hg3 Hle3 Hr; [|done]. destruct (Hr _ eq_refl) as (-> & Hf & _).
  apply ensures_ret; [done|]. intros l es [= <- <-]. split; [apply Hst|done].
Qed.

(** ** The post-condition of [execute] *)

(** The command was decided on the state its events directly follow in the log, and the events
    lead to the state it returned. *)
Definition decided (id : EntityId) (command : ag_command) (log : list SerializedEvent)
    (ex : Executed) : Prop :=
  ∃ pre post state typed,
    log = pre ++ ex_events ex ++ post ∧ replay_log pre = Some state ∧
    ag_handle state command = Ok typed ∧ length (ex_events ex) = length typed ∧
    loaded_ok (pre ++ ex_events ex) id (ex_state ex).

Definition executes (id : EntityId) (command : ag_command)
    (r : result Executed (ExecuteError ag_error)) (g : Abs * W) : Prop :=
  ∀ ex, r = Ok ex → decided id command (log_of g.1 id) ex.

Lemma executes_stable id command : stable store_inv (executes id command).
Proof.
  intros r g g' _ _ Hle Hr ex ->. destruct (Hr ex eq_refl) as (pre & post & state & typed & Hlog & Hrest).
  destruct Hle as [Hle _]. destruct (Hle id) as [more Hmore].
  exists pre, (post ++ more), state, typed. split; [|done].
  unfold log_of in *. by rewrite Hmore, Hlog, <-!app_assoc.
Qed.

Lemma execute_ensures s id `{!HasKind id A} command metadata g :
  store_inv g → ensures store_inv (execute s id command metadata) (executes id command) g.
Proof.
  intros Hg. unfold execute. destruct (refuse_outcomes _ _); [|by apply ensures_ret].
  apply ensures_try, ensures_map_err. eapply ensures_mono; [|by apply load_ensures].
  intros [loaded|e] g1 Hg1 _ Hl; [|done]. specialize (Hl _ eq_refl). simpl.
  destruct (duplicate_of _ _); [by apply ensures_ret|].
  destruct (ag_handle (ld_aggregate loaded) command) as [typed|e] eqn:Hh; [|by apply ensures_ret].
  apply ensures_try, ensures_map_err. eapply ensures_mono; [|by apply (commit_ensures s id)].
  intros [[loaded' es]|e] g2 Hg2 _ Hc; [|done]. simpl. destruct (Hc _ _ eq_refl) as (Hlen & pre & post & Hlog & Hrep & Hl').
  apply ensures_ret; [done|]. intros ex [= <-].
  by exists pre, post, (ld_aggregate loaded), typed.
Qed.

(** With retries, under any policy whose delays can be computed. *)
Lemma execute_loop_ensures s id `{!HasKind id A} command metadata policy n : ∀ retry g,
  policy_ok policy → 0 ≤ retry →
  Z.of_nat n = Z.max (rp_max_attempts policy) 1 - retry → (0 < n)%nat → store_inv g →
  ensures store_inv (execute_loop n s id command metadata policy retry) (executes id command) g.
Proof.
  induction n as [|n IH]; intros retry g Hp Hretry Hn Hpos Hg; [lia|]. cbn [execute_loop].
  apply ensures_bind. eapply ensures_mono; [|by apply execute_ensures]. intros [ex|e] g1 Hg1 _ Hr.
  { by apply ensures_ret. }
  destruct (execute_error_is_retryable e); [|by apply ensures_ret]. cbn [andb].
  destruct (Z.ltb_spec (retry + 1) (Z.max (rp_max_attempts policy) 1)) as [Hlt|Hge];
    [|by apply ensures_ret].
  apply ensures_bind, ensures_quiet; [done|done|]. intros g0 random g2 _ _ Hrand Hg2.
  destruct Hrand as (_ & _ & _ & Hrand & _). simpl in Hrand.
  destruct (delay_range policy retry random Hp Hretry Hrand) as (d & -> & _).
  apply ensures_bind, ensures_quiet; [done|done|]. intros _ [] g3 _ _ _ Hg3.
  apply IH; [done|lia|lia|lia|done].
Qed.

Lemma execute_with_retry_ensures s id `{!HasKind id A} command metadata policy g :
  policy_ok policy → store_inv g →
  ensures store_inv (execute_with_retry s id command metadata policy) (executes id command) g.
Proof.
  intros Hp Hg. apply execute_loop_ensures; first [done|lia].
Qed.
End execute.
