(* ===== verification/StoreOutcome.v ===== *)
(** * Commands with recorded outcomes

    [execute_with_response] decides a command at most once: whatever races, retries and unknown
    results it goes through, what it returns is the outcome the log records for the command, and a
    fresh result's events were decided on the state they follow. *)

From S2P Require Import Prelude Types Outcome Projection Repository Retry Program Settle Store.
From S2P Require Import MemRefinement LogBackend StoreLoad StoreExecute.

Section outcomes.
Context `{SerdeJson} `{EntityKinds} `{A : Aggregate} `{!AggregateLaws A} {X W : Type} `{LogBackend X W}.
Implicit Types (g : Abs * W) (s : Store X).

(** ** Settlement *)

(** The row a read found is the log's. *)
Definition row_of (cid : CommandId) (o : Outcome) (g : Abs * W) : Prop :=
  ab_outcomes g.1 !! cid = Some o.

Lemma row_of_le cid o g g' : abs_le g.1 g'.1 → row_of cid o g → row_of cid o g'.
Proof. intros (_ & Hle & _) Hr. by eapply lookup_weaken. Qed.

Lemma poll_loop_ensures cid window n : ∀ wait waited g,
  store_inv g → POLL_FIRST ≤ wait →
  window - waited ≤ (Z.of_nat n - 1) * POLL_FIRST → (0 < n)%nat →
  ensures store_inv (poll_loop (Op := X) n cid window wait waited)
    (λ p g', ∀ o, p = Found o → row_of cid o g') g.
Proof.
  induction n as [|n IH]; intros wait waited g Hg Hd Hw Hn; [lia|]. cbn [poll_loop].
  apply ensures_bind, ensures_quiet; [done|done|]. intros g0 read g1 _ _ Hp Hg1.
  destruct Hp as (_ & _ & _ & Hreply & _). simpl in Hreply.
  destruct read as [[[o|]|e]|]; [| | |by apply ensures_ret].
  - apply ensures_ret; [done|]. intros o' [= <-]. symmetry. by apply Hreply.
  - destruct (Z.leb_spec window waited) as [Hle|Hlt]; [by apply ensures_ret|].
    apply ensures_bind, ensures_quiet; [done|done|]. intros g2 expired g3 _ _ _ Hg3.
    destruct expired; [by apply ensures_ret|].
    assert (0 < POLL_FIRST) as Hpos by (unfold POLL_FIRST, NANOS_PER_MILLI; lia).
    assert (0 < n)%nat as Hn' by (destruct n; [|lia]; nia).
    apply IH; [done| | |done].
    + unfold POLL_LAST, POLL_FIRST, NANOS_PER_MILLI, NANOS_PER_SEC in *. lia.
    + nia.
  - destruct e; by apply ensures_ret.
Qed.

Lemma poll_ensures cid window g :
  store_inv g → 0 ≤ window →
  ensures store_inv (poll_for_row (Op := X) cid window) (λ p g', ∀ o, p = Found o → row_of cid o g') g.
Proof.
  intros Hg Hw. apply poll_loop_ensures; [done|lia| |lia].
  assert (0 < POLL_FIRST) by (unfold POLL_FIRST, NANOS_PER_MILLI; lia).
  pose proof (Z.div_pos window POLL_FIRST Hw ltac:(lia)).
  pose proof (Z.mul_succ_div_gt window POLL_FIRST ltac:(lia)). nia.
Qed.

(** A settled commit either applied or lost to the row the log records for the same command. *)
Definition settles (cid : CommandId) (digest : string) (result : Result unit) (r : Result Settled)
    (g : Abs * W) : Prop :=
  match r with
  | Ok Committed => result = Ok tt
  | Ok (Replayed o) => row_of cid o g ∧ oc_digest o = digest
  | Err _ => True
  end.

Lemma settle_stored_ok cid digest result o g :
  row_of cid o g → settles cid digest result (settle_stored o digest) g.
Proof.
  intros Hr. unfold settle_stored, same_command.
  destruct (bool_decide_reflect (oc_digest o = digest)); by simpl.
Qed.

Lemma settle_ensures cid digest window result g :
  store_inv g → 0 ≤ window →
  ensures store_inv (settle (Op := X) cid digest window result) (settles cid digest result) g.
Proof.
  intros Hg Hw. unfold settle. destruct result as [[]|e]; [by apply ensures_ret|].
  assert (∀ lost, ensures store_inv
    (if may_have_lost_the_race lost then
       await read := call (QReadBounded (Op := X) cid window) in
       Ret match read with
           | Some (Ok (Some stored)) => settle_stored stored digest
           | Some (Err (InvalidRecord message)) => Err (InvalidRecord message)
           | _ => Err lost
           end
     else Ret (Err lost)) (settles cid digest (Err e)) g) as Hlost.
  { intros lost. destruct (may_have_lost_the_race lost); [|by apply ensures_ret].
    apply ensures_bind, ensures_quiet; [done|done|]. intros g0 read g1 _ _ Hp Hg1.
    destruct Hp as (_ & _ & _ & Hreply & _). simpl in Hreply. apply ensures_ret; [done|].
    destruct read as [[[o|]|[]]|]; try done. apply settle_stored_ok. symmetry. by apply Hreply. }
  destruct e; try apply Hlost.
  - apply ensures_bind, ensures_quiet; [done|done|]. intros g0 read g1 _ _ Hp Hg1.
    destruct Hp as (_ & _ & _ & Hreply & _). simpl in Hreply. apply ensures_ret; [done|].
    destruct read as [[[o|]|e]|]; try done. apply settle_stored_ok. symmetry. by apply Hreply.
  - apply ensures_bind. eapply ensures_mono; [|by apply poll_ensures].
    intros polled g1 Hg1 _ Hp. apply ensures_ret; [done|].
    destruct polled as [o| |[]|]; try done. by apply settle_stored_ok, Hp.
Qed.

(** ** Recording *)

(** What a commit with an outcome returns: the row the log holds for the command; fresh, it is
    this commit's row, with its events. *)
Definition records (stored : Outcome) (typed : list ag_event)
    (P : list SerializedEvent → Abs * W → Prop) (r : Result (CommandOutcome ag_event))
    (g : Abs * W) : Prop :=
  ∀ co, r = Ok co →
    row_of (oc_command_id stored) (co_outcome co) g ∧ oc_digest (co_outcome co) = oc_digest stored ∧
    (co_replayed co = false → co_outcome co = stored ∧ co_typed_events co = typed ∧ P (co_events co) g).

Lemma record_ensures s c stored typed (P : list SerializedEvent → Abs * W → Prop) g :
  store_inv g → 0 ≤ recovery_window s → stored_outcome c = Some stored →
  (∀ es, stable store_inv (λ _ : unit, P es)) →
  ensures store_inv (call (QCommit c))
    (λ r g', ∀ es, r = Ok es → P es g' ∧ row_of (oc_command_id stored) stored g') g →
  ensures store_inv (record s c typed) (records stored typed P) g.
Proof.
  intros Hg Hw Hst HP Hc. unfold record. rewrite Hst. apply ensures_bind.
  eapply ensures_mono, Hc. intros receipt g1 Hg1 _ Hr.
  destruct (split_receipt receipt) as [result committed] eqn:Hs.
  apply ensures_try. eapply ensures_mono; [|by apply settle_ensures].
  intros settled g2 Hg2 Hle2 Hset. destruct settled as [settled|e]; [|done]. simpl in Hset.
  apply ensures_ret; [done|]. intros co [= <-]. destruct settled as [|o]; simpl.
  - destruct receipt as [es|e]; simpl in Hs; [|by rewrite Hset in Hs].
    injection Hs as <- <-. destruct (Hr es eq_refl) as [HPes Hrow].
    split; [by eapply row_of_le|]. split; [done|]. intros _. split; [done|]. split; [done|].
    by apply (HP es tt g1 g2).
  - destruct Hset as [Hrow Hdig]. done.
Qed.

(** A commit of an outcome alone. *)
Lemma empty_commit_ensures (id : EntityId) outcome g :
  store_inv g →
  let c : Commit X := with_commit_outcome (commit_new id []) outcome in
  ensures store_inv (call (QCommit c))
    (λ r g', ∀ es, r = Ok es → es = [] ∧
       row_of (oc_command_id outcome) (outcome_stored outcome []) g' ∧
       ab_outcomes g.1 !! oc_command_id outcome = None) g.
Proof.
  intros Hg c. apply ensures_call; [done|]. intros g1 r g2 Hg1 Hle Hp. split.
  - apply (store_inv_step _ g1 r g2 Hg1 Hp). by intros id' sn (_ & Hne & _).
  - intros es ->. destruct Hp as (_ & _ & _ & Hreply & _).
    destruct (Hreply _ eq_refl) as (-> & _ & Hout). split; [done|].
    destruct (Hout (outcome_stored outcome []) eq_refl) as [Hfresh Hrow]. split; [done|].
    by apply (fresh_before g.1 g1.1).
Qed.

(** A rejection recorded without events. *)
Lemma persist_rejection_ensures {E} pending window rejection g :
  store_inv g → 0 ≤ window →
  ensures store_inv (persist_rejection (Op := X) (E := E) pending window rejection)
    (λ r g', ∀ co, r = Ok co →
       row_of (pc_command_id pending) (co_outcome co) g' ∧
       oc_digest (co_outcome co) = pc_digest pending ∧
       (co_replayed co = false →
          oc_status (co_outcome co) = Rejected ∧ oc_event_ids (co_outcome co) = [] ∧
          co_events co = [] ∧ co_typed_events co = [] ∧
          ab_outcomes g.1 !! pc_command_id pending = None)) g.
Proof.
  intros Hg Hw. unfold persist_rejection.
  destruct (canonical_rejection rejection) as [rej|e]; [|by apply ensures_ret].
  cbn [transaction_stored_outcome tc_outcome tc_streams map concat]. apply ensures_bind, ensures_call; [done|].
  intros g1 receipt g2 Hg1 Hle Hp.
  assert (store_inv g2) as Hg2.
  { apply (store_inv_step _ g1 receipt g2 Hg1 Hp).
    by intros id sn (c & Hin%not_elem_of_nil & _). }
  split; [done|]. apply ensures_try. eapply ensures_mono; [|by apply settle_ensures].
  intros settled g3 Hg3 Hle3 Hset. destruct settled as [settled|e]; [|done]. simpl in Hset.
  apply ensures_ret; [done|]. intros co [= <-]. destruct settled as [|o]; simpl.
  - destruct receipt as [es|e]; [|done]. destruct Hp as (_ & _ & _ & Hreply & _).
    destruct (Hreply _ eq_refl) as [_ Happ]. destruct (ta_outcome _ _ _ Happ _ eq_refl) as [Hnone Hrow].
    split; [by eapply row_of_le|]. split; [done|]. intros _.
    do 4 (split; [done|]). by apply (fresh_before g.1 g1.1).
  - destruct Hset as [Hrow Hdig]. done.
Qed.

(** ** Attempts *)

Context (row_message : RowTooLarge → string).

(** What a command recorded: the row the log holds for it, under its own digest. Fresh, the row
    lists the events the commit appended; they follow the state the command was decided on; and
    they are the handler's events, or those of its rejection, or none for a rejection the engine
    made; and no row existed when the call began, with the log at [before]. *)
Definition recorded (before : Abs) (id : EntityId) (command : ag_command) (pending : PendingCommand)
    (co : CommandOutcome ag_event) (g : Abs * W) : Prop :=
  row_of (pc_command_id pending) (co_outcome co) g ∧
  oc_digest (co_outcome co) = pc_digest pending ∧
  (co_replayed co = false →
     ab_outcomes before !! pc_command_id pending = None ∧
     oc_event_ids (co_outcome co) = map ev_id (co_events co) ∧
     length (co_events co) = length (co_typed_events co) ∧
     ∃ pre post, log_of g.1 id = pre ++ co_events co ++ post ∧
       ((co_events co = [] ∧ oc_status (co_outcome co) = Rejected) ∨
        ∃ state, replay_log pre = Some state ∧
          match ag_handle state command with
          | Ok typed => co_typed_events co = typed ∧ oc_status (co_outcome co) = Accepted
          | Err error =>
              co_typed_events co = ag_rejection_events state error ∧
              oc_status (co_outcome co) = Rejected
          end)).

Definition recorded_result {E} (before : Abs) (id : EntityId) (command : ag_command) (pending : PendingCommand)
    (r : result (CommandOutcome ag_event) E) (g : Abs * W) : Prop :=
  ∀ co, r = Ok co → recorded before id command pending co g.

Lemma recorded_stable {E} before id command pending :
  stable store_inv (recorded_result (E := E) before id command pending).
Proof.
  intros r g g' _ _ Hle Hr co ->. destruct (Hr co eq_refl) as (Hrow & Hdig & Hfresh).
  split; [by eapply row_of_le|]. split; [done|]. intros Hnew.
  destruct (Hfresh Hnew) as (Hnone & Hids & Hlen & pre & post & Hlog & Hrest).
  split; [done|]. split; [done|]. split; [done|]. destruct (proj1 Hle id) as [more Hmore].
  exists pre, (post ++ more). split; [|done]. unfold log_of in *. by rewrite Hmore, Hlog, <-!app_assoc.
Qed.

(** A commit of staged events with an outcome of the pending command. *)
Lemma record_staged_ensures before s id `{!HasKind id A} command pending loaded events loaded' c outcome g :
  store_inv g → abs_le before g.1 → 0 ≤ recovery_window s → loaded_ok (log_of g.1 id) id loaded →
  staged_ok loaded events loaded' c → nil_b events = false →
  oc_command_id outcome = pc_command_id pending → oc_digest outcome = pc_digest pending →
  match ag_handle (ld_aggregate loaded) command with
  | Ok typed => events = typed ∧ oc_status outcome = Accepted
  | Err error =>
      events = ag_rejection_events (ld_aggregate loaded) error ∧ oc_status outcome = Rejected
  end →
  ensures store_inv (record s (with_commit_outcome c outcome) events)
    (recorded_result before id command pending) g.
Proof.
  intros Hg Hb Hw Hl Hs Hne Hcid Hdig Hh.
  set (P := λ (es : list SerializedEvent) (g' : Abs * W),
    es = cm_events c ∧ follows (log_of g'.1 id) id loaded es loaded' ∧
    ab_outcomes before !! pc_command_id pending = None).
  eapply ensures_mono; [|apply (record_ensures s _ (outcome_stored outcome (map ev_id (cm_events c))) _ P);
    [done|done|done| |]].
  - intros r g1 Hg1 _ Hr co ->. destruct (Hr co eq_refl) as (Hrow & Hd & Hfresh).
    simpl in Hrow, Hd. rewrite Hcid in Hrow. split; [done|]. split; [congruence|]. intros Hnew.
    destruct (Hfresh Hnew) as (Hout & Htyped & -> & (pre & post & Hlog & Hrep & _) & Hnone).
    rewrite Hout, Htyped. simpl. split; [done|]. split; [done|]. split; [apply Hs|].
    exists pre, post. split; [done|]. right. exists (ld_aggregate loaded). by split.
  - intros es [] g1 g2 _ _ Hle (-> & Hf & Hnone). split; [done|]. split; [|done].
    eapply follows_prefix, Hf. apply Hle.
  - eapply ensures_mono; [|eapply (commit_call_ensures id loaded events loaded' c);
      try done; by eapply staged_nonempty].
    intros r g1 _ _ Hr es ->. destruct (Hr es eq_refl) as (-> & Hf & Hout).
    destruct (Hout (outcome_stored outcome (map ev_id (cm_events c))) eq_refl) as [Hrow Hnone].
    simpl in Hnone. rewrite Hcid in Hnone. split; [|done]. split; [done|]. split; [done|].
    by apply (fresh_before before g.1).
Qed.

(** A commit of an outcome of the pending command alone. *)
Lemma record_empty_ensures before s id command pending loaded events outcome g :
  store_inv g → abs_le before g.1 → 0 ≤ recovery_window s → loaded_ok (log_of g.1 id) id loaded →
  nil_b events = true →
  oc_command_id outcome = pc_command_id pending → oc_digest outcome = pc_digest pending →
  match ag_handle (ld_aggregate loaded) command with
  | Ok typed => events = typed ∧ oc_status outcome = Accepted
  | Err error =>
      events = ag_rejection_events (ld_aggregate loaded) error ∧ oc_status outcome = Rejected
  end →
  ensures store_inv (record s (with_commit_outcome (commit_new (ld_entity_id loaded) []) outcome) events)
    (recorded_result before id command pending) g.
Proof.
  intros Hg Hb Hw Hl Hne Hcid Hdig Hh. destruct events as [|]; [|done].
  set (P := λ (es : list SerializedEvent) (g' : Abs * W),
    es = [] ∧ loaded_ok (log_of g'.1 id) id loaded ∧
    ab_outcomes before !! pc_command_id pending = None).
  eapply ensures_mono; [|apply (record_ensures s _ (outcome_stored outcome []) _ P);
    [done|done|done| |]].
  - intros r g1 Hg1 _ Hr co ->. destruct (Hr co eq_refl) as (Hrow & Hd & Hfresh).
    simpl in Hrow, Hd. rewrite Hcid in Hrow. split; [done|]. split; [congruence|]. intros Hnew.
    destruct (Hfresh Hnew) as (Hout & Htyped & Hnil & Hl1 & Hnone). rewrite Hout, Htyped, Hnil. simpl.
    split; [done|]. split; [done|]. split; [done|].
    exists (take (Z.to_nat (ld_sequence loaded)) (log_of g1.1 id)),
      (drop (Z.to_nat (ld_sequence loaded)) (log_of g1.1 id)).
    split; [by rewrite take_drop|]. right. exists (ld_aggregate loaded). split; [apply Hl1|done].
  - intros es [] g1 g2 _ _ Hle (-> & Hf & Hnone). split; [done|]. split; [|done].
    eapply loaded_ok_prefix, Hf. apply Hle.
  - eapply ensures_mono; [|by apply (empty_commit_ensures (ld_entity_id loaded) outcome)].
    intros r g1 _ Hle Hr es ->. destruct (Hr es eq_refl) as (-> & Hrow & Hnone).
    rewrite Hcid in Hnone. split; [|done]. split; [done|].
    split; [eapply loaded_ok_prefix, Hl; apply Hle|]. by apply (fresh_before before g.1).
Qed.

Lemma ensures_committing before id command pending (p : Prog X (Result (CommandOutcome ag_event))) g :
  ensures store_inv p (recorded_result before id command pending) g →
  ensures store_inv (map_err_prog failed_committing p) (recorded_result before id command pending) g.
Proof.
  intros Hp. apply ensures_map_err. eapply ensures_mono, Hp. intros [co|e] g' _ _ Hr; [|done].
  simpl. intros co' [= <-]. by apply Hr.
Qed.

(** Staging a command's events, and what follows. *)
Lemma stage_then_ensures before s id command pending loaded events metadata k g :
  store_inv g → abs_le before g.1 → loaded_ok (log_of g.1 id) id loaded →
  (∀ staged g', store_inv g' → abs_le before g'.1 → loaded_ok (log_of g'.1 id) id loaded →
     staged_ok loaded events staged.1 staged.2 →
     ensures store_inv (k staged) (recorded_result before id command pending) g') →
  ensures store_inv
    (await? ready := map_err_prog failed_internal (store_ready_projectors s) in
     await? staged := map_err_prog failed_internal (stage s loaded events metadata) in k staged)
    (recorded_result before id command pending) g.
Proof.
  intros Hg Hb Hl Hk. apply ensures_try, ensures_map_err.
  eapply ensures_mono, ready_projectors_ensures, Hg. intros [[]|e] g1 Hg1 Hle1 _; [|done].
  assert (loaded_ok (log_of g1.1 id) id loaded) as Hl1 by (eapply loaded_ok_prefix, Hl; apply Hle1).
  apply ensures_try, ensures_map_err. eapply ensures_mono; [|apply stage_ensures; [done|apply Hl]].
  intros [[loaded' c]|e] g2 Hg2 Hle2 Hst; [|done]. specialize (Hst _ _ eq_refl).
  apply Hk; [done|by do 2 (etransitivity; [eassumption|])| |done].
  eapply loaded_ok_prefix, Hl1. apply Hle2.
Qed.

Lemma attempt_accepted_ensures before s id `{!HasKind id A} command metadata pending respond loaded events g :
  store_inv g → abs_le before g.1 → 0 ≤ recovery_window s → loaded_ok (log_of g.1 id) id loaded →
  ag_handle (ld_aggregate loaded) command = Ok events →
  ensures store_inv (attempt_accepted s loaded metadata pending respond events)
    (recorded_result before id command pending) g.
Proof.
  intros Hg Hb Hw Hl Hh. unfold attempt_accepted. destruct (nil_b events) eqn:Hne.
  - destruct (respond _ _) as [response|err]; [|by apply ensures_ret]. apply ensures_committing.
    apply record_empty_ensures; try done; [by destruct response..|]. rewrite Hh. by destruct response.
  - apply stage_then_ensures; [done|done|done|]. intros [loaded' c] g1 Hg1 Hb1 Hl1 Hst. simpl.
    destruct (respond _ _) as [response|err]; [|by apply ensures_ret]. apply ensures_committing.
    eapply record_staged_ensures; try done; [by destruct response..|]. rewrite Hh. by destruct response.
Qed.

Lemma attempt_rejected_ensures before s id `{!HasKind id A} command metadata pending loaded error g :
  store_inv g → abs_le before g.1 → 0 ≤ recovery_window s → loaded_ok (log_of g.1 id) id loaded →
  ag_handle (ld_aggregate loaded) command = Err error →
  ensures store_inv (attempt_rejected s loaded metadata pending error)
    (recorded_result before id command pending) g.
Proof.
  intros Hg Hb Hw Hl Hh. unfold attempt_rejected.
  destruct (ag_to_rejection error) as [rejection|]; [|by apply ensures_ret].
  destruct (canonical_rejection rejection) as [rej|]; [|by apply ensures_ret].
  destruct (nil_b (ag_rejection_events (ld_aggregate loaded) error)) eqn:Hne.
  - apply ensures_committing. apply record_empty_ensures; try done. rewrite Hh.
    by destruct (ag_rejection_events (ld_aggregate loaded) error).
  - apply stage_then_ensures; [done|done|done|]. intros [loaded' c] g1 Hg1 Hb1 Hl1 Hst. simpl.
    apply ensures_committing. eapply record_staged_ensures; try done. by rewrite Hh.
Qed.

Lemma attempt_ensures before s id `{!HasKind id A} command metadata pending respond g :
  store_inv g → abs_le before g.1 → 0 ≤ recovery_window s →
  ensures store_inv (attempt_with_response s id command metadata pending respond)
    (recorded_result before id command pending) g.
Proof.
  intros Hg Hb Hw. unfold attempt_with_response. apply ensures_try, ensures_map_err.
  unfold pre_check. apply ensures_try, ensures_quiet; [done|done|].
  intros g0 stored g1 _ Hle0 Hp Hg1. destruct stored as [stored|e]; [|done].
  destruct Hp as (_ & Hle1 & _ & Hreply & _). specialize (Hreply _ eq_refl).
  apply ensures_ret; [done|]. destruct stored as [stored|].
  { unfold same_command. destruct (bool_decide_reflect (oc_digest stored = pc_digest pending));
      [|done]. simpl. apply ensures_ret; [done|]. by intros co [= <-]. }
  simpl. apply ensures_try, ensures_map_err. eapply ensures_mono; [|by apply load_ensures].
  intros [loaded|e] g2 Hg2 Hle2 Hl; [|done]. specialize (Hl _ eq_refl). simpl.
  assert (abs_le before g2.1) as Hb2 by (by do 3 (etransitivity; [eassumption|])).
  destruct (has_seen _ _); [by apply ensures_ret|].
  destruct (ag_handle (ld_aggregate loaded) command) as [events|error] eqn:Hh.
  - by apply attempt_accepted_ensures.
  - by apply attempt_rejected_ensures.
Qed.

(** A rejection the engine records for the command. *)
Lemma engine_rejection_ensures before id command pending window rejection g :
  store_inv g → abs_le before g.1 → 0 ≤ window →
  ensures store_inv (persist_rejection (Op := X) pending window rejection)
    (recorded_result (E := Error) before id command pending) g.
Proof.
  intros Hg Hb Hw. eapply ensures_mono; [|by apply persist_rejection_ensures].
  intros r g1 _ _ Hr co ->. destruct (Hr co eq_refl) as (Hrow & Hdig & Hfresh).
  split; [done|]. split; [done|]. intros Hnew.
  destruct (Hfresh Hnew) as (Hst & Hids & Hev & Hty & Hnone). rewrite Hids, Hev, Hty.
  split; [by apply (fresh_before before g.1)|]. split; [done|]. split; [done|]. exists [], (log_of g1.1 id). split; [done|]. by left.
Qed.

Lemma response_loop_ensures before s config id `{!HasKind id A} command metadata pending respond n : ∀ budget g,
  so_outcomes s = Some config → policy_ok (oc_retry config) → 0 ≤ oc_recovery_wait config →
  bu_policy budget = oc_retry config → 1 ≤ bu_attempt budget →
  Z.of_nat n = Z.max (rp_max_attempts (oc_retry config)) 1 - bu_attempt budget + 1 → (0 < n)%nat →
  store_inv g → abs_le before g.1 →
  ensures store_inv
    (response_loop row_message n s config id command metadata pending respond budget)
    (recorded_result before id command pending) g.
Proof.
  induction n as [|n IH]; intros budget g Hout Hpol Hw Hbp Hatt Hn Hpos Hg Hb; [lia|].
  cbn [response_loop]. apply ensures_bind.
  eapply ensures_mono; [|apply (attempt_ensures before); [done|done|done|by unfold recovery_window; rewrite Hout]].
  intros r g1 Hg1 Hle1 Hr. assert (abs_le before g1.1) as Hb1 by (by etransitivity).
  destruct r as [co|failed].
  { apply ensures_ret; [done|]. intros co' [= <-]. by apply Hr. }
  assert (∀ error kind, ensures store_inv
    (await random := call (QRandom (Op := X)) in
     await now := call (QClock (Op := X)) in
     match budget_next budget now random with
     | None => Panic
     | Some (budget, None) =>
         if bool_decide (kind = RetryTransient) then Ret (Err error)
         else persist_rejection pending (oc_recovery_wait config)
                (config_stale_fence config (retries_exhausted (bu_attempt budget)))
     | Some (budget, Some delay) =>
         await slept := call (QBackoff (Op := X) delay) in
         response_loop row_message n s config id command metadata pending respond budget
     end) (recorded_result before id command pending) g1) as Hagain.
  { intros error kind. apply ensures_bind, ensures_quiet; [done|done|].
    intros g0 random g2 _ Hle0 Hp Hg2. destruct Hp as (_ & Hle2 & _ & Hrand & _). simpl in Hrand.
    apply ensures_bind, ensures_quiet; [done|done|]. intros g3 now g4 _ Hle3 Hp Hg4.
    destruct Hp as (_ & Hle4 & _).
    assert (abs_le before g4.1) as Hb4
      by (rewrite Hb1, Hle0, Hle2, Hle3; exact Hle4).
    destruct (budget_next_some budget now random) as (b' & o & Hnext & _); [by rewrite Hbp|done|done|].
    rewrite Hnext. destruct o as [d|].
    - apply budget_next_attempts in Hnext as (Ha & Hp' & _ & Hlt). rewrite Hbp in Hlt.
      apply ensures_bind, ensures_quiet; [done|done|]. intros g5 [] g6 _ Hle5 Hp Hg6.
      destruct Hp as (_ & Hle6 & _).
      apply IH; [done|done|done|congruence|lia|lia|lia|done|by do 2 (etransitivity; [eassumption|])].
    - destruct (bool_decide _); [by apply ensures_ret|]. by apply engine_rejection_ensures. }
  destruct (fa_error failed); try (by apply engine_rejection_ensures);
    (destruct (failed_retry failed); [by apply ensures_ret|apply Hagain..]).
Qed.

Lemma execute_with_response_ensures s id `{!HasKind id A} command metadata respond config pending g :
  freeze s id command metadata = Ok (config, pending) →
  policy_ok (oc_retry config) → 0 ≤ oc_recovery_wait config → store_inv g →
  ensures store_inv (execute_with_response row_message s id command metadata respond)
    (recorded_result g.1 id command pending) g.
Proof.
  intros Hf Hpol Hw Hg. unfold execute_with_response. rewrite Hf.
  apply ensures_bind, ensures_quiet; [done|done|]. intros g0 started g1 _ Hle0 Hp Hg1.
  destruct Hp as (_ & Hle1 & _). apply response_loop_ensures; try done; [|simpl; lia..|by etransitivity].
  unfold freeze in Hf. destruct (so_outcomes s) as [c|]; [|done]. simpl in Hf.
  destruct (check_targets _); [|done]. simpl in Hf. destruct (require_command_id _); [|done].
  simpl in Hf. destruct (ag_canonical_payload _); [|done]. simpl in Hf.
  destruct (pending_new _ _ _ _); [|done]. simpl in Hf. by injection Hf as <- <-.
Qed.
End outcomes.

(** * Clients of the store

    The requests that clients of a store run, and what holds of any number of them that run at once
    against a backend that represents a log. *)

From S2P Require Import Features Rebuild.

(** ** Clients *)

Section requests.
Context `{SerdeJson} `{A : Aggregate} {X : Type}.

Record Request := mkRequest {
  rq_store : Store X;
  rq_entity_id : EntityId;
  rq_command : ag_command;
  rq_metadata : Metadata
}.

Definition run_request (q : Request) : Prog X (result Executed (ExecuteError ag_error)) :=
  execute (rq_store q) (rq_entity_id q) (rq_command q) (rq_metadata q).

(** A request whose outcome is recorded: what the call freezes before its first attempt. *)
Record OutcomeRequest := mkOutcomeRequest {
  or_request : Request;
  or_respond : Respond;
  or_config : OutcomeConfig;
  or_pending : PendingCommand
}.

Definition run_outcome_request (row_message : RowTooLarge → string) (q : OutcomeRequest)
  : Prog X (Result (CommandOutcome ag_event)) :=
  execute_with_response row_message (rq_store (or_request q)) (rq_entity_id (or_request q))
    (rq_command (or_request q)) (rq_metadata (or_request q)) (or_respond q).

(** The request passes the checks, and its configuration's numbers are in range. *)
Record request_ok (q : OutcomeRequest) : Prop := {
  ro_freeze : freeze (rq_store (or_request q)) (rq_entity_id (or_request q))
    (rq_command (or_request q)) (rq_metadata (or_request q)) = Ok (or_config q, or_pending q);
  ro_policy : policy_ok (oc_retry (or_config q));
  ro_window : 0 ≤ oc_recovery_wait (or_config q)
}.
End requests.
Arguments Request {A} X.
Arguments OutcomeRequest {A} X.

(** ** Any backend *)

Section any_backend.
Context `{SerdeJson} `{EntityKinds} `{A : Aggregate} `{!AggregateLaws A} {X W : Type} `{LogBackend X W}.

(** The requests of the clients of one aggregate are for its entities. *)
Definition of_kind (q : Request X) : Prop := kind (rq_entity_id q) = A.

(** Interference that keeps the invariant and lets the log grow. *)
Definition tolerated (env : W → W → Prop) : Prop :=
  ∀ a w w', store_inv (a, w) → env w w' → ∃ a', store_inv (a', w') ∧ abs_le a a'.

(** A client that has not panicked and has not run out of fuel. *)
Definition healthy {B} (p : Prog X B) : Prop :=
  match p with Panic | OutOfFuel => False | _ => True end.

Lemma store_clients_sound {B} (env : W → W → Prop) (Q : nat → B → Abs * W → Prop) a w
    (ps ps' : list (Prog X B)) w' :
  tolerated env → (∀ i, stable store_inv (Q i)) →
  store_inv (a, w) → (∀ i p, ps !! i = Some p → ensures store_inv p (Q i) (a, w)) →
  rtc (pool_step env) (w, ps) (w', ps') →
  ∃ a', store_inv (a', w') ∧ abs_le a a' ∧ Forall healthy ps' ∧
    ∀ i b, ps' !! i = Some (Ret b) → Q i b (a', w').
Proof.
  intros Henv HQ Hi Hps Hrtc.
  destruct (clients_sound store_inv env Q a w ps w' ps') as (a' & Hi' & Hle & Hwp); try done.
  { by intros a0 w0 [Hr _]. }
  exists a'. split; [done|]. split; [done|]. split.
  - apply Forall_lookup. intros i p Hp. specialize (Hwp i p Hp). by destruct p.
  - intros i b Hb. by destruct (Hwp i _ Hb).
Qed.
End any_backend.
