(* ===== verification/StoreSamples.v ===== *)
(** * A sample store

    A small aggregate with its laws, the maintenance that goes on beside clients of the in-memory
    repository, and an executable scheduler of clients, on which the properties of the store
    evaluate. *)

From S2P Require Import Prelude Types Features Outcome Rebuild Projection Repository Samples.
From S2P Require Import Mem MemInvariant MemRefinement MemRead.
From S2P Require Import Retry Program Settle Store LogBackend MemBackend.
From S2P Require Import StoreLoad StoreExecute StoreOutcome.

(** ** Maintenance beside the clients *)

(** The repository's own operations that clients do not run: compaction, the manifest, the rebuild
    fence and its writes, and direct view writes. *)
Definition is_maintenance (c : mem_call) : bool :=
  match c with CCommit _ | CTransaction _ | CPutSnapshot _ => false | _ => true end.

Section maintenance.
Context `{SerdeJson}.

Definition maintenance (w w' : World) : Prop :=
  ∃ c, is_maintenance c = true ∧ w' = with_repository w (exec c (w_repository w)).1.

Lemma rebuild_op_streams {A} (f : RebuildState → Result (RebuildState * A)) r :
  ms_streams (mr_store (rebuild_op f r).1) = ms_streams (mr_store r).
Proof. unfold rebuild_op. by destruct (f _) as [[? ?]|]. Qed.

Lemma compact_keeps_snapshots entity_id through r id :
  mem_snapshot (mr_store (mem_compact_below entity_id through r).1) id = mem_snapshot (mr_store r) id.
Proof.
  unfold mem_compact_below, guarded. destruct (check_not_reserved _); [|done].
  destruct (through <? 1); [done|]. destruct (validate_marker_for_write _ _); [|done].
  destruct (compact_stream _ _ _) as [[stream' removed]|] eqn:Hc; [|done]. simpl.
  apply compact_stream_ok in Hc as (stream & sn & Hl & Hs & _ & _ & -> & _).
  unfold mem_snapshot. simpl. destruct (decide (entity_id = id)) as [<-|Hne].
  - by rewrite lookup_insert_eq, Hl.
  - by rewrite lookup_insert_ne.
Qed.

Lemma maintenance_keeps_snapshots c r id :
  is_maintenance c = true →
  mem_snapshot (mr_store (exec c r).1) id = mem_snapshot (mr_store r) id.
Proof.
  assert (∀ s s', ms_streams s' = ms_streams s → mem_snapshot s' id = mem_snapshot s id) as Heq
    by (intros s s' Hs; unfold mem_snapshot; by rewrite Hs).
  intros Hc. destruct c; try done; simpl.
  - apply compact_keeps_snapshots.
  - unfold mem_initialize.
    match goal with |- context [match ?x with Ok _ => _ | Err _ => _ end] => destruct x as [[]|] end;
      [done| |done]. by destruct (any_data _).
  - apply Heq. unfold mem_begin_rebuild, guarded. destruct (_ : Result _); [|done].
    apply rebuild_op_streams.
  - apply Heq. unfold mem_renew_rebuild, guarded. destruct (_ : Result _); [|done].
    apply rebuild_op_streams.
  - apply Heq. unfold mem_end_rebuild, guarded. destruct (_ : Result _); [|done].
    apply rebuild_op_streams.
  - apply Heq. unfold mem_force_release_rebuild, guarded. destruct (_ : Result _); [|done].
    apply rebuild_op_streams.
  - unfold mem_write_rebuild_views, guarded. destruct (_ : Result unit); [|done].
    destruct (rebuild_views _ _ _ _) eqn:Hv; [|done]. unfold rebuild_views in Hv.
    rewrite !check_bind_ok in Hv. destruct Hv as (_ & _ & Hv). by injection Hv as <-.
  - unfold mem_put_view, guarded. by destruct (_ : Result _).
  - unfold mem_delete_view, guarded. by destruct (_ : Result _).
Qed.

Lemma maintenance_tolerated `{EntityKinds} : tolerated maintenance.
Proof.
  intros a w w' [(Hr & Hok & Hnum) Hsn] (c & Hc & ->).
  destruct (exec_simulates c a (w_repository w) Hr Hok) as (a' & Hs & Hr').
  pose proof (abs_step_le a a' Hs) as Hle. exists a'. split; [|done]. split.
  - split; [done|]. split; [by apply exec_preserves|]. by eapply abs_step_numbered.
  - intros id sn Hid. eapply faithful_prefix; [apply Hle|]. apply Hsn.
    simpl in Hid. unfold mem_snapshots, w_store in Hid. simpl in Hid.
    by rewrite (maintenance_keeps_snapshots c (w_repository w) id Hc) in Hid.
Qed.
End maintenance.

(** ** A scheduler *)

(** What happens next: client [i] makes its next call, answered with [o] from outside, or the
    repository is maintained. *)
Inductive Turn := Client (i : nat) (o : Oracle) | Maintain (c : mem_call).

Section schedule.
Context `{SerdeJson} {A : Type}.

Definition take_turn (t : Turn) (x : World * list (Prog Empty_set A))
  : World * list (Prog Empty_set A) :=
  match t with
  | Client i o =>
      match x.2 !! i with
      | Some (Ask q k) =>
          let y := mem_answer o q x.1 in (y.1, <[i := k y.2]> x.2)
      | _ => x
      end
  | Maintain c =>
      if is_maintenance c then
        (with_repository x.1 (exec c (w_repository x.1)).1, x.2)
      else x
  end.

Definition schedule (ts : list Turn) (x : World * list (Prog Empty_set A)) :=
  fold_left (λ x t, take_turn t x) ts x.

Definition turn_ok (t : Turn) : bool :=
  match t with Client _ o => 0 <=? or_random o | Maintain _ => true end.

Lemma take_turn_step t x :
  turn_ok t = true → rtc (pool_step maintenance) x (take_turn t x).
Proof.
  destruct x as [w ps]. destruct t as [i o|c]; simpl; intros Ht.
  - destruct (ps !! i) as [[a|B q k| |]|] eqn:Hi; try reflexivity.
    destruct (mem_answer o q w) as [w' b] eqn:Hq. simpl. apply rtc_once.
    eapply pool_call; [done|]. exists o. split; [lia|done].
  - destruct (is_maintenance c) eqn:Hc; [|reflexivity]. apply rtc_once, pool_env. by exists c.
Qed.

Lemma schedule_steps ts x :
  forallb turn_ok ts = true → rtc (pool_step maintenance) x (schedule ts x).
Proof.
  revert x. induction ts as [|t ts IH]; intros x; simpl; [reflexivity|].
  intros [Ht Hts]%andb_prop. etransitivity; [by apply take_turn_step|by apply IH].
Qed.
End schedule.

(** ** A sample aggregate *)

(** A text that commands append to; an empty command is refused. *)
Definition text_aggregate : Aggregate := {|
  ag_state := string;
  ag_event := string;
  ag_command := string;
  ag_error := unit;
  ag_TYPE := "Text";
  ag_SNAPSHOT_INTERVAL := Some 2;
  ag_default := ""%string;
  ag_handle := λ state command, if is_empty command then Err tt else Ok [command];
  ag_apply := λ state event, (state ++ event)%string;
  ag_rejection_events := λ _ _, [];
  ag_upcasters := [];
  ag_event_type := λ _, "Appended"%string;
  ag_event_version := λ _, 1;
  ag_to_payload := Ok;
  ag_from_payload := λ _ _ text, Ok text;
  ag_to_json := Ok;
  ag_from_json := Ok;
  ag_to_rejection := λ _, Some (Rejection_new "empty" "nothing to append");
  ag_box := λ _, BoxText "nothing to append";
  ag_command_type := λ _, "Append"%string;
  ag_canonical_payload := λ command, Ok (Some command)
|}.

#[export] Instance text_kinds : EntityKinds := λ _, text_aggregate.

#[export] Instance text_kind id : HasKind id text_aggregate.
Proof. reflexivity. Qed.

#[export] Instance text_laws : AggregateLaws text_aggregate.
Proof.
  split; simpl.
  - by intros state text [= ->].
  - by intros event text [= ->].
  - intros u event event' Hu. by apply not_elem_of_nil in Hu.
  - intros u event Hu. by apply not_elem_of_nil in Hu.
Qed.

Definition sample_oracle : Oracle := mkOracle 0 0 "commit".

Definition text_store (outcomes : option OutcomeConfig) : @Store text_aggregate Empty_set :=
  mkStore 2 0 [] [] outcomes "mem".

Definition text_config : OutcomeConfig :=
  mkOutcomeConfig (λ input, Ok (di_payload input)) 0 (mkRetryPolicy 3 1 1 None) "stale" "version".

Definition empty_world : World := mkWorld mem_new ∅ 1.

Lemma empty_world_inv `{SerdeJson} : store_inv (abs_initial, empty_world).
Proof.
  split.
  - split; [apply refines_initial|]. split; [apply mem_new_ok|]. intros id.
    change (numbered 1 (default [] ((∅ : gmap EntityId (list SerializedEvent)) !! id))).
    by rewrite lookup_empty.
  - intros id sn. simpl. unfold mem_snapshots, mem_snapshot. simpl. by rewrite lookup_empty.
Qed.

(** ** Sample runs *)

Section runs.
#[local] Existing Instance sample_json.
#[local] Existing Instance text_aggregate.

Definition text_metadata (command_id : option CommandId) : Metadata :=
  mkMetadata command_id None None None "" "" None None ∅ "".

Definition text_request (command : string) : Request Empty_set :=
  mkRequest (text_store None) "t" command (text_metadata None).

Definition turns (clients : list nat) : list Turn := map (λ i, Client i sample_oracle) clients.

(** Two clients load the same state, then both commit: the second loses. *)
Definition race : World * list (Prog Empty_set (result Executed (ExecuteError unit))) :=
  schedule (turns [0; 1; 0; 1; 0; 0] ++ [Maintain (CCompact "t" 1)] ++ turns [1; 1])%nat
    (empty_world, map run_request [text_request "a"; text_request "b"]).

Definition text_pending (command : string) : PendingCommand :=
  mkPending "k" command (mkIdentity "Append" ["t"%string] None) (text_metadata (Some "k"%string)).

Definition outcome_request (command : string) : OutcomeRequest Empty_set :=
  mkOutcomeRequest
    (mkRequest (text_store (Some text_config)) "t" command (text_metadata (Some "k"%string)))
    (λ _ _, Ok None) text_config (text_pending command).

Lemma outcome_request_ok : request_ok (outcome_request "a").
Proof. split; [reflexivity|split; vm_compute; intuition congruence|done]. Qed.

(** The clients' texts are not looked at. *)
Definition no_message (_ : RowTooLarge) : string := "".

(** The same command sent twice at once: the second commit loses and settles on the first's row. *)
Definition duplicate_race : World * list (Prog Empty_set (Result (CommandOutcome string))) :=
  schedule (turns [0; 1; 0; 1; 0; 1; 0; 1; 0; 1; 0; 1; 1; 1; 1])%nat
    (empty_world, map (run_outcome_request no_message) [outcome_request "a"; outcome_request "a"]).

(** One client alone. *)
Definition sent_once : World * list (Prog Empty_set (Result (CommandOutcome string))) :=
  schedule (turns [0; 0; 0; 0; 0; 0])%nat
    (empty_world, [run_outcome_request no_message (outcome_request "a")]).

(** The same command again, later. *)
Definition sent_again : World * list (Prog Empty_set (Result (CommandOutcome string))) :=
  schedule (turns [0; 0])%nat (sent_once.1, [run_outcome_request no_message (outcome_request "a")]).
End runs.
