(* ===== verification/StoreSystem.v ===== *)
(** * The store as a concurrent system

    The properties of the store for any number of clients that run at once against a backend that
    represents a log, and of a client that runs alone against the in-memory repository. *)

From S2P Require Import Prelude Types Features Outcome Rebuild Projection Repository Samples.
From S2P Require Import Mem MemInvariant MemRefinement MemRead.
From S2P Require Import Retry Program Settle Store LogBackend MemBackend.
From S2P Require Import StoreLoad StoreExecute StoreOutcome StoreSamples.

Section any_backend.
Context `{SerdeJson} `{EntityKinds} `{A : Aggregate} `{!AggregateLaws A} {X W : Type} `{LogBackend X W}.

(** C3. Decisions are serial. Whatever number of clients execute commands at once, whatever else
    happens to the backend between their calls, no client panics or loops, every stored snapshot
    stays faithful to the log, and each command that succeeded was decided on exactly the state
    its events directly follow in the log: no update is lost, and replaying the log up to those
    events gives the state the command returned. *)
Theorem concurrent_decisions_are_serial (env : W → W → Prop) (requests : list (Request X))
    (a : Abs) (w w' : W) ps' :
  tolerated env → store_inv (a, w) → Forall of_kind requests →
  rtc (pool_step env) (w, map run_request requests) (w', ps') →
  ∃ a', store_inv (a', w') ∧ abs_le a a' ∧ Forall healthy ps' ∧
    ∀ i q ex, requests !! i = Some q → ps' !! i = Some (Ret (Ok ex)) →
      decided (rq_entity_id q) (rq_command q) (log_of a' (rq_entity_id q)) ex.
Proof.
  intros Henv Hi Hkind Hrtc.
  destruct (store_clients_sound env
    (λ i r g, ∀ q, requests !! i = Some q → executes (rq_entity_id q) (rq_command q) r g)
    a w (map run_request requests) ps' w') as (a' & Hi' & Hle & Hok & Hall); try done.
  - intros i r g g' Hg Hg' Hle' Hr q Hq. by eapply executes_stable, Hr.
  - intros i p Hp. rewrite list_lookup_fmap in Hp.
    destruct (requests !! i) as [q|] eqn:Hq; [|done]. injection Hp as <-.
    rewrite Forall_lookup in Hkind. pose proof (Hkind i q Hq : HasKind _ _).
    eapply ensures_mono; [|by apply execute_ensures]. intros r g _ _ Hr q' [= <-]. exact Hr.
  - exists a'. do 3 (split; [done|]). intros i q ex Hq Hp. by apply (Hall i _ Hp q Hq).
Qed.


End any_backend.

(** ** Runs on the in-memory repository *)

Section witnesses.
#[local] Existing Instance sample_json.
#[local] Existing Instance text_aggregate.

Lemma concurrent_decisions_are_serial_witness :
  ∃ a' ex, race.2 !! 0%nat = Some (Ret (Ok ex)) ∧ ld_aggregate (ex_state ex) = "a"%string ∧
    decided "t" "a"%string (log_of a' "t") ex.
Proof.
  assert (race.2 !! 0%nat = Some (Ret (Ok (mkExecuted (mkLoaded "t" "a"%string 1 0 ∅)
    [mkEvent "t:1" 1 "Appended" 1 "t" "Text" "a"
       (with_commit_id (text_metadata None) "commit")])))) as Hrun by (vm_compute; reflexivity).
  destruct (concurrent_decisions_are_serial maintenance [text_request "a"; text_request "b"]
    abs_initial empty_world race.1 race.2) as (a' & _ & _ & _ & Hall).
  - apply maintenance_tolerated.
  - apply empty_world_inv.
  - do 2 (constructor; [reflexivity|]). constructor.
  - rewrite <-surjective_pairing. apply schedule_steps. vm_compute. reflexivity.
  - eexists a', _. split; [exact Hrun|]. split; [reflexivity|].
    exact (Hall 0%nat (text_request "a") _ eq_refl Hrun).
Defined.


End witnesses.

(** * A client alone

    What the store returns when nothing runs beside it on the in-memory repository: the guarantees
    for concurrent clients say that what is returned is right; this file says that it is
    returned. *)

Section alone.
Context `{SerdeJson} `{EntityKinds} `{A : Aggregate} `{!AggregateLaws A}.

Lemma run_prog_bind {B C} o (p : Prog Empty_set B) (f : B → Prog Empty_set C) w :
  run_prog o (bind p f) w =
  match run_prog o p w with (w', Some b) => run_prog o (f b) w' | (w', None) => (w', None) end.
Proof. revert w. induction p as [b|D q k IH| |]; intros w; simpl; [done| |done|done]. apply IH. Qed.

(** ** Replaying *)

Lemma apply_stored_none log : fold_left apply_stored log None = None.
Proof. by induction log. Qed.

Lemma replay_all log id : ∀ events loaded,
  numbered 1 log → llen log < i64_max → is_Some (replay_log log) → loaded_ok log id loaded →
  events = drop (Z.to_nat (ld_sequence loaded)) log →
  ∃ loaded', fold_result replay loaded events = Ok loaded' ∧ ld_sequence loaded' = llen log.
Proof.
  induction events as [|e events IH]; intros loaded Hn Hmax Hsome Hl Hev; destruct (Hl) as [Hid [Hnn Hle] Hst].
  { exists loaded. split; [done|]. symmetry in Hev. apply (f_equal length) in Hev.
    rewrite length_drop in Hev. simpl in Hev. unfold llen in *. lia. }
  apply drop_next in Hev as Hnext. destruct Hnext as [Hlook Hrest].
  pose proof (numbered_lookup _ _ _ _ Hn Hlook) as Hnum.
  assert (ev_sequence e = next (ld_sequence loaded)) as Hseq.
  { unfold next, i64_saturating_add, i64_min, i64_max in *. lia. }
  assert (∃ x, decode_event e = Ok x) as [x Hx].
  { revert Hsome. rewrite <-(take_drop (Z.to_nat (ld_sequence loaded)) log), replay_log_app, Hst, <-Hev.
    simpl. destruct (decode_event e) as [x|]; [by exists x|]. intros [y Hy].
    by rewrite apply_stored_none in Hy. }
  assert (∃ l1, replay loaded e = Ok l1) as [l1 Hl1].
  { unfold replay. rewrite Hseq, Z.eqb_refl, Hx. simpl. eauto. }
  destruct (replay_step _ _ _ _ _ Hn Hl Hlook Hl1) as [Hok1 HS].
  destruct (IH l1) as (l2 & Hf & Hlen); [done..|by rewrite HS|].
  exists l2. split; [|done]. simpl. by rewrite Hl1.
Qed.

(** ** Loading *)

(** Nothing above the stored snapshot is missing. *)
Lemma read_above_snapshot a w id `{!HasKind id A} loaded :
  store_inv (a, w) → loaded_from id (mem_snapshot (w_store w) id) = Ok loaded →
  mem_events_after (w_store w) id (ld_sequence loaded) =
  drop (Z.to_nat (ld_sequence loaded)) (log_of a id).
Proof.
  intros Hi Hl. destruct (Hi) as [(Hr & Hok & Hnum) _]. simpl fst in *. simpl snd in *.
  assert (loaded_ok (log_of a id) id loaded) as [_ [Hnn Hle] _]
    by (eapply loaded_from_ok; [|exact Hl]; intros sn Hs; by apply (store_inv_snapshot id A (a, w))).
  destruct (read_is_tail a _ id (ld_sequence loaded) Hr Hok) as (k & Hk & _ & Heq).
  pose proof (rf_head _ _ Hr id) as Hhead. fold (log_of a id) in Hhead.
  destruct (stream_tail id (stream_at (ms_streams (w_store w)) id) (ld_sequence loaded))
    as (events & _ & Hlen & _ & Hev).
  - by apply stream_at_ok.
  - split; [|lia]. revert Hl. unfold loaded_from, mem_snapshot, covered, stream_at.
    destruct (ms_streams (w_store w) !! id) as [st|]; simpl; [|intros [= <-]; simpl; lia].
    destruct (st_snapshot st) as [sn|]; [|intros [= <-]; simpl; lia].
    destruct (ag_from_json _); [|done]. intros [= <-]; simpl in *; lia.
  - rewrite mem_events_after_stream, Hev in *. subst events. unfold llen in *.
    rewrite length_drop in Hlen. destruct (decide (ld_sequence loaded = llen (log_of a id))).
    + rewrite !drop_ge; [done|unfold llen in *; lia..].
    + f_equal. unfold llen in *. lia.
Qed.

Lemma load_once_alone o a w id `{!HasKind id A} :
  store_inv (a, w) → llen (log_of a id) < i64_max → is_Some (replay_log (log_of a id)) →
  ∃ loaded n, run_prog o (load_once id) w = (w, Some (Ok (loaded, n))) ∧
    loaded_ok (log_of a id) id loaded ∧ ld_sequence loaded = llen (log_of a id).
Proof.
  intros Hi Hmax Hsome.
  assert (∀ sn, mem_snapshot (w_store w) id = Some sn → faithful (log_of a id) sn) as Hsn
    by (intros sn Hs; by apply (store_inv_snapshot id A (a, w))).
  assert (∃ loaded, loaded_from id (mem_snapshot (w_store w) id) = Ok loaded) as [loaded Hl].
  { unfold loaded_from. destruct (mem_snapshot _ id) as [sn|]; [|eauto].
    destruct (Hsn sn eq_refl) as (_ & state & -> & _). simpl. eauto. }
  pose proof (loaded_from_ok _ _ _ _ Hsn Hl) as Hok.
  pose proof (read_above_snapshot a w id loaded Hi Hl) as Hread.
  destruct Hi as [(_ & _ & Hnum) _].
  destruct (replay_all (log_of a id) id _ loaded (Hnum id) Hmax Hsome Hok eq_refl)
    as (loaded' & Hf & Hlen).
  exists loaded', (llen (drop (Z.to_nat (ld_sequence loaded)) (log_of a id))).
  split; [|split; [|done]].
  - unfold load_once, try_bind. simpl. rewrite Hl. pose proof (lk_entity _ _ _ Hok) as Hid. destruct (mem_snapshot (w_store w) id) eqn:Hs.
    + simpl. by rewrite Hid, Hread, Hf.
    + simpl in Hl. injection Hl as <-. simpl in *. unfold mem_events. by rewrite Hread, Hf.
  - eapply replay_fold; [apply Hnum|exact Hok|reflexivity|exact Hf].
Qed.

Lemma load_attempts_alone o a w id `{!HasKind id A} n :
  store_inv (a, w) → llen (log_of a id) < i64_max → is_Some (replay_log (log_of a id)) →
  ∃ loaded k, run_prog o (load_attempts n id) w = (w, Some (Ok (loaded, k))) ∧
    loaded_ok (log_of a id) id loaded ∧ ld_sequence loaded = llen (log_of a id).
Proof.
  intros Hi Hmax Hsome. destruct (load_once_alone o a w id Hi Hmax Hsome) as (l & k & Hrun & Hl).
  exists l, k. split; [|done]. destruct n; cbn [load_attempts]; by rewrite run_prog_bind, Hrun.
Qed.

(** Writing the snapshot again never loses the aggregate. *)
Lemma catch_up_alone o loaded w :
  ∃ w' sequence, run_prog o (catch_up_snapshot loaded) w =
    (w', Some (mkLoaded (ld_entity_id loaded) (ld_aggregate loaded) (ld_sequence loaded) sequence
      (ld_seen_command_ids loaded))).
Proof.
  assert (loaded = mkLoaded (ld_entity_id loaded) (ld_aggregate loaded) (ld_sequence loaded)
    (ld_snapshot_sequence loaded) (ld_seen_command_ids loaded)) as Heq by (by destruct loaded).
  unfold catch_up_snapshot. destruct (ag_to_json _) as [text|]; [|rewrite Heq; simpl; eauto].
  destruct (snapshot_fits _) as [[]|]; [|rewrite Heq; simpl; eauto..]. simpl.
  match goal with |- context [match ?r with Ok _ => _ | Err _ => _ end] => destruct r as [[]|] end;
    [eauto|rewrite Heq; simpl; eauto..].
Qed.

(** C23. A load sees everything. A client that loads an aggregate while nothing else runs gets the
    replay of the entity's whole log, whatever was compacted below the snapshot and whether or not
    the load also catches the snapshot up: it never fails, as long as the stored events decode and
    sequences stay below the largest. *)
Theorem load_returns_the_whole_stream (o : Oracle) (threshold : Z) (id : EntityId)
    (a : Abs) (w : World) :
  kind id = A → store_inv (a, w) → llen (log_of a id) < i64_max → is_Some (replay_log (log_of a id)) →
  ∃ w' loaded, run_prog o (load_with_catch_up id threshold) w = (w', Some (Ok loaded)) ∧
    ld_entity_id loaded = id ∧ ld_sequence loaded = llen (log_of a id) ∧
    replay_log (log_of a id) = Some (ld_aggregate loaded).
Proof.
  intros Hkind Hi Hmax Hsome. pose proof (Hkind : HasKind id A).
  destruct (load_attempts_alone o a w id (LOAD_ATTEMPTS - 1) Hi Hmax Hsome)
    as (l & k & Hrun & [Hid _ Hst] & Hlen).
  rewrite Hlen in Hst. rewrite take_ge in Hst by (unfold llen; lia).
  unfold load_with_catch_up, try_bind. rewrite run_prog_bind, Hrun. cbn [fst snd].
  destruct (_ && _); [|by exists w, l]. rewrite run_prog_bind.
  destruct (catch_up_alone o l w) as (w' & sequence & ->). simpl. eexists w', _. by split.
Qed.
End alone.

Section witness.
#[local] Existing Instance sample_json.
#[local] Existing Instance text_aggregate.

Definition text_event (sequence : Z) (payload : string) : SerializedEvent :=
  mkEvent (for_event "t" sequence) sequence "Appended" 1 "t" "Text" payload Metadata_default.

(** Two events, with a snapshot of both. *)
Definition text_commit : Commit Empty_set :=
  mkCommit "t" [text_event 1 "a"; text_event 2 "b"] (Some (mkNewSnapshot "Text" 1 "ab")) [] [] None.

Definition text_world : World := mkWorld (mem_commit text_commit mem_new).1 ∅ 1.

Lemma text_world_inv :
  ∃ a, store_inv (a, text_world) ∧ log_of a "t" = cm_events text_commit.
Proof.
  assert (mem_commit text_commit mem_new = (w_repository text_world, Ok tt)) as Hc
    by (vm_compute; reflexivity).
  destruct empty_world_inv as [Hrep _].
  destruct (commit_law abs_initial empty_world text_commit _ (Ok tt) Hrep Hc)
    as (a & _ & Hrep' & Happ & Hsn).
  destruct (Happ eq_refl) as [Hlog _]. destruct (Hlog ltac:(done)) as [Hlog' _].
  exists a. split; [|exact Hlog']. split; [exact Hrep'|].
  intros id sn Hs. destruct (Hsn id sn Hs) as [Hold|(-> & _ & Hl & new & [= <-] & ->)].
  - exfalso. revert Hold. simpl. unfold mem_snapshots, mem_snapshot. simpl. by rewrite lookup_empty.
  - simpl fst. unfold faithful. rewrite Hlog'. split; [vm_compute; split; discriminate|].
    exists "ab"%string. split; vm_compute; reflexivity.
Qed.

Lemma load_returns_the_whole_stream_witness :
  ∃ w' loaded,
    run_prog sample_oracle (load_with_catch_up "t" 1) text_world = (w', Some (Ok loaded)) ∧
    ld_sequence loaded = 2 ∧ Some "ab"%string = Some (ld_aggregate loaded).
Proof.
  destruct text_world_inv as (a & Hi & Hlog).
  destruct (load_returns_the_whole_stream sample_oracle 1 "t" a text_world)
    as (w' & loaded & Hrun & _ & Hseq & Hst); [reflexivity|exact Hi|rewrite Hlog; reflexivity| |].
  - rewrite Hlog. by exists "ab"%string.
  - exists w', loaded. split; [exact Hrun|]. rewrite Hlog in Hseq, Hst. split; [exact Hseq|exact Hst].
Defined.
End witness.
