(* ===== verification/EnumerateMem.v ===== *)
(** * Enumerating a scan

    [enumerate.rs] on a backend whose batches mix entities in any order, as a DynamoDB scan does:
    the events are grouped by entity before any is folded, so every entity comes out once, with
    all its events in sequence order, and the order of delivery decides only the order of the
    entities. A failed scan yields its error and nothing else. *)

From S2P Require Import Prelude Types Features Outcome Projection Repository Retry Program Settle Store.
From S2P Require Import Samples Mem MemInvariant MemRefinement MemRead Enumerate StoreSamples.

(** ** What grouping computes *)

(** The IDs of a list, each where it occurs first. *)
Definition see (seen : list EntityId) (id : EntityId) : list EntityId :=
  if bool_decide (id ∈ seen) then seen else seen ++ [id].

Definition first_seen (ids : list EntityId) : list EntityId := fold_left see ids [].

(** The events of one entity, in the order they came. *)
Definition of_entity (id : EntityId) (events : list SerializedEvent) : list SerializedEvent :=
  List.filter (λ event, bool_decide (ev_entity_id event = id)) events.

Definition grouped_by_entity (events : list SerializedEvent)
  : list (EntityId * list SerializedEvent) :=
  map (λ id, (id, of_entity id events)) (first_seen (map ev_entity_id events)).

Lemma first_seen_elem ids id : id ∈ first_seen ids ↔ id ∈ ids.
Proof.
  unfold first_seen. rewrite <-(app_nil_l ids) at 2. generalize (@nil EntityId) as seen.
  induction ids as [|x ids IH]; intros seen; simpl; [by rewrite app_nil_r|].
  rewrite IH. unfold see. rewrite !elem_of_app, elem_of_cons.
  case_bool_decide; rewrite ?elem_of_app, ?list_elem_of_singleton; naive_solver.
Qed.

Lemma see_NoDup seen id : NoDup seen → NoDup (see seen id).
Proof.
  intros Hnd. unfold see. case_bool_decide as Hin; [done|]. apply NoDup_app.
  split; [done|]. split; [|apply NoDup_singleton]. intros x Hx ->%list_elem_of_singleton. done.
Qed.

Lemma first_seen_NoDup ids : NoDup (first_seen ids).
Proof.
  unfold first_seen. assert (NoDup (@nil EntityId)) as Hnd by constructor. revert Hnd.
  generalize (@nil EntityId) as seen.
  induction ids as [|x ids IH]; intros seen Hnd; simpl; [done|]. by apply IH, see_NoDup.
Qed.

Lemma of_entity_app id l1 l2 : of_entity id (l1 ++ l2) = of_entity id l1 ++ of_entity id l2.
Proof. apply List.filter_app. Qed.

Lemma of_entity_elem id events e : e ∈ of_entity id events ↔ e ∈ events ∧ ev_entity_id e = id.
Proof. unfold of_entity. by rewrite elem_of_list_filter, bool_decide_eq_true. Qed.

Lemma of_entity_nil id events : id ∉ map ev_entity_id events → of_entity id events = [].
Proof.
  intros Hn. destruct (of_entity id events) as [|e l] eqn:He; [done|]. destruct Hn.
  assert (e ∈ of_entity id events) as [Hin <-]%of_entity_elem by (rewrite He; apply list_elem_of_here).
  by apply list_elem_of_fmap_2.
Qed.

(** A group holds the events it was given. *)
Record groups (group : Group) (events : list SerializedEvent) : Prop := {
  gs_order : gr_order group = first_seen (map ev_entity_id events);
  gs_events : ∀ id, gr_events group !! id =
    match of_entity id events with [] => None | found => Some found end
}.

Lemma groups_default : groups Group_default [].
Proof. split; [done|]. intros id. apply lookup_empty. Qed.

Lemma groups_event group events e : groups group events → groups (group_event group e) (events ++ [e]).
Proof.
  intros [Ho He]. unfold group_event. rewrite !He. split; cbn [gr_order gr_events].
  - unfold first_seen in *. rewrite map_app, fold_left_app. simpl. rewrite <-Ho. unfold see.
    rewrite Ho. fold (first_seen (map ev_entity_id events)).
    destruct (of_entity (ev_entity_id e) events) as [|x l] eqn:Hf.
    + rewrite bool_decide_false; [done|]. rewrite first_seen_elem. intros (e' & Heq & Hin)%list_elem_of_fmap.
      apply (not_elem_of_nil e'). rewrite <-Hf. by apply of_entity_elem.
    + rewrite bool_decide_true; [done|]. apply first_seen_elem.
      assert (x ∈ of_entity (ev_entity_id e) events) as [Hin <-]%of_entity_elem
        by (rewrite Hf; apply list_elem_of_here). by apply list_elem_of_fmap_2.
  - intros id. rewrite of_entity_app. unfold of_entity at 3. simpl.
    destruct (decide (ev_entity_id e = id)) as [<-|Hne].
    + rewrite lookup_insert_eq, bool_decide_true by done.
      by destruct (of_entity (ev_entity_id e) events).
    + by rewrite lookup_insert_ne, bool_decide_false, app_nil_r.
Qed.

Lemma groups_add group events batch :
  groups group events → groups (group_add group batch) (events ++ batch).
Proof.
  unfold group_add. revert group events.
  induction batch as [|e batch IH]; intros group events Hg; simpl; [by rewrite app_nil_r|].
  replace (events ++ e :: batch) with ((events ++ [e]) ++ batch) by (by rewrite <-app_assoc).
  by apply IH, groups_event.
Qed.

Lemma take_ready_spec (f : EntityId → list SerializedEvent) order events :
  NoDup order → (∀ id, id ∈ order → events !! id = Some (f id)) →
  take_ready order events = map (λ id, (id, f id)) order.
Proof.
  revert events. induction order as [|id order IH]; intros events Hnd Hev; simpl; [done|].
  apply NoDup_cons in Hnd as [Hn Hnd]. rewrite (Hev id (list_elem_of_here _ _)). f_equal.
  apply IH; [done|]. intros id' Hin. rewrite lookup_delete_ne by (intros ->; done).
  by apply Hev, list_elem_of_further.
Qed.

Lemma groups_take group events :
  groups group events → group_take group = (grouped_by_entity events, Group_default).
Proof.
  intros [Ho He]. unfold group_take. f_equal. rewrite Ho.
  apply take_ready_spec; [apply first_seen_NoDup|]. intros id Hin.
  rewrite first_seen_elem in Hin. rewrite He. apply list_elem_of_fmap in Hin as (e & -> & Hin).
  destruct (of_entity (ev_entity_id e) events) as [|x l] eqn:Hf; [|done]. exfalso.
  apply (not_elem_of_nil e). rewrite <-Hf. by apply of_entity_elem.
Qed.

(** ** A scan *)

Section scan.
Context `{A : Aggregate} {E : Type → Type}.

(** A stream of the given batches. *)
Definition scanned (pages : list EventBatch) : Tree E (option (EventBatch * list EventBatch)) :=
  Ret match pages with [] => None | page :: pages => Some (page, pages) end.

Definition scan_entities (fuel n : nat) (pages : list EventBatch)
  : Tree E (list (Result Loaded) * bool) :=
  consume (next_entity scanned fuel) n
    (Some (entities_start false (λ _, pages) (StreamFilter_of_type ag_TYPE))).

Lemma consume_item {S T} (step : S → Tree E (option (T * S))) n state item state' items ended :
  step state = Ret (Some (item, state')) →
  consume step n (Some state') = Ret (items, ended) →
  consume step (Datatypes.S n) (Some state) = Ret (item :: items, ended).
Proof. intros Hs Hc. cbn [consume poll_next]. rewrite Hs. cbn [bind]. by rewrite Hc. Qed.

Lemma consume_end {S T} (step : S → Tree E (option (T * S))) n state :
  step state = Ret None → consume step (Datatypes.S n) (Some state) = Ret ([], true).
Proof. intros Hs. cbn [consume poll_next]. by rewrite Hs. Qed.

(** What is ready is yielded in turn, and then the stream ends. *)
Lemma consume_ready {C} (batches : C → Tree E (option (EventBatch * C))) fuel ready events group grouping n :
  (length ready < n)%nat →
  consume (next_entity batches (S fuel)) n (Some (mkEntities events grouping group ready true)) =
  Ret (map (λ e, fold e.1 e.2) ready, true).
Proof.
  revert n. induction ready as [|[id es] ready IH]; intros [|n] Hn; simpl in Hn; try lia.
  - by apply consume_end.
  - eapply consume_item; [reflexivity|]. apply IH. lia.
Qed.

(** The pages of a scan that succeeds, all grouped before the first entity is yielded. *)
Lemma next_entity_scan pages : ∀ fuel group events,
  groups group events → (length pages + 1 < fuel)%nat →
  next_entity scanned fuel (mkEntities (Some (map Ok pages)) true group [] false) =
  Ret match grouped_by_entity (events ++ concat pages) with
      | [] => None
      | (id, es) :: ready => Some (fold id es, mkEntities None true Group_default ready true)
      end.
Proof.
  induction pages as [|page pages IH]; intros [|fuel] group events Hg Hf; simpl in Hf; try lia;
    cbn [next_entity en_ready en_finished en_events poll_next scanned map bind fst snd en_group en_grouping].
  - rewrite (groups_take _ _ Hg). cbn [fst snd concat]. rewrite app_nil_r.
    destruct fuel as [|fuel]; [lia|]. by destruct (grouped_by_entity events) as [|[id es] ready].
  - cbn [concat]. rewrite app_assoc. apply IH; [by apply groups_add|lia].
Qed.

(** A scan that fails yields the failure and ends. *)
Lemma next_entity_failed pages error rest : ∀ fuel group,
  (length pages < fuel)%nat →
  next_entity scanned fuel (mkEntities (Some (map Ok pages ++ Err error :: rest)) true group [] false) =
  Ret (Some (Err error, mkEntities (Some rest) true Group_default [] true)).
Proof.
  induction pages as [|page pages IH]; intros [|fuel] group Hf; simpl in Hf; try lia; [done|].
  cbn [next_entity en_ready en_finished en_events poll_next scanned map bind app].
  cbn [fst snd en_group en_grouping]. apply IH. lia.
Qed.

Lemma sequence_leb_total (a b : SerializedEvent) : sequence_leb a b = true ∨ sequence_leb b a = true.
Proof. unfold sequence_leb. lia. Qed.

Lemma sequence_leb_trans (a b c : SerializedEvent) :
  sequence_leb a b = true → sequence_leb b c = true → sequence_leb a c = true.
Proof. unfold sequence_leb. lia. Qed.

(** Events with distinct sequences have one sorted order. *)
Lemma fold_Permutation id l1 l2 :
  l1 ≡ₚ l2 → NoDup (map ev_sequence l1) → fold id l1 = fold id l2.
Proof.
  intros Hp Hnd. unfold fold. f_equal.
  apply (StronglySorted_Permutation_eq (λ a b, sequence_leb a b = true)).
  - intros x y Hx%elem_of_sort_by Hy%elem_of_sort_by Hxy Hyx. unfold sequence_leb in *.
    apply list_elem_of_lookup in Hx as [i Hi], Hy as [j Hj].
    assert (i = j) as ->; [|congruence].
    apply (NoDup_lookup _ _ _ (ev_sequence x) Hnd); rewrite list_lookup_fmap; [by rewrite Hi|].
    rewrite Hj. simpl. f_equal. lia.
  - apply sort_by_StronglySorted; [apply sequence_leb_total|apply sequence_leb_trans].
  - apply sort_by_StronglySorted; [apply sequence_leb_total|apply sequence_leb_trans].
  - by rewrite !sort_by_Permutation.
Qed.
(** ** The logs behind a scan *)

(** Every entity of [logs] has events, its own, numbered from one. *)
Definition logs_ok (logs : gmap EntityId (list SerializedEvent)) : Prop :=
  ∀ id log, logs !! id = Some log →
    log ≠ [] ∧ numbered 1 log ∧ Forall (λ e, ev_entity_id e = id) log.

(** All their events, in some order. *)
Definition all_events (logs : gmap EntityId (list SerializedEvent)) : list SerializedEvent :=
  concat (map snd (map_to_list logs)).

Lemma of_entity_self id log : Forall (λ e, ev_entity_id e = id) log → of_entity id log = log.
Proof.
  induction 1 as [|e log He _ IH]; [done|]. unfold of_entity in *. simpl.
  by rewrite bool_decide_true, IH.
Qed.

Lemma of_entity_concat (l : list (EntityId * list SerializedEvent)) id log :
  NoDup (map fst l) → Forall (λ p, Forall (λ e, ev_entity_id e = p.1) p.2) l →
  (id, log) ∈ l → of_entity id (concat (map snd l)) = log.
Proof.
  induction l as [|[id0 log0] l IH]; intros Hnd Hall Hin; [by apply not_elem_of_nil in Hin|].
  apply NoDup_cons in Hnd as [Hn Hnd]. apply Forall_cons in Hall as [H0 Hall]. simpl in *.
  rewrite of_entity_app. apply elem_of_cons in Hin as [[= -> ->]|Hin].
  - rewrite of_entity_self by done. rewrite of_entity_nil, app_nil_r; [done|].
    intros (e & -> & He)%list_elem_of_fmap. apply elem_of_concat in He as (log & He & Hlog).
    apply list_elem_of_fmap in Hlog as ([id' log'] & -> & Hin). rewrite Forall_forall in Hall.
    specialize (Hall _ Hin). rewrite Forall_forall in Hall. apply Hn. simpl in *.
    rewrite (Hall e He). by apply (list_elem_of_fmap_2 fst _ (id', log')).
  - rewrite (of_entity_nil id log0); [by apply IH|].
    intros (e & -> & He)%list_elem_of_fmap. rewrite Forall_forall in H0. rewrite (H0 e He) in Hin.
    apply Hn. by apply (list_elem_of_fmap_2 fst _ (id0, log)).
Qed.

Lemma all_events_of logs id log :
  logs_ok logs → logs !! id = Some log → of_entity id (all_events logs) = log.
Proof.
  intros Hok Hl. apply of_entity_concat; [apply NoDup_fst_map_to_list| |by apply elem_of_map_to_list].
  apply Forall_forall. intros [id' log'] Hin%elem_of_map_to_list. by apply (Hok id' log').
Qed.

Lemma all_events_ids logs id :
  logs_ok logs → id ∈ map ev_entity_id (all_events logs) ↔ id ∈ map fst (map_to_list logs).
Proof.
  intros Hok. rewrite !list_elem_of_fmap. split.
  - intros (e & -> & (log & He & Hlog)%elem_of_concat).
    apply list_elem_of_fmap in Hlog as ([id' log'] & -> & Hin). exists (id', log'). split; [|done].
    apply elem_of_map_to_list in Hin. destruct (Hok _ _ Hin) as (_ & _ & Hall).
    rewrite Forall_forall in Hall. by apply Hall.
  - intros ([id' log] & -> & Hin). simpl. pose proof Hin as Hin'. apply elem_of_map_to_list in Hin.
    destruct (Hok _ _ Hin) as (Hne & _ & Hall). destruct log as [|e log]; [done|].
    apply Forall_cons in Hall as [<- _]. exists e. split; [done|]. apply elem_of_concat.
    exists (e :: log). split; [apply list_elem_of_here|].
    by apply (list_elem_of_fmap_2 snd _ (ev_entity_id e, e :: log)).
Qed.

Lemma of_entity_Permutation id l1 l2 : l1 ≡ₚ l2 → of_entity id l1 ≡ₚ of_entity id l2.
Proof.
  unfold of_entity. induction 1 as [|x l1 l2 _ IH|x y l|l1 l2 l3 _ IH1 _ IH2]; simpl; [done| | |by etrans].
  - destruct (bool_decide _); [by f_equiv|done].
  - destruct (bool_decide _), (bool_decide _); try done. apply Permutation_swap.
Qed.

Lemma numbered_in_order first events :
  numbered first events → StronglySorted (λ a b, sequence_leb a b = true) events.
Proof.
  revert first. induction events as [|e events IH]; intros first; [constructor|].
  intros [He Hn]. constructor; [by eapply IH|]. apply Forall_forall. intros e' Hin.
  destruct (numbered_elem _ _ _ Hn Hin) as [Hr _]. unfold sequence_leb. lia.
Qed.

(** A numbered log folds to its replay, in whatever order its events came. *)
Lemma fold_numbered id events log :
  events ≡ₚ log → numbered 1 log → fold id events = fold_result replay (loaded_new id) log.
Proof.
  intros Hp Hn. rewrite <-(fold_Permutation id log events); [|by symmetry|].
  - unfold fold. f_equal. apply sort_by_id. by eapply numbered_in_order.
  - apply NoDup_alt. intros i j k Hi Hj. rewrite list_lookup_fmap in Hi, Hj.
    destruct (log !! i) as [x|] eqn:Hx; [|done]. destruct (log !! j) as [y|] eqn:Hy; [|done].
    simpl in *. pose proof (numbered_lookup _ _ _ _ Hn Hx). pose proof (numbered_lookup _ _ _ _ Hn Hy).
    injection Hi as Hi. injection Hj as Hj. lia.
Qed.

End scan.

(** ** An example *)

Section witness.
#[local] Existing Instance sample_json.
#[local] Existing Instance text_aggregate.

Definition text_event (id : EntityId) (sequence : EventSequence) (payload : string)
  : SerializedEvent :=
  mkEvent (for_event id sequence) sequence "Appended" 1 id "Text" payload (text_metadata None).

Definition text_logs : gmap EntityId (list SerializedEvent) :=
  <["a" := [text_event "a" 1 "x"; text_event "a" 2 "y"]]> {["b" := [text_event "b" 1 "z"]]}.

(** Three pages that split the log of one entity and deliver it backwards. *)
Definition text_pages : list (list SerializedEvent) :=
  [[text_event "a" 2 "y"]; [text_event "b" 1 "z"; text_event "a" 1 "x"]; []].

End witness.

(** * Enumerating the in-memory log while it is written

    [mem/enumerate.rs]: each poll locks the log, finds the next stream after the last one yielded,
    and lets go of the lock, so commits, snapshots and compactions run between polls. Whatever they
    do, the enumeration yields each entity at most once, in ID order, as the replay of its log at
    the moment it was read; and an entity that was there when the enumeration started is missed
    only if a compaction cut the start of its log off. *)

From S2P Require Import Rebuild.
From S2P Require Import RebuildBatch.
From S2P Require Import LogBackend MemBackend StoreLoad.

(** ** What other clients do to a log *)

(** The start of an entity's log has been compacted away. *)
Definition cut (s : MemStore) (id : EntityId) : Prop :=
  0 < st_head (stream_at (ms_streams s) id) ∧ st_events (stream_at (ms_streams s) id) !! 1 = None.

(** Any handle runs any operation. *)
Definition handle_step `{SerdeJson} (s s' : MemStore) : Prop :=
  ∃ h c, s' = mr_store (exec c (repository_of s h)).1.

(** An operation brings no old event back. *)
Definition op_forward {A} (o : Op A) : Prop :=
  ∀ r, let s := mr_store r in let s' := mr_store (o r).1 in
  store_ok s → ∀ id k, k ≤ st_head (stream_at (ms_streams s) id) →
    st_events (stream_at (ms_streams s) id) !! k = None →
    st_events (stream_at (ms_streams s') id) !! k = None.

Lemma silent_forward {A} (o : Op A) : op_silent o → op_forward o.
Proof.
  intros Ho r s s' Hok id k _ Hn. destruct (Ho r Hok) as [_ Hst]. destruct (Hst id) as [_ Hsub].
  by eapply lookup_weaken_None.
Qed.

Lemma guarded_forward {A B} (c : Result A) (k : A → Op B) :
  (∀ x, c = Ok x → op_forward (k x)) → op_forward (guarded c k).
Proof. intros Hk r s s' Hok. unfold s', guarded. destruct c; [by apply Hk|done]. Qed.

Lemma mem_write_forward {X} (streams : list (Commit X)) fences views outcome retention :
  Forall commit_ok streams → NoDup (map cm_entity_id streams) →
  op_forward (mem_write streams fences views outcome retention).
Proof.
  intros Hc Hnd r s s' Hok id k Hk Hn. unfold s'.
  destruct (mem_write _ _ _ _ _ r) as [r' res] eqn:Hw.
  destruct (mem_write_result _ _ _ _ _ _ _ _ Hw) as [(e & _ & [Hs _])|(_ & m & Hwr)]; simpl.
  { by rewrite Hs. }
  destruct (written_stream _ _ _ _ _ _ id Hwr (set_manifest_ok _ m Hok) Hc Hnd)
    as [(c & first & rest & last & Hin & Hid & Hev & Hl & Hfirst & Heq)|[_ Heq]].
  - unfold stream_at at 1. rewrite Heq. simpl st_events. rewrite Forall_forall in Hc.
    destruct (Hc c Hin) as [_ Hcok]. destruct (Hcok _ _ Hev) as (_ & Hnum & _).
    rewrite (insert_events_lookup _ _ _ _ Hnum). simpl in Hfirst. fold s in Hfirst.
    destruct (decide _) as [Hr|_]; [lia|done].
  - unfold stream_at at 1. rewrite Heq. done.
Qed.

Lemma exec_forward `{SerdeJson} c : op_forward (exec c).
Proof.
  destruct c; simpl.
  - apply guarded_forward. intros [] Hv. apply check_bind_ok in Hv as [Hv Hr].
    apply check_not_reserved_ok in Hr. destruct (_ && _); [apply silent_forward, pure_op_silent|].
    apply guarded_forward. intros [] _. apply mem_write_forward; [|apply NoDup_singleton].
    apply Forall_singleton. by apply validate_commit_ok.
  - apply guarded_forward. intros c' Hn%normalize_ok.
    destruct (transaction_is_empty c'); [apply silent_forward, pure_op_silent|].
    apply guarded_forward. intros [] _. apply mem_write_forward; [by eapply normalized_commit_ok|apply Hn].
  - exact (silent_forward _ (mem_put_snapshot_silent sn)).
  - exact (silent_forward _ (mem_compact_below_silent id through)).
  - by apply (silent_forward mem_accept_journal).
  - by apply (silent_forward (mem_update_manifest change)).
  - exact (silent_forward _ mem_initialize_silent).
  - apply (silent_forward (mem_begin_rebuild owner lease now)), guarded_silent. intros. apply rebuild_op_silent.
  - apply (silent_forward (mem_renew_rebuild lease extend now)), guarded_silent. intros. apply rebuild_op_silent.
  - apply (silent_forward (mem_end_rebuild lease)), guarded_silent. intros. apply rebuild_op_silent.
  - apply (silent_forward (mem_force_release_rebuild owner)), guarded_silent. intros. apply rebuild_op_silent.
  - exact (silent_forward _ (mem_write_rebuild_views_silent lease views now)).
  - by apply (silent_forward (mem_put_view row)), guarded_silent.
  - by apply (silent_forward (mem_delete_view pk sk)), guarded_silent.
Qed.

(** ** The log and its representation *)

Definition enum_inv (g : Abs * MemStore) : Prop :=
  refines g.1 g.2 ∧ store_ok g.2 ∧ ∀ id, numbered 1 (log_of g.1 id).

(** The log grows, and what was cut off stays so. *)
Definition enum_le (g g' : Abs * MemStore) : Prop :=
  abs_le g.1 g'.1 ∧ ∀ id, cut g.2 id → cut g'.2 id.

#[export] Instance enum_le_preorder : PreOrder enum_le.
Proof.
  split.
  - intros g. by split.
  - intros g1 g2 g3 [H1 C1] [H2 C2]. split; [by etrans|]. auto.
Qed.

(** A read of the streams. *)
#[export] Instance mem_streams : Handles StreamsCall MemStore :=
  λ B q s b s',
    s' = s ∧ match q in StreamsCall B return B → Prop with
             | QNextStream cursor => λ b, b = mem_next_stream s cursor
             end b.

#[export] Instance logged_streams : Handles StreamsCall (Abs * MemStore) :=
  λ B q g b g', g'.1 = g.1 ∧ performs q g.2 b g'.2.

Lemma handle_step_le `{SerdeJson} a s s' :
  enum_inv (a, s) → handle_step s s' → ∃ a', enum_inv (a', s') ∧ enum_le (a, s) (a', s').
Proof.
  intros (Hr & Hok & Hnum) (h & c & ->). simpl in *.
  destruct (exec_simulates c a (repository_of s h) Hr Hok) as (a' & Hs & Hr').
  exists a'. pose proof (exec_preserves c (repository_of s h) Hok) as Hok'.
  split; [split; [done|]; split; [done|]; by eapply abs_step_numbered|].
  pose proof (abs_step_le _ _ Hs) as Hle. split; [done|]. intros id [Hh Hn]. simpl in *. split.
  - destruct Hle as [Hlog _]. specialize (Hlog id). apply prefix_length in Hlog.
    rewrite (rf_head _ _ Hr') . rewrite (rf_head _ _ Hr) in Hh. unfold llen in *. lia.
  - apply (exec_forward c (repository_of s h) Hok); [|done]. simpl. lia.
Qed.

(** ** One read *)

Lemma stream_values_events s id stream :
  store_ok s → ms_streams s !! id = Some stream → stream_values stream = mem_events s id.
Proof.
  intros Hok Hl. unfold mem_events, mem_events_after, stream_values. rewrite Hl. f_equal.
  symmetry. apply filter_all, Forall_forall. intros [k e] Hin. simpl.
  apply elem_of_btree_entries in Hin.
  destruct (ok_streams _ Hok id stream Hl) as [Hst _].
  apply (so_event _ _ Hst) in Hin as [Hr _]. lia.
Qed.

Lemma stream_values_elem stream e :
  e ∈ stream_values stream ↔ ∃ k, st_events stream !! k = Some e.
Proof.
  unfold stream_values. rewrite list_elem_of_fmap. split.
  - intros ([k e'] & -> & Hin%elem_of_btree_entries). by exists k.
  - intros [k Hk]. exists (k, e). split; [done|]. by apply elem_of_btree_entries.
Qed.

Lemma first_value_head stream : first_value (st_events stream) = head (stream_values stream).
Proof. unfold first_value, stream_values. by destruct (btree_entries _ _). Qed.

(** A stored stream that holds events. *)
Lemma stream_read a s id stream :
  enum_inv (a, s) → ms_streams s !! id = Some stream → st_events stream ≠ ∅ →
  is_tail (log_of a id) 0 (stream_values stream) ∧ stream_values stream ≠ [] ∧
  Forall (λ e, ev_entity_id e = id) (stream_values stream) ∧
  (cut s id ∨ stream_values stream = log_of a id).
Proof.
  intros (Hr & Hok & Hnum) Hl Hne. simpl in *.
  destruct (ok_streams _ Hok id stream Hl) as [Hst _].
  assert (is_tail (log_of a id) 0 (stream_values stream)) as Htail.
  { rewrite (stream_values_events s id) by done. by apply read_is_tail. }
  apply map_choose in Hne as (k & e & Hk). pose proof (so_event _ _ Hst k e Hk) as [Hrange _].
  split; [done|]. split; [|split].
  - assert (e ∈ stream_values stream) as Hin by (apply stream_values_elem; by exists k).
    intros Hnil. rewrite Hnil in Hin. by apply not_elem_of_nil in Hin.
  - apply Forall_forall. intros e' [k' Hk']%stream_values_elem.
    apply (so_event _ _ Hst) in Hk' as (_ & _ & Hof). apply Hof.
  - destruct (st_events stream !! 1) as [e1|] eqn:H1.
    + right. destruct Htail as (n & _ & Hn & Htail).
      assert (e1 ∈ stream_values stream) as Hin by (apply stream_values_elem; by exists 1).
      rewrite Htail in Hin |- *. apply list_elem_of_lookup in Hin as [i Hi].
      rewrite lookup_drop in Hi. pose proof (numbered_lookup _ _ _ _ (Hnum id) Hi) as Hs.
      assert (ev_sequence e1 = 1) as Hs' by apply (so_event _ _ Hst 1 e1 H1).
      by replace (Z.to_nat n) with 0%nat by lia.
    + left. unfold cut, stream_at. rewrite Hl. simpl. split; [lia|done].
Qed.

(** The first entry that passes, of those in key order. *)
Lemma filter_first {V} (m : gmap EntityId V) (p : EntityId * V → bool) x rest :
  List.filter p (btree_entries string_leb m) = x :: rest →
  m !! x.1 = Some x.2 ∧ p x = true ∧
  ∀ id v, m !! id = Some v → p (id, v) = true → id = x.1 ∨ string_ltb x.1 id = true.
Proof.
  intros Hf.
  assert (x ∈ List.filter p (btree_entries string_leb m)) as Hx by (rewrite Hf; apply list_elem_of_here).
  apply elem_of_list_filter in Hx as [Hx Hp]. destruct x as [id0 v0].
  apply elem_of_btree_entries in Hx. split; [done|]. split; [done|]. intros id v Hl Hpv.
  assert ((id, v) ∈ List.filter p (btree_entries string_leb m)) as Hin.
  { apply elem_of_list_filter. split; [by apply elem_of_btree_entries|done]. }
  pose proof (StronglySorted_filter _ p _
    (btree_entries_sorted string_leb string_leb_total string_leb_trans m)) as Hs.
  rewrite Hf in Hin, Hs. apply elem_of_cons in Hin as [[= -> ->]|Hin]; [by left|]. right.
  apply StronglySorted_inv in Hs as [_ Hall]. rewrite Forall_forall in Hall.
  specialize (Hall _ Hin). simpl in *. rewrite string_ltb_leb. apply negb_true_iff.
  destruct (string_leb id id0) eqn:Hle; [|done]. exfalso.
  assert (id = id0) as -> by (by apply string_leb_antisym).
  pose proof (NoDup_map_filter fst p _ (btree_entries_NoDup string_leb m)) as Hnd.
  rewrite Hf in Hnd. apply NoDup_cons in Hnd as [Hnd _]. apply Hnd.
  by apply (list_elem_of_fmap_2 fst _ (id0, v)).
Qed.

(** An entity of the log that the enumeration is to yield. *)
Definition listed (filter : StreamFilter) (log : list SerializedEvent) (id : EntityId) : Prop :=
  is_reserved id = false ∧
  ∃ e, head log = Some e ∧ filter_matches filter (ev_entity_type e) = true.

Lemma listed_prefix filter l1 l2 id : l1 `prefix_of` l2 → listed filter l1 id → listed filter l2 id.
Proof. intros [k ->] (Hr & e & He & Hm). split; [done|]. exists e. by destruct l1. Qed.

Lemma enumerated_listed a s filter id stream :
  enum_inv (a, s) → ms_streams s !! id = Some stream → enumerated filter id stream = true →
  st_events stream ≠ ∅ ∧ listed filter (stream_values stream) id.
Proof.
  unfold enumerated. intros Hi Hl. rewrite !andb_true_iff, !negb_true_iff, bool_decide_eq_false.
  intros [[Hr Ht] Hne]. split; [done|]. split; [done|].
  unfold stream_entity_type in Ht. rewrite first_value_head in Ht.
  destruct (stream_read a s id stream Hi Hl Hne) as (_ & Hv & _).
  destruct (stream_values stream) as [|e l]; [done|]. by exists e.
Qed.

(** An entity whose log is whole is found. *)
Lemma listed_enumerated a s filter id :
  enum_inv (a, s) → listed filter (log_of a id) id → ¬ cut s id →
  ∃ stream, ms_streams s !! id = Some stream ∧ enumerated filter id stream = true.
Proof.
  intros Hi (Hr & e & He & Hm) Hcut. pose proof Hi as (Href & Hok & Hnum). simpl in *.
  assert (0 < st_head (stream_at (ms_streams s) id)) as Hhead.
  { rewrite (rf_head _ _ Href). unfold log_of in He. unfold llen.
    destruct (log_at (ab_log a) id); [done|simpl; lia]. }
  unfold stream_at in Hhead. destruct (ms_streams s !! id) as [stream|] eqn:Hl; [|done].
  exists stream. split; [done|].
  assert (st_events stream ≠ ∅) as Hne.
  { intros Hemp. apply Hcut. unfold cut, stream_at. rewrite Hl. simpl. by rewrite Hemp. }
  destruct (stream_read a s id stream Hi Hl Hne) as (_ & _ & _ & [Hc|Hv]); [done|].
  unfold enumerated, stream_entity_type. rewrite first_value_head, Hv, He, Hr, Hm.
  by rewrite bool_decide_false.
Qed.

(** What a poll answers. *)
Definition found_in (g : Abs * MemStore) (cursor : Cursor)
    (found : option (EntityId * list SerializedEvent)) : Prop :=
  match found with
  | None => ∀ id, above (cu_after cursor) id = true → listed (cu_filter cursor) (log_of g.1 id) id → cut g.2 id
  | Some (id, events) =>
      above (cu_after cursor) id = true ∧ is_tail (log_of g.1 id) 0 events ∧
      listed (cu_filter cursor) events id ∧ Forall (λ e, ev_entity_id e = id) events ∧
      (cut g.2 id ∨ events = log_of g.1 id) ∧
      ∀ id', above (cu_after cursor) id' = true → listed (cu_filter cursor) (log_of g.1 id') id' →
        cut g.2 id' ∨ id' = id ∨ string_ltb id id' = true
  end.

Lemma next_stream_found g cursor : enum_inv g → found_in g cursor (mem_next_stream g.2 cursor).
Proof.
  destruct g as [a s]. intros Hi. unfold mem_next_stream, found_in.
  destruct (List.filter _ _) as [|[id stream] rest] eqn:Hf; cbn [fst snd].
  - intros id Hab Hlist. destruct (decide (cut s id)) as [|Hc]; [done|]. exfalso.
    destruct (listed_enumerated a s _ id Hi Hlist Hc) as (stream & Hl & He).
    apply (not_elem_of_nil (id, stream)). rewrite <-Hf. apply elem_of_list_filter.
    split; [by apply elem_of_btree_entries|]. simpl. by rewrite Hab, He.
  - apply filter_first in Hf as (Hl & Hp & Hrest). simpl in *. apply andb_prop in Hp as [Hab He].
    destruct (enumerated_listed a s _ id stream Hi Hl He) as [Hne Hlist].
    destruct (stream_read a s id stream Hi Hl Hne) as (Ht & _ & Hall & Hcut).
    do 5 (split; [done|]). intros id' Hab' Hlist'.
    destruct (decide (cut s id')) as [|Hc]; [by left|right].
    destruct (listed_enumerated a s _ id' Hi Hlist' Hc) as (stream' & Hl' & He').
    apply (Hrest id' stream' Hl'). by rewrite Hab', He'.
Qed.

(** ** The whole enumeration *)

Section reader.
Context `{A : Aggregate}.
Implicit Types g : Abs * MemStore.

Abbreviation reads p Q g := (assures enum_inv (anyone enum_le) p Q g).

(** Between two entities nothing is held but the cursor. *)
Definition at_cursor (cursor : Cursor) : Entities Cursor :=
  mkEntities (Some cursor) false Group_default [] false.

Lemma group_one id events :
  events ≠ [] → Forall (λ e, ev_entity_id e = id) events →
  group_take (group_add Group_default events) = ([(id, events)], Group_default).
Proof.
  intros Hne Hall.
  rewrite (groups_take _ _ (groups_add _ _ events groups_default)). f_equal. cbn [app].
  unfold grouped_by_entity.
  assert (first_seen (map ev_entity_id events) = [id]) as ->.
  2: { simpl. by rewrite of_entity_self. }
  destruct events as [|e events]; [done|]. apply Forall_cons in Hall as [<- Hall]. clear Hne.
  unfold first_seen. simpl. unfold see at 2. rewrite bool_decide_false by apply not_elem_of_nil. simpl.
  induction Hall as [|e' events He _ IH]; [done|]. simpl. unfold see at 2.
  rewrite bool_decide_true by (rewrite He; apply list_elem_of_here). done.
Qed.

Lemma next_entity_mem cursor fuel g :
  enum_inv g →
  reads (next_entity mem_next_batch (S (S fuel)) (at_cursor cursor))
    (λ r g', match r with
             | None => found_in g' cursor None
             | Some (item, state) => ∃ id events,
                 found_in g' cursor (Some (id, events)) ∧ item = fold id events ∧
                 state = at_cursor (mkCursor (Some id) (cu_filter cursor))
             end) g.
Proof.
  intros Hg. remember (S fuel) as rest eqn:Hrest. unfold at_cursor at 1.
  cbn [next_entity en_ready en_finished en_events poll_next en_group en_grouping].
  unfold mem_next_batch at 1. do 3 step_bind. apply assures_call; [apply _|done|].
  intros g1 b g2 Hg1 _ [Heq [Hs Hb]]. assert (g2 = g1) as -> by (destruct g1, g2; simpl in *; congruence).
  split; [done|]. split; [simpl; reflexivity|]. pose proof (next_stream_found g1 cursor Hg1) as Hfound.
  rewrite <-Hb in Hfound. returns. returns. subst rest.
  destruct b as [[id events]|]; cbn [fst snd].
  - rewrite (group_one id events).
    + cbn [next_entity en_ready fst snd en_events en_group en_finished en_grouping]. returns. by exists id, events.
    + destruct Hfound as (_ & _ & (_ & e & He & _) & _). by destruct events.
    + by destruct Hfound as (_ & _ & _ & Hall & _).
  - cbn [next_entity en_ready fst snd en_finished]. by returns.
Qed.

(** An item: the fold of an entity's log as it was at some moment of the enumeration, whole
    unless its start has been cut off by the end. *)
Definition yielded (filter : StreamFilter) g g' (id : EntityId) (item : Result Loaded) : Prop :=
  ∃ a events, abs_le g.1 a ∧ abs_le a g'.1 ∧ is_tail (log_of a id) 0 events ∧
    listed filter events id ∧ (cut g'.2 id ∨ events = log_of a id) ∧ item = fold id events.

Definition enumerates (filter : StreamFilter) (after : option EntityId) g
    (r : list (Result Loaded) * bool) g' : Prop :=
  ∃ ids, Forall2 (yielded filter g g') ids r.1 ∧
    StronglySorted (λ x y, string_ltb x y = true) ids ∧
    Forall (λ id, above after id = true) ids ∧
    (r.2 = true → ∀ id, above after id = true → listed filter (log_of g.1 id) id →
       cut g'.2 id ∨ id ∈ ids).

Lemma yielded_later filter g g1 g2 g3 id item :
  enum_le g g1 → enum_le g2 g3 → yielded filter g1 g2 id item → yielded filter g g3 id item.
Proof.
  intros [Hle _] [Hle' Hcut] (a & events & H1 & H2 & Ht & Hl & Hc & Hi). exists a, events.
  split; [by etrans|]. split; [by etrans|]. do 2 (split; [done|]). split; [|done].
  destruct Hc; [left; auto|by right].
Qed.

Lemma enumerates_later filter after g r g1 g2 :
  enum_le g1 g2 → enumerates filter after g r g1 → enumerates filter after g r g2.
Proof.
  intros Hle (ids & Hy & Hs & Ha & Hall). exists ids. split; [|split; [done|split; [done|]]].
  - eapply Forall2_impl; [exact Hy|]. intros id item. by apply yielded_later.
  - intros He id Hab Hl. destruct (Hall He id Hab Hl); [left; by apply Hle|by right].
Qed.

Lemma above_trans after id id' :
  above after id = true → string_ltb id id' = true → above after id' = true.
Proof.
  destruct after as [x|]; [|done]. simpl. intros H1 H2.
  eapply string_ltb_trans_leb; [exact H1|]. by apply string_ltb_le.
Qed.

Lemma consume_mem filter fuel n : ∀ after g,
  enum_inv g →
  reads (consume (next_entity mem_next_batch (S (S fuel))) n (Some (at_cursor (mkCursor after filter))))
    (enumerates filter after g) g.
Proof.
  induction n as [|n IH]; intros after g Hg; cbn [consume poll_next].
  { returns. exists []. split; [constructor|]. split; [constructor|]. by split; [constructor|]. }
  do 2 step_bind. eapply assures_mono; [|by apply next_entity_mem].
  intros [[item state]|] g1 Hg1 Hle1 Hr; returns.
  - destruct Hr as (id & events & (Hab & Ht & Hl & _ & Hcut & Hrest) & -> & ->).
    cbn [cu_after cu_filter] in *. step_bind. eapply assures_mono; [|by apply IH].
    intros [items ended] g2 Hg2 Hle2 (ids & Hy & Hs & Ha & Hall). returns. cbn [fst snd] in *.
    exists (id :: ids). split; [|split; [|split]].
    + constructor; [|eapply Forall2_impl; [exact Hy|]; intros x y; by apply yielded_later].
      exists g1.1, events. split; [apply Hle1|]. split; [apply Hle2|]. do 2 (split; [done|]).
      split; [|done]. destruct Hcut; [left; by apply Hle2|by right].
    + constructor; [done|]. exact Ha.
    + constructor; [done|]. eapply Forall_impl; [exact Ha|]. intros x Hx. by eapply above_trans.
    + intros He id' Hab' Hl'.
      assert (listed filter (log_of g1.1 id') id') as Hl1 by (eapply listed_prefix, Hl'; apply Hle1).
      destruct (Hrest id' Hab' Hl1) as [Hc|[->|Hlt]].
      * left. by apply Hle2.
      * right. apply list_elem_of_here.
      * destruct (Hall He id' Hlt) as [Hc|Hin]; [|by left|right; by apply list_elem_of_further].
        done.
  - returns. exists []. split; [constructor|]. split; [constructor|]. split; [constructor|].
    intros _ id Hab Hl. left. apply (Hr id Hab). eapply listed_prefix, Hl. apply Hle1.
Qed.

(** ** Alone *)

(** A reader of a store nobody writes. *)
Fixpoint run_streams {B} (s : MemStore) (p : Tree StreamsCall B) : option B :=
  match p with
  | Ret b => Some b
  | Ask q k =>
      match q in StreamsCall C return (C → option B) → option B with
      | QNextStream cursor => λ k, k (mem_next_stream s cursor)
      end (λ c, run_streams s (k c))
  | Panic | OutOfFuel => None
  end.

(** The streams still ahead of a cursor. *)
Definition ahead (s : MemStore) (cursor : Cursor) : list (EntityId * Stream) :=
  List.filter (λ e, above (cu_after cursor) e.1 && enumerated (cu_filter cursor) e.1 e.2)
    (btree_entries string_leb (ms_streams s)).

Lemma ahead_next s cursor x rest :
  ahead s cursor = x :: rest → ahead s (mkCursor (Some x.1) (cu_filter cursor)) = rest.
Proof.
  intros Hf. pose proof (filter_first _ _ _ _ Hf) as (Hl & Hp & Hrest).
  pose proof (btree_entries_sorted string_leb string_leb_total string_leb_trans (ms_streams s)) as Hs.
  pose proof (NoDup_map_filter fst (λ e, above (cu_after cursor) e.1 && enumerated (cu_filter cursor) e.1 e.2) _
    (btree_entries_NoDup string_leb (ms_streams s))) as Hnd.
  pose proof (StronglySorted_filter _ (λ e, above (cu_after cursor) e.1 && enumerated (cu_filter cursor) e.1 e.2) _ Hs) as Hs'.
  unfold ahead in Hf |- *. rewrite Hf in Hnd, Hs'. cbn [cu_after cu_filter above].
  apply StronglySorted_inv in Hs' as [Hs' _]. apply NoDup_cons in Hnd as [Hx Hnd].
  apply (StronglySorted_Permutation_eq (λ a b : EntityId * Stream, string_leb a.1 b.1 = true)).
  - intros [i v] [j w] H1 H2 H3 H4. simpl in *. assert (i = j) as -> by (by apply string_leb_antisym).
    apply elem_of_list_filter in H1 as [H1 _], H2 as [H2 _]. apply elem_of_btree_entries in H1, H2. congruence.
  - by apply StronglySorted_filter.
  - done.
  - apply NoDup_Permutation.
    + eapply NoDup_fmap_1 with (f := fst). apply NoDup_map_filter, btree_entries_NoDup.
    + by eapply NoDup_fmap_1 with (f := fst).
    + intros y. rewrite elem_of_list_filter. simpl. rewrite andb_true_iff. split.
      * intros (Hin & Hlt & He). assert (y ∈ x :: rest) as Hy.
        { rewrite <-Hf. apply elem_of_list_filter. split; [done|]. rewrite He, andb_true_r.
          apply andb_prop in Hp as [Hab _]. by eapply above_trans. }
        apply elem_of_cons in Hy as [->|Hy]; [|done].
        rewrite string_ltb_leb, negb_true_iff in Hlt. by destruct (string_leb_total x.1 x.1); congruence.
      * intros Hy. assert (y ∈ x :: rest) as Hin by (by apply list_elem_of_further). rewrite <-Hf in Hin.
        apply elem_of_list_filter in Hin as [Hin Hpy]. split; [done|]. destruct y as [id v].
        rewrite elem_of_btree_entries in Hin. destruct (Hrest id v Hin Hpy) as [Heq|Hlt].
        -- simpl in Heq. subst id. destruct Hx. by apply (list_elem_of_fmap_2 fst _ (x.1, v)).
        -- split; [done|]. by apply andb_prop in Hpy as [_ He].
Qed.

Lemma run_streams_bind {B C} s (p : Tree StreamsCall B) (f : B → Tree StreamsCall C) :
  run_streams s (bind p f) =
  match run_streams s p with Some b => run_streams s (f b) | None => None end.
Proof.
  induction p as [b|D q k IH| |]; cbn [bind run_streams]; [done| |done|done].
  destruct q. apply IH.
Qed.

Lemma run_next_entity a s cursor fuel :
  enum_inv (a, s) →
  run_streams s (next_entity mem_next_batch (S (S fuel)) (at_cursor cursor)) =
  Some match ahead s cursor with
       | [] => None
       | e :: _ => Some (fold e.1 (stream_values e.2),
           at_cursor (mkCursor (Some e.1) (cu_filter cursor)))
       end.
Proof.
  intros Hi. remember (S fuel) as rest eqn:Hrest. unfold at_cursor at 1.
  cbn [next_entity en_ready en_finished en_events poll_next en_group en_grouping].
  unfold mem_next_batch at 1. cbn [bind run_streams call]. unfold mem_next_stream.
  fold (ahead s cursor). subst rest. destruct (ahead s cursor) as [|[id stream] l] eqn:Hf; cbn [fst snd bind].
  - done.
  - pose proof (filter_first _ _ _ _ Hf) as (Hl & [_ He]%andb_prop & _). simpl in Hl, He.
    destruct (enumerated_listed a s _ id stream Hi Hl He) as [Hne _].
    destruct (stream_read a s id stream Hi Hl Hne) as (_ & Hv & Hall & _).
    rewrite (group_one id (stream_values stream) Hv Hall). done.
Qed.

Lemma run_consume a s fuel n : ∀ cursor,
  enum_inv (a, s) → (length (ahead s cursor) < n)%nat →
  run_streams s (consume (next_entity mem_next_batch (S (S fuel))) n (Some (at_cursor cursor))) =
  Some (map (λ e, fold e.1 (stream_values e.2)) (ahead s cursor), true).
Proof.
  induction n as [|n IH]; intros cursor Hi Hn; [lia|]. cbn [consume poll_next].
  rewrite !run_streams_bind, (run_next_entity a s cursor fuel Hi).
  destruct (ahead s cursor) as [|x rest] eqn:Hf; cbn [run_streams bind]; [done|].
  pose proof (ahead_next s cursor x rest Hf) as Hnext.
  rewrite run_streams_bind, IH, Hnext; [done|done|]. rewrite Hnext. simpl in Hn. lia.
Qed.
End reader.

(** ** What an item is *)

Section items.
Context `{A : Aggregate} `{!AggregateLaws A}.

Lemma fold_replay_last events : ∀ loaded loaded',
  fold_result replay loaded events = Ok loaded' →
  ld_sequence loaded' = match last events with
                        | Some e => ev_sequence e
                        | None => ld_sequence loaded
                        end.
Proof.
  induction events as [|e events IH]; intros loaded loaded'; simpl; [by intros [= <-]|].
  destruct (replay loaded e) as [next_loaded|] eqn:Hr; [|done]. simpl. intros Hf.
  rewrite (IH _ _ Hf). apply replay_ok in Hr as (_ & _ & Hs & _).
  rewrite last_cons. by destruct (last events).
Qed.

Lemma numbered_prefix first l1 l2 : l1 `prefix_of` l2 → numbered first l2 → numbered first l1.
Proof. intros [k ->]. rewrite numbered_app. by intros [? _]. Qed.

(** A tail of a log is in order already. *)
Lemma fold_tail id log events :
  numbered 1 log → is_tail log 0 events →
  fold id events = fold_result replay (loaded_new id) events.
Proof.
  intros Hn (k & _ & Hk & ->). unfold fold. f_equal. apply sort_by_id.
  rewrite <-(take_drop (Z.to_nat k) log), numbered_app in Hn. destruct Hn as [_ Hn].
  by eapply numbered_in_order.
Qed.

(** A tail that folds is the whole log. *)
Lemma fold_tail_ok id log events loaded :
  numbered 1 log → is_tail log 0 events → events ≠ [] → fold id events = Ok loaded →
  loaded_ok log id loaded ∧ ld_sequence loaded = llen log.
Proof.
  intros Hn Ht Hne Hf. rewrite (fold_tail id log events Hn Ht) in Hf. split.
  - apply (replay_tail log id events (loaded_new id)); [done| |exact Ht|exact Hf]. split; [done|unfold llen; simpl; lia|done].
  - rewrite (fold_replay_last _ _ _ Hf). destruct Ht as (k & _ & Hk & ->).
    destruct (last (drop (Z.to_nat k) log)) as [e|] eqn:Hl; [|by apply last_None in Hl].
    rewrite last_lookup, lookup_drop, length_drop in Hl.
    pose proof (numbered_lookup _ _ _ _ Hn Hl) as Hs. pose proof (lookup_lt_Some _ _ _ Hl) as Hlt.
    unfold llen. assert (length (drop (Z.to_nat k) log) ≠ 0)%nat as Hd by (by destruct (drop _ log)).
    rewrite length_drop in Hd. lia.
Qed.

(** ** Properties *)

Context `{SerdeJson}.

Definition stream_entities (fuel n : nat) (filter : StreamFilter)
  : Tree StreamsCall (list (Result Loaded) * bool) :=
  consume (next_entity mem_next_batch (S (S fuel))) n
    (Some (entities_start MEM_BATCHES_BY_ENTITY mem_stream_all_events filter)).

(** C20. Enumeration under writes. While any handles commit, snapshot, compact and rebuild between
    its polls, a consumer of the stream of entities never gets stuck; the items it gets are for
    distinct entities outside the reserved namespaces, in ascending ID order; an item that is an
    aggregate is the replay of its entity's log up to a moment of the enumeration, so it misses
    nothing that was committed before the enumeration started; and when the stream has ended, every
    entity of the wanted type that the log held at the start was yielded, unless a compaction has
    cut off the start of its log. *)
Theorem enumeration_covers_the_log (filter : StreamFilter) (fuel n : nat) (a : Abs)
    (s s' : MemStore) (p : Tree StreamsCall (list (Result Loaded) * bool)) :
  enum_inv (a, s) →
  rtc (pool_step handle_step) (s, [stream_entities fuel n filter]) (s', [p]) →
  p ≠ Panic ∧ p ≠ OutOfFuel ∧
  ∃ a', enum_inv (a', s') ∧ abs_le a a' ∧
  ∀ items ended, p = Ret (items, ended) →
  ∃ ids, StronglySorted (λ x y, string_ltb x y = true) ids ∧
    Forall (λ id, is_reserved id = false) ids ∧
    Forall2 (λ id item,
      (cut s' id ∨ ∃ a1, abs_le a a1 ∧ abs_le a1 a' ∧
         item = fold_result replay (loaded_new id) (log_of a1 id)) ∧
      ∀ loaded, item = Ok loaded →
        loaded_ok (log_of a' id) id loaded ∧ llen (log_of a id) ≤ ld_sequence loaded) ids items ∧
    (ended = true → ∀ id, listed (entities_filter filter) (log_of a id) id → id ∈ ids ∨ cut s' id).
Proof.
  intros Hi Hrtc.
  destruct (assures_pool snd enum_inv (λ _, logged_streams) (λ _, anyone enum_le) handle_step
    (λ _ r g, enumerates (entities_filter filter) None (a, s) r g))
    with (g := (a, s)) (ps := [stream_entities fuel n filter]) (w' := s') (ps' := [p])
    as ([a' s''] & Heq & Hi' & Hle & Hends); [| | | |done| |done|].
  - intros _ [a1 s1] B q b s2 _ Hq. exists (a1, s2). by split.
  - intros [a1 s1] s2 Hi1 Hs. destruct (handle_step_le a1 s1 s2 Hi1 Hs) as (a2 & Hi2 & Hle2).
    by exists (a2, s2).
  - done.
  - intros _ r x y _ _ Hxy. by apply enumerates_later.
  - intros [|i] q; [|done]. intros [= <-]. by apply consume_mem.
  - simpl in Heq. subst s''. specialize (Hends 0%nat p eq_refl).
    split; [by intros ->|]. split; [by intros ->|]. exists a'. split; [done|]. split; [apply Hle|].
    intros items ended ->. destruct Hends as [_ (ids & Hy & Hs & _ & Hall)]. exists ids. split; [done|].
    cbn [fst snd] in *. split; [|split].
    + apply Forall_forall. intros id Hin. destruct (elem_of_Forall2_l _ _ _ _ Hy Hin) as (item & _ & Hyd).
      by destruct Hyd as (? & ? & _ & _ & _ & [Hr _] & _).
    + eapply Forall2_impl; [exact Hy|]. intros id item (a1 & events & H1 & H2 & Ht & Hl & Hc & ->).
      simpl in H1, H2. assert (events ≠ []) as Hne by (destruct Hl as (_ & e & He & _); by destruct events).
      assert (numbered 1 (log_of a1 id)) as Hn by (eapply numbered_prefix; [apply H2|apply Hi']).
      split.
      * destruct Hc as [Hc| ->]; [by left|right]. exists a1. split; [done|]. split; [done|].
        by eapply fold_tail.
      * intros loaded Hf. destruct (fold_tail_ok id _ events loaded Hn Ht Hne Hf) as [Hok Hseq].
        split; [eapply loaded_ok_prefix, Hok; apply H2|]. rewrite Hseq. unfold llen.
        destruct H1 as [H1 _]. apply inj_le, prefix_length, H1.
    + intros He id Hl. destruct (Hall He id eq_refl Hl); [by right|by left].
Qed.

(** Enumeration alone. On a log nobody writes meanwhile, the stream of entities ends after as
    many polls as there are streams to yield, and what it yields is exactly the fold of every
    stream of the wanted type outside the reserved namespaces that holds events, in ascending ID
    order. *)
Theorem enumeration_alone_is_exact (filter : StreamFilter) (fuel n : nat) (a : Abs) (s : MemStore) :
  enum_inv (a, s) → (size (ms_streams s) < n)%nat →
  run_streams s (stream_entities fuel n filter) =
  Some (map (λ e, fold e.1 (stream_values e.2))
          (List.filter (λ e, enumerated (entities_filter filter) e.1 e.2)
            (btree_entries string_leb (ms_streams s))), true).
Proof.
  intros Hi Hn. unfold stream_entities. apply (run_consume a s fuel n); [done|].
  eapply Nat.le_lt_trans, Hn. etrans; [apply List.filter_length_le|].
  unfold btree_entries. by rewrite sort_by_length, length_map_to_list.
Qed.
End items.

Lemma abs_steps_numbered a a' :
  rtc abs_step a a' → (∀ id, numbered 1 (log_of a id)) → ∀ id, numbered 1 (log_of a' id).
Proof.
  induction 1 as [|x y z Hs _ IH]; [done|]. intros Hn. apply IH. by eapply abs_step_numbered.
Qed.

(** ** Examples *)

(** What happens next: the reader makes its next call, or a handle runs an operation. *)
Inductive EnumTurn := ReaderTurn | HandleTurn (c : mem_call).

Section schedule.
Context `{SerdeJson} {B : Type}.

Definition enum_turn (x : MemStore * Tree StreamsCall B) (t : EnumTurn) : MemStore * Tree StreamsCall B :=
  match t with
  | HandleTurn c => (mr_store (exec c (repository_of x.1 (handle_of mem_new))).1, x.2)
  | ReaderTurn =>
      match x.2 with
      | Ask q k =>
          (x.1, match q in StreamsCall C return (C → Tree StreamsCall B) → Tree StreamsCall B with
                | QNextStream cursor => λ k, k (mem_next_stream x.1 cursor)
                end k)
      | _ => x
      end
  end.

Lemma enum_turns_steps ts x :
  rtc (pool_step handle_step) (x.1, [x.2])
    ((fold_left enum_turn ts x).1, [(fold_left enum_turn ts x).2]).
Proof.
  revert x. induction ts as [|t ts IH]; intros [s p]; [reflexivity|]. simpl fold_left.
  etransitivity; [|apply IH]. destruct t as [|c]; simpl.
  - destruct p as [b|C q k| |]; try reflexivity. destruct q as [cursor]. apply rtc_once.
    by apply (pool_call handle_step s [Ask (QNextStream cursor) k] 0 _ (QNextStream cursor) k (mem_next_stream s cursor) s).
  - apply rtc_once, pool_env. by eexists _, _.
Qed.
End schedule.

Section witness.
#[local] Existing Instance sample_json.
#[local] Existing Instance text_aggregate.

Definition texts_commit (id : EntityId) (sequences : list (EventSequence * string)) : Commit Empty_set :=
  commit_new id (map (λ e, text_event id e.1 e.2) sequences).

Definition text_calls : list mem_call :=
  [CCommit (texts_commit "a" [(1, "x"%string)]); CCommit (texts_commit "b" [(1, "z"%string)])].

Definition text_store : MemStore := sy_store (run text_calls).

Lemma text_store_inv : ∃ a, enum_inv (a, text_store) ∧ listed (StreamFilter_of_type "Text") (log_of a "b") "b".
Proof.
  pose proof (run_reach text_calls) as Hreach. destruct (reach_refines _ _ Hreach) as (a & Hrtc & Hr).
  assert (enum_inv (a, text_store)) as Hi.
  { split; [done|]. split; [by eapply reach_ok|]. simpl. clear Hr Hreach.
    apply (abs_steps_numbered abs_initial a Hrtc). intros id.
    change (numbered 1 (default [] ((∅ : gmap EntityId (list SerializedEvent)) !! id))).
    by rewrite lookup_empty. }
  exists a. split; [done|]. split; [by vm_compute|]. exists (text_event "b" 1 "z"). split; [|by vm_compute].
  pose proof (rf_event _ _ Hr "b" 1 (text_event "b" 1 "z")) as He.
  unfold log_of. rewrite head_lookup. apply He. vm_compute. reflexivity.
Qed.

(** A consumer of five polls: after the first entity is read, events are committed to it, to the
    one ahead and to a new one. *)
Definition text_turns : list EnumTurn :=
  [ReaderTurn; HandleTurn (CCommit (texts_commit "a" [(2, "late"%string)]));
   HandleTurn (CCommit (texts_commit "b" [(2, "w"%string)]));
   HandleTurn (CCommit (texts_commit "c" [(1, "new"%string)]));
   ReaderTurn; ReaderTurn; ReaderTurn].

Definition text_run : MemStore * Tree StreamsCall (list (Result Loaded) * bool) :=
  fold_left enum_turn text_turns (text_store, stream_entities 0 5 StreamFilter_all).

Lemma enumeration_covers_the_log_witness :
  text_run.2 = Ret ([Ok (mkLoaded "a" "x"%string 1 0 ∅); Ok (mkLoaded "b" "zw"%string 2 0 ∅);
                     Ok (mkLoaded "c" "new"%string 1 0 ∅)], true) ∧
  ∃ ids, StronglySorted (λ x y, string_ltb x y = true) ids ∧ length ids = 3%nat ∧ "b"%string ∈ ids.
Proof.
  assert (text_run.2 = Ret ([Ok (mkLoaded "a" "x"%string 1 0 ∅); Ok (mkLoaded "b" "zw"%string 2 0 ∅);
    Ok (mkLoaded "c" "new"%string 1 0 ∅)], true)) as Hrun by (vm_compute; reflexivity).
  split; [exact Hrun|]. destruct text_store_inv as (a & Hi & Hb).
  destruct (enumeration_covers_the_log StreamFilter_all 0 5 a text_store text_run.1 text_run.2 Hi
    (enum_turns_steps text_turns (text_store, stream_entities 0 5 StreamFilter_all)))
    as (_ & _ & a' & _ & _ & Hall).
  destruct (Hall _ _ Hrun) as (ids & Hs & _ & Hitems & Hcomplete). exists ids. split; [exact Hs|].
  split; [by apply Forall2_length in Hitems|].
  destruct (Hcomplete eq_refl "b"%string Hb) as [Hin|[_ Hcut]]; [exact Hin|].
  exfalso. revert Hcut. vm_compute. discriminate.
Defined.

Lemma enumeration_alone_is_exact_witness :
  ∃ a, enum_inv (a, text_store) ∧
    run_streams text_store (stream_entities 0 3 StreamFilter_all) =
      Some ([Ok (mkLoaded "a" "x"%string 1 0 ∅); Ok (mkLoaded "b" "z"%string 1 0 ∅)], true).
Proof.
  destruct text_store_inv as (a & Hi & _). exists a. split; [exact Hi|].
  rewrite (enumeration_alone_is_exact StreamFilter_all 0 3 a text_store Hi); vm_compute; [reflexivity|lia].
Defined.
End witness.
