(* ===== verification/EnumerateSeeded.v ===== *)
(** * Enumerating from snapshots

    [EventLog::stream_entities_from_snapshots] on the in-memory repository: the IDs are listed once,
    and each entity is loaded from its snapshot and the events above it, as the store loads it. So
    a compacted entity comes out whole, where the stream of events alone would report a gap. *)

From S2P Require Import Prelude Types Features Outcome Rebuild Projection Repository Samples.
From S2P Require Import RebuildBatch Mem MemInvariant MemRefinement MemRead.
From S2P Require Import Retry Program Settle Store LogBackend MemBackend StoreLoad StoreOutcome.
From S2P Require Import Enumerate StoreSamples StoreSystem EnumerateMem.

(** ** Answers *)

Section answers.
Context `{SerdeJson}.

Definition heads_answer {B} (o : Oracle) (q : HeadsCall Empty_set B) (w : World) : World * B :=
  match q in HeadsCall _ B return World * B with
  | HRepository q => mem_answer o q w
  | HEntityHeads entity_type => (w, Ok (mem_entity_heads (w_store w) entity_type))
  end.

#[export] Instance mem_heads : Handles (HeadsCall Empty_set) World :=
  λ B q w b w', ∃ o, 0 ≤ or_random o ∧ heads_answer o q w = (w', b).

(** One client running alone. *)
Fixpoint run_heads {A} (o : Oracle) (p : Tree (HeadsCall Empty_set) A) (w : World)
  : World * option A :=
  match p with
  | Ret a => (w, Some a)
  | Ask q k => let x := heads_answer o q w in run_heads o (k x.2) x.1
  | Panic | OutOfFuel => (w, None)
  end.

Lemma run_heads_bind {A B} o (p : Tree (HeadsCall Empty_set) A) (f : A → Tree (HeadsCall Empty_set) B) w :
  run_heads o (bind p f) w =
  match run_heads o p w with (w', Some a) => run_heads o (f a) w' | (w', None) => (w', None) end.
Proof. revert w. induction p as [a|C q k IH| |]; intros w; cbn [bind run_heads]; [done|apply IH|done|done]. Qed.

Lemma run_of_repository {A} o (p : Prog Empty_set A) w :
  run_heads o (of_repository p) w = run_prog o p w.
Proof.
  revert w. unfold of_repository. induction p as [a|C q k IH| |]; intros w; [done| |done|done].
  cbn [interpret call bind run_heads run_prog]. cbn [heads_answer]. apply IH.
Qed.
End answers.

(** ** The entities of a log *)

(** An entity with events, outside the reserved namespaces, whose stream is of the type. *)
Definition listed_as (s : MemStore) (a : Abs) (entity_type : EntityType) (id : EntityId) : Prop :=
  is_reserved id = false ∧ log_of a id ≠ [] ∧
  stream_entity_type (stream_at (ms_streams s) id) = Some entity_type.

Lemma StronglySorted_map {A B} (f : A → B) (R : B → B → Prop) l :
  StronglySorted (λ x y, R (f x) (f y)) l → StronglySorted R (map f l).
Proof.
  induction 1 as [|x l _ IH Hall]; constructor; [done|]. apply Forall_forall.
  intros y (z & -> & Hin)%list_elem_of_fmap. rewrite Forall_forall in Hall. by apply Hall.
Qed.

(** The IDs of [entity_heads], in order. *)
Definition head_ids (s : MemStore) (entity_type : EntityType) : list EntityId :=
  map fst (btree_entries string_leb (mem_entity_heads s (Some entity_type))).

Lemma head_ids_elem a s entity_type id :
  refines a s → store_ok s → id ∈ head_ids s entity_type ↔ listed_as s a entity_type id.
Proof.
  intros Hr Hok. unfold head_ids. rewrite list_elem_of_fmap.
  assert (log_of a id ≠ [] ↔ 0 < st_head (stream_at (ms_streams s) id)) as Hlog.
  { rewrite (rf_head _ _ Hr). fold (log_of a id). unfold llen. destruct (log_of a id); simpl; split; (lia || done). }
  unfold listed_as, stream_at in *. split.
  - intros ([id' h] & -> & Hin%elem_of_btree_entries). simpl in *. unfold mem_entity_heads in Hin.
    rewrite map_lookup_imap in Hin. destruct (ms_streams s !! id') as [st|] eqn:Hl; [|done]. simpl in *.
    destruct (_ && _) eqn:Hp in Hin; [|done]. rewrite !andb_true_iff, negb_true_iff, bool_decide_eq_true in Hp.
    destruct Hp as [[Hres Ht] Hd]. destruct (ok_streams _ Hok _ _ Hl) as [Hst _].
    rewrite (derived_head_ok _ _ Hst) in Hd. split; [done|]. split; [|done]. apply Hlog. lia.
  - intros (Hres & Hne & Ht). apply Hlog in Hne. destruct (ms_streams s !! id) as [st|] eqn:Hl; [|done].
    simpl in *. destruct (ok_streams _ Hok _ _ Hl) as [Hst _]. exists (id, st_head st). split; [done|].
    apply elem_of_btree_entries. unfold mem_entity_heads. rewrite map_lookup_imap, Hl. simpl.
    rewrite (derived_head_ok _ _ Hst), Hres, Ht, bool_decide_true by done. simpl.
    by destruct (Z.ltb_spec 0 (st_head st)); [|lia].
Qed.

(** ** Alone *)

Section alone.
Context `{SerdeJson} `{EntityKinds} `{A : Aggregate} `{!AggregateLaws A}.

(** An aggregate loaded at the end of its entity's log. *)
Definition loaded_whole (a : Abs) (id : EntityId) (item : Result Loaded) : Prop :=
  ∃ loaded, item = Ok loaded ∧ ld_entity_id loaded = id ∧
    ld_sequence loaded = llen (log_of a id) ∧ replay_log (log_of a id) = Some (ld_aggregate loaded).

Lemma load_aggregate_alone o a w id :
  kind id = A → store_inv (a, w) → llen (log_of a id) < i64_max → is_Some (replay_log (log_of a id)) →
  ∃ item, run_prog o (load_aggregate id) w = (w, Some item) ∧ loaded_whole a id item.
Proof.
  intros Hkind Hi Hmax Hsome. pose proof (Hkind : HasKind id A).
  destruct (load_attempts_alone o a w id (LOAD_ATTEMPTS - 1) Hi Hmax Hsome)
    as (l & k & Hrun & [Hid _ Hst] & Hlen).
  rewrite Hlen, take_ge in Hst by (unfold llen; lia).
  unfold load_aggregate, load_with_catch_up, try_bind. rewrite run_prog_bind, Hrun. simpl.
  exists (Ok l). split; [done|]. by exists l.
Qed.

Lemma consume_loaded o a w entity_type ids : ∀ n,
  store_inv (a, w) →
  Forall (λ id, kind id = A ∧ llen (log_of a id) < i64_max ∧ is_Some (replay_log (log_of a id))) ids →
  (length ids < n)%nat →
  ∃ items, run_heads o (consume next_seeded n (Some (mkSeeded entity_type (Some ids)))) w =
    (w, Some (items, true)) ∧ Forall2 (loaded_whole a) ids items.
Proof.
  induction ids as [|id ids IH]; intros [|n] Hi Hall Hn; simpl in Hn; try lia.
  { exists []. by split; [|constructor]. }
  apply Forall_cons in Hall as [(Hk & Hm & Hs) Hall].
  destruct (load_aggregate_alone o a w id Hk Hi Hm Hs) as (item & Hrun & Hw).
  destruct (IH n Hi Hall) as (items & Hitems & Hf); [lia|]. exists (item :: items).
  split; [|by constructor]. cbn [consume poll_next next_seeded se_ids next_loaded se_entity_type].
  rewrite !run_heads_bind, run_of_repository, Hrun. cbn [run_heads bind fst snd].
  by rewrite run_heads_bind, Hitems.
Qed.

(** C21. A seeded enumeration is complete. On a store nobody writes meanwhile, the stream from
    snapshots yields, in ascending ID order and exactly once, every entity of the wanted type that
    ever had an event, loaded at the end of its log, however much of that log has been compacted
    behind its snapshot; and then it ends. *)
Theorem seeded_enumeration_is_complete (o : Oracle) (filter : StreamFilter) (n : nat) (a : Abs)
    (w : World) :
  let entity_type := default ag_TYPE (sf_entity_type filter) in
  store_inv (a, w) →
  (∀ id, listed_as (w_store w) a entity_type id →
     kind id = A ∧ llen (log_of a id) < i64_max ∧ is_Some (replay_log (log_of a id))) →
  (length (head_ids (w_store w) entity_type) < n)%nat →
  ∃ ids items, run_heads o (consume next_seeded n (Some (seeded_start filter))) w =
      (w, Some (items, true)) ∧
    StronglySorted (λ x y, string_leb x y = true) ids ∧ NoDup ids ∧
    (∀ id, id ∈ ids ↔ listed_as (w_store w) a entity_type id) ∧
    Forall2 (loaded_whole a) ids items.
Proof.
  intros entity_type Hi Hall Hn. pose proof Hi as [(Hr & Hok & _) _].
  assert (∀ id, id ∈ head_ids (w_store w) entity_type ↔ listed_as (w_store w) a entity_type id) as Hids
    by (intros id; by apply head_ids_elem).
  destruct (consume_loaded o a w entity_type (head_ids (w_store w) entity_type) n Hi)
    as (items & Hrun & Hf); [|done|].
  { apply Forall_forall. intros id Hin. by apply Hall, Hids. }
  exists (head_ids (w_store w) entity_type), items. split; [|split; [|split; [|by split]]].
  - rewrite <-Hrun. by destruct n.
  - unfold head_ids. apply StronglySorted_map.
    apply btree_entries_sorted; [apply string_leb_total|apply string_leb_trans].
  - apply btree_entries_NoDup.
Qed.
End alone.

(** ** Beside other clients *)

(** What holds of a program in any case, and what holds of it if [P]. *)
Lemma wp_both {E W} `{!Handles E W} (rely guar : W → W → Prop) stops {A} (p : Tree E A) (P : Prop)
    (R Q : A → W → Prop) w :
  wp rely guar stops p R w → (P → wp rely guar stops p Q w) →
  wp rely guar stops p (λ a w', R a w' ∧ (P → Q a w')) w.
Proof.
  revert w. induction p as [a|B q k IH| |]; intros w; simpl; [done| |done|done].
  intros HR HQ w1 b w2 Hr Hp. destruct (HR w1 b w2 Hr Hp) as [Hg Hk]. split; [done|].
  apply IH; [done|]. intros HP. by destruct (HQ HP w1 b w2 Hr Hp).
Qed.

Section beside.
Context `{SerdeJson} `{EntityKinds} `{A : Aggregate} `{!AggregateLaws A}.
Implicit Types g : Abs * World.

#[export] Instance logged_heads : Handles (HeadsCall Empty_set) (Abs * World) :=
  λ B q g b g',
    match q in HeadsCall _ B return B → Prop with
    | HRepository q => λ b, performs q g b g'
    | HEntityHeads entity_type => λ b, g' = g ∧ b = Ok (mem_entity_heads (w_store g.2) entity_type)
    end b.

Abbreviation lists p Q g := (assures (E := HeadsCall Empty_set) store_inv (anyone log_grows) p Q g).

Lemma of_repository_wp {B} (p : Prog Empty_set B) (Q : B → Abs * World → Prop) rely guar stops g :
  wp rely guar stops p Q g → wp rely guar stops (of_repository p) Q g.
Proof.
  unfold of_repository. revert g. induction p as [b|C q k IH| |]; intros g; [done| |done|done].
  cbn [interpret call bind wp]. intros Hp g1 b g2 Hr Hq. destruct (Hp g1 b g2 Hr Hq) as [Hg Hk].
  split; [done|]. by apply IH.
Qed.

(** A load without a catch-up reads only. *)
Lemma load_once_reads id g : store_inv g → ensures store_inv (load_once id) (λ _ _, True) g.
Proof.
  intros Hg. unfold load_once. apply ensures_try, ensures_quiet; [done|done|].
  intros g1 [snapshot|e] g2 _ _ _ Hg2; [|done].
  destruct (loaded_from id snapshot) as [loaded|e]; [|by apply ensures_ret]. apply ensures_try.
  destruct snapshot; (apply ensures_quiet; [done|done|]); intros g3 [es|e] g4 _ _ _ Hg4; try done;
    by apply ensures_ret.
Qed.

Lemma load_aggregate_reads id g :
  store_inv g → ensures store_inv (load_aggregate id) (λ _ _, True) g.
Proof.
  intros Hg. unfold load_aggregate, load_with_catch_up. apply ensures_try.
  eapply ensures_mono with (Q := λ _ _, True).
  { intros [[l k]|e] g' Hg' _ _; [|done]. simpl. by apply ensures_ret. }
  generalize (LOAD_ATTEMPTS - 1)%nat as n. intros n. revert g Hg.
  induction n as [|n IH]; intros g Hg; cbn [load_attempts]; apply ensures_bind;
    (eapply ensures_mono; [|by apply load_once_reads]); intros [x|e] g' Hg' _ _;
    try (by apply ensures_ret). destruct (is_conflict e); [by apply IH|by apply ensures_ret].
Qed.

Definition seeded_item g' (id : EntityId) (item : Result Loaded) : Prop :=
  kind id = A → ∀ loaded, item = Ok loaded → loaded_ok (log_of g'.1 id) id loaded.

Lemma seeded_item_later g g' id item :
  abs_le g.1 g'.1 → seeded_item g id item → seeded_item g' id item.
Proof. intros Hle Hs Hk loaded Hl. eapply loaded_ok_prefix, (Hs Hk loaded Hl). apply Hle. Qed.

Lemma load_lists id g : store_inv g → lists (of_repository (load_aggregate id)) (λ r g', seeded_item g' id r) g.
Proof.
  intros Hg. apply of_repository_wp.
  pose proof (wp_both _ _ _ (load_aggregate id) (kind id = A) _ _ g (load_aggregate_reads id g Hg)
    (λ Hk, load_ensures id (HasKind0 := Hk) 0 g Hg)) as Hwp.
  eapply wp_mono, Hwp. intros r g' [(Hi & Hle & _) Hk]. split; [done|]. split; [done|].
  intros Hkind. by apply Hk.
Qed.

(** Every item so far is for the next ID of the list, and a stream that ended is through it. *)
Definition through (ids : list EntityId) (r : list (Result Loaded) * bool) g' : Prop :=
  Forall2 (seeded_item g') (take (length r.1) ids) r.1 ∧ (r.2 = true → length r.1 = length ids).

Lemma through_later ids r g g' : abs_le g.1 g'.1 → through ids r g → through ids r g'.
Proof.
  intros Hle [Hf He]. split; [|done]. eapply Forall2_impl; [exact Hf|].
  intros id item. by apply seeded_item_later.
Qed.

(** What one step yields. *)
Definition stepped (entity_type : EntityType) (ids : list EntityId)
    (r : option (Result Loaded * Seeded)) g' : Prop :=
  match r with
  | None => ids = []
  | Some (item, state) => ∃ id rest, ids = id :: rest ∧ seeded_item g' id item ∧
      state = mkSeeded entity_type (Some rest)
  end.

Lemma next_loaded_lists entity_type seen ids g :
  store_inv g → lists (next_loaded (mkSeeded entity_type seen) ids) (stepped entity_type ids) g.
Proof.
  intros Hg. destruct ids as [|id ids]; cbn [next_loaded]; [by returns|].
  step_bind. eapply assures_mono; [|by apply load_lists]. intros item g1 Hg1 _ Hitem.
  returns. by exists id, ids.
Qed.

(** A poll of a list that [I] describes, and the rest of the consumption. *)
Lemma consume_stepped entity_type n state (I : list EntityId → Abs * World → Prop) g :
  lists (next_seeded state) (λ r g1, ∃ ids, I ids g1 ∧ stepped entity_type ids r g1) g →
  (∀ ids g, store_inv g →
     lists (consume next_seeded n (Some (mkSeeded entity_type (Some ids)))) (through ids) g) →
  lists (consume next_seeded (S n) (Some state))
    (λ r g', ∃ ids g1, I ids g1 ∧ abs_le g1.1 g'.1 ∧ through ids r g') g.
Proof.
  intros Hstep Hrest. cbn [consume poll_next]. do 2 step_bind. eapply assures_mono, Hstep.
  intros [[item state']|] g1 Hg1 _ (ids & HI & Hr); returns.
  - destruct Hr as (id & rest & -> & Hitem & ->). step_bind. eapply assures_mono; [|by apply Hrest].
    intros [items ended] g2 Hg2 Hle [Hf He]. returns. exists (id :: rest), g1.
    split; [done|]. split; [done|]. split.
    + simpl. constructor; [|done]. by apply (seeded_item_later g1).
    + simpl in *. intros Hend. by rewrite He.
  - returns. simpl in Hr. subst ids. exists [], g1. split; [done|]. by split.
Qed.

Lemma consume_lists entity_type n : ∀ ids g,
  store_inv g →
  lists (consume next_seeded n (Some (mkSeeded entity_type (Some ids)))) (through ids) g.
Proof.
  induction n as [|n IH]; intros ids g Hg; [by returns|].
  eapply assures_mono; [|apply (consume_stepped entity_type n _ (λ l _, l = ids)); [|exact IH]].
  - by intros r g' _ _ (l & g1 & -> & _ & Ht).
  - eapply assures_mono; [|by apply (next_loaded_lists entity_type (Some ids) ids)].
    intros r g1 _ _ Hr. by exists ids.
Qed.

(** The list of IDs was that of some moment of the enumeration. *)
Definition seeds (entity_type : EntityType) g (r : list (Result Loaded) * bool) g' : Prop :=
  ∃ a1 w1, store_inv (a1, w1) ∧ abs_le g.1 a1 ∧ abs_le a1 g'.1 ∧
    through (head_ids (w_store w1) entity_type) r g'.

Lemma seeds_later entity_type g r g1 g2 :
  abs_le g1.1 g2.1 → seeds entity_type g r g1 → seeds entity_type g r g2.
Proof.
  intros Hle (a1 & w1 & Hi & H1 & H2 & Ht). exists a1, w1. do 2 (split; [done|]).
  split; [by etrans|]. by eapply through_later.
Qed.

Lemma consume_seeds entity_type n g :
  store_inv g →
  lists (consume next_seeded n (Some (mkSeeded entity_type None))) (seeds entity_type g) g.
Proof.
  intros Hg. destruct n as [|n].
  { returns. destruct g as [a w]. exists a, w. split; [done|]. by split; [reflexivity|split; [reflexivity|]]. }
  eapply assures_mono; [|apply (consume_stepped entity_type n _ (λ ids g', ∃ a1 w1,
    store_inv (a1, w1) ∧ abs_le g.1 a1 ∧ abs_le a1 g'.1 ∧ ids = head_ids (w_store w1) entity_type));
    [|by apply consume_lists]].
  - intros r g' _ _ (ids & g1 & (a1 & w1 & Hi & H1 & H2 & ->) & Hle & Ht).
    exists a1, w1. split; [done|]. split; [done|]. split; [by etrans|done].
  - cbn [next_seeded se_ids se_entity_type]. step_bind. apply assures_call; [apply _|done|].
    intros g1 b g2 Hg1 Hle [-> ->]. split; [done|]. split; [simpl; reflexivity|].
    eapply assures_mono; [|by apply (next_loaded_lists entity_type None)].
    intros r g3 _ Hle3 Hr. eexists. split; [|exact Hr]. exists g1.1, g1.2. by split; [destruct g1|].
Qed.

(** A seeded enumeration beside other clients. Whatever tolerated interference runs between its
    calls, commands, catch-up snapshots and compactions included, the stream from snapshots never
    gets stuck; it lists the entities once, and yields an item for each of them in that order; an
    item that is an aggregate is the replay of a prefix of its entity's log. *)
Theorem seeded_enumeration_is_sound (env : World → World → Prop) (filter : StreamFilter) (n : nat)
    (a : Abs) (w w' : World) (p : Tree (HeadsCall Empty_set) (list (Result Loaded) * bool)) :
  let entity_type := default ag_TYPE (sf_entity_type filter) in
  tolerated env → store_inv (a, w) →
  rtc (pool_step env) (w, [consume next_seeded n (Some (seeded_start filter))]) (w', [p]) →
  p ≠ Panic ∧ p ≠ OutOfFuel ∧
  ∃ a', store_inv (a', w') ∧ abs_le a a' ∧
  ∀ items ended, p = Ret (items, ended) →
  ∃ a1 ids, abs_le a a1 ∧ abs_le a1 a' ∧ NoDup ids ∧
    (∀ id, id ∈ ids → is_reserved id = false ∧ log_of a1 id ≠ []) ∧
    Forall2 (λ id item, kind id = A → ∀ loaded, item = Ok loaded →
      loaded_ok (log_of a' id) id loaded) (take (length items) ids) items ∧
    (ended = true → length items = length ids).
Proof.
  intros entity_type Henv Hi Hrtc.
  destruct (assures_pool snd store_inv (λ _, logged_heads) (λ _, anyone log_grows) env
    (λ _ r g, seeds entity_type (a, w) r g))
    with (g := (a, w)) (ps := [consume (next_seeded (Op := Empty_set)) n (Some (seeded_start filter))]) (w' := w') (ps' := [p])
    as ([a' w''] & Heq & Hi' & Hle & Hends); [| | | |done| |done|].
  - intros _ [a1 w1] B q b w2 [Hr _] (o & Ho & Hans). destruct q as [C q|t]; simpl in Hans.
    + destruct (performs_law a1 w1 C q b w2 Hr) as (a2 & Hl & Hr2 & Hreply & Hsn); [by exists o|].
      exists (a2, w2). split; [done|]. split; [by exists o|]. by split.
    + injection Hans as <- <-. by exists (a1, w1).
  - intros [a1 w1] w2 Hi1 He. destruct (Henv a1 w1 w2 Hi1 He) as (a2 & Hi2 & Hl). by exists (a2, w2).
  - done.
  - intros _ r x y _ _ Hxy. by apply seeds_later.
  - intros [|i] q; [|done]. intros [= <-]. by apply consume_seeds.
  - simpl in Heq. subst w''. specialize (Hends 0%nat p eq_refl).
    split; [by intros ->|]. split; [by intros ->|]. exists a'. split; [done|]. split; [apply Hle|].
    intros items ended ->. destruct Hends as [_ (a1 & w1 & [(Hr & Hok & _) _] & H1 & H2 & Hf & He)].
    exists a1, (head_ids (w_store w1) entity_type). split; [done|]. split; [done|].
    split; [apply btree_entries_NoDup|]. split; [|done]. intros id Hin.
    by apply (head_ids_elem a1 _ _ _ Hr Hok) in Hin as (Hres & Hne & _).
Qed.
End beside.

(** ** Examples *)

(** What happens next: the reader makes its next call, or the repository is maintained. *)
Inductive HeadsTurn := HeadsReader | HeadsMaintain (c : mem_call).

Section schedule.
Context `{SerdeJson} {B : Type}.

Definition heads_turn (o : Oracle) (x : World * Tree (HeadsCall Empty_set) B) (t : HeadsTurn)
  : World * Tree (HeadsCall Empty_set) B :=
  match t with
  | HeadsMaintain c =>
      if is_maintenance c then (with_repository x.1 (exec c (w_repository x.1)).1, x.2) else x
  | HeadsReader =>
      match x.2 with
      | Ask q k => let y := heads_answer o q x.1 in (y.1, k y.2)
      | _ => x
      end
  end.

Lemma heads_turns_steps o ts x :
  0 ≤ or_random o →
  rtc (pool_step maintenance) (x.1, [x.2])
    ((fold_left (heads_turn o) ts x).1, [(fold_left (heads_turn o) ts x).2]).
Proof.
  intros Ho. revert x. induction ts as [|t ts IH]; intros [w p]; [reflexivity|]. simpl fold_left.
  etransitivity; [|apply IH]. destruct t as [|c]; simpl.
  - destruct p as [b|C q k| |]; try reflexivity.
    destruct (heads_answer o q w) as [w' b] eqn:Hq. apply rtc_once.
    apply (pool_call maintenance w [Ask q k] 0 C q k b w'); [done|]. by exists o.
  - destruct (is_maintenance c) eqn:Hc; [|reflexivity]. apply rtc_once, pool_env. by exists c.
Qed.
End schedule.

Section witness.
#[local] Existing Instance sample_json.
#[local] Existing Instance text_aggregate.

(** The events of the entity compacted down to its snapshot. *)
Definition compacted_world : World :=
  mkWorld (exec (CCompact "t" 2) (w_repository text_world)).1 ∅ 1.

Lemma compacted_world_step : maintenance text_world compacted_world.
Proof. by exists (CCompact "t" 2). Qed.

Lemma compacted_world_inv :
  ∃ a, store_inv (a, compacted_world) ∧ (∀ id, log_of a id ≠ [] → id = "t"%string) ∧
    log_of a "t" = cm_events text_commit.
Proof.
  destruct text_world_inv as (a0 & Hi0 & Hlog0).
  destruct (maintenance_tolerated a0 text_world compacted_world Hi0 compacted_world_step) as (a & Hi & Hle).
  pose proof Hi as [(Hr & _) _]. pose proof Hi0 as [(Hr0 & _) _]. cbn [fst snd] in Hr, Hr0.
  exists a. split; [done|]. split.
  - intros id Hne. destruct (decide (id = "t"%string)) as [->|Hid]; [done|]. exfalso. apply Hne.
    assert (llen (log_of a id) = 0) as H0; [|by destruct (log_of a id)].
    unfold log_of. rewrite <-(rf_head _ _ Hr id). unfold stream_at.
    assert (ms_streams (w_store compacted_world) !! id = None) as ->; [|done].
    assert (dom (ms_streams (w_store compacted_world)) = {["t"%string]}) as Hdom by (vm_compute; reflexivity).
    apply not_elem_of_dom. rewrite Hdom. by apply not_elem_of_singleton.
  - rewrite <-Hlog0. symmetry. apply prefix_length_eq; [apply Hle|].
    assert (llen (log_of a "t") ≤ llen (log_of a0 "t")) as Hlen; [|unfold llen in Hlen; lia].
    unfold log_of. rewrite <-(rf_head _ _ Hr "t"), <-(rf_head _ _ Hr0 "t"). vm_compute. discriminate.
Qed.

Lemma seeded_enumeration_is_complete_witness :
  ∃ items, run_heads sample_oracle (consume next_seeded 2 (Some (seeded_start StreamFilter_all)))
      compacted_world = (compacted_world, Some (items, true)) ∧
    items = [Ok (mkLoaded "t" "ab"%string 2 1 ∅)] ∧
    mem_events (w_store compacted_world) "t" = [].
Proof.
  destruct compacted_world_inv as (a & Hi & Honly & Hlog).
  destruct (seeded_enumeration_is_complete sample_oracle StreamFilter_all 2 a compacted_world Hi)
    as (ids & items & Hrun & _).
  - intros id (_ & Hne & _). rewrite (Honly id Hne), Hlog.
    split; [reflexivity|]. split; [by vm_compute|]. vm_compute. by eexists.
  - vm_compute. lia.
  - exists items. split; [exact Hrun|]. split; [|vm_compute; reflexivity].
    apply (f_equal snd) in Hrun. revert Hrun. vm_compute. by intros [= <-].
Defined.

(** The entity is compacted after its ID was listed and before it is loaded. *)
Definition seeded_run : World * Tree (HeadsCall Empty_set) (list (Result Loaded) * bool) :=
  fold_left (heads_turn sample_oracle)
    [HeadsReader; HeadsMaintain (CCompact "t" 2); HeadsReader; HeadsReader]
    (text_world, consume next_seeded 2 (Some (seeded_start StreamFilter_all))).

Lemma seeded_enumeration_is_sound_witness :
  seeded_run.2 = Ret ([Ok (mkLoaded "t" "ab"%string 2 1 ∅)], true) ∧
  ∃ a' ids, length ids = 1%nat ∧
    Forall2 (λ (id : EntityId) (item : Result Loaded), kind id = text_aggregate → ∀ loaded,
      item = Ok loaded → loaded_ok (log_of a' id) id loaded)
      (take 1 ids) [Ok (mkLoaded "t" "ab"%string 2 1 ∅)].
Proof.
  assert (seeded_run.2 = Ret ([Ok (mkLoaded "t" "ab"%string 2 1 ∅)], true)) as Hrun
    by (vm_compute; reflexivity).
  split; [exact Hrun|]. destruct text_world_inv as (a & Hi & _).
  destruct (seeded_enumeration_is_sound (A := text_aggregate) maintenance StreamFilter_all 2 a text_world
    seeded_run.1 seeded_run.2) as (_ & _ & a' & _ & _ & Hall).
  - apply maintenance_tolerated.
  - exact Hi.
  - apply (heads_turns_steps sample_oracle _
      (text_world, consume next_seeded 2 (Some (seeded_start StreamFilter_all)))). vm_compute. discriminate.
  - destruct (Hall _ _ Hrun) as (a1 & ids & _ & _ & _ & _ & Hf & Hlen). exists a', ids.
    split; [symmetry; by apply Hlen|exact Hf].
Defined.
End witness.
