(* ===== verification/Transaction.v ===== *)
(** * Transactions

    [transaction.rs]: reading several streams, appending to some of them, and committing all of it
    at once, with every stream that was only read fenced at the head it was read at; with or
    without a recorded outcome. [store.rs]'s [execute_transaction] retries such a command. A
    transaction and the handles of its reads are owned by one client, so the operations pass them
    along; the repository is awaited. *)

From S2P Require Import Prelude Types Features Outcome Projection Repository Retry Program Settle Store.

(** ** The state *)

(** [std::mem::discriminant] of an error. *)
Definition discriminant (error : Error) : Z :=
  match error with
  | Conflict _ _ => 0
  | SequenceGap _ _ _ => 1
  | DuplicateCommand _ => 2
  | StreamHeadDrift _ _ _ => 3
  | StreamHeadsNotMigrated => 4
  | StoreNotInitialized => 5
  | CompactionUncovered _ _ _ => 6
  | Replay _ _ _ _ => 7
  | SnapshotError _ _ => 8
  | InvalidRecord _ => 9
  | CommitTooLarge _ _ _ => 10
  | FenceConflict _ _ _ => 11
  | CommandOrder _ => 12
  | ProjectorWithoutEvents _ => 13
  | ProjectorSetConflict _ => 14
  | TransactionPoisoned => 15
  | RetentionConflict _ => 16
  | RebuildInProgress => 17
  | RebuildLockHeld _ _ => 18
  | RebuildLeaseLost _ => 19
  | RebuildConflict _ => 20
  | RebuildBeginIndeterminate _ _ _ => 21
  | RebuildStateInvalid _ => 22
  | RebuildUnavailable _ _ => 23
  | RebuildEpochChanged _ _ => 24
  | Json _ => 25
  | Handler _ => 26
  | Projector _ => 27
  | ProjectorOperation _ => 28
  | InvalidViewOperation _ => 29
  | ViewKeyTooLong _ _ _ _ _ => 30
  | DuplicateViewKey _ _ _ _ => 31
  | ReservedViewKey _ _ _ => 32
  | CommitOrder _ => 33
  | SharedViewKey _ _ _ _ => 34
  | ViewsUnsupported _ => 35
  | ExpectedPayloadUnsupported _ => 36
  | HistoryDeclarationUnsupported _ => 37
  | ViewsNotConfigured _ => 38
  | JournalRowTooLarge _ => 39
  | InvalidJournal _ => 40
  | JournalGone _ => 41
  | JournalSnapshotMoved _ _ => 42
  | ForeignJournalRow _ _ _ _ => 43
  | CompactionLeaseHeld _ _ _ => 44
  | CompactionLeaseLost _ _ => 45
  | Transient _ => 46
  | InvalidCommit _ => 47
  | InvalidConfig _ => 48
  | InvalidArgument _ => 49
  | ReservedEntityId _ => 50
  | UnsupportedFeature _ _ => 51
  | HistoryDependentProjection _ _ => 52
  | CommandIdTooLong _ => 53
  | OutcomeTooLarge _ _ => 54
  | IdempotencyKeyReuse _ _ => 55
  | OutcomePrincipalMismatch _ _ => 56
  | OutcomeConflict _ => 57
  | AmbiguousWrite _ _ => 58
  | Indeterminate _ => 59
  | Types.Backend _ => 60
  end.

(** crates/evt/src/transaction.rs:113-117 [ReadFailure] *)
Record ReadFailure := mkReadFailure {
  rf_entity_id : EntityId;
  rf_variant : Z;
  rf_message : string
}.

(** crates/evt/src/transaction.rs:131-149 [StreamState] *)
Record StreamState (Op : Type) := mkStreamState {
  ss_entity_id : EntityId;
  ss_entity_type : EntityType;
  ss_head : EventSequence;
  ss_seen_command_ids : gset CommandId;
  ss_events : list SerializedEvent;
  ss_snapshot : option NewSnapshot;
  ss_operations : list Op;
  ss_state : string
}.
Arguments mkStreamState {Op}.
Arguments ss_entity_id {Op}.
Arguments ss_entity_type {Op}.
Arguments ss_head {Op}.
Arguments ss_seen_command_ids {Op}.
Arguments ss_events {Op}.
Arguments ss_snapshot {Op}.
Arguments ss_operations {Op}.
Arguments ss_state {Op}.

(** A projector behind a shared pointer, which is its identity. *)
Record ArcProjector `{A : Aggregate} (Op : Type) := mkArcProjector {
  ap_address : Z;
  ap_project : AggregateProjector (Op := Op)
}.
Arguments mkArcProjector {A Op}.
Arguments ap_address {A Op}.
Arguments ap_project {A Op}.

(** crates/evt/src/transaction.rs:154-165 [Read] *)
Record Read `{A : Aggregate} (Op : Type) := mkRead {
  rd_transaction : Z;
  rd_index : nat;
  rd_loaded : Loaded;
  rd_base_sequence : EventSequence;
  rd_appended : list ag_event;
  rd_projectors : option (list (ArcProjector Op))
}.
Arguments mkRead {A Op}.
Arguments rd_transaction {A Op}.
Arguments rd_index {A Op}.
Arguments rd_loaded {A Op}.
Arguments rd_base_sequence {A Op}.
Arguments rd_appended {A Op}.
Arguments rd_projectors {A Op}.

(** crates/evt/src/transaction.rs:214-248 [Transaction] *)
Record Transaction (Op : Type) := mkTransaction {
  tx_id : Z;
  tx_repository_name : string;
  tx_snapshot_interval : Z;
  tx_catch_up_threshold : Z;
  tx_streams : list (StreamState Op);
  tx_fences : list ReadFence;
  tx_commit_projectors : list CommitProjector;
  tx_late_commit_projector : bool;
  tx_poisoned : bool;
  tx_finished : bool;
  tx_outcomes : option OutcomeConfig;
  tx_command : option PendingCommand;
  tx_read_failure : option ReadFailure;
  tx_expected : gmap EntityId EventSequence
}.
Arguments mkTransaction {Op}.
Arguments tx_id {Op}.
Arguments tx_repository_name {Op}.
Arguments tx_snapshot_interval {Op}.
Arguments tx_catch_up_threshold {Op}.
Arguments tx_streams {Op}.
Arguments tx_fences {Op}.
Arguments tx_commit_projectors {Op}.
Arguments tx_late_commit_projector {Op}.
Arguments tx_poisoned {Op}.
Arguments tx_finished {Op}.
Arguments tx_outcomes {Op}.
Arguments tx_command {Op}.
Arguments tx_read_failure {Op}.
Arguments tx_expected {Op}.

(** Assignments to one field. *)
Definition set_tx_streams {Op} (tx : Transaction Op) streams : Transaction Op :=
  mkTransaction (tx_id tx) (tx_repository_name tx) (tx_snapshot_interval tx)
    (tx_catch_up_threshold tx) streams (tx_fences tx) (tx_commit_projectors tx)
    (tx_late_commit_projector tx) (tx_poisoned tx) (tx_finished tx) (tx_outcomes tx) (tx_command tx)
    (tx_read_failure tx) (tx_expected tx).
Definition set_tx_fences {Op} (tx : Transaction Op) fences : Transaction Op :=
  mkTransaction (tx_id tx) (tx_repository_name tx) (tx_snapshot_interval tx)
    (tx_catch_up_threshold tx) (tx_streams tx) fences (tx_commit_projectors tx)
    (tx_late_commit_projector tx) (tx_poisoned tx) (tx_finished tx) (tx_outcomes tx) (tx_command tx)
    (tx_read_failure tx) (tx_expected tx).
Definition set_tx_poisoned {Op} (tx : Transaction Op) : Transaction Op :=
  mkTransaction (tx_id tx) (tx_repository_name tx) (tx_snapshot_interval tx)
    (tx_catch_up_threshold tx) (tx_streams tx) (tx_fences tx) (tx_commit_projectors tx)
    (tx_late_commit_projector tx) true (tx_finished tx) (tx_outcomes tx) (tx_command tx)
    (tx_read_failure tx) (tx_expected tx).
Definition set_tx_finished {Op} (tx : Transaction Op) : Transaction Op :=
  mkTransaction (tx_id tx) (tx_repository_name tx) (tx_snapshot_interval tx)
    (tx_catch_up_threshold tx) (tx_streams tx) (tx_fences tx) (tx_commit_projectors tx)
    (tx_late_commit_projector tx) (tx_poisoned tx) true (tx_outcomes tx) (tx_command tx)
    (tx_read_failure tx) (tx_expected tx).
Definition set_tx_command {Op} (tx : Transaction Op) command : Transaction Op :=
  mkTransaction (tx_id tx) (tx_repository_name tx) (tx_snapshot_interval tx)
    (tx_catch_up_threshold tx) (tx_streams tx) (tx_fences tx) (tx_commit_projectors tx)
    (tx_late_commit_projector tx) (tx_poisoned tx) (tx_finished tx) (tx_outcomes tx) command
    (tx_read_failure tx) (tx_expected tx).
Definition set_tx_read_failure {Op} (tx : Transaction Op) failure : Transaction Op :=
  mkTransaction (tx_id tx) (tx_repository_name tx) (tx_snapshot_interval tx)
    (tx_catch_up_threshold tx) (tx_streams tx) (tx_fences tx) (tx_commit_projectors tx)
    (tx_late_commit_projector tx) (tx_poisoned tx) (tx_finished tx) (tx_outcomes tx) (tx_command tx)
    failure (tx_expected tx).
Definition set_tx_expected {Op} (tx : Transaction Op) expected : Transaction Op :=
  mkTransaction (tx_id tx) (tx_repository_name tx) (tx_snapshot_interval tx)
    (tx_catch_up_threshold tx) (tx_streams tx) (tx_fences tx) (tx_commit_projectors tx)
    (tx_late_commit_projector tx) (tx_poisoned tx) (tx_finished tx) (tx_outcomes tx) (tx_command tx)
    (tx_read_failure tx) expected.

Section transaction.
Context `{SerdeJson} {Op : Type}.
Implicit Types tx : Transaction Op.

(** ** Opening *)

(** crates/evt/src/transaction.rs:295-318 [Transaction::with_settings]

    The counter that numbers transactions is a call; the generator is one too. *)
Definition transaction_with_settings (id : Z) (repository : string) (snapshot_interval : Z)
  : Transaction Op :=
  mkTransaction id repository snapshot_interval 0 [] [] [] false false false None None None ∅.

(** crates/evt/src/transaction.rs:287-293 [Transaction::new] *)
Definition transaction_new (repository : string) : Prog Op (Transaction Op) :=
  await id := call QTransactionId in
  Ret (transaction_with_settings id repository DEFAULT_SNAPSHOT_INTERVAL).

(** crates/evt/src/transaction.rs:256-268 [Store::transaction] *)
Definition store_transaction `{A : Aggregate} (s : Store Op) : Prog Op (Transaction Op) :=
  await id := call QTransactionId in
  Ret (mkTransaction id (so_repository_name s) (so_snapshot_interval s) (so_catch_up_threshold s)
    [] [] (so_commit_projectors s) false false false (so_outcomes s) None None ∅).

(** crates/evt/src/transaction.rs:326-329 [Transaction::with_outcomes] *)
Definition with_outcomes (tx : Transaction Op) (config : OutcomeConfig) : Transaction Op :=
  mkTransaction (tx_id tx) (tx_repository_name tx) (tx_snapshot_interval tx)
    (tx_catch_up_threshold tx) (tx_streams tx) (tx_fences tx) (tx_commit_projectors tx)
    (tx_late_commit_projector tx) (tx_poisoned tx) (tx_finished tx) (Some config) (tx_command tx)
    (tx_read_failure tx) (tx_expected tx).

Definition stream_has_events (stream : StreamState Op) : bool := negb (nil_b (ss_events stream)).

(** crates/evt/src/transaction.rs:422-429 [Transaction::with_commit_projector] *)
Definition with_commit_projector (tx : Transaction Op) (projector : CommitProjector)
  : Transaction Op :=
  mkTransaction (tx_id tx) (tx_repository_name tx) (tx_snapshot_interval tx)
    (tx_catch_up_threshold tx) (tx_streams tx) (tx_fences tx)
    (tx_commit_projectors tx ++ [projector])
    (tx_late_commit_projector tx || existsb stream_has_events (tx_streams tx))
    (tx_poisoned tx) (tx_finished tx) (tx_outcomes tx) (tx_command tx) (tx_read_failure tx)
    (tx_expected tx).

(** crates/evt/src/transaction.rs:435-438 [Transaction::with_snapshot_interval] *)
Definition with_snapshot_interval (tx : Transaction Op) (interval : Z) : Transaction Op :=
  mkTransaction (tx_id tx) (tx_repository_name tx) interval
    (tx_catch_up_threshold tx) (tx_streams tx) (tx_fences tx) (tx_commit_projectors tx)
    (tx_late_commit_projector tx) (tx_poisoned tx) (tx_finished tx) (tx_outcomes tx) (tx_command tx)
    (tx_read_failure tx) (tx_expected tx).

(** crates/evt/src/transaction.rs:371-375 [Transaction::outcomes_config] *)
Definition tx_outcomes_config (tx : Transaction Op) : Result OutcomeConfig :=
  ok_or (tx_outcomes tx)
    (InvalidConfig (Fmt "command outcomes are not enabled; call with_outcomes" [])).

(** crates/evt/src/transaction.rs:524-532 [Transaction::check_open] *)
Definition check_open (tx : Transaction Op) : Result unit :=
  if tx_finished tx then
    Err (CommandOrder "the command replayed a stored outcome, so this transaction is finished")
  else Ok tt.

(** crates/evt/src/transaction.rs:377-392 [Transaction::check_can_begin] *)
Definition check_can_begin (tx : Transaction Op) : Result unit :=
  check? check_open tx;
  match tx_command tx with
  | Some _ =>
      Err (InvalidCommit (Fmt "begin_command was already called on this transaction" []))
  | None =>
      if negb (nil_b (tx_streams tx)) || negb (nil_b (tx_fences tx)) then
        Err (CommandOrder
          "begin_command must be the first operation on a transaction, before any read, append, or fence")
      else Ok tt
  end.

(** crates/evt/src/transaction.rs:121-128 [Begin] *)
Inductive Begin :=
| Proceed
| BeginReplayed (outcome : CommandOutcome unit).

(** crates/evt/src/transaction.rs:394-406 [Transaction::begin_pending] *)
Definition begin_pending (tx : Transaction Op) (pending : PendingCommand)
  : Prog Op (Transaction Op * Result Begin) :=
  await stored := pre_check (pc_command_id pending) (pc_digest pending) in
  Ret match stored with
      | Err error => (tx, Err error)
      | Ok (Some stored) => (set_tx_finished tx, Ok (BeginReplayed (outcome_replay stored)))
      | Ok None => (set_tx_command tx (Some pending), Ok Proceed)
      end.

(** crates/evt/src/transaction.rs:348-359 [Transaction::begin_command] *)
Definition begin_command (tx : Transaction Op) (identity : CommandIdentity) (metadata : Metadata)
  : Prog Op (Transaction Op * Result Begin) :=
  match (let? config := tx_outcomes_config tx in
         check? check_can_begin tx;
         freeze_command config identity metadata) with
  | Err error => Ret (tx, Err error)
  | Ok pending => begin_pending tx pending
  end.

(** crates/evt/src/transaction.rs:364-369 [Transaction::begin_frozen] *)
Definition begin_frozen (tx : Transaction Op) (pending : PendingCommand)
  : Prog Op (Transaction Op * Result Begin) :=
  match (let? config := tx_outcomes_config tx in check_can_begin tx) with
  | Err error => Ret (tx, Err error)
  | Ok _ => begin_pending tx pending
  end.

(** ** Reading *)

(** crates/evt/src/transaction.rs:534-546 [Transaction::check_unread] *)
Definition check_unread (tx : Transaction Op) (entity_id : EntityId) : Result unit :=
  if existsb (λ stream, bool_decide (ss_entity_id stream = entity_id)) (tx_streams tx) then
    Err (InvalidCommit (Fmt "duplicate read of {entity_id}" [entity_id]))
  else Ok tt.

(** crates/evt/src/transaction.rs:485-521 [Transaction::read_loaded] *)
Definition read_loaded `{A : Aggregate} (tx : Transaction Op) (loaded : Loaded)
  : Transaction Op * Result (Read Op) :=
  match (check? check_open tx; check_unread tx (ld_entity_id loaded)) with
  | Err error => (tx, Err error)
  | Ok _ =>
      let failure :=
        match tx_read_failure tx with
        | Some failure =>
            if bool_decide (rf_entity_id failure = ld_entity_id loaded) then None else Some failure
        | None => None
        end in
      let stream :=
        mkStreamState (ld_entity_id loaded) ag_TYPE (ld_sequence loaded)
          (ld_seen_command_ids loaded) [] None [] "" in
      let tx := set_tx_streams (set_tx_read_failure tx failure) (tx_streams tx ++ [stream]) in
      (tx, Ok (mkRead (tx_id tx) (length (tx_streams tx) - 1) loaded (ld_sequence loaded) [] None))
  end.

(** The display text of an error. *)
Context (error_text : Error → string).

(** crates/evt/src/transaction.rs:444-472 [Transaction::read] *)
Definition tx_read `{A : Aggregate} (tx : Transaction Op) (entity_id : EntityId)
  : Prog Op (Transaction Op * Result (Read Op)) :=
  match (check? check_open tx; check_unread tx entity_id) with
  | Err error => Ret (tx, Err error)
  | Ok _ =>
      await loaded := load_with_catch_up entity_id (tx_catch_up_threshold tx) in
      Ret match loaded with
          | Ok loaded => read_loaded tx loaded
          | Err error =>
              (set_tx_read_failure tx
                 (Some (mkReadFailure entity_id (discriminant error) (error_text error))),
               Err error)
          end
  end.

(** crates/evt/src/transaction.rs:478-482 [Transaction::is_read_failure] *)
Definition is_read_failure (tx : Transaction Op) (error : Error) : bool :=
  match tx_read_failure tx with
  | Some failure =>
      (rf_variant failure =? discriminant error)
      && bool_decide (rf_message failure = error_text error)
  | None => false
  end.

(** ** Appending *)

Section append.
Context `{A : Aggregate}.
Implicit Types read : Read Op.

(** [read.loaded.aggregate.apply(event)] for each event. *)
Definition read_applied (read : Read Op) (events : list ag_event) : Read Op :=
  let loaded := rd_loaded read in
  mkRead (rd_transaction read) (rd_index read)
    (mkLoaded (ld_entity_id loaded) (fold_left ag_apply events (ld_aggregate loaded))
      (ld_sequence loaded) (ld_snapshot_sequence loaded) (ld_seen_command_ids loaded))
    (rd_base_sequence read) (rd_appended read) (rd_projectors read).

(** crates/evt/src/transaction.rs:685-697 [Transaction::stage_derived]

    The operations of the projectors, over all the events appended to the stream. *)
Definition derived_operations (read : Read Op) (projected : option (list ag_event))
    (projectors : list (ArcProjector Op)) : Result (list Op) :=
  let loaded := rd_loaded read in
  match projected with
  | None => Ok []
  | Some new_events =>
      let? groups :=
        collect
          (λ projector, map_err Projector
            (ap_project projector (ld_entity_id loaded) (ld_aggregate loaded)
              (rd_appended read ++ new_events)))
          projectors in
      Ok (concat groups)
  end.

(** crates/evt/src/transaction.rs:699-723 [Transaction::stage_derived]

    What follows them, with [stream] the stream at the handle's index. *)
Definition derived_snapshot (tx : Transaction Op) (read : Read Op) (stream : StreamState Op)
    (serialized : list SerializedEvent) (operations : list Op) (snapshot_interval : Z)
  : Result (list Op * option NewSnapshot * string) :=
  let loaded := rd_loaded read in
  let appended := llen (ss_events stream) + llen serialized in
  let snapshot_due :=
    0 <? snapshot_events_due (rd_base_sequence read) appended snapshot_interval in
  let? state :=
    if snapshot_due || negb (nil_b (tx_commit_projectors tx)) then ag_to_json (ld_aggregate loaded)
    else Ok ""%string in
  let? snapshot :=
    match snapshot_due, last serialized with
    | true, Some last =>
        within_budget
          (mkNewSnapshot ag_TYPE (next (ld_snapshot_sequence loaded)) state)
          (ld_entity_id loaded) (ev_sequence last)
    | _, _ => Ok None
    end in
  Ok (operations, snapshot, if nil_b (tx_commit_projectors tx) then ""%string else state).

(** crates/evt/src/transaction.rs:677-724 [Transaction::stage_derived]

    [None] is the panic of an index out of range. *)
Definition stage_derived (tx : Transaction Op) (read : Read Op)
    (serialized : list SerializedEvent) (projected : option (list ag_event))
    (projectors : list (ArcProjector Op)) (snapshot_interval : Z)
  : option (Result (list Op * option NewSnapshot * string)) :=
  match derived_operations read projected projectors with
  | Err error => Some (Err error)
  | Ok operations =>
      match tx_streams tx !! rd_index read with
      | None => None
      | Some stream =>
          Some (derived_snapshot tx read stream serialized operations snapshot_interval)
      end
  end.

(** The handle and the stream after an append. *)
Definition read_appended (read : Read Op) (named : list (ArcProjector Op))
    (projectors : list (ArcProjector Op)) (events : list ag_event)
    (serialized : list SerializedEvent) : Read Op :=
  let loaded := rd_loaded read in
  mkRead (rd_transaction read) (rd_index read)
    (mkLoaded (ld_entity_id loaded) (ld_aggregate loaded)
      match last serialized with Some event => ev_sequence event | None => ld_sequence loaded end
      (ld_snapshot_sequence loaded) (ld_seen_command_ids loaded))
    (rd_base_sequence read) (rd_appended read ++ events)
    match rd_projectors read with
    | None => if nil_b named then None else Some projectors
    | Some existing => Some existing
    end.

Definition stream_appended (stream : StreamState Op) (serialized : list SerializedEvent)
    (operations : list Op) (snapshot : option NewSnapshot) (state : string) : StreamState Op :=
  mkStreamState (ss_entity_id stream) (ss_entity_type stream) (ss_head stream)
    (ss_seen_command_ids stream) (ss_events stream ++ serialized) snapshot operations state.

(** crates/evt/src/transaction.rs:581-670 [Transaction::stage]

    [None] is the panic of an index out of range. *)
Definition tx_stage (tx : Transaction Op) (read : Read Op) (events : list ag_event)
    (named : list (ArcProjector Op)) (snapshot_interval : Z)
  : option (Transaction Op * Read Op * Result unit) :=
  if negb (rd_transaction read =? tx_id tx) then
    Some (tx, read, Err (InvalidCommit
      (Fmt "stream {} was not read by this transaction" [ld_entity_id (rd_loaded read)])))
  else
    match check_open tx with
    | Err error => Some (tx, read, Err error)
    | Ok _ =>
        let projectors := if nil_b named then default [] (rd_projectors read) else named in
        let conflict :=
          match rd_projectors read with
          | Some existing =>
              negb (nil_b named)
              && negb (bool_decide (map ap_address existing = map ap_address projectors))
          | None => false
          end in
        if tx_poisoned tx then Some (tx, read, Err TransactionPoisoned)
        else if conflict then
          Some (tx, read, Err (ProjectorSetConflict (ld_entity_id (rd_loaded read))))
        else if nil_b events then Some (tx, read, Ok tt)
        else
          match serialize_events (ld_entity_id (rd_loaded read)) (ld_sequence (rd_loaded read))
                  events Metadata_default with
          | Err error => Some (tx, read, Err error)
          | Ok serialized =>
              let projected := if nil_b projectors then None else Some events in
              let read := read_applied read events in
              match stage_derived tx read serialized projected projectors snapshot_interval with
              | None => None
              | Some (Err error) => Some (set_tx_poisoned tx, read, Err error)
              | Some (Ok (operations, snapshot, state)) =>
                  Some
                    (set_tx_streams tx
                       (alter (λ stream,
                          stream_appended stream serialized operations snapshot state)
                          (rd_index read) (tx_streams tx)),
                     read_appended read named projectors events serialized, Ok tt)
              end
          end
    end.

(** crates/evt/src/transaction.rs:569-579 [Transaction::append_with] *)
Definition append_with (tx : Transaction Op) (read : Read Op) (events : list ag_event)
    (projectors : list (ArcProjector Op)) : option (Transaction Op * Read Op * Result unit) :=
  tx_stage tx read events projectors (default (tx_snapshot_interval tx) ag_SNAPSHOT_INTERVAL).

(** crates/evt/src/transaction.rs:553-559 [Transaction::append] *)
Definition append (tx : Transaction Op) (read : Read Op) (events : list ag_event)
  : option (Transaction Op * Read Op * Result unit) :=
  append_with tx read events [].

(** crates/evt/src/transaction.rs:274-281 [Store::append_to]

    [addresses] are the pointers the store holds its projectors by. *)
Definition append_to (s : Store Op) (addresses : list Z) (tx : Transaction Op) (read : Read Op)
    (events : list ag_event) : option (Transaction Op * Read Op * Result unit) :=
  tx_stage tx read events (zip_with mkArcProjector addresses (so_projectors s))
    (store_snapshot_interval s).
End append.

(** ** Fences and expectations *)

Definition reads_stream (tx : Transaction Op) (entity_id : EntityId) : bool :=
  existsb (λ stream, bool_decide (ss_entity_id stream = entity_id)) (tx_streams tx).

(** crates/evt/src/transaction.rs:731-745 [Transaction::fence] *)
Definition tx_fence (tx : Transaction Op) (fence : ReadFence) : Transaction Op * Result unit :=
  match check_open tx with
  | Err error => (tx, Err error)
  | Ok _ =>
      if reads_stream tx (fe_entity_id fence) then (tx, Ok tt)
      else
        (set_tx_fences tx
           (tx_fences tx ++
              [mkReadFence (fe_entity_id fence) (fe_entity_type fence) (fe_head fence) Caller]),
         Ok tt)
  end.

(** crates/evt/src/transaction.rs:1047-1083 [Transaction::expect] *)
Definition tx_expect (tx : Transaction Op) (entity_id : EntityId) (head : EventSequence)
  : Transaction Op * Result unit :=
  match (check? check_open tx;
         check? match tx_outcomes tx with
                | None =>
                    Err (InvalidArgument
                      (Fmt "client-expected versions are recorded as command outcomes; enable with_outcomes and begin the command with begin_command" []))
                | Some _ => Ok tt
                end;
         check? (if head <? 0 then
                   Err (InvalidArgument
                     (Fmt "expected head {} of {entity_id} is negative" [show head; entity_id]))
                 else Ok tt);
         match tx_expected tx !! entity_id with
         | Some earlier =>
             if negb (earlier =? head) then
               Err (InvalidArgument
                 (Fmt "{entity_id} is expected at head {} and {}"
                   [entity_id; show earlier; show head]))
             else Ok tt
         | None => Ok tt
         end) with
  | Err error => (tx, Err error)
  | Ok _ => (set_tx_expected tx (<[entity_id := head]> (tx_expected tx)), Ok tt)
  end.

(** crates/evt/src/transaction.rs:1087-1111 [Transaction::stale_versions] *)
Definition stale_versions (tx : Transaction Op) : Result (list StaleVersion) :=
  let? stale :=
    collect
      (λ expected : EntityId * EventSequence,
        match List.find (λ stream, bool_decide (ss_entity_id stream = expected.1)) (tx_streams tx) with
        | None =>
            Err (InvalidArgument
              (Fmt "{entity_id} has an expected head but the transaction never read it"
                [expected.1]))
        | Some stream =>
            Ok (if negb (ss_head stream =? expected.2) then
                  [mkStaleVersion expected.1 expected.2 (ss_head stream)]
                else [])
        end)
      (btree_entries string_leb (tx_expected tx)) in
  Ok (concat stale).

(** ** Preparing the commit *)

(** crates/evt/src/transaction.rs:1133-1144 [Transaction::ready_projectors] *)
Definition tx_ready_projectors (tx : Transaction Op) : Prog Op (Result unit) :=
  if negb (existsb stream_has_events (tx_streams tx)) then Ret (Ok tt)
  else ready_projectors (tx_repository_name tx) (tx_commit_projectors tx).

(** Whether a stream the transaction read has an event of the command. *)
Definition seen_by_read (tx : Transaction Op) (command_id : CommandId) : bool :=
  existsb (λ stream, bool_decide (command_id ∈ ss_seen_command_ids stream)) (tx_streams tx).

(** The fence of a stream that was read. *)
Definition engine_fence (stream : StreamState Op) : ReadFence :=
  mkReadFence (ss_entity_id stream) (ss_entity_type stream) (ss_head stream) Engine.

(** The caller's fences on streams the transaction did not read. *)
Definition retained_fences (tx : Transaction Op) : list ReadFence :=
  List.filter (λ fence, negb (reads_stream tx (fe_entity_id fence))) (tx_fences tx).

Definition stamped_events (stamped : Metadata) (stream : StreamState Op) : list SerializedEvent :=
  map (λ event, with_metadata event stamped) (ss_events stream).

(** crates/evt/src/transaction.rs:1173-1252 [Transaction::prepare]

    What follows the stamp. *)
Definition prepare_stamped (tx : Transaction Op) (stamped : Metadata)
  : Result (TransactionCommit Op) :=
  let read_only := List.filter (λ stream, negb (stream_has_events stream)) (tx_streams tx) in
  let written := List.filter stream_has_events (tx_streams tx) in
  let sorted :=
    sort_by (λ a b, string_leb (ss_entity_id a) (ss_entity_id b)) written in
  let commits :=
    map (λ stream,
      mkCommit (ss_entity_id stream) (stamped_events stamped stream) (ss_snapshot stream) [] [] None)
      sorted in
  let view_streams :=
    if nil_b (tx_commit_projectors tx) then []
    else
      map (λ stream,
        commit_stream_new (ss_entity_id stream) (ss_entity_type stream)
          (stamped_events stamped stream) (ss_state stream)) sorted in
  let? views :=
    project_application (tx_commit_projectors tx)
      (mkCommitView (md_commit_id stamped) view_streams) in
  Ok (mkTransactionCommit commits (retained_fences tx ++ map engine_fence read_only)
    (concat (map ss_operations written)) views None).

(** crates/evt/src/transaction.rs:1149-1252 [Transaction::prepare] *)
Definition prepare (tx : Transaction Op) (metadata : Metadata)
  : Prog Op (Result (TransactionCommit Op)) :=
  if tx_poisoned tx then Ret (Err TransactionPoisoned)
  else if tx_late_commit_projector tx then
    Ret (Err (InvalidCommit
      (Fmt "a commit projector was added after events were appended; add projectors first" [])))
  else
    await stamped := stamp_commit_id metadata in
    Ret match non_empty (md_command_id stamped) with
        | Some command_id =>
            if seen_by_read tx command_id then Err (DuplicateCommand command_id)
            else prepare_stamped tx stamped
        | None => prepare_stamped tx stamped
        end.

(** ** Committing *)

(** crates/evt/src/transaction.rs:756-775 [Transaction::commit] *)
Definition tx_commit (tx : Transaction Op) (metadata : Metadata)
  : Prog Op (Result (list SerializedEvent)) :=
  match tx_outcomes tx with
  | Some _ =>
      Ret (Err (InvalidConfig
        (Fmt "this transaction records command outcomes: commit would skip the outcome row; call begin_command, then commit_with_outcome or reject" [])))
  | None =>
      await? ready := tx_ready_projectors tx in
      await? commit := prepare tx metadata in
      call (QCommitTransaction commit)
  end.

(** crates/evt/src/transaction.rs:976-980 [Transaction::recovery_wait] *)
Definition tx_recovery_wait (tx : Transaction Op) : Z :=
  match tx_outcomes tx with Some config => oc_recovery_wait config | None => 0 end.

(** crates/evt/src/transaction.rs:1014-1027 [Transaction::take_command] *)
Definition take_command (tx : Transaction Op) : Result PendingCommand :=
  check? check_open tx;
  let? config := tx_outcomes_config tx in
  ok_or (tx_command tx)
    (InvalidArgument
      (Fmt "begin_command must be called before the transaction records an outcome" [])).

(** crates/evt/src/transaction.rs:985-1012 [Transaction::check_recordable] *)
Definition check_recordable (tx : Transaction Op) : Result unit :=
  let? pending := take_command tx in
  if tx_poisoned tx then Err TransactionPoisoned
  else if seen_by_read tx (pc_command_id pending) then
    Err (DuplicateCommand (pc_command_id pending))
  else Ok tt.

(** crates/evt/src/transaction.rs:1116-1128 [Transaction::persist_stale_fence] *)
Definition persist_stale_fence (tx : Transaction Op) (pending : PendingCommand)
  : Prog Op (Result (CommandOutcome unit)) :=
  persist_rejection pending (tx_recovery_wait tx)
    match tx_outcomes tx with
    | Some config => config_stale_fence config stale_fence
    | None => stale_fence
    end.

Definition with_transaction_outcome (commit : TransactionCommit Op) (outcome : Outcome)
  : TransactionCommit Op :=
  mkTransactionCommit (tc_streams commit) (tc_fences commit) (tc_operations commit)
    (tc_views commit) (Some outcome).

(** crates/evt/src/transaction.rs:825-854 [Transaction::commit_with_outcome]

    And [commit_rejection]'s end: commits with an outcome and settles the result. *)
Definition commit_settled (tx : Transaction Op) (pending : PendingCommand)
    (commit : TransactionCommit Op) (outcome : Outcome)
  : Prog Op (Result (CommandOutcome unit)) :=
  let commit := with_transaction_outcome commit outcome in
  match transaction_stored_outcome commit with
  | None => Panic
  | Some stored =>
      await receipt := call (QCommitTransaction commit) in
      match receipt with
      | Err (FenceConflict _ _ Caller) => persist_stale_fence tx pending
      | _ =>
          let '(result, committed) := split_receipt receipt in
          await? settled :=
            settle (pc_command_id pending) (pc_digest pending) (tx_recovery_wait tx) result in
          Ret (Ok (settled_outcome settled stored committed []))
      end
  end.

(** crates/evt/src/transaction.rs:938-974 [Transaction::commit_rejection] *)
Definition commit_rejection (tx : Transaction Op) (pending : PendingCommand) (rejection : Rejection)
    (commit : TransactionCommit Op) : Prog Op (Result (CommandOutcome unit)) :=
  match canonical_rejection rejection with
  | Err error => Ret (Err error)
  | Ok rejection => commit_settled tx pending commit (pending_rejected pending rejection)
  end.

(** crates/evt/src/transaction.rs:869-909 [Transaction::reject] *)
Definition tx_reject (tx : Transaction Op) (rejection : Rejection)
  : Prog Op (Result (CommandOutcome unit)) :=
  match (let? pending := take_command tx in
         if tx_poisoned tx then Err TransactionPoisoned
         else if seen_by_read tx (pc_command_id pending) then
           Err (DuplicateCommand (pc_command_id pending))
         else Ok pending) with
  | Err error => Ret (Err error)
  | Ok pending =>
      commit_rejection tx pending rejection
        (mkTransactionCommit [] (map engine_fence (tx_streams tx) ++ retained_fences tx) [] [] None)
  end.

(** crates/evt/src/transaction.rs:924-934 [Transaction::reject_with_events] *)
Definition tx_reject_with_events (tx : Transaction Op) (rejection : Rejection)
  : Prog Op (Result (CommandOutcome unit)) :=
  match take_command tx with
  | Err error => Ret (Err error)
  | Ok pending =>
      await? ready := tx_ready_projectors tx in
      await? commit := prepare tx (pc_metadata pending) in
      commit_rejection tx pending rejection commit
  end.

(** crates/evt/src/transaction.rs:816-854 [Transaction::commit_with_outcome]

    After the expected versions were checked. *)
Definition commit_accepted (tx : Transaction Op) (response : option string)
  : Prog Op (Result (CommandOutcome unit)) :=
  match take_command tx with
  | Err error => Ret (Err error)
  | Ok pending =>
      await? ready := tx_ready_projectors tx in
      await? commit := prepare tx (pc_metadata pending) in
      commit_settled tx pending commit (with_response (pending_accepted pending) response)
  end.

(** crates/evt/src/transaction.rs:796-855 [Transaction::commit_with_outcome] *)
Definition commit_with_outcome (tx : Transaction Op) (response : option string)
  : Prog Op (Result (CommandOutcome unit)) :=
  if bool_decide (tx_expected tx = ∅) then commit_accepted tx response
  else
    match (check? check_recordable tx; stale_versions tx) with
    | Err error => Ret (Err error)
    | Ok [] => commit_accepted tx response
    | Ok stale =>
        tx_reject tx
          match tx_outcomes tx with
          | Some config => config_stale_version config stale
          | None => stale_version stale
          end
    end.

(** ** Commands over several streams *)

(** crates/evt/src/store.rs:1384-1394 [Decision] *)
Inductive Decision :=
| Accept (response : option string)
| Reject (rejection : Rejection)
| RejectWithEvents (rejection : Rejection).

(** What the step a caller passes does with the transaction; [S] is what the closure keeps from one
    attempt to the next. *)
Definition PrepareStep (S : Type) : Type :=
  S → Transaction Op → Prog Op (S * Transaction Op * Result Decision).

(** crates/evt/src/store.rs:1021-1034 [Store::attempt_transaction]

    The decision carried out. *)
Definition carry_out (tx : Transaction Op) (decision : Decision)
  : Prog Op (Result (CommandOutcome unit)) :=
  match decision with
  | Accept response => commit_with_outcome tx response
  | Reject rejection => tx_reject tx rejection
  | RejectWithEvents rejection => tx_reject_with_events tx rejection
  end.

(** crates/evt/src/store.rs:991-1035 [Store::attempt_transaction] *)
Definition attempt_transaction `{A : Aggregate} {S : Type} (s : Store Op) (pending : PendingCommand)
    (step : PrepareStep S) (kept : S) : Prog Op (S * result (CommandOutcome unit) Failed) :=
  await tx := store_transaction s in
  await begun := begin_frozen tx pending in
  match begun with
  | (_, Err error) => Ret (kept, Err (failed_deciding error))
  | (_, Ok (BeginReplayed outcome)) => Ret (kept, Ok outcome)
  | (tx, Ok Proceed) =>
      await prepared := step kept tx in
      match prepared with
      | (kept, tx, Err error) =>
          Ret (kept, Err (if is_read_failure tx error then failed_deciding error
                          else failed_internal error))
      | (kept, tx, Ok decision) =>
          await result := map_err_prog failed_committing (carry_out tx decision) in
          Ret (kept, result)
      end
  end.

Context (row_message : RowTooLarge → string).

(** crates/evt/src/store.rs:946-986 [Store::execute_transaction] *)
Fixpoint transaction_loop `{A : Aggregate} {S : Type} (fuel : nat) (s : Store Op)
    (config : OutcomeConfig) (pending : PendingCommand) (step : PrepareStep S) (kept : S)
    (budget : Budget) : Prog Op (Result (CommandOutcome unit)) :=
  match fuel with
  | O => OutOfFuel
  | S fuel =>
      await attempted := attempt_transaction s pending step kept in
      match attempted with
      | (_, Ok outcome) => Ret (Ok outcome)
      | (kept, Err failed) =>
          match fa_error failed with
          | JournalRowTooLarge row =>
              persist_rejection pending (oc_recovery_wait config) (row_to_rejection row_message row)
          | error =>
              match failed_retry failed with
              | Never => Ret (Err error)
              | again =>
                  await random := call QRandom in
                  await now := call QClock in
                  match budget_next budget now random with
                  | None => Panic
                  | Some (budget, None) =>
                      if bool_decide (again = RetryConflict) then
                        persist_rejection pending (oc_recovery_wait config)
                          (config_stale_fence config (retries_exhausted (bu_attempt budget)))
                      else Ret (Err error)
                  | Some (budget, Some delay) =>
                      await slept := call (QBackoff delay) in
                      transaction_loop fuel s config pending step kept budget
                  end
              end
          end
      end
  end.

(** crates/evt/src/store.rs:928-987 [Store::execute_transaction]

    Every repetition spends an attempt, so the budget's attempts are enough. *)
Definition execute_transaction `{A : Aggregate} {S : Type} (s : Store Op)
    (identity : CommandIdentity) (metadata : Metadata) (step : PrepareStep S) (kept : S)
  : Prog Op (Result (CommandOutcome unit)) :=
  match (let? config := outcomes_config s in
         let? pending := freeze_command config identity metadata in
         Ok (config, pending)) with
  | Err error => Ret (Err error)
  | Ok (config, pending) =>
      await started := call QClock in
      transaction_loop (Z.to_nat (Z.max (rp_max_attempts (oc_retry config)) 1)) s config pending
        step kept (budget_new (oc_retry config) started)
  end.
End transaction.
