(* ===== verification/TransactionOutcome.v ===== *)
(** * What a transaction holds

    The invariant of a transaction while it is built, against any backend that represents a log:
    every stream it read was read at some head of the log, the events it appended continue from
    there whatever metadata they are stamped with, and the handles of its reads hold the state
    after them. Reading and appending keep it. *)

From S2P Require Import Prelude Types Features Outcome Projection Repository Retry Program Settle Store.
From S2P Require Import Transaction MemRefinement LogBackend StoreLoad StoreExecute.

(** ** Stamps *)

Section stamps.
Context `{A : Aggregate} `{!AggregateLaws A}.

(** Serialized events differ by their metadata only. *)
Lemma serialize_events_stamp id events m m' : ∀ sequence serialized,
  serialize_events id sequence events m = Ok serialized →
  serialize_events id sequence events m' = Ok (map (λ e, with_metadata e m') serialized).
Proof.
  induction events as [|event events IH]; intros sequence serialized Hs; simpl in *.
  { by injection Hs as <-. }
  destruct (checked_next sequence) as [s'|]; [|done]. cbn [ok_or result_bind] in *.
  destruct (ag_to_payload event) as [payload|]; [|done]. cbn [result_bind] in *.
  destruct (serialize_events id s' events m) as [rest|] eqn:Hr; [|done].
  cbn [result_bind] in *. injection Hs as <-. by rewrite (IH _ _ Hr).
Qed.

Lemma stamped_replay id events sequence serialized m state :
  0 ≤ sequence → serialize_events id sequence events Metadata_default = Ok serialized →
  fold_left apply_stored (map (λ e, with_metadata e m) serialized) (Some state) =
  Some (fold_left ag_apply events state).
Proof.
  intros Hnn Hs. apply (serialize_events_stamp _ _ _ m) in Hs.
  by destruct (serialize_events_ok _ _ _ _ _ Hnn Hs) as (_ & _ & _ & Hf).
Qed.
End stamps.

(** ** The invariant *)

Section invariant.
Context `{EntityKinds} {X : Type}.
Implicit Types (a : Abs) (tx : Transaction X) (st : StreamState X).

(** The log as the transaction would leave it, from the head it read. *)
Definition staged_log a st (m : Metadata) : list SerializedEvent :=
  take (Z.to_nat (ss_head st)) (log_of a (ss_entity_id st)) ++ stamped_events m st.

Record stream_staged a st : Prop := {
  ts_head : 0 ≤ ss_head st ≤ llen (log_of a (ss_entity_id st));
  ts_numbered : numbered (ss_head st + 1) (ss_events st);
  ts_snapshot : ∀ new m, ss_snapshot st = Some new →
    ∃ state, @ag_from_json (kind (ss_entity_id st)) (ns_payload new) = Ok state ∧
      @replay_log (kind (ss_entity_id st)) (staged_log a st m) = Some state
}.

Record tx_ok a tx : Prop := {
  tk_ids : NoDup (map ss_entity_id (tx_streams tx));
  tk_streams : ∀ st, st ∈ tx_streams tx → stream_staged a st
}.

Lemma staged_log_le a a' st m :
  abs_le a a' → stream_staged a st → staged_log a' st m = staged_log a st m.
Proof.
  intros [Hle _] [[Hnn Hh] _ _]. unfold staged_log. f_equal. apply take_prefix; [apply Hle|].
  unfold llen in *. lia.
Qed.

Lemma stream_staged_le a a' st : abs_le a a' → stream_staged a st → stream_staged a' st.
Proof.
  intros Hle Hst. split; [|apply Hst|].
  - destruct Hst as [Hh _ _]. pose proof (prefix_length _ _ (proj1 Hle (ss_entity_id st))) as Hlen.
    unfold log_of, llen in *. lia.
  - intros new m Hnew. rewrite (staged_log_le a a'); [|done..]. by apply Hst.
Qed.

Lemma tx_ok_le a a' tx : abs_le a a' → tx_ok a tx → tx_ok a' tx.
Proof. intros Hle [Hnd Hst]. split; [done|]. intros st Hin. by apply (stream_staged_le a), Hst. Qed.

(** Everything else in a transaction may change. *)
Lemma tx_ok_same a tx tx' : tx_streams tx' = tx_streams tx → tx_ok a tx → tx_ok a tx'.
Proof. intros Heq [Hnd Hst]. split; by rewrite Heq. Qed.

(** The handle of a read: it is for one of the transaction's streams, and unless an append failed
    half-way it holds the state after the appended events. *)
Record read_ok `{A : Aggregate} a tx (id : EntityId) (read : Read X) : Prop := {
  ro_transaction : rd_transaction read = tx_id tx;
  ro_entity : ld_entity_id (rd_loaded read) = id;
  ro_stream : ∃ st, tx_streams tx !! rd_index read = Some st ∧ ss_entity_id st = id ∧
    rd_base_sequence read = ss_head st ∧
    (tx_poisoned tx = false →
       ld_sequence (rd_loaded read) = ss_head st + llen (ss_events st) ∧
       ∀ m, replay_log (staged_log a st m) = Some (ld_aggregate (rd_loaded read)))
}.

Lemma read_ok_le `{A : Aggregate} a a' tx id read :
  abs_le a a' → tx_ok a tx → read_ok a tx id read → read_ok a' tx id read.
Proof.
  intros Hle Htx [Ht Hid (st & Hl & Hst & Hb & Hrest)]. split; [done|done|]. exists st.
  split; [done|]. split; [done|]. split; [done|]. intros Hp. destruct (Hrest Hp) as [Hseq Hrep].
  split; [done|]. intros m. rewrite (staged_log_le a a'); [done|done|].
  apply (tk_streams _ _ Htx). by eapply list_elem_of_lookup_2.
Qed.

(** ** Reading *)

Lemma check_unread_ok tx id :
  check_unread tx id = Ok tt → id ∉ map ss_entity_id (tx_streams tx).
Proof.
  unfold check_unread. destruct (existsb _ _) eqn:He; [done|]. intros _ Hin.
  apply list_elem_of_fmap in Hin as (st & -> & Hin). apply not_true_iff_false in He.
  apply He, existsb_exists. exists st. split; [by apply list_elem_of_In|].
  by apply bool_decide_eq_true.
Qed.

Lemma read_loaded_ok `{A : Aggregate} a tx loaded tx' r :
  tx_ok a tx → loaded_ok (log_of a (ld_entity_id loaded)) (ld_entity_id loaded) loaded →
  read_loaded tx loaded = (tx', r) →
  tx_ok a tx' ∧ tx_poisoned tx' = tx_poisoned tx ∧ tx_id tx' = tx_id tx ∧
  tx_outcomes tx' = tx_outcomes tx ∧ tx_command tx' = tx_command tx ∧
  tx_streams tx `prefix_of` tx_streams tx' ∧
  ∀ read, r = Ok read → read_ok a tx' (ld_entity_id loaded) read ∧
    rd_index read = length (tx_streams tx) ∧
    ld_aggregate (rd_loaded read) = ld_aggregate loaded.
Proof.
  intros Htx Hl. unfold read_loaded.
  destruct (result_bind (check_open tx) _) as [[]|e] eqn:Hc; [|by intros [= <- <-]].
  apply check_bind_ok in Hc as [_ Hc]. apply check_unread_ok in Hc.
  set (st := mkStreamState (ld_entity_id loaded) ag_TYPE (ld_sequence loaded)
    (ld_seen_command_ids loaded) [] None [] "").
  intros [= <- <-]. destruct Htx as [Hnd Hst]. destruct Hl as [_ Hr Hrep].
  split; [split|]; cbn [set_tx_streams set_tx_read_failure tx_streams tx_poisoned tx_id tx_outcomes tx_command].
  - rewrite map_app. apply NoDup_app. split; [done|]. split; [|apply NoDup_singleton].
    intros x Hx Hin. apply list_elem_of_singleton in Hin as ->. by apply Hc.
  - intros st' [Hin|Hin]%elem_of_app; [by apply Hst|]. apply list_elem_of_singleton in Hin as ->.
    split; [done|done|]. by intros new m.
  - do 4 (split; [done|]). split; [by apply prefix_app_r|]. intros read [= <-].
    split; [|split; [simpl; rewrite length_app; simpl; lia|done]].
    split; [done|done|]. exists st. simpl. rewrite length_app. simpl.
    replace (length (tx_streams tx) + 1 - 1)%nat with (length (tx_streams tx)) by lia.
    split; [by apply list_lookup_middle|]. split; [done|]. split; [done|]. intros _.
    split; [unfold llen; simpl; lia|]. intros m. unfold staged_log, stamped_events. simpl.
    by rewrite app_nil_r.
Qed.

(** A read leaves the handles of earlier ones. *)
Lemma read_ok_extends `{A : Aggregate} a tx tx' id read :
  tx_id tx' = tx_id tx → tx_poisoned tx' = tx_poisoned tx →
  tx_streams tx `prefix_of` tx_streams tx' → read_ok a tx id read → read_ok a tx' id read.
Proof.
  intros Hid Hp Hpre [Ht He (st & Hl & Hrest)]. split; [congruence|done|]. exists st.
  rewrite Hp. split; [by eapply prefix_lookup_Some|done].
Qed.
End invariant.

(** ** Appending *)

Section append.
Context `{SerdeJson} `{EntityKinds} `{A : Aggregate} `{!AggregateLaws A} {X : Type}.
Implicit Types (a : Abs) (tx : Transaction X) (st : StreamState X) (read : Read X).

Lemma derived_snapshot_ok tx read st serialized operations interval ops new state :
  derived_snapshot tx read st serialized operations interval = Ok (ops, Some new, state) →
  ag_to_json (ld_aggregate (rd_loaded read)) = Ok (ns_payload new).
Proof.
  unfold derived_snapshot. cbv zeta.
  destruct (0 <? snapshot_events_due _ _ _); cbn [orb].
  - destruct (ag_to_json _) as [text|]; [|done]. cbn [result_bind].
    destruct (last serialized) as [e|]; [|done]. unfold within_budget.
    destruct (snapshot_fits _) as [[]|]; [|done..]. cbn [result_bind].
    intros Hr. by injection Hr as _ <- _.
  - destruct (if negb _ then _ else _); [|done]. cbn [result_bind]. done.
Qed.

(** The stream and the handle after events were appended. *)
Lemma stream_appended_ok a st id `{!HasKind id A} aggregate events serialized ops snapshot state :
  ss_entity_id st = id → stream_staged a st →
  (∀ m, replay_log (staged_log a st m) = Some aggregate) →
  serialize_events id (ss_head st + llen (ss_events st)) events Metadata_default = Ok serialized →
  (∀ new, snapshot = Some new → ag_to_json (fold_left ag_apply events aggregate) = Ok (ns_payload new)) →
  let st' := stream_appended st serialized ops snapshot state in
  stream_staged a st' ∧
  (∀ m, replay_log (staged_log a st' m) = Some (fold_left ag_apply events aggregate)) ∧
  llen (ss_events st') = llen (ss_events st) + llen events.
Proof.
  intros Hid [Hh Hn Hsn] Hrep Hs Hnew st'.
  assert (0 ≤ ss_head st + llen (ss_events st)) as Hnn by (unfold llen; lia).
  destruct (serialize_events_ok _ _ _ _ _ Hnn Hs) as (Hn' & Hlen & _ & _).
  assert (∀ m, replay_log (staged_log a st' m) = Some (fold_left ag_apply events aggregate)) as Hrep'.
  { intros m. unfold staged_log, st', stamped_events. simpl. rewrite map_app, app_assoc.
    fold (stamped_events m st). fold (staged_log a st m). rewrite replay_log_app, Hrep.
    by eapply stamped_replay. }
  split; [split|split; [done|]].
  - exact Hh.
  - unfold st'. simpl. apply numbered_app. split; [done|].
    by replace (ss_head st + 1 + llen (ss_events st)) with (ss_head st + llen (ss_events st) + 1) by lia.
  - intros new m Heq. unfold st' in Heq |- *. cbn [stream_appended ss_snapshot ss_entity_id] in *.
    fold st'. rewrite Hid, has_kind.
    exists (fold_left ag_apply events aggregate). split; [by apply al_json, Hnew|apply Hrep'].
  - unfold st', llen in *. simpl. rewrite length_app. lia.
Qed.

(** What an append does to the rest of the transaction: its command and settings stay, its streams
    keep their entities and heads, and the other handles stay valid. *)
Record tx_extends tx tx' (index : nat) : Prop := {
  te_id : tx_id tx' = tx_id tx;
  te_outcomes : tx_outcomes tx' = tx_outcomes tx;
  te_command : tx_command tx' = tx_command tx;
  te_poisoned : tx_poisoned tx = true → tx_poisoned tx' = true;
  te_others : ∀ i, i ≠ index → tx_streams tx' !! i = tx_streams tx !! i
}.

Lemma tx_extends_refl tx index : tx_extends tx tx index.
Proof. by split. Qed.

Lemma read_ok_other (B : Aggregate) a tx tx' index id (other : @Read B X) :
  tx_extends tx tx' index → rd_index other ≠ index → read_ok a tx id other →
  read_ok a tx' id other.
Proof.
  intros [Hid _ _ Hp Ho] Hne [Ht He (st & Hl & Hst & Hb & Hrest)]. split; [congruence|done|].
  exists st. rewrite Ho by done. split; [done|]. split; [done|]. split; [done|]. intros Hp'.
  apply Hrest. destruct (tx_poisoned tx); [|done]. by rewrite Hp in Hp'.
Qed.

Lemma alter_stream_ok a tx index st st' :
  tx_ok a tx → tx_streams tx !! index = Some st → ss_entity_id st' = ss_entity_id st →
  stream_staged a st' → tx_ok a (set_tx_streams tx (alter (λ _, st') index (tx_streams tx))).
Proof.
  intros [Hnd Hst] Hl Hid Hst'. split; simpl.
  - replace (map ss_entity_id (alter (λ _, st') index (tx_streams tx)))
      with (map ss_entity_id (tx_streams tx)); [done|].
    apply list_eq. intros i. rewrite !list_lookup_fmap.
    destruct (decide (index = i)) as [<-|Hne].
    + by rewrite list_lookup_alter_eq, Hl; simpl; rewrite Hid.
    + by rewrite list_lookup_alter_ne.
  - intros x Hx. apply list_elem_of_lookup_1 in Hx as [i Hi].
    destruct (decide (index = i)) as [<-|Hne].
    + rewrite list_lookup_alter_eq, Hl in Hi. by injection Hi as <-.
    + rewrite list_lookup_alter_ne in Hi by done. apply Hst. by eapply list_elem_of_lookup_2.
Qed.

Lemma alter_ext_at {B} (f : B → B) (x : B) i (l : list B) :
  l !! i = Some x → alter f i l = alter (λ _, f x) i l.
Proof.
  intros Hl. apply list_eq. intros j. destruct (decide (i = j)) as [<-|Hne].
  - by rewrite !list_lookup_alter_eq, Hl.
  - by rewrite !list_lookup_alter_ne.
Qed.

(** An append never panics and keeps the transaction well formed, whether it succeeds or not; when
    it succeeds the handle's state has the events applied. *)
Lemma tx_stage_ok a tx id `{!HasKind id A} read events named interval :
  tx_ok a tx → read_ok a tx id read →
  ∃ tx' read' r, tx_stage tx read events named interval = Some (tx', read', r) ∧
    tx_ok a tx' ∧ read_ok a tx' id read' ∧ tx_extends tx tx' (rd_index read) ∧
    rd_index read' = rd_index read ∧
    (r = Ok tt → ld_aggregate (rd_loaded read') =
       fold_left ag_apply events (ld_aggregate (rd_loaded read))).
Proof.
  intros Htx Hrd. unfold tx_stage.
  assert (∀ e : Error, ∃ tx' read' r, Some (tx, read, Err e) = Some (tx', read', r) ∧
    tx_ok a tx' ∧ read_ok a tx' id read' ∧ tx_extends tx tx' (rd_index read) ∧
    rd_index read' = rd_index read ∧
    (r = Ok tt → ld_aggregate (rd_loaded read') =
       fold_left ag_apply events (ld_aggregate (rd_loaded read)))) as Hfail.
  { intros e. exists tx, read, (Err e). by do 3 (split; [done|]). }
  destruct (negb (rd_transaction read =? tx_id tx)); [apply Hfail|].
  destruct (check_open tx); [|apply Hfail]. cbv zeta.
  destruct (tx_poisoned tx) eqn:Hpo; [apply Hfail|].
  match goal with |- context [if ?c then Some (_, _, Err (ProjectorSetConflict _)) else _] =>
    destruct c end; [apply Hfail|].
  destruct (nil_b events) eqn:Hnil.
  { exists tx, read, (Ok tt). destruct events; [|done]. by do 3 (split; [done|]). }
  destruct (serialize_events _ _ _ _) as [serialized|e] eqn:Hs; [|apply Hfail].
  set (projectors := if nil_b named then _ else _).
  set (projected := if nil_b projectors then _ else _).
  destruct Hrd as [Ht He (st & Hl & Hst & Hb & Hrest)]. destruct (Hrest Hpo) as [Hseq Hrep].
  unfold stage_derived. cbn [read_applied rd_index].
  destruct (derived_operations _ _ _) as [operations|e].
  2: { eexists _, _, _. split; [reflexivity|]. split; [by apply (tx_ok_same a tx)|].
       split; [|split; [by split|by split]]. split; [done|done|]. exists st. by split_and!. }
  rewrite Hl. destruct (derived_snapshot _ _ _ _ _ _) as [[[ops snapshot] state]|e] eqn:Hd.
  2: { eexists _, _, _. split; [reflexivity|]. split; [by apply (tx_ok_same a tx)|].
       split; [|split; [by split|by split]]. split; [done|done|]. exists st. by split_and!. }
  rewrite He, Hseq in Hs. pose proof (tk_streams _ _ Htx st (list_elem_of_lookup_2 _ _ _ Hl)) as Hok.
  destruct (stream_appended_ok a st id (ld_aggregate (rd_loaded read)) events serialized ops snapshot
    state Hst Hok Hrep Hs) as (Hok' & Hrep' & Hlen).
  { intros new ->. by apply derived_snapshot_ok in Hd. }
  eexists _, _, _. split; [reflexivity|]. rewrite (alter_ext_at _ st) by done.
  split; [by eapply alter_stream_ok|]. split; [|split; [|by split]].
  - split; [done|done|]. eexists. cbn [set_tx_streams tx_streams read_appended rd_index].
    rewrite list_lookup_alter_eq, Hl. split; [reflexivity|]. split; [done|]. split; [done|].
    intros _. split; [|exact Hrep']. rewrite Hlen. cbn [read_appended rd_loaded ld_sequence stream_appended ss_head].
    destruct (serialize_events_ok id events Metadata_default (ss_head st + llen (ss_events st)) serialized)
      as (Hn & Hle & _); [unfold llen; destruct Hok as [[? _] _ _]; lia|done|].
    destruct (last serialized) as [e|] eqn:Hlast.
    + rewrite (numbered_last _ _ _ Hn Hlast). unfold llen in *. lia.
    + destruct serialized; [by destruct events|by rewrite last_cons in Hlast; destruct (last serialized)].
  - split; try done. intros i Hi. simpl. by rewrite list_lookup_alter_ne.
Qed.
End append.

(** * Committing transactions

    Against any backend that represents a log: a transaction that commits does so at one instant
    of the log, at which every stream it read was still at the head it was read at, and its
    appended events directly follow. The same holds of the rejections that are fenced on the
    reads, and a recorded outcome is the one row of its command. *)

From S2P Require Import StoreOutcome.

(** ** The instant of a commit *)

Section instant.
Context {X : Type}.
Implicit Types (a : Abs) (tx : Transaction X) (st : StreamState X).

(** Every stream the transaction read is at the head it was read at, and every fence holds. *)
Definition reads_current (log : gmap EntityId (list SerializedEvent)) tx : Prop :=
  (∀ st, st ∈ tx_streams tx → llen (log_at log (ss_entity_id st)) = ss_head st) ∧
  ∀ f, f ∈ retained_fences tx → llen (log_at log (fe_entity_id f)) = fe_head f.

(** One commit of the sequence is what the transaction appended, stream by stream. *)
Definition commit_of tx (stamped : Metadata) (batches : list (EntityId * list SerializedEvent))
  : Prop :=
  ∀ id es, (id, es) ∈ batches ↔
    ∃ st, st ∈ tx_streams tx ∧ ss_entity_id st = id ∧ stamped_events stamped st = es ∧ es ≠ [].

(** The transaction appends something. *)
Definition tx_writes tx : Prop := ∃ st, st ∈ tx_streams tx ∧ ss_events st ≠ [].

(** What a prepared commit holds of the transaction. *)
Record prepared tx (stamped : Metadata) (c : TransactionCommit X) : Prop := {
  pr_written : ∀ st, st ∈ tx_streams tx → ss_events st ≠ [] →
    ∃ c', c' ∈ tc_streams c ∧ cm_entity_id c' = ss_entity_id st ∧
      cm_events c' = stamped_events stamped st;
  pr_streams : ∀ c', c' ∈ tc_streams c →
    ∃ st, st ∈ tx_streams tx ∧ ss_events st ≠ [] ∧ cm_entity_id c' = ss_entity_id st ∧
      cm_events c' = stamped_events stamped st ∧ cm_snapshot c' = ss_snapshot st;
  pr_fences : ∀ st, st ∈ tx_streams tx → ss_events st = [] → engine_fence st ∈ tc_fences c;
  pr_retained : ∀ f, f ∈ retained_fences tx → f ∈ tc_fences c;
  pr_receipt : receipt_of_transaction c = concat (map cm_events (tc_streams c));
  pr_events : concat (map cm_events (tc_streams c)) ≡ₚ
    concat (map (stamped_events stamped) (tx_streams tx))
}.

Lemma stream_has_events_spec st : stream_has_events st = true ↔ ss_events st ≠ [].
Proof. unfold stream_has_events. by destruct (ss_events st). Qed.

Lemma stamped_nil m st : stamped_events m st = [] ↔ ss_events st = [].
Proof. unfold stamped_events. by destruct (ss_events st). Qed.

Lemma written_events stamped (l : list (StreamState X)) :
  concat (map (stamped_events stamped) (List.filter stream_has_events l)) =
  concat (map (stamped_events stamped) l).
Proof.
  induction l as [|st l IH]; [done|]. simpl. destruct (stream_has_events st) eqn:He; simpl.
  - by rewrite IH.
  - rewrite IH. replace (stamped_events stamped st) with (@nil SerializedEvent); [done|].
    symmetry. apply stamped_nil. unfold stream_has_events in He. by destruct (ss_events st).
Qed.

Lemma prepare_stamped_ok tx stamped c :
  prepare_stamped tx stamped = Ok c → prepared tx stamped c ∧ tc_outcome c = None.
Proof.
  unfold prepare_stamped. cbv zeta.
  set (le := λ a b : StreamState X, string_leb (ss_entity_id a) (ss_entity_id b)).
  set (sorted := sort_by le _). destruct (project_application _ _) as [views|]; [|done].
  cbn [result_bind]. intros Hc. injection Hc as <-. split; [|done].
  assert (∀ st, st ∈ sorted ↔ st ∈ tx_streams tx ∧ ss_events st ≠ []) as Hsorted.
  { intros st. unfold sorted. by rewrite elem_of_sort_by, elem_of_list_filter, stream_has_events_spec. }
  split; cbn [tc_streams tc_fences].
  - intros st Hin Hne. eexists. split; [by apply list_elem_of_fmap_2, Hsorted|done].
  - intros c' Hin. apply list_elem_of_fmap in Hin as (st & -> & Hin). apply Hsorted in Hin as [Hin Hne].
    by exists st.
  - intros st Hin Hnil. apply elem_of_app. right. apply list_elem_of_fmap_2, elem_of_list_filter.
    split; [done|]. unfold stream_has_events. by rewrite Hnil.
  - intros f Hf. apply elem_of_app. by left.
  - unfold receipt_of_transaction. cbn [tc_streams].
    set (commit := λ st, mkCommit _ _ _ _ _ _).
    rewrite filter_all.
    2: { apply Forall_forall. intros c' Hin. apply list_elem_of_fmap in Hin as (st & -> & Hin).
         apply Hsorted in Hin as [_ Hne]. unfold has_events. simpl.
         destruct (stamped_events stamped st) eqn:He; [|done]. by apply stamped_nil in He. }
    rewrite (sort_by_map commit le) by done.
    rewrite sort_by_id; [done|].
    apply sort_by_StronglySorted; unfold le; intros; [apply string_leb_total|by eapply string_leb_trans].
  - rewrite map_map. simpl. rewrite <-(written_events stamped (tx_streams tx)). unfold sorted.
    by rewrite (Permutation_map (stamped_events stamped) (sort_by_Permutation le _)).
Qed.

(** The commit of a rejection that is fenced on everything read. *)
Lemma fenced_current a a' tx (c : TransactionCommit X) :
  tc_streams c = [] → tc_fences c = map engine_fence (tx_streams tx) ++ retained_fences tx →
  transaction_applied a a' c → reads_current (ab_log a) tx.
Proof.
  intros Hs Hf Happ.
  assert (∀ f, f ∈ tc_fences c → llen (log_of a (fe_entity_id f)) = fe_head f) as Hall.
  { intros f Hin. apply (ta_fences _ _ _ Happ f Hin). intros (c' & Hc' & _). rewrite Hs in Hc'.
    by apply not_elem_of_nil in Hc'. }
  rewrite Hf in Hall. split.
  - intros st Hin. apply (Hall (engine_fence st)). apply elem_of_app. left.
    by apply list_elem_of_fmap_2.
  - intros f Hin. apply Hall, elem_of_app. by right.
Qed.

Lemma numbered_follow first events log :
  numbered 1 (log ++ events) → numbered (first + 1) events → events ≠ [] → first = llen log.
Proof.
  intros [_ Hn]%numbered_app Hn' Hne. destruct events as [|e es]; [done|].
  destruct Hn as [He _], Hn' as [He' _]. lia.
Qed.

Lemma numbered_stamped first m st : numbered first (ss_events st) → numbered first (stamped_events m st).
Proof.
  unfold stamped_events. generalize (ss_events st). intros l. revert first.
  induction l as [|e l IH]; intros first; simpl; [done|]. intros [He Hn]. split; [done|by apply IH].
Qed.

(** A prepared commit that applied did so on current reads. *)
Lemma prepared_applied `{EntityKinds} a a' tx stamped (c : TransactionCommit X) :
  tx_ok a tx → prepared tx stamped c → transaction_applied a a' c →
  reads_current (ab_log a) tx ∧
  (tx_writes tx → ∃ batches, ab_commits a' = ab_commits a ++ [batches] ∧ commit_of tx stamped batches).
Proof.
  intros Htx Hp Happ.
  assert (∀ st, st ∈ tx_streams tx → llen (log_of a (ss_entity_id st)) = ss_head st) as Hall.
  { intros st Hin. destruct (decide (ss_events st = [])) as [Hnil|Hne].
    - destruct (ta_fences _ _ _ Happ (engine_fence st)) as [Hlog Hh]; [by apply Hp| |].
      + intros (c' & Hc' & Hid & _). destruct (pr_streams _ _ _ Hp c' Hc') as (st' & Hin' & Hne & Hid' & _).
        apply Hne. replace st' with st; [done|].
        apply (NoDup_fmap_eq ss_entity_id (tx_streams tx)); [apply Htx|done..|by rewrite <-Hid', Hid].
      + exact Hh.
    - destruct (pr_written _ _ _ Hp st Hin Hne) as (c' & Hc' & Hid & Hev).
      assert (stamped_events stamped st ≠ []) as Hne' by (by rewrite stamped_nil).
      destruct (ta_streams _ _ _ Happ c' Hc') as [Hlog Hn]; [by rewrite Hev|].
      rewrite Hid, Hev in *.
      pose proof (numbered_stamped _ stamped _ (ts_numbered _ _ (tk_streams _ _ Htx st Hin))) as Hn'.
      destruct (stamped_events stamped st); [done|]. destruct Hn as [He _], Hn' as [He' _]. lia. }
  split; [split; [exact Hall|]|].
  - intros f Hin. apply (ta_fences _ _ _ Happ f); [by apply Hp|]. intros (c' & Hc' & Hid & _).
    destruct (pr_streams _ _ _ Hp c' Hc') as (st & Hst & _ & Hid' & _).
    unfold retained_fences in Hin. apply elem_of_list_filter in Hin as [_ Hno].
    apply negb_true_iff, not_true_iff_false in Hno. apply Hno. unfold reads_stream.
    apply existsb_exists. exists st. split; [by apply list_elem_of_In|].
    apply bool_decide_eq_true. congruence.
  - intros (st & Hin & Hne). destruct (ta_commit _ _ _ Happ) as (batches & Hc & Hb).
    { destruct (pr_written _ _ _ Hp st Hin Hne) as (c' & Hc' & Hid & Hev).
      exists (ss_entity_id st), c'. rewrite Hev, stamped_nil. by split_and!. }
    exists batches. split; [done|]. intros id es. rewrite Hb. split.
    + intros (c' & Hc' & <- & <- & Hne'). destruct (pr_streams _ _ _ Hp c' Hc') as (st' & ? & ? & ? & ? & _).
      by exists st'.
    + intros (st' & Hst' & <- & <- & Hne'). rewrite stamped_nil in Hne'.
      destruct (pr_written _ _ _ Hp st' Hst' Hne') as (c' & Hc' & Hid & Hev).
      exists c'. rewrite stamped_nil. by split_and!.
Qed.
End instant.

(** ** Commits as calls *)

Section outcomes.
Context `{SerdeJson} `{EntityKinds} {X W : Type} `{LogBackend X W}.
Implicit Types (g : Abs * W) (tx : Transaction X).

(** The [n]-th point of the sequence of commits: not before [before], and everything the
    transaction read was current there. *)
Definition instant (before : Abs) g tx (n : nat) : Prop :=
  (length (ab_commits before) ≤ n ≤ length (ab_commits g.1))%nat ∧
  reads_current (log_after (take n (ab_commits g.1))) tx.

(** The transaction took effect at an instant: the commit there is what it appended. *)
Definition committed_at (before : Abs) g tx (stamped : Metadata) : Prop :=
  ∃ n, instant before g tx n ∧
    (tx_writes tx → ∃ batches, ab_commits g.1 !! n = Some batches ∧ commit_of tx stamped batches).

(** Everything it read was current at an instant. *)
Definition checked_at (before : Abs) g tx : Prop := ∃ n, instant before g tx n.

Lemma instant_le before g g' tx n :
  abs_le g.1 g'.1 → instant before g tx n → instant before g' tx n.
Proof.
  intros (_ & _ & Hle) [Hn Hcur]. pose proof (prefix_length _ _ Hle) as Hlen. split; [lia|].
  rewrite (take_prefix _ _ _ Hle); [done|lia].
Qed.

Lemma instant_before before before' g tx n :
  abs_le before before' → instant before' g tx n → instant before g tx n.
Proof.
  intros (_ & _ & Hle) [Hn Hcur]. pose proof (prefix_length _ _ Hle) as Hlen. split; [lia|done].
Qed.

(** The end of the sequence as it was before a call. *)
Lemma instant_now (before : Abs) g1 g2 tx :
  abs_le before g1.1 → abs_le g1.1 g2.1 → reads_current (ab_log g1.1) tx →
  instant before g2 tx (length (ab_commits g1.1)).
Proof.
  intros (_ & _ & Hb) (_ & _ & Hle) Hcur. split.
  - split; by apply prefix_length.
  - destruct Hle as [k ->]. by rewrite take_app_length.
Qed.

Lemma committed_at_le before g g' tx stamped :
  abs_le g.1 g'.1 → committed_at before g tx stamped → committed_at before g' tx stamped.
Proof.
  intros Hle (n & Hn & Hc). exists n. split; [by eapply instant_le|]. intros Hw.
  destruct (Hc Hw) as (batches & Hl & Hb). exists batches. split; [|done].
  eapply prefix_lookup_Some; [done|apply Hle].
Qed.

Lemma committed_at_before before before' g tx stamped :
  abs_le before before' → committed_at before' g tx stamped → committed_at before g tx stamped.
Proof. intros Hle (n & Hn & Hc). exists n. split; [by eapply instant_before|done]. Qed.

Lemma checked_at_le before g g' tx :
  abs_le g.1 g'.1 → checked_at before g tx → checked_at before g' tx.
Proof. intros Hle (n & Hn). exists n. by eapply instant_le. Qed.

Lemma checked_at_before before before' g tx :
  abs_le before before' → checked_at before' g tx → checked_at before g tx.
Proof. intros Hle (n & Hn). exists n. by eapply instant_before. Qed.

(** A snapshot written with a prepared commit is faithful. *)
Lemma prepared_snapshot a a' tx stamped (c : TransactionCommit X) id sn :
  tx_ok a tx → prepared tx stamped c → (∀ id, numbered 1 (log_of a' id)) →
  snapshot_written a a' (QCommitTransaction c) id sn → @faithful (kind id) (log_of a' id) sn.
Proof.
  intros Htx Hp Hn (c' & Hc' & -> & Hne & Hlog & new & Hnew & ->).
  destruct (pr_streams _ _ _ Hp c' Hc') as (st & Hin & _ & Hid & Hev & Hsn).
  pose proof (tk_streams _ _ Htx st Hin) as Hst. rewrite Hid, Hev, Hsn in *.
  specialize (Hn (ss_entity_id st)). rewrite Hlog in Hn |- *.
  pose proof (numbered_stamped _ stamped _ (ts_numbered _ _ Hst)) as Hn'.
  pose proof (numbered_follow _ _ _ Hn Hn' Hne) as Hhead.
  destruct (ts_snapshot _ _ Hst new stamped Hnew) as (state & Hj & Hrep).
  unfold staged_log in Hrep. rewrite Hhead in Hrep. rewrite take_ge in Hrep by (unfold llen; lia).
  split; [unfold llen; simpl; lia|]. exists state. split; [done|]. simpl.
  rewrite take_ge by (unfold llen; lia). done.
Qed.

Lemma prepared_with_outcome tx stamped (c : TransactionCommit X) outcome :
  prepared tx stamped c → prepared tx stamped (with_transaction_outcome c outcome).
Proof. intros []. by split. Qed.

(** The events of a transaction, in the order its streams are stored. *)
Definition tx_events tx (stamped : Metadata) (es : list SerializedEvent) : Prop :=
  es ≡ₚ concat (map (stamped_events stamped) (tx_streams tx)).

Lemma prepared_call_ensures tx stamped (c : TransactionCommit X) g :
  store_inv g → tx_ok g.1 tx → prepared tx stamped c →
  ensures store_inv (call (QCommitTransaction c))
    (λ r g', ∀ es, r = Ok es →
       tx_events tx stamped es ∧ es = receipt_of_transaction c ∧ committed_at g.1 g' tx stamped ∧
       ∀ o, tc_outcome c = Some o → ab_outcomes g.1 !! oc_command_id o = None ∧
         row_of (oc_command_id o) (outcome_stored o (map ev_id es)) g') g.
Proof.
  intros Hg Htx Hp. apply ensures_call; [done|]. intros g1 r g2 Hg1 Hle Hc.
  pose proof (tx_ok_le _ _ _ Hle Htx) as Htx1. pose proof Hc as (_ & Hle2 & Hr2 & Hreply & _). split.
  - apply (store_inv_step _ g1 r g2 Hg1 Hc). intros id sn Hw.
    eapply prepared_snapshot; [exact Htx1|exact Hp| |exact Hw]. intros id'.
    by eapply represents_numbered.
  - intros es ->. destruct (Hreply _ eq_refl) as [-> Happ].
    destruct (prepared_applied _ _ _ _ _ Htx1 Hp Happ) as [Hcur Hwr].
    split; [unfold tx_events; rewrite (pr_receipt _ _ _ Hp); apply Hp|]. split; [done|].
    split.
    { exists (length (ab_commits g1.1)). split; [by apply instant_now|]. intros Hwr'.
      destruct (Hwr Hwr') as (batches & -> & Hb). exists batches. split; [|done].
      by apply list_lookup_middle. }
    intros o Ho.
    destruct (ta_outcome _ _ _ Happ o Ho) as [Hnone Hrow]. split; [|done].
    by apply (fresh_before g.1 g1.1).
Qed.

(** The commit of a rejection that writes nothing. *)
Lemma fenced_call_ensures tx outcome g :
  store_inv g →
  let c := with_transaction_outcome
    (mkTransactionCommit [] (map engine_fence (tx_streams tx) ++ retained_fences tx) [] [] None) outcome in
  ensures store_inv (call (QCommitTransaction c))
    (λ r g', ∀ es, r = Ok es → es = [] ∧ checked_at g.1 g' tx ∧
       ab_outcomes g.1 !! oc_command_id outcome = None ∧
       row_of (oc_command_id outcome) (outcome_stored outcome []) g') g.
Proof.
  intros Hg c. apply ensures_call; [done|]. intros g1 r g2 Hg1 Hle Hc.
  pose proof Hc as (_ & Hle2 & _ & Hreply & _). split.
  - apply (store_inv_step _ g1 r g2 Hg1 Hc). by intros id sn (c' & Hin%not_elem_of_nil & _).
  - intros es ->. destruct (Hreply _ eq_refl) as [-> Happ]. split; [done|]. split.
    + exists (length (ab_commits g1.1)). apply instant_now; [done|done|].
      by apply (fenced_current g1.1 g2.1 tx c).
    + destruct (ta_outcome _ _ _ Happ outcome eq_refl) as [Hnone Hrow]. split; [|done].
      by apply (fresh_before g.1 g1.1).
Qed.

(** ** Settled commits *)

(** What a call that records an outcome returns: the row of the command under its digest. Fresh, no
    row existed at [before], and it is an engine rejection without events, or [P] holds. *)
Definition tx_records (before : Abs) (pending : PendingCommand)
    (P : CommandOutcome unit → Abs * W → Prop) (r : Result (CommandOutcome unit)) g : Prop :=
  ∀ co, r = Ok co →
    row_of (pc_command_id pending) (co_outcome co) g ∧
    oc_digest (co_outcome co) = pc_digest pending ∧
    (co_replayed co = false →
       ab_outcomes before !! pc_command_id pending = None ∧
       oc_event_ids (co_outcome co) = map ev_id (co_events co) ∧
       ((co_events co = [] ∧ oc_status (co_outcome co) = Rejected) ∨ P co g)).

Lemma engine_records before pending window rejection P g :
  store_inv g → abs_le before g.1 → 0 ≤ window →
  ensures store_inv (persist_rejection (Op := X) pending window rejection)
    (tx_records before pending P) g.
Proof.
  intros Hg Hb Hw. eapply ensures_mono; [|by apply persist_rejection_ensures].
  intros r g1 _ _ Hr co ->. destruct (Hr co eq_refl) as (Hrow & Hdig & Hfresh).
  split; [done|]. split; [done|]. intros Hnew.
  destruct (Hfresh Hnew) as (Hst & Hids & Hev & Hty & Hnone). rewrite Hids, Hev.
  split; [by apply (fresh_before before g.1)|]. split; [done|]. by left.
Qed.

Lemma commit_settled_ensures before tx pending (c : TransactionCommit X) outcome
    (Q : list SerializedEvent → Abs * W → Prop) g :
  store_inv g → abs_le before g.1 → 0 ≤ tx_recovery_wait tx →
  oc_command_id outcome = pc_command_id pending → oc_digest outcome = pc_digest pending →
  receipt_of_transaction c = concat (map cm_events (tc_streams c)) →
  (∀ es, stable store_inv (λ _ : unit, Q es)) →
  ensures store_inv (call (QCommitTransaction (with_transaction_outcome c outcome)))
    (λ r g', ∀ es, r = Ok es → es = receipt_of_transaction c ∧ Q es g' ∧
       ab_outcomes g.1 !! oc_command_id outcome = None ∧
       row_of (oc_command_id outcome) (outcome_stored outcome (map ev_id es)) g') g →
  ensures store_inv (commit_settled tx pending c outcome)
    (tx_records before pending (λ co g', Q (co_events co) g' ∧
       oc_status (co_outcome co) = oc_status outcome)) g.
Proof.
  intros Hg Hb Hw Hcid Hdig Hrec HQ Hcall. unfold commit_settled.
  cbn [transaction_stored_outcome with_transaction_outcome tc_outcome tc_streams].
  apply ensures_bind. eapply ensures_mono, Hcall. intros receipt g1 Hg1 Hle1 Hr.
  set (settled := match receipt with
    | Err (FenceConflict _ _ Caller) => persist_stale_fence tx pending | _ => _ end).
  assert (ensures store_inv
    (let '(result, committed) := split_receipt receipt in
     await? settled :=
       settle (Op := X) (pc_command_id pending) (pc_digest pending) (tx_recovery_wait tx) result in
     Ret (Ok (settled_outcome settled
       (outcome_stored outcome
          (concat (map (λ stream, map ev_id (cm_events stream)) (tc_streams c)))) committed [])))
    (tx_records before pending (λ co g', Q (co_events co) g' ∧
       oc_status (co_outcome co) = oc_status outcome)) g1) as Hsettle.
  { destruct (split_receipt receipt) as [result committed] eqn:Hs.
    apply ensures_try. eapply ensures_mono; [|by apply settle_ensures].
    intros [settlement|e] g2 Hg2 Hle2 Hset; [|done]. apply ensures_ret; [done|].
    intros co [= <-]. destruct settlement as [|o]; simpl.
    - destruct receipt as [es|e]; simpl in Hs; [|by rewrite Hset in Hs].
      injection Hs as <- <-. destruct (Hr es eq_refl) as (-> & HQes & Hnone & Hrow).
      assert (concat (map (λ stream, map ev_id (cm_events stream)) (tc_streams c)) =
        map ev_id (receipt_of_transaction c)) as -> by (by rewrite Hrec, concat_map, map_map).
      rewrite Hcid in *. split; [by eapply row_of_le|]. split; [done|]. intros _.
      split; [by apply (fresh_before before g.1)|]. split; [done|]. right. split; [|done].
      by apply (HQ _ tt g1 g2).
    - destruct Hset as [Hrow Hd]. by split. }
  unfold settled. destruct receipt as [es|e]; [exact Hsettle|].
  destruct e as []; try exact Hsettle.
  match goal with p : FenceProvenance |- _ => destruct p end; [exact Hsettle|].
  apply engine_records; [done|by etransitivity|done].
Qed.

(** ** Carrying a decision out *)

Lemma stamp_ensures metadata g :
  store_inv g → ensures store_inv (stamp_commit_id (Op := X) metadata) (λ _ _, True) g.
Proof.
  intros Hg. unfold stamp_commit_id. destruct (non_empty _); [by apply ensures_ret|].
  destruct (is_empty _); [|by apply ensures_ret].
  apply ensures_bind, ensures_quiet; [done|done|]. intros _ cid g1 _ _ _ Hg1. by apply ensures_ret.
Qed.

Lemma tx_ready_ensures tx g :
  store_inv g → ensures store_inv (tx_ready_projectors tx) (λ _ _, True) g.
Proof.
  intros Hg. unfold tx_ready_projectors. destruct (negb _); [by apply ensures_ret|].
  by apply ready_projectors_ensures.
Qed.

Lemma prepare_ensures tx metadata g :
  store_inv g →
  ensures store_inv (prepare tx metadata)
    (λ r _, ∀ c, r = Ok c → ∃ stamped, prepared tx stamped c) g.
Proof.
  intros Hg. unfold prepare. destruct (tx_poisoned tx); [by apply ensures_ret|].
  destruct (tx_late_commit_projector tx); [by apply ensures_ret|].
  apply ensures_bind. eapply ensures_mono; [|by apply stamp_ensures]. intros stamped g1 Hg1 _ _.
  apply ensures_ret; [done|]. intros c Hc. exists stamped.
  destruct (non_empty _); [destruct (seen_by_read _ _); [done|]|]; by apply prepare_stamped_ok in Hc as [? _].
Qed.

(** Preparing a transaction, and what follows. *)
Lemma prepare_then_ensures {B} tx metadata (k : TransactionCommit X → Prog X (Result B))
    (Q : Result B → Abs * W → Prop) before g :
  store_inv g → abs_le before g.1 → tx_ok g.1 tx → (∀ e g', Q (Err e) g') →
  (∀ stamped c g', store_inv g' → abs_le before g'.1 → tx_ok g'.1 tx → prepared tx stamped c →
     ensures store_inv (k c) Q g') →
  ensures store_inv
    (await? ready := tx_ready_projectors tx in await? commit := prepare tx metadata in k commit) Q g.
Proof.
  intros Hg Hb Htx Herr Hk. apply ensures_try. eapply ensures_mono; [|by apply tx_ready_ensures].
  intros [[]|e] g1 Hg1 Hle1 _; [|apply Herr]. apply ensures_try.
  eapply ensures_mono; [|by apply prepare_ensures].
  intros [c|e] g2 Hg2 Hle2 Hc; [|apply Herr]. destruct (Hc c eq_refl) as [stamped Hp].
  assert (abs_le g.1 g2.1) as Hle by (by etransitivity).
  apply (Hk stamped); [done|by etransitivity|by eapply tx_ok_le|done].
Qed.

(** What a decision did. An accepted command's events were all added at one instant, at which
    everything the transaction read was current; so were those of a rejection with events; a
    rejection without events was recorded at such an instant too. A command that would be accepted
    is rejected when the client expected other versions. *)
Definition carried (before : Abs) tx (d : Decision) (co : CommandOutcome unit) g : Prop :=
  let committed :=
    ∃ stamped, tx_events tx stamped (co_events co) ∧ committed_at before g tx stamped in
  let checked := co_events co = [] ∧ checked_at before g tx in
  match d, oc_status (co_outcome co) with
  | Accept _, Accepted => committed
  | Accept _, Rejected => checked
  | Reject _, Rejected => checked
  | RejectWithEvents _, Rejected => committed
  | _, Accepted => False
  end.

Lemma carried_le before tx d co g g' :
  abs_le g.1 g'.1 → carried before tx d co g → carried before tx d co g'.
Proof.
  intros Hle. unfold carried.
  destruct d, (oc_status (co_outcome co)); try done;
    first [intros (stamped & ? & ?); exists stamped; split; [done|by eapply committed_at_le]
          |intros [? ?]; split; [done|by eapply checked_at_le]].
Qed.

Lemma tx_records_mono before pending (P P' : CommandOutcome unit → Abs * W → Prop) r g :
  (∀ co, P co g → P' co g) → tx_records before pending P r g → tx_records before pending P' r g.
Proof. intros HP Hr co ->. destruct (Hr co eq_refl) as (? & ? & Hfresh). naive_solver. Qed.

(** A prepared commit with an outcome. *)
Lemma commit_prepared_ensures before tx pending stamped (c : TransactionCommit X) outcome g :
  store_inv g → abs_le before g.1 → tx_ok g.1 tx → 0 ≤ tx_recovery_wait tx → prepared tx stamped c →
  oc_command_id outcome = pc_command_id pending → oc_digest outcome = pc_digest pending →
  ensures store_inv (commit_settled tx pending c outcome)
    (tx_records before pending (λ co g', oc_status (co_outcome co) = oc_status outcome ∧
       tx_events tx stamped (co_events co) ∧ committed_at before g' tx stamped)) g.
Proof.
  intros Hg Hb Htx Hw Hp Hcid Hdig.
  eapply ensures_mono; [|eapply (commit_settled_ensures before tx pending c outcome
    (λ es g', tx_events tx stamped es ∧ committed_at before g' tx stamped)); try done; [apply Hp| |]].
  - intros r g1 _ _. apply tx_records_mono. intros co [? ?]. by split.
  - intros es [] g1 g2 _ _ Hle [? ?]. split; [done|]. by eapply committed_at_le.
  - eapply ensures_mono; [|by apply (prepared_call_ensures tx stamped), prepared_with_outcome].
    intros r g1 _ _ Hr es ->. destruct (Hr es eq_refl) as (Hev & -> & Hat & Hout).
    destruct (Hout outcome eq_refl) as [Hnone Hrow]. split; [done|]. split; [|done]. split; [done|].
    by apply (committed_at_before before g.1).
Qed.

Lemma commit_rejection_fenced_ensures before tx pending rejection g :
  store_inv g → abs_le before g.1 → 0 ≤ tx_recovery_wait tx →
  ensures store_inv
    (commit_rejection tx pending rejection
       (mkTransactionCommit [] (map engine_fence (tx_streams tx) ++ retained_fences tx) [] [] None))
    (tx_records before pending (λ co g', oc_status (co_outcome co) = Rejected ∧
       co_events co = [] ∧ checked_at before g' tx)) g.
Proof.
  intros Hg Hb Hw. unfold commit_rejection.
  destruct (canonical_rejection rejection) as [rej|e]; [|by apply ensures_ret].
  eapply ensures_mono; [|eapply (commit_settled_ensures before tx pending _ (pending_rejected pending rej)
    (λ es g', es = [] ∧ checked_at before g' tx)); try done].
  - intros r g1 _ _. apply tx_records_mono. intros co [? ?]. by split.
  - intros es [] g1 g2 _ _ Hle [? ?]. split; [done|]. by eapply checked_at_le.
  - eapply ensures_mono; [|by apply fenced_call_ensures].
    intros r g1 _ _ Hr es ->. destruct (Hr es eq_refl) as (-> & Hat & Hnone & Hrow).
    split; [done|]. split; [|done]. split; [done|].
    by apply (checked_at_before before g.1).
Qed.

Lemma take_command_ok tx pending : take_command tx = Ok pending → tx_command tx = Some pending.
Proof.
  unfold take_command. destruct (check_open tx); [|done]. simpl.
  destruct (tx_outcomes_config tx); [|done]. simpl. destruct (tx_command tx); [|done].
  by intros [= ->].
Qed.

Lemma tx_reject_ensures before tx pending rejection g :
  store_inv g → abs_le before g.1 → 0 ≤ tx_recovery_wait tx → tx_command tx = Some pending →
  ensures store_inv (tx_reject tx rejection)
    (tx_records before pending (λ co g', oc_status (co_outcome co) = Rejected ∧
       co_events co = [] ∧ checked_at before g' tx)) g.
Proof.
  intros Hg Hb Hw Hc. unfold tx_reject.
  destruct (take_command tx) as [pending'|e] eqn:Ht; [|by apply ensures_ret]. cbn [result_bind].
  apply take_command_ok in Ht. assert (pending' = pending) as -> by congruence.
  destruct (tx_poisoned tx); [by apply ensures_ret|].
  destruct (seen_by_read _ _); [by apply ensures_ret|]. by apply commit_rejection_fenced_ensures.
Qed.

Lemma commit_accepted_ensures before tx pending response g :
  store_inv g → abs_le before g.1 → tx_ok g.1 tx → 0 ≤ tx_recovery_wait tx →
  tx_command tx = Some pending →
  ensures store_inv (commit_accepted tx response)
    (tx_records before pending (carried before tx (Accept response))) g.
Proof.
  intros Hg Hb Htx Hw Hc. unfold commit_accepted.
  destruct (take_command tx) as [pending'|e] eqn:Ht; [|by apply ensures_ret].
  apply take_command_ok in Ht. assert (pending' = pending) as -> by congruence.
  apply (prepare_then_ensures tx _ _ _ before); [done|done|done|done|].
  intros stamped c g1 Hg1 Hb1 Htx1 Hp.
  eapply ensures_mono; [|by eapply (commit_prepared_ensures before tx pending stamped); try done; destruct response].
  intros r g2 _ _. apply tx_records_mono. intros co (Hst & Hev & Hat). unfold carried.
  rewrite Hst. destruct response; by exists stamped.
Qed.

Lemma commit_with_outcome_ensures before tx pending response g :
  store_inv g → abs_le before g.1 → tx_ok g.1 tx → 0 ≤ tx_recovery_wait tx →
  tx_command tx = Some pending →
  ensures store_inv (commit_with_outcome tx response)
    (tx_records before pending (carried before tx (Accept response))) g.
Proof.
  intros Hg Hb Htx Hw Hc. unfold commit_with_outcome.
  destruct (bool_decide _); [by apply commit_accepted_ensures|].
  destruct (result_bind _ _) as [[|stale rest]|e]; [by apply commit_accepted_ensures| |by apply ensures_ret].
  eapply ensures_mono; [|by apply tx_reject_ensures]. intros r g1 _ _. apply tx_records_mono.
  intros co (Hst & Hev & Hat). unfold carried. rewrite Hst. by split.
Qed.

Lemma tx_reject_with_events_ensures before tx pending rejection g :
  store_inv g → abs_le before g.1 → tx_ok g.1 tx → 0 ≤ tx_recovery_wait tx →
  tx_command tx = Some pending →
  ensures store_inv (tx_reject_with_events tx rejection)
    (tx_records before pending (carried before tx (RejectWithEvents rejection))) g.
Proof.
  intros Hg Hb Htx Hw Hc. unfold tx_reject_with_events.
  destruct (take_command tx) as [pending'|e] eqn:Ht; [|by apply ensures_ret].
  apply take_command_ok in Ht. assert (pending' = pending) as -> by congruence.
  apply (prepare_then_ensures tx _ _ _ before); [done|done|done|done|].
  intros stamped c g1 Hg1 Hb1 Htx1 Hp. unfold commit_rejection.
  destruct (canonical_rejection rejection) as [rej|e]; [|by apply ensures_ret].
  eapply ensures_mono; [|by eapply (commit_prepared_ensures before tx pending stamped)].
  intros r g2 _ _. apply tx_records_mono. intros co (Hst & Hev & Hat). unfold carried.
  rewrite Hst. by exists stamped.
Qed.

Lemma carry_out_ensures before tx pending d g :
  store_inv g → abs_le before g.1 → tx_ok g.1 tx → 0 ≤ tx_recovery_wait tx →
  tx_command tx = Some pending →
  ensures store_inv (carry_out tx d) (tx_records before pending (carried before tx d)) g.
Proof.
  intros Hg Hb Htx Hw Hc. destruct d as [response|rejection|rejection].
  - by apply commit_with_outcome_ensures.
  - eapply ensures_mono; [|by apply tx_reject_ensures]. intros r g1 _ _. apply tx_records_mono.
    intros co (Hst & Hev & Hat). unfold carried. rewrite Hst. by split.
  - by apply tx_reject_with_events_ensures.
Qed.

(** ** Transactions without outcomes *)

Lemma tx_commit_ensures before tx metadata g :
  store_inv g → abs_le before g.1 → tx_ok g.1 tx →
  ensures store_inv (tx_commit tx metadata)
    (λ r g', ∀ es, r = Ok es →
       ∃ stamped, tx_events tx stamped es ∧ committed_at before g' tx stamped) g.
Proof.
  intros Hg Hb Htx. unfold tx_commit. destruct (tx_outcomes tx); [by apply ensures_ret|].
  apply (prepare_then_ensures tx _ _ _ before); [done|done|done|done|].
  intros stamped c g1 Hg1 Hb1 Htx1 Hp.
  eapply ensures_mono; [|by apply (prepared_call_ensures tx stamped)].
  intros r g2 _ _ Hr es ->. destruct (Hr es eq_refl) as (Hev & _ & Hat & _).
  exists stamped. split; [done|]. by apply (committed_at_before before g1.1).
Qed.

(** ** Attempts and retries *)

Lemma tx_read_ensures `{A : Aggregate} `{!AggregateLaws A} (error_text : Error → string) tx id
    `{!HasKind id A} g :
  store_inv g → tx_ok g.1 tx →
  ensures store_inv (tx_read error_text tx id)
    (λ r g', tx_ok g'.1 r.1 ∧ tx_poisoned r.1 = tx_poisoned tx ∧ tx_id r.1 = tx_id tx ∧
       tx_outcomes r.1 = tx_outcomes tx ∧ tx_command r.1 = tx_command tx ∧
       tx_streams tx `prefix_of` tx_streams r.1 ∧
       ∀ read, r.2 = Ok read → read_ok g'.1 r.1 id read ∧
         rd_index read = length (tx_streams tx)) g.
Proof.
  intros Hg Htx. unfold tx_read.
  destruct (result_bind _ _) as [[]|e]; [|by apply ensures_ret].
  apply ensures_bind. eapply ensures_mono; [|by apply load_ensures].
  intros [loaded|e] g1 Hg1 Hle Hl; apply ensures_ret; try done.
  - specialize (Hl _ eq_refl). pose proof (tx_ok_le _ _ _ Hle Htx) as Htx1.
    pose proof (lk_entity _ _ _ Hl) as Hid.
    destruct (read_loaded tx loaded) as [tx' r] eqn:Hr.
    destruct (read_loaded_ok g1.1 tx loaded tx' r Htx1) as (? & ? & ? & ? & ? & ? & Hread);
      [by rewrite Hid|done|]. rewrite Hid in Hread. simpl. split_and!; try done.
    intros read Heq. by destruct (Hread read Heq) as (? & ? & _).
  - simpl. split_and!; try done. by apply (tx_ok_same g1.1 tx), (tx_ok_le g.1).
Qed.
End outcomes.
