(* ===== verification/TransactionSystem.v ===== *)
(** * Transactions as a concurrent system

    Commands over several streams, run by any number of clients at once: whatever the steps that
    build the transactions read and append, each command takes effect at one instant. *)

From S2P Require Import Prelude Types Features Outcome Projection Repository Retry Program Settle Store.
From S2P Require Import Transaction MemRefinement LogBackend MemBackend StoreLoad StoreExecute.
From S2P Require Import StoreOutcome StoreSamples TransactionOutcome.
From S2P Require Import Samples Mem.

Section execute.
Context `{SerdeJson} `{EntityKinds} `{A : Aggregate} {X W : Type} `{LogBackend X W}.
Context (error_text : Error → string) (row_message : RowTooLarge → string).
Implicit Types (g : Abs * W) (tx : Transaction X) (s : Store X).

(** ** The caller's step *)

(** What is known of the transactions a step decides on, at a log that only grows. *)
Definition decides_stable (D : Abs → Transaction X → Decision → Prop) : Prop :=
  ∀ a a' tx d, abs_le a a' → tx_ok a tx → D a tx d → D a' tx d.

(** A step that builds its transaction through the operations: it keeps the invariant and the
    command, whatever runs beside it, and [D] holds of what it decides. *)
Definition step_ok {S} (config : OutcomeConfig) (pending : PendingCommand)
    (D : Abs → Transaction X → Decision → Prop) (step : PrepareStep S) : Prop :=
  ∀ kept tx g, store_inv g → tx_ok g.1 tx → tx_streams tx = [] → tx_poisoned tx = false →
    tx_command tx = Some pending → tx_outcomes tx = Some config →
    ensures store_inv (step kept tx)
      (λ r g', ∀ d, r.2 = Ok d → tx_ok g'.1 r.1.2 ∧ tx_command r.1.2 = Some pending ∧
         tx_outcomes r.1.2 = Some config ∧ D g'.1 r.1.2 d) g.

(** What a command recorded: as [tx_records], by a decision [D] holds of. *)
Definition tx_recorded (before : Abs) (pending : PendingCommand)
    (D : Abs → Transaction X → Decision → Prop) : Result (CommandOutcome unit) → Abs * W → Prop :=
  tx_records before pending
    (λ co g, ∃ tx d, tx_ok g.1 tx ∧ D g.1 tx d ∧ carried before tx d co g).

Lemma tx_recorded_stable before pending D :
  decides_stable D → stable store_inv (tx_recorded before pending D).
Proof.
  intros HD r g g' _ _ Hle Hr co ->. destruct (Hr co eq_refl) as (Hrow & Hdig & Hfresh).
  split; [by eapply row_of_le|]. split; [done|]. intros Hnew.
  destruct (Hfresh Hnew) as (Hnone & Hids & [He|(tx & d & Htx & Hd & Hc)]);
    (split; [done|]); (split; [done|]); [by left|right].
  exists tx, d. split; [by eapply tx_ok_le|]. split; [by eapply HD|by eapply carried_le].
Qed.

Lemma begin_frozen_ensures tx pending g :
  store_inv g → tx_ok g.1 tx →
  ensures store_inv (begin_frozen tx pending)
    (λ r g', match r.2 with
             | Ok Proceed => r.1 = set_tx_command tx (Some pending)
             | Ok (BeginReplayed co) =>
                 co_replayed co = true ∧ row_of (pc_command_id pending) (co_outcome co) g' ∧
                 oc_digest (co_outcome co) = pc_digest pending
             | Err _ => True
             end) g.
Proof.
  intros Hg Htx. unfold begin_frozen. destruct (result_bind _ _); [|by apply ensures_ret].
  unfold begin_pending, pre_check. apply ensures_bind, ensures_try, ensures_quiet; [done|done|].
  intros g0 stored g1 _ _ Hp Hg1. destruct Hp as (_ & _ & _ & Hreply & _).
  destruct stored as [[stored|]|e]; [|by apply ensures_ret; [|apply ensures_ret]|by apply ensures_ret].
  specialize (Hreply _ eq_refl). apply ensures_ret; [done|]. unfold same_command.
  destruct (bool_decide_reflect (oc_digest stored = pc_digest pending)); by apply ensures_ret.
Qed.

Lemma attempt_transaction_ensures {S} before s config pending D (step : PrepareStep S) kept g :
  so_outcomes s = Some config → 0 ≤ oc_recovery_wait config → decides_stable D →
  step_ok config pending D step → store_inv g → abs_le before g.1 →
  ensures store_inv (attempt_transaction error_text s pending step kept)
    (λ r g', ∀ co, r.2 = Ok co → tx_recorded before pending D (Ok co) g') g.
Proof.
  intros Hout Hw Hsd Hstep Hg Hb. unfold attempt_transaction, store_transaction.
  apply ensures_bind, ensures_bind, ensures_quiet; [done|done|].
  intros g0 id g1 _ Hle0 Hp Hg1. destruct Hp as (_ & Hle1 & _).
  set (tx := mkTransaction id _ _ _ _ _ _ _ _ _ _ _ _ _). apply ensures_ret; [done|].
  assert (tx_ok g1.1 tx) as Htx.
  { split; [apply NoDup_nil_2|]. by intros st Hin%not_elem_of_nil. }
  apply ensures_bind. eapply ensures_mono; [|by apply begin_frozen_ensures].
  intros [tx1 [[|co]|e]] g2 Hg2 Hle2 Hbegin; simpl in Hbegin; [| |by apply ensures_ret].
  2: { apply ensures_ret; [done|]. intros co1 [= <-] co2 [= <-].
       destruct Hbegin as (Hrep & Hrow & Hdig). split; [done|]. split; [done|]. by rewrite Hrep. }
  subst tx1. apply ensures_bind.
  eapply ensures_mono; [|apply (Hstep kept (set_tx_command tx (Some pending))); try done;
    by apply (tx_ok_same g2.1 tx), (tx_ok_le g1.1)].
  intros [[kept' tx2] [d|e]] g3 Hg3 Hle3 Hd; [|by apply ensures_ret].
  destruct (Hd d eq_refl) as (Htx2 & Hcmd & Hout2 & HD). simpl in *.
  assert (abs_le before g3.1) as Hb3 by (rewrite Hb, Hle0, Hle1, Hle2; exact Hle3).
  apply ensures_bind, ensures_map_err. eapply ensures_mono;
    [|apply (carry_out_ensures before tx2 pending d); try done; by unfold tx_recovery_wait; rewrite Hout2].
  intros r g4 Hg4 Hle4 Hr. apply ensures_ret; [done|]. intros co Hco.
  destruct r as [co'|e]; [|done]. simpl in Hco. injection Hco as ->. revert Hr.
  apply tx_records_mono. intros co' Hc. exists tx2, d. split; [by eapply tx_ok_le|].
  split; [by eapply Hsd|done].
Qed.

Lemma transaction_loop_ensures {S} before s config pending D (step : PrepareStep S) n :
  ∀ kept budget g,
  so_outcomes s = Some config → policy_ok (oc_retry config) → 0 ≤ oc_recovery_wait config →
  decides_stable D → step_ok config pending D step →
  bu_policy budget = oc_retry config → 1 ≤ bu_attempt budget →
  Z.of_nat n = Z.max (rp_max_attempts (oc_retry config)) 1 - bu_attempt budget + 1 → (0 < n)%nat →
  store_inv g → abs_le before g.1 →
  ensures store_inv
    (transaction_loop error_text row_message n s config pending step kept budget)
    (tx_recorded before pending D) g.
Proof.
  induction n as [|n IH]; intros kept budget g Hout Hpol Hw Hsd Hstep Hbp Hatt Hn Hpos Hg Hb; [lia|].
  cbn [transaction_loop]. apply ensures_bind.
  eapply ensures_mono; [|by apply (attempt_transaction_ensures before s config pending D step)].
  intros [kept' r] g1 Hg1 Hle1 Hr. assert (abs_le before g1.1) as Hb1 by (by etransitivity).
  destruct r as [co|failed].
  { apply ensures_ret; [done|]. by apply Hr. }
  assert (∀ error again, ensures store_inv
    (await random := call (QRandom (Op := X)) in
     await now := call (QClock (Op := X)) in
     match budget_next budget now random with
     | None => Panic
     | Some (budget, None) =>
         if bool_decide (again = RetryConflict) then
           persist_rejection pending (oc_recovery_wait config)
             (config_stale_fence config (retries_exhausted (bu_attempt budget)))
         else Ret (Err error)
     | Some (budget, Some delay) =>
         await slept := call (QBackoff (Op := X) delay) in
         transaction_loop error_text row_message n s config pending step kept' budget
     end) (tx_recorded before pending D) g1) as Hagain.
  { intros error again. apply ensures_bind, ensures_quiet; [done|done|].
    intros g0 random g2 _ Hle0 Hp Hg2. destruct Hp as (_ & Hle2 & _ & Hrand & _). simpl in Hrand.
    apply ensures_bind, ensures_quiet; [done|done|]. intros g3 now g4 _ Hle3 Hp Hg4.
    destruct Hp as (_ & Hle4 & _).
    assert (abs_le before g4.1) as Hb4 by (rewrite Hb1, Hle0, Hle2, Hle3; exact Hle4).
    destruct (budget_next_some budget now random) as (b' & o & Hnext & _); [by rewrite Hbp|done|done|].
    rewrite Hnext. destruct o as [d|].
    - apply budget_next_attempts in Hnext as (Ha & Hp' & _ & Hlt). rewrite Hbp in Hlt.
      apply ensures_bind, ensures_quiet; [done|done|]. intros g5 [] g6 _ Hle5 Hp Hg6.
      destruct Hp as (_ & Hle6 & _).
      apply IH; try done; [congruence|lia|lia|lia|by do 2 (etransitivity; [eassumption|])].
    - destruct (bool_decide _); [by apply engine_records|by apply ensures_ret]. }
  destruct (fa_error failed); try (by apply engine_records);
    (destruct (failed_retry failed); [by apply ensures_ret|apply Hagain..]).
Qed.

Lemma execute_transaction_ensures {S} s config identity metadata pending D (step : PrepareStep S)
    kept g :
  so_outcomes s = Some config → freeze_command config identity metadata = Ok pending →
  policy_ok (oc_retry config) → 0 ≤ oc_recovery_wait config →
  decides_stable D → step_ok config pending D step → store_inv g →
  ensures store_inv
    (execute_transaction error_text row_message s identity metadata step kept)
    (tx_recorded g.1 pending D) g.
Proof.
  intros Hout Hf Hpol Hw Hsd Hstep Hg. unfold execute_transaction, outcomes_config.
  rewrite Hout. cbn [ok_or result_bind]. rewrite Hf. cbn [result_bind].
  apply ensures_bind, ensures_quiet; [done|done|]. intros g0 started g1 _ Hle0 Hp Hg1.
  destruct Hp as (_ & Hle1 & _).
  apply transaction_loop_ensures; try done; [simpl; lia..|by etransitivity].
Qed.
End execute.

(** ** Clients *)

Section clients.
Context `{SerdeJson} `{EntityKinds} `{A : Aggregate} {X W : Type} `{LogBackend X W}.

(** A client's command over several streams, and what is known of what its step decides. *)
Record TxRequest (S : Type) := mkTxRequest {
  tq_store : Store X;
  tq_identity : CommandIdentity;
  tq_metadata : Metadata;
  tq_step : PrepareStep (Op := X) S;
  tq_kept : S;
  tq_config : OutcomeConfig;
  tq_pending : PendingCommand;
  tq_decides : Abs → Transaction X → Decision → Prop
}.
Arguments mkTxRequest {S}.
Arguments tq_store {S}.
Arguments tq_identity {S}.
Arguments tq_metadata {S}.
Arguments tq_step {S}.
Arguments tq_kept {S}.
Arguments tq_config {S}.
Arguments tq_pending {S}.
Arguments tq_decides {S}.

Record tx_request_ok {S} (q : TxRequest S) : Prop := {
  to_outcomes : so_outcomes (tq_store q) = Some (tq_config q);
  to_freeze : freeze_command (tq_config q) (tq_identity q) (tq_metadata q) = Ok (tq_pending q);
  to_policy : policy_ok (oc_retry (tq_config q));
  to_window : 0 ≤ oc_recovery_wait (tq_config q);
  to_stable : decides_stable (tq_decides q);
  to_step : step_ok (W := W) (tq_config q) (tq_pending q) (tq_decides q) (tq_step q)
}.

Definition run_tx_request {S} (error_text : Error → string) (row_message : RowTooLarge → string)
    (q : TxRequest S) : Prog X (Result (CommandOutcome unit)) :=
  execute_transaction error_text row_message (tq_store q) (tq_identity q) (tq_metadata q)
    (tq_step q) (tq_kept q).

(** C9. Commands over several streams are serializable. Any number of clients execute such
    commands at once, each with a step of its own that reads and appends through the transaction;
    whatever interleaves, whatever is retried, no client panics or loops, and an outcome that is
    returned is the command's one row under its digest. Fresh, its command had no row at the start;
    it is a rejection by the engine, without events, or the decision of the step, taken at one point
    of the sequence of commits: every stream the transaction read, written or not, was still at the
    head it was read at and every fence held, and the commit there is exactly what it appended. *)
Theorem concurrent_transactions_are_serializable {S} (error_text : Error → string)
    (row_message : RowTooLarge → string) (env : W → W → Prop) (requests : list (TxRequest S))
    (a : Abs) (w w' : W) ps' :
  tolerated env → store_inv (a, w) → Forall tx_request_ok requests →
  rtc (pool_step env) (w, map (run_tx_request error_text row_message) requests) (w', ps') →
  ∃ a', store_inv (a', w') ∧ abs_le a a' ∧ Forall healthy ps' ∧
    ∀ i q co, requests !! i = Some q → ps' !! i = Some (Ret (Ok co)) →
      tx_recorded a (tq_pending q) (tq_decides q) (Ok co) (a', w').
Proof.
  intros Henv Hi Hok Hrtc. rewrite Forall_lookup in Hok.
  destruct (store_clients_sound env
    (λ i r g, ∀ q, requests !! i = Some q → tx_recorded a (tq_pending q) (tq_decides q) r g)
    a w (map (run_tx_request error_text row_message) requests) ps' w')
    as (a' & Hi' & Hle & Hp & Hall); try done.
  - intros i r g g' Hg Hg' Hle' Hr q Hq. eapply tx_recorded_stable; [apply (Hok i q Hq)| | | |by apply Hr];
      done.
  - intros i p Hp. rewrite list_lookup_fmap in Hp.
    destruct (requests !! i) as [q|] eqn:Hq; [|done]. injection Hp as <-.
    destruct (Hok i q Hq) as [Hout Hf Hpol Hw Hsd Hst].
    eapply ensures_mono; [|by eapply execute_transaction_ensures].
    intros r g _ _ Hr q' [= <-]. exact Hr.
  - exists a'. do 3 (split; [done|]). intros i q co Hq Hc. by apply (Hall i _ Hc q Hq).
Qed.

(** Commits of transactions are serializable. Any number of well-formed transactions are
    committed at once without outcomes; each that succeeds returns the events it appended, and took
    effect at one point of the sequence of commits, at which every stream it read, written or not,
    was still at the head it was read at: the commit there is exactly what it appended. *)
Theorem concurrent_commits_are_serializable (env : W → W → Prop)
    (txs : list (Transaction X * Metadata)) (a : Abs) (w w' : W) ps' :
  tolerated env → store_inv (a, w) → Forall (λ t, tx_ok a t.1) txs →
  rtc (pool_step env) (w, map (λ t, tx_commit t.1 t.2) txs) (w', ps') →
  ∃ a', store_inv (a', w') ∧ abs_le a a' ∧ Forall healthy ps' ∧
    ∀ i t es, txs !! i = Some t → ps' !! i = Some (Ret (Ok es)) →
      ∃ stamped, tx_events t.1 stamped es ∧ committed_at a (a', w') t.1 stamped.
Proof.
  intros Henv Hi Hok Hrtc. rewrite Forall_lookup in Hok.
  destruct (store_clients_sound env
    (λ i r g, ∀ t es, txs !! i = Some t → r = Ok es →
       ∃ stamped, tx_events t.1 stamped es ∧ committed_at a g t.1 stamped)
    a w (map (λ t, tx_commit t.1 t.2) txs) ps' w') as (a' & Hi' & Hle & Hp & Hall); try done.
  - intros i r g g' _ _ Hle' Hr t es Ht Hes. destruct (Hr t es Ht Hes) as (stamped & ? & ?).
    exists stamped. split; [done|]. by eapply committed_at_le.
  - intros i p Hp. rewrite list_lookup_fmap in Hp. destruct (txs !! i) as [t|] eqn:Ht; [|done].
    injection Hp as <-. eapply ensures_mono; [|by apply (tx_commit_ensures a); [| |apply (Hok i)]].
    intros r g _ _ Hr t' es [= <-] Hes. by apply Hr.
  - exists a'. do 3 (split; [done|]). intros i t es Ht Hc. by apply (Hall i _ Hc t es Ht).
Qed.
End clients.
Arguments TxRequest {A} X S.
Arguments mkTxRequest {A X S}.

(** ** Runs on the in-memory repository *)

Section witnesses.
#[local] Existing Instance sample_json.
#[local] Existing Instance text_aggregate.

Definition no_text (_ : Error) : string := "".

(** A step that reads two streams and appends to one of them. *)
Definition append_step : PrepareStep (Op := Empty_set) unit := λ kept tx,
  await first := tx_read no_text tx "t" in
  match first with
  | (tx, Err error) => Ret (kept, tx, Err error)
  | (tx, Ok read) =>
      await second := tx_read (A := text_aggregate) no_text tx "u" in
      match second with
      | (tx, Err error) => Ret (kept, tx, Err error)
      | (tx, Ok other) =>
          match append tx read ["x"%string] with
          | None => Panic
          | Some (tx, _, Err error) => Ret (kept, tx, Err error)
          | Some (tx, _, Ok _) => Ret (kept, tx, Ok (Accept None))
          end
      end
  end.

(** It only ever accepts. *)
Definition appends_one (_ : Abs) (_ : Transaction Empty_set) (d : Decision) : Prop :=
  d = Accept None.

Lemma append_step_ok config pending :
  step_ok (W := World) config pending appends_one append_step.
Proof.
  intros kept tx g Hg Htx Hst Hp Hc Ho. unfold append_step. apply ensures_bind.
  eapply ensures_mono; [|by apply (tx_read_ensures no_text tx "t")].
  intros [tx1 [read|e]] g1 Hg1 Hle1 (Htx1 & Hp1 & Hid1 & Ho1 & Hc1 & Hpre1 & Hread); simpl in *;
    [|by apply ensures_ret].
  destruct (Hread read eq_refl) as [Hr Hi]. apply ensures_bind.
  eapply ensures_mono; [|by apply (tx_read_ensures no_text tx1 "u")].
  intros [tx2 [other|e]] g2 Hg2 Hle2 (Htx2 & Hp2 & Hid2 & Ho2 & Hc2 & Hpre2 & _); simpl in *;
    [|by apply ensures_ret].
  assert (read_ok g2.1 tx2 "t" read) as Hr2.
  { apply (read_ok_extends g2.1 tx1); [done|done|done|]. by apply (read_ok_le g1.1). }
  unfold append, append_with.
  edestruct (tx_stage_ok g2.1 tx2 "t" read ["x"%string] [])
    as (tx3 & read3 & res & Hs & Htx3 & _ & [_ Ho3 Hc3 _ _] & _); [done|exact Hr2|].
  rewrite Hs. destruct res as [[]|e]; (apply ensures_ret; [done|]); [|done].
  intros d [= <-]. simpl. split; [done|]. split; [congruence|]. split; [congruence|done].
Qed.

Definition tx_request (command_id : CommandId) : TxRequest Empty_set unit :=
  mkTxRequest (text_store (Some text_config)) (mkCommandIdentity "Append" ["t"%string] "x")
    (text_metadata (Some command_id)) append_step tt text_config
    (mkPending command_id "x" (mkIdentity "Append" ["t"%string] None) (text_metadata (Some command_id)))
    appends_one.

Lemma tx_request_is_ok : tx_request_ok (W := World) (tx_request "k").
Proof.
  split; [reflexivity|reflexivity|split; vm_compute; intuition congruence|done| |apply append_step_ok].
  by intros a a' tx d _ _.
Qed.

(** The same command sent by two clients at once. *)
Definition tx_race : World * list (Prog Empty_set (Result (CommandOutcome unit))) :=
  schedule (concat (repeat (turns [0; 1]) 14))%nat
    (empty_world, map (run_tx_request no_text no_message) [tx_request "k"; tx_request "k"]).

Lemma concurrent_transactions_are_serializable_witness :
  ∃ co a' (tx : Transaction Empty_set),
    tx_race.2 !! 0%nat = Some (Ret (Ok co)) ∧ co_replayed co = false ∧
    carried abs_initial tx (Accept None) co (a', tx_race.1).
Proof.
  assert (∃ co, tx_race.2 !! 0%nat = Some (Ret (Ok co)) ∧ co_replayed co = false ∧
    oc_status (co_outcome co) = Accepted) as (co & Hrun & Hfresh & Hst).
  { eexists. vm_compute. repeat split. }
  destruct (concurrent_transactions_are_serializable no_text no_message maintenance
    [tx_request "k"; tx_request "k"] abs_initial empty_world tx_race.1 tx_race.2)
    as (a' & _ & _ & _ & Hall).
  - apply maintenance_tolerated.
  - apply empty_world_inv.
  - constructor; [exact tx_request_is_ok|]. apply Forall_singleton, tx_request_is_ok.
  - rewrite <-surjective_pairing. apply schedule_steps. vm_compute. reflexivity.
  - destruct (Hall 0%nat (tx_request "k") co eq_refl Hrun co eq_refl) as (_ & _ & Hf).
    destruct (Hf Hfresh) as (_ & _ & [[_ Hrej]|(tx & d & _ & Hd & Hc)]); [congruence|].
    exists co, a', tx. split; [exact Hrun|]. split; [exact Hfresh|]. unfold appends_one in Hd.
    simpl in Hd. unfold appends_one in Hd. subst d. exact Hc.
Defined.

(** Two transactions that each read both streams and write one of them. *)
Definition skewed (written : EntityId) (id : EntityId) : StreamState Empty_set :=
  mkStreamState id "Text" 0 ∅
    (if bool_decide (id = written) then
       [mkEvent (for_event id 1) 1 "Appended" 1 id "Text" "x" Metadata_default]
     else []) None [] "".

Definition skewed_tx (written : EntityId) : Transaction Empty_set :=
  mkTransaction 1 "mem" 5 0 (map (skewed written) ["t"; "u"]%string) [] [] false false false None
    None None ∅.

Lemma skewed_tx_ok written : tx_ok abs_initial (skewed_tx written).
Proof.
  split.
  - apply (bool_decide_unpack _). vm_compute. done.
  - intros st (id & -> & _)%list_elem_of_fmap. split; simpl.
    + split; [done|]. unfold llen. lia.
    + destruct (bool_decide _); simpl; [by split|done].
    + done.
Qed.

Definition skew_race : World * list (Prog Empty_set (Result (list SerializedEvent))) :=
  schedule (turns [0; 1; 0; 1; 0; 1])%nat
    (empty_world, map (λ t, tx_commit t.1 t.2)
       [(skewed_tx "t", Metadata_default); (skewed_tx "u", Metadata_default)]).

Lemma concurrent_commits_are_serializable_witness :
  ∃ es e a' stamped, skew_race.2 = [Ret (Ok es); Ret (Err e)] ∧
    committed_at abs_initial (a', skew_race.1) (skewed_tx "t") stamped.
Proof.
  assert (∃ es e, skew_race.2 = [Ret (Ok es); Ret (Err e)]) as (es & e & Hrun)
    by (eexists _, _; vm_compute; reflexivity).
  destruct (concurrent_commits_are_serializable maintenance
    [(skewed_tx "t", Metadata_default); (skewed_tx "u", Metadata_default)] abs_initial empty_world
    skew_race.1 skew_race.2) as (a' & _ & _ & _ & Hall).
  - apply maintenance_tolerated.
  - apply empty_world_inv.
  - constructor; [apply skewed_tx_ok|]. apply Forall_singleton, skewed_tx_ok.
  - rewrite <-surjective_pairing. apply schedule_steps. vm_compute. reflexivity.
  - rewrite Hrun in Hall.
    destruct (Hall 0%nat (skewed_tx "t", Metadata_default) es eq_refl eq_refl) as (stamped & _ & Hat).
    exists es, e, a', stamped. split; [exact Hrun|exact Hat].
Defined.
End witnesses.
