(* ===== verification/Sha256.v ===== *)
(** * Hashing

    [sha256.rs] in full, on 32-bit words with their wrap-around, and the bytes of a command's
    identity that [outcome.rs] hashes. *)

From S2P Require Import Prelude Types Base64 Settle.

(** ** Words *)

(** [u32] arithmetic: [wrapping_add], [rotate_right], [!]. *)
Definition u32_wrapping_add (a b : Z) : Z := (a + b) mod 2 ^ 32.
Definition rotate_right (x n : Z) : Z :=
  Z.lor (Z.shiftr x n) (Z.shiftl x (32 - n) mod 2 ^ 32).
Definition u32_not (x : Z) : Z := Z.lxor x (2 ^ 32 - 1).

(** The bytes of a string, and [to_be_bytes] and [to_le_bytes] on a number of [n] bytes. *)
Definition bytes_of (s : string) : list Z := map byte_to_Z (String.list_ascii_of_string s).

Fixpoint to_le_bytes (n : nat) (z : Z) : list Z :=
  match n with
  | O => []
  | S n => z mod 256 :: to_le_bytes n (z / 256)
  end.

Definition to_be_bytes (n : nat) (z : Z) : list Z := reverse (to_le_bytes n z).

(** [u32::from_be_bytes]. *)
Definition from_be_bytes (bytes : list Z) : Z := fold_left (λ acc b, acc * 256 + b) bytes 0.

(** [slice.chunks_exact(n)]: the whole chunks, the remainder left out. *)
Fixpoint chunks_exact_from {A} (fuel n : nat) (l : list A) : list (list A) :=
  match fuel with
  | O => []
  | S fuel =>
      if (length l <? n)%nat then [] else take n l :: chunks_exact_from fuel n (drop n l)
  end.

Definition chunks_exact {A} (n : nat) (l : list A) : list (list A) :=
  chunks_exact_from (length l) n l.

(** ** SHA-256 *)

(** The 32-bit words a number is written with, the first in its highest bits. *)
Fixpoint packed_words (n : nat) (z : Z) : list Z :=
  match n with
  | O => []
  | S n => (z / 2 ^ (32 * Z.of_nat n)) mod 2 ^ 32 :: packed_words n z
  end.

(** crates/evt/src/sha256.rs:7-16 [ROUND_CONSTANTS]

    A row of the source's table is one number here. *)
Definition ROUND_CONSTANTS : list Z := Eval vm_compute in
  concat (map (packed_words 8) [
    0x428a2f98_71374491_b5c0fbcf_e9b5dba5_3956c25b_59f111f1_923f82a4_ab1c5ed5;
    0xd807aa98_12835b01_243185be_550c7dc3_72be5d74_80deb1fe_9bdc06a7_c19bf174;
    0xe49b69c1_efbe4786_0fc19dc6_240ca1cc_2de92c6f_4a7484aa_5cb0a9dc_76f988da;
    0x983e5152_a831c66d_b00327c8_bf597fc7_c6e00bf3_d5a79147_06ca6351_14292967;
    0x27b70a85_2e1b2138_4d2c6dfc_53380d13_650a7354_766a0abb_81c2c92e_92722c85;
    0xa2bfe8a1_a81a664b_c24b8b70_c76c51a3_d192e819_d6990624_f40e3585_106aa070;
    0x19a4c116_1e376c08_2748774c_34b0bcb5_391c0cb3_4ed8aa4a_5b9cca4f_682e6ff3;
    0x748f82ee_78a5636f_84c87814_8cc70208_90befffa_a4506ceb_bef9a3f7_c67178f2
  ]).

(** crates/evt/src/sha256.rs:18-20 [INITIAL_STATE] *)
Definition INITIAL_STATE : list Z := Eval vm_compute in
  packed_words 8
    0x6a09e667_bb67ae85_3c6ef372_a54ff53a_510e527f_9b05688c_1f83d9ab_5be0cd19.

(** The element of an array at an index below its length. *)
Definition word_at (words : list Z) (i : nat) : Z := default 0 (words !! i).

(** crates/evt/src/sha256.rs:64-75 [compress]

    One word of the message schedule. *)
Definition extend_schedule (schedule : list Z) (i : nat) : list Z :=
  let w15 := word_at schedule (i - 15) in
  let s0 := Z.lxor (Z.lxor (rotate_right w15 7) (rotate_right w15 18)) (Z.shiftr w15 3) in
  let w2 := word_at schedule (i - 2) in
  let s1 := Z.lxor (Z.lxor (rotate_right w2 17) (rotate_right w2 19)) (Z.shiftr w2 10) in
  <[i := u32_wrapping_add
           (u32_wrapping_add (u32_wrapping_add (word_at schedule (i - 16)) s0)
             (word_at schedule (i - 7))) s1]> schedule.

(** crates/evt/src/sha256.rs:60-75 [compress] *)
Definition message_schedule (block : list Z) : list Z :=
  let words := map from_be_bytes (chunks_exact 4 block) in
  fold_left extend_schedule (seq 16 48) (take 64 words ++ replicate (64 - length words) 0).

(** The eight working variables [a] to [h]. *)
Record Working := mkWorking {
  wk_a : Z; wk_b : Z; wk_c : Z; wk_d : Z; wk_e : Z; wk_f : Z; wk_g : Z; wk_h : Z
}.

(** crates/evt/src/sha256.rs:79-99 [compress]

    One round. *)
Definition round (schedule : list Z) (w : Working) (i : nat) : Working :=
  let '(mkWorking a b c d e f g h) := w in
  let s1 := Z.lxor (Z.lxor (rotate_right e 6) (rotate_right e 11)) (rotate_right e 25) in
  let choice := Z.lxor (Z.land e f) (Z.land (u32_not e) g) in
  let temp1 :=
    u32_wrapping_add
      (u32_wrapping_add (u32_wrapping_add (u32_wrapping_add h s1) choice)
        (word_at ROUND_CONSTANTS i)) (word_at schedule i) in
  let s0 := Z.lxor (Z.lxor (rotate_right a 2) (rotate_right a 13)) (rotate_right a 22) in
  let majority := Z.lxor (Z.lxor (Z.land a b) (Z.land a c)) (Z.land b c) in
  let temp2 := u32_wrapping_add s0 majority in
  mkWorking (u32_wrapping_add temp1 temp2) a b c (u32_wrapping_add d temp1) e f g.

(** crates/evt/src/sha256.rs:59-104 [compress] *)
Definition compress (state block : list Z) : list Z :=
  let schedule := message_schedule block in
  let start :=
    mkWorking (word_at state 0) (word_at state 1) (word_at state 2) (word_at state 3)
      (word_at state 4) (word_at state 5) (word_at state 6) (word_at state 7) in
  let '(mkWorking a b c d e f g h) := fold_left (round schedule) (seq 0 64) start in
  zip_with u32_wrapping_add state [a; b; c; d; e; f; g; h].

(** crates/evt/src/sha256.rs:29-31 [sha256]

    The loop that pushes zeros, run at most [fuel] times; [None] is a loop that has not ended. *)
Fixpoint pad_zeros (fuel : nat) (padded : list Z) : option (list Z) :=
  if llen padded mod 64 =? 56 then Some padded
  else match fuel with
       | O => None
       | S fuel => pad_zeros fuel (padded ++ [0])
       end.

(** crates/evt/src/sha256.rs:27-32 [sha256]

    The loop pushes at most 63 zeros. *)
Definition sha256_padded (data : list Z) : option (list Z) :=
  match pad_zeros 63 (data ++ [0x80]) with
  | Some padded => Some (padded ++ to_be_bytes 8 ((llen data * 8) mod 2 ^ 64))
  | None => None
  end.

(** crates/evt/src/sha256.rs:24-44 [sha256] *)
Definition sha256 (data : list Z) : option (list Z) :=
  match sha256_padded data with
  | Some padded =>
      let state := fold_left compress (chunks_exact 64 padded) INITIAL_STATE in
      Some (concat (map (to_be_bytes 4) state))
  | None => None
  end.

(** [format!("{byte:02x}")] *)
Definition hex_digit (n : Z) : ascii := default "0"%char (String.get (Z.to_nat n) "0123456789abcdef").
Definition hex_byte (byte : Z) : string :=
  String (hex_digit (byte / 16)) (String (hex_digit (byte mod 16)) EmptyString).

(** crates/evt/src/sha256.rs:47-56 [sha256_hex] *)
Definition sha256_hex_opt (data : string) : option string :=
  match sha256 (bytes_of data) with
  | Some digest => Some (foldr (λ byte out, hex_byte byte +:+ out) EmptyString digest)
  | None => None
  end.
Definition sha256_hex (data : string) : string := default EmptyString (sha256_hex_opt data).

(** ** The identity of a command *)

(** Bytes as a string. *)
Definition string_of_bytes (bytes : list Z) : string :=
  String.string_of_list_ascii (map Z_to_byte bytes).

(** crates/evt/src/outcome.rs:764-767 [length_prefixed] *)
Definition length_prefixed (value : string) : string :=
  string_of_bytes (to_le_bytes 4 (slen value mod 2 ^ 32)) +:+ value.

(** crates/evt/src/outcome.rs:731-762 [canonical_digest_bytes] *)
Definition canonical_digest_bytes (input : DigestInput) : string :=
  let targets := sorted_targets (di_targets input) in
  Outcome.DIGEST_TAG +:+ String Ascii.zero EmptyString
  +:+ length_prefixed (di_command_type input)
  +:+ string_of_bytes (to_le_bytes 4 (llen targets mod 2 ^ 32))
  +:+ foldr (λ target out, length_prefixed target +:+ out) EmptyString targets
  +:+ length_prefixed (di_payload input)
  +:+ length_prefixed (di_principal input).

(** crates/evt/src/outcome.rs:770-772 [default_digest] *)
Definition default_digest (input : DigestInput) : result string string :=
  Ok (sha256_hex (canonical_digest_bytes input)).

(** A lowercase hexadecimal digit. *)
Definition is_hex (c : ascii) : bool := in_range 48 57 c || in_range 97 102 c.

(** crates/evt/src/journal/compaction.rs:322-327 [is_digest] *)
Definition is_digest (text : string) : bool :=
  (slen text =? 64) && forallb is_hex (String.list_ascii_of_string text).

(** The test vectors of the standard. *)
Example sha256_empty :
  sha256_hex "" = "e3b0c44298fc1c149afbf4c8996fb92427ae41e4649b934ca495991b7852b855"%string.
Proof. vm_compute. reflexivity. Qed.

Example sha256_abc :
  sha256_hex "abc" = "ba7816bf8f01cfea414140de5dae2223b00361a396177a9cb410ff61f20015ad"%string.
Proof. vm_compute. reflexivity. Qed.

Example sha256_two_blocks :
  sha256_hex "abcdbcdecdefdefgefghfghighijhijkijkljklmklmnlmnomnopnopq"
  = "248d6a61d20638b8e5c026930c3e6039a33ce45964ff2167f6ecedd419db06c1"%string.
Proof. vm_compute. reflexivity. Qed.

(** ** Padding *)

Lemma pad_zeros_ok fuel padded :
  (∃ k, (k ≤ fuel)%nat ∧ (llen padded + Z.of_nat k) mod 64 = 56) →
  ∃ k, pad_zeros fuel padded = Some (padded ++ replicate k 0) ∧
    (llen padded + Z.of_nat k) mod 64 = 56.
Proof.
  revert padded. induction fuel as [|fuel IH]; intros padded (k & Hk & Hmod); cbn [pad_zeros].
  - assert (k = 0%nat) as -> by lia. rewrite Z.add_0_r in Hmod. rewrite Hmod. exists 0%nat. simpl.
    by rewrite app_nil_r, Z.add_0_r.
  - destruct (Z.eqb_spec (llen padded mod 64) 56) as [He|He].
    { exists 0%nat. simpl. by rewrite app_nil_r, Z.add_0_r. }
    destruct k as [|k]; [by rewrite Z.add_0_r in Hmod|].
    assert (llen (padded ++ [0]) = llen padded + 1) as Hlen
      by (unfold llen; rewrite length_app; simpl; lia).
    destruct (IH (padded ++ [0])) as (k' & Hp & Hm).
    { exists k. split; [lia|]. rewrite Hlen. rewrite <-Hmod. f_equal. lia. }
    exists (S k'). rewrite Hp. rewrite <-app_assoc. split; [done|].
    rewrite Hlen in Hm. rewrite <-Hm. f_equal. lia.
Qed.

Lemma to_le_bytes_length n z : length (to_le_bytes n z) = n.
Proof. revert z. induction n as [|n IH]; intros z; simpl; [done|by rewrite IH]. Qed.

Lemma to_be_bytes_length n z : length (to_be_bytes n z) = n.
Proof. unfold to_be_bytes. by rewrite length_reverse, to_le_bytes_length. Qed.

Lemma to_le_bytes_range n z : Forall (λ b, 0 ≤ b < 256) (to_le_bytes n z).
Proof.
  revert z. induction n as [|n IH]; intros z; simpl; [constructor|].
  constructor; [apply Z.mod_pos_bound; lia|apply IH].
Qed.

Lemma to_le_bytes_inj n y z :
  0 ≤ y < 256 ^ Z.of_nat n → 0 ≤ z < 256 ^ Z.of_nat n → to_le_bytes n y = to_le_bytes n z → y = z.
Proof.
  revert y z. induction n as [|n IH]; intros y z Hy Hz; cbn [to_le_bytes].
  - simpl in Hy, Hz. lia.
  - intros [= Hm Hd]. rewrite Nat2Z.inj_succ, Z.pow_succ_r in Hy, Hz by lia.
    apply IH in Hd; [|split; [apply Z.div_pos|apply Z.div_lt_upper_bound]; lia..].
    rewrite (Z.div_mod y 256), (Z.div_mod z 256) by lia. by rewrite Hm, Hd.
Qed.

Lemma to_be_bytes_inj n y z :
  0 ≤ y < 256 ^ Z.of_nat n → 0 ≤ z < 256 ^ Z.of_nat n → to_be_bytes n y = to_be_bytes n z → y = z.
Proof.
  intros Hy Hz Heq. apply (to_le_bytes_inj n); [done|done|].
  by apply (inj reverse).
Qed.

#[export] Hint Rewrite to_le_bytes_length to_be_bytes_length : evt.

(** The padding loop ends, the padded message is a whole number of blocks, and it starts with the
    message. *)
Lemma sha256_padded_ok data :
  ∃ k, sha256_padded data =
         Some ((data ++ [0x80] ++ replicate k 0) ++ to_be_bytes 8 ((llen data * 8) mod 2 ^ 64)) ∧
    (llen data + 1 + Z.of_nat k + 8) mod 64 = 0.
Proof.
  unfold sha256_padded. destruct (pad_zeros_ok 63 (data ++ [0x80])) as (k & -> & Hk).
  - assert (llen (data ++ [0x80]) = llen data + 1) as ->
      by (unfold llen; rewrite length_app; simpl; lia).
    exists (Z.to_nat ((55 - llen data) mod 64)).
    pose proof (Z.mod_pos_bound (55 - llen data) 64 ltac:(lia)). split; [lia|].
    rewrite Z2Nat.id by lia. rewrite Z.add_mod_idemp_r by lia.
    by replace (llen data + 1 + (55 - llen data)) with 56 by lia.
  - exists k. rewrite <-(app_assoc data). split; [done|].
    assert (llen (data ++ [0x80]) = llen data + 1) as Hlen
      by (unfold llen; rewrite length_app; simpl; lia).
    rewrite Hlen in Hk. rewrite <-Z.add_mod_idemp_l, Hk by lia. done.
Qed.

(** Different messages have different paddings. *)
Lemma sha256_padded_inj d1 d2 :
  llen d1 < 2 ^ 61 → llen d2 < 2 ^ 61 → sha256_padded d1 = sha256_padded d2 → d1 = d2.
Proof.
  intros H1 H2. destruct (sha256_padded_ok d1) as (k1 & -> & _).
  destruct (sha256_padded_ok d2) as (k2 & -> & _). intros [= Heq].
  apply app_inj_2 in Heq as [Hbody Hlen]; [|by rewrite !to_be_bytes_length].
  assert (0 ≤ llen d1) by (unfold llen; lia). assert (0 ≤ llen d2) by (unfold llen; lia).
  rewrite !Z.mod_small in Hlen by lia.
  apply to_be_bytes_inj in Hlen; [|change (256 ^ Z.of_nat 8) with (2 ^ 64); lia..].
  apply app_inj_1 in Hbody as [? _]; [done|]. unfold llen in *. lia.
Qed.

(** ** The digest *)

Lemma compress_length state block : length state = 8%nat → length (compress state block) = 8%nat.
Proof. intros Hs. unfold compress. destruct (fold_left _ _ _). by rewrite length_zip_with, Hs. Qed.

Lemma be_words_length n words : length (concat (map (to_be_bytes n) words)) = (n * length words)%nat.
Proof.
  induction words as [|w words IH]; cbn [map concat length]; [lia|].
  rewrite length_app, IH, to_be_bytes_length. lia.
Qed.

Lemma fold_left_inv {A B} (P : A → Prop) (f : A → B → A) l a :
  (∀ a b, P a → P (f a b)) → P a → P (fold_left f l a).
Proof. intros Hf. revert a. induction l as [|b l IH]; intros a Ha; [done|]. by apply IH, Hf. Qed.

Lemma compress_all_length blocks state :
  length state = 8%nat → length (fold_left compress blocks state) = 8%nat.
Proof. apply (fold_left_inv (λ s, length s = 8%nat)). intros s b. apply compress_length. Qed.

Lemma be_words_range n words : Forall (λ b, 0 ≤ b < 256) (concat (map (to_be_bytes n) words)).
Proof.
  apply Forall_concat, Forall_map, Forall_true. intros z. unfold to_be_bytes.
  apply Forall_reverse, to_le_bytes_range.
Qed.

Lemma sha256_ok data :
  ∃ digest, sha256 data = Some digest ∧ length digest = 32%nat ∧ Forall (λ b, 0 ≤ b < 256) digest.
Proof.
  destruct (sha256_padded_ok data) as (k & Hpad & _). unfold sha256. rewrite Hpad.
  eexists. split; [reflexivity|]. split; [|apply be_words_range].
  by rewrite be_words_length, compress_all_length.
Qed.

Lemma hex_digit_is_hex n : 0 ≤ n < 16 → is_hex (hex_digit n) = true.
Proof.
  intros Hn. assert (∃ i, (i < 16)%nat ∧ n = Z.of_nat i) as (i & Hi & ->).
  { exists (Z.to_nat n). lia. }
  do 16 (destruct i as [|i]; [done|]). lia.
Qed.

Lemma hex_bytes_ok digest :
  Forall (λ b, 0 ≤ b < 256) digest →
  let h := foldr (λ byte out, hex_byte byte +:+ out) EmptyString digest in
  String.length h = (2 * length digest)%nat ∧
  Forall (λ c, is_hex c = true) (String.list_ascii_of_string h).
Proof.
  induction 1 as [|b digest Hb _ [IHl IHh]]; [by split|]. cbn [foldr].
  set (rest := foldr _ _ digest) in *. clearbody rest. split.
  - change (hex_byte b +:+ rest)
      with (String (hex_digit (b / 16)) (String (hex_digit (b mod 16)) rest)).
    cbn [String.length length]. lia.
  - change (hex_byte b +:+ rest)
      with (String (hex_digit (b / 16)) (String (hex_digit (b mod 16)) rest)).
    cbn [String.list_ascii_of_string].
    constructor; [|constructor; [|done]]; apply hex_digit_is_hex.
    + split; [apply Z.div_pos; lia|apply Z.div_lt_upper_bound; lia].
    + apply Z.mod_pos_bound. lia.
Qed.

(** The hash of any bytes is defined and is 64 lowercase hexadecimal digits. *)
Lemma sha256_hex_ok data :
  sha256_hex_opt data = Some (sha256_hex data) ∧ String.length (sha256_hex data) = 64%nat ∧
  Forall (λ c, is_hex c = true) (String.list_ascii_of_string (sha256_hex data)).
Proof.
  destruct (sha256_ok (bytes_of data)) as (d & Hd & Hlen & Hall).
  unfold sha256_hex, sha256_hex_opt. rewrite Hd. cbn [default].
  destruct (hex_bytes_ok d Hall) as [Hl Hh]. rewrite Hlen in Hl. by split.
Qed.

(** ** The identity of a command is unambiguous *)

Lemma append_inj a b x y :
  String.length a = String.length b → a +:+ x = b +:+ y → a = b ∧ x = y.
Proof.
  revert b. induction a as [|c a IH]; intros [|d b] Hlen Heq; try done.
  injection Hlen as Hlen. injection Heq as -> Heq. destruct (IH b Hlen Heq) as [-> ->]. done.
Qed.

Lemma string_of_bytes_length bytes : String.length (string_of_bytes bytes) = length bytes.
Proof. unfold string_of_bytes. induction bytes as [|b bytes IH]; [done|]. exact (f_equal S IH). Qed.

Lemma byte_of_Z_to_byte z : byte_to_Z (Z_to_byte z) = z mod 256.
Proof.
  unfold byte_to_Z, Z_to_byte. pose proof (Z.mod_pos_bound z 256 ltac:(lia)).
  rewrite N_ascii_embedding by lia. lia.
Qed.

Lemma string_of_bytes_inj l k :
  Forall (λ b, 0 ≤ b < 256) l → Forall (λ b, 0 ≤ b < 256) k →
  string_of_bytes l = string_of_bytes k → l = k.
Proof.
  intros Hl. revert k. induction Hl as [|a l Ha _ IH]; intros [|b k] Hk Heq; try done.
  inversion Hk as [|? ? Hb Hk']; subst. injection Heq as Hab Heq. f_equal; [|by apply IH].
  apply (f_equal byte_to_Z) in Hab. rewrite !byte_of_Z_to_byte in Hab.
  by rewrite !Z.mod_small in Hab.
Qed.

Lemma word_prefix_inj m n x y :
  0 ≤ m < 2 ^ 32 → 0 ≤ n < 2 ^ 32 →
  string_of_bytes (to_le_bytes 4 (m mod 2 ^ 32)) +:+ x
    = string_of_bytes (to_le_bytes 4 (n mod 2 ^ 32)) +:+ y →
  m = n ∧ x = y.
Proof.
  intros Hm Hn Heq. rewrite !Z.mod_small in Heq by done.
  apply append_inj in Heq as [Hw ->]; [|by rewrite !string_of_bytes_length, !to_le_bytes_length].
  split; [|done]. apply string_of_bytes_inj in Hw; [|apply to_le_bytes_range..].
  by apply to_le_bytes_inj in Hw; [|change (256 ^ Z.of_nat 4) with (2 ^ 32)..].
Qed.

Lemma append_assoc a b c : (a +:+ b) +:+ c = a +:+ b +:+ c.
Proof. induction a as [|x a IH]; [done|]. exact (f_equal (String x) IH). Qed.

Lemma length_prefixed_inj a b x y :
  slen a < 2 ^ 32 → slen b < 2 ^ 32 →
  length_prefixed a +:+ x = length_prefixed b +:+ y → a = b ∧ x = y.
Proof.
  intros Ha Hb Heq. unfold length_prefixed in Heq. rewrite !append_assoc in Heq.
  apply word_prefix_inj in Heq as [Hlen Heq]; [|unfold slen in *; lia..].
  apply append_inj in Heq; [done|]. unfold slen in Hlen. lia.
Qed.

Lemma length_prefixed_list_inj l k x y :
  length l = length k → Forall (λ s, slen s < 2 ^ 32) l → Forall (λ s, slen s < 2 ^ 32) k →
  foldr (λ s out, length_prefixed s +:+ out) EmptyString l +:+ x
    = foldr (λ s out, length_prefixed s +:+ out) EmptyString k +:+ y →
  l = k ∧ x = y.
Proof.
  intros Hlen Hl. revert k Hlen. induction Hl as [|a l Ha _ IH]; intros [|b k] Hlen Hk Heq; try done.
  inversion Hk as [|? ? Hb Hk']; subst. injection Hlen as Hlen. cbn [foldr] in Heq.
  rewrite !append_assoc in Heq. apply length_prefixed_inj in Heq as [-> Heq]; [|done..].
  destruct (IH k Hlen Hk' Heq) as [-> ->]. done.
Qed.

(** Every length and count of a command fits the 32 bits it is written in. *)
Record identity_fits (input : DigestInput) : Prop := {
  if_type : slen (di_command_type input) < 2 ^ 32;
  if_payload : slen (di_payload input) < 2 ^ 32;
  if_principal : slen (di_principal input) < 2 ^ 32;
  if_targets : Forall (λ s, slen s < 2 ^ 32) (di_targets input);
  if_count : llen (di_targets input) < 2 ^ 32
}.

Lemma dedup_length l : (length (dedup l) ≤ length l)%nat.
Proof.
  induction l as [|a [|b l] IH]; [done|done|]. rewrite dedup_cons. case_bool_decide; simpl in *; lia.
Qed.

Lemma canonical_digest_bytes_inj a b :
  identity_fits a → identity_fits b → canonical_digest_bytes a = canonical_digest_bytes b →
  di_command_type a = di_command_type b ∧
  sorted_targets (di_targets a) = sorted_targets (di_targets b) ∧
  di_payload a = di_payload b ∧ di_principal a = di_principal b.
Proof.
  assert (∀ i, identity_fits i → 0 ≤ llen (sorted_targets (di_targets i)) < 2 ^ 32 ∧
    Forall (λ s, slen s < 2 ^ 32) (sorted_targets (di_targets i))) as Hsorted.
  { intros i Hi. unfold sorted_targets. split.
    - pose proof (dedup_length (sort_by string_leb (di_targets i))) as Hd.
      rewrite sort_by_length in Hd. pose proof (if_count _ Hi). unfold llen in *. lia.
    - apply Forall_forall. intros s Hs. rewrite dedup_elem_of, elem_of_sort_by in Hs.
      pose proof (if_targets _ Hi) as Ht. rewrite Forall_forall in Ht. by apply Ht. }
  intros Ha Hb Heq. destruct (Hsorted a Ha) as [Hna Hta], (Hsorted b Hb) as [Hnb Htb].
  destruct Ha, Hb. unfold canonical_digest_bytes in Heq. cbv zeta in Heq.
  apply append_inj in Heq as [_ Heq]; [|done].
  apply append_inj in Heq as [_ Heq]; [|done].
  apply length_prefixed_inj in Heq as [Htype Heq]; [|done..].
  apply word_prefix_inj in Heq as [Hcount Heq]; [|done..].
  apply length_prefixed_list_inj in Heq as [Htargets Heq]; [|unfold llen in *; lia|done..].
  apply length_prefixed_inj in Heq as [Hpayload Heq]; [|done..].
  apply (f_equal (λ s, s +:+ EmptyString)) in Heq.
  by apply length_prefixed_inj in Heq as [Hprincipal _].
Qed.

Lemma sha256_hex_digest data : is_digest (sha256_hex data) = true.
Proof.
  destruct (sha256_hex_ok data) as (_ & Hl & Hh). unfold is_digest, slen.
  rewrite Hl. apply forallb_forall. intros c Hc. rewrite Forall_forall in Hh.
  by apply Hh, list_elem_of_In.
Qed.

(** Hashing ends on every input, and what it returns is always accepted as a digest: 64
    lowercase hexadecimal digits. *)
Theorem sha256_hex_is_a_digest data :
  sha256_hex_opt data = Some (sha256_hex data) ∧ is_digest (sha256_hex data) = true.
Proof.
  split; [by destruct (sha256_hex_ok data)|apply sha256_hex_digest].
Qed.

(** The bytes of a string determine it. *)
Lemma bytes_of_inj s t : bytes_of s = bytes_of t → s = t.
Proof.
  revert t. induction s as [|c s IH]; intros [|d t] Heq; try done. injection Heq as Hc Heq.
  f_equal; [|by apply IH]. by rewrite <-(Z_to_byte_to_Z c), Hc, Z_to_byte_to_Z.
Qed.

Lemma bytes_of_length s : llen (bytes_of s) = slen s.
Proof.
  unfold llen, slen. f_equal. induction s as [|c s IH]; [done|]. exact (f_equal S IH).
Qed.

(** C40. What is hashed for a command's identity says exactly which command it is: two requests
    whose hashed blocks are equal have the same type, the same set of targets, the same payload and
    the same principal. Only a collision of the hash itself can make two commands look the same. *)
Theorem command_digest_is_unambiguous a b :
  identity_fits a → identity_fits b →
  slen (canonical_digest_bytes a) < 2 ^ 61 → slen (canonical_digest_bytes b) < 2 ^ 61 →
  sha256_padded (bytes_of (canonical_digest_bytes a))
    = sha256_padded (bytes_of (canonical_digest_bytes b)) →
  di_command_type a = di_command_type b ∧
  (∀ target, target ∈ di_targets a ↔ target ∈ di_targets b) ∧
  di_payload a = di_payload b ∧ di_principal a = di_principal b.
Proof.
  intros Ha Hb Hla Hlb Heq.
  apply sha256_padded_inj in Heq; [|by rewrite bytes_of_length..].
  apply bytes_of_inj in Heq.
  destruct (canonical_digest_bytes_inj a b Ha Hb Heq) as (Htype & Htargets & Hpayload & Hprincipal).
  split; [done|]. split; [|done]. intros target.
  rewrite <-(elem_of_sort_by string_leb _ (di_targets a)), <-dedup_elem_of.
  rewrite <-(elem_of_sort_by string_leb _ (di_targets b)), <-(dedup_elem_of _ (sort_by _ (di_targets b))).
  unfold sorted_targets in Htargets. by rewrite Htargets.
Qed.

Definition sample_identity (targets : list EntityId) : DigestInput :=
  mkDigestInput "account:deposit" targets "{}" "alice".

(** The same request named with its targets in another order and repeated. *)
Lemma command_digest_is_unambiguous_witness :
  "b"%string ∈ di_targets (sample_identity ["b"; "a"; "b"]%string) ↔
  "b"%string ∈ di_targets (sample_identity ["a"; "b"]%string).
Proof.
  apply (command_digest_is_unambiguous (sample_identity ["b"; "a"; "b"]%string)
    (sample_identity ["a"; "b"]%string)).
  - split; [..|by repeat constructor|]; done.
  - split; [..|by repeat constructor|]; done.
  - vm_compute. done.
  - vm_compute. done.
  - vm_compute. done.
Defined.
