(* ===== verification/CommitId.v ===== *)
(** * Commit IDs

    [commit_id.rs]: ULID-format identifiers, a millisecond timestamp followed by 80 bits of
    entropy, and the state that keeps the identifiers of one process increasing. The clock and the
    process-random hasher are inputs. *)

From S2P Require Import Prelude.

(** crates/evt/src/commit_id.rs:14-16 [ALPHABET] *)
Definition ALPHABET : string := "0123456789ABCDEFGHJKMNPQRSTVWXYZ".
Definition ENTROPY_MASK : Z := Z.shiftl 1 80 - 1.
Definition TIMESTAMP_MASK : Z := Z.shiftl 1 48 - 1.

(** crates/evt/src/commit_id.rs:28-31 [State] *)
Record State := mkState { st_last_ms : Z; st_entropy : Z }.

(** crates/evt/src/commit_id.rs:41-44 [STATE] *)
Definition State_initial : State := mkState 0 0.

(** crates/evt/src/commit_id.rs:84-90 [encode]

    The character of the five bits at [shift]. *)
Definition symbol_at (value shift : Z) : ascii :=
  default "0"%char (String.get (Z.to_nat (Z.land (Z.shiftr value shift) 0x1f)) ALPHABET).

(** The characters at the shifts [5 * (n - 1)] down to 0. *)
Fixpoint encode_low (n : nat) (value : Z) : string :=
  match n with
  | O => EmptyString
  | S n => String (symbol_at value (5 * Z.of_nat n)) (encode_low n value)
  end.

(** crates/evt/src/commit_id.rs:84-92 [encode] *)
Definition encode (value : Z) : string := encode_low 26 value.

(** crates/evt/src/commit_id.rs:68-82 [random_entropy]

    [high] and [low] are the two hashes of the seeded hasher. *)
Definition random_entropy (high low : Z) : Z :=
  Z.land (Z.lor (Z.shiftl high 16) (Z.land low 0xffff)) ENTROPY_MASK.

(** crates/evt/src/commit_id.rs:49-66 [generate_at]

    [high] and [low] are the hashes a fresh entropy is made of. *)
Definition generate_at (state : State) (now_ms high low : Z) : State * string :=
  let ms := Z.land (Z.max now_ms (st_last_ms state)) TIMESTAMP_MASK in
  let '(ms, state) :=
    if (ms =? st_last_ms state) && (st_entropy state <? ENTROPY_MASK) then
      (ms, mkState (st_last_ms state) (st_entropy state + 1))
    else
      let ms := if ms =? st_last_ms state then Z.land (ms + 1) TIMESTAMP_MASK else ms in
      (ms, mkState ms (random_entropy high low)) in
  (state, encode (Z.lor (Z.shiftl ms 80) (st_entropy state))).

(** crates/evt/src/commit_id.rs:35-47 [generate]

    The identifiers of a sequence of calls, each with its reading of the clock and the hasher. *)
Fixpoint generate_all (state : State) (readings : list (Z * Z * Z)) : list string :=
  match readings with
  | [] => []
  | (now_ms, high, low) :: rest =>
      let done := generate_at state now_ms high low in
      done.2 :: generate_all done.1 rest
  end.

(** ** The order of encodings *)

Definition symbol_of (digit : Z) : ascii :=
  default "0"%char (String.get (Z.to_nat digit) ALPHABET).

Definition digits32 : list Z := map Z.of_nat (seq 0 32).

(** The alphabet is in ascending order. *)
Lemma symbol_of_compare x y :
  0 ≤ x < 32 → 0 ≤ y < 32 → Ascii.compare (symbol_of x) (symbol_of y) = (x ?= y).
Proof.
  intros Hx Hy.
  assert (forallb (λ a, forallb (λ b : Z, bool_decide (Ascii.compare (symbol_of a) (symbol_of b) = (a ?= b)))
    digits32) digits32 = true) as Hall by (vm_compute; reflexivity).
  assert (∀ z, 0 ≤ z < 32 → In z digits32) as Hin.
  { intros z Hz. unfold digits32. apply in_map_iff. exists (Z.to_nat z).
    split; [lia|]. apply in_seq. lia. }
  rewrite forallb_forall in Hall. specialize (Hall x (Hin x Hx)).
  rewrite forallb_forall in Hall. specialize (Hall y (Hin y Hy)). by apply bool_decide_eq_true in Hall.
Qed.

Lemma symbol_at_digit value n :
  symbol_at value (5 * Z.of_nat n) = symbol_of (value / 32 ^ Z.of_nat n mod 32).
Proof.
  unfold symbol_at, symbol_of. change 0x1f with (Z.ones 5). rewrite Z.land_ones by lia.
  rewrite Z.shiftr_div_pow2 by lia. rewrite Z.pow_mul_r by lia. done.
Qed.

Lemma encode_low_mod n value :
  encode_low n (value mod 32 ^ Z.of_nat n) = encode_low n value.
Proof.
  assert (∀ m, (m ≤ n)%nat → encode_low m (value mod 32 ^ Z.of_nat n) = encode_low m value) as H;
    [|by apply H].
  induction m as [|m IH]; intros Hm; [done|]. cbn [encode_low]. rewrite IH by lia. f_equal.
  rewrite !symbol_at_digit. f_equal.
  replace (Z.of_nat n) with (Z.of_nat m + Z.of_nat (n - m)) by lia.
  rewrite Z.pow_add_r by lia. rewrite Z.rem_mul_r by lia.
  rewrite Z.add_comm, (Z.mul_comm (32 ^ Z.of_nat m)).
  rewrite Z.div_add_l by lia. rewrite (Z.div_small (value mod 32 ^ Z.of_nat m)) by (apply Z.mod_pos_bound; lia).
  rewrite Z.add_0_r. replace (n - m)%nat with (S (n - m - 1)) by lia.
  rewrite Nat2Z.inj_succ, Z.pow_succ_r by lia.
  rewrite Z.rem_mul_r by lia. rewrite Z.mul_comm, Z.add_comm.
  rewrite Z.add_comm, Z.mod_add by lia. by rewrite Z.mod_mod by lia.
Qed.

(** Encodings compare as the numbers they encode. *)
Lemma encode_low_compare n v w :
  0 ≤ v < 32 ^ Z.of_nat n → 0 ≤ w < 32 ^ Z.of_nat n →
  String.compare (encode_low n v) (encode_low n w) = (v ?= w).
Proof.
  revert v w. induction n as [|n IH]; intros v w Hv Hw.
  - simpl in *. assert (v = 0) as -> by lia. by assert (w = 0) as -> by lia.
  - cbn [encode_low String.compare]. rewrite !symbol_at_digit.
    rewrite Nat2Z.inj_succ, Z.pow_succ_r in Hv, Hw by lia. set (p := 32 ^ Z.of_nat n) in *.
    assert (0 < p) as Hp by (subst p; lia).
    assert (0 ≤ v / p < 32) as Hdv by (split; [apply Z.div_pos|apply Z.div_lt_upper_bound]; lia).
    assert (0 ≤ w / p < 32) as Hdw by (split; [apply Z.div_pos|apply Z.div_lt_upper_bound]; lia).
    rewrite !Z.mod_small by done. rewrite symbol_of_compare by done.
    pose proof (Z.div_mod v p ltac:(lia)). pose proof (Z.div_mod w p ltac:(lia)).
    pose proof (Z.mod_pos_bound v p Hp). pose proof (Z.mod_pos_bound w p Hp).
    destruct (Z.compare_spec (v / p) (w / p)) as [Heq|Hlt|Hgt].
    + rewrite <-(encode_low_mod n v), <-(encode_low_mod n w). fold p. rewrite IH by done.
      symmetry. destruct (Z.compare_spec (v mod p) (w mod p));
        [apply Z.compare_eq_iff|apply Z.compare_lt_iff|apply Z.compare_gt_iff]; nia.
    + symmetry. apply Z.compare_lt_iff. nia.
    + symmetry. apply Z.compare_gt_iff. nia.
Qed.

(** ** The state *)

(** The number an identifier encodes. *)
Definition value_of (s : State) : Z := st_last_ms s * 2 ^ 80 + st_entropy s.

Definition state_ok (s : State) : Prop :=
  0 ≤ st_last_ms s < 2 ^ 48 ∧ 0 ≤ st_entropy s < 2 ^ 80.

Lemma random_entropy_range high low : 0 ≤ random_entropy high low < 2 ^ 80.
Proof.
  unfold random_entropy, ENTROPY_MASK. change (Z.shiftl 1 80 - 1) with (Z.ones 80).
  rewrite Z.land_ones by lia. apply Z.mod_pos_bound. lia.
Qed.

Lemma timestamp_small ms : 0 ≤ ms < 2 ^ 48 → Z.land ms TIMESTAMP_MASK = ms.
Proof.
  intros Hms. unfold TIMESTAMP_MASK. change (Z.shiftl 1 48 - 1) with (Z.ones 48).
  rewrite Z.land_ones by lia. by apply Z.mod_small.
Qed.

Lemma shifted_lor ms entropy :
  0 ≤ entropy < 2 ^ 80 → Z.lor (Z.shiftl ms 80) entropy = ms * 2 ^ 80 + entropy.
Proof.
  intros He. rewrite <-Z.shiftl_mul_pow2 by lia. symmetry. apply Z.add_nocarry_lor.
  apply Z.bits_inj'. intros k Hk. rewrite Z.land_spec, Z.bits_0.
  destruct (Z.lt_ge_cases k 80) as [Hlow|Hhigh]; [by rewrite Z.shiftl_spec_low by lia|].
  rewrite (Z.bits_above_log2 entropy), andb_false_r; [done|lia|].
  destruct (decide (entropy = 0)) as [->|Hne]; [simpl; lia|].
  apply Z.log2_lt_pow2; [lia|]. apply Z.lt_le_trans with (2 ^ 80); [lia|].
  apply Z.pow_le_mono_r; lia.
Qed.

(** One call: the identifier encodes the new state, which is above the old one and at most one
    millisecond past the clock. *)
Lemma generate_at_ok state now_ms high low :
  state_ok state → 0 ≤ now_ms → Z.max now_ms (st_last_ms state) + 1 < 2 ^ 48 →
  let done := generate_at state now_ms high low in
  state_ok done.1 ∧ done.2 = encode (value_of done.1) ∧ value_of state < value_of done.1 ∧
  st_last_ms done.1 ≤ Z.max now_ms (st_last_ms state) + 1.
Proof.
  intros [Hms He] Hnow Hmax. unfold generate_at. rewrite timestamp_small by lia.
  destruct (Z.eqb_spec (Z.max now_ms (st_last_ms state)) (st_last_ms state)) as [Heq|Hne];
    [destruct (Z.ltb_spec (st_entropy state) ENTROPY_MASK) as [Hlt|Hge]|]; cbn [andb].
  - assert (st_entropy state + 1 < 2 ^ 80) by (change ENTROPY_MASK with (2 ^ 80 - 1) in Hlt; lia).
    rewrite Heq. cbn [fst snd st_last_ms st_entropy]. unfold state_ok, value_of.
    cbn [fst snd st_last_ms st_entropy]. rewrite shifted_lor by lia.
    split; [lia|]. split; [done|]. lia.
  - rewrite timestamp_small by lia. pose proof (random_entropy_range high low).
    unfold state_ok, value_of. cbn [fst snd st_last_ms st_entropy]. rewrite shifted_lor by lia.
    split; [lia|]. split; [done|]. lia.
  - pose proof (random_entropy_range high low).
    unfold state_ok, value_of. cbn [fst snd st_last_ms st_entropy]. rewrite shifted_lor by lia.
    split; [lia|]. split; [done|]. nia.
Qed.

Lemma value_of_range s : state_ok s → 0 ≤ value_of s < 32 ^ Z.of_nat 26.
Proof. intros [Hms He]. unfold value_of. change (32 ^ Z.of_nat 26) with (2 ^ 130). nia. Qed.

Lemma encode_lt s t :
  state_ok s → state_ok t → value_of s < value_of t →
  string_ltb (encode (value_of s)) (encode (value_of t)) = true.
Proof.
  intros Hs Ht Hlt. unfold string_ltb, String.ltb, encode.
  rewrite encode_low_compare by (by apply value_of_range). apply Z.compare_lt_iff in Hlt. by rewrite Hlt.
Qed.

Lemma generate_all_above state readings top :
  state_ok state → st_last_ms state + llen readings < top → top ≤ 2 ^ 48 →
  Forall (λ r, 0 ≤ r.1.1 ∧ r.1.1 + llen readings < top) readings →
  Forall (λ id, ∃ s, state_ok s ∧ id = encode (value_of s) ∧ value_of state < value_of s)
    (generate_all state readings) ∧
  StronglySorted (λ a b, string_ltb a b = true) (generate_all state readings).
Proof.
  revert state. induction readings as [|[[now high] low] rest IH]; intros state Hok Hlast Htop Hall;
    cbn [generate_all]; [by split; constructor|].
  inversion Hall as [|? ? [Hnow Hnowtop] Hrest]; subst. cbn [fst] in Hnow, Hnowtop.
  assert (llen ((now, high, low) :: rest) = llen rest + 1) as Hlen by (unfold llen; simpl; lia).
  rewrite Hlen in *. assert (0 ≤ llen rest) by (unfold llen; lia).
  destruct (generate_at_ok state now high low Hok Hnow ltac:(lia)) as (Hok' & Hid & Hlt & Hms).
  destruct (generate_at state now high low) as [state' id]. cbn [fst snd] in *. subst id.
  destruct (IH state' Hok') as [Habove Hsorted]; [lia|done| |].
  { eapply Forall_impl; [exact Hrest|]. intros r [? ?]. lia. }
  split.
  - constructor; [by exists state'|]. eapply Forall_impl; [exact Habove|].
    intros i (s & Hs & -> & Hv). exists s. split; [done|]. split; [done|]. lia.
  - constructor; [done|]. eapply Forall_impl; [exact Habove|].
    intros i (s & Hs & -> & Hv). by apply encode_lt.
Qed.

Lemma encode_symbols n value : String.length (encode_low n value) = n.
Proof. induction n as [|n IH]; [done|]. cbn [encode_low String.length]. by rewrite IH. Qed.

(** The commit IDs one process generates are 26 characters each and strictly increasing as
    text, whatever the clock reads, even backwards, and whatever the hasher returns, as long as the
    timestamps stay within their 48 bits: none is ever repeated and they sort by creation. *)
Theorem commit_ids_increase state readings :
  state_ok state → st_last_ms state + llen readings < 2 ^ 48 →
  Forall (λ r, 0 ≤ r.1.1 ∧ r.1.1 + llen readings < 2 ^ 48) readings →
  StronglySorted (λ a b, string_ltb a b = true) (generate_all state readings) ∧
  Forall (λ id, String.length id = 26%nat) (generate_all state readings).
Proof.
  intros Hok Hlast Hall.
  destruct (generate_all_above state readings (2 ^ 48) Hok Hlast ltac:(lia) Hall) as [Habove Hsorted].
  split; [done|]. eapply Forall_impl; [exact Habove|]. intros id (s & _ & -> & _).
  apply encode_symbols.
Qed.

(** Three calls, the clock stepping back before the last. *)
Definition sample_readings : list (Z * Z * Z) := [(1700000000000, 7, 9); (1700000000000, 1, 1); (5, 3, 3)].

Lemma commit_ids_increase_witness :
  StronglySorted (λ a b, string_ltb a b = true) (generate_all State_initial sample_readings).
Proof.
  apply (commit_ids_increase State_initial sample_readings).
  - done.
  - done.
  - by repeat constructor.
Defined.
