(* ===== verification/JournalScope.v ===== *)
(** * Journal scopes and rows

    [journal/scope.rs] and [journal/row.rs]: the names journals are kept under, the sort key a
    position has, the allocations an event carries in its metadata, and the view rows a journal is
    stored as. *)

From S2P Require Import Prelude Types Projection Repository.

(** crates/evt/src/journal/scope.rs:15-43 [ALLOCATION_KEY] *)
Definition ALLOCATION_KEY : string := ENGINE_ALLOCATION_KEY.
Definition MAX_SCOPE_BYTES : Z := 512.
Definition ROW_PARTITION_PREFIX : string := "journal#".
Definition COUNTER_PARTITION_PREFIX : string := "journal-counter#".
Definition COUNTER_SORT_KEY : string := "COUNTER".
Definition COUNTER_OWNER : string := "SYSTEM#JOURNAL".
Definition ROW_ENTITY_TYPE : string := "journal".
Definition COUNTER_ENTITY_TYPE : string := "journal-counter".
Definition POSITION_WIDTH : nat := 20.

(** ** Scopes

    [Scope] is a string that [Scope::new] accepted. *)

Abbreviation Scope := string (only parsing).

(** [s.chars().take(n)]: the bytes of the first [n] characters. *)
Fixpoint chars_take (n : nat) (s : string) : string :=
  match s with
  | EmptyString => EmptyString
  | String c rest =>
      if is_continuation c then String c (chars_take n rest)
      else match n with
           | O => EmptyString
           | S n => String c (chars_take n rest)
           end
  end.

(** crates/evt/src/journal/scope.rs:54-76 [Scope::new] *)
Definition scope_new (scope : string) : Result Scope :=
  if is_empty scope then Err (InvalidJournal (Fmt "a scope cannot be empty" []))
  else if MAX_SCOPE_BYTES <? slen scope then
    Err (InvalidJournal (Fmt "a scope is at most {MAX_SCOPE_BYTES} bytes; {:?}... is {}"
      [show MAX_SCOPE_BYTES; chars_take 32 scope; show (slen scope)]))
  else if contains_nul scope then
    Err (InvalidJournal (Fmt "a scope cannot contain U+0000" []))
  else Ok scope.

(** crates/evt/src/journal/scope.rs:84-86 [Scope::row_pk] *)
Definition row_pk (scope : Scope) : string := ROW_PARTITION_PREFIX +:+ scope.

(** crates/evt/src/journal/scope.rs:89-91 [Scope::counter_pk] *)
Definition counter_pk (scope : Scope) : string := COUNTER_PARTITION_PREFIX +:+ scope.

(** A scope that [Scope::new] accepted. *)
Definition scope_ok (scope : Scope) : Prop := scope_new scope = Ok scope.

(** ** Positions as sort keys *)

Fixpoint zeros (n : nat) : string :=
  match n with
  | O => EmptyString
  | S n => String "0" (zeros n)
  end.

(** [format!("{n:0width$}")]: the number, with zeros before it up to [width] bytes. *)
Definition zero_padded (width : nat) (n : Z) : string :=
  zeros (width - String.length (show n)) +:+ show n.

(** crates/evt/src/journal/scope.rs:109-111 [row_sk] *)
Definition row_sk (position : Z) : string := zero_padded POSITION_WIDTH position.

Fixpoint all_digits (s : string) : bool :=
  match s with
  | EmptyString => true
  | String c rest => match digit_value c with Some _ => all_digits rest | None => false end
  end.

(** crates/evt/src/journal/scope.rs:115-121 [parse_row_sk] *)
Definition parse_row_sk (sk : string) : option Z :=
  if negb (String.length sk =? POSITION_WIDTH)%nat || negb (all_digits sk) then None
  else parse_u64 sk.

(** ** Allocations *)

(** crates/evt/src/journal/scope.rs:127-132 [Allocation] *)
Record Allocation := mkAllocation { al_scope : string; al_position : Z }.

#[export] Instance Allocation_eq_dec : EqDecision Allocation.
Proof. solve_decision. Defined.

(** crates/evt/src/journal/scope.rs:136-141 [Allocation::new] *)
Definition allocation_new (scope : Scope) (position : Z) : Allocation :=
  mkAllocation scope position.

(** crates/evt/src/journal/scope.rs:144-146 [Allocation::scope] *)
Definition allocation_scope (allocation : Allocation) : Result Scope :=
  scope_new (al_scope allocation).

(** ** JSON

    The encodings [serde_json] gives the journal's types, each function one call of the crate. *)

(** crates/evt/src/journal/row.rs:23-27 [RowIn] *)
Record RowIn := mkRowIn { ri_scope : string; ri_position : Z; ri_event : SerializedEvent }.

(** crates/evt/src/journal/row.rs:30-33 [CounterPayload] *)
Record CounterPayload := mkCounterPayload { cp_scope : string; cp_position : Z }.

Class JournalJson := {
  json_allocations : list Allocation → string;
  json_parse_allocations : string → result (list Allocation) string;
  json_row : RowIn → result string string;
  json_parse_row : string → result RowIn string;
  json_counter : CounterPayload → string;
  json_parse_counter : string → result CounterPayload string
}.

(** crates/evt/src/metadata.rs:176-189 [Metadata::eq]

    What an event is up to the equality of events: its causation is the effective one, which is
    also what its encoding holds. *)
Definition as_encoded (event : SerializedEvent) : SerializedEvent :=
  with_metadata event
    (with_causation (ev_metadata event) (effective_causation_id (ev_metadata event))).

(** What reading back an encoding gives: the allocations, the counter and the row that were
    encoded, the event with its effective causation. *)
Class JournalJsonLaws (J : JournalJson) : Prop := {
  parse_allocations_law : ∀ l, json_parse_allocations (json_allocations l) = Ok l;
  parse_counter_law : ∀ c, json_parse_counter (json_counter c) = Ok c;
  parse_row_law : ∀ r text, json_row r = Ok text →
    json_parse_row text = Ok (mkRowIn (ri_scope r) (ri_position r) (as_encoded (ri_event r)))
}.

Section rows.
Context `{JournalJson}.

(** crates/evt/src/journal/scope.rs:151-153 [encode_allocations] *)
Definition encode_allocations (allocations : list Allocation) : string :=
  json_allocations allocations.

(** crates/evt/src/journal/scope.rs:157-168 [set_allocations] *)
Definition set_allocations (event : SerializedEvent) (allocations : list Allocation)
  : SerializedEvent :=
  let extensions := md_extensions (ev_metadata event) in
  with_metadata event
    (with_extensions (ev_metadata event)
      (if nil_b allocations then delete ALLOCATION_KEY extensions
       else <[ALLOCATION_KEY := encode_allocations allocations]> extensions)).

(** crates/evt/src/journal/scope.rs:181-190 [allocations]

    The checks of one allocation. *)
Definition check_allocation (allocation : Allocation) : Result unit :=
  let? scope := allocation_scope allocation in
  if al_position allocation =? 0 then
    Err (InvalidJournal (Fmt "scope {:?} has position 0; positions start at 1"
      [al_scope allocation]))
  else Ok tt.

(** crates/evt/src/journal/scope.rs:173-203 [allocations] *)
Definition allocations (metadata : Metadata) : Result (list Allocation) :=
  match md_extensions metadata !! ALLOCATION_KEY with
  | None => Ok []
  | Some text =>
      let? allocations :=
        map_err (λ err, InvalidJournal (Fmt "the {ALLOCATION_KEY} metadata: {err}"
          [ALLOCATION_KEY; err])) (json_parse_allocations text) in
      check? check_each check_allocation allocations;
      match find_window (λ a b, negb (string_ltb (al_scope a) (al_scope b))) allocations with
      | Some (a, b) =>
          Err (InvalidJournal
            (Fmt "allocations must ascend by scope with no repeat; {:?} is followed by {:?}"
              [al_scope a; al_scope b]))
      | None => Ok allocations
      end
  end.

(** ** Rows *)

(** crates/evt/src/journal/row.rs:53-59 [encode_row] *)
Definition encode_row (scope : Scope) (position : Z) (event : SerializedEvent) : Result string :=
  map_err Json (json_row (mkRowIn scope position event)).

(** crates/evt/src/journal/row.rs:63-65 [row_size] *)
Definition row_size (scope : Scope) (position : Z) (event : SerializedEvent) : Result Z :=
  let? row := encode_row scope position event in Ok (slen row).

(** crates/evt/src/projection.rs:277-295 [ViewRow::new] *)
Definition view_row_new (pk sk entity_id entity_type payload : string) : ViewRow :=
  mkViewRow pk sk entity_id entity_type payload 0.

(** crates/evt/src/journal/row.rs:69-77 [row_view] *)
Definition row_view (scope : Scope) (position : Z) (event : SerializedEvent) : Result ViewRow :=
  let? payload := encode_row scope position event in
  Ok (view_row_new (row_pk scope) (row_sk position) (ev_entity_id event) ROW_ENTITY_TYPE payload).

(** crates/evt/src/journal/row.rs:80-86 [counter_payload] *)
Definition counter_payload (scope : Scope) (position : Z) : string :=
  json_counter (mkCounterPayload scope position).

(** crates/evt/src/journal/row.rs:90-98 [counter_view] *)
Definition counter_view (scope : Scope) (position : Z) : ViewRow :=
  view_row_new (counter_pk scope) COUNTER_SORT_KEY COUNTER_OWNER COUNTER_ENTITY_TYPE
    (counter_payload scope position).

(** crates/evt/src/journal/row.rs:101-116 [read_counter] *)
Definition read_counter (scope : Scope) (row : ViewRow) : Result Z :=
  let corrupt why args :=
    InvalidRecord (Fmt ("journal counter of {scope}: " +:+ why) (scope :: args)) in
  if negb (bool_decide (vr_pk row = counter_pk scope))
     || negb (bool_decide (vr_sk row = COUNTER_SORT_KEY)) then
    Err (corrupt "found the row {:?}/{:?}" [vr_pk row; vr_sk row])
  else
    let? payload :=
      map_err (λ err, corrupt "the payload does not decode: {err}" [err])
        (json_parse_counter (vr_payload row)) in
    if negb (bool_decide (cp_scope payload = scope)) then
      Err (corrupt "it names the scope {:?}" [cp_scope payload])
    else Ok (cp_position payload).

(** crates/evt/src/journal/row.rs:41-50 [JournalRow] *)
Record JournalRow := mkJournalRow {
  jr_scope : Scope;
  jr_position : Z;
  jr_owner : EntityId;
  jr_event : SerializedEvent
}.

(** crates/evt/src/journal/row.rs:120-138 [decode_row_payload] *)
Definition decode_row_payload (scope : Scope) (payload : string) : Result JournalRow :=
  let? payload :=
    map_err (λ err, InvalidRecord (Fmt "a compacted journal row of {scope}: {err}" [scope; err]))
      (json_parse_row payload) in
  if negb (bool_decide (ri_scope payload = scope)) || (ri_position payload =? 0) then
    Err (InvalidRecord (Fmt "a compacted journal row of {scope} says {:?} at {}"
      [scope; ri_scope payload; show (ri_position payload)]))
  else
    Ok (mkJournalRow scope (ri_position payload) (ev_entity_id (ri_event payload))
      (ri_event payload)).

(** crates/evt/src/journal/row.rs:143-180 [JournalRow::from_view] *)
Definition row_from_view (scope : Scope) (row : ViewRow) : Result JournalRow :=
  let corrupt why args :=
    InvalidRecord
      (Fmt ("journal row {:?}/{:?} of {scope}: " +:+ why) (vr_pk row :: vr_sk row :: scope :: args)) in
  if negb (bool_decide (vr_pk row = row_pk scope)) then
    Err (corrupt "it is in another partition" [])
  else
    let? position :=
      ok_or (parse_row_sk (vr_sk row)) (corrupt "the sort key is not a position" []) in
    let? payload :=
      map_err (λ err, corrupt "the payload does not decode: {err}" [err])
        (json_parse_row (vr_payload row)) in
    if negb (bool_decide (ri_scope payload = scope)) || negb (ri_position payload =? position) then
      Err (corrupt "the payload says {:?} at {}" [ri_scope payload; show (ri_position payload)])
    else if negb (bool_decide (ev_entity_id (ri_event payload) = vr_entity_id row)) then
      Err (corrupt "the owner {:?} is not the event's stream {}"
        [vr_entity_id row; ev_entity_id (ri_event payload)])
    else Ok (mkJournalRow scope position (vr_entity_id row) (ri_event payload)).
End rows.

(** ** Positions and their keys *)

Lemma digit_value_range c d : digit_value c = Some d → 0 ≤ d ≤ 9.
Proof. unfold digit_value. destruct (_ && _) eqn:Hc; [|done]. intros [= <-]. lia. Qed.

Lemma digit_value_compare c d x y :
  digit_value c = Some x → digit_value d = Some y → Ascii.compare c d = (x ?= y).
Proof.
  unfold digit_value, Ascii.compare. intros Hc Hd. rewrite <-N2Z.inj_compare.
  destruct (_ && _) in Hc; [|done]. destruct (_ && _) in Hd; [|done].
  injection Hc as <-. injection Hd as <-. rewrite <-!Z.add_opp_l. by rewrite Z.add_compare_mono_l.
Qed.

(** Digit strings of one length compare as the numbers they denote. *)
Lemma parse_digits_compare s t a b m n :
  String.length s = String.length t →
  parse_digits a s = Some m → parse_digits b t = Some n →
  (a < b → m < n) ∧ (b < a → n < m) ∧ (a = b → String.compare s t = (m ?= n)).
Proof.
  revert t a b. induction s as [|c s IH]; intros [|d t] a b Hlen Hm Hn; simpl in *; try done.
  - injection Hm as <-. injection Hn as <-. split; [done|]. split; [done|]. intros ->.
    by rewrite Z.compare_refl.
  - destruct (digit_value c) as [x|] eqn:Hc; [|done]. destruct (digit_value d) as [y|] eqn:Hd; [|done].
    injection Hlen as Hlen. destruct (IH t _ _ Hlen Hm Hn) as (IHlt & IHgt & IHeq).
    pose proof (digit_value_range _ _ Hc). pose proof (digit_value_range _ _ Hd).
    split; [intros; apply IHlt; lia|]. split; [intros; apply IHgt; lia|].
    intros ->. rewrite (digit_value_compare _ _ _ _ Hc Hd).
    destruct (Z.compare_spec x y) as [->|Hlt|Hgt]; [by apply IHeq| |].
    + symmetry. apply Z.compare_lt_iff, IHlt. lia.
    + symmetry. apply Z.compare_gt_iff, IHgt. lia.
Qed.

Lemma parse_digits_zeros acc n s : parse_digits acc (zeros n +:+ s) = parse_digits (acc * 10 ^ Z.of_nat n) s.
Proof.
  revert acc. induction n as [|n IH]; intros acc.
  - simpl. f_equal. lia.
  - cbn [zeros]. change (String "0" (zeros n) +:+ s) with (String "0" (zeros n +:+ s)).
    cbn [parse_digits]. change (digit_value "0") with (Some 0). cbv iota. rewrite IH. f_equal.
    rewrite Nat2Z.inj_succ, Z.pow_succ_r by lia. lia.
Qed.

Lemma show_nonneg n : 0 ≤ n → show n = pretty (Z.to_N n).
Proof. intros Hn. unfold show. by destruct n. Qed.

Lemma parse_digits_padded width n : 0 ≤ n → parse_digits 0 (zero_padded width n) = Some n.
Proof.
  intros Hn. unfold zero_padded. rewrite parse_digits_zeros, Z.mul_0_l, show_nonneg by done.
  rewrite parse_digits_pretty. f_equal. lia.
Qed.

Lemma all_digits_parse acc s : all_digits s = true ↔ is_Some (parse_digits acc s).
Proof.
  revert acc. induction s as [|c s IH]; intros acc; simpl; [by split; [exists acc|]|].
  destruct (digit_value c) as [d|]; [apply IH|]. split; [done|]. by intros [? ?].
Qed.

Lemma length_append s t : String.length (s +:+ t) = (String.length s + String.length t)%nat.
Proof. induction s as [|c s IH]; [done|]. exact (f_equal S IH). Qed.

Lemma pretty_go_length k x s :
  (x < 10 ^ N.of_nat k)%N → (String.length (pretty_N_go x s) ≤ k + String.length s)%nat.
Proof.
  revert x s. induction k as [|k IH]; intros x s Hx.
  - assert (x = 0%N) as -> by (simpl in Hx; lia). by rewrite pretty_N_go_0.
  - destruct (decide (0 < x)%N) as [Hpos|Hz].
    + rewrite pretty_N_go_step by done. etrans; [apply IH|simpl; lia].
      apply N.Div0.div_lt_upper_bound. by rewrite Nat2N.inj_succ, N.pow_succ_r' in Hx.
    + assert (x = 0%N) as -> by lia. rewrite pretty_N_go_0. lia.
Qed.

Lemma show_length k n :
  0 ≤ n < 10 ^ Z.of_nat k → (0 < k)%nat → (String.length (show n) ≤ k)%nat.
Proof.
  intros Hn Hk. rewrite show_nonneg by lia. unfold pretty, pretty_N.
  destruct (decide (Z.to_N n = 0%N)) as [_|_]; [simpl; lia|].
  etrans; [apply (pretty_go_length k)|simpl; lia].
  apply N2Z.inj_lt. rewrite N2Z.inj_pow. rewrite nat_N_Z, Z2N.id by lia. apply Hn.
Qed.

Lemma zeros_length n : String.length (zeros n) = n.
Proof. induction n; simpl; congruence. Qed.

Lemma zero_padded_length k n :
  0 ≤ n < 10 ^ Z.of_nat k → (0 < k)%nat → String.length (zero_padded k n) = k.
Proof.
  intros Hn Hk. unfold zero_padded. rewrite length_append, zeros_length.
  pose proof (show_length k n Hn Hk). lia.
Qed.

Lemma row_sk_length p : 0 ≤ p ≤ u64_max → String.length (row_sk p) = 20%nat.
Proof. intros Hp. apply zero_padded_length; [unfold u64_max in Hp; unfold POSITION_WIDTH; lia|]. apply Nat.lt_0_succ. Qed.

(** The keys of positions are in the order of the positions. *)
Lemma row_sk_compare p q :
  0 ≤ p ≤ u64_max → 0 ≤ q ≤ u64_max → String.compare (row_sk p) (row_sk q) = (p ?= q).
Proof.
  intros Hp Hq. apply (parse_digits_compare _ _ 0 0); [by rewrite !row_sk_length| | |done];
    apply parse_digits_padded; lia.
Qed.

Lemma row_sk_inj p q : 0 ≤ p ≤ u64_max → 0 ≤ q ≤ u64_max → row_sk p = row_sk q → p = q.
Proof.
  intros Hp Hq Heq. apply Z.compare_eq_iff. rewrite <-(row_sk_compare p q Hp Hq), Heq.
  by rewrite row_sk_compare, Z.compare_refl.
Qed.

Lemma parse_u64_digits s n :
  parse_digits 0 s = Some n → is_empty s = false → in_u64 n = true → parse_u64 s = Some n.
Proof.
  intros Hs He Hn. unfold parse_u64. destruct s as [|c s]; [done|].
  destruct (Ascii.eqb_spec c "+") as [->|_]; [done|]. rewrite He, Hs. by rewrite Hn.
Qed.

Lemma parse_row_sk_spec sk p : parse_row_sk sk = Some p ↔ sk = row_sk p ∧ 0 ≤ p ≤ u64_max.
Proof.
  unfold parse_row_sk. split.
  - destruct (Nat.eqb_spec (String.length sk) POSITION_WIDTH) as [Hlen|]; [|done].
    destruct (all_digits sk) eqn:Hd; [|done]. cbn [negb orb].
    apply (all_digits_parse 0) in Hd as [n Hn]. intros Hp.
    assert (parse_u64 sk = if in_u64 n then Some n else None) as Hu.
    { unfold parse_u64. destruct sk as [|c s]; [done|].
      destruct (Ascii.eqb_spec c "+") as [->|_]; [done|]. cbn [is_empty]. by rewrite Hn. }
    rewrite Hu in Hp. destruct (in_u64 n) eqn:Hr; [|done]. injection Hp as <-.
    assert (0 ≤ n ≤ u64_max) as Hrange.
    { unfold in_u64 in Hr. apply andb_prop in Hr. lia. }
    split; [|done]. apply String.compare_eq_iff. rewrite <-(Z.compare_refl n).
    apply (parse_digits_compare _ _ 0 0); [by rewrite row_sk_length|done| |done].
    apply parse_digits_padded. lia.
  - intros [-> Hp]. pose proof (row_sk_length p Hp) as Hlen. 
    assert (parse_digits 0 (row_sk p) = Some p) as Hd by (apply parse_digits_padded; lia).
    rewrite (proj2 (all_digits_parse 0 _)) by (by exists p). unfold POSITION_WIDTH. rewrite Hlen.
    cbn [Nat.eqb negb orb]. apply parse_u64_digits; [done| |].
    + by destruct (row_sk p).
    + unfold in_u64. apply andb_true_intro. lia.
Qed.

#[export] Hint Rewrite length_append zeros_length : evt.

(** ** Reading back what was encoded *)

Lemma scope_new_ok scope scope' : scope_new scope = Ok scope' → scope' = scope ∧ scope_ok scope.
Proof.
  unfold scope_ok, scope_new. destruct (is_empty _); [done|]. destruct (_ <? _); [done|].
  destruct (contains_nul _); [done|]. by intros [= <-].
Qed.

(** The allocations an event may carry: accepted scopes, in ascending order, positions from one. *)
Definition allocation_ok (allocation : Allocation) : Prop :=
  scope_ok (al_scope allocation) ∧ al_position allocation ≠ 0.

Definition ascending (scopes : list Scope) : Prop :=
  Sorted (λ a b, string_ltb a b = true) scopes.

Definition allocations_ok (l : list Allocation) : Prop :=
  Forall allocation_ok l ∧ ascending (map al_scope l).

Lemma check_allocation_ok allocation :
  check_allocation allocation = Ok tt ↔ allocation_ok allocation.
Proof.
  unfold check_allocation, allocation_scope, allocation_ok, scope_ok.
  destruct (scope_new (al_scope allocation)) as [scope|e] eqn:Hs; cbn [result_bind].
  - apply scope_new_ok in Hs as [-> _].
    destruct (Z.eqb_spec (al_position allocation) 0); split; try done; by intros [? ?].
  - split; [done|]. by intros [? _].
Qed.

Lemma find_window_ascending l :
  find_window (λ a b, negb (string_ltb (al_scope a) (al_scope b))) l = None ↔
  ascending (map al_scope l).
Proof.
  unfold ascending. induction l as [|a [|b l] IH]; cbn [find_window map].
  - by split; [constructor|].
  - by split; [repeat constructor|].
  - destruct (string_ltb (al_scope a) (al_scope b)) eqn:Hlt; cbn [negb].
    + rewrite IH. split; [by intros; constructor; [|constructor]|]. by inversion 1.
    + split; [done|]. inversion 1 as [|? ? _ Hhd]; subst. inversion Hhd. congruence.
Qed.

Section roundtrip.
Context `{J : JournalJson} {Hlaws : JournalJsonLaws J}.

Lemma allocations_ok_iff metadata l :
  md_extensions metadata !! ALLOCATION_KEY = Some (encode_allocations l) →
  allocations metadata = Ok l ↔ allocations_ok l.
Proof.
  intros Hkey. unfold allocations, encode_allocations, allocations_ok in *. rewrite Hkey.
  rewrite parse_allocations_law. cbn [map_err result_bind].
  rewrite <-find_window_ascending, check_bind_ok, check_each_ok.
  rewrite (Forall_iff _ _ _ check_allocation_ok).
  destruct (find_window _ _) as [[? ?]|]; split; by intros [? ?].
Qed.

(** The allocations of an event whose allocations were set are the ones it was given. *)
Lemma allocations_set event l :
  allocations_ok l → allocations (ev_metadata (set_allocations event l)) = Ok l.
Proof.
  intros Hl. destruct l as [|a l].
  - unfold allocations, set_allocations. simpl. by rewrite lookup_delete_eq.
  - apply allocations_ok_iff; [|done]. simpl. by rewrite lookup_insert_eq.
Qed.

Lemma read_counter_view scope position :
  read_counter scope (counter_view scope position) = Ok position.
Proof.
  unfold read_counter, counter_view, counter_payload, view_row_new.
  cbn [vr_pk vr_sk vr_payload].
  rewrite !bool_decide_true by done. cbn [negb orb]. rewrite parse_counter_law.
  cbn [map_err result_bind cp_scope cp_position]. by rewrite bool_decide_true.
Qed.

Lemma counter_payload_inj scope p q :
  counter_payload scope p = counter_payload scope q → p = q.
Proof.
  intros Heq. pose proof (read_counter_view scope p) as Hp. unfold counter_view in Hp.
  rewrite Heq in Hp. change (read_counter scope (counter_view scope q) = Ok p) in Hp.
  rewrite read_counter_view in Hp. by injection Hp.
Qed.

Lemma row_from_view_row scope position event view :
  0 ≤ position ≤ u64_max → row_view scope position event = Ok view →
  row_from_view scope view =
    Ok (mkJournalRow scope position (ev_entity_id event) (as_encoded event)).
Proof.
  intros Hp. unfold row_view, encode_row.
  destruct (json_row _) as [text|] eqn:Hrow; [|done]. cbn [map_err result_bind]. intros [= <-].
  unfold row_from_view, view_row_new. cbn [vr_pk vr_sk vr_entity_id vr_payload].
  rewrite bool_decide_true by done. cbn [negb].
  rewrite (proj2 (parse_row_sk_spec _ position)) by done. cbn [ok_or result_bind].
  rewrite (parse_row_law _ _ Hrow). cbn [map_err result_bind ri_scope ri_position ri_event].
  rewrite bool_decide_true, Z.eqb_refl by done. cbn [negb orb].
  by rewrite bool_decide_true.
Qed.

Lemma decode_row_encoded scope position event payload :
  position ≠ 0 → encode_row scope position event = Ok payload →
  decode_row_payload scope payload =
    Ok (mkJournalRow scope position (ev_entity_id event) (as_encoded event)).
Proof.
  intros Hp. unfold encode_row. destruct (json_row _) as [text|] eqn:Hrow; [|done].
  cbn [map_err result_bind]. intros [= <-]. unfold decode_row_payload.
  rewrite (parse_row_law _ _ Hrow). cbn [map_err result_bind ri_scope ri_position ri_event].
  rewrite bool_decide_true by done. cbn [negb orb].
  by destruct (Z.eqb_spec position 0).
Qed.
End roundtrip.

(** What a row that reads says: it is in the scope's partition at the key of its position, and its
    owner is the stream of its event. *)
Lemma row_from_view_ok `{JournalJson} scope view row :
  row_from_view scope view = Ok row →
  jr_scope row = scope ∧ vr_pk view = row_pk scope ∧ vr_sk view = row_sk (jr_position row) ∧
  0 ≤ jr_position row ≤ u64_max ∧ jr_owner row = vr_entity_id view ∧
  ev_entity_id (jr_event row) = jr_owner row.
Proof.
  unfold row_from_view. case_bool_decide as Hpk; [|done]. cbn [negb].
  destruct (parse_row_sk _) as [p|] eqn:Hsk; [|done]. cbn [ok_or result_bind].
  apply parse_row_sk_spec in Hsk as [Hsk Hr].
  destruct (json_parse_row _) as [[s q e]|]; [|done]. cbn [map_err result_bind ri_scope ri_position ri_event].
  case_bool_decide as Hs; [|done]. cbn [negb orb].
  destruct (Z.eqb_spec q p) as [->|]; [|done]. cbn [negb].
  case_bool_decide as He; [|done]. cbn [negb]. by intros [= <-].
Qed.
