(* ===== verification/Compaction.v ===== *)
(** * What a compacted journal is stored as

    [journal/compaction.rs]: the rows of a scope's compaction partition (the lease, the manifest,
    the chunks and the audits), how chunks are packed, and the conditional writes a backend applies
    all at once. *)

From S2P Require Import Prelude Types Rebuild Wire Projection Sha256 JournalScope.

(** crates/evt/src/journal/compaction.rs:34-62 [COMPACTION_PARTITION_PREFIX] *)
Definition COMPACTION_PARTITION_PREFIX : string := "journal-compaction#".
Definition COMPACTION_ENTITY_TYPE : string := "journal-compaction".
Definition LEASE_SORT_KEY : string := "LEASE".
Definition MANIFEST_SORT_KEY : string := "MANIFEST".
Definition CHUNK_SORT_KEY_PREFIX : string := "chunk#".
Definition AUDIT_SORT_KEY_PREFIX : string := "audit#".
Definition MAX_CHUNK_ROWS : nat := 500.
Definition MAX_CHUNK_BYTES : Z := 375000.
Definition MAX_COMPACTION_WRITES : nat := 99.

(** crates/evt/src/journal/compaction.rs:65-67 [compaction_pk] *)
Definition compaction_pk (scope : Scope) : string := COMPACTION_PARTITION_PREFIX +:+ scope.

(** crates/evt/src/journal/compaction.rs:70-75 [chunk_sk] *)
Definition chunk_sk (index : Z) : string :=
  CHUNK_SORT_KEY_PREFIX +:+ zero_padded POSITION_WIDTH index.

(** crates/evt/src/journal/compaction.rs:78-83 [audit_sk] *)
Definition audit_sk (checkpoint : Z) : string :=
  AUDIT_SORT_KEY_PREFIX +:+ zero_padded POSITION_WIDTH checkpoint.

(** crates/evt/src/journal/compaction.rs:86-94 [compaction_view] *)
Definition compaction_view (scope : Scope) (sk payload : string) : ViewRow :=
  view_row_new (compaction_pk scope) sk COUNTER_OWNER COMPACTION_ENTITY_TYPE payload.

(** crates/evt/src/journal/compaction.rs:100-117 [check_compaction_row] *)
Definition check_compaction_row (scope : Scope) (sort_key : string) (row : ViewRow)
  : Result ViewRow :=
  if negb (bool_decide (vr_pk row = compaction_pk scope))
     || negb (bool_decide (vr_sk row = sort_key))
     || negb (bool_decide (vr_entity_id row = COUNTER_OWNER))
     || negb (bool_decide (vr_entity_type row = COMPACTION_ENTITY_TYPE)) then
    Err (ForeignJournalRow (vr_pk row) (vr_sk row) (vr_entity_id row) (vr_entity_type row))
  else Ok row.

(** crates/evt/src/journal/compaction.rs:119-121 [corrupt] *)
Definition corrupt (scope : Scope) (what why : string) : Error :=
  InvalidRecord (Fmt "journal compaction {what} of {scope}: {why}" [what; scope; why]).

(** ** The payloads *)

(** crates/evt/src/journal/compaction.rs:130-142 [CompactionLease] *)
Record CompactionLease := mkCompactionLease {
  cl_scope : Scope;
  cl_owner : string;
  cl_token : Z;
  cl_lease_expires_at : Z;
  cl_lease_seconds : Z
}.

(** crates/evt/src/journal/compaction.rs:146-153 [LeasePayload] *)
Record LeasePayload := mkLeasePayload {
  lp_scope : string;
  lp_token : Z;
  lp_owner : option string;
  lp_lease_expires_at : option Z
}.

(** crates/evt/src/journal/compaction.rs:157-167 [LeaseRow] *)
Inductive LeaseRow :=
| Held (lease : CompactionLease)
| Released (scope : Scope) (token : Z).

(** crates/evt/src/journal/compaction.rs:242-246 [ManifestPayload] *)
Record ManifestPayload := mkManifestPayload {
  mp_scope : string;
  mp_checkpoint : Z;
  mp_chunks : list string
}.

(** crates/evt/src/journal/compaction.rs:252-259 [CompactionManifest] *)
Record CompactionManifest := mkCompactionManifest {
  mn_scope : Scope;
  mn_checkpoint : Z;
  mn_chunks : list string
}.

(** crates/evt/src/journal/compaction.rs:362-369 [ChunkIn]

    [rows] are the texts of the rows, as they are stored. *)
Record ChunkIn := mkChunkIn {
  ci_scope : string;
  ci_index : Z;
  ci_from : Z;
  ci_through : Z;
  ci_rows : list string
}.

(** crates/evt/src/journal/compaction.rs:564-573 [AuditPayload] *)
Record AuditPayload := mkAuditPayload {
  ap_scope : string;
  ap_checkpoint : Z;
  ap_digest : string;
  ap_chunks : Z;
  ap_deleted : Z;
  ap_owner : string;
  ap_token : Z;
  ap_completed_at : Z
}.

#[export] Instance CompactionLease_eq_dec : EqDecision CompactionLease.
Proof. solve_decision. Defined.
#[export] Instance CompactionManifest_eq_dec : EqDecision CompactionManifest.
Proof. solve_decision. Defined.

(** The encodings [serde_json] gives these types, each function one call of the crate. *)
Class CompactionJson := {
  json_lease : LeasePayload → string;
  json_parse_lease : string → result LeasePayload string;
  json_manifest : ManifestPayload → string;
  json_parse_manifest : string → result ManifestPayload string;
  json_audit : AuditPayload → string;
  json_parse_audit : string → result AuditPayload string;
  json_text : string → string;
  json_parse_chunk : string → result ChunkIn string
}.

(** [rows\[0\], rows\[1\], ...] joined by commas. *)
Fixpoint joined (rows : list string) : string :=
  match rows with
  | [] => EmptyString
  | [row] => row
  | row :: rest => row +:+ "," +:+ joined rest
  end.

Section payloads.
Context `{CompactionJson}.

(** crates/evt/src/journal/compaction.rs:188-196 [released_payload] *)
Definition released_payload (scope : Scope) (token : Z) : string :=
  json_lease (mkLeasePayload scope token None None).

(** crates/evt/src/journal/compaction.rs:171-179 [CompactionLease::payload] *)
Definition lease_payload (lease : CompactionLease) : string :=
  json_lease (mkLeasePayload (cl_scope lease) (cl_token lease) (Some (cl_owner lease))
    (Some (cl_lease_expires_at lease))).

(** crates/evt/src/journal/compaction.rs:182-184 [CompactionLease::released_payload] *)
Definition lease_released_payload (lease : CompactionLease) : string :=
  released_payload (cl_scope lease) (cl_token lease).

(** crates/evt/src/journal/compaction.rs:200-230 [LeaseRow::decode] *)
Definition lease_decode (scope : Scope) (payload : string) : Result LeaseRow :=
  let? stored := map_err (corrupt scope "lease") (json_parse_lease payload) in
  if negb (bool_decide (lp_scope stored = scope)) then
    Err (corrupt scope "lease" ("it names " +:+ quoted (lp_scope stored)))
  else
    match lp_owner stored, lp_lease_expires_at stored with
    | Some owner, Some lease_expires_at =>
        Ok (Held (mkCompactionLease scope owner (lp_token stored) lease_expires_at 0))
    | None, None => Ok (Released scope (lp_token stored))
    | _, _ => Err (corrupt scope "lease" "an owner and an expiry come together")
    end.

(** crates/evt/src/journal/compaction.rs:233-238 [LeaseRow::token] *)
Definition lease_token (row : LeaseRow) : Z :=
  match row with
  | Held lease => cl_token lease
  | Released _ token => token
  end.

(** crates/evt/src/journal/compaction.rs:263-270 [CompactionManifest::payload] *)
Definition manifest_payload (m : CompactionManifest) : string :=
  json_manifest (mkManifestPayload (mn_scope m) (mn_checkpoint m) (mn_chunks m)).

(** crates/evt/src/journal/compaction.rs:273-275 [CompactionManifest::digest] *)
Definition manifest_digest (m : CompactionManifest) : string := sha256_hex (manifest_payload m).

(** crates/evt/src/journal/compaction.rs:279-308 [CompactionManifest::decode] *)
Definition manifest_decode (scope : Scope) (payload : string) : Result CompactionManifest :=
  let? stored := map_err (corrupt scope "manifest") (json_parse_manifest payload) in
  if negb (bool_decide (mp_scope stored = scope)) then
    Err (corrupt scope "manifest" ("it names " +:+ quoted (mp_scope stored)))
  else if (mp_checkpoint stored =? 0) || nil_b (mp_chunks stored) then
    Err (corrupt scope "manifest" "it covers nothing")
  else if negb (forallb is_digest (mp_chunks stored)) then
    Err (corrupt scope "manifest" "a chunk digest is not SHA-256 hex")
  else Ok (mkCompactionManifest scope (mp_checkpoint stored) (mp_chunks stored)).

(** crates/evt/src/journal/compaction.rs:311-319 [CompactionManifest::gone] *)
Definition manifest_gone (m : CompactionManifest) (after : Z) : JournalGoneInfo :=
  mkJournalGone (mn_scope m) after (mn_checkpoint m) (llen (mn_chunks m)) (manifest_digest m).

(** crates/evt/src/journal/compaction.rs:356-358 [JournalGone::resume_after] *)
Definition resume_after (gone : JournalGoneInfo) : Z := jg_checkpoint gone.

(** ** Chunks *)

(** crates/evt/src/journal/compaction.rs:373-384 [CompactionChunk] *)
Record CompactionChunk := mkCompactionChunk {
  ck_scope : Scope;
  ck_index : Z;
  ck_from : Z;
  ck_through : Z;
  ck_rows : list JournalRow
}.

(** crates/evt/src/journal/compaction.rs:419-428 [decode_chunk] *)
Definition decode_chunk (scope : Scope) (payload : string) : Result ChunkIn :=
  let? stored := map_err (corrupt scope "chunk") (json_parse_chunk payload) in
  if negb (bool_decide (ci_scope stored = scope)) || nil_b (ci_rows stored)
     || (ci_from stored =? 0) then
    Err (corrupt scope "chunk" "it is not a chunk of this scope")
  else Ok stored.

(** [rows.iter().zip(from..).all(|(row, position)| row.position == position)]. *)
Fixpoint contiguous_from (from : Z) (rows : list JournalRow) : bool :=
  match rows with
  | [] => true
  | row :: rest => (jr_position row =? from) && contiguous_from (from + 1) rest
  end.

(** crates/evt/src/journal/compaction.rs:389-416 [CompactionChunk::decode]

    The two sums of a stored chunk are compared exactly: on [u64] they both wrap to the same value
    when a chunk ends at the largest position, where a build with overflow checks panics. *)
Definition chunk_decode `{JournalJson} (scope : Scope) (payload : string)
  : Result CompactionChunk :=
  let? stored := decode_chunk scope payload in
  let? rows := collect (decode_row_payload scope) (ci_rows stored) in
  if negb (contiguous_from (ci_from stored) rows)
     || negb (ci_through stored + 1 =? ci_from stored + llen rows) then
    Err (corrupt scope "chunk"
      ("its rows are not " +:+ show (ci_from stored) +:+ "..=" +:+ show (ci_through stored)))
  else
    Ok (mkCompactionChunk scope (ci_index stored) (ci_from stored) (ci_through stored) rows).

(** crates/evt/src/journal/compaction.rs:433-439 [ChunkBuilder] *)
Record ChunkBuilder := mkChunkBuilder {
  cb_scope : Scope;
  cb_index : Z;
  cb_from : Z;
  cb_rows : list string;
  cb_row_bytes : Z
}.

(** crates/evt/src/journal/compaction.rs:443-449 [BuiltChunk] *)
Record BuiltChunk := mkBuiltChunk {
  bc_index : Z;
  bc_from : Z;
  bc_through : Z;
  bc_payload : string;
  bc_digest : string
}.

(** crates/evt/src/journal/compaction.rs:453-461 [ChunkBuilder::new] *)
Definition builder_new (scope : Scope) (index from : Z) : ChunkBuilder :=
  mkChunkBuilder scope index from [] 0.

(** crates/evt/src/journal/compaction.rs:465-475 [ChunkBuilder::resume] *)
Definition builder_resume (scope : Scope) (payload : string) : Result ChunkBuilder :=
  let? stored := decode_chunk scope payload in
  Ok (mkChunkBuilder scope (ci_index stored) (ci_from stored) (ci_rows stored)
    (sumZ (map slen (ci_rows stored)))).

(** crates/evt/src/journal/compaction.rs:477-479 [ChunkBuilder::through] *)
Definition builder_through (b : ChunkBuilder) : Z := cb_from b + llen (cb_rows b) - 1.

(** A JSON key, with its quotes. *)
Definition json_key (name : string) : string := quoted name +:+ ":".

(** crates/evt/src/journal/compaction.rs:481-495 [ChunkBuilder::header] *)
Definition builder_header (b : ChunkBuilder) (through : Z) : string :=
  "{" +:+ json_key "scope" +:+ json_text (cb_scope b)
  +:+ "," +:+ json_key "index" +:+ show (cb_index b)
  +:+ "," +:+ json_key "from" +:+ show (cb_from b)
  +:+ "," +:+ json_key "through" +:+ show through
  +:+ "," +:+ json_key "rows" +:+ "[".

(** crates/evt/src/journal/compaction.rs:498-503 [ChunkBuilder::size_with] *)
Definition size_with (b : ChunkBuilder) (extra : Z) (count : Z) : Z :=
  let rows := llen (cb_rows b) + count in
  let through := cb_from b + rows - 1 in
  slen (builder_header b through) + cb_row_bytes b + extra + Z.max 0 (rows - 1) + 2.

(** crates/evt/src/journal/compaction.rs:541-559 [ChunkBuilder::build] *)
Definition builder_build (b : ChunkBuilder) : BuiltChunk :=
  let through := builder_through b in
  let payload := builder_header b through +:+ joined (cb_rows b) +:+ "]}" in
  mkBuiltChunk (cb_index b) (cb_from b) through payload (sha256_hex payload).

(** crates/evt/src/journal/compaction.rs:527-535 [ChunkBuilder::push]

    The row is added to the chunk that is open. *)
Definition builder_add (b : ChunkBuilder) (row : JournalRow) (bytes : string)
    (closed : option BuiltChunk) : Result (ChunkBuilder * option BuiltChunk) :=
  let b :=
    mkChunkBuilder (cb_scope b) (cb_index b) (cb_from b) (cb_rows b ++ [bytes])
      (cb_row_bytes b + slen bytes) in
  if MAX_CHUNK_BYTES <? size_with b 0 0 then
    Err (InvalidJournal (Fmt "the row at position {} of {} does not fit a chunk"
      [show (jr_position row); cb_scope b]))
  else Ok (b, closed).

(** crates/evt/src/journal/compaction.rs:507-538 [ChunkBuilder::push] *)
Definition builder_push `{JournalJson} (b : ChunkBuilder) (row : JournalRow)
  : Result (ChunkBuilder * option BuiltChunk) :=
  let? bytes := encode_row (jr_scope row) (jr_position row) (jr_event row) in
  let expected := cb_from b + llen (cb_rows b) in
  if negb (jr_position row =? expected) then
    Err (InvalidJournal (Fmt "compaction of {} expected position {expected}, found {}"
      [cb_scope b; show expected; show (jr_position row)]))
  else if negb (nil_b (cb_rows b))
          && ((length (cb_rows b) =? MAX_CHUNK_ROWS)%nat
              || (MAX_CHUNK_BYTES <? size_with b (slen bytes) 1)) then
    builder_add (builder_new (cb_scope b) (cb_index b + 1) (jr_position row)) row bytes
      (Some (builder_build b))
  else builder_add b row bytes None.

(** ** Audits *)

(** crates/evt/src/journal/compaction.rs:578-595 [CompactionAudit] *)
Record CompactionAudit := mkCompactionAudit {
  ca_scope : Scope;
  ca_checkpoint : Z;
  ca_digest : string;
  ca_chunks : Z;
  ca_deleted : Z;
  ca_owner : string;
  ca_token : Z;
  ca_completed_at : Z
}.

(** crates/evt/src/journal/compaction.rs:599-611 [CompactionAudit::payload] *)
Definition audit_payload (a : CompactionAudit) : string :=
  json_audit (mkAuditPayload (ca_scope a) (ca_checkpoint a) (ca_digest a) (ca_chunks a)
    (ca_deleted a) (ca_owner a) (ca_token a) (ca_completed_at a)).

(** crates/evt/src/journal/compaction.rs:614-636 [CompactionAudit::decode] *)
Definition audit_decode (scope : Scope) (payload : string) : Result CompactionAudit :=
  let? stored := map_err (corrupt scope "audit") (json_parse_audit payload) in
  if negb (bool_decide (ap_scope stored = scope)) then
    Err (corrupt scope "audit" ("it names " +:+ quoted (ap_scope stored)))
  else
    Ok (mkCompactionAudit scope (ap_checkpoint stored) (ap_digest stored) (ap_chunks stored)
      (ap_deleted stored) (ap_owner stored) (ap_token stored) (ap_completed_at stored)).
End payloads.

(** ** Conditional writes *)

(** crates/evt/src/journal/compaction.rs:641-648 [Expect] *)
Inductive Expect := ExpectAny | ExpectAbsent | ExpectPayload (payload : string).

(** crates/evt/src/journal/compaction.rs:652-679 [CompactionWrite] *)
Inductive CompactionWrite :=
| WritePut (row : ViewRow) (expect : Expect)
| WriteDelete (pk sk owner : string)
| WriteCheck (pk sk : string) (expect : Expect).

(** crates/evt/src/journal/compaction.rs:683-688 [CompactionWrite::key] *)
Definition write_key (write : CompactionWrite) : string * string :=
  match write with
  | WritePut row _ => (vr_pk row, vr_sk row)
  | WriteDelete pk sk _ | WriteCheck pk sk _ => (pk, sk)
  end.

(** crates/evt/src/journal/compaction.rs:693-700 [CompactionWritten] *)
Inductive CompactionWritten := Written | EpochChanged | Refused (at_ : Z).

(** crates/evt/src/journal/compaction.rs:736-744 [check_compaction_writes] *)
Fixpoint check_write_keys (keys : gset (string * string)) (writes : list CompactionWrite)
  : Result unit :=
  match writes with
  | [] => Ok tt
  | write :: rest =>
      if bool_decide (write_key write ∈ keys) then
        Err (InvalidArgument (Fmt "a compaction write names {:?} twice"
          [(write_key write).1; (write_key write).2]))
      else check_write_keys ({[write_key write]} ∪ keys) rest
  end.

(** crates/evt/src/journal/compaction.rs:728-747 [check_compaction_writes] *)
Definition check_compaction_writes (writes : list CompactionWrite) : Result unit :=
  if nil_b writes || (MAX_COMPACTION_WRITES <? length writes)%nat then
    Err (InvalidArgument
      (Fmt "a compaction write holds 1 to {MAX_COMPACTION_WRITES} writes; got {}"
        [show (Z.of_nat MAX_COMPACTION_WRITES); show (llen writes)]))
  else check_write_keys ∅ writes.

(** crates/evt/src/journal/compaction.rs:750-758 [meets] *)
Definition meets (expect : Expect) (row : option ViewRow) : bool :=
  match expect with
  | ExpectAny => true
  | ExpectAbsent => match row with None => true | Some _ => false end
  | ExpectPayload payload =>
      match row with
      | Some row =>
          bool_decide (vr_entity_id row = COUNTER_OWNER) && bool_decide (vr_payload row = payload)
      | None => false
      end
  end.
