(* ===== verification/JournalConfig.v ===== *)
(** * Journal configuration and allocation

    [journal/config.rs]: which entity types a journal covers, the scopes each event belongs to, the
    size every row must keep, and the positions a commit's events are given in their scopes. *)

From S2P Require Import Prelude Types Projection Repository Retry Program Store JournalScope.

(** crates/evt/src/journal/config.rs:21-29 [DEFAULT_MAX_ROW_BYTES] *)
Definition DEFAULT_MAX_ROW_BYTES : Z := 30000.
Definition MAX_ROW_BYTES : Z := 370000.
Definition DEFAULT_RETRY : RetryPolicy := retry_policy_new DEFAULT_MAX_ATTEMPTS.

(** crates/evt/src/journal/config.rs:42-45 [ScopeResolver]

    A resolver returns [Scope]s, which only [Scope::new] makes. *)
Definition ScopeResolver : Type := SerializedEvent → result (list Scope) BoxError.

Definition resolver_ok (resolver : ScopeResolver) : Prop :=
  ∀ event scopes, resolver event = Ok scopes → Forall scope_ok scopes.

(** crates/evt/src/journal/config.rs:96-102 [Journal] *)
Record Journal := mkJournal {
  jo_entity_types : list EntityType;
  jo_resolver : ScopeResolver;
  jo_max_row_bytes : Z;
  jo_pre_check_headroom : Z;
  jo_retry : RetryPolicy
}.

(** crates/evt/src/journal/config.rs:123-147 [Journal::new] *)
Definition journal_new (entity_types : list EntityType) (resolver : ScopeResolver)
  : Result Journal :=
  let entity_types := dedup (sort_by string_leb entity_types) in
  if nil_b entity_types then
    Err (InvalidJournal (Fmt "a journal covers at least one entity type" []))
  else Ok (mkJournal entity_types resolver DEFAULT_MAX_ROW_BYTES 0 DEFAULT_RETRY).

(** crates/evt/src/journal/config.rs:154-164 [Journal::with_max_row_bytes] *)
Definition with_max_row_bytes (j : Journal) (max_row_bytes : Z) : Result Journal :=
  if MAX_ROW_BYTES <? max_row_bytes then
    Err (InvalidJournal (Fmt "a row cap is at most {MAX_ROW_BYTES} bytes; got {max_row_bytes}"
      [show MAX_ROW_BYTES; show max_row_bytes]))
  else
    Ok (mkJournal (jo_entity_types j) (jo_resolver j) max_row_bytes (jo_pre_check_headroom j)
      (jo_retry j)).

(** crates/evt/src/journal/config.rs:171-174 [Journal::with_pre_check_headroom] *)
Definition with_pre_check_headroom (j : Journal) (bytes : Z) : Journal :=
  mkJournal (jo_entity_types j) (jo_resolver j) (jo_max_row_bytes j) bytes (jo_retry j).

(** crates/evt/src/journal/config.rs:180-183 [Journal::with_retry] *)
Definition journal_with_retry (j : Journal) (retry : RetryPolicy) : Journal :=
  mkJournal (jo_entity_types j) (jo_resolver j) (jo_max_row_bytes j) (jo_pre_check_headroom j)
    retry.

(** crates/evt/src/journal/config.rs:201-203 [Journal::covers] *)
Definition covers (j : Journal) (entity_type : EntityType) : bool :=
  bool_decide (entity_type ∈ jo_entity_types j).

Section config.
Context `{JournalJson} (box_text : BoxError → string).

(** crates/evt/src/journal/config.rs:208-233 [Journal::scopes_of]

    [box_text] is the display text of the resolver's error. *)
Definition scopes_of (j : Journal) (event : SerializedEvent) : Result (list Scope) :=
  if negb (covers j (ev_entity_type event)) then Ok []
  else
    let? scopes :=
      map_err
        (λ err, InvalidJournal (Fmt "the scope resolver failed for {}: {err}"
          [ev_id event; box_text err]))
        (if bool_decide (is_Some (md_extensions (ev_metadata event) !! ALLOCATION_KEY)) then
           jo_resolver j (set_allocations event [])
         else jo_resolver j event) in
    Ok (dedup (sort_by string_leb scopes)).

(** crates/evt/src/journal/config.rs:245-266 [Journal::check_row_with] *)
Definition check_row_with (j : Journal) (scope : Scope) (position : Z) (event : SerializedEvent)
    (headroom : Z) : Result unit :=
  let? bytes := row_size scope position event in
  let size := usize_saturating_add bytes headroom in
  if jo_max_row_bytes j <? size then
    Err (JournalRowTooLarge
      (mkRowTooLarge scope position (ev_id event) size (jo_max_row_bytes j)))
  else Ok tt.

(** crates/evt/src/journal/config.rs:236-243 [Journal::check_row] *)
Definition check_row (j : Journal) (scope : Scope) (position : Z) (event : SerializedEvent)
  : Result unit :=
  check_row_with j scope position event 0.

(** [widest.as_ref().is_none_or(|widest| row.size > widest.size)]: the row to report. *)
Definition widest_of (widest : option RowTooLarge) (row : RowTooLarge) : option RowTooLarge :=
  match widest with
  | Some kept => if rt_size kept <? rt_size row then Some row else widest
  | None => Some row
  end.

(** crates/evt/src/journal/config.rs:287-317 [Journal::pre_check]

    The widest row of one event that is too large, at the largest positions. *)
Definition pre_check_event (j : Journal) (event : SerializedEvent) (scopes : list Scope)
  : option RowTooLarge :=
  let measured :=
    set_allocations event (map (λ scope, allocation_new scope u64_max) scopes) in
  fold_left
    (λ widest scope,
      match check_row_with j scope u64_max measured (jo_pre_check_headroom j) with
      | Err (JournalRowTooLarge row) => widest_of widest row
      | _ => widest
      end)
    scopes None.

(** crates/evt/src/journal/config.rs:287-317 [Journal::pre_check] *)
Fixpoint pre_check (j : Journal) (events : list SerializedEvent) : Result unit :=
  match events with
  | [] => Ok tt
  | event :: rest =>
      let? scopes := scopes_of j event in
      if nil_b scopes then pre_check j rest
      else match pre_check_event j event scopes with
           | Some row => Err (JournalRowTooLarge row)
           | None => pre_check j rest
           end
  end.

(** crates/evt/src/store.rs:1357-1377 [stamp_commit_id]

    The stamp with a generator that always gives [generated]. *)
Definition stamp_with (metadata : Metadata) (generated : string) : Metadata :=
  match non_empty (md_command_id metadata) with
  | Some command_id => with_commit_id metadata command_id
  | None =>
      if is_empty (md_commit_id metadata) then with_commit_id metadata generated else metadata
  end.

(** crates/evt/src/journal/config.rs:325-336 [Journal::pre_check_events] *)
Definition pre_check_events `{A : Aggregate} (j : Journal) (entity_id : EntityId)
    (sequence : EventSequence) (events : list ag_event) (metadata : Metadata) : Result unit :=
  let stamped := stamp_with metadata (zeros 26) in
  let? serialized := serialize_events entity_id sequence events stamped in
  pre_check j serialized.
End config.

(** ** Allocation *)

(** crates/evt/src/journal/config.rs:342-347 [Allocated] *)
Record Allocated := mkAllocated {
  ad_allocations : list (list Allocation);
  ad_counters : gmap Scope Z
}.

(** crates/evt/src/journal/config.rs:362-373 [allocate]

    One event's scopes. *)
Fixpoint allocate_event (counters next : gmap Scope Z) (scopes : list Scope)
  : Result (list Allocation * gmap Scope Z) :=
  match scopes with
  | [] => Ok ([], next)
  | scope :: rest =>
      let current := default 0 (or_else (next !! scope) (counters !! scope)) in
      let? position :=
        ok_or (u64_checked_add current 1)
          (InvalidJournal (Fmt "scope {scope} is out of positions" [scope])) in
      let? done := allocate_event counters (<[scope := position]> next) rest in
      Ok (allocation_new scope position :: done.1, done.2)
  end.

Fixpoint allocate_from (counters next : gmap Scope Z) (plan : list (list Scope))
  : Result Allocated :=
  match plan with
  | [] => Ok (mkAllocated [] next)
  | scopes :: rest =>
      let? event := allocate_event counters next scopes in
      let? others := allocate_from counters event.2 rest in
      Ok (mkAllocated (event.1 :: ad_allocations others) (ad_counters others))
  end.

(** crates/evt/src/journal/config.rs:352-382 [allocate] *)
Definition allocate (counters : gmap Scope Z) (plan : list (list Scope)) : Result Allocated :=
  allocate_from counters ∅ plan.

(** ** Scopes of an event *)

Lemma scopes_of_ok `{JournalJson} box_text j event scopes :
  resolver_ok (jo_resolver j) → scopes_of box_text j event = Ok scopes →
  Forall scope_ok scopes ∧ ascending scopes.
Proof.
  intros Hr. unfold scopes_of. destruct (negb _).
  { intros [= <-]. split; [constructor|]. constructor. }
  destruct (map_err _ _) as [found|] eqn:Hf; cbn [result_bind]; [|done]. intros [= <-].
  split; [|apply sort_dedup_ascending]. apply Forall_forall. intros scope Hin.
  rewrite dedup_elem_of, elem_of_sort_by in Hin.
  assert (Forall scope_ok found) as Hall.
  { case_bool_decide; destruct (jo_resolver j _) eqn:Hj; simpl in Hf; inv_ok; by eapply Hr. }
  rewrite Forall_forall in Hall. by apply Hall.
Qed.

(** ** Positions *)

(** The position a scope is at, the positions a list of allocations gives it, and how many. *)
Definition at_position (counters : gmap Scope Z) (scope : Scope) : Z :=
  default 0 (counters !! scope).

Definition positions_in (scope : Scope) (l : list Allocation) : list Z :=
  map al_position (List.filter (λ a : Allocation, bool_decide (al_scope a = scope)) l).

Definition times (scope : Scope) (scopes : list Scope) : nat :=
  length (List.filter (λ s : Scope, bool_decide (s = scope)) scopes).

Lemma positions_in_app scope l k : positions_in scope (l ++ k) = positions_in scope l ++ positions_in scope k.
Proof. unfold positions_in. by rewrite List.filter_app, map_app. Qed.

Lemma times_app scope l k : times scope (l ++ k) = (times scope l + times scope k)%nat.
Proof. unfold times. by rewrite List.filter_app, length_app. Qed.

Lemma u64_checked_add_Some a b c : u64_checked_add a b = Some c → c = a + b ∧ 0 ≤ c ≤ u64_max.
Proof.
  unfold u64_checked_add, in_u64. destruct (_ && _) eqn:Hc; [|done]. intros [= <-].
  apply andb_prop in Hc. lia.
Qed.

(** What a run of [allocate] over some scopes has done: [next] holds the scopes it has reached. *)
Record allocating (counters before after : gmap Scope Z) (scopes : list Scope)
    (l : list Allocation) : Prop := {
  ag_scopes : map al_scope l = scopes;
  ag_range : Forall (λ a, 0 ≤ al_position a ≤ u64_max) l;
  ag_positions : ∀ scope, positions_in scope l =
    seqZ (at_position (before ∪ counters) scope + 1) (Z.of_nat (times scope scopes));
  ag_after : ∀ scope, at_position (after ∪ counters) scope =
    at_position (before ∪ counters) scope + Z.of_nat (times scope scopes);
  ag_touched : ∀ scope, is_Some (after !! scope) ↔ is_Some (before !! scope) ∨ scope ∈ scopes
}.

Lemma allocating_nil counters before : allocating counters before before [] [].
Proof.
  split; [done|constructor| | |].
  - intros scope. done.
  - intros scope. unfold times. simpl. lia.
  - intros scope. set_solver.
Qed.

Lemma allocating_app counters x y z s1 s2 l1 l2 :
  allocating counters x y s1 l1 → allocating counters y z s2 l2 →
  allocating counters x z (s1 ++ s2) (l1 ++ l2).
Proof.
  intros [Hs1 Hr1 Hp1 Ha1 Ht1] [Hs2 Hr2 Hp2 Ha2 Ht2]. split.
  - by rewrite map_app, Hs1, Hs2.
  - by apply Forall_app.
  - intros scope. rewrite positions_in_app, Hp1, Hp2, Ha1, times_app, Nat2Z.inj_add.
    rewrite seqZ_app by lia. f_equal. f_equal. lia.
  - intros scope. rewrite Ha2, Ha1, times_app. lia.
  - intros scope. rewrite Ht2, Ht1, elem_of_app. tauto.
Qed.

Lemma allocating_one counters before scope position :
  u64_checked_add (default 0 (or_else (before !! scope) (counters !! scope))) 1 = Some position →
  allocating counters before (<[scope := position]> before) [scope] [allocation_new scope position].
Proof.
  intros [Hp Hr]%u64_checked_add_Some.
  assert (at_position (before ∪ counters) scope = position - 1) as Hat.
  { unfold at_position. rewrite lookup_union. unfold or_else in Hp.
    destruct (before !! scope), (counters !! scope); simpl in *; lia. }
  split; [done|by apply Forall_singleton| | |].
  - intros s. unfold positions_in, times. simpl. case_bool_decide as Hs; [|done]. subst s. simpl.
    rewrite Hat. change (Z.of_nat 1) with 1. rewrite seqZ_cons by lia. simpl.
    f_equal. lia.
  - intros s. unfold times. simpl. unfold at_position at 1.
    rewrite <-insert_union_l. case_bool_decide as Hs.
    + subst s. rewrite lookup_insert_eq, Hat. simpl. lia.
    + rewrite lookup_insert_ne by done. simpl. unfold at_position. lia.
  - intros s. rewrite lookup_insert_is_Some, list_elem_of_singleton.
    destruct (decide (scope = s)); naive_solver.
Qed.

Lemma allocate_event_ok counters before scopes l after :
  allocate_event counters before scopes = Ok (l, after) →
  allocating counters before after scopes l.
Proof.
  revert before l after. induction scopes as [|scope rest IH]; intros before l after; cbn [allocate_event].
  - intros [= <- <-]. apply allocating_nil.
  - destruct (u64_checked_add _ _) as [position|] eqn:Hp; cbn [ok_or result_bind]; [|done].
    destruct (allocate_event _ _ rest) as [[l' after']|] eqn:Hrest; cbn [result_bind]; [|done].
    intros [= <- <-]. eapply (allocating_app _ _ _ _ [scope] rest [_] l').
    + by apply allocating_one.
    + by apply IH.
Qed.

Lemma allocate_from_ok counters before plan done :
  allocate_from counters before plan = Ok done →
  map (map al_scope) (ad_allocations done) = plan ∧
  allocating counters before (ad_counters done) (concat plan) (concat (ad_allocations done)).
Proof.
  revert before done. induction plan as [|scopes rest IH]; intros before done; cbn [allocate_from].
  - intros [= <-]. split; [done|]. apply allocating_nil.
  - destruct (allocate_event _ _ _) as [[l after]|] eqn:He; cbn [result_bind]; [|done].
    destruct (allocate_from _ _ rest) as [others|] eqn:Hrest; cbn [result_bind]; [|done].
    intros [= <-]. cbn [ad_allocations ad_counters map concat].
    apply IH in Hrest as [Hshape Hall]. apply allocate_event_ok in He as Hev.
    split; [by rewrite Hshape, (ag_scopes _ _ _ _ _ Hev)|]. by eapply allocating_app.
Qed.

(** Every scope's positions continue from its counter with no gap and no repeat, in the order of
    the events, and its new counter is the last of them. *)
Lemma allocate_positions counters plan done :
  allocate counters plan = Ok done →
  map (map al_scope) (ad_allocations done) = plan ∧
  Forall (λ a, 0 ≤ al_position a ≤ u64_max) (concat (ad_allocations done)) ∧
  (∀ scope, positions_in scope (concat (ad_allocations done)) =
     seqZ (at_position counters scope + 1) (Z.of_nat (times scope (concat plan)))) ∧
  (∀ scope, ad_counters done !! scope =
     if decide (scope ∈ concat plan) then
       Some (at_position counters scope + Z.of_nat (times scope (concat plan)))
     else None).
Proof.
  intros [Hshape [Hs Hr Hp Ha Ht]]%allocate_from_ok.
  split; [done|]. split; [done|]. split.
  - intros scope. rewrite Hp. by rewrite (left_id_L ∅ (∪)).
  - intros scope. specialize (Ha scope). specialize (Ht scope).
    rewrite lookup_empty in Ht. rewrite (left_id_L ∅ (∪)) in Ha. unfold at_position at 1 in Ha.
    rewrite lookup_union in Ha. destruct (decide (scope ∈ concat plan)) as [Hin|Hno].
    + destruct (proj2 Ht (or_intror Hin)) as [p Hl]. rewrite Hl in *. f_equal. 
      by destruct (counters !! scope).
    + destruct (ad_counters done !! scope) as [p|]; [|done].
      destruct (proj1 Ht (ex_intro _ p eq_refl)) as [[? ?]|?]; done.
Qed.
