(* ===== verification/JournalRead.v ===== *)
(** * Journal calls and reads

    The calls a journal makes on the store under it ([JournalStore], [JournalCompactionStore] and
    [CompactionStore] of [journal/read.rs] and [journal/compaction.rs]), the readers of the rows a
    compaction leaves ([journal/compact.rs]), and the pages of a scope's journal
    ([journal/read.rs]). *)

From S2P Require Import Prelude Types Features Outcome Rebuild Projection Repository Program.
From S2P Require Import Sha256 JournalScope Compaction.

(** ** Calls *)

(** crates/evt/src/journal/read.rs:23-77 [JournalStore]

    [JRepository] is a call of the wrapped repository, [JDeclared] and [JSetDeclared] the flag a
    journal repository shares with its clones, and the rest the calls of the journal's stores, of
    the feature marker and of the rebuild fence. *)
Inductive JCall (Op : Type) : Type → Type :=
| JRepository (B : Type) (q : Call Op B) : JCall Op B
| JReadCounter (scope : Scope) : JCall Op (Result Z)
| JReadLastPosition (scope : Scope) : JCall Op (Result Z)
| JReadRows (scope : Scope) (after limit : Z) : JCall Op (Result (list JournalRow))
| JReadCompactionRow (scope : Scope) (sort_key : string) : JCall Op (Result (option ViewRow))
| JReadManifest : JCall Op (Result (option FeatureManifest))
| JUpdateManifest (change : FeatureManifest → FeatureManifest) : JCall Op (Result unit)
| JRefusesUninitialized : JCall Op bool
| JAppliesExpectedPayload : JCall Op bool
| JDeclared : JCall Op bool
| JSetDeclared (declared : bool) : JCall Op unit
| JWriteCompaction (epoch : option RebuildEpoch) (writes : list CompactionWrite)
    : JCall Op (Result CompactionWritten)
| JCompactionNow : JCall Op Z
| JRebuildGeneration : JCall Op (Result RebuildGeneration).
Arguments JRepository {Op B} q.
Arguments JReadCounter {Op} scope.
Arguments JReadLastPosition {Op} scope.
Arguments JReadRows {Op} scope after limit.
Arguments JReadCompactionRow {Op} scope sort_key.
Arguments JReadManifest {Op}.
Arguments JUpdateManifest {Op} change.
Arguments JRefusesUninitialized {Op}.
Arguments JAppliesExpectedPayload {Op}.
Arguments JDeclared {Op}.
Arguments JSetDeclared {Op} declared.
Arguments JWriteCompaction {Op} epoch writes.
Arguments JCompactionNow {Op}.
Arguments JRebuildGeneration {Op}.

(** A program over the journal's calls. *)
Abbreviation JProg Op A := (Tree (JCall Op) A).

(** A pure result, as a program. *)
Definition pure_prog {E A} (r : Result A) : Tree E (Result A) := Ret r.

(** ** The rebuild epoch *)

(** crates/evt/src/rebuild.rs:402-406 [observe_rebuild_epoch] *)
Definition observe_rebuild_epoch {Op} : JProg Op (Result RebuildEpoch) :=
  await? generation := call JRebuildGeneration in Ret (epoch_observe generation).

(** crates/evt/src/rebuild.rs:409-414 [verify_rebuild_epoch] *)
Definition verify_rebuild_epoch {Op} (epoch : RebuildEpoch) : JProg Op (Result unit) :=
  await? generation := call JRebuildGeneration in Ret (epoch_verify epoch generation).

(** crates/evt/src/rebuild.rs:419-434 [read_at_rebuild_epoch] *)
Definition read_at_rebuild_epoch {Op A} (read : RebuildEpoch → JProg Op (Result A))
  : JProg Op (Result A) :=
  await? epoch := observe_rebuild_epoch in
  await? value := read epoch in
  await? verified := verify_rebuild_epoch epoch in
  Ret (Ok value).

Section reads.
Context `{JournalJson} `{CompactionJson} {Op : Type}.

(** ** Compaction rows *)

(** crates/evt/src/journal/compact.rs:66-76 [read_engine_row] *)
Definition read_engine_row (scope : Scope) (sort_key : string)
  : JProg Op (Result (option ViewRow)) :=
  await? row := call (JReadCompactionRow scope sort_key) in
  Ret match row with
      | None => Ok None
      | Some row => let? row := check_compaction_row scope sort_key row in Ok (Some row)
      end.

(** crates/evt/src/journal/compact.rs:79-87 [read_manifest] *)
Definition read_manifest (scope : Scope) : JProg Op (Result (option CompactionManifest)) :=
  await? row := read_engine_row scope MANIFEST_SORT_KEY in
  Ret match row with
      | None => Ok None
      | Some row => let? manifest := manifest_decode scope (vr_payload row) in Ok (Some manifest)
      end.

(** crates/evt/src/journal/compact.rs:90-97 [read_floor] *)
Definition read_floor (scope : Scope) : JProg Op (Result Z) :=
  await? manifest := read_manifest scope in
  Ret (Ok match manifest with Some manifest => mn_checkpoint manifest | None => 0 end).

(** crates/evt/src/journal/compact.rs:104-138 [read_chunk] *)
Definition read_chunk (manifest : CompactionManifest) (index : nat)
  : JProg Op (Result CompactionChunk) :=
  let scope := mn_scope manifest in
  match mn_chunks manifest !! index with
  | None =>
      Ret (Err (InvalidArgument
        (Fmt "the snapshot of {scope} has {} chunks; there is no chunk {index}"
          [scope; show (llen (mn_chunks manifest)); show (Z.of_nat index)])))
  | Some digest =>
      let moved := JournalSnapshotMoved scope (mn_checkpoint manifest) in
      await? row := read_engine_row scope (chunk_sk (Z.of_nat index)) in
      match row with
      | None => Ret (Err moved)
      | Some row =>
          if negb (bool_decide (sha256_hex (vr_payload row) = digest)) then Ret (Err moved)
          else
            await? chunk := pure_prog (chunk_decode scope (vr_payload row)) in
            if negb (ck_index chunk =? Z.of_nat index) then
              Ret (Err (InvalidRecord (Fmt "chunk {index} of {scope} says it is chunk {}"
                [show (Z.of_nat index); scope; show (ck_index chunk)])))
            else Ret (Ok chunk)
      end
  end.

(** crates/evt/src/journal/compact.rs:141-150 [read_audit] *)
Definition read_audit (scope : Scope) (checkpoint : Z)
  : JProg Op (Result (option CompactionAudit)) :=
  await? row := read_engine_row scope (audit_sk checkpoint) in
  Ret match row with
      | None => Ok None
      | Some row => let? audit := audit_decode scope (vr_payload row) in Ok (Some audit)
      end.

(** crates/evt/src/journal/compact.rs:153-161 [read_lease] *)
Definition read_lease (scope : Scope) : JProg Op (Result (option LeaseRow)) :=
  await? row := read_engine_row scope LEASE_SORT_KEY in
  Ret match row with
      | None => Ok None
      | Some row => let? lease := lease_decode scope (vr_payload row) in Ok (Some lease)
      end.

(** ** Pages *)

(** crates/evt/src/journal/read.rs:14-14 [MAX_PAGE_ROWS] *)
Definition MAX_PAGE_ROWS : Z := 1000.

(** crates/evt/src/journal/read.rs:131-136 [Gap] *)
Record Gap := mkGap { ga_from : Z; ga_to : Z }.

(** crates/evt/src/journal/read.rs:140-157 [JournalPage] *)
Record JournalPage := mkJournalPage {
  pg_scope : Scope;
  pg_after : Z;
  pg_rows : list JournalRow;
  pg_high_watermark : Z;
  pg_gap : option Gap;
  pg_cursor_ahead : bool
}.

(** crates/evt/src/journal/read.rs:162-164 [JournalPage::next_after] *)
Definition next_after (page : JournalPage) : Z :=
  match last (pg_rows page) with Some row => jr_position row | None => pg_after page end.

Definition no_gap (page : JournalPage) : bool :=
  match pg_gap page with None => true | Some _ => false end.

(** crates/evt/src/journal/read.rs:168-170 [JournalPage::has_more] *)
Definition has_more (page : JournalPage) : bool :=
  no_gap page && (next_after page <? pg_high_watermark page).

(** crates/evt/src/journal/read.rs:174-176 [JournalPage::is_caught_up] *)
Definition is_caught_up (page : JournalPage) : bool :=
  no_gap page && negb (pg_cursor_ahead page) && (pg_high_watermark page <=? next_after page).

(** crates/evt/src/journal/read.rs:182-184 [high_watermark] *)
Definition high_watermark (scope : Scope) : JProg Op (Result Z) := call (JReadCounter scope).

(** crates/evt/src/journal/read.rs:271-283 [assemble]

    The rows that follow one another, and the gap before the first that does not. *)
Fixpoint assemble_rows (expected : Z) (found : list JournalRow)
  : list JournalRow * option Gap * Z :=
  match found with
  | [] => ([], None, expected)
  | row :: rest =>
      if negb (jr_position row =? expected) then
        ([], Some (mkGap expected (jr_position row - 1)), expected)
      else
        let '(rows, gap, after) := assemble_rows (u64_saturating_add expected 1) rest in
        (row :: rows, gap, after)
  end.

(** crates/evt/src/journal/read.rs:259-304 [assemble] *)
Definition assemble (scope : Scope) (after limit high_watermark : Z) (found : list JournalRow)
  : JournalPage :=
  let watermark := Z.max high_watermark (foldr Z.max 0 (map jr_position found)) in
  let '(rows, gap, expected) :=
    assemble_rows (u64_saturating_add after 1) (take (Z.to_nat limit) found) in
  let gap :=
    match gap with
    | None =>
        if (llen rows <? limit) && (expected <=? watermark) then Some (mkGap expected watermark)
        else None
    | Some gap => Some gap
    end in
  mkJournalPage scope after rows watermark gap (watermark <? after).

(** crates/evt/src/journal/read.rs:202-231 [page] *)
Definition page (scope : Scope) (after limit : Z) : JProg Op (Result JournalPage) :=
  if (limit =? 0) || (MAX_PAGE_ROWS <? limit) then
    Ret (Err (InvalidArgument (Fmt "a journal page holds 1 to {MAX_PAGE_ROWS} rows; got {limit}"
      [show MAX_PAGE_ROWS; show limit])))
  else
    await? high_watermark := call (JReadCounter scope) in
    await? found := call (JReadRows scope after (limit + 1)) in
    let page := assemble scope after limit high_watermark found in
    match pg_gap page with
    | None => Ret (Ok page)
    | Some _ =>
        await? manifest := read_manifest scope in
        match manifest with
        | Some manifest =>
            if next_after page <? mn_checkpoint manifest then
              Ret (Err (JournalGone (manifest_gone manifest after)))
            else Ret (Ok page)
        | None => Ret (Ok page)
        end
    end.

(** crates/evt/src/journal/read.rs:237-242 [high_watermark_at_epoch] *)
Definition high_watermark_at_epoch (scope : Scope) : JProg Op (Result Z) :=
  read_at_rebuild_epoch (λ _, high_watermark scope).

(** crates/evt/src/journal/read.rs:249-256 [page_at_epoch] *)
Definition page_at_epoch (scope : Scope) (after limit : Z) : JProg Op (Result JournalPage) :=
  read_at_rebuild_epoch (λ _, page scope after limit).
End reads.
