(* ===== verification/JournalRepository.v ===== *)
(** * The journal repository

    [journal/projector.rs] and [journal/repository.rs]: a repository that wraps another one and
    journals the commits of the entity types it covers. A commit's events are given their positions
    from the counters it read, the rows and the new counters travel in the commit as conditional
    view writes, and an attempt that lost a position to another writer is made again. *)

From S2P Require Import Prelude Types Features Outcome Rebuild Projection Repository Retry Program.
From S2P Require Import Store JournalScope Compaction JournalConfig JournalRead.

(** ** The projector *)

(** crates/evt/src/journal/projector.rs:62-62 [PROJECTOR_NAME] *)
Definition PROJECTOR_NAME : string := "journal".

Section projector.
Context `{JournalJson}.

(** crates/evt/src/journal/projector.rs:82-98 [JournalProjector::project]

    The row of one allocation. *)
Definition row_operation (event : SerializedEvent) (allocation : Allocation)
  : Result ViewOperation :=
  let? scope := allocation_scope allocation in
  let? payload := encode_row scope (al_position allocation) event in
  Ok (on_conflict
    (if_absent
      (view_put (row_pk scope) (row_sk (al_position allocation)) (ev_entity_id event)
        ROW_ENTITY_TYPE payload))
    (PositionTaken (al_scope allocation) (al_position allocation))).

(** The rows of one event. *)
Definition row_operations (event : SerializedEvent) : Result (list ViewOperation) :=
  let? allocations := allocations (ev_metadata event) in
  collect (row_operation event) allocations.

(** crates/evt/src/journal/projector.rs:77-104 [JournalProjector::project] *)
Definition journal_project (commit : CommitView) : result (list ViewOperation) BoxError :=
  map_err BoxCrate
    (let? groups := collect row_operations (concat (map cs_events (cv_streams commit))) in
     Ok (concat groups)).

(** crates/evt/src/journal/projector.rs:64-105 [JournalProjector] *)
Definition journal_projector (j : Journal) : CommitProjector :=
  mkProjector PROJECTOR_NAME (jo_entity_types j) true journal_project.
End projector.

(** ** Staged commits *)

(** crates/evt/src/journal/repository.rs:170-188 [Staged]

    What the journal does with a commit to one stream or to several: its streams that have events,
    in canonical order, and the same commit with other events in those streams. *)
Class Staged (C : Type) := {
  staged_label : C → EntityId;
  event_streams : C → list (list SerializedEvent);
  with_event_streams : C → list (list SerializedEvent) → C;
  staged_views : C → list ProjectedView;
  with_staged_views : C → list ProjectedView → C;
  staged_validate : C → Result unit
}.

Section staged.
Context `{SerdeJson} {Op : Type}.

Definition with_commit_events (commit : Commit Op) (events : list SerializedEvent) : Commit Op :=
  mkCommit (cm_entity_id commit) events (cm_snapshot commit) (cm_operations commit)
    (cm_views commit) (cm_outcome commit).

Definition with_commit_views (commit : Commit Op) (views : list ProjectedView) : Commit Op :=
  mkCommit (cm_entity_id commit) (cm_events commit) (cm_snapshot commit) (cm_operations commit)
    views (cm_outcome commit).

(** crates/evt/src/journal/repository.rs:201-227 [Commit]

    A commit has one stream, or none when it has no events. *)
#[export] Instance staged_commit : Staged (Commit Op) := {
  staged_label commit := cm_entity_id commit;
  event_streams commit := if nil_b (cm_events commit) then [] else [cm_events commit];
  with_event_streams commit streams :=
    match streams with
    | [events] => with_commit_events commit events
    | _ => commit
    end;
  staged_views := cm_views;
  with_staged_views := with_commit_views;
  staged_validate commit := check? validate commit; check_not_reserved (cm_entity_id commit)
}.

(** The indices of the streams that have events, in the order of their entity IDs. *)
Definition canonical_order (streams : list (Commit Op)) : list nat :=
  map fst
    (sort_by (λ a b : nat * Commit Op, string_leb (cm_entity_id a.2) (cm_entity_id b.2))
      (List.filter (λ s : nat * Commit Op, has_events s.2) (imap pair streams))).

Definition events_at (streams : list (Commit Op)) (i : nat) : list SerializedEvent :=
  match streams !! i with Some stream => cm_events stream | None => [] end.

(** The streams with the events of the [i]th replaced. *)
Definition with_events_at (streams : list (Commit Op)) (i : nat) (events : list SerializedEvent)
  : list (Commit Op) :=
  alter (λ stream, with_commit_events stream events) i streams.

Definition with_transaction_streams (commit : TransactionCommit Op) (streams : list (Commit Op))
  : TransactionCommit Op :=
  mkTransactionCommit streams (tc_fences commit) (tc_operations commit) (tc_views commit)
    (tc_outcome commit).

(** crates/evt/src/journal/repository.rs:229-266 [TransactionCommit]

    The streams of a transaction are taken in the order of their entity IDs. *)
#[export] Instance staged_transaction : Staged (TransactionCommit Op) := {
  staged_label commit :=
    match tc_streams commit with stream :: _ => cm_entity_id stream | [] => EmptyString end;
  event_streams commit :=
    map (events_at (tc_streams commit)) (canonical_order (tc_streams commit));
  with_event_streams commit streams :=
    with_transaction_streams commit
      (fold_left (λ acc (entry : nat * list SerializedEvent), with_events_at acc entry.1 entry.2)
        (zip (canonical_order (tc_streams commit)) streams) (tc_streams commit));
  staged_views := tc_views;
  with_staged_views commit views :=
    mkTransactionCommit (tc_streams commit) (tc_fences commit) (tc_operations commit) views
      (tc_outcome commit);
  staged_validate commit := let? normalized := normalize commit in Ok tt
}.
End staged.

(** ** Staging an attempt *)

(** crates/evt/src/journal/repository.rs:641-644 [Counters] *)
Record Counters := mkCounters { ct_stored : gmap Scope Z; ct_base : gmap Scope Z }.

(** crates/evt/src/journal/repository.rs:649-654 [Declared] *)
Record Declared := mkDeclared { de_journal : bool; de_history : list EntityType }.

(** crates/evt/src/journal/repository.rs:658-660 [Declared::any] *)
Definition declared_any (d : Declared) : bool := de_journal d || negb (nil_b (de_history d)).

Definition Declared_default : Declared := mkDeclared false [].

(** crates/evt/src/journal/repository.rs:665-674 [taken] *)
Definition taken (error : Error) : bool :=
  match error with
  | ProjectorOperation operation =>
      bool_decide (po_projector operation = PROJECTOR_NAME)
      && match po_mapped operation with Some (PositionTaken _ _) => true | _ => false end
  | _ => false
  end.

Section stage.
Context `{JournalJson} (box_text : BoxError → string).

(** crates/evt/src/journal/repository.rs:370-380 [JournalRepository::plan] *)
Definition plan_of {C} `{!Staged C} (j : Journal) (commit : C) : Result (list (list Scope)) :=
  collect (scopes_of box_text j) (concat (event_streams commit)).

(** crates/evt/src/journal/repository.rs:439-454 [JournalRepository::stage]

    The allocations of one event: the widest row that is too large so far. *)
Fixpoint check_allocated (j : Journal) (event : SerializedEvent) (l : list Allocation)
    (widest : option RowTooLarge) : Result (option RowTooLarge) :=
  match l with
  | [] => Ok widest
  | allocation :: rest =>
      let? scope := allocation_scope allocation in
      match check_row j scope (al_position allocation) event with
      | Err (JournalRowTooLarge row) => check_allocated j event rest (widest_of widest row)
      | Ok _ => check_allocated j event rest widest
      | Err other => Err other
      end
  end.

(** crates/evt/src/journal/repository.rs:437-457 [JournalRepository::stage]

    The events of one stream, each with its allocations: the plan, and so the allocations, has an
    entry per event. Returns the events, the allocations that are left for the next streams, and the
    widest row. *)
Fixpoint stage_events (j : Journal) (events : list SerializedEvent)
    (allocated : list (list Allocation)) (widest : option RowTooLarge)
  : Result (list SerializedEvent * list (list Allocation) * option RowTooLarge) :=
  match events with
  | [] => Ok ([], allocated, widest)
  | event :: rest =>
      match allocated with
      | [] => Ok (events, [], widest)
      | l :: others =>
          let event := set_allocations event l in
          let? widest := check_allocated j event l widest in
          let? done := stage_events j rest others widest in
          Ok (event :: done.1.1, done.1.2, done.2)
      end
  end.

(** crates/evt/src/journal/repository.rs:436-469 [JournalRepository::stage]

    All streams. *)
Fixpoint stage_streams (j : Journal) (streams : list (list SerializedEvent))
    (allocated : list (list Allocation)) (widest : option RowTooLarge)
  : Result (list (list SerializedEvent) * option RowTooLarge) :=
  match streams with
  | [] => Ok ([], widest)
  | events :: rest =>
      let? staged := stage_events j events allocated widest in
      let? done := stage_streams j rest staged.1.2 staged.2 in
      Ok (staged.1.1 :: done.1, done.2)
  end.

(** crates/evt/src/journal/repository.rs:459-468 [JournalRepository::stage]

    The commit the projector is shown: no stream of it is empty. *)
Definition staged_stream (events : list SerializedEvent) : list CommitStream :=
  match events with
  | first :: _ =>
      [commit_stream_new (ev_entity_id first) (ev_entity_type first) events EmptyString]
  | [] => []
  end.

Definition staged_commit_id (streams : list (list SerializedEvent)) : string :=
  fold_left
    (λ commit_id events,
      if is_empty commit_id then
        match events with
        | first :: _ => md_commit_id (ev_metadata first)
        | [] => commit_id
        end
      else commit_id)
    streams EmptyString.

(** crates/evt/src/journal/repository.rs:481-505 [JournalRepository::stage]

    The put of a scope's counter: a compare-and-set on the counter the attempt read. *)
Definition counter_put (counters : Counters) (scope : Scope) (position : Z) : ViewOperation :=
  let put :=
    view_put (counter_pk scope) COUNTER_SORT_KEY COUNTER_OWNER COUNTER_ENTITY_TYPE
      (counter_payload scope position) in
  let stored := default 0 (ct_stored counters !! scope) in
  on_conflict
    (if stored =? 0 then if_absent put else if_payload put (counter_payload scope stored))
    (PositionTaken scope position).

Definition counter_views (counters : Counters) (rows : Z) (positions : gmap Scope Z)
  : list ProjectedView :=
  map
    (λ entry : Z * (Scope * Z),
      mkProjectedView PROJECTOR_NAME 0 entry.1 (counter_put counters entry.2.1 entry.2.2))
    (enumerate_from rows (btree_entries string_leb positions)).

Definition with_projector_index (index : Z) (view : ProjectedView) : ProjectedView :=
  mkProjectedView (pv_projector view) index (pv_operation view) (pv_op view).

(** [commit.views().iter().map(|view| view.projector_index + 1).max().unwrap_or(0)]. *)
Definition next_projector_index (views : list ProjectedView) : Z :=
  foldr Z.max 0 (map (λ view, pv_projector_index view + 1) views).

(** crates/evt/src/journal/repository.rs:417-514 [JournalRepository::stage] *)
Definition stage_attempt {C} `{!Staged C} (j : Journal) (commit : C) (plan : list (list Scope))
    (counters : Counters) : Result C :=
  let? allocated := allocate (ct_base counters) plan in
  let projector_index := next_projector_index (staged_views commit) in
  let? staged := stage_streams j (event_streams commit) (ad_allocations allocated) None in
  match staged.2 with
  | Some row => Err (JournalRowTooLarge row)
  | None =>
      let view :=
        mkCommitView (staged_commit_id staged.1) (concat (map staged_stream staged.1)) in
      let? rows := project_commit [journal_projector j] view in
      let views := rows ++ counter_views counters (llen rows) (ad_counters allocated) in
      let commit := with_event_streams commit staged.1 in
      Ok (with_staged_views commit
        (staged_views commit ++ map (with_projector_index projector_index) views))
  end.
End stage.

(** ** Declaring the journal *)

Section drive.
Context `{JournalJson} `{CompactionJson} {Op : Type}.
Context (box_text : BoxError → string) (repository_name : string).

(** crates/evt/src/journal/repository.rs:310-337 [JournalRepository::ensure_declared]

    What follows the checks of the manifest: the declarations that are missing. *)
Definition declare_missing (j : Journal) (manifest : option FeatureManifest)
  : JProg Op (Result Declared) :=
  let journal :=
    negb match manifest with Some m => declares_journal m | None => false end in
  let history :=
    List.filter
      (λ entity_type,
        negb match manifest with Some m => is_history_dependent m entity_type | None => false end)
      (jo_entity_types j) in
  await? done :=
    (if journal then call (JUpdateManifest declare_journal) else Ret (Ok tt)) in
  await? declared := call (JRepository (QDeclareHistory (jo_entity_types j))) in
  await stored := call (JSetDeclared true) in
  Ret (Ok (mkDeclared journal history)).

(** crates/evt/src/journal/repository.rs:276-338 [JournalRepository::ensure_declared] *)
Definition ensure_declared (j : Journal) : JProg Op (Result Declared) :=
  await declared := (call JDeclared : JProg Op bool) in
  if declared then Ret (Ok Declared_default)
  else
    await? manifest := (call JReadManifest : JProg Op (Result (option FeatureManifest))) in
    await? supported :=
      pure_prog
        match match manifest with Some m => fm_features m !! JOURNAL_FEATURE | None => None end with
        | Some version =>
            if version =? JOURNAL_VERSION then Ok tt
            else Err (UnsupportedFeature JOURNAL_FEATURE version)
        | None => Ok tt
        end in
    await refuses := (call JRefusesUninitialized : JProg Op bool) in
    if refuses
       && negb match manifest with Some m => declares_stream_heads m | None => false end then
      Ret (Err StoreNotInitialized)
    else declare_missing j manifest.

(** crates/evt/src/journal/repository.rs:344-367 [JournalRepository::retract] *)
Definition retract (d : Declared) : JProg Op unit :=
  await stored := call (JSetDeclared false) in
  if negb (declared_any d) then Ret tt
  else
    await ignored :=
      call (JUpdateManifest (λ m,
        mkManifest (fm_version m)
          (if de_journal d then delete JOURNAL_FEATURE (fm_features m) else fm_features m)
          (fm_history_dependent m ∖ list_to_set (de_history d)) (fm_retention m))) in
    Ret tt.

(** ** Counters *)

(** crates/evt/src/journal/read.rs:30-43 [JournalStore::read_counters] *)
Fixpoint read_all_counters (scopes : list Scope) : JProg Op (Result (list Z)) :=
  match scopes with
  | [] => Ret (Ok [])
  | scope :: rest =>
      await? counter := call (JReadCounter scope) in
      await? others := read_all_counters rest in
      Ret (Ok (counter :: others))
  end.

(** crates/evt/src/journal/repository.rs:398-409 [JournalRepository::read_counters]

    Where one scope allocates from. *)
Definition counter_base (repair : bool) (scope : Scope) (stored : Z) : JProg Op (Result Z) :=
  await? base :=
    (if repair then
       await? last := call (JReadLastPosition scope) in Ret (Ok (Z.max stored last))
     else Ret (Ok stored)) in
  if repair || (base =? 0) then
    await? floor := read_floor scope in Ret (Ok (Z.max base floor))
  else Ret (Ok base).

Fixpoint counter_bases (repair : bool) (counters : Counters) (l : list (Scope * Z))
  : JProg Op (Result Counters) :=
  match l with
  | [] => Ret (Ok counters)
  | (scope, stored) :: rest =>
      await? base := counter_base repair scope stored in
      counter_bases repair
        (mkCounters (<[scope := stored]> (ct_stored counters)) (<[scope := base]> (ct_base counters)))
        rest
  end.

(** crates/evt/src/journal/repository.rs:394-412 [JournalRepository::read_counters] *)
Definition read_counters (scopes : list Scope) (repair : bool) : JProg Op (Result Counters) :=
  await? values := read_all_counters scopes in
  counter_bases repair (mkCounters ∅ ∅) (zip scopes values).

(** ** Committing *)

Section commit.
Context {C : Type} `{!Staged C} (send : C → JProg Op (Result (list SerializedEvent))).

(** [base.duplicate()] is the base itself: a value is not shared. *)

(** crates/evt/src/journal/repository.rs:603-634 [JournalRepository::drive]

    What a failed attempt means: [inl] is the answer, [inr] the next attempt. *)
Definition after_failure (j : Journal) (commit : C) (scopes : list Scope) (counters : Counters)
    (repair : bool) (budget : Budget) (error : Error)
  : JProg Op (Result (list SerializedEvent) + bool * Budget) :=
  await lost :=
    (if taken error then
       await again := read_counters scopes false in
       Ret match again with
           | Err e => Err e
           | Ok again =>
               Ok (true, repair || bool_decide (ct_stored again = ct_stored counters))
           end
     else match error with
          | Transient _ => Ret (Ok (false, repair))
          | _ => Ret (Err error)
          end) in
  match lost with
  | Err error => Ret (inl (Err error))
  | Ok (lost, repair) =>
      await random := call (JRepository QRandom) in
      await now := call (JRepository QClock) in
      match budget_next budget now random with
      | None => Panic
      | Some (budget, None) =>
          Ret (inl (Err
            (if lost then
               Conflict (staged_label commit)
                 (Fmt "journal positions kept being taken by other writers; {} attempts exhausted"
                   [show (bu_attempt budget)])
             else error)))
      | Some (budget, Some delay) =>
          await slept := call (JRepository (QBackoff delay)) in
          Ret (inr (repair, budget))
      end
  end.

(** crates/evt/src/journal/repository.rs:579-601 [JournalRepository::drive]

    One attempt. *)
Definition attempt (j : Journal) (commit : C) (plan : list (list Scope)) (scopes : list Scope)
    (repair : bool) (budget : Budget)
  : JProg Op (Result (list SerializedEvent) + bool * Budget) :=
  await staged :=
    (await? counters := read_counters scopes repair in
     await? staged := pure_prog (stage_attempt j commit plan counters) in
     await? valid := pure_prog (staged_validate staged) in
     await? declared := ensure_declared j in
     Ret (Ok (counters, staged, declared))) in
  match staged with
  | Err error => Ret (inl (Err error))
  | Ok (counters, staged, declared) =>
      await result := send staged in
      match result with
      | Ok receipt => Ret (inl (Ok receipt))
      | Err error =>
          if declared_any declared
             && match error with StreamHeadsNotMigrated | StoreNotInitialized => true | _ => false end
          then
            await retracted := retract declared in Ret (inl (Err error))
          else after_failure j commit scopes counters repair budget error
      end
  end.

(** crates/evt/src/journal/repository.rs:578-634 [JournalRepository::drive]

    The loop: the budget of the retry policy bounds it. *)
Fixpoint drive_loop (fuel : nat) (j : Journal) (commit : C) (plan : list (list Scope))
    (scopes : list Scope) (repair : bool) (budget : Budget)
  : JProg Op (Result (list SerializedEvent)) :=
  match fuel with
  | O => OutOfFuel
  | S fuel =>
      await next := attempt j commit plan scopes repair budget in
      match next with
      | inl result => Ret result
      | inr (repair, budget) => drive_loop fuel j commit plan scopes repair budget
      end
  end.

(** crates/evt/src/journal/repository.rs:556-566 [JournalRepository::drive]

    Nothing is journaled: the events are sent without allocations. *)
Definition without_allocations (commit : C) : C :=
  with_event_streams commit
    (map (map (λ event, set_allocations event [])) (event_streams commit)).

(** [plan.iter().flatten().cloned().collect::<BTreeSet<_>>()], in order. *)
Definition plan_scopes (plan : list (list Scope)) : list Scope :=
  dedup (sort_by string_leb (concat plan)).

(** crates/evt/src/journal/repository.rs:525-635 [JournalRepository::drive] *)
Definition drive (j : Journal) (commit : C) : JProg Op (Result (list SerializedEvent)) :=
  let covered :=
    existsb (λ event, covers j (ev_entity_type event)) (concat (event_streams commit)) in
  await writes := (if covered then call (JRepository QWritesViews) else Ret true) in
  if negb writes then Ret (Err (ViewsUnsupported repository_name))
  else
    await applies := (if covered then call JAppliesExpectedPayload else Ret true) in
    if negb applies then Ret (Err (ExpectedPayloadUnsupported repository_name))
    else
      await? plan := pure_prog (plan_of box_text j commit) in
      if negb covered then send (without_allocations commit)
      else
        let scopes := plan_scopes plan in
        await now := call (JRepository QClock) in
        let budget := budget_new (jo_retry j) now in
        drive_loop (Z.to_nat (Z.max (rp_max_attempts (jo_retry j)) 1)) j commit plan scopes false
          budget.
End commit.

(** ** The repository *)

Context `{SerdeJson}.

(** crates/evt/src/journal/repository.rs:694-700 [JournalRepository::commit_with_receipt] *)
Definition journal_commit (j : Journal) (commit : Commit Op)
  : JProg Op (Result (list SerializedEvent)) :=
  drive (λ commit, call (JRepository (QCommit commit))) j commit.

(** crates/evt/src/journal/repository.rs:702-710 [JournalRepository::commit_transaction_with_receipt] *)
Definition journal_commit_transaction (j : Journal) (commit : TransactionCommit Op)
  : JProg Op (Result (list SerializedEvent)) :=
  drive (λ commit, call (JRepository (QCommitTransaction commit))) j commit.

(** crates/evt/src/journal/repository.rs:676-794 [JournalRepository]

    The wrapped repository's calls, as a client of the journal repository makes them: the commits
    are journaled, everything else is forwarded. *)
Definition journaled (j : Journal) (B : Type) (q : Call Op B) : JProg Op B :=
  match q in Call _ B return JProg Op B with
  | QCommit commit => journal_commit j commit
  | QCommitTransaction commit => journal_commit_transaction j commit
  | other => call (JRepository other)
  end.
End drive.
