(* ===== verification/JournalStage.v ===== *)
(** * What an attempt stages

    The attempt a journal repository sends has the events of the commit it was given, each with the
    allocations of its plan, the rows of exactly those allocations, and the new counters. *)

From S2P Require Import Prelude Types Features Outcome Projection Repository Retry Program.
From S2P Require Import JournalScope JournalConfig JournalRead JournalRepository.

(** Streams that differ only in what their events are, not in how many. *)
Definition same_shape (before after : list (list SerializedEvent)) : Prop :=
  Forall2 (λ b a : list SerializedEvent, length b = length a) before after.

Lemma same_shape_nonempty before after :
  same_shape before after → Forall (λ events, events ≠ []) before →
  Forall (λ events, events ≠ []) after.
Proof.
  induction 1 as [|b a before after Hlen _ IH]; [done|]. intros Hne.
  apply Forall_cons in Hne as [Hb Hne]. constructor; [|by apply IH].
  intros ->. by destruct b.
Qed.

Section stage.
Context `{J : JournalJson} {Hlaws : JournalJsonLaws J} (box_text : BoxError → string).

(** ** Events *)

Lemma stage_events_ok j events allocated widest staged rest widest' :
  stage_events j events allocated widest = Ok (staged, rest, widest') →
  (length events ≤ length allocated)%nat →
  staged = zip_with set_allocations events allocated ∧ rest = drop (length events) allocated.
Proof.
  revert allocated widest staged rest widest'.
  induction events as [|event events IH]; intros allocated widest staged rest widest'; cbn [stage_events].
  { by intros [= <- <- <-]. }
  destruct allocated as [|l others]; [simpl; lia|].
  destruct (check_allocated _ _ _ _) as [w|]; cbn [result_bind]; [|done].
  destruct (stage_events _ _ _ _) as [[[s r] w']|] eqn:Hs; cbn [result_bind]; [|done].
  intros [= <- <- <-] Hlen. simpl in Hlen.
  destruct (IH _ _ _ _ _ Hs ltac:(lia)) as [-> ->]. done.
Qed.

Lemma stage_streams_ok j streams allocated widest staged widest' :
  stage_streams j streams allocated widest = Ok (staged, widest') →
  (length (concat streams) ≤ length allocated)%nat →
  same_shape streams staged ∧
  concat staged = zip_with set_allocations (concat streams) allocated.
Proof.
  revert allocated widest staged widest'.
  induction streams as [|events streams IH]; intros allocated widest staged widest'; cbn [stage_streams].
  { intros [= <- <-] _. by split; [constructor|]. }
  destruct (stage_events _ _ _ _) as [[[s r] w]|] eqn:Hs; cbn [result_bind fst snd]; [|done].
  destruct (stage_streams _ _ _ _) as [[ss w']|] eqn:Hss; cbn [result_bind fst snd]; [|done].
  intros [= <- <-] Hlen. cbn [concat] in *. rewrite length_app in Hlen.
  apply stage_events_ok in Hs as [-> ->]; [|lia].
  apply IH in Hss as [Hshape Hconcat]; [|rewrite length_drop; lia].
  split.
  - constructor; [|done]. rewrite length_zip_with. lia.
  - by rewrite zip_with_app_take, Hconcat.
Qed.

(** ** Allocations of the staged events *)

Definition allocations_of (event : SerializedEvent) : list Allocation :=
  match allocations (ev_metadata event) with Ok l => l | Err _ => [] end.

Lemma allocations_of_set event l : allocations_ok l → allocations_of (set_allocations event l) = l.
Proof. intros Hl. unfold allocations_of. by rewrite allocations_set. Qed.

Lemma as_encoded_extensions event :
  md_extensions (ev_metadata (as_encoded event)) = md_extensions (ev_metadata event).
Proof. done. Qed.

Lemma as_encoded_allocations event :
  allocations (ev_metadata (as_encoded event)) = allocations (ev_metadata event).
Proof. done. Qed.

(** The plan's scopes with the positions they were given are what an event may carry. *)
Lemma allocated_ok j commit_events plan counters done :
  resolver_ok (jo_resolver j) → collect (scopes_of box_text j) commit_events = Ok plan →
  (∀ scope p, counters !! scope = Some p → 0 ≤ p) →
  allocate counters plan = Ok done →
  length (ad_allocations done) = length commit_events ∧ Forall allocations_ok (ad_allocations done).
Proof.
  intros Hr Hplan Hc Ha. destruct (allocate_positions _ _ _ Ha) as (Hshape & Hrange & Hpos & _).
  split.
  { rewrite <-(collect_length _ _ _ Hplan), <-Hshape. by rewrite length_map. }
  assert (Forall (λ a, al_position a ≠ 0) (concat (ad_allocations done))) as Hnz.
  { apply Forall_forall. intros a Hin.
    assert (al_position a ∈ positions_in (al_scope a) (concat (ad_allocations done))) as Hp.
    { unfold positions_in. apply list_elem_of_fmap. exists a. split; [done|].
      apply elem_of_list_filter. split; [done|]. by apply bool_decide_eq_true. }
    rewrite Hpos in Hp. apply elem_of_seqZ in Hp. unfold at_position in Hp.
    destruct (counters !! al_scope a) as [p|] eqn:Hl; simpl in Hp; [pose proof (Hc _ _ Hl)|]; lia. }
  apply collect_ok in Hplan.
  rewrite <-Hshape in Hplan. clear Hpos Hrange Hshape Ha Hc.
  revert Hplan Hnz. generalize (ad_allocations done). clear done.
  intros l Hplan. revert commit_events Hplan.
  induction l as [|a l IH]; intros events Hplan Hnz; [constructor|].
  cbn [map concat] in *. apply Forall_app in Hnz as [Ha Hnz].
  inversion Hplan as [|event ? events' ? Hscopes Hrest]; subst. constructor.
  - apply (scopes_of_ok _ _ _ _ Hr) in Hscopes as [Hok Hasc]. split; [|done].
    rewrite Forall_map in Hok. rewrite Forall_forall in Hok, Ha |- *. intros x Hx.
    split; [by apply Hok|by apply Ha].
  - by eapply IH.
Qed.

(** ** Rows *)

Lemma commit_stream_new_events entity_id entity_type events state :
  cs_events (commit_stream_new entity_id entity_type events state) = map as_encoded events.
Proof.
  unfold commit_stream_new. simpl. apply map_ext. intros [? ? ? ? ? ? ? [? ? ? ? ? ? ? [c|] ? ?]]; done.
Qed.

(** The operations of the rows of some events. *)
Definition is_row_operation (events : list SerializedEvent) (op : ViewOperation) : Prop :=
  ∃ event allocation, event ∈ events ∧ allocation ∈ allocations_of event ∧
    row_operation (as_encoded event) allocation = Ok op.

Lemma journal_project_ok view ops :
  journal_project view = Ok ops →
  (∀ op, op ∈ ops ↔ ∃ event allocation, event ∈ concat (map cs_events (cv_streams view)) ∧
     allocation ∈ allocations_of event ∧ row_operation event allocation = Ok op) ∧
  ∀ event allocation, event ∈ concat (map cs_events (cv_streams view)) →
    allocation ∈ allocations_of event → ∃ op, row_operation event allocation = Ok op.
Proof.
  unfold journal_project. destruct (collect _ _) as [groups|] eqn:Hc; cbn [result_bind map_err]; [|done].
  intros [= <-]. apply collect_ok in Hc.
  assert (∀ event a, event ∈ concat (map cs_events (cv_streams view)) → a ∈ allocations_of event →
    ∃ op, row_operation event a = Ok op ∧ op ∈ concat groups) as Hrows.
  { intros event a Hin Ha.
    destruct (elem_of_Forall2_l _ _ _ _ Hc Hin) as (group & Hg & He). unfold row_operations in He.
    unfold allocations_of in Ha. destruct (allocations _) as [l|]; cbn [result_bind] in He; [|done].
    apply collect_ok in He. destruct (elem_of_Forall2_l _ _ _ _ He Ha) as (op & Hop & Hrow).
    exists op. split; [done|]. apply elem_of_concat. by exists group. }
  split; [|intros event a Hin Ha; destruct (Hrows event a Hin Ha) as (op & ? & _); by exists op].
  intros op. split.
  - intros (group & Hop & Hg)%elem_of_concat.
    destruct (elem_of_Forall2_r _ _ _ _ Hc Hg) as (event & Hin & He). unfold row_operations in He.
    destruct (allocations _) as [l|] eqn:Hl; cbn [result_bind] in He; [|done].
    apply collect_ok in He. destruct (elem_of_Forall2_r _ _ _ _ He Hop) as (a & Ha & Hrow).
    exists event, a. split; [done|]. split; [|done]. unfold allocations_of. by rewrite Hl.
  - intros (event & a & Hin & Ha & Hrow). destruct (Hrows event a Hin Ha) as (op' & Hrow' & Hop).
    congruence.
Qed.

Lemma enumerate_from_snd {A} i (l : list A) : map snd (enumerate_from i l) = l.
Proof. revert i. induction l as [|x l IH]; intros i; simpl; [done|by rewrite IH]. Qed.

Lemma project_commit_ops projector view rows :
  project_commit [projector] view = Ok rows → event_count view ≠ 0 →
  pj_engine_metadata projector = true →
  ∃ ops, pj_project projector (visible_to view (pj_history projector) true) = Ok ops ∧
    map pv_op rows = ops.
Proof.
  unfold project_commit. cbn [nil_b orb]. intros Hp Hne He.
  destruct (Z.eqb_spec (event_count view) 0) as [|_]; [done|].
  unfold project_with in Hp. cbn [enumerate_from collect] in Hp. unfold project_one in Hp.
  cbn [fst snd] in Hp. rewrite He in Hp.
  destruct (pj_project _ _) as [ops|]; cbn [map_err result_bind] in Hp; [|done].
  destruct (collect _ (enumerate_from 0 ops)) as [items|] eqn:Hc; cbn [result_bind concat] in Hp; [|done].
  rewrite app_nil_r in Hp. destruct (check_views items); cbn [result_bind] in Hp; [|done].
  injection Hp as <-. exists ops. split; [done|].
  apply collect_ok in Hc. rewrite <-(enumerate_from_snd 0 ops).
  clear -Hc. induction Hc as [|[i op] item l items Hitem _ IH]; [done|].
  cbn [map fst snd] in *. f_equal; [|done].
  destruct (check_owner _ _ _); cbn [result_bind] in Hitem; [|done]. by injection Hitem as <-.
Qed.

(** ** The rows of an attempt *)

(** The events of a stream have one entity type. *)
Definition homogeneous (events : list SerializedEvent) : Prop :=
  ∀ first, head events = Some first →
    Forall (λ event, ev_entity_type event = ev_entity_type first) events.

Lemma elem_of_staged_streams streams (keep : EntityType → bool) event :
  Forall homogeneous streams →
  event ∈ concat (map cs_events
    (map (λ stream, if keep (cs_entity_type stream) then stream
                    else mkCommitStream (cs_entity_id stream) (cs_entity_type stream) [] "")
      (concat (map staged_stream streams)))) ↔
  ∃ e, e ∈ concat streams ∧ event = as_encoded e ∧ keep (ev_entity_type e) = true.
Proof.
  induction streams as [|events streams IH]; intros Hh.
  { simpl. split; [intros H; by apply not_elem_of_nil in H|].
    intros (e & He & _). by apply not_elem_of_nil in He. }
  apply Forall_cons in Hh as [Hev Hh]. specialize (IH Hh). cbn [map concat].
  rewrite !map_app, concat_app, elem_of_app, IH. setoid_rewrite elem_of_app.
  assert (event ∈ concat (map cs_events
    (map (λ stream, if keep (cs_entity_type stream) then stream
                    else mkCommitStream (cs_entity_id stream) (cs_entity_type stream) [] "")
      (staged_stream events))) ↔
    ∃ e, e ∈ events ∧ event = as_encoded e ∧ keep (ev_entity_type e) = true) as ->; [|naive_solver].
  destruct events as [|first rest].
  { simpl. split; [intros H; by apply not_elem_of_nil in H|].
    intros (e & He & _). by apply not_elem_of_nil in He. }
  specialize (Hev first eq_refl). rewrite Forall_forall in Hev.
  cbn [staged_stream map concat]. rewrite app_nil_r. cbn [cs_entity_type commit_stream_new].
  destruct (keep (ev_entity_type first)) eqn:Hk.
  - change (cs_events (mkCommitStream ?i ?t ?e ?s)) with e.
    rewrite commit_stream_new_events, list_elem_of_fmap. split.
    + intros (e & -> & He). exists e. split; [done|]. split; [done|]. by rewrite (Hev e He).
    + intros (e & He & -> & _). by exists e.
  - cbn [cs_events]. split; [intros H; by apply not_elem_of_nil in H|].
    intros (e & He & _ & Hke). rewrite (Hev e He) in Hke. congruence.
Qed.

Lemma elem_of_zip_set events allocs event :
  event ∈ zip_with set_allocations events allocs →
  ∃ e l, (e, l) ∈ zip events allocs ∧ event = set_allocations e l.
Proof.
  rewrite list_elem_of_lookup. intros [i Hi]. rewrite lookup_zip_with in Hi.
  destruct (events !! i) as [e|] eqn:He; [|done]. destruct (allocs !! i) as [l|] eqn:Hl; [|done].
  simpl in Hi. injection Hi as <-. exists e, l. split; [|done].
  apply list_elem_of_lookup. exists i. rewrite lookup_zip_with, He, Hl. done.
Qed.

(** An event of a type the journal does not cover carries no allocation. *)
Lemma uncovered_allocations j events plan allocs e l :
  collect (scopes_of box_text j) events = Ok plan → map (map al_scope) allocs = plan →
  (e, l) ∈ zip events allocs → covers j (ev_entity_type e) = false → l = [].
Proof.
  intros Hc Hshape Hin Hun. apply collect_ok in Hc. rewrite <-Hshape in Hc.
  apply list_elem_of_lookup in Hin as [i Hi]. rewrite lookup_zip_with in Hi.
  destruct (events !! i) as [e'|] eqn:He; [|done]. destruct (allocs !! i) as [l'|] eqn:Hl; [|done].
  simpl in Hi. injection Hi as -> ->.
  destruct (Forall2_lookup_l _ _ _ _ _ Hc He) as (scopes & Hs & Hok).
  rewrite list_lookup_fmap, Hl in Hs. injection Hs as <-. unfold scopes_of in Hok.
  rewrite Hun in Hok. injection Hok as Hok. by destruct l.
Qed.

Lemma event_count_concat view :
  event_count view = llen (concat (map cs_events (cv_streams view))).
Proof.
  unfold event_count, llen. induction (cv_streams view) as [|x l IH]; [done|].
  cbn [map concat]. rewrite length_app, Nat2Z.inj_add, <-IH. done.
Qed.

(** The rows of a staged commit are the rows of its events' allocations. *)
Lemma staged_rows_ok j events plan allocs staged commit_id rows :
  collect (scopes_of box_text j) events = Ok plan → map (map al_scope) allocs = plan →
  Forall allocations_ok allocs → length allocs = length events →
  concat staged = zip_with set_allocations events allocs →
  Forall homogeneous staged →
  existsb (λ event, covers j (ev_entity_type event)) events = true →
  project_commit [journal_projector j]
    (mkCommitView commit_id (concat (map staged_stream staged))) = Ok rows →
  (∀ op, op ∈ map pv_op rows ↔ is_row_operation (concat staged) op) ∧
  ∀ event allocation, event ∈ concat staged → allocation ∈ allocations_of event →
    ∃ op, row_operation (as_encoded event) allocation = Ok op.
Proof.
  intros Hplan Hshape Hall Hlen Hconcat Hhom Hcov Hp.
  apply existsb_exists in Hcov as (covered & Hin & Hcov). apply list_elem_of_In in Hin.
  assert (∃ e, e ∈ concat staged ∧ covers j (ev_entity_type e) = true) as (sample & Hsample & Hsc).
  { rewrite Hconcat. apply list_elem_of_lookup in Hin as [i Hi].
    destruct (lookup_lt_is_Some_2 allocs i) as [l Hl];
      [rewrite Hlen; by eapply lookup_lt_Some|].
    exists (set_allocations covered l). split; [|done].
    apply list_elem_of_lookup. exists i. by rewrite lookup_zip_with, Hi, Hl. }
  assert (nil_b (jo_entity_types j) = false) as Htypes.
  { unfold covers in Hcov. apply bool_decide_eq_true in Hcov.
    destruct (jo_entity_types j); [by apply not_elem_of_nil in Hcov|done]. }
  destruct (project_commit_ops _ _ _ Hp) as (ops & Hops & <-); [|done|].
  { intros Hz. rewrite event_count_concat in Hz. cbn [cv_streams] in Hz.
    pose proof (proj2 (elem_of_staged_streams staged (λ _, true) (as_encoded sample) Hhom)) as Hs.
    rewrite map_id in Hs. destruct (concat (map cs_events _)) as [|? ?] in Hz, Hs; [|done].
    apply (not_elem_of_nil (as_encoded sample)), Hs. by exists sample. }
  destruct (journal_project_ok _ _ Hops) as [Hiff Hrows]. cbn [pj_history journal_projector] in *.
  unfold visible_to in Hiff, Hrows. rewrite Htypes in Hiff, Hrows. cbn [cv_streams cv_commit_id] in Hiff, Hrows.
  pose proof (λ event, elem_of_staged_streams staged (declares (jo_entity_types j)) event Hhom) as Hin'.
  assert (∀ e a, e ∈ concat staged → a ∈ allocations_of e →
    declares (jo_entity_types j) (ev_entity_type e) = true) as Hdecl.
  { intros e a He Ha. destruct (declares (jo_entity_types j) (ev_entity_type e)) eqn:Hd; [done|].
    exfalso. rewrite Hconcat in He. apply elem_of_zip_set in He as (e0 & l & Hzip & ->).
    rewrite (uncovered_allocations j events plan allocs e0 l Hplan Hshape Hzip Hd) in Ha.
    rewrite allocations_of_set in Ha; [by apply not_elem_of_nil in Ha|]. by split; constructor. }
  split.
  - intros op. rewrite Hiff. unfold is_row_operation. split.
    + intros (event & a & Hev & Ha & Hrow). apply Hin' in Hev as (e & He & -> & _).
      exists e, a. by split.
    + intros (e & a & He & Ha & Hrow). exists (as_encoded e), a. split; [|by split].
      apply Hin'. exists e. split; [done|]. split; [done|]. by eapply Hdecl.
  - intros e a He Ha. apply Hrows; [|done]. apply Hin'. exists e. split; [done|].
    split; [done|]. by eapply Hdecl.
Qed.
End stage.

(** * Commits as the journal stages them

    The laws of [Staged], for a commit to one stream and for a transaction, and what staging does
    to any commit that has them. *)

(** Replacing the events of the streams, one for one, and replacing the views do what they say. *)
Class StagedLaws (C : Type) `{!Staged C} : Prop := {
  sl_nonempty : ∀ c, Forall (λ events, events ≠ []) (event_streams c);
  sl_streams : ∀ c streams, same_shape (event_streams c) streams →
    event_streams (with_event_streams c streams) = streams;
  sl_views : ∀ c streams, staged_views (with_event_streams c streams) = staged_views c;
  sl_with_views_streams : ∀ c views, event_streams (with_staged_views c views) = event_streams c;
  sl_with_views : ∀ c views, staged_views (with_staged_views c views) = views;
  sl_valid : ∀ c, staged_validate c = Ok tt → Forall homogeneous (event_streams c)
}.

(** ** One stream *)

Lemma validate_homogeneous `{SerdeJson} {Op} (c : Commit Op) :
  validate c = Ok tt → homogeneous (cm_events c).
Proof.
  unfold validate. rewrite check_bind_ok. intros [_ Hv] first Hfirst.
  destruct (cm_events c) as [|first' rest]; [done|]. injection Hfirst as ->.
  apply check_bind_ok in Hv as [Hv _]. apply Forall_forall. intros event Hin.
  destruct (List.find _ _) eqn:Hf; [done|]. apply list_elem_of_In in Hin.
  pose proof (List.find_none _ _ Hf event Hin) as Hn. apply negb_false_iff in Hn.
  by apply bool_decide_eq_true in Hn.
Qed.

#[export] Instance staged_commit_laws `{SerdeJson} {Op} : StagedLaws (Commit Op).
Proof.
  split.
  - intros c. simpl. destruct (cm_events c) eqn:He; simpl; [constructor|].
    constructor; [done|constructor].
  - intros c streams. simpl. destruct (cm_events c) as [|e es] eqn:He; simpl; intros Hs.
    + inversion Hs; subst. by rewrite He.
    + inversion Hs as [|? events ? ? Hlen Hnil]; subst. inversion Hnil; subst. simpl.
      by destruct events.
  - intros c streams. simpl. by destruct streams as [|? [|? ?]].
  - done.
  - done.
  - intros c. simpl. rewrite check_bind_ok. intros [Hv _].
    destruct (nil_b (cm_events c)); [constructor|].
    apply Forall_singleton. by apply validate_homogeneous.
Qed.

(** ** Transactions *)

Section transaction.
Context `{SerdeJson} {Op : Type}.
Implicit Types streams : list (Commit Op).

(** What the canonical order depends on. *)
Definition skeleton (streams : list (Commit Op)) : list (EntityId * bool) :=
  map (λ stream, (cm_entity_id stream, has_events stream)) streams.

Lemma filter_map {A B} (f : A → B) (p : B → bool) l :
  List.filter p (map f l) = map f (List.filter (λ x, p (f x)) l).
Proof. induction l as [|a l IH]; simpl; [done|]. destruct (p (f a)); simpl; by rewrite IH. Qed.

Lemma imap_pair_map {A B} (f : A → B) (l : list A) :
  imap pair (map f l) = map (λ x : nat * A, (x.1, f x.2)) (imap pair l).
Proof.
  change (map f l) with (f <$> l).
  change (map (λ x : nat * A, (x.1, f x.2)) (imap pair l))
    with ((λ x : nat * A, (x.1, f x.2)) <$> imap pair l).
  rewrite fmap_imap. rewrite imap_fmap. done.
Qed.

Lemma canonical_order_skeleton streams :
  canonical_order streams =
  map fst
    (sort_by (λ a b : nat * (EntityId * bool), string_leb a.2.1 b.2.1)
      (List.filter (λ s : nat * (EntityId * bool), s.2.2) (imap pair (skeleton streams)))).
Proof.
  unfold canonical_order, skeleton. rewrite imap_pair_map, filter_map.
  rewrite (sort_by_map _ (λ a b : nat * Commit Op, string_leb (cm_entity_id a.2) (cm_entity_id b.2)))
    by done.
  by rewrite map_map.
Qed.

Lemma elem_of_imap_pair {A} (l : list A) i x : (i, x) ∈ imap pair l ↔ l !! i = Some x.
Proof.
  rewrite elem_of_lookup_imap. split; [by intros (j & y & [= -> ->] & ?)|]. intros Hi. by exists i, x.
Qed.

Lemma elem_of_canonical_order streams i :
  i ∈ canonical_order streams ↔ ∃ stream, streams !! i = Some stream ∧ has_events stream = true.
Proof.
  unfold canonical_order. rewrite list_elem_of_fmap. split.
  - intros ([j stream] & -> & Hin). rewrite elem_of_sort_by, elem_of_list_filter in Hin.
    destruct Hin as [Hin Hev]. apply elem_of_imap_pair in Hin. by exists stream.
  - intros (stream & Hi & Hev). exists (i, stream). split; [done|].
    rewrite elem_of_sort_by, elem_of_list_filter. split; [|done]. by apply elem_of_imap_pair.
Qed.

Lemma canonical_order_NoDup streams : NoDup (canonical_order streams).
Proof.
  unfold canonical_order.
  rewrite (sort_by_Permutation (λ a b : nat * Commit Op, string_leb (cm_entity_id a.2) (cm_entity_id b.2))).
  apply NoDup_map_filter. change (map fst (imap pair streams)) with (fst <$> imap pair streams).
  rewrite fmap_imap. apply NoDup_alt. intros i j x Hi Hj.
  rewrite list_lookup_imap in Hi, Hj.
  destruct (streams !! i), (streams !! j); simpl in *; congruence.
Qed.

Lemma with_events_at_lookup streams i events k :
  with_events_at streams i events !! k =
  if decide (i = k) then (λ stream, with_commit_events stream events) <$> streams !! k
  else streams !! k.
Proof.
  unfold with_events_at. destruct (decide (i = k)) as [<-|Hne].
  - by rewrite list_lookup_alter_eq.
  - by rewrite list_lookup_alter_ne.
Qed.

Definition put_events (entries : list (nat * list SerializedEvent)) (streams : list (Commit Op))
  : list (Commit Op) :=
  fold_left (λ acc (entry : nat * list SerializedEvent), with_events_at acc entry.1 entry.2)
    entries streams.

Lemma put_events_lookup entries streams k :
  NoDup (map fst entries) →
  put_events entries streams !! k =
  match list_find (λ entry : nat * list SerializedEvent, entry.1 = k) entries with
  | Some (_, entry) => (λ stream, with_commit_events stream entry.2) <$> streams !! k
  | None => streams !! k
  end.
Proof.
  unfold put_events. revert streams. induction entries as [|[i events] entries IH]; intros streams Hnd.
  { done. }
  cbn [map fst] in Hnd. apply NoDup_cons in Hnd as [Hnin Hnd].
  cbn [fold_left fst snd]. rewrite IH by done. cbn [list_find]. rewrite with_events_at_lookup.
  destruct (decide (i = k)) as [->|Hne].
  - rewrite decide_True by done. destruct (list_find _ entries) as [[j entry]|] eqn:Hf; [|done].
    apply list_find_Some in Hf as (Hj & Hk & _). destruct Hnin. rewrite <-Hk.
    apply list_elem_of_fmap. exists entry. split; [done|]. by eapply list_elem_of_lookup_2.
  - rewrite decide_False by done. by destruct (list_find _ entries) as [[j entry]|].
Qed.

(** Entries that give streams with events other events. *)
Definition entries_ok streams (entries : list (nat * list SerializedEvent)) : Prop :=
  Forall (λ entry, entry.2 ≠ [] ∧
    ∃ stream, streams !! entry.1 = Some stream ∧ has_events stream = true) entries.

(** What does not depend on the events of a stream that has some stays. *)
Lemma put_events_map {B} (f : Commit Op → B) entries streams :
  (∀ stream events, has_events stream = true → events ≠ [] →
     f (with_commit_events stream events) = f stream) →
  NoDup (map fst entries) → entries_ok streams entries →
  map f (put_events entries streams) = map f streams.
Proof.
  intros Hf Hnd Hall. apply list_eq. intros k.
  rewrite !list_lookup_fmap, put_events_lookup by done.
  destruct (list_find _ entries) as [[j entry]|] eqn:He; [|done].
  apply list_find_Some in He as (Hj & <- & _). unfold entries_ok in Hall. rewrite Forall_forall in Hall.
  destruct (Hall entry) as (Hne & stream & Hs & Hev); [by eapply list_elem_of_lookup_2|].
  rewrite Hs. simpl. f_equal. by apply Hf.
Qed.

Lemma has_events_with (stream : Commit Op) events :
  events ≠ [] → has_events (with_commit_events stream events) = true.
Proof. unfold has_events. simpl. by destruct events. Qed.

Lemma put_events_skeleton entries streams :
  NoDup (map fst entries) → entries_ok streams entries →
  skeleton (put_events entries streams) = skeleton streams.
Proof.
  apply put_events_map. intros stream events Hev Hne. by rewrite has_events_with, Hev.
Qed.

Lemma same_shape_entries (t : TransactionCommit Op) ss :
  same_shape (event_streams t) ss →
  map fst (zip (canonical_order (tc_streams t)) ss) = canonical_order (tc_streams t) ∧
  entries_ok (tc_streams t) (zip (canonical_order (tc_streams t)) ss).
Proof.
  cbn [event_streams staged_transaction]. intros Hs. set (order := canonical_order (tc_streams t)) in *.
  split.
  { apply Forall2_length in Hs. rewrite length_map in Hs.
    change (map fst ?l) with (fst <$> l). apply fst_zip. lia. }
  apply Forall_forall. intros [i events] Hin. apply list_elem_of_lookup in Hin as [k Hk].
  rewrite lookup_zip_with in Hk. destruct (order !! k) as [i'|] eqn:Hi; [|done].
  destruct (ss !! k) as [es|] eqn:Hes; [|done]. simpl in Hk. injection Hk as -> ->. simpl.
  destruct (proj1 (elem_of_canonical_order (tc_streams t) i)) as (stream & Hst & Hev);
    [by eapply list_elem_of_lookup_2|].
  split; [|by exists stream].
  destruct (Forall2_lookup_r _ _ _ _ _ Hs Hes) as (old & Hold & Hl).
  rewrite list_lookup_fmap, Hi in Hold. injection Hold as <-.
  unfold events_at in Hl. rewrite Hst in Hl. unfold has_events in Hev.
  intros ->. by destruct (cm_events stream).
Qed.

Lemma transaction_streams_ok (t : TransactionCommit Op) ss :
  same_shape (event_streams t) ss → event_streams (with_event_streams t ss) = ss.
Proof.
  intros Hs. cbn [event_streams with_event_streams staged_transaction] in *.
  set (order := canonical_order (tc_streams t)) in *.
  assert (length order = length ss) as Hlen.
  { apply Forall2_length in Hs. by rewrite length_map in Hs. }
  destruct (same_shape_entries t ss Hs) as [Hfst Hentries]. fold order in Hfst, Hentries.
  assert (NoDup (map fst (zip order ss))) as Hnd by (rewrite Hfst; apply canonical_order_NoDup).
  cbn [with_transaction_streams tc_streams]. fold (put_events (zip order ss) (tc_streams t)).
  assert (canonical_order (put_events (zip order ss) (tc_streams t)) = order) as ->.
  { unfold order. rewrite canonical_order_skeleton, put_events_skeleton by done.
    by rewrite <-canonical_order_skeleton. }
  apply list_eq. intros k. rewrite list_lookup_fmap.
  destruct (order !! k) as [i|] eqn:Hi; simpl.
  - destruct (lookup_lt_is_Some_2 ss k) as [es Hes]; [rewrite <-Hlen; by eapply lookup_lt_Some|].
    rewrite Hes. f_equal. unfold events_at. rewrite put_events_lookup by done.
    assert ((i, es) ∈ zip order ss) as Hin.
    { apply list_elem_of_lookup. exists k. by rewrite lookup_zip_with, Hi, Hes. }
    destruct (list_find_elem_of (λ entry : nat * list SerializedEvent, entry.1 = i) (zip order ss) (i, es))
      as [[j entry] Hf]; [done|done|].
    rewrite Hf. apply list_find_Some in Hf as (Hj & Hei & _).
    assert (j = k) as ->.
    { apply (NoDup_lookup _ j k i Hnd); rewrite Hfst; [|done].
      rewrite lookup_zip_with in Hj. destruct (order !! j) as [x|]; [|done].
      destruct (ss !! j); [|done]. simpl in Hj. injection Hj as <-. simpl in Hei. by subst. }
    rewrite lookup_zip_with, Hi, Hes in Hj. simpl in Hj. injection Hj as <-.
    destruct (proj1 (elem_of_canonical_order (tc_streams t) i)) as (stream & Hst & _);
      [by eapply list_elem_of_lookup_2|].
    by rewrite Hst.
  - symmetry. apply lookup_ge_None. apply lookup_ge_None in Hi. lia.
Qed.

Lemma check_streams_validate ids streams :
  check_streams ids streams = Ok tt → Forall (λ stream, validate stream = Ok tt) streams.
Proof.
  revert ids. induction streams as [|stream rest IH]; intros ids; cbn [check_streams]; [constructor|].
  rewrite check_bind_ok. intros [Hv Hr]. apply check_bind_ok in Hr as [_ Hr].
  case_bool_decide; [done|]. constructor; [done|]. by eapply IH.
Qed.

#[export] Instance staged_transaction_laws : StagedLaws (TransactionCommit Op).
Proof.
  split.
  - intros t. apply Forall_map, Forall_forall. intros i (stream & Hi & Hev)%elem_of_canonical_order.
    unfold events_at. rewrite Hi. unfold has_events in Hev. by destruct (cm_events stream).
  - apply transaction_streams_ok.
  - done.
  - done.
  - done.
  - intros t. simpl. destruct (normalize t) as [n|] eqn:Hn; [|done]. intros _.
    unfold normalize in Hn. apply check_bind_ok in Hn as [_ Hn]. apply check_bind_ok in Hn as [Hs _].
    apply check_streams_validate in Hs. apply Forall_map, Forall_forall.
    intros i (stream & Hi & Hev)%elem_of_canonical_order. unfold events_at. rewrite Hi.
    rewrite Forall_forall in Hs. apply validate_homogeneous, Hs. by eapply list_elem_of_lookup_2.
Qed.
End transaction.

(** ** An attempt *)

Section attempt.
Context `{J : JournalJson} {Hlaws : JournalJsonLaws J} (box_text : BoxError → string).
Context {C : Type} `{StagedLaws C}.

(** The commit holds an event of a type the journal covers. *)
Definition covered_by (j : Journal) (c : C) : bool :=
  existsb (λ event, covers j (ev_entity_type event)) (concat (event_streams c)).

(** The commit with other events in its streams, and perhaps other views. *)
Definition restaged (c c' : C) : Prop :=
  ∃ streams, same_shape (event_streams c) streams ∧
    (c' = with_event_streams c streams ∨
     ∃ views, c' = with_staged_views (with_event_streams c streams) views).

(** What an attempt staged from [counters]: the allocations, the events with them, and the view
    writes, which are the rows of the allocations and the counters. *)
Record staged_attempt (counters : Counters) (plan : list (list Scope)) (c c' : C)
    (alloc : Allocated) (views : list ProjectedView) : Prop := {
  sa_allocated : allocate (ct_base counters) plan = Ok alloc;
  sa_ok : Forall allocations_ok (ad_allocations alloc);
  sa_length : length (ad_allocations alloc) = length (concat (event_streams c));
  sa_events : concat (event_streams c') =
    zip_with set_allocations (concat (event_streams c)) (ad_allocations alloc);
  sa_views : staged_views c' = staged_views c ++ views;
  sa_ops : ∀ op, op ∈ map pv_op views ↔
    is_row_operation (concat (event_streams c')) op ∨
    ∃ scope position, ad_counters alloc !! scope = Some position ∧
      op = counter_put counters scope position;
  sa_rows : ∀ event allocation, event ∈ concat (event_streams c') →
    allocation ∈ allocations_of event →
    ∃ op, row_operation (as_encoded event) allocation = Ok op;
  sa_shape : restaged c c'
}.

Lemma counter_views_ops counters rows positions op :
  op ∈ map pv_op (counter_views counters rows positions) ↔
  ∃ scope position, positions !! scope = Some position ∧ op = counter_put counters scope position.
Proof.
  unfold counter_views. rewrite map_map. cbn [pv_op].
  rewrite <-(map_map snd (λ entry : Scope * Z, counter_put counters entry.1 entry.2)).
  rewrite enumerate_from_snd, list_elem_of_fmap. split.
  - intros ([scope position] & -> & Hin%elem_of_btree_entries). by exists scope, position.
  - intros (scope & position & Hl & ->). exists (scope, position). split; [done|].
    by apply elem_of_btree_entries.
Qed.

Lemma stage_attempt_ok j c plan counters c' :
  resolver_ok (jo_resolver j) → plan_of box_text j c = Ok plan →
  (∀ scope p, ct_base counters !! scope = Some p → 0 ≤ p) → covered_by j c = true →
  stage_attempt j c plan counters = Ok c' → staged_validate c' = Ok tt →
  ∃ alloc views, staged_attempt counters plan c c' alloc views.
Proof.
  intros Hr Hplan Hbase Hcov Hstage Hvalid. unfold stage_attempt in Hstage.
  destruct (allocate _ _) as [alloc|] eqn:Ha; cbn [result_bind] in Hstage; [|done].
  destruct (stage_streams _ _ _ _) as [[streams widest]|] eqn:Hs; cbn [result_bind fst snd] in Hstage; [|done].
  destruct widest; [done|].
  destruct (project_commit _ _) as [rows|] eqn:Hp; cbn [result_bind] in Hstage; [|done].
  injection Hstage as Hc'.
  destruct (allocated_ok box_text j _ _ _ _ Hr Hplan Hbase Ha) as [Hlen Hok].
  apply stage_streams_ok in Hs as [Hshape Hconcat]; [|lia].
  assert (event_streams c' = streams) as Hev
    by (rewrite <-Hc', sl_with_views_streams; by apply sl_streams).
  pose proof (sl_valid _ Hvalid) as Hhom. rewrite Hev in Hhom.
  destruct (allocate_positions _ _ _ Ha) as (Hsh & _).
  destruct (staged_rows_ok box_text j _ plan _ streams _ rows Hplan Hsh Hok Hlen Hconcat Hhom Hcov Hp)
    as [Hrows Hall].
  eexists alloc, (map (with_projector_index _) (rows ++ counter_views counters (llen rows) (ad_counters alloc))).
  split; [done|done|done|by rewrite Hev| | |by rewrite Hev|].
  - rewrite <-Hc'. rewrite sl_with_views, sl_views. reflexivity.
  - intros op. rewrite map_map. cbn [with_projector_index pv_op].
    change (λ x, pv_op x) with pv_op. rewrite map_app, elem_of_app, Hrows, counter_views_ops.
    by rewrite Hev.
  - exists streams. split; [done|]. right. by eexists.
Qed.
End attempt.
