(* ===== verification/JournalInvariant.v ===== *)
(** * Journals on the in-memory repository

    [mem/journal.rs]: how [MemRepository] reads counters and rows, and how it applies the
    conditional writes of a compaction; and how it answers the calls of a journal. *)

From S2P Require Import Prelude Types Features Outcome Rebuild Projection Repository Mem.
From S2P Require Import MemRefinement Program LogBackend MemBackend.
From S2P Require Import JournalScope Compaction JournalConfig JournalRead JournalRepository.

Section reads.
Context `{JournalJson}.

(** crates/evt/src/mem/journal.rs:16-19 [MemRepository::read_counter] *)
Definition mem_read_counter (s : MemStore) (scope : Scope) : Result Z :=
  match mem_view s (counter_pk scope) COUNTER_SORT_KEY with
  | Some row => read_counter scope row
  | None => Ok 0
  end.

(** The rows of a partition from a bound on, in key order. *)
Definition partition_rows (s : MemStore) (bound : string * string → bool) (pk : string)
  : list ((string * string) * ViewRow) :=
  take_while (λ entry : (string * string) * ViewRow, bool_decide (entry.1.1 = pk))
    (range_from bound (ms_views s)).

(** crates/evt/src/mem/journal.rs:21-36 [MemRepository::read_last_position] *)
Definition mem_read_last_position (s : MemStore) (scope : Scope) : Result Z :=
  let pk := row_pk scope in
  match last (partition_rows s (λ key, key_leb (pk, EmptyString) key) pk) with
  | None => Ok 0
  | Some ((_, sk), _) =>
      ok_or (parse_row_sk sk)
        (InvalidRecord (Fmt "journal row {pk:?}/{sk:?} has no position" [pk; sk]))
  end.

(** crates/evt/src/mem/journal.rs:38-55 [MemRepository::read_rows] *)
Definition mem_read_rows (s : MemStore) (scope : Scope) (after limit : Z)
  : Result (list JournalRow) :=
  let pk := row_pk scope in
  collect (λ entry : (string * string) * ViewRow, row_from_view scope entry.2)
    (take (Z.to_nat limit) (partition_rows s (after_key (pk, row_sk after)) pk)).

(** crates/evt/src/mem/journal.rs:59-65 [MemRepository::read_compaction_row] *)
Definition mem_read_compaction_row (s : MemStore) (scope : Scope) (sort_key : string)
  : Result (option ViewRow) :=
  Ok (mem_view s (compaction_pk scope) sort_key).
End reads.

(** ** Compaction writes *)

(** crates/evt/src/mem/journal.rs:85-94 [MemRepository::write_compaction]

    Whether one write's condition holds. *)
Definition write_met (rows : gmap (string * string) ViewRow) (write : CompactionWrite) : bool :=
  let stored := rows !! write_key write in
  match write with
  | WritePut _ expect | WriteCheck _ _ expect => meets expect stored
  | WriteDelete _ _ owner =>
      match stored with Some row => bool_decide (vr_entity_id row = owner) | None => true end
  end.

(** The index of the first write whose condition does not hold. *)
Fixpoint first_unmet (rows : gmap (string * string) ViewRow) (at_ : Z)
    (writes : list CompactionWrite) : option Z :=
  match writes with
  | [] => None
  | write :: rest =>
      if write_met rows write then first_unmet rows (at_ + 1) rest else Some at_
  end.

Definition apply_write (rows : gmap (string * string) ViewRow) (write : CompactionWrite)
  : gmap (string * string) ViewRow :=
  match write with
  | WritePut row _ => <[(vr_pk row, vr_sk row) := row]> rows
  | WriteDelete pk sk _ => delete (pk, sk) rows
  | WriteCheck _ _ _ => rows
  end.

(** crates/evt/src/mem/journal.rs:71-114 [MemRepository::write_compaction] *)
Definition mem_write_compaction (epoch : option RebuildEpoch) (writes : list CompactionWrite)
  : Op CompactionWritten :=
  guarded (check_compaction_writes writes) (λ _ r,
    let s := mr_store r in
    if match epoch with
       | Some epoch => negb (ep_generation epoch =? rg_value (rs_generation (ms_rebuild s)))
       | None => false
       end then (r, Ok EpochChanged)
    else
      match first_unmet (ms_views s) 0 writes with
      | Some at_ => (r, Ok (Refused at_))
      | None => (with_store r (set_views s (fold_left apply_write writes (ms_views s))), Ok Written)
      end).

(** ** Answers *)

(** The store's world, and the flag the clones of a journal repository share. *)
Record JWorld := mkJWorld { jw_world : World; jw_declared : bool }.

Definition jw_store (w : JWorld) : MemStore := w_store (jw_world w).

Definition with_world (w : JWorld) (inner : World) : JWorld := mkJWorld inner (jw_declared w).

(** What the world outside answers: also the clock a compaction reads. *)
Record JOracle := mkJOracle { jx_oracle : Oracle; jx_now : Z }.

Section answers.
Context `{SerdeJson} `{JournalJson} `{CompactionJson}.

(** crates/evt/src/mem/journal.rs:15-119 [MemRepository]

    The in-memory repository writes views and applies expected payloads, and takes uninitialized
    stores. *)
Definition mem_journal_answer {B} (o : JOracle) (q : JCall Empty_set B) (w : JWorld) : JWorld * B :=
  match q in JCall _ B return JWorld * B with
  | JRepository q => let x := mem_answer (jx_oracle o) q (jw_world w) in (with_world w x.1, x.2)
  | JReadCounter scope => (w, mem_read_counter (jw_store w) scope)
  | JReadLastPosition scope => (w, mem_read_last_position (jw_store w) scope)
  | JReadRows scope after limit => (w, mem_read_rows (jw_store w) scope after limit)
  | JReadCompactionRow scope sk => (w, mem_read_compaction_row (jw_store w) scope sk)
  | JReadManifest => (w, Ok (ms_manifest (jw_store w)))
  | JUpdateManifest change =>
      let x := mem_update_manifest change (w_repository (jw_world w)) in
      (with_world w (with_repository (jw_world w) x.1), x.2)
  | JRefusesUninitialized => (w, false)
  | JAppliesExpectedPayload => (w, true)
  | JDeclared => (w, jw_declared w)
  | JSetDeclared declared => (mkJWorld (jw_world w) declared, tt)
  | JWriteCompaction epoch writes =>
      let x := mem_write_compaction epoch writes (w_repository (jw_world w)) in
      (with_world w (with_repository (jw_world w) x.1), x.2)
  | JCompactionNow => (w, jx_now o)
  | JRebuildGeneration => (w, Ok (rs_generation (ms_rebuild (jw_store w))))
  end.

#[export] Instance mem_journal_backend : Handles (JCall Empty_set) JWorld :=
  λ B q w b w', ∃ o, 0 ≤ or_random (jx_oracle o) ∧ mem_journal_answer o q w = (w', b).

(** One client running alone, with fixed answers from outside. *)
Fixpoint run_journal {A} (o : JOracle) (p : JProg Empty_set A) (w : JWorld) : JWorld * option A :=
  match p with
  | Ret a => (w, Some a)
  | Ask q k => let x := mem_journal_answer o q w in run_journal o (k x.2) x.1
  | Panic | OutOfFuel => (w, None)
  end.
End answers.

(** * The journal invariant

    What the rows of a journal say about the commits: the positions of a scope are 1, 2, 3, ... in
    the order the commits took effect, the counter is the last of them, and every position above the
    compacted ones has the row of the event that holds it. A commit that a journal repository
    staged keeps this, whatever happened since it read the counters. *)

From S2P Require Import Retry.
From S2P Require Import MemInvariant MemSafety.
From S2P Require Import JournalStage.

(** A sequence of commits, each a list of streams with the events it appended to them. *)
Abbreviation Commits := (list (list (EntityId * list SerializedEvent))) (only parsing).

Section entries.
Context `{JournalJson}.

(** The positions of a scope that an event holds, each with the event. *)
Definition entries_of (scope : Scope) (event : SerializedEvent) : list (Z * SerializedEvent) :=
  map (λ a, (al_position a, event))
    (List.filter (λ a : Allocation, bool_decide (al_scope a = scope)) (allocations_of event)).

Definition entries (scope : Scope) (events : list SerializedEvent) : list (Z * SerializedEvent) :=
  concat (map (entries_of scope) events).

(** The journal of a scope: what the commits hold of it, in their order. *)
Definition journal_of (commits : Commits) (scope : Scope) : list (Z * SerializedEvent) :=
  entries scope (concat (map (λ batches, concat (map snd batches)) commits)).

Definition journal_length (commits : Commits) (scope : Scope) : Z := llen (journal_of commits scope).

Lemma entries_app scope l k : entries scope (l ++ k) = entries scope l ++ entries scope k.
Proof. unfold entries. by rewrite map_app, concat_app. Qed.

Lemma journal_of_app commits batches scope :
  journal_of (commits ++ [batches]) scope =
  journal_of commits scope ++ entries scope (concat (map snd batches)).
Proof.
  unfold journal_of. rewrite map_app, concat_app, entries_app. simpl. by rewrite app_nil_r.
Qed.

Lemma journal_of_prefix commits commits' scope :
  commits `prefix_of` commits' → journal_of commits scope `prefix_of` journal_of commits' scope.
Proof.
  intros [rest ->]. unfold journal_of. rewrite map_app, concat_app, entries_app. by eexists.
Qed.

Lemma elem_of_entries scope events p e :
  (p, e) ∈ entries scope events ↔
  e ∈ events ∧ ∃ a, a ∈ allocations_of e ∧ al_scope a = scope ∧ al_position a = p.
Proof.
  unfold entries. rewrite elem_of_concat. split.
  - intros (l & Hin & (event & -> & Hev)%list_elem_of_fmap). unfold entries_of in Hin.
    apply list_elem_of_fmap in Hin as (a & [= -> ->] & Ha).
    apply elem_of_list_filter in Ha as [Ha Hs%bool_decide_eq_true]. split; [done|]. by exists a.
  - intros (He & a & Ha & Hs & <-). exists (entries_of scope e). split.
    + unfold entries_of. apply list_elem_of_fmap. exists a. split; [done|].
      apply elem_of_list_filter. split; [done|]. by apply bool_decide_eq_true.
    + apply list_elem_of_fmap. by exists e.
Qed.
End entries.

(** ** Keys *)

Lemma append_inv_head p a b : p +:+ a = p +:+ b → a = b.
Proof. induction p as [|c p IH]; [done|]. intros Heq. apply IH. by injection Heq. Qed.

Lemma row_pk_inj s t : row_pk s = row_pk t → s = t.
Proof. apply append_inv_head. Qed.
Lemma counter_pk_inj s t : counter_pk s = counter_pk t → s = t.
Proof. apply append_inv_head. Qed.
Lemma row_counter_pk s t : row_pk s ≠ counter_pk t.
Proof. done. Qed.
Lemma row_compaction_pk s t : row_pk s ≠ compaction_pk t.
Proof. done. Qed.
Lemma counter_compaction_pk s t : counter_pk s ≠ compaction_pk t.
Proof. done. Qed.

(** A view the journal does not own: its partition has none of the reserved prefixes. *)
Definition unreserved (view : ProjectedView) : Prop := check_unreserved view = Ok tt.

Lemma prefix_append p s : String.prefix p (p +:+ s) = true.
Proof.
  induction p as [|c p IH]; [by destruct s|].
  change (String c p +:+ s) with (String c (p +:+ s)). cbn [String.prefix].
  by destruct (ascii_dec c c).
Qed.

Lemma unreserved_pk view p s :
  unreserved view → p ∈ RESERVED_VIEW_PREFIXES → vo_pk (pv_op view) ≠ p +:+ s.
Proof.
  unfold unreserved, check_unreserved. destruct (existsb _ _) eqn:He; [done|]. intros _ Hp Heq.
  apply not_true_iff_false in He. apply He, existsb_exists. exists p.
  split; [by apply list_elem_of_In|]. unfold starts_with. rewrite Heq. apply prefix_append.
Qed.

Lemma unreserved_keys view scope :
  unreserved view →
  vo_pk (pv_op view) ≠ row_pk scope ∧ vo_pk (pv_op view) ≠ counter_pk scope ∧
  vo_pk (pv_op view) ≠ compaction_pk scope.
Proof.
  intros Hu. split; [|split]; apply unreserved_pk; try done; unfold RESERVED_VIEW_PREFIXES.
  - apply list_elem_of_here.
  - apply list_elem_of_further, list_elem_of_here.
  - apply list_elem_of_further, list_elem_of_further, list_elem_of_here.
Qed.

(** ** The invariant *)

Section invariant.
Context `{J : JournalJson} {Hlaws : JournalJsonLaws J} `{CompactionJson}.
Implicit Types rows : gmap (string * string) ViewRow.

(** The position a scope is compacted through. *)
Definition floor_of (rows : gmap (string * string) ViewRow) (scope : Scope) : Z :=
  match rows !! (compaction_pk scope, MANIFEST_SORT_KEY) with
  | Some row =>
      match manifest_decode scope (vr_payload row) with
      | Ok manifest => mn_checkpoint manifest
      | Err _ => 0
      end
  | None => 0
  end.

Record journal_ok (commits : Commits) (rows : gmap (string * string) ViewRow) : Prop := {
  jk_positions : ∀ scope,
    map fst (journal_of commits scope) = seqZ 1 (journal_length commits scope);
  jk_bound : ∀ scope, journal_length commits scope ≤ u64_max;
  jk_counter : ∀ scope, rows !! (counter_pk scope, COUNTER_SORT_KEY) =
    if journal_length commits scope =? 0 then None
    else Some (counter_view scope (journal_length commits scope));
  jk_present : ∀ scope p e, (p, e) ∈ journal_of commits scope → floor_of rows scope < p →
    ∃ v, row_view scope p (as_encoded e) = Ok v ∧ rows !! (row_pk scope, row_sk p) = Some v;
  jk_only : ∀ scope sk v, rows !! (row_pk scope, sk) = Some v →
    ∃ p e, (p, e) ∈ journal_of commits scope ∧ sk = row_sk p ∧ row_view scope p (as_encoded e) = Ok v;
  jk_floor : ∀ scope, 0 ≤ floor_of rows scope ≤ journal_length commits scope;
  jk_manifest : ∀ scope row, rows !! (compaction_pk scope, MANIFEST_SORT_KEY) = Some row →
    check_compaction_row scope MANIFEST_SORT_KEY row = Ok row ∧
    ∃ manifest, manifest_decode scope (vr_payload row) = Ok manifest
}.

Lemma journal_ok_empty : journal_ok [] ∅.
Proof.
  split.
  - done.
  - done.
  - intros scope. by rewrite lookup_empty.
  - intros scope p e Hin. by apply not_elem_of_nil in Hin.
  - intros scope sk v. by rewrite lookup_empty.
  - intros scope. unfold floor_of. by rewrite lookup_empty.
  - intros scope row. by rewrite lookup_empty.
Qed.

(** A position in the journal is within its length. *)
Lemma journal_position commits rows scope p e :
  journal_ok commits rows → (p, e) ∈ journal_of commits scope →
  1 ≤ p ≤ journal_length commits scope.
Proof.
  intros Hok Hin. apply (list_elem_of_fmap_2 fst) in Hin. simpl in Hin.
  change (fst <$> ?l) with (map fst l) in Hin. rewrite (jk_positions _ _ Hok) in Hin.
  apply elem_of_seqZ in Hin. lia.
Qed.

(** Every position up to the length is held by an event. *)
Lemma journal_holds commits rows scope p :
  journal_ok commits rows → 1 ≤ p ≤ journal_length commits scope →
  ∃ e, (p, e) ∈ journal_of commits scope.
Proof.
  intros Hok Hp. assert (p ∈ map fst (journal_of commits scope)) as Hin.
  { rewrite (jk_positions _ _ Hok). apply elem_of_seqZ. lia. }
  apply list_elem_of_fmap in Hin as ([q e] & -> & Hin). by exists e.
Qed.

Lemma journal_length_nonneg commits scope : 0 ≤ journal_length commits scope.
Proof. unfold journal_length, llen. lia. Qed.

(** No two events hold one position. *)
Lemma journal_unique commits rows scope p e e' :
  journal_ok commits rows → (p, e) ∈ journal_of commits scope → (p, e') ∈ journal_of commits scope →
  e = e'.
Proof.
  intros Hok [i Hi]%list_elem_of_lookup [k Hk]%list_elem_of_lookup.
  assert (i = k) as ->; [|congruence].
  apply (NoDup_lookup (map fst (journal_of commits scope)) i k p).
  - rewrite (jk_positions _ _ Hok). apply NoDup_seqZ.
  - by rewrite list_lookup_fmap, Hi.
  - by rewrite list_lookup_fmap, Hk.
Qed.

(** ** What an attempt read *)

(** Each scope's counter was read, and it allocates from a position that the journal had reached. *)
Definition counters_read (commits : Commits) (scopes : list Scope) (counters : Counters) : Prop :=
  ∀ scope, scope ∈ scopes →
    ∃ stored base, ct_stored counters !! scope = Some stored ∧ ct_base counters !! scope = Some base ∧
      0 ≤ stored ≤ base ∧ base ≤ journal_length commits scope.

Lemma counters_read_later commits commits' scopes counters :
  commits `prefix_of` commits' → counters_read commits scopes counters →
  counters_read commits' scopes counters.
Proof.
  intros Hle Hc scope Hin. destruct (Hc scope Hin) as (stored & base & Hs & Hb & Hr & Hlen).
  exists stored, base. split; [done|]. split; [done|]. split; [done|].
  pose proof (prefix_length _ _ (journal_of_prefix _ _ scope Hle)).
  unfold journal_length, llen in *. lia.
Qed.

(** The counter put succeeds only when the journal is where the attempt allocates from. *)
Lemma counter_put_held commits rows counters scope position stored base :
  journal_ok commits rows → ct_stored counters !! scope = Some stored →
  0 ≤ stored ≤ base → base ≤ journal_length commits scope →
  view_condition_held rows (counter_put counters scope position) = true →
  base = journal_length commits scope.
Proof.
  intros Hok Hs Hr Hle. unfold view_condition_held, counter_put. rewrite Hs.
  change (default 0 (Some stored)) with stored.
  assert (∀ op : ViewOperation, view_op_key op = (counter_pk scope, COUNTER_SORT_KEY) →
    rows !! view_op_key op = if journal_length commits scope =? 0 then None
      else Some (counter_view scope (journal_length commits scope))) as Hrow.
  { intros op ->. apply (jk_counter _ _ Hok). }
  destruct (Z.eqb_spec stored 0) as [->|Hne];
    cbn [on_conflict if_absent if_payload with_condition view_put vo_condition vo_expected_payload
         vo_kind vo_pk vo_sk vo_owner vo_entity_type vo_payload vo_conflict];
    rewrite Hrow by done; destruct (Z.eqb_spec (journal_length commits scope) 0) as [Hz|Hnz];
    cbn [negb andb]; try done; [lia|].
  intros Heq. rewrite !andb_true_iff in Heq. destruct Heq as [_ [_ Hp]].
  apply bool_decide_eq_true in Hp. unfold counter_view in Hp. cbn [vr_payload view_row_new] in Hp.
  apply counter_payload_inj in Hp. lia.
Qed.

(** ** Rows of an operation *)

Lemma row_operation_row event a op :
  row_operation event a = Ok op →
  scope_ok (al_scope a) ∧ view_op_key op = (row_pk (al_scope a), row_sk (al_position a)) ∧
  vo_kind op = Put ∧ row_view (al_scope a) (al_position a) event = Ok (view_row_of op).
Proof.
  unfold row_operation, allocation_scope, row_view.
  destruct (scope_new _) as [scope|] eqn:Hs; cbn [result_bind]; [|done].
  apply scope_new_ok in Hs as [-> Hok].
  destruct (encode_row _ _ _) as [payload|]; cbn [result_bind]; [|done].
  intros [= <-]. by split.
Qed.
End invariant.

(** ** A journaled commit keeps the invariant *)

Section commit.
Context `{J : JournalJson} {Hlaws : JournalJsonLaws J} `{CompactionJson}.
Context {C : Type} `{StagedLaws C}.
Context (commits : Commits) (rows : gmap (string * string) ViewRow) (counters : Counters)
  (plan : list (list Scope)) (c c' : C) (alloc : Allocated)
  (batches : list (EntityId * list SerializedEvent)) (app own views : list ProjectedView).
Context (Hok : journal_ok commits rows) (Hst : staged_attempt counters plan c c' alloc own)
  (Hread : counters_read commits (concat plan) counters) (Happ : Forall unreserved app)
  (Hviews : ∀ v, v ∈ views ↔ v ∈ app ∨ v ∈ own) (Hnd : NoDup (view_keys views))
  (Hheld : Forall (λ v, view_condition_held rows (pv_op v) = true) views)
  (Hbatch : concat (map snd batches) = concat (event_streams c')).

Let events := concat (event_streams c').
Let commits' := commits ++ [batches].
Let rows' := apply_views rows views.

Lemma own_op_in op : op ∈ map pv_op own → ∃ v, v ∈ views ∧ pv_op v = op.
Proof.
  intros (v & -> & Hv)%list_elem_of_fmap. exists v. split; [|done]. apply Hviews. by right.
Qed.

Lemma own_op_held op : op ∈ map pv_op own → view_condition_held rows op = true.
Proof.
  intros (v & Hv & <-)%own_op_in. rewrite Forall_forall in Hheld. by apply Hheld.
Qed.

(** The attempt allocates from where the journal is. *)
Lemma base_is_length scope :
  scope ∈ concat plan → at_position (ct_base counters) scope = journal_length commits scope.
Proof.
  intros Hin. destruct (Hread scope Hin) as (stored & base & Hs & Hb & Hr & Hle).
  unfold at_position. rewrite Hb. simpl.
  destruct (allocate_positions _ _ _ (sa_allocated _ _ _ _ _ _ Hst)) as (_ & _ & _ & Hc).
  specialize (Hc scope). rewrite decide_True in Hc by done.
  eapply counter_put_held; [done..|]. apply own_op_held.
  apply (sa_ops _ _ _ _ _ _ Hst). right. by eexists scope, _.
Qed.

(** The positions the commit's events hold. *)
Lemma event_positions scope :
  map fst (entries scope events) = positions_in scope (concat (ad_allocations alloc)).
Proof.
  unfold events. rewrite (sa_events _ _ _ _ _ _ Hst).
  pose proof (sa_ok _ _ _ _ _ _ Hst) as Hall. pose proof (sa_length _ _ _ _ _ _ Hst) as Hlen.
  revert Hall Hlen. generalize (concat (event_streams c)). generalize (ad_allocations alloc).
  clear -Hlaws. intros l. induction l as [|a l IH]; intros es Hall Hlen; destruct es as [|e es]; try done.
  apply Forall_cons in Hall as [Ha Hall]. injection Hlen as Hlen.
  cbn [zip_with concat]. rewrite positions_in_app, <-(IH es Hall Hlen).
  change (entries scope (?x :: ?l)) with (entries_of scope x ++ entries scope l).
  rewrite map_app. f_equal. unfold entries_of, positions_in. rewrite map_map. cbn [fst].
  by rewrite allocations_of_set.
Qed.

Lemma times_zero scope : scope ∉ concat plan → times scope (concat plan) = 0%nat.
Proof.
  intros Hno. unfold times. destruct (List.filter _ _) as [|x l] eqn:Hf; [done|].
  assert (x ∈ List.filter (λ s : Scope, bool_decide (s = scope)) (concat plan)) as Hx
    by (rewrite Hf; apply list_elem_of_here).
  apply elem_of_list_filter in Hx as [Hx ->%bool_decide_eq_true]. done.
Qed.

Lemma times_pos scope : scope ∈ concat plan → (0 < times scope (concat plan))%nat.
Proof.
  intros Hin. unfold times.
  assert (scope ∈ List.filter (λ s : Scope, bool_decide (s = scope)) (concat plan)) as Hx.
  { apply elem_of_list_filter. split; [done|]. by apply bool_decide_eq_true. }
  destruct (List.filter _ _); [by apply not_elem_of_nil in Hx|simpl; lia].
Qed.

Lemma new_positions scope :
  map fst (entries scope events) =
  seqZ (journal_length commits scope + 1) (Z.of_nat (times scope (concat plan))).
Proof.
  rewrite event_positions.
  destruct (allocate_positions _ _ _ (sa_allocated _ _ _ _ _ _ Hst)) as (_ & _ & Hp & _).
  rewrite Hp. destruct (decide (scope ∈ concat plan)) as [Hin|Hno].
  - by rewrite base_is_length.
  - by rewrite times_zero.
Qed.

Lemma new_length scope :
  journal_length commits' scope =
  journal_length commits scope + Z.of_nat (times scope (concat plan)).
Proof.
  unfold journal_length, commits'. rewrite journal_of_app, Hbatch. fold events.
  unfold llen. rewrite length_app, Nat2Z.inj_add. f_equal.
  rewrite <-(length_map fst (entries scope events)), new_positions, length_seqZ. lia.
Qed.

Lemma new_counter scope position :
  ad_counters alloc !! scope = Some position →
  scope ∈ concat plan ∧ position = journal_length commits' scope.
Proof.
  destruct (allocate_positions _ _ _ (sa_allocated _ _ _ _ _ _ Hst)) as (_ & _ & _ & Hc).
  rewrite Hc. destruct (decide _) as [Hin|]; [|done]. intros [= <-].
  split; [done|]. by rewrite new_length, base_is_length.
Qed.

(** A key of the journal's partitions is written only by the commit's own rows and counters. *)
Lemma own_key_lookup key :
  (∀ v, v ∈ app → view_op_key (pv_op v) ≠ key) →
  (∃ op, op ∈ map pv_op own ∧ view_op_key op = key ∧ rows' !! key = view_result op) ∨
  ((∀ op, op ∈ map pv_op own → view_op_key op ≠ key) ∧ rows' !! key = rows !! key).
Proof.
  intros Hfree. destruct (apply_views_lookup rows views key Hnd) as [(v & Hin & Hk & Heq)|[Hno Heq]].
  - apply Hviews in Hin as [Hin|Hin]; [by destruct (Hfree v Hin)|]. left. exists (pv_op v).
    split; [by apply list_elem_of_fmap_2|done].
  - right. split; [|done]. intros op (v & Hv & <-)%own_op_in Hk. apply Hno. rewrite <-Hk.
    by apply (list_elem_of_fmap_2 (λ v, view_op_key (pv_op v))).
Qed.

Lemma app_free_row scope sk v : v ∈ app → view_op_key (pv_op v) ≠ (row_pk scope, sk).
Proof.
  rewrite Forall_forall in Happ. intros Hv [= Hpk _].
  by destruct (unreserved_keys v scope (Happ v Hv)) as (? & _).
Qed.

Lemma app_free_counter scope sk v : v ∈ app → view_op_key (pv_op v) ≠ (counter_pk scope, sk).
Proof.
  rewrite Forall_forall in Happ. intros Hv [= Hpk _].
  by destruct (unreserved_keys v scope (Happ v Hv)) as (_ & ? & _).
Qed.

Lemma app_free_compaction scope sk v : v ∈ app → view_op_key (pv_op v) ≠ (compaction_pk scope, sk).
Proof.
  rewrite Forall_forall in Happ. intros Hv [= Hpk _].
  by destruct (unreserved_keys v scope (Happ v Hv)) as (_ & _ & ?).
Qed.

Lemma own_op_cases op :
  op ∈ map pv_op own →
  (∃ e a, e ∈ events ∧ a ∈ allocations_of e ∧ row_operation (as_encoded e) a = Ok op ∧
     view_op_key op = (row_pk (al_scope a), row_sk (al_position a)) ∧
     (al_position a, e) ∈ entries (al_scope a) events ∧
     view_result op = Some (view_row_of op) ∧
     row_view (al_scope a) (al_position a) (as_encoded e) = Ok (view_row_of op)) ∨
  (∃ scope, scope ∈ concat plan ∧
     view_op_key op = (counter_pk scope, COUNTER_SORT_KEY) ∧
     view_result op = Some (counter_view scope (journal_length commits' scope))).
Proof.
  rewrite (sa_ops _ _ _ _ _ _ Hst). intros [(e & a & He & Ha & Hrow)|(scope & p & Hp & ->)].
  - left. exists e, a. destruct (row_operation_row _ _ _ Hrow) as (_ & Hk & Hkind & Hv).
    split; [done|]. split; [done|]. split; [done|]. split; [done|]. split.
    + apply elem_of_entries. split; [done|]. by exists a.
    + split; [|done]. unfold view_result. by rewrite Hkind.
  - right. exists scope. destruct (new_counter _ _ Hp) as [Hin ->]. split; [done|].
    unfold counter_put. by destruct (_ =? _).
Qed.

Lemma rows_compaction scope sk :
  rows' !! (compaction_pk scope, sk) = rows !! (compaction_pk scope, sk).
Proof.
  destruct (own_key_lookup (compaction_pk scope, sk)) as [(op & Hop & Hk & _)|[_ ->]];
    [apply app_free_compaction| |done].
  destruct (own_op_cases op Hop) as [(e & a & _ & _ & _ & Hk' & _)|(s & _ & Hk' & _)];
    rewrite Hk' in Hk; [|by apply (f_equal fst), counter_compaction_pk in Hk].
  by apply (f_equal fst), row_compaction_pk in Hk.
Qed.

Lemma floor_kept scope : floor_of rows' scope = floor_of rows scope.
Proof. unfold floor_of. by rewrite rows_compaction. Qed.

Lemma new_position_bound scope p e :
  (p, e) ∈ entries scope events →
  journal_length commits scope < p ≤ journal_length commits' scope ∧ 0 ≤ p ≤ u64_max.
Proof.
  intros Hin. assert (p ∈ map fst (entries scope events)) as Hp
    by (by apply (list_elem_of_fmap_2 fst _ (p, e))).
  rewrite new_length. pose proof Hp as Hp'. rewrite new_positions in Hp. apply elem_of_seqZ in Hp.
  split; [lia|]. rewrite event_positions in Hp'.
  destruct (allocate_positions _ _ _ (sa_allocated _ _ _ _ _ _ Hst)) as (_ & Hr & _).
  unfold positions_in in Hp'. apply list_elem_of_fmap in Hp' as (a & -> & Ha).
  apply elem_of_list_filter in Ha as [Ha _]. rewrite Forall_forall in Hr. by apply Hr.
Qed.

Lemma new_bound :
  ∀ scope, journal_length commits' scope ≤ u64_max.
Proof.
  intros scope. rewrite new_length. destruct (decide (scope ∈ concat plan)) as [Hin|Hno].
  - pose proof (times_pos _ Hin) as Hpos.
    assert (journal_length commits scope + Z.of_nat (times scope (concat plan))
      ∈ map fst (entries scope events)) as Hp.
    { rewrite new_positions. apply elem_of_seqZ. lia. }
    apply list_elem_of_fmap in Hp as ([p e] & Heq & Hin'). simpl in Heq. rewrite Heq.
    apply new_position_bound in Hin'. lia.
  - rewrite times_zero by done. pose proof (jk_bound _ _ Hok scope). lia.
Qed.

Lemma new_counter_row :
  ∀ scope, rows' !! (counter_pk scope, COUNTER_SORT_KEY) =
    if journal_length commits' scope =? 0 then None
    else Some (counter_view scope (journal_length commits' scope)).
Proof.
  intros scope. destruct (decide (scope ∈ concat plan)) as [Hin|Hno].
  - pose proof (times_pos _ Hin). pose proof (journal_length_nonneg commits scope).
    destruct (Z.eqb_spec (journal_length commits' scope) 0) as [Hz|_]; [rewrite new_length in Hz; lia|].
    destruct (own_key_lookup (counter_pk scope, COUNTER_SORT_KEY)) as [(op & Hop & Hk & ->)|[Hno _]];
      [apply app_free_counter| |].
    + destruct (own_op_cases op Hop) as [(e & a & _ & _ & _ & Hk' & _)|(s & _ & Hk' & ->)];
        rewrite Hk' in Hk; [by apply (f_equal fst), row_counter_pk in Hk|].
      apply (f_equal fst), counter_pk_inj in Hk. by subst.
    + exfalso.
      destruct (allocate_positions _ _ _ (sa_allocated _ _ _ _ _ _ Hst)) as (_ & _ & _ & Hc).
      specialize (Hc scope). rewrite decide_True in Hc by done.
      eapply (Hno (counter_put counters scope _)).
      * apply (sa_ops _ _ _ _ _ _ Hst). right. by eexists scope, _.
      * unfold counter_put. by destruct (_ =? _).
  - rewrite new_length, times_zero, Z.add_0_r by done. rewrite <-(jk_counter _ _ Hok).
    destruct (own_key_lookup (counter_pk scope, COUNTER_SORT_KEY)) as [(op & Hop & Hk & _)|[_ ->]];
      [apply app_free_counter| |done].
    destruct (own_op_cases op Hop) as [(e & a & _ & _ & _ & Hk' & _)|(s & Hs & Hk' & _)];
      rewrite Hk' in Hk; [by apply (f_equal fst), row_counter_pk in Hk|].
    apply (f_equal fst), counter_pk_inj in Hk. by subst.
Qed.

Lemma new_present :
  ∀ scope p e, (p, e) ∈ journal_of commits' scope → floor_of rows' scope < p →
    ∃ v, row_view scope p (as_encoded e) = Ok v ∧ rows' !! (row_pk scope, row_sk p) = Some v.
Proof.
  intros scope p e Hin Hf. unfold commits' in Hin. rewrite journal_of_app, elem_of_app, Hbatch in Hin.
  fold events in Hin. rewrite floor_kept in Hf. destruct Hin as [Hin|Hin].
  - destruct (jk_present _ _ Hok scope p e Hin Hf) as (v & Hv & Hrow). exists v. split; [done|].
    rewrite <-Hrow. destruct (own_key_lookup (row_pk scope, row_sk p)) as [(op & Hop & Hk & _)|[_ ->]];
      [apply app_free_row| |done].
    exfalso. destruct (own_op_cases op Hop) as [(e' & a & _ & _ & _ & Hk' & Hent & _)|(s & Hs & Hk' & _)];
      rewrite Hk' in Hk; [|by apply (f_equal fst), eq_sym, row_counter_pk in Hk].
    apply pair_equal_spec in Hk as [Hs Hp]. apply row_pk_inj in Hs. subst scope.
    destruct (new_position_bound _ _ _ Hent) as [Hb Hr].
    pose proof (journal_position _ _ _ _ _ Hok Hin) as Hold. pose proof (jk_bound _ _ Hok (al_scope a)).
    apply row_sk_inj in Hp; lia.
  - apply elem_of_entries in Hin as Hin'. destruct Hin' as (He & a & Ha & <- & <-).
    destruct (sa_rows _ _ _ _ _ _ Hst e a He Ha) as (op & Hrow).
    destruct (row_operation_row _ _ _ Hrow) as (_ & Hk & Hkind & Hv).
    assert (op ∈ map pv_op own) as Hop.
    { apply (sa_ops _ _ _ _ _ _ Hst). left. by exists e, a. }
    exists (view_row_of op). split; [done|].
    destruct (own_key_lookup (row_pk (al_scope a), row_sk (al_position a)))
      as [(op' & Hop' & Hk' & ->)|[Hno _]]; [apply app_free_row| |by destruct (Hno op Hop)].
    assert (op' = op) as ->; [|unfold view_result; by rewrite Hkind].
    apply list_elem_of_fmap in Hop as (v & -> & Hvin). apply list_elem_of_fmap in Hop' as (v' & -> & Hvin').
    assert (v ∈ views) as [i Hi]%list_elem_of_lookup by (apply Hviews; by right).
    assert (v' ∈ views) as [k Hk2]%list_elem_of_lookup by (apply Hviews; by right).
    assert (i = k) as ->; [|congruence].
    apply (NoDup_lookup (view_keys views) i k (view_op_key (pv_op v)) Hnd);
      unfold view_keys; rewrite list_lookup_fmap; [by rewrite Hi|rewrite Hk2; simpl; congruence].
Qed.

Lemma new_only :
  ∀ scope sk v, rows' !! (row_pk scope, sk) = Some v →
    ∃ p e, (p, e) ∈ journal_of commits' scope ∧ sk = row_sk p ∧ row_view scope p (as_encoded e) = Ok v.
Proof.
  intros scope sk v. destruct (own_key_lookup (row_pk scope, sk)) as [(op & Hop & Hk & ->)|[_ ->]];
    [apply app_free_row| |].
  - destruct (own_op_cases op Hop) as [(e & a & _ & _ & _ & Hk' & Hent & Hres & Hv)|(s & Hs & Hk' & _)];
      rewrite Hk' in Hk; [|by apply (f_equal fst), eq_sym, row_counter_pk in Hk].
    apply pair_equal_spec in Hk as [Hs Hp]. apply row_pk_inj in Hs. subst scope sk. rewrite Hres. intros [= <-].
    exists (al_position a), e. split; [|done]. unfold commits'. rewrite journal_of_app, Hbatch.
    apply elem_of_app. by right.
  - intros Hrow. destruct (jk_only _ _ Hok scope sk v Hrow) as (p & e & Hin & Hsk & Hv).
    exists p, e. split; [|done]. unfold commits'. rewrite journal_of_app. apply elem_of_app. by left.
Qed.

Lemma journal_ok_commit : journal_ok commits' rows'.
Proof.
  split; [|apply new_bound|apply new_counter_row|apply new_present|apply new_only| |].
  - intros scope. unfold commits'. rewrite journal_of_app, map_app, (jk_positions _ _ Hok), Hbatch.
    fold events commits'. rewrite new_positions, new_length.
    rewrite seqZ_app by (try apply journal_length_nonneg; lia). f_equal. f_equal. lia.
  - intros scope. rewrite floor_kept, new_length. pose proof (jk_floor _ _ Hok scope). lia.
  - intros scope row. rewrite rows_compaction. apply (jk_manifest _ _ Hok).
Qed.
End commit.
