(* ===== verification/RebuildDriver.v ===== *)
(** * Driving a rebuild

    [rebuild.rs]: what runs a rebuild under the fence. [Renewing] keeps a lease alive while rows
    are computed and written, [Held] takes the lock and gives it back when it may. *)

From S2P Require Import Prelude Types Features Outcome Rebuild Wire Projection Repository RebuildBatch.
From S2P Require Import Program.

(** ** Calls *)

(** crates/evt/src/rebuild.rs:209-273 [RebuildFence]

    The fence's calls a rebuild makes, and the monotonic clock, in nanoseconds. *)
Inductive FenceCall : Type → Type :=
| FGeneration : FenceCall (Result RebuildGeneration)
| FState : FenceCall (Result RebuildState)
| FBegin (owner : string) (lease : Duration) : FenceCall (Result RebuildLease)
| FRenew (lease : RebuildLease) (extend : Duration) : FenceCall (Result RebuildLease)
| FEnd (lease : RebuildLease) : FenceCall (Result RebuildGeneration)
| FWriteViews (lease : RebuildLease) (views : list ProjectedView) : FenceCall (Result unit)
| FInstant : FenceCall Z.

(** Calls among which the fence's are. *)
Class HasFence (E : Type → Type) := fence_call : ∀ {B}, FenceCall B → E B.

#[export] Instance fence_has_fence : HasFence FenceCall := λ B q, q.

(** crates/evt/src/rebuild.rs:638-646 [RebuildFailure] *)
Record RebuildFailure := mkRebuildFailure {
  rf_error : Error;
  rf_attempted : Z;
  rf_batches : Z
}.

(** The failure of a run that attempted no write. *)
Definition unattempted (error : Error) : RebuildFailure := mkRebuildFailure error 0 0.

(** The nanoseconds of a duration. *)
Definition as_nanos (d : Duration) : Z := as_secs d * 1000000000 + subsec_nanos d.

(** crates/evt/src/rebuild.rs:655-663 [check_renew] *)
Definition check_renew (renew : Duration) : Result unit :=
  if as_nanos renew <? 1000000000 then
    Err (InvalidArgument (Fmt "a rebuild lease is renewed for at least one second" []))
  else Ok tt.

Section driver.
Context {E : Type → Type} `{!HasFence E}.

Abbreviation ask q := (call (E := E) (fence_call q)).

(** ** Renewing *)

(** crates/evt/src/rebuild.rs:666-674 [Renewing] *)
Record Renewing := mkRenewing {
  rn_lease : RebuildLease;
  rn_renew : Duration;
  rn_renewed : option Z;
  rn_attempted : Z
}.

(** crates/evt/src/rebuild.rs:677-690 [Renewing::new] *)
Definition renewing_new (lease : RebuildLease) (renew : Duration) (renewed : option Z) : Renewing :=
  mkRenewing lease renew renewed 0.

(** [(renew / 2).saturating_sub(Duration::from_secs(1))]. *)
Definition renewal_due (renew : Duration) : Z := Z.max 0 (as_nanos renew / 2 - 1000000000).

(** crates/evt/src/rebuild.rs:698-706 [Renewing::keep_alive]

    The clock is read only when there is a renewal to compare it with; [elapsed] saturates. *)
Definition keep_alive (r : Renewing) : Tree E (Renewing * Result unit) :=
  await due :=
    match rn_renewed r with
    | None => Ret true
    | Some at_ =>
        await now := ask FInstant in Ret (renewal_due (rn_renew r) <=? Z.max 0 (now - at_))
    end in
  if due then
    await renewed := ask (FRenew (rn_lease r) (rn_renew r)) in
    match renewed with
    | Err error => Ret (r, Err error)
    | Ok lease =>
        await now := ask FInstant in
        Ret (mkRenewing lease (rn_renew r) (Some now) (rn_attempted r), Ok tt)
    end
  else Ret (r, Ok tt).

(** crates/evt/src/rebuild.rs:709-714 [Renewing::write] *)
Definition renewing_write (r : Renewing) (batch : list ProjectedView)
  : Tree E (Renewing * Result unit) :=
  await alive := keep_alive r in
  match alive with
  | (r, Err error) => Ret (r, Err error)
  | (r, Ok _) =>
      let r := mkRenewing (rn_lease r) (rn_renew r) (rn_renewed r) (rn_attempted r + 1) in
      await written := ask (FWriteViews (rn_lease r) batch) in
      Ret (r, written)
  end.

(** The batches in turn, up to the first that fails. *)
Fixpoint write_batches (r : Renewing) (batches : list (list ProjectedView))
  : Tree E (Renewing * Result unit) :=
  match batches with
  | [] => Ret (r, Ok tt)
  | batch :: batches =>
      await written := renewing_write r batch in
      match written with
      | (r, Err error) => Ret (r, Err error)
      | (r, Ok _) => write_batches r batches
      end
  end.

(** ** The lock *)

(** crates/evt/src/rebuild.rs:718-722 [Held] *)
Record Held := mkHeld { hl_lease : RebuildLease; hl_from_settled : bool; hl_taken : Z }.

(** crates/evt/src/rebuild.rs:807-809 [acquired_from_settled] *)
Definition acquired_from_settled (before : RebuildGeneration) (held : RebuildLease) : bool :=
  acquired_from held before.

(** crates/evt/src/rebuild.rs:736-776 [Held::take]

    [attempts] is how many attempts are left. *)
Fixpoint take_attempts (attempts : nat) (owner : string) (lease : Duration)
  : Tree E (Result Held) :=
  match attempts with
  | O => Ret (Err (RebuildConflict (Z.of_nat MAX_REBUILD_BEGIN_ATTEMPTS)))
  | S attempts =>
      await? before := ask FGeneration in
      await begun := ask (FBegin owner lease) in
      match begun with
      | Ok held =>
          await now := ask FInstant in
          Ret (Ok (mkHeld held (acquired_from_settled before held) now))
      | Err (RebuildBeginIndeterminate begun observed source) =>
          await state := ask FState in
          match state with
          | Ok state =>
              match holds_begun state begun observed with
              | Some false => take_attempts attempts owner lease
              | _ => Ret (Err (RebuildBeginIndeterminate begun observed source))
              end
          | Err _ => Ret (Err (RebuildBeginIndeterminate begun observed source))
          end
      | Err error => Ret (Err error)
      end
  end.

(** crates/evt/src/rebuild.rs:736-776 [Held::take] *)
Definition held_take (owner : string) (lease : Duration) : Tree E (Result Held) :=
  take_attempts MAX_REBUILD_BEGIN_ATTEMPTS owner lease.

(** crates/evt/src/rebuild.rs:781-803 [Held::finish] *)
Definition held_finish {T} (h : Held) (result : result T RebuildFailure) : Tree E (Result T) :=
  match result with
  | Ok value =>
      await? ended := ask (FEnd (hl_lease h)) in
      Ret (Ok value)
  | Err failure =>
      if hl_from_settled h && (rf_attempted failure =? 0) then
        await ended := ask (FEnd (hl_lease h)) in
        Ret (Err (rf_error failure))
      else Ret (Err (rf_error failure))
  end.
End driver.

(** * Replaying a journal

    [journal/replay.rs]: the rows and counters of a journal computed from the allocations stored in
    the events, and the rebuild that writes them under the fence. *)

From S2P Require Import Retry Mem MemRefinement MemRead.
From S2P Require Import JournalScope Compaction JournalConfig JournalRead JournalRepository.
From S2P Require Import JournalStage JournalInvariant.

(** The order of [BTreeMap<(Scope, u64), _>]. *)
Definition position_leb (a b : string * Z) : bool :=
  if bool_decide (a.1 = b.1) then a.2 <=? b.2 else string_leb a.1 b.1.

(** crates/evt/src/journal/replay.rs:22-28 [JournalState] *)
Record JournalState := mkJournalState {
  js_rows : gmap (string * Z) ViewRow;
  js_counters : gmap string Z
}.

Definition JournalState_default : JournalState := mkJournalState ∅ ∅.

(** Events compare with their effective causation. *)
Definition same_event (a b : SerializedEvent) : bool := bool_decide (as_encoded a = as_encoded b).

Section replay.
Context `{JournalJson}.

(** crates/evt/src/journal/replay.rs:33-42 [JournalState::views] *)
Definition journal_views (state : JournalState) : list ViewRow :=
  map snd (btree_entries position_leb (js_rows state))
  ++ map (λ e : string * Z, counter_view e.1 e.2) (btree_entries string_leb (js_counters state)).

(** What a replay carries: the state, and which event claimed each position. *)
Record Replaying := mkReplaying {
  rp_state : JournalState;
  rp_claimed : gmap (string * Z) SerializedEvent
}.

(** crates/evt/src/journal/replay.rs:59-85 [replay]

    One allocation of an event. *)
Definition replay_allocation (event : SerializedEvent) (r : Replaying) (allocation : Allocation)
  : Result Replaying :=
  let? scope := allocation_scope allocation in
  let key := (scope, al_position allocation) in
  match rp_claimed r !! key with
  | Some holder =>
      if same_event holder event then Ok r
      else
        Err (InvalidJournal
          (Fmt "position {} of scope {scope} is held by two different records, {} and {}"
            [show (al_position allocation); scope; ev_id holder; ev_id event]))
  | None =>
      let? row := row_view scope (al_position allocation) event in
      let counters := js_counters (rp_state r) in
      Ok (mkReplaying
        (mkJournalState (<[key := row]> (js_rows (rp_state r)))
          (<[scope := Z.max (default 0 (counters !! scope)) (al_position allocation)]> counters))
        (<[key := event]> (rp_claimed r)))
  end.

(** crates/evt/src/journal/replay.rs:58-86 [replay] *)
Definition replay_event (r : Replaying) (event : SerializedEvent) : Result Replaying :=
  let? allocated := allocations (ev_metadata event) in
  fold_result (replay_allocation event) r allocated.

(** crates/evt/src/journal/replay.rs:52-89 [replay] *)
Definition journal_replay (events : list SerializedEvent) : Result JournalState :=
  let? r := fold_result replay_event (mkReplaying JournalState_default ∅) events in
  Ok (rp_state r).

(** crates/evt/src/journal/replay.rs:92-92 [REBUILD_OWNER] *)
Definition REBUILD_OWNER : string := "journal-rebuild".

(** crates/evt/src/journal/replay.rs:204-218 [operations] *)
Definition journal_operations (state : JournalState) : list ProjectedView :=
  imap (λ index row,
    mkProjectedView PROJECTOR_NAME 0 (Z.of_nat index)
      (view_put (vr_pk row) (vr_sk row) (vr_entity_id row) (vr_entity_type row) (vr_payload row)))
    (journal_views state).

Context {E : Type → Type} `{!HasFence E}.

(** The loop of [rebuild]: each batch under the lease, as it was given. *)
Fixpoint write_all (lease : RebuildLease) (batches : list (list ProjectedView))
  : Tree E (Result unit) :=
  match batches with
  | [] => Ret (Ok tt)
  | batch :: batches =>
      await? written := call (fence_call (FWriteViews lease batch)) in
      write_all lease batches
  end.

(** crates/evt/src/journal/replay.rs:117-129 [rebuild] *)
Definition journal_rebuild (events : list SerializedEvent) (lease : RebuildLease)
  : Tree E (Result JournalState) :=
  match journal_replay events with
  | Err error => Ret (Err error)
  | Ok state =>
      await? written := write_all lease (rebuild_batches (journal_operations state)) in
      Ret (Ok state)
  end.

(** crates/evt/src/journal/replay.rs:221-238 [write] *)
Definition write_operations (r : Renewing) (operations : list ProjectedView)
  : Tree E (Renewing * result unit RebuildFailure) :=
  let batches := rebuild_batches operations in
  await written := write_batches r batches in
  Ret match written with
      | (r, Ok _) => (r, Ok tt)
      | (r, Err error) => (r, Err (mkRebuildFailure error (rn_attempted r) (llen batches)))
      end.

(** crates/evt/src/journal/replay.rs:142-162 [rebuild_with_lease]

    With the lease as the run leaves it. *)
Definition journal_rebuild_with_lease (events : list SerializedEvent) (lease : RebuildLease)
    (renew : Duration) : Tree E (RebuildLease * result JournalState RebuildFailure) :=
  match check_renew renew with
  | Err error => Ret (lease, Err (unattempted error))
  | Ok _ =>
      match journal_replay events with
      | Err error => Ret (lease, Err (unattempted error))
      | Ok state =>
          await alive := keep_alive (renewing_new lease renew None) in
          match alive with
          | (r, Err error) => Ret (rn_lease r, Err (unattempted error))
          | (r, Ok _) =>
              await written := write_operations r (journal_operations state) in
              Ret (rn_lease written.1, let? done := written.2 in Ok state)
          end
      end
  end.

(** crates/evt/src/journal/replay.rs:184-201 [rebuild_with_lock] *)
Definition journal_rebuild_with_lock (events : list SerializedEvent) (lease : Duration)
  : Tree E (Result JournalState) :=
  match journal_replay events with
  | Err error => Ret (Err error)
  | Ok state =>
      await? held := held_take REBUILD_OWNER lease in
      await written :=
        write_operations (renewing_new (hl_lease held) lease (Some (hl_taken held)))
          (journal_operations state) in
      held_finish (mkHeld (rn_lease written.1) (hl_from_settled held) (hl_taken held))
        (let? done := written.2 in Ok state)
  end.
End replay.
