(* ===== verification/ProjectionRebuild.v ===== *)
(** * Projection rebuilds

    [rebuild/projections.rs] and [rebuild/projections/diff.rs]: a rebuild computes every row its
    projectors and the journal produce, checks them, optionally compares them with the table, and
    only then writes them under the fence. *)

From S2P Require Import Prelude Types Features Outcome Rebuild Wire Projection Grouping Repository.
From S2P Require Import RebuildBatch Retry Program Settle Store Mem Views Enumerate RebuildDriver.
From S2P Require Import JournalScope Compaction JournalConfig RebuildDriver.

(** ** Reports *)

(** crates/evt/src/rebuild/projections.rs:275-280 [RowChanges] *)
Record RowChanges := mkRowChanges { rc_puts : Z; rc_deletes : Z }.

(** crates/evt/src/rebuild/projections.rs:235-263 [RebuildReport] *)
Record RebuildReport := mkReport {
  rr_entities : Z;
  rr_commits : Z;
  rr_puts : Z;
  rr_deletes : Z;
  rr_unchanged : Z;
  rr_existing : Z;
  rr_kept : Z;
  rr_changes : gmap string RowChanges;
  rr_batches : Z;
  rr_events : Z;
  rr_journal_rows : Z;
  rr_journal_counters : Z
}.

Definition RebuildReport_default : RebuildReport := mkReport 0 0 0 0 0 0 0 ∅ 0 0 0 0.

(** crates/evt/src/rebuild/projections.rs:267-269 [RebuildReport::is_clean] *)
Definition is_clean (report : RebuildReport) : bool :=
  (rr_puts report =? 0) && (rr_deletes report =? 0).

(** crates/evt/src/rebuild/projections.rs:286-293 [RebuildPlan] *)
Record RebuildPlan := mkPlan {
  rp_report : RebuildReport;
  rp_operations : list ProjectedView;
  rp_batches : Z
}.

(** crates/evt/src/rebuild/projections.rs:298-313 [RebuildProgress] *)
Inductive RebuildProgress :=
| Planned (report : RebuildReport) (batches : Z)
| Wrote (batch of_ : Z).

(** Updates of one count. *)
Definition set_entities (r : RebuildReport) (v : Z) : RebuildReport :=
  mkReport v (rr_commits r) (rr_puts r) (rr_deletes r) (rr_unchanged r) (rr_existing r) (rr_kept r)
    (rr_changes r) (rr_batches r) (rr_events r) (rr_journal_rows r) (rr_journal_counters r).
Definition set_commits (r : RebuildReport) (v : Z) : RebuildReport :=
  mkReport (rr_entities r) v (rr_puts r) (rr_deletes r) (rr_unchanged r) (rr_existing r) (rr_kept r)
    (rr_changes r) (rr_batches r) (rr_events r) (rr_journal_rows r) (rr_journal_counters r).
Definition set_changed (r : RebuildReport) (puts deletes : Z) : RebuildReport :=
  mkReport (rr_entities r) (rr_commits r) puts deletes (rr_unchanged r) (rr_existing r) (rr_kept r)
    (rr_changes r) (rr_batches r) (rr_events r) (rr_journal_rows r) (rr_journal_counters r).
Definition set_unchanged (r : RebuildReport) (v : Z) : RebuildReport :=
  mkReport (rr_entities r) (rr_commits r) (rr_puts r) (rr_deletes r) v (rr_existing r) (rr_kept r)
    (rr_changes r) (rr_batches r) (rr_events r) (rr_journal_rows r) (rr_journal_counters r).
Definition set_existing (r : RebuildReport) (v : Z) : RebuildReport :=
  mkReport (rr_entities r) (rr_commits r) (rr_puts r) (rr_deletes r) (rr_unchanged r) v (rr_kept r)
    (rr_changes r) (rr_batches r) (rr_events r) (rr_journal_rows r) (rr_journal_counters r).
Definition set_kept (r : RebuildReport) (v : Z) : RebuildReport :=
  mkReport (rr_entities r) (rr_commits r) (rr_puts r) (rr_deletes r) (rr_unchanged r) (rr_existing r) v
    (rr_changes r) (rr_batches r) (rr_events r) (rr_journal_rows r) (rr_journal_counters r).
Definition set_changes (r : RebuildReport) (v : gmap string RowChanges) : RebuildReport :=
  mkReport (rr_entities r) (rr_commits r) (rr_puts r) (rr_deletes r) (rr_unchanged r) (rr_existing r)
    (rr_kept r) v (rr_batches r) (rr_events r) (rr_journal_rows r) (rr_journal_counters r).
Definition set_batches (r : RebuildReport) (v : Z) : RebuildReport :=
  mkReport (rr_entities r) (rr_commits r) (rr_puts r) (rr_deletes r) (rr_unchanged r) (rr_existing r)
    (rr_kept r) (rr_changes r) v (rr_events r) (rr_journal_rows r) (rr_journal_counters r).
Definition set_events (r : RebuildReport) (v : Z) : RebuildReport :=
  mkReport (rr_entities r) (rr_commits r) (rr_puts r) (rr_deletes r) (rr_unchanged r) (rr_existing r)
    (rr_kept r) (rr_changes r) (rr_batches r) v (rr_journal_rows r) (rr_journal_counters r).
Definition set_journal (r : RebuildReport) (rows counters : Z) : RebuildReport :=
  mkReport (rr_entities r) (rr_commits r) (rr_puts r) (rr_deletes r) (rr_unchanged r) (rr_existing r)
    (rr_kept r) (rr_changes r) (rr_batches r) (rr_events r) rows counters.

(** ** What is rebuilt *)

(** crates/evt/src/rebuild/projections.rs:1061-1064 [Typed]

    A registered aggregate, with the entity type it is registered for. *)
Record ScopeOf := mkScopeOf { sc_entity_type : EntityType; sc_aggregate : Aggregate }.

(** crates/evt/src/rebuild/projections.rs:153-171 [ProjectionRebuild]

    [pr_diff] holds the owned row types of a diff; [pr_progress] is whether there is an observer. *)
Record ProjectionRebuild := mkRebuild {
  pr_projectors : list CommitProjector;
  pr_scopes : list ScopeOf;
  pr_duplicate : option EntityType;
  pr_journal : option Journal;
  pr_diff : option (gset string);
  pr_progress : bool
}.

(** crates/evt/src/rebuild/projections.rs:320-331 [ProjectionRebuild::new] *)
Definition projection_rebuild_new : ProjectionRebuild := mkRebuild [] [] None None None false.

(** crates/evt/src/rebuild/projections.rs:338-341 [ProjectionRebuild::with_projector] *)
Definition with_projector (r : ProjectionRebuild) (projector : CommitProjector) : ProjectionRebuild :=
  mkRebuild (pr_projectors r ++ [projector]) (pr_scopes r) (pr_duplicate r) (pr_journal r) (pr_diff r)
    (pr_progress r).

(** crates/evt/src/rebuild/projections.rs:356-359 [ProjectionRebuild::with_journal] *)
Definition with_journal (r : ProjectionRebuild) (journal : Journal) : ProjectionRebuild :=
  mkRebuild (pr_projectors r) (pr_scopes r) (pr_duplicate r) (Some journal) (pr_diff r) (pr_progress r).

(** crates/evt/src/rebuild/projections.rs:398-408 [ProjectionRebuild::diff] *)
Definition with_diff (r : ProjectionRebuild) (owned : list string) : ProjectionRebuild :=
  mkRebuild (pr_projectors r) (pr_scopes r) (pr_duplicate r) (pr_journal r) (Some (list_to_set owned))
    (pr_progress r).

(** crates/evt/src/rebuild/projections.rs:413-416 [ProjectionRebuild::on_progress] *)
Definition on_progress (r : ProjectionRebuild) : ProjectionRebuild :=
  mkRebuild (pr_projectors r) (pr_scopes r) (pr_duplicate r) (pr_journal r) (pr_diff r) true.

(** crates/evt/src/rebuild/projections.rs:428-443 [ProjectionRebuild::aggregate_as] *)
Definition aggregate_as (r : ProjectionRebuild) (aggregate : Aggregate) (entity_type : EntityType)
  : ProjectionRebuild :=
  let duplicate :=
    if existsb (λ scope, bool_decide (sc_entity_type scope = entity_type)) (pr_scopes r)
    then Some (default entity_type (pr_duplicate r)) else pr_duplicate r in
  mkRebuild (pr_projectors r) (pr_scopes r ++ [mkScopeOf entity_type aggregate]) duplicate
    (pr_journal r) (pr_diff r) (pr_progress r).

(** crates/evt/src/rebuild/projections.rs:420-422 [ProjectionRebuild::aggregate] *)
Definition aggregate (r : ProjectionRebuild) (A : Aggregate) : ProjectionRebuild :=
  aggregate_as r A ag_TYPE.

(** crates/evt/src/rebuild/projections.rs:200-206 [ProjectionRebuild::has_journal] *)
Definition has_journal (r : ProjectionRebuild) : bool :=
  match pr_journal r with Some _ => true | None => false end.

(** crates/evt/src/rebuild/projections.rs:209-219 [ProjectionRebuild::journal_row_types] *)
Definition journal_row_types (r : ProjectionRebuild) : list string :=
  if has_journal r then [ROW_ENTITY_TYPE; COUNTER_ENTITY_TYPE] else [].

(** crates/evt/src/rebuild/projections.rs:222-229 [ProjectionRebuild::journal_types] *)
Definition journal_types (r : ProjectionRebuild) : list EntityType :=
  match pr_journal r with Some journal => jo_entity_types journal | None => [] end.

(** crates/evt/src/rebuild/projections.rs:613-617 [ProjectionRebuild::scope] *)
Definition scope_of (r : ProjectionRebuild) (entity_type : EntityType) : option ScopeOf :=
  List.find (λ scope, bool_decide (sc_entity_type scope = entity_type)) (pr_scopes r).

(** The members of a [BTreeSet], in its order. *)
Definition btree_set (s : gset string) : list string := sort_by string_leb (elements s).

Definition invalid_config {A} (message : Message) : Result A := Err (InvalidConfig message).

(** crates/evt/src/rebuild/projections.rs:571-590 [ProjectionRebuild::check]

    The checks of a diff. *)
Definition check_owned (r : ProjectionRebuild) (owned : gset string) : Result unit :=
  if bool_decide (owned = ∅) && negb (has_journal r) then
    invalid_config (Fmt "a diff-mode rebuild owns at least one row type" [])
  else
    check_each (λ entity_type,
      if bool_decide (entity_type = COMPACTION_ENTITY_TYPE)
         || (bool_decide (entity_type ∈ [ROW_ENTITY_TYPE; COUNTER_ENTITY_TYPE]) && negb (has_journal r))
      then
        invalid_config
          (Fmt "a diff cannot own the journal's {entity_type:?} rows on their own: rebuild the journal with `with_journal`, which owns its rows and counters"
            [entity_type])
      else Ok tt)
      (btree_set owned).

(** crates/evt/src/rebuild/projections.rs:597-608 [ProjectionRebuild::check]

    Every type a projector reads the history of is registered. *)
Definition check_history (r : ProjectionRebuild) (projector : CommitProjector) : Result unit :=
  check_each (λ entity_type,
    match scope_of r entity_type with
    | None =>
        invalid_config
          (Fmt "history-dependent projector {:?} reads entity type {:?}, which is not registered: register its aggregate so the replay can fold its state"
            [pj_name projector; entity_type])
    | Some _ => Ok tt
    end) (pj_history projector).

(** crates/evt/src/rebuild/projections.rs:553-611 [ProjectionRebuild::check] *)
Definition check_rebuild (r : ProjectionRebuild) : Result unit :=
  if nil_b (pr_projectors r) && negb (has_journal r) then
    invalid_config
      (Fmt "a projection rebuild needs at least one commit-wide projector or a journal" [])
  else
    check? match List.find pj_engine_metadata (pr_projectors r) with
           | Some projector =>
               invalid_config
                 (Fmt "projector {:?} reads engine metadata (the journal's); rebuild the journal with `with_journal`"
                   [pj_name projector])
           | None => Ok tt
           end;
    if nil_b (pr_scopes r) && negb (nil_b (pr_projectors r)) then
      invalid_config (Fmt "a projection rebuild needs at least one aggregate type" [])
    else
      check? match pr_diff r with Some owned => check_owned r owned | None => Ok tt end;
      check? match pr_duplicate r with
             | Some entity_type =>
                 invalid_config (Fmt "entity type {:?} is registered twice" [entity_type])
             | None => Ok tt
             end;
      check_each (check_history r) (pr_projectors r).

(** crates/evt/src/rebuild/projections.rs:784-789 [ProjectionRebuild::owned_types] *)
Definition owned_types (r : ProjectionRebuild) (owned : gset string) : gset string :=
  owned ∪ list_to_set (journal_row_types r).

(** crates/evt/src/rebuild/projections.rs:912-922 [unconditioned] *)
Definition unconditioned (item : ProjectedView) : ProjectedView :=
  let op := pv_op item in
  mkProjectedView (pv_projector item) (pv_projector_index item) (pv_operation item)
    match vo_kind op with
    | Put => view_put (vo_pk op) (vo_sk op) (vo_owner op) (vo_entity_type op) (vo_payload op)
    | Delete => view_delete (vo_pk op) (vo_sk op) (vo_owner op)
    end.

(** ** Calls *)

(** What a rebuild asks: the fence, the repository and its heads, the newest events of a stream,
    the next batch of a listing of the log (whose state is of type [C]), the view rows, and the
    observer. *)
Inductive RebuildCall (C : Type) : Type → Type :=
| PFence (B : Type) (q : FenceCall B) : RebuildCall C B
| PHeads (B : Type) (q : HeadsCall Empty_set B) : RebuildCall C B
| PLatest (entity_id : EntityId) (limit : Z) : RebuildCall C (Result (list SerializedEvent))
| PNextBatch (state : C) : RebuildCall C (option (EventBatch * C))
| PViews (B : Type) (q : ViewCall B) : RebuildCall C B
| PObserve (progress : RebuildProgress) : RebuildCall C unit.
Arguments PFence {C B} q.
Arguments PHeads {C B} q.
Arguments PLatest {C} entity_id limit.
Arguments PNextBatch {C} state.
Arguments PViews {C B} q.
Arguments PObserve {C} progress.

#[export] Instance rebuild_has_fence {C : Type} : HasFence (RebuildCall C) := λ B q, PFence q.
#[export] Instance rebuild_has_views {C : Type} : HasViews (RebuildCall C) := λ B q, PViews q.

(** ** The output *)

(** crates/evt/src/rebuild/projections.rs:926-936 [Output] *)
Record Output := mkOutput {
  ou_fence : option Renewing;
  ou_planned : list ProjectedView;
  ou_keys : gmap (string * string) (EntityId * string * Z);
  ou_batches : Z;
  ou_report : RebuildReport;
  ou_progress : bool
}.

(** crates/evt/src/rebuild/projections.rs:939-948 [Output::new] *)
Definition output_new (fence : option Renewing) : Output :=
  mkOutput fence [] ∅ 0 RebuildReport_default false.

Definition set_fence (o : Output) (fence : option Renewing) : Output :=
  mkOutput fence (ou_planned o) (ou_keys o) (ou_batches o) (ou_report o) (ou_progress o).
Definition set_planned (o : Output) (planned : list ProjectedView) : Output :=
  mkOutput (ou_fence o) planned (ou_keys o) (ou_batches o) (ou_report o) (ou_progress o).
Definition set_report (o : Output) (report : RebuildReport) : Output :=
  mkOutput (ou_fence o) (ou_planned o) (ou_keys o) (ou_batches o) report (ou_progress o).

(** crates/evt/src/rebuild/projections.rs:951-953 [Output::attempted] *)
Definition attempted (o : Output) : Z :=
  match ou_fence o with Some fence => rn_attempted fence | None => 0 end.

(** crates/evt/src/rebuild/projections.rs:958-1002 [Output::plan] *)
Definition output_plan (o : Output) (item : ProjectedView) : Result Output :=
  let op := pv_op item in
  let size := view_operation_size op in
  if (MAX_COMMIT_ITEM_BYTES <? size) || (MAX_COMMIT_BYTES <? size + lock_check_size) then
    Err (CommitTooLarge 2 (size + lock_check_size) size)
  else
    match ou_keys o !! view_op_key op with
    | Some (owner, projector, operation) =>
        Err (if bool_decide (owner = vo_owner op)
             then DuplicateViewKey (vo_pk op) (vo_sk op) (projector, operation)
                    (pv_projector item, pv_operation item)
             else SharedViewKey (vo_pk op) (vo_sk op) owner (vo_owner op))
    | None =>
        let report := ou_report o in
        Ok (mkOutput (ou_fence o) (ou_planned o ++ [item])
              (<[view_op_key op := (vo_owner op, pv_projector item, pv_operation item)]> (ou_keys o))
              (ou_batches o)
              (match vo_kind op with
               | Put => set_changed report (rr_puts report + 1) (rr_deletes report)
               | Delete => set_changed report (rr_puts report) (rr_deletes report + 1)
               end)
              (ou_progress o))
    end.

(** ** Computations that change the output

    A computation is given the output and leaves it as far as it got, also when it fails. *)

Section computations.
Context {C : Type}.

Definition Outputs (A : Type) : Type := Output → Tree (RebuildCall C) (Output * Result A).

Definition out_ret {A} (a : A) : Outputs A := λ o, Ret (o, Ok a).
Definition out_fail {A} (error : Error) : Outputs A := λ o, Ret (o, Err error).
Definition out_result {A} (r : Result A) : Outputs A := λ o, Ret (o, r).
Definition out_bind {A B} (m : Outputs A) (f : A → Outputs B) : Outputs B :=
  λ o, await r := m o in
       match r with
       | (o, Ok a) => f a o
       | (o, Err error) => Ret (o, Err error)
       end.
(** A fallible call that does not touch the output. *)
Definition out_try {A} (p : Tree (RebuildCall C) (Result A)) : Outputs A :=
  λ o, await r := p in Ret (o, r).
Definition out_call {A} (p : Tree (RebuildCall C) A) : Outputs A := λ o, await a := p in Ret (o, Ok a).
Definition out_modify (f : Output → Output) : Outputs unit := λ o, Ret (f o, Ok tt).
Definition out_report (f : RebuildReport → RebuildReport) : Outputs unit :=
  out_modify (λ o, set_report o (f (ou_report o))).
End computations.
Arguments Outputs : clear implicits.

Notation "'step' x ':=' m 'in' k" := (out_bind m (λ x, k))
  (at level 200, x name, m at level 100, k at level 200, right associativity) : prog_scope.
Notation "'then_' m ';' k" := (out_bind m (λ _, k))
  (at level 200, m at level 100, k at level 200, right associativity) : prog_scope.

Section rebuild.
Context `{SerdeJson} `{JournalJson} {C : Type} (stream_all_events : StreamFilter → C).

Abbreviation M := (Outputs C).

(** The items in turn. *)
Fixpoint out_each {A} (f : A → M unit) (l : list A) : M unit :=
  match l with
  | [] => out_ret tt
  | x :: rest => then_ f x; out_each f rest
  end.

(** crates/evt/src/rebuild/projections.rs:1006-1011 [Output::keep_alive] *)
Definition output_keep_alive : M unit :=
  λ o, match ou_fence o with
       | Some fence =>
           await r := keep_alive fence in Ret (set_fence o (Some r.1), r.2)
       | None => Ret (o, Ok tt)
       end.

Definition plan_item (item : ProjectedView) : M unit :=
  λ o, Ret match output_plan o item with
           | Ok o => (o, Ok tt)
           | Err error => (o, Err error)
           end.

(** crates/evt/src/rebuild/projections.rs:1023-1028 [Output::write] *)
Definition observe (progress : Output → RebuildProgress) : M unit :=
  λ o, if ou_progress o then await done := call (PObserve (progress o)) in Ret (o, Ok tt)
       else Ret (o, Ok tt).

(** [fence.write(batch)]. *)
Definition fence_write (fence : Renewing) (batch : list ProjectedView) : M unit :=
  λ o, await r := renewing_write fence batch in Ret (set_fence o (Some r.1), r.2).

(** crates/evt/src/rebuild/projections.rs:1029-1038 [Output::write] *)
Definition write_batch (batch : list ProjectedView) : M unit :=
  λ o, match ou_fence o with
       | None => Ret (o, Ok tt)
       | Some fence =>
           (then_ fence_write fence batch;
            then_ out_report (λ r, set_batches r (rr_batches r + 1));
            observe (λ o, Wrote (rr_batches (ou_report o)) (ou_batches o))) o
       end.

(** crates/evt/src/rebuild/projections.rs:1015-1041 [Output::write] *)
Definition output_write : M unit :=
  λ o, let batches := rebuild_batches (ou_planned o) in
       let o := mkOutput (ou_fence o) [] (ou_keys o) (llen batches) (ou_report o) (ou_progress o) in
       match ou_fence o with
       | None => Ret (o, Ok tt)
       | Some _ =>
           (then_ observe (λ o, Planned (ou_report o) (ou_batches o));
            out_each write_batch batches) o
       end.

(** ** Reading the log *)

(** crates/evt/src/rebuild/projections.rs:839-846 [ProjectionRebuild::all_events]

    The batches of a listing, one after the other; [fuel] bounds the polls. *)
Fixpoint collect_batches {S : Type} (fuel : nat) (take : S → list SerializedEvent → S) (events : S)
    (state : C) : Tree (RebuildCall C) (Result S) :=
  match fuel with
  | O => OutOfFuel
  | Datatypes.S fuel =>
      await next := call (PNextBatch state) in
      match next with
      | None => Ret (Ok events)
      | Some (Err error, _) => Ret (Err error)
      | Some (Ok batch, state) => collect_batches fuel take (take events batch) state
      end
  end.

(** crates/evt/src/rebuild/projections.rs:838-849 [ProjectionRebuild::all_events] *)
Definition all_events (fuel : nat) (entity_type : EntityType)
  : Tree (RebuildCall C) (Result (list SerializedEvent)) :=
  collect_batches fuel (@app SerializedEvent) []
    (stream_all_events (StreamFilter_of_type entity_type)).

(** crates/evt/src/rebuild/projections.rs:867-872 [ProjectionRebuild::whole_history] *)
Definition by_stream (streams : gmap EntityId (list SerializedEvent)) (batch : list SerializedEvent)
  : gmap EntityId (list SerializedEvent) :=
  fold_left (λ streams event,
    <[ev_entity_id event := default [] (streams !! ev_entity_id event) ++ [event]]> streams)
    batch streams.

(** crates/evt/src/rebuild/projections.rs:882-891 [ProjectionRebuild::whole_history]

    How far a stream's history is missing, if it is; the stream is sorted. *)
Definition missing_through (entity_id : EntityId) (head : EventSequence)
    (stream : list SerializedEvent) : Result (option EventSequence) :=
  let first := match stream with event :: _ => Some (ev_sequence event) | [] => None end in
  let last_ := match last stream with Some event => Some (ev_sequence event) | None => None end in
  match first, last_ with
  | Some first, _ =>
      if negb (first =? 1) then Ok (Some (first - 1))
      else match last_ with
           | Some last_ =>
               if head <? last_ then Err (drift entity_id head last_)
               else if last_ =? head then Ok None else Ok (Some head)
           | None => Ok (Some head)
           end
  | None, _ => Ok (Some head)
  end.

Definition read_snapshot (entity_id : EntityId)
  : Tree (RebuildCall C) (Result (option SerializedSnapshot)) :=
  call (PHeads (HRepository (QSnapshot entity_id))).

(** crates/evt/src/rebuild/projections.rs:875-906 [ProjectionRebuild::whole_history] *)
Fixpoint check_heads (heads : list (EntityId * EventSequence))
    (streams : gmap EntityId (list SerializedEvent))
  : Tree (RebuildCall C) (Result (list SerializedEvent)) :=
  match heads with
  | [] => Ret (Ok (concat (map snd (btree_entries string_leb streams))))
  | (entity_id, head) :: heads =>
      let stream := sort_by sequence_leb (default [] (streams !! entity_id)) in
      let streams := <[entity_id := stream]> streams in
      match missing_through entity_id head stream with
      | Err error => Ret (Err error)
      | Ok None => check_heads heads streams
      | Ok (Some through) =>
          await? snapshot := read_snapshot entity_id in
          Ret (Err (CompactionUncovered entity_id through
            (match snapshot with Some s => Some (sn_event_sequence s) | None => None end)))
      end
  end.

(** crates/evt/src/rebuild/projections.rs:858-907 [ProjectionRebuild::whole_history] *)
Definition whole_history (fuel : nat) (entity_type : EntityType)
  : Tree (RebuildCall C) (Result (list SerializedEvent)) :=
  await? heads := call (PHeads (HEntityHeads (Some entity_type))) in
  await? streams :=
    collect_batches fuel by_stream ∅ (stream_all_events (StreamFilter_of_type entity_type)) in
  check_heads (btree_entries string_leb heads) streams.

(** crates/evt/src/rebuild/projections.rs:773-780 [ProjectionRebuild::stream_exists] *)
Definition stream_exists (id : EntityId) : Tree (RebuildCall C) (Result bool) :=
  await? latest := call (PLatest id 1) in
  if negb (nil_b latest) then Ret (Ok true)
  else
    await? snapshot := read_snapshot id in
    Ret (Ok match snapshot with Some _ => true | None => false end).

(** ** Final states *)

(** A read of the repository within a rebuild. *)
Definition of_heads {B} (p : Tree (HeadsCall Empty_set) B) : Tree (RebuildCall C) B :=
  interpret (λ B q, call (PHeads q)) p.

(** crates/evt/src/rebuild/projections.rs:1085-1094 [Typed::final_states]

    The next final state, encoded. *)
Definition next_final_state (A : Aggregate) (state : Seeded)
  : Tree (RebuildCall C) (option (Result (EntityId * string) * Seeded)) :=
  await next := of_heads (next_seeded (A := A) state) in
  Ret match next with
      | None => None
      | Some (loaded, state) =>
          Some (let? loaded := loaded in
                let? encoded := ag_to_json (Aggregate := A) (ld_aggregate loaded) in
                Ok (ld_entity_id loaded, encoded), state)
      end.

(** crates/evt/src/rebuild/projections.rs:1075-1095 [Typed::final_states] *)
Definition final_states (scope : ScopeOf) : Seeded :=
  seeded_start (A := sc_aggregate scope) (StreamFilter_of_type (sc_entity_type scope)).

(** crates/evt/src/rebuild/projections.rs:702-716 [ProjectionRebuild::rebuild]

    The rows of one final state. *)
Definition plan_state (current : list (Z * CommitProjector)) (entity_type : EntityType)
    (entity_id : EntityId) (state : string) : M unit :=
  let view := mkCommitView "" [commit_stream_new entity_id entity_type [] state] in
  step items := out_result (project_with current view) in
  then_ out_each (λ item, plan_item (unconditioned item)) items;
  then_ out_report (λ r, set_entities r (rr_entities r + 1));
  output_keep_alive.

(** crates/evt/src/rebuild/projections.rs:696-717 [ProjectionRebuild::rebuild]

    The final states of one type, with the streams read so far; [fuel] bounds the polls. *)
Fixpoint plan_states (fuel : nat) (current : list (Z * CommitProjector)) (diffing : bool)
    (scope : ScopeOf) (streams : gset string) (state : Seeded) : M (gset string) :=
  match fuel with
  | O => λ _, OutOfFuel
  | Datatypes.S fuel =>
      step next := out_call (next_final_state (sc_aggregate scope) state) in
      match next with
      | None => out_ret streams
      | Some (Err error, _) => out_fail error
      | Some (Ok (entity_id, encoded), state) =>
          then_ plan_state current (sc_entity_type scope) entity_id encoded;
          plan_states fuel current diffing scope
            (if diffing then {[entity_id]} ∪ streams else streams) state
      end
  end.

(** crates/evt/src/rebuild/projections.rs:694-719 [ProjectionRebuild::rebuild] *)
Fixpoint plan_scopes (fuel : nat) (current : list (Z * CommitProjector)) (diffing : bool)
    (scopes : list ScopeOf) (streams : gset string) : M (gset string) :=
  match scopes with
  | [] => out_ret streams
  | scope :: scopes =>
      step streams := plan_states fuel current diffing scope streams (final_states scope) in
      plan_scopes fuel current diffing scopes streams
  end.

(** ** Replaying the history *)

(** crates/evt/src/rebuild/projections.rs:1110-1118 [Fold for Loaded]

    A loaded aggregate of any of the registered types. *)
Record Fold := mkFold { fo_aggregate : Aggregate; fo_loaded : @Loaded fo_aggregate }.

Definition fold_replay (f : Fold) (event : SerializedEvent) : Result Fold :=
  let? loaded := replay (A := fo_aggregate f) (fo_loaded f) event in
  Ok (mkFold (fo_aggregate f) loaded).

Definition fold_state (f : Fold) : Result string :=
  ag_to_json (Aggregate := fo_aggregate f) (ld_aggregate (fo_loaded f)).

(** crates/evt/src/rebuild/projections.rs:1097-1099 [Typed::folder] *)
Definition folder (scope : ScopeOf) (entity_id : EntityId) : Fold :=
  mkFold (sc_aggregate scope) (loaded_new (A := sc_aggregate scope) entity_id).

(** crates/evt/src/rebuild/projections.rs:810-820 [ProjectionRebuild::replay_history]

    The fold of a stream; the type of a stream that has none yet is expected to be registered. *)
Definition fold_of (r : ProjectionRebuild) (folds : gmap EntityId Fold) (stream : CommitStream)
  : option Fold :=
  match folds !! cs_entity_id stream with
  | Some fold => Some fold
  | None =>
      match scope_of r (cs_entity_type stream) with
      | Some scope => Some (folder scope (cs_entity_id stream))
      | None => None
      end
  end.

(** crates/evt/src/rebuild/projections.rs:809-826 [ProjectionRebuild::replay_history]

    The streams of a commit with their states, and the folds; [None] is a panic. *)
Fixpoint fold_streams (r : ProjectionRebuild) (folds : gmap EntityId Fold)
    (streams : list CommitStream)
  : option (Result (gmap EntityId Fold * list CommitStream)) :=
  match streams with
  | [] => Some (Ok (folds, []))
  | stream :: streams =>
      match fold_of r folds stream with
      | None => None
      | Some fold =>
          match (let? fold := fold_result fold_replay fold (cs_events stream) in
                 let? state := fold_state fold in
                 Ok (fold, state)) with
          | Err error => Some (Err error)
          | Ok (fold, state) =>
              match fold_streams r (<[cs_entity_id stream := fold]> folds) streams with
              | Some (Ok (folds, rest)) =>
                  Some (Ok (folds,
                    mkCommitStream (cs_entity_id stream) (cs_entity_type stream) (cs_events stream)
                      state :: rest))
              | other => other
              end
          end
      end
  end.

(** crates/evt/src/rebuild/projections.rs:804-831 [ProjectionRebuild::replay_history] *)
Fixpoint replay_commits (r : ProjectionRebuild) (projectors : list (Z * CommitProjector)) (index : Z)
    (folds : gmap EntityId Fold) (replay : ViewReplay) (commits : list CommitView) : M ViewReplay :=
  match commits with
  | [] => out_ret replay
  | commit :: commits =>
      then_ (if index mod 1024 =? 1023 then output_keep_alive else out_ret tt);
      match fold_streams r folds (cv_streams commit) with
      | None => λ _, Panic
      | Some (Err error) => out_fail error
      | Some (Ok (folds, streams)) =>
          step items := out_result (project_with projectors (mkCommitView (cv_commit_id commit) streams)) in
          step replay := out_result (fold_result replay_apply replay items) in
          replay_commits r projectors (index + 1) folds replay commits
      end
  end.

(** crates/evt/src/rebuild/projections.rs:793-834 [ProjectionRebuild::replay_history] *)
Definition replay_history (r : ProjectionRebuild) (projectors : list (Z * CommitProjector))
    (events : list SerializedEvent) : M (ViewReplay * Z) :=
  step commits := out_result (group_commits events) in
  step replay := replay_commits r projectors 0 ∅ ∅ commits in
  out_ret (replay, llen commits).

(** ** Comparing with the table *)

(** crates/evt/src/rebuild/projections/diff.rs:17-17 [STALE_ROWS] *)
Definition STALE_ROWS : string := "rebuild-stale-rows".

(** crates/evt/src/rebuild/projections/diff.rs:250-255 [same] *)
Definition same (op : ViewOperation) (row : ViewRow) : bool :=
  bool_decide (vr_entity_id row = vo_owner op) && bool_decide (vr_entity_type row = vo_entity_type op)
  && bool_decide (vr_payload row = vo_payload op) && (vr_ttl row =? 0).

(** crates/evt/src/rebuild/projections/diff.rs:239-246 [stale_delete] *)
Definition stale_delete (row : ViewRow) (operation : Z) : ProjectedView :=
  mkProjectedView STALE_ROWS usize_max operation (view_delete (vr_pk row) (vr_sk row) (vr_entity_id row)).

Abbreviation Rows := (gmap (string * string) ViewRow).

Definition row_key (row : ViewRow) : string * string := (vr_pk row, vr_sk row).

(** The rows put in a map under their keys. *)
Definition insert_rows (rows : Rows) (l : list ViewRow) : Rows :=
  fold_left (λ rows row, <[row_key row := row]> rows) l rows.

(** crates/evt/src/rebuild/projections/diff.rs:95-107 [Output::diff]

    The pages of one type; [fuel] bounds them. *)
Fixpoint list_pages (fuel : nat) (entity_type : string) (cursor : option string) (listed : Rows)
  : M Rows :=
  match fuel with
  | O => λ _, OutOfFuel
  | S fuel =>
      step page := out_try (call (view_call (VListByType entity_type None cursor))) in
      let listed := insert_rows listed (vp_views page) in
      then_ output_keep_alive;
      match vp_next_cursor page with
      | Some next => list_pages fuel entity_type (Some next) listed
      | None => out_ret listed
      end
  end.

(** crates/evt/src/rebuild/projections/diff.rs:94-108 [Output::diff] *)
Fixpoint list_owned (fuel : nat) (types : list string) (listed : Rows) : M Rows :=
  match types with
  | [] => out_ret listed
  | entity_type :: types =>
      step listed := list_pages fuel entity_type None listed in list_owned fuel types listed
  end.

(** crates/evt/src/rebuild/projections/diff.rs:115-125 [Output::diff]

    The keys to read again, and what the listing shows that is not planned. *)
Fixpoint confirm_planned (listed : Rows) (planned : list ProjectedView)
  : list (string * string) * Rows :=
  match planned with
  | [] => ([], listed)
  | item :: planned =>
      let key := view_op_key (pv_op item) in
      let rest := confirm_planned (delete key listed) planned in
      let check :=
        match vo_kind (pv_op item) with
        | Put => match listed !! key with Some row => same (pv_op item) row | None => false end
        | Delete => true
        end in
      ((if check then [key] else []) ++ rest.1, rest.2)
  end.

(** crates/evt/src/rebuild/projections/diff.rs:221-224 [Output::read_by_key] *)
Definition by_sort_key (keys : list (string * string)) : gmap string (list string) :=
  fold_left (λ by_sk key, <[key.2 := default [] (by_sk !! key.2) ++ [key.1]]> by_sk) keys ∅.

(** crates/evt/src/rebuild/projections/diff.rs:226-234 [Output::read_by_key] *)
Fixpoint read_groups (groups : list (string * list string)) (stored : Rows) : M Rows :=
  match groups with
  | [] => out_ret stored
  | (sk, pks) :: groups =>
      step rows := out_try (batch_get_views_at pks sk) in
      then_ output_keep_alive;
      read_groups groups (insert_rows stored rows)
  end.

(** crates/evt/src/rebuild/projections/diff.rs:216-235 [Output::read_by_key] *)
Definition read_by_key (keys : list (string * string)) : M Rows :=
  read_groups (btree_entries string_leb (by_sort_key keys)) ∅.

Definition RowChanges_default : RowChanges := mkRowChanges 0 0.

Definition count_put (changes : gmap string RowChanges) (entity_type : string) : gmap string RowChanges :=
  let c := default RowChanges_default (changes !! entity_type) in
  <[entity_type := mkRowChanges (rc_puts c + 1) (rc_deletes c)]> changes.

Definition count_delete (changes : gmap string RowChanges) (entity_type : string) : gmap string RowChanges :=
  let c := default RowChanges_default (changes !! entity_type) in
  <[entity_type := mkRowChanges (rc_puts c) (rc_deletes c + 1)]> changes.

(** What a comparison has found so far. *)
Record Diffed := mkDiffed {
  df_unchanged : Z;
  df_changes : gmap string RowChanges;
  df_operations : list ProjectedView;
  df_unread : list ViewRow
}.

(** crates/evt/src/rebuild/projections/diff.rs:133-160 [Output::diff]

    One planned operation against the stored rows. *)
Definition diff_planned (owned : gset string) (stored : Rows) (d : Diffed) (item : ProjectedView)
  : Result Diffed :=
  let op := pv_op item in
  match vo_kind op with
  | Put =>
      if match stored !! view_op_key op with Some row => same op row | None => false end then
        Ok (mkDiffed (df_unchanged d + 1) (df_changes d) (df_operations d) (df_unread d))
      else
        Ok (mkDiffed (df_unchanged d) (count_put (df_changes d) (vo_entity_type op))
          (df_operations d ++ [item]) (df_unread d))
  | Delete =>
      match stored !! view_op_key op with
      | None => Ok d
      | Some row =>
          if negb (bool_decide (vr_entity_type row ∈ owned)) then
            invalid_config
              (Fmt "projector {:?} deletes the row at ({:?}, {:?}), which holds a row of type {:?} the diff does not own"
                [pv_projector item; vo_pk op; vo_sk op; vr_entity_type row])
          else
            Ok (mkDiffed (df_unchanged d) (count_delete (df_changes d) (vr_entity_type row))
              (df_operations d ++ [item]) (df_unread d))
      end
  end.

(** crates/evt/src/rebuild/projections/diff.rs:162-177 [Output::diff]

    One row that only the listing shows. *)
Definition diff_stale (owned streams : gset string) (stored : Rows) (d : Diffed)
    (key : string * string) : Diffed :=
  match stored !! key with
  | None => d
  | Some row =>
      if negb (bool_decide (vr_entity_type row ∈ owned)) then d
      else if negb (bool_decide (vr_entity_id row ∈ streams)) then
        mkDiffed (df_unchanged d) (df_changes d) (df_operations d) (df_unread d ++ [row])
      else
        mkDiffed (df_unchanged d) (count_delete (df_changes d) (vr_entity_type row))
          (df_operations d ++ [stale_delete row (llen (df_operations d))]) (df_unread d)
  end.

(** crates/evt/src/rebuild/projections/diff.rs:131-177 [Output::diff] *)
Definition diff_rows (owned streams : gset string) (planned : list ProjectedView)
    (stale : list (string * string)) (stored : Rows) (unchanged : Z) : Result Diffed :=
  let? d := fold_result (diff_planned owned stored) (mkDiffed unchanged ∅ [] []) planned in
  Ok (fold_left (diff_stale owned streams stored) stale d).

(** crates/evt/src/rebuild/projections/diff.rs:83-91 [Output::diff] *)
Definition unowned (owned : gset string) (planned : list ProjectedView) : option ProjectedView :=
  List.find (λ item, bool_decide (vo_kind (pv_op item) = Put)
    && negb (bool_decide (vo_entity_type (pv_op item) ∈ owned))) planned.

(** crates/evt/src/rebuild/projections/diff.rs:76-183 [Output::diff]

    The listing's rows in the order of their keys. *)
Definition output_diff (fuel : nat) (owned streams : gset string) : M (list ViewRow) :=
  λ o, let planned := ou_planned o in
       let o := set_planned o [] in
       (match unowned owned planned with
        | Some item =>
            out_fail (InvalidConfig
              (Fmt "projector {:?} plans a row of type {:?} at ({:?}, {:?}), which the diff does not own: add the type to the owned types"
                [pv_projector item; vo_entity_type (pv_op item); vo_pk (pv_op item); vo_sk (pv_op item)]))
        | None =>
            step listed := list_owned fuel (btree_set owned) ∅ in
            then_ out_report (λ r, set_existing r (Z.of_nat (size listed)));
            let confirmed := confirm_planned listed planned in
            let stale := map fst (btree_entries key_leb confirmed.2) in
            step stored := read_by_key (confirmed.1 ++ stale) in
            λ o, match diff_rows owned streams planned stale stored (rr_unchanged (ou_report o)) with
                 | Err error => Ret (o, Err error)
                 | Ok d =>
                     Ret (set_planned
                            (set_report o
                              (set_changes (set_unchanged (ou_report o) (df_unchanged d)) (df_changes d)))
                            (df_operations d),
                          Ok (df_unread d))
                 end
        end) o.

(** crates/evt/src/rebuild/projections/diff.rs:190-198 [Output::finish_diff] *)
Definition add_orphan (o : Output) (row : ViewRow) : Output :=
  set_planned
    (set_report o (set_changes (ou_report o) (count_delete (rr_changes (ou_report o)) (vr_entity_type row))))
    (ou_planned o ++ [stale_delete row (llen (ou_planned o))]).

(** crates/evt/src/rebuild/projections/diff.rs:189-212 [Output::finish_diff] *)
Definition finish_diff (orphans : list ViewRow) (kept : Z) : M unit :=
  λ o, let o := fold_left add_orphan orphans o in
       let o := set_report o (set_kept (ou_report o) kept) in
       match check_views (ou_planned o) with
       | Err error => Ret (o, Err error)
       | Ok _ =>
           let counts := map snd (map_to_list (rr_changes (ou_report o))) in
           Ret (set_report o
                  (set_changed (ou_report o) (sumZ (map rc_puts counts)) (sumZ (map rc_deletes counts))),
                Ok tt)
       end.

(** crates/evt/src/rebuild/projections.rs:745-765 [ProjectionRebuild::rebuild]

    The rows whose owner was not read, kept unless the owner is no stream. *)
Fixpoint sort_unread (exists_ : gmap string bool) (orphans : list ViewRow) (kept : Z)
    (unread : list ViewRow) : M (list ViewRow * Z) :=
  match unread with
  | [] => out_ret (orphans, kept)
  | row :: unread =>
      let id := vr_entity_id row in
      step found :=
        match exists_ !! id with
        | Some found => out_ret (found, exists_)
        | None =>
            if is_empty id then out_ret (true, exists_)
            else
              step found := out_try (stream_exists id) in
              then_ output_keep_alive;
              out_ret (found, <[id := found]> exists_)
        end in
      if found.1 then sort_unread found.2 orphans (kept + 1) unread
      else sort_unread found.2 (orphans ++ [row]) kept unread
  end.

(** ** The rebuild *)

(** crates/evt/src/rebuild/projections.rs:642-645 [ProjectionRebuild::rebuild] *)
Fixpoint read_histories (fuel : nat) (types : list EntityType)
    (events : gmap EntityType (list SerializedEvent)) : M (gmap EntityType (list SerializedEvent)) :=
  match types with
  | [] => out_ret events
  | entity_type :: types =>
      step history := out_try (whole_history fuel entity_type) in
      then_ output_keep_alive;
      read_histories fuel types (<[entity_type := history]> events)
  end.

(** crates/evt/src/rebuild/projections.rs:646-651 [ProjectionRebuild::rebuild] *)
Fixpoint read_journal_types (fuel : nat) (types : list EntityType)
    (events : gmap EntityType (list SerializedEvent)) : M (gmap EntityType (list SerializedEvent)) :=
  match types with
  | [] => out_ret events
  | entity_type :: types =>
      match events !! entity_type with
      | Some _ => read_journal_types fuel types events
      | None =>
          step found := out_try (all_events fuel entity_type) in
          then_ output_keep_alive;
          read_journal_types fuel types (<[entity_type := found]> events)
      end
  end.

(** [types.filter_map(|t| events.get(t)).flatten()]. *)
Definition events_of_types (types : list EntityType) (events : gmap EntityType (list SerializedEvent))
  : list SerializedEvent :=
  concat (omap (λ entity_type, events !! entity_type) types).

(** The projectors with their indices, those with a history and those without. *)
Definition current_projectors (r : ProjectionRebuild) : list (Z * CommitProjector) :=
  List.filter (λ p : Z * CommitProjector, nil_b (pj_history p.2)) (enumerate_from 0 (pr_projectors r)).
Definition history_projectors (r : ProjectionRebuild) : list (Z * CommitProjector) :=
  List.filter (λ p : Z * CommitProjector, negb (nil_b (pj_history p.2)))
    (enumerate_from 0 (pr_projectors r)).
Definition history_types (r : ProjectionRebuild) : list EntityType :=
  btree_set (list_to_set (concat (map (λ p : Z * CommitProjector, pj_history p.2) (history_projectors r)))).

(** crates/evt/src/rebuild/projections.rs:655-667 [ProjectionRebuild::rebuild] *)
Definition streams_read (r : ProjectionRebuild) (events : gmap EntityType (list SerializedEvent))
  : gset string :=
  match pr_diff r with
  | Some _ =>
      list_to_set (map ev_entity_id (concat (map snd (map_to_list events))))
      ∪ (if has_journal r then {[COUNTER_OWNER]} else ∅)
  | None => ∅
  end.

(** crates/evt/src/rebuild/projections.rs:728-735 [ProjectionRebuild::rebuild] *)
Definition plan_journal (journal : option JournalState) : M unit :=
  match journal with
  | None => out_ret tt
  | Some state =>
      then_ out_report (λ r, set_journal r (Z.of_nat (size (js_rows state))) (Z.of_nat (size (js_counters state))));
      out_each plan_item (journal_operations state)
  end.

(** crates/evt/src/rebuild/projections.rs:721-726 [ProjectionRebuild::rebuild] *)
Definition plan_replayed (replayed : option (ViewReplay * Z)) : M unit :=
  match replayed with
  | None => out_ret tt
  | Some (replay, commits) =>
      then_ out_report (λ r, set_commits r (rr_commits r + commits));
      out_each (λ item, plan_item (unconditioned item)) (replay_values replay)
  end.

(** crates/evt/src/rebuild/projections.rs:737-766 [ProjectionRebuild::rebuild] *)
Definition compare (r : ProjectionRebuild) (fuel : nat) (streams : gset string) : M unit :=
  match pr_diff r with
  | None => out_ret tt
  | Some owned =>
      step unread := output_diff fuel (owned_types r owned) streams in
      step sorted := sort_unread ∅ [] 0 unread in
      finish_diff sorted.1 sorted.2
  end.

(** crates/evt/src/rebuild/projections.rs:619-769 [ProjectionRebuild::rebuild] *)
Definition rebuild (r : ProjectionRebuild) (fuel : nat) : M unit :=
  let current := current_projectors r in
  let history := history_projectors r in
  step events := read_histories fuel (history_types r) ∅ in
  step events := read_journal_types fuel (journal_types r) events in
  then_ out_report (λ report, set_events report
    (sumZ (map (λ e : EntityType * list SerializedEvent, llen e.2) (map_to_list events))));
  let streams := streams_read r events in
  step journal :=
    match pr_journal r with
    | Some journal =>
        step state := out_result (journal_replay (events_of_types (jo_entity_types journal) events)) in
        out_ret (Some state)
    | None => out_ret None
    end in
  step replayed :=
    (if nil_b history then out_ret None
     else
       step replayed := replay_history r history (events_of_types (history_types r) events) in
       out_ret (Some replayed)) in
  step streams :=
    (if nil_b current then out_ret streams
     else plan_scopes fuel current (bool_decide (is_Some (pr_diff r))) (pr_scopes r) streams) in
  then_ plan_replayed replayed;
  then_ plan_journal journal;
  compare r fuel streams.

(** crates/evt/src/rebuild/projections.rs:503-528 [ProjectionRebuild::fenced]

    With the lease as the run leaves it. *)
Definition fenced (r : ProjectionRebuild) (fuel : nat) (lease : RebuildLease) (renew : Duration)
    (renewed : option Z) : Tree (RebuildCall C) (RebuildLease * result RebuildReport RebuildFailure) :=
  let output := output_new (Some (renewing_new lease renew renewed)) in
  let output := mkOutput (ou_fence output) [] ∅ 0 RebuildReport_default (pr_progress r) in
  await result := (then_ output_keep_alive; then_ rebuild r fuel; output_write) output in
  let o := result.1 in
  Ret (match ou_fence o with Some fence => rn_lease fence | None => lease end,
       match result.2 with
       | Ok _ => Ok (ou_report o)
       | Err error => Err (mkRebuildFailure error (attempted o) (ou_batches o))
       end).

(** crates/evt/src/rebuild/projections.rs:464-472 [ProjectionRebuild::run] *)
Definition projection_run (r : ProjectionRebuild) (fuel : nat) (owner : string) (lease : Duration)
  : Tree (RebuildCall C) (Result RebuildReport) :=
  match check_rebuild r with
  | Err error => Ret (Err error)
  | Ok _ =>
      await? held := held_take owner lease in
      await result := fenced r fuel (hl_lease held) lease (Some (hl_taken held)) in
      held_finish (mkHeld result.1 (hl_from_settled held) (hl_taken held)) result.2
  end.

(** crates/evt/src/rebuild/projections.rs:485-499 [ProjectionRebuild::run_with_lease] *)
Definition run_with_lease (r : ProjectionRebuild) (fuel : nat) (lease : RebuildLease) (renew : Duration)
  : Tree (RebuildCall C) (RebuildLease * result RebuildReport RebuildFailure) :=
  match (check? check_rebuild r; check_renew renew) with
  | Err error => Ret (lease, Err (unattempted error))
  | Ok _ => fenced r fuel lease renew None
  end.

(** crates/evt/src/rebuild/projections.rs:539-550 [ProjectionRebuild::plan] *)
Definition projection_plan (r : ProjectionRebuild) (fuel : nat)
  : Tree (RebuildCall C) (Result RebuildPlan) :=
  match check_rebuild r with
  | Err error => Ret (Err error)
  | Ok _ =>
      await result := rebuild r fuel (output_new None) in
      Ret (let? done := result.2 in
           let o := result.1 in
           Ok (mkPlan (ou_report o) (ou_planned o) (llen (rebuild_batches (ou_planned o)))))
  end.

(** crates/evt/src/rebuild/projections.rs:533-535 [ProjectionRebuild::operations] *)
Definition projection_operations (r : ProjectionRebuild) (fuel : nat)
  : Tree (RebuildCall C) (Result (list ProjectedView)) :=
  await? plan := projection_plan r fuel in Ret (Ok (rp_operations plan)).
End rebuild.
