(* ===== verification/Compact.v ===== *)
(** * Compacting a journal

    [journal/compact.rs]: the lease a compaction holds, the chunks it builds from the rows, the
    swap of the manifest, and the deletion of the rows that are covered. Everything a compaction
    writes travels with a check of its lease. *)

From S2P Require Import Prelude Types Features Outcome Rebuild Projection Repository Program Mem.
From S2P Require Import Sha256 JournalScope Compaction JournalRead.

(** crates/evt/src/journal/compact.rs:38-41 [MAX_LEASE_ATTEMPTS] *)
Definition MAX_LEASE_ATTEMPTS : nat := 8.
Definition DELETE_BATCH : nat := MAX_COMPACTION_WRITES - 1.

(** crates/evt/src/journal/compact.rs:48-61 [CompactionReport] *)
Record CompactionReport := mkCompactionReport {
  cr_scope : Scope;
  cr_checkpoint : Z;
  cr_digest : string;
  cr_chunk_count : Z;
  cr_chunks_written : Z;
  cr_rows_deleted : Z
}.

Section compact.
Context `{JournalJson} `{CompactionJson} {Op : Type}.

(** crates/evt/src/journal/compact.rs:164-174 [check_marker] *)
Definition check_marker : JProg Op (Result (option FeatureManifest)) :=
  await? manifest := call JReadManifest in
  await? supported :=
    pure_prog match manifest with Some m => validate_supported m | None => Ok tt end in
  Ret (Ok manifest).

(** crates/evt/src/journal/compact.rs:181-198 [ensure_declared] *)
Definition ensure_compaction_declared : JProg Op (Result unit) :=
  await? manifest := check_marker in
  let declared :=
    match manifest with Some m => fm_features m !! JOURNAL_COMPACTION_FEATURE | None => None end in
  if bool_decide (declared = Some JOURNAL_COMPACTION_VERSION) then Ret (Ok tt)
  else
    call (JUpdateManifest (λ m,
      mkManifest (fm_version m)
        (<[JOURNAL_COMPACTION_FEATURE := JOURNAL_COMPACTION_VERSION]> (fm_features m))
        (fm_history_dependent m) (fm_retention m))).

(** crates/evt/src/journal/compact.rs:202-212 [epoch_error] *)
Definition epoch_error (epoch : RebuildEpoch) : JProg Op Error :=
  await generation := call JRebuildGeneration in
  Ret match generation with
      | Err err => err
      | Ok generation =>
          match epoch_verify epoch generation with
          | Err err => err
          | Ok _ =>
              Transient (BoxText "the rebuild generation moved during a compaction write")
          end
      end.

(** crates/evt/src/journal/compact.rs:214-219 [lease_lost] *)
Definition lease_lost (scope : Scope) (owner : string) : Error := CompactionLeaseLost scope owner.

(** ** Leases *)

(** [other.token() + 1] on [u64], as a build without overflow checks wraps it. *)
Definition next_token (row : LeaseRow) : Z := (lease_token row + 1) mod 2 ^ 64.

(** crates/evt/src/journal/compact.rs:245-257 [begin_compaction]

    The token of the next lease and what the stored row must still be. *)
Definition next_lease (scope : Scope) (now : Z) (stored : option ViewRow) : Result (Z * Expect) :=
  match stored with
  | None => Ok (1, ExpectAbsent)
  | Some row =>
      let? lease := lease_decode scope (vr_payload row) in
      match lease with
      | Held held =>
          if now <=? cl_lease_expires_at held then
            Err (CompactionLeaseHeld scope (cl_owner held) (cl_lease_expires_at held))
          else Ok (next_token lease, ExpectPayload (vr_payload row))
      | Released _ _ => Ok (next_token lease, ExpectPayload (vr_payload row))
      end
  end.

(** crates/evt/src/journal/compact.rs:242-280 [begin_compaction]

    The attempts to take the lease. *)
Fixpoint begin_loop (attempts : nat) (scope : Scope) (owner : string) (seconds : Z)
    (epoch : RebuildEpoch) : JProg Op (Result CompactionLease) :=
  match attempts with
  | O => Ret (Err (Transient (BoxText ("the compaction lease of " +:+ scope +:+ " kept changing"))))
  | S attempts =>
      await? stored := read_engine_row scope LEASE_SORT_KEY in
      await now := call JCompactionNow in
      await? next := pure_prog (next_lease scope now stored) in
      let acquired :=
        mkCompactionLease scope owner next.1 (i64_saturating_add now seconds) seconds in
      await? written :=
        call (JWriteCompaction (Some epoch)
          [WritePut (compaction_view scope LEASE_SORT_KEY (lease_payload acquired)) next.2]) in
      match written with
      | Written => Ret (Ok acquired)
      | EpochChanged => await err := epoch_error epoch in Ret (Err err)
      | Refused _ => begin_loop attempts scope owner seconds epoch
      end
  end.

(** crates/evt/src/journal/compact.rs:231-281 [begin_compaction] *)
Definition begin_compaction (scope : Scope) (owner : string) (lease : Duration)
  : JProg Op (Result CompactionLease) :=
  await? seconds := pure_prog (check_lease owner lease) in
  await? epoch := observe_rebuild_epoch in
  await? marker := check_marker in
  begin_loop MAX_LEASE_ATTEMPTS scope owner seconds epoch.

(** crates/evt/src/journal/compact.rs:284-298 [replace_lease] *)
Definition replace_lease (lease : CompactionLease) (payload : string) : JProg Op (Result unit) :=
  await? written :=
    call (JWriteCompaction None
      [WritePut (compaction_view (cl_scope lease) LEASE_SORT_KEY payload)
         (ExpectPayload (lease_payload lease))]) in
  Ret match written with
      | Written => Ok tt
      | _ => Err (lease_lost (cl_scope lease) (cl_owner lease))
      end.

(** crates/evt/src/journal/compact.rs:303-318 [renew_compaction] *)
Definition renew_compaction (lease : CompactionLease) (extend : Duration)
  : JProg Op (Result CompactionLease) :=
  await? seconds := pure_prog (check_lease (cl_owner lease) extend) in
  await now := call JCompactionNow in
  let renewed :=
    mkCompactionLease (cl_scope lease) (cl_owner lease) (cl_token lease)
      (i64_saturating_add now seconds) seconds in
  await? replaced := replace_lease lease (lease_payload renewed) in
  Ret (Ok renewed).

(** crates/evt/src/journal/compact.rs:322-327 [end_compaction] *)
Definition end_compaction (lease : CompactionLease) : JProg Op (Result unit) :=
  replace_lease lease (lease_released_payload lease).

(** crates/evt/src/journal/compact.rs:334-352 [force_release_compaction] *)
Definition force_release_compaction (scope : Scope) (owner : string) : JProg Op (Result unit) :=
  await? owned := pure_prog (check_rebuild_owner owner) in
  await? row := read_engine_row scope LEASE_SORT_KEY in
  match row with
  | None => Ret (Err (lease_lost scope owner))
  | Some row =>
      await? lease := pure_prog (lease_decode scope (vr_payload row)) in
      match lease with
      | Held held =>
          if negb (bool_decide (cl_owner held = owner)) then Ret (Err (lease_lost scope owner))
          else replace_lease held (released_payload scope (cl_token held))
      | Released _ _ => Ret (Err (lease_lost scope owner))
      end
  end.

(** ** A run *)

(** crates/evt/src/journal/compact.rs:355-359 [Run]

    What runs with the lease it holds: the lease is the caller's, and it is what it was last renewed
    to even when the run fails. *)
Definition Run (A : Type) : Type := CompactionLease → JProg Op (CompactionLease * Result A).

Definition run_ret {A} (r : Result A) : Run A := λ lease, Ret (lease, r).

Definition run_prog {A} (p : JProg Op (Result A)) : Run A :=
  λ lease, await r := p in Ret (lease, r).

Definition run_bind {A B} (m : Run A) (f : A → Run B) : Run B :=
  λ lease, await x := m lease in
    match x.2 with Ok a => f a x.1 | Err e => Ret (x.1, Err e) end.

(** crates/evt/src/journal/compact.rs:400-418 [Run::keep] *)
Definition keep : Run unit :=
  λ lease,
    await now := call JCompactionNow in
    if cl_lease_expires_at lease <? now then
      Ret (lease, Err (lease_lost (cl_scope lease) (cl_owner lease)))
    else
      let seconds := cl_lease_seconds lease in
      if (0 <? seconds)
         && (i64_saturating_add (cl_lease_expires_at lease) (- now) <? Z.quot (i64_add seconds 1) 2)
      then
        await renewed := renew_compaction lease (mkDuration (Z.abs seconds) 0) in
        Ret match renewed with
            | Ok renewed => (renewed, Ok tt)
            | Err e => (lease, Err e)
            end
      else Ret (lease, Ok tt).

(** crates/evt/src/journal/compact.rs:365-395 [Run::write] *)
Definition run_write (epoch : RebuildEpoch) (writes : list CompactionWrite) : Run unit :=
  run_bind keep (λ _ lease,
    let scope := cl_scope lease in
    let all :=
      writes ++
      [WriteCheck (compaction_pk scope) LEASE_SORT_KEY (ExpectPayload (lease_payload lease))] in
    await written := call (JWriteCompaction (Some epoch) all) in
    match written with
    | Err e => Ret (lease, Err e)
    | Ok Written => Ret (lease, Ok tt)
    | Ok EpochChanged => await err := epoch_error epoch in Ret (lease, Err err)
    | Ok (Refused at_) =>
        match all !! Z.to_nat at_ with
        | None => Panic
        | Some write =>
            if (at_ =? llen writes) || bool_decide ((write_key write).2 = MANIFEST_SORT_KEY) then
              Ret (lease, Err (lease_lost scope (cl_owner lease)))
            else
              Ret (lease, Err (InvalidRecord
                (Fmt "a compaction write to {:?} of {scope} found a row it does not own"
                  [(write_key write).1; (write_key write).2; scope])))
        end
    end).

(** crates/evt/src/journal/compact.rs:420-429 [Run::chunk_write] *)
Definition chunk_write (scope : Scope) (chunk : BuiltChunk) : CompactionWrite :=
  WritePut (compaction_view scope (chunk_sk (bc_index chunk)) (bc_payload chunk)) ExpectAny.
End compact.

Notation "'run?' x ':=' p 'in' k" := (run_bind p (λ x, k))
  (at level 200, x name, p at level 100, k at level 200, right associativity) : prog_scope.

Section runs.
Context `{JournalJson} `{CompactionJson} {Op : Type}.

(** ** Building chunks *)

(** crates/evt/src/journal/compact.rs:565-572 [Chunks] *)
Record Chunks := mkChunks {
  cs_scope : Scope;
  cs_builder : option ChunkBuilder;
  cs_after : Z;
  cs_through : Z;
  cs_rows : list JournalRow
}.

(** crates/evt/src/journal/compact.rs:576-607 [Chunks::start] *)
Definition chunks_start (scope : Scope) (old : option CompactionManifest) (through : Z)
  : JProg Op (Result Chunks) :=
  await? builder :=
    match old with
    | None => Ret (Ok (builder_new scope 0 1))
    | Some manifest =>
        let tail := (length (mn_chunks manifest) - 1)%nat in
        await? row := read_engine_row scope (chunk_sk (Z.of_nat tail)) in
        await? row :=
          pure_prog (ok_or
            match row with
            | Some row =>
                if bool_decide (Some (sha256_hex (vr_payload row)) = mn_chunks manifest !! tail)
                then Some row else None
            | None => None
            end
            (InvalidJournal (Fmt "chunk {tail} of {scope} does not match its manifest"
              [show (Z.of_nat tail); scope]))) in
        Ret (builder_resume scope (vr_payload row))
    end in
  Ret (Ok (mkChunks scope (Some builder)
    match old with Some manifest => mn_checkpoint manifest | None => 0 end through [])).

(** crates/evt/src/journal/compact.rs:621-630 [Chunks::next]

    The rows that are left to push, read when there are none. *)
Definition chunks_fill (c : Chunks) : JProg Op (Result (list JournalRow)) :=
  if nil_b (cs_rows c) then
    await? page := call (JReadRows (cs_scope c) (cs_after c) MAX_PAGE_ROWS) in
    Ret (Ok (take_while (λ row, jr_position row <=? cs_through c) page))
  else Ret (Ok (cs_rows c)).

(** crates/evt/src/journal/compact.rs:611-649 [Chunks::next]

    Every turn of the loop that does not return moves [after] one position on, so the fuel
    [through - after + 1] is enough. *)
Fixpoint chunks_loop (fuel : nat) (c : Chunks) : JProg Op (Result (Chunks * option BuiltChunk)) :=
  match fuel with
  | O => OutOfFuel
  | S fuel =>
      match cs_builder c with
      | None => Ret (Ok (c, None))
      | Some builder =>
          if cs_through c <=? cs_after c then
            Ret (Ok (mkChunks (cs_scope c) None (cs_after c) (cs_through c) (cs_rows c),
              Some (builder_build builder)))
          else
            await? rows := chunks_fill c in
            match rows with
            | row :: rest =>
                if jr_position row =? cs_after c + 1 then
                  await? pushed := pure_prog (builder_push builder row) in
                  let c :=
                    mkChunks (cs_scope c) (Some pushed.1) (jr_position row) (cs_through c) rest in
                  match pushed.2 with
                  | Some closed => Ret (Ok (c, Some closed))
                  | None => chunks_loop fuel c
                  end
                else
                  Ret (Err (InvalidJournal (Fmt "{} has no row at position {} to compact"
                    [cs_scope c; show (cs_after c + 1)])))
            | [] =>
                Ret (Err (InvalidJournal (Fmt "{} has no row at position {} to compact"
                  [cs_scope c; show (cs_after c + 1)])))
            end
      end
  end.

Definition chunks_next (c : Chunks) : JProg Op (Result (Chunks * option BuiltChunk)) :=
  chunks_loop (S (Z.to_nat (cs_through c - cs_after c))) c.

(** The chunks that are left: one for a row that is left, the one that is open, and the end. *)
Definition chunks_fuel (c : Chunks) : nat := 2 + Z.to_nat (cs_through c - cs_after c).

(** crates/evt/src/journal/compact.rs:669-675 [preflight]

    The digests of the chunks; [held] says whether a run's lease is kept meanwhile. *)
Fixpoint preflight_loop (fuel : nat) (held : bool) (c : Chunks) (digests : list string)
  : Run (Op := Op) (list string) :=
  match fuel with
  | O => λ _, OutOfFuel
  | S fuel =>
      run? next := run_prog (chunks_next c) in
      match next.2 with
      | None => run_ret (Ok digests)
      | Some chunk =>
          run? kept := (if held then keep else run_ret (Ok tt)) in
          preflight_loop fuel held next.1 (digests ++ [bc_digest chunk])
      end
  end.

(** crates/evt/src/journal/compact.rs:656-692 [preflight] *)
Definition preflight (scope : Scope) (old : option CompactionManifest) (through limit : Z)
    (held : bool) : Run (Op := Op) CompactionManifest :=
  let digests :=
    match old with
    | Some manifest => take (length (mn_chunks manifest) - 1) (mn_chunks manifest)
    | None => []
    end in
  run? chunks := run_prog (chunks_start scope old through) in
  run? digests := preflight_loop (chunks_fuel chunks) held chunks digests in
  let manifest := mkCompactionManifest scope through digests in
  let size := slen (manifest_payload manifest) in
  if limit <? size then
    run_ret (Err (InvalidJournal
      (Fmt "the manifest of {scope} through {through} would list {} chunks in {size} bytes, over {limit}; compact in smaller steps"
        [scope; show through; show (llen (mn_chunks manifest)); show size; show limit])))
  else run_ret (Ok manifest).

(** crates/evt/src/journal/compact.rs:724-742 [build]

    The chunks that are written one by one, and the one that is held back. *)
Fixpoint build_loop (fuel : nat) (epoch : RebuildEpoch) (scope : Scope)
    (manifest : CompactionManifest) (tail : option Z) (c : Chunks)
    (held_back : option BuiltChunk) (written : Z) : Run (Op := Op) (option BuiltChunk * Z) :=
  match fuel with
  | O => λ _, OutOfFuel
  | S fuel =>
      run? next := run_prog (chunks_next c) in
      match next.2 with
      | None => run_ret (Ok (held_back, written))
      | Some chunk =>
          if negb (bool_decide
               (mn_chunks manifest !! Z.to_nat (bc_index chunk) = Some (bc_digest chunk))) then
            run_ret (Err (InvalidJournal
              (Fmt "chunk {} of {scope} changed between the preflight and the write"
                [show (bc_index chunk); scope])))
          else if bool_decide (Some (bc_index chunk) = tail) then
            build_loop fuel epoch scope manifest tail next.1 (Some chunk) written
          else
            run? done := run_write epoch [chunk_write scope chunk] in
            build_loop fuel epoch scope manifest tail next.1 held_back (written + 1)
      end
  end.

(** [held_back.filter(...)]: the rewritten last chunk of the old manifest, if it changed. *)
Definition changed_tail (old : option CompactionManifest) (held_back : option BuiltChunk)
  : option BuiltChunk :=
  match held_back with
  | Some chunk =>
      if match old with
         | None => true
         | Some old =>
             negb (bool_decide
               (mn_chunks old !! Z.to_nat (bc_index chunk) = Some (bc_digest chunk)))
         end
      then Some chunk else None
  | None => None
  end.

(** crates/evt/src/journal/compact.rs:704-761 [build] *)
Definition build (epoch : RebuildEpoch) (old : option CompactionManifest)
    (old_payload : option string) (through : Z) : Run (Op := Op) (CompactionManifest * Z) :=
  λ lease,
    (let scope := cl_scope lease in
     run? manifest := preflight scope old through MAX_CHUNK_BYTES true in
     run? declared := run_prog ensure_compaction_declared in
     let tail :=
       match old with Some old => Some (llen (mn_chunks old) - 1) | None => None end in
     run? chunks := run_prog (chunks_start scope old through) in
     run? built := build_loop (chunks_fuel chunks) epoch scope manifest tail chunks None 0 in
     let swap :=
       WritePut (compaction_view scope MANIFEST_SORT_KEY (manifest_payload manifest))
         match old_payload with Some payload => ExpectPayload payload | None => ExpectAbsent end in
     let rewritten :=
       match changed_tail old built.1 with
       | Some chunk => [chunk_write scope chunk]
       | None => []
       end in
     run? done := run_write epoch (swap :: rewritten) in
     run_ret (Ok (manifest, built.2 + llen rewritten))) lease.

(** ** Deleting rows *)

(** crates/evt/src/journal/compact.rs:786-793 [delete_rows] *)
Definition delete_write (scope : Scope) (row : JournalRow) : CompactionWrite :=
  WriteDelete (row_pk scope) (row_sk (jr_position row)) (jr_owner row).

(** crates/evt/src/journal/compact.rs:772-800 [delete_rows]

    Every turn moves [after] on, so the fuel [through + 1] is enough. *)
Fixpoint delete_loop (fuel : nat) (epoch : RebuildEpoch) (scope : Scope) (through after deleted : Z)
  : Run (Op := Op) Z :=
  match fuel with
  | O => λ _, OutOfFuel
  | S fuel =>
      run? page := run_prog (call (JReadRows scope after (Z.of_nat DELETE_BATCH))) in
      let rows := take_while (λ row, jr_position row <=? through) page in
      match last rows with
      | None => run_ret (Ok deleted)
      | Some last =>
          let writes := map (delete_write scope) rows in
          run? done := run_write epoch writes in
          let deleted := deleted + llen writes in
          if through <=? jr_position last then run_ret (Ok deleted)
          else delete_loop fuel epoch scope through (jr_position last) deleted
      end
  end.

(** crates/evt/src/journal/compact.rs:764-801 [delete_rows] *)
Definition delete_rows (epoch : RebuildEpoch) (through : Z) : Run (Op := Op) Z :=
  λ lease, delete_loop (S (Z.to_nat through)) epoch (cl_scope lease) through 0 0 lease.

(** ** Compaction *)

(** crates/evt/src/journal/compact.rs:507-533 [check_checkpoint] *)
Definition check_checkpoint (scope : Scope) (through : Z)
  : JProg Op (Result (option ViewRow * option CompactionManifest)) :=
  await? stored := read_engine_row scope MANIFEST_SORT_KEY in
  await? old :=
    pure_prog
      match stored with
      | Some row => let? manifest := manifest_decode scope (vr_payload row) in Ok (Some manifest)
      | None => Ok None
      end in
  let floor := match old with Some manifest => mn_checkpoint manifest | None => 0 end in
  if (through =? 0) || (through <? floor) then
    Ret (Err (InvalidArgument
      (Fmt "{scope} is compacted through {floor}; compact through {floor} or more, not {through}"
        [scope; show floor; show floor; show through])))
  else
    await? watermark := call (JReadCounter scope) in
    if watermark <? through then
      Ret (Err (InvalidArgument
        (Fmt "{scope} has allocated through {watermark}; it cannot be compacted through {through}"
          [scope; show watermark; show through])))
    else Ret (Ok (stored, old)).

(** crates/evt/src/journal/compact.rs:469-474 [compact]

    The manifest the run compacts to: what it builds, or the one that is stored already. *)
Definition compacted (epoch : RebuildEpoch) (stored : option ViewRow)
    (old : option CompactionManifest) (through : Z) : Run (Op := Op) (CompactionManifest * Z) :=
  let floor := match old with Some manifest => mn_checkpoint manifest | None => 0 end in
  if floor <? through then
    build epoch old match stored with Some row => Some (vr_payload row) | None => None end through
  else
    run? declared := run_prog ensure_compaction_declared in
    match old with
    | Some manifest => run_ret (Ok (manifest, 0))
    | None => λ _, Panic
    end.

(** crates/evt/src/journal/compact.rs:450-502 [compact] *)
Definition compact (through : Z) : Run (Op := Op) CompactionReport :=
  λ lease,
    (let scope := cl_scope lease in
     let owner := cl_owner lease in
     let token := cl_token lease in
     run? epoch := run_prog observe_rebuild_epoch in
     run? found := run_prog (check_checkpoint scope through) in
     run? built := compacted epoch found.1 found.2 through in
     run? rows_deleted := delete_rows epoch through in
     let manifest := built.1 in
     let digest := manifest_digest manifest in
     λ lease,
       await now := call JCompactionNow in
       let audit :=
         mkCompactionAudit scope through digest (llen (mn_chunks manifest)) rows_deleted owner token
           now in
       (run? done :=
          run_write epoch
            [WritePut (compaction_view scope (audit_sk through) (audit_payload audit)) ExpectAny] in
        run_ret (Ok (mkCompactionReport scope through digest (llen (mn_chunks manifest)) built.2
          rows_deleted))) lease) lease.

(** crates/evt/src/journal/compact.rs:540-560 [compact_with_lease] *)
Definition compact_with_lease (scope : Scope) (through : Z) (owner : string) (lease : Duration)
  : JProg Op (Result CompactionReport) :=
  await? epoch := observe_rebuild_epoch in
  await? marker := check_marker in
  await? checked := check_checkpoint scope through in
  await? held := begin_compaction scope owner lease in
  await result := compact through held in
  await ended := end_compaction result.1 in
  Ret match result.2, ended with
      | Ok report, Ok _ => Ok report
      | Ok _, Err err => Err err
      | Err err, _ => Err err
      end.
End runs.
