(* ===== verification/CompactInvariant.v ===== *)
(** * The compaction invariant

    What the rows of a compaction partition say: the lease row decodes, every chunk holds
    consecutive entries of the scope's journal, and the chunks the manifest names hold all the
    entries through its checkpoint. *)

From S2P Require Import Prelude Types Features Outcome Rebuild Projection Repository Retry Program.
From S2P Require Import Mem MemInvariant Sha256.
From S2P Require Import JournalScope Compaction JournalConfig JournalRead JournalRepository.
From S2P Require Import JournalStage JournalInvariant Compact.

(** What reading back an encoding gives. A chunk is built as text, and its rows are read back as the
    texts they are. *)
Class CompactionJsonLaws (J : JournalJson) (C : CompactionJson) : Prop := {
  parse_lease_law : ∀ p, json_parse_lease (json_lease p) = Ok p;
  parse_manifest_law : ∀ p, json_parse_manifest (json_manifest p) = Ok p;
  parse_audit_law : ∀ p, json_parse_audit (json_audit p) = Ok p;
  parse_chunk_law : ∀ b,
    0 ≤ cb_index b ≤ u64_max → 0 ≤ cb_from b → builder_through b ≤ u64_max → cb_rows b ≠ [] →
    Forall (λ text, ∃ row, json_row row = Ok text) (cb_rows b) →
    json_parse_chunk (bc_payload (builder_build b)) =
      Ok (mkChunkIn (cb_scope b) (cb_index b) (cb_from b) (builder_through b) (cb_rows b))
}.

Section invariant.
Context `{J : JournalJson} {Hlaws : JournalJsonLaws J} `{CJ : CompactionJson}.
Context {Hclaws : CompactionJsonLaws J CJ}.
Implicit Types rows : gmap (string * string) ViewRow.

(** ** Leases *)

(** The token of the last lease that was taken, zero before the first. *)
Definition token_at (rows : gmap (string * string) ViewRow) (scope : Scope) : Z :=
  match rows !! (compaction_pk scope, LEASE_SORT_KEY) with
  | Some row =>
      match lease_decode scope (vr_payload row) with
      | Ok lease => lease_token lease
      | Err _ => 0
      end
  | None => 0
  end.

Lemma lease_decode_payload lease :
  lease_decode (cl_scope lease) (lease_payload lease) =
  Ok (Held (mkCompactionLease (cl_scope lease) (cl_owner lease) (cl_token lease)
    (cl_lease_expires_at lease) 0)).
Proof.
  unfold lease_decode, lease_payload. rewrite parse_lease_law. cbn [map_err result_bind lp_scope].
  by rewrite bool_decide_true.
Qed.

Lemma lease_decode_released scope token :
  lease_decode scope (released_payload scope token) = Ok (Released scope token).
Proof.
  unfold lease_decode, released_payload. rewrite parse_lease_law. cbn [map_err result_bind lp_scope].
  by rewrite bool_decide_true.
Qed.

(** A lease's payload determines its token. *)
Lemma lease_payload_token l l' :
  lease_payload l = lease_payload l' → cl_scope l = cl_scope l' → cl_token l = cl_token l'.
Proof.
  intros Hp Hs. pose proof (lease_decode_payload l) as H1. pose proof (lease_decode_payload l') as H2.
  rewrite Hp, Hs in H1. rewrite H2 in H1. by injection H1.
Qed.

(** ** Chunks *)

(** The text of a chunk. *)
Definition chunk_text (scope : Scope) (index from : Z) (texts : list string) : string :=
  bc_payload (builder_build (mkChunkBuilder scope index from texts 0)).

Lemma builder_build_text b :
  bc_payload (builder_build b) = chunk_text (cb_scope b) (cb_index b) (cb_from b) (cb_rows b).
Proof. done. Qed.

(** Entries of a journal and the texts of their rows. *)
Definition encodes (scope : Scope) (entries : list (Z * SerializedEvent)) (texts : list string) : Prop :=
  Forall2 (λ (entry : Z * SerializedEvent) text,
    encode_row scope entry.1 (as_encoded entry.2) = Ok text) entries texts.

(** The entries from a position on, as many as there are texts, are what the texts hold. *)
Definition holds_from (commits : Commits) (scope : Scope) (from : Z) (texts : list string) : Prop :=
  1 ≤ from ∧
  encodes scope (take (length texts) (drop (Z.to_nat (from - 1)) (journal_of commits scope))) texts.

Lemma encodes_length scope entries texts : encodes scope entries texts → length entries = length texts.
Proof. apply Forall2_length. Qed.

Lemma holds_from_bound commits scope from texts :
  holds_from commits scope from texts → texts ≠ [] →
  from + llen texts - 1 ≤ journal_length commits scope.
Proof.
  intros [Hf He] Hne. apply encodes_length in He. rewrite length_take, length_drop in He.
  assert (0 < length texts)%nat by (destruct texts; [done|simpl; lia]).
  unfold journal_length, llen. lia.
Qed.

Lemma holds_from_later commits commits' scope from texts :
  commits `prefix_of` commits' → holds_from commits scope from texts → holds_from commits' scope from texts.
Proof.
  intros Hp [Hf He]. split; [done|]. destruct (journal_of_prefix _ _ scope Hp) as [rest ->].
  destruct (decide (texts = [])) as [->|Hne]; [by rewrite take_0 in *|].
  assert (0 < length texts)%nat by (destruct texts; [done|simpl; lia]).
  pose proof (encodes_length _ _ _ He) as Hlen. rewrite length_take, length_drop in Hlen.
  rewrite drop_app_le by lia. rewrite take_app_le; [done|]. rewrite length_drop. lia.
Qed.

(** Consecutive texts hold consecutive entries. *)
Lemma holds_from_app commits scope from l k :
  holds_from commits scope from (l ++ k) ↔
  1 ≤ from ∧ holds_from commits scope from l ∧
  encodes scope (take (length k) (drop (Z.to_nat (from + llen l - 1)) (journal_of commits scope))) k.
Proof.
  unfold holds_from, encodes. rewrite length_app.
  assert (1 ≤ from → take (length l + length k) (drop (Z.to_nat (from - 1)) (journal_of commits scope)) =
    take (length l) (drop (Z.to_nat (from - 1)) (journal_of commits scope)) ++
    take (length k) (drop (Z.to_nat (from + llen l - 1)) (journal_of commits scope))) as Hsplit.
  { intros Hf. rewrite <-take_take_drop, drop_drop. f_equal. f_equal. f_equal. unfold llen. lia. }
  split.
  - intros [Hf He]. rewrite (Hsplit Hf) in He.
    pose proof (Forall2_length _ _ _ He) as Hlen. rewrite !length_app, !length_take, !length_drop in Hlen.
    apply Forall2_app_inv in He; [tauto|]. rewrite length_take, length_drop. lia.
  - intros (Hf & [_ Hl] & Hk). split; [done|]. rewrite (Hsplit Hf). by apply Forall2_app.
Qed.

(** ** The invariant *)

(** A chunk as it is stored. *)
Definition chunk_row (scope : Scope) (index from : Z) (texts : list string) : ViewRow :=
  compaction_view scope (chunk_sk index) (chunk_text scope index from texts).

Definition manifest_at (rows : gmap (string * string) ViewRow) (scope : Scope)
  : option CompactionManifest :=
  match rows !! (compaction_pk scope, MANIFEST_SORT_KEY) with
  | Some row =>
      match manifest_decode scope (vr_payload row) with Ok m => Some m | Err _ => None end
  | None => None
  end.

Lemma floor_manifest rows scope :
  floor_of rows scope = match manifest_at rows scope with Some m => mn_checkpoint m | None => 0 end.
Proof.
  unfold floor_of, manifest_at. destruct (rows !! _) as [row|]; [|done].
  by destruct (manifest_decode _ _).
Qed.

(** The chunks of a manifest: [parts] are the texts of each. *)
Record chunks_stored (commits : Commits) (rows : gmap (string * string) ViewRow) (scope : Scope)
    (digests : list string) (parts : list (list string)) : Prop := {
  st_length : length parts = length digests;
  st_nonempty : Forall (λ texts, texts ≠ []) parts;
  st_holds : holds_from commits scope 1 (concat parts);
  st_rows : ∀ i texts digest, parts !! i = Some texts → digests !! i = Some digest →
    let row := chunk_row scope (Z.of_nat i) (1 + llen (concat (take i parts))) texts in
    rows !! (compaction_pk scope, chunk_sk (Z.of_nat i)) = Some row ∧ digest = sha256_hex (vr_payload row)
}.

(** The manifest covers every entry through its checkpoint. *)
Definition covered (commits : Commits) (rows : gmap (string * string) ViewRow) (scope : Scope)
    (m : CompactionManifest) : Prop :=
  ∃ parts, chunks_stored commits rows scope (mn_chunks m) parts ∧ llen (concat parts) = mn_checkpoint m.

(** What a chunk may hold: consecutive entries, each chunk at least one. *)
Definition stored_chunk (commits : Commits) (scope : Scope) (index from : Z) (texts : list string) : Prop :=
  0 ≤ index < from ∧ texts ≠ [] ∧ holds_from commits scope from texts.

(** Chunks of one index with one digest are one chunk: SHA-256 does not collide on the chunks of the
    scope's journal. *)
Definition collision_free (commits : Commits) (scope : Scope) : Prop :=
  ∀ index from from' texts texts',
    stored_chunk commits scope index from texts → stored_chunk commits scope index from' texts' →
    sha256_hex (chunk_text scope index from texts) = sha256_hex (chunk_text scope index from' texts') →
    from = from' ∧ texts = texts'.

Record compaction_ok (commits : Commits) (rows : gmap (string * string) ViewRow) : Prop := {
  co_lease : ∀ scope row, rows !! (compaction_pk scope, LEASE_SORT_KEY) = Some row →
    check_compaction_row scope LEASE_SORT_KEY row = Ok row ∧
    ∃ lease, lease_decode scope (vr_payload row) = Ok lease ∧ 0 ≤ lease_token lease ≤ u64_max;
  co_chunk : ∀ scope index row, 0 ≤ index →
    rows !! (compaction_pk scope, chunk_sk index) = Some row →
    ∃ from texts, row = chunk_row scope index from texts ∧ stored_chunk commits scope index from texts;
  co_covered : ∀ scope m, collision_free commits scope →
    manifest_at rows scope = Some m → covered commits rows scope m
}.

Lemma stored_chunk_later commits commits' scope index from texts :
  commits `prefix_of` commits' → stored_chunk commits scope index from texts →
  stored_chunk commits' scope index from texts.
Proof.
  intros Hp (Hi & Hne & Hh). split; [done|]. split; [done|]. by eapply holds_from_later.
Qed.

Lemma collision_free_earlier commits commits' scope :
  commits `prefix_of` commits' → collision_free commits' scope → collision_free commits scope.
Proof.
  intros Hp Hf index from from' texts texts' H1 H2. apply Hf; by eapply stored_chunk_later.
Qed.

Lemma stored_chunk_bound commits scope index from texts :
  stored_chunk commits scope index from texts →
  index < from ∧ from + llen texts - 1 ≤ journal_length commits scope.
Proof. intros (Hi & Hne & Hh). split; [lia|]. by apply holds_from_bound. Qed.

Lemma compaction_ok_empty : compaction_ok [] ∅.
Proof.
  split.
  - intros scope row. by rewrite lookup_empty.
  - intros scope index row _. by rewrite lookup_empty.
  - intros scope m. unfold manifest_at. by rewrite lookup_empty.
Qed.

Lemma covered_later commits commits' rows rows' scope m :
  commits `prefix_of` commits' →
  (∀ sk, rows' !! (compaction_pk scope, sk) = rows !! (compaction_pk scope, sk)) →
  covered commits rows scope m → covered commits' rows' scope m.
Proof.
  intros Hp Hr (parts & [Hl Hne Hh Hrows] & Hlen). exists parts. split; [|done].
  split; [done|done|by eapply holds_from_later|]. intros i texts digest Hi Hd. rewrite Hr. by apply Hrows.
Qed.

(** What leaves the compaction partitions keeps the invariant. *)
Lemma compaction_ok_later commits commits' rows rows' :
  commits `prefix_of` commits' →
  (∀ scope sk, rows' !! (compaction_pk scope, sk) = rows !! (compaction_pk scope, sk)) →
  compaction_ok commits rows → compaction_ok commits' rows'.
Proof.
  intros Hp Hr [Hl Hc Hm]. split.
  - intros scope row. rewrite Hr. apply Hl.
  - intros scope index row Hi. rewrite Hr. intros Hrow.
    destruct (Hc scope index row Hi Hrow) as (from & texts & Heq & Hst).
    exists from, texts. split; [done|]. by eapply stored_chunk_later.
  - intros scope m Hfree. unfold manifest_at. rewrite Hr. intros Hma.
    apply (covered_later commits _ rows); [done|apply Hr|]. apply Hm; [|done]. by eapply collision_free_earlier.
Qed.
End invariant.
