(* ===== verification/JournalClients.v ===== *)
(** * Sending a journaled commit

    What a commit does to the log and to the view rows of the in-memory repository, for a commit to
    one stream and for a transaction alike: the interface the journal's retry loop is proved
    against. *)

From S2P Require Import Prelude Types Features Outcome Rebuild Projection Repository Mem.
From S2P Require Import MemInvariant MemRefinement MemSafety Program LogBackend MemBackend.
From S2P Require Import JournalScope JournalConfig JournalRead JournalRepository JournalStage.

(** ** Effects *)

(** A call that leaves the log and the view rows. *)
Definition quiet (a a' : Abs) (s s' : MemStore) : Prop := a' = a ∧ ms_views s' = ms_views s.

(** One commit took effect: its events are the newest of the sequence, the conditions of its view
    writes held, and the rows are what they say. *)
Definition took_effect (events : list SerializedEvent) (views : list ProjectedView)
    (a a' : Abs) (s s' : MemStore) : Prop :=
  ∃ batches, ab_commits a' = ab_commits a ++ [batches] ∧ concat (map snd batches) = events ∧
    NoDup (view_keys views) ∧ Forall (λ v, view_condition_held (ms_views s) (pv_op v) = true) views ∧
    ms_views s' = apply_views (ms_views s) views.

(** A commit that can be sent: the call, and the views it carries apart from its own list. *)
Class Sends (C : Type) `{!Staged C} := {
  send_call : C → Call Empty_set (Result (list SerializedEvent));
  carried : C → list ProjectedView
}.

Definition all_views {C} `{Sends C} (c : C) : list ProjectedView := carried c ++ staged_views c.

(** What the answer to a commit says. *)
Definition sent {C} `{Sends C} (c : C) (b : Result (list SerializedEvent))
    (a a' : Abs) (s s' : MemStore) : Prop :=
  match b with
  | Ok receipt =>
      receipt = concat (event_streams c) ∧
      ((event_streams c = [] ∧ quiet a a' s s') ∨
       took_effect (concat (event_streams c)) (all_views c) a a' s s')
  | Err _ => quiet a a' s s'
  end.

Class SendsLaws (C : Type) `{!SerdeJson} `{Sends C} : Prop := {
  carried_events : ∀ c streams,
    same_shape (event_streams c) streams → carried (with_event_streams c streams) = carried c;
  carried_views : ∀ c views, carried (with_staged_views c views) = carried c;
  send_law : ∀ o (c : C) a w w' b,
    mem_represents a w → mem_answer o (send_call c) w = (w', b) →
    ∃ a', abs_le a a' ∧ mem_represents a' w' ∧ sent c b a a' (w_store w) (w_store w')
}.

(** ** Writes *)

Section writes.
Context `{SerdeJson}.

(** A write that succeeded, as the journal sees it. *)
Lemma written_effect {X} a s (streams : list (Commit X)) fences views outcome s' m :
  check_views views = Ok tt → written (set_manifest s m) streams fences views outcome s' →
  took_effect (concat (map cm_events streams)) views a (abs_after a streams outcome) s s'.
Proof.
  intros [_ Hnd]%check_views_ok Hw. exists (batches_of streams). split; [done|].
  split; [unfold batches_of; by rewrite map_map|]. split; [done|].
  split; [exact (wr_views _ _ _ _ _ _ Hw)|]. by rewrite (wr_store _ _ _ _ _ _ Hw).
Qed.

Lemma written_represents {X} a w (streams : list (Commit X)) fences views outcome r' m :
  mem_represents a w → Forall commit_ok streams → NoDup (map cm_entity_id streams) →
  written (set_manifest (w_store w) m) streams fences views outcome (mr_store r') →
  abs_le a (abs_after a streams outcome) ∧
  mem_represents (abs_after a streams outcome) (with_repository w r').
Proof.
  intros (Hr & Hok & Hnum) Hall Hnd Hw.
  apply (refines_set_manifest _ _ m) in Hr. apply (set_manifest_ok _ m) in Hok.
  destruct (abs_after_le a _ _ _ _ _ _ Hr Hok Hall Hnd Hw) as (Hle & Hr' & Hok' & Hnum').
  split; [done|]. split; [done|]. split; [done|]. by apply Hnum'.
Qed.

(** A commit that failed. *)
Lemma failed_quiet a w r' :
  mem_represents a w → store_ok (mr_store r') → same_but_marker (w_repository w) r' →
  mem_represents a (with_repository w r') ∧ quiet a a (w_store w) (mr_store r').
Proof.
  intros Hrep Hok Hsm. split; [|split; [done|exact (sm_views _ _ Hsm)]].
  apply untouched_represents; [done| |done]. destruct Hsm. by split.
Qed.

(** ** One stream *)

#[export] Instance commit_sends : Sends (Commit Empty_set) :=
  {| send_call := QCommit; carried := λ _, [] |}.

Lemma commit_streams (c : Commit Empty_set) : concat (event_streams c) = cm_events c.
Proof. simpl. destruct (cm_events c); [done|]. simpl. by rewrite app_nil_r. Qed.

#[export] Instance commit_sends_laws : SendsLaws (Commit Empty_set).
Proof.
  split; [done|done|]. intros o c a w w' b Hrep. simpl. unfold with_receipt.
  destruct (mem_commit c (w_repository w)) as [r' res] eqn:Hc. intros [= <- <-].
  pose proof (mem_commit_preserves c (w_repository w)) as Hok. rewrite Hc in Hok. simpl in Hok.
  specialize (Hok (proj1 (proj2 Hrep))).
  destruct res as [[]|e].
  2: { apply mem_commit_failed in Hc. destruct (failed_quiet a w r' Hrep Hok Hc) as [H1 H2].
       exists a. by split. }
  destruct (mem_commit_result c _ _ _ Hc) as [(e & [=] & _)|[(_ & Hev & _ & ->)|(_ & Hcok & m & Hw)]].
  - exists a. split; [done|]. split; [done|]. split; [by rewrite commit_streams|]. left.
    simpl. by rewrite Hev.
  - destruct (written_represents a w [c] [] (cm_views c) (stored_outcome c) r' m Hrep) as [Hle Hrep']; [by apply Forall_singleton|apply NoDup_singleton|done|].
    eexists. split; [exact Hle|]. split; [done|]. split; [by rewrite commit_streams|]. right.
    rewrite commit_streams. replace (cm_events c) with (concat (map cm_events [c]))
      by (simpl; by rewrite app_nil_r).
    eapply (written_effect a _ _ _ _ _ _ m); [|done]. apply validate_views.
    revert Hc. unfold mem_commit, guarded. destruct (result_bind _ _) as [[]|] eqn:Hv; [|done].
    by apply check_bind_ok in Hv as [Hv _].
Qed.

(** ** Transactions *)

Lemma canonical_events {X} (streams : list (Commit X)) :
  map (events_at streams) (canonical_order streams) =
  map cm_events (sort_by (λ a b, string_leb (cm_entity_id a) (cm_entity_id b))
    (List.filter has_events streams)).
Proof.
  unfold canonical_order.
  assert (List.filter has_events streams =
    map snd (List.filter (λ s : nat * Commit X, has_events s.2) (imap pair streams))) as ->.
  { rewrite <-(filter_map snd has_events). f_equal. change (map snd ?l) with (snd <$> l).
    rewrite fmap_imap. apply list_eq. intros i. rewrite list_lookup_imap. by destruct (streams !! i). }
  rewrite (sort_by_map snd (λ a b : nat * Commit X, string_leb (cm_entity_id a.2) (cm_entity_id b.2))) by done.
  rewrite !map_map. apply map_ext_in. intros [i stream] Hin%list_elem_of_In.
  rewrite elem_of_sort_by, elem_of_list_filter, elem_of_imap_pair in Hin. destruct Hin as [Hi _].
  unfold events_at. simpl. by rewrite Hi.
Qed.

Lemma transaction_streams (t : TransactionCommit Empty_set) :
  concat (event_streams t) = receipt_of_transaction t.
Proof. simpl. by rewrite canonical_events. Qed.

#[export] Instance transaction_sends : Sends (TransactionCommit Empty_set) :=
  {| send_call := QCommitTransaction;
     carried t := concat (map cm_views (List.filter has_events (tc_streams t))) |}.

(** What a stream carries does not change with its events. *)
Definition carries (stream : Commit Empty_set) : bool * list ProjectedView :=
  (has_events stream, cm_views stream).

Lemma carried_carries streams :
  concat (map cm_views (List.filter has_events streams)) =
  concat (map (λ x : bool * list ProjectedView, if x.1 then x.2 else []) (map carries streams)).
Proof.
  induction streams as [|stream rest IH]; [done|]. simpl. destruct (has_events stream); simpl; by rewrite IH.
Qed.

#[export] Instance transaction_sends_laws : SendsLaws (TransactionCommit Empty_set).
Proof.
  split; [|done|].
  - intros t ss Hs. cbn [carried transaction_sends]. rewrite !carried_carries.
    destruct (same_shape_entries t ss Hs) as [Hfst Hall].
    cbn [with_event_streams staged_transaction with_transaction_streams tc_streams].
    fold (put_events (zip (canonical_order (tc_streams t)) ss) (tc_streams t)).
    rewrite (put_events_map carries); [done| |rewrite Hfst; apply canonical_order_NoDup|done].
    intros stream events Hev Hne. unfold carries. by rewrite has_events_with, Hev.
  - intros o t a w w' b Hrep. simpl. unfold with_receipt.
    destruct (mem_commit_transaction t (w_repository w)) as [r' res] eqn:Hc. intros [= <- <-].
    pose proof (mem_commit_transaction_preserves t (w_repository w)) as Hok.
    rewrite Hc in Hok. simpl in Hok. specialize (Hok (proj1 (proj2 Hrep))).
    destruct res as [[]|e].
    2: { apply mem_commit_transaction_failed in Hc.
         destruct (failed_quiet a w r' Hrep Hok Hc) as [H1 H2]. exists a. by split. }
    revert Hc. unfold mem_commit_transaction, guarded.
    destruct (normalize t) as [t'|] eqn:Hn; [|done]. apply normalize_ok in Hn as Hnz.
    pose proof (normalize_views _ _ Hn) as Hv.
    destruct (transaction_is_empty t') eqn:Hempty.
    { intros [= <-]. exists a. split; [done|]. split; [done|]. cbn [sent result_bind].
      rewrite transaction_streams. split; [done|]. left. split; [|done].
      unfold transaction_is_empty in Hempty. rewrite !andb_true_iff in Hempty.
      destruct Hempty as ((((Hs & _) & _) & _) & _). destruct (tc_streams t') eqn:Hst; [|done].
      pose proof (nz_streams _ _ Hnz) as Hp. rewrite Hst in Hp. apply Permutation_nil_l in Hp.
      cbn [event_streams staged_transaction]. rewrite canonical_events.
      destruct (List.filter has_events (tc_streams t)); [done|discriminate]. }
    destruct (result_bind _ _) as [[]|e] in |- *; [|done].
    intros [(e & [=] & _)|(_ & m & Hw)]%mem_write_result.
    destruct (written_represents a w (tc_streams t') (tc_fences t') (tc_views t')
      (transaction_stored_outcome t') r' m Hrep) as [Hle Hrep'];
      [by eapply normalized_commit_ok|apply Hnz|done|].
    eexists. split; [exact Hle|]. split; [done|]. cbn [sent result_bind].
    rewrite transaction_streams. split; [done|]. right.
    unfold all_views. cbn [carried transaction_sends staged_views staged_transaction]. rewrite <-Hv.
    rewrite <-(nz_receipt _ _ Hnz). eapply (written_effect a _ _ _ _ _ _ m); [apply Hnz|done].
Qed.
End writes.

(** * Reads of a journal

    What the in-memory repository's journal reads return in a store that keeps the journal
    invariant: the counter is the journal's length, and the rows are those of its entries. *)

From S2P Require Import Retry.
From S2P Require Import Compaction JournalInvariant.

(** ** Ranges of an ordered map *)

(** What holds of the smaller of two entries holds up to some point of a sorted list. *)
Lemma take_while_filter {A} (R : A → A → Prop) (p : A → bool) l :
  StronglySorted R l → (∀ x y, x ∈ l → y ∈ l → R x y → p y = true → p x = true) →
  take_while p l = List.filter p l.
Proof.
  induction 1 as [|x l Hs IH Hx]; intros Hp; [done|]. cbn [take_while List.filter].
  destruct (p x) eqn:Hpx.
  - f_equal. apply IH. intros y z Hy Hz. apply Hp; by apply list_elem_of_further.
  - destruct (List.filter p l) as [|y rest] eqn:Hf; [done|]. exfalso.
    assert (y ∈ List.filter p l) as Hy by (rewrite Hf; apply list_elem_of_here).
    apply elem_of_list_filter in Hy as [Hy Hpy]. rewrite Forall_forall in Hx.
    rewrite (Hp x y) in Hpx; [done|apply list_elem_of_here|by apply list_elem_of_further| |done].
    by apply Hx.
Qed.

(** The entries of a partition above a bound within it. *)
Lemma partition_rows_spec s bound pk :
  (∀ key, bound key = true → string_leb pk key.1 = true) →
  StronglySorted (λ a b : (string * string) * ViewRow, key_leb a.1 b.1 = true) (partition_rows s bound pk) ∧
  NoDup (map fst (partition_rows s bound pk)) ∧
  ∀ key row, (key, row) ∈ partition_rows s bound pk ↔
    ms_views s !! key = Some row ∧ key.1 = pk ∧ bound key = true.
Proof.
  intros Hb. unfold partition_rows, range_from.
  pose proof (btree_entries_sorted key_leb key_leb_total key_leb_trans (ms_views s)) as Hs.
  pose proof (btree_entries_NoDup key_leb (ms_views s)) as Hnd.
  assert (∀ key row, (key, row) ∈ btree_entries key_leb (ms_views s) ↔ ms_views s !! key = Some row) as Hl
    by (intros; apply elem_of_btree_entries).
  revert Hs Hnd Hl. generalize (btree_entries key_leb (ms_views s)). intros l Hs Hnd Hl.
  rewrite (take_while_filter _ _ _ (StronglySorted_filter _ _ _ Hs)).
  - split; [by repeat apply StronglySorted_filter|]. split; [by repeat apply NoDup_map_filter|].
    intros key row. rewrite !elem_of_list_filter, Hl, bool_decide_eq_true. simpl. tauto.
  - intros [x rx] [y ry] Hx _ Hxy. simpl in Hxy |- *. rewrite !bool_decide_eq_true. intros Hy.
    apply elem_of_list_filter in Hx as [_ Hx]. simpl in Hx. apply Hb in Hx.
    apply key_leb_fst in Hxy. rewrite Hy in Hxy. by apply string_leb_antisym.
Qed.

Lemma after_key_bound pk sk key : after_key (pk, sk) key = true → string_leb pk key.1 = true.
Proof.
  unfold after_key. rewrite negb_true_iff. intros Hk.
  destruct (key_leb_total key (pk, sk)) as [?|Hle]; [congruence|]. by apply key_leb_fst in Hle.
Qed.

(** Within a partition a key is above another when its sort key is. *)
Lemma after_key_within pk sk sk' : after_key (pk, sk) (pk, sk') = string_ltb sk sk'.
Proof.
  rewrite string_ltb_leb. unfold after_key, key_leb. simpl. rewrite bool_decide_true by done.
  assert (string_ltb pk pk = false) as ->; [|done].
  rewrite string_ltb_leb. apply negb_false_iff. by destruct (string_leb_total pk pk).
Qed.

Lemma key_leb_within pk sk sk' : key_leb (pk, sk) (pk, sk') = string_leb sk sk'.
Proof.
  pose proof (after_key_within pk sk' sk) as Hk. rewrite string_ltb_leb in Hk. unfold after_key in Hk.
  by apply (f_equal negb) in Hk; rewrite !negb_involutive in Hk.
Qed.

Lemma row_sk_ltb p q :
  0 ≤ p ≤ u64_max → 0 ≤ q ≤ u64_max → string_ltb (row_sk p) (row_sk q) = (p <? q).
Proof.
  intros Hp Hq. unfold string_ltb, String.ltb. rewrite row_sk_compare by done. unfold Z.ltb.
  by destruct (p ?= q).
Qed.

(** Without repeats, a sorted list is strictly sorted. *)
Lemma StronglySorted_strict {K V} (R : K * V → K * V → Prop) l :
  StronglySorted R l → NoDup (map fst l) → StronglySorted (λ a b, R a b ∧ a.1 ≠ b.1) l.
Proof.
  induction 1 as [|x l Hs IH Hx]; intros Hnd; [constructor|].
  simpl in Hnd. apply NoDup_cons in Hnd as [Hnin Hnd]. constructor; [by apply IH|].
  rewrite Forall_forall in Hx |- *. intros y Hy. split; [by apply Hx|]. intros Heq. apply Hnin.
  rewrite Heq. by apply (list_elem_of_fmap_2 fst).
Qed.

Lemma collect_total {A B E} (f : A → result B E) l :
  (∀ x, x ∈ l → ∃ y, f x = Ok y) → ∃ ys, collect f l = Ok ys.
Proof.
  induction l as [|x l IH]; intros Hall; [by exists []|].
  destruct (Hall x) as [y Hy]; [apply list_elem_of_here|].
  destruct IH as [ys Hys]; [intros z Hz; apply Hall; by apply list_elem_of_further|].
  exists (y :: ys). simpl. by rewrite Hy, Hys.
Qed.

Lemma Forall2_StronglySorted {A B} (P : A → B → Prop) (R : A → A → Prop) (S : B → B → Prop) l k :
  Forall2 P l k → StronglySorted R l →
  (∀ x y x' y', x ∈ l → y ∈ l → P x x' → P y y' → R x y → S x' y') → StronglySorted S k.
Proof.
  intros Hall. induction Hall as [|x x' l k Hx Hall IH]; intros Hs HR; [constructor|].
  apply StronglySorted_inv in Hs as [Hs' Hx']. constructor.
  - apply IH; [done|]. intros a b a' b' Ha Hb. apply HR; by apply list_elem_of_further.
  - rewrite Forall_forall in Hx'. apply Forall_forall. intros y' Hy'.
    destruct (elem_of_Forall2_r _ _ _ _ Hall Hy') as (y & Hy & Hp).
    apply (HR x y); [apply list_elem_of_here|by apply list_elem_of_further|done|done|by apply Hx'].
Qed.

Lemma as_encoded_idem event : as_encoded (as_encoded event) = as_encoded event.
Proof.
  destruct event as [id n ty v eid ety payload [cid trace origin address region time pid causation ext commit]].
  unfold as_encoded, effective_causation_id. by destruct causation, cid.
Qed.

Section reads.
Context `{J : JournalJson} {Hlaws : JournalJsonLaws J} `{CompactionJson}.
Context (commits : Commits) (s : MemStore) (Hok : journal_ok commits (ms_views s)).

(** The row of an entry, as a reader decodes it. *)
Definition journal_row (scope : Scope) (entry : Z * SerializedEvent) : JournalRow :=
  mkJournalRow scope entry.1 (ev_entity_id entry.2) (as_encoded entry.2).

Lemma read_counter_ok scope : mem_read_counter s scope = Ok (journal_length commits scope).
Proof.
  unfold mem_read_counter, mem_view. rewrite (jk_counter _ _ Hok).
  destruct (Z.eqb_spec (journal_length commits scope) 0) as [->|_]; [done|]. apply read_counter_view.
Qed.

Lemma read_last_position_ok scope :
  ∃ p, mem_read_last_position s scope = Ok p ∧ 0 ≤ p ≤ journal_length commits scope.
Proof.
  unfold mem_read_last_position. pose proof (journal_length_nonneg commits scope).
  destruct (partition_rows_spec s (λ key, key_leb (row_pk scope, EmptyString) key) (row_pk scope))
    as (_ & _ & Hin); [intros key Hk; by apply key_leb_fst in Hk|].
  destruct (last _) as [[[pk sk] row]|] eqn:Hl; [|exists 0; split; [done|lia]].
  apply last_Some_elem_of, Hin in Hl as (Hrow & Hpk & _). simpl in Hpk. subst pk.
  destruct (jk_only _ _ Hok _ _ _ Hrow) as (p & e & He & -> & _).
  pose proof (journal_position _ _ _ _ _ Hok He). pose proof (jk_bound _ _ Hok scope).
  exists p. rewrite (proj2 (parse_row_sk_spec _ p)) by (split; [done|lia]). split; [done|lia].
Qed.

(** The rows that are left above a position, in the order of their positions. *)
Lemma read_rows_ok scope after :
  0 ≤ after ≤ u64_max →
  ∃ rows : list JournalRow, (∀ limit, mem_read_rows s scope after limit = Ok (take (Z.to_nat limit) rows)) ∧
    StronglySorted (λ a b, jr_position a < jr_position b) rows ∧
    ∀ row, row ∈ rows ↔ ∃ entry, entry ∈ journal_of commits scope ∧ row = journal_row scope entry ∧
      after < entry.1 ∧ is_Some (ms_views s !! (row_pk scope, row_sk entry.1)).
Proof.
  intros Hafter. set (l := partition_rows s (after_key (row_pk scope, row_sk after)) (row_pk scope)).
  destruct (partition_rows_spec s (after_key (row_pk scope, row_sk after)) (row_pk scope))
    as (Hsort & Hnd & Hin); [apply after_key_bound|]. fold l in Hsort, Hnd, Hin.
  assert (∀ x, x ∈ l → ∃ entry, row_from_view scope x.2 = Ok (journal_row scope entry) ∧
    entry ∈ journal_of commits scope ∧ x.1 = (row_pk scope, row_sk entry.1) ∧
    0 ≤ entry.1 ≤ u64_max ∧ after < entry.1) as Hdec.
  { intros [[pk sk] v] (Hrow & Hpk & Hb)%Hin. simpl in Hpk, Hrow. subst pk.
    destruct (jk_only _ _ Hok _ _ _ Hrow) as (p & e & He & -> & Hv).
    pose proof (journal_position _ _ _ _ _ Hok He). pose proof (jk_bound _ _ Hok scope).
    rewrite after_key_within, row_sk_ltb in Hb by lia. exists (p, e).
    split.
    { rewrite (row_from_view_row scope p (as_encoded e) v) by (done || lia). by rewrite as_encoded_idem. } split; [done|]. split; [done|]. simpl. lia. }
  destruct (collect_total (λ entry : (string * string) * ViewRow, row_from_view scope entry.2) l)
    as [rows Hrows]; [intros x Hx; destruct (Hdec x Hx) as (entry & ? & _); eauto|].
  apply collect_ok in Hrows. exists rows. split; [|split].
  - intros limit. unfold mem_read_rows. fold l. apply collect_ok. by apply Forall2_take.
  - apply (Forall2_StronglySorted _ _ _ _ _ Hrows
      (StronglySorted_strict _ _ Hsort Hnd)).
    intros x y x' y' Hx Hy Hpx Hpy [Hle Hne]. cbv beta in Hpx, Hpy.
    destruct (Hdec x Hx) as (ex & Hdx & _ & Hkx & Hrx & _).
    destruct (Hdec y Hy) as (ey & Hdy & _ & Hky & Hry & _).
    rewrite Hpx in Hdx. rewrite Hpy in Hdy. injection Hdx as ->. injection Hdy as ->. simpl.
    rewrite Hkx, Hky, key_leb_within in Hle. rewrite Hkx, Hky in Hne.
    destruct (Z.lt_trichotomy ex.1 ey.1) as [?|[Heq|Hgt]]; [done|by rewrite Heq in Hne|].
    apply Z.ltb_lt in Hgt. rewrite <-row_sk_ltb, string_ltb_leb, Hle in Hgt by done. done.
  - intros row. split.
    + intros Hrow. destruct (elem_of_Forall2_r _ _ _ _ Hrows Hrow) as (x & Hx & Hp).
      destruct (Hdec x Hx) as (entry & Hd & Hj & Hk & _ & Hlt). cbv beta in Hp. rewrite Hd in Hp.
      injection Hp as <-. exists entry. split; [done|]. split; [done|]. split; [done|].
      destruct x as [key v]. simpl in Hk. subst key. apply Hin in Hx as [Hx _]. by exists v.
    + intros ([p e] & Hj & -> & Hlt & v & Hv). simpl in Hlt, Hv.
      pose proof (journal_position _ _ _ _ _ Hok Hj). pose proof (jk_bound _ _ Hok scope).
      assert (((row_pk scope, row_sk p), v) ∈ l) as Hx.
      { apply Hin. split; [done|]. split; [done|]. rewrite after_key_within, row_sk_ltb by lia. lia. }
      destruct (elem_of_Forall2_l _ _ _ _ Hrows Hx) as (row & Hrow & Hp). cbv beta in Hp.
      destruct (Hdec _ Hx) as ([p' e'] & Hd & Hj' & Hk & Hr & _). rewrite Hd in Hp.
      injection Hp as Hp. simpl in Hk, Hr. apply (f_equal snd) in Hk. simpl in Hk. apply row_sk_inj in Hk; [|lia..].
      subst p'. rewrite (journal_unique _ _ _ _ _ _ Hok Hj Hj'). by rewrite Hp.
Qed.
End reads.

(** * Clients of a journal

    The journal repository and the readers of a journal, run on the in-memory repository with any
    number of others: what each keeps true and what it may rely on. *)

From S2P Require Import Compact CompactInvariant.

(** The log the world stands for, the world, and which client took the lease of each token: the
    last is only reasoned about. *)
Record Ghost := mkGhost {
  gh_abs : Abs;
  gh_world : JWorld;
  gh_owners : Scope → Z → option nat
}.

Definition rows_of (g : Ghost) : gmap (string * string) ViewRow := ms_views (jw_store (gh_world g)).
Definition commits_of (g : Ghost) : Commits := ab_commits (gh_abs g).

Section clients.
Context `{SJ : SerdeJson} `{J : JournalJson} {Hlaws : JournalJsonLaws J} `{CJ : CompactionJson}.

(** ** The log behind the calls *)

Definition quietly (g g' : Ghost) : Prop :=
  quiet (gh_abs g) (gh_abs g') (jw_store (gh_world g)) (jw_store (gh_world g')).

Definition sent_as {C} `{Sends C} (c : C) (g g' : Ghost) (b : Result (list SerializedEvent)) : Prop :=
  sent c b (gh_abs g) (gh_abs g') (jw_store (gh_world g)) (jw_store (gh_world g')).

Definition repository_effect {B} (q : Call Empty_set B) (g g' : Ghost) : B → Prop :=
  match q in Call _ B return B → Prop with
  | QCommit c => sent_as c g g'
  | QCommitTransaction t => sent_as t g g'
  | QRandom => λ b, 0 ≤ b ∧ quietly g g'
  | _ => λ _, quietly g g'
  end.

(** What a compaction's write did: all of it, its conditions having held, or nothing. *)
Definition written_as (writes : list CompactionWrite) (rows rows' : gmap (string * string) ViewRow)
    (b : Result CompactionWritten) : Prop :=
  match b with
  | Ok Written =>
      check_compaction_writes writes = Ok tt ∧ Forall (λ w, write_met rows w = true) writes ∧
      rows' = fold_left apply_write writes rows
  | Ok (Refused at_) => rows' = rows ∧ 0 ≤ at_ < llen writes
  | _ => rows' = rows
  end.

Definition journal_effect {B} (q : JCall Empty_set B) (g g' : Ghost) : B → Prop :=
  match q in JCall _ B return B → Prop with
  | JRepository q => repository_effect q g g'
  | JWriteCompaction _ writes => λ b,
      gh_abs g' = gh_abs g ∧ written_as writes (rows_of g) (rows_of g') b
  | _ => λ _, quietly g g'
  end.

(** No lease has been taken so often that its token would wrap. *)
Definition tokens_below (w : JWorld) : Prop := ∀ scope, token_at (ms_views (jw_store w)) scope < u64_max.

(** The in-memory repository, as long as that is so. *)
Definition bounded_backend : Handles (JCall Empty_set) JWorld :=
  λ B q w b w', performs q w b w' ∧ tokens_below w'.

(** A token that was not there before is the client's that brought it. *)
Definition acquired (i : nat) (rows rows' : gmap (string * string) ViewRow)
    (owners : Scope → Z → option nat) (scope : Scope) (token : Z) : option nat :=
  if decide (token_at rows' scope = token ∧ token_at rows scope ≠ token) then Some i
  else owners scope token.

(** What every call of client [i] does to the log and to the owners. *)
Record stepped (i : nat) (g g' : Ghost) : Prop := {
  sp_below : tokens_below (gh_world g');
  sp_represents : mem_represents (gh_abs g') (jw_world (gh_world g'));
  sp_abs : abs_le (gh_abs g) (gh_abs g');
  sp_owners : ∀ scope token, gh_owners g' scope token =
    acquired i (rows_of g) (rows_of g') (gh_owners g) scope token
}.

Definition client_handler (i : nat) : Handles (JCall Empty_set) Ghost :=
  λ B q g b g',
    performs q (gh_world g) b (gh_world g') ∧ stepped i g g' ∧ journal_effect q g g' b.

Lemma represents_ext a w w' :
  mem_represents a w → ms_streams (w_store w') = ms_streams (w_store w) →
  ms_outcomes (w_store w') = ms_outcomes (w_store w) → store_ok (w_store w') → mem_represents a w'.
Proof.
  intros ([Hh He Ho] & _ & Hnum) Hs Hout Hok. split; [split|by split].
  - intros id. rewrite Hs. apply Hh.
  - intros id k e. rewrite Hs. apply He.
  - by rewrite Hout.
Qed.

Lemma put_snapshot_views sn r : ms_views (mr_store (mem_put_snapshot sn r).1) = ms_views (mr_store r).
Proof.
  unfold mem_put_snapshot, guarded. destruct (check_not_reserved _); [|done].
  destruct (check_manifest r) as [[m v]|]; [|done]. destruct (_ && _); [done|].
  by match goal with |- context [if ?c then _ else _] => destruct c end.
Qed.

Lemma repository_law g B (q : Call Empty_set B) o w' b :
  mem_represents (gh_abs g) (jw_world (gh_world g)) → 0 ≤ or_random o →
  mem_answer o q (jw_world (gh_world g)) = (w', b) →
  ∃ a', abs_le (gh_abs g) a' ∧ mem_represents a' w' ∧
    ∀ owners, repository_effect q g (mkGhost a' (with_world (gh_world g) w') owners) b.
Proof.
  intros Hrep Ho Hans. destruct g as [a w owners]. simpl in Hrep, Hans.
  destruct q; cbn [mem_answer] in Hans;
    try (injection Hans as <- <-; exists a; split; [done|]; split; [exact Hrep|]; done).
  - change (mem_answer o (send_call commit) (jw_world w) = (w', b)) in Hans.
    destruct (send_law _ _ _ _ _ _ Hrep Hans) as (a' & Hle & Hrep' & Hs). by exists a'.
  - change (mem_answer o (send_call commit) (jw_world w) = (w', b)) in Hans.
    destruct (send_law _ _ _ _ _ _ Hrep Hans) as (a' & Hle & Hrep' & Hs). by exists a'.
  - destruct (mem_put_snapshot snapshot (w_repository (jw_world w))) as [r' res] eqn:Hp.
    injection Hans as <- <-. destruct (put_snapshot_law a _ snapshot r' res Hrep Hp) as [Hrep' _].
    exists a. split; [done|]. split; [done|]. intros owners'. split; [done|].
    pose proof (put_snapshot_views snapshot (w_repository (jw_world w))) as Hv. by rewrite Hp in Hv.
  - exists a. split; [done|]. unfold mem_declare_history in Hans.
    destruct (nil_b _); injection Hans as <- <-; [by destruct w as [[]]|].
    split; [|done]. destruct Hrep as (Hr & Hok & Hnum).
    split; [by apply refines_set_manifest|split; [by apply set_manifest_ok|done]].
Qed.

Lemma write_compaction_keyed writes rows :
  (∀ key row, rows !! key = Some row → key = (vr_pk row, vr_sk row)) →
  ∀ key row, fold_left apply_write writes rows !! key = Some row → key = (vr_pk row, vr_sk row).
Proof.
  revert rows. induction writes as [|write writes IH]; intros rows Hk; [done|]. simpl. apply IH.
  intros key row. destruct write as [new|pk sk|]; simpl; [| |by apply Hk].
  - destruct (decide ((vr_pk new, vr_sk new) = key)) as [<-|Hne].
    + rewrite lookup_insert_eq. by intros [= <-].
    + rewrite lookup_insert_ne by done. by apply Hk.
  - rewrite lookup_delete_Some. intros [_ ?]. by apply Hk.
Qed.

Lemma first_unmet_some rows writes : ∀ start at_,
  first_unmet rows start writes = Some at_ → start ≤ at_ < start + llen writes.
Proof.
  unfold llen. induction writes as [|write writes IH]; intros start at_; simpl; [done|].
  destruct (write_met rows write); [|intros [= ->]; lia]. intros Hu. apply IH in Hu. lia.
Qed.

Lemma first_unmet_none rows writes start :
  first_unmet rows start writes = None → Forall (λ w, write_met rows w = true) writes.
Proof.
  revert start. induction writes as [|write writes IH]; intros start; simpl; [constructor|].
  destruct (write_met rows write) eqn:Hm; [|done]. intros Hu. constructor; [done|]. by eapply IH.
Qed.

(** A compaction's write on the in-memory repository. *)
Lemma write_compaction_law a w epoch writes r' b :
  mem_represents a w → mem_write_compaction epoch writes (w_repository w) = (r', b) →
  mem_represents a (with_repository w r') ∧
  written_as writes (ms_views (w_store w)) (ms_views (mr_store r')) b.
Proof.
  intros Hrep. unfold mem_write_compaction, guarded.
  destruct (check_compaction_writes writes) as [[]|] eqn:Hcheck; [|intros [= <- <-]; by destruct w].
  match goal with |- context [if ?c then _ else _] => destruct c end; [intros [= <- <-]; by destruct w|].
  destruct (first_unmet _ _ _) as [at_|] eqn:Hu; intros [= <- <-].
  - split; [by destruct w|]. split; [done|]. apply first_unmet_some in Hu. lia.
  - split; [|split; [done|]; split; [|done]; by eapply first_unmet_none].
    eapply represents_ext; [exact Hrep|done|done|]. destruct Hrep as (_ & [Hs Hv Hout Hreb] & _).
    split; [exact Hs| |exact Hout|exact Hreb]. simpl. by apply write_compaction_keyed.
Qed.

(** Every call keeps the log represented. *)
Lemma journal_law i (g : Ghost) B (q : JCall Empty_set B) b w' :
  mem_represents (gh_abs g) (jw_world (gh_world g)) →
  @performs _ _ bounded_backend _ q (gh_world g) b w' →
  ∃ g', gh_world g' = w' ∧ @performs _ _ (client_handler i) _ q g b g'.
Proof.
  intros Hrep [(o & Ho & Hans) Hbelow].
  assert (∀ a', abs_le (gh_abs g) a' → mem_represents a' (jw_world w') →
    (∀ owners, journal_effect q g (mkGhost a' w' owners) b) →
    ∃ g', gh_world g' = w' ∧ @performs _ _ (client_handler i) _ q g b g') as Hgo.
  { intros a' Hle Hrep' Heff.
    exists (mkGhost a' w' (acquired i (rows_of g) (ms_views (jw_store w')) (gh_owners g))).
    split; [done|]. split; [by exists o|]. split; [by split|]. apply Heff. }
  destruct q; cbn [mem_journal_answer] in Hans; try (injection Hans as <- <-;
    apply (Hgo (gh_abs g)); [done|exact Hrep|done]).
  - destruct (mem_answer (jx_oracle o) q (jw_world (gh_world g))) as [w1 b1] eqn:Ha.
    injection Hans as <- <-.
    destruct (repository_law g B q _ _ _ Hrep Ho Ha) as (a' & Hle & Hrep' & Heff). by apply (Hgo a').
  - injection Hans as <- <-. apply (Hgo (gh_abs g)); [done| |done].
    destruct Hrep as (Hr & Hok & Hnum).
    split; [by apply refines_set_manifest|split; [by apply set_manifest_ok|done]].
  - destruct (mem_write_compaction epoch writes _) as [r' b1] eqn:Hw. injection Hans as <- <-.
    destruct (write_compaction_law _ _ _ _ _ _ Hrep Hw) as [Hrep' Hwr]. by apply (Hgo (gh_abs g)).
Qed.

(** ** The invariant *)

(** What every client of a journal keeps. *)
Record journal_inv (g : Ghost) : Prop := {
  ji_represents : mem_represents (gh_abs g) (jw_world (gh_world g));
  ji_journal : journal_ok (commits_of g) (rows_of g);
  ji_compaction : compaction_ok (commits_of g) (rows_of g);
  ji_owners : ∀ scope token i, gh_owners g scope token = Some i → token ≤ token_at (rows_of g) scope;
  ji_below : tokens_below (gh_world g)
}.

(** The log grows, a scope's journal is never uncompacted, a lease is not given back, and a token's
    owner stays. *)
Record journal_le (g g' : Ghost) : Prop := {
  jl_abs : abs_le (gh_abs g) (gh_abs g');
  jl_floor : ∀ scope, floor_of (rows_of g) scope ≤ floor_of (rows_of g') scope;
  jl_token : ∀ scope, token_at (rows_of g) scope ≤ token_at (rows_of g') scope;
  jl_owners : ∀ scope token i, gh_owners g scope token = Some i → gh_owners g' scope token = Some i
}.

#[export] Instance journal_le_preorder : PreOrder journal_le.
Proof.
  split; [by intros g|]. intros g1 g2 g3 [H1 F1 T1 O1] [H2 F2 T2 O2]. split; [by etrans| | |auto].
  - intros scope. etrans; [apply F1|apply F2].
  - intros scope. etrans; [apply T1|apply T2].
Qed.

Definition length_of (g : Ghost) (scope : Scope) : Z := journal_length (commits_of g) scope.

Lemma journal_le_commits g g' : journal_le g g' → commits_of g `prefix_of` commits_of g'.
Proof. by intros [(_ & _ & Hc) _ _ _]. Qed.

Lemma length_le g g' scope : journal_le g g' → length_of g scope ≤ length_of g' scope.
Proof.
  intros Hc%journal_le_commits. pose proof (prefix_length _ _ (journal_of_prefix _ _ scope Hc)).
  unfold length_of, journal_length, llen. lia.
Qed.

(** ** Roles *)

(** As long as client [i] has the lease of a scope, the others leave the scope's compaction. *)
Definition left_alone (i : nat) (g g' : Ghost) : Prop :=
  ∀ scope, gh_owners g scope (token_at (rows_of g) scope) = Some i →
    token_at (rows_of g') scope = token_at (rows_of g) scope →
    ∀ sk, sk ≠ LEASE_SORT_KEY →
      rows_of g' !! (compaction_pk scope, sk) = rows_of g !! (compaction_pk scope, sk).

Definition tolerates (i : nat) (g g' : Ghost) : Prop := journal_le g g' ∧ left_alone i g g'.

Definition promises (i : nat) (g g' : Ghost) : Prop :=
  journal_le g g' ∧ ∀ k, k ≠ i → left_alone k g g'.

Lemma tolerates_preorder i : PreOrder (tolerates i).
Proof.
  split; [by intros g; split|]. intros g1 g2 g3 [L1 A1] [L2 A2]. split; [by etrans|].
  intros scope Ho Ht sk Hsk. pose proof (jl_token _ _ L1 scope). pose proof (jl_token _ _ L2 scope).
  assert (token_at (rows_of g2) scope = token_at (rows_of g1) scope) as Ht2 by lia.
  rewrite A2; [by apply A1| |lia|done]. rewrite Ht2. by apply (jl_owners _ _ L1).
Qed.

Definition client_role (i : nat) : Role journal_le :=
  mkRole (tolerates i) (promises i) (tolerates_preorder i) (λ _ _ H, proj1 H) (λ _ _ H, proj1 H).

(** What leaves the compaction partitions leaves everyone alone. *)
Lemma bystander i g g' :
  journal_le g g' →
  (∀ scope sk, rows_of g' !! (compaction_pk scope, sk) = rows_of g !! (compaction_pk scope, sk)) →
  promises i g g'.
Proof. intros Hle Hr. split; [done|]. intros k _ scope _ _ sk _. apply Hr. Qed.

(** A client that also leaves its own compactions, so that what it knows of them stays. *)
Definition calm_role (i : nat) : Role (tolerates i) :=
  mkRole (tolerates i) (λ g g', promises i g g' ∧ tolerates i g g') (tolerates_preorder i)
    (λ _ _ H, H) (λ _ _ H, proj2 H).

#[export] Existing Instance tolerates_preorder.

Section client.
Context (i : nat).
#[local] Existing Instance client_handler.

(** The owners after a step that leaves the leases. *)
Lemma owners_kept g g' scope token :
  stepped i g g' → token_at (rows_of g') scope = token_at (rows_of g) scope →
  gh_owners g' scope token = gh_owners g scope token.
Proof.
  intros Hs Ht. rewrite (sp_owners _ _ _ Hs). unfold acquired.
  destruct (decide _) as [[H1 H2]|]; [congruence|done].
Qed.

(** A step that leaves the compaction partitions and keeps the journal. *)
Lemma commit_step g g' :
  journal_inv g → stepped i g g' → journal_ok (commits_of g') (rows_of g') →
  (∀ scope sk, rows_of g' !! (compaction_pk scope, sk) = rows_of g !! (compaction_pk scope, sk)) →
  journal_inv g' ∧ promises i g g'.
Proof.
  intros [Hr Hj Hc Ho Hb] Hs Hj' Hrows. destruct (sp_abs _ _ _ Hs) as (_ & _ & Hp).
  assert (∀ scope, token_at (rows_of g') scope = token_at (rows_of g) scope) as Ht
    by (intros scope; unfold token_at; by rewrite Hrows).
  split.
  - split; [apply Hs|done|by eapply compaction_ok_later| |apply Hs].
    intros scope token k. rewrite (owners_kept _ _ _ _ Hs (Ht scope)), Ht. apply Ho.
  - apply bystander; [|done]. split; [apply Hs| | |].
    + intros scope. unfold floor_of. by rewrite Hrows.
    + intros scope. by rewrite Ht.
    + intros scope token k. by rewrite (owners_kept _ _ _ _ Hs (Ht scope)).
Qed.

Lemma quietly_keeps g g' :
  journal_inv g → stepped i g g' → quietly g g' → journal_inv g' ∧ promises i g g'.
Proof.
  intros Hg Hs [Ha Hv]. apply commit_step; [done|done| |].
  - unfold commits_of, rows_of. rewrite Ha, Hv. apply Hg.
  - intros scope sk. unfold rows_of. by rewrite Hv.
Qed.

(** Roles in which a call that changes neither the log nor the rows is allowed. *)
Class Quiets {le : Ghost → Ghost → Prop} (role : Role le) : Prop :=
  quiet_allowed : ∀ g g', journal_inv g → stepped i g g' → quietly g g' → rl_guar role g g'.

#[export] Instance client_quiets : Quiets (client_role i).
Proof. intros g g' Hg Hs Hq. by apply quietly_keeps. Qed.

Lemma quietly_tolerates g g' : journal_inv g → stepped i g g' → quietly g g' → tolerates i g g'.
Proof.
  intros Hg Hs Hq. destruct (quietly_keeps g g' Hg Hs Hq) as [_ [Hle _]]. split; [done|].
  intros scope _ _ sk _. unfold rows_of. by destruct Hq as [_ ->].
Qed.

#[export] Instance calm_quiets : Quiets (calm_role i).
Proof.
  intros g g' Hg Hs Hq. split; [by apply quietly_keeps|by apply quietly_tolerates].
Qed.

(** What a calm client does, anyone may. *)
Lemma calm_client {A} (p : JProg Empty_set A) (Q : A → Ghost → Prop) g :
  @assures _ _ (client_handler i) journal_inv _ (calm_role i) _ p Q g →
  @assures _ _ (client_handler i) journal_inv _ (client_role i) _ p (λ a g', tolerates i g g' ∧ Q a g') g.
Proof.
  intros Hp. eapply wp_weaken, wp_mono, Hp.
  - intros x y Hk Hx. destruct (Hk Hx) as [Hy [Hpr _]]. by split.
  - intros a g' (Hg' & Ht & HQ). split; [done|]. split; [apply Ht|done].
Qed.

Context {le : Ghost → Ghost → Prop} `{!PreOrder le} {role : Role le} {Hrole : Quiets role}.
Abbreviation jassures := (@assures _ _ (client_handler i) journal_inv le role _) (only parsing).

(** A call that changes neither the log nor the rows. *)
Lemma assures_quiet {B} (q : JCall Empty_set B) (Q : B → Ghost → Prop) g :
  journal_inv g →
  (∀ g1 b g2, journal_effect q g1 g2 b → quietly g1 g2) →
  (∀ g1 b g2, journal_inv g1 → performs q (gh_world g1) b (gh_world g2) →
     quietly g1 g2 → journal_effect q g1 g2 b → journal_inv g2 → Q b g2) →
  jassures (call q) Q g.
Proof.
  intros Hg Hquiet HQ. apply assures_call; [apply _|done|].
  intros g1 b g2 Hg1 Hle (Hp & Hs & Heff). pose proof (Hquiet _ _ _ Heff) as Hq.
  destruct (quietly_keeps g1 g2 Hg1 Hs Hq) as [Hg2 _]. split; [done|]. split; [by apply Hrole|].
  by apply (HQ g1).
Qed.

(** A program all of whose calls are such. *)
Fixpoint quiet_prog {A} (p : JProg Empty_set A) : Prop :=
  match p with
  | Ret _ => True
  | Ask q k => (∀ g1 b g2, journal_effect q g1 g2 b → quietly g1 g2) ∧ ∀ b, quiet_prog (k b)
  | Panic | OutOfFuel => False
  end.

Lemma quiet_assures {A} (p : JProg Empty_set A) g :
  quiet_prog p → journal_inv g → jassures p (λ _ _, True) g.
Proof.
  revert g. induction p as [a|B q k IH| |]; intros g Hp Hg; [by returns| |done|done].
  destruct Hp as [Hq Hk]. change (Ask q k) with (bind (call q) k). step_bind.
  apply assures_quiet; [done|done|]. intros g1 b g2 _ _ _ _ Hg2. by apply IH.
Qed.

(** ** Reads *)

Lemma counter_assures scope g :
  journal_inv g →
  jassures (call (JReadCounter scope)) (λ r g', r = Ok (length_of g' scope)) g.
Proof.
  intros Hg. apply assures_quiet; [done|done|].
  intros g1 b g2 Hg1 (o & _ & Hp) [Ha _] _ _. injection Hp as Hw <-.
  unfold length_of, commits_of. rewrite Ha. apply read_counter_ok, Hg1.
Qed.

Lemma last_position_assures scope g :
  journal_inv g →
  jassures (call (JReadLastPosition scope))
    (λ r g', ∃ p, r = Ok p ∧ 0 ≤ p ≤ length_of g' scope) g.
Proof.
  intros Hg. apply assures_quiet; [done|done|].
  intros g1 b g2 Hg1 (o & _ & Hp) [Ha _] _ _. injection Hp as Hw <-.
  unfold length_of, commits_of. rewrite Ha. apply read_last_position_ok, Hg1.
Qed.

Lemma rows_assures scope after limit g :
  journal_inv g →
  jassures (call (JReadRows scope after limit))
    (λ r g', r = mem_read_rows (jw_store (gh_world g')) scope after limit) g.
Proof.
  intros Hg. apply assures_quiet; [done|done|].
  intros g1 b g2 _ (o & _ & Hp) _ _ _. by injection Hp as -> <-.
Qed.

(** A row of a compaction, as it is stored. *)
Lemma compaction_row_assures scope sk g :
  journal_inv g →
  jassures (call (JReadCompactionRow scope sk))
    (λ r g', r = Ok (rows_of g' !! (compaction_pk scope, sk))) g.
Proof.
  intros Hg. apply assures_quiet; [done|done|].
  intros g1 b g2 _ (o & _ & Hp) _ _ _. by injection Hp as -> <-.
Qed.

(** The manifest that is read decodes, and it is where the journal is compacted to. *)
Lemma manifest_assures scope g :
  journal_inv g →
  jassures (read_manifest scope) (λ r g', r = Ok (manifest_at (rows_of g') scope)) g.
Proof.
  intros Hg. unfold read_manifest, read_engine_row. step_try. step_try.
  eapply assures_mono; [|by apply compaction_row_assures]. intros r g1 Hg1 _ ->. cbv beta iota. returns.
  unfold manifest_at at 1. destruct (rows_of g1 !! _) as [row|] eqn:Hrow; cbv beta iota zeta.
  - destruct (jk_manifest _ _ (ji_journal _ Hg1) scope row Hrow) as (Hc & manifest & Hm).
    rewrite Hc. cbn [result_bind]. returns. unfold manifest_at. by rewrite Hrow, Hm.
  - returns. unfold manifest_at. by rewrite Hrow.
Qed.

Lemma floor_assures scope g :
  journal_inv g →
  jassures (read_floor scope) (λ r g', r = Ok (floor_of (rows_of g') scope)) g.
Proof.
  intros Hg. step_try. eapply assures_mono; [|by apply manifest_assures].
  intros r g' Hg' _ ->. returns. by rewrite floor_manifest.
Qed.
End client.
End clients.

#[export] Hint Resolve journal_le_preorder tolerates_preorder client_quiets calm_quiets : core.

(** A call that is quiet, and a program of such calls. *)
Ltac quiet_call := apply assures_quiet; [done|done|done|(done || by intros ? ? ? [_ ?])|].
Ltac quiet_calls H := apply quiet_assures; [done|done|exact H|done].
