(* ===== verification/CompactLease.v ===== *)
(** * The compaction lease

    Taking, renewing, ending and force-releasing the lease of a scope, among any number of other
    clients: a lease that was taken has a token no one else has, and none of this touches what a
    scope's compaction has written. *)

From S2P Require Import Prelude Types Features Outcome Rebuild Projection Repository Retry Mem.
From S2P Require Import MemInvariant MemRefinement MemSafety Program LogBackend MemBackend.
From S2P Require Import JournalScope Compaction JournalConfig JournalRead JournalRepository JournalInvariant.
From S2P Require Import JournalStage JournalInvariant Compact CompactInvariant.
From S2P Require Import JournalClients.

Lemma compaction_pk_inj s t : compaction_pk s = compaction_pk t → s = t.
Proof. apply append_inv_head. Qed.

Section steps.
Context `{SJ : SerdeJson} `{J : JournalJson} {Hlaws : JournalJsonLaws J} `{CJ : CompactionJson}.
Context {Hclaws : CompactionJsonLaws J CJ} (i : nat).
Implicit Types rows : gmap (string * string) ViewRow.

(** ** Steps of a compaction *)

(** A step that leaves the log, keeps both invariants, and leaves the others alone. *)
Lemma compaction_step g g' :
  journal_inv g → stepped i g g' → gh_abs g' = gh_abs g →
  journal_ok (commits_of g) (rows_of g') → compaction_ok (commits_of g) (rows_of g') →
  (∀ scope, floor_of (rows_of g) scope ≤ floor_of (rows_of g') scope) →
  (∀ scope, token_at (rows_of g) scope ≤ token_at (rows_of g') scope) →
  (∀ k, k ≠ i → left_alone k g g') →
  journal_inv g' ∧ promises i g g'.
Proof.
  intros [Hr Hj Hc Ho Hb] Hs Ha Hj' Hc' Hf Ht Hl.
  assert (commits_of g' = commits_of g) as Hcom by (unfold commits_of; by rewrite Ha).
  assert (∀ scope token k, gh_owners g scope token = Some k → gh_owners g' scope token = Some k) as Hown.
  { intros scope token k Hk. rewrite (sp_owners _ _ _ Hs). unfold acquired.
    destruct (decide _) as [[H1 H2]|]; [|done]. specialize (Ho _ _ _ Hk). specialize (Ht scope). lia. }
  split; [split|].
  - apply Hs.
  - by rewrite Hcom.
  - by rewrite Hcom.
  - intros scope token k. rewrite (sp_owners _ _ _ Hs). unfold acquired.
    destruct (decide _) as [[H1 H2]|]; [lia|]. intros Hk. specialize (Ho _ _ _ Hk). specialize (Ht scope). lia.
  - apply Hs.
  - split; [|done]. split; [apply Hs|done|done|done].
Qed.

(** The journal's invariant depends on the journal's rows, the counters and the manifests. *)
Lemma journal_ok_ext commits rows rows' :
  journal_ok commits rows →
  (∀ scope sk, rows' !! (row_pk scope, sk) = rows !! (row_pk scope, sk)) →
  (∀ scope sk, rows' !! (counter_pk scope, sk) = rows !! (counter_pk scope, sk)) →
  (∀ scope, rows' !! (compaction_pk scope, MANIFEST_SORT_KEY) =
     rows !! (compaction_pk scope, MANIFEST_SORT_KEY)) →
  journal_ok commits rows'.
Proof.
  intros [H1 H2 H3 H4 H5 H6 H7] Hr Hc Hm.
  assert (∀ scope, floor_of rows' scope = floor_of rows scope) as Hf
    by (intros scope; unfold floor_of; by rewrite Hm).
  split; [done|done| | | | |].
  - intros scope. by rewrite Hc.
  - intros scope p e. rewrite Hf, Hr. apply H4.
  - intros scope sk v. rewrite Hr. apply H5.
  - intros scope. rewrite Hf. apply H6.
  - intros scope row. rewrite Hm. apply H7.
Qed.

(** ** The lease row *)

Definition lease_put (scope : Scope) (payload : string) (rows : gmap (string * string) ViewRow)
  : gmap (string * string) ViewRow :=
  <[(compaction_pk scope, LEASE_SORT_KEY) := compaction_view scope LEASE_SORT_KEY payload]> rows.

Lemma lease_put_other scope payload rows key :
  key ≠ (compaction_pk scope, LEASE_SORT_KEY) → lease_put scope payload rows !! key = rows !! key.
Proof. intros Hne. unfold lease_put. by rewrite lookup_insert_ne. Qed.

Lemma lease_put_sk scope payload rows s sk :
  sk ≠ LEASE_SORT_KEY →
  lease_put scope payload rows !! (compaction_pk s, sk) = rows !! (compaction_pk s, sk).
Proof. intros Hne. apply lease_put_other. by intros [= _ ?]. Qed.

Lemma lease_put_token scope payload rows lease s :
  lease_decode scope payload = Ok lease →
  token_at (lease_put scope payload rows) s = if decide (s = scope) then lease_token lease else token_at rows s.
Proof.
  intros Hd. unfold token_at. destruct (decide (s = scope)) as [->|Hne].
  - unfold lease_put. rewrite lookup_insert_eq. cbn [compaction_view view_row_new vr_payload]. by rewrite Hd.
  - rewrite lease_put_other; [done|]. intros Heq%(f_equal fst)%compaction_pk_inj. done.
Qed.

Lemma compaction_ok_lease commits rows scope payload lease :
  compaction_ok commits rows → lease_decode scope payload = Ok lease → 0 ≤ lease_token lease ≤ u64_max →
  compaction_ok commits (lease_put scope payload rows).
Proof.
  intros [Hl Hc Hm] Hd Ht.
  assert (∀ s sk, sk ≠ LEASE_SORT_KEY →
    lease_put scope payload rows !! (compaction_pk s, sk) = rows !! (compaction_pk s, sk)) as Hother
    by (intros; by apply lease_put_sk).
  split.
  - intros s row. destruct (decide (s = scope)) as [->|Hne].
    + unfold lease_put. rewrite lookup_insert_eq. intros [= <-]. split; [|by exists lease].
      unfold check_compaction_row, compaction_view, view_row_new. cbn [vr_pk vr_sk vr_entity_id vr_entity_type].
      by rewrite !bool_decide_true.
    + rewrite lease_put_other; [apply Hl|]. intros Heq%(f_equal fst)%compaction_pk_inj. done.
  - intros s index row Hi. rewrite Hother by done. by apply Hc.
  - intros s m Hfree. unfold manifest_at. rewrite Hother by done. intros Hma.
    destruct (Hm s m Hfree Hma) as (parts & [H1 H2 H3 H4] & Hlen). exists parts. split; [|done].
    split; [done|done|done|]. intros k texts digest Hk Hdg. rewrite Hother by done. by apply H4.
Qed.

Lemma lease_put_step g g' scope payload lease :
  journal_inv g → stepped i g g' → gh_abs g' = gh_abs g →
  rows_of g' = lease_put scope payload (rows_of g) →
  lease_decode scope payload = Ok lease →
  0 ≤ lease_token lease ≤ u64_max → token_at (rows_of g) scope ≤ lease_token lease →
  journal_inv g' ∧ promises i g g' ∧ tolerates i g g' ∧
  token_at (rows_of g') scope = lease_token lease.
Proof.
  intros Hg Hs Ha Hr Hd Hrange Hle.
  assert (∀ s, token_at (rows_of g') s =
    if decide (s = scope) then lease_token lease else token_at (rows_of g) s) as Ht
    by (intros s; rewrite Hr; by apply lease_put_token).
  assert (∀ k, left_alone k g g') as Hl.
  { intros k s _ _ sk Hsk. rewrite Hr. by apply lease_put_sk. }
  destruct (compaction_step g g' Hg Hs Ha) as [Hg' Hp].
  - rewrite Hr. apply (journal_ok_ext _ (rows_of g)); [apply Hg| | |].
    + intros s sk. by apply lease_put_other.
    + intros s sk. by apply lease_put_other.
    + intros s. by apply lease_put_sk.
  - rewrite Hr. apply (compaction_ok_lease _ _ _ _ lease); [apply Hg|done|done].
  - intros s. rewrite Hr. unfold floor_of. by rewrite lease_put_sk.
  - intros s. rewrite Ht. destruct (decide _) as [->|]; lia.
  - done.
  - split; [done|]. split; [done|]. split; [split; [apply Hp|apply Hl]|]. rewrite Ht. by rewrite decide_True.
Qed.

(** A single put of the lease row. *)
Lemma lease_written rows rows' scope payload expect :
  written_as [WritePut (compaction_view scope LEASE_SORT_KEY payload) expect] rows rows' (Ok Written) →
  meets expect (rows !! (compaction_pk scope, LEASE_SORT_KEY)) = true ∧ rows' = lease_put scope payload rows.
Proof. intros (_ & Hm & Hr). apply Forall_cons in Hm as [Hm _]. split; [exact Hm|exact Hr]. Qed.

(** The token of a stored lease that is what a client expects. *)
Lemma meets_payload_token rows scope payload lease :
  lease_decode scope payload = Ok lease →
  meets (ExpectPayload payload) (rows !! (compaction_pk scope, LEASE_SORT_KEY)) = true →
  token_at rows scope = lease_token lease.
Proof.
  intros Hd. unfold meets, token_at. destruct (rows !! _) as [row|]; [|done].
  intros [_ Hp%bool_decide_eq_true]%andb_prop. by rewrite Hp, Hd.
Qed.

(** ** Programs *)

#[local] Existing Instance client_handler.
Abbreviation calmly := (@assures _ _ (client_handler i) journal_inv (tolerates i) (calm_role i) _) (only parsing).

(** The client took the lease. *)
Definition holder (lease : CompactionLease) (g : Ghost) : Prop :=
  gh_owners g (cl_scope lease) (cl_token lease) = Some i.

Definition same_lease (l l' : CompactionLease) : Prop :=
  cl_scope l' = cl_scope l ∧ cl_owner l' = cl_owner l ∧ cl_token l' = cl_token l.

(** What one put of a lease row does, for a payload that does not take the token back. *)
Lemma write_lease_calm epoch scope payload expect lease (Q : Result CompactionWritten → Ghost → Prop) g :
  journal_inv g → lease_decode scope payload = Ok lease →
  (∀ g1, journal_inv g1 → meets expect (rows_of g1 !! (compaction_pk scope, LEASE_SORT_KEY)) = true →
     0 ≤ lease_token lease ≤ u64_max ∧ token_at (rows_of g1) scope ≤ lease_token lease) →
  (∀ b g', journal_inv g' → b ≠ Ok Written → Q b g') →
  (∀ g1 g2, journal_inv g1 → journal_inv g2 →
     meets expect (rows_of g1 !! (compaction_pk scope, LEASE_SORT_KEY)) = true →
     token_at (rows_of g2) scope = lease_token lease →
     (∀ s t, gh_owners g2 s t = acquired i (rows_of g1) (rows_of g2) (gh_owners g1) s t) →
     Q (Ok Written) g2) →
  calmly (call (JWriteCompaction epoch
    [WritePut (compaction_view scope LEASE_SORT_KEY payload) expect])) Q g.
Proof.
  intros Hg Hd Htok Hother Hwritten. apply assures_call; [apply _|done|].
  intros g1 b g2 Hg1 _ (_ & Hs & Ha & Hw). assert (b = Ok Written ∨ b ≠ Ok Written) as [->|Hne] by (destruct b as [[]|]; naive_solver).
  - apply lease_written in Hw as [Hm Hr]. destruct (Htok g1 Hg1 Hm) as [Hrange Hle].
    destruct (lease_put_step g1 g2 scope payload lease Hg1 Hs Ha Hr Hd Hrange Hle) as (Hg2 & Hp & Ht & Htk).
    split; [done|]. split; [by split|]. apply (Hwritten g1); [done|done|done|done|]. apply Hs.
  - assert (quietly g1 g2) as Hq.
    { split; [done|]. destruct b as [[]|]; try done. by destruct Hw. }
    destruct (quietly_keeps i g1 g2 Hg1 Hs Hq) as [Hg2 Hp]. split; [done|].
    split; [split; [done|by apply quietly_tolerates]|]. by apply Hother.
Qed.

Lemma replace_lease_calm lease payload row g :
  journal_inv g → lease_decode (cl_scope lease) payload = Ok row → lease_token row = cl_token lease →
  calmly (replace_lease lease payload) (λ _ _, True) g.
Proof.
  intros Hg Hd Ht. unfold replace_lease. step_try.
  apply (write_lease_calm _ _ _ _ row); [done|done| | |].
  - intros g1 Hg1 Hm. pose proof (meets_payload_token _ _ _ _ (lease_decode_payload lease) Hm) as Htok.
    simpl in Htok. unfold meets in Hm. destruct (rows_of g1 !! _) as [stored|] eqn:Hrow; [|done].
    apply andb_prop in Hm as [_ Hp%bool_decide_eq_true].
    destruct (co_lease _ _ (ji_compaction _ Hg1) _ _ Hrow) as (_ & l & Hl & Hrange).
    rewrite Hp, lease_decode_payload in Hl. injection Hl as <-. simpl in Hrange. lia.
  - intros [w|e] g' Hg' Hne; [|done]. by returns.
  - intros g1 g2 _ Hg2 _ _ _. by returns.
Qed.

Lemma renew_calm lease extend g :
  journal_inv g →
  calmly (renew_compaction lease extend) (λ r _, ∀ l, r = Ok l → same_lease lease l) g.
Proof.
  intros Hg. unfold renew_compaction. step_try. returns.
  destruct (check_lease _ _) as [seconds|]; [|done]. step_bind. quiet_call.
  intros g1 now g2 _ _ _ _ Hg2. step_try.
  set (renewed := mkCompactionLease (cl_scope lease) (cl_owner lease) (cl_token lease)
    (i64_saturating_add now seconds) seconds).
  eapply assures_mono; [|by apply (replace_lease_calm lease _ _ _ Hg2 (lease_decode_payload renewed))].
  intros [[]|e] g3 Hg3 _ _; [|done]. returns. by intros l [= <-].
Qed.

Lemma end_calm lease g : journal_inv g → calmly (end_compaction lease) (λ _ _, True) g.
Proof. intros Hg. by apply (replace_lease_calm _ _ _ _ Hg (lease_decode_released _ _)). Qed.

Lemma keep_calm lease g :
  journal_inv g → calmly (keep lease) (λ r _, same_lease lease r.1) g.
Proof.
  intros Hg. unfold keep. step_bind. quiet_call. intros g1 now g2 _ _ _ _ Hg2.
  destruct (_ <? _); [by returns|]. destruct (_ && _); [|by returns].
  step_bind. eapply assures_mono; [|by apply renew_calm]. intros [l|e] g3 Hg3 _ Hr; returns; [|done].
  by apply Hr.
Qed.

Lemma engine_row_calm scope sk g :
  journal_inv g →
  calmly (read_engine_row scope sk)
    (λ r g', ∀ row, r = Ok row → row = rows_of g' !! (compaction_pk scope, sk)) g.
Proof.
  intros Hg. unfold read_engine_row. step_try. eapply assures_mono; [|by apply compaction_row_assures].
  intros r g1 Hg1 _ ->. cbv beta iota. returns. destruct (rows_of g1 !! _) as [row|]; [|by intros ? [= <-]].
  unfold check_compaction_row. destruct (_ || _); [done|]. by intros ? [= <-].
Qed.

Lemma epoch_error_calm epoch g : journal_inv g → calmly (epoch_error epoch) (λ _ _, True) g.
Proof. intros Hg. apply quiet_assures; [done|done| |done]. simpl. split; [done|]. by intros b. Qed.

Lemma check_marker_quiet : quiet_prog check_marker.
Proof.
  simpl. split; [done|]. intros [[m|]|]; simpl; [|done|done]. by destruct (validate_supported m).
Qed.

Lemma observe_quiet : quiet_prog observe_rebuild_epoch.
Proof. simpl. split; [done|]. by intros [b|]; simpl. Qed.

(** The token the next lease gets is one more than that of the row it expects. *)
Lemma next_lease_token scope now stored token expect g :
  next_lease scope now stored = Ok (token, expect) → journal_inv g →
  (∀ row, stored = Some row → ∃ lease, lease_decode scope (vr_payload row) = Ok lease ∧ 0 ≤ lease_token lease) →
  meets expect (rows_of g !! (compaction_pk scope, LEASE_SORT_KEY)) = true →
  token = token_at (rows_of g) scope + 1 ∧ 0 ≤ token ≤ u64_max.
Proof.
  intros Hn Hg Hst Hm. pose proof (ji_below _ Hg scope) as Hb.
  change (ms_views (jw_store (gh_world g))) with (rows_of g) in Hb.
  assert (∀ row lease, lease_decode scope (vr_payload row) = Ok lease → 0 ≤ lease_token lease →
    expect = ExpectPayload (vr_payload row) → token = next_token lease →
    token = token_at (rows_of g) scope + 1 ∧ 0 ≤ token ≤ u64_max) as Hgo.
  { intros row lease Hd H0 -> ->. rewrite (meets_payload_token _ _ _ _ Hd Hm) in *.
    unfold next_token. unfold u64_max in *. rewrite Z.mod_small by lia. lia. }
  destruct stored as [row|].
  - destruct (Hst row eq_refl) as (lease & Hd & H0). unfold next_lease in Hn. rewrite Hd in Hn.
    cbn [result_bind] in Hn. destruct lease as [held|s t]; [destruct (_ <=? _); [done|]|];
      injection Hn as <- <-; by eapply Hgo.
  - injection Hn as <- <-. unfold meets in Hm. unfold token_at in *.
    destruct (rows_of g !! _); [done|]. unfold u64_max. lia.
Qed.

Lemma begin_loop_calm attempts scope owner seconds epoch : ∀ g,
  journal_inv g →
  calmly (begin_loop attempts scope owner seconds epoch)
    (λ r g', ∀ lease, r = Ok lease →
       cl_scope lease = scope ∧ cl_owner lease = owner ∧ holder lease g') g.
Proof.
  induction attempts as [|attempts IH]; intros g Hg; cbn [begin_loop]; [by returns|].
  step_try. eapply assures_mono; [|by apply engine_row_calm]. intros [stored|e] g1 Hg1 _ Hst; [|done].
  specialize (Hst stored eq_refl).
  assert (∀ row, stored = Some row → ∃ lease, lease_decode scope (vr_payload row) = Ok lease ∧
    0 ≤ lease_token lease) as Hdec.
  { intros row ->. destruct (co_lease _ _ (ji_compaction _ Hg1) scope row) as (_ & l & Hl & Hr); [done|].
    exists l. split; [done|lia]. }
  step_bind. quiet_call. intros g2 now g3 _ _ _ _ Hg3. step_try. returns.
  destruct (next_lease scope now stored) as [[token expect]|] eqn:Hn; [|done].
  set (lease := mkCompactionLease scope owner token (i64_saturating_add now seconds) seconds).
  step_try. apply (write_lease_calm _ _ _ _ _ _ _ Hg3 (lease_decode_payload lease)).
  - intros g4 Hg4 Hm. destruct (next_lease_token _ _ _ _ _ _ Hn Hg4 Hdec Hm) as [Heq Hr]. simpl. lia.
  - intros [[| |]|e] g4 Hg4 Hne; try done; [|by apply IH].
    step_bind. eapply assures_mono; [|by apply epoch_error_calm]. intros err g5 Hg5 _ _. by returns.
  - intros g4 g5 Hg4 Hg5 Hm Htk Hown. returns. intros l [= <-]. split; [done|]. split; [done|].
    destruct (next_lease_token _ _ _ _ _ _ Hn Hg4 Hdec Hm) as [Heq _].
    unfold holder. rewrite Hown. unfold acquired. simpl in Htk |- *. rewrite decide_True; [done|].
    split; [done|]. lia.
Qed.

Lemma begin_calm scope owner lease g :
  journal_inv g →
  calmly (begin_compaction scope owner lease)
    (λ r g', ∀ lease, r = Ok lease →
       cl_scope lease = scope ∧ cl_owner lease = owner ∧ holder lease g') g.
Proof.
  intros Hg. unfold begin_compaction. step_try. returns. destruct (check_lease _ _) as [seconds|]; [|done].
  step_try. eapply assures_mono; [|quiet_calls observe_quiet]. intros [epoch|e] g1 Hg1 _ _; [|done].
  step_try. eapply assures_mono; [|quiet_calls check_marker_quiet]. intros [m|e] g2 Hg2 _ _; [|done].
  by apply begin_loop_calm.
Qed.

(** An operator's release of someone's lease. *)
Lemma force_release_calm scope owner g :
  journal_inv g → calmly (force_release_compaction scope owner) (λ _ _, True) g.
Proof.
  intros Hg. unfold force_release_compaction. step_try. returns.
  destruct (check_rebuild_owner owner); [|done].
  step_try. eapply assures_mono; [|by apply engine_row_calm]. intros [[row|]|e] g1 Hg1 _ _; [|by returns|done].
  step_try. returns. destruct (lease_decode _ _) as [[held|s t]|] eqn:Hd; [|by returns|done].
  destruct (negb _); [by returns|].
  assert (cl_scope held = scope) as Hs.
  { unfold lease_decode in Hd. destruct (json_parse_lease _) as [p|]; [|done]. cbn [map_err result_bind] in Hd.
    destruct (negb _); [done|]. destruct (lp_owner p), (lp_lease_expires_at p); try done. by injection Hd as <-. }
  apply (replace_lease_calm held _ (Released scope (cl_token held))); [done| |done].
  rewrite Hs. apply lease_decode_released.
Qed.
End steps.
