(* ===== verification/JournalDrive.v ===== *)
(** * Journaling a commit

    The retry loop of the journal repository on the in-memory repository, with any number of other
    clients between its calls: it ends, it keeps the journal invariant, and a commit it reports is
    in the log with one position in every scope its events resolved to. *)

From S2P Require Import Prelude Types Features Outcome Rebuild Projection Repository Retry Mem.
From S2P Require Import MemInvariant MemRefinement MemSafety Program LogBackend MemBackend.
From S2P Require Import JournalScope Compaction JournalConfig JournalRead JournalRepository JournalInvariant.
From S2P Require Import JournalStage JournalInvariant Compact CompactInvariant.
From S2P Require Import JournalClients.

Section drive.
Context `{SJ : SerdeJson} `{J : JournalJson} {Hlaws : JournalJsonLaws J} `{CJ : CompactionJson}.

Context (i : nat).
#[local] Existing Instance client_handler.
Abbreviation jassures := (@assures _ _ (client_handler i) journal_inv journal_le (client_role i) _) (only parsing).

(** ** Counters *)

Lemma read_all_counters_assures scopes : ∀ g,
  journal_inv g →
  jassures (read_all_counters scopes)
    (λ r g', ∃ values, r = Ok values ∧
       Forall2 (λ scope value, 0 ≤ value ≤ length_of g' scope) scopes values) g.
Proof.
  induction scopes as [|scope scopes IH]; intros g Hg; cbn [read_all_counters].
  { returns. by exists []. }
  step_try. eapply assures_mono; [|by apply counter_assures]. intros r g1 Hg1 _ ->. cbv beta iota.
  step_try. eapply assures_mono; [|by apply IH]. intros r g2 Hg2 Hle (values & -> & Hall).
  cbv beta iota. returns. exists (length_of g1 scope :: values). split; [done|]. constructor; [|done].
  pose proof (length_le _ _ scope Hle). pose proof (journal_length_nonneg (commits_of g1) scope).
  unfold length_of in *. lia.
Qed.

Lemma counter_base_assures repair scope stored g :
  journal_inv g → 0 ≤ stored ≤ length_of g scope →
  jassures (counter_base repair scope stored)
    (λ r g', ∃ base, r = Ok base ∧ stored ≤ base ≤ length_of g' scope) g.
Proof.
  intros Hg Hs. unfold counter_base. step_try.
  apply (assures_mono _ _ _ (λ r g', ∃ base, r = Ok base ∧ stored ≤ base ≤ length_of g' scope)).
  - intros r g1 Hg1 _ (base & -> & Hb). cbv beta iota. destruct (_ || _); [|returns; exists base; by split].
    step_try. eapply assures_mono; [|by apply floor_assures]. intros r g2 Hg2 Hle ->. cbv beta iota.
    returns. eexists. split; [done|]. pose proof (length_le _ _ scope Hle).
    pose proof (jk_floor _ _ (ji_journal _ Hg2) scope). unfold length_of in *. lia.
  - destruct repair; [|returns; exists stored; split; [done|lia]].
    step_try. eapply assures_mono; [|by apply last_position_assures].
    intros r g1 Hg1 Hle (p & -> & Hp). cbv beta iota. returns. eexists. split; [done|].
    pose proof (length_le _ _ scope Hle). lia.
Qed.

(** The counters an attempt read. *)
Definition read_ok (scopes : list Scope) (counters : Counters) (g : Ghost) : Prop :=
  counters_read (commits_of g) scopes counters ∧
  ∀ scope p, ct_base counters !! scope = Some p → 0 ≤ p.

Lemma read_ok_later scopes counters g g' : journal_le g g' → read_ok scopes counters g → read_ok scopes counters g'.
Proof.
  intros Hc%journal_le_commits [Hr Hp]. split; [|done]. by eapply counters_read_later.
Qed.

Lemma read_ok_insert scopes counters g scope stored base :
  read_ok scopes counters g → 0 ≤ stored ≤ base → base ≤ length_of g scope →
  read_ok (scope :: scopes)
    (mkCounters (<[scope := stored]> (ct_stored counters)) (<[scope := base]> (ct_base counters))) g.
Proof.
  intros [Hr Hp] Hs Hb. split; simpl.
  - intros scope' Hin. simpl. destruct (decide (scope = scope')) as [<-|Hne].
    + exists stored, base. by rewrite !lookup_insert_eq.
    + rewrite !lookup_insert_ne by done. apply Hr. by apply elem_of_cons in Hin as [->|].
  - intros scope' p. destruct (decide (scope = scope')) as [<-|Hne].
    + rewrite lookup_insert_eq. intros [= <-]. lia.
    + rewrite lookup_insert_ne by done. apply Hp.
Qed.

Lemma counter_bases_assures repair l : ∀ counters scopes g,
  journal_inv g → read_ok scopes counters g →
  Forall (λ entry : Scope * Z, 0 ≤ entry.2 ≤ length_of g entry.1) l →
  jassures (counter_bases repair counters l)
    (λ r g', ∃ counters', r = Ok counters' ∧ read_ok (rev (map fst l) ++ scopes) counters' g') g.
Proof.
  induction l as [|[scope stored] l IH]; intros counters scopes g Hg Hr Hl; cbn [counter_bases].
  { returns. by exists counters. }
  apply Forall_cons in Hl as [Hs Hl]. simpl in Hs. step_try.
  eapply assures_mono; [|by apply counter_base_assures]. intros r g1 Hg1 Hle (base & -> & Hb).
  cbv beta iota.
  eapply assures_mono; [|apply (IH _ (scope :: scopes)); [done| |]].
  - intros r g2 _ _ (counters' & -> & Hc). exists counters'. split; [done|]. simpl. by rewrite <-app_assoc.
  - apply read_ok_insert; [by eapply read_ok_later|lia|lia].
  - eapply Forall_impl; [done|]. intros [scope' v] Hv. simpl in *.
    pose proof (length_le _ _ scope' Hle). lia.
Qed.

Lemma read_counters_assures scopes repair g :
  journal_inv g →
  jassures (read_counters scopes repair)
    (λ r g', ∃ counters, r = Ok counters ∧ read_ok scopes counters g') g.
Proof.
  intros Hg. unfold read_counters. step_try. eapply assures_mono; [|by apply read_all_counters_assures].
  intros r g1 Hg1 _ (values & -> & Hall). cbv beta iota.
  eapply assures_mono; [|apply (counter_bases_assures _ _ _ [])].
  - intros r g2 _ _ (counters & -> & Hr & Hp). exists counters. split; [done|]. split; [|done].
    intros scope Hin. apply Hr. rewrite app_nil_r. apply list_elem_of_In. rewrite <-in_rev, <-list_elem_of_In.
    change (map fst ?l) with (fst <$> l). rewrite fst_zip; [done|]. by rewrite (Forall2_length _ _ _ Hall).
  - done.
  - split; [by intros ? ?%not_elem_of_nil|]. simpl. intros scope p. by rewrite lookup_empty.
  - apply Forall_forall. intros [scope value] Hin. simpl.
    apply list_elem_of_lookup in Hin as [k Hi]. rewrite lookup_zip_with in Hi.
    destruct (scopes !! k) as [s|] eqn:Hsi; [|done]. destruct (values !! k) as [v|] eqn:Hv; [|done].
    simpl in Hi. injection Hi as -> ->. exact (Forall2_lookup_lr _ _ _ _ _ _ Hall Hsi Hv).
Qed.

(** ** Sending *)

Section commit.
Context (box_text : BoxError → string) (repository_name : string).
Context {C : Type} `{HS : Sends C} {HL : StagedLaws C} {HC : SendsLaws C}.
Context (Heffect : ∀ (c : C) g g' b,
  journal_effect (JRepository (send_call c)) g g' b → sent_as c g g' b).

Definition send_it (c : C) : JProg Empty_set (Result (list SerializedEvent)) :=
  call (JRepository (send_call c)).

Lemma restaged_carried (c c' : C) : restaged c c' → carried c' = carried c.
Proof.
  intros (streams & Hs & [->|[views ->]]); [|rewrite carried_views]; by apply carried_events.
Qed.

(** A staged commit that was sent keeps the journal, and it is in the log when it succeeded. *)
Lemma sent_keeps counters plan (c c' : C) alloc own g1 g2 b :
  journal_inv g1 → stepped i g1 g2 →
  staged_attempt counters plan c c' alloc own → counters_read (commits_of g1) (concat plan) counters →
  Forall unreserved (all_views c) → sent_as c' g1 g2 b →
  journal_inv g2 ∧ promises i g1 g2 ∧
  ∀ receipt, b = Ok receipt → receipt = concat (event_streams c') ∧
    (receipt = [] ∨ ∃ batches, batches ∈ commits_of g2 ∧ concat (map snd batches) = receipt).
Proof.
  intros Hg Hstep Hst Hread Hun Hs.
  assert (quietly g1 g2 → journal_inv g2 ∧ promises i g1 g2) as Hq
    by (intros Hq; by apply quietly_keeps).
  destruct b as [receipt|e]; unfold sent_as, sent in Hs; [|destruct (Hq Hs) as [? ?]; by split_and!].
  destruct Hs as (-> & [[Hev Hquiet]|(batches & Hc & Hb & Hnd & Hheld & Hrows)]).
  { destruct (Hq Hquiet) as [? ?]. split; [done|]. split; [done|]. intros receipt [= <-].
    split; [done|]. left. by rewrite Hev. }
  pose proof (restaged_carried _ _ (sa_shape _ _ _ _ _ _ Hst)) as Hcar.
  assert (∀ v, v ∈ all_views c' ↔ v ∈ all_views c ∨ v ∈ own) as Hviews.
  { intros v. unfold all_views. rewrite Hcar, (sa_views _ _ _ _ _ _ Hst), !elem_of_app. tauto. }
  pose proof (ji_journal _ Hg) as Hok.
  assert (rows_of g2 = apply_views (rows_of g1) (all_views c')) as Hr2 by done.
  destruct (commit_step i g1 g2 Hg Hstep) as [Hinv Hprom].
  - unfold commits_of at 1. rewrite Hc, Hr2.
    exact (journal_ok_commit _ _ _ _ _ _ _ _ _ _ _ Hok Hst Hread Hun Hviews Hnd Hheld Hb).
  - intros scope sk. rewrite Hr2.
    eapply rows_compaction; [exact Hok|exact Hst|exact Hread|exact Hun|exact Hviews|exact Hnd|exact Hheld|exact Hb].
  - split; [done|]. split; [done|]. intros receipt [= <-]. split; [done|]. right. exists batches.
    split; [|done]. unfold commits_of. rewrite Hc. apply elem_of_app. right. apply list_elem_of_here.
Qed.

Lemma send_assures counters plan (c c' : C) alloc own scopes g :
  journal_inv g → staged_attempt counters plan c c' alloc own → (∀ s, s ∈ concat plan → s ∈ scopes) →
  read_ok scopes counters g → Forall unreserved (all_views c) →
  jassures (send_it c')
    (λ b g', ∀ receipt, b = Ok receipt → receipt = concat (event_streams c') ∧
       (receipt = [] ∨ ∃ batches, batches ∈ commits_of g' ∧ concat (map snd batches) = receipt)) g.
Proof.
  intros Hg Hst Hsc Hr Hun. apply assures_call; [apply _|done|].
  intros g1 b g2 Hg1 [Hle _] (_ & Hstep & Heff). apply Heffect in Heff.
  destruct (read_ok_later _ _ _ _ Hle Hr) as [Hread _].
  eapply sent_keeps; try done. intros s Hin. by apply Hread, Hsc.
Qed.

(** ** Nothing to journal *)

(** The plan of events that none of the journal's types covers. *)
Definition no_scopes {A} (events : list A) : list (list Scope) := map (λ _, []) events.

Lemma concat_no_scopes {A} (events : list A) : concat (no_scopes events) = [].
Proof. by induction events. Qed.

Lemma allocate_no_scopes {A} (events : list A) counters :
  allocate counters (no_scopes events) = Ok (mkAllocated (map (λ _, []) events) ∅).
Proof.
  unfold allocate. induction events as [|e events IH]; [done|].
  change (no_scopes (e :: events)) with (@nil Scope :: no_scopes events). cbn [allocate_from allocate_event result_bind fst snd].
  by rewrite IH.
Qed.

Lemma uncovered_plan j (c : C) plan :
  covered_by j c = false → plan_of box_text j c = Ok plan → plan = no_scopes (concat (event_streams c)).
Proof.
  unfold covered_by, plan_of. generalize (concat (event_streams c)). intros events Hcov Hp.
  apply collect_ok in Hp. induction Hp as [|e scopes events plan He _ IH]; [done|].
  simpl in Hcov. apply orb_false_iff in Hcov as [Hc Hcov]. unfold scopes_of in He. rewrite Hc in He.
  injection He as <-. unfold no_scopes. simpl. f_equal. by apply IH.
Qed.

Lemma without_allocations_staged (c : C) counters :
  staged_attempt counters (no_scopes (concat (event_streams c))) c (without_allocations c)
    (mkAllocated (map (λ _, []) (concat (event_streams c))) ∅) [].
Proof.
  set (strip := λ event, set_allocations event []).
  assert (same_shape (event_streams c) (map (map strip) (event_streams c))) as Hshape.
  { unfold same_shape. induction (event_streams c); constructor; [by rewrite length_map|done]. }
  assert (event_streams (without_allocations c) = map (map strip) (event_streams c)) as Hev
    by (by apply sl_streams).
  assert (∀ event, event ∈ concat (event_streams (without_allocations c)) → allocations_of event = []) as Hnone.
  { rewrite Hev, <-concat_map. intros event (e & -> & _)%list_elem_of_fmap. apply allocations_of_set.
    split; constructor. }
  split; simpl.
  - apply allocate_no_scopes.
  - apply Forall_forall. intros l (e & -> & _)%list_elem_of_fmap. split; constructor.
  - by rewrite length_map.
  - rewrite Hev, <-concat_map. induction (concat (event_streams c)) as [|e es IH]; [done|].
    simpl. by rewrite IH.
  - unfold without_allocations. rewrite sl_views. by rewrite app_nil_r.
  - intros op. split; [by intros ?%not_elem_of_nil|]. intros [(e & a & He & Ha & _)|(s & p & Hl & _)].
    + rewrite Hnone in Ha by done. by apply not_elem_of_nil in Ha.
    + by rewrite lookup_empty in Hl.
  - intros e a He. rewrite Hnone by done. by intros ?%not_elem_of_nil.
  - eexists. split; [exact Hshape|]. by left.
Qed.

(** What a reported commit is: its events in the log, each with a position in every scope it
    resolved to. *)
Definition journaled_as (j : Journal) (c : C) (commits : Commits) (receipt : list SerializedEvent) : Prop :=
  ∃ plan allocations, plan_of box_text j c = Ok plan ∧ map (map al_scope) allocations = plan ∧
    receipt = zip_with set_allocations (concat (event_streams c)) allocations ∧
    (receipt = [] ∨ ∃ batches, batches ∈ commits ∧ concat (map snd batches) = receipt).

Definition journal_answer (j : Journal) (c : C) (r : Result (list SerializedEvent)) (g : Ghost) : Prop :=
  ∀ receipt, r = Ok receipt → journaled_as j c (commits_of g) receipt.

Lemma sent_answer j (c c' : C) counters plan alloc own b g :
  plan_of box_text j c = Ok plan → staged_attempt counters plan c c' alloc own →
  (∀ receipt, b = Ok receipt → receipt = concat (event_streams c') ∧
     (receipt = [] ∨ ∃ batches, batches ∈ commits_of g ∧ concat (map snd batches) = receipt)) →
  journal_answer j c b g.
Proof.
  intros Hp Hst Hb receipt ->. destruct (Hb _ eq_refl) as [Heq Hin].
  exists plan, (ad_allocations alloc). split; [done|]. split; [|split; [|done]].
  - by destruct (allocate_positions _ _ _ (sa_allocated _ _ _ _ _ _ Hst)).
  - rewrite Heq. apply Hst.
Qed.

(** ** Attempts *)

Section attempts.
Context (j : Journal) (c : C) (plan : list (list Scope)) (scopes : list Scope).
Context (Hresolver : resolver_ok (jo_resolver j)) (Hpolicy : policy_ok (jo_retry j)).
Context (Hplan : plan_of box_text j c = Ok plan) (Hscopes : ∀ s, s ∈ concat plan → s ∈ scopes).
Context (Hviews : Forall unreserved (all_views c)) (Hcovered : covered_by j c = true).

Lemma ensure_declared_quiet : quiet_prog (ensure_declared j).
Proof.
  simpl. split; [done|]. intros [|]; simpl; [done|]. split; [done|]. intros [manifest|]; simpl; [|done].
  destruct (match manifest with Some m => fm_features m !! JOURNAL_FEATURE | None => None end) as [v|]; simpl.
  1: destruct (_ =? _); simpl; [|done].
  all: split; [done|]; intros refuses; destruct (_ && _); simpl; [done|];
    unfold declare_missing; destruct (negb _); simpl; repeat (split; [done|]; intros [|]; simpl; try done).
  all: split; [done|]; by intros [].
Qed.

Lemma retract_quiet declared : quiet_prog (retract declared).
Proof. simpl. split; [done|]. intros []. destruct (negb _); simpl; [done|]. by split. Qed.

(** What an attempt leaves for the next one. *)
Definition next_attempt (budget : Budget)
    (r : Result (list SerializedEvent) + bool * Budget) (g : Ghost) : Prop :=
  match r with
  | inl r => journal_answer j c r g
  | inr (_, budget') =>
      bu_policy budget' = bu_policy budget ∧ bu_attempt budget' = bu_attempt budget + 1 ∧
      bu_attempt budget < Z.max (rp_max_attempts (bu_policy budget)) 1
  end.

Lemma after_failure_assures counters repair budget error g :
  journal_inv g → bu_policy budget = jo_retry j → 1 ≤ bu_attempt budget →
  jassures (after_failure j c scopes counters repair budget error) (next_attempt budget) g.
Proof.
  intros Hg Hbp Hatt. unfold after_failure. step_bind.
  apply (assures_mono _ _ _ (λ _ _, True)).
  - intros [[lost again]|e] g1 Hg1 _ _; [|by returns].
    step_bind. quiet_call.
    intros g2 random g3 _ _ _ [Hrandom _] Hg3.
    step_bind. quiet_call. intros g4 now g5 _ _ _ _ Hg5.
    destruct (budget_next_some budget now random) as (b' & o & Hnext & _); [by rewrite Hbp|done|done|].
    rewrite Hnext. destruct o as [d|]; [|by returns].
    apply budget_next_attempts in Hnext as (Ha & Hp' & _ & Hlt).
    step_bind. quiet_call. intros g6 [] g7 _ _ _ _ Hg7.
    returns. simpl. split; [done|]. split; [done|]. lia.
  - destruct (taken error).
    + step_bind. eapply assures_mono; [|by apply read_counters_assures].
      intros r g1 Hg1 _ (again & -> & _). by returns.
    + destruct error; by returns.
Qed.

Lemma attempt_assures repair budget g :
  journal_inv g → bu_policy budget = jo_retry j → 1 ≤ bu_attempt budget →
  jassures (attempt send_it j c plan scopes repair budget) (next_attempt budget) g.
Proof.
  intros Hg Hbp Hatt. unfold attempt. step_bind.
  apply (assures_mono _ _ _ (λ r g', match r with
    | Ok (counters, c', _) => read_ok scopes counters g' ∧ ∃ alloc own, staged_attempt counters plan c c' alloc own
    | Err _ => True end)).
  - intros [[[counters c'] declared]|e] g1 Hg1 _ Hr; [|by returns].
    destruct Hr as (Hread & alloc & own & Hst). step_bind.
    eapply assures_mono; [|by eapply (send_assures counters plan c c')].
    intros b g2 Hg2 _ Hb. pose proof (sent_answer j c c' _ _ _ _ b g2 Hplan Hst Hb) as Hans.
    destruct b as [receipt|e]; [by returns|]. destruct (_ && _).
    + step_bind. eapply assures_mono; [|quiet_calls (retract_quiet declared)].
      intros [] g3 Hg3 _ _. by returns.
    + by apply after_failure_assures.
  - step_try. eapply assures_mono; [|by apply read_counters_assures].
    intros r g1 Hg1 _ (counters & -> & Hread). cbv beta iota.
    step_try. returns. destruct (stage_attempt j c plan counters) as [c'|] eqn:Hstage; [|done].
    step_try. returns. destruct (staged_validate c') as [[]|] eqn:Hvalid; [|done].
    destruct (stage_attempt_ok box_text j c plan counters c') as (alloc & own & Hst); [done|done|apply Hread|done..|].
    step_try. eapply assures_mono; [|quiet_calls ensure_declared_quiet].
    intros [declared|e] g2 Hg2 Hle _; [|done]. returns. split; [by eapply read_ok_later|]. by exists alloc, own.
Qed.

(** The loop ends within its budget. *)
Lemma drive_loop_assures n : ∀ repair budget g,
  journal_inv g → bu_policy budget = jo_retry j → 1 ≤ bu_attempt budget →
  Z.of_nat n = Z.max (rp_max_attempts (jo_retry j)) 1 - bu_attempt budget + 1 → (0 < n)%nat →
  jassures (drive_loop send_it n j c plan scopes repair budget) (journal_answer j c) g.
Proof.
  induction n as [|n IH]; intros repair budget g Hg Hbp Hatt Hn Hpos; [lia|]. cbn [drive_loop]. step_bind.
  eapply assures_mono; [|by apply attempt_assures].
  intros [r|[repair' budget']] g1 Hg1 _ Hr; simpl in Hr; [by returns|].
  destruct Hr as (Hp & Ha & Hlt). rewrite Hbp in Hlt. apply IH; [done|congruence|lia..].
Qed.
End attempts.

(** ** The whole call *)

(** What a journal and a commit to it must be: scopes that resolve are valid, the retry policy is
    one its builder accepts, and the application's views stay out of the journal's partitions. *)
Record journalable (j : Journal) (c : C) : Prop := {
  jb_resolver : resolver_ok (jo_resolver j);
  jb_policy : policy_ok (jo_retry j);
  jb_views : Forall unreserved (all_views c)
}.

Lemma plan_scopes_elem plan scope : scope ∈ plan_scopes plan ↔ scope ∈ concat plan.
Proof. unfold plan_scopes. by rewrite dedup_elem_of, elem_of_sort_by. Qed.

Lemma drive_assures j c g :
  journalable j c → journal_inv g →
  jassures (drive box_text repository_name send_it j c) (journal_answer j c) g.
Proof.
  intros [Hres Hpol Hun] Hg. unfold drive. fold (covered_by j c).
  step_bind. apply (assures_mono _ _ _ (λ _ _, True)).
  2: { destruct (covered_by j c); [|by returns]. by apply quiet_assures. }
  intros writes g1 Hg1 _ _. destruct (negb writes); [by returns|].
  step_bind. apply (assures_mono _ _ _ (λ _ _, True)).
  2: { destruct (covered_by j c); [|by returns]. by apply quiet_assures. }
  intros applies g2 Hg2 _ _. destruct (negb applies); [by returns|].
  step_try. returns. destruct (plan_of box_text j c) as [plan|] eqn:Hplan; [|done].
  destruct (covered_by j c) eqn:Hcov; cbn [negb].
  - step_bind. quiet_call. intros g3 now g4 _ _ _ _ Hg4.
    apply drive_loop_assures; try done; [|simpl; lia..].
    intros s Hs. by apply plan_scopes_elem.
  - apply uncovered_plan in Hplan as Heq; [|done]. subst plan.
    pose proof (without_allocations_staged c (mkCounters ∅ ∅)) as Hst.
    eapply assures_mono; [|apply (send_assures (mkCounters ∅ ∅) _ c (without_allocations c) _ _ [] g2 Hg2 Hst)].
    + intros b g3 _ _ Hb. by eapply sent_answer.
    + intros s. by rewrite concat_no_scopes.
    + split; [by intros ? ?%not_elem_of_nil|]. simpl. intros scope p. by rewrite lookup_empty.
    + done.
Qed.
End commit.
End drive.
