(* ===== verification/JournalPages.v ===== *)
(** * Pages of a journal

    A page read while others commit and compact: its rows are the entries of the scope's journal
    that follow the cursor, with none left out, or the reader is told that the rows it asked for are
    compacted. *)

From S2P Require Import Prelude Types Features Outcome Rebuild Projection Repository Retry Mem.
From S2P Require Import MemInvariant MemRefinement MemSafety Program LogBackend MemBackend.
From S2P Require Import JournalScope Compaction JournalConfig JournalRead JournalRepository JournalInvariant.
From S2P Require Import JournalStage JournalInvariant Compact CompactInvariant.
From S2P Require Import JournalClients.

(** ** Assembling *)

(** Rows in the order of their positions, all of them from a position on. *)
Definition rows_from (start : Z) (rows : list JournalRow) : Prop :=
  StronglySorted (λ a b, jr_position a < jr_position b) rows ∧
  Forall (λ row, start ≤ jr_position row < u64_max) rows.

Lemma rows_from_tail start row rows :
  rows_from start (row :: rows) → rows_from (jr_position row + 1) rows.
Proof.
  intros [Hs Hall]. apply StronglySorted_inv in Hs as [Hs Hrow].
  apply Forall_cons in Hall as [_ Hall]. split; [done|].
  rewrite Forall_forall in Hrow, Hall |- *. intros x Hx. specialize (Hrow x Hx). specialize (Hall x Hx). lia.
Qed.

(** The rows kept are a prefix with consecutive positions; when they are not all, the position that
    was expected next has no row. *)
Lemma assemble_rows_spec found : ∀ expected rows gap next,
  rows_from expected found → assemble_rows expected found = (rows, gap, next) →
  next = expected + llen rows ∧ map jr_position rows = seqZ expected (llen rows) ∧
  (∃ rest, found = rows ++ rest ∧ Forall (λ row, next < jr_position row) rest ∧
     match gap with None => rest = [] | Some _ => rest ≠ [] end).
Proof.
  induction found as [|row found IH]; intros expected rows gap next Hf; cbn [assemble_rows].
  { intros [= <- <- <-]. split; [unfold llen; simpl; lia|]. split; [done|]. exists []. by split_and!. }
  pose proof (rows_from_tail _ _ _ Hf) as Htail. destruct Hf as [_ Hall].
  apply Forall_cons in Hall as [Hrow _].
  destruct (Z.eqb_spec (jr_position row) expected) as [Heq|Hne]; cbn [negb].
  - assert (u64_saturating_add expected 1 = expected + 1) as ->
      by (unfold u64_saturating_add in *; lia).
    rewrite <-Heq. destruct (assemble_rows (jr_position row + 1) found) as [[rows' gap'] next'] eqn:Ha.
    intros [= <- <- <-]. destruct (IH _ _ _ _ Htail Ha) as (-> & Hp & rest & -> & Hr & Hg).
    unfold llen in *. cbn [length map]. rewrite Nat2Z.inj_succ. split; [lia|]. split.
    + rewrite seqZ_cons by lia. f_equal. rewrite Hp. f_equal; lia.
    + exists rest. split; [done|]. split; [|done]. eapply Forall_impl; [done|]. intros x Hx. cbv beta in Hx. lia.
  - intros [= <- <- <-]. split; [unfold llen; simpl; lia|]. split; [done|]. exists (row :: found).
    split; [done|]. split; [|done]. destruct Htail as [_ Ht]. constructor; [lia|].
    eapply Forall_impl; [done|]. intros x Hx. simpl in Hx. lia.
Qed.

Section page.
Context `{SJ : SerdeJson} `{J : JournalJson} {Hlaws : JournalJsonLaws J} `{CJ : CompactionJson}.

(** An entry is where its position says. *)
Lemma journal_lookup commits rows scope p e :
  journal_ok commits rows → (p, e) ∈ journal_of commits scope →
  journal_of commits scope !! Z.to_nat (p - 1) = Some (p, e).
Proof.
  intros Hok Hin. pose proof Hin as Hin'. apply list_elem_of_lookup in Hin as [i Hi].
  assert (map fst (journal_of commits scope) !! i = Some p) as Hp by (by rewrite list_lookup_fmap, Hi).
  rewrite (jk_positions _ _ Hok) in Hp. apply lookup_seqZ in Hp as [-> _].
  by replace (Z.to_nat (1 + Z.of_nat i - 1)) with i by lia.
Qed.

(** The rows are the entries that follow the cursor. *)
Definition follows (commits : Commits) (scope : Scope) (after : Z) (rows : list JournalRow) : Prop :=
  rows = map (journal_row scope) (take (length rows) (drop (Z.to_nat after) (journal_of commits scope))).

Lemma follows_later commits commits' scope after rows :
  commits `prefix_of` commits' → follows commits scope after rows → follows commits' scope after rows.
Proof.
  intros Hp Hf. unfold follows in *. destruct (journal_of_prefix _ _ scope Hp) as [rest ->].
  assert (length rows ≤ length (drop (Z.to_nat after) (journal_of commits scope)))%nat as Hlen.
  { apply (f_equal length) in Hf. rewrite length_map, length_take in Hf. lia. }
  destruct (decide (Z.to_nat after ≤ length (journal_of commits scope))%nat) as [Hle|Hgt].
  - rewrite drop_app_le by lia. by rewrite take_app_le.
  - rewrite length_drop in Hlen. destruct rows; [done|simpl in Hlen; lia].
Qed.

(** A cursor at the largest position has nothing after it, but the next position saturates there. *)
Example gap_past_the_last_position scope :
  pg_gap (assemble scope u64_max 1 u64_max []) = Some (mkGap u64_max u64_max).
Proof. done. Qed.

Section assemble.
Context (commits : Commits) (s : MemStore) (Hok : journal_ok commits (ms_views s)).
Context (scope : Scope) (after limit counter : Z).
Context (Hafter : 0 ≤ after ≤ u64_max) (Hlimit : 1 ≤ limit).
Context (Hcounter : 0 ≤ counter ≤ journal_length commits scope).
Context (Hlength : journal_length commits scope < u64_max).

(** A position that was passed over is compacted. *)
Lemma missing_compacted (rows : list JournalRow) p :
  (∀ row, row ∈ rows ↔ ∃ entry, entry ∈ journal_of commits scope ∧ row = journal_row scope entry ∧
     after < entry.1 ∧ is_Some (ms_views s !! (row_pk scope, row_sk entry.1))) →
  after < p ≤ journal_length commits scope → (∀ row, row ∈ rows → jr_position row ≠ p) →
  p ≤ floor_of (ms_views s) scope.
Proof.
  intros Hrows Hp Hmiss. destruct (Z.le_gt_cases p (floor_of (ms_views s) scope)) as [?|Hf]; [done|].
  exfalso. destruct (journal_holds _ _ scope p Hok ltac:(lia)) as [e He].
  destruct (jk_present _ _ Hok scope p e He Hf) as (v & _ & Hv).
  apply (Hmiss (journal_row scope (p, e))); [|done]. apply Hrows. exists (p, e).
  split; [done|]. split; [done|]. split; [simpl; lia|]. by exists v.
Qed.

Lemma positions_follow (rows : list JournalRow) :
  (∀ row, row ∈ rows → ∃ entry, entry ∈ journal_of commits scope ∧ row = journal_row scope entry) →
  map jr_position rows = seqZ (after + 1) (llen rows) → follows commits scope after rows.
Proof.
  intros Hin Hpos. unfold follows. apply list_eq. intros i. rewrite list_lookup_fmap.
  destruct (rows !! i) as [row|] eqn:Hi.
  - rewrite lookup_take_lt by (by eapply lookup_lt_Some). rewrite lookup_drop.
    destruct (Hin row) as ([p e] & He & ->); [by eapply list_elem_of_lookup_2|].
    assert (map jr_position rows !! i = Some p) as Hp by (by rewrite list_lookup_fmap, Hi).
    rewrite Hpos in Hp. apply lookup_seqZ in Hp as [-> _].
    pose proof (journal_lookup _ _ _ _ _ Hok He) as Hl.
    replace (Z.to_nat (after + 1 + Z.of_nat i - 1)) with (Z.to_nat after + i)%nat in Hl by lia.
    by rewrite Hl.
  - apply lookup_ge_None in Hi. rewrite lookup_take_ge by done. done.
Qed.

Lemma found_max bound rows :
  0 ≤ bound → Forall (λ row, jr_position row ≤ bound) rows →
  0 ≤ foldr Z.max 0 (map jr_position rows) ≤ bound.
Proof. intros Hb. induction 1 as [|row rows Hrow _ IH]; simpl; lia. Qed.

Lemma assembled_rows all rows gap next :
  StronglySorted (λ a b, jr_position a < jr_position b) all →
  Forall (λ row, after < jr_position row ≤ journal_length commits scope) all →
  assemble_rows (u64_saturating_add after 1) all = (rows, gap, next) →
  next = Z.min u64_max (after + 1 + llen rows) ∧
  map jr_position rows = seqZ (after + 1) (llen rows) ∧
  ∃ rest, all = rows ++ rest ∧ Forall (λ row, after + 1 + llen rows < jr_position row) rest ∧
    match gap with None => rest = [] | Some _ => rest ≠ [] end.
Proof.
  intros Hs Hall. unfold u64_saturating_add. destruct (Z.eq_dec after u64_max) as [->|Hne].
  - destruct all as [|row all].
    + simpl. intros [= <- <- <-]. split; [done|]. split; [done|]. exists []. by split_and!.
    + apply Forall_cons in Hall as [Hrow _]. lia.
  - rewrite Z.min_r by lia. intros Ha.
    destruct (assemble_rows_spec all (after + 1) rows gap next) as (-> & Hp & rest & -> & Hr & Hg); [|done|].
    { split; [done|]. eapply Forall_impl; [exact Hall|]. intros row Hrow. cbv beta in Hrow. lia. }
    split; [|split; [done|by exists rest]].
    assert (llen rows = 0 ∨ after + llen rows ≤ journal_length commits scope) as Hbound.
    { destruct (decide (llen rows = 0)) as [?|Hnz]; [by left|right].
      assert (after + llen rows ∈ map jr_position rows) as Hin.
      { rewrite Hp. apply elem_of_seqZ. unfold llen in *. lia. }
      apply list_elem_of_fmap in Hin as (row & -> & Hrow). apply Forall_app in Hall as [Hall _].
      rewrite Forall_forall in Hall. by destruct (Hall row Hrow). }
    unfold llen in *. lia.
Qed.

(** What an assembled page says. *)
Record page_of (page : JournalPage) : Prop := {
  po_scope : pg_scope page = scope;
  po_after : pg_after page = after;
  po_rows : follows commits scope after (pg_rows page);
  po_next : next_after page = after + llen (pg_rows page);
  po_watermark : counter ≤ pg_high_watermark page ≤ journal_length commits scope;
  po_ahead : pg_cursor_ahead page = (pg_high_watermark page <? after);
  po_gap : match pg_gap page with
    | None => llen (pg_rows page) < limit → pg_high_watermark page ≤ next_after page
    | Some _ => next_after page < floor_of (ms_views s) scope
    end
}.

Lemma next_after_positions page :
  pg_after page = after → map jr_position (pg_rows page) = seqZ (after + 1) (llen (pg_rows page)) →
  next_after page = after + llen (pg_rows page).
Proof.
  intros Ha Hp. unfold next_after. destruct (last (pg_rows page)) as [row|] eqn:Hl.
  - rewrite last_lookup in Hl. assert (map jr_position (pg_rows page) !! pred (length (pg_rows page))
      = Some (jr_position row)) as Hrow by (by rewrite list_lookup_fmap, Hl).
    rewrite Hp in Hrow. apply lookup_seqZ in Hrow as [-> Hlt]. unfold llen in *. lia.
  - apply last_None in Hl. rewrite Hl, Ha. unfold llen. simpl. lia.
Qed.

(** The position after the rows kept is not among the rows read. *)
Lemma next_missing (all rows rest : list JournalRow) n :
  StronglySorted (λ a b, jr_position a < jr_position b) all → take n all = rows ++ rest →
  map jr_position rows = seqZ (after + 1) (llen rows) →
  Forall (λ row, after + 1 + llen rows < jr_position row) rest →
  (rest = [] → all = rows) →
  ∀ row, row ∈ all → jr_position row ≠ after + 1 + llen rows.
Proof.
  intros Hs Htake Hp Hrest Hnil row Hin.
  assert (∀ r, r ∈ rows → jr_position r < after + 1 + llen rows) as Hrows.
  { intros r Hr. apply (list_elem_of_fmap_2 jr_position) in Hr. change (jr_position <$> rows) with (map jr_position rows) in Hr.
    rewrite Hp in Hr. apply elem_of_seqZ in Hr. lia. }
  destruct rest as [|r0 rest]; [rewrite Hnil in Hin by done; specialize (Hrows row Hin); lia|].
  rewrite <-(take_drop n all), Htake in Hin, Hs. rewrite !elem_of_app in Hin.
  rewrite Forall_forall in Hrest. destruct Hin as [[Hin|Hin]|Hin].
  - specialize (Hrows row Hin). lia.
  - specialize (Hrest row Hin). cbv beta in Hrest. lia.
  - assert (jr_position r0 < jr_position row) as Hlt.
    { apply (StronglySorted_app_1_elem_of (λ a b, jr_position a < jr_position b) (rows ++ r0 :: rest) (drop n all));
        [done| |done]. apply elem_of_app. right. apply list_elem_of_here. }
    specialize (Hrest r0 (list_elem_of_here _ _)). cbv beta in Hrest. lia.
Qed.

Lemma assemble_ok found :
  mem_read_rows s scope after (limit + 1) = Ok found →
  page_of (assemble scope after limit counter found).
Proof.
  intros Hfound. destruct (read_rows_ok commits s Hok scope after Hafter) as (all & Hread & Hsort & Hall).
  rewrite Hread in Hfound. injection Hfound as Hf.
  assert (∀ row, row ∈ all → after < jr_position row ≤ journal_length commits scope) as Hpos.
  { intros row ([p e] & He & -> & Hlt & _)%Hall. simpl in *.
    pose proof (journal_position _ _ _ _ _ Hok He). lia. }
  assert (∀ n row, row ∈ take n all → row ∈ all) as Hsub.
  { intros n row Hrow. rewrite <-(take_drop n all). apply elem_of_app. by left. }
  assert (take (Z.to_nat limit) found = take (Z.to_nat limit) all) as Htake
    by (rewrite <-Hf, take_take; f_equal; lia).
  set (watermark := Z.max counter (foldr Z.max 0 (map jr_position found))).
  assert (counter ≤ watermark ≤ journal_length commits scope) as Hwater.
  { unfold watermark. destruct (found_max (journal_length commits scope) found) as [? ?]; [lia| |lia].
    apply Forall_forall. intros row Hrow. apply Hpos. rewrite <-Hf in Hrow. by apply Hsub in Hrow. }
  unfold assemble. fold watermark. rewrite Htake.
  destruct (assemble_rows _ _) as [[rows gap] next] eqn:Ha.
  apply assembled_rows in Ha as (-> & Hp & rest & Hsplit & Hrest & Hg).
  2: { rewrite <-(take_drop (Z.to_nat limit) all) in Hsort. by apply StronglySorted_app_1_l in Hsort. }
  2: { apply Forall_forall. intros row Hrow. by apply Hpos, (Hsub (Z.to_nat limit)). }
  assert (∀ page, pg_rows page = rows → pg_after page = after → next_after page = after + llen rows) as Hnext
    by (intros page Hr Hpa; rewrite <-Hr; apply next_after_positions; [done|by rewrite Hr]).
  assert ((rest = [] → all = rows) → after + 1 + llen rows ≤ journal_length commits scope →
    after + llen rows < floor_of (ms_views s) scope) as Hmiss.
  { intros Hnil Hle. pose proof (missing_compacted all (after + 1 + llen rows) Hall) as Hc.
    assert (after + 1 + llen rows ≤ floor_of (ms_views s) scope); [|lia].
    apply Hc; [unfold llen in *; lia|]. by eapply next_missing. }
  split; cbn [pg_scope pg_after pg_rows pg_high_watermark pg_gap pg_cursor_ahead]; try done.
  - apply positions_follow; [|done]. intros row Hrow. destruct (proj1 (Hall row)) as (entry & ? & ? & _); [|by exists entry].
    apply (Hsub (Z.to_nat limit)). rewrite Hsplit. apply elem_of_app. by left.
  - by apply Hnext.
  - rewrite Hnext by done. destruct gap as [gap|].
    + destruct rest as [|r0 rest]; [done|]. apply Hmiss; [done|].
      apply Forall_cons in Hrest as [Hr0 _]. destruct (Hpos r0) as [_ Hle]; [|lia].
      apply (Hsub (Z.to_nat limit)). rewrite Hsplit. apply elem_of_app. right. apply list_elem_of_here.
    + subst rest. rewrite app_nil_r in Hsplit.
      destruct (Z.ltb_spec (llen rows) limit) as [Hlt|Hge]; cbn [andb]; [|lia].
      destruct (Z.leb_spec (Z.min u64_max (after + 1 + llen rows)) watermark) as [Hle|Hgt]; [|lia].
      apply Hmiss; [|lia]. intros _. rewrite <-Hsplit. symmetry. apply take_ge.
      apply (f_equal length) in Hsplit. rewrite length_take in Hsplit. unfold llen in *. lia.
Qed.
End assemble.

(** ** Reading a page *)

(** What a page promises, whatever ran while it was read: the rows that follow the cursor, up to
    the limit or to the watermark, with no gap; or that the rows are compacted. *)
Definition page_answer (scope : Scope) (after limit : Z) (r : Result JournalPage) (g : Ghost) : Prop :=
  length_of g scope < u64_max →
  match r with
  | Ok page =>
      pg_scope page = scope ∧ pg_after page = after ∧ pg_gap page = None ∧
      follows (commits_of g) scope after (pg_rows page) ∧
      next_after page = after + llen (pg_rows page) ∧
      pg_high_watermark page ≤ length_of g scope ∧
      pg_cursor_ahead page = (pg_high_watermark page <? after) ∧
      (llen (pg_rows page) < limit → pg_high_watermark page ≤ next_after page)
  | Err (JournalGone _) => after < floor_of (rows_of g) scope
  | Err _ => limit = 0 ∨ MAX_PAGE_ROWS < limit
  end.

Lemma page_answer_later scope after limit r g g' :
  journal_le g g' → page_answer scope after limit r g → page_answer scope after limit r g'.
Proof.
  intros Hle Hr Hlt. pose proof (length_le _ _ scope Hle) as Hlen. specialize (Hr ltac:(lia)).
  pose proof (journal_le_commits _ _ Hle) as Hc. pose proof (jl_floor _ _ Hle scope) as Hfloor.
  destruct r as [page|e]; [|destruct e; try done; lia].
  destruct Hr as (H1 & H2 & H3 & H4 & H5 & H6 & H7 & H8). split_and!; try done; [|lia].
  by eapply follows_later.
Qed.

Section client.
Context (i : nat).
#[local] Existing Instance client_handler.
Abbreviation jassures := (@assures _ _ (client_handler i) journal_inv journal_le (client_role i) _) (only parsing).

Lemma page_assures scope after limit g :
  0 ≤ after ≤ u64_max → 0 ≤ limit → journal_inv g →
  jassures (page scope after limit) (page_answer scope after limit) g.
Proof.
  intros Hafter Hlimit Hg. unfold page. destruct (_ || _) eqn:Hl.
  { returns. intros _. apply orb_true_iff in Hl as [?|?]; [left|right]; lia. }
  apply orb_false_iff in Hl as [Hl _].
  step_try. eapply assures_mono; [|by apply counter_assures]. intros r g1 Hg1 _ ->. cbv beta iota.
  step_try. eapply assures_mono; [|by apply rows_assures]. intros r g2 Hg2 Hle2 Hr. cbv beta iota.
  destruct (read_rows_ok _ (jw_store (gh_world g2)) (ji_journal _ Hg2) scope after Hafter) as (all & Hread & _).
  cbv beta in Hr. rewrite (Hread (limit + 1)) in Hr. subst r. pose proof (Hread (limit + 1)) as Hfound. revert Hfound.
  generalize (take (Z.to_nat (limit + 1)) all). intros found Hfound.
  assert (length_of g2 scope < u64_max →
    page_of (commits_of g2) (jw_store (gh_world g2)) scope after limit (length_of g1 scope)
      (assemble scope after limit (length_of g1 scope) found)) as Hpage.
  { intros Hlt. apply assemble_ok; [apply (ji_journal _ Hg2)|done|lia| |done|done].
    pose proof (length_le _ _ scope Hle2). pose proof (journal_length_nonneg (commits_of g1) scope).
    unfold length_of in *. lia. }
  revert Hpage. generalize (assemble scope after limit (length_of g1 scope) found). intros page Hpage.
  destruct (pg_gap page) as [gap|] eqn:Hgap.
  - step_try. eapply assures_mono; [|by apply manifest_assures].
    intros r g3 Hg3 Hle3 ->. cbv beta iota.
    assert (length_of g3 scope < u64_max → after ≤ next_after page < floor_of (rows_of g3) scope) as Hgone.
    { intros Hlt. pose proof (length_le _ _ scope Hle3). destruct (Hpage ltac:(lia)) as [_ _ _ Hn _ _ Hgp].
      rewrite Hgap in Hgp. pose proof (jl_floor _ _ Hle3 scope). unfold rows_of in *.
      unfold llen in Hn. lia. }
    pose proof (floor_manifest (rows_of g3) scope) as Hf. destruct (manifest_at _ _) as [manifest|].
    + destruct (Z.ltb_spec (next_after page) (mn_checkpoint manifest)).
      * returns. intros Hlt. specialize (Hgone Hlt). simpl. lia.
      * returns. intros Hlt. specialize (Hgone Hlt). lia.
    + returns. intros Hlt. specialize (Hgone Hlt).
      pose proof (po_next _ _ _ _ _ _ _ (Hpage ltac:(pose proof (length_le _ _ scope Hle3); lia))).
      unfold llen in *. lia.
  - returns. intros Hlt. destruct (Hpage Hlt) as [H1 H2 H3 H4 H5 H6 H7]. rewrite Hgap in H7.
    split_and!; try done. unfold length_of. lia.
Qed.
End client.
End page.
