(* ===== verification/CompactChunks.v ===== *)
(** * The chunks of a compaction

    How rows are packed into chunks, as a function of the rows alone, and that reading the rows page
    by page while others run packs the same chunks. *)

From S2P Require Import Prelude Types Features Outcome Rebuild Projection Repository Retry Mem.
From S2P Require Import MemInvariant MemRefinement MemSafety Program LogBackend MemBackend Sha256.
From S2P Require Import JournalScope Compaction JournalConfig JournalRead JournalRepository JournalInvariant.
From S2P Require Import JournalStage JournalInvariant Compact CompactInvariant.
From S2P Require Import JournalClients JournalPages CompactLease.

(** ** Packing *)

Section pack.
Context `{J : JournalJson} `{CJ : CompactionJson}.

(** The chunks a builder closes over the rows that are left, and the one it ends with. *)
Fixpoint pack (b : ChunkBuilder) (rows : list JournalRow) : Result (list BuiltChunk) :=
  match rows with
  | [] => Ok [builder_build b]
  | row :: rest =>
      let? pushed := builder_push b row in
      let? others := pack pushed.1 rest in
      Ok (match pushed.2 with Some closed => closed :: others | None => others end)
  end.

Lemma builder_add_spec b row bytes closed b' closed' :
  builder_add b row bytes closed = Ok (b', closed') →
  closed' = closed ∧ cb_scope b' = cb_scope b ∧ cb_index b' = cb_index b ∧ cb_from b' = cb_from b ∧
  cb_rows b' = cb_rows b ++ [bytes].
Proof. unfold builder_add. destruct (_ <? _); [done|]. by intros [= <- <-]. Qed.

Lemma builder_push_spec b row b' closed :
  builder_push b row = Ok (b', closed) →
  ∃ text, encode_row (jr_scope row) (jr_position row) (jr_event row) = Ok text ∧
    jr_position row = cb_from b + llen (cb_rows b) ∧ cb_scope b' = cb_scope b ∧
    ((closed = None ∧ cb_index b' = cb_index b ∧ cb_from b' = cb_from b ∧
      cb_rows b' = cb_rows b ++ [text]) ∨
     (closed = Some (builder_build b) ∧ cb_rows b ≠ [] ∧ cb_index b' = cb_index b + 1 ∧
      cb_from b' = jr_position row ∧ cb_rows b' = [text])).
Proof.
  unfold builder_push. destruct (encode_row _ _ _) as [text|]; cbn [result_bind]; [|done].
  destruct (Z.eqb_spec (jr_position row) (cb_from b + llen (cb_rows b))) as [Heq|]; cbn [negb]; [|done].
  intros Hp. exists text. split; [done|]. split; [done|].
  destruct (cb_rows b) as [|t texts] eqn:Hrows; cbn [nil_b negb andb] in Hp.
  - apply builder_add_spec in Hp as (-> & -> & Hi & Hf & Hr). split; [done|]. left. by rewrite Hr, Hrows.
  - destruct (_ || _) in Hp; apply builder_add_spec in Hp as (-> & -> & Hi & Hf & Hr); (split; [done|]).
    + right. by rewrite Hr.
    + left. by rewrite Hr, Hrows.
Qed.

Definition row_texts (rows : list JournalRow) (texts : list string) : Prop :=
  Forall2 (λ row text, encode_row (jr_scope row) (jr_position row) (jr_event row) = Ok text) rows texts.

(** What a chunk packed from some texts is. *)
Definition chunk_of (scope : Scope) (index from : Z) (texts : list string) (chunk : BuiltChunk) : Prop :=
  bc_index chunk = index ∧ bc_payload chunk = chunk_text scope index from texts ∧
  bc_digest chunk = sha256_hex (bc_payload chunk).

(** Chunks packed one after the other, from the texts [parts]. *)
Fixpoint chunks_of (scope : Scope) (index from : Z) (parts : list (list string))
    (chunks : list BuiltChunk) : Prop :=
  match parts, chunks with
  | [], [] => True
  | texts :: parts, chunk :: chunks =>
      chunk_of scope index from texts chunk ∧
      chunks_of scope (index + 1) (from + llen texts) parts chunks
  | _, _ => False
  end.

Lemma builder_build_of b : chunk_of (cb_scope b) (cb_index b) (cb_from b) (cb_rows b) (builder_build b).
Proof. by split_and!. Qed.

Lemma pack_spec rows : ∀ b chunks,
  pack b rows = Ok chunks →
  ∃ texts part parts, row_texts rows texts ∧ concat (part :: parts) = cb_rows b ++ texts ∧
    chunks_of (cb_scope b) (cb_index b) (cb_from b) (part :: parts) chunks ∧
    Forall (λ l, l ≠ []) parts ∧ cb_rows b `prefix_of` part ∧ (rows ≠ [] → part ≠ []).
Proof.
  induction rows as [|row rows IH]; intros b chunks; cbn [pack].
  - intros [= <-]. exists [], (cb_rows b), []. split; [constructor|].
    split; [simpl; by rewrite app_nil_r|]. split; [split; [apply builder_build_of|done]|].
    split; [constructor|]. by split.
  - destruct (builder_push b row) as [[b' closed]|] eqn:Hp; cbn [result_bind fst snd]; [|done].
    apply builder_push_spec in Hp as (text & He & Hpos & Hs & Hc).
    destruct (pack b' rows) as [others|] eqn:Ho; cbn [result_bind]; [|done]. intros [= <-].
    destruct (IH _ _ Ho) as (texts & part & parts & Ht & Hcat & Hof & Hne & Hpre & _).
    exists (text :: texts). destruct Hc as [(-> & Hi & Hf & Hr)|(-> & Hnb & Hi & Hf & Hr)].
    + exists part, parts. split; [by constructor|]. rewrite Hr in Hcat, Hpre. rewrite Hs, Hi, Hf in Hof.
      split; [by rewrite Hcat, <-app_assoc|]. split; [done|]. split; [done|].
      split; [|intros _ ->; apply prefix_nil_inv in Hpre; by destruct (cb_rows b)].
      etrans; [|exact Hpre]. by apply prefix_app_r.
    + exists (cb_rows b), (part :: parts). split; [by constructor|]. rewrite Hr in Hcat, Hpre.
      split; [cbn [concat] in *; by rewrite Hcat|]. rewrite Hs, Hi, Hf, Hpos in Hof.
      split; [split; [apply builder_build_of|done]|].
      split; [constructor; [|done]; intros ->; by apply prefix_nil_inv in Hpre|]. by split.
Qed.

Lemma chunks_of_length scope index from parts chunks :
  chunks_of scope index from parts chunks → length parts = length chunks.
Proof.
  revert index from chunks. induction parts as [|texts parts IH]; intros index from [|chunk chunks]; simpl; try done.
  intros [_ Hc]. f_equal. by eapply IH.
Qed.

Lemma chunks_of_lookup scope index from parts chunks k chunk texts :
  chunks_of scope index from parts chunks → chunks !! k = Some chunk → parts !! k = Some texts →
  chunk_of scope (index + Z.of_nat k) (from + llen (concat (take k parts))) texts chunk.
Proof.
  revert index from chunks k. induction parts as [|t parts IH]; intros index from [|c chunks] k; simpl; try done.
  intros [Hc Hcs]. destruct k as [|k]; simpl.
  - intros [= ->] [= ->]. by rewrite !Z.add_0_r.
  - intros Hk Ht. specialize (IH _ _ _ _ Hcs Hk Ht).
    replace (index + Z.of_nat (S k)) with (index + 1 + Z.of_nat k) by lia.
    replace (from + llen (t ++ concat (take k parts))) with (from + llen t + llen (concat (take k parts)));
      [done|]. unfold llen. rewrite length_app. lia.
Qed.
End pack.

(** ** Reading the rows to pack *)

Section chunks.
Context `{SJ : SerdeJson} `{J : JournalJson} {Hlaws : JournalJsonLaws J} `{CJ : CompactionJson}.
Context {Hclaws : CompactionJsonLaws J CJ} (i : nat).
Context (scope : Scope) (through : Z) (entries : list (Z * SerializedEvent)).

#[local] Existing Instance client_handler.
Abbreviation calmly := (@assures _ _ (client_handler i) journal_inv (tolerates i) (calm_role i) _) (only parsing).

(** The entries to compact: the journal has reached them, and it only grows. *)
Definition has_entries (g : Ghost) : Prop :=
  0 ≤ through ≤ length_of g scope ∧ take (Z.to_nat through) (journal_of (commits_of g) scope) = entries.

Lemma has_entries_later g g' : journal_le g g' → has_entries g → has_entries g'.
Proof.
  intros Hle [Ht He]. pose proof (length_le _ _ scope Hle). split; [lia|]. rewrite <-He.
  destruct (journal_of_prefix _ _ scope (journal_le_commits _ _ Hle)) as [rest ->].
  unfold length_of, journal_length, llen in Ht. by rewrite take_app_le by lia.
Qed.

Lemma has_entries_length g : has_entries g → length entries = Z.to_nat through.
Proof.
  intros [Ht <-]. unfold length_of, journal_length, llen in Ht. rewrite length_take. lia.
Qed.

Lemma entries_lookup g p e :
  journal_inv g → has_entries g → (p, e) ∈ journal_of (commits_of g) scope → p ≤ through →
  1 ≤ p ∧ entries !! Z.to_nat (p - 1) = Some (p, e).
Proof.
  intros Hg [Ht <-] Hin Hp. pose proof (journal_position _ _ _ _ _ (ji_journal _ Hg) Hin).
  split; [lia|]. rewrite lookup_take_lt by lia. exact (journal_lookup _ _ _ _ _ (ji_journal _ Hg) Hin).
Qed.

(** A row of an entry to compact. *)
Definition is_entry (row : JournalRow) : Prop :=
  ∃ e, 1 ≤ jr_position row ∧ entries !! Z.to_nat (jr_position row - 1) = Some (jr_position row, e) ∧
    row = journal_row scope (jr_position row, e).

(** A builder that holds consecutive entries. *)
Record builder_ok (b : ChunkBuilder) (g : Ghost) : Prop := {
  bo_scope : cb_scope b = scope;
  bo_index : 0 ≤ cb_index b < cb_from b;
  bo_rows : holds_from (commits_of g) scope (cb_from b) (cb_rows b)
}.

Lemma builder_ok_later b g g' : journal_le g g' → builder_ok b g → builder_ok b g'.
Proof.
  intros Hle [Hs Hi Hr]. split; [done|done|]. eapply holds_from_later; [|done]. by apply journal_le_commits.
Qed.

Record chunks_wf (c : Chunks) (g : Ghost) : Prop := {
  cw_scope : cs_scope c = scope;
  cw_through : cs_through c = through;
  cw_after : 0 ≤ cs_after c ≤ through;
  cw_rows : Forall is_entry (cs_rows c);
  cw_builder : ∀ b, cs_builder c = Some b → builder_ok b g ∧ (cb_rows b = [] → cs_after c < through)
}.

Lemma chunks_wf_later c g g' : journal_le g g' → chunks_wf c g → chunks_wf c g'.
Proof.
  intros Hle [H1 H2 H3 H4 H5]. split; try done. intros b Hb. destruct (H5 b Hb) as [Hok Hne].
  split; [by eapply builder_ok_later|done].
Qed.

(** A row is pushed: the builder goes on, or it closes a chunk and a new one starts. *)
Lemma push_ok b row b' closed g :
  has_entries g → builder_ok b g → is_entry row → builder_push b row = Ok (b', closed) →
  builder_ok b' g ∧ cb_rows b' ≠ [] ∧
  match closed with
  | None => cb_index b' = cb_index b
  | Some chunk => chunk = builder_build b ∧ cb_rows b ≠ [] ∧ cb_index b' = cb_index b + 1
  end.
Proof.
  intros He [Hs Hi [Hf Hr]] (e & Hp1 & Hl & Hrow) Hpush.
  apply builder_push_spec in Hpush as (text & Henc & Hpos & Hs' & Hc).
  assert (encodes scope (take 1 (drop (Z.to_nat (jr_position row - 1)) (journal_of (commits_of g) scope))) [text]) as Hone.
  { destruct He as [_ He]. assert (journal_of (commits_of g) scope !! Z.to_nat (jr_position row - 1) =
      Some (jr_position row, e)) as Hj.
    { rewrite <-He in Hl. by apply lookup_take_Some in Hl as [Hl _]. }
    rewrite (drop_S _ _ _ Hj). constructor; [|constructor]. rewrite Hrow in Henc. exact Henc. }
  destruct Hc as [(-> & Hi' & Hf' & Hr')|(-> & Hnb & Hi' & Hf' & Hr')].
  - split; [|split; [rewrite Hr'; by destruct (cb_rows b)|done]]. split; [congruence|lia|].
    rewrite Hf', Hr'. apply holds_from_app. split; [done|]. split; [done|].
    replace (cb_from b + llen (cb_rows b) - 1) with (jr_position row - 1) by lia. exact Hone.
  - split; [|split; [by rewrite Hr'|done]].
    assert (0 < length (cb_rows b))%nat by (destruct (cb_rows b); [done|simpl; lia]).
    split; [congruence|unfold llen in Hpos; lia|]. rewrite Hf', Hr'. split; [lia|exact Hone].
Qed.

(** A closed chunk is one that may be stored. *)
Definition chunk_ok (chunk : BuiltChunk) (g : Ghost) : Prop :=
  ∃ from texts, stored_chunk (commits_of g) scope (bc_index chunk) from texts ∧
    chunk_of scope (bc_index chunk) from texts chunk.

Lemma build_ok b g : builder_ok b g → cb_rows b ≠ [] → chunk_ok (builder_build b) g.
Proof.
  intros [Hs Hi Hr] Hne. exists (cb_from b), (cb_rows b). split; [by split|].
  rewrite <-Hs. apply builder_build_of.
Qed.

(** The chunks that are left to close. *)
Definition todo (c : Chunks) : Result (list BuiltChunk) :=
  match cs_builder c with
  | None => Ok []
  | Some b => pack b (map (journal_row scope) (drop (Z.to_nat (cs_after c)) entries))
  end.

Definition chunks_left (c : Chunks) : nat :=
  match cs_builder c with None => 0 | Some _ => S (Z.to_nat (through - cs_after c)) end.

Lemma take_while_elem {A} (p : A → bool) l x : x ∈ take_while p l → x ∈ l ∧ p x = true.
Proof.
  induction l as [|y l IH]; simpl; [by intros ?%not_elem_of_nil|]. destruct (p y) eqn:Hp; [|by intros ?%not_elem_of_nil].
  rewrite !elem_of_cons. intros [->|Hx]; [by split; [left|]|]. destruct (IH Hx). by split; [right|].
Qed.

(** Every row that is read is of an entry, in any state. *)
Lemma read_rows_entries g after limit rows :
  journal_inv g → has_entries g → 0 ≤ after ≤ u64_max →
  mem_read_rows (jw_store (gh_world g)) scope after limit = Ok rows →
  Forall is_entry (take_while (λ row, jr_position row <=? through) rows).
Proof.
  intros Hg He Hafter Hr.
  destruct (read_rows_ok _ (jw_store (gh_world g)) (ji_journal _ Hg) scope after Hafter) as (all & Hread & _ & Hall).
  rewrite Hread in Hr. injection Hr as <-. apply Forall_forall. intros row [Hin Hp]%take_while_elem.
  assert (row ∈ all) as Hin' by (rewrite <-(take_drop (Z.to_nat limit) all); apply elem_of_app; by left).
  apply Hall in Hin' as ([p e] & Hj & -> & _). simpl in Hp.
  destruct (entries_lookup g p e Hg He Hj) as [H1 Hl]; [lia|]. by exists e.
Qed.

Lemma fill_calm c g :
  journal_inv g → has_entries g → chunks_wf c g →
  calmly (chunks_fill c) (λ r _, ∀ rows, r = Ok rows → Forall is_entry rows) g.
Proof.
  intros Hg He [Hs Ht Ha Hr _]. unfold chunks_fill. rewrite Hs, Ht.
  destruct (nil_b _); [|returns; by intros rows [= <-]].
  step_try. eapply assures_mono; [|by apply rows_assures]. intros r g1 Hg1 [Hle _] Hrows. cbv beta in Hrows.
  destruct r as [rows|]; [|done]. returns. intros rows' [= <-].
  pose proof (has_entries_later _ _ Hle He) as He1.
  eapply read_rows_entries; [exact Hg1|done| |by symmetry].
  pose proof (jk_bound _ _ (ji_journal _ Hg1) scope). destruct He1 as [Hth _]. unfold length_of in Hth. lia.
Qed.

(** The entry after the ones that are packed. *)
Lemma entries_drop row after :
  is_entry row → jr_position row = after + 1 → 0 ≤ after →
  map (journal_row scope) (drop (Z.to_nat after) entries) =
  row :: map (journal_row scope) (drop (Z.to_nat (jr_position row)) entries).
Proof.
  intros (e & _ & Hl & Hrow) Hp Ha. rewrite Hp in Hl. replace (after + 1 - 1) with after in Hl by lia.
  rewrite (drop_S _ _ _ Hl). cbn [map]. f_equal; [by rewrite Hrow, Hp|].
  f_equal. f_equal. lia.
Qed.

(** What a turn of the iteration yields. *)
Definition next_chunk (c : Chunks) (r : Result (Chunks * option BuiltChunk)) (g : Ghost) : Prop :=
  ∀ c' out, r = Ok (c', out) →
    chunks_wf c' g ∧
    match out with
    | None => cs_builder c = None
    | Some chunk =>
        (chunks_left c' < chunks_left c)%nat ∧ todo c = (let? l := todo c' in Ok (chunk :: l)) ∧
        chunk_ok chunk g ∧ (∀ b, cs_builder c = Some b → bc_index chunk = cb_index b) ∧
        (∀ b', cs_builder c' = Some b' → cb_index b' = bc_index chunk + 1)
    end.

Lemma chunks_loop_calm fuel : ∀ c g,
  journal_inv g → has_entries g → chunks_wf c g → (Z.to_nat (through - cs_after c) < fuel)%nat →
  calmly (chunks_loop fuel c) (next_chunk c) g.
Proof.
  induction fuel as [|fuel IH]; intros c g Hg He Hc Hfuel; [lia|]. cbn [chunks_loop].
  destruct (cs_builder c) as [b|] eqn:Hb; [|by returns; intros c' out [= <- <-]].
  pose proof Hc as [Hs Ht Ha Hq Hbo]. destruct (Hbo b Hb) as [Hok Hne]. rewrite Ht.
  destruct (Z.leb_spec through (cs_after c)) as [Hle|Hlt].
  { returns. intros c' out [= <- <-]. split; [by split|]. unfold chunks_left, todo. simpl. rewrite Hb.
    split; [lia|]. pose proof (has_entries_length g He). rewrite drop_ge by lia. split; [done|].
    split; [apply build_ok; [done|intros Hnil; specialize (Hne Hnil); lia]|].
    split; [by intros ? [= <-]|done]. }
  step_try. eapply assures_mono; [|by apply fill_calm]. intros [rows|e] g1 Hg1 [Hle _] Hrows; [|done].
  specialize (Hrows rows eq_refl). pose proof (has_entries_later _ _ Hle He) as He1.
  destruct rows as [|row rest]; [by returns|]. apply Forall_cons in Hrows as [Hrow Hrest].
  destruct (Z.eqb_spec (jr_position row) (cs_after c + 1)) as [Hp|]; [|by returns].
  step_try. returns. destruct (builder_push b row) as [[b' closed]|] eqn:Hpush; [|done].
  cbn [fst snd]. set (c1 := mkChunks (cs_scope c) (Some b') (jr_position row) through rest).
  pose proof (builder_ok_later _ _ _ Hle Hok) as Hok1.
  destruct (push_ok _ _ _ _ _ He1 Hok1 Hrow Hpush) as (Hok' & Hne' & Hcl).
  assert (chunks_wf c1 g1) as Hc1 by (split; simpl; [done|done|lia|done|by intros ? [= <-]]).
  assert (todo c = let? l := todo c1 in
    Ok (match closed with Some chunk => chunk :: l | None => l end)) as Htodo.
  { unfold todo. rewrite Hb. cbn [cs_builder cs_after c1]. rewrite (entries_drop row (cs_after c)) by (done || lia).
    cbn [pack]. by rewrite Hpush. }
  destruct closed as [chunk|].
  - destruct Hcl as (-> & Hnb & Hidx). returns. intros c' out [= <- <-]. split; [done|].
    unfold chunks_left. rewrite Hb. simpl. split; [lia|]. split; [done|].
    split; [by apply build_ok|]. split; [by intros ? [= <-]|by intros ? [= <-]].
  - eapply assures_mono; [|apply (IH c1); [done|done|done|simpl; lia]].
    intros r g2 Hg2 _ Hn c' out Hr. specialize (Hn c' out Hr) as [Hwf Hn]. split; [done|].
    destruct out as [chunk|]; [|done]. destruct Hn as (Hl & Ht1 & Hck & Hi1 & Hi2). split.
    + unfold chunks_left in *. simpl in Hl. rewrite Hb. lia.
    + rewrite Htodo, Ht1. split; [by destruct (todo c')|]. split; [done|]. split; [|done].
      intros b0 Hb0. rewrite Hb in Hb0. injection Hb0 as <-. rewrite <-Hcl. by apply Hi1.
Qed.

Lemma chunks_next_calm c g :
  journal_inv g → has_entries g → chunks_wf c g → calmly (chunks_next c) (next_chunk c) g.
Proof.
  intros Hg He Hc. apply chunks_loop_calm; [done|done|done|]. rewrite (cw_through _ _ Hc). lia.
Qed.

(** How an iteration starts: from the first entry, or from the last chunk of a manifest. *)
Definition starts_from (old : option CompactionManifest) (tail : option ViewRow) (b : ChunkBuilder) : Prop :=
  match old with
  | None => b = builder_new scope 0 1
  | Some m =>
      ∃ row, tail = Some row ∧ builder_resume scope (vr_payload row) = Ok b ∧
        mn_chunks m !! (length (mn_chunks m) - 1)%nat = Some (sha256_hex (vr_payload row))
  end.

Definition tail_sk (old : option CompactionManifest) : string :=
  match old with
  | Some m => chunk_sk (Z.of_nat (length (mn_chunks m) - 1))
  | None => EmptyString
  end.

Definition checkpoint_of (old : option CompactionManifest) : Z :=
  match old with Some m => mn_checkpoint m | None => 0 end.

(** The index the first chunk has. *)
Definition first_index (old : option CompactionManifest) : Z :=
  match old with Some m => Z.of_nat (length (mn_chunks m) - 1) | None => 0 end.

Lemma encodes_rows entries' texts :
  encodes scope entries' texts → Forall (λ text, ∃ row, json_row row = Ok text) texts.
Proof.
  intros He. induction He as [|entry text entries' texts H _ IH]; constructor; [|done].
  unfold encode_row in H. destruct (json_row _) as [t|] eqn:Hr; [|done]. injection H as <-. by eexists.
Qed.

(** A stored chunk is read back as what it was built from. *)
Lemma decode_stored commits index from texts :
  stored_chunk commits scope index from texts → journal_length commits scope ≤ u64_max →
  decode_chunk scope (chunk_text scope index from texts) =
    Ok (mkChunkIn scope index from (from + llen texts - 1) texts).
Proof.
  intros Hst Hb. destruct (stored_chunk_bound _ _ _ _ _ Hst) as [Hi Hlen].
  destruct Hst as (H0 & Hne & [Hf He]). unfold decode_chunk, chunk_text.
  assert (0 < length texts)%nat by (destruct texts; [done|simpl; lia]).
  rewrite parse_chunk_law; cbn [cb_index cb_from cb_rows cb_scope]; unfold builder_through;
    cbn [cb_from cb_rows]; [|unfold llen in *; lia..|done|by eapply encodes_rows].
  cbn [map_err result_bind ci_scope ci_rows ci_from]. rewrite bool_decide_true by done.
  destruct texts as [|t texts]; [done|]. cbn [negb nil_b orb].
  destruct (Z.eqb_spec from 0); [lia|done].
Qed.

Lemma resume_stored commits index from texts b :
  stored_chunk commits scope index from texts → journal_length commits scope ≤ u64_max →
  builder_resume scope (chunk_text scope index from texts) = Ok b →
  cb_scope b = scope ∧ cb_index b = index ∧ cb_from b = from ∧ cb_rows b = texts.
Proof.
  intros Hst Hb. unfold builder_resume. rewrite (decode_stored _ _ _ _ Hst Hb). cbn [result_bind].
  by intros [= <-].
Qed.

Lemma chunks_start_calm old g :
  journal_inv g → has_entries g → 0 ≤ checkpoint_of old < through →
  calmly (chunks_start scope old through)
    (λ r g', ∀ c, r = Ok c → chunks_wf c g' ∧ cs_after c = checkpoint_of old ∧
       ∃ b, cs_builder c = Some b ∧ cb_index b = first_index old ∧
         starts_from old (rows_of g' !! (compaction_pk scope, tail_sk old)) b) g.
Proof.
  intros Hg He Hold. unfold chunks_start. step_try. destruct old as [m|].
  - step_try. eapply assures_mono; [|by apply engine_row_calm]. intros [row|e] g1 Hg1 _ Hrow; [|done].
    specialize (Hrow row eq_refl). step_try. returns.
    destruct row as [row|]; [|done]. case_bool_decide as Hd; [|done]. cbn [ok_or]. returns.
    destruct (builder_resume scope (vr_payload row)) as [b|] eqn:Hb; [|done]. returns.
    intros c [= <-]. pose proof (ji_compaction _ Hg1) as Hco.
    destruct (co_chunk _ _ Hco scope (Z.of_nat (length (mn_chunks m) - 1)) row)
      as (from & texts & Hr & Hst); [lia|done|].
    pose proof Hb as Hb'. rewrite Hr in Hb'.
    apply (resume_stored _ _ _ _ _ Hst (jk_bound _ _ (ji_journal _ Hg1) scope)) in Hb'
      as (H1 & H2 & H3 & H4).
    split; [split; simpl|split; [done|]].
    + done.
    + done.
    + simpl in Hold. lia.
    + constructor.
    + intros b' [= <-]. destruct Hst as (Hi & Hne & Hh). split; [|intros Hnil; congruence].
      split; [done|lia|]. by rewrite H3, H4.
    + exists b. split; [done|]. split; [done|]. by exists row.
  - returns. returns. intros c [= <-]. simpl in Hold. split; [split; simpl; [done|done|lia|constructor|]|].
    + intros b [= <-]. split; [|intros _; lia]. split; [done|simpl; lia|]. split; [simpl; lia|constructor].
    + split; [done|]. by eexists.
Qed.

(** The start is determined by the row it starts from. *)
Lemma starts_from_unique old tail b b' : starts_from old tail b → starts_from old tail b' → b = b'.
Proof.
  destruct old as [m|]; simpl; [|congruence]. intros (r & -> & Hb & _) (r' & [= <-] & Hb' & _). congruence.
Qed.
End chunks.
