(* ===== verification/CompactPlan.v ===== *)
(** * What a compaction writes

    Each write of a run, made while it holds the lease, keeps the invariants: chunks beyond the
    manifest, the swap of the manifest, the deletion of compacted rows, and the audit. *)

From S2P Require Import Prelude Types Features Outcome Rebuild Projection Repository Retry Mem.
From S2P Require Import MemInvariant MemRefinement MemSafety Program LogBackend MemBackend Sha256.
From S2P Require Import JournalScope Compaction JournalConfig JournalRead JournalRepository JournalInvariant.
From S2P Require Import JournalStage JournalInvariant Compact CompactInvariant.
From S2P Require Import JournalClients JournalPages CompactLease CompactChunks.

(** ** Sort keys *)

Lemma zero_padded_inj width p q :
  0 ≤ p → 0 ≤ q → zero_padded width p = zero_padded width q → p = q.
Proof.
  intros Hp Hq Heq. pose proof (parse_digits_padded width p Hp) as H1. rewrite Heq in H1.
  rewrite parse_digits_padded in H1 by done. congruence.
Qed.

Lemma chunk_sk_inj p q : 0 ≤ p → 0 ≤ q → chunk_sk p = chunk_sk q → p = q.
Proof. intros Hp Hq Heq%append_inv_head. by eapply zero_padded_inj. Qed.

Section steps.
Context `{SJ : SerdeJson} `{J : JournalJson} {Hlaws : JournalJsonLaws J} `{CJ : CompactionJson}.
Context {Hclaws : CompactionJsonLaws J CJ} (i : nat).
Implicit Types rows : gmap (string * string) ViewRow.

(** ** The holder's steps *)

(** A step of the client that holds the lease of a scope, within that scope's compaction. *)
Lemma owner_step g g' scope :
  journal_inv g → stepped i g g' → gh_abs g' = gh_abs g →
  gh_owners g scope (token_at (rows_of g) scope) = Some i →
  (∀ s sk, s ≠ scope → rows_of g' !! (compaction_pk s, sk) = rows_of g !! (compaction_pk s, sk)) →
  rows_of g' !! (compaction_pk scope, LEASE_SORT_KEY) = rows_of g !! (compaction_pk scope, LEASE_SORT_KEY) →
  journal_ok (commits_of g) (rows_of g') → compaction_ok (commits_of g) (rows_of g') →
  floor_of (rows_of g) scope ≤ floor_of (rows_of g') scope →
  journal_inv g' ∧ promises i g g'.
Proof.
  intros Hg Hs Ha Ho Hother Hlease Hj Hc Hf.
  assert (∀ s, token_at (rows_of g') s = token_at (rows_of g) s) as Ht.
  { intros s. unfold token_at. destruct (decide (s = scope)) as [->|]; [by rewrite Hlease|by rewrite Hother]. }
  apply compaction_step; try done.
  - intros s. destruct (decide (s = scope)) as [->|]; [done|]. unfold floor_of. by rewrite Hother.
  - intros s. by rewrite Ht.
  - intros k Hk s Hown _ sk _. destruct (decide (s = scope)) as [->|]; [congruence|]. by apply Hother.
Qed.

(** ** Rows of a compaction *)

(** What keeps the lease, the manifests and the chunks keeps the invariant. *)
Lemma compaction_ok_ext commits rows rows' :
  compaction_ok commits rows →
  (∀ s, rows' !! (compaction_pk s, LEASE_SORT_KEY) = rows !! (compaction_pk s, LEASE_SORT_KEY)) →
  (∀ s, rows' !! (compaction_pk s, MANIFEST_SORT_KEY) = rows !! (compaction_pk s, MANIFEST_SORT_KEY)) →
  (∀ s index, rows' !! (compaction_pk s, chunk_sk index) = rows !! (compaction_pk s, chunk_sk index)) →
  compaction_ok commits rows'.
Proof.
  intros [Hl Hc Hm] H1 H2 H3. split.
  - intros s row. rewrite H1. apply Hl.
  - intros s index row Hi. rewrite H3. by apply Hc.
  - intros s m Hfree. unfold manifest_at. rewrite H2. intros Hma.
    destruct (Hm s m Hfree Hma) as (parts & [S1 S2 S3 S4] & Hlen). exists parts. split; [|done].
    split; [done|done|done|]. intros k texts digest Hk Hd. rewrite H3. by apply S4.
Qed.

Definition compaction_put (scope : Scope) (sk payload : string) rows : gmap (string * string) ViewRow :=
  <[(compaction_pk scope, sk) := compaction_view scope sk payload]> rows.

Lemma compaction_put_lookup scope sk payload rows s sk' :
  compaction_put scope sk payload rows !! (compaction_pk s, sk') =
  if decide (s = scope ∧ sk' = sk) then Some (compaction_view scope sk payload)
  else rows !! (compaction_pk s, sk').
Proof.
  unfold compaction_put. destruct (decide _) as [[-> ->]|Hne]; [by rewrite lookup_insert_eq|].
  apply lookup_insert_ne. intros [Hs Hk]%pair_equal_spec. apply compaction_pk_inj in Hs. naive_solver.
Qed.

Lemma compaction_put_other scope sk payload rows pk sk' :
  (∀ s, pk ≠ compaction_pk s) → compaction_put scope sk payload rows !! (pk, sk') = rows !! (pk, sk').
Proof.
  intros Hpk. apply lookup_insert_ne. intros [Hs _]%pair_equal_spec. by destruct (Hpk scope).
Qed.

(** A put that is not of the manifest leaves the journal. *)
Lemma journal_ok_put commits rows scope sk payload :
  journal_ok commits rows → sk ≠ MANIFEST_SORT_KEY → journal_ok commits (compaction_put scope sk payload rows).
Proof.
  intros Hj Hsk. apply (journal_ok_ext _ _ _ Hj).
  - intros s sk'. by apply compaction_put_other.
  - intros s sk'. by apply compaction_put_other.
  - intros s. rewrite compaction_put_lookup. destruct (decide _) as [[_ ?]|]; [congruence|done].
Qed.

(** A chunk the manifest does not name. *)
Lemma compaction_ok_chunk commits rows scope index from texts :
  compaction_ok commits rows → stored_chunk commits scope index from texts →
  (∀ m, manifest_at rows scope = Some m → llen (mn_chunks m) ≤ index) →
  compaction_ok commits (compaction_put scope (chunk_sk index) (chunk_text scope index from texts) rows).
Proof.
  intros [Hl Hc Hm] Hst Hnew. pose proof Hst as (Hi & _).
  set (rows' := compaction_put _ _ _ _).
  assert (∀ s sk, (s ≠ scope ∨ sk ≠ chunk_sk index) → rows' !! (compaction_pk s, sk) = rows !! (compaction_pk s, sk)) as Hother.
  { intros s sk Hne. unfold rows'. rewrite compaction_put_lookup. destruct (decide _) as [[-> ->]|]; [|done].
    destruct Hne; congruence. }
  split.
  - intros s row. rewrite Hother by (by right). apply Hl.
  - intros s k row Hk. destruct (decide (s = scope ∧ k = index)) as [[-> ->]|Hne].
    + unfold rows'. rewrite compaction_put_lookup, decide_True by done. intros [= <-]. by exists from, texts.
    + rewrite Hother; [by apply Hc|]. destruct (decide (s = scope)) as [->|]; [right|by left].
      intros Heq%chunk_sk_inj; [naive_solver|lia|lia].
  - intros s m Hfree. unfold manifest_at. rewrite Hother by (by right). intros Hma.
    destruct (Hm s m Hfree Hma) as (parts & [S1 S2 S3 S4] & Hlen). exists parts. split; [|done].
    split; [done|done|done|]. intros k t digest Hk Hd. rewrite Hother; [by apply S4|].
    destruct (decide (s = scope)) as [->|]; [right|by left]. intros Heq%chunk_sk_inj; [|lia|lia].
    specialize (Hnew m Hma). apply lookup_lt_Some in Hd. unfold llen in Hnew. lia.
Qed.

(** ** The manifest *)

Lemma manifest_decode_payload m :
  mn_checkpoint m ≠ 0 → mn_chunks m ≠ [] → Forall (λ d, is_digest d = true) (mn_chunks m) →
  manifest_decode (mn_scope m) (manifest_payload m) = Ok m.
Proof.
  intros Hc Hne Hd. unfold manifest_decode, manifest_payload. rewrite parse_manifest_law.
  cbn [map_err result_bind mp_scope mp_checkpoint mp_chunks]. rewrite bool_decide_true by done. cbn [negb].
  destruct (Z.eqb_spec (mn_checkpoint m) 0); [done|]. destruct m as [s c [|d ds]]; [done|]. cbn [nil_b orb mn_chunks] in *.
  assert (forallb is_digest (d :: ds) = true) as ->; [|done].
  apply forallb_forall. intros x Hx%list_elem_of_In. rewrite Forall_forall in Hd. by apply Hd.
Qed.

(** The journal when a manifest that decodes is put: what it compacts is allocated. *)
Lemma journal_ok_manifest commits rows scope m :
  journal_ok commits rows → mn_scope m = scope → manifest_decode scope (manifest_payload m) = Ok m →
  floor_of rows scope ≤ mn_checkpoint m ≤ journal_length commits scope →
  let rows' := compaction_put scope MANIFEST_SORT_KEY (manifest_payload m) rows in
  journal_ok commits rows' ∧ manifest_at rows' scope = Some m ∧
  ∀ s, s ≠ scope → manifest_at rows' s = manifest_at rows s.
Proof.
  intros [H1 H2 H3 H4 H5 H6 H7] Hs Hd Hc rows'.
  assert (manifest_at rows' scope = Some m) as Hm.
  { unfold manifest_at, rows'. rewrite compaction_put_lookup, decide_True by done. cbn [compaction_view view_row_new vr_payload]. by rewrite Hd. }
  assert (∀ s, s ≠ scope → manifest_at rows' s = manifest_at rows s) as Hother.
  { intros s Hne. unfold manifest_at, rows'. rewrite compaction_put_lookup, decide_False by naive_solver. done. }
  assert (∀ s, floor_of rows s ≤ floor_of rows' s ≤ journal_length commits s) as Hfloor.
  { intros s. destruct (decide (s = scope)) as [->|Hne].
    - rewrite (floor_manifest rows'), Hm. lia.
    - rewrite !floor_manifest, Hother by done. rewrite <-floor_manifest. specialize (H6 s). lia. }
  split; [|done]. split; [done|done| | | | |].
  - intros s. unfold rows'. rewrite compaction_put_other by done. apply H3.
  - intros s p e Hin Hf. unfold rows'. rewrite compaction_put_other by done.
    apply H4; [done|]. specialize (Hfloor s). lia.
  - intros s sk v. unfold rows'. rewrite compaction_put_other by done. apply H5.
  - intros s. specialize (Hfloor s). specialize (H6 s). lia.
  - intros s row. unfold rows'. rewrite compaction_put_lookup.
    destruct (decide _) as [[-> _]|]; [|apply H7]. intros [= <-]. split; [|by exists m].
    unfold check_compaction_row, compaction_view, view_row_new. cbn [vr_pk vr_sk vr_entity_id vr_entity_type].
    by rewrite !bool_decide_true.
Qed.

(** ** Deleted rows *)

Lemma delete_rows_lookup scope l : ∀ rows key,
  fold_left apply_write (map (delete_write scope) l) rows !! key =
  if decide (key ∈ map (λ row, (row_pk scope, row_sk (jr_position row))) l) then None else rows !! key.
Proof.
  induction l as [|row l IH]; intros rows key; cbn [map fold_left].
  - rewrite decide_False; [done|]. apply not_elem_of_nil.
  - rewrite IH. cbn [apply_write delete_write]. destruct (decide _) as [Hin|Hno].
    + rewrite decide_True; [done|]. by apply list_elem_of_further.
    + destruct (decide (key = (row_pk scope, row_sk (jr_position row)))) as [->|Hne].
      * rewrite lookup_delete_eq, decide_True; [done|apply list_elem_of_here].
      * rewrite lookup_delete_ne by done. rewrite decide_False; [done|]. intros [?|?]%elem_of_cons; naive_solver.
Qed.

Lemma delete_rows_compaction scope l rows s sk :
  fold_left apply_write (map (delete_write scope) l) rows !! (compaction_pk s, sk) = rows !! (compaction_pk s, sk).
Proof.
  rewrite delete_rows_lookup, decide_False; [done|].
  intros (row & [Hpk _]%pair_equal_spec & _)%list_elem_of_fmap. done.
Qed.

Lemma journal_ok_delete commits rows scope (l : list JournalRow) :
  journal_ok commits rows →
  Forall (λ row, 0 ≤ jr_position row ≤ floor_of rows scope) l →
  journal_ok commits (fold_left apply_write (map (delete_write scope) l) rows).
Proof.
  intros Hok Hl. pose proof Hok as [H1 H2 H3 H4 H5 H6 H7].
  set (rows' := fold_left apply_write (map (delete_write scope) l) rows).
  assert (∀ s, floor_of rows' s = floor_of rows s) as Hf.
  { intros s. unfold floor_of, rows'. by rewrite delete_rows_compaction. }
  split; [done|done| | | | |].
  - intros s. unfold rows'. rewrite delete_rows_lookup, decide_False; [apply H3|].
    intros (row & [Hpk _]%pair_equal_spec & _)%list_elem_of_fmap. done.
  - intros s p e Hin Hlt. rewrite Hf in Hlt. destruct (H4 s p e Hin Hlt) as (v & Hv & Hrow).
    exists v. split; [done|]. unfold rows'. rewrite delete_rows_lookup, decide_False; [done|].
    intros (row & [Hpk Hsk]%pair_equal_spec & Hr)%list_elem_of_fmap. apply row_pk_inj in Hpk. subst s.
    rewrite Forall_forall in Hl. specialize (Hl row Hr). cbv beta in Hl.
    pose proof (journal_position _ _ _ _ _ Hok Hin). pose proof (H2 scope). pose proof (H6 scope).
    apply row_sk_inj in Hsk; lia.
  - intros s sk v. unfold rows'. rewrite delete_rows_lookup. destruct (decide _); [done|]. apply H5.
  - intros s. rewrite Hf. apply H6.
  - intros s row. unfold rows'. rewrite delete_rows_compaction. apply H7.
Qed.
End steps.

(** * What a compaction swaps in

    The chunks a run packs continue those of the manifest it found, so the manifest it swaps in
    covers the entries through its checkpoint. *)

Section plan.
Context `{SJ : SerdeJson} `{J : JournalJson} {Hlaws : JournalJsonLaws J} `{CJ : CompactionJson}.
Context {Hclaws : CompactionJsonLaws J CJ}.
Context (scope : Scope) (through : Z) (entries : list (Z * SerializedEvent)).
Implicit Types rows : gmap (string * string) ViewRow.
Context (commits : Commits) (Hthrough : 0 ≤ through ≤ journal_length commits scope).
Context (Hentries : take (Z.to_nat through) (journal_of commits scope) = entries).

Lemma entries_length : length entries = Z.to_nat through.
Proof.
  rewrite <-Hentries, length_take. unfold journal_length, llen in Hthrough. lia.
Qed.

(** The texts of the rows that are packed are those of the entries. *)
Lemma texts_encode l texts : row_texts (map (journal_row scope) l) texts → encodes scope l texts.
Proof.
  intros Ht. unfold row_texts in Ht. apply Forall2_fmap_l in Ht. exact Ht.
Qed.

(** The parts of the chunks after [base]: [last] is what the builder started with. *)
Lemma extend_parts base last b rest checkpoint :
  Forall (λ l, l ≠ []) base → holds_from commits scope 1 (concat base ++ last) →
  llen (concat base ++ last) = checkpoint → 0 ≤ checkpoint < through →
  cb_scope b = scope → cb_index b = llen base → cb_from b = 1 + llen (concat base) → cb_rows b = last →
  pack b (map (journal_row scope) (drop (Z.to_nat checkpoint) entries)) = Ok rest →
  ∃ part parts, chunks_of scope (llen base) (1 + llen (concat base)) (part :: parts) rest ∧
    Forall (λ l, l ≠ []) (base ++ part :: parts) ∧
    holds_from commits scope 1 (concat (base ++ part :: parts)) ∧
    llen (concat (base ++ part :: parts)) = through.
Proof.
  intros Hne Hh Hlen Hc Hs Hi Hf Hr Hp. pose proof entries_length as Hel.
  apply pack_spec in Hp as (texts & part & parts & Ht & Hcat & Hof & Hnp & _ & Hpart).
  rewrite Hs, Hi, Hf in Hof. rewrite Hr in Hcat. apply texts_encode in Ht.
  assert (length texts = Z.to_nat (through - checkpoint)) as Htl.
  { rewrite <-(encodes_length _ _ _ Ht), length_drop. lia. }
  assert (concat (base ++ part :: parts) = (concat base ++ last) ++ texts) as Hall
    by (rewrite concat_app, Hcat; by rewrite app_assoc).
  exists part, parts. split; [done|]. split; [|split].
  - apply Forall_app. split; [done|]. constructor; [|done]. apply Hpart.
    intros Hnil%(f_equal length). rewrite length_map, length_drop in Hnil. simpl in Hnil. lia.
  - rewrite Hall. apply holds_from_app. split; [lia|]. split; [done|].
    replace (Z.to_nat (1 + llen (concat base ++ last) - 1)) with (Z.to_nat checkpoint) by lia.
    rewrite Htl. replace (take (Z.to_nat (through - checkpoint)) (drop (Z.to_nat checkpoint) (journal_of commits scope)))
      with (drop (Z.to_nat checkpoint) entries); [done|].
    rewrite <-Hentries, take_drop_commute. f_equal. f_equal. lia.
  - rewrite Hall. unfold llen in *. rewrite length_app, Htl. lia.
Qed.

(** A part of what holds holds. *)
Lemma holds_from_mid from l m k :
  holds_from commits scope from (l ++ m ++ k) → holds_from commits scope (from + llen l) m.
Proof.
  intros Hh. apply holds_from_app in Hh as (Hf & _ & Hmk).
  assert (holds_from commits scope (from + llen l) (m ++ k)) as Hmk'.
  { split; [unfold llen; lia|done]. }
  by apply holds_from_app in Hmk' as (_ & Hm & _).
Qed.

Lemma parts_length_le parts :
  Forall (λ l : list string, l ≠ []) parts → llen parts ≤ llen (concat parts).
Proof.
  unfold llen. induction 1 as [|l parts Hl _ IH]; simpl; [done|]. rewrite length_app.
  destruct l; [done|]. simpl in *. lia.
Qed.

Lemma part_stored parts k texts :
  Forall (λ l, l ≠ []) parts → holds_from commits scope 1 (concat parts) → parts !! k = Some texts →
  stored_chunk commits scope (Z.of_nat k) (1 + llen (concat (take k parts))) texts.
Proof.
  intros Hne Hh Hk. pose proof (take_drop_middle _ _ _ Hk) as Hmid. split; [|split].
  - assert (Forall (λ l, l ≠ []) (take k parts)) as Ht by (by apply Forall_take).
    apply parts_length_le in Ht. unfold llen in *. rewrite length_take in Ht.
    apply lookup_lt_Some in Hk. lia.
  - rewrite Forall_forall in Hne. by apply Hne, (list_elem_of_lookup_2 _ k).
  - rewrite <-Hmid in Hh. rewrite concat_app in Hh. cbn [concat] in Hh. by apply holds_from_mid in Hh.
Qed.

(** What the rows hold after the swap: the chunks before the first packed one as they were, and the
    packed ones; the first may be left as it was when its digest is the same. *)
Definition swapped (old : option CompactionManifest) (rest : list BuiltChunk)
    (rows rows' : gmap (string * string) ViewRow) : Prop :=
  (∀ k, 0 ≤ k < first_index old →
     rows' !! (compaction_pk scope, chunk_sk k) = rows !! (compaction_pk scope, chunk_sk k)) ∧
  ∀ k chunk, rest !! k = Some chunk →
    rows' !! (compaction_pk scope, chunk_sk (bc_index chunk)) =
      Some (compaction_view scope (chunk_sk (bc_index chunk)) (bc_payload chunk)) ∨
    (k = 0%nat ∧ ∃ m, old = Some m ∧
       mn_chunks m !! (length (mn_chunks m) - 1)%nat = Some (bc_digest chunk) ∧
       rows' !! (compaction_pk scope, chunk_sk (bc_index chunk)) =
         rows !! (compaction_pk scope, chunk_sk (bc_index chunk))).

Definition kept_digests (old : option CompactionManifest) : list string :=
  match old with Some m => take (length (mn_chunks m) - 1) (mn_chunks m) | None => [] end.

(** Chunks after some that are stored already. *)
Lemma chunks_extended rows' base digests part parts rest :
  chunks_of scope (llen base) (1 + llen (concat base)) (part :: parts) rest →
  length digests = length base → Forall (λ l, l ≠ []) (base ++ part :: parts) →
  holds_from commits scope 1 (concat (base ++ part :: parts)) →
  (∀ k texts digest, base !! k = Some texts → digests !! k = Some digest →
     let row := chunk_row scope (Z.of_nat k) (1 + llen (concat (take k base))) texts in
     rows' !! (compaction_pk scope, chunk_sk (Z.of_nat k)) = Some row ∧ digest = sha256_hex (vr_payload row)) →
  (∀ k chunk texts, rest !! k = Some chunk → (part :: parts) !! k = Some texts →
     rows' !! (compaction_pk scope, chunk_sk (bc_index chunk)) =
       Some (compaction_view scope (chunk_sk (bc_index chunk)) (bc_payload chunk))) →
  chunks_stored commits rows' scope (digests ++ map bc_digest rest) (base ++ part :: parts).
Proof.
  intros Hof Hlen Hne Hh Hbase Hrest. pose proof (chunks_of_length _ _ _ _ _ Hof) as Hl.
  split; [rewrite !length_app, length_map; lia|done|done|].
  intros k texts digest Hk Hd. destruct (decide (k < length base)%nat) as [Hlt|Hge].
  - rewrite lookup_app_l in Hk by done. rewrite lookup_app_l in Hd by lia.
    rewrite take_app_le by lia. by apply Hbase.
  - rewrite lookup_app_r in Hk by lia. rewrite lookup_app_r in Hd by lia. rewrite Hlen in Hd.
    rewrite list_lookup_fmap in Hd. destruct (rest !! (k - length base)%nat) as [chunk|] eqn:Hc; [|done].
    injection Hd as <-. destruct (chunks_of_lookup _ _ _ _ _ _ _ _ Hof Hc Hk) as (H1 & H2 & H3).
    rewrite take_app_ge by lia. rewrite concat_app.
    replace (llen base + Z.of_nat (k - length base)) with (Z.of_nat k) in * by (unfold llen; lia).
    replace (1 + llen (concat base ++ concat (take (k - length base) (part :: parts))))
      with (1 + llen (concat base) + llen (concat (take (k - length base) (part :: parts))))
      by (unfold llen; rewrite length_app; lia).
    pose proof (Hrest _ _ _ Hc Hk) as Hrow. rewrite H1, H2 in Hrow. split; [exact Hrow|].
    rewrite H3, H2. done.
Qed.

(** The first chunk that is packed, when it is not written: it is the one that is stored. *)
Lemma tail_kept (m : CompactionManifest) (rows : gmap (string * string) ViewRow) from last part chunk :
  collision_free commits scope →
  let n := Z.of_nat (length (mn_chunks m) - 1) in
  mn_chunks m !! (length (mn_chunks m) - 1)%nat = Some (bc_digest chunk) →
  mn_chunks m !! (length (mn_chunks m) - 1)%nat = Some (sha256_hex (chunk_text scope n from last)) →
  stored_chunk commits scope n from last → stored_chunk commits scope n from part →
  chunk_of scope n from part chunk →
  rows !! (compaction_pk scope, chunk_sk n) = Some (chunk_row scope n from last) →
  rows !! (compaction_pk scope, chunk_sk (bc_index chunk)) =
    Some (compaction_view scope (chunk_sk (bc_index chunk)) (bc_payload chunk)).
Proof.
  intros Hfree n Hd Hd' Hlast Hpart (H1 & H2 & H3) Hrow. rewrite Hd in Hd'. injection Hd' as Hd'.
  rewrite H3, H2 in Hd'. destruct (Hfree n from from part last Hpart Hlast Hd') as [_ ->].
  by rewrite H1, H2.
Qed.

Lemma covered_none (rows' : gmap (string * string) ViewRow) b rest m' :
  starts_from scope None None b → 0 < through →
  pack b (map (journal_row scope) entries) = Ok rest →
  (∀ k chunk, rest !! k = Some chunk → rows' !! (compaction_pk scope, chunk_sk (bc_index chunk)) =
    Some (compaction_view scope (chunk_sk (bc_index chunk)) (bc_payload chunk))) →
  mn_chunks m' = map bc_digest rest → mn_checkpoint m' = through →
  covered commits rows' scope m'.
Proof.
  intros Hb Ht Hp Hrest Hc Hm. simpl in Hb. subst b.
  destruct (extend_parts [] [] (builder_new scope 0 1) rest 0) as (part & parts & Hof & Hne & Hh & Hlen);
    try done; [by split; [|constructor]|].
  exists ([] ++ part :: parts). rewrite Hc, Hm. split; [|done].
  apply (chunks_extended _ [] []); [done|done|done|done|done|]. intros k chunk texts Hk _. by apply (Hrest k).
Qed.

Lemma covered_some m rows rows' b rest m' :
  compaction_ok commits rows → collision_free commits scope → journal_length commits scope ≤ u64_max →
  manifest_at rows scope = Some m → 0 ≤ mn_checkpoint m < through →
  starts_from scope (Some m) (rows !! (compaction_pk scope, tail_sk (Some m))) b →
  pack b (map (journal_row scope) (drop (Z.to_nat (mn_checkpoint m)) entries)) = Ok rest →
  swapped (Some m) rest rows rows' →
  mn_chunks m' = kept_digests (Some m) ++ map bc_digest rest → mn_checkpoint m' = through →
  covered commits rows' scope m'.
Proof.
  intros Hok Hfree Hbound Hm Hcp (row & Hrow & Hb & Hd) Hp [Hkeep Hrest] Hc Hthr.
  destruct (co_covered _ _ Hok _ _ Hfree Hm) as (parts & [S1 S2 S3 S4] & Hlen).
  unfold tail_sk in Hrow. cbn [first_index kept_digests] in *. set (n := (length (mn_chunks m) - 1)%nat) in *.
  pose proof (lookup_lt_Some _ _ _ Hd) as Hn.
  destruct (lookup_lt_is_Some_2 parts n) as [last Hlast]; [lia|].
  destruct (S4 n last _ Hlast Hd) as [Hstored _]. rewrite Hrow in Hstored. injection Hstored as ->.
  pose proof (part_stored _ _ _ S2 S3 Hlast) as Hst.
  destruct (resume_stored _ _ _ _ _ _ Hst Hbound Hb) as (B1 & B2 & B3 & B4).
  pose proof (take_drop_middle _ _ _ Hlast) as Hmid. rewrite drop_ge in Hmid by lia.
  assert (length (take n parts) = n) as Htn by (rewrite length_take; lia).
  assert (concat parts = concat (take n parts) ++ last) as Hcat.
  { rewrite <-Hmid at 1. rewrite concat_app. simpl. by rewrite app_nil_r. }
  rewrite Hcat in S3, Hlen.
  destruct (extend_parts (take n parts) last b rest (mn_checkpoint m))
    as (part & parts' & Hof & Hne & Hh & Hl); try done; [by apply Forall_take|unfold llen; by rewrite Htn|].
  exists (take n parts ++ part :: parts'). rewrite Hc, Hthr. split; [|done].
  apply chunks_extended; [done|rewrite length_take; lia|done|done| |].
  - intros k texts digest Hk Hdk. pose proof (lookup_lt_Some _ _ _ Hk) as Hkn. rewrite Htn in Hkn.
    rewrite lookup_take_lt in Hk by lia. rewrite lookup_take_lt in Hdk by lia.
    rewrite Hkeep by lia. rewrite take_take, Nat.min_l by lia. by apply S4.
  - intros k chunk texts Hk Ht. destruct (Hrest k chunk Hk) as [?|(-> & m0 & [= <-] & Hdc & Hr)]; [done|].
    injection Ht as <-. pose proof (chunks_of_lookup _ _ _ _ _ 0 _ part Hof Hk eq_refl) as Hco.
    rewrite !Z.add_0_r in Hco. unfold llen at 1 in Hco. rewrite Htn in Hco.
    apply (tail_kept m _ (1 + llen (concat (take n parts))) last part); try done.
    + pose proof (part_stored _ n part Hne Hh) as Hps. rewrite take_app_le, take_take, Nat.min_id in Hps by lia.
      apply Hps. rewrite lookup_app_r, Htn, Nat.sub_diag by lia. done.
    + destruct Hco as (Hi & _). rewrite Hi in Hr. etrans; [exact Hr|done].
Qed.

(** What a run swaps in covers the entries through its checkpoint. *)
Lemma plan_covered old rows rows' b rest m' :
  compaction_ok commits rows → collision_free commits scope → journal_length commits scope ≤ u64_max →
  manifest_at rows scope = old → 0 ≤ checkpoint_of old < through →
  starts_from scope old (rows !! (compaction_pk scope, tail_sk old)) b →
  pack b (map (journal_row scope) (drop (Z.to_nat (checkpoint_of old)) entries)) = Ok rest →
  swapped old rest rows rows' →
  mn_chunks m' = kept_digests old ++ map bc_digest rest → mn_checkpoint m' = through →
  covered commits rows' scope m'.
Proof.
  destruct old as [m|]; intros Hok Hfree Hb Hm Hc Hs Hp Hsw Hd Ht; [by eapply covered_some|].
  simpl in Hc. eapply covered_none; [exact Hs|lia|exact Hp| |exact Hd|done].
  intros k chunk Hk. destruct Hsw as [_ Hsw]. by destruct (Hsw k chunk Hk) as [?|(_ & ? & ? & _)].
Qed.
End plan.
