(* ===== verification/CompactBuild.v ===== *)
(** * A compaction's run

    A run of a compaction, from the checks to the audit, with any number of other clients between
    its calls: as long as it holds the lease no one else touches the scope's compaction, once it has
    lost it nothing it writes is applied, and what it swaps in covers every entry it deletes. *)

From S2P Require Import Prelude Types Features Outcome Rebuild Projection Repository Retry Mem.
From S2P Require Import MemInvariant MemRefinement MemSafety Program LogBackend MemBackend Sha256.
From S2P Require Import JournalScope Compaction JournalConfig JournalRead JournalRepository JournalInvariant.
From S2P Require Import JournalStage JournalInvariant Compact CompactInvariant.
From S2P Require Import JournalClients JournalPages CompactLease CompactChunks.
From S2P Require Import CompactPlan.

Section run.
Context `{SJ : SerdeJson} `{J : JournalJson} {Hlaws : JournalJsonLaws J} `{CJ : CompactionJson}.
Context {Hclaws : CompactionJsonLaws J CJ} (i : nat).
Context (scope : Scope) (token : Z) (through : Z) (entries : list (Z * SerializedEvent)).

#[local] Existing Instance client_handler.
Abbreviation calmly := (@assures _ _ (client_handler i) journal_inv (tolerates i) (calm_role i) _) (only parsing).
Abbreviation jassures := (@assures _ _ (client_handler i) journal_inv journal_le (client_role i) _) (only parsing).

(** The lease a run holds, whatever it was renewed to. *)
Definition mine (lease : CompactionLease) : Prop := cl_scope lease = scope ∧ cl_token lease = token.

(** What a run knows: the lease is its own, the entries are there, and as long as the lease was not
    taken by another, the scope's compaction is what it last saw or wrote. *)
Record working (view : string → option ViewRow) (g : Ghost) : Prop := {
  wk_owner : gh_owners g scope token = Some i;
  wk_entries : has_entries scope through entries g;
  wk_view : token_at (rows_of g) scope = token → ∀ sk, sk ≠ LEASE_SORT_KEY →
    rows_of g !! (compaction_pk scope, sk) = view sk
}.

Lemma working_later view g g' : journal_inv g → tolerates i g g' → working view g → working view g'.
Proof.
  intros Hg [Hle Hl] [Ho He Hv]. split.
  - by apply (jl_owners _ _ Hle).
  - by eapply has_entries_later.
  - intros Ht sk Hsk. pose proof (ji_owners _ Hg _ _ _ Ho). pose proof (jl_token _ _ Hle scope).
    assert (token_at (rows_of g) scope = token) as Ht' by lia.
    rewrite Hl; [by apply Hv|by rewrite Ht'|congruence|done].
Qed.

(** As long as the lease is the run's own now, it was before. *)
Lemma token_back view g g' :
  journal_inv g → journal_le g g' → working view g → token_at (rows_of g') scope = token →
  token_at (rows_of g) scope = token.
Proof.
  intros Hg Hle [Ho _ _] Ht. pose proof (ji_owners _ Hg _ _ _ Ho). pose proof (jl_token _ _ Hle scope). lia.
Qed.

(** ** Runs *)

Lemma run_bind_assures {A B} (m : Run A) (f : A → Run B) lease (Q : CompactionLease * Result B → Ghost → Prop) g :
  jassures (m lease)
    (λ x g', match x.2 with Ok a => jassures (f a x.1) Q g' | Err e => Q (x.1, Err e) g' end) g →
  jassures (run_bind m f lease) Q g.
Proof.
  intros Hm. unfold run_bind. step_bind. eapply assures_mono; [|exact Hm].
  intros [lease' [a|e]] g' Hg' _ Hx; [done|]. by returns.
Qed.

(** What a run says of its answers. *)
Definition runs {A} (view : string → option ViewRow) (Q : A → Ghost → Prop)
    (x : CompactionLease * Result A) (g : Ghost) : Prop :=
  mine x.1 ∧ ∀ a, x.2 = Ok a → working view g ∧ Q a g.

Lemma run_try {A B} (m : Run A) (f : A → Run B) lease view (P : A → Ghost → Prop)
    (Q : CompactionLease * Result B → Ghost → Prop) g :
  jassures (m lease) (runs view P) g →
  (∀ lease' e g', journal_inv g' → mine lease' → Q (lease', Err e) g') →
  (∀ lease' a g', journal_inv g' → journal_le g g' → mine lease' → working view g' → P a g' →
     jassures (f a lease') Q g') →
  jassures (run_bind m f lease) Q g.
Proof.
  intros Hm Herr Hf. apply run_bind_assures. eapply assures_mono; [|exact Hm].
  intros [lease' [a|e]] g' Hg' Hle [Hmine Hx]; simpl in *; [|by apply Herr].
  destruct (Hx a eq_refl) as [Hw HP]. by apply Hf.
Qed.

(** A calm program within a run. *)
Lemma run_calm {A} (p : JProg Empty_set (Result A)) (P : A → Ghost → Prop) lease view g :
  journal_inv g → mine lease → working view g →
  calmly p (λ r g', ∀ a, r = Ok a → P a g') g → jassures (run_prog p lease) (runs view P) g.
Proof.
  intros Hg Hmine Hw Hp. unfold run_prog. step_bind.
  eapply assures_mono; [|exact (calm_client i _ _ _ Hp)]. intros r g' Hg' _ [Ht HP]. returns.
  split; [done|]. simpl. intros a ->. split; [by apply (working_later view g)|by apply HP].
Qed.

Lemma keep_runs lease view g :
  journal_inv g → mine lease → working view g → jassures (keep lease) (runs view (λ _ _, True)) g.
Proof.
  intros Hg Hmine Hw. eapply assures_mono; [|apply calm_client; by apply keep_calm].
  intros [lease' r] g' Hg' _ [Ht (H1 & _ & H3)]. destruct Hmine as [M1 M2]. simpl in *.
  split; [split; simpl; congruence|]. intros a _. split; [by apply (working_later view g)|done].
Qed.

(** ** Writes *)

Lemma run_write_runs epoch writes lease view view' (P : Ghost → Prop) g :
  journal_inv g → mine lease → working view g →
  (∀ g1 g2, journal_inv g1 → journal_le g g1 → working view g1 → token_at (rows_of g1) scope = token →
     stepped i g1 g2 → gh_abs g2 = gh_abs g1 →
     rows_of g2 = fold_left apply_write writes (rows_of g1) →
     journal_inv g2 ∧ promises i g1 g2 ∧
     (∀ sk, sk ≠ LEASE_SORT_KEY → rows_of g2 !! (compaction_pk scope, sk) = view' sk) ∧ P g2) →
  jassures (run_write epoch writes lease) (runs view' (λ _, P)) g.
Proof.
  intros Hg Hmine Hw Hstep. unfold run_write. eapply run_try; [by apply keep_runs| |].
  { intros lease' e g' _ Hm. by split. }
  clear lease Hmine. intros lease [] g1 Hg1 Hle1 Hmine Hw1 _. cbv zeta.
  set (all := writes ++ _). step_bind. apply assures_call; [apply _|done|].
  intros g2 b g3 Hg2 Htol (_ & Hs & Ha & Hwr). pose proof (working_later _ _ _ Hg1 Htol Hw1) as Hw2.
  assert (b = Ok Written ∨ b ≠ Ok Written) as [->|Hne] by (destruct b as [[]|]; naive_solver).
  - destruct Hwr as (_ & Hmet & Hrows). apply Forall_app in Hmet as [_ Hcheck].
    apply Forall_cons in Hcheck as [Hcheck _]. unfold all in Hrows. rewrite fold_left_app in Hrows.
    simpl in Hrows. destruct Hmine as [M1 M2].
    assert (token_at (rows_of g2) scope = token) as Htok.
    { rewrite <-M1, <-M2. exact (meets_payload_token _ _ _ _ (lease_decode_payload lease) Hcheck). }
    assert (journal_le g g2) as Hle2 by (etrans; [exact Hle1|apply Htol]).
    destruct (Hstep g2 g3 Hg2 Hle2 Hw2 Htok Hs Ha Hrows) as (Hg3 & Hp & Hv & HP).
    split; [done|]. split; [done|]. returns. split; [by split|]. intros u _. split; [|done].
    split; [by apply (jl_owners _ _ (proj1 Hp)), Hw2|eapply has_entries_later; [apply Hp|apply Hw2]|done].
  - assert (quietly g2 g3) as Hq.
    { split; [done|]. destruct b as [[]|]; try done. by destruct Hwr. }
    destruct (quietly_keeps i g2 g3 Hg2 Hs Hq) as [Hg3 Hp]. split; [done|]. split; [done|].
    destruct b as [[| |at_]|e]; [done| | |by returns].
    + step_bind. eapply assures_mono; [|apply calm_client; by apply epoch_error_calm].
      intros err g4 Hg4 _ _. by returns.
    + destruct Hwr as [_ Hat]. destruct (lookup_lt_is_Some_2 all (Z.to_nat at_)) as [w Hwl];
        [unfold llen in Hat; lia|].
      rewrite Hwl. destruct (_ || _); by returns.
Qed.
End run.

(** * What a compaction's run builds

    The preflight, the chunks that are written, the swap of the manifest and the deletion of the
    rows it covers, each with any number of other clients between its calls. *)

(** ** What is written beside the manifest *)

Section views.
Context `{J : JournalJson} `{CJ : CompactionJson}.
Context (scope : Scope) (tail : option Z).
Implicit Types view : string → option ViewRow.

Definition chunk_view (chunk : BuiltChunk) : ViewRow :=
  compaction_view scope (chunk_sk (bc_index chunk)) (bc_payload chunk).

Definition put_chunk view (chunk : BuiltChunk) : string → option ViewRow :=
  λ sk, if decide (sk = chunk_sk (bc_index chunk)) then Some (chunk_view chunk) else view sk.

(** Every chunk but the one that is held back. *)
Fixpoint written_view view (rest : list BuiltChunk) : string → option ViewRow :=
  match rest with
  | [] => view
  | chunk :: rest =>
      written_view (if decide (Some (bc_index chunk) = tail) then view else put_chunk view chunk) rest
  end.

Fixpoint held_back_of (held : option BuiltChunk) (rest : list BuiltChunk) : option BuiltChunk :=
  match rest with
  | [] => held
  | chunk :: rest => held_back_of (if decide (Some (bc_index chunk) = tail) then Some chunk else held) rest
  end.

Lemma written_view_other rest sk : ∀ view,
  (∀ chunk, chunk ∈ rest → Some (bc_index chunk) ≠ tail → sk ≠ chunk_sk (bc_index chunk)) →
  written_view view rest sk = view sk.
Proof.
  induction rest as [|chunk rest IH]; intros view Hno; [done|]. cbn [written_view]. rewrite IH.
  - destruct (decide _) as [|Hne]; [done|]. unfold put_chunk. rewrite decide_False; [done|].
    apply Hno; [apply list_elem_of_here|done].
  - intros c Hc. apply Hno. by apply list_elem_of_further.
Qed.

(** Chunks with the indices from [first] on. *)
Definition consecutive (first : Z) (rest : list BuiltChunk) : Prop :=
  0 ≤ first ∧ ∀ k chunk, rest !! k = Some chunk → bc_index chunk = first + Z.of_nat k.

Lemma consecutive_cons first chunk rest :
  consecutive first (chunk :: rest) ↔ bc_index chunk = first ∧ 0 ≤ first ∧ consecutive (first + 1) rest.
Proof.
  split.
  - intros [H0 Hn]. pose proof (Hn 0%nat chunk eq_refl) as H1. split; [lia|]. split; [done|]. split; [lia|].
    intros k c Hk. specialize (Hn (S k) c Hk). lia.
  - intros (H1 & H0 & _ & Hn). split; [done|]. intros [|k] c Hk; [injection Hk as <-; lia|].
    specialize (Hn k c Hk). lia.
Qed.

Lemma consecutive_elem first rest chunk : consecutive first rest → chunk ∈ rest → first ≤ bc_index chunk.
Proof. intros [_ Hn] [k Hk]%list_elem_of_lookup. rewrite (Hn k chunk Hk). lia. Qed.

Lemma chunks_of_consecutive index from parts rest :
  0 ≤ index → chunks_of scope index from parts rest → consecutive index rest.
Proof.
  intros H0 Hof. split; [done|]. intros k chunk Hk. pose proof (chunks_of_length _ _ _ _ _ Hof) as Hl.
  destruct (lookup_lt_is_Some_2 parts k) as [texts Ht]; [apply lookup_lt_Some in Hk; lia|].
  by destruct (chunks_of_lookup _ _ _ _ _ _ _ _ Hof Hk Ht).
Qed.

Lemma written_view_in first rest chunk : ∀ view,
  consecutive first rest → chunk ∈ rest → Some (bc_index chunk) ≠ tail →
  written_view view rest (chunk_sk (bc_index chunk)) = Some (chunk_view chunk).
Proof.
  revert first. induction rest as [|c rest IH]; intros first view Hn Hin Ht; [by apply not_elem_of_nil in Hin|].
  apply consecutive_cons in Hn as (Hi & H0 & Hn). cbn [written_view]. apply elem_of_cons in Hin as [->|Hin].
  - rewrite decide_False by done. rewrite written_view_other; [unfold put_chunk; by rewrite decide_True|].
    intros c' Hc' _ Heq. pose proof (consecutive_elem _ _ _ Hn Hc'). apply chunk_sk_inj in Heq; lia.
  - by eapply IH.
Qed.

Lemma held_back_none rest : ∀ held,
  (∀ chunk, chunk ∈ rest → Some (bc_index chunk) ≠ tail) → held_back_of held rest = held.
Proof.
  induction rest as [|c rest IH]; intros held Hno; [done|]. cbn [held_back_of].
  rewrite decide_False by (apply Hno, list_elem_of_here). apply IH. intros c' Hc'. by apply Hno, list_elem_of_further.
Qed.
End views.

Lemma sorted_manifest_sk index : chunk_sk index ≠ MANIFEST_SORT_KEY.
Proof. done. Qed.

Section build.
Context `{SJ : SerdeJson} `{J : JournalJson} {Hlaws : JournalJsonLaws J} `{CJ : CompactionJson}.
Context {Hclaws : CompactionJsonLaws J CJ} (i : nat).
Context (scope : Scope) (token : Z) (through : Z) (entries : list (Z * SerializedEvent)).
Context (old : option CompactionManifest).

#[local] Existing Instance client_handler.
Abbreviation calmly := (@assures _ _ (client_handler i) journal_inv (tolerates i) (calm_role i) _) (only parsing).
Abbreviation jassures := (@assures _ _ (client_handler i) journal_inv journal_le (client_role i) _) (only parsing).
Abbreviation mine := (mine scope token) (only parsing).
Abbreviation working := (working i scope token through entries) (only parsing).
Abbreviation runs := (runs i scope token through entries) (only parsing).
Abbreviation chunks_wf := (chunks_wf scope through entries) (only parsing).
Abbreviation todo := (todo scope entries) (only parsing).
Abbreviation chunks_left := (chunks_left through) (only parsing).

(** ** The preflight *)

Lemma next_chunk_runs c lease view g :
  journal_inv g → mine lease → working view g → chunks_wf c g →
  jassures (run_prog (chunks_next c) lease)
    (runs view (λ next g', next_chunk scope through entries c (Ok next) g')) g.
Proof.
  intros Hg Hm Hw Hc. apply run_calm; [done|done|done|].
  eapply assures_mono; [|apply chunks_next_calm; [done|apply Hw|done]].
  intros r g' _ _ Hn a ->. exact Hn.
Qed.

Lemma preflight_loop_runs fuel held view : ∀ c digests lease g,
  journal_inv g → mine lease → working view g → chunks_wf c g → (chunks_left c < fuel)%nat →
  jassures (preflight_loop fuel held c digests lease)
    (runs view (λ ds _, ∃ rest, todo c = Ok rest ∧ ds = digests ++ map bc_digest rest)) g.
Proof.
  induction fuel as [|fuel IH]; intros c digests lease g Hg Hm Hw Hc Hfuel; [lia|]. cbn [preflight_loop].
  eapply run_try; [by apply next_chunk_runs|by split|].
  intros lease1 [c' out] g1 Hg1 _ Hm1 Hw1 Hn. destruct (Hn _ _ eq_refl) as [Hc' Hout]. cbn [fst snd].
  destruct out as [chunk|].
  - destruct Hout as (Hleft & Htodo & _).
    eapply run_try with (view := view) (P := λ _ _, True); [|by split|].
    { destruct held; [by apply keep_runs|]. unfold run_ret. returns. by split. }
    intros lease2 [] g2 Hg2 Hle2 Hm2 Hw2 _.
    eapply assures_mono; [|apply (IH c'); [done|done|done|by eapply chunks_wf_later|lia]].
    intros [l r] g3 _ _ [Hm3 Hr]. split; [done|]. intros ds Hds. destruct (Hr ds Hds) as [Hw3 (rest & Ht & ->)].
    split; [done|]. exists (chunk :: rest). rewrite Htodo, Ht. split; [done|]. by rewrite <-app_assoc.
  - unfold run_ret. returns. split; [done|]. intros ds [= <-]. split; [done|]. exists [].
    split; [unfold CompactChunks.todo; by rewrite Hout|]. by rewrite app_nil_r.
Qed.

(** What a run plans: the chunks after the ones that are kept, packed from [tail]. *)
Definition planned (tail : option ViewRow) (b : ChunkBuilder) (rest : list BuiltChunk) : Prop :=
  starts_from scope old tail b ∧
  pack b (map (journal_row scope) (drop (Z.to_nat (checkpoint_of old)) entries)) = Ok rest.

Lemma start_runs lease view g :
  journal_inv g → mine lease → working view g → 0 ≤ checkpoint_of old < through →
  jassures (run_prog (chunks_start scope old through) lease)
    (runs view (λ c g', chunks_wf c g' ∧ ∃ b tail, cs_builder c = Some b ∧ cb_index b = first_index old ∧
       starts_from scope old tail b ∧ cs_after c = checkpoint_of old ∧
       (token_at (rows_of g') scope = token → tail = view (tail_sk old)))) g.
Proof.
  intros Hg Hm Hw Hc. unfold run_prog. step_bind.
  eapply assures_mono; [|apply calm_client, chunks_start_calm; [done|apply Hw|done]].
  intros r g' Hg' _ [Ht HP]. returns. split; [done|]. simpl. intros c ->.
  destruct (HP c eq_refl) as (Hwf & Hafter & b & Hb & Hi & Hs).
  pose proof (working_later i scope token through entries view g g' Hg Ht Hw) as Hw'.
  split; [done|]. split; [done|]. exists b, (rows_of g' !! (compaction_pk scope, tail_sk old)).
  split_and!; [done|done|done|done|]. intros Htok. apply (wk_view _ _ _ _ _ _ _ Hw'); [done|].
  unfold tail_sk. by destruct old.
Qed.

Lemma preflight_runs limit held lease view g :
  journal_inv g → mine lease → working view g → 0 ≤ checkpoint_of old < through →
  jassures (preflight scope old through limit held lease)
    (runs view (λ m g', mn_scope m = scope ∧ mn_checkpoint m = through ∧ ∃ tail b rest,
       planned tail b rest ∧ mn_chunks m = kept_digests old ++ map bc_digest rest ∧
       (token_at (rows_of g') scope = token → tail = view (tail_sk old)))) g.
Proof.
  intros Hg Hm Hw Hc. unfold preflight. cbv zeta. eapply run_try; [by apply start_runs|by split|].
  intros lease1 c g1 Hg1 _ Hm1 Hw1 (Hwf & b & tail & Hb & Hi & Hs & Hafter & Htail).
  eapply run_try; [apply preflight_loop_runs; [done|done|done|done|]|by split|].
  { unfold CompactChunks.chunks_left, chunks_fuel. rewrite Hb, (cw_through _ _ _ _ _ Hwf). lia. }
  intros lease2 ds g2 Hg2 Hle2 Hm2 Hw2 (rest & Htodo & ->).
  unfold CompactChunks.todo in Htodo. rewrite Hb, Hafter in Htodo.
  destruct (_ <? _); unfold run_ret; returns; split; try done. simpl. intros m [= <-]. split; [done|].
  split; [done|]. split; [done|]. exists tail, b, rest. split; [done|]. split; [done|].
  intros Ht. apply Htail. by eapply token_back.
Qed.

(** ** The chunks *)

(** The manifest a run knows. *)
Definition viewed (view : string → option ViewRow) : option CompactionManifest :=
  match view MANIFEST_SORT_KEY with
  | Some row => match manifest_decode scope (vr_payload row) with Ok m => Some m | Err _ => None end
  | None => None
  end.

Lemma manifest_viewed view g :
  working view g → token_at (rows_of g) scope = token → manifest_at (rows_of g) scope = viewed view.
Proof. intros Hw Ht. unfold manifest_at, viewed. by rewrite (wk_view _ _ _ _ _ _ _ Hw Ht). Qed.

(** A step of the run that writes rows of its scope's compaction other than the lease. *)
Lemma own_step view g g' :
  journal_inv g → working view g → token_at (rows_of g) scope = token → stepped i g g' → gh_abs g' = gh_abs g →
  (∀ s sk, s ≠ scope → rows_of g' !! (compaction_pk s, sk) = rows_of g !! (compaction_pk s, sk)) →
  rows_of g' !! (compaction_pk scope, LEASE_SORT_KEY) = rows_of g !! (compaction_pk scope, LEASE_SORT_KEY) →
  journal_ok (commits_of g) (rows_of g') → compaction_ok (commits_of g) (rows_of g') →
  floor_of (rows_of g) scope ≤ floor_of (rows_of g') scope →
  journal_inv g' ∧ promises i g g'.
Proof.
  intros Hg Hw Ht Hs Ha H1 H2 H3 H4 H5. apply (owner_step i g g' scope); try done. rewrite Ht. apply Hw.
Qed.

(** A put that is not of the lease or the manifest. *)
Lemma put_step view g g' sk payload :
  journal_inv g → working view g → token_at (rows_of g) scope = token → stepped i g g' → gh_abs g' = gh_abs g →
  rows_of g' = compaction_put scope sk payload (rows_of g) → sk ≠ LEASE_SORT_KEY → sk ≠ MANIFEST_SORT_KEY →
  compaction_ok (commits_of g) (rows_of g') →
  journal_inv g' ∧ promises i g g' ∧
  ∀ k, k ≠ LEASE_SORT_KEY → rows_of g' !! (compaction_pk scope, k) =
    if decide (k = sk) then Some (compaction_view scope sk payload) else view k.
Proof.
  intros Hg Hw Ht Hs Ha Hr H1 H2 Hok.
  assert (∀ s k, rows_of g' !! (compaction_pk s, k) = if decide (s = scope ∧ k = sk)
    then Some (compaction_view scope sk payload) else rows_of g !! (compaction_pk s, k)) as Hl
    by (intros; rewrite Hr; apply compaction_put_lookup).
  destruct (own_step view g g' Hg Hw Ht Hs Ha) as [Hg' Hp].
  - intros s k Hne. rewrite Hl, decide_False; [done|tauto].
  - rewrite Hl, decide_False; [done|naive_solver].
  - rewrite Hr. apply journal_ok_put; [apply Hg|done].
  - done.
  - unfold floor_of. rewrite Hl, decide_False; [done|naive_solver].
  - split; [done|]. split; [done|]. intros k Hk. rewrite Hl. destruct (decide (k = sk)) as [->|Hne].
    + by rewrite decide_True.
    + rewrite decide_False by tauto. by apply (wk_view _ _ _ _ _ _ _ Hw Ht).
Qed.

Lemma chunk_ok_later chunk g g' : journal_le g g' → chunk_ok scope chunk g → chunk_ok scope chunk g'.
Proof.
  intros Hle (from & texts & Hst & Hc). exists from, texts. split; [|done].
  eapply stored_chunk_later; [by apply journal_le_commits|done].
Qed.

Lemma chunk_write_runs epoch chunk lease view g :
  journal_inv g → mine lease → working view g → chunk_ok scope chunk g → viewed view = old →
  (∀ m, old = Some m → llen (mn_chunks m) ≤ bc_index chunk) →
  jassures (run_write epoch [chunk_write scope chunk] lease)
    (runs (put_chunk scope view chunk) (λ _ _, True)) g.
Proof.
  intros Hg Hm Hw Hc Hv Hidx. eapply run_write_runs; [done|done|exact Hw|].
  intros g1 g2 Hg1 Hle Hw1 Ht Hs Ha Hr.
  destruct (put_step view g1 g2 (chunk_sk (bc_index chunk)) (bc_payload chunk) Hg1 Hw1 Ht Hs Ha Hr)
    as (Hg2 & Hp & Hl); [done|done| |].
  - rewrite Hr. destruct (chunk_ok_later _ _ _ Hle Hc) as (from & texts & Hst & _ & Hpay & _).
    simpl. rewrite Hpay. apply compaction_ok_chunk; [apply Hg1|done|].
    intros m Hma. apply Hidx. by rewrite <-Hv, <-Hma, <-(manifest_viewed view g1).
  - split; [done|]. split; [done|]. split; [|done]. intros k Hk. rewrite (Hl k Hk). done.
Qed.

Definition tail_index : option Z :=
  match old with Some m => Some (llen (mn_chunks m) - 1) | None => None end.

Definition held_ok (held : option BuiltChunk) (g : Ghost) : Prop :=
  ∀ chunk, held = Some chunk → chunk_ok scope chunk g.

Lemma held_ok_later held g g' : journal_le g g' → held_ok held g → held_ok held g'.
Proof. intros Hle Hh chunk Hc. by eapply chunk_ok_later, Hh. Qed.

(** The chunks that are written, and the one that is held back. *)
Lemma build_loop_runs fuel epoch m : ∀ c held written lease view g,
  journal_inv g → mine lease → working view g → chunks_wf c g → viewed view = old → held_ok held g →
  (∀ b, cs_builder c = Some b → first_index old ≤ cb_index b) → (chunks_left c < fuel)%nat →
  jassures (build_loop fuel epoch scope m tail_index c held written lease)
    (λ x g', mine x.1 ∧ ∀ built, x.2 = Ok built → ∃ rest, todo c = Ok rest ∧
       working (written_view scope tail_index view rest) g' ∧
       built.1 = held_back_of tail_index held rest ∧ held_ok built.1 g') g.
Proof.
  induction fuel as [|fuel IH]; intros c held written lease view g Hg Hm Hw Hc Hv Hh Hb Hfuel; [lia|].
  cbn [build_loop]. eapply run_try; [by apply next_chunk_runs|by split|].
  intros lease1 [c' out] g1 Hg1 Hle1 Hm1 Hw1 Hn. destruct (Hn _ _ eq_refl) as [Hc' Hout]. cbn [fst snd].
  pose proof (held_ok_later _ _ _ Hle1 Hh) as Hh1. destruct out as [chunk|].
  2:{ unfold run_ret. returns. split; [done|]. intros built [= <-]. exists [].
      split; [unfold CompactChunks.todo; by rewrite Hout|done]. }
  destruct Hout as (Hleft & Htodo & Hok & Hi & Hi').
  destruct (cs_builder c) as [b|] eqn:Hcb; [|unfold CompactChunks.chunks_left in Hleft; rewrite Hcb in Hleft; lia].
  specialize (Hi b eq_refl). specialize (Hb b eq_refl).
  destruct (negb _); [unfold run_ret; by returns|].
  assert (∀ b', cs_builder c' = Some b' → first_index old ≤ cb_index b') as Hb'
    by (intros b' Hb'; rewrite (Hi' b' Hb'); lia).
  assert (∀ held' view' l g2 w, journal_inv g2 → journal_le g1 g2 → mine l → working view' g2 →
    viewed view' = old → held_ok held' g2 →
    view' = (if decide (Some (bc_index chunk) = tail_index) then view else put_chunk scope view chunk) →
    held' = (if decide (Some (bc_index chunk) = tail_index) then Some chunk else held) →
    jassures (build_loop fuel epoch scope m tail_index c' held' w l)
      (λ x g', mine x.1 ∧ ∀ built, x.2 = Ok built → ∃ rest, todo c = Ok rest ∧
        working (written_view scope tail_index view rest) g' ∧
        built.1 = held_back_of tail_index held rest ∧ held_ok built.1 g') g2) as Hgo.
  { intros held' view' l g2 w Hg2 Hle2 Hml Hw2 Hv2 Hh2 Hview Hheld.
    eapply assures_mono; [|apply (IH c' held' w l view' g2); try done; [by eapply chunks_wf_later|lia]].
    intros x g3 _ _ [Hx Hall]. split; [done|]. intros built Hbuilt.
    destruct (Hall built Hbuilt) as (rest & Ht & Hwv & Hhb & Hhok). exists (chunk :: rest).
    rewrite Htodo, Ht. split; [done|]. cbn [written_view held_back_of]. by rewrite <-Hview, <-Hheld. }
  case_bool_decide as Htail.
  - apply (Hgo (Some chunk) view); try done; [|by rewrite decide_True..]. by intros ? [= <-].
  - eapply run_try; [apply chunk_write_runs; try done| by split|].
    { intros mo Hmo. unfold tail_index, first_index in *. rewrite Hmo in *.
      assert (bc_index chunk ≠ llen (mn_chunks mo) - 1) by congruence. unfold llen in *. lia. }
    intros lease2 [] g2 Hg2 Hle2 Hm2 Hw2 _.
    apply (Hgo held (put_chunk scope view chunk)); try done; [by eapply held_ok_later|by rewrite decide_False..].
Qed.
End build.
