(* ===== verification/CompactSafe.v ===== *)
(** * The swap of a compaction's manifest

    One write puts the new manifest and, if it changed, the chunk that was last in the old one; what
    is then stored covers every entry through the new checkpoint. *)

From S2P Require Import Prelude Types Features Outcome Rebuild Projection Repository Retry Mem.
From S2P Require Import MemInvariant MemRefinement MemSafety Program LogBackend MemBackend Sha256.
From S2P Require Import JournalScope Compaction JournalConfig JournalRead JournalRepository JournalInvariant.
From S2P Require Import JournalStage JournalInvariant Compact CompactInvariant.
From S2P Require Import JournalClients JournalPages CompactLease CompactChunks.
From S2P Require Import CompactPlan CompactBuild.

Section swap.
Context `{SJ : SerdeJson} `{J : JournalJson} {Hlaws : JournalJsonLaws J} `{CJ : CompactionJson}.
Context {Hclaws : CompactionJsonLaws J CJ}.
Context (scope : Scope) (old : option CompactionManifest).
Implicit Types rows : gmap (string * string) ViewRow.

(** ** The rows after the swap *)

Definition swap_rows (m : CompactionManifest) (rewritten : option BuiltChunk) rows
  : gmap (string * string) ViewRow :=
  let rows := compaction_put scope MANIFEST_SORT_KEY (manifest_payload m) rows in
  match rewritten with
  | Some chunk => compaction_put scope (chunk_sk (bc_index chunk)) (bc_payload chunk) rows
  | None => rows
  end.

Definition swap_view (m : CompactionManifest) (rewritten : option BuiltChunk)
    (view : string → option ViewRow) (sk : string) : option ViewRow :=
  if decide (sk = MANIFEST_SORT_KEY) then Some (compaction_view scope sk (manifest_payload m))
  else match rewritten with Some chunk => put_chunk scope view chunk sk | None => view sk end.

Lemma swap_rows_other m rewritten rows s sk :
  s ≠ scope → swap_rows m rewritten rows !! (compaction_pk s, sk) = rows !! (compaction_pk s, sk).
Proof.
  intros Hs. unfold swap_rows. destruct rewritten; rewrite !compaction_put_lookup, !decide_False by tauto; done.
Qed.

Lemma swap_rows_scope m rewritten rows sk :
  swap_rows m rewritten rows !! (compaction_pk scope, sk) =
  swap_view m rewritten (λ sk, rows !! (compaction_pk scope, sk)) sk.
Proof.
  unfold swap_rows, swap_view, put_chunk. destruct rewritten as [chunk|]; rewrite !compaction_put_lookup.
  - destruct (decide (sk = MANIFEST_SORT_KEY)) as [->|Hm].
    + rewrite decide_False by naive_solver. by rewrite decide_True.
    + destruct (decide (sk = chunk_sk _)) as [->|Hc]; [by rewrite decide_True|].
      rewrite !decide_False by tauto. done.
  - destruct (decide (sk = MANIFEST_SORT_KEY)) as [->|Hm]; [by rewrite decide_True|].
    by rewrite decide_False by tauto.
Qed.

Lemma swap_view_chunk m rewritten view index :
  swap_view m rewritten view (chunk_sk index) =
  match rewritten with Some chunk => put_chunk scope view chunk (chunk_sk index) | None => view (chunk_sk index) end.
Proof. unfold swap_view. by rewrite decide_False by done. Qed.

(** ** The plan is carried out *)

Lemma tail_index_first o index : 0 ≤ index → (∀ mo, o = Some mo → mn_chunks mo ≠ []) →
  Some index = tail_index o ↔ (∃ mo, o = Some mo) ∧ index = first_index o.
Proof.
  intros Hi Hne. unfold tail_index, first_index, llen. destruct o as [mo|]; [|split; [done|by intros [[] _]]].
  assert (0 < length (mn_chunks mo))%nat by (destruct (mn_chunks mo) eqn:E; [by destruct (Hne mo)|simpl; lia]).
  split; [intros [= ->]; split; [by eexists|lia]|]. intros [_ ->]. f_equal. lia.
Qed.

(** Only the first chunk is held back, when there is an old manifest. *)
Lemma held_back_first chunk rest :
  consecutive (first_index old) (chunk :: rest) → (∀ mo, old = Some mo → mn_chunks mo ≠ []) →
  held_back_of (tail_index old) None (chunk :: rest) = match old with Some _ => Some chunk | None => None end.
Proof.
  intros (Hi & H0 & Hn)%consecutive_cons Hne.
  assert (∀ c, c ∈ rest → Some (bc_index c) ≠ tail_index old) as Hno.
  { intros c Hc Ht. pose proof (consecutive_elem _ _ _ Hn Hc). apply tail_index_first in Ht as [_ Ht]; [lia|lia|done]. }
  cbn [held_back_of]. rewrite held_back_none by done. destruct (decide _) as [Ht|Ht].
  - apply tail_index_first in Ht as [[mo ->] _]; [done|lia|done].
  - destruct old as [mo|]; [|done]. destruct Ht. apply tail_index_first; [lia|done|]. split; [by eexists|done].
Qed.

Lemma changed_tail_first chunk :
  bc_index chunk = first_index old →
  changed_tail old match old with Some _ => Some chunk | None => None end =
  match old with
  | Some mo => if decide (mn_chunks mo !! (length (mn_chunks mo) - 1)%nat = Some (bc_digest chunk))
      then None else Some chunk
  | None => None
  end.
Proof.
  intros Hi. destruct old as [mo|]; [|done]. simpl in *. rewrite Hi, Nat2Z.id.
  by case_bool_decide; case_decide.
Qed.

Lemma changed_tail_some held chunk : changed_tail old held = Some chunk → held = Some chunk.
Proof.
  destruct held as [c|]; [|done]. unfold changed_tail. destruct old as [mo|]; [|done].
  by destruct (negb _).
Qed.

Lemma swap_is_planned m rows view chunk rest :
  consecutive (first_index old) (chunk :: rest) → (∀ mo, old = Some mo → mn_chunks mo ≠ []) →
  (∀ sk, sk ≠ LEASE_SORT_KEY →
     rows !! (compaction_pk scope, sk) = written_view scope (tail_index old) view (chunk :: rest) sk) →
  let held := held_back_of (tail_index old) None (chunk :: rest) in
  swapped scope old (chunk :: rest) rows (swap_rows m (changed_tail old held) rows).
Proof.
  intros Hn Hne Hrows held. unfold held. rewrite held_back_first by done.
  pose proof Hn as (Hi & H0 & Hrest)%consecutive_cons. rewrite changed_tail_first by done.
  assert (∀ index, index ≠ first_index old → 0 ≤ index →
    swap_rows m (match old with
      | Some mo => if decide (mn_chunks mo !! (length (mn_chunks mo) - 1)%nat = Some (bc_digest chunk))
          then None else Some chunk | None => None end) rows !! (compaction_pk scope, chunk_sk index) =
    rows !! (compaction_pk scope, chunk_sk index)) as Hsame.
  { intros index Hx Hx0. rewrite swap_rows_scope, swap_view_chunk.
    destruct old as [mo|]; [|done]. destruct (decide _); [done|]. unfold put_chunk. rewrite decide_False; [done|].
    intros Heq%chunk_sk_inj; lia. }
  split; [intros k Hk; apply Hsame; lia|].
  intros k c Hk. pose proof (proj2 Hn k c Hk) as Hc.
  assert (Some (bc_index c) ≠ tail_index old →
    rows !! (compaction_pk scope, chunk_sk (bc_index c)) = Some (chunk_view scope c)) as Hwritten.
  { intros Ht. rewrite Hrows by done. eapply written_view_in; [exact Hn|by eapply list_elem_of_lookup_2|done]. }
  destruct (decide (Some (bc_index c) = tail_index old)) as [Ht|Ht].
  - apply tail_index_first in Ht as [[mo Hmo] Heq]; [|lia|done].
    assert (k = 0%nat) as -> by lia. injection Hk as <-. rewrite Hmo in *. destruct (decide _) as [Hd|Hd].
    + right. split; [done|]. exists mo. split; [done|]. split; [done|]. by rewrite swap_rows_scope, swap_view_chunk.
    + left. rewrite swap_rows_scope, swap_view_chunk. unfold put_chunk. by rewrite decide_True.
  - left. etrans; [|exact (Hwritten Ht)]. destruct (decide (bc_index c = first_index old)) as [Heq|Hx].
    + destruct old as [mo|]; [destruct Ht; apply tail_index_first; [lia|done|split; [by eexists|done]]|].
      by rewrite swap_rows_scope, swap_view_chunk.
    + apply Hsame; [done|lia].
Qed.

(** ** The invariants after the swap *)

Lemma manifest_decode_ok payload m :
  manifest_decode scope payload = Ok m →
  mn_scope m = scope ∧ mn_checkpoint m ≠ 0 ∧ mn_chunks m ≠ [] ∧ Forall (λ d, is_digest d = true) (mn_chunks m).
Proof.
  unfold manifest_decode. destruct (json_parse_manifest payload) as [p|]; cbn [map_err result_bind]; [|done].
  case_bool_decide as Hs; cbn [negb]; [|done].
  destruct (Z.eqb_spec (mp_checkpoint p) 0) as [|Hc]; [done|]. destruct (mp_chunks p) as [|d ds] eqn:Hd; [done|].
  cbn [nil_b orb]. destruct (forallb is_digest (d :: ds)) eqn:Hf; [|done]. cbn [negb]. intros [= <-].
  split_and!; [done|done|done|]. apply Forall_forall. intros x Hx%list_elem_of_In.
  by apply (proj1 (forallb_forall _ _) Hf).
Qed.

Lemma manifest_at_ok rows m :
  manifest_at rows scope = Some m →
  mn_scope m = scope ∧ mn_checkpoint m ≠ 0 ∧ mn_chunks m ≠ [] ∧ Forall (λ d, is_digest d = true) (mn_chunks m).
Proof.
  unfold manifest_at. destruct (rows !! _) as [row|]; [|done].
  destruct (manifest_decode _ _) eqn:Hd; [|done]. intros [= <-]. by eapply manifest_decode_ok.
Qed.

Lemma planned_manifest m rest parts index from :
  (∀ mo, old = Some mo → Forall (λ d, is_digest d = true) (mn_chunks mo)) →
  chunks_of scope index from parts rest → rest ≠ [] →
  mn_scope m = scope → mn_checkpoint m ≠ 0 → mn_chunks m = kept_digests old ++ map bc_digest rest →
  manifest_decode scope (manifest_payload m) = Ok m.
Proof.
  intros Hold Hof Hne Hs Hc Hm. rewrite <-Hs. apply manifest_decode_payload; [done| |]; rewrite Hm.
  - destruct rest; [done|]. by intros [_ ?]%app_eq_nil.
  - apply Forall_app. split.
    + unfold kept_digests. destruct old as [mo|]; [|constructor]. by apply Forall_take, Hold.
    + apply Forall_forall. intros d (chunk & -> & Hin)%list_elem_of_fmap.
      apply list_elem_of_lookup in Hin as [k Hk]. pose proof (chunks_of_length _ _ _ _ _ Hof).
      destruct (lookup_lt_is_Some_2 parts k) as [texts Ht]; [apply lookup_lt_Some in Hk; lia|].
      destruct (chunks_of_lookup _ _ _ _ _ _ _ _ Hof Hk Ht) as (_ & _ & ->). apply sha256_hex_digest.
Qed.

Lemma journal_ok_swap commits rows m rewritten :
  journal_ok commits rows → mn_scope m = scope → manifest_decode scope (manifest_payload m) = Ok m →
  floor_of rows scope ≤ mn_checkpoint m ≤ journal_length commits scope →
  let rows' := swap_rows m rewritten rows in
  journal_ok commits rows' ∧ manifest_at rows' scope = Some m.
Proof.
  intros Hj Hs Hd Hf rows'. destruct (journal_ok_manifest _ _ _ _ Hj Hs Hd Hf) as (Hj' & Hm & _).
  unfold rows', swap_rows. destruct rewritten as [chunk|]; [|done]. split; [by apply journal_ok_put|].
  unfold manifest_at in *. rewrite compaction_put_lookup, decide_False by naive_solver. done.
Qed.

Lemma compaction_ok_swap commits rows m rewritten :
  compaction_ok commits rows →
  (∀ chunk, rewritten = Some chunk → ∃ from texts, stored_chunk commits scope (bc_index chunk) from texts ∧
     bc_payload chunk = chunk_text scope (bc_index chunk) from texts) →
  let rows' := swap_rows m rewritten rows in
  manifest_at rows' scope = Some m → (collision_free commits scope → covered commits rows' scope m) →
  compaction_ok commits rows'.
Proof.
  intros [Hl Hc Hm] Hch rows' Hma Hcov.
  assert (∀ s sk, s ≠ scope → rows' !! (compaction_pk s, sk) = rows !! (compaction_pk s, sk)) as Hother
    by (intros; by apply swap_rows_other).
  split.
  - intros s row. replace (rows' !! (compaction_pk s, LEASE_SORT_KEY)) with (rows !! (compaction_pk s, LEASE_SORT_KEY)); [apply Hl|].
    destruct (decide (s = scope)) as [->|]; [|by rewrite Hother]. unfold rows'. rewrite swap_rows_scope.
    unfold swap_view. rewrite decide_False by done. destruct rewritten; [|done].
    unfold put_chunk. by rewrite decide_False.
  - intros s index row Hi. destruct (decide (s = scope)) as [->|]; [|rewrite Hother by done; by apply Hc].
    unfold rows'. rewrite swap_rows_scope, swap_view_chunk. destruct rewritten as [chunk|]; [|by apply Hc].
    unfold put_chunk. destruct (decide _) as [Heq|]; [|by apply Hc]. intros [= <-].
    destruct (Hch chunk eq_refl) as (from & texts & Hst & Hp). pose proof Hst as (H0 & _).
    apply chunk_sk_inj in Heq; [|lia|lia]. subst index. exists from, texts. split; [|done].
    unfold chunk_view, chunk_row. by rewrite Hp.
  - intros s ms Hfree Hms. destruct (decide (s = scope)) as [->|Hne].
    + rewrite Hma in Hms. injection Hms as <-. by apply Hcov.
    + apply (covered_later commits _ rows); [done|by intros; apply Hother|].
      apply Hm; [done|]. unfold manifest_at in *. by rewrite Hother in Hms.
Qed.
End swap.

Section build.
Context `{SJ : SerdeJson} `{J : JournalJson} {Hlaws : JournalJsonLaws J} `{CJ : CompactionJson}.
Context {Hclaws : CompactionJsonLaws J CJ} (i : nat).
Context (scope : Scope) (token : Z) (through : Z) (entries : list (Z * SerializedEvent)).
Context (old : option CompactionManifest).

#[local] Existing Instance client_handler.
Abbreviation jassures := (@assures _ _ (client_handler i) journal_inv journal_le (client_role i) _) (only parsing).
Abbreviation mine := (mine scope token) (only parsing).
Abbreviation working := (working i scope token through entries) (only parsing).
Abbreviation runs := (runs i scope token through entries) (only parsing).

(** What a run has done when it swaps: as long as its lease is its own, [rest] are the chunks the
    manifest lists after the ones that are kept. *)
Record built (m : CompactionManifest) (view : string → option ViewRow) (b : ChunkBuilder)
    (rest : list BuiltChunk) (g : Ghost) : Prop := {
  bt_working : working (written_view scope (tail_index old) view rest) g;
  bt_viewed : viewed scope view = old;
  bt_checkpoint : 0 ≤ checkpoint_of old < through;
  bt_pack : pack b (map (journal_row scope) (drop (Z.to_nat (checkpoint_of old)) entries)) = Ok rest;
  bt_index : cb_index b = first_index old;
  bt_scope : cb_scope b = scope;
  bt_held : held_ok scope (held_back_of (tail_index old) None rest) g;
  bt_manifest : mn_scope m = scope ∧ mn_checkpoint m = through;
  bt_start : token_at (rows_of g) scope = token →
    starts_from scope old (view (tail_sk old)) b ∧ mn_chunks m = kept_digests old ++ map bc_digest rest
}.

Lemma written_view_tail view rest :
  consecutive (first_index old) rest → (∀ mo, old = Some mo → mn_chunks mo ≠ []) →
  written_view scope (tail_index old) view rest (tail_sk old) = view (tail_sk old) ∨ old = None.
Proof.
  intros Hn Hne. destruct old as [mo|]; [left|by right]. apply written_view_other. intros c Hc Ht Heq.
  pose proof (consecutive_elem _ _ _ Hn Hc) as Hge. pose proof (proj1 Hn). apply chunk_sk_inj in Heq; [|lia|lia].
  destruct Ht. apply tail_index_first; [lia|done|]. split; [by eexists|]. simpl. lia.
Qed.

Lemma starts_from_tail tail tail' b :
  tail = tail' ∨ old = None → starts_from scope old tail b → starts_from scope old tail' b.
Proof. by intros [->| ->]. Qed.

Lemma viewed_written view rest :
  viewed scope (written_view scope (tail_index old) view rest) = viewed scope view.
Proof. unfold viewed. by rewrite written_view_other. Qed.

(** What holds of the plan as long as the lease is the run's own. *)
Lemma built_swap m view b rest g :
  journal_inv g → built m view b rest g → token_at (rows_of g) scope = token →
  let rewritten := changed_tail old (held_back_of (tail_index old) None rest) in
  let rows' := swap_rows scope m rewritten (rows_of g) in
  journal_ok (commits_of g) rows' ∧ compaction_ok (commits_of g) rows' ∧ manifest_at rows' scope = Some m ∧
  floor_of (rows_of g) scope ≤ through.
Proof.
  intros Hg [Hw Hv Hc Hp Hi Hs Hh [Hm1 Hm2] Hst] Ht rewritten rows'. destruct (Hst Ht) as [Hstart Hchunks].
  assert (manifest_at (rows_of g) scope = old) as Hma
    by (rewrite (manifest_viewed i scope token through entries _ _ Hw Ht), viewed_written; exact Hv).
  assert (∀ mo, old = Some mo → mn_chunks mo ≠ [] ∧ Forall (λ d, is_digest d = true) (mn_chunks mo)) as Hold
    by (intros mo ->; by apply manifest_at_ok in Hma as (_ & _ & ? & ?)).
  pose proof Hp as Hp'. apply pack_spec in Hp' as (texts & part & parts & _ & _ & Hof & _).
  rewrite Hs, Hi in Hof. destruct rest as [|chunk rest]; [done|].
  assert (consecutive (first_index old) (chunk :: rest)) as Hn
    by (eapply chunks_of_consecutive; [|exact Hof]; unfold first_index; destruct old; lia).
  assert (floor_of (rows_of g) scope = checkpoint_of old) as Hfloor
    by (rewrite floor_manifest, Hma; done).
  destruct (wk_entries _ _ _ _ _ _ _ Hw) as [Hth He]. unfold length_of in Hth.
  destruct (journal_ok_swap scope (commits_of g) (rows_of g) m rewritten (ji_journal _ Hg)) as [Hj Hma']; try done.
  { eapply planned_manifest; [|exact Hof|done|done|lia|done]. intros mo Hmo. by apply Hold. }
  { lia. }
  split; [exact Hj|]. split; [|split; [exact Hma'|lia]].
  apply compaction_ok_swap; [apply Hg| |exact Hma'|].
  - intros c Hcc. destruct (Hh c) as (from & t & Hstored & _ & Hpay & _); [|by exists from, t].
    by apply changed_tail_some in Hcc.
  - intros Hfree. eapply (plan_covered scope through entries (commits_of g) Hth He old (rows_of g) _ b (chunk :: rest));
      try done; [apply Hg|apply (jk_bound _ _ (ji_journal _ Hg))| |].
    + eapply starts_from_tail; [|exact Hstart].
      rewrite (wk_view _ _ _ _ _ _ _ Hw Ht) by (unfold tail_sk; by destruct old).
      destruct (written_view_tail view (chunk :: rest) Hn) as [->|]; [|by left|by right].
      intros mo Hmo. by apply Hold.
    + apply (swap_is_planned scope old m (rows_of g) view); [done|intros mo Hmo; by apply Hold|].
      intros sk Hsk. by apply (wk_view _ _ _ _ _ _ _ Hw Ht).
Qed.

Lemma built_later m view b rest g g' :
  journal_inv g → journal_le g g' → built m view b rest g →
  working (written_view scope (tail_index old) view rest) g' → built m view b rest g'.
Proof.
  intros Hg Hle [Hw Hv Hc Hp Hi Hs Hh Hm Hst] Hw'. split; try done; [by eapply held_ok_later|].
  intros Ht. apply Hst. by eapply token_back.
Qed.

Lemma swap_runs epoch m view b rest expect lease g :
  journal_inv g → mine lease → built m view b rest g →
  let rewritten := changed_tail old (held_back_of (tail_index old) None rest) in
  jassures
    (run_write epoch
       (WritePut (compaction_view scope MANIFEST_SORT_KEY (manifest_payload m)) expect ::
        match rewritten with Some chunk => [chunk_write scope chunk] | None => [] end) lease)
    (runs (swap_view scope m rewritten (written_view scope (tail_index old) view rest))
       (λ _ g', through ≤ floor_of (rows_of g') scope)) g.
Proof.
  intros Hg Hm Hb rewritten. eapply run_write_runs; [done|done|apply Hb|].
  intros g1 g2 Hg1 Hle Hw1 Ht Hs Ha Hr. pose proof (built_later _ _ _ _ _ _ Hg Hle Hb Hw1) as Hb1.
  assert (rows_of g2 = swap_rows scope m rewritten (rows_of g1)) as Hrows.
  { rewrite Hr. unfold swap_rows. by destruct rewritten. }
  destruct (built_swap m view b rest g1 Hg1 Hb1 Ht) as (Hj & Hc & Hma & Hf).
  fold rewritten in Hj, Hc, Hma. rewrite <-Hrows in Hj, Hc, Hma.
  assert (floor_of (rows_of g2) scope = through) as Hfloor.
  { rewrite floor_manifest, Hma. apply Hb. }
  destruct (own_step i scope token through entries _ g1 g2 Hg1 Hw1 Ht Hs Ha) as [Hg2 Hp]; try done.
  - intros s sk Hne. rewrite Hrows. by apply swap_rows_other.
  - rewrite Hrows, swap_rows_scope. unfold swap_view. rewrite decide_False by done.
    destruct rewritten; [|done]. unfold put_chunk. by rewrite decide_False.
  - by rewrite Hfloor.
  - split; [done|]. split; [done|]. split; [|lia]. intros sk Hsk. rewrite Hrows, swap_rows_scope.
    unfold swap_view, put_chunk. rewrite (wk_view _ _ _ _ _ _ _ Hw1 Ht sk Hsk). done.
Qed.
End build.

(** * A whole compaction

    [compact_with_lease] among any number of other clients: it ends, it keeps the invariants
    whether or not it succeeds, and when it succeeds its scope is compacted through the checkpoint. *)

Section safe.
Context `{SJ : SerdeJson} `{J : JournalJson} {Hlaws : JournalJsonLaws J} `{CJ : CompactionJson}.
Context {Hclaws : CompactionJsonLaws J CJ} (i : nat).

#[local] Existing Instance client_handler.
Abbreviation calmly := (@assures _ _ (client_handler i) journal_inv (tolerates i) (calm_role i) _) (only parsing).
Abbreviation jassures := (@assures _ _ (client_handler i) journal_inv journal_le (client_role i) _) (only parsing).

Lemma declaring_quiet : quiet_prog ensure_compaction_declared.
Proof.
  simpl. split; [done|]. intros [[m|]|]; simpl; [|by split|done].
  destruct (validate_supported m); simpl; [|done]. by destruct (bool_decide _).
Qed.

Section run.
Context (scope : Scope) (token : Z) (through : Z) (entries : list (Z * SerializedEvent)).
Abbreviation mine := (mine scope token) (only parsing).
Abbreviation working := (working i scope token through entries) (only parsing).
Abbreviation runs := (runs i scope token through entries) (only parsing).

(** A run that got through the swap. *)
Definition swapped_runs {A} (x : CompactionLease * Result A) (g : Ghost) : Prop :=
  mine x.1 ∧ ∀ a, x.2 = Ok a → (∃ view, working view g) ∧ through ≤ floor_of (rows_of g) scope.

Lemma quiet_runs {A} (p : JProg Empty_set (Result A)) lease view g :
  quiet_prog p → journal_inv g → mine lease → working view g →
  jassures (run_prog p lease) (runs view (λ _ _, True)) g.
Proof.
  intros Hq Hg Hm Hw. apply run_calm; [done|done|done|].
  eapply assures_mono; [|quiet_calls Hq]. done.
Qed.

Lemma build_runs epoch old payload lease view g :
  journal_inv g → mine lease → working view g → viewed scope view = old → 0 ≤ checkpoint_of old < through →
  jassures (build epoch old payload through lease) swapped_runs g.
Proof.
  intros Hg Hm Hw Hv Hc. unfold build. cbv zeta. rewrite (proj1 Hm).
  eapply run_try; [by apply preflight_runs|by split|].
  intros lease1 m g1 Hg1 Hle1 Hm1 Hw1 (Hs & Hth & tail & b & rest & [Hst Hpack] & Hchunks & Htail).
  eapply run_try; [by apply quiet_runs; [apply declaring_quiet|..]|by split|].
  intros lease2 [] g2 Hg2 Hle2 Hm2 Hw2 _. eapply run_try; [by apply start_runs|by split|].
  intros lease3 c g3 Hg3 Hle3 Hm3 Hw3 (Hwf & b' & tail' & Hb & Hi & Hst' & Hafter & Htail').
  apply run_bind_assures. eapply assures_mono; [|apply build_loop_runs; try done].
  2:{ intros b0 Hb0. rewrite Hb in Hb0. injection Hb0 as <-. lia. }
  2:{ unfold chunks_left, chunks_fuel. rewrite Hb, (cw_through _ _ _ _ _ Hwf). lia. }
  intros [lease4 [[held n]|e]] g4 Hg4 Hle4 [Hm4 Hx]; simpl in Hm4; [|by split].
  destruct (Hx _ eq_refl) as (rest' & Htodo & Hw4 & Hheld & Hhok). cbn [fst] in Hheld, Hhok. cbv beta iota zeta.
  unfold todo in Htodo. rewrite Hb, Hafter in Htodo. cbn [fst snd].
  assert (built i scope token through entries old m view b' rest' g4) as Hbuilt.
  { split; try done; [| by rewrite <-Hheld|].
    - by destruct (cw_builder _ _ _ _ _ Hwf b' Hb) as [[] _].
    - intros Ht. assert (token_at (rows_of g3) scope = token) as Ht3 by (by eapply token_back).
      assert (token_at (rows_of g1) scope = token) as Ht1.
      { eapply token_back; [exact Hg1|etrans; [exact Hle2|exact Hle3]|exact Hw1|done]. }
      rewrite (Htail' Ht3) in Hst'. rewrite (Htail Ht1) in Hst. split; [done|].
      rewrite (starts_from_unique _ _ _ _ _ Hst Hst') in Hpack. rewrite Hpack in Htodo.
      by injection Htodo as <-. }
  rewrite Hheld. eapply run_try; [by apply (swap_runs i scope token through entries old epoch m view b' rest')|by split|].
  intros lease5 [] g5 Hg5 _ Hm5 Hw5 Hfl. unfold run_ret. returns. split; [done|]. intros a _.
  split; [by eexists|done].
Qed.

(** ** Deleting the rows that are covered *)

Lemma rows_between g after limit rows :
  journal_inv g → 0 ≤ after ≤ u64_max →
  mem_read_rows (jw_store (gh_world g)) scope after limit = Ok rows →
  Forall (λ row, after < jr_position row ≤ through) (take_while (λ row, jr_position row <=? through) rows).
Proof.
  intros Hg Hafter Hr.
  destruct (read_rows_ok _ (jw_store (gh_world g)) (ji_journal _ Hg) scope after Hafter) as (all & Hread & _ & Hall).
  rewrite Hread in Hr. injection Hr as <-. apply Forall_forall. intros row [Hin Hp]%take_while_elem.
  assert (row ∈ all) as Hin' by (rewrite <-(take_drop (Z.to_nat limit) all); apply elem_of_app; by left).
  apply Hall in Hin' as ([p e] & _ & -> & Hlt & _). simpl in *. lia.
Qed.

Lemma delete_step view g g' rows :
  journal_inv g → working view g → token_at (rows_of g) scope = token → stepped i g g' → gh_abs g' = gh_abs g →
  rows_of g' = fold_left apply_write (map (delete_write scope) rows) (rows_of g) →
  Forall (λ row, 0 ≤ jr_position row ≤ floor_of (rows_of g) scope) rows →
  journal_inv g' ∧ promises i g g' ∧
  (∀ sk, sk ≠ LEASE_SORT_KEY → rows_of g' !! (compaction_pk scope, sk) = view sk) ∧
  floor_of (rows_of g') scope = floor_of (rows_of g) scope.
Proof.
  intros Hg Hw Ht Hs Ha Hr Hrows.
  assert (∀ s sk, rows_of g' !! (compaction_pk s, sk) = rows_of g !! (compaction_pk s, sk)) as Hsame
    by (intros; rewrite Hr; apply delete_rows_compaction).
  assert (floor_of (rows_of g') scope = floor_of (rows_of g) scope) as Hf by (unfold floor_of; by rewrite Hsame).
  destruct (own_step i scope token through entries view g g' Hg Hw Ht Hs Ha) as [Hg' Hp].
  - intros s sk _. apply Hsame.
  - apply Hsame.
  - rewrite Hr. apply journal_ok_delete; [apply Hg|done].
  - eapply compaction_ok_later; [done|exact Hsame|apply Hg].
  - lia.
  - split; [done|]. split; [done|]. split; [|done]. intros sk Hsk. rewrite Hsame. by apply (wk_view _ _ _ _ _ _ _ Hw Ht).
Qed.

Lemma delete_loop_runs fuel epoch view : ∀ after deleted lease g,
  journal_inv g → mine lease → working view g → through ≤ floor_of (rows_of g) scope →
  0 ≤ after ≤ u64_max → (Z.to_nat (through - after) < fuel)%nat →
  jassures (delete_loop fuel epoch scope through after deleted lease) swapped_runs g.
Proof.
  induction fuel as [|fuel IH]; intros after deleted lease g Hg Hm Hw Hf Hafter Hfuel; [lia|].
  cbn [delete_loop]. eapply run_try with (view := view); [|by split|].
  { apply run_calm; [done|done|done|]. eapply assures_mono; [|by apply rows_assures].
    intros r g1 Hg1 _ -> page Hpage. exact (rows_between g1 after _ page Hg1 Hafter Hpage). }
  intros lease1 page g1 Hg1 Hle1 Hm1 Hw1 Hpage. cbv beta zeta in Hpage |- *.
  set (rows := take_while _ page) in *. pose proof (jl_floor _ _ Hle1 scope) as Hf1.
  destruct (last rows) as [row|] eqn:Hlast.
  2:{ unfold run_ret. returns. split; [done|]. intros a _. split; [by eexists|lia]. }
  assert (after < jr_position row ≤ through) as Hrow.
  { rewrite Forall_forall in Hpage. apply Hpage. by apply last_Some_elem_of. }
  eapply run_try with (view := view) (P := λ _ g2, through ≤ floor_of (rows_of g2) scope); [|by split|].
  { apply (run_write_runs i scope token through entries epoch _ lease1 view view
      (λ g2, through ≤ floor_of (rows_of g2) scope)); [done|done|done|].
    intros g2 g3 Hg2 Hle2 Hw2 Ht Hs Ha Hr. pose proof (jl_floor _ _ Hle2 scope).
    destruct (delete_step view g2 g3 rows Hg2 Hw2 Ht Hs Ha Hr) as (Hg3 & Hp & Hv & Hfl).
    { eapply Forall_impl; [exact Hpage|]. intros r Hr'. cbv beta in Hr'. lia. }
    split; [done|]. split; [done|]. split; [done|lia]. }
  intros lease2 [] g2 Hg2 Hle2 Hm2 Hw2 Hf2. destruct (_ <=? _) eqn:Hcmp.
  - unfold run_ret. returns. split; [done|]. intros a _. split; [by eexists|done].
  - apply IH; try done; [|lia].
    destruct (wk_entries _ _ _ _ _ _ _ Hw2) as [Hth _]. unfold length_of in Hth.
    pose proof (jk_bound _ _ (ji_journal _ Hg2) scope). lia.
Qed.

(** ** The audit *)

Lemma audit_runs epoch payload lease view g :
  journal_inv g → mine lease → working view g → through ≤ floor_of (rows_of g) scope →
  jassures (run_write epoch [WritePut (compaction_view scope (audit_sk through) payload) ExpectAny] lease)
    swapped_runs g.
Proof.
  intros Hg Hm Hw Hf. eapply assures_mono; [|apply (run_write_runs i scope token through entries epoch _ lease view
    (λ k, if decide (k = audit_sk through) then Some (compaction_view scope (audit_sk through) payload) else view k)
    (λ g2, through ≤ floor_of (rows_of g2) scope) g Hg Hm Hw)].
  { intros x g' Hg' _ [Hx Ha]. split; [done|]. intros a He. destruct (Ha a He). split; [by eexists|done]. }
  intros g1 g2 Hg1 Hle Hw1 Ht Hs Ha Hr.
  destruct (put_step i scope token through entries view g1 g2 (audit_sk through) payload Hg1 Hw1 Ht Hs Ha Hr)
    as (Hg2 & Hp & Hl); [done|done| |].
  - assert (∀ s sk, sk ≠ audit_sk through →
      rows_of g2 !! (compaction_pk s, sk) = rows_of g1 !! (compaction_pk s, sk)) as Hsame.
    { intros s sk Hne. rewrite Hr. etrans; [apply compaction_put_lookup|]. rewrite decide_False; [done|tauto]. }
    apply (compaction_ok_ext _ (rows_of g1)); [apply Hg1|intros; by apply Hsame..].
  - split; [done|]. split; [done|]. split; [exact Hl|].
    pose proof (jl_floor _ _ Hle scope). pose proof (jl_floor _ _ (proj1 Hp) scope). lia.
Qed.

(** ** The run *)

Lemma compacted_runs epoch stored old lease view g :
  journal_inv g → mine lease → working view g → viewed scope view = old →
  0 ≤ checkpoint_of old ≤ through → through ≠ 0 →
  (checkpoint_of old = through → through ≤ floor_of (rows_of g) scope) →
  jassures (compacted epoch stored old through lease) swapped_runs g.
Proof.
  intros Hg Hm Hw Hv Hc H0 Hf. unfold compacted. fold (checkpoint_of old). cbv zeta.
  destruct (Z.ltb_spec (checkpoint_of old) through) as [Hlt|Hge]; [eapply build_runs; [done|done|exact Hw|done|lia]|].
  eapply run_try; [by apply quiet_runs; [apply declaring_quiet|..]|by split|].
  intros lease1 [] g1 Hg1 Hle1 Hm1 Hw1 _. destruct old as [m|]; [|simpl in *; lia].
  unfold run_ret. returns. split; [done|]. intros a _. split; [by eexists|].
  pose proof (jl_floor _ _ Hle1 scope). lia.
Qed.
End run.

Lemma swapped_try {A B} scope token through entries (m : Run A) (f : A → Run B) lease
    (Q : CompactionLease * Result B → Ghost → Prop) g :
  jassures (m lease) (swapped_runs scope token through entries) g →
  (∀ lease' e g', journal_inv g' → mine scope token lease' → Q (lease', Err e) g') →
  (∀ lease' a view g', journal_inv g' → mine scope token lease' →
     working i scope token through entries view g' → through ≤ floor_of (rows_of g') scope →
     jassures (f a lease') Q g') →
  jassures (run_bind m f lease) Q g.
Proof.
  intros Hm Herr Hf. apply run_bind_assures. eapply assures_mono; [|exact Hm].
  intros [lease' [a|e]] g' Hg' _ [Hmine Hx]; simpl in *; [|by apply Herr].
  destruct (Hx a eq_refl) as [[view Hw] Hfl]. by eapply Hf.
Qed.

(** What the checks before a compaction found: the manifest as it was, and entries to compact. *)
Lemma check_checkpoint_calm scope through g :
  journal_inv g → 0 ≤ through →
  calmly (check_checkpoint scope through)
    (λ r g', ∀ stored old, r = Ok (stored, old) → ∃ g1, journal_inv g1 ∧ journal_le g g1 ∧ tolerates i g1 g' ∧
       stored = rows_of g1 !! (compaction_pk scope, MANIFEST_SORT_KEY) ∧
       old = manifest_at (rows_of g1) scope ∧
       0 ≤ checkpoint_of old ≤ through ∧ through ≠ 0 ∧ through ≤ length_of g' scope) g.
Proof.
  intros Hg Hth. unfold check_checkpoint. step_try.
  eapply assures_mono; [|by apply engine_row_calm]. intros [stored|e] g1 Hg1 [Hle1 _] Hst; [|done].
  specialize (Hst stored eq_refl). step_try. returns.
  assert (match stored with
     | Some row => let? manifest := manifest_decode scope (vr_payload row) in Ok (Some manifest)
     | None => Ok None end = Ok (manifest_at (rows_of g1) scope)) as ->.
  { rewrite Hst. unfold manifest_at. destruct (rows_of g1 !! _) as [row|] eqn:Hrow; [|done].
    destruct (jk_manifest _ _ (ji_journal _ Hg1) scope row Hrow) as (_ & m & ->). done. }
  set (old := manifest_at (rows_of g1) scope). fold (checkpoint_of old). cbv zeta.
  destruct (Z.eqb_spec through 0) as [|Hne]; [by returns|].
  destruct (Z.ltb_spec through (checkpoint_of old)) as [|Hle]; [by returns|]. cbn [orb].
  step_try. eapply assures_mono; [|by apply counter_assures]. intros r g2 Hg2 Htol ->. cbv beta iota.
  destruct (Z.ltb_spec (length_of g2 scope) through); returns; [done|].
  intros s o [= <- <-]. exists g1. split_and!; try done. fold old.
  pose proof (jk_floor _ _ (ji_journal _ Hg1) scope) as Hfl. rewrite floor_manifest in Hfl. fold old in Hfl.
  unfold checkpoint_of. destruct old; lia.
Qed.

(** A run starts: its lease is its own, and what it saw of the manifest is still so unless it lost it. *)
Lemma working_starts scope token through g1 g :
  journal_inv g1 → tolerates i g1 g → gh_owners g1 scope token = Some i → 0 ≤ through ≤ length_of g scope →
  working i scope token through (take (Z.to_nat through) (journal_of (commits_of g) scope))
    (λ sk, if decide (sk = MANIFEST_SORT_KEY) then rows_of g1 !! (compaction_pk scope, MANIFEST_SORT_KEY)
           else rows_of g !! (compaction_pk scope, sk)) g.
Proof.
  intros Hg1 [Hle Hl] Ho Hth. split; [by apply (jl_owners _ _ Hle)|by split|].
  intros Ht sk Hsk. destruct (decide (sk = MANIFEST_SORT_KEY)) as [->|]; [|done].
  pose proof (ji_owners _ Hg1 _ _ _ Ho). pose proof (jl_token _ _ Hle scope).
  assert (token_at (rows_of g1) scope = token) as Ht1 by lia. apply Hl; [by rewrite Ht1|congruence|done].
Qed.

Definition compacts (scope : Scope) (through : Z) {A} (r : Result A) (g : Ghost) : Prop :=
  ∀ a, r = Ok a → through ≤ floor_of (rows_of g) scope.

Lemma compact_runs through lease g :
  journal_inv g → 0 ≤ through → holder i lease g →
  jassures (compact through lease) (λ x g', compacts (cl_scope lease) through x.2 g') g.
Proof.
  intros Hg H0 Ho. unfold holder in Ho. set (scope := cl_scope lease) in *. set (token := cl_token lease) in *.
  assert (mine scope token lease) as Hm by done. clearbody scope token.
  unfold compact. cbv zeta. rewrite (proj1 Hm). apply run_bind_assures. unfold run_prog at 1. step_bind.
  eapply assures_mono; [|quiet_calls observe_quiet].
  intros [epoch|e] g1 Hg1 Hle1 _; returns; [|done]. cbn [fst snd].
  apply (jl_owners _ _ Hle1) in Ho. apply run_bind_assures. unfold run_prog at 1. step_bind.
  eapply assures_mono; [|apply calm_client; by apply check_checkpoint_calm].
  intros [[stored old]|e] g2 Hg2 _ [_ Hck]; returns; [|done]. cbn [fst snd].
  destruct (Hck _ _ eq_refl) as (gm & Hgm & Hle & Htol & -> & -> & Hcp & Hne & Hlen).
  apply (jl_owners _ _ Hle) in Ho.
  pose proof (working_starts scope token through gm g2 Hgm Htol Ho (conj H0 Hlen)) as Hw.
  eapply swapped_try; [eapply (compacted_runs scope token through _ epoch); [done|done|exact Hw| |done|done|]| |].
  { unfold viewed, manifest_at. by rewrite decide_True. }
  { intros Heq. rewrite <-Heq. etrans; [|apply (jl_floor _ _ (proj1 Htol) scope)]. by rewrite floor_manifest. }
  { done. }
  intros lease1 built view g3 Hg3 Hm1 Hw1 Hf1. eapply swapped_try; [|done|].
  { unfold delete_rows. rewrite (proj1 Hm1).
    eapply delete_loop_runs; [done|done|exact Hw1|done|unfold u64_max; lia|lia]. }
  intros lease2 n view' g4 Hg4 Hm2 Hw2 Hf2. cbv zeta. step_bind.
  eapply assures_mono; [|apply calm_client; quiet_call; by instantiate (1 := λ _ _, True)].
  intros now g5 Hg5 Hle5 [Ht5 _].
  pose proof (working_later _ _ _ _ _ _ _ _ Hg4 Ht5 Hw2) as Hw5.
  eapply swapped_try; [eapply audit_runs; [done|done|exact Hw5|]|done|].
  { etrans; [exact Hf2|apply (jl_floor _ _ Hle5)]. }
  intros lease3 [] view5 g6 Hg6 _ _ Hf6. unfold run_ret. returns. by intros a _.
Qed.

(** Compacting under a lease of its own: it ends, and what it reports is so. *)
Lemma compact_with_lease_assures scope through owner lease g :
  journal_inv g → 0 ≤ through →
  jassures (compact_with_lease scope through owner lease) (compacts scope through) g.
Proof.
  intros Hg H0. unfold compact_with_lease.
  step_try. eapply assures_mono; [|quiet_calls observe_quiet]. intros [epoch|e] g1 Hg1 _ _; [|done].
  step_try. eapply assures_mono; [|quiet_calls check_marker_quiet]. intros [m|e] g2 Hg2 _ _; [|done].
  step_try. eapply assures_mono; [|apply calm_client; by apply check_checkpoint_calm].
  intros [found|e] g3 Hg3 _ _; [|done].
  step_try. eapply assures_mono; [|apply calm_client; by apply begin_calm].
  intros [held|e] g4 Hg4 _ [_ Hb]; [|done]. destruct (Hb held eq_refl) as (Hs & _ & Hh).
  step_bind. eapply assures_mono; [|by apply compact_runs]. intros [lease' r] g5 Hg5 _ Hc. simpl in Hc.
  step_bind. eapply assures_mono; [|apply calm_client; by apply end_calm].
  intros ended g6 Hg6 Hle _. returns. cbn [fst snd]. intros a Ha. destruct r as [report|]; [|done].
  rewrite Hs in Hc. etrans; [by eapply Hc|]. apply (jl_floor _ _ Hle).
Qed.

Lemma force_release_assures scope owner g :
  journal_inv g → jassures (force_release_compaction scope owner) (λ _ _, True) g.
Proof.
  intros Hg. eapply assures_mono; [|apply calm_client; by apply force_release_calm]. done.
Qed.
End safe.
