(* ===== verification/JournalSnapshot.v ===== *)
(** * Reading a compacted journal

    A reader that found its place gone reads the manifest and then its chunks one by one, while
    others go on: what it gets is the beginning of the scope's journal, or the manifest moved. *)

From S2P Require Import Prelude Types Features Outcome Rebuild Projection Repository Retry Mem.
From S2P Require Import MemInvariant MemRefinement MemSafety Program LogBackend MemBackend Sha256.
From S2P Require Import JournalScope Compaction JournalConfig JournalRead JournalRepository JournalInvariant.
From S2P Require Import JournalStage JournalInvariant Compact CompactInvariant.
From S2P Require Import JournalClients JournalPages CompactLease CompactChunks.
From S2P Require Import CompactPlan CompactSafe.

Section snapshot.
Context `{SJ : SerdeJson} `{J : JournalJson} {Hlaws : JournalJsonLaws J} `{CJ : CompactionJson}.
Context {Hclaws : CompactionJsonLaws J CJ}.

(** ** The reader *)

(** The chunks of a manifest from [index] on, as many as [count]. *)
Fixpoint read_chunks (manifest : CompactionManifest) (index count : nat)
  : JProg Empty_set (Result (list JournalRow)) :=
  match count with
  | O => Ret (Ok [])
  | S count =>
      await? chunk := read_chunk manifest index in
      await? rest := read_chunks manifest (S index) count in
      Ret (Ok (ck_rows chunk ++ rest))
  end.

(** The rows a scope was compacted to, none when it was not. *)
Definition read_snapshot (scope : Scope) : JProg Empty_set (Result (list JournalRow)) :=
  await? manifest := read_manifest scope in
  match manifest with
  | Some manifest => read_chunks manifest 0 (length (mn_chunks manifest))
  | None => Ret (Ok [])
  end.

(** ** Chunks *)

Lemma encodes_decode scope entries texts :
  Forall (λ entry : Z * SerializedEvent, entry.1 ≠ 0) entries → encodes scope entries texts →
  collect (decode_row_payload scope) texts = Ok (map (journal_row scope) entries).
Proof.
  intros Hne He. revert Hne. induction He as [|[p e] text entries texts H _ IH]; [done|].
  intros [Hp Hne]%Forall_cons. cbn [collect map]. simpl in Hp, H.
  rewrite (decode_row_encoded _ _ _ _ Hp H). cbn [result_bind]. rewrite (IH Hne). cbn [result_bind].
  unfold journal_row. simpl. by rewrite as_encoded_idem.
Qed.

Lemma contiguous_rows scope from entries :
  map fst entries = seqZ from (llen entries) → contiguous_from from (map (journal_row scope) entries) = true.
Proof.
  revert from. induction entries as [|[p e] entries IH]; intros from Hp; [done|].
  unfold llen in Hp. cbn [length map] in Hp. rewrite Nat2Z.inj_succ, seqZ_cons in Hp by lia.
  injection Hp as Hp Hrest. cbn [map contiguous_from journal_row jr_position fst]. rewrite Hp, Z.eqb_refl.
  cbn [andb]. apply IH. unfold llen. rewrite Hrest. f_equal; lia.
Qed.

(** The entries a chunk holds. *)
Definition held_entries (commits : Commits) (scope : Scope) (from : Z) (texts : list string)
  : list (Z * SerializedEvent) :=
  take (length texts) (drop (Z.to_nat (from - 1)) (journal_of commits scope)).

Lemma chunk_decode_stored commits rows scope index from texts :
  journal_ok commits rows → stored_chunk commits scope index from texts →
  chunk_decode scope (chunk_text scope index from texts) =
    Ok (mkCompactionChunk scope index from (from + llen texts - 1)
      (map (journal_row scope) (held_entries commits scope from texts))).
Proof.
  intros Hok Hst. pose proof (decode_stored scope _ _ _ _ Hst (jk_bound _ _ Hok scope)) as Hd.
  destruct Hst as (Hi & Hne & [Hf He]). unfold chunk_decode. rewrite Hd.
  cbn [result_bind ci_rows ci_from ci_through ci_index]. fold (held_entries commits scope from texts) in He.
  pose proof (encodes_length _ _ _ He) as Hlen.
  assert (map fst (held_entries commits scope from texts) = seqZ from (llen (held_entries commits scope from texts))) as Hpos.
  { apply list_eq. intros k. rewrite list_lookup_fmap. destruct (held_entries commits scope from texts !! k) as [[p e]|] eqn:Hk.
    - pose proof (lookup_lt_Some _ _ _ Hk). simpl. symmetry. apply lookup_seqZ. unfold llen. split; [|lia].
      unfold held_entries in Hk. apply lookup_take_Some in Hk as [Hk _]. rewrite lookup_drop in Hk.
      apply (f_equal (fmap fst)) in Hk. rewrite <-list_lookup_fmap in Hk. simpl in Hk.
      change (fst <$> journal_of commits scope) with (map fst (journal_of commits scope)) in Hk.
      rewrite (jk_positions _ _ Hok) in Hk. apply lookup_seqZ in Hk as [-> _]. lia.
    - simpl. symmetry. apply lookup_ge_None in Hk. apply lookup_ge_None. rewrite length_seqZ. unfold llen. lia. }
  rewrite (encodes_decode _ _ _) with (2 := He).
  - cbn [result_bind]. rewrite contiguous_rows by done. unfold llen. rewrite length_map, Hlen.
    destruct (Z.eqb_spec (from + Z.of_nat (length texts) - 1 + 1) (from + Z.of_nat (length texts))); [done|lia].
  - apply Forall_forall. intros [p e] Hin. apply (list_elem_of_fmap_2 fst) in Hin.
    change (p ∈ map fst (held_entries commits scope from texts)) in Hin. rewrite Hpos in Hin.
    apply elem_of_seqZ in Hin. simpl. lia.
Qed.

(** ** A manifest that was read *)

(** Its chunks, as they were when it was read: whatever is stored now. *)
Definition known (m : CompactionManifest) (g : Ghost) : Prop :=
  collision_free (commits_of g) (mn_scope m) →
  ∃ parts, length parts = length (mn_chunks m) ∧ Forall (λ l, l ≠ []) parts ∧
    holds_from (commits_of g) (mn_scope m) 1 (concat parts) ∧ llen (concat parts) = mn_checkpoint m ∧
    ∀ k texts digest, parts !! k = Some texts → mn_chunks m !! k = Some digest →
      digest = sha256_hex (chunk_text (mn_scope m) (Z.of_nat k) (1 + llen (concat (take k parts))) texts).

Lemma known_later m g g' : journal_le g g' → known m g → known m g'.
Proof.
  intros Hc%journal_le_commits Hk Hfree.
  destruct (Hk (collision_free_earlier _ _ _ Hc Hfree)) as (parts & H1 & H2 & H3 & H4 & H5).
  exists parts. split_and!; try done. by eapply holds_from_later.
Qed.

Lemma known_at scope m g :
  journal_inv g → manifest_at (rows_of g) scope = Some m → mn_scope m = scope → known m g.
Proof.
  intros Hg Hm Hs Hfree. rewrite Hs in Hfree |- *.
  destruct (co_covered _ _ (ji_compaction _ Hg) scope m Hfree Hm) as (parts & [S1 S2 S3 S4] & Hlen).
  exists parts. split_and!; try done. intros k texts digest Hk Hd.
  by destruct (S4 k texts digest Hk Hd).
Qed.

(** What reading a chunk gave. *)
Definition chunk_read (m : CompactionManifest) (index : nat) (rows : list JournalRow) (g : Ghost) : Prop :=
  ∃ from texts, stored_chunk (commits_of g) (mn_scope m) (Z.of_nat index) from texts ∧
    mn_chunks m !! index = Some (sha256_hex (chunk_text (mn_scope m) (Z.of_nat index) from texts)) ∧
    rows = map (journal_row (mn_scope m)) (held_entries (commits_of g) (mn_scope m) from texts).

Lemma held_entries_later commits commits' scope from texts :
  commits `prefix_of` commits' → holds_from commits scope from texts → texts ≠ [] →
  held_entries commits' scope from texts = held_entries commits scope from texts.
Proof.
  intros Hp Hh Hne. pose proof (holds_from_bound _ _ _ _ Hh Hne) as Hb. destruct Hh as [Hf _].
  unfold held_entries. destruct (journal_of_prefix _ _ scope Hp) as [rest ->].
  unfold journal_length, llen in Hb. rewrite drop_app_le by lia. rewrite take_app_le; [done|].
  rewrite length_drop. lia.
Qed.

Lemma chunk_read_later m index rows g g' : journal_le g g' → chunk_read m index rows g → chunk_read m index rows g'.
Proof.
  intros Hc%journal_le_commits (from & texts & Hst & Hd & ->). exists from, texts.
  split; [by eapply stored_chunk_later|]. split; [done|]. destruct Hst as (_ & Hne & Hh).
  by rewrite (held_entries_later _ _ _ _ _ Hc Hh Hne).
Qed.

(** The pieces of consecutive texts are the consecutive entries. *)
Lemma pieces_concat (scope : Scope) (journal : list (Z * SerializedEvent)) (parts : list (list string)) :
  ∀ off pieces, length pieces = length parts →
  (∀ k piece texts, pieces !! k = Some piece → parts !! k = Some texts →
     piece = map (journal_row scope) (take (length texts) (drop (off + length (concat (take k parts))) journal))) →
  concat pieces = map (journal_row scope) (take (length (concat parts)) (drop off journal)).
Proof.
  induction parts as [|texts parts IH]; intros off [|piece pieces] Hlen Hall; try done.
  cbn [concat]. rewrite length_app, <-take_take_drop, map_app, drop_drop. f_equal.
  - rewrite (Hall 0%nat piece texts eq_refl eq_refl). simpl. by rewrite Nat.add_0_r.
  - apply IH; [by injection Hlen|]. intros k p t Hk Ht. rewrite (Hall (S k) p t Hk Ht).
    cbn [take concat]. rewrite length_app. do 3 f_equal. lia.
Qed.

Lemma pieces_read m pieces g :
  known m g → length pieces = length (mn_chunks m) →
  (∀ k piece, pieces !! k = Some piece → chunk_read m k piece g) →
  collision_free (commits_of g) (mn_scope m) →
  concat pieces = map (journal_row (mn_scope m))
    (take (Z.to_nat (mn_checkpoint m)) (journal_of (commits_of g) (mn_scope m))).
Proof.
  intros Hk Hlen Hall Hfree. destruct (Hk Hfree) as (parts & H1 & H2 & H3 & H4 & H5).
  rewrite (pieces_concat (mn_scope m) (journal_of (commits_of g) (mn_scope m)) parts 0); [|congruence|].
  { rewrite drop_0. do 2 f_equal. unfold llen in H4. lia. }
  intros k piece texts Hp Ht. destruct (Hall k piece Hp) as (from & texts' & Hst & Hd & ->).
  pose proof (H5 k texts _ Ht Hd) as Hsha. pose proof (part_stored _ _ _ _ _ H2 H3 Ht) as Hst'.
  destruct (Hfree _ _ _ _ _ Hst Hst' Hsha) as [-> ->]. unfold held_entries. do 3 f_equal. unfold llen. lia.
Qed.

(** What a snapshot is: the beginning of the journal, through a checkpoint it had. *)
Definition snapshot_answer (scope : Scope) (r : Result (list JournalRow)) (g : Ghost) : Prop :=
  collision_free (commits_of g) scope → ∀ rows, r = Ok rows →
  ∃ checkpoint, 0 ≤ checkpoint ≤ floor_of (rows_of g) scope ∧
    rows = map (journal_row scope) (take (Z.to_nat checkpoint) (journal_of (commits_of g) scope)).

Lemma snapshot_answer_later scope r g g' :
  journal_inv g → journal_le g g' → snapshot_answer scope r g → snapshot_answer scope r g'.
Proof.
  intros Hg Hle Hs Hfree rows Hr. pose proof (journal_le_commits _ _ Hle) as Hc.
  destruct (Hs (collision_free_earlier _ _ _ Hc Hfree) rows Hr) as (checkpoint & Hb & ->).
  exists checkpoint. pose proof (jl_floor _ _ Hle scope). split; [lia|].
  pose proof (jk_floor _ _ (ji_journal _ Hg) scope) as Hf.
  destruct (journal_of_prefix _ _ scope Hc) as [rest ->]. unfold journal_length, llen in Hf.
  by rewrite take_app_le by lia.
Qed.

Section client.
Context (i : nat).
#[local] Existing Instance client_handler.
Abbreviation calmly := (@assures _ _ (client_handler i) journal_inv (tolerates i) (calm_role i) _) (only parsing).

Lemma read_chunk_calm m index g :
  journal_inv g → calmly (read_chunk m index) (λ r g', ∀ chunk, r = Ok chunk → chunk_read m index (ck_rows chunk) g') g.
Proof.
  intros Hg. unfold read_chunk. cbv zeta. destruct (mn_chunks m !! index) as [digest|] eqn:Hd; [|by returns].
  step_try. eapply assures_mono; [|by apply engine_row_calm]. intros [row|e] g1 Hg1 _ Hrow; [|done].
  specialize (Hrow row eq_refl). destruct row as [row|]; [|by returns].
  case_bool_decide as Hsha; cbn [negb]; [|by returns].
  destruct (co_chunk _ _ (ji_compaction _ Hg1) (mn_scope m) (Z.of_nat index) row) as (from & texts & -> & Hst);
    [lia|done|].
  change (vr_payload (chunk_row (mn_scope m) (Z.of_nat index) from texts))
    with (chunk_text (mn_scope m) (Z.of_nat index) from texts) in *.
  rewrite (chunk_decode_stored _ _ _ _ _ _ (ji_journal _ Hg1) Hst). step_try. returns. cbn [ck_index].
  rewrite Z.eqb_refl. cbn [negb]. returns. intros chunk [= <-]. exists from, texts. by rewrite Hd, <-Hsha.
Qed.

Lemma read_chunks_calm m count : ∀ index g,
  journal_inv g →
  calmly (read_chunks m index count)
    (λ r g', ∀ rows, r = Ok rows → ∃ pieces, rows = concat pieces ∧ length pieces = count ∧
       ∀ k piece, pieces !! k = Some piece → chunk_read m (index + k) piece g') g.
Proof.
  induction count as [|count IH]; intros index g Hg; cbn [read_chunks].
  { returns. intros rows [= <-]. by exists []. }
  step_try. eapply assures_mono; [|by apply read_chunk_calm]. intros [chunk|e] g1 Hg1 _ Hc; [|done].
  specialize (Hc chunk eq_refl). step_try. eapply assures_mono; [|by apply (IH (S index))].
  intros [rest|e] g2 Hg2 [Hle2 _] Hr; [|done]. destruct (Hr rest eq_refl) as (pieces & -> & <- & Hall).
  returns. intros rows [= <-]. exists (ck_rows chunk :: pieces). split; [done|]. split; [done|].
  intros [|k] piece Hk; [injection Hk as <-; rewrite Nat.add_0_r; by eapply chunk_read_later|].
  replace (index + S k)%nat with (S index + k)%nat by lia. by apply Hall.
Qed.

Lemma read_snapshot_calm scope g :
  journal_inv g → calmly (read_snapshot scope) (snapshot_answer scope) g.
Proof.
  intros Hg. unfold read_snapshot. step_try. eapply assures_mono; [|by apply manifest_assures].
  intros r g1 Hg1 _ ->. cbv beta iota. destruct (manifest_at (rows_of g1) scope) as [m|] eqn:Hm.
  - assert (mn_scope m = scope) as Hs by (by apply manifest_at_ok in Hm as (? & _)).
    eapply assures_mono; [|by apply read_chunks_calm]. intros r g2 Hg2 [Hle2 _] Hr Hfree rows ->.
    destruct (Hr rows eq_refl) as (pieces & -> & Hlen & Hall). exists (mn_checkpoint m).
    pose proof (known_later _ _ _ Hle2 (known_at scope m g1 Hg1 Hm Hs)) as Hk. split.
    + pose proof (jl_floor _ _ Hle2 scope) as Hf. rewrite (floor_manifest (rows_of g1)), Hm in Hf.
      pose proof (jk_floor _ _ (ji_journal _ Hg1) scope) as Hf1. rewrite floor_manifest, Hm in Hf1. lia.
    + rewrite <-Hs in Hfree |- *. by apply pieces_read.
  - returns. intros _ rows [= <-]. exists 0. split; [|done].
    pose proof (jk_floor _ _ (ji_journal _ Hg1) scope). lia.
Qed.
End client.

(** ** A reader alone *)

Lemma run_journal_bind {A B} o (p : JProg Empty_set A) (f : A → JProg Empty_set B) w :
  run_journal o (bind p f) w =
  match run_journal o p w with (w', Some a) => run_journal o (f a) w' | (w', None) => (w', None) end.
Proof. revert w. induction p as [a|C q k IH| |]; intros w; simpl; try done. Qed.

Lemma run_journal_try {A B} o (p : JProg Empty_set (Result A)) (f : A → JProg Empty_set (Result B)) w :
  run_journal o (try_bind p f) w =
  match run_journal o p w with
  | (w', Some (Ok a)) => run_journal o (f a) w'
  | (w', Some (Err e)) => (w', Some (Err e))
  | (w', None) => (w', None)
  end.
Proof. unfold try_bind. rewrite run_journal_bind. by destruct (run_journal o p w) as [w' [[a|e]|]]. Qed.

Lemma run_engine_row o w scope sk row :
  ms_views (jw_store w) !! (compaction_pk scope, sk) = Some row → check_compaction_row scope sk row = Ok row →
  run_journal o (read_engine_row scope sk) w = (w, Some (Ok (Some row))).
Proof.
  intros Hr Hc. cbn. unfold mem_read_compaction_row, mem_view. rewrite Hr. cbn. by rewrite Hc.
Qed.

Lemma run_manifest o g scope :
  journal_inv g →
  run_journal o (read_manifest scope) (gh_world g) = (gh_world g, Some (Ok (manifest_at (rows_of g) scope))).
Proof.
  intros Hg. unfold read_manifest, manifest_at, rows_of. rewrite run_journal_try.
  destruct (ms_views (jw_store (gh_world g)) !! (compaction_pk scope, MANIFEST_SORT_KEY)) as [row|] eqn:Hrow.
  - destruct (jk_manifest _ _ (ji_journal _ Hg) scope row Hrow) as (Hc & m & Hm).
    rewrite (run_engine_row _ _ _ _ _ Hrow Hc). cbn. by rewrite Hm.
  - cbn. unfold mem_read_compaction_row, mem_view. by rewrite Hrow.
Qed.

Lemma run_chunk o g m index digest from texts :
  journal_inv g → mn_chunks m !! index = Some digest →
  rows_of g !! (compaction_pk (mn_scope m), chunk_sk (Z.of_nat index)) =
    Some (chunk_row (mn_scope m) (Z.of_nat index) from texts) →
  digest = sha256_hex (chunk_text (mn_scope m) (Z.of_nat index) from texts) →
  stored_chunk (commits_of g) (mn_scope m) (Z.of_nat index) from texts →
  run_journal o (read_chunk m index) (gh_world g) =
    (gh_world g, Some (Ok (mkCompactionChunk (mn_scope m) (Z.of_nat index) from (from + llen texts - 1)
       (map (journal_row (mn_scope m)) (held_entries (commits_of g) (mn_scope m) from texts))))).
Proof.
  intros Hg Hd Hrow Hsha Hst. unfold read_chunk. rewrite Hd. cbv zeta. rewrite run_journal_try.
  rewrite (run_engine_row _ _ _ _ _ Hrow).
  2:{ unfold check_compaction_row, chunk_row, compaction_view, view_row_new.
      cbn [vr_pk vr_sk vr_entity_id vr_entity_type]. by rewrite !bool_decide_true. }
  change (vr_payload (chunk_row (mn_scope m) (Z.of_nat index) from texts))
    with (chunk_text (mn_scope m) (Z.of_nat index) from texts).
  rewrite <-Hsha, bool_decide_true by done. cbn [negb]. rewrite run_journal_try.
  rewrite (chunk_decode_stored _ _ _ _ _ _ (ji_journal _ Hg) Hst). cbn [pure_prog run_journal ck_index].
  by rewrite Z.eqb_refl.
Qed.

Lemma run_chunks o g m parts : 
  journal_inv g → chunks_stored (commits_of g) (rows_of g) (mn_scope m) (mn_chunks m) parts →
  ∀ count index, (index + count)%nat = length parts →
  run_journal o (read_chunks m index count) (gh_world g) =
    (gh_world g, Some (Ok (map (journal_row (mn_scope m))
       (drop (length (concat (take index parts)))
          (take (length (concat parts)) (journal_of (commits_of g) (mn_scope m))))))).
Proof.
  intros Hg [S1 S2 S3 S4]. pose proof (encodes_length _ _ _ (proj2 S3)) as Hlen. rewrite drop_0 in Hlen.
  induction count as [|count IH]; intros index Hi; cbn [read_chunks].
  - rewrite take_ge by lia. rewrite drop_ge by (rewrite length_take; lia). done.
  - destruct (lookup_lt_is_Some_2 parts index) as [texts Ht]; [lia|].
    destruct (lookup_lt_is_Some_2 (mn_chunks m) index) as [digest Hd]; [lia|].
    destruct (S4 index texts digest Ht Hd) as [Hrow Hsha].
    rewrite run_journal_try, (run_chunk o g m index digest _ _ Hg Hd Hrow Hsha (part_stored _ _ _ _ _ S2 S3 Ht)).
    cbv beta iota. rewrite run_journal_try, (IH (S index)) by lia. cbn [run_journal ck_rows].
    do 3 f_equal. rewrite <-map_app. f_equal. unfold held_entries.
    rewrite (take_S_r _ _ _ Ht), concat_app, length_app. cbn [concat]. rewrite app_nil_r.
    replace (Z.to_nat (1 + llen (concat (take index parts)) - 1)) with (length (concat (take index parts)))
      by (unfold llen; lia).
    assert (length (concat (take index parts)) + length texts ≤ length (concat parts))%nat as Hfit.
    { rewrite <-(take_drop_middle _ _ _ Ht) at 2. rewrite concat_app. cbn [concat]. rewrite !length_app. lia. }
    rewrite <-drop_drop, (skipn_firstn_comm (length (concat (take index parts)))).
    etrans; [|apply (take_drop (length texts))]. f_equal. rewrite take_take. f_equal. lia.
Qed.

(** ** The whole journal *)

(** Rows in the order of their positions are determined by which they are. *)
Lemma sorted_rows_eq (l k : list JournalRow) :
  StronglySorted (λ a b, jr_position a < jr_position b) l →
  StronglySorted (λ a b, jr_position a < jr_position b) k → (∀ row, row ∈ l ↔ row ∈ k) → l = k.
Proof.
  assert (∀ l, StronglySorted (λ a b : JournalRow, jr_position a < jr_position b) l → NoDup l) as Hnd.
  { induction 1 as [|x l' _ IH Hx]; constructor; [|done]. intros Hin. rewrite Forall_forall in Hx.
    specialize (Hx x Hin). simpl in Hx. lia. }
  intros Hl Hk Hin. apply (StronglySorted_unique_strong (λ a b, jr_position a < jr_position b)); [|done|done|].
  - intros x y _ _ H1 H2. lia.
  - apply NoDup_Permutation; [by apply Hnd|by apply Hnd|done].
Qed.

Lemma positions_sorted commits rows scope n :
  journal_ok commits rows →
  StronglySorted (λ a b : JournalRow, jr_position a < jr_position b)
    (map (journal_row scope) (drop n (journal_of commits scope))).
Proof.
  intros Hok. assert (∀ l from, map fst l = seqZ from (llen l) →
    StronglySorted (λ a b : JournalRow, jr_position a < jr_position b) (map (journal_row scope) l)) as Hgo.
  { induction l as [|[p e] l IH]; intros from Hp; [constructor|].
    unfold llen in Hp. cbn [length map] in Hp. rewrite Nat2Z.inj_succ, seqZ_cons in Hp by lia.
    injection Hp as Hp Hrest. replace (Z.pred (Z.succ (Z.of_nat (length l)))) with (llen l) in Hrest by (unfold llen; lia).
    constructor; [by eapply IH|]. apply Forall_forall. intros row ([q e'] & -> & Hin)%list_elem_of_fmap.
    apply (list_elem_of_fmap_2 fst) in Hin. change (q ∈ map fst l) in Hin. rewrite Hrest in Hin.
    apply elem_of_seqZ in Hin. simpl. lia. }
  destruct (decide (n ≤ length (journal_of commits scope))%nat) as [Hn|Hn].
  - apply (Hgo _ (1 + Z.of_nat n)). pose proof (jk_positions _ _ Hok scope) as Hp.
    apply (f_equal (drop n)) in Hp. rewrite <-fmap_drop in Hp. etrans; [exact Hp|].
    unfold journal_length, llen. rewrite length_drop, Nat2Z.inj_sub by lia.
    apply list_eq. intros k. rewrite lookup_drop.
    destruct (decide (n + k < length (journal_of commits scope))%nat) as [Hk|Hk].
    + etrans; [apply lookup_seqZ_lt; lia|]. symmetry. etrans; [apply lookup_seqZ_lt; lia|]. f_equal. lia.
    + rewrite !lookup_ge_None_2; [done|rewrite length_seqZ; lia..].
  - rewrite drop_ge by lia. constructor.
Qed.

Lemma rows_above_floor g scope limit :
  journal_inv g → journal_length (commits_of g) scope ≤ limit →
  let floor := floor_of (rows_of g) scope in
  mem_read_rows (jw_store (gh_world g)) scope floor limit =
    Ok (map (journal_row scope) (drop (Z.to_nat floor) (journal_of (commits_of g) scope))).
Proof.
  intros Hg Hlimit floor. pose proof (ji_journal _ Hg) as Hok. pose proof (jk_floor _ _ Hok scope) as Hf. fold floor in Hf.
  pose proof (jk_bound _ _ Hok scope). destruct (read_rows_ok _ (jw_store (gh_world g)) Hok scope floor) as (all & Hread & Hsort & Hin); [lia|].
  assert (all = map (journal_row scope) (drop (Z.to_nat floor) (journal_of (commits_of g) scope))) as ->.
  { apply sorted_rows_eq; [done|by eapply positions_sorted|]. intros row. rewrite Hin. split.
    - intros ([p e] & He & -> & Hlt & _). simpl in Hlt. apply list_elem_of_fmap. exists (p, e). split; [done|].
      pose proof (journal_lookup _ _ _ _ _ Hok He) as Hl. pose proof (journal_position _ _ _ _ _ Hok He).
      apply (list_elem_of_lookup_2 _ (Z.to_nat (p - 1) - Z.to_nat floor)). rewrite lookup_drop.
      by replace (Z.to_nat floor + (Z.to_nat (p - 1) - Z.to_nat floor))%nat with (Z.to_nat (p - 1)) by lia.
    - intros ([p e] & -> & He)%list_elem_of_fmap. apply list_elem_of_lookup in He as [k Hk].
      rewrite lookup_drop in Hk. pose proof (list_elem_of_lookup_2 _ _ _ Hk) as He.
      assert (p = 1 + Z.of_nat (Z.to_nat floor + k)) as Hp.
      { apply (f_equal (fmap fst)) in Hk. rewrite <-list_lookup_fmap in Hk. simpl in Hk.
        change (map fst (journal_of (commits_of g) scope) !! (Z.to_nat floor + k)%nat = Some p) in Hk.
        rewrite (jk_positions _ _ Hok) in Hk. by apply lookup_seqZ in Hk as [-> _]. }
      exists (p, e). split; [done|]. split; [done|]. simpl. split; [lia|].
      destruct (jk_present _ _ Hok scope p e He) as (v & _ & Hv); [unfold floor in *; lia|]. by exists v. }
  rewrite Hread, take_ge; [done|]. rewrite length_map, length_drop. unfold journal_length, llen in Hlimit. lia.
Qed.

(** Nothing is lost: the snapshot and the rows after it are the journal. *)
Lemma whole_journal o g scope limit :
  journal_inv g → collision_free (commits_of g) scope → journal_length (commits_of g) scope ≤ limit →
  ∃ snapshot rest,
    run_journal o (read_snapshot scope) (gh_world g) = (gh_world g, Some (Ok snapshot)) ∧
    mem_read_rows (jw_store (gh_world g)) scope (llen snapshot) limit = Ok rest ∧
    snapshot ++ rest = map (journal_row scope) (journal_of (commits_of g) scope).
Proof.
  intros Hg Hfree Hlimit. set (journal := journal_of (commits_of g) scope).
  set (floor := floor_of (rows_of g) scope). pose proof (jk_floor _ _ (ji_journal _ Hg) scope) as Hf. fold floor in Hf.
  exists (map (journal_row scope) (take (Z.to_nat floor) journal)), (map (journal_row scope) (drop (Z.to_nat floor) journal)).
  assert (llen (map (journal_row scope) (take (Z.to_nat floor) journal)) = floor) as ->.
  { unfold llen. rewrite length_map, length_take. unfold journal_length, llen in Hf. fold journal in Hf. lia. }
  split; [|split; [by apply rows_above_floor|by rewrite <-map_app, take_drop]].
  unfold read_snapshot. rewrite run_journal_try, (run_manifest o g scope Hg). unfold floor. rewrite floor_manifest.
  destruct (manifest_at (rows_of g) scope) as [m|] eqn:Hm; [|done].
  destruct (co_covered _ _ (ji_compaction _ Hg) scope m Hfree Hm) as (parts & Hst & Hlen).
  assert (mn_scope m = scope) as Hs by (by apply manifest_at_ok in Hm as (? & _)).
  pose proof (st_length _ _ _ _ _ Hst) as Hl. rewrite <-Hs in Hst. rewrite (run_chunks o g m parts Hg Hst) by lia.
  rewrite Hs. do 3 f_equal. simpl. rewrite drop_0. f_equal. f_equal. unfold llen in Hlen. lia.
Qed.
End snapshot.
