(* ===== verification/JournalSamples.v ===== *)
(** * A sample encoding of journals

    An encoding of the journal's records that satisfies what is asked of the real one, so that
    journals can be run on concrete inputs. Fields are written in characters of their own and
    separated, numbers in decimal; an event is encoded when it is one of the sample's. *)

From S2P Require Import Prelude Types Features Outcome Rebuild Projection Repository Retry Mem.
From S2P Require Import MemInvariant MemRefinement Samples Program LogBackend MemBackend Sha256.
From S2P Require Import JournalScope Compaction JournalConfig JournalRead JournalRepository JournalInvariant.
From S2P Require Import JournalStage JournalInvariant Compact CompactInvariant.
From S2P Require Import JournalClients.

(** ** Text *)

(** Every character becomes two of the sixteen from [`] to [o]. *)
Fixpoint escape (s : string) : string :=
  match s with
  | EmptyString => EmptyString
  | String (Ascii a b c d e f g h) s =>
      String (Ascii a b c d false true true false) (String (Ascii e f g h false true true false) (escape s))
  end.

Fixpoint unescape (s : string) : string :=
  match s with
  | String (Ascii a b c d _ _ _ _) (String (Ascii e f g h _ _ _ _) s) => String (Ascii a b c d e f g h) (unescape s)
  | _ => EmptyString
  end.

Lemma unescape_escape s : unescape (escape s) = s.
Proof. induction s as [|[a b c d e f g h] s IH]; [done|]. simpl. by rewrite IH. Qed.

Definition separator (c : ascii) : Prop := ∀ a b c' d, c ≠ Ascii a b c' d false true true false.

Lemma escape_free c s : separator c → contains_byte c (escape s) = false.
Proof.
  intros Hc. induction s as [|[a1 b1 c1 d1 a2 b2 c2 d2] s IH]; [done|]. cbn [escape contains_byte].
  rewrite IH. rewrite (proj2 (Ascii.eqb_neq _ _)), (proj2 (Ascii.eqb_neq _ _)); [done|by apply not_eq_sym..].
Qed.

Lemma separator_semicolon : separator ";".
Proof. by intros a b c d [=]. Qed.
Lemma separator_comma : separator ",".
Proof. by intros a b c d [=]. Qed.
Lemma separator_bracket : separator "]".
Proof. by intros a b c d [=]. Qed.

(** The text before a character and after it. *)
Fixpoint until (c : ascii) (s : string) : string * string :=
  match s with
  | EmptyString => (EmptyString, EmptyString)
  | String d s => if Ascii.eqb d c then (EmptyString, s) else let x := until c s in (String d x.1, x.2)
  end.

Lemma contains_cons c d s : contains_byte c (String d s) = Ascii.eqb d c || contains_byte c s.
Proof. done. Qed.

Lemma until_app c s t : contains_byte c s = false → until c (s +:+ String c t) = (s, t).
Proof.
  induction s as [|d s IH].
  - intros _. change (EmptyString +:+ String c t) with (String c t). cbn [until]. by rewrite Ascii.eqb_refl.
  - rewrite contains_cons. intros [Hd Hs]%orb_false_iff.
    change (String d s +:+ String c t) with (String d (s +:+ String c t)). cbn [until].
    rewrite Hd, (IH Hs). done.
Qed.

Fixpoint split_at (c : ascii) (s : string) : list string :=
  match s with
  | EmptyString => [EmptyString]
  | String d s =>
      if Ascii.eqb d c then EmptyString :: split_at c s
      else match split_at c s with h :: t => String d h :: t | [] => [] end
  end.

Lemma split_at_app c s t : contains_byte c s = false → split_at c (s +:+ String c t) = s :: split_at c t.
Proof.
  induction s as [|d s IH].
  - intros _. change (EmptyString +:+ String c t) with (String c t). cbn [split_at]. by rewrite Ascii.eqb_refl.
  - rewrite contains_cons. intros [Hd Hs]%orb_false_iff.
    change (String d s +:+ String c t) with (String d (s +:+ String c t)). cbn [split_at].
    by rewrite Hd, (IH Hs).
Qed.

Lemma split_at_free c s : contains_byte c s = false → split_at c s = [s].
Proof.
  induction s as [|d s IH]; [done|]. rewrite contains_cons. intros [Hd Hs]%orb_false_iff. cbn [split_at].
  by rewrite Hd, (IH Hs).
Qed.

(** ** Fields *)

Definition write_fields (l : list string) : string :=
  foldr (λ field s, escape field +:+ String ";" s) EmptyString l.

Definition read_fields (s : string) : list string :=
  map unescape (removelast (split_at ";" s)).

Lemma split_fields l : split_at ";" (write_fields l) = map escape l ++ [EmptyString].
Proof.
  induction l as [|field l IH]; [done|]. unfold write_fields. cbn [foldr map app]. fold (write_fields l).
  rewrite split_at_app by (apply escape_free, separator_semicolon). by rewrite IH.
Qed.

Lemma read_write_fields l : read_fields (write_fields l) = l.
Proof.
  unfold read_fields. rewrite split_fields, removelast_last, map_map. rewrite <-(map_id l) at 2.
  apply map_ext. apply unescape_escape.
Qed.

Lemma write_fields_free c l : separator c → c ≠ ";"%char → contains_byte c (write_fields l) = false.
Proof.
  intros Hc Hs. induction l as [|field l IH]; [done|]. unfold write_fields. cbn [foldr]. fold (write_fields l).
  assert (∀ s t, contains_byte c (s +:+ t) = contains_byte c s || contains_byte c t) as Happ.
  { intros s t. induction s as [|d s IHs]; [done|].
    change (String d s +:+ t) with (String d (s +:+ t)). rewrite !contains_cons, IHs. by rewrite orb_assoc. }
  rewrite Happ, escape_free by done. rewrite contains_cons, IH, orb_false_r. simpl.
  apply Ascii.eqb_neq. by apply not_eq_sym.
Qed.

(** Numbers, any that there are. *)
Definition read_number (s : string) : Z :=
  match s with
  | String "-" s => - default 0 (parse_digits 0 s)
  | s => default 0 (parse_digits 0 s)
  end.

Lemma read_show z : read_number (show z) = z.
Proof.
  unfold read_number, show. destruct z as [|p|p]; [done| |].
  - change (pretty (Zpos p)) with (pretty (Npos p)). pose proof (parse_digits_pretty (Npos p)) as Hp.
    destruct (pretty (Npos p)) as [|c s] eqn:E; [done|]. destruct (pretty_N_unsigned _ _ _ E) as [Hm _].
    apply Ascii.eqb_neq in Hm. replace (match c with "-"%char => _ | _ => _ end)
      with (default 0 (parse_digits 0 (String c s))); [by rewrite Hp|].
    destruct c as [[] [] [] [] [] [] [] []]; done.
  - change (pretty (Zneg p)) with (String "-" (pretty (Npos p))). cbv iota beta.
    by rewrite (parse_digits_pretty (Npos p)).
Qed.

Definition write_option (o : option string) : string :=
  match o with Some s => String "s" s | None => EmptyString end.
Definition read_option (s : string) : option string :=
  match s with String _ s => Some s | EmptyString => None end.

Lemma read_write_option o : read_option (write_option o) = o.
Proof. by destruct o. Qed.

(** ** Records *)

Fixpoint read_allocations (l : list string) : list Allocation :=
  match l with
  | scope :: position :: l => mkAllocation scope (read_number position) :: read_allocations l
  | _ => []
  end.

Definition write_allocations (l : list Allocation) : list string :=
  concat (map (λ a, [al_scope a; show (al_position a)]) l).

Lemma read_write_allocations l : read_allocations (write_allocations l) = l.
Proof.
  induction l as [|[scope position] l IH]; [done|]. unfold write_allocations. cbn [map concat app al_scope al_position].
  fold (write_allocations l). cbn [read_allocations]. by rewrite read_show, IH.
Qed.

(** The events that are encoded: those of the sample streams, with one commit and their places. *)
Definition journal_event (id type entity_id entity_type payload commit_id places : string)
    (sequence version : Z) : SerializedEvent :=
  mkEvent id sequence type version entity_id entity_type payload
    (with_commit_id (with_extensions Metadata_default {[ALLOCATION_KEY := places]}) commit_id).

Definition places_of (event : SerializedEvent) : string :=
  default EmptyString (md_extensions (ev_metadata event) !! ALLOCATION_KEY).

Definition restored (event : SerializedEvent) : SerializedEvent :=
  journal_event (ev_id event) (ev_type event) (ev_entity_id event) (ev_entity_type event) (ev_payload event)
    (md_commit_id (ev_metadata event)) (places_of event) (ev_sequence event) (ev_version event).

Definition write_row (r : RowIn) : result string string :=
  let event := ri_event r in
  if bool_decide (restored event = event) then
    Ok (write_fields [ri_scope r; show (ri_position r); ev_id event; ev_type event; ev_entity_id event;
      ev_entity_type event; ev_payload event; md_commit_id (ev_metadata event); places_of event;
      show (ev_sequence event); show (ev_version event)])
  else Err "not a sample event"%string.

Definition read_row (s : string) : result RowIn string :=
  match read_fields s with
  | [scope; position; id; type; entity_id; entity_type; payload; commit_id; places; sequence; version] =>
      Ok (mkRowIn scope (read_number position)
        (as_encoded (journal_event id type entity_id entity_type payload commit_id places
          (read_number sequence) (read_number version))))
  | _ => Err "not a row"%string
  end.

Definition sample_journal_json : JournalJson := {|
  json_allocations := λ l, write_fields (write_allocations l);
  json_parse_allocations := λ s, Ok (read_allocations (read_fields s));
  json_row := write_row;
  json_parse_row := read_row;
  json_counter := λ c, write_fields [cp_scope c; show (cp_position c)];
  json_parse_counter := λ s,
    match read_fields s with
    | [scope; position] => Ok (mkCounterPayload scope (read_number position))
    | _ => Err "not a counter"%string
    end
|}.

#[export] Instance sample_journal_laws : JournalJsonLaws sample_journal_json.
Proof.
  split; cbn [json_parse_allocations json_allocations json_parse_counter json_counter json_parse_row json_row sample_journal_json].
  - intros l. by rewrite read_write_fields, read_write_allocations.
  - intros [scope position]. rewrite read_write_fields. cbn [cp_scope cp_position]. by rewrite read_show.
  - intros [scope position event] text. unfold write_row, read_row. cbn [ri_scope ri_position ri_event].
    case_bool_decide as He; [|done]. intros Ht.
    apply (f_equal (λ r, match r with Ok t | Err t => t end)) in Ht. cbv beta iota in Ht. subst text.
    rewrite read_write_fields, !read_show.
    unfold restored in He. by rewrite He.
Qed.

(** ** Compaction records *)

(** A chunk, as its builder writes it. *)
Definition after_colon (s : string) : string := (until ":" s).2.

Definition read_chunk_text (s : string) : result ChunkIn string :=
  let (scope, s) := until "," s in
  let (index, s) := until "," s in
  let (from, s) := until "," s in
  let (through, s) := until "," s in
  let (_, s) := until "[" s in
  let (rows, _) := until "]" s in
  Ok (mkChunkIn (unescape (after_colon scope)) (read_number (after_colon index)) (read_number (after_colon from))
    (read_number (after_colon through)) (split_at "," rows)).

Definition sample_compaction_json : CompactionJson := {|
  json_lease := λ p, write_fields [lp_scope p; show (lp_token p); write_option (lp_owner p);
    write_option (match lp_lease_expires_at p with Some z => Some (show z) | None => None end)];
  json_parse_lease := λ s,
    match read_fields s with
    | [scope; token; owner; expires] =>
        Ok (mkLeasePayload scope (read_number token) (read_option owner)
          match read_option expires with Some z => Some (read_number z) | None => None end)
    | _ => Err "not a lease"%string
    end;
  json_manifest := λ p, write_fields (mp_scope p :: show (mp_checkpoint p) :: mp_chunks p);
  json_parse_manifest := λ s,
    match read_fields s with
    | scope :: checkpoint :: chunks => Ok (mkManifestPayload scope (read_number checkpoint) chunks)
    | _ => Err "not a manifest"%string
    end;
  json_audit := λ p, write_fields [ap_scope p; show (ap_checkpoint p); ap_digest p; show (ap_chunks p);
    show (ap_deleted p); ap_owner p; show (ap_token p); show (ap_completed_at p)];
  json_parse_audit := λ s,
    match read_fields s with
    | [scope; checkpoint; digest; chunks; deleted; owner; token; completed] =>
        Ok (mkAuditPayload scope (read_number checkpoint) digest (read_number chunks) (read_number deleted)
          owner (read_number token) (read_number completed))
    | _ => Err "not an audit"%string
    end;
  json_text := escape;
  json_parse_chunk := read_chunk_text
|}.

Lemma joined_cons row r rows : joined (row :: r :: rows) = row +:+ String "," (joined (r :: rows)).
Proof. done. Qed.

Lemma joined_rows rows :
  rows ≠ [] → Forall (λ text, contains_byte "," text = false) rows → split_at "," (joined rows) = rows.
Proof.
  induction rows as [|row rows IH]; [done|]. intros _ [Hr Hrows]%Forall_cons. destruct rows as [|r rows].
  - by apply split_at_free.
  - rewrite joined_cons, split_at_app by done. by rewrite IH.
Qed.

Lemma contains_app c s t : contains_byte c (s +:+ t) = contains_byte c s || contains_byte c t.
Proof.
  induction s as [|d s IH]; [done|]. change (String d s +:+ t) with (String d (s +:+ t)).
  rewrite !contains_cons, IH. by rewrite orb_assoc.
Qed.

Lemma joined_free c rows :
  c ≠ ","%char → Forall (λ text, contains_byte c text = false) rows → contains_byte c (joined rows) = false.
Proof.
  intros Hc. induction rows as [|row rows IH]; [done|]. intros [Hr Hrows]%Forall_cons. destruct rows as [|r rows]; [done|].
  rewrite joined_cons, contains_app, contains_cons, Hr, (IH Hrows), orb_false_r. simpl.
  apply Ascii.eqb_neq. by apply not_eq_sym.
Qed.

(** A key and its value before a comma. *)
Lemma until_field key value s :
  contains_byte "," key = false → contains_byte "," value = false →
  until "," (key +:+ String ":" (value +:+ String "," s)) = (key +:+ String ":" value, s).
Proof.
  intros Hk Hv. rewrite <-(until_app "," (key +:+ String ":" value) s).
  - f_equal. rewrite append_assoc. done.
  - by rewrite contains_app, contains_cons, Hk, Hv.
Qed.

Lemma after_field key value : contains_byte ":" key = false → after_colon (key +:+ String ":" value) = value.
Proof. intros Hk. unfold after_colon. by rewrite until_app. Qed.

Lemma write_row_free c r text : separator c → c ≠ ";"%char → write_row r = Ok text → contains_byte c text = false.
Proof.
  intros Hc Hs. unfold write_row. case_bool_decide; [|done]. intros Ht.
  apply (f_equal (λ r, match r with Ok t | Err t => t end)) in Ht. cbv beta iota in Ht. subst text.
  by apply write_fields_free.
Qed.

#[local] Existing Instance sample_compaction_json.

Lemma chunk_payload b :
  bc_payload (builder_build b) =
  ("{" +:+ quoted "scope") +:+ String ":" (escape (cb_scope b) +:+ String ","
  (quoted "index" +:+ String ":" (show (cb_index b) +:+ String ","
  (quoted "from" +:+ String ":" (show (cb_from b) +:+ String ","
  (quoted "through" +:+ String ":" (show (builder_through b) +:+ String ","
  ((quoted "rows" +:+ ":") +:+ String "[" (joined (cb_rows b) +:+ String "]" "}"))))))))).
Proof.
  unfold builder_build. cbn [bc_payload]. unfold builder_header, json_key. rewrite !append_assoc. done.
Qed.

#[export] Instance sample_compaction_laws : CompactionJsonLaws sample_journal_json sample_compaction_json.
Proof.
  split; cbn [json_parse_lease json_lease json_parse_manifest json_manifest json_parse_audit json_audit sample_compaction_json].
  - intros [scope token owner [expires|]]; rewrite read_write_fields, !read_write_option;
      cbn [lp_scope lp_token lp_owner lp_lease_expires_at]; by rewrite !read_show.
  - intros [scope checkpoint chunks]. rewrite read_write_fields. cbn [mp_scope mp_checkpoint mp_chunks]. by rewrite read_show.
  - intros [scope checkpoint digest chunks deleted owner token completed]. rewrite read_write_fields.
    cbn [ap_scope ap_checkpoint ap_digest ap_chunks ap_deleted ap_owner ap_token ap_completed_at]. by rewrite !read_show.
  - intros b _ _ _ Hne Hrows.
    assert (∀ c, separator c → c ≠ ";"%char → Forall (λ text, contains_byte c text = false) (cb_rows b)) as Hfree.
    { intros c Hc Hs. eapply Forall_impl; [exact Hrows|]. intros text [row Hr]. by eapply write_row_free. }
    change (json_parse_chunk (bc_payload (builder_build b))) with (read_chunk_text (bc_payload (builder_build b))).
    rewrite chunk_payload. unfold read_chunk_text.
    rewrite !until_field by (done || by apply escape_free, separator_comma || by apply show_contains).
    rewrite (until_app "["), (until_app "]"); [|apply joined_free; [done|by apply Hfree; [apply separator_bracket|]]|done].
    rewrite !after_field, unescape_escape, !read_show by done.
    rewrite joined_rows; [done|done|]. by apply Hfree; [apply separator_comma|].
Qed.

(** ** Runs *)

Section schedule.
Context `{SJ : SerdeJson} `{J : JournalJson} {Hlaws : JournalJsonLaws J} `{CJ : CompactionJson} {A : Type}.
Context (env : JWorld → JWorld → Prop).

(** Client [t.1] makes its next call, answered with [t.2] from outside. *)
Definition take_journal_turn (t : nat * JOracle) (x : JWorld * list (JProg Empty_set A))
  : JWorld * list (JProg Empty_set A) :=
  match x.2 !! t.1 with
  | Some (Ask q k) => let y := mem_journal_answer t.2 q x.1 in (y.1, <[t.1 := k y.2]> x.2)
  | _ => x
  end.

(** The tokens of the leases that are stored are below the limit. *)
Definition leases_below (w : JWorld) : bool :=
  forallb (λ entry : (string * string) * ViewRow,
    match json_parse_lease (vr_payload entry.2) with Ok p => lp_token p <? u64_max | Err _ => true end
    || negb (bool_decide (entry.1.2 = LEASE_SORT_KEY))) (map_to_list (ms_views (jw_store w))).

Lemma leases_below_ok w : leases_below w = true → tokens_below w.
Proof.
  unfold leases_below. rewrite forallb_forall. intros Hall scope. unfold token_at.
  destruct (ms_views (jw_store w) !! _) as [row|] eqn:Hrow; [|done].
  apply elem_of_map_to_list in Hrow. apply list_elem_of_In in Hrow. specialize (Hall _ Hrow). cbn [fst snd] in Hall.
  unfold lease_decode. destruct (json_parse_lease (vr_payload row)) as [p|]; cbn [map_err result_bind]; [|done].
  rewrite bool_decide_true, orb_false_r in Hall by done. apply Z.ltb_lt in Hall.
  destruct (negb _); [done|]. destruct (lp_owner p), (lp_lease_expires_at p); done.
Qed.

Fixpoint journal_schedule (ts : list (nat * JOracle)) (x : JWorld * list (JProg Empty_set A)) :=
  match ts with [] => x | t :: ts => journal_schedule ts (take_journal_turn t x) end.

Fixpoint schedule_ok (ts : list (nat * JOracle)) (x : JWorld * list (JProg Empty_set A)) : bool :=
  match ts with
  | [] => true
  | t :: ts =>
      (0 <=? or_random (jx_oracle t.2)) && leases_below (take_journal_turn t x).1
      && schedule_ok ts (take_journal_turn t x)
  end.

Lemma journal_schedule_steps ts x :
  schedule_ok ts x = true →
  rtc (@pool_step _ _ _ bounded_backend env) x (journal_schedule ts x).
Proof.
  revert x. induction ts as [|t ts IH]; intros x; cbn [schedule_ok journal_schedule]; [reflexivity|].
  intros [[Ho Hl]%andb_prop Hts]%andb_prop. etransitivity; [|by apply IH]. clear IH Hts.
  apply leases_below_ok in Hl. revert Hl. unfold take_journal_turn. destruct x as [w ps]. cbn [fst snd].
  destruct (ps !! t.1) as [[a|B q k| |]|] eqn:Hi; try reflexivity.
  destruct (mem_journal_answer t.2 q w) as [w' b] eqn:Hq. cbn [fst snd]. intros Hl. apply rtc_once.
  eapply pool_call; [done|]. split; [|done]. exists t.2. split; [lia|done].
Qed.
End schedule.

(** ** A sample journal *)

#[local] Existing Instance sample_json.
#[local] Existing Instance sample_journal_json.

Definition sample_journal : Journal :=
  mkJournal ["Account"] (λ _, Ok ["team"]) DEFAULT_MAX_ROW_BYTES 0 DEFAULT_RETRY.

Definition empty_jworld : JWorld := mkJWorld (mkWorld (mem_accept_journal mem_new).1 ∅ 1) false.
Definition sample_joracle : JOracle := mkJOracle (mkOracle 0 0 "commit") 100.

Lemma sample_resolver_ok : resolver_ok (jo_resolver sample_journal).
Proof. intros event scopes [= <-]. repeat constructor. Qed.

Lemma sample_policy_ok : policy_ok (jo_retry sample_journal).
Proof. split; vm_compute; split; congruence. Qed.

Definition no_text (_ : BoxError) : string := "failed".
