(* ===== verification/JournalReplayOk.v ===== *)
(** * A replay rebuilds the journal

    What [journal/replay.rs] computes from the events of a log whose journal is dense: exactly one
    row for each position, the counter at the last, in whatever order the events come. *)

From S2P Require Import Prelude Types Features Outcome Rebuild Wire Projection Repository RebuildBatch.
From S2P Require Import Retry Program RebuildDriver Mem MemRefinement MemRead.
From S2P Require Import JournalScope Compaction JournalConfig JournalRead JournalRepository.
From S2P Require Import JournalStage JournalInvariant RebuildDriver.
From S2P Require Import Samples JournalSamples.

Section replay.
Context `{J : JournalJson}.

(** ** What has been claimed *)

(** A position of a scope, and the event that holds it. *)
Abbreviation Claim := (string * Z * SerializedEvent)%type.

Definition claims_of (event : SerializedEvent) : list Claim :=
  map (λ a, (al_scope a, al_position a, event)) (allocations_of event).

Definition claims (events : list SerializedEvent) : list Claim := concat (map claims_of events).

Lemma claims_entries events scope p e :
  (scope, p, e) ∈ claims events ↔ (p, e) ∈ entries scope events.
Proof.
  unfold claims, entries. rewrite !elem_of_concat. split.
  - intros (l & Hin & (e' & -> & He)%list_elem_of_fmap).
    apply list_elem_of_fmap in Hin as (a & Heq & Ha). injection Heq as -> -> ->.
    exists (entries_of (al_scope a) e'). split; [|by apply list_elem_of_fmap_2].
    unfold entries_of. apply list_elem_of_fmap. exists a. split; [done|].
    apply elem_of_list_filter. by rewrite bool_decide_true.
  - intros (l & Hin & (e' & -> & He)%list_elem_of_fmap). unfold entries_of in Hin.
    apply list_elem_of_fmap in Hin as (a & Heq & Ha). injection Heq as -> ->.
    apply elem_of_list_filter in Ha as [Ha Hs%bool_decide_eq_true]. subst scope.
    exists (claims_of e'). split; [|by apply list_elem_of_fmap_2]. apply list_elem_of_fmap. by exists a.
Qed.

(** What a replay has recorded of the claims made so far. *)
Record recorded (made : list Claim) (r : Replaying) : Prop := {
  rc_claimed : ∀ scope p e, rp_claimed r !! (scope, p) = Some e → (scope, p, e) ∈ made;
  rc_complete : ∀ scope p e, (scope, p, e) ∈ made → is_Some (rp_claimed r !! (scope, p));
  rc_row : ∀ scope p, js_rows (rp_state r) !! (scope, p) =
    match rp_claimed r !! (scope, p) with
    | Some e => match row_view scope p e with Ok v => Some v | Err _ => None end
    | None => None
    end;
  rc_counter : ∀ scope c, js_counters (rp_state r) !! scope = Some c →
    (∃ e, (scope, c, e) ∈ made) ∧ ∀ p e, (scope, p, e) ∈ made → p ≤ c;
  rc_counted : ∀ scope p e, (scope, p, e) ∈ made → is_Some (js_counters (rp_state r) !! scope)
}.

Lemma recorded_nil : recorded [] (mkReplaying JournalState_default ∅).
Proof.
  split; simpl.
  - intros scope p e Hl. by rewrite lookup_empty in Hl.
  - intros scope p e Hin. by apply not_elem_of_nil in Hin.
  - intros scope p. by rewrite !lookup_empty.
  - intros scope c Hl. by rewrite lookup_empty in Hl.
  - intros scope p e Hin. by apply not_elem_of_nil in Hin.
Qed.

(** Claims that can be told apart by their position, and whose rows encode. *)
Record consistent (made : list Claim) : Prop := {
  cs_one : ∀ scope p e e', (scope, p, e) ∈ made → (scope, p, e') ∈ made → e = e';
  cs_positive : ∀ scope p e, (scope, p, e) ∈ made → 0 < p;
  cs_encodes : ∀ scope p e, (scope, p, e) ∈ made → scope_ok scope ∧ is_ok (row_view scope p e) = true
}.

Lemma same_event_refl e : same_event e e = true.
Proof. unfold same_event. by apply bool_decide_eq_true. Qed.

(** A claim made again changes nothing. *)
Lemma recorded_again made r scope p e :
  recorded made r → rp_claimed r !! (scope, p) = Some e → recorded (made ++ [(scope, p, e)]) r.
Proof.
  intros Hr Hl. pose proof (rc_claimed _ _ Hr _ _ _ Hl) as Hin.
  assert (∀ c, c ∈ made ++ [(scope, p, e)] ↔ c ∈ made) as Heq.
  { intros c. rewrite elem_of_app, list_elem_of_singleton. split; [by intros [Hc| ->]|by left]. }
  destruct Hr as [H1 H2 H3 H4 H5]. split.
  - intros s q x Hq. apply Heq. by apply H1.
  - intros s q x Hq. apply (H2 s q x). by apply Heq.
  - done.
  - intros s c Hc. destruct (H4 s c Hc) as [(x & Hx) Hle]. split; [exists x; by apply Heq|].
    intros q y Hy. apply (Hle q y). by apply Heq.
  - intros s q x Hq. apply (H5 s q x). by apply Heq.
Qed.

(** A new claim. *)
Lemma recorded_new made r scope p e row :
  recorded made r → rp_claimed r !! (scope, p) = None → 0 < p → row_view scope p e = Ok row →
  recorded (made ++ [(scope, p, e)])
    (mkReplaying
      (mkJournalState (<[(scope, p) := row]> (js_rows (rp_state r)))
        (<[scope := Z.max (default 0 (js_counters (rp_state r) !! scope)) p]> (js_counters (rp_state r))))
      (<[(scope, p) := e]> (rp_claimed r))).
Proof.
  intros [H1 H2 H3 H4 H5] Hl Hp Hv. split; cbn [rp_claimed rp_state js_rows js_counters].
  - intros s q x. rewrite lookup_insert_Some, elem_of_app, list_elem_of_singleton.
    intros [[[= <- <-] <-]|[_ Hq]]; [by right|]. left. by apply H1.
  - intros s q x. rewrite elem_of_app, list_elem_of_singleton. intros Hin. apply lookup_insert_is_Some'.
    destruct Hin as [Hin|[= -> -> ->]]; [right; by apply (H2 s q x)|by left].
  - intros s q. destruct (decide ((scope, p) = (s, q))) as [[= <- <-]|Hne].
    + rewrite !lookup_insert_eq. by rewrite Hv.
    + by rewrite !lookup_insert_ne, H3.
  - intros s c. destruct (decide (scope = s)) as [<-|Hne].
    + rewrite lookup_insert_eq. intros [= <-]. destruct (js_counters (rp_state r) !! scope) as [c0|] eqn:Hc.
      * destruct (H4 scope c0 Hc) as [(x & Hx) Hle]. simpl. split.
        -- destruct (Z.max_spec c0 p) as [[_ ->]|[_ ->]]; [exists e|exists x]; apply elem_of_app;
             [right; by apply list_elem_of_singleton|by left].
        -- intros q y. rewrite elem_of_app, list_elem_of_singleton. intros [Hin|[= -> ->]]; [|lia].
           specialize (Hle q y Hin). lia.
      * simpl. replace (Z.max 0 p) with p by lia. split.
        -- exists e. apply elem_of_app. right. by apply list_elem_of_singleton.
        -- intros q y. rewrite elem_of_app, list_elem_of_singleton. intros [Hin|[= -> ->]]; [|lia].
           destruct (H5 scope q y Hin) as [? ?]. congruence.
    + rewrite lookup_insert_ne by done. intros Hc. destruct (H4 s c Hc) as [(x & Hx) Hle]. split.
      * exists x. apply elem_of_app. by left.
      * intros q y. rewrite elem_of_app, list_elem_of_singleton. intros [Hin|[= -> _ _]]; [|done].
        by apply (Hle q y).
  - intros s q x. rewrite elem_of_app, list_elem_of_singleton. intros Hin. apply lookup_insert_is_Some'.
    destruct Hin as [Hin|[= -> _ _]]; [right; by apply (H5 s q x)|by left].
Qed.

Lemma replay_allocation_ok made r event a :
  recorded made r → consistent (made ++ [(al_scope a, al_position a, event)]) →
  ∃ r', replay_allocation event r a = Ok r' ∧
    recorded (made ++ [(al_scope a, al_position a, event)]) r'.
Proof.
  intros Hr Hc. set (c := (al_scope a, al_position a, event)).
  assert (c ∈ made ++ [c]) as Hin by (apply elem_of_app; right; by apply list_elem_of_singleton).
  destruct (cs_encodes _ Hc _ _ _ Hin) as [Hs Hv]. unfold replay_allocation, allocation_scope.
  rewrite Hs. cbn [result_bind]. destruct (rp_claimed r !! (al_scope a, al_position a)) as [holder|] eqn:Hl.
  - assert (holder = event) as ->.
    { apply (cs_one _ Hc (al_scope a) (al_position a)); [|done]. apply elem_of_app. left. by apply Hr. }
    rewrite same_event_refl. exists r. split; [done|]. by apply recorded_again.
  - destruct (row_view _ _ _) as [row|] eqn:Hrow; [|done]. cbn [result_bind].
    eexists. split; [reflexivity|]. apply recorded_new; [done|done| |done].
    by apply (cs_positive _ Hc (al_scope a) _ event).
Qed.

Lemma consistent_app l k : consistent (l ++ k) → consistent l.
Proof.
  intros [H1 H2 H3]. split.
  - intros s p e e' He He'. apply (H1 s p); apply elem_of_app; by left.
  - intros s p e He. apply (H2 s p e). apply elem_of_app. by left.
  - intros s p e He. apply (H3 s p e). apply elem_of_app. by left.
Qed.

Lemma fold_allocations_ok event l : ∀ made r,
  recorded made r → consistent (made ++ map (λ a, (al_scope a, al_position a, event)) l) →
  ∃ r', fold_result (replay_allocation event) r l = Ok r' ∧
    recorded (made ++ map (λ a, (al_scope a, al_position a, event)) l) r'.
Proof.
  induction l as [|a l IH]; intros made r Hr Hc; simpl; [exists r; by rewrite app_nil_r|].
  simpl in Hc. rewrite cons_middle, app_assoc in Hc.
  destruct (replay_allocation_ok made r event a Hr (consistent_app _ _ Hc)) as (r1 & -> & Hr1).
  cbn [result_bind]. destruct (IH _ r1 Hr1 Hc) as (r2 & Hf & Hr2). exists r2. split; [done|].
  by rewrite cons_middle, app_assoc.
Qed.

Lemma fold_events_ok events : ∀ made r,
  recorded made r → consistent (made ++ claims events) →
  Forall (λ e, is_ok (allocations (ev_metadata e)) = true) events →
  ∃ r', fold_result replay_event r events = Ok r' ∧ recorded (made ++ claims events) r'.
Proof.
  induction events as [|e events IH]; intros made r Hr Hc Hall.
  { exists r. unfold claims. simpl. by rewrite app_nil_r. }
  apply Forall_cons in Hall as [He Hall]. unfold claims in *. simpl in *. rewrite app_assoc in *.
  pose proof (consistent_app _ _ Hc) as Hc1. unfold replay_event at 1. unfold claims_of at 1 in Hc1.
  unfold allocations_of in Hc1.
  destruct (allocations (ev_metadata e)) as [l|] eqn:Hl; [|done]. cbn [result_bind].
  destruct (fold_allocations_ok e l made r Hr Hc1) as (r1 & -> & Hr1). cbn [result_bind].
  assert (map (λ a, (al_scope a, al_position a, e)) l = claims_of e) as Heq
    by (unfold claims_of, allocations_of; by rewrite Hl).
  rewrite Heq in Hr1. by apply IH.
Qed.

(** ** The journal of a log *)

(** All the events of a sequence of commits. *)
Definition events_of_commits (commits : Commits) : list SerializedEvent :=
  concat (map (λ batches, concat (map snd batches)) commits).

Lemma entries_Permutation scope l k :
  l ≡ₚ k → ∀ p e, (p, e) ∈ entries scope l ↔ (p, e) ∈ entries scope k.
Proof.
  intros Hp p e. rewrite <-!claims_entries. unfold claims. rewrite !elem_of_concat.
  split; intros (c & Hc & (x & -> & Hx)%list_elem_of_fmap); exists (claims_of x); (split; [done|]);
    apply list_elem_of_fmap_2; [by rewrite <-Hp|by rewrite Hp].
Qed.

Section dense.
Context (commits : Commits) (events : list SerializedEvent).
Context (Hpositions : ∀ scope, map fst (journal_of commits scope) = seqZ 1 (journal_length commits scope)).
Context (Hevents : events ≡ₚ events_of_commits commits).
Context (Hallocations : Forall (λ e, is_ok (allocations (ev_metadata e)) = true) events).
Context (Hrows : ∀ scope p e, (p, e) ∈ journal_of commits scope → is_ok (row_view scope p e) = true).

Lemma claims_journal scope p e : (scope, p, e) ∈ claims events ↔ (p, e) ∈ journal_of commits scope.
Proof. rewrite claims_entries. by apply entries_Permutation. Qed.

Lemma journal_entry_lookup scope p e :
  (p, e) ∈ journal_of commits scope ↔
  0 < p ∧ journal_of commits scope !! Z.to_nat (p - 1) = Some (p, e).
Proof.
  split.
  - intros [i Hi]%list_elem_of_lookup.
    assert (map fst (journal_of commits scope) !! i = Some p) as Hf by (by rewrite list_lookup_fmap, Hi).
    rewrite Hpositions in Hf. apply lookup_seqZ in Hf as [-> Hlt]. split; [lia|].
    by replace (Z.to_nat (1 + Z.of_nat i - 1)) with i by lia.
  - intros [_ Hi]. by eapply list_elem_of_lookup_2.
Qed.

Lemma claims_scope_ok scope p e : (scope, p, e) ∈ claims events → scope_ok scope.
Proof.
  unfold claims. rewrite elem_of_concat. intros (l & Hin & (x & -> & Hx)%list_elem_of_fmap).
  apply list_elem_of_fmap in Hin as (a & Heq & Ha). injection Heq as -> -> <-.
  rewrite Forall_forall in Hallocations. specialize (Hallocations _ Hx).
  unfold allocations_of in Ha. destruct (allocations _) as [l|] eqn:Hl; [|done]. clear Hallocations.
  revert Hl. unfold allocations. destruct (_ !! _); [|intros [= <-]; by apply not_elem_of_nil in Ha].
  destruct (map_err _ _) as [l'|]; [|done]. cbn [result_bind].
  destruct (check_each _ _) as [[]|] eqn:Hc; [|done]. cbn [result_bind].
  destruct (find_window _ _) as [[]|]; [done|]. intros [= ->].
  apply check_each_ok in Hc. rewrite Forall_forall in Hc. specialize (Hc a Ha). unfold check_allocation, allocation_scope in Hc.
  destruct (scope_new (al_scope a)) as [scope|] eqn:Hs; [|done]. by apply scope_new_ok in Hs as [_ Hs].
Qed.

Lemma claims_consistent : consistent (claims events).
Proof.
  split.
  - intros scope p e e' He He'. apply claims_journal, journal_entry_lookup in He as [_ He], He' as [_ He'].
    congruence.
  - intros scope p e He. by apply claims_journal, journal_entry_lookup in He as [Hp _].
  - intros scope p e He. split; [by eapply claims_scope_ok|]. apply Hrows. by apply claims_journal.
Qed.

(** The replay succeeds, and this is its state. *)
Lemma journal_replay_dense : ∃ state,
  journal_replay events = Ok state ∧
  (∀ scope p v, js_rows state !! (scope, p) = Some v ↔
     ∃ e, (p, e) ∈ journal_of commits scope ∧ row_view scope p e = Ok v) ∧
  (∀ scope, js_counters state !! scope =
     if journal_length commits scope =? 0 then None else Some (journal_length commits scope)).
Proof.
  destruct (fold_events_ok events [] _ recorded_nil claims_consistent Hallocations) as (r & Hf & Hr).
  simpl in Hr. exists (rp_state r). split; [unfold journal_replay; by rewrite Hf|]. split.
  - intros scope p v. rewrite (rc_row _ _ Hr). split.
    + destruct (rp_claimed r !! (scope, p)) as [e|] eqn:Hl; [|done].
      destruct (row_view scope p e) as [v'|] eqn:Hv; [|done]. intros [= <-]. exists e. split; [|done].
      apply claims_journal. by apply (rc_claimed _ _ Hr).
    + intros (e & He & Hv). pose proof He as Hc. apply claims_journal in Hc.
      destruct (rc_complete _ _ Hr _ _ _ Hc) as [e' Hl]. rewrite Hl.
      assert (e' = e) as ->; [|by rewrite Hv].
      apply (cs_one _ claims_consistent scope p); [by apply (rc_claimed _ _ Hr)|done].
  - intros scope. unfold journal_length, llen.
    destruct (js_counters (rp_state r) !! scope) as [c|] eqn:Hc.
    + destruct (rc_counter _ _ Hr _ _ Hc) as [(e & He) Hmax].
      apply claims_journal, journal_entry_lookup in He as [Hp He]. pose proof (lookup_lt_Some _ _ _ He) as Hlt.
      destruct (Z.eqb_spec (Z.of_nat (length (journal_of commits scope))) 0); [lia|]. f_equal.
      destruct (lookup_lt_is_Some_2 (journal_of commits scope) (length (journal_of commits scope) - 1)) as [[q x] Hq];
        [lia|].
      assert (q = Z.of_nat (length (journal_of commits scope))) as ->.
      { assert (map fst (journal_of commits scope) !! (length (journal_of commits scope) - 1)%nat = Some q) as Hm
          by (by rewrite list_lookup_fmap, Hq).
        rewrite Hpositions in Hm. apply lookup_seqZ in Hm as [-> _]. lia. }
      apply list_elem_of_lookup_2, claims_journal, Hmax in Hq. lia.
    + destruct (journal_of commits scope) as [|[p e] l] eqn:Hj; [done|]. exfalso.
      assert ((scope, p, e) ∈ claims events) as Hin
        by (apply claims_journal; rewrite Hj; apply list_elem_of_here).
      destruct (rc_counted _ _ Hr _ _ _ Hin) as [? ?]. congruence.
Qed.
End dense.

Context `{CompactionJson}.

(** C19. A replay restores the journal. For a log whose journal is dense and any order its events
    come in, the replay succeeds, and always with the same state: one row for every position of
    every scope, that of the event that was given the position, and for every scope that has a
    position the counter at the last. Where the stored rows are intact this is what they are: every
    stored counter is the replayed one, and every position above the compacted part has the
    replayed row stored. *)
Theorem journal_replay_restores (commits : Commits) (rows : gmap (string * string) ViewRow)
    (events : list SerializedEvent) :
  journal_ok commits rows → events ≡ₚ events_of_commits commits →
  Forall (λ e, is_ok (allocations (ev_metadata e)) = true) events →
  (∀ scope p e, (p, e) ∈ journal_of commits scope → is_ok (row_view scope p e) = true) →
  (∀ scope p e, row_view scope p (as_encoded e) = row_view scope p e) →
  ∃ state,
    (∀ events', events' ≡ₚ events → journal_replay events' = Ok state) ∧
    (∀ scope p v, js_rows state !! (scope, p) = Some v ↔
       ∃ e, (p, e) ∈ journal_of commits scope ∧ row_view scope p e = Ok v) ∧
    (∀ scope, js_counters state !! scope =
       if journal_length commits scope =? 0 then None else Some (journal_length commits scope)) ∧
    (∀ scope, rows !! (counter_pk scope, COUNTER_SORT_KEY) =
       match js_counters state !! scope with Some c => Some (counter_view scope c) | None => None end) ∧
    (∀ scope p v, js_rows state !! (scope, p) = Some v → floor_of rows scope < p →
       rows !! (row_pk scope, row_sk p) = Some v).
Proof.
  intros Hok Hev Hal Hrows Henc. pose proof (jk_positions _ _ Hok) as Hpos.
  destruct (journal_replay_dense commits events Hpos Hev Hal Hrows) as (state & Hr & Hs & Hc).
  exists state. split; [|split; [done|split; [done|split]]].
  - intros events' Hp.
    destruct (journal_replay_dense commits events' Hpos) as (state' & Hr' & Hs' & Hc'); [by rewrite Hp|by rewrite Hp|done|].
    rewrite Hr'. f_equal. destruct state as [rows1 counters1], state' as [rows2 counters2]. simpl in *. f_equal.
    + apply map_eq. intros [scope p]. apply option_eq. intros v. rewrite Hs, Hs'. done.
    + apply map_eq. intros scope. by rewrite Hc, Hc'.
  - intros scope. rewrite (jk_counter _ _ Hok), Hc. by destruct (_ =? 0).
  - intros scope p v (e & He & Hv)%Hs Hfloor. destruct (jk_present _ _ Hok _ _ _ He Hfloor) as (v' & Hv' & Hl).
    rewrite Henc in Hv'. rewrite Hl. congruence.
Qed.
End replay.

(** ** An example *)

Section witness.
#[local] Existing Instance sample_journal_json.
#[local] Existing Instance sample_compaction_json.

(** Two events of one stream, at the first two positions of a scope. *)
Definition placed_event (sequence : Z) : SerializedEvent :=
  journal_event (for_event "t" sequence) "Appended" "t" "Text" "x" "c"
    (json_allocations [mkAllocation "team" sequence]) sequence 1.

Definition placed_commits : Commits := [[("t"%string, [placed_event 1])]; [("t"%string, [placed_event 2])]].

Definition placed_row (sequence : Z) : ViewRow :=
  match row_view "team" sequence (placed_event sequence) with
  | Ok row => row
  | Err _ => counter_view "team" 0
  end.

Definition placed_rows : gmap (string * string) ViewRow :=
  <[(counter_pk "team", COUNTER_SORT_KEY) := counter_view "team" 2]>
    (<[(row_pk "team", row_sk 1) := placed_row 1]> {[(row_pk "team", row_sk 2) := placed_row 2]}).

Lemma placed_journal scope :
  journal_of placed_commits scope =
  if bool_decide ("team"%string = scope) then [(1, placed_event 1); (2, placed_event 2)] else [].
Proof.
  unfold journal_of, placed_commits, entries, entries_of. cbn [map concat snd app].
  assert (allocations_of (placed_event 1) = [mkAllocation "team" 1]) as -> by (vm_compute; reflexivity).
  assert (allocations_of (placed_event 2) = [mkAllocation "team" 2]) as -> by (vm_compute; reflexivity).
  cbn [List.filter al_scope]. by case_bool_decide.
Qed.

Lemma placed_no_manifest scope : placed_rows !! (compaction_pk scope, MANIFEST_SORT_KEY) = None.
Proof.
  unfold placed_rows. rewrite !lookup_insert_ne, lookup_singleton_ne; [done|..];
    intros Heq%(f_equal fst); simpl in Heq; (by apply row_compaction_pk in Heq) || by apply counter_compaction_pk in Heq.
Qed.

Lemma placed_ok : journal_ok placed_commits placed_rows.
Proof.
  assert (∀ scope, floor_of placed_rows scope = 0) as Hfloor
    by (intros scope; unfold floor_of; by rewrite placed_no_manifest).
  split.
  - intros scope. unfold journal_length. rewrite placed_journal. by case_bool_decide.
  - intros scope. unfold journal_length. rewrite placed_journal. by case_bool_decide.
  - intros scope. unfold journal_length. rewrite placed_journal. unfold placed_rows.
    case_bool_decide as Hs; [subst scope; by rewrite lookup_insert_eq|].
    rewrite !lookup_insert_ne, lookup_singleton_ne; [done|..]; intros Heq%(f_equal fst); simpl in Heq;
      [by apply row_counter_pk in Heq|by apply row_counter_pk in Heq|by apply counter_pk_inj in Heq].
  - intros scope p e. rewrite placed_journal. case_bool_decide as Hs; [|intros Hin; by apply not_elem_of_nil in Hin].
    subst scope. rewrite !elem_of_cons. intros [[= -> ->]|[[= -> ->]|Hin]] _; [| |by apply not_elem_of_nil in Hin].
    + exists (placed_row 1). split; vm_compute; reflexivity.
    + exists (placed_row 2). split; vm_compute; reflexivity.
  - intros scope sk v. unfold placed_rows. rewrite !lookup_insert_Some, lookup_singleton_Some.
    intros [[Heq _]|[_ [[Heq <-]|[_ [Heq <-]]]]].
    + apply (f_equal fst) in Heq. simpl in Heq. symmetry in Heq. by apply row_counter_pk in Heq.
    + apply pair_equal_spec in Heq as [Hs <-]. apply row_pk_inj in Hs as <-.
      exists 1, (placed_event 1). rewrite placed_journal, bool_decide_true by done.
      split; [apply list_elem_of_here|]. split; [done|]. vm_compute. reflexivity.
    + apply pair_equal_spec in Heq as [Hs <-]. apply row_pk_inj in Hs as <-.
      exists 2, (placed_event 2). rewrite placed_journal, bool_decide_true by done.
      split; [apply list_elem_of_further, list_elem_of_here|]. split; [done|]. vm_compute. reflexivity.
  - intros scope. rewrite Hfloor. unfold journal_length, llen. lia.
  - intros scope row. by rewrite placed_no_manifest.
Qed.

Lemma restored_plain e :
  restored e = e → md_command_id (ev_metadata e) = None ∧ md_causation_id (ev_metadata e) = None.
Proof.
  intros He. split.
  - exact (eq_sym (f_equal (λ x, md_command_id (ev_metadata x)) He)).
  - exact (eq_sym (f_equal (λ x, md_causation_id (ev_metadata x)) He)).
Qed.

Lemma restored_as_encoded e : restored e = e ∨ restored (as_encoded e) = as_encoded e → as_encoded e = e.
Proof.
  intros He. assert (effective_causation_id (ev_metadata e) = md_causation_id (ev_metadata e)) as Heff.
  { destruct He as [He|He]; apply restored_plain in He as [Hc Hk]; unfold effective_causation_id in *; simpl in *.
    - by rewrite Hc, Hk.
    - rewrite Hc in *. by destruct (md_causation_id (ev_metadata e)). }
  unfold as_encoded. rewrite Heff. by destruct e as [? ? ? ? ? ? ? []].
Qed.

Lemma sample_row_encoded scope p e : row_view scope p (as_encoded e) = row_view scope p e.
Proof.
  unfold row_view, encode_row. cbn [json_row sample_journal_json]. unfold write_row. cbn [ri_event ri_scope ri_position].
  assert (as_encoded e = e ∨ (restored e ≠ e ∧ restored (as_encoded e) ≠ as_encoded e)) as [->|[H1 H2]]; [|done|].
  - destruct (decide (restored e = e)) as [H1|H1]; [left; apply restored_as_encoded; by left|].
    destruct (decide (restored (as_encoded e) = as_encoded e)) as [H2|H2]; [|by right].
    left. apply restored_as_encoded. by right.
  - by rewrite !bool_decide_false.
Qed.

Lemma journal_replay_restores_witness :
  ∃ state, journal_replay [placed_event 2; placed_event 1] = Ok state ∧
    js_counters state !! "team"%string = Some 2 ∧ js_rows state !! ("team"%string, 2) = Some (placed_row 2).
Proof.
  destruct (journal_replay_restores placed_commits placed_rows [placed_event 1; placed_event 2])
    as (state & Hall & Hrows & Hcounters & _).
  - exact placed_ok.
  - reflexivity.
  - repeat (constructor; [vm_compute; reflexivity|]). constructor.
  - intros scope p e. rewrite placed_journal. case_bool_decide as Hs; [|intros Hin; by apply not_elem_of_nil in Hin].
    subst scope. rewrite !elem_of_cons. intros [[= -> ->]|[[= -> ->]|Hin]]; [..|by apply not_elem_of_nil in Hin];
      vm_compute; reflexivity.
  - exact sample_row_encoded.
  - exists state. split; [apply Hall, Permutation_swap|]. split.
    + rewrite Hcounters. unfold journal_length. rewrite placed_journal. reflexivity.
    + apply Hrows. exists (placed_event 2). rewrite placed_journal. split; [apply list_elem_of_further, list_elem_of_here|].
      vm_compute. reflexivity.
Defined.
End witness.
