(* ===== verification/RebuildAtomic.v ===== *)
(** * The fence of the in-memory repository

    How [MemRepository] answers the calls of a rebuild, and what other clients can do to the store
    while a lease is held: nothing that a rebuild would notice, or take the lock away for good. *)

From S2P Require Import Prelude Types Features Outcome Rebuild Wire Projection Repository.
From S2P Require Import RebuildBatch Mem MemInvariant MemRefinement MemRead MemSafety MemFence.
From S2P Require Import Program LogBackend MemBackend RebuildDriver.

(** ** Worlds *)

(** The repository a rebuild runs on, with its history: the leases it was granted and those it
    gave back, each by owner and generation, and every store there has been, oldest first. *)
Record RWorld := mkRWorld {
  rw_repository : MemRepository;
  rw_granted : list (string * Z);
  rw_ended : list (string * Z);
  rw_past : list MemStore
}.

Definition rw_store (w : RWorld) : MemStore := mr_store (rw_repository w).

Definition lease_id (lease : RebuildLease) : string * Z := (le_owner lease, le_generation lease).

(** The world after a step to another repository. *)
Definition moved (w : RWorld) (r : MemRepository) : RWorld :=
  mkRWorld r (rw_granted w) (rw_ended w) (rw_past w ++ [mr_store r]).

Definition granted (w : RWorld) (id : string * Z) : RWorld :=
  mkRWorld (rw_repository w) (id :: rw_granted w) (rw_ended w) (rw_past w).

Definition ended (w : RWorld) (id : string * Z) : RWorld :=
  mkRWorld (rw_repository w) (rw_granted w) (id :: rw_ended w) (rw_past w).

(** What the clocks show: the second, and the nanoseconds of the monotonic clock. *)
Record Clocks := mkClocks { ck_now : Z; ck_instant : Z }.

(** crates/evt/src/mem.rs:739-830 [RebuildFence for MemRepository] *)
Definition fence_answer {B} (o : Clocks) (q : FenceCall B) (w : RWorld) : RWorld * B :=
  let r := rw_repository w in
  match q in FenceCall B return RWorld * B with
  | FGeneration => (moved w r, Ok (rs_generation (ms_rebuild (mr_store r))))
  | FState => (moved w r, Ok (ms_rebuild (mr_store r)))
  | FBegin owner lease =>
      let x := mem_begin_rebuild owner lease (ck_now o) r in
      (match x.2 with
       | Ok lease => granted (moved w x.1) (lease_id lease)
       | Err _ => moved w x.1
       end, x.2)
  | FRenew lease extend =>
      let x := mem_renew_rebuild lease extend (ck_now o) r in (moved w x.1, x.2)
  | FEnd lease =>
      let x := mem_end_rebuild lease r in
      (match x.2 with
       | Ok _ => ended (moved w x.1) (lease_id lease)
       | Err _ => moved w x.1
       end, x.2)
  | FWriteViews lease views =>
      let x := mem_write_rebuild_views lease views (ck_now o) r in (moved w x.1, x.2)
  | FInstant => (moved w r, ck_instant o)
  end.

#[export] Instance mem_fence : Handles FenceCall RWorld := λ B q w b w', ∃ o, fence_answer o q w = (w', b).

(** ** Holding the lock *)

Definition held (id : string * Z) (s : MemStore) : Prop :=
  ∃ lock, rs_lock (ms_rebuild s) = Some lock ∧ rl_owner lock = id.1 ∧ rl_generation lock = id.2.

(** The generation has moved past the lease's. *)
Definition lost (id : string * Z) (s : MemStore) : Prop := id.2 < generation s.

Lemma held_generation id s : store_ok s → held id s → generation s = id.2.
Proof. intros Hok (lock & Hl & _ & Hg). destruct (ro_lock _ (ok_rebuild _ Hok) _ Hl) as [_ Hv]. unfold generation. congruence. Qed.

Lemma holds_held lease s lock :
  rs_lock (ms_rebuild s) = Some lock → holds lease lock = true ↔ held (lease_id lease) s.
Proof.
  intros Hl. unfold holds. rewrite andb_true_iff, bool_decide_eq_true. split.
  - intros [Ho Hg]. exists lock. split; [done|]. simpl. split; [done|]. lia.
  - intros (lock' & Hl' & Ho & Hg). rewrite Hl in Hl'. injection Hl' as <-. simpl in *. split; [done|lia].
Qed.

(** What a lease keeps as it is: the rows, and how long every log is. *)
Definition same_log (s s' : MemStore) : Prop :=
  ∀ id, st_head (stream_at (ms_streams s') id) = st_head (stream_at (ms_streams s) id).

Definition unmoved (s s' : MemStore) : Prop := ms_views s' = ms_views s ∧ same_log s s'.

#[export] Instance unmoved_preorder : PreOrder unmoved.
Proof.
  split.
  - intros s. by split.
  - intros x y z [H1 L1] [H2 L2]. split; [by rewrite H2|]. intros id. by rewrite L2.
Qed.

(** ** Other clients *)

(** What others do not do: write rows that the fence does not know of, or present this client's
    leases. *)
Definition outside_call (mine : list (string * Z)) (c : mem_call) : Prop :=
  match c with
  | CPutView _ | CDeleteView _ _ => False
  | CRenew lease _ _ | CEnd lease | CWriteViews lease _ _ => lease_id lease ∉ mine
  | _ => True
  end.

Section outside.
Context `{SerdeJson}.

(** Any handle runs any other operation; the generation's 64 bits do not run out. *)
Definition outside (w w' : RWorld) : Prop :=
  ∃ h c, let s' := mr_store (exec c (repository_of (rw_store w) h)).1 in
    outside_call (rw_granted w) c ∧ generation (rw_store w) ≤ generation s' ∧
    w' = moved w (with_store (rw_repository w) s').

(** A step beside a held lease: the lease is still held and nothing has moved, or it is lost. *)
Definition beside {A} (id : string * Z) (o : Op A) : Prop :=
  ∀ r, let s := mr_store r in let s' := mr_store (o r).1 in
  store_ok s → held id s → generation s ≤ generation s' →
  (held id s' ∧ unmoved s s') ∨ lost id s'.

Lemma beside_same {A} id (o : Op A) :
  (∀ r, let s := mr_store r in let s' := mr_store (o r).1 in
     store_ok s → held id s → ms_rebuild s' = ms_rebuild s ∧ unmoved s s') → beside id o.
Proof.
  intros Ho r s s' Hok Hh _. destruct (Ho r Hok Hh) as [Hr Hu]. left. split; [|done].
  destruct Hh as (lock & Hl & Hrest). exists lock. unfold s'. by rewrite Hr.
Qed.

Lemma guarded_beside {A B} id (c : Result A) (k : A → Op B) :
  (∀ x, beside id (k x)) → beside id (guarded c k).
Proof.
  intros Hk r s s' Hok Hh. unfold s', guarded. destruct c as [x|]; [by apply Hk|]. intros _.
  left. by split.
Qed.

Lemma silent_beside {A} id (o : Op A) :
  op_silent o →
  (∀ r, ms_views (mr_store (o r).1) = ms_views (mr_store r) ∧
        ms_rebuild (mr_store (o r).1) = ms_rebuild (mr_store r)) → beside id o.
Proof.
  intros Hs Ho. apply beside_same. intros r s s' Hok _. destruct (Ho r) as [Hv Hr]. split; [done|].
  split; [done|]. intros i. by destruct (Hs r Hok) as [_ Hst]; destruct (Hst i).
Qed.

Lemma mem_write_beside {X} id (streams : list (Commit X)) fences views outcome retention :
  beside id (mem_write streams fences views outcome retention).
Proof.
  apply beside_same. intros r s s' _ (lock & Hl & _). unfold s', mem_write.
  destruct (check_manifest r) as [[m v]|]; [|done].
  destruct (write_locked _ _ _ _ _ _) as [s1|] eqn:Hw; [|done]. exfalso.
  unfold write_locked in Hw. rewrite !check_bind_ok in Hw. destruct Hw as (_ & Hfree & _).
  unfold in_progress in Hfree. simpl in Hfree. fold s in Hfree. rewrite Hl in Hfree. done.
Qed.

Lemma rebuild_op_beside {A} id (f : RebuildState → Result (RebuildState * A)) :
  (∀ s s' a, f (ms_rebuild s) = Ok (s', a) → store_ok s → held id s →
     generation s ≤ rg_value (rs_generation s') →
     held id (set_rebuild s s') ∨ lost id (set_rebuild s s')) →
  beside id (rebuild_op f).
Proof.
  intros Hf r s s' Hok Hh. unfold s', rebuild_op. fold s.
  destruct (f (ms_rebuild s)) as [[s1 a]|] eqn:He; [|intros _; by left].
  intros Hg. destruct (Hf s s1 a He Hok Hh Hg); [by left|by right].
Qed.

Lemma grown_lost id s s' d :
  store_ok s → held id s → 0 < d ≤ 2 → rg_value (rs_generation s') = i64_add (generation s) d →
  generation s ≤ rg_value (rs_generation s') → lost id (set_rebuild s s').
Proof.
  intros Hok Hh Hd Heq Hle. pose proof (held_generation id s Hok Hh) as Hg.
  unfold lost. unfold generation at 1. simpl. rewrite Heq in *. unfold i64_add in *.
  enough (i64_add (generation s) d ≠ generation s) by (unfold i64_add in *; lia).
  unfold i64_add. intros Hw.
  assert ((generation s + d + 2 ^ 63) mod 2 ^ 64 = generation s + 2 ^ 63) as Hm by lia.
  pose proof (Z.div_mod (generation s + d + 2 ^ 63) (2 ^ 64) ltac:(lia)) as Hdm. rewrite Hm in Hdm. lia.
Qed.

Lemma begin_beside id owner lease now : beside id (mem_begin_rebuild owner lease now).
Proof.
  apply guarded_beside. intros seconds. apply rebuild_op_beside. intros s s' a Hb Hok Hh Hg.
  right. destruct (begin_state_moves _ _ _ _ _ _ Hb) as (d & Hd & Heq & _).
  apply (grown_lost id s s' d); [done|done|lia|exact Heq|done].
Qed.

Lemma renew_beside id lease extend now :
  lease_id lease ≠ id → beside id (mem_renew_rebuild lease extend now).
Proof.
  intros Hne. apply guarded_beside. intros seconds. apply rebuild_op_beside. intros s s' a Hr Hok Hh _.
  unfold renew_state in Hr. destruct (rs_lock (ms_rebuild s)) as [lock|] eqn:Hl; [|done].
  destruct (holds lease lock) eqn:Hho; [|done]. exfalso. apply Hne.
  apply (holds_held _ _ _ Hl) in Hho as (l1 & H1 & Ho1 & Hg1). destruct Hh as (l2 & H2 & Ho2 & Hg2).
  rewrite H1 in H2. injection H2 as <-. destruct id. simpl in *. unfold lease_id. congruence.
Qed.

Lemma release_beside id owner held_by increment force :
  0 < increment ≤ 2 →
  beside id (rebuild_op (release_state owner held_by increment force)).
Proof.
  intros Hi. apply rebuild_op_beside. intros s s' a Hr Hok Hh Hg. unfold release_state in Hr.
  destruct (lock_is _ _); [|done]. injection Hr as <- <-. right.
  apply (grown_lost id s _ increment); [done|done|lia|done|done].
Qed.

Lemma write_views_beside id lease views now :
  lease_id lease ≠ id → beside id (mem_write_rebuild_views lease views now).
Proof.
  intros Hne. apply guarded_beside. intros []. apply beside_same. intros r s s' _ (l2 & H2 & Ho2 & Hg2).
  unfold s'. destruct (rebuild_views _ _ _ _) as [s1|] eqn:Hv; [|done]. exfalso. apply Hne.
  unfold rebuild_views in Hv. rewrite !check_bind_ok in Hv. destruct Hv as (Hlock & _).
  unfold lock_is in Hlock. fold s in Hlock. rewrite H2 in Hlock.
  destruct (holds lease l2) eqn:Hho; [|done]. apply (holds_held _ s _ H2) in Hho as (l1 & H1 & Ho1 & Hg1).
  rewrite H1 in H2. injection H2 as <-. destruct id. simpl in *. unfold lease_id. congruence.
Qed.

Lemma exec_beside mine id c : id ∈ mine → outside_call mine c → beside id (exec c).
Proof.
  intros Hmine Hout. destruct c; cbn [outside_call] in Hout; try done.
  - apply guarded_beside. intros []. destruct (_ && _); [by apply beside_same|].
    apply guarded_beside. intros []. apply mem_write_beside.
  - apply guarded_beside. intros c'. destruct (transaction_is_empty c'); [by apply beside_same|].
    apply guarded_beside. intros []. apply mem_write_beside.
  - apply (silent_beside id (mem_put_snapshot sn)); [apply mem_put_snapshot_silent|].
    intros r. unfold mem_put_snapshot, guarded. destruct (check_not_reserved _); [|done].
    destruct (check_manifest r) as [[m v]|]; [|done]. cbv zeta. destruct (_ && _); [done|].
    by match goal with |- context [if ?b then (_, Ok false) else _] => destruct b end.
  - apply (silent_beside id (mem_compact_below id0 through)); [apply mem_compact_below_silent|].
    intros r. unfold mem_compact_below, guarded. destruct (check_not_reserved _); [|done].
    destruct (through <? 1); [done|]. destruct (validate_marker_for_write _ _); [|done].
    by destruct (compact_stream _ _ _) as [[? ?]|].
  - by apply (silent_beside id mem_accept_journal).
  - by apply (silent_beside id (mem_update_manifest change)).
  - apply (silent_beside id mem_initialize); [apply mem_initialize_silent|]. intros r. unfold mem_initialize.
    match goal with |- context [match ?x with Ok _ => _ | Err _ => _ end] => destruct x as [[]|] end;
      [done| |done]. by destruct (any_data _).
  - exact (begin_beside id owner lease now).
  - apply (renew_beside id lease extend now). by intros <-.
  - apply (guarded_beside id _ (λ _, rebuild_op (release_state (le_owner lease) (holds lease) 1 false))).
    intros _. apply release_beside. lia.
  - apply (guarded_beside id _ (λ _, rebuild_op (release_state owner _ 2 true))).
    intros _. apply release_beside. lia.
  - apply (write_views_beside id lease views now). by intros <-.
Qed.
End outside.

(** * A rebuild is atomic

    Whatever other clients do meanwhile, a rebuild that succeeds has replaced the rows at one stroke
    as far as the log is concerned: from the moment it took the lock to the moment it gave it back no
    event was committed and no one else wrote a row. A rebuild that fails gives the lock back only
    over rows it has not touched. *)

(** ** The invariant *)

Abbreviation RGhost := (Abs * RWorld)%type.

Definition g_store (g : RGhost) : MemStore := rw_store g.2.

Record rebuild_inv (g : RGhost) : Prop := {
  ri_refines : refines g.1 (g_store g);
  ri_ok : store_ok (g_store g);
  ri_numbered : ∀ id, numbered 1 (log_of g.1 id);
  ri_last : last (rw_past g.2) = Some (g_store g)
}.

(** The log and the history only grow. *)
Definition rebuild_le (g g' : RGhost) : Prop :=
  abs_le g.1 g'.1 ∧ rw_past g.2 `prefix_of` rw_past g'.2.

#[export] Instance rebuild_le_preorder : PreOrder rebuild_le.
Proof.
  split.
  - intros g. by split.
  - intros x y z [H1 P1] [H2 P2]. split; by etrans.
Qed.

(** What others may do to a lease of this client: leave everything as it is, or take the lock away,
    which they cannot undo. *)
Record rebuild_rely (g g' : RGhost) : Prop := {
  ry_le : rebuild_le g g';
  ry_granted : rw_granted g'.2 = rw_granted g.2;
  ry_ended : rw_ended g'.2 = rw_ended g.2;
  ry_lost : ∀ id, id ∈ rw_granted g.2 → lost id (g_store g) → lost id (g_store g');
  ry_held : ∀ id, id ∈ rw_granted g.2 → held id (g_store g) →
    (held id (g_store g') ∧ unmoved (g_store g) (g_store g')) ∨ lost id (g_store g')
}.

#[export] Instance rebuild_rely_preorder : PreOrder rebuild_rely.
Proof.
  split.
  - intros g. split; try done. intros id _ Hh. left. by split.
  - intros x y z H1 H2. pose proof (ry_granted _ _ H1) as Hg. split.
    + etrans; [apply H1|apply H2].
    + by rewrite (ry_granted _ _ H2).
    + by rewrite (ry_ended _ _ H2), (ry_ended _ _ H1).
    + intros id Hin Hl. apply (ry_lost _ _ H2); [by rewrite Hg|]. by apply (ry_lost _ _ H1).
    + intros id Hin Hh. destruct (ry_held _ _ H1 id Hin Hh) as [[Hh1 Hu1]|Hl].
      * destruct (ry_held _ _ H2 id) as [[Hh2 Hu2]|Hl2]; [by rewrite Hg|done| |by right].
        left. split; [done|by etrans].
      * right. apply (ry_lost _ _ H2); [by rewrite Hg|done].
Qed.

Definition rebuilder (stops : Prop) : Role rebuild_le :=
  mkRoleOf rebuild_rely rebuild_le stops _ ry_le (λ _ _ H, H).

(** ** Answers *)

(** The fence's part of the calls [E]: the log stays as it is. *)
Class FenceLaws (E : Type → Type) `{!HasFence E} `{!Handles E RGhost} : Prop :=
  fence_law : ∀ B (q : FenceCall B) g b g', performs (fence_call q) g b g' →
    g'.1 = g.1 ∧ ∃ o, fence_answer o q g.2 = (g'.2, b).

(** A fence operation keeps the invariant. *)
Lemma silent_inv {A} (o : Op A) g w' :
  rebuild_inv g → op_silent o → store_ok (mr_store (o (rw_repository g.2)).1) →
  rw_repository w' = (o (rw_repository g.2)).1 → rw_past w' = rw_past g.2 ++ [rw_store w'] →
  rebuild_inv (g.1, w').
Proof.
  intros Hg Hs Hok Hr Hp. destruct (Hs (rw_repository g.2) (ri_ok _ Hg)) as [Hout Hst].
  assert (g_store (g.1, w') = mr_store (o (rw_repository g.2)).1) as Heq
    by (unfold g_store, rw_store; simpl; by rewrite Hr).
  split; rewrite ?Heq.
  - eapply refines_same; [apply Hg|done|done].
  - done.
  - apply Hg.
  - simpl. rewrite Hp, last_snoc. by rewrite <-Heq.
Qed.

Lemma mem_begin_silent owner lease now : op_silent (mem_begin_rebuild owner lease now).
Proof. apply guarded_silent. intros x _. apply rebuild_op_silent. Qed.
Lemma mem_renew_silent lease extend now : op_silent (mem_renew_rebuild lease extend now).
Proof. apply guarded_silent. intros x _. apply rebuild_op_silent. Qed.
Lemma mem_end_silent lease : op_silent (mem_end_rebuild lease).
Proof. apply guarded_silent. intros x _. apply rebuild_op_silent. Qed.

Lemma fence_answer_inv {B} o (q : FenceCall B) g :
  rebuild_inv g → rebuild_inv (g.1, (fence_answer o q g.2).1) ∧
  rebuild_le g (g.1, (fence_answer o q g.2).1).
Proof.
  intros Hg. pose proof (ri_ok _ Hg) as Hok. destruct q; simpl.
  - split; [by apply (silent_inv (pure_op (Ok tt)) g)|]. split; [reflexivity|by apply prefix_app_r].
  - split; [by apply (silent_inv (pure_op (Ok tt)) g)|]. split; [reflexivity|by apply prefix_app_r].
  - pose proof (mem_begin_rebuild_preserves owner lease (ck_now o) (rw_repository g.2) Hok) as Hok'.
    destruct (mem_begin_rebuild _ _ _ _).2 eqn:Hr; (split; [|split; [reflexivity|by apply prefix_app_r]]);
      by apply (silent_inv (mem_begin_rebuild owner lease (ck_now o)) g); [|apply mem_begin_silent|..].
  - pose proof (mem_renew_rebuild_preserves lease extend (ck_now o) (rw_repository g.2) Hok) as Hok'.
    split; [|split; [reflexivity|by apply prefix_app_r]].
    by apply (silent_inv (mem_renew_rebuild lease extend (ck_now o)) g); [|apply mem_renew_silent|..].
  - pose proof (mem_end_rebuild_preserves lease (rw_repository g.2) Hok) as Hok'.
    destruct (mem_end_rebuild _ _).2 eqn:Hr; (split; [|split; [reflexivity|by apply prefix_app_r]]);
      by apply (silent_inv (mem_end_rebuild lease) g); [|apply mem_end_silent|..].
  - pose proof (mem_write_rebuild_views_preserves lease views (ck_now o) (rw_repository g.2) Hok) as Hok'.
    split; [|split; [reflexivity|by apply prefix_app_r]].
    by apply (silent_inv (mem_write_rebuild_views lease views (ck_now o)) g);
      [|apply mem_write_rebuild_views_silent|..].
  - split; [by apply (silent_inv (pure_op (Ok tt)) g)|]. split; [reflexivity|by apply prefix_app_r].
Qed.

(** ** What a rebuild knows of its lease *)

(** The lease was taken over the store [s0]; while it is held the rows are [rows] and the log is as
    it was. *)
Record owned (id : string * Z) (s0 : MemStore) (rows : gmap (string * string) ViewRow) (g : RGhost)
  : Prop := {
  ow_granted : id ∈ rw_granted g.2;
  ow_past : s0 ∈ rw_past g.2;
  ow_taken : held id s0;
  ow_now : (held id (g_store g) ∧ ms_views (g_store g) = rows ∧ same_log s0 (g_store g)) ∨
    lost id (g_store g)
}.

Lemma past_later (s : MemStore) g g' : rebuild_le g g' → s ∈ rw_past g.2 → s ∈ rw_past g'.2.
Proof. intros [_ [k ->]] Hin. apply elem_of_app. by left. Qed.

Lemma owned_later id s0 rows g g' : rebuild_rely g g' → owned id s0 rows g → owned id s0 rows g'.
Proof.
  intros Hr [Hin Hp Ht Hnow]. split.
  - by rewrite (ry_granted _ _ Hr).
  - by eapply past_later; [apply Hr|].
  - done.
  - destruct Hnow as [(Hh & Hv & Hl)|Hl]; [|right; by apply (ry_lost _ _ Hr)].
    destruct (ry_held _ _ Hr id Hin Hh) as [[Hh' [Hv' Hl']]|Hlost]; [left|by right].
    split; [done|]. split; [by rewrite Hv'|]. intros i. by rewrite Hl'.
Qed.

(** A lease is not both held and lost. *)
Lemma held_not_lost id s : store_ok s → held id s → ¬ lost id s.
Proof. intros Hok Hh Hl. pose proof (held_generation id s Hok Hh). unfold lost in Hl. lia. Qed.

(** How the rows of a store may have changed. *)
Definition Change : Type :=
  gmap (string * string) ViewRow → gmap (string * string) ViewRow → Prop.

(** The lock was given back over rows that are those it was taken over with [change] made to them,
    and there was no commit and no other writer in between. *)
Definition settled_over (id : string * Z) (change : Change) (g : RGhost) : Prop :=
  ∃ s0 s1 past, past `prefix_of` rw_past g.2 ∧ last past = Some s1 ∧ s0 ∈ past ∧
    held id s0 ∧ held id s1 ∧ same_log s0 s1 ∧ change (ms_views s0) (ms_views s1).

Lemma settled_later id change g g' :
  rebuild_le g g' → settled_over id change g → settled_over id change g'.
Proof.
  intros [_ Hle] (s0 & s1 & past & Hp & Hrest). exists s0, s1, past. split; [by etrans|done].
Qed.

Lemma apply_views_app rows l k : apply_views rows (l ++ k) = apply_views (apply_views rows l) k.
Proof. apply fold_left_app. Qed.

Section programs.
Context {E : Type → Type} `{!HasFence E} `{!Handles E RGhost} `{!FenceLaws E} {stops : Prop}.
Implicit Types g : RGhost.

Abbreviation runs p Q g := (assures (E := E) rebuild_inv (rebuilder stops) p Q g).
Abbreviation ask q := (call (E := E) (fence_call q)).

(** A call of the fence, made after others have moved. *)
Lemma ask_runs {B} (q : FenceCall B) (Q : B → RGhost → Prop) g :
  rebuild_inv g →
  (∀ g1 o, rebuild_inv g1 → rebuild_rely g g1 → rebuild_inv (g1.1, (fence_answer o q g1.2).1) →
     Q (fence_answer o q g1.2).2 (g1.1, (fence_answer o q g1.2).1)) →
  runs (ask q) Q g.
Proof.
  intros Hg HQ. apply assures_call; [apply _|done|]. intros g1 b g2 Hg1 Hr Hp.
  destruct (fence_law _ q g1 b g2 Hp) as (Ha & o & Hans).
  destruct (fence_answer_inv o q g1 Hg1) as [Hi Hle]. rewrite Hans in Hi, Hle. simpl in Hi, Hle.
  assert ((g1.1, g2.2) = g2) as Heq by (rewrite <-Ha; by destruct g2).
  specialize (HQ g1 o Hg1 Hr). rewrite Hans in HQ. simpl in HQ. rewrite Heq in *.
  split; [done|]. split; [done|]. by apply HQ.
Qed.

(** A step that leaves the fence and the rows alone. *)
Lemma owned_still id s0 rows g w' :
  rw_granted w' = rw_granted g.2 → rw_past g.2 `prefix_of` rw_past w' →
  (held id (g_store g) → held id (rw_store w')) →
  (lost id (g_store g) → lost id (rw_store w')) → unmoved (g_store g) (rw_store w') →
  owned id s0 rows g → owned id s0 rows (g.1, w').
Proof.
  intros Hg [k Hk] Hh Hlost [Hv Hl] [Hin Hp Ht Hnow]. split.
  - simpl. by rewrite Hg.
  - simpl. rewrite Hk. apply elem_of_app. by left.
  - done.
  - destruct Hnow as [(Hh1 & Hv1 & Hl1)|Hl1]; [left|right; by apply Hlost].
    split; [by apply Hh|]. split; [unfold g_store; simpl; by rewrite Hv|]. intros i.
    unfold g_store in *. simpl. by rewrite Hl.
Qed.

Lemma owned_same id s0 rows g w' :
  rw_granted w' = rw_granted g.2 → rw_past g.2 `prefix_of` rw_past w' → rw_store w' = g_store g →
  owned id s0 rows g → owned id s0 rows (g.1, w').
Proof. intros Hg Hp Hs. apply owned_still; rewrite ?Hs; done. Qed.

(** A call that ends nothing. *)
Definition no_end {B} (q : FenceCall B) : bool := match q with FEnd _ => false | _ => true end.

Lemma no_end_ended {B} o (q : FenceCall B) w : no_end q = true → rw_ended (fence_answer o q w).1 = rw_ended w.
Proof.
  destruct q; simpl; try done. intros _.
  by destruct (mem_begin_rebuild owner lease (ck_now o) (rw_repository w)).2.
Qed.

Lemma instant_runs (Q : Z → RGhost → Prop) id s0 rows g :
  rebuild_inv g → owned id s0 rows g →
  (∀ z g', rebuild_inv g' → owned id s0 rows g' → rw_ended g'.2 = rw_ended g.2 → Q z g') →
  runs (ask FInstant) Q g.
Proof.
  intros Hg Ho HQ. apply ask_runs; [done|]. intros g1 o Hg1 Hr Hi. apply HQ; [done| |apply (ry_ended _ _ Hr)].
  apply (owned_later _ _ _ _ _ Hr) in Ho.
  apply (owned_still _ _ _ g1); [done|by apply prefix_app_r|done|done|by split|done].
Qed.

Lemma renew_state_held id s lease now seconds s' lease' :
  renew_state (ms_rebuild s) lease now seconds = Ok (s', lease') →
  lease_id lease' = lease_id lease ∧ rs_generation s' = rs_generation (ms_rebuild s) ∧
  (held id s → held id (set_rebuild s s')).
Proof.
  unfold renew_state. destruct (rs_lock (ms_rebuild s)) as [lock|] eqn:Hl; [|done].
  destruct (holds lease lock); [|done]. intros [= <- <-]. split; [done|]. split; [done|].
  intros (l & Hl' & Ho & Hgen). rewrite Hl in Hl'. injection Hl' as <-. eexists. split; [reflexivity|]. done.
Qed.

Lemma renew_runs id lease extend (Q : Result RebuildLease → RGhost → Prop) s0 rows g :
  rebuild_inv g → owned id s0 rows g →
  (∀ r g', rebuild_inv g' → owned id s0 rows g' → rw_ended g'.2 = rw_ended g.2 →
     (∀ l, r = Ok l → lease_id l = lease_id lease) → Q r g') →
  runs (ask (FRenew lease extend)) Q g.
Proof.
  intros Hg Ho HQ. apply ask_runs; [done|]. intros g1 o Hg1 Hr Hi.
  apply (owned_later _ _ _ _ _ Hr) in Ho. apply HQ; [done| |apply (ry_ended _ _ Hr)|].
  - clear HQ Hi Hr Hg g. simpl. unfold mem_renew_rebuild, guarded.
    destruct (check_lease _ _) as [seconds|]; [|apply (owned_same _ _ _ g1); [done|by apply prefix_app_r|done|done]].
    unfold rebuild_op. destruct (renew_state _ _ _ _) as [[s' l']|] eqn:Hs;
      [|apply (owned_same _ _ _ g1); [done|by apply prefix_app_r|done|done]].
    destruct (renew_state_held id _ _ _ _ _ _ Hs) as (_ & Hgen & Hheld).
    apply (owned_still _ _ _ g1); [done|by apply prefix_app_r|exact Hheld| |by split|done].
    unfold lost, generation, rw_store. simpl. by rewrite Hgen.
  - intros l. simpl. unfold mem_renew_rebuild, guarded. destruct (check_lease _ _) as [seconds|]; [|done].
    unfold rebuild_op. destruct (renew_state _ _ _ _) as [[s' l']|] eqn:Hs; [|done]. simpl. intros [= <-].
    by destruct (renew_state_held id _ _ _ _ _ _ Hs).
Qed.

Lemma write_runs lease views (Q : Result unit → RGhost → Prop) s0 rows g :
  rebuild_inv g → owned (lease_id lease) s0 rows g →
  (∀ r g', rebuild_inv g' →
     owned (lease_id lease) s0 (match r with Ok _ => apply_views rows views | Err _ => rows end) g' →
     rw_ended g'.2 = rw_ended g.2 → Q r g') →
  runs (ask (FWriteViews lease views)) Q g.
Proof.
  intros Hg Ho HQ. apply ask_runs; [done|]. intros g1 o Hg1 Hr Hi.
  apply (owned_later _ _ _ _ _ Hr) in Ho. apply HQ; [done| |apply (ry_ended _ _ Hr)]. clear HQ Hi Hr Hg g. simpl.
  unfold mem_write_rebuild_views, guarded.
  destruct (result_bind (check_rebuild_owner _) _) as [[]|e]; [|apply (owned_same _ _ _ g1); [done|by apply prefix_app_r|done|done]].
  destruct (rebuild_views _ _ _ _) as [s'|] eqn:Hv; [|apply (owned_same _ _ _ g1); [done|by apply prefix_app_r|done|done]].
  unfold rebuild_views in Hv. rewrite !check_bind_ok in Hv. destruct Hv as (Hlock & _ & Hs).
  injection Hs as <-. unfold lock_is in Hlock. fold (rw_store g1.2) in *. fold (g_store g1) in *.
  destruct (rs_lock (ms_rebuild (g_store g1))) as [lock|] eqn:Hl; [|done].
  destruct (holds lease lock) eqn:Hho; [|done]. apply (holds_held _ _ _ Hl) in Hho.
  destruct Ho as [Hin Hp Ht [(_ & Hrows & Hlog)|Hlost]];
    [|by destruct (held_not_lost _ _ (ri_ok _ Hg1) Hho)].
  split; [done|simpl; apply elem_of_app; by left|done|]. left. split; [exact Hho|]. split; [|exact Hlog].
  unfold g_store, rw_store. simpl. by rewrite <-Hrows.
Qed.

Lemma begin_runs owner lease (Q : Result RebuildLease → RGhost → Prop) g :
  rebuild_inv g →
  (∀ r g', rebuild_inv g' → rw_ended g'.2 = rw_ended g.2 →
     (∀ l, r = Ok l → owned (lease_id l) (g_store g') (ms_views (g_store g')) g') → Q r g') →
  runs (ask (FBegin owner lease)) Q g.
Proof.
  intros Hg HQ. apply ask_runs; [done|]. intros g1 o Hg1 Hr Hi. apply HQ; [done| |].
  { etrans; [apply (no_end_ended o (FBegin owner lease)); done|apply (ry_ended _ _ Hr)]. }
  clear HQ. pose proof (ri_last _ Hi) as Hlast. intros l. cbn [fence_answer snd].
  cbn [fence_answer fst] in Hlast, Hi |- *.
  destruct (mem_begin_rebuild owner lease (ck_now o) (rw_repository g1.2)) as [r' res] eqn:Hb.
  cbn [fst snd] in *. intros ->. simpl in Hlast. split.
  - apply list_elem_of_here.
  - by apply last_Some_elem_of.
  - revert Hb. unfold mem_begin_rebuild, guarded. destruct (check_lease _ _) as [seconds|]; [|done].
    unfold rebuild_op, begin_state. destruct (plan_decide _ _); [|done]. simpl. intros [= <- <-].
    eexists. split; [reflexivity|]. done.
  - left. split; [|by split]. revert Hb. unfold mem_begin_rebuild, guarded.
    destruct (check_lease _ _) as [seconds|]; [|done].
    unfold rebuild_op, begin_state. destruct (plan_decide _ _); [|done]. simpl. intros [= <- <-].
    eexists. split; [reflexivity|]. done.
Qed.

(** Giving the lock back: if it succeeds, the rows were still as they were known to be. *)
Lemma end_runs lease (Q : Result RebuildGeneration → RGhost → Prop) g :
  rebuild_inv g →
  (∀ r g', rebuild_inv g' →
     match r with
     | Ok _ => rw_ended g'.2 = lease_id lease :: rw_ended g.2 ∧
         ∀ s0 rows change, owned (lease_id lease) s0 rows g → change (ms_views s0) rows →
           settled_over (lease_id lease) change g'
     | Err _ => rw_ended g'.2 = rw_ended g.2
     end → Q r g') →
  runs (ask (FEnd lease)) Q g.
Proof.
  intros Hg HQ. apply ask_runs; [done|]. intros g1 o Hg1 Hr Hi. apply HQ; [done|]. clear HQ.
  cbn [fence_answer snd fst] in Hi |- *.
  destruct (mem_end_rebuild lease (rw_repository g1.2)) as [r' res] eqn:He. cbn [fst snd] in *.
  destruct res as [generation|error]; simpl; [|apply (ry_ended _ _ Hr)].
  split; [by rewrite (ry_ended _ _ Hr)|]. intros s0 rows change Ho Hrows.
  apply (owned_later _ _ _ _ _ Hr) in Ho. revert He. unfold mem_end_rebuild, guarded.
  destruct (check_rebuild_owner _); [|done]. unfold rebuild_op, release_state.
  destruct (lock_is _ _) eqn:Hlock; [|done]. intros _. unfold lock_is in Hlock.
  destruct (rs_lock _) as [lock|] eqn:Hl; [|done]. apply (holds_held _ _ _ Hl) in Hlock.
  destruct Ho as [_ Hp Ht [(_ & Hv & Hlog)|Hlost]]; [|by destruct (held_not_lost _ _ (ri_ok _ Hg1) Hlock)].
  exists s0, (g_store g1), (rw_past g1.2). split; [by apply prefix_app_r|].
  split; [apply (ri_last _ Hg1)|]. do 4 (split; [done|]). by rewrite Hv.
Qed.

(** ** The driver's parts *)

(** The lease is owned, and nothing has been given back. *)
Definition holding (before : list (string * Z)) (id : string * Z) (s0 : MemStore)
    (rows : gmap (string * string) ViewRow) g : Prop :=
  owned id s0 rows g ∧ rw_ended g.2 = before.

Lemma keep_alive_runs r s0 rows before g :
  rebuild_inv g → holding before (lease_id (rn_lease r)) s0 rows g →
  runs (keep_alive r) (λ x g', rn_attempted x.1 = rn_attempted r ∧
    lease_id (rn_lease x.1) = lease_id (rn_lease r) ∧
    holding before (lease_id (rn_lease r)) s0 rows g') g.
Proof.
  intros Hg [Ho He]. unfold keep_alive. step_bind.
  apply (assures_mono _ _ _ (λ _ g', holding before (lease_id (rn_lease r)) s0 rows g')).
  2: { destruct (rn_renewed r) as [at_|]; [|by returns]. step_bind.
       apply (instant_runs _ _ _ _ _ Hg Ho). intros z g1 Hg1 Ho1 He1. returns. by rewrite <-He1 in He. }
  intros due g1 Hg1 _ [Ho1 He1]. destruct due; [|by returns]. step_bind.
  apply (renew_runs (lease_id (rn_lease r)) _ _ _ s0 rows g1 Hg1 Ho1). intros [l|e] g2 Hg2 Ho2 He2 Hl.
  - step_bind. apply (instant_runs _ _ _ _ _ Hg2 Ho2). intros z g3 Hg3 Ho3 He3. returns. simpl.
    split; [done|]. split; [by apply Hl|]. split; [done|]. by rewrite He3, He2.
  - returns. split; [done|]. split; [done|]. split; [done|]. by rewrite He2.
Qed.

(** What the batches written so far have made of the rows; a write that was never attempted has
    changed nothing. *)
Lemma renewing_write_runs r batch s0 rows before g :
  rebuild_inv g → holding before (lease_id (rn_lease r)) s0 rows g →
  runs (renewing_write r batch) (λ x g', lease_id (rn_lease x.1) = lease_id (rn_lease r) ∧
    rn_attempted r ≤ rn_attempted x.1 ∧
    match x.2 with
    | Ok _ => rn_attempted r < rn_attempted x.1 ∧
        holding before (lease_id (rn_lease r)) s0 (apply_views rows batch) g'
    | Err _ => holding before (lease_id (rn_lease r)) s0 rows g'
    end) g.
Proof.
  intros Hg Hh. unfold renewing_write. step_bind.
  eapply assures_mono; [|by apply keep_alive_runs]. intros [r1 [[]|e]] g1 Hg1 _ (Ha & Hl & Ho1 & He1); cbn [fst snd] in *.
  - rewrite <-Hl in *. cbv zeta. cbn [rn_lease]. step_bind. apply (write_runs _ _ _ s0 rows g1 Hg1 Ho1).
    intros [[]|e] g2 Hg2 Ho2 He2; returns; simpl; (split; [done|]); (split; [lia|]).
    + split; [lia|]. split; [done|]. by rewrite He2.
    + split; [done|]. by rewrite He2.
  - returns. simpl. split; [done|]. split; [lia|]. by split.
Qed.

Lemma write_batches_runs batches : ∀ r s0 rows before g,
  rebuild_inv g → holding before (lease_id (rn_lease r)) s0 rows g →
  runs (write_batches r batches) (λ x g', lease_id (rn_lease x.1) = lease_id (rn_lease r) ∧
    rn_attempted r ≤ rn_attempted x.1 ∧
    match x.2 with
    | Ok _ => holding before (lease_id (rn_lease r)) s0 (apply_views rows (concat batches)) g'
    | Err _ => ∃ rows', holding before (lease_id (rn_lease r)) s0 rows' g' ∧
        (rn_attempted x.1 = rn_attempted r → rows' = rows)
    end) g.
Proof.
  induction batches as [|batch batches IH]; intros r s0 rows before g Hg Hh; cbn [write_batches concat].
  { returns. by split. }
  step_bind. eapply assures_mono; [|by apply renewing_write_runs].
  intros [r1 [[]|e]] g1 Hg1 _ (Hl & Ha & Hh1); cbn [fst snd] in *.
  - destruct Hh1 as [Hlt Hh1]. rewrite <-Hl in Hh1. eapply assures_mono; [|by apply IH].
    intros [r2 [[]|e]] g2 Hg2 _ (Hl2 & Ha2 & Hh2); cbn [fst snd] in *; rewrite Hl in *.
    + split; [done|]. split; [lia|]. by rewrite apply_views_app.
    + split; [done|]. split; [lia|]. destruct Hh2 as (rows' & Hh2 & _). exists rows'. split; [done|]. lia.
  - returns. simpl. split; [done|]. split; [done|]. by exists rows.
Qed.

(** Taking the lock. *)
Lemma take_attempts_runs n owner lease : ∀ g,
  rebuild_inv g →
  runs (take_attempts n owner lease) (λ r g', match r with
    | Ok h => ∃ s0, holding (rw_ended g.2) (lease_id (hl_lease h)) s0 (ms_views s0) g'
    | Err _ => rw_ended g'.2 = rw_ended g.2
    end) g.
Proof.
  induction n as [|n IH]; intros g Hg; cbn [take_attempts]; [by returns|].
  step_try. apply ask_runs; [done|]. intros g1 o Hg1 Hr1 Hi1. cbn [fence_answer fst snd] in *.
  pose proof (ry_ended _ _ Hr1) as He1. step_bind. apply begin_runs; [done|]. intros begun g2 Hg2 He2 Hown.
  cbn [snd moved rw_ended] in He2. destruct begun as [l|error].
  - step_bind. apply (instant_runs _ _ _ _ _ Hg2 (Hown l eq_refl)). intros z g3 Hg3 Ho3 He3. returns.
    exists (g_store g2). split; [done|]. by rewrite He3, He2.
  - assert (rw_ended g2.2 = rw_ended g.2) as Heq by (by rewrite He2). clear Hown.
    destruct error; try (by returns). step_bind. apply ask_runs; [done|]. intros g3 o3 Hg3 Hr3 Hi3.
    cbn [fence_answer fst snd] in *. assert (rw_ended g3.2 = rw_ended g.2) as Heq3 by (by rewrite (ry_ended _ _ Hr3)).
    destruct (holds_begun _ _ _) as [[]|]; try (by returns).
    eapply assures_mono; [|by apply IH]. intros r g4 _ _. cbn [snd moved rw_ended]. by rewrite Heq3.
Qed.

(** How a run ends: whatever it gave back, it gave back over rows it had not touched or had rebuilt,
    and a run that succeeded gave its lock back over the rebuilt ones, with a value as it should be. *)
Definition finished {T : Type} (before : list (string * Z)) (change : T → Change) (r : Result T) g
  : Prop :=
  (∀ id, id ∈ rw_ended g.2 →
     id ∈ before ∨ settled_over id eq g ∨ ∃ v, settled_over id (change v) g) ∧
  ∀ v, r = Ok v → ∃ id, id ∈ rw_ended g.2 ∧ settled_over id (change v) g.

Lemma finished_unended {T : Type} (before : list (string * Z)) (change : T → Change) (e : Error) g :
  rw_ended g.2 = before → finished before change (Err e) g.
Proof. intros <-. split; [by left|done]. Qed.

Lemma finished_later {T : Type} (before : list (string * Z)) (change : T → Change) (r : Result T) g g' :
  rebuild_rely g g' → finished before change r g → finished before change r g'.
Proof.
  intros Hr [H1 H2]. pose proof (ry_le _ _ Hr) as Hle. split.
  - intros id Hin. rewrite (ry_ended _ _ Hr) in Hin.
    destruct (H1 id Hin) as [?|[?|[v ?]]]; [by left|right; left|right; right; exists v]; by eapply settled_later.
  - intros v Hv. destruct (H2 v Hv) as (id & Hin & Hs). exists id. rewrite (ry_ended _ _ Hr).
    split; [done|]. by eapply settled_later.
Qed.

Lemma finish_runs {T : Type} (h : Held) (result : result T RebuildFailure) s0 (before : list (string * Z)) (change : T → Change) g :
  rebuild_inv g → rw_ended g.2 = before →
  match result with
  | Ok v => ∃ rows, owned (lease_id (hl_lease h)) s0 rows g ∧ change v (ms_views s0) rows
  | Err failure => rf_attempted failure = 0 → owned (lease_id (hl_lease h)) s0 (ms_views s0) g
  end →
  runs (held_finish h result) (finished before change) g.
Proof.
  intros Hg He Ho. unfold held_finish. destruct result as [v|failure].
  - destruct Ho as (rows & Ho & Hrows). step_try. apply end_runs; [done|]. intros [x|e] g1 Hg1.
    + intros [He1 Hs]. returns. specialize (Hs _ _ (change v) Ho Hrows). split.
      * intros id. rewrite He1, elem_of_cons, He. intros [->|Hin]; [right; right; by exists v|by left].
      * intros _ [= <-]. exists (lease_id (hl_lease h)). split; [|done]. rewrite He1. apply list_elem_of_here.
    + intros He1. apply finished_unended. by rewrite He1.
  - destruct (hl_from_settled h && _) eqn:Hf; [|returns; by apply finished_unended].
    apply andb_prop in Hf as [_ Ha]. step_bind. apply end_runs; [done|]. intros [x|e] g1 Hg1.
    + intros [He1 Hs]. returns. split; [|done]. intros id. rewrite He1, elem_of_cons, He.
      intros [->|Hin]; [right; left|by left].
      apply (Hs s0 (ms_views s0) eq); [|done]. apply Ho. lia.
    + intros He1. returns. apply finished_unended. by rewrite He1.
Qed.

Lemma take_runs {T : Type} owner lease (k : Held → Tree E (Result T)) (before : list (string * Z)) (change : T → Change) g :
  rebuild_inv g → rw_ended g.2 = before →
  (∀ h s0 g', rebuild_inv g' → holding before (lease_id (hl_lease h)) s0 (ms_views s0) g' →
     runs (k h) (finished before change) g') →
  runs (try_bind (held_take owner lease) k) (finished before change) g.
Proof.
  intros Hg He Hk. step_try. eapply assures_mono; [|by apply take_attempts_runs].
  intros [h|e] g1 Hg1 _ Hr.
  - destruct Hr as [s0 Hh]. rewrite He in Hh. by apply (Hk h s0).
  - apply finished_unended. by rewrite Hr.
Qed.
End programs.

(** ** Clients *)

(** The client's calls leave the log as it is. *)
#[export] Instance logged {E : Type → Type} `{!Handles E RWorld} : Handles E RGhost :=
  λ B q g b g', g'.1 = g.1 ∧ performs q g.2 b g'.2.

#[export] Instance logged_fence_laws : FenceLaws FenceCall.
Proof. by intros B q g b g'. Qed.

Section outside.
Context `{SerdeJson}.

Lemma outside_rely a w w' :
  rebuild_inv (a, w) → outside w w' → ∃ a', rebuild_inv (a', w') ∧ rebuild_rely (a, w) (a', w').
Proof.
  intros Hg (h & c & Hout & Hgen & ->). unfold rw_store in *.
  set (r := repository_of (mr_store (rw_repository w)) h) in *.
  destruct (exec_simulates c a r (ri_refines _ Hg) (ri_ok _ Hg)) as (a' & Hs & Hr').
  exists a'. split.
  - split; [exact Hr'|by apply (exec_preserves c r), Hg| |].
    + eapply abs_step_numbered; [exact Hs|apply Hg].
    + simpl. apply last_snoc.
  - split.
    + split; [by apply abs_step_le|]. simpl. by apply prefix_app_r.
    + done.
    + done.
    + intros id _ Hl. unfold lost, g_store in *. simpl in *. unfold rw_store in *. simpl. lia.
    + intros id Hin Hh. exact (exec_beside _ id c Hin Hout r (ri_ok _ Hg) Hh Hgen).
Qed.

(** There is one client; any other would keep out of its way. *)
Definition bystander : Role rebuild_le :=
  mkRole rebuild_le rebuild_rely _ (λ _ _ H, H) ry_le.

(** A run over the fence, with everything that goes on outside. *)
Lemma rebuild_pool {E : Type → Type} `{!Handles E RWorld} {T : Type} stops (p : Tree E T)
    (Q : T → RGhost → Prop) a w w' p' :
  (∀ x g g', rebuild_rely g g' → Q x g → Q x g') →
  rebuild_inv (a, w) → assures rebuild_inv (rebuilder stops) p Q (a, w) →
  rtc (pool_step outside) (w, [p]) (w', [p']) →
  (p' = Panic ∨ p' = OutOfFuel → stops) ∧ ∃ a', rebuild_inv (a', w') ∧ rebuild_le (a, w) (a', w') ∧
    ∀ x, p' = Ret x → Q x (a', w').
Proof.
  intros HQ Hg Hp Hrtc.
  destruct (assures_pool snd rebuild_inv (λ _, logged)
    (λ i, match i with O => rebuilder stops | S _ => bystander end) outside
    (λ i, match i with O => Q | S _ => λ _ _, True end))
    with (g := (a, w)) (ps := [p]) (w' := w') (ps' := [p'])
    as ([a' w''] & Heq & Hi' & Hle & Hends); [| | | |done| |done|].
  - intros _ [a1 w1] B q b w2 _ Hq. exists (a1, w2). by split.
  - intros [a1 w1] w2 Hi1 Hs. destruct (outside_rely a1 w1 w2 Hi1 Hs) as (a2 & Hi2 & Hr).
    exists (a2, w2). split; [done|]. split; [done|]. split; [apply Hr|]. intros [|i]; [exact Hr|apply Hr].
  - intros [|i] [|j] g g' Hij _ _ Hm; [done|exact Hm|exact Hm|]. by apply ry_le.
  - intros i x g g' _ _ Hr Hq. destruct i; [by apply (HQ x g)|done].
  - intros [|i] q; [|done]. by intros [= <-].
  - simpl in Heq. subst w''. specialize (Hends 0%nat p' eq_refl).
    split; [by intros [->| ->]|]. exists a'. split; [done|]. split; [done|].
    intros x ->. by destruct Hends.
Qed.
End outside.

(** ** Schedules *)

(** The driver's next call, answered with the clocks at [o]. *)
Definition fence_turn {B : Type} (o : Clocks) (x : RWorld * Tree FenceCall B)
  : RWorld * Tree FenceCall B :=
  match x.2 with
  | Ask q k => let y := fence_answer o q x.1 in (y.1, k y.2)
  | _ => x
  end.

Lemma fence_turns_steps `{SerdeJson} {B : Type} o n (x : RWorld * Tree FenceCall B) :
  rtc (pool_step outside) (x.1, [x.2])
    ((Nat.iter n (fence_turn o) x).1, [(Nat.iter n (fence_turn o) x).2]).
Proof.
  induction n as [|n IH]; [reflexivity|]. etransitivity; [exact IH|]. simpl.
  destruct (Nat.iter n (fence_turn o) x) as [w p]. unfold fence_turn. cbn [fst snd].
  destruct p as [b|C q k| |]; try reflexivity. apply rtc_once.
  apply (pool_call outside w [Ask q k] 0 _ q k (fence_answer o q w).2 (fence_answer o q w).1); [done|].
  exists o. by destruct (fence_answer o q w).
Qed.

Definition fresh_world : RWorld := mkRWorld mem_new [] [] [mr_store mem_new].

Lemma fresh_world_inv : rebuild_inv (abs_initial, fresh_world).
Proof.
  split; [apply refines_initial|apply mem_new_ok| |done]. intros id.
  change (numbered 1 (default [] ((∅ : gmap EntityId (list SerializedEvent)) !! id))).
  by rewrite lookup_empty.
Qed.
