(* ===== verification/JournalRebuild.v ===== *)
(** * Rebuilding a journal

    [journal/replay.rs] under the fence of the in-memory repository: a rebuild that succeeds has put
    exactly the replayed rows in place, atomically. *)

From S2P Require Import Prelude Types Features Outcome Rebuild Wire Projection Repository.
From S2P Require Import RebuildBatch Mem MemInvariant MemRefinement MemRead MemSafety MemFence.
From S2P Require Import Retry Program LogBackend MemBackend RebuildDriver RebuildAtomic.
From S2P Require Import JournalScope Compaction JournalConfig JournalRead JournalRepository JournalStage.
From S2P Require Import JournalInvariant RebuildDriver Samples JournalSamples JournalReplayOk.

(** ** What the operations of a replay write *)

Definition key_of (row : ViewRow) : string * string := (vr_pk row, vr_sk row).

(** The rows of a list put over others. *)
Definition put_rows (rows : gmap (string * string) ViewRow) (l : list ViewRow)
  : gmap (string * string) ViewRow :=
  fold_left (λ rows row, <[key_of row := row]> rows) l rows.

Lemma put_rows_lookup l : ∀ rows,
  NoDup (map key_of l) →
  (∀ row, row ∈ l → put_rows rows l !! key_of row = Some row) ∧
  (∀ key, key ∉ map key_of l → put_rows rows l !! key = rows !! key).
Proof.
  unfold put_rows. induction l as [|row l IH]; intros rows Hnd; simpl.
  { split; [|done]. intros row Hin. by apply not_elem_of_nil in Hin. }
  apply NoDup_cons in Hnd as [Hn Hnd]. destruct (IH (<[key_of row := row]> rows) Hnd) as [H1 H2]. split.
  - intros row' [->|Hin]%elem_of_cons; [|by apply H1]. rewrite H2 by done. apply lookup_insert_eq.
  - intros key [Hne Hk]%not_elem_of_cons. rewrite H2 by done. by apply lookup_insert_ne.
Qed.

Section operations.
Context `{JournalJson}.

Lemma apply_put index row rows :
  vr_ttl row = 0 →
  apply_view rows (pv_op (mkProjectedView PROJECTOR_NAME 0 index
    (view_put (vr_pk row) (vr_sk row) (vr_entity_id row) (vr_entity_type row) (vr_payload row))))
  = <[key_of row := row]> rows.
Proof. intros Ht. unfold apply_view. simpl. f_equal. destruct row. simpl in *. by rewrite Ht. Qed.

Lemma apply_puts (index : nat → Z) l : ∀ rows,
  Forall (λ row, vr_ttl row = 0) l →
  apply_views rows (imap (λ i row, mkProjectedView PROJECTOR_NAME 0 (index i)
    (view_put (vr_pk row) (vr_sk row) (vr_entity_id row) (vr_entity_type row) (vr_payload row))) l)
  = put_rows rows l.
Proof.
  revert index. induction l as [|row l IH]; intros index rows Ht; [done|].
  apply Forall_cons in Ht as [Hrow Ht]. rewrite imap_cons.
  unfold apply_views, put_rows. cbn [fold_left]. rewrite (apply_put _ _ _ Hrow).
  exact (IH (λ i, index (S i)) _ Ht).
Qed.

Lemma apply_operations state rows :
  Forall (λ row, vr_ttl row = 0) (journal_views state) →
  apply_views rows (journal_operations state) = put_rows rows (journal_views state).
Proof. apply apply_puts. Qed.

(** ** The rows of a replay *)

(** Each row is at the key of its position, and each counter at its scope's. *)
Definition placed (state : JournalState) : Prop :=
  ∀ scope p row, js_rows state !! (scope, p) = Some row →
    key_of row = (row_pk scope, row_sk p) ∧ vr_ttl row = 0.

Lemma row_view_placed scope p e row :
  row_view scope p e = Ok row → key_of row = (row_pk scope, row_sk p) ∧ vr_ttl row = 0.
Proof. unfold row_view. destruct (encode_row _ _ _); [|done]. simpl. by intros [= <-]. Qed.

Lemma replay_allocation_placed event r a r' :
  placed (rp_state r) → replay_allocation event r a = Ok r' → placed (rp_state r').
Proof.
  intros Hp. unfold replay_allocation. destruct (allocation_scope a) as [scope|]; [|done]. cbn [result_bind].
  destruct (rp_claimed r !! _); [destruct (same_event _ _); [by intros [= <-]|done]|].
  destruct (row_view _ _ _) as [row|] eqn:Hv; [|done]. cbn [result_bind]. intros [= <-].
  intros s p v. cbn [rp_state js_rows]. rewrite lookup_insert_Some.
  intros [[[= <- <-] <-]|[_ Hl]]; [by eapply row_view_placed|by apply Hp].
Qed.

Lemma fold_result_keeps {A S F} (P : S → Prop) (f : S → A → result S F) l : ∀ s s',
  (∀ s x s', x ∈ l → P s → f s x = Ok s' → P s') → P s → fold_result f s l = Ok s' → P s'.
Proof.
  induction l as [|x l IH]; intros s s' Hf Hs; simpl; [by intros [= <-]|].
  destruct (f s x) as [s1|] eqn:Hx; [|done]. simpl. apply IH; [|eapply Hf, Hx; [apply list_elem_of_here|done]].
  intros s2 y s3 Hy. apply Hf. by apply list_elem_of_further.
Qed.

Lemma journal_replay_placed events state : journal_replay events = Ok state → placed state.
Proof.
  unfold journal_replay. destruct (fold_result _ _ events) as [r|] eqn:Hr; [|done]. intros [= <-].
  refine (fold_result_keeps (λ r, placed (rp_state r)) _ _ _ _ _ _ Hr).
  - intros r1 e r2 _ Hp. unfold replay_event. destruct (allocations _) as [l|]; [|done]. cbn [result_bind].
    intros Hf. refine (fold_result_keeps (λ r, placed (rp_state r)) _ _ _ _ _ Hp Hf).
    intros r3 a r4 _. apply replay_allocation_placed.
  - intros scope p row Hl. cbn [rp_state JournalState_default js_rows] in Hl. by rewrite lookup_empty in Hl.
Qed.

(** Positions are [u64]. *)
Definition positions_fit (events : list SerializedEvent) : Prop :=
  ∀ e a, e ∈ events → a ∈ allocations_of e → 0 ≤ al_position a ≤ u64_max.

Definition rows_fit (state : JournalState) : Prop :=
  ∀ scope p row, js_rows state !! (scope, p) = Some row → 0 ≤ p ≤ u64_max.

Lemma replay_allocation_fit event r a r' :
  0 ≤ al_position a ≤ u64_max →
  rows_fit (rp_state r) → replay_allocation event r a = Ok r' → rows_fit (rp_state r').
Proof.
  intros Ha Hp. unfold replay_allocation. destruct (allocation_scope a) as [scope|]; [|done]. cbn [result_bind].
  destruct (rp_claimed r !! _); [destruct (same_event _ _); [by intros [= <-]|done]|].
  destruct (row_view _ _ _) as [row|] eqn:Hv; [|done]. cbn [result_bind]. intros [= <-].
  intros s p v. cbn [rp_state js_rows]. rewrite lookup_insert_Some.
  intros [[[= <- <-] <-]|[_ Hl]]; [done|by eapply Hp].
Qed.

Lemma journal_replay_fit events state :
  positions_fit events → journal_replay events = Ok state → rows_fit state.
Proof.
  intros Hfit. unfold journal_replay. destruct (fold_result _ _ events) as [r|] eqn:Hr; [|done]. intros [= <-].
  refine (fold_result_keeps (λ r, rows_fit (rp_state r)) _ _ _ _ _ _ Hr).
  - intros r1 e r2 Hin Hp. unfold replay_event. destruct (allocations _) as [l|] eqn:Hl; [|done]. cbn [result_bind].
    intros Hf. refine (fold_result_keeps (λ r, rows_fit (rp_state r)) _ _ _ _ _ Hp Hf).
    intros r3 a r4 Ha. apply replay_allocation_fit. apply (Hfit e a Hin). unfold allocations_of. by rewrite Hl.
  - intros scope p row Hl. cbn [rp_state JournalState_default js_rows] in Hl. by rewrite lookup_empty in Hl.
Qed.

Lemma NoDup_map_inj_on {A B} (f : A → B) l :
  (∀ x y, x ∈ l → y ∈ l → f x = f y → x = y) → NoDup l → NoDup (map f l).
Proof.
  intros Hf Hnd. induction Hnd as [|x l Hx Hnd IH]; simpl; constructor.
  - intros (y & Heq & Hy)%list_elem_of_fmap.
    rewrite (Hf x y) in Hx; [done|apply list_elem_of_here|by apply list_elem_of_further|done].
  - apply IH. intros a b Ha Hb. apply Hf; by apply list_elem_of_further.
Qed.

(** No two rows of a replay are at the same key. *)
Lemma journal_views_keys state :
  placed state → rows_fit state → NoDup (map key_of (journal_views state)).
Proof.
  intros Hp Hr. unfold journal_views. rewrite map_app, !map_map. apply NoDup_app. split; [|split].
  - apply (NoDup_map_inj_on (λ e : (string * Z) * ViewRow, key_of e.2)).
    + intros [[s1 p1] v1] [[s2 p2] v2] H1%elem_of_btree_entries H2%elem_of_btree_entries Heq. simpl in Heq.
      destruct (Hp _ _ _ H1) as [K1 _], (Hp _ _ _ H2) as [K2 _]. rewrite K1, K2 in Heq.
      apply pair_equal_spec in Heq as [Hs Hk]. apply row_pk_inj in Hs as <-.
      apply row_sk_inj in Hk as <-; [congruence|by eapply Hr|by eapply Hr].
    + apply (NoDup_fmap_1 fst), btree_entries_NoDup.
  - intros key. rewrite !list_elem_of_fmap.
    intros ([[s p] v] & -> & He%elem_of_btree_entries) ([s2 c] & Heq & _). simpl in Heq.
    destruct (Hp _ _ _ He) as [K _]. rewrite K in Heq. apply (f_equal fst) in Heq. simpl in Heq.
    by apply row_counter_pk in Heq.
  - apply (NoDup_map_inj_on (λ e : string * Z, key_of (counter_view e.1 e.2))).
    + intros [s1 c1] [s2 c2] H1%elem_of_btree_entries H2%elem_of_btree_entries Heq%(f_equal fst).
      simpl in Heq. apply counter_pk_inj in Heq as <-. congruence.
    + apply (NoDup_fmap_1 fst), btree_entries_NoDup.
Qed.

Lemma journal_views_ttl state : placed state → Forall (λ row, vr_ttl row = 0) (journal_views state).
Proof.
  intros Hp. apply Forall_forall. intros row. unfold journal_views. rewrite elem_of_app, !list_elem_of_fmap.
  intros [([[s p] v] & -> & He%elem_of_btree_entries)|([s c] & -> & _)]; [by destruct (Hp _ _ _ He)|done].
Qed.
End operations.

(** ** A rebuild under the lock *)

Section rebuild.
Context `{JournalJson} `{SerdeJson}.

(** The rows with those of [state] put over them: each of them is at its key, and every other row
    is as it was. *)
Definition replayed_over (state : JournalState) (rows rows' : gmap (string * string) ViewRow) : Prop :=
  (∀ row, row ∈ journal_views state → rows' !! key_of row = Some row) ∧
  ∀ key, key ∉ map key_of (journal_views state) → rows' !! key = rows !! key.

Definition replayed (events : list SerializedEvent) (state : JournalState)
    (rows rows' : gmap (string * string) ViewRow) : Prop :=
  journal_replay events = Ok state ∧ replayed_over state rows rows'.

Lemma write_operations_runs r state s0 before (g : RGhost) :
  placed state → rebuild_inv g → holding before (lease_id (rn_lease r)) s0 (ms_views s0) g →
  rn_attempted r = 0 →
  assures (E := FenceCall) rebuild_inv (rebuilder False) (write_operations r (journal_operations state))
    (λ x g', lease_id (rn_lease x.1) = lease_id (rn_lease r) ∧
       match x.2 with
       | Ok _ => holding before (lease_id (rn_lease r)) s0 (put_rows (ms_views s0) (journal_views state)) g'
       | Err failure => ∃ rows, holding before (lease_id (rn_lease r)) s0 rows g' ∧
           (rf_attempted failure = 0 → rows = ms_views s0)
       end) g.
Proof.
  intros Hp Hg Hh Ha. unfold write_operations. cbv zeta. step_bind.
  eapply assures_mono; [|by apply write_batches_runs].
  intros [r1 [[]|e]] g1 Hg1 _ (Hl & Hle & Hrows); cbn [fst snd] in *; returns; (split; [done|]).
  - destruct (rebuild_batches_from_spec (length (journal_operations state)) (journal_operations state) (le_n _))
      as [Hcat _].
    unfold rebuild_batches in Hrows. rewrite Hcat, apply_operations in Hrows by (by apply journal_views_ttl).
    exact Hrows.
  - destruct Hrows as (rows & Hrows & Hsame). exists rows. split; [done|]. cbn [rf_attempted]. intros Hzero.
    apply Hsame. lia.
Qed.

Lemma journal_rebuild_with_lock_runs events lease (g : RGhost) :
  rebuild_inv g → positions_fit events →
  assures rebuild_inv (rebuilder False) (journal_rebuild_with_lock events lease)
    (finished (rw_ended g.2) (replayed events)) g.
Proof.
  intros Hg Hfit. unfold journal_rebuild_with_lock.
  destruct (journal_replay events) as [state|e] eqn:Hr; [|returns; by apply finished_unended].
  pose proof (journal_replay_placed _ _ Hr) as Hp.
  apply take_runs; [done|done|]. intros h s0 g1 Hg1 Hh. step_bind.
  eapply assures_mono; [|by apply (write_operations_runs _ state s0 (rw_ended g.2))].
  intros [r1 [[]|f]] g2 Hg2 _ (Hl & Hw); cbn [fst snd] in *; cbn [renewing_new rn_lease] in Hl, Hw;
    cbn [result_bind].
  - apply (finish_runs _ _ s0); [done|apply Hw|]. cbn [hl_lease]. rewrite Hl. destruct Hw as [Hw _].
    eexists. split; [exact Hw|]. split; [done|].
    apply put_rows_lookup, journal_views_keys; [done|by eapply journal_replay_fit].
  - destruct Hw as (rows & [Ho He] & Hsame). apply (finish_runs _ _ s0); [done|done|].
    cbn [hl_lease]. rewrite Hl. intros Hzero. by rewrite <-(Hsame Hzero).
Qed.

End rebuild.

(** ** An example *)

Section witness.
#[local] Existing Instance sample_json.
#[local] Existing Instance sample_journal_json.

Definition rebuilt_events : list SerializedEvent := [placed_event 1; placed_event 2].

(** Two calls take the lock, another client's commit is refused, and the rebuild goes on. *)
Definition taken_lock : RWorld * Tree FenceCall (Result JournalState) :=
  Nat.iter 2 (fence_turn (mkClocks 100 0))
    (fresh_world, journal_rebuild_with_lock rebuilt_events (mkDuration 60 0)).

Definition refused_commit : mem_call := CCommit (commit_new "t" [placed_event 1]).

Definition beside_world : RWorld :=
  moved taken_lock.1 (with_store (rw_repository taken_lock.1)
    (mr_store (exec refused_commit (repository_of (rw_store taken_lock.1) (handle_of mem_new))).1)).

Definition rebuilt : RWorld * Tree FenceCall (Result JournalState) :=
  Nat.iter 10 (fence_turn (mkClocks 100 0)) (beside_world, taken_lock.2).

Lemma rebuilt_steps :
  rtc (pool_step outside) (fresh_world, [journal_rebuild_with_lock rebuilt_events (mkDuration 60 0)])
    (rebuilt.1, [rebuilt.2]).
Proof.
  etransitivity;
    [apply (fence_turns_steps (mkClocks 100 0) 2
       (fresh_world, journal_rebuild_with_lock rebuilt_events (mkDuration 60 0)))|].
  etransitivity; [|apply (fence_turns_steps (mkClocks 100 0) 10 (beside_world, taken_lock.2))].
  apply rtc_once, pool_env. exists (handle_of mem_new), refused_commit. split; [exact I|].
  split; [vm_compute; discriminate|reflexivity].
Qed.

Lemma rebuilt_fit : positions_fit rebuilt_events.
Proof.
  intros e a He Ha. unfold rebuilt_events in He. rewrite !elem_of_cons in He.
  destruct He as [->|[->|He]]; [| |by apply not_elem_of_nil in He].
  + assert (allocations_of (placed_event 1) = [mkAllocation "team" 1]) as Heq by (vm_compute; reflexivity).
    rewrite Heq in Ha. apply list_elem_of_singleton in Ha as ->. by vm_compute.
  + assert (allocations_of (placed_event 2) = [mkAllocation "team" 2]) as Heq by (vm_compute; reflexivity).
    rewrite Heq in Ha. apply list_elem_of_singleton in Ha as ->. by vm_compute.
Qed.

End witness.
