(* ===== verification/ProjectionAtomic.v ===== *)
(** * A projection rebuild is atomic

    A run of [ProjectionRebuild], with whatever the reads it makes answer and whatever other clients
    do meanwhile: nothing is written before every operation is computed and checked, and the lock is
    given back only over untouched rows or over the rows the whole plan leaves. *)

From S2P Require Import Prelude Types Features Outcome Rebuild Wire Projection Grouping Repository.
From S2P Require Import RebuildBatch Mem MemInvariant MemRefinement MemRead MemSafety MemFence.
From S2P Require Import Retry Program Settle Store LogBackend MemBackend Views Enumerate RebuildDriver RebuildAtomic.
From S2P Require Import Samples StoreSamples EnumerateMem.
From S2P Require Import RebuildAtomic JournalScope Compaction JournalConfig RebuildDriver ProjectionRebuild.

(** ** The calls a program makes *)

Fixpoint makes {E : Type → Type} {A} (ok : ∀ B, E B → bool) (p : Tree E A) : Prop :=
  match p with
  | Ask q k => ok _ q = true ∧ ∀ b, makes ok (k b)
  | _ => True
  end.

Lemma makes_bind {E : Type → Type} {A B} (ok : ∀ B, E B → bool) (p : Tree E A) (f : A → Tree E B) :
  makes ok p → (∀ a, makes ok (f a)) → makes ok (bind p f).
Proof.
  intros Hp Hf. induction p as [a|C q k IH| |]; simpl in *; [apply Hf| |done|done].
  destruct Hp as [Hq Hk]. split; [done|]. intros b. by apply IH.
Qed.

Lemma makes_try {E : Type → Type} {A B F} (ok : ∀ B, E B → bool) (p : Tree E (result A F))
    (f : A → Tree E (result B F)) :
  makes ok p → (∀ a, makes ok (f a)) → makes ok (try_bind p f).
Proof. intros Hp Hf. apply makes_bind; [done|]. by intros [a|e]. Qed.

Lemma makes_interpret {E F : Type → Type} {A} (ok : ∀ B, E B → bool) (ok' : ∀ B, F B → bool)
    (h : ∀ B, E B → Tree F B) (p : Tree E A) :
  (∀ B q, ok B q = true → makes ok' (h B q)) → makes ok p → makes ok' (interpret h p).
Proof.
  intros Hh. induction p as [a|C q k IH| |]; simpl; [done| |done|done]. intros [Hq Hk].
  apply makes_bind; [by apply Hh|]. intros b. by apply IH.
Qed.

(** ** Reads *)

Section atomic.
Context `{SerdeJson} `{JournalJson} {C : Type} (stream_all_events : StreamFilter → C).

(** The calls of the library that only read. *)
Definition repository_read {B} (q : Call Empty_set B) : bool :=
  match q with QSnapshot _ | QEvents _ | QEventsAfter _ _ => true | _ => false end.
Definition heads_read {B} (q : HeadsCall Empty_set B) : bool :=
  match q with HRepository q => repository_read q | HEntityHeads _ => true end.
Definition views_read {B} (q : ViewCall B) : bool :=
  match q with VPut _ | VDelete _ _ => false | _ => true end.
Definition rebuild_read {B} (q : RebuildCall C B) : bool :=
  match q with
  | PFence _ => false
  | PHeads q => heads_read q
  | PViews q => views_read q
  | PLatest _ _ | PNextBatch _ | PObserve _ => true
  end.

(** The fence answers as the in-memory repository's does, a read may answer anything, and what a
    call that is not a read would do to the world is left open. *)
#[export] Instance any_reads : Handles (RebuildCall C) RWorld := λ B q w b w',
  match q in RebuildCall _ B return B → Prop with
  | PFence q => λ b, ∃ o, fence_answer o q w = (w', b)
  | q => λ _, rebuild_read q = true → w' = moved w (rw_repository w)
  end b.

#[export] Instance rebuild_fence_laws : FenceLaws (RebuildCall C).
Proof. by intros B q g b g'. Qed.

Abbreviation runs p Q g := (assures (E := RebuildCall C) rebuild_inv (rebuilder True) p Q g).
Abbreviation reads p := (makes (λ B q, rebuild_read q) p).
Implicit Types g : RGhost.

Lemma read_runs {B} (q : RebuildCall C B) (Q : B → RGhost → Prop) before id s0 rows g :
  rebuild_read q = true → rebuild_inv g → holding before id s0 rows g →
  (∀ b g', rebuild_inv g' → holding before id s0 rows g' → Q b g') →
  runs (call q) Q g.
Proof.
  intros Hq Hg [Ho He] HQ. apply assures_call; [apply _|done|]. intros g1 b g2 Hg1 Hr [Ha Hp].
  assert (g2 = (g1.1, moved g1.2 (rw_repository g1.2))) as ->.
  { destruct g2 as [a2 w2]. simpl in *. subst a2. f_equal. by destruct q; [| |apply Hp..]; try apply Hp. }
  assert (rebuild_inv (g1.1, moved g1.2 (rw_repository g1.2))) as Hi
    by (by apply (silent_inv (pure_op (Ok tt)) g1); [| |apply (ri_ok _ Hg1)|..]).
  split; [done|]. split; [split; [reflexivity|by apply prefix_app_r]|]. apply HQ; [done|]. split.
  - apply (owned_same _ _ _ g1); [done|by apply prefix_app_r|done|]. by eapply owned_later.
  - simpl. by rewrite (ry_ended _ _ Hr).
Qed.

Lemma reads_run {B} (p : Tree (RebuildCall C) B) before id s0 rows g :
  reads p → rebuild_inv g → holding before id s0 rows g →
  runs p (λ _ g', holding before id s0 rows g') g.
Proof.
  revert g. induction p as [b|B' q k IH| |]; intros g Hp Hg Hh; [by returns| |exact I|exact I].
  destruct Hp as [Hq Hk]. change (runs (bind (call q) k) (λ _ g', holding before id s0 rows g') g).
  step_bind. apply (read_runs _ _ before id s0 rows); [done|done|done|]. intros b g1 Hg1 Hh1. by apply IH.
Qed.

(** ** Computations that write nothing *)

(** The output holds the lease, and no write has been attempted under it. *)
Definition leased (id : string * Z) (o : Output) : Prop :=
  ∃ fence, ou_fence o = Some fence ∧ lease_id (rn_lease fence) = id ∧ rn_attempted fence = 0.

(** What is known of the output whatever its lease. *)
Definition lease_blind (P : Output → Prop) : Prop := ∀ o fence, P o → P (set_fence o fence).

(** From an output with [P], [m] leaves one with [Q] if it succeeds; the rows stay as they are and
    no write is attempted, whether it succeeds or not. *)
Definition plans {A} (P : Output → Prop) (m : Outputs C A) (Q : A → Output → Prop) : Prop :=
  ∀ before id s0 rows o g, rebuild_inv g → leased id o → P o → holding before id s0 rows g →
  runs (m o) (λ x g', leased id x.1 ∧ holding before id s0 rows g' ∧
    match x.2 with Ok a => Q a x.1 | Err _ => True end) g.

Abbreviation keeps P m := (plans P m (λ _, P)).

Lemma plans_result {A} (P : Output → Prop) (r : Result A) (Q : A → Output → Prop) :
  (∀ a o, r = Ok a → P o → Q a o) → plans P (out_result r) Q.
Proof.
  intros HQ before id s0 rows o g Hg Hl HP Hh. apply assures_ret; [apply _|done|]. split; [done|].
  split; [done|]. cbn [snd]. destruct r as [a|e]; [by apply HQ|done].
Qed.

Lemma plans_ret {A} (P : Output → Prop) (a : A) (Q : A → Output → Prop) :
  (∀ o, P o → Q a o) → plans P (out_ret a) Q.
Proof. intros HQ. apply (plans_result P (Ok a)). intros a' o [= <-]. apply HQ. Qed.

Lemma plans_fail {A} (P : Output → Prop) error (Q : A → Output → Prop) : plans P (out_fail error) Q.
Proof. apply (plans_result P (Err error)). intros a o [=]. Qed.

Lemma plans_bind {A B} (P : Output → Prop) (m : Outputs C A) (f : A → Outputs C B)
    (R : A → Output → Prop) (Q : B → Output → Prop) :
  plans P m R → (∀ a, plans (R a) (f a) Q) → plans P (out_bind m f) Q.
Proof.
  intros Hm Hf before id s0 rows o g Hg Hl HP Hh. unfold out_bind. step_bind.
  eapply assures_mono; [|by apply (Hm before id s0 rows)].
  intros [o1 [a|e]] g1 Hg1 _ (Hl1 & Hh1 & HR); cbn [fst snd] in *; [by apply (Hf a before id s0 rows)|].
  by apply assures_ret; [apply _|done|].
Qed.

Lemma plans_mono {A} (P P' : Output → Prop) (m : Outputs C A) (Q Q' : A → Output → Prop) :
  (∀ o, P' o → P o) → (∀ a o, Q a o → Q' a o) → plans P m Q → plans P' m Q'.
Proof.
  intros HP HQ Hm before id s0 rows o g Hg Hl Ho Hh.
  eapply assures_mono; [|by apply (Hm before id s0 rows); [done|done|apply HP|done]].
  intros [o1 [a|e]] g1 _ _ (Hl1 & Hh1 & HR); cbn [fst snd] in *; (split; [done|split; [done|]]); auto.
Qed.

Lemma plans_modify (P : Output → Prop) f (Q : unit → Output → Prop) :
  (∀ o, ou_fence (f o) = ou_fence o) → (∀ o, P o → Q tt (f o)) → plans P (out_modify f) Q.
Proof.
  intros Hf HQ before id s0 rows o g Hg (r & Hr & Hl) HP Hh. apply assures_ret; [apply _|done|].
  split; [exists r; cbn [fst]; by rewrite Hf|]. split; [done|]. by apply HQ.
Qed.

Lemma plans_report (P : Output → Prop) f (Q : unit → Output → Prop) :
  (∀ o, P o → Q tt (set_report o (f (ou_report o)))) → plans P (out_report f) Q.
Proof. intros HQ. by apply plans_modify. Qed.

Lemma plans_try {A} (P : Output → Prop) (p : Tree (RebuildCall C) (Result A)) :
  reads p → keeps P (out_try p).
Proof.
  intros Hp before id s0 rows o g Hg Hl HP Hh. unfold out_try. step_bind.
  eapply assures_mono; [|by apply (reads_run p before id s0 rows)]. intros r g1 Hg1 _ Hh1.
  apply assures_ret; [apply _|done|]. split; [done|]. split; [done|]. cbn [snd]. by destruct r.
Qed.

Lemma plans_call {A} (P : Output → Prop) (p : Tree (RebuildCall C) A) : reads p → keeps P (out_call p).
Proof.
  intros Hp before id s0 rows o g Hg Hl HP Hh. unfold out_call. step_bind.
  eapply assures_mono; [|by apply (reads_run p before id s0 rows)]. intros r g1 Hg1 _ Hh1.
  by apply assures_ret; [apply _|done|].
Qed.

Lemma plans_each {A} (P : Output → Prop) (f : A → Outputs C unit) l :
  (∀ x, x ∈ l → keeps P (f x)) → keeps P (out_each f l).
Proof.
  induction l as [|x l IH]; intros Hf; cbn [out_each]; [by apply plans_ret|].
  apply (plans_bind P _ _ (λ _, P)); [apply Hf, list_elem_of_here|]. intros _. apply IH.
  intros y Hy. apply Hf. by apply list_elem_of_further.
Qed.

Lemma plans_keep_alive (P : Output → Prop) : lease_blind P → keeps P output_keep_alive.
Proof.
  intros HP before id s0 rows o g Hg (fence & Hf & Hl & Ha) Ho Hh. unfold output_keep_alive. rewrite Hf.
  step_bind. rewrite <-Hl in Hh. eapply assures_mono; [|by apply (keep_alive_runs fence s0 rows before)].
  intros [fence' r] g1 Hg1 _ (Ha1 & Hl1 & Hh1). cbn [fst snd] in *. apply assures_ret; [apply _|done|].
  cbn [fst snd]. split; [exists fence'; split; [done|]; split; [congruence|lia]|]. rewrite <-Hl.
  split; [done|]. destruct r; [by apply HP|done].
Qed.

Lemma plans_stuck {A} (P : Output → Prop) (Q : A → Output → Prop) :
  plans P (λ _, OutOfFuel) Q ∧ plans P (λ _, Panic) Q.
Proof. split; intros before id s0 rows o g Hg Hl HP Hh; exact I. Qed.

(** ** The reads of a rebuild *)

Lemma repository_reads {A : Aggregate} id : makes (λ B q, repository_read q) (load_aggregate (A := A) id).
Proof.
  assert (makes (λ B q, repository_read q) (load_once (A := A) (Op := Empty_set) id)) as Honce.
  { unfold load_once. apply makes_try; [by split|]. intros snapshot.
    destruct (loaded_from id snapshot) as [loaded|]; [|done]. apply makes_try; [by destruct snapshot; split|].
    done. }
  assert (∀ n, makes (λ B q, repository_read q) (load_attempts (A := A) (Op := Empty_set) n id)) as Hattempts.
  { induction n as [|n IH]; cbn [load_attempts]; (apply makes_bind; [done|]); intros [x|e]; try done.
    by destruct (is_conflict e). }
  unfold load_aggregate, load_with_catch_up. apply makes_try; [apply Hattempts|]. by intros [loaded n].
Qed.

Lemma seeded_reads {A : Aggregate} state : makes (λ B q, heads_read q) (next_seeded (A := A) state).
Proof.
  assert (∀ ids, makes (λ B q, heads_read q) (next_loaded (A := A) (Op := Empty_set) state ids)) as Hids.
  { intros [|id ids]; [done|]. unfold next_loaded. apply makes_bind; [|done]. unfold of_repository.
    eapply makes_interpret, repository_reads. intros B q Hq. by split. }
  unfold next_seeded. destruct (se_ids state) as [ids|]; [apply Hids|]. apply makes_bind; [by split|].
  intros [heads|e]; [apply Hids|done].
Qed.

Lemma final_state_reads A state : reads (next_final_state (C := C) A state).
Proof.
  unfold next_final_state. apply makes_bind; [|done]. unfold of_heads.
  eapply makes_interpret, seeded_reads. intros B q Hq. by split.
Qed.

Lemma batches_reads {S : Type} fuel (take : S → list SerializedEvent → S) : ∀ events state,
  reads (collect_batches fuel take events state).
Proof.
  induction fuel as [|fuel IH]; intros events state; cbn [collect_batches]; [done|].
  apply makes_bind; [by split|]. intros [[[batch|e] state']|]; [apply IH|done|done].
Qed.

Lemma history_reads fuel entity_type : reads (whole_history stream_all_events fuel entity_type).
Proof.
  unfold whole_history. apply makes_try; [by split|]. intros heads.
  apply makes_try; [apply batches_reads|]. generalize (btree_entries string_leb heads) as l.
  induction l as [|[id head] l IH]; intros streams; cbn [check_heads]; [done|].
  destruct (missing_through _ _ _) as [[through|]|]; [|apply IH|done].
  apply makes_try; [by split|done].
Qed.

Lemma exists_reads id : reads (stream_exists (C := C) id).
Proof.
  unfold stream_exists. apply makes_try; [by split|]. intros latest. destruct (negb _); [done|].
  apply makes_try; [by split|done].
Qed.

Lemma batch_get_reads pks sk : reads (batch_get_views_at (E := RebuildCall C) pks sk).
Proof.
  unfold batch_get_views_at. destruct (result_bind _ _) as [sk'|]; [|done].
  generalize (∅ : gset string) as seen, ([] : list ViewRow) as views.
  induction pks as [|pk pks IH]; intros seen views; cbn [get_each]; [done|].
  destruct (_ || _); [apply IH|]. apply makes_try; [by split|]. intros found. apply IH.
Qed.

(** ** Plans *)

(** How many of the operations are of a kind. *)
Definition kind_count (kind : ViewOperationKind) (l : list ProjectedView) : Z :=
  llen (List.filter (λ item, bool_decide (vo_kind (pv_op item) = kind)) l).

Lemma kind_count_app kind l k : kind_count kind (l ++ k) = kind_count kind l + kind_count kind k.
Proof. unfold kind_count. rewrite List.filter_app. unfold llen. rewrite length_app. lia. Qed.

(** A plan under way: its operations have distinct keys, and the report counts them. *)
Record counted (o : Output) : Prop := {
  ct_keys : ∀ key, is_Some (ou_keys o !! key) ↔ key ∈ view_keys (ou_planned o);
  ct_distinct : NoDup (view_keys (ou_planned o));
  ct_puts : rr_puts (ou_report o) = kind_count Put (ou_planned o);
  ct_deletes : rr_deletes (ou_report o) = kind_count Delete (ou_planned o);
  ct_batches : rr_batches (ou_report o) = 0
}.

(** A plan that is ready to be written. *)
Record checked (o : Output) : Prop := {
  ck_distinct : NoDup (view_keys (ou_planned o));
  ck_puts : rr_puts (ou_report o) = kind_count Put (ou_planned o);
  ck_deletes : rr_deletes (ou_report o) = kind_count Delete (ou_planned o);
  ck_batches : rr_batches (ou_report o) = 0
}.

(** A comparison under way: the changes by type add up to the operations. *)
Definition total (f : RowChanges → Z) (changes : gmap string RowChanges) : Z :=
  sumZ (map f (map snd (map_to_list changes))).

Record compared (o : Output) : Prop := {
  cp_puts : total rc_puts (rr_changes (ou_report o)) = kind_count Put (ou_planned o);
  cp_deletes : total rc_deletes (rr_changes (ou_report o)) = kind_count Delete (ou_planned o);
  cp_batches : rr_batches (ou_report o) = 0
}.

Lemma counted_blind : lease_blind counted.
Proof. by intros o fence []. Qed.
Lemma compared_blind : lease_blind compared.
Proof. by intros o fence []. Qed.

(** A change of the report that leaves its counts of operations alone. *)
Lemma counted_report f :
  (∀ r, rr_puts (f r) = rr_puts r ∧ rr_deletes (f r) = rr_deletes r ∧ rr_batches (f r) = rr_batches r) →
  keeps counted (out_report f).
Proof.
  intros Hf. apply plans_report. intros o [Hk Hd Hp Hdel Hb]. destruct (Hf (ou_report o)) as (E1 & E2 & E3).
  split; cbn [set_report ou_keys ou_planned ou_report]; congruence || done.
Qed.

Lemma view_keys_snoc l item : view_keys (l ++ [item]) = view_keys l ++ [view_op_key (pv_op item)].
Proof. apply map_app. Qed.

Lemma output_plan_counted o item o' : counted o → output_plan o item = Ok o' → counted o'.
Proof.
  intros [Hk Hd Hp Hdel Hb]. unfold output_plan. destruct (_ || _); [done|].
  destruct (ou_keys o !! _) as [[[? ?] ?]|] eqn:Hl; [done|]. intros [= <-].
  assert (view_op_key (pv_op item) ∉ view_keys (ou_planned o)) as Hfresh.
  { intros Hin. apply Hk in Hin as [? ?]. congruence. }
  split; cbn [ou_keys ou_planned ou_report].
  - intros key. rewrite lookup_insert_is_Some', Hk, view_keys_snoc, elem_of_app, list_elem_of_singleton.
    split; (intros [<-|Hin]; [by right|by left]) || (intros [Hin|Heq]; [by right|left; by rewrite Heq]).
  - rewrite view_keys_snoc. apply NoDup_app. split; [done|]. split; [|apply NoDup_singleton].
    intros key Hin ->%list_elem_of_singleton. done.
  - rewrite kind_count_app, <-Hp. unfold kind_count, llen. simpl. destruct (vo_kind (pv_op item)); simpl; lia.
  - rewrite kind_count_app, <-Hdel. unfold kind_count, llen. simpl. destruct (vo_kind (pv_op item)); simpl; lia.
  - by destruct (vo_kind (pv_op item)).
Qed.

Lemma output_plan_fence o item o' : output_plan o item = Ok o' → ou_fence o' = ou_fence o.
Proof.
  unfold output_plan. destruct (_ || _); [done|].
  destruct (ou_keys o !! _) as [[[? ?] ?]|]; [done|]. by intros [= <-].
Qed.

Lemma plan_item_counted item : keeps counted (plan_item item).
Proof.
  intros before id s0 rows o g Hg Hl HP Hh. apply assures_ret; [apply _|done|].
  destruct (output_plan o item) as [o'|e] eqn:Hp; cbn [fst snd]; [|by split].
  split; [|split; [done|by eapply output_plan_counted]].
  destruct Hl as (r & Hr & Hrest). exists r. by rewrite (output_plan_fence _ _ _ Hp).
Qed.

Lemma keep_alive_counted : keeps counted output_keep_alive.
Proof. apply plans_keep_alive, counted_blind. Qed.

Create HintDb plans.
#[local] Hint Resolve plan_item_counted keep_alive_counted plans_fail : plans.

(** A computation whose parts each keep what is known. *)
Ltac then_keeps := apply (plans_bind _ _ _ (λ _, counted)); [auto with plans|].

Lemma plan_state_counted current entity_type entity_id state :
  keeps counted (plan_state current entity_type entity_id state).
Proof.
  unfold plan_state. apply (plans_bind _ _ _ (λ _, counted)); [by apply plans_result|]. intros items.
  apply (plans_bind _ _ _ (λ _, counted)); [apply plans_each; auto with plans|]. intros [].
  apply (plans_bind _ _ _ (λ _, counted)); [by apply counted_report|]. intros []. auto with plans.
Qed.

Lemma plan_states_counted fuel current diffing scope : ∀ streams state,
  keeps counted (plan_states fuel current diffing scope streams state).
Proof.
  induction fuel as [|fuel IH]; intros streams state; cbn [plan_states]; [apply plans_stuck|].
  apply (plans_bind _ _ _ (λ _, counted)); [apply plans_call, final_state_reads|].
  intros [[[[id encoded]|e] state']|]; [|apply plans_fail|by apply plans_ret].
  apply (plans_bind _ _ _ (λ _, counted)); [apply plan_state_counted|]. intros []. apply IH.
Qed.

Lemma plan_scopes_counted fuel current diffing scopes : ∀ streams,
  keeps counted (plan_scopes fuel current diffing scopes streams).
Proof.
  induction scopes as [|scope scopes IH]; intros streams; cbn [plan_scopes]; [by apply plans_ret|].
  apply (plans_bind _ _ _ (λ _, counted)); [apply plan_states_counted|]. intros streams'. apply IH.
Qed.

Lemma replay_commits_counted r projectors commits : ∀ index folds replay,
  keeps counted (replay_commits r projectors index folds replay commits).
Proof.
  induction commits as [|commit commits IH]; intros index folds replay; cbn [replay_commits];
    [by apply plans_ret|].
  apply (plans_bind _ _ _ (λ _, counted)).
  { destruct (_ =? _); [auto with plans|by apply plans_ret]. }
  intros []. destruct (fold_streams _ _ _) as [[[folds' streams]|e]|]; [|apply plans_fail|apply plans_stuck].
  apply (plans_bind _ _ _ (λ _, counted)); [by apply plans_result|]. intros items.
  apply (plans_bind _ _ _ (λ _, counted)); [by apply plans_result|]. intros replay'. apply IH.
Qed.

Lemma replay_history_counted r projectors events : keeps counted (replay_history r projectors events).
Proof.
  unfold replay_history. apply (plans_bind _ _ _ (λ _, counted)); [by apply plans_result|]. intros commits.
  apply (plans_bind _ _ _ (λ _, counted)); [apply replay_commits_counted|]. intros replay. by apply plans_ret.
Qed.

Lemma read_histories_counted fuel types : ∀ events,
  keeps counted (read_histories stream_all_events fuel types events).
Proof.
  induction types as [|entity_type types IH]; intros events; cbn [read_histories]; [by apply plans_ret|].
  apply (plans_bind _ _ _ (λ _, counted)); [apply plans_try, history_reads|]. intros history.
  then_keeps. intros []. apply IH.
Qed.

Lemma read_journal_types_counted fuel types : ∀ events,
  keeps counted (read_journal_types stream_all_events fuel types events).
Proof.
  induction types as [|entity_type types IH]; intros events; cbn [read_journal_types]; [by apply plans_ret|].
  destruct (events !! entity_type); [apply IH|].
  apply (plans_bind _ _ _ (λ _, counted)); [apply plans_try, batches_reads|]. intros found.
  then_keeps. intros []. apply IH.
Qed.

Lemma plan_journal_counted journal : keeps counted (plan_journal journal).
Proof.
  destruct journal as [state|]; [|by apply plans_ret]. unfold plan_journal.
  apply (plans_bind _ _ _ (λ _, counted)); [by apply counted_report|]. intros [].
  apply plans_each; auto with plans.
Qed.

Lemma plan_replayed_counted replayed : keeps counted (plan_replayed replayed).
Proof.
  destruct replayed as [[replay commits]|]; [|by apply plans_ret]. unfold plan_replayed.
  apply (plans_bind _ _ _ (λ _, counted)); [by apply counted_report|]. intros [].
  apply plans_each; auto with plans.
Qed.

(** ** Comparisons *)

Lemma sumZ_Permutation l k : l ≡ₚ k → sumZ l = sumZ k.
Proof. unfold sumZ. induction 1; simpl; lia. Qed.

Lemma total_insert f changes entity_type c :
  total f (<[entity_type := c]> changes) =
  total f changes + f c - f (default RowChanges_default (changes !! entity_type)) +
  (if bool_decide (changes !! entity_type = None) then f RowChanges_default else 0).
Proof.
  assert (∀ m : gmap string RowChanges, m !! entity_type = None → ∀ c,
    total f (<[entity_type := c]> m) = f c + total f m) as Hins.
  { intros m Hm c'. unfold total.
    rewrite (sumZ_Permutation _ (f c' :: map f (map snd (map_to_list m)))); [done|].
    by rewrite (map_to_list_insert m entity_type c' Hm). }
  destruct (changes !! entity_type) as [old|] eqn:Hold; simpl.
  - rewrite <-(insert_delete_id changes entity_type old Hold) at 2.
    rewrite <-insert_delete_eq, !Hins by apply lookup_delete_eq. lia.
  - rewrite Hins by done. lia.
Qed.

(** The changes by type add up to the operations. *)
Record tallied (d : Diffed) : Prop := {
  ta_puts : total rc_puts (df_changes d) = kind_count Put (df_operations d);
  ta_deletes : total rc_deletes (df_changes d) = kind_count Delete (df_operations d)
}.

Lemma count_put_total changes entity_type :
  total rc_puts (count_put changes entity_type) = total rc_puts changes + 1 ∧
  total rc_deletes (count_put changes entity_type) = total rc_deletes changes.
Proof.
  unfold count_put. rewrite !total_insert.
  destruct (changes !! entity_type) as [[p d]|]; simpl; lia.
Qed.

Lemma count_delete_total changes entity_type :
  total rc_puts (count_delete changes entity_type) = total rc_puts changes ∧
  total rc_deletes (count_delete changes entity_type) = total rc_deletes changes + 1.
Proof.
  unfold count_delete. rewrite !total_insert.
  destruct (changes !! entity_type) as [[p d]|]; simpl; lia.
Qed.

Lemma kind_count_snoc kind l item :
  kind_count kind (l ++ [item]) =
  kind_count kind l + if bool_decide (vo_kind (pv_op item) = kind) then 1 else 0.
Proof. rewrite kind_count_app. unfold kind_count at 2. simpl. by destruct (bool_decide _). Qed.

Lemma diff_planned_tallied owned stored d item d' :
  tallied d → diff_planned owned stored d item = Ok d' → tallied d'.
Proof.
  intros [Hp Hd]. unfold diff_planned. destruct (vo_kind (pv_op item)) eqn:Hk.
  - destruct (match stored !! _ with Some _ => _ | None => _ end); intros [= <-]; [by split|].
    destruct (count_put_total (df_changes d) (vo_entity_type (pv_op item))) as [E1 E2].
    split; cbn [df_changes df_operations]; rewrite kind_count_snoc, Hk; simpl; lia.
  - destruct (stored !! _) as [row|]; [|intros [= <-]; by split]. destruct (negb _); [done|]. intros [= <-].
    destruct (count_delete_total (df_changes d) (vr_entity_type row)) as [E1 E2].
    split; cbn [df_changes df_operations]; rewrite kind_count_snoc, Hk; simpl; lia.
Qed.

Lemma diff_stale_tallied owned streams stored d key : tallied d → tallied (diff_stale owned streams stored d key).
Proof.
  intros [Hp Hd]. unfold diff_stale. destruct (stored !! key) as [row|]; [|done].
  destruct (negb _); [done|]. destruct (negb _); [done|].
  destruct (count_delete_total (df_changes d) (vr_entity_type row)) as [E1 E2].
  split; cbn [df_changes df_operations]; rewrite kind_count_snoc; simpl; lia.
Qed.

Lemma diff_rows_tallied owned streams planned stale stored unchanged d :
  diff_rows owned streams planned stale stored unchanged = Ok d → tallied d.
Proof.
  unfold diff_rows. destruct (fold_result _ _ planned) as [d0|] eqn:Hf; [|done]. cbn [result_bind].
  assert (tallied d0) as Hd0.
  { assert (tallied (mkDiffed unchanged ∅ [] [])) as Hi by done. revert Hf Hi.
    generalize (mkDiffed unchanged ∅ [] []) as d1. induction planned as [|item planned IH]; intros d1; simpl.
    - by intros [= <-].
    - destruct (diff_planned owned stored d1 item) as [d2|] eqn:He; [|done]. intros Hf Hi.
      apply (IH d2 Hf). by eapply diff_planned_tallied. }
  intros [= <-]. clear Hf. revert d0 Hd0. induction stale as [|key stale IH]; intros d0 Hd0; [done|].
  apply IH. by apply diff_stale_tallied.
Qed.

Definition unwritten (o : Output) : Prop := rr_batches (ou_report o) = 0.

Lemma unwritten_keep_alive : keeps unwritten output_keep_alive.
Proof. apply plans_keep_alive. by intros o fence. Qed.
#[local] Hint Resolve unwritten_keep_alive : plans.

Lemma list_owned_unwritten fuel types : ∀ listed, keeps unwritten (list_owned fuel types listed).
Proof.
  assert (∀ entity_type cursor listed, keeps unwritten (list_pages fuel entity_type cursor listed)) as Hpages.
  { intros entity_type. induction fuel as [|fuel IH]; intros cursor listed; cbn [list_pages]; [apply plans_stuck|].
    apply (plans_bind _ _ _ (λ _, unwritten)); [apply plans_try; by split|]. intros page.
    apply (plans_bind _ _ _ (λ _, unwritten)); [auto with plans|]. intros [].
    destruct (vp_next_cursor page); [apply IH|by apply plans_ret]. }
  induction types as [|entity_type types IH]; intros listed; cbn [list_owned]; [by apply plans_ret|].
  apply (plans_bind _ _ _ (λ _, unwritten)); [apply Hpages|]. intros listed'. apply IH.
Qed.

Lemma read_by_key_unwritten keys : keeps unwritten (read_by_key keys).
Proof.
  unfold read_by_key. generalize (btree_entries string_leb (by_sort_key keys)) as groups, (∅ : gmap (string * string) ViewRow) as stored.
  induction groups as [|[sk pks] groups IH]; intros stored; cbn [read_groups]; [by apply plans_ret|].
  apply (plans_bind _ _ _ (λ _, unwritten)); [apply plans_try, batch_get_reads|]. intros rows.
  apply (plans_bind _ _ _ (λ _, unwritten)); [auto with plans|]. intros []. apply IH.
Qed.

Lemma output_diff_compared fuel owned streams :
  plans counted (output_diff fuel owned streams) (λ _, compared).
Proof.
  intros before id s0 rows o g Hg Hl HP Hh. unfold output_diff.
  assert (leased id (set_planned o [])) as Hl' by (by destruct Hl as (r & ? & ?); exists r).
  assert (unwritten (set_planned o [])) as Hu by apply HP. revert Hl' Hu.
  generalize (set_planned o []) as o'. intros o' Hl' Hu.
  match goal with |- runs (?m o') _ g => enough (plans unwritten m (λ _, compared)) as Hm
    by (by apply (Hm before id s0 rows)) end.
  clear Hl Hl' Hu o' HP Hh Hg. destruct (unowned owned (ou_planned o)) as [item|]; [apply plans_fail|].
  apply (plans_bind _ _ _ (λ _, unwritten)); [apply list_owned_unwritten|]. intros listed.
  apply (plans_bind _ _ _ (λ _, unwritten)); [by apply plans_report|]. intros [].
  apply (plans_bind _ _ _ (λ _, unwritten)); [apply read_by_key_unwritten|]. intros stored.
  intros before' id' s0' rows' o' g' Hg' (r & Hr & Hrest) Hu Hh'.
  destruct (diff_rows _ _ _ _ _ _) as [d|e] eqn:Hd; (apply assures_ret; [apply _|done|]); cbn [fst snd];
    (split; [by exists r|]); (split; [done|]); [|done].
  destruct (diff_rows_tallied _ _ _ _ _ _ _ Hd) as [Ep Ed]. by split.
Qed.

Lemma compared_keep_alive : keeps compared output_keep_alive.
Proof. apply plans_keep_alive, compared_blind. Qed.
#[local] Hint Resolve compared_keep_alive : plans.

Lemma sort_unread_compared unread : ∀ exists_ orphans kept,
  keeps compared (sort_unread exists_ orphans kept unread).
Proof.
  induction unread as [|row unread IH]; intros exists_ orphans kept; cbn [sort_unread]; [by apply plans_ret|].
  apply (plans_bind _ _ _ (λ _, compared)).
  - destruct (exists_ !! vr_entity_id row); [by apply plans_ret|].
    destruct (is_empty _); [by apply plans_ret|].
    apply (plans_bind _ _ _ (λ _, compared)); [apply plans_try, exists_reads|]. intros found.
    apply (plans_bind _ _ _ (λ _, compared)); [auto with plans|]. intros []. by apply plans_ret.
  - intros [found exists']. cbn [fst snd]. destruct found; apply IH.
Qed.

Lemma add_orphan_compared o row : compared o → compared (add_orphan o row).
Proof.
  intros [Hp Hd Hb]. destruct (count_delete_total (rr_changes (ou_report o)) (vr_entity_type row)) as [E1 E2].
  split; cbn [add_orphan set_planned set_report ou_report ou_planned set_changes rr_changes rr_batches];
    rewrite ?kind_count_snoc; simpl; [lia|lia|done].
Qed.

Lemma add_orphans_fence orphans : ∀ o, ou_fence (fold_left add_orphan orphans o) = ou_fence o.
Proof. induction orphans as [|row orphans IH]; intros o; [done|]. simpl. by rewrite IH. Qed.

Lemma finish_diff_checked orphans kept : plans compared (finish_diff orphans kept) (λ _, checked).
Proof.
  intros before id s0 rows o g Hg (r & Hr & Hrest) HP Hh. unfold finish_diff.
  assert (compared (fold_left add_orphan orphans o)) as [Hp Hd Hb].
  { clear Hr. revert o HP. induction orphans as [|row orphans IH]; intros o HP; [done|].
    apply IH. by apply add_orphan_compared. }
  pose proof (add_orphans_fence orphans o) as Hfence. cbv zeta.
  destruct (check_views _) as [[]|e] eqn:Hc; (apply assures_ret; [apply _|done|]); cbn [fst snd];
    (split; [exists r; cbn [set_report ou_fence]; by rewrite Hfence|]); (split; [done|]); [|done].
  split; cbn [set_report ou_report ou_planned set_changed rr_puts rr_deletes rr_batches set_kept rr_changes];
    [|exact Hp|exact Hd|exact Hb].
  apply check_views_ok in Hc as [_ Hnd]. exact Hnd.
Qed.

Lemma counted_checked o : counted o → checked o.
Proof. by intros []. Qed.

Lemma compare_checked r fuel streams : plans counted (compare r fuel streams) (λ _, checked).
Proof.
  unfold compare. destruct (pr_diff r) as [owned|]; [|apply plans_ret, counted_checked].
  eapply plans_bind; [apply output_diff_compared|]. intros unread.
  eapply plans_bind; [apply sort_unread_compared|]. intros [orphans kept]. apply finish_diff_checked.
Qed.

Lemma rebuild_checked r fuel : plans counted (rebuild stream_all_events r fuel) (λ _, checked).
Proof.
  unfold rebuild. cbv zeta.
  apply (plans_bind _ _ _ (λ _, counted)); [apply read_histories_counted|]. intros events0.
  apply (plans_bind _ _ _ (λ _, counted)); [apply read_journal_types_counted|]. intros events.
  apply (plans_bind _ _ _ (λ _, counted)); [by apply counted_report|]. intros [].
  apply (plans_bind _ _ _ (λ _, counted)).
  { destruct (pr_journal r); [|by apply plans_ret].
    apply (plans_bind _ _ _ (λ _, counted)); [by apply plans_result|]. intros state. by apply plans_ret. }
  intros journal. apply (plans_bind _ _ _ (λ _, counted)).
  { destruct (nil_b _); [by apply plans_ret|].
    apply (plans_bind _ _ _ (λ _, counted)); [apply replay_history_counted|]. intros replayed. by apply plans_ret. }
  intros replayed. apply (plans_bind _ _ _ (λ _, counted)).
  { destruct (nil_b _); [by apply plans_ret|apply plan_scopes_counted]. }
  intros streams. apply (plans_bind _ _ _ (λ _, counted)); [apply plan_replayed_counted|]. intros [].
  apply (plans_bind _ _ _ (λ _, counted)); [apply plan_journal_counted|]. intros []. apply compare_checked.
Qed.

(** ** Writing *)

(** The output's lease, and how many writes were attempted under it. *)
Definition leased_at (id : string * Z) (n : Z) (o : Output) : Prop :=
  ∃ fence, ou_fence o = Some fence ∧ lease_id (rn_lease fence) = id ∧ rn_attempted fence = n.

Lemma leased_attempted id n o : leased_at id n o → attempted o = n.
Proof. intros (fence & Hf & _ & Ha). unfold attempted. by rewrite Hf. Qed.

Lemma observe_runs progress o before id s0 rows g :
  rebuild_inv g → holding before id s0 rows g →
  runs (observe progress o) (λ x g', x = (o, Ok tt) ∧ holding before id s0 rows g') g.
Proof.
  intros Hg Hh. unfold observe. destruct (ou_progress o); [|by apply assures_ret; [apply _|done|]]. step_bind.
  apply (read_runs _ _ before id s0 rows); [done|done|done|]. intros b g1 Hg1 Hh1.
  by apply assures_ret; [apply _|done|].
Qed.

Lemma write_batch_runs batch o n before id s0 rows g :
  rebuild_inv g → leased_at id n o → holding before id s0 rows g →
  runs (write_batch batch o) (λ x g', ∃ n', leased_at id n' x.1 ∧ n ≤ n' ∧
    match x.2 with
    | Ok _ => n < n' ∧ holding before id s0 (apply_views rows batch) g' ∧
        ou_report x.1 = set_batches (ou_report o) (rr_batches (ou_report o) + 1)
    | Err _ => holding before id s0 rows g'
    end) g.
Proof.
  intros Hg (fence & Hf & Hl & Ha) Hh. unfold write_batch. rewrite Hf. unfold out_bind, fence_write.
  step_bind. step_bind. rewrite <-Hl in Hh |- *.
  eapply assures_mono; [|by apply (renewing_write_runs fence batch s0 rows before)].
  intros [fence' [[]|e]] g1 Hg1 _ (Hl1 & Ha1 & Hw); cbn [fst snd] in *; (apply assures_ret; [apply _|done|]); cbv beta iota.
  - destruct Hw as [Hlt Hh1]. unfold out_report, out_modify. step_bind. apply assures_ret; [apply _|done|].
    cbv beta iota. eapply assures_mono; [|exact (observe_runs _ _ before _ s0 _ g1 Hg1 Hh1)].
    intros x g2 _ _ [-> Hh2]. exists (rn_attempted fence'). cbn [fst snd]. split; [by exists fence'|].
    split; [lia|]. split; [lia|]. by split.
  - apply assures_ret; [apply _|done|]. exists (rn_attempted fence'). cbn [fst snd].
    split; [by exists fence'|]. split; [lia|done].
Qed.

Lemma set_batches_twice r a b : set_batches (set_batches r a) b = set_batches r b.
Proof. done. Qed.

Lemma write_each_runs batches : ∀ o n before id s0 rows g,
  rebuild_inv g → leased_at id n o → holding before id s0 rows g →
  runs (out_each write_batch batches o) (λ x g', ∃ n', leased_at id n' x.1 ∧ n ≤ n' ∧
    match x.2 with
    | Ok _ => holding before id s0 (apply_views rows (concat batches)) g' ∧
        ou_report x.1 = set_batches (ou_report o) (rr_batches (ou_report o) + llen batches)
    | Err _ => ∃ rows', holding before id s0 rows' g' ∧ (n' = n → rows' = rows)
    end) g.
Proof.
  induction batches as [|batch batches IH]; intros o n before id s0 rows g Hg Hl Hh; cbn [out_each concat].
  { apply assures_ret; [apply _|done|]. exists n. split; [done|]. split; [lia|]. cbn [fst snd].
    split; [done|]. unfold llen. simpl. rewrite Z.add_0_r. by destruct (ou_report o). }
  unfold out_bind. step_bind. eapply assures_mono; [|by apply (write_batch_runs batch o n before id s0 rows)].
  intros [o1 [[]|e]] g1 Hg1 _ (n1 & Hl1 & Hn1 & Hw); cbn [fst snd] in *.
  - destruct Hw as (Hlt & Hh1 & Hr1). eapply assures_mono; [|by apply (IH o1 n1 before id s0)].
    intros [o2 [[]|e]] g2 Hg2 _ (n2 & Hl2 & Hn2 & Hw2); cbn [fst snd] in *; exists n2; (split; [done|]); (split; [lia|]).
    + destruct Hw2 as [Hh2 Hr2]. rewrite apply_views_app. split; [done|].
      rewrite Hr2, Hr1, set_batches_twice. f_equal. cbn [set_batches rr_batches]. unfold llen. simpl. lia.
    + destruct Hw2 as (rows' & Hh2 & _). exists rows'. split; [done|]. lia.
  - apply assures_ret; [apply _|done|]. exists n1. cbn [fst snd]. split; [done|]. split; [done|]. by exists rows.
Qed.

(** The change a finished run has made, and its report. *)
Definition rebuilt_by (report : RebuildReport) (rows rows' : gmap (string * string) ViewRow) : Prop :=
  ∃ plan, NoDup (view_keys plan) ∧ rows' = apply_views rows plan ∧
    rr_puts report = kind_count Put plan ∧ rr_deletes report = kind_count Delete plan ∧
    rr_batches report = llen (rebuild_batches plan).

(** How a computation that ends by writing leaves the output and the rows. *)
Definition written (before : list (string * Z)) (id : string * Z) (s0 : MemStore)
    (rows : gmap (string * string) ViewRow) (x : Output * Result unit) g : Prop :=
  ∃ n, leased_at id n x.1 ∧
    match x.2 with
    | Ok _ => ∃ rows', holding before id s0 rows' g ∧ rebuilt_by (ou_report x.1) rows rows'
    | Err _ => ∃ rows', holding before id s0 rows' g ∧ (n = 0 → rows' = rows)
    end.

Lemma output_write_runs o before id s0 rows g :
  rebuild_inv g → leased id o → checked o → holding before id s0 rows g →
  runs (output_write o) (written before id s0 rows) g.
Proof.
  intros Hg (fence & Hf & Hl & Ha) [Hnd Hp Hd Hb] Hh. unfold output_write. cbv zeta.
  set (o0 := mkOutput _ _ _ _ _ _). assert (leased_at id 0 o0) as Hl0 by (by exists fence).
  change (ou_fence o0) with (ou_fence o). rewrite Hf. unfold out_bind at 1. step_bind.
  eapply assures_mono; [|by apply (observe_runs _ o0 before id s0 rows)]. intros x g1 Hg1 _ [-> Hh1].
  cbv beta iota. eapply assures_mono; [|by apply (write_each_runs _ o0 0 before id s0 rows)].
  intros [o1 [[]|e]] g2 Hg2 _ (n & Hl1 & Hn & Hw); unfold written; cbn [fst snd] in *; exists n; (split; [done|]); [|done].
  destruct Hw as [Hh2 Hr].
  destruct (rebuild_batches_from_spec (length (ou_planned o)) (ou_planned o) (le_n _)) as [Hcat _].
  unfold rebuild_batches in Hh2. rewrite Hcat in Hh2. eexists. split; [exact Hh2|]. exists (ou_planned o).
  rewrite Hr. split; [done|]. split; [done|]. split; [done|]. split; [done|].
  cbn [set_batches rr_batches]. subst o0. cbn [ou_report]. by rewrite Hb.
Qed.

(** ** Runs *)

Lemma output_new_counted fence progress : counted (mkOutput fence [] ∅ 0 RebuildReport_default progress).
Proof.
  split; try done; simpl; [|constructor]. intros key. rewrite lookup_empty.
  split; [by intros [? ?]|intros Hin; by apply not_elem_of_nil in Hin].
Qed.

Lemma written_after {A} (P : Output → Prop) (m : Outputs C A) (k : A → Outputs C unit)
    (R : A → Output → Prop) before id s0 rows :
  plans P m R →
  (∀ a o g, rebuild_inv g → leased id o → R a o → holding before id s0 rows g →
     runs (k a o) (written before id s0 rows) g) →
  ∀ o g, rebuild_inv g → leased id o → P o → holding before id s0 rows g →
  runs (out_bind m k o) (written before id s0 rows) g.
Proof.
  intros Hm Hk o g Hg Hl HP Hh. unfold out_bind. step_bind.
  eapply assures_mono; [|exact (Hm before id s0 rows o g Hg Hl HP Hh)].
  intros [o1 [a|e]] g1 Hg1 _ (Hl1 & Hh1 & HR); cbn [fst snd] in *; [by apply Hk|].
  apply assures_ret; [apply _|done|]. exists 0. split; [done|]. by exists rows.
Qed.

Lemma fenced_runs r fuel lease renew renewed before s0 rows g :
  rebuild_inv g → holding before (lease_id lease) s0 rows g →
  runs (fenced stream_all_events r fuel lease renew renewed) (λ x g', lease_id x.1 = lease_id lease ∧
    match x.2 with
    | Ok report => ∃ rows', holding before (lease_id lease) s0 rows' g' ∧ rebuilt_by report rows rows'
    | Err failure => ∃ rows', holding before (lease_id lease) s0 rows' g' ∧
        (rf_attempted failure = 0 → rows' = rows)
    end) g.
Proof.
  intros Hg Hh. unfold fenced. cbv zeta. cbn [output_new ou_fence]. set (o := mkOutput _ _ _ _ _ _).
  assert (leased (lease_id lease) o) as Hl by (by eexists).
  assert (counted o) as Hc by apply output_new_counted. step_bind.
  apply (assures_mono _ _ _ (written before (lease_id lease) s0 rows)).
  - intros [o1 res] g1 Hg1 _ (n & Hat & Hw). cbn [fst snd] in *. apply assures_ret; [apply _|done|].
    cbn [fst snd]. pose proof (leased_attempted _ _ _ Hat) as Ha.
    destruct Hat as (fence & Hf & Hid & _). rewrite Hf. split; [done|].
    destruct res as [[]|e]; [done|]. cbn [rf_attempted]. by rewrite Ha.
  - apply (written_after counted _ _ (λ _, counted)); [apply keep_alive_counted| |done|done|done|done].
    intros [] o1 g1 Hg1 Hl1 Hc1 Hh1.
    apply (written_after counted _ _ (λ _, checked)); [apply rebuild_checked| |done|done|done|done].
    intros [] o2 g2 Hg2 Hl2 Hc2 Hh2. by apply output_write_runs.
Qed.

Lemma projection_run_runs r fuel owner lease g :
  rebuild_inv g →
  runs (projection_run stream_all_events r fuel owner lease) (finished (rw_ended g.2) rebuilt_by) g.
Proof.
  intros Hg. unfold projection_run. destruct (check_rebuild r) as [[]|e]; [|by apply assures_ret; [apply _|done|apply finished_unended]].
  apply take_runs; [done|done|]. intros h s0 g1 Hg1 Hh. step_bind.
  eapply assures_mono; [|by apply (fenced_runs r fuel _ _ _ (rw_ended g.2) s0 (ms_views s0))].
  intros [l [report|failure]] g2 Hg2 _ (Hl & rows' & [Ho He] & Hw); cbn [fst snd] in *;
    (apply (finish_runs _ _ s0); [done|done|]); cbn [hl_lease]; rewrite Hl.
  - by exists rows'.
  - intros Ha. by rewrite <-(Hw Ha).
Qed.

End atomic.

(** ** An example *)

Section mem.
Context `{SerdeJson}.

(** What the in-memory repository answers to a read. *)
Definition mem_repository_read {B} (q : Call Empty_set B) (s : MemStore) : option B :=
  match q in Call _ B return option B with
  | QSnapshot id => Some (Ok (mem_snapshot s id))
  | QEvents id => Some (Ok (mem_events s id))
  | QEventsAfter id after => Some (Ok (mem_events_after s id after))
  | _ => None
  end.

Definition mem_rebuild_read {B} (q : RebuildCall Cursor B) (s : MemStore) : option B :=
  match q in RebuildCall _ B return option B with
  | PFence _ => None
  | PHeads q =>
      match q in HeadsCall _ B return option B with
      | HRepository q => mem_repository_read q s
      | HEntityHeads entity_type => Some (Ok (mem_entity_heads s entity_type))
      end
  | PLatest id limit => Some (mem_latest s id (Z.to_nat limit))
  | PNextBatch cursor =>
      Some match mem_next_stream s cursor with
           | Some (id, events) => Some (Ok events, mkCursor (Some id) (cu_filter cursor))
           | None => None
           end
  | PViews q =>
      match q in ViewCall B return option B with
      | VGetAt pk sk => Some (mem_get_view_at s pk sk)
      | VListByPk pk limit cursor => Some (mem_list_views_by_pk_paged s pk limit cursor)
      | VListByType entity_type limit cursor =>
          Some (mem_list_views_by_entity_type_paged s entity_type limit cursor)
      | _ => None
      end
  | PObserve _ => Some tt
  end.

Definition rebuild_turn {B : Type} (o : Clocks) (x : RWorld * Tree (RebuildCall Cursor) B)
  : RWorld * Tree (RebuildCall Cursor) B :=
  match x.2 with
  | Ask q k =>
      match q in RebuildCall _ D return (D → Tree (RebuildCall Cursor) B) → RWorld * Tree (RebuildCall Cursor) B with
      | PFence q => λ k, let y := fence_answer o q x.1 in (y.1, k y.2)
      | q => λ k, match mem_rebuild_read q (rw_store x.1) with
                  | Some b => (moved x.1 (rw_repository x.1), k b)
                  | None => x
                  end
      end k
  | _ => x
  end.

Lemma rebuild_turns_steps {B : Type} o n (x : RWorld * Tree (RebuildCall Cursor) B) :
  rtc (pool_step outside) (x.1, [x.2])
    ((Nat.iter n (rebuild_turn o) x).1, [(Nat.iter n (rebuild_turn o) x).2]).
Proof.
  induction n as [|n IH]; [reflexivity|]. etransitivity; [exact IH|]. simpl.
  destruct (Nat.iter n (rebuild_turn o) x) as [w p]. cbn [fst snd].
  destruct p as [b|D q k| |]; try reflexivity.
  assert (∀ b w', performs q w b w' → pool_step outside (w, [Ask q k]) (w', [k b])) as Hstep
    by (intros b w' Hp; by apply (pool_call outside w [Ask q k] 0 _ q k b w')).
  unfold rebuild_turn. cbn [fst snd]. destruct q; try (apply rtc_once, Hstep; by intros ?).
  - apply rtc_once, Hstep. exists o. by destruct (fence_answer o q w).
  - destruct (mem_rebuild_read (PHeads q) (rw_store w)); [|reflexivity]. by apply rtc_once, Hstep.
  - destruct (mem_rebuild_read (PViews q) (rw_store w)); [|reflexivity]. by apply rtc_once, Hstep.
Qed.
End mem.

Section witness.
#[local] Existing Instance sample_json.
#[local] Existing Instance text_aggregate.
#[local] Instance no_journal_json : JournalJson := {
  json_allocations _ := ""%string;
  json_parse_allocations _ := Err ""%string;
  json_row _ := Err ""%string;
  json_parse_row _ := Err ""%string;
  json_counter _ := ""%string;
  json_parse_counter _ := Err ""%string
}.

(** A row for each stream, which holds its state. *)
Definition totals : CommitProjector :=
  mkProjector "totals" [] false (λ view, Ok (map (λ stream,
    view_put "totals" (cs_entity_id stream) (cs_entity_id stream) "total" (cs_state stream)) (cv_streams view))).

Definition totals_rebuild : ProjectionRebuild :=
  aggregate (with_projector projection_rebuild_new totals) text_aggregate.

Definition totals_world : RWorld :=
  mkRWorld (repository_of text_store (handle_of mem_new)) [] [] [text_store].

Definition totals_run : RWorld * Tree (RebuildCall Cursor) (Result RebuildReport) :=
  Nat.iter 40 (rebuild_turn (mkClocks 100 0))
    (totals_world, projection_run mem_stream_all_events totals_rebuild 5 "owner" (mkDuration 60 0)).

End witness.
