(* ===== verification/ProjectionDiff.v ===== *)
(** * A diff reaches the plan

    [rebuild/projections/diff.rs]: in diff mode a rebuild writes only what differs. Its listing of
    the owned rows may lag behind the table, and nothing is skipped or deleted on its word alone. *)

From S2P Require Import Prelude Types Features Outcome Rebuild Wire Projection Grouping Repository.
From S2P Require Import RebuildBatch Mem MemInvariant MemRefinement MemRead MemSafety.
From S2P Require Import Retry Program Settle Store Views Enumerate RebuildDriver.
From S2P Require Import JournalScope Compaction JournalConfig RebuildDriver ProjectionRebuild.

Section diff.
Context {C : Type}.

(** The table, and what a listing of a row type shows, which need not be what the table holds. *)
Context (rows : gmap (string * string) ViewRow) (shown : string → list ViewRow).

(** ** Runs over the table *)

Definition table_answer {B} (q : ViewCall B) : option B :=
  match q in ViewCall B return option B with
  | VGetAt pk sk => Some (let? sk := resolve_key pk sk in Ok (rows !! (pk, sk)))
  | VListByType entity_type _ _ => Some (Ok (mkViewPage (shown entity_type) None))
  | _ => None
  end.

(** The result of a program that only reads view rows. *)
Fixpoint over_table {A} (p : Tree (RebuildCall C) A) : option A :=
  match p with
  | Ret a => Some a
  | Ask q k =>
      match q in RebuildCall _ B return (B → Tree (RebuildCall C) A) → (B → option A) → option A with
      | PViews q => λ _ go, match table_answer q with Some b => go b | None => None end
      | _ => λ _ _, None
      end k (λ b, over_table (k b))
  | Panic | OutOfFuel => None
  end.

Lemma over_bind {A B} (p : Tree (RebuildCall C) A) (f : A → Tree (RebuildCall C) B) :
  over_table (bind p f) = match over_table p with Some a => over_table (f a) | None => None end.
Proof.
  induction p as [a|B' q k IH| |]; simpl; [done| |done|done]. destruct q; try done.
  by destruct (table_answer q).
Qed.

Lemma over_out_bind {A B} (m : Outputs C A) (f : A → Outputs C B) o :
  over_table (out_bind m f o) =
  match over_table (m o) with
  | Some (o, Ok a) => over_table (f a o)
  | Some (o, Err e) => Some (o, Err e)
  | None => None
  end.
Proof. unfold out_bind. rewrite over_bind. by destruct (over_table (m o)) as [[o' [a|e]]|]. Qed.

Lemma over_keep_alive o : ou_fence o = None → over_table (output_keep_alive o) = Some (o, Ok tt).
Proof. intros Hf. unfold output_keep_alive. by rewrite Hf. Qed.

(** ** Maps of rows by key *)

Lemma insert_rows_lookup l : ∀ m key,
  (∀ row, insert_rows m l !! key = Some row → m !! key = Some row ∨ (row ∈ l ∧ row_key row = key)) ∧
  (is_Some (insert_rows m l !! key) ↔ is_Some (m !! key) ∨ ∃ row, row ∈ l ∧ row_key row = key).
Proof.
  unfold insert_rows. induction l as [|x l IH]; intros m key; cbn [fold_left].
  { split; [by left|]. split; [by left|]. intros [Hm|(row & Hin & _)]; [done|by apply not_elem_of_nil in Hin]. }
  destruct (IH (<[row_key x := x]> m) key) as [H1 H2]. split.
  - intros row Hl. destruct (H1 row Hl) as [Hi|[Hin Hk]]; [|right; split; [by apply list_elem_of_further|done]].
    apply lookup_insert_Some in Hi as [[Hk <-]|[_ Hm]]; [right|by left].
    split; [apply list_elem_of_here|done].
  - rewrite H2, lookup_insert_is_Some'. split.
    + intros [[Hk|Hm]|(row & Hin & Hk)]; [right; exists x; split; [apply list_elem_of_here|done]|by left|].
      right. exists row. split; [by apply list_elem_of_further|done].
    + intros [Hm|(row & [->|Hin]%elem_of_cons & Hk)]; [left; by right|left; by left|].
      right. by exists row.
Qed.

(** ** The listing *)

(** A key the listing shows a row of an owned type at. *)
Definition listed_key (types : list string) (key : string * string) : Prop :=
  ∃ entity_type row, entity_type ∈ types ∧ row ∈ shown entity_type ∧ row_key row = key.

Lemma list_owned_over fuel types : ∀ listed o,
  ou_fence o = None →
  ∃ listed', over_table (list_owned (S fuel) types listed o) = Some (o, Ok listed') ∧
    (∀ key row, listed' !! key = Some row → listed !! key = Some row ∨
       ∃ entity_type, entity_type ∈ types ∧ row ∈ shown entity_type ∧ row_key row = key) ∧
    (∀ key, is_Some (listed' !! key) ↔ is_Some (listed !! key) ∨ listed_key types key).
Proof.
  induction types as [|t types IH]; intros listed o Hf; cbn [list_owned].
  { exists listed. split; [done|]. split; [by left|]. intros key. split; [by left|].
    intros [Hl|(t & row & Ht & _)]; [done|by apply not_elem_of_nil in Ht]. }
  rewrite over_out_bind. cbn [list_pages]. rewrite over_out_bind. unfold out_try at 1. rewrite over_bind.
  cbn [over_table call view_call rebuild_has_views table_answer vp_views vp_next_cursor].
  rewrite over_out_bind, (over_keep_alive o Hf). cbn [over_table out_ret].
  destruct (IH (insert_rows listed (shown t)) o Hf) as (listed' & -> & H1 & H2). exists listed'. split; [done|].
  split.
  - intros key row Hl. destruct (H1 key row Hl) as [Hi|(t' & Ht & Hrest)].
    + destruct (insert_rows_lookup (shown t) listed key) as [I1 _].
      destruct (I1 row Hi) as [?|[Hin Hk]]; [by left|right]. exists t. split; [apply list_elem_of_here|done].
    + right. exists t'. split; [by apply list_elem_of_further|done].
  - intros key. rewrite H2. destruct (insert_rows_lookup (shown t) listed key) as [_ ->]. unfold listed_key. split.
    + intros [[Hl|(row & Hin & Hk)]|(t' & row & Ht & Hrest)]; [by left| |].
      * right. exists t, row. split; [apply list_elem_of_here|done].
      * right. exists t', row. split; [by apply list_elem_of_further|done].
    + intros [Hl|(t' & row & [->|Ht]%elem_of_cons & Hin & Hk)]; [left; by left|left; right; by exists row|].
      right. by exists t', row.
Qed.

(** ** What is read again *)

Lemma confirm_planned_spec planned : ∀ listed : gmap (string * string) ViewRow,
  NoDup (view_keys planned) →
  let confirmed := confirm_planned listed planned in
  (∀ key, confirmed.2 !! key = if bool_decide (key ∈ view_keys planned) then None else listed !! key) ∧
  (∀ key, key ∈ confirmed.1 ↔ ∃ item, item ∈ planned ∧ view_op_key (pv_op item) = key ∧
     match vo_kind (pv_op item) with
     | Put => ∃ row, listed !! key = Some row ∧ same (pv_op item) row = true
     | Delete => True
     end).
Proof.
  induction planned as [|item planned IH]; intros listed Hnd; cbn [confirm_planned fst snd].
  { split; [done|]. intros key. split; [intros Hin; by apply not_elem_of_nil in Hin|].
    intros (item & Hin & _). by apply not_elem_of_nil in Hin. }
  apply NoDup_cons in Hnd as [Hn Hnd]. set (k := view_op_key (pv_op item)) in *.
  destruct (IH (delete k listed) Hnd) as [H1 H2]. split.
  - intros key. rewrite H1. destruct (decide (key = k)) as [->|Hne].
    + rewrite (bool_decide_true (k ∈ view_keys (item :: planned))) by apply list_elem_of_here.
      rewrite bool_decide_false by done. apply lookup_delete_eq.
    + rewrite lookup_delete_ne by done. rewrite (bool_decide_ext _ (key ∈ view_keys (item :: planned))); [done|].
      change (view_keys (item :: planned)) with (k :: view_keys planned). rewrite elem_of_cons.
      split; [by right|]. by intros [?|?].
  - intros key. rewrite elem_of_app, H2. split.
    + intros [Hin|(item' & Hin & Hk & Hc)].
      * exists item. assert (key = k) as -> by (destruct (match vo_kind _ with Put => _ | Delete => _ end);
          [by apply list_elem_of_singleton in Hin|by apply not_elem_of_nil in Hin]).
        split; [apply list_elem_of_here|]. split; [done|]. destruct (vo_kind (pv_op item)); [|done].
        destruct (listed !! k) as [row|]; [|by apply not_elem_of_nil in Hin]. exists row. split; [done|].
        destruct (same (pv_op item) row); [done|by apply not_elem_of_nil in Hin].
      * exists item'. split; [by apply list_elem_of_further|]. split; [done|].
        destruct (vo_kind (pv_op item')); [|done]. destruct Hc as (row & Hl & Hs). exists row.
        apply lookup_delete_Some in Hl as [_ Hl]. done.
    + intros (item' & [->|Hin]%elem_of_cons & Hk & Hc).
      * left. rewrite <-Hk. fold k. destruct (vo_kind (pv_op item)).
        -- destruct Hc as (row & Hl & Hs). rewrite <-Hk in Hl. fold k in Hl. rewrite Hl, Hs. apply list_elem_of_here.
        -- apply list_elem_of_here.
      * right. exists item'. split; [done|]. split; [done|]. destruct (vo_kind (pv_op item')); [|done].
        destruct Hc as (row & Hl & Hs). exists row. split; [|done]. rewrite lookup_delete_ne; [done|].
        intros <-. apply Hn. rewrite <-Hk. apply list_elem_of_fmap. by exists item'.
Qed.

Lemma by_sort_key_spec keys pk sk :
  (pk, sk) ∈ keys ↔ ∃ pks, by_sort_key keys !! sk = Some pks ∧ pk ∈ pks.
Proof.
  unfold by_sort_key. revert pk sk.
  enough (∀ m : gmap string (list string), ∀ pk sk,
    (∃ pks, fold_left (λ by_sk key, <[key.2 := default [] (by_sk !! key.2) ++ [key.1]]> by_sk) keys m !! sk = Some pks ∧ pk ∈ pks)
    ↔ (pk, sk) ∈ keys ∨ ∃ pks, m !! sk = Some pks ∧ pk ∈ pks) as Hm.
  { intros pk sk. rewrite Hm. split; [by left|]. intros [?|(pks & Hl & _)]; [done|by rewrite lookup_empty in Hl]. }
  induction keys as [|[pk1 sk1] keys IH]; intros m pk sk; cbn [fold_left fst snd].
  { split; [by right|]. intros [Hin|?]; [by apply not_elem_of_nil in Hin|done]. }
  rewrite IH, elem_of_cons. destruct (decide (sk1 = sk)) as [->|Hne].
  - rewrite lookup_insert_eq. split.
    + intros [?|(pks & [= <-] & [Hin|Heq%list_elem_of_singleton]%elem_of_app)]; [by left; right| |by left; left; subst].
      right. destruct (m !! sk) as [l|]; simpl in Hin; [by exists l|by apply not_elem_of_nil in Hin].
    + intros [[Heq|?]|(pks & Hl & Hin)]; [|by left|].
      * right. eexists. split; [done|]. apply elem_of_app. right. apply list_elem_of_singleton. congruence.
      * right. eexists. split; [done|]. rewrite Hl. apply elem_of_app. by left.
  - rewrite lookup_insert_ne by done. split.
    + intros [?|?]; [left; by right|by right].
    + intros [[Heq|?]|?]; [congruence|by left|by right].
Qed.

Definition plain_key (key : string * string) : Prop :=
  is_empty key.1 = false ∧ is_empty key.2 = false ∧ contains_nul key.1 = false ∧ contains_nul key.2 = false.

Lemma resolve_plain pk sk : plain_key (pk, sk) → resolve_key pk sk = Ok sk.
Proof.
  intros (Hp & Hs & Np & Ns). simpl in *. unfold resolve_key, nul_free.
  rewrite Hp, Np, Ns. cbn [result_bind]. by rewrite Hs.
Qed.

Lemma get_each_over sk pks : ∀ seen views,
  Forall (λ pk, plain_key (pk, sk)) pks →
  ∃ views', over_table (get_each (E := RebuildCall C) sk seen views pks) = Some (Ok views') ∧
    ∀ row, row ∈ views' ↔ row ∈ views ∨ ∃ pk, pk ∈ pks ∧ pk ∉ seen ∧ rows !! (pk, sk) = Some row.
Proof.
  induction pks as [|pk pks IH]; intros seen views Hall; cbn [get_each].
  { exists views. split; [done|]. intros row. split; [by left|].
    intros [?|(pk & Hin & _)]; [done|by apply not_elem_of_nil in Hin]. }
  apply Forall_cons in Hall as [Hpk Hall]. pose proof Hpk as (He & _). simpl in He. rewrite He. simpl.
  destruct (decide (pk ∈ seen)) as [Hs|Hs].
  - rewrite bool_decide_true by done. destruct (IH seen views Hall) as (views' & Hrun & Hv). exists views'.
    split; [done|]. intros row. rewrite Hv. split; (intros [?|(pk' & Hin & Hns & Hl)]; [by left|right]).
    + exists pk'. split; [by apply list_elem_of_further|done].
    + apply elem_of_cons in Hin as [->|Hin]; [done|]. by exists pk'.
  - rewrite bool_decide_false by done. unfold try_bind. rewrite over_bind.
    cbn [over_table call view_call rebuild_has_views table_answer].
    rewrite (resolve_plain _ _ Hpk). cbn [result_bind].
    destruct (IH ({[pk]} ∪ seen) (views ++ option_list (rows !! (pk, sk))) Hall) as (views' & Hrun & Hv).
    exists views'. split; [exact Hrun|]. intros row. rewrite Hv, elem_of_app. split.
    + intros [[?|Ho]|(pk' & Hin & Hns & Hl)]; [by left| |].
      * right. exists pk. split; [apply list_elem_of_here|]. split; [done|].
        destruct (rows !! (pk, sk)) as [row'|]; simpl in Ho; [by apply list_elem_of_singleton in Ho as ->|by apply not_elem_of_nil in Ho].
      * right. exists pk'. split; [by apply list_elem_of_further|]. split; [set_solver|done].
    + intros [?|(pk' & Hin & Hns & Hl)]; [left; by left|].
      destruct (decide (pk' = pk)) as [->|Hne].
      * left; right. rewrite Hl. apply list_elem_of_here.
      * right. exists pk'. apply elem_of_cons in Hin as [?|Hin]; [done|]. split; [done|]. split; [set_solver|done].
Qed.

Context (Hkeyed : ∀ key row, rows !! key = Some row → key = row_key row).

(** A part of the table. *)
Definition of_table (stored : gmap (string * string) ViewRow) : Prop :=
  ∀ key row, stored !! key = Some row → rows !! key = Some row.

Lemma read_groups_over groups : ∀ stored o,
  ou_fence o = None → of_table stored →
  Forall (λ g : string * list string, Forall (λ pk, plain_key (pk, g.1)) g.2 ∧ plain_key ("-"%string, g.1)) groups →
  ∃ stored', over_table (read_groups (C := C) groups stored o) = Some (o, Ok stored') ∧ of_table stored' ∧
    ∀ key, is_Some (stored' !! key) ↔ is_Some (stored !! key) ∨
      (is_Some (rows !! key) ∧ ∃ pks, (key.2, pks) ∈ groups ∧ key.1 ∈ pks).
Proof.
  induction groups as [|[sk pks] groups IH]; intros stored o Hf Hsub Hall; cbn [read_groups].
  { exists stored. split; [done|]. split; [done|]. intros key. split; [by left|].
    intros [?|(_ & pks & Hin & _)]; [done|by apply not_elem_of_nil in Hin]. }
  apply Forall_cons in Hall as [[Hpks Hdash] Hall]. simpl in Hpks, Hdash.
  destruct (get_each_over sk pks ∅ [] Hpks) as (views & Hget & Hviews).
  assert (over_table (batch_get_views_at (E := RebuildCall C) pks sk) = Some (Ok views)) as Hbatch.
  { unfold batch_get_views_at. rewrite (resolve_plain _ _ Hdash). cbn [result_bind].
    assert (check_each (λ pk, nul_free pk "pk") pks = Ok tt) as ->; [|exact Hget].
    apply check_each_ok. eapply Forall_impl; [exact Hpks|]. intros pk (_ & _ & Hn & _). simpl in Hn.
    unfold nul_free. by rewrite Hn. }
  rewrite over_out_bind. unfold out_try at 1. rewrite over_bind, Hbatch. cbn [over_table].
  rewrite over_out_bind, (over_keep_alive o Hf).
  assert (∀ row, row ∈ views ↔ ∃ pk, pk ∈ pks ∧ rows !! (pk, sk) = Some row) as Hin.
  { intros row. rewrite Hviews. split.
    - intros [Hn|(pk & Hp & _ & Hl)]; [by apply not_elem_of_nil in Hn|by exists pk].
    - intros (pk & Hp & Hl). right. exists pk. split; [done|]. split; [set_solver|done]. }
  destruct (IH (insert_rows stored views) o Hf) as (stored' & Hrun & Hsub' & Hdom); [|done|].
  { intros key row Hl. destruct (insert_rows_lookup views stored key) as [I _].
    destruct (I row Hl) as [Hs|[Hv <-]]; [by apply Hsub|]. apply Hin in Hv as (pk & _ & Hl').
    by rewrite <-(Hkeyed _ _ Hl'). }
  exists stored'. split; [exact Hrun|]. split; [done|]. intros key. rewrite Hdom.
  destruct (insert_rows_lookup views stored key) as [_ ->]. split.
  - intros [[?|(row & Hv & Hk)]|(Hr & pks' & Hg & Hp)]; [by left| |].
    + right. apply Hin in Hv as (pk & Hp & Hl). rewrite <-Hk, <-(Hkeyed _ _ Hl). split; [by eexists|].
      exists pks. split; [apply list_elem_of_here|done].
    + right. split; [done|]. exists pks'. split; [by apply list_elem_of_further|done].
  - intros [?|([row Hr] & pks' & [[= Hsk ->]|Hg]%elem_of_cons & Hp)]; [left; by left| |].
    + left; right. exists row. split; [|by rewrite (Hkeyed _ _ Hr)]. apply Hin. exists key.1. split; [done|].
      rewrite <-Hsk. by destruct key.
    + right. split; [by eexists|]. by exists pks'.
Qed.

Lemma read_by_key_over keys o :
  ou_fence o = None → Forall plain_key keys →
  ∃ stored, over_table (read_by_key (C := C) keys o) = Some (o, Ok stored) ∧
    ∀ key, stored !! key = if bool_decide (key ∈ keys) then rows !! key else None.
Proof.
  intros Hf Hall. rewrite Forall_forall in Hall.
  destruct (read_groups_over (btree_entries string_leb (by_sort_key keys)) ∅ o Hf) as (stored & Hrun & Hsub & Hdom).
  - intros key row Hl. by rewrite lookup_empty in Hl.
  - apply Forall_forall. intros [sk pks] Hin. rewrite elem_of_btree_entries in Hin. simpl.
    assert (∀ pk, pk ∈ pks → plain_key (pk, sk)) as Hp
      by (intros pk Hpk; apply Hall; apply by_sort_key_spec; by exists pks).
    split; [by apply Forall_forall|]. destruct pks as [|pk pks].
    + exfalso. revert Hin. clear. unfold by_sort_key.
      enough (∀ m : gmap string (list string), m !! sk ≠ Some [] →
        fold_left (λ by_sk key, <[key.2 := default [] (by_sk !! key.2) ++ [key.1]]> by_sk) keys m !! sk ≠ Some []) as Hm
        by (apply Hm; by rewrite lookup_empty).
      induction keys as [|[pk1 sk1] keys IH]; intros m Hm; [done|]. cbn [fold_left fst snd]. apply IH.
      rewrite lookup_insert_Some. intros [[_ Heq]|[_ Heq]]; [|done]. by apply app_eq_nil in Heq as [_ ?].
    + destruct (Hp pk ltac:(apply list_elem_of_here)) as (_ & Hs & _ & Ns). simpl in *. done.
  - exists stored. split; [exact Hrun|]. intros key. apply option_eq. intros row.
    assert (is_Some (stored !! key) ↔ is_Some (rows !! key) ∧ key ∈ keys) as Hd.
    { rewrite Hdom, lookup_empty. destruct key as [pk sk]. simpl. rewrite by_sort_key_spec. split.
      - intros [[? ?]|(Hr & pks & Hin & Hp)]; [done|]. split; [done|]. exists pks.
        by rewrite elem_of_btree_entries in Hin.
      - intros (Hr & pks & Hin & Hp). right. split; [done|]. exists pks. by rewrite elem_of_btree_entries. }
    case_bool_decide as Hk.
    + split; [apply Hsub|]. intros Hr. destruct Hd as [_ Hd]. destruct Hd as [row' Hs]; [by split; [eexists|]|].
      rewrite Hs. f_equal. apply Hsub in Hs. congruence.
    + split; [|done]. intros Hs. destruct Hd as [Hd _]. destruct Hd as [_ ?]; [by eexists|]. done.
Qed.

(** ** What is written *)

Context (owned streams : gset string).

(** A planned operation the stored rows do not already satisfy. *)
Definition needed (stored : gmap (string * string) ViewRow) (item : ProjectedView) : bool :=
  match stored !! view_op_key (pv_op item), vo_kind (pv_op item) with
  | Some row, Put => negb (same (pv_op item) row)
  | None, Put => true
  | Some _, Delete => true
  | None, Delete => false
  end.

Lemma diff_planned_over stored planned : ∀ d,
  (∀ item row, item ∈ planned → vo_kind (pv_op item) = Delete →
     stored !! view_op_key (pv_op item) = Some row → vr_entity_type row ∈ owned) →
  ∃ d', fold_result (diff_planned owned stored) d planned = Ok d' ∧
    df_operations d' = df_operations d ++ List.filter (needed stored) planned ∧ df_unread d' = df_unread d.
Proof.
  induction planned as [|item planned IH]; intros d Hown; cbn [fold_result List.filter].
  { exists d. by rewrite app_nil_r. }
  assert (∃ d1, diff_planned owned stored d item = Ok d1 ∧
    df_operations d1 = df_operations d ++ (if needed stored item then [item] else []) ∧
    df_unread d1 = df_unread d) as (d1 & -> & Hops & Hunread).
  { unfold diff_planned, needed. specialize (Hown item).
    destruct (vo_kind (pv_op item)) eqn:Hk, (stored !! view_op_key (pv_op item)) as [row|] eqn:Hl.
    - destruct (same (pv_op item) row); eexists; simpl; rewrite ?app_nil_r; done.
    - by eexists.
    - rewrite bool_decide_true by (by apply Hown; [apply list_elem_of_here| |]). by eexists.
    - eexists. by rewrite app_nil_r. }
  cbn [result_bind]. destruct (IH d1) as (d' & -> & Hops' & Hunread').
  { intros item' row Hin. apply Hown. by apply list_elem_of_further. }
  exists d'. split; [done|]. rewrite Hops', Hops, Hunread', Hunread, <-app_assoc. split; [|done].
  by destruct (needed stored item).
Qed.

(** A listed row that is not planned: deleted when its owner was read, set aside when it was not. *)
Definition stale_row (stored : gmap (string * string) ViewRow) (read : bool) (key : string * string) : bool :=
  match stored !! key with
  | Some row => bool_decide (vr_entity_type row ∈ owned) && Bool.eqb (bool_decide (vr_entity_id row ∈ streams)) read
  | None => false
  end.

Lemma diff_stale_over stored stale : ∀ d,
  of_table stored →
  let d' := fold_left (diff_stale owned streams stored) stale d in
  ∃ extra, df_operations d' = df_operations d ++ extra ∧
    view_keys extra = List.filter (stale_row stored true) stale ∧
    Forall (λ item, vo_kind (pv_op item) = Delete) extra ∧
    ∃ more, df_unread d' = df_unread d ++ more ∧ map row_key more = List.filter (stale_row stored false) stale ∧
      Forall (λ row, rows !! row_key row = Some row) more.
Proof.
  intros d Hsub. revert d. induction stale as [|key stale IH]; intros d; cbn [fold_left List.filter].
  { exists []. rewrite app_nil_r. split; [done|]. split; [done|]. split; [constructor|]. exists [].
    rewrite app_nil_r. split; [done|]. split; [done|constructor]. }
  destruct (IH (diff_stale owned streams stored d key)) as (extra & -> & Hkeys & Hdel & more & -> & Hmore & Hrows).
  unfold stale_row, diff_stale. destruct (stored !! key) as [row|] eqn:Hl; [|by exists extra; eauto 8].
  pose proof (Hsub _ _ Hl) as Hr. pose proof (Hkeyed _ _ Hr) as Hk.
  destruct (bool_decide (vr_entity_type row ∈ owned)); simpl; [|by exists extra; eauto 8].
  destruct (bool_decide (vr_entity_id row ∈ streams)); simpl.
  - exists (stale_delete row (llen (df_operations d)) :: extra). rewrite <-app_assoc. split; [done|].
    split; [rewrite Hk; cbn [view_keys map]; f_equal; exact Hkeys|]. split; [by constructor|]. by exists more.
  - exists extra. split; [done|]. split; [done|]. split; [done|]. exists (row :: more).
    rewrite <-app_assoc. split; [done|]. split; [cbn [map]; rewrite Hmore; by rewrite Hk|].
    constructor; [by rewrite <-Hk|done].
Qed.

Lemma same_row op row key :
  same op row = true → key = row_key row → view_op_key op = key → view_row_of op = row.
Proof.
  unfold same. rewrite !andb_true_iff, !bool_decide_eq_true, Z.eqb_eq. intros (((Ho & Ht) & Hp) & Httl) -> Hk.
  destruct row as [pk sk id ty pl ttl]. unfold row_key, view_op_key in Hk. simpl in *. unfold view_row_of.
  injection Hk as -> ->. by subst.
Qed.

Lemma valid_plain op : valid_view op → plain_key (view_op_key op).
Proof.
  intros (Hr & _). unfold invalid_reason in Hr. unfold plain_key, view_op_key. simpl.
  assert (∀ b : bool, (if b then Some "" else None : option string) = None → b = false) as Hb by (by intros []).
  destruct (vo_kind op), (vo_condition op); try done;
    repeat match type of Hr with context [if ?b then Some _ else _] => destruct b eqn:?; [done|] end;
    unfold nul_reason in Hr; (repeat match type of Hr with context [if contains_nul ?x then _ else _] =>
      destruct (contains_nul x) eqn:? end); simpl in Hr; try done; auto.
Qed.

(** What a diff does to a row that is not planned. *)
Definition deleted_row (key : string * string) : Prop :=
  listed_key (btree_set owned) key ∧
  ∃ row, rows !! key = Some row ∧ vr_entity_type row ∈ owned ∧ vr_entity_id row ∈ streams.

Section spec.
Context (planned : list ProjectedView) (listed stored : gmap (string * string) ViewRow).
Context (Hvalid : check_views planned = Ok tt).
Context (Hlisted : ∀ key, is_Some (listed !! key) ↔ listed_key (btree_set owned) key).

Let stale := map fst (btree_entries key_leb (confirm_planned listed planned).2).
Let keys := (confirm_planned listed planned).1 ++ stale.

Context (Hstored : ∀ key, stored !! key = if bool_decide (key ∈ keys) then rows !! key else None).

Lemma planned_distinct : NoDup (view_keys planned).
Proof. by apply check_views_ok in Hvalid as [_ Hnd]. Qed.

Lemma stale_elem key : key ∈ stale ↔ listed_key (btree_set owned) key ∧ key ∉ view_keys planned.
Proof.
  unfold stale. rewrite list_elem_of_fmap, <-Hlisted.
  destruct (confirm_planned_spec planned listed planned_distinct) as [Hleft _]. split.
  - intros ([key' row] & -> & Hin). rewrite elem_of_btree_entries, Hleft in Hin. simpl.
    case_bool_decide; [done|]. split; [by eexists|done].
  - intros [[row Hl] Hn]. exists (key, row). split; [done|]. rewrite elem_of_btree_entries, Hleft.
    by rewrite bool_decide_false.
Qed.

Lemma stored_of_table : of_table stored.
Proof. intros key row. rewrite Hstored. by case_bool_decide. Qed.

Lemma stored_stale key : key ∈ stale → stored !! key = rows !! key.
Proof. intros Hin. rewrite Hstored, bool_decide_true; [done|]. apply elem_of_app. by right. Qed.

Lemma stored_delete item :
  item ∈ planned → vo_kind (pv_op item) = Delete →
  stored !! view_op_key (pv_op item) = rows !! view_op_key (pv_op item).
Proof.
  intros Hin Hk. rewrite Hstored, bool_decide_true; [done|]. apply elem_of_app. left.
  apply (confirm_planned_spec planned listed planned_distinct). exists item. by rewrite Hk.
Qed.

(** An operation that is not needed is satisfied. *)
Lemma unneeded_satisfied item :
  item ∈ planned → needed stored item = false → rows !! view_op_key (pv_op item) = view_result (pv_op item).
Proof.
  intros Hin. unfold needed, view_result. pose proof (stored_delete item Hin) as Hd.
  destruct (stored !! view_op_key (pv_op item)) as [row|] eqn:Hl, (vo_kind (pv_op item)); try done.
  - intros Hs%negb_false_iff. pose proof (stored_of_table _ _ Hl) as Hr. rewrite Hr. f_equal. symmetry.
    by apply (same_row _ _ (view_op_key (pv_op item))); [|apply Hkeyed|].
  - intros _. by rewrite <-(Hd eq_refl).
Qed.

Context (operations extra : list ProjectedView).
Context (Hops : operations = List.filter (needed stored) planned ++ extra).
Context (Hextra : view_keys extra = List.filter (stale_row stored true) stale).
Context (Hdeletes : Forall (λ item, vo_kind (pv_op item) = Delete) extra).

Lemma extra_elem key : key ∈ view_keys extra ↔ key ∉ view_keys planned ∧ deleted_row key.
Proof.
  rewrite Hextra, elem_of_list_filter, stale_elem. unfold deleted_row. split.
  - intros [[Hl Hn] Hs]. split; [done|]. split; [done|]. unfold stale_row in Hs.
    destruct (stored !! key) as [row|] eqn:Hst; [|done]. apply andb_prop in Hs as [Ho%bool_decide_eq_true He].
    exists row. split; [by apply stored_of_table|]. split; [done|].
    destruct (decide (vr_entity_id row ∈ streams)) as [|Hns]; [done|]. by rewrite bool_decide_false in He.
  - intros (Hn & Hl & row & Hr & Ho & Hs). split; [done|]. unfold stale_row.
    rewrite (stored_stale key), Hr by (by apply stale_elem). by rewrite !bool_decide_true.
Qed.

Lemma operations_distinct : NoDup (view_keys operations).
Proof.
  rewrite Hops. unfold view_keys. rewrite map_app. apply NoDup_app. split; [|split].
  - apply NoDup_map_filter, planned_distinct.
  - intros key (item & -> & [Hin _]%elem_of_list_filter)%list_elem_of_fmap [Hn _]%extra_elem.
    apply Hn, list_elem_of_fmap. by exists item.
  - fold (view_keys extra). rewrite Hextra. rewrite <-(map_id (List.filter _ _)). apply NoDup_map_filter.
    rewrite map_id. unfold stale. apply btree_entries_NoDup.
Qed.

Lemma operations_reach_plan item :
  item ∈ planned →
  apply_views rows operations !! view_op_key (pv_op item) = view_result (pv_op item).
Proof.
  intros Hin. destruct (apply_views_lookup rows operations (view_op_key (pv_op item)) operations_distinct)
    as [(v & Hv & Hk & ->)|[Hn ->]].
  - rewrite Hops in Hv. apply elem_of_app in Hv as [[Hv _]%elem_of_list_filter|Hv].
    + f_equal. f_equal. eapply (NoDup_fmap_eq (λ v, view_op_key (pv_op v)) planned);
        [exact planned_distinct|done|done|done].
    + exfalso. assert (view_op_key (pv_op item) ∈ view_keys extra) as [Hn _]%extra_elem
        by (rewrite <-Hk; apply list_elem_of_fmap; by exists v).
      apply Hn, list_elem_of_fmap. by exists item.
  - apply unneeded_satisfied; [done|]. destruct (needed stored item) eqn:Hneed; [|done]. exfalso. apply Hn.
    rewrite Hops. apply list_elem_of_fmap. exists item. split; [done|]. apply elem_of_app. left.
    by apply elem_of_list_filter.
Qed.

Lemma operations_elsewhere key :
  key ∉ view_keys planned →
  (deleted_row key ∧ apply_views rows operations !! key = None) ∨
  (¬ deleted_row key ∧ apply_views rows operations !! key = rows !! key).
Proof.
  intros Hnp. destruct (apply_views_lookup rows operations key operations_distinct)
    as [(v & Hv & Hk & ->)|[Hn ->]].
  - left. rewrite Hops in Hv. apply elem_of_app in Hv as [[Hv _]%elem_of_list_filter|Hv].
    { exfalso. apply Hnp. rewrite <-Hk. apply list_elem_of_fmap. by exists v. }
    split.
    + assert (key ∈ view_keys extra) as [_ Hd]%extra_elem; [|done]. rewrite <-Hk. apply list_elem_of_fmap. by exists v.
    + rewrite Forall_forall in Hdeletes. unfold view_result. by rewrite (Hdeletes v Hv).
  - right. split; [|done]. intros Hd. apply Hn. rewrite Hops. unfold view_keys. rewrite map_app.
    apply elem_of_app. right. by apply extra_elem.
Qed.

(** Where the listing is up to date every operation changes something. *)
Lemma operations_minimal :
  Forall (λ item, vo_kind (pv_op item) = Put → vo_entity_type (pv_op item) ∈ owned) planned →
  (∀ key row, rows !! key = Some row → vr_entity_type row ∈ owned → listed !! key = Some row) →
  Forall (λ item, rows !! view_op_key (pv_op item) ≠ view_result (pv_op item)) operations.
Proof.
  intros Hput Hcurrent. rewrite Hops. apply Forall_app. split.
  - apply Forall_forall. intros item [Hin Hneed]%elem_of_list_filter Heq. rewrite Forall_forall in Hput.
    specialize (Hput item Hin). unfold view_result in Heq. destruct (vo_kind (pv_op item)) eqn:Hk.
    + assert (same (pv_op item) (view_row_of (pv_op item)) = true) as Hs
        by (unfold same; simpl; by rewrite !bool_decide_true).
      assert (stored !! view_op_key (pv_op item) = Some (view_row_of (pv_op item))) as Hst.
      { rewrite Hstored, bool_decide_true; [done|]. apply elem_of_app. left.
        apply (confirm_planned_spec planned listed planned_distinct). exists item. rewrite Hk.
        split; [done|]. split; [done|]. eexists. split; [|exact Hs]. apply Hcurrent; [done|]. by apply Hput. }
      unfold needed in Hneed. rewrite Hst, Hk, Hs in Hneed. done.
    + unfold needed in Hneed. rewrite (stored_delete item Hin Hk), Heq, Hk in Hneed. done.
  - apply Forall_forall. intros item Hin Heq. rewrite Forall_forall in Hdeletes.
    unfold view_result in Heq. rewrite (Hdeletes item Hin) in Heq.
    assert (view_op_key (pv_op item) ∈ view_keys extra) as (_ & _ & row & Hr & _)%extra_elem
      by (apply list_elem_of_fmap; by exists item).
    congruence.
Qed.

(** The rows that are set aside. *)
Lemma unread_elem more row :
  map row_key more = List.filter (stale_row stored false) stale →
  Forall (λ row, rows !! row_key row = Some row) more →
  row ∈ more ↔ listed_key (btree_set owned) (row_key row) ∧ row_key row ∉ view_keys planned ∧
    rows !! row_key row = Some row ∧ vr_entity_type row ∈ owned ∧ vr_entity_id row ∉ streams.
Proof.
  intros Hmk Hmr. rewrite Forall_forall in Hmr.
  assert (row ∈ more ↔ rows !! row_key row = Some row ∧ row_key row ∈ List.filter (stale_row stored false) stale) as ->.
  { rewrite <-Hmk, list_elem_of_fmap. split.
    - intros Hin. split; [by apply Hmr|by exists row].
    - intros [Hr (row' & Hk & Hin)]. assert (row' = row) as <-; [|done]. pose proof (Hmr _ Hin). congruence. }
  rewrite elem_of_list_filter, stale_elem. unfold stale_row. split.
  - intros (Hr & (Hl & Hn) & Hs). destruct (stored !! row_key row) as [row'|] eqn:Hst; [|done].
    apply stored_of_table in Hst. assert (row' = row) as -> by congruence.
    apply andb_prop in Hs as [Ho%bool_decide_eq_true He]. do 4 (split; [done|]).
    intros Hs. by rewrite bool_decide_true in He.
  - intros (Hl & Hn & Hr & Ho & Hs). split; [done|]. split; [done|].
    rewrite (stored_stale (row_key row)), Hr by (by apply stale_elem).
    by rewrite bool_decide_true, bool_decide_false.
Qed.
End spec.

Lemma unowned_none planned :
  Forall (λ item, vo_kind (pv_op item) = Put → vo_entity_type (pv_op item) ∈ owned) planned →
  unowned owned planned = None.
Proof.
  unfold unowned. induction 1 as [|item l Hitem _ IH]; [done|]. simpl.
  destruct (decide (vo_kind (pv_op item) = Put)) as [Hk|Hk].
  - rewrite (bool_decide_true _ Hk), bool_decide_true by (by apply Hitem). exact IH.
  - by rewrite (bool_decide_false _ Hk).
Qed.

End diff.

(** ** An example *)

Section witness.

Definition diff_row (sk owner payload : string) : ViewRow := mkViewRow "p" sk owner "kind" payload 0.

Definition diff_table : gmap (string * string) ViewRow :=
  <[("p", "1")%string := diff_row "1" "a" "x"]> (<[("p", "2")%string := diff_row "2" "a" "old"]>
    {[("p", "3")%string := diff_row "3" "z" "other"]}).

(** The listing also shows a row that is gone. *)
Definition diff_shown (entity_type : string) : list ViewRow :=
  if bool_decide (entity_type = "kind"%string) then
    [diff_row "0" "a" "gone"; diff_row "1" "a" "x"; diff_row "2" "a" "old"; diff_row "3" "z" "other"]
  else [].

Definition diff_put (sk payload : string) : ProjectedView :=
  mkProjectedView "totals" 0 0 (view_put "p" sk "a" "kind" payload).

Definition diff_output : Output :=
  mkOutput None [diff_put "1" "x"; diff_put "4" "new"] ∅ 0 RebuildReport_default false.

Lemma diff_shown_plain key : listed_key diff_shown (btree_set {["kind"%string]}) key → plain_key key.
Proof.
  intros (t & row & Ht & Hin & <-). unfold diff_shown in Hin. case_bool_decide; [|by apply not_elem_of_nil in Hin].
  rewrite !elem_of_cons in Hin.
  destruct Hin as [->|[->|[->|[->|Hin]]]]; [by vm_compute..|by apply not_elem_of_nil in Hin].
Qed.

End witness.
