(* ===== verification/ProjectionPlan.v ===== *)
(** * A plan projects every final state

    [ProjectionRebuild::plan] for current-state projectors on the in-memory repository: the
    operations are those the projectors make of every stream's state at the end of its log, however
    much of the log has been compacted. *)

From S2P Require Import Prelude Types Features Outcome Rebuild Wire Projection Grouping Repository.
From S2P Require Import RebuildBatch Mem MemInvariant MemRefinement MemRead MemSafety MemFence.
From S2P Require Import Retry Program Settle Store LogBackend MemBackend StoreLoad StoreOutcome Views Enumerate.
From S2P Require Import Samples StoreSamples StoreSystem EnumerateMem EnumerateSeeded.
From S2P Require Import RebuildDriver RebuildAtomic JournalScope Compaction JournalConfig.
From S2P Require Import ProjectionRebuild ProjectionAtomic.

Section plan.
Context `{SerdeJson} `{JournalJson} `{EntityKinds}.

(** ** Running alone *)

(** One rebuild running alone, without a lease. *)
Fixpoint run_plan {A} (o : Oracle) (p : Tree (RebuildCall Cursor) A) (w : World) : World * option A :=
  match p with
  | Ret a => (w, Some a)
  | Ask q k =>
      match q in RebuildCall _ B return (B → World → World * option A) → World * option A with
      | PHeads q => λ go, let x := heads_answer o q w in go x.2 x.1
      | q => λ go, match mem_rebuild_read q (w_store w) with Some b => go b w | None => (w, None) end
      end (λ b w, run_plan o (k b) w)
  | Panic | OutOfFuel => (w, None)
  end.

Lemma run_plan_bind {A B} o (p : Tree (RebuildCall Cursor) A) (f : A → Tree (RebuildCall Cursor) B) w :
  run_plan o (bind p f) w =
  match run_plan o p w with (w', Some a) => run_plan o (f a) w' | (w', None) => (w', None) end.
Proof.
  revert w. induction p as [a|C q k IH| |]; intros w; cbn [bind run_plan]; [done| |done|done].
  destruct q; try apply IH; by destruct (mem_rebuild_read _ _).
Qed.

Lemma run_of_heads {A} o (p : Tree (HeadsCall Empty_set) A) w :
  run_plan o (of_heads p) w = run_heads o p w.
Proof.
  revert w. unfold of_heads. induction p as [a|C q k IH| |]; intros w; [done| |done|done].
  cbn [interpret call bind run_plan run_heads]. apply IH.
Qed.

Lemma run_out_bind {A B} o (m : Outputs Cursor A) (f : A → Outputs Cursor B) out w :
  run_plan o (out_bind m f out) w =
  match run_plan o (m out) w with
  | (w', Some (out', Ok a)) => run_plan o (f a out') w'
  | (w', Some (out', Err e)) => (w', Some (out', Err e))
  | (w', None) => (w', None)
  end.
Proof.
  unfold out_bind. rewrite run_plan_bind. by destruct (run_plan o (m out) w) as [w' [[out' [a|e]]|]].
Qed.

(** ** Planning operations *)

(** An operation that a guarded batch can hold. *)
Definition fits (item : ProjectedView) : Prop :=
  view_operation_size (pv_op item) ≤ MAX_COMMIT_ITEM_BYTES ∧
  view_operation_size (pv_op item) + lock_check_size ≤ MAX_COMMIT_BYTES.

(** What a plan without a lease has come to. *)
Record planned_to (ops : list ProjectedView) (entities : Z) (out : Output) : Prop := {
  pt_counted : counted out;
  pt_fence : ou_fence out = None;
  pt_planned : ou_planned out = ops;
  pt_entities : rr_entities (ou_report out) = entities
}.

Lemma planned_entity ops n out :
  planned_to ops n out →
  planned_to ops (n + 1) (set_report out (set_entities (ou_report out) (rr_entities (ou_report out) + 1))).
Proof. intros [[Hk Hd Hp Hdel Hb] Hf Hops He]. split; [by split|done|done|]. simpl. by rewrite He. Qed.

Lemma keep_alive_run o ops n out w :
  planned_to ops n out → run_plan o (output_keep_alive out) w = (w, Some (out, Ok tt)).
Proof. intros Hout. unfold output_keep_alive. by rewrite (pt_fence _ _ _ Hout). Qed.

Lemma plan_item_run o item ops n out w :
  planned_to ops n out → fits item → view_op_key (pv_op item) ∉ view_keys ops →
  ∃ out', run_plan o (plan_item item out) w = (w, Some (out', Ok tt)) ∧ planned_to (ops ++ [item]) n out'.
Proof.
  intros [Hc Hf Hp He] [Hs Hb] Hn. unfold plan_item. cbn [run_plan].
  destruct (output_plan out item) as [out'|e] eqn:Hplan.
  - exists out'. split; [done|]. split.
    + by eapply output_plan_counted.
    + by rewrite (output_plan_fence _ _ _ Hplan).
    + revert Hplan. unfold output_plan. destruct (_ || _); [done|].
      destruct (ou_keys out !! _) as [[[? ?] ?]|]; [done|]. intros [= <-]. simpl. by rewrite Hp.
    + revert Hplan. unfold output_plan. destruct (_ || _); [done|].
      destruct (ou_keys out !! _) as [[[? ?] ?]|]; [done|]. intros [= <-]. simpl. by destruct (vo_kind _).
  - exfalso. revert Hplan. unfold output_plan.
    rewrite (proj2 (Z.ltb_ge _ _) Hs), (proj2 (Z.ltb_ge _ _) Hb). simpl.
    destruct (ou_keys out !! _) as [[[? ?] ?]|] eqn:Hl; [|done].
    exfalso. apply Hn. rewrite <-Hp. apply (ct_keys _ Hc). by eexists.
Qed.

Lemma plan_items_run o items : ∀ ops n out w,
  planned_to ops n out → Forall (λ item, fits (unconditioned item)) items →
  NoDup (view_keys (ops ++ map unconditioned items)) →
  ∃ out', run_plan o (out_each (λ item, plan_item (unconditioned item)) items out) w = (w, Some (out', Ok tt)) ∧
    planned_to (ops ++ map unconditioned items) n out'.
Proof.
  induction items as [|item items IH]; intros ops n out w Hout Hfit Hnd; cbn [out_each map].
  { exists out. by rewrite app_nil_r. }
  apply Forall_cons in Hfit as [Hfit Hall]. cbn [map] in Hnd. rewrite cons_middle, app_assoc in Hnd |- *.
  destruct (plan_item_run o (unconditioned item) ops n out w Hout Hfit) as (out1 & Hrun & Hout1).
  { unfold view_keys in Hnd. rewrite !map_app in Hnd. apply NoDup_app in Hnd as [Hnd _].
    apply NoDup_app in Hnd as (_ & Hd & _). intros Hin. apply (Hd _ Hin). apply list_elem_of_here. }
  rewrite run_out_bind, Hrun. by apply IH.
Qed.

(** ** The rows of a final state *)

(** What the projectors make of the state at the end of a stream's log. *)
Definition final_rows (a : Abs) (current : list (Z * CommitProjector)) (scope : ScopeOf) (id : EntityId)
  : option (list ProjectedView) :=
  match replay_log (A := sc_aggregate scope) (log_of a id) with
  | None => None
  | Some state =>
      match (let? encoded := ag_to_json (Aggregate := sc_aggregate scope) state in
             project_with current
               (mkCommitView "" [commit_stream_new id (sc_entity_type scope) [] encoded])) with
      | Ok items => Some (map unconditioned items)
      | Err _ => None
      end
  end.

(** The rows of every stream of a registered type, in the order of the IDs. *)
Definition scope_rows (a : Abs) (s : MemStore) (current : list (Z * CommitProjector)) (scope : ScopeOf)
  : option (list ProjectedView) :=
  match mapM (final_rows a current scope) (head_ids s (sc_entity_type scope)) with
  | Some rows => Some (concat rows)
  | None => None
  end.

Lemma mapM_cons_some {A B} (f : A → option B) x l k :
  mapM f (x :: l) = Some k → ∃ y ys, f x = Some y ∧ mapM f l = Some ys ∧ k = y :: ys.
Proof.
  simpl. destruct (f x) as [y|]; [|done]. simpl. destruct (mapM f l) as [ys|]; [|done]. simpl.
  intros [= <-]. by exists y, ys.
Qed.

(** A stream of the aggregate whose log fits. *)
Definition loadable (a : Abs) (scope : ScopeOf) (id : EntityId) : Prop :=
  kind id = sc_aggregate scope ∧ llen (log_of a id) < i64_max.

Lemma plan_states_run o a w current scope ids : ∀ fuel ops rows n out streams,
  AggregateLaws (sc_aggregate scope) → store_inv (a, w) → Forall (loadable a scope) ids →
  mapM (final_rows a current scope) ids = Some rows →
  planned_to ops n out → Forall fits (concat rows) → NoDup (view_keys (ops ++ concat rows)) →
  (length ids < fuel)%nat →
  ∃ out', run_plan o (plan_states fuel current false scope streams (mkSeeded (sc_entity_type scope) (Some ids)) out) w
      = (w, Some (out', Ok streams)) ∧
    planned_to (ops ++ concat rows) (n + llen ids) out'.
Proof.
  induction ids as [|id ids IH]; intros [|fuel] ops rows n out streams Hlaws Hi Hall Hrows Hout Hfit Hnd Hfuel;
    simpl in Hfuel; try lia.
  { injection Hrows as <-. exists out. cbn [plan_states]. rewrite run_out_bind. simpl. rewrite app_nil_r.
    split; [done|]. unfold llen. simpl. by rewrite Z.add_0_r. }
  apply Forall_cons in Hall as [[Hk Hm] Hall]. apply mapM_cons_some in Hrows as (items & rest & Hid & Hrest & ->).
  unfold final_rows in Hid. destruct (replay_log _) as [state|] eqn:Hlog; [|done].
  destruct (ag_to_json state) as [encoded|] eqn:Hjson; [|done]. cbn [result_bind] in Hid.
  destruct (project_with _ _) as [projected|] eqn:Hproj; [|done]. injection Hid as <-.
  destruct (load_aggregate_alone (A := sc_aggregate scope) o a w id Hk Hi Hm) as (item & Hload & loaded & -> & Hlid & _ & Hst);
    [by eexists|]. rewrite Hlog in Hst. injection Hst as Hst.
  cbn [plan_states]. rewrite run_out_bind. unfold out_call at 1, next_final_state. rewrite !run_plan_bind, run_of_heads.
  cbn [next_seeded se_ids next_loaded]. rewrite run_heads_bind, run_of_repository, Hload.
  cbn [run_heads run_plan result_bind]. rewrite <-Hst, Hjson. cbn [result_bind]. rewrite Hlid.
  rewrite run_out_bind. unfold plan_state. cbv zeta. rewrite run_out_bind. unfold out_result at 1. cbn [run_plan].
  rewrite Hproj. cbv beta iota. rewrite run_out_bind. cbn [concat] in Hfit, Hnd |- *. rewrite app_assoc in Hnd |- *.
  apply Forall_app in Hfit as [Hf1 Hf2].
  destruct (plan_items_run o projected ops n out w Hout) as (out1 & -> & Hout1).
  { apply Forall_forall. intros x Hx. rewrite Forall_forall in Hf1. by apply Hf1, list_elem_of_fmap_2. }
  { unfold view_keys in Hnd |- *. rewrite map_app in Hnd. by apply NoDup_app in Hnd as [? _]. }
  rewrite run_out_bind. unfold out_report at 1, out_modify. cbn [run_plan]. cbv beta iota.
  apply planned_entity in Hout1. rewrite (keep_alive_run o _ _ _ w Hout1). cbv beta iota.
  destruct (IH fuel _ rest (n + 1) _ streams Hlaws Hi Hall Hrest Hout1 Hf2 Hnd) as (out' & Hrun' & Hout'); [lia|].
  exists out'. split; [exact Hrun'|]. replace (n + llen (id :: ids)) with (n + 1 + llen ids); [done|].
  unfold llen. simpl. lia.
Qed.

Lemma plan_scopes_run o a w current scopes : ∀ fuel ops rows n out streams,
  store_inv (a, w) →
  Forall (λ scope, AggregateLaws (sc_aggregate scope) ∧
    Forall (loadable a scope) (head_ids (w_store w) (sc_entity_type scope)) ∧
    (length (head_ids (w_store w) (sc_entity_type scope)) < fuel)%nat) scopes →
  mapM (scope_rows a (w_store w) current) scopes = Some rows →
  planned_to ops n out → Forall fits (concat rows) → NoDup (view_keys (ops ++ concat rows)) →
  ∃ out', run_plan o (plan_scopes fuel current false scopes streams out) w = (w, Some (out', Ok streams)) ∧
    planned_to (ops ++ concat rows)
      (n + sumZ (map (λ scope, llen (head_ids (w_store w) (sc_entity_type scope))) scopes)) out'.
Proof.
  induction scopes as [|scope scopes IH]; intros fuel ops rows n out streams Hi Hall Hrows Hout Hfit Hnd.
  { injection Hrows as <-. exists out. simpl. by rewrite app_nil_r, Z.add_0_r. }
  apply Forall_cons in Hall as [(Hlaws & Hload & Hfuel) Hall].
  apply mapM_cons_some in Hrows as (here & rest & Hhere & Hrest & ->).
  unfold scope_rows in Hhere. destruct (mapM _ (head_ids _ _)) as [rows|] eqn:Hids; [|done]. injection Hhere as <-.
  cbn [concat] in Hfit, Hnd |- *. apply Forall_app in Hfit as [Hf1 Hf2]. rewrite app_assoc in Hnd |- *.
  destruct (plan_states_run o a w current scope _ fuel ops rows n out streams Hlaws Hi Hload Hids Hout Hf1)
    as (out1 & Hrun & Hout1); [|done|].
  { unfold view_keys in Hnd |- *. rewrite map_app in Hnd. by apply NoDup_app in Hnd as [? _]. }
  destruct (IH fuel _ rest _ out1 streams Hi Hall Hrest Hout1 Hf2 Hnd) as (out' & Hrun' & Hout').
  exists out'. cbn [plan_scopes]. rewrite run_out_bind.
  assert (run_plan o (plan_states fuel current false scope streams (final_states scope) out) w = (w, Some (out1, Ok streams))) as ->.
  { rewrite <-Hrun. destruct fuel as [|fuel]; [lia|]. cbn [plan_states]. rewrite !run_out_bind.
    unfold out_call, next_final_state. rewrite !run_plan_bind, !run_of_heads. done. }
  split; [exact Hrun'|]. cbn [map]. unfold sumZ in *. simpl. by rewrite Z.add_assoc.
Qed.

(** C17. A plan projects every final state. For current-state projectors, on a store nobody writes
    meanwhile, a plan succeeds whenever every stream of a registered type folds, encodes and
    projects, and the rows have distinct keys and fit a batch. Its operations are exactly what the
    projectors make, without conditions, of each stream's state at the end of its whole log, in the
    order of the types and the IDs, however much of a log is compacted behind a snapshot; every
    stream is counted; and nothing is written. *)
Theorem plan_projects_final_states (o : Oracle) (r : ProjectionRebuild) (fuel : nat) (a : Abs) (w : World)
    (rows : list (list ProjectedView)) :
  check_rebuild r = Ok tt → pr_journal r = None → pr_diff r = None →
  Forall (λ projector, pj_history projector = []) (pr_projectors r) →
  store_inv (a, w) →
  Forall (λ scope, AggregateLaws (sc_aggregate scope) ∧
    Forall (loadable a scope) (head_ids (w_store w) (sc_entity_type scope)) ∧
    (length (head_ids (w_store w) (sc_entity_type scope)) < fuel)%nat) (pr_scopes r) →
  mapM (scope_rows a (w_store w) (current_projectors r)) (pr_scopes r) = Some rows →
  NoDup (view_keys (concat rows)) → Forall fits (concat rows) →
  ∃ plan, run_plan o (projection_plan mem_stream_all_events r fuel) w = (w, Some (Ok plan)) ∧
    rp_operations plan = concat rows ∧
    rr_entities (rp_report plan) =
      sumZ (map (λ scope, llen (head_ids (w_store w) (sc_entity_type scope))) (pr_scopes r)) ∧
    rr_puts (rp_report plan) = kind_count Put (concat rows) ∧
    rr_deletes (rp_report plan) = kind_count Delete (concat rows).
Proof.
  intros Hcheck Hj Hdiff Hhist Hi Hscopes Hrows Hnd Hfit.
  assert (history_projectors r = []) as Hh.
  { unfold history_projectors. generalize 0 as i. induction Hhist as [|p l Hp _ IH]; intros i; [done|].
    simpl. rewrite Hp. simpl. apply IH. }
  assert (history_types r = []) as Ht by (unfold history_types; by rewrite Hh).
  assert (nil_b (current_projectors r) = false) as Hcur.
  { unfold current_projectors. destruct (pr_projectors r) as [|p l] eqn:Hp.
    - unfold check_rebuild, has_journal in Hcheck. by rewrite Hp, Hj in Hcheck.
    - apply Forall_cons in Hhist as [Hp0 _]. simpl. by rewrite Hp0. }
  unfold projection_plan. rewrite Hcheck, run_plan_bind. unfold rebuild. cbv zeta. rewrite Ht, Hh.
  unfold journal_types. rewrite Hj. rewrite run_out_bind. cbn [read_histories out_ret run_plan].
  rewrite run_out_bind. cbn [read_journal_types out_ret run_plan]. rewrite run_out_bind.
  unfold out_report at 1, out_modify. cbn [run_plan]. cbv beta iota.
  rewrite run_out_bind. cbn [out_ret run_plan]. rewrite run_out_bind. cbn [nil_b out_ret run_plan].
  rewrite run_out_bind, Hcur, Hdiff.
  match goal with |- context [plan_scopes _ _ _ _ ?st ?out] =>
    destruct (plan_scopes_run o a w (current_projectors r) (pr_scopes r) fuel [] rows 0 out st Hi Hscopes Hrows)
      as (out' & Hrun & [[Hk Hd Hp Hdel Hb] Hf Hops He]) end; [|done|done|].
  { split; [|done|done|done]. split; try done; simpl; [|constructor]. intros key. rewrite lookup_empty.
    split; [by intros [? ?]|intros Hin; by apply not_elem_of_nil in Hin]. }
  rewrite bool_decide_false by (by intros [? ?]). rewrite Hrun. cbv beta iota.
  rewrite run_out_bind. cbn [plan_replayed out_ret run_plan]. rewrite run_out_bind.
  cbn [plan_journal out_ret run_plan]. unfold compare. rewrite Hdiff. cbn [out_ret run_plan snd fst result_bind].
  eexists. split; [reflexivity|]. cbn [rp_operations rp_report]. simpl in Hops. rewrite <-Hops at 1.
  split; [done|]. split; [exact He|]. rewrite Hp, Hdel, Hops. done.
Qed.
End plan.

(** ** An example *)

Section witness.
#[local] Existing Instance sample_json.
#[local] Existing Instance text_aggregate.
#[local] Existing Instance no_journal_json.

(** The one stream is compacted down to its snapshot. *)
Lemma plan_projects_final_states_witness :
  ∃ plan, run_plan sample_oracle (projection_plan mem_stream_all_events totals_rebuild 2) compacted_world
      = (compacted_world, Some (Ok plan)) ∧
    rp_operations plan = [mkProjectedView "totals" 0 0 (view_put "totals" "t" "t" "total" "ab")] ∧
    rr_entities (rp_report plan) = 1 ∧ mem_events (w_store compacted_world) "t" = [].
Proof.
  destruct compacted_world_inv as (a & Hi & _ & Hlog).
  assert (head_ids (w_store compacted_world) "Text" = ["t"%string]) as Hids by (vm_compute; reflexivity).
  destruct (plan_projects_final_states sample_oracle totals_rebuild 2 a compacted_world
    [[mkProjectedView "totals" 0 0 (view_put "totals" "t" "t" "total" "ab")]]) as (plan & Hrun & Hops & Hn & _).
  - vm_compute. reflexivity.
  - reflexivity.
  - reflexivity.
  - constructor; [reflexivity|constructor].
  - exact Hi.
  - constructor; [|constructor]. split; [exact text_laws|]. cbn [sc_entity_type sc_aggregate].
    change (ag_TYPE (Aggregate := text_aggregate)) with "Text"%string. rewrite Hids.
    split; [constructor; [|constructor]|simpl; lia].
    split; [reflexivity|]. rewrite Hlog. vm_compute. reflexivity.
  - cbn [mapM totals_rebuild aggregate aggregate_as with_projector pr_scopes projection_rebuild_new app].
    unfold scope_rows. cbn [sc_entity_type]. change (ag_TYPE (Aggregate := text_aggregate)) with "Text"%string.
    rewrite Hids. cbn [mapM]. unfold final_rows. rewrite Hlog. vm_compute. reflexivity.
  - vm_compute. constructor; [apply not_elem_of_nil|constructor].
  - constructor; [|constructor]. split; vm_compute; discriminate.
  - exists plan. split; [exact Hrun|]. split; [exact Hops|]. split; [|vm_compute; reflexivity].
    rewrite Hn. vm_compute. reflexivity.
Defined.
End witness.

(** * A rebuild beside a compaction

    The rebuild lock keeps commits and other writers of rows out; snapshots and compaction are not
    writes of rows and go on. A load that reads a stream's snapshot before they happen and its
    events after sees an older state and no gap. A commit from such a state is refused; the row a
    rebuild computes from it is written. *)

#[local] Existing Instance sample_json.
#[local] Existing Instance text_aggregate.
#[local] Existing Instance no_journal_json.

(** Two events of a stream, committed with the row they leave. *)
Definition race_commit : Commit Empty_set :=
  mkCommit "t" [text_event "t" 1 "a"; text_event "t" 2 "b"] None []
    [mkProjectedView "totals" 0 0 (view_put "totals" "t" "t" "total" "ab")] None.

Definition race_world : RWorld :=
  let r := (mem_commit race_commit mem_new).1 in mkRWorld r [] [] [mr_store r].

(** The snapshot of both events. *)
Definition race_snapshot : SerializedSnapshot := mkSnapshot "Text" "t" 1 2 "ab".

Definition outside_turn (c : mem_call) (w : RWorld) : RWorld :=
  moved w (with_store (rw_repository w)
    (mr_store (exec c (repository_of (rw_store w) (handle_of mem_new))).1)).

Definition race_clocks : Clocks := mkClocks 100 0.

Definition race_program : Tree (RebuildCall Cursor) (Result RebuildReport) :=
  projection_run mem_stream_all_events totals_rebuild 5 "owner" (mkDuration 60 0).

(** The lock is taken and the snapshot, of which there is none, is read; then another client writes
    one and compacts the stream down to it; then the rebuild goes on. *)
Definition race_before : RWorld * Tree (RebuildCall Cursor) (Result RebuildReport) :=
  Nat.iter 6 (rebuild_turn race_clocks)
    (race_world, race_program).

Definition race_compacted : RWorld :=
  outside_turn (CCompact "t" 2) (outside_turn (CPutSnapshot race_snapshot) race_before.1).

Definition race_end : RWorld * Tree (RebuildCall Cursor) (Result RebuildReport) :=
  Nat.iter 20 (rebuild_turn race_clocks) (race_compacted, race_before.2).

Lemma outside_turn_step {B : Type} (ps : list (Tree (RebuildCall Cursor) B)) c w :
  outside_call (rw_granted w) c → generation (rw_store w) ≤ generation (rw_store (outside_turn c w)) →
  rtc (pool_step outside) (w, ps) (outside_turn c w, ps).
Proof. intros Hc Hg. apply rtc_once, pool_env. exists (handle_of mem_new), c. by split; [|split]. Qed.

Lemma race_generations :
  generation (rw_store race_before.1) = 1 ∧
  generation (rw_store (outside_turn (CPutSnapshot race_snapshot) race_before.1)) = 1 ∧
  generation (rw_store race_compacted) = 1.
Proof. repeat split; vm_compute; reflexivity. Qed.

Lemma race_steps : rtc (pool_step outside) (race_world, [race_program]) (race_end.1, [race_end.2]).
Proof.
  destruct race_generations as (H1 & H2 & H3).
  transitivity (race_before.1, [race_before.2]);
    [exact (rebuild_turns_steps race_clocks 6 (race_world, race_program))|].
  transitivity (race_compacted, [race_before.2]);
    [|exact (rebuild_turns_steps race_clocks 20 (race_compacted, race_before.2))].
  transitivity (outside_turn (CPutSnapshot race_snapshot) race_before.1, [race_before.2]);
    apply outside_turn_step; [exact I| |exact I|].
  - by rewrite H1, H2.
  - fold race_compacted. by rewrite H2, H3.
Qed.

