(* ===== verification/JournalSystem.v ===== *)
(** * The journal as a concurrent system

    Clients that commit through a journal repository, page through a journal, compact it and release
    leases by force, any number of them at once on the in-memory repository: what their calls leave
    behind and what they were told. *)

From S2P Require Import Prelude Types Features Outcome Rebuild Projection Repository Retry Mem.
From S2P Require Import MemInvariant MemRefinement MemSafety Program LogBackend MemBackend Sha256.
From S2P Require Import JournalScope Compaction JournalConfig JournalRead JournalRepository JournalInvariant.
From S2P Require Import JournalStage JournalInvariant Compact CompactInvariant.
From S2P Require Import JournalClients JournalDrive JournalPages CompactLease.
From S2P Require Import CompactChunks CompactSafe JournalSnapshot Samples JournalSamples.

(** What a client may ask for. *)
Inductive JournalRequest :=
| RCommit (j : Journal) (commit : Commit Empty_set)
| RTransaction (j : Journal) (commit : TransactionCommit Empty_set)
| RPage (scope : Scope) (after limit : Z)
| RSnapshot (scope : Scope)
| RCompact (scope : Scope) (through : Z) (owner : string) (lease : Duration)
| RForceRelease (scope : Scope) (owner : string).

Inductive JournalReply :=
| Receipt (r : Result (list SerializedEvent))
| Page (r : Result JournalPage)
| Snapshot (r : Result (list JournalRow))
| Report (r : Result CompactionReport)
| Released_ (r : Result unit).

Section system.
Context `{SJ : SerdeJson} `{J : JournalJson} {Hlaws : JournalJsonLaws J} `{CJ : CompactionJson}.
Context {Hclaws : CompactionJsonLaws J CJ}.
Context (box_text : BoxError → string) (repository_name : string).

Definition serve (q : JournalRequest) : JProg Empty_set JournalReply :=
  match q with
  | RCommit j commit => await r := journal_commit box_text repository_name j commit in Ret (Receipt r)
  | RTransaction j commit =>
      await r := journal_commit_transaction box_text repository_name j commit in Ret (Receipt r)
  | RPage scope after limit => await r := page scope after limit in Ret (Page r)
  | RSnapshot scope => await r := read_snapshot scope in Ret (Snapshot r)
  | RCompact scope through owner lease =>
      await r := compact_with_lease scope through owner lease in Ret (Report r)
  | RForceRelease scope owner => await r := force_release_compaction scope owner in Ret (Released_ r)
  end.

(** The arguments' types, and journals as their builders make them. *)
Definition request_fits (q : JournalRequest) : Prop :=
  match q with
  | RCommit j commit => journalable j commit
  | RTransaction j commit => journalable j commit
  | RPage _ after limit => 0 ≤ after ≤ u64_max ∧ 0 ≤ limit
  | RCompact _ through _ _ => 0 ≤ through
  | RSnapshot _ | RForceRelease _ _ => True
  end.

(** What a reply says of the journal, from then on. *)
Definition reply_holds (q : JournalRequest) (reply : JournalReply) (g : Ghost) : Prop :=
  match q, reply with
  | RCommit j commit, Receipt r => journal_answer box_text j commit r g
  | RTransaction j commit, Receipt r => journal_answer box_text j commit r g
  | RPage scope after limit, Page r => page_answer scope after limit r g
  | RSnapshot scope, Snapshot r => snapshot_answer scope r g
  | RCompact scope through _ _, Report r => compacts scope through r g
  | RForceRelease _ _, Released_ _ => True
  | _, _ => False
  end.

Lemma journaled_later {C} `{Sends C} j (c : C) r g g' :
  journal_le g g' → journal_answer box_text j c r g → journal_answer box_text j c r g'.
Proof.
  intros Hle Hr receipt Hreceipt. destruct (Hr receipt Hreceipt) as (plan & al & H1 & H2 & H3 & H4).
  exists plan, al. do 3 (split; [done|]). destruct H4 as [?|(batches & Hin & Hb)]; [by left|right].
  exists batches. split; [|done]. destruct (journal_le_commits _ _ Hle) as [rest ->].
  apply elem_of_app. by left.
Qed.

Lemma reply_later q reply g g' : journal_inv g → journal_le g g' → reply_holds q reply g → reply_holds q reply g'.
Proof.
  intros Hg Hle. destruct q, reply; simpl; try done.
  - by apply journaled_later.
  - by apply journaled_later.
  - by apply page_answer_later.
  - by apply snapshot_answer_later.
  - intros Hc a Ha. etrans; [by apply (Hc a)|apply (jl_floor _ _ Hle)].
Qed.

Lemma serve_assures i q g :
  request_fits q → journal_inv g →
  @assures _ _ (client_handler i) journal_inv journal_le (client_role i) _ (serve q) (reply_holds q) g.
Proof.
  intros Hq Hg. destruct q; cbn [serve]; cbn [request_fits] in Hq; step_bind.
  - eapply assures_mono; [|exact (drive_assures (C := Commit Empty_set) i box_text repository_name 
      (λ _ _ _ _ He, He) j commit g Hq Hg)].
    intros r g' Hg' _ Hr. by returns.
  - eapply assures_mono; [|exact (drive_assures (C := TransactionCommit Empty_set) i box_text repository_name 
      (λ _ _ _ _ He, He) j commit g Hq Hg)].
    intros r g' Hg' _ Hr. by returns.
  - destruct Hq. eapply assures_mono; [|by apply page_assures]. intros r g' Hg' _ Hr. by returns.
  - eapply assures_mono; [|apply calm_client; by apply read_snapshot_calm]. intros r g' Hg' _ [_ Hr]. by returns.
  - eapply assures_mono; [|by apply compact_with_lease_assures]. intros r g' Hg' _ Hr. by returns.
  - eapply assures_mono; [|by apply force_release_assures]. intros r g' Hg' _ Hr. by returns.
Qed.

(** No one else changes the store. *)
Definition undisturbed (w w' : JWorld) : Prop := False.

(** The steps of clients on the in-memory repository, while no lease's token is at its limit. *)
Definition journal_step : relation (JWorld * list (JProg Empty_set JournalReply)) :=
  @pool_step _ _ _ bounded_backend undisturbed.

Definition alive {A} (p : JProg Empty_set A) : bool :=
  match p with Ret _ | Ask _ _ => true | Panic | OutOfFuel => false end.

Lemma journal_clients_sound requests g w' ps' :
  journal_inv g → Forall request_fits requests →
  rtc journal_step (gh_world g, map serve requests) (w', ps') →
  ∃ g', gh_world g' = w' ∧ journal_inv g' ∧ journal_le g g' ∧ Forall (λ p, alive p = true) ps' ∧
    ∀ i q reply, requests !! i = Some q → ps' !! i = Some (Ret reply) → reply_holds q reply g'.
Proof.
  intros Hg Hfit Hrtc.
  destruct (@assures_pool _ _ _ _ bounded_backend gh_world journal_inv journal_le _ client_handler client_role
    undisturbed (λ i reply g, ∀ q, requests !! i = Some q → reply_holds q reply g)) with
    (g := g) (ps := map serve requests) (w' := w') (ps' := ps') as (g' & Hw & Hg' & Hle & Hends); try done.
  - intros i g1 B q b w1 Hg1 Hp. by apply (journal_law i g1 B q b w1 (ji_represents _ Hg1)).
  - intros i j g1 g2 Hne _ _ [Hle Hl]. split; [done|]. by apply Hl, not_eq_sym.
  - intros i reply x y Hx _ [Hle _] Hr q Hq. by eapply reply_later, Hr.
  - intros i p Hp. rewrite list_lookup_fmap in Hp. destruct (requests !! i) as [q|] eqn:Hq; [|done].
    injection Hp as <-. rewrite Forall_lookup in Hfit.
    eapply assures_mono; [|by apply serve_assures; [apply (Hfit i)|]]. intros r g1 _ _ Hr q' [= <-]. exact Hr.
  - exists g'. split; [done|]. split; [done|]. split; [done|]. split.
    + apply Forall_lookup. intros i p Hp. specialize (Hends i p Hp). by destruct p.
    + intros i q reply Hq Hp. specialize (Hends i _ Hp). destruct Hends as [_ Hr]. by apply Hr.
Qed.

(** ** What the clients leave and are told *)

(** C10. A journal is dense. Whatever number of clients commit, read, compact and release leases at
    once, none of them panics or runs without end, and in every state they reach there is one log
    behind the store such that, in every scope, the entries are numbered from one without a gap in
    the order of the commits, the counter is the last number, and every entry above the compaction
    floor has its row, with no other row in the partition. *)
Theorem journal_positions_are_dense requests g w' ps' :
  journal_inv g → Forall request_fits requests →
  rtc journal_step (gh_world g, map serve requests) (w', ps') →
  Forall (λ p, alive p = true) ps' ∧
  ∃ a, abs_le (gh_abs g) a ∧ mem_represents a (jw_world w') ∧
  ∀ scope, let journal := journal_of (ab_commits a) scope in
    map fst journal = seqZ 1 (llen journal) ∧
    mem_read_counter (jw_store w') scope = Ok (llen journal) ∧
    (∀ p e, (p, e) ∈ journal → floor_of (ms_views (jw_store w')) scope < p →
       ∃ v, row_view scope p (as_encoded e) = Ok v ∧
         ms_views (jw_store w') !! (row_pk scope, row_sk p) = Some v) ∧
    ∀ sk v, ms_views (jw_store w') !! (row_pk scope, sk) = Some v →
      ∃ p e, (p, e) ∈ journal ∧ sk = row_sk p ∧ row_view scope p (as_encoded e) = Ok v.
Proof.
  intros Hg Hfit Hrtc. destruct (journal_clients_sound _ _ _ _ Hg Hfit Hrtc) as (g' & <- & Hg' & Hle & Halive & _).
  split; [done|]. exists (gh_abs g'). split; [apply Hle|]. split; [apply Hg'|]. intros scope journal.
  pose proof (ji_journal _ Hg') as Hok. split; [apply (jk_positions _ _ Hok)|].
  split; [apply (read_counter_ok _ (jw_store (gh_world g')) Hok)|].
  split; [apply (jk_present _ _ Hok)|apply (jk_only _ _ Hok)].
Qed.

(** C12. A receipt holds. What a client was told it committed is in the log of every later state:
    its events as they were sent, each with a place in exactly the scopes it resolved to, and each
    at that place in the scope's journal. *)
Theorem journal_receipts_hold requests g w' ps' i j commit receipt :
  journal_inv g → Forall request_fits requests →
  rtc journal_step (gh_world g, map serve requests) (w', ps') →
  requests !! i = Some (RCommit j commit) → ps' !! i = Some (Ret (Receipt (Ok receipt))) →
  ∃ a plan places, mem_represents a (jw_world w') ∧ plan_of box_text j commit = Ok plan ∧
    map (map al_scope) places = plan ∧
    receipt = zip_with set_allocations (concat (event_streams commit)) places ∧
    ∀ event place, event ∈ receipt → place ∈ allocations_of event →
      (al_position place, event) ∈ journal_of (ab_commits a) (al_scope place).
Proof.
  intros Hg Hfit Hrtc Hq Hp.
  destruct (journal_clients_sound _ _ _ _ Hg Hfit Hrtc) as (g' & <- & Hg' & _ & _ & Hall).
  destruct (Hall i _ _ Hq Hp receipt eq_refl) as (plan & places & H1 & H2 & H3 & H4).
  exists (gh_abs g'), plan, places. split; [apply Hg'|]. do 3 (split; [done|]).
  intros event place He Ha. destruct H4 as [->|(batches & Hin & Hb)]; [by apply not_elem_of_nil in He|].
  apply elem_of_entries. split; [|by exists place]. rewrite <-Hb in He.
  apply elem_of_concat. exists (concat (map snd batches)). split; [done|].
  by apply (list_elem_of_fmap_2 (λ batches, concat (map snd batches))).
Qed.


(** C11. Compaction loses nothing. In every state the clients reach, also with compactions underway,
    given up or taken over, a scope's snapshot reads and, with the rows after it, is the whole of
    the scope's journal, unless SHA-256 collides on the scope's chunks. *)
Theorem compaction_loses_nothing requests g w' ps' :
  journal_inv g → Forall request_fits requests →
  rtc journal_step (gh_world g, map serve requests) (w', ps') →
  ∃ a, mem_represents a (jw_world w') ∧ abs_le (gh_abs g) a ∧
  ∀ o scope limit, let journal := journal_of (ab_commits a) scope in
  mem_read_counter (jw_store w') scope = Ok (llen journal) ∧
  (collision_free (ab_commits a) scope → llen journal ≤ limit →
  ∃ snapshot rest,
    run_journal o (read_snapshot scope) w' = (w', Some (Ok snapshot)) ∧
    mem_read_rows (jw_store w') scope (llen snapshot) limit = Ok rest ∧
    snapshot ++ rest = map (journal_row scope) journal).
Proof.
  intros Hg Hfit Hrtc. destruct (journal_clients_sound _ _ _ _ Hg Hfit Hrtc) as (g' & <- & Hg' & Hle & _).
  exists (gh_abs g'). split; [apply Hg'|]. split; [apply Hle|]. intros o scope limit journal.
  split; [apply (read_counter_ok _ (jw_store (gh_world g')) (ji_journal _ Hg'))|].
  intros Hfree Hlimit. by apply whole_journal.
Qed.

(** C14. A compaction ends. Through lost leases, takeovers and refused writes it returns, and when it
    reports success the scope is compacted through the checkpoint it was asked for and stays so. *)
Theorem compaction_report_holds requests g w' ps' i scope through owner lease report :
  journal_inv g → Forall request_fits requests →
  rtc journal_step (gh_world g, map serve requests) (w', ps') →
  requests !! i = Some (RCompact scope through owner lease) →
  (∀ p, ps' !! i = Some p → alive p = true) ∧
  (ps' !! i = Some (Ret (Report (Ok report))) → through ≤ floor_of (ms_views (jw_store w')) scope).
Proof.
  intros Hg Hfit Hrtc Hq.
  destruct (journal_clients_sound _ _ _ _ Hg Hfit Hrtc) as (g' & <- & Hg' & _ & Halive & Hall). split.
  - intros p Hp. rewrite Forall_lookup in Halive. by apply (Halive i).
  - intros Hp. by apply (Hall i _ _ Hq Hp report).
Qed.
End system.

(** ** Runs *)

(** A journal of one entry has one chunk. *)
Lemma single_chunk `{JournalJson} `{CompactionJson} commits scope : journal_length commits scope ≤ 1 → collision_free commits scope.
Proof.
  intros Hlen index from from' texts texts' (Hi & Hne & Hh) (Hi' & Hne' & Hh') _.
  pose proof (holds_from_bound _ _ _ _ Hh Hne) as Hb. pose proof (holds_from_bound _ _ _ _ Hh' Hne') as Hb'.
  destruct texts as [|t [|]], texts' as [|t' [|]]; unfold llen in *; simpl in *; try done; try lia.
  assert (from = 1) as -> by lia. assert (from' = 1) as -> by lia. split; [done|].
  destruct Hh as [_ He], Hh' as [_ He']. inversion He as [|x1 y1 l1 k1 E1 _ Hx]; subst.
  inversion He' as [|x2 y2 l2 k2 E2 _ Hx2]; subst. simpl in *. congruence.
Qed.

Section witnesses.
#[local] Existing Instance sample_json.
#[local] Existing Instance sample_journal_json.
#[local] Existing Instance sample_compaction_json.

Lemma empty_journal_inv : journal_inv (mkGhost abs_initial empty_jworld (λ _ _, None)).
Proof.
  split.
  - split; [apply refines_initial|]. split; [apply mem_new_ok|]. intros id.
    change (numbered 1 (default [] ((∅ : gmap EntityId (list SerializedEvent)) !! id))).
    by rewrite lookup_empty.
  - apply journal_ok_empty.
  - apply compaction_ok_empty.
  - done.
  - intros scope. reflexivity.
Qed.

(** A client commits, an operator compacts, and two readers come after. *)
Definition sample_requests : list JournalRequest :=
  [RCommit sample_journal (sample_commit "a" [1]); RCompact "team" 1 "op" (mkDuration 60 0);
   RPage "team" 0 10; RSnapshot "team"].

Definition sample_turns : list (nat * JOracle) :=
  map (λ i, (i, sample_joracle)) (repeat 0%nat 12 ++ repeat 1%nat 60 ++ repeat 2%nat 10 ++ repeat 3%nat 10).

Definition sample_run : JWorld * list (JProg Empty_set JournalReply) :=
  journal_schedule sample_turns (empty_jworld, map (serve no_text "memory") sample_requests).

Lemma sample_steps :
  rtc journal_step (empty_jworld, map (serve no_text "memory") sample_requests) (sample_run.1, sample_run.2).
Proof. rewrite <-surjective_pairing. apply journal_schedule_steps. vm_compute. reflexivity. Qed.

Lemma sample_fits : Forall request_fits sample_requests.
Proof.
  constructor; [|constructor; [|constructor; [|constructor; [done|constructor]]]].
  - split; [exact sample_resolver_ok|exact sample_policy_ok|constructor].
  - done.
  - unfold request_fits, u64_max. lia.
Qed.

Lemma journal_positions_are_dense_witness :
  Forall (λ p, alive p = true) sample_run.2 ∧ mem_read_counter (jw_store sample_run.1) "team" = Ok 1.
Proof.
  destruct (journal_positions_are_dense no_text "memory" sample_requests
    (mkGhost abs_initial empty_jworld (λ _ _, None)) sample_run.1 sample_run.2) as [Halive _].
  - exact empty_journal_inv.
  - exact sample_fits.
  - exact sample_steps.
  - split; [exact Halive|]. vm_compute. reflexivity.
Defined.

(** The events of the first client's receipt. *)
Definition sample_receipt : list SerializedEvent :=
  match sample_run.2 !! 0%nat with Some (Ret (Receipt (Ok events))) => events | _ => [] end.

Lemma journal_receipts_hold_witness :
  sample_run.2 !! 0%nat = Some (Ret (Receipt (Ok sample_receipt))) ∧
  ∃ a places, length sample_receipt = 1%nat ∧
    sample_receipt = zip_with set_allocations [sample_event "a" 1] places ∧
    mem_represents a (jw_world sample_run.1).
Proof.
  assert (sample_run.2 !! 0%nat = Some (Ret (Receipt (Ok sample_receipt)))) as Hrun by (vm_compute; reflexivity).
  split; [exact Hrun|].
  destruct (journal_receipts_hold no_text "memory" sample_requests
    (mkGhost abs_initial empty_jworld (λ _ _, None)) sample_run.1 sample_run.2 0%nat sample_journal
    (sample_commit "a" [1]) sample_receipt) as (a & plan & places & Hrep & _ & _ & Heq & _).
  - exact empty_journal_inv.
  - exact sample_fits.
  - exact sample_steps.
  - reflexivity.
  - exact Hrun.
  - exists a, places. split; [vm_compute; reflexivity|]. split; [exact Heq|exact Hrep].
Defined.

Definition sample_reply (i : nat) : option JournalReply :=
  match sample_run.2 !! i with Some (Ret reply) => Some reply | _ => None end.

Lemma sample_replied i reply : sample_reply i = Some reply → sample_run.2 !! i = Some (Ret reply).
Proof. unfold sample_reply. destruct (sample_run.2 !! i) as [[]|]; try done. by intros [= ->]. Qed.


Lemma compaction_loses_nothing_witness :
  ∃ snapshot rest, run_journal sample_joracle (read_snapshot "team") sample_run.1 = (sample_run.1, Some (Ok snapshot)) ∧
    mem_read_rows (jw_store sample_run.1) "team" (llen snapshot) 10 = Ok rest ∧ length (snapshot ++ rest) = 1%nat.
Proof.
  destruct (compaction_loses_nothing no_text "memory" sample_requests
    (mkGhost abs_initial empty_jworld (λ _ _, None)) sample_run.1 sample_run.2) as (a & _ & _ & Hall).
  - exact empty_journal_inv.
  - exact sample_fits.
  - exact sample_steps.
  - destruct (Hall sample_joracle "team" 10) as [Hcount Hrest].
    assert (mem_read_counter (jw_store sample_run.1) "team" = Ok 1) as Hone by (vm_compute; reflexivity).
    rewrite Hone in Hcount. injection Hcount as Hlen.
    destruct Hrest as (snapshot & rest & H1 & H2 & H3).
    + apply single_chunk. unfold journal_length. lia.
    + lia.
    + exists snapshot, rest. split; [exact H1|]. split; [exact H2|]. rewrite H3, length_map. unfold llen in Hlen. lia.
Defined.

Lemma compaction_report_holds_witness :
  ∃ report, sample_reply 1 = Some (Report (Ok report)) ∧ cr_rows_deleted report = 1 ∧
    1 ≤ floor_of (ms_views (jw_store sample_run.1)) "team".
Proof.
  assert (∃ report, sample_reply 1 = Some (Report (Ok report)) ∧ cr_rows_deleted report = 1) as (report & Hr & Hd).
  { eexists. split; [vm_compute; reflexivity|reflexivity]. }
  exists report. split; [exact Hr|]. split; [exact Hd|].
  apply (compaction_report_holds no_text "memory" sample_requests
    (mkGhost abs_initial empty_jworld (λ _ _, None)) sample_run.1 sample_run.2 1%nat "team" 1 "op"
    (mkDuration 60 0) report).
  - exact empty_journal_inv.
  - exact sample_fits.
  - exact sample_steps.
  - reflexivity.
  - exact (sample_replied _ _ Hr).
Defined.
End witnesses.
