(* ===== verification/Lambda.v ===== *)
(** * Stream consumers

    [evt-lambda]: consumers of a table's change stream. [record.rs] is what the stream delivers,
    [events.rs] which records are events, [filter.rs] which of them a consumer wants and the pattern
    that says so to the service, [batch.rs] how a batch is processed and where it resumes, and
    [journal.rs] the wakeups of journal readers. A handler is a call. *)

From S2P Require Import Prelude Types Features Outcome Wire Projection Repository Program JournalScope.

(** ** Records *)

(** crates/evt-lambda/src/record.rs:12-12 [TTL_PRINCIPAL] *)
Definition TTL_PRINCIPAL : string := "dynamodb.amazonaws.com".

(** crates/evt-lambda/src/record.rs:24-37 [EventName] *)
Inductive EventName := Insert | Modify | Remove | UnknownName.

#[export] Instance EventName_eq_dec : EqDecision EventName.
Proof. solve_decision. Defined.

(** crates/evt-lambda/src/record.rs:41-57 [StreamViewType] *)
Inductive StreamViewType := KeysOnly | NewImage | OldImage | NewAndOldImages | UnknownView.

(** crates/evt-lambda/src/record.rs:61-69 [StreamViewType::as_str] *)
Definition view_type_as_str (view_type : StreamViewType) : string :=
  match view_type with
  | KeysOnly => "KEYS_ONLY"
  | NewImage => "NEW_IMAGE"
  | OldImage => "OLD_IMAGE"
  | NewAndOldImages => "NEW_AND_OLD_IMAGES"
  | UnknownView => "UNKNOWN"
  end.

(** crates/evt-lambda/src/record.rs:110-117 [UserIdentity] *)
Record UserIdentity := mkUserIdentity { ui_kind : string; ui_principal_id : string }.

(** crates/evt-lambda/src/record.rs:75-105 [StreamChange]

    [F64] is the type of the creation time, which is only handed on. *)
Record StreamChange (F64 : Type) := mkStreamChange {
  sc_creation : option F64;
  sc_keys : Item;
  sc_new_image : option Item;
  sc_old_image : option Item;
  sc_sequence_number : string;
  sc_size_bytes : option Z;
  sc_view_type : option StreamViewType
}.
Arguments mkStreamChange {F64}.
Arguments sc_creation {F64}.
Arguments sc_keys {F64}.
Arguments sc_new_image {F64}.
Arguments sc_old_image {F64}.
Arguments sc_sequence_number {F64}.
Arguments sc_size_bytes {F64}.
Arguments sc_view_type {F64}.

(** crates/evt-lambda/src/record.rs:122-151 [StreamRecord] *)
Record StreamRecord (F64 : Type) := mkStreamRecord {
  sr_event_id : string;
  sr_event_name : EventName;
  sr_event_version : string;
  sr_event_source : string;
  sr_aws_region : string;
  sr_change : StreamChange F64;
  sr_event_source_arn : string;
  sr_user_identity : option UserIdentity
}.
Arguments mkStreamRecord {F64}.
Arguments sr_event_id {F64}.
Arguments sr_event_name {F64}.
Arguments sr_event_version {F64}.
Arguments sr_event_source {F64}.
Arguments sr_aws_region {F64}.
Arguments sr_change {F64}.
Arguments sr_event_source_arn {F64}.
Arguments sr_user_identity {F64}.

(** ** Filters *)

(** crates/evt-lambda/src/filter.rs:57-60 [StringRule] *)
Record StringRule := mkStringRule { ru_values : gset string; ru_prefixes : gset string }.

Definition StringRule_default : StringRule := mkStringRule ∅ ∅.

(** crates/evt-lambda/src/filter.rs:63-65 [StringRule::is_any] *)
Definition is_any (rule : StringRule) : bool :=
  bool_decide (ru_values rule = ∅) && bool_decide (ru_prefixes rule = ∅).

(** crates/evt-lambda/src/filter.rs:28-32 [Matcher] *)
Inductive Matcher := Equals (value : string) | Prefix (prefix : string) | Exists (exists_ : bool).

(** The members of an ordered set. *)
Definition ordered (s : gset string) : list string := sort_by string_leb (elements s).

(** crates/evt-lambda/src/filter.rs:67-81 [StringRule::matchers] *)
Definition matchers (rule : StringRule) : list Matcher :=
  if is_any rule then [Exists true]
  else map Equals (ordered (ru_values rule)) ++ map Prefix (ordered (ru_prefixes rule)).

(** crates/evt-lambda/src/filter.rs:87-94 [StringRule::matches] *)
Definition rule_matches (rule : StringRule) (value : string) : bool :=
  is_any rule || bool_decide (value ∈ ru_values rule)
  || existsb (λ prefix, starts_with prefix value) (ordered (ru_prefixes rule)).

(** crates/evt-lambda/src/filter.rs:96-98 [StringRule::matches_attribute] *)
Definition matches_attribute (rule : StringRule) (item : Item) (name : string) : bool :=
  match item !! name with
  | Some (AS value) => rule_matches rule value
  | _ => false
  end.

(** crates/evt-lambda/src/error.rs:51-64 [FilterError] *)
Inductive FilterError := EmptyFilter (what : string) | TooLong (len max : Z).

(** crates/evt-lambda/src/filter.rs:100-111 [StringRule::check] *)
Definition check_rule (rule : StringRule) (what : string) : result unit FilterError :=
  if existsb is_empty (ordered (ru_values rule) ++ ordered (ru_prefixes rule))
  then Err (EmptyFilter what) else Ok tt.

(** crates/evt-lambda/src/filter.rs:34-53 [Pattern]

    The fields of each image, by name, with the matchers of their string value. *)
Record Pattern := mkPattern {
  pt_event_name : list string;
  pt_keys : gmap string (list Matcher);
  pt_new_image : gmap string (list Matcher)
}.

(** crates/evt-lambda/src/filter.rs:24-24 [MAX_PATTERN_BYTES] *)
Definition MAX_PATTERN_BYTES : Z := 4096.

(** [serde_json::to_string] of a pattern. *)
Class PatternJson := json_pattern : Pattern → string.

(** crates/evt-lambda/src/filter.rs:114-121 [field_map] *)
Definition field_map (fields : list (string * StringRule)) : gmap string (list Matcher) :=
  fold_left (λ m field, <[field.1 := matchers field.2]> m) fields ∅.

(** crates/evt-lambda/src/filter.rs:128-134 [encode_pattern]

    The pattern before it is encoded. *)
Definition pattern_of (event_names : list string) (keys new_image : list (string * StringRule)) : Pattern :=
  mkPattern event_names (field_map keys) (field_map new_image).

(** crates/evt-lambda/src/filter.rs:123-145 [encode_pattern] *)
Definition encode_pattern `{PatternJson} (event_names : list string)
    (keys new_image : list (string * StringRule)) : result string FilterError :=
  let encoded := json_pattern (pattern_of event_names keys new_image) in
  if MAX_PATTERN_BYTES <? slen encoded then Err (TooLong (slen encoded) MAX_PATTERN_BYTES)
  else Ok encoded.

(** crates/evt-lambda/src/filter.rs:172-175 [EventFilter] *)
Record EventFilter := mkEventFilter { ef_event_type : StringRule; ef_entity_type : StringRule }.

(** crates/evt-lambda/src/filter.rs:179-181 [EventFilter::new] *)
Definition event_filter_new : EventFilter := mkEventFilter StringRule_default StringRule_default.

Definition add_value (rule : StringRule) (value : string) : StringRule :=
  mkStringRule ({[value]} ∪ ru_values rule) (ru_prefixes rule).
Definition add_prefix (rule : StringRule) (prefix : string) : StringRule :=
  mkStringRule (ru_values rule) ({[prefix]} ∪ ru_prefixes rule).

(** crates/evt-lambda/src/filter.rs:184-187 [EventFilter::event_type] *)
Definition filter_event_type (f : EventFilter) (event_type : string) : EventFilter :=
  mkEventFilter (add_value (ef_event_type f) event_type) (ef_entity_type f).

(** crates/evt-lambda/src/filter.rs:190-196 [EventFilter::event_types] *)
Definition filter_event_types (f : EventFilter) (event_types : list string) : EventFilter :=
  fold_left filter_event_type event_types f.

(** crates/evt-lambda/src/filter.rs:199-202 [EventFilter::event_type_prefix] *)
Definition filter_event_type_prefix (f : EventFilter) (prefix : string) : EventFilter :=
  mkEventFilter (add_prefix (ef_event_type f) prefix) (ef_entity_type f).

(** crates/evt-lambda/src/filter.rs:205-208 [EventFilter::entity_type] *)
Definition filter_entity_type (f : EventFilter) (entity_type : string) : EventFilter :=
  mkEventFilter (ef_event_type f) (add_value (ef_entity_type f) entity_type).

(** crates/evt-lambda/src/filter.rs:211-217 [EventFilter::entity_types] *)
Definition filter_entity_types (f : EventFilter) (entity_types : list string) : EventFilter :=
  fold_left filter_entity_type entity_types f.

(** crates/evt-lambda/src/filter.rs:226-231 [EventFilter::pattern]

    The image fields of the pattern. *)
Definition event_fields (f : EventFilter) : list (string * StringRule) :=
  [("metadata"%string, StringRule_default); ("type"%string, ef_event_type f)]
  ++ (if is_any (ef_entity_type f) then [] else [("entityType"%string, ef_entity_type f)]).

(** crates/evt-lambda/src/filter.rs:222-234 [EventFilter::pattern] *)
Definition event_pattern `{PatternJson} (f : EventFilter) : result string FilterError :=
  check? check_rule (ef_event_type f) "event type";
  check? check_rule (ef_entity_type f) "entity type";
  encode_pattern ["INSERT"%string] [] (event_fields f).

(** crates/evt-lambda/src/filter.rs:250-253 [EventFilter::matches_event] *)
Definition matches_event (f : EventFilter) (event : SerializedEvent) : bool :=
  rule_matches (ef_event_type f) (ev_type event) && rule_matches (ef_entity_type f) (ev_entity_type event).

Section records.
Context {F64 : Type}.
Implicit Types record : StreamRecord F64.

(** crates/evt-lambda/src/record.rs:155-170 [StreamRecord::new] *)
Definition stream_record_new (event_name : EventName) (keys : Item) (sequence_number : string)
  : StreamRecord F64 :=
  mkStreamRecord "" event_name "1.1" "aws:dynamodb" ""
    (mkStreamChange None keys None None sequence_number None None) "" None.

(** crates/evt-lambda/src/record.rs:173-177 [StreamRecord::with_new_image] *)
Definition with_new_image record (image : Item) : StreamRecord F64 :=
  let c := sr_change record in
  mkStreamRecord (sr_event_id record) (sr_event_name record) (sr_event_version record)
    (sr_event_source record) (sr_aws_region record)
    (mkStreamChange (sc_creation c) (sc_keys c) (Some image) (sc_old_image c) (sc_sequence_number c)
      (sc_size_bytes c) (Some NewImage))
    (sr_event_source_arn record) (sr_user_identity record).

(** crates/evt-lambda/src/record.rs:180-182 [StreamRecord::sequence_number] *)
Definition sequence_number record : string := sc_sequence_number (sr_change record).

(** crates/evt-lambda/src/record.rs:185-192 [StreamRecord::key] *)
Definition record_key record (name : string) : option AttributeValue :=
  match sc_keys (sr_change record) !! name with
  | Some value => Some value
  | None => match sc_new_image (sr_change record) with Some image => image !! name | None => None end
  end.

(** crates/evt-lambda/src/record.rs:195-200 [StreamRecord::pk] *)
Definition record_pk record : option string :=
  match record_key record "pk" with Some (AS pk) => Some pk | _ => None end.

(** crates/evt-lambda/src/record.rs:203-209 [StreamRecord::is_ttl_deletion] *)
Definition is_ttl_deletion record : bool :=
  bool_decide (sr_event_name record = Remove)
  && match sr_user_identity record with
     | Some identity => bool_decide (ui_principal_id identity = TTL_PRINCIPAL)
     | None => false
     end.

(** crates/evt-lambda/src/filter.rs:237-247 [EventFilter::matches] *)
Definition filter_matches_record (f : EventFilter) record : bool :=
  match sc_new_image (sr_change record) with
  | None => false
  | Some image =>
      bool_decide (sr_event_name record = Insert)
      && matches_attribute StringRule_default image "metadata"
      && matches_attribute (ef_event_type f) image "type"
      && (is_any (ef_entity_type f) || matches_attribute (ef_entity_type f) image "entityType")
  end.

(** ** Events *)

(** crates/evt-lambda/src/events.rs:12-20 [StreamedEvent] *)
Record StreamedEvent := mkStreamedEvent {
  se_event : SerializedEvent;
  se_sequence_number : string;
  se_creation : option F64
}.

(** crates/evt-lambda/src/events.rs:26-28 [StreamedEvent::idempotency_key] *)
Definition idempotency_key (streamed : StreamedEvent) : string := ev_id (se_event streamed).

(** crates/evt-lambda/src/error.rs:9-32 [DecodeError] *)
Inductive DecodeError :=
| MissingNewImage (sequence_number view_type : string)
| UndecodedRecord (sequence_number : string) (source : Error).

(** crates/evt-lambda/src/events.rs:37-48 [is_event_key] *)
Definition is_event_key (keys : Item) : bool :=
  match keys !! "pk" with
  | Some (AS pk) =>
      if starts_with SYSTEM_PREFIX pk || starts_with COMMAND_OUTCOME_PREFIX pk then false
      else match keys !! "sk" with
           | Some (AN sk) => match parse_i64 sk with Some sk => 1 <=? sk | None => false end
           | _ => false
           end
  | _ => false
  end.

Context `{SerdeJson}.

(** crates/evt-lambda/src/events.rs:56-92 [decode_event] *)
Definition decode_streamed record : result (option StreamedEvent) DecodeError :=
  let change := sr_change record in
  if negb (bool_decide (sr_event_name record = Insert)) then Ok None
  else
    let keys := if bool_decide (sc_keys change = ∅) then sc_new_image change else Some (sc_keys change) in
    if negb (match keys with Some keys => is_event_key keys | None => false end) then Ok None
    else
      match sc_new_image change with
      | None =>
          Err (MissingNewImage (sequence_number record)
            (match sc_view_type change with
             | Some view_type => view_type_as_str view_type
             | None => "unset"
             end))
      | Some image =>
          let? event := map_err (UndecodedRecord (sequence_number record)) (event_from_item image) in
          Ok (Some (mkStreamedEvent event (sequence_number record) (sc_creation change)))
      end.

(** ** Batches *)

(** crates/evt-lambda/src/batch.rs:32-45 [BatchResponse]

    The sequence numbers of the failed records. *)
Record BatchResponse := mkBatchResponse { br_failures : list string }.

(** crates/evt-lambda/src/batch.rs:49-51 [BatchResponse::success] *)
Definition response_success : BatchResponse := mkBatchResponse [].

(** crates/evt-lambda/src/batch.rs:54-60 [BatchResponse::failed_from] *)
Definition failed_from (sequence_number : string) : BatchResponse := mkBatchResponse [sequence_number].

(** Why a record failed: the handler's error, or the record's own. *)
Inductive RecordError := HandlerFailed (error : BoxError) | DecodeFailed (error : DecodeError).

(** crates/evt-lambda/src/batch.rs:71-78 [RecordFailure] *)
Record RecordFailure := mkRecordFailure {
  fl_index : nat;
  fl_sequence_number : string;
  fl_error : RecordError
}.

(** crates/evt-lambda/src/batch.rs:84-92 [BatchOutcome] *)
Record BatchOutcome := mkBatchOutcome {
  bo_completed : nat;
  bo_handled : nat;
  bo_failure : option RecordFailure
}.

(** crates/evt-lambda/src/batch.rs:95-102 [BatchOutcome::failed] *)
Definition outcome_failed (handled index : nat) (sequence_number : string) (error : RecordError)
  : BatchOutcome :=
  mkBatchOutcome index handled (Some (mkRecordFailure index sequence_number error)).

(** crates/evt-lambda/src/batch.rs:105-110 [BatchOutcome::response] *)
Definition outcome_response (outcome : BatchOutcome) : BatchResponse :=
  match bo_failure outcome with
  | None => response_success
  | Some failure => failed_from (fl_sequence_number failure)
  end.

(** A handler of inputs of one type. *)
Inductive HandlerCall (T : Type) : Type → Type :=
| HandlerOf (input : T) : HandlerCall T (result unit BoxError).
Arguments HandlerOf {T} input.

(** crates/evt-lambda/src/batch.rs:126-138 [process_records] *)
Fixpoint process_records_from (index handled : nat) (records : list (StreamRecord F64))
  : Tree (HandlerCall (StreamRecord F64)) BatchOutcome :=
  match records with
  | [] => Ret (mkBatchOutcome index handled None)
  | record :: records =>
      await done := call (HandlerOf record) in
      match done with
      | Err err => Ret (outcome_failed handled index (sequence_number record) (HandlerFailed err))
      | Ok _ => process_records_from (S index) (S handled) records
      end
  end.

(** crates/evt-lambda/src/batch.rs:119-139 [process_records] *)
Definition process_records (records : list (StreamRecord F64))
  : Tree (HandlerCall (StreamRecord F64)) BatchOutcome := process_records_from 0 0 records.

(** crates/evt-lambda/src/batch.rs:160-168 [process_events]

    What a consumer makes of a record: nothing, an event, or a failure. *)
Definition wanted (f : EventFilter) record : result (option StreamedEvent) DecodeError :=
  let? decoded := decode_streamed record in
  Ok match decoded with
     | Some streamed => if matches_event f (se_event streamed) then Some streamed else None
     | None => None
     end.

(** crates/evt-lambda/src/batch.rs:159-181 [process_events] *)
Fixpoint process_events_from (f : EventFilter) (index handled : nat) (records : list (StreamRecord F64))
  : Tree (HandlerCall StreamedEvent) BatchOutcome :=
  match records with
  | [] => Ret (mkBatchOutcome index handled None)
  | record :: records =>
      match wanted f record with
      | Ok None => process_events_from f (S index) handled records
      | Err err => Ret (outcome_failed handled index (sequence_number record) (DecodeFailed err))
      | Ok (Some streamed) =>
          await done := call (HandlerOf streamed) in
          match done with
          | Err err => Ret (outcome_failed handled index (sequence_number record) (HandlerFailed err))
          | Ok _ => process_events_from f (S index) (S handled) records
          end
      end
  end.

(** crates/evt-lambda/src/batch.rs:148-182 [process_events] *)
Definition process_events (f : EventFilter) (records : list (StreamRecord F64))
  : Tree (HandlerCall StreamedEvent) BatchOutcome := process_events_from f 0 0 records.

(** ** Journal wakeups *)

Context `{JournalJson}.

(** crates/evt-lambda/src/journal.rs:32-42 [JournalWakeup] *)
Record JournalWakeup := mkJournalWakeup {
  wu_scope : Scope;
  wu_position : option Z;
  wu_sequence_number : string
}.

(** crates/evt-lambda/src/journal.rs:53-86 [decode_wakeup] *)
Definition decode_wakeup record : option JournalWakeup :=
  if negb (bool_decide (sr_event_name record = Insert) || bool_decide (sr_event_name record = Modify)) then None
  else
    match record_pk record, record_key record "sk" with
    | Some pk, Some (AS sk) =>
        match strip_prefix ROW_PARTITION_PREFIX pk with
        | Some name =>
            match scope_new name, parse_row_sk sk with
            | Ok scope, Some position => Some (mkJournalWakeup scope (Some position) (sequence_number record))
            | _, _ => None
            end
        | None =>
            match strip_prefix COUNTER_PARTITION_PREFIX pk with
            | Some name =>
                if negb (bool_decide (sk = COUNTER_SORT_KEY)) then None
                else
                  match scope_new name with
                  | Ok scope =>
                      let position :=
                        match sc_new_image (sr_change record) with
                        | Some image =>
                            match (let? row := view_row_from_item image in read_counter scope row) with
                            | Ok position => Some position
                            | Err _ => None
                            end
                        | None => None
                        end in
                      Some (mkJournalWakeup scope position (sequence_number record))
                  | Err _ => None
                  end
            | None => None
            end
        end
    | _, _ => None
    end.

(** [Option::max] on positions: none is below every position. *)
Definition position_max (a b : option Z) : option Z :=
  match a, b with
  | Some a, Some b => Some (Z.max a b)
  | Some a, None => Some a
  | None, b => b
  end.

(** crates/evt-lambda/src/journal.rs:104-115 [coalesce_indexed]

    One wakeup more: merged into its scope's, or added. [at_scope] is where a scope's is. *)
Definition coalesce_one (state : list (nat * JournalWakeup) * gmap Scope nat) (indexed : nat * JournalWakeup)
  : list (nat * JournalWakeup) * gmap Scope nat :=
  let wakeup := indexed.2 in
  match state.2 !! wu_scope wakeup with
  | Some at_ =>
      (alter (λ entry : nat * JournalWakeup,
         (entry.1, mkJournalWakeup (wu_scope entry.2) (position_max (wu_position entry.2) (wu_position wakeup))
                     (wu_sequence_number entry.2))) at_ state.1, state.2)
  | None => (state.1 ++ [indexed], <[wu_scope wakeup := length state.1]> state.2)
  end.

(** crates/evt-lambda/src/journal.rs:98-118 [coalesce_indexed] *)
Definition coalesce_indexed (wakeups : list (nat * JournalWakeup)) : list (nat * JournalWakeup) :=
  (fold_left coalesce_one wakeups ([], ∅)).1.

(** crates/evt-lambda/src/journal.rs:90-95 [coalesce_wakeups] *)
Definition coalesce_wakeups (wakeups : list JournalWakeup) : list JournalWakeup :=
  map snd (coalesce_indexed (map (pair 0%nat) wakeups)).

(** crates/evt-lambda/src/journal.rs:195-198 [JournalFilter] *)
Record JournalFilter := mkJournalFilter { jf_partition_prefix : string; jf_pk : StringRule }.

(** crates/evt-lambda/src/journal.rs:211-216 [JournalFilter::of] *)
Definition journal_filter_of (partition_prefix : string) : JournalFilter :=
  mkJournalFilter partition_prefix StringRule_default.

(** crates/evt-lambda/src/journal.rs:202-204 [JournalFilter::rows] *)
Definition journal_filter_rows : JournalFilter := journal_filter_of ROW_PARTITION_PREFIX.

(** crates/evt-lambda/src/journal.rs:207-209 [JournalFilter::counters] *)
Definition journal_filter_counters : JournalFilter := journal_filter_of COUNTER_PARTITION_PREFIX.

(** crates/evt-lambda/src/journal.rs:219-224 [JournalFilter::scope] *)
Definition journal_filter_scope (f : JournalFilter) (scope : Scope) : JournalFilter :=
  mkJournalFilter (jf_partition_prefix f) (add_value (jf_pk f) (jf_partition_prefix f +:+ scope)).

(** crates/evt-lambda/src/journal.rs:227-232 [JournalFilter::scope_prefix] *)
Definition journal_filter_scope_prefix (f : JournalFilter) (prefix : string) : JournalFilter :=
  mkJournalFilter (jf_partition_prefix f) (add_prefix (jf_pk f) (jf_partition_prefix f +:+ prefix)).

(** crates/evt-lambda/src/journal.rs:234-243 [JournalFilter::rule] *)
Definition journal_rule (f : JournalFilter) : StringRule :=
  if is_any (jf_pk f) then add_prefix StringRule_default (jf_partition_prefix f) else jf_pk f.

(** crates/evt-lambda/src/journal.rs:246-252 [JournalFilter::pattern] *)
Definition journal_pattern `{PatternJson} (f : JournalFilter) : result string FilterError :=
  encode_pattern ["INSERT"%string; "MODIFY"%string] [("pk"%string, journal_rule f)] [].

(** crates/evt-lambda/src/journal.rs:255-258 [JournalFilter::matches] *)
Definition journal_filter_matches (f : JournalFilter) record : bool :=
  (bool_decide (sr_event_name record = Insert) || bool_decide (sr_event_name record = Modify))
  && matches_attribute (journal_rule f) (sc_keys (sr_change record)) "pk".

(** crates/evt-lambda/src/journal.rs:142-147 [process_wakeups]

    The wakeups of a batch, each with the index of its record. *)
Definition decoded_wakeups (f : JournalFilter) (records : list (StreamRecord F64))
  : list (nat * JournalWakeup) :=
  omap (λ indexed : nat * StreamRecord F64,
    if journal_filter_matches f indexed.2 then
      match decode_wakeup indexed.2 with
      | Some wakeup => Some (indexed.1, wakeup)
      | None => None
      end
    else None)
    (imap pair records).

(** crates/evt-lambda/src/journal.rs:149-163 [process_wakeups] *)
Fixpoint wake_each (records : list (StreamRecord F64)) (handled : nat) (wakeups : list (nat * JournalWakeup))
  : Tree (HandlerCall JournalWakeup) BatchOutcome :=
  match wakeups with
  | [] => Ret (mkBatchOutcome (length records) handled None)
  | (index, wakeup) :: wakeups =>
      match records !! index with
      | None => Panic
      | Some record =>
          await done := call (HandlerOf wakeup) in
          match done with
          | Err err => Ret (outcome_failed handled index (sequence_number record) (HandlerFailed err))
          | Ok _ => wake_each records (S handled) wakeups
          end
      end
  end.

(** crates/evt-lambda/src/journal.rs:132-164 [process_wakeups] *)
Definition process_wakeups (f : JournalFilter) (records : list (StreamRecord F64))
  : Tree (HandlerCall JournalWakeup) BatchOutcome :=
  wake_each records 0 (coalesce_indexed (decoded_wakeups f records)).
End records.
Arguments StreamedEvent F64 : clear implicits.
Arguments HandlerOf {T} input.
