(* ===== verification/LambdaProofs.v ===== *)
(** * Stream consumers, proved

    A batch stops at its first failure and resumes there, so that over its deliveries every wanted
    event is acknowledged once and in order; wakeups that are merged lose no position; and the
    pattern that is given to the service selects what the consumer itself would accept. *)

From S2P Require Import Prelude Types Features Outcome Wire WireProofs Projection Repository Program JournalScope Lambda.
From S2P Require Import Samples.

(** ** Runs of a handler *)

(** The inputs a program has its handler handle, with the handler's answers, and the result. *)
Fixpoint handles {T A : Type} (p : Tree (HandlerCall T) A) (trace : list (T * result unit BoxError)) (a : A)
  : Prop :=
  match p with
  | Ret b => trace = [] ∧ b = a
  | Ask q k =>
      match trace with
      | (input, answer) :: trace =>
          match q in HandlerCall _ B return (B → Prop) → Prop with
          | HandlerOf asked => λ go, asked = input ∧ go answer
          end (λ b, handles (k b) trace a)
      | [] => False
      end
  | Panic | OutOfFuel => False
  end.

(** The inputs that were handled without error. *)
Definition acknowledged {T : Type} (trace : list (T * result unit BoxError)) : list T :=
  omap (λ x : T * result unit BoxError, match x.2 with Ok _ => Some x.1 | Err _ => None end) trace.

Lemma acknowledged_ok {T : Type} (input : T) trace : acknowledged ((input, Ok tt) :: trace) = input :: acknowledged trace.
Proof. done. Qed.

Lemma StronglySorted_at {A} (R : A → A → Prop) (l : list A) i j x y :
  StronglySorted R l → (i < j)%nat → l !! i = Some x → l !! j = Some y → R x y.
Proof.
  intros Hs. revert i j. induction Hs as [|z l Hs IH Hall]; intros [|i] [|j] Hij Hi Hj; try done; try lia.
  - injection Hi as ->. rewrite Forall_forall in Hall. apply Hall. by eapply list_elem_of_lookup_2.
  - apply (IH i j); [lia|done|done].
Qed.

Fixpoint never_panics {E : Type → Type} {A : Type} (p : Tree E A) : Prop :=
  match p with
  | Ret _ => True
  | Ask q k => ∀ b, never_panics (k b)
  | Panic | OutOfFuel => False
  end.

Section batches.
Context {F64 : Type} `{SerdeJson}.
Implicit Types record : StreamRecord F64.

(** ** Events *)

(** The events a consumer wants of a list of records. *)
Definition wanted_events (f : EventFilter) (records : list (StreamRecord F64)) : list (StreamedEvent F64) :=
  omap (λ record, match wanted f record with Ok (Some streamed) => Some streamed | _ => None end) records.

(** How a batch went: it stopped after [n] records, the events among them were acknowledged, and it
    stopped early exactly at a failed record. *)
Record batch_spec (f : EventFilter) (index : nat) (records : list (StreamRecord F64))
    (trace : list (StreamedEvent F64 * result unit BoxError)) (outcome : BatchOutcome) (n : nat) : Prop := {
  bs_length : (n ≤ length records)%nat;
  bs_completed : bo_completed outcome = (index + n)%nat;
  bs_acknowledged : acknowledged trace = wanted_events f (take n records);
  bs_success : bo_failure outcome = None → n = length records;
  bs_failure : ∀ failure, bo_failure outcome = Some failure →
    fl_index failure = (index + n)%nat ∧
    ∃ record, records !! n = Some record ∧ fl_sequence_number failure = sequence_number record
}.

Lemma process_events_spec f records : ∀ index handled trace outcome,
  handles (process_events_from f index handled records) trace outcome →
  ∃ n, batch_spec f index records trace outcome n.
Proof.
  induction records as [|record records IH]; intros index handled trace outcome; cbn [process_events_from].
  { intros [-> <-]. exists 0%nat. split; [done|simpl; lia|done|done|done]. }
  destruct (wanted f record) as [[streamed|]|err] eqn:Hw.
  - cbn [bind call handles]. destruct trace as [|[input answer] trace]; [done|]. intros [<- Hrun].
    destruct answer as [[]|err].
    + destruct (IH (S index) (S handled) trace outcome Hrun) as (n & [Hl Hc Ha Hs Hf]). exists (S n).
      split; [simpl; lia|lia| |intros Hn; simpl; f_equal; by apply Hs|].
      * unfold wanted_events. simpl. rewrite Hw. unfold acknowledged in *. simpl. by rewrite Ha.
      * intros failure Hfl. destruct (Hf failure Hfl) as [Hi Hr]. split; [lia|done].
    + destruct Hrun as [-> <-]. exists 0%nat. split; [simpl; lia|simpl; lia|done|done|].
      intros failure [= <-]. split; [simpl; lia|]. by exists record.
  - intros Hrun. destruct (IH (S index) handled trace outcome Hrun) as (n & [Hl Hc Ha Hs Hf]). exists (S n).
    split; [simpl; lia|lia| |intros Hn; simpl; f_equal; by apply Hs|].
    + unfold wanted_events. simpl. rewrite Hw. by rewrite Ha.
    + intros failure Hfl. destruct (Hf failure Hfl) as [Hi Hr]. split; [lia|done].
  - intros [-> <-]. exists 0%nat. split; [simpl; lia|simpl; lia|done|done|].
    intros failure [= <-]. split; [simpl; lia|]. by exists record.
Qed.

(** ** Deliveries *)

(** The records from the one with a sequence number on: what the service delivers again. *)
Fixpoint from_sequence (s : string) (records : list (StreamRecord F64)) : list (StreamRecord F64) :=
  match records with
  | [] => []
  | record :: rest => if bool_decide (sequence_number record = s) then records else from_sequence s rest
  end.

Lemma from_sequence_drop records n record :
  NoDup (map sequence_number records) → records !! n = Some record →
  from_sequence (sequence_number record) records = drop n records.
Proof.
  revert n. induction records as [|r records IH]; intros [|n] Hnd Hl; try done.
  - injection Hl as ->. simpl. by rewrite bool_decide_true.
  - apply NoDup_cons in Hnd as [Hn Hnd]. simpl. rewrite bool_decide_false; [by apply IH|].
    intros Heq. apply Hn. rewrite Heq. apply list_elem_of_fmap. exists record. split; [done|].
    by eapply list_elem_of_lookup_2.
Qed.

(** A batch is delivered until it succeeds, each time from the record that the response of the last
    delivery named. *)
Inductive delivered (f : EventFilter)
  : list (StreamRecord F64) → list (list (StreamedEvent F64 * result unit BoxError)) → Prop :=
| delivered_done records trace outcome :
    handles (process_events f records) trace outcome →
    br_failures (outcome_response outcome) = [] → delivered f records [trace]
| delivered_again records trace outcome s traces :
    handles (process_events f records) trace outcome →
    br_failures (outcome_response outcome) = [s] →
    delivered f (from_sequence s records) traces → delivered f records (trace :: traces).

Lemma wanted_events_app f l k : wanted_events f (l ++ k) = wanted_events f l ++ wanted_events f k.
Proof. apply omap_app. Qed.

(** C24. Redelivery loses and repeats no acknowledgement. Where the sequence numbers of a batch are
    distinct and the service delivers it again from the record the response names, then however
    often handlers fail on the way, once a delivery succeeds the events that were acknowledged over
    all deliveries are exactly the wanted events of the batch, each once and in the order of the
    stream. *)
Theorem redelivery_acknowledges_in_order (f : EventFilter) (records : list (StreamRecord F64))
    (traces : list (list (StreamedEvent F64 * result unit BoxError))) :
  NoDup (map sequence_number records) → delivered f records traces →
  concat (map acknowledged traces) = wanted_events f records.
Proof.
  intros Hnd Hd. induction Hd as [records trace outcome Hrun Hr|records trace outcome s traces Hrun Hr _ IH];
    destruct (process_events_spec _ _ _ _ _ _ Hrun) as (n & [Hl _ Ha Hs Hf]);
    unfold outcome_response in Hr; destruct (bo_failure outcome) as [failure|]; try done.
  - simpl. by rewrite app_nil_r, Ha, Hs, firstn_all.
  - injection Hr as <-. destruct (Hf failure eq_refl) as (_ & record & Hrec & Hseq). rewrite Hseq in IH.
    rewrite (from_sequence_drop _ _ _ Hnd Hrec) in IH. simpl. rewrite Ha, IH.
    + by rewrite <-wanted_events_app, take_drop.
    + rewrite <-(take_drop n records), map_app in Hnd. by apply NoDup_app in Hnd as (_ & _ & ?).
Qed.
End batches.

(** ** Wakeups *)

(** None is below every position. *)
Definition position_le (a b : option Z) : Prop :=
  match a, b with
  | None, _ => True
  | Some a, Some b => a ≤ b
  | Some _, None => False
  end.

Lemma position_max_le a b : position_le a (position_max a b) ∧ position_le b (position_max a b).
Proof. destruct a as [a|], b as [b|]; simpl; (split; lia || done). Qed.

Lemma position_le_trans a b c : position_le a b → position_le b c → position_le a c.
Proof. destruct a, b, c; simpl; lia || done. Qed.

Lemma position_le_refl a : position_le a a.
Proof. destruct a; simpl; [lia|done]. Qed.

Abbreviation Indexed := (nat * JournalWakeup)%type.

(** What the merged wakeups are of those seen so far. *)
Record merged_from (seen : list Indexed) (state : list Indexed * gmap Scope nat) : Prop := {
  mg_at : ∀ scope i, state.2 !! scope = Some i ↔ ∃ entry, state.1 !! i = Some entry ∧ wu_scope entry.2 = scope;
  mg_covers : ∀ x, x ∈ seen → ∃ entry, entry ∈ state.1 ∧ wu_scope entry.2 = wu_scope x.2 ∧
    (entry.1 ≤ x.1)%nat ∧ position_le (wu_position x.2) (wu_position entry.2);
  mg_from : ∀ entry, entry ∈ state.1 → ∃ x, x ∈ seen ∧ x.1 = entry.1;
  mg_sorted : StronglySorted (λ a b : Indexed, (a.1 < b.1)%nat) state.1
}.

Lemma merged_nil : merged_from [] ([], ∅).
Proof.
  split; simpl.
  - intros scope i. rewrite lookup_empty. split; [done|]. by intros (entry & Hl & _).
  - intros x Hin. by apply not_elem_of_nil in Hin.
  - intros entry Hin. by apply not_elem_of_nil in Hin.
  - constructor.
Qed.

Lemma StronglySorted_alter {A B} (R : B → B → Prop) (key : A → B) (f : A → A) (l : list A) i :
  (∀ x, key (f x) = key x) → StronglySorted (λ a b, R (key a) (key b)) l →
  StronglySorted (λ a b, R (key a) (key b)) (alter f i l).
Proof.
  intros Hf Hs. revert i. induction Hs as [|x l Hs IH Hall]; intros i; [destruct i; constructor|]. destruct i as [|i].
  { constructor; [done|]. eapply Forall_impl; [exact Hall|]. intros y. by rewrite Hf. }
  change (alter f (S i) (x :: l)) with (x :: alter f i l). constructor; [apply IH|].
  { apply Forall_forall. intros y [j Hj]%list_elem_of_lookup. rewrite Forall_forall in Hall.
    destruct (decide (i = j)) as [<-|Hne].
    + rewrite list_lookup_alter_eq in Hj. destruct (l !! i) as [z|] eqn:Hz; [|done]. injection Hj as <-.
      rewrite Hf. apply Hall. by eapply list_elem_of_lookup_2.
    + rewrite list_lookup_alter_ne in Hj by done. apply Hall. by eapply list_elem_of_lookup_2. }
Qed.

Lemma merged_again seen state (x : Indexed) i :
  merged_from seen state → state.2 !! wu_scope x.2 = Some i → (∀ y, y ∈ seen → (y.1 < x.1)%nat) →
  merged_from (seen ++ [x]) (coalesce_one state x).
Proof.
  intros [Hat Hcov Hfrom Hsort] Hi Hlast. unfold coalesce_one. rewrite Hi.
  set (up := λ entry : Indexed, (entry.1, mkJournalWakeup (wu_scope entry.2)
    (position_max (wu_position entry.2) (wu_position x.2)) (wu_sequence_number entry.2))).
  assert (∀ j entry, state.1 !! j = Some entry → ∃ entry', alter up i state.1 !! j = Some entry' ∧
    entry'.1 = entry.1 ∧ wu_scope entry'.2 = wu_scope entry.2 ∧
    position_le (wu_position entry.2) (wu_position entry'.2)) as Hup.
  { intros j entry Hj. destruct (decide (i = j)) as [<-|Hne].
    - exists (up entry). rewrite list_lookup_alter_eq, Hj. do 3 (split; [done|]). apply position_max_le.
    - exists entry. rewrite list_lookup_alter_ne by done. do 3 (split; [done|]). apply position_le_refl. }
  split; cbn [fst snd].
  - intros scope j. rewrite Hat. split.
    + intros (entry & Hj & Hs). destruct (Hup j entry Hj) as (entry' & Hj' & _ & Hs' & _).
      exists entry'. split; [done|congruence].
    + intros (entry' & Hj' & Hs). destruct (state.1 !! j) as [entry|] eqn:Hj.
      * destruct (Hup j entry Hj) as (e & He & _ & Hs' & _). exists entry. split; [done|]. congruence.
      * exfalso. apply lookup_ge_None in Hj. apply lookup_lt_Some in Hj'. rewrite length_alter in Hj'. lia.
  - intros y [Hy|Heq%list_elem_of_singleton]%elem_of_app; [|subst y].
    + destruct (Hcov y Hy) as (entry & [j Hj]%list_elem_of_lookup & Hs & Hle & Hp).
      destruct (Hup j entry Hj) as (entry' & Hj' & H1 & Hs' & Hp'). exists entry'.
      split; [by eapply list_elem_of_lookup_2|]. split; [congruence|]. split; [lia|]. by eapply position_le_trans.
    + apply Hat in Hi as (entry & Hj & Hs). exists (up entry). split.
      { apply (list_elem_of_lookup_2 _ i). by rewrite list_lookup_alter_eq, Hj. }
      split; [done|]. split; [|apply position_max_le].
      destruct (Hfrom entry) as (y & Hy & Heq); [by eapply list_elem_of_lookup_2|]. specialize (Hlast y Hy). simpl. lia.
  - intros entry' [j Hj']%list_elem_of_lookup. destruct (state.1 !! j) as [entry|] eqn:Hj.
    + destruct (Hup j entry Hj) as (e & He & H1 & _). destruct (Hfrom entry) as (y & Hy & Heq);
        [by eapply list_elem_of_lookup_2|]. exists y. split; [apply elem_of_app; by left|]. congruence.
    + exfalso. apply lookup_ge_None in Hj. apply lookup_lt_Some in Hj'. rewrite length_alter in Hj'. lia.
  - by apply (StronglySorted_alter lt fst).
Qed.

Lemma merged_new seen state (x : Indexed) :
  merged_from seen state → state.2 !! wu_scope x.2 = None → (∀ y, y ∈ seen → (y.1 < x.1)%nat) →
  merged_from (seen ++ [x]) (coalesce_one state x).
Proof.
  intros [Hat Hcov Hfrom Hsort] Hi Hlast. unfold coalesce_one. rewrite Hi. split; cbn [fst snd].
  - intros scope j. rewrite lookup_insert_Some. split.
    + intros [[<- <-]|[Hne Hj]].
      * exists x. split; [|done]. by apply list_lookup_middle.
      * apply Hat in Hj as (entry & Hj & Hs). exists entry. split; [by apply lookup_app_l_Some|done].
    + intros (entry & Hj & Hs). apply lookup_app_Some in Hj as [Hj|[Hge Hj]].
      * right. split; [|apply Hat; by exists entry]. intros Heq. assert (state.2 !! scope = Some j) as Hs'
          by (apply Hat; by exists entry). congruence.
      * apply list_lookup_singleton_Some in Hj as [Hj <-]. left. split; [done|]. lia.
  - intros y [Hy|Heq%list_elem_of_singleton]%elem_of_app; [|subst y].
    + destruct (Hcov y Hy) as (entry & He & Hrest). exists entry. split; [apply elem_of_app; by left|done].
    + exists x. split; [apply elem_of_app; right; by apply list_elem_of_singleton|]. split; [done|].
      split; [lia|apply position_le_refl].
  - intros entry [He|Heq%list_elem_of_singleton]%elem_of_app; [|subst entry].
    + destruct (Hfrom entry He) as (y & Hy & Heq). exists y. split; [apply elem_of_app; by left|done].
    + exists x. split; [apply elem_of_app; right; by apply list_elem_of_singleton|done].
  - apply StronglySorted_app. split; [|split; [done|apply StronglySorted_cons; split; constructor]].
    intros a b Ha Hb%list_elem_of_singleton. subst b. destruct (Hfrom a Ha) as (y & Hy & Heq).
    specialize (Hlast y Hy). lia.
Qed.

Lemma coalesce_merged wakeups : ∀ seen state,
  merged_from seen state → StronglySorted (λ a b : Indexed, (a.1 < b.1)%nat) (seen ++ wakeups) →
  merged_from (seen ++ wakeups) (fold_left coalesce_one wakeups state).
Proof.
  induction wakeups as [|x wakeups IH]; intros seen state Hm Hs; cbn [fold_left]; [by rewrite app_nil_r|].
  rewrite cons_middle, app_assoc in Hs |- *. apply IH; [|done].
  assert (∀ y, y ∈ seen → (y.1 < x.1)%nat) as Hlast.
  { intros y Hy. apply StronglySorted_app_1_l in Hs. revert y Hy. clear -Hs.
    induction seen as [|z seen IH]; intros y Hy; [by apply not_elem_of_nil in Hy|]. simpl in Hs.
    apply StronglySorted_inv in Hs as [Hs Hall]. apply elem_of_cons in Hy as [->|Hy]; [|by apply IH].
    rewrite Forall_forall in Hall. apply Hall, elem_of_app. right. by apply list_elem_of_singleton. }
  destruct (state.2 !! wu_scope x.2) as [i|] eqn:Hi; [by eapply merged_again|by apply merged_new].
Qed.

Lemma merged_scopes seen state : merged_from seen state → NoDup (map (λ x : Indexed, wu_scope x.2) state.1).
Proof.
  intros Hm. apply NoDup_alt. intros i j scope Hi Hj. rewrite list_lookup_fmap in Hi, Hj.
  destruct (state.1 !! i) as [a|] eqn:Ha; [|done]. destruct (state.1 !! j) as [b|] eqn:Hb; [|done].
  injection Hi as Hi. injection Hj as Hj.
  assert (state.2 !! scope = Some i) as H1 by (apply (mg_at _ _ Hm); by exists a).
  assert (state.2 !! scope = Some j) as H2 by (apply (mg_at _ _ Hm); by exists b). congruence.
Qed.

Section wakeups.
Context {F64 : Type} `{SerdeJson} `{JournalJson}.
Implicit Types record : StreamRecord F64.

Lemma decoded_elem f (records : list (StreamRecord F64)) i w :
  (i, w) ∈ decoded_wakeups f records ↔
  ∃ record, records !! i = Some record ∧ journal_filter_matches f record = true ∧ decode_wakeup record = Some w.
Proof.
  unfold decoded_wakeups. rewrite list_elem_of_omap. split.
  - intros ([j record] & [k Hk]%list_elem_of_lookup & Heq). rewrite list_lookup_imap in Hk. simpl in Heq.
    destruct (records !! k) as [r|] eqn:Hr; [|done]. injection Hk as -> ->.
    destruct (journal_filter_matches f record) eqn:Hf; [|done].
    destruct (decode_wakeup record) as [w'|] eqn:Hd; [|done]. injection Heq as -> ->. by exists record.
  - intros (record & Hr & Hf & Hd). exists (i, record). split.
    + apply (list_elem_of_lookup_2 _ i). by rewrite list_lookup_imap, Hr.
    + simpl. by rewrite Hf, Hd.
Qed.

Lemma decoded_sorted f (records : list (StreamRecord F64)) :
  StronglySorted (λ a b : Indexed, (a.1 < b.1)%nat) (decoded_wakeups f records).
Proof.
  unfold decoded_wakeups.
  assert (StronglySorted (λ a b : nat * StreamRecord F64, (a.1 < b.1)%nat) (imap pair records)) as Hs.
  { enough (∀ k, StronglySorted (λ a b : nat * StreamRecord F64, (a.1 < b.1)%nat)
      (imap (λ i r, ((k + i)%nat, r)) records)) as Hk by exact (Hk 0%nat).
    induction records as [|r records IH]; intros k; [constructor|]. rewrite imap_cons. constructor.
    - rewrite (imap_ext _ (λ i r, ((S k + i)%nat, r))); [apply IH|]. intros i x _. simpl. f_equal. lia.
    - apply Forall_forall. intros [j x] [i Hi]%list_elem_of_lookup. rewrite list_lookup_imap in Hi.
      destruct (records !! i); [|done]. simpl in *. injection Hi as <- <-. simpl. lia. }
  induction Hs as [|[i r] l Hs IH Hall]; simpl; [constructor|].
  destruct (journal_filter_matches f r); [|done]. destruct (decode_wakeup r) as [w|]; [|done].
  constructor; [done|]. apply Forall_forall. intros [j x] ([j' r'] & Hin & Heq)%list_elem_of_omap.
  rewrite Forall_forall in Hall. specialize (Hall _ Hin). simpl in *.
  destruct (journal_filter_matches f r'); [|done]. destruct (decode_wakeup r'); [|done].
  by injection Heq as <- <-.
Qed.

Lemma wake_each_spec (records : list (StreamRecord F64)) wakeups : ∀ handled trace outcome,
  handles (wake_each records handled wakeups) trace outcome →
  (∃ tail, map snd wakeups = map fst trace ++ tail) ∧
  match bo_failure outcome with
  | None => acknowledged trace = map snd wakeups ∧ bo_completed outcome = length records
  | Some failure => ∃ k x, wakeups !! k = Some x ∧ acknowledged trace = map snd (take k wakeups) ∧
      bo_completed outcome = x.1 ∧ fl_index failure = x.1 ∧
      ∃ record, records !! x.1 = Some record ∧ fl_sequence_number failure = sequence_number record
  end.
Proof.
  induction wakeups as [|[index w] wakeups IH]; intros handled trace outcome; cbn [wake_each].
  { intros [-> <-]. split; [by exists []|done]. }
  destruct (records !! index) as [record|] eqn:Hr; [|done]. cbn [bind call handles].
  destruct trace as [|[input answer] trace]; [done|]. intros [<- Hrun]. destruct answer as [[]|err].
  - destruct (IH (S handled) trace outcome Hrun) as [(tail & Htail) Hout]. split.
    { exists tail. simpl. by rewrite Htail. }
    destruct (bo_failure outcome) as [failure|].
    + destruct Hout as (k & x & Hx & Ha & Hrest). exists (S k), x. split; [done|]. split; [|done].
      rewrite acknowledged_ok, Ha. done.
    + destruct Hout as [Ha Hc]. split; [|done]. rewrite acknowledged_ok, Ha. done.
  - destruct Hrun as [-> <-]. split; [by exists (map snd wakeups)|]. simpl. exists 0%nat, (index, w).
    do 4 (split; [done|]). by exists record.
Qed.

End wakeups.

(** ** Patterns *)

(** crates/evt-lambda/src/record.rs:25-36 [EventName]

    The names of the kinds of change in a record's JSON. *)
Definition event_name_str (name : EventName) : string :=
  match name with
  | Insert => "INSERT"
  | Modify => "MODIFY"
  | Remove => "REMOVE"
  | UnknownName => "UNKNOWN"
  end.

(** crates/evt-lambda/src/filter.rs:274-285 [walk]

    Whether one matcher accepts the string at a leaf of the record's JSON, if there is one. *)
Definition matcher_accepts (value : option string) (m : Matcher) : bool :=
  match m, value with
  | Equals want, Some got => bool_decide (want = got)
  | Prefix prefix, Some got => starts_with prefix got
  | Exists exists_, got => Bool.eqb exists_ (bool_decide (is_Some got))
  | _, None => false
  end.

(** crates/evt-lambda/src/filter.rs:271-273 [walk]

    The fields of an item: each has a string that one of its matchers accepts. The JSON of an
    attribute has the field [S] exactly when the attribute is a string. *)
Definition fields_accept (fields : gmap string (list Matcher)) (item : option Item) : bool :=
  bool_decide (map_Forall (λ name ms,
    existsb (matcher_accepts (match (match item with Some item => item !! name | None => None end) with
                              | Some (AS value) => Some value
                              | _ => None
                              end)) ms = true) fields).

(** crates/evt-lambda/src/filter.rs:266-293 [lambda_matches]

    What the service does with a pattern. *)
Definition lambda_matches {F64} (pattern : Pattern) (record : StreamRecord F64) : bool :=
  existsb (λ name, bool_decide (name = event_name_str (sr_event_name record))) (pt_event_name pattern)
  && fields_accept (pt_keys pattern) (Some (sc_keys (sr_change record)))
  && fields_accept (pt_new_image pattern) (sc_new_image (sr_change record)).

Lemma existsb_ordered (p : string → bool) (s : gset string) :
  existsb p (ordered s) = bool_decide (∃ x, x ∈ s ∧ p x = true).
Proof.
  apply eq_bool_prop_intro. rewrite bool_decide_spec, Is_true_true, existsb_exists. split.
  - intros (x & Hx%list_elem_of_In & Hp). exists x. split; [|done].
    apply elem_of_sort_by, elem_of_elements in Hx. done.
  - intros (x & Hx & Hp). exists x. split; [|done]. apply list_elem_of_In, elem_of_sort_by. by apply elem_of_elements.
Qed.

Lemma existsb_map_to {A B} (p : B → bool) (f : A → B) l : existsb p (map f l) = existsb (λ x, p (f x)) l.
Proof. induction l as [|x l IH]; [done|]. simpl. by rewrite IH. Qed.

(** The matchers of a rule accept the strings the rule matches, and nothing where there is none. *)
Lemma matchers_accept rule value :
  existsb (matcher_accepts value) (matchers rule) =
  match value with Some value => rule_matches rule value | None => false end.
Proof.
  unfold matchers. destruct (is_any rule) eqn:Ha.
  { destruct value as [value|]; [|done]. unfold rule_matches. by rewrite Ha. }
  rewrite existsb_app, !existsb_map_to. destruct value as [value|]; simpl.
  - unfold rule_matches. rewrite Ha. simpl. f_equal. rewrite existsb_ordered. apply bool_decide_ext. split.
    + intros (x & Hx & Heq). apply bool_decide_eq_true in Heq. by subst.
    + intros Hin. exists value. split; [done|]. by apply bool_decide_eq_true.
  - by rewrite !existsb_ordered, !bool_decide_false by (by intros (x & _ & [=])).
Qed.

Lemma fields_accept_nil item : fields_accept (field_map []) item = true.
Proof. apply bool_decide_eq_true. apply map_Forall_empty. Qed.

Lemma field_accepted rule item name :
  existsb (matcher_accepts (match item !! name with Some (AS value) => Some value | _ => None end)) (matchers rule)
  = matches_attribute rule item name.
Proof. rewrite matchers_accept. unfold matches_attribute. by destruct (item !! name) as [[]|]. Qed.

(** The fields of distinct names accept an item exactly when each rule matches its attribute. *)
Lemma fields_accept_rules fields (item : Item) :
  NoDup (map fst fields) →
  fields_accept (field_map fields) (Some item) = forallb (λ field, matches_attribute field.2 item field.1) fields.
Proof.
  intros Hnd. unfold field_map.
  enough (∀ m, (∀ name, name ∈ map fst fields → m !! name = None) →
    fields_accept (fold_left (λ m field, <[field.1 := matchers field.2]> m) fields m) (Some item)
    = fields_accept m (Some item) && forallb (λ field, matches_attribute field.2 item field.1) fields) as Hk.
  { rewrite Hk; [|intros name _; apply lookup_empty].
    change (fields_accept ∅ (Some item)) with (fields_accept (field_map []) (Some item)). by rewrite fields_accept_nil. }
  induction fields as [|[name rule] fields IH]; intros m Hm; [by rewrite andb_true_r|].
  apply NoDup_cons in Hnd as [Hn Hnd]. cbn [fold_left fst snd]. rewrite IH; [|done|].
  - cbn [forallb fst snd]. rewrite andb_assoc. f_equal.
    rewrite <-field_accepted. unfold fields_accept at 1.
    erewrite bool_decide_ext; [|apply map_Forall_insert, Hm, list_elem_of_here].
    rewrite andb_comm. unfold fields_accept. rewrite bool_decide_and. f_equal.
    by case_bool_decide as Hb; destruct (existsb _ _).
  - intros other Hin. rewrite lookup_insert_ne; [|intros ->; done]. apply Hm. by apply list_elem_of_further.
Qed.

Lemma event_fields_names f : NoDup (map fst (event_fields f)).
Proof. unfold event_fields. destruct (is_any (ef_entity_type f)); by apply (bool_decide_unpack _). Qed.

Lemma no_image_refused f : fields_accept (field_map (event_fields f)) None = false.
Proof.
  apply bool_decide_eq_false. intros Hall. specialize (Hall "metadata" [Exists true]).
  cut (field_map (event_fields f) !! "metadata"%string = Some [Exists true]); [by intros Hk%Hall|].
  unfold event_fields. by destruct (is_any (ef_entity_type f)).
Qed.

Section patterns.
Context {F64 : Type} `{SerdeJson}.
Implicit Types record : StreamRecord F64.

Lemma event_pattern_agrees f record :
  lambda_matches (pattern_of ["INSERT"%string] [] (event_fields f)) record = filter_matches_record f record.
Proof.
  unfold lambda_matches, filter_matches_record. cbn [pattern_of pt_event_name pt_keys pt_new_image existsb].
  rewrite fields_accept_nil, andb_true_r. destruct (sc_new_image (sr_change record)) as [image|].
  - rewrite fields_accept_rules by apply event_fields_names. rewrite orb_false_r. rewrite <-!andb_assoc. f_equal.
    { by destruct (sr_event_name record). }
    unfold event_fields. destruct (is_any (ef_entity_type f)); simpl; by rewrite ?andb_true_r.
  - by rewrite no_image_refused, andb_false_r.
Qed.

Lemma journal_pattern_agrees f record :
  lambda_matches (pattern_of ["INSERT"; "MODIFY"]%string [("pk"%string, journal_rule f)] []) record
  = journal_filter_matches f record.
Proof.
  unfold lambda_matches, journal_filter_matches. cbn [pattern_of pt_event_name pt_keys pt_new_image existsb].
  rewrite fields_accept_nil, andb_true_r, fields_accept_rules by apply NoDup_singleton. simpl.
  rewrite andb_true_r. f_equal. by destruct (sr_event_name record).
Qed.

Lemma any_matches rule value : is_any rule = true → rule_matches rule value = true.
Proof. intros Ha. unfold rule_matches. by rewrite Ha. Qed.

(** An image that decodes has the metadata a pattern asks for, and the types its event has. *)
Lemma decoded_image image event event_type entity_type :
  event_from_item image = Ok event →
  image !! "type"%string = Some (AS event_type) → image !! "entityType"%string = Some (AS entity_type) →
  (∃ m, image !! "metadata"%string = Some (AS m)) ∧ ev_type event = event_type ∧ ev_entity_type event = entity_type.
Proof.
  intros Hd Ht He. unfold event_from_item in Hd.
  destruct (required_string image "pk") as [pk|]; [|done]. cbn [result_bind] in Hd.
  destruct (required_number image "sk") as [sk|]; [|done]. cbn [result_bind] in Hd.
  assert (optional_string image "type" = Ok (Some event_type)) as Ht' by (unfold optional_string; by rewrite Ht).
  assert (optional_string image "entityType" = Ok (Some entity_type)) as He' by (unfold optional_string; by rewrite He).
  rewrite Ht', He' in Hd. unfold optional_string at 1 in Hd.
  destruct (image !! "metadata"%string) as [[m| | | | | | | | |]|]; try done. split; [by exists m|].
  cbn [result_bind default] in Hd. destruct (is_blank _); [done|].
  destruct (json_parse_metadata _); [|done]. cbn [map_err result_bind] in Hd.
  destruct (optional_number image "version"); [|done]. cbn [result_bind] in Hd.
  destruct (optional_string image "payload"); [|done]. injection Hd as <-. done.
Qed.

End patterns.

(** ** Examples *)

#[local] Existing Instance sample_json.

(** The stream record of an event, and of the head of its stream. *)
Definition sample_image (id : EntityId) (sequence : EventSequence) : Item :=
  <["metadata"%string := AS "{}"]> (<["type"%string := AS "Opened"]> (<["entityType"%string := AS "Account"]>
  (<["version"%string := an 1]> (<["payload"%string := AS "{}"]> (<["sk"%string := an sequence]>
  (<["pk"%string := AS id]> ∅)))))).

Definition sample_keys (id : EntityId) (sequence : EventSequence) : Item :=
  <["sk"%string := an sequence]> (<["pk"%string := AS id]> ∅).

Definition sample_record (id : EntityId) (sequence : EventSequence) : StreamRecord unit :=
  with_new_image (stream_record_new Insert (sample_keys id sequence) (show sequence)) (sample_image id sequence).

Definition sample_head_record : StreamRecord unit := stream_record_new Modify (sample_keys "a" 0) "7".

Definition sample_batch : list (StreamRecord unit) :=
  [sample_record "a" 1; sample_head_record; sample_record "a" 2].

Definition sample_streamed (sequence : EventSequence) : StreamedEvent unit :=
  mkStreamedEvent (sample_event "a" sequence) (show sequence) None.

(** The second event's handler fails once, and the batch is delivered again from its record. *)
Lemma redelivery_acknowledges_in_order_witness :
  concat (map acknowledged
    [[(sample_streamed 1, Ok tt); (sample_streamed 2, Err (BoxText "down"))]; [(sample_streamed 2, Ok tt)]])
  = [sample_streamed 1; sample_streamed 2].
Proof.
  refine (redelivery_acknowledges_in_order event_filter_new sample_batch _ _ _).
  - by apply (bool_decide_unpack _).
  - eapply delivered_again; [vm_compute; repeat split; reflexivity|reflexivity|].
    eapply delivered_done; [vm_compute; repeat split; reflexivity|reflexivity].
Defined.

