(* ===== verification/Dynamo.v ===== *)
(** * The DynamoDB repository

    [dynamodb.rs]: the repository over DynamoDB tables. Every request to the service is a call, and
    so is a critical section over the cells a repository instance keeps behind mutexes (the marker
    it validated and the expiries it has seen) and a reading of its clock; other clients may run
    between any two of them. Requests are built as the code builds them, with the texts of their
    conditions and updates. The builders of the SDK fail only on a required field that is not set;
    all are, so what they build is written directly. *)

From S2P Require Import Prelude Types Features Outcome Rebuild Base64 Wire Projection Repository Program.

(** ** Wire texts and values *)

(** crates/evt/src/wire/dynamo.rs:67-75 [EVENT_CONDITION] *)
Definition EVENT_CONDITION : string := "attribute_not_exists(sk)".
Definition FIRST_SNAPSHOT_CONDITION : string := "attribute_not_exists(seq)".
Definition NEXT_SNAPSHOT_CONDITION : string := "seq = :seq".

(** crates/evt/src/wire/dynamo.rs:125-129 [PUT_SNAPSHOT_CONDITION] *)
Definition PUT_SNAPSHOT_CONDITION : string := "attribute_not_exists(eventSeq) OR eventSeq <= :new".
Definition OUTCOME_CONDITION : string := "attribute_not_exists(pk)".

(** crates/evt/src/wire/dynamo.rs:167-246 [MARKER_CONDITION] *)
Definition MARKER_CONDITION : string := "attribute_not_exists(pk) OR version = :v".
Definition REBUILD_LOCK_CHECK_CONDITION : string := "attribute_not_exists(pk)".
Definition REBUILD_OWNER_NAME : string := "#owner".
Definition REBUILD_VALUE_NAME : string := "#value".
Definition REBUILD_GENERATION_NAME : string := "#generation".
Definition REBUILD_ACQUIRE_LOCK_CONDITION : string := "attribute_not_exists(pk) OR forceReleased = :true".
Definition REBUILD_ACQUIRE_UPDATE : string := "SET #value = if_not_exists(#value, :zero) + :increment".
Definition REBUILD_ACQUIRE_CONDITION : string :=
  "attribute_not_exists(#value) OR #value = :seenEven OR (#value = :seenOdd AND forceReleased = :true)".
Definition REBUILD_TAKEOVER_LOCK_CONDITION : string := "leaseExpiresAt < :now AND #owner = :observedOwner".
Definition REBUILD_TAKEOVER_UPDATE : string := "SET #value = #value + :two".
Definition REBUILD_SEEN_ODD_CONDITION : string := "#value = :seenOdd".
Definition REBUILD_RENEW_UPDATE : string := "SET leaseExpiresAt = :expiry".
Definition REBUILD_RENEW_CONDITION : string := "#owner = :owner AND #generation = :generation".
Definition REBUILD_RELEASE_CONDITION : string := "#owner = :me AND #generation = :generation".
Definition REBUILD_RELEASE_UPDATE : string := "SET #value = #value + :one REMOVE forceReleased".
Definition REBUILD_FORCE_RELEASE_CONDITION : string := "#owner = :requestedOwner".
Definition REBUILD_FORCE_RELEASE_UPDATE : string := "SET #value = #value + :two, forceReleased = :true".
Definition REBUILD_GUARD_CONDITION : string :=
  "#owner = :me AND #generation = :generation AND leaseExpiresAt > :now".
Definition EXPECTED_PAYLOAD_PLACEHOLDER : string := ":expected".
Definition VIEW_EXPECTED_PAYLOAD_CONDITION : string := "entityID = :owner AND payload = :expected".
Definition COMPACTION_EPOCH_CONDITION : string := "#value = :epoch".
Definition COMPACTION_EPOCH_ZERO_CONDITION : string := "attribute_not_exists(#value)".
Definition COMPACTION_PAYLOAD_CONDITION : string := "entityID = :engine AND payload = :expected".

(** The condition of a manifest write, of a compaction's marker check, and of a first write. *)
Definition OBSERVED_CONDITION : string := "version = :observed".
Definition ABSENT_CONDITION : string := "attribute_not_exists(pk)".

(** crates/evt/src/wire/dynamo.rs:843-854 [expiry]

    Times are nanoseconds since the epoch. *)
Definition expiry (now retention : Z) : option Z :=
  if retention =? 0 then None
  else
    let at_ := now + retention in
    if at_ <? 0 then None
    else let seconds := at_ / 1000000000 in if i64_max <? seconds then None else Some seconds.

(** crates/evt/src/rebuild.rs:828-834 [Clock::unix_seconds] *)
Definition unix_seconds (now : Z) : Z :=
  if now <? 0 then 0 else Z.min i64_max (now / 1000000000).

(** ** The SDK's values *)

(** crates/evt/src/dynamodb.rs:2724-2743 [to_sdk]

    The SDK's values are those of the wire, except that binary sets hold bytes and not base64. *)
Fixpoint to_sdk (value : AttributeValue) : AttributeValue :=
  match value with
  | AM entries => AM (map (λ e : string * AttributeValue, (e.1, to_sdk e.2)) entries)
  | AL values => AL (map to_sdk values)
  | ABs texts =>
      ABs (map (λ encoded, match base64_decode encoded with Ok bytes => bytes | Err _ => EmptyString end) texts)
  | other => other
  end.

(** crates/evt/src/dynamodb.rs:2745-2765 [from_sdk] *)
Fixpoint from_sdk (value : AttributeValue) : AttributeValue :=
  match value with
  | AM entries => AM (map (λ e : string * AttributeValue, (e.1, from_sdk e.2)) entries)
  | AL values => AL (map from_sdk values)
  | ABs blobs => ABs (map base64_encode blobs)
  | other => other
  end.

(** crates/evt/src/dynamodb.rs:2711-2715 [to_sdk_item] *)
Definition to_sdk_item (item : Item) : Item := to_sdk <$> item.

(** crates/evt/src/dynamodb.rs:2718-2722 [from_sdk_item] *)
Definition from_sdk_item (item : Item) : Item := from_sdk <$> item.

(** crates/evt/src/dynamodb.rs:2695-2708 [number_attribute] *)
Definition number_attribute (item : Item) (name : string) : Result (option Z) :=
  match item !! name with
  | None => Ok None
  | Some (AN value) =>
      match parse_i64 value with
      | Some z => Ok (Some z)
      | None => Err (InvalidRecord (Fmt "attribute {name} is not an integer: {value}" [name; value]))
      end
  | Some _ => Err (InvalidRecord (Fmt "attribute {name} is not a number" [name]))
  end.

(** [HashMap::from] of a key's two attributes. *)
Definition key_of (pk sk : AttributeValue) : Item := <["sk"%string := sk]> (<["pk"%string := pk]> ∅).
Definition stream_key (pk : string) (sk : Z) : Item := key_of (AS pk) (an sk).

(** ** Requests *)

(** The names and values an expression's placeholders stand for. *)
Abbreviation Names := (gmap string string).

(** [aws_sdk_dynamodb::types::TransactWriteItem]: one action of a transaction. *)
Inductive TransactWriteItem :=
| TPut (table : string) (item : Item) (condition : option string) (names : Names) (values : Item)
| TUpdate (table : string) (key : Item) (update : string) (condition : option string) (names : Names)
    (values : Item)
| TDelete (table : string) (key : Item) (condition : option string) (names : Names) (values : Item)
| TCheck (table : string) (key : Item) (condition : string) (names : Names) (values : Item).

(** [SdkError], as far as the code looks at it. A service error has the status of the response, its
    code, and what it says: a cancelled transaction with the codes of its actions, a failed
    condition of a single write, or anything else. *)
Inductive ServiceFault :=
| TransactionCanceled (reasons : list (option string))
| ConditionalCheckFailed
| OtherFault.

Inductive SdkError :=
| TimeoutError
| DispatchFailure
| ResponseError
| ConstructionFailure
| ServiceError (status : option Z) (code : option string) (fault : ServiceFault).

(** A query or a scan. *)
Record QueryRequest := mkQuery {
  qr_table : string;
  qr_index : option string;
  qr_consistent : option bool;
  qr_key_condition : string;
  qr_names : Names;
  qr_values : Item;
  qr_projection : option string;
  qr_forward : bool;
  qr_limit : option Z;
  qr_start : option Item
}.
Record ScanRequest := mkScan {
  sq_table : string;
  sq_consistent : bool;
  sq_projection : option string;
  sq_filter : option string;
  sq_values : Item;
  sq_limit : option Z;
  sq_start : option Item
}.
Record Page := mkPage { pg_items : list Item; pg_last : option Item }.

(** [page.last_evaluated_key], when there is more. *)
Definition next_key (page : Page) : option Item :=
  match pg_last page with
  | Some key => if bool_decide (key = ∅) then None else Some key
  | None => None
  end.

(** [output.item.filter(|item| !item.is_empty())]. *)
Definition present (item : option Item) : option Item :=
  match item with
  | Some item => if bool_decide (item = ∅) then None else Some item
  | None => None
  end.

(** [sdk::WriteRequest]. *)
Inductive WriteRequest := PutRequest (item : Item) | DeleteRequest (key : Item).

(** ** The cells of an instance *)

(** crates/evt/src/dynamodb.rs:103-103 [LOADED_TTL_CAPACITY] *)
Definition LOADED_TTL_CAPACITY : Z := 1024.

(** crates/evt/src/dynamodb.rs:112-115 [LoadedTtls] *)
Record LoadedTtls := mkLoadedTtls { lt_ttls : gmap EntityId Z; lt_order : list EntityId }.

(** crates/evt/src/dynamodb.rs:118-133 [LoadedTtls::note] *)
Definition note (loaded : LoadedTtls) (entity_id : EntityId) (ttl : Z) : LoadedTtls :=
  match lt_ttls loaded !! entity_id with
  | Some known => mkLoadedTtls (<[entity_id := Z.max known ttl]> (lt_ttls loaded)) (lt_order loaded)
  | None =>
      let loaded :=
        if LOADED_TTL_CAPACITY <=? Z.of_nat (size (lt_ttls loaded)) then
          match lt_order loaded with
          | oldest :: order => mkLoadedTtls (delete oldest (lt_ttls loaded)) order
          | [] => loaded
          end
        else loaded in
      mkLoadedTtls (<[entity_id := ttl]> (lt_ttls loaded)) (lt_order loaded ++ [entity_id])
  end.

(** crates/evt/src/dynamodb.rs:135-137 [LoadedTtls::get] *)
Definition loaded_get (loaded : LoadedTtls) (entity_id : EntityId) : option Z :=
  lt_ttls loaded !! entity_id.

(** What an instance keeps behind its two mutexes. *)
Record Cells := mkCells { ce_marker : CachedMarker; ce_ttls : LoadedTtls }.
Definition Cells_new : Cells := mkCells None (mkLoadedTtls ∅ []).

(** ** Calls *)

(** The requests of the service, the critical sections over the cells of instance [handle], the
    clock and the timer. *)
Inductive DynamoCall : Type → Type :=
| GetItem (table : string) (consistent : bool) (key : Item) (projection : option string) (names : Names)
    : DynamoCall (result (option Item) SdkError)
| Query (request : QueryRequest) : DynamoCall (result Page SdkError)
| Scan (request : ScanRequest) : DynamoCall (result Page SdkError)
| PutItem (table : string) (item : Item) (condition : string) (values : Item)
    : DynamoCall (result unit SdkError)
| UpdateItem (table : string) (key : Item) (update : string) (condition : option string) (names : Names)
    (values : Item) : DynamoCall (result unit SdkError)
| TransactWriteItems (items : list TransactWriteItem) : DynamoCall (result unit SdkError)
| BatchWriteItem (requests : gmap string (list WriteRequest))
    : DynamoCall (result (gmap string (list WriteRequest)) SdkError)
| BatchGetItem (requests : gmap string (list Item))
    : DynamoCall (result (gmap string (list Item) * gmap string (list Item)) SdkError)
| Locked {B : Type} (handle : nat) (section : Cells → Cells * B) : DynamoCall B
| Now : DynamoCall Z
| Sleep (nanoseconds : Z) : DynamoCall unit.

Abbreviation DProg A := (Tree DynamoCall (result A Error)).

(** ** The repository *)

(** crates/evt/src/dynamodb.rs:142-163 [DynamoRepository]

    [dr_handle] names the instance whose cells it locks. *)
Record DynamoRepository := mkDynamoRepository {
  dr_handle : nat;
  dr_table : string;
  dr_views_table : option string;
  dr_consistent_read : bool;
  dr_scan_page_size : option Z;
  dr_retention : gmap EntityType Z;
  dr_lazy_initialization : bool;
  dr_journaling : bool
}.

(** crates/evt/src/dynamodb.rs:191-205 [DynamoRepository::new] *)
Definition dynamo_new (handle : nat) (table : string) : DynamoRepository :=
  mkDynamoRepository handle table None true None ∅ false false.

(** crates/evt/src/dynamodb.rs:166-181 [DynamoRepository::clone]

    The clone is an instance of its own, with the cells of the next definition. *)
Definition dynamo_clone (r : DynamoRepository) (handle : nat) : DynamoRepository :=
  mkDynamoRepository handle (dr_table r) (dr_views_table r) (dr_consistent_read r) (dr_scan_page_size r)
    (dr_retention r) (dr_lazy_initialization r) (dr_journaling r).

(** crates/evt/src/dynamodb.rs:176-179 [DynamoRepository::clone] *)
Definition cells_clone (cells : Cells) : Cells := mkCells (ce_marker cells) (mkLoadedTtls ∅ []).

(** crates/evt/src/dynamodb.rs:215-218 [DynamoRepository::with_views_table] *)
Definition with_views_table (r : DynamoRepository) (table : string) : DynamoRepository :=
  mkDynamoRepository (dr_handle r) (dr_table r) (Some table) (dr_consistent_read r) (dr_scan_page_size r)
    (dr_retention r) (dr_lazy_initialization r) (dr_journaling r).

(** crates/evt/src/dynamodb.rs:240-243 [DynamoRepository::with_lazy_initialization] *)
Definition with_lazy_initialization (r : DynamoRepository) (lazy : bool) : DynamoRepository :=
  mkDynamoRepository (dr_handle r) (dr_table r) (dr_views_table r) (dr_consistent_read r) (dr_scan_page_size r)
    (dr_retention r) lazy (dr_journaling r).

(** crates/evt/src/dynamodb.rs:247-250 [DynamoRepository::with_consistent_read] *)
Definition with_consistent_read (r : DynamoRepository) (consistent : bool) : DynamoRepository :=
  mkDynamoRepository (dr_handle r) (dr_table r) (dr_views_table r) consistent (dr_scan_page_size r)
    (dr_retention r) (dr_lazy_initialization r) (dr_journaling r).

(** crates/evt/src/dynamodb.rs:258-261 [DynamoRepository::with_scan_page_size] *)
Definition with_scan_page_size (r : DynamoRepository) (limit : Z) : DynamoRepository :=
  mkDynamoRepository (dr_handle r) (dr_table r) (dr_views_table r) (dr_consistent_read r) (Some (Z.max limit 1))
    (dr_retention r) (dr_lazy_initialization r) (dr_journaling r).

(** crates/evt/src/dynamodb.rs:267-274 [DynamoRepository::with_retention] *)
Definition with_retention (r : DynamoRepository) (entity_type : EntityType) (duration : Z) : DynamoRepository :=
  mkDynamoRepository (dr_handle r) (dr_table r) (dr_views_table r) (dr_consistent_read r) (dr_scan_page_size r)
    (<[entity_type := duration]> (dr_retention r)) (dr_lazy_initialization r) (dr_journaling r).

(** crates/evt/src/dynamodb.rs:2181-2183 [DynamoRepository::accept_journal] *)
Definition dynamo_accept_journal (r : DynamoRepository) : DynamoRepository :=
  mkDynamoRepository (dr_handle r) (dr_table r) (dr_views_table r) (dr_consistent_read r) (dr_scan_page_size r)
    (dr_retention r) (dr_lazy_initialization r) true.

(** crates/evt/src/dynamodb.rs:2177-2179 [DynamoRepository::refuses_uninitialized] *)
Definition dynamo_refuses_uninitialized (r : DynamoRepository) : bool := negb (dr_lazy_initialization r).

(** crates/evt/src/dynamodb.rs:287-291 [DynamoRepository::retains] *)
Definition retains (r : DynamoRepository) (entity_type : EntityType) : bool :=
  match dr_retention r !! entity_type with Some duration => negb (duration =? 0) | None => false end.

(** crates/evt/src/dynamodb.rs:293-297 [DynamoRepository::ttl_for] *)
Definition ttl_for (r : DynamoRepository) (entity_type : EntityType) : Tree DynamoCall (option Z) :=
  match dr_retention r !! entity_type with
  | None => Ret None
  | Some retention => await now := call Now in Ret (expiry now retention)
  end.

(** crates/evt/src/dynamodb.rs:312-314 [DynamoRepository::note_ttl] *)
Definition note_ttl (r : DynamoRepository) (entity_id : EntityId) (ttl : Z) : Tree DynamoCall unit :=
  call (Locked (dr_handle r) (λ cells, (mkCells (ce_marker cells) (note (ce_ttls cells) entity_id ttl), tt))).

(** [if let Some(ttl) = wire::item_ttl(&item) { self.note_ttl(entity_id, ttl) }]. *)
Definition note_item (r : DynamoRepository) (entity_id : EntityId) (item : Item) : Tree DynamoCall unit :=
  match item_ttl item with Some ttl => note_ttl r entity_id ttl | None => Ret tt end.

(** crates/evt/src/dynamodb.rs:317-319 [DynamoRepository::now] *)
Definition dynamo_now : Tree DynamoCall Z := await now := call Now in Ret (unix_seconds now).

(** crates/evt/src/dynamodb.rs:549-551 [DynamoRepository::invalidate_manifest] *)
Definition invalidate_manifest (r : DynamoRepository) : Tree DynamoCall unit :=
  call (Locked (dr_handle r) (λ cells, (mkCells None (ce_ttls cells), tt))).

(** ** Errors of the service *)

(** crates/evt/src/dynamodb.rs:45-53 [CONTROL_ITEMS] *)
Definition CONTROL_ITEMS : nat := 2.
Definition REBUILD_LOCK_CHECK_INDEX : nat := 1.
Definition MAX_MARKER_REVALIDATIONS : nat := 8.

(** crates/evt/src/dynamodb.rs:57-57 [MAX_SNAPSHOT_GUARD_RETRIES] *)
Definition MAX_SNAPSHOT_GUARD_RETRIES : nat := 4.

(** crates/evt/src/dynamodb.rs:95-95 [MAX_DECLARATION_RETRIES] *)
Definition MAX_DECLARATION_RETRIES : nat := 8.

(** crates/evt/src/dynamodb.rs:97-97 [COMPACTION_BATCH_SIZE] *)
Definition COMPACTION_BATCH_SIZE : nat := 99.

(** crates/evt/src/dynamodb.rs:100-100 [LATEST_PAGE_SIZE] *)
Definition LATEST_PAGE_SIZE : Z := 100.

(** crates/evt/src/dynamodb.rs:2670-2685 [throttled] *)
Definition throttled (err : SdkError) : bool :=
  match err with
  | ServiceError _ (Some code) _ =>
      bool_decide (code ∈ ["ThrottlingException"; "ProvisionedThroughputExceededException"; "RequestLimitExceeded"]%string)
  | _ => false
  end.

(** crates/evt/src/dynamodb.rs:2517-2532 [cancellation_reasons] *)
Definition cancellation_reasons (err : SdkError) : list (option string) :=
  match err with
  | ServiceError _ _ (TransactionCanceled reasons) => reasons
  | _ => []
  end.

(** crates/evt/src/dynamodb.rs:2535-2541 [failed_items] *)
Definition failed_items (codes : list (option string)) (code : string) : list nat :=
  omap (λ x : nat * option string, if bool_decide (x.2 = Some code) then Some x.1 else None) (imap pair codes).

(** [codes.get(index).copied().flatten()]. *)
Definition code_at (codes : list (option string)) (index : nat) : option string :=
  match codes !! index with Some code => code | None => None end.

Definition condition_failed_at (codes : list (option string)) (index : nat) : bool :=
  bool_decide (code_at codes index = Some "ConditionalCheckFailed"%string).

(** crates/evt/src/dynamodb.rs:2505-2507 [rebuild_lock_failed] *)
Definition rebuild_lock_failed (codes : list (option string)) : bool :=
  condition_failed_at codes REBUILD_LOCK_CHECK_INDEX.

(** crates/evt/src/dynamodb.rs:2510-2514 [outcome_failed] *)
Definition outcome_put_failed (outcome_index : option nat) (codes : list (option string)) : bool :=
  match outcome_index with
  | Some index => existsb (Nat.eqb index) (failed_items codes "ConditionalCheckFailed")
  | None => false
  end.

(** crates/evt/src/dynamodb.rs:2457-2472 [Cancellation] *)
Inductive Cancellation := CnMarker | CnRebuildLock | CnStreamCondition | CnProjectorCondition | CnConflict | CnThrottled.

(** crates/evt/src/dynamodb.rs:2477-2502 [classify_cancellation] *)
Definition classify_cancellation (operations : nat) (codes : list (option string)) : option Cancellation :=
  let failed := failed_items codes in
  let conditions := failed "ConditionalCheckFailed"%string in
  if bool_decide (head conditions = Some 0%nat) then Some CnMarker
  else if rebuild_lock_failed codes then Some CnRebuildLock
  else if existsb (λ index, (CONTROL_ITEMS + operations <=? index)%nat) conditions then Some CnStreamCondition
  else if negb (nil_b conditions) then Some CnProjectorCondition
  else if negb (nil_b (failed "TransactionConflict"%string)) then Some CnConflict
  else if negb (nil_b (failed "ThrottlingError"%string))
       || negb (nil_b (failed "ProvisionedThroughputExceeded"%string)) then Some CnThrottled
  else None.

(** crates/evt/src/dynamodb.rs:2597-2624 [commit_result_unknown] *)
Definition commit_result_unknown (err : SdkError) : bool :=
  match err with
  | TimeoutError | DispatchFailure | ResponseError => true
  | ServiceError status code _ =>
      match status with Some status => 500 <=? status | None => false end
      || match code with
         | Some code =>
             bool_decide (code ∈ ["InternalServerError"; "ServiceUnavailable"; "TransactionInProgressException";
               "IdempotentParameterMismatchException"]%string)
         | None => false
         end
  | ConstructionFailure => false
  end.

Section dynamo.
(** The display text of the SDK's errors. *)
Context `{SerdeJson} (sdk_text : SdkError → string).

(** A boxed error of the SDK, which no code looks into. *)
Definition sdk_box (err : SdkError) : BoxError := BoxText (sdk_text err).

(** crates/evt/src/dynamodb.rs:2648-2667 [sdk_error] *)
Definition sdk_error (err : SdkError) : Error :=
  let outcome_unknown :=
    match err with
    | TimeoutError | DispatchFailure => true
    | ServiceError _ (Some code) _ =>
        bool_decide (code ∈ ["InternalServerError"; "TransactionInProgressException"]%string)
    | _ => false
    end in
  if outcome_unknown || throttled err then Transient (sdk_box err) else Types.Backend (sdk_box err).

(** crates/evt/src/dynamodb.rs:2551-2592 [classify_transaction_error] *)
Definition classify_transaction_error (entity_id : EntityId) (operations : nat) (carries_outcome : bool)
    (err : SdkError) : Error :=
  match classify_cancellation operations (cancellation_reasons err) with
  | Some CnMarker => Types.Backend (sdk_box err)
  | Some CnRebuildLock => RebuildInProgress
  | Some CnStreamCondition =>
      Conflict entity_id (Fmt "conditional check failed: the sequence or snapshot changed since it was read" [])
  | Some CnConflict => Transient (TransactionConflict entity_id (sdk_box err))
  | Some CnProjectorCondition => Projector (sdk_box err)
  | Some CnThrottled => Transient (sdk_box err)
  | None =>
      if throttled err then Transient (sdk_box err)
      else if carries_outcome && commit_result_unknown err then Indeterminate (sdk_box err)
      else Types.Backend (sdk_box err)
  end.

(** [.send().await.map_err(sdk_error)]. *)
Definition send {A} (q : DynamoCall (result A SdkError)) : DProg A := map_err_prog sdk_error (call q).

(** ** The manifest *)

(** crates/evt/src/dynamodb.rs:554-572 [DynamoRepository::read_manifest] *)
Definition dynamo_read_manifest (r : DynamoRepository) : DProg (option FeatureManifest) :=
  await? item := send (GetItem (dr_table r) true (stream_key FEATURES_ID FEATURES_SORT_KEY) None ∅) in
  Ret match present item with
      | Some item => let? manifest := feature_marker_from_item (from_sdk_item item) in Ok (Some manifest)
      | None => Ok None
      end.

(** crates/evt/src/dynamodb.rs:598-641 [DynamoRepository::revise_manifest]

    [change] gives the changed manifest, or none when it has nothing to change. [attempts] counts
    the rounds that are left. *)
Fixpoint revise_loop (r : DynamoRepository) (change : FeatureManifest → FeatureManifest * bool)
    (attempts : nat) : DProg (FeatureManifest * bool) :=
  match attempts with
  | O => Ret (Err (Types.Backend (BoxText "feature-marker declaration kept racing another declaration")))
  | S attempts =>
      await? observed := dynamo_read_manifest r in
      let changed := change (default FeatureManifest_default observed) in
      if negb changed.2 then Ret (Ok (changed.1, false))
      else
        let next := with_version changed.1
          match observed with Some manifest => i64_add (fm_version manifest) 1 | None => 1 end in
        await put := call (PutItem (dr_table r) (to_sdk_item (feature_marker_item next))
          (match observed with None => ABSENT_CONDITION | Some _ => OBSERVED_CONDITION end)
          (match observed with
           | None => ∅
           | Some manifest => <[":observed"%string := an (fm_version manifest)]> ∅
           end)) in
        match put with
        | Ok _ => await invalidated := invalidate_manifest r in Ret (Ok (next, true))
        | Err (ServiceError _ _ ConditionalCheckFailed) => revise_loop r change attempts
        | Err err => Ret (Err (sdk_error err))
        end
  end.

(** crates/evt/src/dynamodb.rs:598-602 [DynamoRepository::revise_manifest] *)
Definition revise_manifest (r : DynamoRepository) (change : FeatureManifest → FeatureManifest * bool)
  : DProg (FeatureManifest * bool) := revise_loop r change (S MAX_DECLARATION_RETRIES).

(** crates/evt/src/dynamodb.rs:579-591 [DynamoRepository::update_manifest] *)
Definition dynamo_update_manifest (r : DynamoRepository) (change : FeatureManifest → FeatureManifest)
  : DProg unit :=
  await? revised := revise_manifest r (λ manifest, (change manifest, true)) in Ret (Ok tt).

(** crates/evt/src/dynamodb.rs:652-655 [DynamoRepository::declare_stream_heads] *)
Definition dynamo_declare_stream_heads (r : DynamoRepository) : DProg unit :=
  dynamo_update_manifest r declare_stream_heads.

(** crates/evt/src/dynamodb.rs:1642-1644 [DynamoRepository::declare_history_dependent] *)
Definition dynamo_declare_history (r : DynamoRepository) (types : list EntityType) : DProg unit :=
  await? manifest := dynamo_read_manifest r in
  let missing := missing_history manifest types in
  if nil_b missing then Ret (Ok tt)
  else dynamo_update_manifest r (λ manifest, extend_history manifest missing).

(** crates/evt/src/dynamodb.rs:1094-1119 [DynamoRepository::read_head_item] *)
Definition read_head_item (r : DynamoRepository) (entity_id : EntityId)
  : DProg (option (EventSequence * option Z)) :=
  await? item := send (GetItem (dr_table r) true (stream_key entity_id HEAD_SORT_KEY) None ∅) in
  match present item with
  | None => Ret (Ok None)
  | Some item =>
      let item := from_sdk_item item in
      await noted := note_item r entity_id item in
      Ret (let? head := head_from_item item in Ok (Some head))
  end.

(** crates/evt/src/dynamodb.rs:1088-1090 [DynamoRepository::read_head] *)
Definition read_head (r : DynamoRepository) (entity_id : EntityId) : DProg (option EventSequence) :=
  await? head := read_head_item r entity_id in
  Ret (Ok match head with Some (head, _) => Some head | None => None end).

(** The partition a scanned item belongs to, when it is a stream's. *)
Definition stream_pk (item : Item) : option string :=
  match item !! "pk"%string with
  | Some (AS pk) => if starts_with SYSTEM_PREFIX pk || starts_with COMMAND_OUTCOME_PREFIX pk then None else Some pk
  | _ => None
  end.

(** crates/evt/src/dynamodb.rs:481-493 [DynamoRepository::holds_headless_stream]

    What one item of the scan adds to the streams and to those that have a head. *)
Definition scan_heads (seen : gset string * gset string) (item : Item) : gset string * gset string :=
  match stream_pk item with
  | None => seen
  | Some pk =>
      ({[pk]} ∪ seen.1,
       match item !! "sk"%string with
       | Some (AN sk) => if bool_decide (sk = "-1"%string) then {[pk]} ∪ seen.2 else seen.2
       | _ => seen.2
       end)
  end.

(** crates/evt/src/dynamodb.rs:501-507 [DynamoRepository::holds_headless_stream] *)
Fixpoint any_headless (r : DynamoRepository) (pks : list string) : DProg bool :=
  match pks with
  | [] => Ret (Ok false)
  | pk :: pks =>
      await? head := read_head r pk in
      match head with None => Ret (Ok true) | Some _ => any_headless r pks end
  end.

(** crates/evt/src/dynamodb.rs:464-508 [DynamoRepository::holds_headless_stream]

    [fuel] bounds the pages of a scan, here and below. *)
Fixpoint headless_loop (r : DynamoRepository) (fuel : nat) (seen : gset string * gset string)
    (start : option Item) : DProg bool :=
  match fuel with
  | O => OutOfFuel
  | S fuel =>
      await? page := send (Scan (mkScan (dr_table r) true (Some "pk, sk"%string) None ∅ None start)) in
      let seen := fold_left scan_heads (pg_items page) seen in
      match next_key page with
      | Some key => headless_loop r fuel seen (Some key)
      | None => any_headless r (sort_by string_leb (elements (seen.1 ∖ seen.2)))
      end
  end.

(** crates/evt/src/dynamodb.rs:528-536 [DynamoRepository::holds_stream_data] *)
Definition is_stream_item (item : Item) : bool :=
  match item !! "pk"%string with
  | Some (AS pk) => negb (starts_with SYSTEM_PREFIX pk) && negb (starts_with COMMAND_OUTCOME_PREFIX pk)
  | Some _ => true
  | None => false
  end.

(** crates/evt/src/dynamodb.rs:513-546 [DynamoRepository::holds_stream_data] *)
Fixpoint data_loop (r : DynamoRepository) (fuel : nat) (start : option Item) : DProg bool :=
  match fuel with
  | O => OutOfFuel
  | S fuel =>
      await? page := send (Scan (mkScan (dr_table r) true (Some "pk"%string) None ∅ None start)) in
      if existsb is_stream_item (pg_items page) then Ret (Ok true)
      else
        match next_key page with
        | Some key => data_loop r fuel (Some key)
        | None => Ret (Ok false)
        end
  end.

(** The change of an initializer: nothing when the manifest declares stream heads. *)
Definition declare_once (manifest : FeatureManifest) : FeatureManifest * bool :=
  if declares_stream_heads manifest then (manifest, false) else (declare_stream_heads manifest, true).

(** The change that retracts it. *)
Definition retract_stream_heads (manifest : FeatureManifest) : FeatureManifest :=
  mkManifest (fm_version manifest) (delete STREAM_HEADS_FEATURE (fm_features manifest))
    (fm_history_dependent manifest) (fm_retention manifest).

(** crates/evt/src/dynamodb.rs:402-458 [DynamoRepository::initialize]

    From the scan on. *)
Definition initialize_fresh (r : DynamoRepository) (fuel : nat) : DProg bool :=
  await? held := data_loop r fuel None in
  if held : bool then Ret (Err StreamHeadsNotMigrated)
  else
    await? revised := revise_manifest r declare_once in
    if negb revised.2 then
      await? current := dynamo_read_manifest r in
      match current with
      | Some manifest =>
          if declares_stream_heads manifest then Ret (check? validate_supported manifest; Ok false)
          else Ret (Err StreamHeadsNotMigrated)
      | None => Ret (Err StreamHeadsNotMigrated)
      end
    else
      await? headless := headless_loop r fuel (∅, ∅) None in
      if headless : bool then
        await? retracted := dynamo_update_manifest r retract_stream_heads in
        Ret (Err StreamHeadsNotMigrated)
      else
        await? manifest := dynamo_read_manifest r in
        Ret match manifest with
            | Some manifest => check? validate_supported manifest; Ok true
            | None => Ok true
            end.

(** crates/evt/src/dynamodb.rs:394-459 [DynamoRepository::initialize] *)
Definition dynamo_initialize (r : DynamoRepository) (fuel : nat) : DProg bool :=
  await? manifest := dynamo_read_manifest r in
  match manifest with
  | Some manifest =>
      match validate_supported manifest with
      | Err error => Ret (Err error)
      | Ok _ => if declares_stream_heads manifest then Ret (Ok false) else initialize_fresh r fuel
      end
  | None => initialize_fresh r fuel
  end.

(** crates/evt/src/dynamodb.rs:360-370 [DynamoRepository::validate_for_write] *)
Definition validate_for_write (r : DynamoRepository) (observed : option FeatureManifest)
  : Result ValidatedMarker :=
  match validate_marker_for_write observed (dr_journaling r) with
  | Err StreamHeadsNotMigrated =>
      if dr_lazy_initialization r then Err StreamHeadsNotMigrated else Err StoreNotInitialized
  | validated => validated
  end.

(** crates/evt/src/dynamodb.rs:336-350 [DynamoRepository::ensure_manifest_validated]

    One round; [otherwise] is what follows when the store has no stream heads. *)
Definition validate_once (r : DynamoRepository) (otherwise : DProg ValidatedMarker) : DProg ValidatedMarker :=
  await? observed := dynamo_read_manifest r in
  match validate_for_write r observed with
  | Ok validated => Ret (Ok validated)
  | Err StreamHeadsNotMigrated => otherwise
  | Err error => Ret (Err error)
  end.

(** crates/evt/src/dynamodb.rs:331-355 [DynamoRepository::ensure_manifest_validated] *)
Definition ensure_manifest_validated (r : DynamoRepository) (fuel : nat) : DProg ValidatedMarker :=
  await cached := call (Locked (dr_handle r) (λ cells, (cells, ce_marker cells))) in
  match cached with
  | Some cached => Ret (Ok cached)
  | None =>
      await? validated :=
        validate_once r
          (await? initialized := dynamo_initialize r fuel in
           validate_once r (Ret (Err StreamHeadsNotMigrated))) in
      await marker := call (Locked (dr_handle r) (λ cells,
        let marker := default validated (ce_marker cells) in
        (mkCells (Some marker) (ce_ttls cells), marker))) in
      Ret (Ok marker)
  end.

(** ** The actions of a commit *)

(** crates/evt/src/dynamodb.rs:2220-2238 [put] *)
Definition put_action (table : string) (item : Item) (condition : option string) (values : list (string * AttributeValue))
  : TransactWriteItem := TPut table (to_sdk_item item) condition ∅ (list_to_map (reverse values)).

(** crates/evt/src/dynamodb.rs:2333-2368 [head_action] *)
Definition head_action (table : string) (action : HeadAction) : TransactWriteItem :=
  let key := to_sdk_item (head_action_key action) in
  let names := list_to_map (reverse (ha_names action)) in
  let values := an <$> (list_to_map (reverse (ha_values action)) : gmap string Z) in
  match ha_update_expression action with
  | Some update => TUpdate table key update (Some (ha_condition_expression action)) names values
  | None => TCheck table key (ha_condition_expression action) names values
  end.

(** crates/evt/src/dynamodb.rs:659-675 [DynamoRepository::marker_check] *)
Definition marker_check (r : DynamoRepository) (validated : ValidatedMarker) : TransactWriteItem :=
  let key := stream_key FEATURES_ID FEATURES_SORT_KEY in
  match validated with
  | MarkerVersion version => TCheck (dr_table r) key MARKER_CONDITION ∅ (<[":v"%string := an version]> ∅)
  | MarkerAbsent => TCheck (dr_table r) key ABSENT_CONDITION ∅ ∅
  end.

(** crates/evt/src/dynamodb.rs:679-688 [DynamoRepository::rebuild_lock_check] *)
Definition rebuild_lock_check (r : DynamoRepository) : TransactWriteItem :=
  TCheck (dr_table r) (to_sdk_item rebuild_lock_key) REBUILD_LOCK_CHECK_CONDITION ∅ ∅.

(** crates/evt/src/dynamodb.rs:710-755 [DynamoRepository::view_items]

    The action of one view operation. *)
Definition view_action (table : string) (op : ViewOperation) : Result TransactWriteItem :=
  let owner := AS (vo_owner op) in
  match vo_kind op with
  | Put =>
      match vo_expected_payload op with
      | Some expected =>
          if negb (valid_utf8 expected) then
            Err (InvalidViewOperation (Fmt "an expected view payload must be UTF-8" []))
          else
            let? item := view_operation_item op in
            Ok (put_action table item (Some VIEW_EXPECTED_PAYLOAD_CONDITION)
                  [(OWNER_PLACEHOLDER, owner); (EXPECTED_PAYLOAD_PLACEHOLDER, AS expected)])
      | None =>
          let? item := view_operation_item op in
          Ok (put_action table item (Some (put_condition (vo_condition op)))
                (if bool_decide (vo_condition op = CondAbsent) then [] else [(OWNER_PLACEHOLDER, owner)]))
      end
  | Delete =>
      Ok (TDelete table (key_of (AS (vo_pk op)) (AS (vo_sk op))) (Some (delete_condition (vo_condition op))) ∅
            (<[OWNER_PLACEHOLDER := owner]> ∅))
  end.

(** crates/evt/src/dynamodb.rs:698-758 [DynamoRepository::view_items] *)
Definition view_items (r : DynamoRepository) (views : list ProjectedView) : Result (list TransactWriteItem) :=
  if nil_b views then Ok []
  else
    match dr_views_table r with
    | None => Err (ViewsNotConfigured "dynamodb")
    | Some table => collect (λ view, view_action table (pv_op view)) views
    end.

(** crates/evt/src/dynamodb.rs:2272-2285 [StreamLayout] *)
Record StreamLayout := mkStreamLayout {
  sl_entity_id : EntityId;
  sl_entity_type : EntityType;
  sl_first : EventSequence;
  sl_head : nat;
  sl_events : nat * nat;
  sl_snapshot : option nat;
  sl_head_ttl : option Z
}.

(** crates/evt/src/dynamodb.rs:2253-2269 [TransactionLayout] *)
Record TransactionLayout := mkLayout {
  ly_operations : nat;
  ly_views : list (nat * ProjectedView);
  ly_streams : list StreamLayout;
  ly_fences : list (nat * ReadFence);
  ly_outcome : option nat;
  ly_fallback : EntityId
}.

(** crates/evt/src/dynamodb.rs:2298-2307 [TransactionLayout::new] *)
Definition layout_new (fallback : EntityId) : TransactionLayout := mkLayout 0 [] [] [] None fallback.

(** crates/evt/src/dynamodb.rs:2311-2313 [TransactionLayout::projector_items] *)
Definition projector_items (layout : TransactionLayout) : nat := ly_operations layout + length (ly_views layout).

(** crates/evt/src/dynamodb.rs:2288-2294 [StreamLayout::contains] *)
Definition layout_contains (stream : StreamLayout) (index : nat) : bool :=
  (sl_head stream <=? index)%nat
  && (index <? match sl_snapshot stream with Some snapshot => snapshot + 1 | None => (sl_events stream).2 end)%nat.

(** crates/evt/src/dynamodb.rs:2316-2327 [TransactionLayout::entity_at] *)
Definition entity_at (layout : TransactionLayout) (index : nat) : option EntityId :=
  match List.find (λ stream, layout_contains stream index) (ly_streams layout) with
  | Some stream => Some (sl_entity_id stream)
  | None =>
      match List.find (λ fence : nat * ReadFence, Nat.eqb fence.1 index) (ly_fences layout) with
      | Some fence => Some (fe_entity_id fence.2)
      | None => None
      end
  end.

Abbreviation DCommit := (Commit TransactWriteItem).
Abbreviation DTransaction := (TransactionCommit TransactWriteItem).

(** crates/evt/src/dynamodb.rs:945-993 [DynamoRepository::stream_group] *)
Definition stream_group (r : DynamoRepository) (stream : DCommit) (ttl head_ttl : option Z)
  : Result (list TransactWriteItem) :=
  match cm_events stream, last_event (cm_events stream) with
  | first :: _, Some last =>
      let head := head_action (dr_table r)
        (head_update (cm_entity_id stream) (ev_sequence first) (ev_sequence last) head_ttl) in
      let? events := collect (λ event,
        let? item := event_item event ttl in Ok (put_action (dr_table r) item (Some EVENT_CONDITION) []))
        (cm_events stream) in
      let? snapshot :=
        match cm_snapshot stream with
        | Some snapshot =>
            let? item := snapshot_item (snapshot_of (cm_entity_id stream) snapshot (ev_sequence last)) ttl in
            let expected := ns_sequence snapshot - 1 in
            Ok [if expected =? 0 then put_action (dr_table r) item (Some FIRST_SNAPSHOT_CONDITION) []
                else put_action (dr_table r) item (Some NEXT_SNAPSHOT_CONDITION) [(":seq"%string, an expected)]]
        | None => Ok []
        end in
      Ok (head :: events ++ snapshot)
  | _, _ => Ok []
  end.

(** crates/evt/src/dynamodb.rs:926-935 [DynamoRepository::head_ttl] *)
Definition stream_head_ttl (r : DynamoRepository) (stream : DCommit) (own : option Z)
  : Tree DynamoCall (option Z) :=
  match cm_events stream, own with
  | first :: _, Some own =>
      if ev_sequence first <=? 1 then Ret (Some own)
      else
        await loaded := call (Locked (dr_handle r) (λ cells, (cells, loaded_get (ce_ttls cells) (cm_entity_id stream)))) in
        Ret (Some (Z.max own (default own loaded)))
  | _, _ => Ret None
  end.

(** What is built so far: the actions and what each is for. *)
Abbreviation Built := (list TransactWriteItem * TransactionLayout)%type.

(** crates/evt/src/dynamodb.rs:891-920 [DynamoRepository::push_group] *)
Definition push_group (r : DynamoRepository) (stream : DCommit) (built : Built) : DProg Built :=
  match cm_events stream with
  | [] => Ret (Ok built)
  | first :: _ =>
      let start := length built.1 in
      await ttl := ttl_for r (ev_entity_type first) in
      await head_ttl := stream_head_ttl r stream ttl in
      await? group := Ret (stream_group r stream ttl head_ttl) in
      let layout := built.2 in
      let events := (start + 1, start + 1 + length (cm_events stream))%nat in
      Ret (Ok (built.1 ++ group,
        mkLayout (ly_operations layout) (ly_views layout)
          (ly_streams layout ++
            [mkStreamLayout (cm_entity_id stream) (ev_entity_type first) (ev_sequence first) start events
               (match cm_snapshot stream with Some _ => Some events.2 | None => None end) head_ttl])
          (ly_fences layout) (ly_outcome layout) (ly_fallback layout)))
  end.

(** crates/evt/src/dynamodb.rs:862-880 [DynamoRepository::push_projector_items] *)
Definition push_projector_items (operations : list TransactWriteItem) (views : list ProjectedView)
    (view_items : list TransactWriteItem) (built : Built) : Built :=
  let items := built.1 ++ operations in
  let layout := built.2 in
  (items ++ view_items,
   mkLayout (length items - CONTROL_ITEMS)
     (imap (λ offset (x : ProjectedView * TransactWriteItem), ((length items + offset)%nat, provenance x.1)) (zip views view_items))
     (ly_streams layout) (ly_fences layout) (ly_outcome layout) (ly_fallback layout)).

(** crates/evt/src/dynamodb.rs:884-888 [DynamoRepository::outcome_put] *)
Definition outcome_put (r : DynamoRepository) (outcome : Outcome) : Result TransactWriteItem :=
  let? item := outcome_item outcome in Ok (put_action (dr_table r) item (Some OUTCOME_CONDITION) []).

(** crates/evt/src/dynamodb.rs:1676-1679 [DynamoRepository::commit] *)
Definition push_outcome (r : DynamoRepository) (outcome : option Outcome) (built : Built) : Result Built :=
  match outcome with
  | None => Ok built
  | Some outcome =>
      let? put := outcome_put r outcome in
      let layout := built.2 in
      Ok (built.1 ++ [put],
          mkLayout (ly_operations layout) (ly_views layout) (ly_streams layout) (ly_fences layout)
            (Some (length built.1)) (ly_fallback layout))
  end.

(** crates/evt/src/dynamodb.rs:766-789 [DynamoRepository::transaction_items_with] *)
Definition transaction_items_with (r : DynamoRepository) (commit : DCommit) (validated : ValidatedMarker)
    (view_items : list TransactWriteItem) : DProg Built :=
  push_group r commit
    (push_projector_items (cm_operations commit) (cm_views commit) view_items
      ([marker_check r validated; rebuild_lock_check r], layout_new (cm_entity_id commit))).

(** crates/evt/src/dynamodb.rs:831-833 [DynamoRepository::transaction_stream_items_with] *)
Fixpoint push_groups (r : DynamoRepository) (streams : list DCommit) (built : Built) : DProg Built :=
  match streams with
  | [] => Ret (Ok built)
  | stream :: streams => await? built := push_group r stream built in push_groups r streams built
  end.

(** crates/evt/src/dynamodb.rs:835-841 [DynamoRepository::transaction_stream_items_with] *)
Definition push_fence (r : DynamoRepository) (built : Built) (fence : ReadFence) : Built :=
  let layout := built.2 in
  (built.1 ++ [head_action (dr_table r) (head_fence (fe_entity_id fence) (fe_head fence))],
   mkLayout (ly_operations layout) (ly_views layout) (ly_streams layout)
     (ly_fences layout ++ [(length built.1, fence)]) (ly_outcome layout) (ly_fallback layout)).

(** crates/evt/src/dynamodb.rs:809-844 [DynamoRepository::transaction_stream_items_with] *)
Definition transaction_stream_items_with (r : DynamoRepository) (commit : DTransaction)
    (validated : ValidatedMarker) (view_items : list TransactWriteItem) : DProg Built :=
  await? built :=
    push_groups r (tc_streams commit)
      (push_projector_items (tc_operations commit) (tc_views commit) view_items
        ([marker_check r validated; rebuild_lock_check r],
         layout_new match tc_streams commit with stream :: _ => cm_entity_id stream | [] => "unknown" end)) in
  Ret (Ok (fold_left (push_fence r) (tc_fences commit) built)).

(** ** Reading a stream *)

(** A query of one partition of the log, from a sort key on. *)
Definition stream_query (r : DynamoRepository) (consistent : bool) (condition : string) (values : Item)
    (projection : option string) (names : Names) (forward : bool) (limit : option Z) (start : option Item)
  : QueryRequest :=
  mkQuery (dr_table r) None (Some consistent) condition names values projection forward limit start.

Definition EVENTS_AFTER : string := "pk = :pk AND sk > :sk".
Definition after_values (entity_id : EntityId) (after : Z) : Item :=
  <[":sk"%string := an after]> (<[":pk"%string := AS entity_id]> ∅).

(** crates/evt/src/dynamodb.rs:999-1023 [DynamoRepository::partition_items] *)
Fixpoint partition_loop (r : DynamoRepository) (entity_id : EntityId) (fuel : nat) (items : list Item)
    (start : option Item) : DProg (list Item) :=
  match fuel with
  | O => OutOfFuel
  | S fuel =>
      await? page := send (Query (stream_query r (dr_consistent_read r) "pk = :pk"
        (<[":pk"%string := AS entity_id]> ∅) None ∅ true None start)) in
      let items := items ++ map from_sdk_item (pg_items page) in
      match next_key page with
      | Some key => partition_loop r entity_id fuel items (Some key)
      | None => Ret (Ok items)
      end
  end.

(** crates/evt/src/dynamodb.rs:1031-1058 [DynamoRepository::highest_event] *)
Definition highest_event (r : DynamoRepository) (entity_id : EntityId) (consistent : bool) : DProg EventSequence :=
  await? page := send (Query (stream_query r consistent EVENTS_AFTER (after_values entity_id 0)
    (Some "sk"%string) ∅ false (Some 1) None)) in
  match pg_items page with
  | [] => Ret (Ok 0)
  | item :: _ => Ret (let? sequence := number_attribute item "sk" in Ok (default 0 sequence))
  end.

(** crates/evt/src/dynamodb.rs:1026-1028 [DynamoRepository::max_sequence] *)
Definition max_sequence (r : DynamoRepository) (entity_id : EntityId) : DProg EventSequence :=
  highest_event r entity_id (dr_consistent_read r).

(** crates/evt/src/dynamodb.rs:1062-1083 [DynamoRepository::derive_head] *)
Definition derive_head (r : DynamoRepository) (entity_id : EntityId) : DProg EventSequence :=
  await? snapshot := send (GetItem (dr_table r) true (stream_key entity_id SNAPSHOT_SORT_KEY) (Some "eventSeq"%string) ∅) in
  await? covered := Ret match snapshot with
                        | Some item => let? covered := number_attribute item "eventSeq" in Ok (default 0 covered)
                        | None => Ok 0
                        end in
  await? highest := highest_event r entity_id true in
  Ret (Ok (Z.max highest covered)).

(** [#ttl], the expiry attribute, which is a reserved word. *)
Definition ttl_names : Names := <["#ttl"%string := "ttl"%string]> ∅.

(** [wire::item_ttl(..).is_some_and(|ttl| ttl <= now)]. *)
Definition item_expired (now : Z) (item : Item) : bool :=
  match item_ttl (from_sdk_item item) with Some ttl => ttl <=? now | None => false end.

(** crates/evt/src/dynamodb.rs:1153-1178 [DynamoRepository::remaining_items_expired] *)
Fixpoint expired_loop (r : DynamoRepository) (entity_id : EntityId) (now : Z) (fuel : nat) (start : option Item)
  : DProg bool :=
  match fuel with
  | O => OutOfFuel
  | S fuel =>
      await? page := send (Query (stream_query r true EVENTS_AFTER (after_values entity_id 0)
        (Some "sk, #ttl"%string) ttl_names true None start)) in
      if existsb (λ item, negb (item_expired now item)) (pg_items page) then Ret (Ok false)
      else
        match next_key page with
        | Some key => expired_loop r entity_id now fuel (Some key)
        | None => Ret (Ok true)
        end
  end.

(** crates/evt/src/dynamodb.rs:1125-1179 [DynamoRepository::remaining_items_expired] *)
Definition remaining_items_expired (r : DynamoRepository) (entity_id : EntityId) (fuel : nat) : DProg bool :=
  await now := dynamo_now in
  await? snapshot := send (GetItem (dr_table r) true (stream_key entity_id SNAPSHOT_SORT_KEY)
    (Some "sk, #ttl"%string) ttl_names) in
  match present snapshot with
  | Some item => if negb (item_expired now item) then Ret (Ok false) else expired_loop r entity_id now fuel None
  | None => expired_loop r entity_id now fuel None
  end.

(** crates/evt/src/dynamodb.rs:2242-2250 [Probed] *)
Inductive Probed := ProbedDrift (error : Error) | ProbedSettled (stored : EventSequence) | ProbedConflict.

(** crates/evt/src/dynamodb.rs:1221-1225 [DynamoRepository::probe_stream]

    A drift that expiry may explain. *)
Definition drift_or_expired (r : DynamoRepository) (entity_id : EntityId) (retained : bool)
    (stored derived : EventSequence) (fuel : nat) : DProg Probed :=
  if retained then
    await? expired := remaining_items_expired r entity_id fuel in
    Ret (Ok (if expired : bool then ProbedConflict else ProbedDrift (drift entity_id stored derived)))
  else Ret (Ok (ProbedDrift (drift entity_id stored derived))).

(** crates/evt/src/dynamodb.rs:1194-1226 [DynamoRepository::probe_stream] *)
Definition probe_stream (r : DynamoRepository) (entity_id : EntityId) (retained : bool) (fuel : nat) : DProg Probed :=
  await? derived := derive_head r entity_id in
  await? stored := read_head r entity_id in
  let stored := default 0 stored in
  match probe_first stored derived with
  | Settled => Ret (Ok (ProbedSettled stored))
  | Drift =>
      if 0 <? stored then Ret (Ok (ProbedDrift (drift entity_id stored derived)))
      else drift_or_expired r entity_id retained stored derived fuel
  | Ahead =>
      if retained then Ret (Ok ProbedConflict)
      else
        await? rederived := derive_head r entity_id in
        if bool_decide (after_rederive stored rederived = Settled) then Ret (Ok ProbedConflict)
        else drift_or_expired r entity_id retained stored rederived fuel
  end.

(** crates/evt/src/dynamodb.rs:1232-1243 [DynamoRepository::certain_drift] *)
Definition certain_drift (r : DynamoRepository) (entity_id : EntityId) (retained : bool) (fuel : nat) : DProg Error :=
  await? expired := (if retained then remaining_items_expired r entity_id fuel else Ret (Ok false)) in
  if expired : bool then Ret (Ok (conflict entity_id))
  else
    await? derived := derive_head r entity_id in
    await? stored := read_head r entity_id in
    Ret (Ok (drift entity_id (default 0 stored) derived)).

(** ** Why a commit failed *)

(** crates/evt/src/dynamodb.rs:1297-1335 [DynamoRepository::stream_verdict] *)
Definition stream_verdict (r : DynamoRepository) (stream : StreamLayout) (codes : list (option string)) (fuel : nat)
  : DProg (option Error) :=
  let failed := condition_failed_at codes in
  let retained := retains r (sl_entity_type stream) in
  if failed (sl_head stream) then
    await? probed := probe_stream r (sl_entity_id stream) retained fuel in
    Ret (Ok (Some match probed with
                  | ProbedDrift drift => drift
                  | ProbedSettled stored => gap_or_conflict (sl_entity_id stream) (sl_first stream) stored
                  | ProbedConflict => conflict (sl_entity_id stream)
                  end))
  else if existsb failed (seq (sl_events stream).1 ((sl_events stream).2 - (sl_events stream).1)) then
    if bool_decide (code_at codes (sl_head stream) = Some "None"%string) then
      await? verdict := certain_drift r (sl_entity_id stream) retained fuel in Ret (Ok (Some verdict))
    else Ret (Ok (Some (conflict (sl_entity_id stream))))
  else if match sl_snapshot stream with Some snapshot => failed snapshot | None => false end then
    Ret (Ok (Some (conflict (sl_entity_id stream))))
  else Ret (Ok None).

(** crates/evt/src/dynamodb.rs:1357-1363 [DynamoRepository::classify_commit_failure] *)
Fixpoint stream_verdicts (r : DynamoRepository) (streams : list StreamLayout) (codes : list (option string)) (fuel : nat)
  : DProg (list Error) :=
  match streams with
  | [] => Ret (Ok [])
  | stream :: streams =>
      await? verdict := stream_verdict r stream codes fuel in
      await? verdicts := stream_verdicts r streams codes fuel in
      Ret (Ok (match verdict with Some verdict => verdict :: verdicts | None => verdicts end))
  end.

(** crates/evt/src/dynamodb.rs:1365-1377 [DynamoRepository::classify_commit_failure] *)
Fixpoint fence_verdicts (r : DynamoRepository) (fences : list (nat * ReadFence)) (codes : list (option string))
    (fuel : nat) : DProg (list Error) :=
  match fences with
  | [] => Ret (Ok [])
  | (index, fence) :: fences =>
      if condition_failed_at codes index then
        await? probed := probe_stream r (fe_entity_id fence) false fuel in
        await? verdicts := fence_verdicts r fences codes fuel in
        Ret (Ok (match probed with
                 | ProbedDrift drift => drift
                 | ProbedSettled _ | ProbedConflict => fence_conflict fence
                 end :: verdicts))
      else fence_verdicts r fences codes fuel
  end.

(** crates/evt/src/dynamodb.rs:1395-1403 [DynamoRepository::classify_commit_failure] *)
Definition failed_view (layout : TransactionLayout) (codes : list (option string))
  : option (ProjectedView * string) :=
  head (omap (λ x : nat * ProjectedView,
    match code_at codes x.1 with
    | Some code =>
        if bool_decide (code ∈ ["ConditionalCheckFailed"; "ValidationError"; "ItemCollectionSizeLimitExceeded"]%string)
        then Some (x.2, code) else None
    | None => None
    end) (ly_views layout)).

(** crates/evt/src/dynamodb.rs:1383-1421 [DynamoRepository::classify_commit_failure]

    When no stream and no fence failed. *)
Definition classify_rest (layout : TransactionLayout) (carries_outcome : bool) (err : SdkError) : Error :=
  let codes := cancellation_reasons err in
  if existsb (λ index, (CONTROL_ITEMS <=? index)%nat && (index <? CONTROL_ITEMS + ly_operations layout)%nat)
       (failed_items codes "ConditionalCheckFailed") then Projector (sdk_box err)
  else
    match failed_view layout codes with
    | Some (view, code) =>
        ProjectorOperation (for_view view code
          (if bool_decide (code = REASON_CONDITION_FAILED) then None else Some (OtherError (sdk_text err))))
    | None =>
        let entity :=
          match head (failed_items codes "TransactionConflict") with
          | Some index => default (ly_fallback layout) (entity_at layout index)
          | None => ly_fallback layout
          end in
        classify_transaction_error entity (projector_items layout) carries_outcome err
    end.

(** crates/evt/src/dynamodb.rs:1342-1422 [DynamoRepository::classify_commit_failure] *)
Definition classify_commit_failure (r : DynamoRepository) (layout : TransactionLayout) (carries_outcome : bool)
    (err : SdkError) (fuel : nat) : Tree DynamoCall Error :=
  let codes := cancellation_reasons err in
  await streams := stream_verdicts r (ly_streams layout) codes fuel in
  match streams with
  | Err error => Ret error
  | Ok streams =>
      await fences := fence_verdicts r (ly_fences layout) codes fuel in
      match fences with
      | Err error => Ret error
      | Ok fences =>
          Ret match rank (streams ++ fences) with
              | Some error => error
              | None => classify_rest layout carries_outcome err
              end
      end
  end.

(** ** Committing *)

(** crates/evt/src/dynamodb.rs:2376-2396 [sdk_item_size] *)
Definition expression_size (expressions : list string) (names : Names) (values : Item) : Z :=
  sumZ (map slen expressions)
  + sumZ (map (λ name : string * string, slen name.1 + slen name.2) (map_to_list names))
  + item_size (from_sdk_item values).

(** crates/evt/src/dynamodb.rs:2375-2430 [sdk_item_size] *)
Definition sdk_item_size (operation : TransactWriteItem) : Z :=
  match operation with
  | TPut _ item _ _ _ => item_size (from_sdk_item item)
  | TUpdate _ key update condition names values =>
      item_size (from_sdk_item key)
      + expression_size (update :: match condition with Some condition => [condition] | None => [] end) names values
  | TDelete _ key condition names values =>
      item_size (from_sdk_item key)
      + expression_size (match condition with Some condition => [condition] | None => [] end) names values
  | TCheck _ key condition names values =>
      item_size (from_sdk_item key) + expression_size [condition] names values
  end.

(** crates/evt/src/repository.rs:579-584 [stream_sizes]

    The sizes of the events, with the expiry the clock gives each. *)
Fixpoint timed_event_sizes (r : DynamoRepository) (events : list SerializedEvent) : DProg (list Z) :=
  match events with
  | [] => Ret (Ok [])
  | event :: events =>
      await ttl := ttl_for r (ev_entity_type event) in
      await? item := Ret (event_item event ttl) in
      await? sizes := timed_event_sizes r events in
      Ret (Ok (item_size item :: sizes))
  end.

(** crates/evt/src/repository.rs:559-599 [stream_sizes] *)
Definition timed_stream_sizes (r : DynamoRepository) (stream : DCommit) : DProg (list Z) :=
  match cm_events stream, last_event (cm_events stream) with
  | first :: _, Some last =>
      await ttl := ttl_for r (ev_entity_type first) in
      let head := head_action_size
        (head_update (cm_entity_id stream) (ev_sequence first) (ev_sequence last) ttl) in
      await? events := timed_event_sizes r (cm_events stream) in
      match cm_snapshot stream with
      | Some snapshot =>
          await ttl := ttl_for r (ns_entity_type snapshot) in
          await? item := Ret (snapshot_item (snapshot_of (cm_entity_id stream) snapshot (ev_sequence last)) ttl) in
          Ret (Ok (head :: events ++ [item_size item]))
      | None => Ret (Ok (head :: events))
      end
  | _, _ => Ret (Ok [])
  end.

(** crates/evt/src/repository.rs:129-142 [Commit::sizes] *)
Definition timed_commit_sizes (r : DynamoRepository) (commit : DCommit) : DProg (list Z) :=
  await? stream := timed_stream_sizes r commit in
  Ret (let? outcome := outcome_sizes (stored_outcome commit) in
       Ok (control_check_sizes ++ stream ++ outcome)).

Fixpoint timed_streams_sizes (r : DynamoRepository) (streams : list DCommit) : DProg (list Z) :=
  match streams with
  | [] => Ret (Ok [])
  | stream :: streams =>
      await? first := timed_stream_sizes r stream in
      await? rest := timed_streams_sizes r streams in
      Ret (Ok (first ++ rest))
  end.

(** crates/evt/src/repository.rs:513-533 [TransactionCommit::sizes] *)
Definition timed_transaction_sizes (r : DynamoRepository) (commit : DTransaction) : DProg (list Z) :=
  await? streams := timed_streams_sizes r (tc_streams commit) in
  let fences :=
    map (λ fence, head_action_size (head_fence (fe_entity_id fence) (fe_head fence))) (read_only_fences commit) in
  Ret (let? outcome := outcome_sizes (transaction_stored_outcome commit) in
       Ok (control_check_sizes ++ streams ++ fences ++ outcome)).

(** crates/evt/src/dynamodb.rs:1285-1291 [DynamoRepository::note_committed] *)
Fixpoint note_committed (r : DynamoRepository) (streams : list StreamLayout) : Tree DynamoCall unit :=
  match streams with
  | [] => Ret tt
  | stream :: streams =>
      await noted := match sl_head_ttl stream with
                     | Some ttl => note_ttl r (sl_entity_id stream) ttl
                     | None => Ret tt
                     end in
      note_committed r streams
  end.

(** crates/evt/src/dynamodb.rs:1693-1733 [DynamoRepository::commit]

    What a failed transaction leads to; [again] is the next round after the marker changed. *)
Definition commit_failed (r : DynamoRepository) (layout : TransactionLayout) (outcome : option Outcome)
    (err : SdkError) (again : option (DProg unit)) (fuel : nat) : DProg unit :=
  let codes := cancellation_reasons err in
  if bool_decide (head (failed_items codes "ConditionalCheckFailed") = Some 0%nat) then
    match again with
    | None => Ret (Err (Types.Backend (sdk_box err)))
    | Some again => await invalidated := invalidate_manifest r in again
    end
  else if rebuild_lock_failed codes then Ret (Err RebuildInProgress)
  else
    match outcome with
    | Some outcome =>
        if outcome_put_failed (ly_outcome layout) codes then Ret (Err (OutcomeConflict (oc_command_id outcome)))
        else await error := classify_commit_failure r layout true err fuel in Ret (Err error)
    | None => await error := classify_commit_failure r layout false err fuel in Ret (Err error)
    end.

(** crates/evt/src/dynamodb.rs:1669-1735 [DynamoRepository::commit]

    [rounds] is how often the marker may still be validated again. *)
Fixpoint commit_loop (r : DynamoRepository) (commit : DCommit) (outcome : option Outcome)
    (view_items : list TransactWriteItem) (fuel rounds : nat) : DProg unit :=
  await? cached := ensure_manifest_validated r fuel in
  await? built := transaction_items_with r commit cached view_items in
  await? built := Ret (push_outcome r outcome built) in
  await sent := call (TransactWriteItems built.1) in
  match sent with
  | Ok _ => await noted := note_committed r (ly_streams built.2) in Ret (Ok tt)
  | Err err =>
      commit_failed r built.2 outcome err
        (match rounds with O => None | S rounds => Some (commit_loop r commit outcome view_items fuel rounds) end) fuel
  end.

(** crates/evt/src/dynamodb.rs:1646-1736 [DynamoRepository::commit] *)
Definition dynamo_commit (r : DynamoRepository) (fuel : nat) (commit : DCommit) : DProg unit :=
  await? checked := Ret (check? validate commit; check_not_reserved (cm_entity_id commit)) in
  if nil_b (cm_events commit) && match cm_outcome commit with None => true | Some _ => false end then Ret (Ok tt)
  else
    let outcome := stored_outcome commit in
    await? view_items := Ret (view_items r (cm_views commit)) in
    await? sizes := timed_commit_sizes r commit in
    await? fits := Ret (check_budget (sizes ++ map sdk_item_size (cm_operations commit) ++ map sdk_item_size view_items)) in
    commit_loop r commit outcome view_items fuel MAX_MARKER_REVALIDATIONS.

(** crates/evt/src/dynamodb.rs:1769-1846 [DynamoRepository::commit_transaction] *)
Fixpoint transaction_loop (r : DynamoRepository) (commit : DTransaction) (outcome : option Outcome)
    (view_items : list TransactWriteItem) (fuel rounds : nat) : DProg unit :=
  await? cached := ensure_manifest_validated r fuel in
  await? retained :=
    (if nil_b (tc_fences commit) then Ret (Ok tt)
     else
       await? manifest := dynamo_read_manifest r in
       Ret (check_retention commit manifest (retains r))) in
  await? built := transaction_stream_items_with r commit cached view_items in
  await? built := Ret (push_outcome r outcome built) in
  await sent := call (TransactWriteItems built.1) in
  match sent with
  | Ok _ => await noted := note_committed r (ly_streams built.2) in Ret (Ok tt)
  | Err err =>
      commit_failed r built.2 outcome err
        (match rounds with O => None | S rounds => Some (transaction_loop r commit outcome view_items fuel rounds) end) fuel
  end.

(** crates/evt/src/dynamodb.rs:1738-1847 [DynamoRepository::commit_transaction] *)
Definition dynamo_commit_transaction (r : DynamoRepository) (fuel : nat) (commit : DTransaction) : DProg unit :=
  await? commit := Ret (normalize commit) in
  if transaction_is_empty commit then Ret (Ok tt)
  else
    let outcome := transaction_stored_outcome commit in
    await? view_items := Ret (view_items r (tc_views commit)) in
    await? sizes := timed_transaction_sizes r commit in
    await? fits := Ret (check_budget (sizes ++ map sdk_item_size (tc_operations commit) ++ map sdk_item_size view_items)) in
    await? retained := Ret (check_retention commit None (retains r)) in
    transaction_loop r commit outcome view_items fuel MAX_MARKER_REVALIDATIONS.

(** crates/evt/src/dynamodb.rs:1877-1897 [DynamoRepository::outcome] *)
Definition dynamo_outcome (r : DynamoRepository) (command_id : CommandId) : DProg (option Outcome) :=
  await? checked := Ret (check_command_id command_id) in
  await? item := send (GetItem (dr_table r) true (stream_key (outcome_key command_id) OUTCOME_SORT_KEY) None ∅) in
  Ret match present item with
      | Some item => let? outcome := outcome_from_item (from_sdk_item item) in Ok (Some outcome)
      | None => Ok None
      end.

(** ** Reading *)

(** crates/evt/src/dynamodb.rs:1446-1454 [DynamoRepository::query_events]

    The events of a page's items. *)
Fixpoint page_events (r : DynamoRepository) (entity_id : EntityId) (items : list Item) : DProg (list SerializedEvent) :=
  match items with
  | [] => Ret (Ok [])
  | item :: items =>
      let item := from_sdk_item item in
      await noted := note_item r entity_id item in
      if is_snapshot_item item then page_events r entity_id items
      else
        await? event := Ret (event_from_item item) in
        await? events := page_events r entity_id items in
        Ret (Ok (event :: events))
  end.

(** crates/evt/src/dynamodb.rs:1429-1460 [DynamoRepository::query_events] *)
Fixpoint events_loop (r : DynamoRepository) (entity_id : EntityId) (after : EventSequence) (fuel : nat)
    (events : list SerializedEvent) (start : option Item) : DProg (list SerializedEvent) :=
  match fuel with
  | O => OutOfFuel
  | S fuel =>
      await? page := send (Query (stream_query r (dr_consistent_read r) EVENTS_AFTER
        (after_values entity_id (Z.max after 0)) None ∅ true None start)) in
      await? found := page_events r entity_id (pg_items page) in
      let events := events ++ found in
      match next_key page with
      | Some key => events_loop r entity_id after fuel events (Some key)
      | None => Ret (Ok events)
      end
  end.

(** crates/evt/src/dynamodb.rs:1424-1461 [DynamoRepository::query_events] *)
Definition query_events (r : DynamoRepository) (fuel : nat) (entity_id : EntityId) (after : EventSequence)
  : DProg (list SerializedEvent) := events_loop r entity_id after fuel [] None.

(** crates/evt/src/dynamodb.rs:1899-1901 [DynamoRepository::events] *)
Definition dynamo_events (r : DynamoRepository) (fuel : nat) (entity_id : EntityId) : DProg (list SerializedEvent) :=
  query_events r fuel entity_id 0.

(** crates/evt/src/dynamodb.rs:1903-1909 [DynamoRepository::events_after] *)
Definition dynamo_events_after (r : DynamoRepository) (fuel : nat) (entity_id : EntityId) (after : EventSequence)
  : DProg (list SerializedEvent) := query_events r fuel entity_id after.

(** crates/evt/src/dynamodb.rs:1927-1962 [DynamoRepository::latest] *)
Fixpoint latest_loop (r : DynamoRepository) (entity_id : EntityId) (count : Z) (fuel : nat)
    (events : list SerializedEvent) (start : option Item) : DProg (list SerializedEvent) :=
  match fuel with
  | O => OutOfFuel
  | S fuel =>
      await? page := send (Query (stream_query r (dr_consistent_read r) EVENTS_AFTER (after_values entity_id 0) None ∅
        false (Some (Z.min (count - llen events) LATEST_PAGE_SIZE)) start)) in
      await? found := page_events r entity_id (pg_items page) in
      let events := events ++ found in
      if count <=? llen events then Ret (Ok (take (Z.to_nat count) events))
      else
        match next_key page with
        | Some key => latest_loop r entity_id count fuel events (Some key)
        | None => Ret (Ok events)
        end
  end.

(** crates/evt/src/dynamodb.rs:1911-1963 [DynamoRepository::latest] *)
Definition dynamo_latest (r : DynamoRepository) (fuel : nat) (entity_id : EntityId) (count : Z)
  : DProg (list SerializedEvent) :=
  if count =? 0 then
    Ret (Err (InvalidArgument (Fmt "latest(n) requires at least one event: got n = 0" [])))
  else latest_loop r entity_id count fuel [] None.

(** crates/evt/src/dynamodb.rs:1463-1490 [DynamoRepository::read_snapshot] *)
Definition read_snapshot (r : DynamoRepository) (entity_id : EntityId) (consistent : bool)
  : DProg (option SerializedSnapshot) :=
  await? item := send (GetItem (dr_table r) consistent (stream_key entity_id SNAPSHOT_SORT_KEY) None ∅) in
  match present item with
  | Some item =>
      let item := from_sdk_item item in
      await noted := note_item r entity_id item in
      Ret (let? snapshot := snapshot_from_item item in Ok (Some snapshot))
  | None => Ret (Ok None)
  end.

(** crates/evt/src/dynamodb.rs:1965-1967 [DynamoRepository::snapshot] *)
Definition dynamo_snapshot (r : DynamoRepository) (entity_id : EntityId) : DProg (option SerializedSnapshot) :=
  read_snapshot r entity_id (dr_consistent_read r).

(** crates/evt/src/dynamodb.rs:2437-2453 [item_head] *)
Definition item_head (item : Item) : option (string * Z) :=
  let number name := match item !! name with Some (AN value) => parse_i64 value | _ => None end in
  match item !! "pk"%string, number "sk"%string with
  | Some (AS pk), Some sk =>
      if sk <? SNAPSHOT_SORT_KEY then None
      else if sk =? SNAPSHOT_SORT_KEY then
        match number "eventSeq"%string with Some head => Some (pk, head) | None => None end
      else Some (pk, sk)
  | _, _ => None
  end.

(** crates/evt/src/dynamodb.rs:2146-2151 [DynamoRepository::entity_heads] *)
Definition raise_head (heads : gmap EntityId EventSequence) (item : Item) : gmap EntityId EventSequence :=
  match item_head item with
  | Some (pk, head) => <[pk := Z.max (default 0 (heads !! pk)) head]> heads
  | None => heads
  end.

(** The filter of a scan of the streams, of one type or of all, and its values. *)
Definition scan_filter (entity_type : option EntityType) : string :=
  "NOT begins_with(pk, :system) AND NOT begins_with(pk, :outcome)"
  +:+ match entity_type with Some _ => " AND entityType = :et" | None => "" end.
Definition scan_values (entity_type : option EntityType) : Item :=
  let values := <[":outcome"%string := AS COMMAND_OUTCOME_PREFIX]> (<[":system"%string := AS SYSTEM_PREFIX]> ∅) in
  match entity_type with Some entity_type => <[":et"%string := AS entity_type]> values | None => values end.

(** crates/evt/src/dynamodb.rs:2128-2161 [DynamoRepository::entity_heads] *)
Fixpoint heads_loop (r : DynamoRepository) (entity_type : option EntityType) (fuel : nat)
    (heads : gmap EntityId EventSequence) (start : option Item) : DProg (gmap EntityId EventSequence) :=
  match fuel with
  | O => OutOfFuel
  | S fuel =>
      await? page := send (Scan (mkScan (dr_table r) (dr_consistent_read r) (Some "pk, sk, eventSeq"%string)
        (Some (scan_filter entity_type)) (scan_values entity_type) None start)) in
      let heads := fold_left raise_head (pg_items page) heads in
      match next_key page with
      | Some key => heads_loop r entity_type fuel heads (Some key)
      | None => Ret (Ok (filter (λ e : EntityId * EventSequence, 0 < e.2) heads))
      end
  end.

(** crates/evt/src/dynamodb.rs:2115-2162 [DynamoRepository::entity_heads] *)
Definition dynamo_entity_heads (r : DynamoRepository) (fuel : nat) (entity_type : option EntityType)
  : DProg (gmap EntityId EventSequence) := heads_loop r entity_type fuel ∅ None.

(** ** Snapshots *)

(** crates/evt/src/dynamodb.rs:61-70 [GuardRetry] *)
Inductive GuardRetry := GuardRefresh | GuardCover | GuardDrift.

(** crates/evt/src/dynamodb.rs:76-91 [snapshot_guard_retry] *)
Definition snapshot_guard_retry (stored : option (EventSequence * option Z)) (snapshot : EventSequence)
    (ttl : option Z) : GuardRetry :=
  match stored with
  | Some (head, head_ttl) =>
      if snapshot <=? head then
        match ttl with
        | Some ttl =>
            if match head_ttl with Some head_ttl => head_ttl <? ttl | None => true end then GuardRefresh else GuardCover
        | None => GuardCover
        end
      else GuardDrift
  | None => GuardDrift
  end.

(** crates/evt/src/dynamodb.rs:1248-1266 [DynamoRepository::snapshot_parts] *)
Definition snapshot_parts (r : DynamoRepository) (snapshot : SerializedSnapshot)
  : DProg (HeadAction * TransactWriteItem * option Z) :=
  await ttl := ttl_for r (sn_entity_type snapshot) in
  await? item := Ret (snapshot_item snapshot ttl) in
  Ret (Ok (snapshot_guard (sn_entity_id snapshot) (sn_event_sequence snapshot) ttl,
    put_action (dr_table r) item (Some PUT_SNAPSHOT_CONDITION) [(":new"%string, an (sn_event_sequence snapshot))], ttl)).

(** crates/evt/src/dynamodb.rs:1270-1281 [DynamoRepository::snapshot_items] *)
Definition snapshot_items (r : DynamoRepository) (validated : ValidatedMarker) (guard : HeadAction)
    (snapshot_put : TransactWriteItem) : list TransactWriteItem :=
  [marker_check r validated; head_action (dr_table r) guard; snapshot_put].

(** crates/evt/src/dynamodb.rs:2046-2054 [DynamoRepository::put_snapshot] *)
Definition snapshot_drift (r : DynamoRepository) (snapshot : SerializedSnapshot) : DProg bool :=
  await? stored := read_head r (sn_entity_id snapshot) in
  await? derived := derive_head r (sn_entity_id snapshot) in
  Ret (Err (drift (sn_entity_id snapshot) (default 0 stored) (Z.max derived (sn_event_sequence snapshot)))).

(** crates/evt/src/dynamodb.rs:2018-2044 [DynamoRepository::put_snapshot]

    A failed head condition; [again] tries with another guard, if it still may. *)
Definition guard_failed (r : DynamoRepository) (snapshot : SerializedSnapshot) (ttl : option Z)
    (refresh_guard guard : HeadAction) (again : option (HeadAction → DProg bool)) : DProg bool :=
  match ha_update_expression guard with
  | None => snapshot_drift r snapshot
  | Some _ =>
      await? stored := read_head_item r (sn_entity_id snapshot) in
      match snapshot_guard_retry stored (sn_event_sequence snapshot) ttl with
      | GuardDrift => snapshot_drift r snapshot
      | next =>
          match again with
          | None =>
              Ret (Err (Transient (BoxText
                ("the head item of " +:+ sn_entity_id snapshot +:+ " kept moving under its snapshot write"))))
          | Some again =>
              again match next with
                    | GuardRefresh => refresh_guard
                    | _ => snapshot_cover (sn_entity_id snapshot) (sn_event_sequence snapshot)
                    end
          end
      end
  end.

(** crates/evt/src/dynamodb.rs:1980-2073 [DynamoRepository::put_snapshot]

    [guards] and [rounds] are how often the guard may change and the marker be validated again. *)
Definition put_snapshot_loop (r : DynamoRepository) (snapshot : SerializedSnapshot) (snapshot_put : TransactWriteItem)
    (ttl : option Z) (refresh_guard : HeadAction) (fuel : nat) : nat → nat → HeadAction → DProg bool :=
  fix loop (guards : nat) : nat → HeadAction → DProg bool :=
    fix round (rounds : nat) (guard : HeadAction) : DProg bool :=
      await? cached := ensure_manifest_validated r fuel in
      await sent := call (TransactWriteItems (snapshot_items r cached guard snapshot_put)) in
      match sent with
      | Ok _ => Ret (Ok true)
      | Err err =>
          let codes := cancellation_reasons err in
          if condition_failed_at codes 0 then
            await invalidated := invalidate_manifest r in
            match rounds with
            | O => Ret (Err (sdk_error err))
            | S rounds => round rounds guard
            end
          else if condition_failed_at codes 1 then
            guard_failed r snapshot ttl refresh_guard guard
              (match guards with O => None | S guards => Some (λ guard, loop guards rounds guard) end)
          else if condition_failed_at codes 2 then Ret (Ok false)
          else
            Ret (Err match classify_cancellation 0 codes with
                     | Some CnThrottled => Transient (sdk_box err)
                     | Some CnConflict => Transient (TransactionConflict (sn_entity_id snapshot) (sdk_box err))
                     | _ => sdk_error err
                     end)
      end.

(** crates/evt/src/dynamodb.rs:1969-2074 [DynamoRepository::put_snapshot] *)
Definition dynamo_put_snapshot (r : DynamoRepository) (fuel : nat) (snapshot : SerializedSnapshot) : DProg bool :=
  await? checked := Ret (check_not_reserved (sn_entity_id snapshot)) in
  await? parts := snapshot_parts r snapshot in
  let '(guard, snapshot_put, ttl) := parts in
  put_snapshot_loop r snapshot snapshot_put ttl guard fuel MAX_SNAPSHOT_GUARD_RETRIES MAX_MARKER_REVALIDATIONS guard.

(** ** Compaction *)

(** crates/evt/src/dynamodb.rs:1519-1526 [DynamoRepository::event_keys_through] *)
Definition item_key (item : Item) : option Item :=
  match item !! "pk"%string, item !! "sk"%string with
  | Some pk, Some sk => Some (key_of pk sk)
  | _, _ => None
  end.

(** crates/evt/src/dynamodb.rs:1495-1533 [DynamoRepository::event_keys_through] *)
Fixpoint event_keys_through (r : DynamoRepository) (entity_id : EntityId) (through : EventSequence) (fuel : nat)
    (keys : list Item) (start : option Item) : DProg (list Item) :=
  match fuel with
  | O => OutOfFuel
  | S fuel =>
      await? page := send (Query (stream_query r true "pk = :pk AND sk BETWEEN :lo AND :hi"
        (<[":hi"%string := an through]> (<[":lo"%string := an 1]> (<[":pk"%string := AS entity_id]> ∅)))
        (Some "pk, sk"%string) ∅ true None start)) in
      let keys := keys ++ omap item_key (pg_items page) in
      match next_key page with
      | Some key => event_keys_through r entity_id through fuel keys (Some key)
      | None => Ret (Ok keys)
      end
  end.

(** crates/evt/src/dynamodb.rs:1537-1570 [DynamoRepository::compaction_check] *)
Definition compaction_check (r : DynamoRepository) (snapshot : SerializedSnapshot) : DProg TransactWriteItem :=
  await? manifest := dynamo_read_manifest r in
  await? observed := Ret (validate_for_write r manifest) in
  if match manifest with Some manifest => is_history_dependent manifest (sn_entity_type snapshot) | None => false end then
    Ret (Err (HistoryDependentProjection (sn_entity_type snapshot) (sn_entity_id snapshot)))
  else
    let key := stream_key FEATURES_ID FEATURES_SORT_KEY in
    Ret (Ok match observed with
            | MarkerVersion version => TCheck (dr_table r) key OBSERVED_CONDITION ∅ (<[":observed"%string := an version]> ∅)
            | MarkerAbsent => TCheck (dr_table r) key ABSENT_CONDITION ∅ ∅
            end).

(** crates/evt/src/dynamodb.rs:1596-1622 [DynamoRepository::delete_compaction_keys]

    One chunk, with the marker check that was used last. *)
Fixpoint delete_chunk (r : DynamoRepository) (snapshot : SerializedSnapshot) (deletes : list TransactWriteItem)
    (rounds : nat) (check : TransactWriteItem) : DProg TransactWriteItem :=
  await sent := call (TransactWriteItems (check :: deletes)) in
  match sent with
  | Ok _ => Ret (Ok check)
  | Err err =>
      if negb (condition_failed_at (cancellation_reasons err) 0) then Ret (Err (sdk_error err))
      else
        await? check := compaction_check r snapshot in
        match rounds with
        | O => Ret (Err (Transient (BoxText "compaction marker kept changing")))
        | S rounds => delete_chunk r snapshot deletes rounds check
        end
  end.

(** crates/evt/src/dynamodb.rs:1580-1625 [DynamoRepository::delete_compaction_keys] *)
Fixpoint delete_chunks (r : DynamoRepository) (snapshot : SerializedSnapshot) (chunks : list (list Item))
    (check : TransactWriteItem) (deleted : Z) : DProg Z :=
  match chunks with
  | [] => Ret (Ok deleted)
  | chunk :: chunks =>
      await? check := delete_chunk r snapshot (map (λ key, TDelete (dr_table r) key None ∅ ∅) chunk)
        MAX_MARKER_REVALIDATIONS check in
      delete_chunks r snapshot chunks check (deleted + llen chunk)
  end.

(** [keys.chunks(n)]; [fuel] bounds their number. *)
Fixpoint chunks_of {A} (n fuel : nat) (l : list A) : list (list A) :=
  match fuel, l with
  | O, _ | _, [] => []
  | S fuel, _ => take n l :: chunks_of n fuel (drop n l)
  end.

(** crates/evt/src/dynamodb.rs:1572-1628 [DynamoRepository::delete_compaction_keys] *)
Definition delete_compaction_keys (r : DynamoRepository) (keys : list Item) (snapshot : SerializedSnapshot)
    (check : TransactWriteItem) : DProg Z :=
  delete_chunks r snapshot (chunks_of COMPACTION_BATCH_SIZE (length keys) keys) check 0.

(** crates/evt/src/dynamodb.rs:2076-2113 [DynamoRepository::compact_below] *)
Definition dynamo_compact_below (r : DynamoRepository) (fuel : nat) (entity_id : EntityId) (through : EventSequence)
  : DProg Z :=
  await? checked := Ret (check_not_reserved entity_id) in
  if through <? 1 then Ret (Ok 0)
  else
    await? manifest := dynamo_read_manifest r in
    await? validated := Ret (validate_for_write r manifest) in
    await? snapshot := read_snapshot r entity_id true in
    let covered := match snapshot with Some snapshot => Some (sn_event_sequence snapshot) | None => None end in
    match snapshot with
    | Some snapshot =>
        if sn_event_sequence snapshot <? through then Ret (Err (CompactionUncovered entity_id through covered))
        else
          await? check := compaction_check r snapshot in
          await? keys := event_keys_through r entity_id through fuel [] None in
          if nil_b keys then Ret (Ok 0) else delete_compaction_keys r keys snapshot check
    | None => Ret (Err (CompactionUncovered entity_id through covered))
    end.
End dynamo.
