(* ===== verification/DynamoStores.v ===== *)
(** * The fence, the views and the journal on DynamoDB

    [dynamodb/rebuild.rs], [dynamodb/views.rs], [dynamodb/journal.rs] and [dynamodb/enumerate.rs]:
    the other contracts the DynamoDB repository implements, with the requests each sends. *)

From S2P Require Import Prelude Types Features Outcome Rebuild Base64 Wire Projection Repository Program.
From S2P Require Import RebuildBatch Mem JournalScope Compaction Enumerate Dynamo.

Section stores.
Context `{SerdeJson} (sdk_text : SdkError → string).

Abbreviation send := (send sdk_text).
Abbreviation sdk_box := (sdk_box sdk_text).
Abbreviation sdk_error := (sdk_error sdk_text).

(** ** The rebuild fence *)

(** crates/evt/src/dynamodb/rebuild.rs:32-37 [Release] *)
Inductive Release := ReleaseEnd | ReleaseForce.

(** crates/evt/src/dynamodb/rebuild.rs:43-58 [DynamoRepository::rebuild_item] *)
Definition rebuild_item (r : DynamoRepository) (key : Item) : DProg (option Item) :=
  await? item := send (GetItem (dr_table r) true (to_sdk_item key) None ∅) in
  Ret (Ok (from_sdk_item <$> present item)).

(** crates/evt/src/dynamodb/rebuild.rs:69-109 [DynamoRepository::rebuild_begin_items] *)
Definition rebuild_begin_items (r : DynamoRepository) (plan : Plan) (lease : RebuildLease) (now : Z)
  : list TransactWriteItem :=
  let lock := to_sdk_item (rebuild_lock_item
    (mkLock (le_owner lease) (le_generation lease) (le_expires_at lease))) in
  let key := to_sdk_item rebuild_generation_key in
  let value_name := <[REBUILD_VALUE_NAME := "value"%string]> ∅ in
  match pl_kind plan with
  | Takeover =>
      [TPut (dr_table r) lock (Some REBUILD_TAKEOVER_LOCK_CONDITION) (<[REBUILD_OWNER_NAME := "owner"%string]> ∅)
         (<[":observedOwner"%string := AS (default "" (pl_observed_owner plan))]> (<[":now"%string := an now]> ∅));
       TUpdate (dr_table r) key REBUILD_TAKEOVER_UPDATE (Some REBUILD_SEEN_ODD_CONDITION) value_name
         (<[":seenOdd"%string := an (pl_seen_odd plan)]> (<[":two"%string := an 2]> ∅))]
  | _ =>
      [TPut (dr_table r) lock (Some REBUILD_ACQUIRE_LOCK_CONDITION) ∅ (<[":true"%string := ABool true]> ∅);
       TUpdate (dr_table r) key REBUILD_ACQUIRE_UPDATE (Some REBUILD_ACQUIRE_CONDITION) value_name
         (<[":true"%string := ABool true]> (<[":seenOdd"%string := an (pl_seen_odd plan)]>
          (<[":seenEven"%string := an (pl_seen_even plan)]> (<[":increment"%string := an (pl_increment plan)]>
          (<[":zero"%string := an 0]> ∅)))))]
  end.

(** The lock's owner and generation, under the names the lock's conditions use. *)
Definition lock_names : Names :=
  <[REBUILD_GENERATION_NAME := "generation"%string]> (<[REBUILD_OWNER_NAME := "owner"%string]> ∅).

(** crates/evt/src/dynamodb/rebuild.rs:147-216 [DynamoRepository::rebuild_release_items] *)
Definition rebuild_release_items (r : DynamoRepository) (release : Release) (owner : string) (seen_odd : Z)
  : list TransactWriteItem :=
  let key := to_sdk_item rebuild_generation_key in
  let value_name := <[REBUILD_VALUE_NAME := "value"%string]> ∅ in
  let seen := <[":seenOdd"%string := an seen_odd]> ∅ in
  match release with
  | ReleaseEnd =>
      [TDelete (dr_table r) (to_sdk_item rebuild_lock_key) (Some REBUILD_RELEASE_CONDITION) lock_names
         (<[":generation"%string := an seen_odd]> (<[":me"%string := AS owner]> ∅));
       TUpdate (dr_table r) key REBUILD_RELEASE_UPDATE (Some REBUILD_SEEN_ODD_CONDITION) value_name
         (<[":one"%string := an 1]> seen)]
  | ReleaseForce =>
      [TPut (dr_table r) (to_sdk_item rebuild_force_released_item) (Some REBUILD_FORCE_RELEASE_CONDITION)
         (<[REBUILD_OWNER_NAME := "owner"%string]> ∅) (<[":requestedOwner"%string := AS owner]> ∅);
       TUpdate (dr_table r) key REBUILD_FORCE_RELEASE_UPDATE (Some REBUILD_SEEN_ODD_CONDITION) value_name
         (<[":true"%string := ABool true]> (<[":two"%string := an 2]> seen))]
  end.

(** crates/evt/src/dynamodb/rebuild.rs:220-238 [DynamoRepository::rebuild_guard] *)
Definition rebuild_guard (r : DynamoRepository) (lease : RebuildLease) (now : Z) : TransactWriteItem :=
  TCheck (dr_table r) (to_sdk_item rebuild_lock_key) REBUILD_GUARD_CONDITION lock_names
    (<[":now"%string := an now]> (<[":generation"%string := an (le_generation lease)]>
      (<[":me"%string := AS (le_owner lease)]> ∅))).

(** crates/evt/src/dynamodb/rebuild.rs:241-251 [DynamoRepository::rebuild_view_items] *)
Definition rebuild_view_items (r : DynamoRepository) (lease : RebuildLease) (views : list ProjectedView) (now : Z)
  : Result (list TransactWriteItem) :=
  let? items := view_items r views in Ok (items ++ [rebuild_guard r lease now]).

(** crates/evt/src/dynamodb/rebuild.rs:480-487 [race_lost] *)
Definition race_lost (err : SdkError) : bool :=
  existsb (λ code : option string,
    bool_decide (code = Some "ConditionalCheckFailed"%string) || bool_decide (code = Some "TransactionConflict"%string))
    (cancellation_reasons err).

(** [Some("TransactionConflict" | "ThrottlingError" | "ProvisionedThroughputExceeded")]. *)
Definition transient_code (code : option string) : bool :=
  match code with
  | Some code =>
      bool_decide (code ∈ ["TransactionConflict"; "ThrottlingError"; "ProvisionedThroughputExceeded"]%string)
  | None => false
  end.

(** crates/evt/src/dynamodb/rebuild.rs:519-535 [fence_error] *)
Definition fence_error (err : SdkError) : Error :=
  if existsb transient_code (cancellation_reasons err) then Transient (sdk_box err) else sdk_error err.

(** crates/evt/src/dynamodb/rebuild.rs:494-515 [begin_error] *)
Definition begin_error (err : SdkError) (lease : RebuildLease) (observed : Z) : option Error :=
  if race_lost err then None
  else if negb (throttled err) && commit_result_unknown err then
    Some (RebuildBeginIndeterminate lease observed (sdk_box err))
  else Some (fence_error err).

(** crates/evt/src/dynamodb/rebuild.rs:268-298 [DynamoRepository::release_rebuild] *)
Definition release_rebuild (r : DynamoRepository) (owner : string) (release : Release) (seen : Z)
  : DProg RebuildGeneration :=
  await sent := call (TransactWriteItems (rebuild_release_items r release owner seen)) in
  Ret match sent with
      | Err err =>
          if negb (nil_b (failed_items (cancellation_reasons err) "ConditionalCheckFailed"))
          then Err (lease_lost owner) else Err (fence_error err)
      | Ok _ =>
          Ok match release with
             | ReleaseEnd => mkGeneration (i64_add seen 1) false
             | ReleaseForce => mkGeneration (i64_add seen 2) true
             end
      end.

(** crates/evt/src/dynamodb/rebuild.rs:302-308 [DynamoRepository::rebuild_generation] *)
Definition dynamo_rebuild_generation (r : DynamoRepository) : DProg RebuildGeneration :=
  await? item := rebuild_item r rebuild_generation_key in
  Ret match item with
      | Some item => rebuild_generation_from_item item
      | None => Ok (mkGeneration 0 false)
      end.

(** crates/evt/src/dynamodb/rebuild.rs:310-320 [DynamoRepository::rebuild_state] *)
Definition dynamo_rebuild_state (r : DynamoRepository) : DProg RebuildState :=
  await? generation := dynamo_rebuild_generation r in
  await? item := rebuild_item r rebuild_lock_key in
  Ret (let? lock := match item with Some item => rebuild_lock_state_from_item item | None => Ok None end in
       Ok (mkRebuildState generation lock)).

(** crates/evt/src/dynamodb/rebuild.rs:325-362 [DynamoRepository::begin_rebuild]

    [invalid] is the invalid state of the last attempt, when it read one. *)
Fixpoint begin_loop (r : DynamoRepository) (owner : string) (seconds : Z) (attempts : nat) (invalid : option Error)
  : DProg RebuildLease :=
  match attempts with
  | O => Ret (Err (default (RebuildConflict (Z.of_nat MAX_REBUILD_BEGIN_ATTEMPTS)) invalid))
  | Datatypes.S attempts =>
      await? state := dynamo_rebuild_state r in
      await now := dynamo_now in
      match plan_decide state now with
      | Err (RebuildStateInvalid message) => begin_loop r owner seconds attempts (Some (RebuildStateInvalid message))
      | Err error => Ret (Err error)
      | Ok plan =>
          let lease := mkRebuildLease owner (i64_add (rg_value (rs_generation state)) (pl_increment plan))
            (i64_saturating_add now seconds) in
          await sent := call (TransactWriteItems (rebuild_begin_items r plan lease now)) in
          match sent with
          | Ok _ => Ret (Ok lease)
          | Err err =>
              match begin_error err lease (rg_value (rs_generation state)) with
              | Some error => Ret (Err error)
              | None => begin_loop r owner seconds attempts None
              end
          end
      end
  end.

(** crates/evt/src/dynamodb/rebuild.rs:322-363 [DynamoRepository::begin_rebuild] *)
Definition dynamo_begin_rebuild (r : DynamoRepository) (owner : string) (lease : Duration) : DProg RebuildLease :=
  await? seconds := Ret (check_lease owner lease) in
  begin_loop r owner seconds MAX_REBUILD_BEGIN_ATTEMPTS None.

(** crates/evt/src/dynamodb/rebuild.rs:365-401 [DynamoRepository::renew_rebuild]

    The update of [rebuild_renew_update] (rebuild.rs:123-140), sent alone. *)
Definition dynamo_renew_rebuild (r : DynamoRepository) (lease : RebuildLease) (extend : Duration) : DProg RebuildLease :=
  await? seconds := Ret (check_lease (le_owner lease) extend) in
  await now := dynamo_now in
  let lease_expires_at := i64_saturating_add now seconds in
  await sent := call (UpdateItem (dr_table r) (to_sdk_item rebuild_lock_key) REBUILD_RENEW_UPDATE
    (Some REBUILD_RENEW_CONDITION) lock_names
    (<[":generation"%string := an (le_generation lease)]> (<[":owner"%string := AS (le_owner lease)]>
      (<[":expiry"%string := an lease_expires_at]> ∅)))) in
  Ret match sent with
      | Ok _ => Ok (mkRebuildLease (le_owner lease) (le_generation lease) lease_expires_at)
      | Err (ServiceError _ _ ConditionalCheckFailed) => Err (lease_lost (le_owner lease))
      | Err err => Err (sdk_error err)
      end.

(** crates/evt/src/dynamodb/rebuild.rs:404-409 [DynamoRepository::end_rebuild] *)
Definition dynamo_end_rebuild (r : DynamoRepository) (lease : RebuildLease) : DProg RebuildGeneration :=
  await? checked := Ret (check_rebuild_owner (le_owner lease)) in
  release_rebuild r (le_owner lease) ReleaseEnd (le_generation lease).

(** crates/evt/src/dynamodb/rebuild.rs:412-423 [DynamoRepository::force_release_rebuild] *)
Definition dynamo_force_release_rebuild (r : DynamoRepository) (owner : string) : DProg RebuildGeneration :=
  await? checked := Ret (check_rebuild_owner owner) in
  await? seen := dynamo_rebuild_generation r in
  if is_settled seen then Ret (Err (lease_lost owner)) else release_rebuild r owner ReleaseForce (rg_value seen).

(** crates/evt/src/dynamodb/rebuild.rs:450-458 [DynamoRepository::write_rebuild_views] *)
Definition failed_rebuild_view (views : list ProjectedView) (codes : list (option string))
  : option (ProjectedView * string) :=
  head (omap (λ x : ProjectedView * option string,
    match x.2 with
    | Some code =>
        if bool_decide (code ∈ ["ConditionalCheckFailed"; "ValidationError"; "ItemCollectionSizeLimitExceeded"]%string)
        then Some (x.1, code) else None
    | None => None
    end) (zip views codes)).

(** crates/evt/src/dynamodb/rebuild.rs:425-469 [DynamoRepository::write_rebuild_views] *)
Definition dynamo_write_rebuild_views (r : DynamoRepository) (lease : RebuildLease) (views : list ProjectedView)
  : DProg unit :=
  await? checked := Ret (check? check_rebuild_owner (le_owner lease); check_view_batch views) in
  await now := dynamo_now in
  await? items := Ret (rebuild_view_items r lease views now) in
  await sent := call (TransactWriteItems items) in
  Ret match sent with
      | Ok _ => Ok tt
      | Err err =>
          let codes := cancellation_reasons err in
          if condition_failed_at codes (length items - 1) then Err (lease_lost (le_owner lease))
          else
            match failed_rebuild_view views codes with
            | Some (view, code) =>
                Err (ProjectorOperation (for_view (provenance view) code
                  (if bool_decide (code = REASON_CONDITION_FAILED) then None else Some (OtherError (sdk_text err)))))
            | None => Err (fence_error err)
            end
      end.

(** ** Enumeration *)

(** crates/evt/src/dynamodb/enumerate.rs:30-35 [Scan] *)
Record ScanState := mkScanState {
  ss_filter : StreamFilter;
  ss_start : option Item;
  ss_finished : bool
}.

(** crates/evt/src/dynamodb/enumerate.rs:88-99 [read_page] *)
Definition scanned_events (items : list Item) : Result (list SerializedEvent) :=
  let items := map from_sdk_item items in
  collect event_from_item
    (List.filter (λ item, negb match sort_key item with Some sk => sk <? 1 | None => false end) items).

(** crates/evt/src/dynamodb/enumerate.rs:57-102 [read_page]

    The key the scan goes on from is taken before the request, so a failed request leaves none. *)
Definition read_page (r : DynamoRepository) (scan : ScanState)
  : Tree DynamoCall (ScanState * Result (list SerializedEvent)) :=
  let entity_type := sf_entity_type (ss_filter scan) in
  await page := send (Scan (mkScan (dr_table r) (dr_consistent_read r) None (Some (scan_filter entity_type))
    (scan_values entity_type) (dr_scan_page_size r) (ss_start scan))) in
  Ret match page with
      | Err error => (mkScanState (ss_filter scan) None (ss_finished scan), Err error)
      | Ok page =>
          (match next_key page with
           | Some key => mkScanState (ss_filter scan) (Some key) (ss_finished scan)
           | None => mkScanState (ss_filter scan) None true
           end, scanned_events (pg_items page))
      end.

(** crates/evt/src/dynamodb/enumerate.rs:37-53 [next_page]

    [fuel] bounds the empty pages that are skipped. *)
Fixpoint next_page (r : DynamoRepository) (fuel : nat) (scan : ScanState)
  : Tree DynamoCall (option (EventBatch * ScanState)) :=
  match fuel with
  | O => OutOfFuel
  | Datatypes.S fuel =>
      if ss_finished scan then Ret None
      else
        await read := read_page r scan in
        match read.2 with
        | Ok [] => next_page r fuel read.1
        | Ok events => Ret (Some (Ok events, read.1))
        | Err error => Ret (Some (Err error, mkScanState (ss_filter read.1) (ss_start read.1) true))
        end
  end.

(** crates/evt/src/dynamodb/enumerate.rs:17-27 [DynamoRepository::stream_all_events] *)
Definition dynamo_stream_all_events (filter : StreamFilter) : ScanState := mkScanState filter None false.

(** ** Views *)

(** crates/evt/src/dynamodb/views.rs:24-24 [MAX_BATCH_ATTEMPTS] *)
Definition MAX_BATCH_ATTEMPTS : nat := 3.

(** crates/evt/src/wire/dynamo.rs:632-640 [ENTITY_TYPE_INDEX] *)
Definition ENTITY_TYPE_INDEX : string := "entityType-index".
Definition MAX_VIEW_BATCH_WRITE : nat := 25.
Definition MAX_VIEW_BATCH_GET : nat := 100.

(** crates/evt/src/wire/dynamo.rs:710-721 [ViewQuery] *)
Record ViewQuery := mkViewQuery {
  vq_index : option string;
  vq_key_condition : string;
  vq_values : Item;
  vq_limit : option Z;
  vq_start_key : option Item
}.

(** crates/evt/src/wire/dynamo.rs:727-729 [ViewQuery::reads_base_table] *)
Definition reads_base_table (query : ViewQuery) : bool :=
  match vq_index query with None => true | Some _ => false end.

(** crates/evt/src/wire/dynamo.rs:765-797 [view_query] *)
Definition view_query (index : option string) (key_condition : string) (values : Item) (limit : option nat)
    (cursor : option string) (key_name key_value : string) : Result ViewQuery :=
  let? start_key :=
    match cursor with
    | Some cursor => if is_empty cursor then Ok None else let? key := decode_view_cursor cursor in Ok (Some key)
    | None => Ok None
    end in
  check? match start_key with
         | Some key =>
             if bool_decide (key_text key key_name = Some key_value) then Ok tt
             else Err (InvalidArgument (Fmt "invalid pagination cursor: it belongs to another listing" []))
         | None => Ok tt
         end;
  Ok (mkViewQuery index key_condition values
    (match limit with
     | Some limit => if bool_decide (limit = 0%nat) || (2 ^ 31 - 1 <? Z.of_nat limit) then None else Some (Z.of_nat limit)
     | None => None
     end) start_key).

(** crates/evt/src/wire/dynamo.rs:734-747 [view_query_by_pk] *)
Definition view_query_by_pk (pk : string) (limit : option nat) (cursor : option string) : Result ViewQuery :=
  view_query None "pk = :pk" (<[":pk"%string := AS pk]> ∅) limit cursor "pk" pk.

(** crates/evt/src/wire/dynamo.rs:750-763 [view_query_by_entity_type] *)
Definition view_query_by_entity_type (entity_type : string) (limit : option nat) (cursor : option string)
  : Result ViewQuery :=
  view_query (Some ENTITY_TYPE_INDEX) "entityType = :entityType" (<[":entityType"%string := AS entity_type]> ∅) limit
    cursor "entityType" entity_type.

(** crates/evt/src/dynamodb/views.rs:44-49 [DynamoViewRepository] *)
Record DynamoViewRepository := mkViewRepository { dv_table : string; dv_consistent_read : bool }.

(** crates/evt/src/dynamodb/views.rs:53-59 [DynamoViewRepository::new] *)
Definition view_repository_new (table : string) : DynamoViewRepository := mkViewRepository table true.

(** crates/evt/src/dynamodb/views.rs:65-68 [DynamoViewRepository::with_consistent_read] *)
Definition views_with_consistent_read (v : DynamoViewRepository) (consistent : bool) : DynamoViewRepository :=
  mkViewRepository (dv_table v) consistent.

(** crates/evt/src/dynamodb/views.rs:366-372 [DynamoRepository::view_repository] *)
Definition dynamo_view_repository (r : DynamoRepository) : Result DynamoViewRepository :=
  match dr_views_table r with
  | None => Err (ViewsNotConfigured "dynamodb")
  | Some table => Ok (view_repository_new table)
  end.

(** The requests of a batch that are left, without the tables that have none. *)
Definition leftover {A} (requests : gmap string (list A)) : gmap string (list A) :=
  filter (λ e : string * list A, nil_b e.2 = false) requests.

(** The pause after an attempt: 25 milliseconds more each time. *)
Definition batch_pause (attempts : nat) : Z := Z.of_nat (MAX_BATCH_ATTEMPTS - attempts) * 25000000.

(** crates/evt/src/dynamodb/views.rs:99-130 [DynamoViewRepository::write_batch]

    [attempts] are those left after this one. *)
Fixpoint write_pending (attempts : nat) (pending : gmap string (list WriteRequest)) : DProg unit :=
  await? unprocessed := send (BatchWriteItem pending) in
  let pending := leftover unprocessed in
  if bool_decide (pending = ∅) then Ret (Ok tt)
  else
    match attempts with
    | O => Ret (Err (Transient (BoxText "batch write returned unprocessed items after 3 attempts")))
    | Datatypes.S attempts =>
        await slept := call (Sleep (batch_pause (Datatypes.S attempts))) in write_pending attempts pending
    end.

(** crates/evt/src/dynamodb/views.rs:92-131 [DynamoViewRepository::write_batch] *)
Definition dynamo_write_batch (v : DynamoViewRepository) (writes : list WriteRequest) : DProg unit :=
  if nil_b writes then Ret (Ok tt)
  else write_pending (MAX_BATCH_ATTEMPTS - 1) (<[dv_table v := writes]> ∅).

(** crates/evt/src/dynamodb/views.rs:145-184 [DynamoViewRepository::get_chunk] *)
Fixpoint get_pending (v : DynamoViewRepository) (attempts : nat) (views : list ViewRow)
    (pending : gmap string (list Item)) : DProg (list ViewRow) :=
  await? output := send (BatchGetItem pending) in
  await? found := Ret (collect (λ item, view_row_from_item (from_sdk_item item)) (default [] (output.1 !! dv_table v))) in
  let views := views ++ found in
  let pending := leftover output.2 in
  if bool_decide (pending = ∅) then Ret (Ok views)
  else
    match attempts with
    | O => Ret (Err (Transient (BoxText "batch get returned unprocessed keys after 3 attempts")))
    | Datatypes.S attempts =>
        await slept := call (Sleep (batch_pause (Datatypes.S attempts))) in get_pending v attempts views pending
    end.

(** crates/evt/src/dynamodb/views.rs:133-185 [DynamoViewRepository::get_chunk] *)
Definition get_chunk (v : DynamoViewRepository) (keys : list Item) : DProg (list ViewRow) :=
  get_pending v (MAX_BATCH_ATTEMPTS - 1) [] (<[dv_table v := keys]> ∅).

(** crates/evt/src/dynamodb/views.rs:211-222 [apply] *)
Definition apply_query (v : DynamoViewRepository) (query : ViewQuery) (consistent : option bool) : QueryRequest :=
  mkQuery (dv_table v) (vq_index query) consistent (vq_key_condition query) ∅ (to_sdk_item (vq_values query)) None true
    (vq_limit query) (to_sdk_item <$> vq_start_key query).

(** crates/evt/src/dynamodb/views.rs:187-208 [DynamoViewRepository::query_page] *)
Definition query_page (v : DynamoViewRepository) (query : ViewQuery) : DProg ViewPage :=
  let consistent := if reads_base_table query then Some (dv_consistent_read v) else None in
  await? output := send (Query (apply_query v query consistent)) in
  Ret (let? views := collect (λ item, view_row_from_item (from_sdk_item item)) (pg_items output) in
       let? next_cursor :=
         match next_key output with
         | Some key => let? cursor := encode_view_cursor (from_sdk_item key) in Ok (Some cursor)
         | None => Ok None
         end in
       Ok (mkViewPage views next_cursor)).

(** crates/evt/src/dynamodb/views.rs:234-251 [DynamoViewRepository::get_view_at] *)
Definition dynamo_get_view_at (v : DynamoViewRepository) (pk sk : string) : DProg (option ViewRow) :=
  await? sk := Ret (resolve_key pk sk) in
  await? item := send (GetItem (dv_table v) true (key_of (AS pk) (AS sk)) None ∅) in
  Ret match present item with
      | Some item => let? row := view_row_from_item (from_sdk_item item) in Ok (Some row)
      | None => Ok None
      end.

(** crates/evt/src/dynamodb/views.rs:224-231 [write_request] *)
Definition write_request (item : Item) : WriteRequest := PutRequest (to_sdk_item item).

(** crates/evt/src/dynamodb/views.rs:253-258 [DynamoViewRepository::put_view] *)
Definition dynamo_put_view (v : DynamoViewRepository) (view : ViewRow) : DProg unit :=
  await? item := Ret (check? check_view_row view; view_row_item view) in
  dynamo_write_batch v [write_request item].

(** The key of a row, with the default sort key. *)
Definition row_key (view : ViewRow) : string * string :=
  (vr_pk view, if is_empty (vr_sk view) then DEFAULT_VIEW_SORT_KEY else vr_sk view).

(** crates/evt/src/dynamodb/views.rs:267-287 [DynamoViewRepository::put_views]

    The rows whose key no later row has. *)
Fixpoint last_rows (views : list ViewRow) : list ViewRow :=
  match views with
  | [] => []
  | view :: views =>
      if existsb (λ other, bool_decide (row_key other = row_key view)) views then last_rows views
      else view :: last_rows views
  end.

(** crates/evt/src/dynamodb/views.rs:289-300 [DynamoViewRepository::put_views] *)
Fixpoint write_chunks (v : DynamoViewRepository) (chunks : list (list WriteRequest)) : DProg unit :=
  match chunks with
  | [] => Ret (Ok tt)
  | chunk :: chunks => await? written := dynamo_write_batch v chunk in write_chunks v chunks
  end.

(** crates/evt/src/dynamodb/views.rs:260-301 [DynamoViewRepository::put_views] *)
Definition dynamo_put_views (v : DynamoViewRepository) (views : list ViewRow) : DProg unit :=
  await? items := Ret (check? check_each check_view_row views; collect view_row_item (last_rows views)) in
  let writes := map write_request items in
  write_chunks v (chunks_of MAX_VIEW_BATCH_WRITE (length writes) writes).

(** crates/evt/src/dynamodb/views.rs:303-315 [DynamoViewRepository::delete_view] *)
Definition dynamo_delete_view (v : DynamoViewRepository) (pk sk : string) : DProg unit :=
  await? sk := Ret (resolve_key pk sk) in
  dynamo_write_batch v [DeleteRequest (to_sdk_item (view_key pk sk))].

(** The distinct partitions that are not empty, in order. *)
Fixpoint distinct_pks (seen : gset string) (pks : list string) : list string :=
  match pks with
  | [] => []
  | pk :: pks =>
      if is_empty pk || bool_decide (pk ∈ seen) then distinct_pks seen pks
      else pk :: distinct_pks ({[pk]} ∪ seen) pks
  end.

(** crates/evt/src/dynamodb/views.rs:330-335 [DynamoViewRepository::batch_get_views_at] *)
Fixpoint get_chunks (v : DynamoViewRepository) (chunks : list (list Item)) (views : list ViewRow)
  : DProg (list ViewRow) :=
  match chunks with
  | [] => Ret (Ok views)
  | chunk :: chunks => await? found := get_chunk v chunk in get_chunks v chunks (views ++ found)
  end.

(** crates/evt/src/dynamodb/views.rs:317-336 [DynamoViewRepository::batch_get_views_at] *)
Definition dynamo_batch_get_views_at (v : DynamoViewRepository) (pks : list string) (sk : string)
  : DProg (list ViewRow) :=
  await? sk := Ret (let? sk := resolve_key "-" sk in check? check_each (λ pk, nul_free pk "pk") pks; Ok sk) in
  let keys := map (λ pk, to_sdk_item (view_key pk sk)) (distinct_pks ∅ pks) in
  get_chunks v (chunks_of MAX_VIEW_BATCH_GET (length keys) keys) [].

(** crates/evt/src/dynamodb/views.rs:338-346 [DynamoViewRepository::list_views_by_pk_paged] *)
Definition dynamo_list_views_by_pk_paged (v : DynamoViewRepository) (pk : string) (limit : option nat)
    (cursor : option string) : DProg ViewPage :=
  await? query := Ret (check? nul_free pk "pk"; view_query_by_pk pk limit cursor) in query_page v query.

(** crates/evt/src/dynamodb/views.rs:348-357 [DynamoViewRepository::list_views_by_entity_type_paged] *)
Definition dynamo_list_views_by_entity_type_paged (v : DynamoViewRepository) (entity_type : string)
    (limit : option nat) (cursor : option string) : DProg ViewPage :=
  await? query := Ret (check? nul_free entity_type "entity type"; view_query_by_entity_type entity_type limit cursor) in
  query_page v query.

(** ** The journal *)

Context `{JournalJson}.

(** crates/evt/src/dynamodb/journal.rs:25-29 [DynamoRepository::journal_table] *)
Definition journal_table (r : DynamoRepository) : Result string :=
  ok_or (dr_views_table r) (ViewsNotConfigured "dynamodb").

(** crates/evt/src/dynamodb/journal.rs:33-51 [DynamoRepository::read_counter] *)
Definition dynamo_read_counter (r : DynamoRepository) (scope : Scope) : DProg Z :=
  await? table := Ret (journal_table r) in
  await? item := send (GetItem table true (key_of (AS (counter_pk scope)) (AS COUNTER_SORT_KEY)) None ∅) in
  Ret match present item with
      | Some item => let? row := view_row_from_item (from_sdk_item item) in read_counter scope row
      | None => Ok 0
      end.

(** crates/evt/src/dynamodb/journal.rs:102-111 [DynamoRepository::read_counters] *)
Definition found_counter (found : gmap string Z) (item : Item) : Result (gmap string Z) :=
  let? row := view_row_from_item (from_sdk_item item) in
  let? scope :=
    match strip_prefix COUNTER_PARTITION_PREFIX (vr_pk row) with
    | Some name =>
        match scope_new name with
        | Ok scope => Ok scope
        | Err _ => Err (InvalidRecord (Fmt "{:?} is not a journal counter" [vr_pk row]))
        end
    | None => Err (InvalidRecord (Fmt "{:?} is not a journal counter" [vr_pk row]))
    end in
  let? counter := read_counter scope row in
  Ok (<[vr_pk row := counter]> found).

(** [for item in items { .. }], stopping at the first error. *)
Fixpoint fold_items {A} (f : A → Item → Result A) (items : list Item) (a : A) : Result A :=
  match items with
  | [] => Ok a
  | item :: items => let? a := f a item in fold_items f items a
  end.

(** crates/evt/src/dynamodb/journal.rs:87-130 [DynamoRepository::read_counters] *)
Fixpoint counters_pending (table : string) (attempts : nat) (found : gmap string Z) (pending : gmap string (list Item))
  : DProg (gmap string Z) :=
  await? output := send (BatchGetItem pending) in
  await? found := Ret (fold_items found_counter (default [] (output.1 !! table)) found) in
  let pending := leftover output.2 in
  if bool_decide (pending = ∅) then Ret (Ok found)
  else
    match attempts with
    | O => Ret (Err (Transient (BoxText "reading journal counters left unprocessed keys")))
    | Datatypes.S attempts => counters_pending table attempts found pending
    end.

(** crates/evt/src/dynamodb/journal.rs:68-131 [DynamoRepository::read_counters] *)
Fixpoint counters_chunks (table : string) (chunks : list (list Scope)) (found : gmap string Z)
  : DProg (gmap string Z) :=
  match chunks with
  | [] => Ret (Ok found)
  | chunk :: chunks =>
      let keys := map (λ scope, key_of (AS (counter_pk scope)) (AS COUNTER_SORT_KEY)) chunk in
      await? found := counters_pending table 2 found (<[table := keys]> ∅) in
      counters_chunks table chunks found
  end.

(** crates/evt/src/dynamodb/journal.rs:53-137 [DynamoRepository::read_counters] *)
Definition dynamo_read_counters (r : DynamoRepository) (scopes : list Scope) : DProg (list Z) :=
  match scopes with
  | [scope] => await? counter := dynamo_read_counter r scope in Ret (Ok [counter])
  | _ =>
      await? table := Ret (journal_table r) in
      let distinct := sort_by string_leb (elements (list_to_set scopes : gset string)) in
      await? found := counters_chunks table (chunks_of MAX_VIEW_BATCH_GET (length distinct) distinct) ∅ in
      Ret (Ok (map (λ scope, default 0 (found !! counter_pk scope)) scopes))
  end.

(** crates/evt/src/dynamodb/journal.rs:139-166 [DynamoRepository::read_last_position] *)
Definition dynamo_read_last_position (r : DynamoRepository) (scope : Scope) : DProg Z :=
  await? table := Ret (journal_table r) in
  await? page := send (Query (mkQuery table None (Some true) "pk = :pk" ∅ (<[":pk"%string := AS (row_pk scope)]> ∅) None
    false (Some 1) None)) in
  Ret match pg_items page with
      | [] => Ok 0
      | item :: _ =>
          let? row := view_row_from_item (from_sdk_item item) in
          ok_or (parse_row_sk (vr_sk row))
            (InvalidRecord (Fmt "journal row {:?}/{:?} has no position" [vr_pk row; vr_sk row]))
      end.

(** [i32::try_from(n).unwrap_or(i32::MAX)]. *)
Definition i32_limit (n : Z) : Z := Z.min n (2 ^ 31 - 1).

(** crates/evt/src/dynamodb/journal.rs:178-208 [DynamoRepository::read_rows] *)
Fixpoint rows_loop (table : string) (scope : Scope) (after limit : Z) (fuel : nat) (rows : list JournalRow)
    (start : option Item) : DProg (list JournalRow) :=
  if limit <=? llen rows then Ret (Ok (take (Z.to_nat limit) rows))
  else
    match fuel with
    | O => OutOfFuel
    | Datatypes.S fuel =>
        await? page := send (Query (mkQuery table None (Some true) "pk = :pk AND sk > :after" ∅
          (<[":after"%string := AS (row_sk after)]> (<[":pk"%string := AS (row_pk scope)]> ∅)) None true
          (Some (i32_limit (limit - llen rows))) start)) in
        await? found := Ret (collect (λ item,
          let? row := view_row_from_item (from_sdk_item item) in row_from_view scope row) (pg_items page)) in
        let rows := rows ++ found in
        match next_key page with
        | Some key => rows_loop table scope after limit fuel rows (Some key)
        | None => Ret (Ok (take (Z.to_nat limit) rows))
        end
    end.

(** crates/evt/src/dynamodb/journal.rs:168-209 [DynamoRepository::read_rows] *)
Definition dynamo_read_rows (r : DynamoRepository) (fuel : nat) (scope : Scope) (after limit : Z)
  : DProg (list JournalRow) :=
  await? table := Ret (journal_table r) in rows_loop table scope after limit fuel [] None.

(** crates/evt/src/dynamodb/journal.rs:213-234 [DynamoRepository::read_compaction_row] *)
Definition dynamo_read_compaction_row (r : DynamoRepository) (scope : Scope) (sort_key : string)
  : DProg (option ViewRow) :=
  await? table := Ret (journal_table r) in
  await? item := send (GetItem table true (key_of (AS (compaction_pk scope)) (AS sort_key)) None ∅) in
  Ret match present item with
      | Some item => let? row := view_row_from_item (from_sdk_item item) in Ok (Some row)
      | None => Ok None
      end.

(** crates/evt/src/dynamodb/journal.rs:238-241 [payload_text] *)
Definition payload_text (payload : string) : Result string :=
  if valid_utf8 payload then Ok payload
  else Err (InvalidArgument (Fmt "a compaction payload must be UTF-8" [])).

(** crates/evt/src/dynamodb/journal.rs:250-259 [DynamoRepository::compaction_item] *)
Definition expect_condition (expect : Expect) : Result (option string * option string) :=
  match expect with
  | ExpectAny => Ok (None, None)
  | ExpectAbsent => Ok (Some VIEW_ABSENT_CONDITION, None)
  | ExpectPayload payload => let? text := payload_text payload in Ok (Some COMPACTION_PAYLOAD_CONDITION, Some text)
  end.

(** The values of an expected payload. *)
Definition expect_values (value : option string) : list (string * AttributeValue) :=
  match value with
  | Some value => [(":expected"%string, AS value); (":engine"%string, AS COUNTER_OWNER)]
  | None => []
  end.

(** crates/evt/src/dynamodb/journal.rs:245-304 [DynamoRepository::compaction_item] *)
Definition compaction_item (table : string) (write : CompactionWrite) : Result TransactWriteItem :=
  match write with
  | WritePut row expect =>
      let? condition := expect_condition expect in
      let? item := view_row_item row in
      Ok (put_action table item condition.1 (expect_values condition.2))
  | WriteDelete pk sk owner =>
      Ok (TDelete table (key_of (AS pk) (AS sk)) (Some VIEW_DELETE_CONDITION) ∅ (<[OWNER_PLACEHOLDER := AS owner]> ∅))
  | WriteCheck pk sk expect =>
      let? condition := expect_condition expect in
      Ok (TCheck table (key_of (AS pk) (AS sk))
            (default "attribute_not_exists(pk) OR attribute_exists(pk)"%string condition.1) ∅
            (list_to_map (reverse (expect_values condition.2))))
  end.

(** crates/evt/src/dynamodb/journal.rs:307-325 [DynamoRepository::epoch_check] *)
Definition epoch_check (r : DynamoRepository) (epoch : RebuildEpoch) : TransactWriteItem :=
  let names := <[REBUILD_VALUE_NAME := "value"%string]> ∅ in
  let key := to_sdk_item rebuild_generation_key in
  if ep_generation epoch =? 0 then TCheck (dr_table r) key COMPACTION_EPOCH_ZERO_CONDITION names ∅
  else TCheck (dr_table r) key COMPACTION_EPOCH_CONDITION names (<[":epoch"%string := an (ep_generation epoch)]> ∅).

(** crates/evt/src/dynamodb/journal.rs:358-381 [DynamoRepository::write_compaction]

    What a failed write of [writes] writes means. *)
Definition compaction_failure (writes : nat) (err : SdkError) : Result CompactionWritten :=
  let codes := cancellation_reasons err in
  if condition_failed_at codes writes then Ok EpochChanged
  else
    match head (failed_items (take writes codes) "ConditionalCheckFailed") with
    | Some at_ => Ok (Refused (Z.of_nat at_))
    | None => if existsb transient_code codes then Err (Transient (sdk_box err)) else Err (sdk_error err)
    end.

(** crates/evt/src/dynamodb/journal.rs:332-382 [DynamoRepository::write_compaction] *)
Definition dynamo_write_compaction (r : DynamoRepository) (epoch : option RebuildEpoch) (writes : list CompactionWrite)
  : DProg CompactionWritten :=
  await? items := Ret (check? check_compaction_writes writes;
                       let? table := journal_table r in
                       let? items := collect (compaction_item table) writes in
                       Ok (items ++ match epoch with Some epoch => [epoch_check r epoch] | None => [] end)) in
  await sent := call (TransactWriteItems items) in
  Ret match sent with
      | Ok _ => Ok Written
      | Err err => compaction_failure (length writes) err
      end.

(** crates/evt/src/dynamodb/journal.rs:384-386 [DynamoRepository::compaction_now] *)
Definition dynamo_compaction_now : Tree DynamoCall Z := dynamo_now.
End stores.
