(* ===== verification/DynamoLog.v ===== *)
(** * The log in a DynamoDB table

    What DynamoDB does and how the items of a table represent the log. The service is a parameter:
    [DynamoService] states what its documentation says and the repository relies on: a transaction
    is applied whole or not at all, only if every condition holds and no two actions are on one
    item; a cancelled one names the conditions that failed; an error that is not about an unknown
    result means nothing was written; a consistent read sees the item as it is.
    [DynamoExpressions] evaluates the texts of conditions and updates, with what the documentation
    says of those the repository sends.

    The head item of a stream has the length of its log, an event item is the event of the log at
    its place, every event above the snapshot is there, and the outcome rows are the recorded
    outcomes. A transaction with the actions of a commit that is applied is that commit's step of
    the log, whatever else the tables hold. *)

From S2P Require Import Prelude Types Features Outcome Rebuild Base64 Wire WireProofs Projection Repository RebuildBatch Mem.
From S2P Require Import MemInvariant MemRefinement Program Dynamo.

(** ** Tables *)

(** An item's place: its table, its partition, and the text of its sort key, a number or a string.
    The service compares numbers by value; those the repository writes are in normal form. *)
Abbreviation Key := (string * string * (string + string))%type.
Abbreviation Tables := (gmap Key Item).

Definition log_key (table pk : string) (sk : Z) : Key := (table, pk, inl (show sk)).

(** The place of an item or of a key. *)
Definition place (table : string) (item : Item) : option Key :=
  match item !! "pk"%string, item !! "sk"%string with
  | Some (AS pk), Some (AN sk) => Some (table, pk, inl sk)
  | Some (AS pk), Some (AS sk) => Some (table, pk, inr sk)
  | _, _ => None
  end.

(** ** Expressions *)

(** What a condition says of an item, or of its absence, and what an update makes of one. *)
Class DynamoExpressions := {
  holds_of : string → Names → Item → option Item → bool;
  updates_to : string → Names → Item → Item → Item
}.

(** An attribute of the item, if there are both. *)
Definition attribute (item : option Item) (name : string) : option AttributeValue :=
  match item with Some item => item !! name | None => None end.

(** The texts of the log's conditions and updates. *)
Class ExpressionLaws `{DynamoExpressions} := {
  law_not_exists name names values item :
    name ∈ ["pk"; "sk"; "head"]%string →
    holds_of ("attribute_not_exists(" +:+ name +:+ ")") names values item = true → attribute item name = None;
  law_head_equals placeholder names values item expected stored :
    placeholder ∈ [":prev"; ":head"]%string →
    holds_of ("head = " +:+ placeholder) names values item = true →
    values !! placeholder = Some (an expected) → attribute item "head" = Some (an stored) → stored = expected;
  law_head_present placeholder names values item :
    placeholder ∈ [":prev"; ":head"]%string →
    holds_of ("head = " +:+ placeholder) names values item = true → attribute item "head" ≠ None;
  law_head_covers names values item new stored :
    holds_of HEAD_COVERS_CONDITION names values item = true → values !! ":new"%string = Some (an new) →
    attribute item "head" = Some (an stored) → new ≤ stored;
  law_head_covers_present names values item :
    holds_of HEAD_COVERS_CONDITION names values item = true → attribute item "head" ≠ None;
  law_snapshot_newer names values item new stored :
    holds_of PUT_SNAPSHOT_CONDITION names values item = true → values !! ":new"%string = Some (an new) →
    attribute item "eventSeq" = Some (an stored) → stored ≤ new;
  law_head_update names values item last :
    values !! ":last"%string = Some last →
    updates_to HEAD_UPDATE names values item = <["head"%string := last]> item
}.

(** ** Transactions *)

Definition action_place (action : TransactWriteItem) : option Key :=
  match action with
  | TPut table item _ _ _ => place table item
  | TUpdate table key _ _ _ _ | TDelete table key _ _ _ | TCheck table key _ _ _ => place table key
  end.

Section transactions.
Context `{DynamoExpressions}.

Definition at_place (ts : Tables) (key : option Key) : option Item :=
  match key with Some key => ts !! key | None => None end.

(** Whether an action's condition holds. *)
Definition action_holds (ts : Tables) (action : TransactWriteItem) : bool :=
  let stored := at_place ts (action_place action) in
  match action with
  | TPut _ _ condition names values | TUpdate _ _ _ condition names values | TDelete _ _ condition names values =>
      match condition with Some condition => holds_of condition names values stored | None => true end
  | TCheck _ _ condition names values => holds_of condition names values stored
  end.

(** What an action leaves at its place, if it writes. *)
Definition action_writes (ts : Tables) (action : TransactWriteItem) : option (option Item) :=
  match action with
  | TPut _ item _ _ _ => Some (Some item)
  | TUpdate _ key update _ names values =>
      Some (Some (updates_to update names values (default key (at_place ts (action_place action)))))
  | TDelete _ _ _ _ _ => Some None
  | TCheck _ _ _ _ _ => None
  end.

Definition write_at (ts : Tables) (key : option Key) (written : option (option Item)) : Tables :=
  match key, written with
  | Some key, Some (Some item) => <[key := item]> ts
  | Some key, Some None => delete key ts
  | _, _ => ts
  end.

(** All actions at once: what each leaves is computed from the tables before. *)
Definition apply_actions (ts : Tables) (actions : list TransactWriteItem) : Tables :=
  fold_left (λ acc action, write_at acc (action_place action) (action_writes ts action)) actions ts.

(** A transaction that is applied: every condition holds, every action has its place, and no two
    have the same. *)
Definition applicable (ts : Tables) (actions : list TransactWriteItem) : Prop :=
  Forall (λ action, action_holds ts action = true) actions ∧
  Forall (λ action, is_Some (action_place action)) actions ∧
  NoDup (omap action_place actions).

(** What a cancelled transaction says is true: a reported condition does not hold. *)
Definition reasons_true (ts : Tables) (actions : list TransactWriteItem) (err : SdkError) : Prop :=
  ∀ i action, actions !! i = Some action →
    code_at (cancellation_reasons err) i = Some "ConditionalCheckFailed"%string → action_holds ts action = false.

(** An error after which a write may have been applied. *)
Definition result_unknown (err : SdkError) : Prop :=
  commit_result_unknown err = true ∧ throttled err = false ∧ cancellation_reasons err = [].

Inductive transacted (ts : Tables) (actions : list TransactWriteItem) : result unit SdkError → Tables → Prop :=
| transact_applied : applicable ts actions → transacted ts actions (Ok tt) (apply_actions ts actions)
| transact_refused err : reasons_true ts actions err → transacted ts actions (Err err) ts
| transact_unknown err : result_unknown err → applicable ts actions →
    transacted ts actions (Err err) (apply_actions ts actions).

(** The attributes of a projection among those of the item. *)
Definition reads (projection : option string) (stored answer : option Item) : Prop :=
  match projection with
  | None => answer = stored
  | Some _ => ∀ item, answer = Some item → ∃ whole, stored = Some whole ∧ item ⊆ whole
  end.
End transactions.

(** ** The service *)

(** A world with the service's tables and the cells of the instances. *)
Class DynamoWorld (W : Type) := { tables : W → Tables; cells : W → nat → Cells }.

(** The calls that write no table. *)
Definition reads_only {B} (q : DynamoCall B) : Prop :=
  match q with
  | GetItem _ _ _ _ _ | Query _ | Scan _ | Now | Sleep _ | Locked _ _ => True
  | _ => False
  end.

(** The key of an item of a partition, with its sort key in a range. *)
Definition between (pk : string) (lo hi : Z) (item : Item) : Prop :=
  (∀ v, item !! "pk"%string = Some v → v = AS pk) ∧
  (∀ v, item !! "sk"%string = Some v → ∃ z, v = an z ∧ lo ≤ z ≤ hi).

Class DynamoService (W : Type) `{!DynamoWorld W, !DynamoExpressions, !Handles DynamoCall W} := {
  ds_reads B (q : DynamoCall B) w b w' : performs q w b w' → reads_only q → tables w' = tables w;
  ds_get table key projection names w item w' :
    performs (GetItem table true key projection names) w (Ok item) w' →
    reads projection (at_place (tables w) (place table key)) item;
  ds_between request pk lo hi w page w' :
    performs (Query request) w (Ok page) w' → qr_key_condition request = "pk = :pk AND sk BETWEEN :lo AND :hi"%string →
    qr_values request !! ":pk"%string = Some (AS pk) → qr_values request !! ":lo"%string = Some (an lo) →
    qr_values request !! ":hi"%string = Some (an hi) → Forall (between pk lo hi) (pg_items page);
  ds_put table item condition values w b w' :
    performs (PutItem table item condition values) w b w' →
    tables w' = tables w ∨ ∃ key, place table item = Some key ∧ tables w' = <[key := item]> (tables w);
  ds_transact items w b w' :
    performs (TransactWriteItems items) w b w' → transacted (tables w) items b (tables w')
}.

(** ** Plain items *)

(** Values that are the same for the SDK. *)
Definition plain (value : AttributeValue) : Prop := to_sdk value = value ∧ from_sdk value = value.
Definition plain_item (item : Item) : Prop := map_Forall (λ _, plain) item.

Lemma plain_text s : plain (AS s).
Proof. done. Qed.
Lemma plain_number z : plain (an z).
Proof. done. Qed.
Lemma plain_empty : plain_item ∅.
Proof. apply map_Forall_empty. Qed.
Lemma plain_insert name value item : plain value → plain_item item → plain_item (<[name := value]> item).
Proof. intros Hv Hi. by apply map_Forall_insert_2. Qed.

#[export] Hint Resolve plain_text plain_number plain_empty plain_insert : evt.

Lemma to_sdk_plain item : plain_item item → to_sdk_item item = item.
Proof.
  intros Hp. apply map_eq. intros name. unfold to_sdk_item. rewrite lookup_fmap.
  destruct (item !! name) as [value|] eqn:Hl; [|done]. simpl. f_equal. by apply (Hp name).
Qed.

Lemma from_sdk_plain item : plain_item item → from_sdk_item item = item.
Proof.
  intros Hp. apply map_eq. intros name. unfold from_sdk_item. rewrite lookup_fmap.
  destruct (item !! name) as [value|] eqn:Hl; [|done]. simpl. f_equal. by apply (Hp name).
Qed.

(** A plain item of a partition. *)
Definition keyed (pk : string) (sk : Z) (item : Item) : Prop :=
  plain_item item ∧ item !! "pk"%string = Some (AS pk) ∧ item !! "sk"%string = Some (an sk).

Lemma keyed_insert pk sk name value item :
  name ∉ ["pk"; "sk"]%string → plain value → keyed pk sk item → keyed pk sk (<[name := value]> item).
Proof.
  intros Hn Hv (Hp & Hpk & Hsk). rewrite !not_elem_of_cons in Hn. destruct Hn as (H1 & H2 & _).
  split; [auto with evt|]. by rewrite !lookup_insert_ne.
Qed.

Section items.
Context `{SerdeJson}.

Lemma event_item_spec e i :
  event_item e None = Ok i → keyed (ev_entity_id e) (ev_sequence e) i.
Proof.
  unfold event_item. destruct (utf8 _ _) as [payload|]; [|done]. cbn [result_bind].
  destruct (json_metadata _) as [metadata|]; [|done]. cbn [result_bind insert_ttl]. intros [= <-].
  split; [auto 10 with evt|done].
Qed.

Lemma snapshot_item_spec sn i :
  snapshot_item sn None = Ok i →
  keyed (sn_entity_id sn) SNAPSHOT_SORT_KEY i ∧ i !! "eventSeq"%string = Some (an (sn_event_sequence sn)).
Proof.
  unfold snapshot_item. destruct (utf8 _ _) as [payload|]; [|done]. cbn [result_bind insert_ttl]. intros [= <-].
  split; [|done]. split; [auto 10 with evt|done].
Qed.

Lemma outcome_item_spec o i :
  outcome_item o = Ok i → keyed (outcome_key (oc_command_id o)) OUTCOME_SORT_KEY i.
Proof.
  assert (∀ name value item, name ∉ ["pk"; "sk"]%string → plain value →
    keyed (outcome_key (oc_command_id o)) OUTCOME_SORT_KEY item →
    keyed (outcome_key (oc_command_id o)) OUTCOME_SORT_KEY (<[name := value]> item)) as Hins
    by (intros; by apply keyed_insert).
  unfold outcome_item. cbv zeta. set (base := <["digest"%string := _]> _).
  assert (keyed (outcome_key (oc_command_id o)) OUTCOME_SORT_KEY base) as Hb
    by (split; [unfold base; auto 10 with evt|done]).
  clearbody base. set (item1 := match non_empty _ with Some _ => _ | None => _ end).
  assert (keyed (outcome_key (oc_command_id o)) OUTCOME_SORT_KEY item1) as H1
    by (unfold item1; destruct (non_empty _); [apply Hins; [set_solver|done|done]|done]).
  clearbody item1. destruct (if nil_b _ then _ else _) as [item2|] eqn:H2; [|done]. cbn [result_bind].
  assert (keyed (outcome_key (oc_command_id o)) OUTCOME_SORT_KEY item2) as Hk2.
  { destruct (nil_b _); [by injection H2 as <-|]. destruct (encode_event_ids _); [|done].
    injection H2 as <-. apply Hins; [set_solver|done|done]. }
  destruct (match oc_rejection o with Some _ => _ | None => _ end) as [item3|] eqn:H3; [|done]. cbn [result_bind].
  assert (keyed (outcome_key (oc_command_id o)) OUTCOME_SORT_KEY item3) as Hk3.
  { destruct (oc_rejection o); [|by injection H3 as <-]. destruct (encode_rejection _); [|done].
    injection H3 as <-. apply Hins; [set_solver|done|]. apply Hins; [set_solver|done|done]. }
  destruct (oc_identity o) as [identity|]; [|by intros [= <-]]. destruct (encode_targets _); [|done].
  cbn [result_bind]. intros [= <-].
  destruct (ri_principal identity); repeat (apply Hins; [set_solver|done|]); done.
Qed.
End items.

(** ** Actions *)

Lemma log_key_inj t pk sk pk' sk' : log_key t pk sk = log_key t pk' sk' → pk = pk' ∧ sk = sk'.
Proof. intros [= -> Hs]. split; [done|]. by apply (inj pretty) in Hs. Qed.

Lemma an_inj x y : an x = an y → x = y.
Proof. intros [= Hs]. by apply (inj pretty) in Hs. Qed.

Lemma place_keyed t pk sk item : keyed pk sk item → place t (to_sdk_item item) = Some (log_key t pk sk).
Proof. intros (Hp & Hpk & Hsk). rewrite to_sdk_plain by done. unfold place. by rewrite Hpk, Hsk. Qed.

Lemma place_stream_key t pk sk : place t (stream_key pk sk) = Some (log_key t pk sk).
Proof. done. Qed.

Lemma head_action_place t action : action_place (head_action t action) = Some (log_key t (ha_entity_id action) HEAD_SORT_KEY).
Proof. unfold head_action. by destruct (ha_update_expression action). Qed.

Section actions.
Context `{DynamoExpressions}.
Implicit Types (ts : Tables) (items : list TransactWriteItem).

Lemma write_at_ne ts key written key' : key ≠ Some key' → write_at ts key written !! key' = ts !! key'.
Proof.
  intros Hne. destruct key as [key|]; [|done]. assert (key ≠ key') by congruence.
  destruct written as [[item|]|]; simpl; [by rewrite lookup_insert_ne|by rewrite lookup_delete_ne|done].
Qed.

Lemma fold_actions_ne ts items acc key :
  (∀ action, action ∈ items → action_place action ≠ Some key ∨ action_writes ts action = None) →
  fold_left (λ acc action, write_at acc (action_place action) (action_writes ts action)) items acc !! key = acc !! key.
Proof.
  revert acc. induction items as [|action items IH]; intros acc Hall; [done|]. cbn [fold_left]. rewrite IH.
  - destruct (Hall action) as [Hne|Hnone]; [apply list_elem_of_here| |].
    + by apply write_at_ne.
    + rewrite Hnone. by destruct (action_place action).
  - intros other Hin. apply Hall. by apply list_elem_of_further.
Qed.

(** What an applied action leaves at its place. *)
Lemma applied_at ts items action key :
  applicable ts items → action ∈ items → action_place action = Some key →
  apply_actions ts items !! key = match action_writes ts action with Some written => written | None => ts !! key end.
Proof.
  intros (_ & _ & Hnd) Hin Hplace. unfold apply_actions.
  apply list_elem_of_split in Hin as (l1 & l2 & ->). rewrite fold_left_app. cbn [fold_left].
  rewrite omap_app in Hnd. cbn [omap list_omap] in Hnd. rewrite Hplace in Hnd.
  apply NoDup_app in Hnd as (_ & Hd & [Hn _]%NoDup_cons).
  assert (∀ other, other ∈ l1 ∨ other ∈ l2 → action_place other ≠ Some key) as Hother.
  { intros other [Ho|Ho] Heq.
    - apply (Hd key); [|apply list_elem_of_here]. apply list_elem_of_omap. by exists other.
    - apply Hn. apply list_elem_of_omap. by exists other. }
  rewrite fold_actions_ne by (intros other Ho; left; apply Hother; by right). rewrite Hplace.
  destruct (action_writes ts action) as [[item|]|]; simpl;
    [by rewrite lookup_insert_eq|by rewrite lookup_delete_eq|].
  apply fold_actions_ne. intros other Ho. left. apply Hother. by left.
Qed.

Lemma applied_elsewhere ts items key :
  (∀ action, action ∈ items → action_place action = Some key → action_writes ts action = None) →
  apply_actions ts items !! key = ts !! key.
Proof.
  intros Hall. apply fold_actions_ne. intros action Hin.
  destruct (decide (action_place action = Some key)) as [Heq|Hne]; [right; by apply Hall|by left].
Qed.
End actions.

(** ** The representation *)

Section representation.
Context `{SerdeJson} (t : string).

Definition stored (ts : Tables) (pk : string) (sk : Z) : option Item := ts !! log_key t pk sk.

(** What a stream's snapshot covers. *)
Definition covers (ts : Tables) (id : EntityId) (z : Z) : Prop :=
  attribute (stored ts id SNAPSHOT_SORT_KEY) "eventSeq" = Some (an z).

(** The items of one stream represent its log. *)
Record stream_on (ts : Tables) (log : list SerializedEvent) (id : EntityId) : Prop := {
  so_head : match log with
            | [] => stored ts id HEAD_SORT_KEY = None
            | _ => attribute (stored ts id HEAD_SORT_KEY) "head" = Some (an (llen log))
            end;
  so_event : ∀ n item, 1 ≤ n → stored ts id n = Some item →
    ∃ e, log !! Z.to_nat (n - 1) = Some e ∧ event_item e None = Ok item;
  so_kept : ∀ n, 1 ≤ n ≤ llen log → is_Some (stored ts id n) ∨ ∃ z, covers ts id z ∧ n ≤ z;
  so_covered : ∀ v, attribute (stored ts id SNAPSHOT_SORT_KEY) "eventSeq" = Some v →
    ∃ z, v = an z ∧ z ≤ llen log
}.

Record on_table (a : Abs) (ts : Tables) : Prop := {
  ot_stream : ∀ id, is_reserved id = false → stream_on ts (log_at (ab_log a) id) id;
  ot_outcome : ∀ cid, match ab_outcomes a !! cid with
                      | Some o => ∃ item, stored ts (outcome_key cid) OUTCOME_SORT_KEY = Some item ∧
                          outcome_item o = Ok item ∧ oc_command_id o = cid
                      | None => stored ts (outcome_key cid) OUTCOME_SORT_KEY = None
                      end
}.

Lemma on_table_empty : on_table abs_initial ∅.
Proof.
  assert (∀ pk sk, stored ∅ pk sk = None) as Hn by (intros; apply lookup_empty).
  split; [|intros cid; apply Hn]. intros id _. assert (log_at (ab_log abs_initial) id = []) as -> by done. split.
  - apply Hn.
  - intros n item _. by rewrite Hn.
  - intros n Hn'. unfold llen in Hn'. simpl in Hn'. lia.
  - intros v. by rewrite Hn.
Qed.

(** Snapshots only advance. *)
Definition snapshots_advance (ts ts' : Tables) : Prop :=
  ∀ id z, is_reserved id = false → covers ts id z → ∃ z', covers ts' id z' ∧ z ≤ z'.

#[export] Instance snapshots_advance_preorder : PreOrder snapshots_advance.
Proof.
  split.
  - intros ts id z _ Hc. by exists z.
  - intros ts1 ts2 ts3 H1 H2 id z Hr Hc. destruct (H1 id z Hr Hc) as (z' & Hc' & Hle).
    destruct (H2 id z' Hr Hc') as (z'' & Hc'' & Hle'). exists z''. split; [done|lia].
Qed.

(** Other places do not matter. *)
Lemma stream_on_same ts ts' log id :
  (∀ sk, stored ts' id sk = stored ts id sk) → stream_on ts log id → stream_on ts' log id.
Proof.
  intros Hs [Hh He Hk Hc]. split.
  - by rewrite Hs.
  - intros n item. rewrite Hs. apply He.
  - intros n Hn. unfold covers. rewrite !Hs. by apply Hk.
  - intros v. rewrite Hs. apply Hc.
Qed.
End representation.

(** ** The actions of a commit *)

Lemma starts_with_self p s : starts_with p (p +:+ s) = true.
Proof.
  unfold starts_with. induction p as [|c p IH]; [by destruct s|].
  change (String c p +:+ s) with (String c (p +:+ s)). simpl. by destruct (ascii_dec c c).
Qed.

Lemma outcome_key_reserved cid : is_reserved (outcome_key cid) = true.
Proof. unfold is_reserved, outcome_key. rewrite (starts_with_self COMMAND_OUTCOME_PREFIX). apply orb_true_r. Qed.

Lemma outcome_key_inj cid cid' : outcome_key cid = outcome_key cid' → cid = cid'.
Proof. unfold outcome_key. by intros [= ?]. Qed.

Abbreviation DCommit := (Commit TransactWriteItem).
Abbreviation DTransaction := (TransactionCommit TransactWriteItem).
Abbreviation Built := (list TransactWriteItem * TransactionLayout)%type.

Section commits.
Context `{SerdeJson} (r : DynamoRepository).
Let t := dr_table r.

(** The actions a commit has for its stream, without retention. *)
Inductive group_action (c : DCommit) : TransactWriteItem → Prop :=
| ga_head first rest last :
    cm_events c = first :: rest → last_event (cm_events c) = Some last →
    group_action c (head_action t (head_update (cm_entity_id c) (ev_sequence first) (ev_sequence last) None))
| ga_event e i :
    e ∈ cm_events c → event_item e None = Ok i → group_action c (put_action t i (Some EVENT_CONDITION) [])
| ga_snapshot sn last i condition values :
    cm_snapshot c = Some sn → last_event (cm_events c) = Some last →
    snapshot_item (snapshot_of (cm_entity_id c) sn (ev_sequence last)) None = Ok i →
    group_action c (put_action t i condition values).

(** A group of actions that is a commit's whole. *)
Record group_of (c : DCommit) (group : list TransactWriteItem) : Prop := {
  go_only : ∀ x, x ∈ group → group_action c x;
  go_head : ∀ first rest last, cm_events c = first :: rest → last_event (cm_events c) = Some last →
    head_action t (head_update (cm_entity_id c) (ev_sequence first) (ev_sequence last) None) ∈ group;
  go_events : ∀ e, e ∈ cm_events c → ∃ i, event_item e None = Ok i ∧ put_action t i (Some EVENT_CONDITION) [] ∈ group;
  go_snapshot : ∀ sn last, cm_snapshot c = Some sn → last_event (cm_events c) = Some last →
    ∃ i condition values, snapshot_item (snapshot_of (cm_entity_id c) sn (ev_sequence last)) None = Ok i ∧
      put_action t i condition values ∈ group
}.

Lemma last_event_cons e events : is_Some (last_event (e :: events)).
Proof. rewrite last_event_last. apply last_is_Some. done. Qed.

Lemma stream_group_ok c group : stream_group r c None None = Ok group → group_of c group.
Proof.
  unfold stream_group. destruct (cm_events c) as [|first rest] eqn:Hev.
  { intros [= <-]. split; rewrite ?Hev; try done; intros x Hx; by apply not_elem_of_nil in Hx. }
  destruct (last_event_cons first rest) as [last Hl]. rewrite Hl. rewrite <-Hev in *.
  destruct (collect _ _) as [puts|] eqn:Hputs; [|done]. cbn [result_bind]. apply collect_ok in Hputs.
  destruct (match cm_snapshot c with Some _ => _ | None => _ end) as [snapshot|] eqn:Hs; [|done].
  cbn [result_bind]. intros [= <-].
  assert (∀ e x, (let? item := event_item e None in Ok (put_action (dr_table r) item (Some EVENT_CONDITION) [])) = Ok x →
    ∃ i, event_item e None = Ok i ∧ x = put_action t i (Some EVENT_CONDITION) []) as Hput.
  { intros e x. destruct (event_item e None) as [i|]; [|done]. intros [= <-]. by exists i. }
  assert (∀ sn, cm_snapshot c = Some sn → ∃ i condition values,
    snapshot_item (snapshot_of (cm_entity_id c) sn (ev_sequence last)) None = Ok i ∧
    snapshot = [put_action t i condition values]) as Hsnap.
  { intros sn Hsn. rewrite Hsn in Hs. destruct (snapshot_item _ None) as [i|]; [|done]. injection Hs as <-.
    destruct (_ =? 0); by eexists i, _, _. }
  split.
  - intros x [->|[Hx|Hx]%elem_of_app]%elem_of_cons.
    + by eapply ga_head.
    + apply list_elem_of_lookup_1 in Hx as [k Hk].
      destruct (Forall2_lookup_r _ _ _ _ _ Hputs Hk) as (e & He & Hx). destruct (Hput e x Hx) as (i & Hi & ->).
      apply (ga_event c e i); [by eapply list_elem_of_lookup_2|done].
    + destruct (cm_snapshot c) as [sn|] eqn:Hsn; [|injection Hs as <-; by apply not_elem_of_nil in Hx].
      destruct (Hsnap sn eq_refl) as (i & condition & values & Hi & ->).
      apply list_elem_of_singleton in Hx as ->. by eapply ga_snapshot.
  - intros f rest' l Hf Hl'. rewrite Hev in Hf. injection Hf as <- <-. rewrite Hl in Hl'. injection Hl' as <-.
    apply list_elem_of_here.
  - intros e He. apply list_elem_of_lookup_1 in He as [k Hk].
    destruct (Forall2_lookup_l _ _ _ _ _ Hputs Hk) as (x & Hx & Hex). destruct (Hput e x Hex) as (i & Hi & ->).
    exists i. split; [done|]. apply list_elem_of_further, elem_of_app. left. by eapply list_elem_of_lookup_2.
  - intros sn l Hsn Hl'. rewrite Hl in Hl'. injection Hl' as <-.
    destruct (Hsnap sn Hsn) as (i & condition & values & Hi & ->). exists i, condition, values. split; [done|].
    apply list_elem_of_further, elem_of_app. right. by apply list_elem_of_singleton.
Qed.

(** The actions that record a commit's outcome. *)
Definition records (o : Outcome) (x : TransactWriteItem) : Prop :=
  ∃ i, outcome_item o = Ok i ∧ x = put_action t i (Some OUTCOME_CONDITION) [].

(** The actions of a whole write: those of every stream, fence and outcome are there, and of the rest
    none writes the table. *)
Record commit_actions (streams : list DCommit) (fences : list ReadFence) (outcome : option Outcome)
    (items : list TransactWriteItem) : Prop := {
  ca_groups : ∀ c, c ∈ streams → ∃ group, group_of c group ∧ group ⊆ items;
  ca_fences : ∀ f, f ∈ fences → head_action t (head_fence (fe_entity_id f) (fe_head f)) ∈ items;
  ca_outcome : ∀ o, outcome = Some o → ∃ x, records o x ∧ x ∈ items;
  ca_only : ∀ x, x ∈ items →
    (∃ c, c ∈ streams ∧ group_action c x) ∨ (∃ o, outcome = Some o ∧ records o x) ∨
    (∀ `{DynamoExpressions} ts, action_writes ts x = None) ∨
    (∀ key, action_place x = Some key → key.1.1 ≠ t)
}.

Lemma group_action_place c x :
  commit_ok c → group_action c x →
  ∃ sk, action_place x = Some (log_key t (cm_entity_id c) sk) ∧
    (sk = HEAD_SORT_KEY ∨ sk = SNAPSHOT_SORT_KEY ∨ ∃ e, e ∈ cm_events c ∧ ev_sequence e = sk).
Proof.
  intros [_ Hok] [first rest last Hev Hl|e i He Hi|sn last i condition values Hs Hl Hi].
  - exists HEAD_SORT_KEY. rewrite head_action_place. auto.
  - exists (ev_sequence e). split; [|right; right; by exists e].
    assert (ev_entity_id e = cm_entity_id c) as <-.
    { destruct (cm_events c) as [|first rest] eqn:Hev; [by apply not_elem_of_nil in He|].
      destruct (Hok _ _ eq_refl) as (_ & _ & Hall). rewrite Forall_forall in Hall. by apply Hall. }
    by apply place_keyed, event_item_spec.
  - exists SNAPSHOT_SORT_KEY. split; [|auto]. apply snapshot_item_spec in Hi as [Hk _]. by apply place_keyed.
Qed.

Lemma records_place o x :
  records o x → action_place x = Some (log_key t (outcome_key (oc_command_id o)) OUTCOME_SORT_KEY).
Proof. intros (i & Hi & ->). by apply place_keyed, outcome_item_spec. Qed.

Section applied.
Context `{!DynamoExpressions, !ExpressionLaws}.
Context (streams : list DCommit) (fences : list ReadFence) (outcome : option Outcome).
Context (items : list TransactWriteItem) (ts : Tables) (a : Abs).
Context (Hon : on_table t a ts) (Hall : Forall commit_ok streams) (Hnd : NoDup (map cm_entity_id streams)).
Context (Hca : commit_actions streams fences outcome items) (Happ : applicable ts items).
Let ts' := apply_actions ts items.
Let log id := log_at (ab_log a) id.

Lemma stream_ok_of c : c ∈ streams → commit_ok c.
Proof. rewrite Forall_forall in Hall. apply Hall. Qed.

Lemma same_stream c c' : c ∈ streams → c' ∈ streams → cm_entity_id c = cm_entity_id c' → c = c'.
Proof. intros. by apply (NoDup_fmap_eq cm_entity_id streams). Qed.

(** Which actions are on a stream's items. *)
Lemma stream_action x id sk :
  is_reserved id = false → x ∈ items → action_place x = Some (log_key t id sk) →
  action_writes ts x = None ∨ ∃ c, c ∈ streams ∧ cm_entity_id c = id ∧ group_action c x.
Proof.
  intros Hr Hx Hp. destruct (ca_only _ _ _ _ Hca x Hx) as [(c & Hc & Hg)|[(o & Ho & Hrec)|[Hw|Ht]]].
  - right. exists c. split; [done|]. split; [|done].
    destruct (group_action_place c x (stream_ok_of c Hc) Hg) as (sk' & Hp' & _).
    rewrite Hp in Hp'. injection Hp' as <-. done.
  - apply records_place in Hrec. rewrite Hp in Hrec. injection Hrec as -> _. by rewrite outcome_key_reserved in Hr.
  - by left.
  - by destruct (Ht _ Hp).
Qed.

(** A stream the write has no events for keeps its items. *)
Lemma untouched id sk :
  is_reserved id = false →
  (∀ c x, c ∈ streams → cm_entity_id c = id → group_action c x → action_place x ≠ Some (log_key t id sk)) →
  stored t ts' id sk = stored t ts id sk.
Proof.
  intros Hr Hno. apply applied_elsewhere. intros x Hx Hp.
  destruct (stream_action x id sk Hr Hx Hp) as [Hw|(c & Hc & Hid & Hg)]; [done|].
  by destruct (Hno c x Hc Hid Hg).
Qed.

Lemma action_passes x : x ∈ items → action_holds ts x = true.
Proof. destruct Happ as [Hh _]. rewrite Forall_forall in Hh. apply Hh. Qed.

Lemma stream_head id v :
  is_reserved id = false → attribute (stored t ts id HEAD_SORT_KEY) "head" = v →
  (v = None → llen (log id) = 0) ∧ (∀ z, v = Some (an z) → llen (log id) = z) ∧
  (v ≠ None → v = Some (an (llen (log id)))).
Proof.
  intros Hr Hv. pose proof (so_head _ _ _ _ (ot_stream _ _ _ Hon id Hr)) as Hh. fold (log id) in Hh.
  destruct (log id) as [|e es] eqn:Hl.
  - rewrite Hh in Hv. subst v. split; [done|]. split; [done|]. by intros [].
  - rewrite Hh in Hv. subst v. split; [done|]. split; [|done]. intros z Hz%(inj Some). by apply an_inj.
Qed.

(** An append that is applied starts right after the log, and a fence that passes is at its end. *)
Lemma update_at_head id first last :
  is_reserved id = false → 1 ≤ first → head_action t (head_update id first last None) ∈ items →
  first = llen (log id) + 1 ∧ attribute (stored t ts' id HEAD_SORT_KEY) "head" = Some (an last).
Proof.
  intros Hr Hone Hin. pose proof (action_passes _ Hin) as Hh.
  destruct (stream_head id _ Hr eq_refl) as (Hnone & Hsome & Hpresent). split.
  - unfold action_holds in Hh. rewrite head_action_place in Hh. cbn [at_place] in Hh.
    unfold head_action, head_update in Hh. cbn [ha_update_expression] in Hh.
    destruct (Z.leb_spec first 1) as [Hle|Hgt]; cbn [ha_condition_expression ha_names ha_values app] in Hh.
    + rewrite Hnone; [lia|]. eapply (law_not_exists "head"); [set_solver|exact Hh].
    + assert (llen (log id) = first - 1) as ->; [|lia].
      eapply law_head_equals; [by left|exact Hh|reflexivity|].
      apply Hpresent. by eapply (law_head_present ":prev"); [left|exact Hh].
  - unfold stored, ts'. rewrite (applied_at _ _ _ (log_key t id HEAD_SORT_KEY) Happ Hin (head_action_place _ _)).
    unfold head_action. cbn [ha_update_expression head_update action_writes ha_values ha_names ha_entity_id].
    rewrite (law_head_update _ _ _ (an last)) by (by destruct (first <=? 1)). apply lookup_insert_eq.
Qed.

Lemma fence_at_head f :
  is_reserved (fe_entity_id f) = false → f ∈ fences → llen (log (fe_entity_id f)) = Z.max 0 (fe_head f).
Proof.
  intros Hr Hf. pose proof (action_passes _ (ca_fences _ _ _ _ Hca f Hf)) as Hh.
  destruct (stream_head _ _ Hr eq_refl) as (Hnone & _ & Hpresent).
  unfold action_holds in Hh. rewrite head_action_place in Hh. cbn [at_place] in Hh.
  unfold head_action, head_fence in Hh. destruct (Z.leb_spec (fe_head f) 0) as [Hle|Hgt];
    cbn [ha_update_expression ha_condition_expression ha_names ha_values ha_entity_id] in Hh.
  - rewrite Hnone; [lia|]. eapply (law_not_exists "head"); [set_solver|exact Hh].
  - assert (llen (log (fe_entity_id f)) = fe_head f) as ->; [|lia].
    eapply (law_head_equals ":head"); [set_solver|exact Hh|reflexivity|].
    apply Hpresent. by eapply (law_head_present ":head"); [set_solver|exact Hh].
Qed.

Lemma outcome_is_fresh o : outcome = Some o → ab_outcomes a !! oc_command_id o = None.
Proof.
  intros Ho. destruct (ca_outcome _ _ _ _ Hca o Ho) as (x & Hrec & Hx).
  pose proof (action_passes _ Hx) as Hh. pose proof (records_place _ _ Hrec) as Hp.
  unfold action_holds in Hh. rewrite Hp in Hh. destruct Hrec as (i & Hi & ->). cbn [at_place put_action] in Hh.
  apply (law_not_exists "pk") in Hh; [|set_solver].
  pose proof (ot_outcome _ _ _ Hon (oc_command_id o)) as Hoc.
  destruct (ab_outcomes a !! oc_command_id o) as [o'|]; [|done].
  destruct Hoc as (item & Hst & Hi' & Hcid). apply outcome_item_spec in Hi' as (_ & Hpk & _).
  unfold stored in Hst. rewrite Hst in Hh. cbn [attribute] in Hh. by rewrite Hpk in Hh.
Qed.

Section one_stream.
Context (c : DCommit) (first last : SerializedEvent) (rest : list SerializedEvent).
Context (Hc : c ∈ streams) (Hev : cm_events c = first :: rest) (Hlast : last_event (cm_events c) = Some last).
Let id := cm_entity_id c.

Lemma group_in x : (∀ group, group_of c group → x ∈ group) → x ∈ items.
Proof. intros Hx. destruct (ca_groups _ _ _ _ Hca c Hc) as (group & Hg & Hsub). by apply Hsub, Hx. Qed.

Lemma appended_head :
  ev_sequence first = llen (log id) + 1 ∧
  attribute (stored t ts' id HEAD_SORT_KEY) "head" = Some (an (ev_sequence last)).
Proof.
  destruct (stream_ok_of c Hc) as [Hr Hok]. destruct (Hok _ _ Hev) as (Hone & _ & _).
  apply update_at_head; [done|done|]. apply group_in. intros group Hg. by eapply go_head.
Qed.

Lemma appended_numbered : numbered (llen (log id) + 1) (cm_events c) ∧ Forall (event_of id) (cm_events c) ∧
  ev_sequence last = llen (log id ++ cm_events c).
Proof.
  destruct (stream_ok_of c Hc) as [Hr Hok]. destruct (Hok _ _ Hev) as (_ & Hn & Hev').
  destruct appended_head as [Hf _]. rewrite Hf in Hn. split; [done|]. split; [done|].
  rewrite (last_event_numbered _ _ _ Hn Hlast). unfold llen. rewrite length_app. lia.
Qed.

(** The events of the commit are stored at their numbers. *)
Lemma appended_event n e :
  cm_events c !! n = Some e →
  ∃ i, event_item e None = Ok i ∧ stored t ts' id (llen (log id) + 1 + Z.of_nat n) = Some i.
Proof.
  intros He. destruct appended_numbered as (Hn & Hall' & _). pose proof (numbered_lookup _ _ _ _ Hn He) as Hseq.
  destruct (ca_groups _ _ _ _ Hca c Hc) as (group & Hg & Hsub).
  destruct (go_events _ _ Hg e) as (i & Hi & Hin); [by eapply list_elem_of_lookup_2|].
  exists i. split; [done|]. rewrite <-Hseq. pose proof (event_item_spec _ _ Hi) as Hk.
  rewrite Forall_forall in Hall'. assert (ev_entity_id e = id) as Hid by (apply Hall'; by eapply list_elem_of_lookup_2).
  rewrite Hid in Hk. unfold stored, ts'. rewrite (applied_at _ _ _ _ Happ (Hsub _ Hin) (place_keyed _ _ _ _ Hk)).
  cbn [put_action action_writes]. by rewrite to_sdk_plain by apply Hk.
Qed.

(** Events of other numbers are not touched. *)
Lemma other_event n :
  1 ≤ n → ¬ (llen (log id) + 1 ≤ n ≤ llen (log id ++ cm_events c)) → stored t ts' id n = stored t ts id n.
Proof.
  intros Hn Hout. destruct (stream_ok_of c Hc) as [Hr _]. apply untouched; [done|].
  intros c' x Hc' Hid Hg Hp. assert (c' = c) as -> by (by apply same_stream).
  destruct (group_action_place c x (stream_ok_of c Hc) Hg) as (sk & Hp' & Hsk).
  rewrite Hp in Hp'. injection Hp' as Hs. apply (inj pretty) in Hs as ->.
  destruct Hsk as [->|[->|(e & He & <-)]]; [done|done|].
  apply list_elem_of_lookup_1 in He as [k Hk]. destruct appended_numbered as (Hnum & _ & _).
  pose proof (numbered_lookup _ _ _ _ Hnum Hk). apply lookup_lt_Some in Hk. apply Hout.
  unfold llen. rewrite length_app. unfold llen in *. lia.
Qed.

(** The snapshot covers the whole log now, or is the one from before. *)
Lemma appended_snapshot :
  attribute (stored t ts' id SNAPSHOT_SORT_KEY) "eventSeq" = Some (an (llen (log id ++ cm_events c))) ∨
  stored t ts' id SNAPSHOT_SORT_KEY = stored t ts id SNAPSHOT_SORT_KEY.
Proof.
  destruct appended_numbered as (_ & _ & Hll). destruct (stream_ok_of c Hc) as [Hr _].
  destruct (cm_snapshot c) as [sn|] eqn:Hsn; [left|right].
  - destruct (ca_groups _ _ _ _ Hca c Hc) as (group & Hg & Hsub).
    destruct (go_snapshot _ _ Hg sn last Hsn Hlast) as (i & condition & values & Hi & Hin).
    apply snapshot_item_spec in Hi as [Hk Hseq]. cbn [snapshot_of sn_entity_id] in Hk. fold id in Hk. rewrite <-Hll.
    unfold stored, ts'. rewrite (applied_at _ _ _ _ Happ (Hsub _ Hin) (place_keyed _ _ _ _ Hk)).
    cbn [put_action action_writes]. by rewrite to_sdk_plain by apply Hk.
  - apply untouched; [done|]. intros c' x Hc' Hid Hg Hp. assert (c' = c) as -> by (by apply same_stream).
    destruct Hg as [f' r' l' Hev' Hl'|e i He Hi|sn l' i condition values Hs _ _]; [|  |congruence].
    + rewrite head_action_place in Hp. by apply (inj Some), log_key_inj in Hp as [_ ?].
    + apply event_item_spec in Hi. rewrite (place_keyed t _ _ _ Hi : action_place (put_action t i _ _) = _) in Hp.
      apply (inj Some), log_key_inj in Hp as [_ Hz]. destruct appended_numbered as (Hnum & _ & _).
      apply list_elem_of_lookup_1 in He as [k Hk]. pose proof (numbered_lookup _ _ _ _ Hnum Hk) as Hq.
      unfold SNAPSHOT_SORT_KEY, llen in *. lia.
Qed.

Lemma appended_stream_on : stream_on t ts' (log id ++ cm_events c) id.
Proof.
  destruct (stream_ok_of c Hc) as [Hr _]. destruct (ot_stream _ _ _ Hon id Hr) as [_ He Hk Hcov].
  fold (log id) in He, Hk, Hcov. destruct appended_numbered as (_ & _ & Hll).
  assert (0 < llen (cm_events c)) as Hpos by (rewrite Hev; unfold llen; simpl length; lia).
  assert (llen (log id ++ cm_events c) = llen (log id) + llen (cm_events c)) as Hlen
    by (unfold llen; rewrite length_app; lia). split.
  - rewrite <-Hll. destruct (log id ++ cm_events c) eqn:Hnil; [|apply appended_head].
    unfold llen in Hlen at 1. simpl in Hlen. unfold llen in *. lia.
  - intros n item Hn Hs. destruct (decide (llen (log id) + 1 ≤ n ≤ llen (log id ++ cm_events c))) as [Hin|Hout].
    + destruct (lookup_lt_is_Some_2 (cm_events c) (Z.to_nat (n - llen (log id) - 1))) as [e Hl];
        [unfold llen in *; lia|]. exists e. destruct (appended_event _ _ Hl) as (i & Hi & Hst).
      replace (llen (log id) + 1 + _) with n in Hst by (unfold llen in *; lia).
      rewrite Hs in Hst. injection Hst as ->. split; [|done]. rewrite lookup_app_r by (unfold llen in *; lia).
      rewrite <-Hl. f_equal. unfold llen in *. lia.
    + rewrite other_event in Hs by done. destruct (He n item Hn Hs) as (e & Hl & Hi). exists e.
      split; [|done]. by apply lookup_app_l_Some.
  - intros n Hn. destruct (decide (llen (log id) + 1 ≤ n)) as [Hin|Hout].
    + left. destruct (lookup_lt_is_Some_2 (cm_events c) (Z.to_nat (n - llen (log id) - 1))) as [e Hl];
        [unfold llen in *; lia|]. destruct (appended_event _ _ Hl) as (i & Hi & Hst). exists i. rewrite <-Hst.
      f_equal. unfold llen in *. lia.
    + destruct (Hk n) as [Hs|(z & Hz & Hle)]; [lia|left; rewrite other_event; [done|lia|lia]|]. right. unfold covers.
      destruct appended_snapshot as [Heq|Heq]; rewrite Heq; [|by exists z].
      exists (llen (log id ++ cm_events c)). split; [done|lia].
  - intros v. destruct appended_snapshot as [Heq|Heq]; rewrite Heq.
    + intros [= <-]. by eexists.
    + intros Hv. destruct (Hcov v Hv) as (z & -> & Hz). exists z. split; [done|lia].
Qed.

Lemma appended_covers z : covers t ts id z → ∃ z', covers t ts' id z' ∧ z ≤ z'.
Proof.
  intros Hz. unfold covers. destruct appended_snapshot as [Heq|Heq]; rewrite Heq; [|by exists z].
  eexists. split; [done|]. destruct (stream_ok_of c Hc) as [Hr _].
  destruct (so_covered _ _ _ _ (ot_stream _ _ _ Hon id Hr) _ Hz) as (z' & Hv & Hle). apply an_inj in Hv as ->.
  fold (log id) in Hle. unfold llen in *. rewrite length_app. lia.
Qed.
End one_stream.

(** What an applied write does to each stream of the log. *)
Lemma stream_cases id :
  is_reserved id = false →
  (∃ c first rest, c ∈ streams ∧ cm_entity_id c = id ∧ cm_events c = first :: rest ∧
     log_at (append_all (ab_log a) (batches_of streams)) id = log id ++ cm_events c) ∨
  ((∀ sk, stored t ts' id sk = stored t ts id sk) ∧
     log_at (append_all (ab_log a) (batches_of streams)) id = log id).
Proof.
  intros Hr.
  destruct (append_all_lookup (batches_of streams) (ab_log a) id) as [(es & Hin & Hlog)|[Hnin Hlog]];
    [by rewrite batches_ids| |]; fold (log id) in Hlog.
  - apply list_elem_of_fmap in Hin as (c & Heq & Hc). injection Heq as -> ->.
    destruct (cm_events c) as [|first rest] eqn:Hev.
    + right. rewrite Hlog, app_nil_r. split; [|done]. intros sk. apply untouched; [done|].
      intros c' x Hc' Hid Hg Hp. assert (c' = c) as -> by (by apply same_stream).
      destruct Hg as [f r' l Hev'|e i He|sn l i condition values _ Hl]; [congruence| |];
        rewrite Hev in *; [by apply not_elem_of_nil in He|done].
    + left. exists c, first, rest. by rewrite Hev.
  - right. split; [|done]. intros sk. apply untouched; [done|]. intros c x Hc <-. destruct Hnin.
    rewrite batches_ids. by apply list_elem_of_fmap_2.
Qed.

Lemma applied_outcome cid :
  stored t ts' (outcome_key cid) OUTCOME_SORT_KEY =
  match outcome with
  | Some o => if decide (oc_command_id o = cid) then match outcome_item o with Ok i => Some i | Err _ => None end
              else stored t ts (outcome_key cid) OUTCOME_SORT_KEY
  | None => stored t ts (outcome_key cid) OUTCOME_SORT_KEY
  end.
Proof.
  assert ((∀ o, outcome = Some o → oc_command_id o ≠ cid) →
    stored t ts' (outcome_key cid) OUTCOME_SORT_KEY = stored t ts (outcome_key cid) OUTCOME_SORT_KEY) as Helse.
  { intros Hne. apply applied_elsewhere. intros x Hx Hp.
    destruct (ca_only _ _ _ _ Hca x Hx) as [(c & Hc & Hg)|[(o & Ho & Hrec)|[Hw|Ht]]]; [| |done|by destruct (Ht _ Hp)].
    - destruct (group_action_place c x (stream_ok_of c Hc) Hg) as (sk & Hp' & _). rewrite Hp in Hp'.
      apply (inj Some), log_key_inj in Hp' as [Hid _]. destruct (stream_ok_of c Hc) as [Hr _].
      by rewrite <-Hid, outcome_key_reserved in Hr.
    - apply records_place in Hrec. rewrite Hp in Hrec. apply (inj Some), log_key_inj in Hrec as [Hid _].
      apply outcome_key_inj in Hid. by destruct (Hne o Ho). }
  destruct outcome as [o|] eqn:Ho; [|by apply Helse]. destruct (decide (oc_command_id o = cid)) as [<-|Hne];
    [|apply Helse; congruence].
  destruct (ca_outcome _ _ _ _ Hca o eq_refl) as (x & Hrec & Hx). pose proof (records_place _ _ Hrec) as Hp.
  unfold stored, ts'. rewrite (applied_at _ _ _ _ Happ Hx Hp). destruct Hrec as (i & Hi & ->).
  cbn [put_action action_writes]. rewrite Hi. apply outcome_item_spec in Hi as [Hpl _]. by rewrite to_sdk_plain.
Qed.

(** When a write is in order: every append starts at the end of its stream, every fence is there, and
    the command has no outcome. *)
Record fits : Prop := {
  ft_first : ∀ c first rest, c ∈ streams → cm_events c = first :: rest →
    ev_sequence first = llen (log (cm_entity_id c)) + 1;
  ft_fence : ∀ f, f ∈ fences → is_reserved (fe_entity_id f) = false →
    llen (log (fe_entity_id f)) = Z.max 0 (fe_head f);
  ft_fresh : ∀ o, outcome = Some o → ab_outcomes a !! oc_command_id o = None
}.

Lemma write_fits : fits.
Proof.
  split.
  - intros c first rest Hc Hev. destruct (last_event_cons first rest) as [last Hl]. rewrite <-Hev in Hl.
    by eapply appended_head.
  - intros f Hf Hr. by apply fence_at_head.
  - apply outcome_is_fresh.
Qed.

(** The whole write is one step of the log. *)
Lemma write_on_table : on_table t (abs_after a streams outcome) ts'.
Proof.
  split.
  - intros id Hr. rewrite abs_after_log.
    destruct (stream_cases id Hr) as [(c & first & rest & Hc & <- & Hev & ->)|[Hsame ->]].
    + destruct (last_event_cons first rest) as [last Hl]. rewrite <-Hev in Hl. by eapply appended_stream_on.
    + eapply stream_on_same; [done|]. by apply Hon.
  - intros cid. rewrite applied_outcome. pose proof (ot_outcome _ _ _ Hon cid) as Hc. cbn [abs_after ab_outcomes].
    destruct outcome as [o|] eqn:Ho; [|done]. destruct (decide (oc_command_id o = cid)) as [<-|Hne].
    + rewrite lookup_insert_eq. destruct (ca_outcome _ _ _ _ Hca o eq_refl) as (x & (i & Hi & _) & _).
      exists i. by rewrite Hi.
    + by rewrite lookup_insert_ne.
Qed.

Lemma write_snapshots : snapshots_advance t ts ts'.
Proof.
  intros id z Hr Hz. destruct (stream_cases id Hr) as [(c & first & rest & Hc & <- & Hev & _)|[Hsame _]].
  - destruct (last_event_cons first rest) as [last Hl]. rewrite <-Hev in Hl. by eapply appended_covers.
  - exists z. split; [|done]. unfold covers. by rewrite Hsame.
Qed.

Lemma write_abs_step : abs_step a (abs_after a streams outcome).
Proof.
  apply abs_append.
  - by rewrite batches_ids.
  - apply Forall_forall. intros [id es] (c & Heq & Hc)%list_elem_of_fmap. injection Heq as -> ->. simpl.
    destruct (cm_events c) as [|first rest] eqn:Hev; [by split; constructor|]. rewrite <-Hev.
    destruct (last_event_cons first rest) as [last Hl]. rewrite <-Hev in Hl.
    by destruct (appended_numbered c first last rest Hc Hev Hl) as (? & ? & _).
  - apply outcome_is_fresh.
Qed.
End applied.
End commits.

(** ** Snapshots, compaction and the manifest *)

Section upkeep.
Context `{SerdeJson} (t : string).
Implicit Types (ts : Tables) (a : Abs).

(** Items that only lost events a snapshot covers. *)
Record kept (ts ts' : Tables) (log : list SerializedEvent) (id : EntityId) : Prop := {
  kp_head : stored t ts' id HEAD_SORT_KEY = stored t ts id HEAD_SORT_KEY;
  kp_event : ∀ n, 1 ≤ n → stored t ts' id n = stored t ts id n ∨
    stored t ts' id n = None ∧ ∃ z, covers t ts' id z ∧ n ≤ z;
  kp_snapshot : stored t ts' id SNAPSHOT_SORT_KEY = stored t ts id SNAPSHOT_SORT_KEY ∨
    ∃ z, covers t ts' id z ∧ z ≤ llen log ∧ ∀ z', covers t ts id z' → z' ≤ z
}.

Lemma kept_same ts ts' log id : (∀ sk, stored t ts' id sk = stored t ts id sk) → kept ts ts' log id.
Proof. intros Hs. split; [done| |by left]. intros n _. by left. Qed.

Lemma kept_covers ts ts' log id z : kept ts ts' log id → covers t ts id z → ∃ z', covers t ts' id z' ∧ z ≤ z'.
Proof.
  intros Hk Hz. destruct (kp_snapshot _ _ _ _ Hk) as [Hs|(z' & Hz' & _ & Hle)].
  - exists z. unfold covers. by rewrite Hs.
  - exists z'. split; [done|by apply Hle].
Qed.

Lemma kept_stream_on ts ts' log id : kept ts ts' log id → stream_on t ts log id → stream_on t ts' log id.
Proof.
  intros Hk [Hh He Hkept Hc]. split.
  - by rewrite (kp_head _ _ _ _ Hk).
  - intros n item Hn Hs. destruct (kp_event _ _ _ _ Hk n Hn) as [Heq|[Heq _]]; rewrite Heq in Hs; [|done]. by apply He.
  - intros n Hn. destruct (kp_event _ _ _ _ Hk n) as [Heq|[_ Hz]]; [lia| |by right].
    destruct (Hkept n Hn) as [Hs|(z & Hz & Hle)]; [left; by rewrite Heq|right].
    destruct (kept_covers _ _ _ _ z Hk Hz) as (z' & Hz' & Hle'). exists z'. split; [done|lia].
  - intros v. destruct (kp_snapshot _ _ _ _ Hk) as [Heq|(z & Hz & Hle & _)]; [rewrite Heq; apply Hc|].
    unfold covers in Hz. rewrite Hz. intros [= <-]. by exists z.
Qed.

Lemma kept_on_table a ts ts' :
  on_table t a ts → (∀ id, is_reserved id = false → kept ts ts' (log_at (ab_log a) id) id) →
  (∀ cid, stored t ts' (outcome_key cid) OUTCOME_SORT_KEY = stored t ts (outcome_key cid) OUTCOME_SORT_KEY) →
  on_table t a ts' ∧ snapshots_advance t ts ts'.
Proof.
  intros Hon Hk Ho. split; [split|].
  - intros id Hr. eapply kept_stream_on; [by apply Hk|by apply Hon].
  - intros cid. rewrite Ho. apply Hon.
  - intros id z Hr. by eapply kept_covers, Hk.
Qed.

(** The manifest is no item of the log. *)
Lemma manifest_on_table a ts item :
  on_table t a ts → let ts' := <[log_key t FEATURES_ID FEATURES_SORT_KEY := item]> ts in
  on_table t a ts' ∧ snapshots_advance t ts ts'.
Proof.
  intros Hon ts'. apply (kept_on_table a ts ts' Hon).
  - intros id Hr. apply kept_same. intros sk. unfold stored, ts'. rewrite lookup_insert_ne; [done|].
    intros [<- _]%log_key_inj. done.
  - intros cid. unfold stored, ts'. rewrite lookup_insert_ne; [done|]. by intros [_ ?]%log_key_inj.
Qed.

(** Another table is not, either. *)
Lemma other_table_on_table a ts key item :
  key.1.1 ≠ t → on_table t a ts → let ts' := <[key := item]> ts in on_table t a ts' ∧ snapshots_advance t ts ts'.
Proof.
  intros Hne Hon ts'. assert (∀ pk sk, stored t ts' pk sk = stored t ts pk sk) as Hs.
  { intros pk sk. unfold stored, ts'. rewrite lookup_insert_ne; [done|]. by intros ->. }
  apply (kept_on_table a ts ts' Hon); [|done]. intros id Hr. by apply kept_same.
Qed.

Context `{!DynamoExpressions, !ExpressionLaws}.

(** A stand-alone snapshot. *)
Lemma snapshot_on_table a ts check sn i :
  on_table t a ts → is_reserved (sn_entity_id sn) = false → snapshot_item sn None = Ok i →
  (∀ ts, action_writes ts check = None) →
  let items := [check; head_action t (snapshot_cover (sn_entity_id sn) (sn_event_sequence sn));
    put_action t i (Some PUT_SNAPSHOT_CONDITION) [(":new"%string, an (sn_event_sequence sn))]] in
  applicable ts items →
  on_table t a (apply_actions ts items) ∧ snapshots_advance t ts (apply_actions ts items).
Proof.
  intros Hon Hr Hi Hcheck items Happ. set (id := sn_entity_id sn) in *. set (new := sn_event_sequence sn) in *.
  apply snapshot_item_spec in Hi as [Hk Hseq]. fold id in Hk. fold new in Hseq. set (put := put_action t i _ _) in items.
  pose proof (place_keyed t _ _ _ Hk : action_place put = _) as Hp.
  assert (∀ pk sk, log_key t pk sk ≠ log_key t id SNAPSHOT_SORT_KEY →
    stored t (apply_actions ts items) pk sk = stored t ts pk sk) as Hother.
  { intros pk sk Hne. apply applied_elsewhere. intros x Hx Hpx. unfold items in Hx.
    rewrite !elem_of_cons in Hx. destruct Hx as [->|[->|[->|Hx]]]; [apply Hcheck|done|congruence|by apply not_elem_of_nil in Hx]. }
  assert (covers t (apply_actions ts items) id new) as Hnew.
  { unfold covers, stored. rewrite (applied_at _ _ put _ Happ); [|set_solver|done].
    cbn [put put_action action_writes]. by rewrite to_sdk_plain by apply Hk. }
  pose proof (ot_stream _ _ _ Hon id Hr) as [Hh _ _ Hc]. destruct Happ as (Hholds & _ & _).
  unfold items in Hholds. rewrite !Forall_cons in Hholds. destruct Hholds as (_ & Hguard & Hput & _).
  unfold action_holds in Hguard, Hput. rewrite head_action_place in Hguard. rewrite Hp in Hput.
  cbn [head_action snapshot_cover ha_update_expression ha_condition_expression ha_names ha_values ha_entity_id at_place] in Hguard.
  cbn [put put_action at_place] in Hput.
  assert (new ≤ llen (log_at (ab_log a) id)) as Hle.
  { destruct (Z.ltb_spec 0 new); [|unfold llen; lia]. destruct (log_at (ab_log a) id) as [|e es].
    - apply law_head_covers_present in Hguard. unfold stored in Hh. by rewrite Hh in Hguard.
    - by eapply law_head_covers. }
  apply (kept_on_table a ts _ Hon).
  - intros id' Hr'. destruct (decide (id' = id)) as [->|Hne].
    2: { apply kept_same. intros sk. apply Hother. by intros [? _]%log_key_inj. }
    split.
    + apply Hother. by intros [_ ?]%log_key_inj.
    + intros n Hn. left. apply Hother. intros [_ ?]%log_key_inj. unfold SNAPSHOT_SORT_KEY in *. lia.
    + right. exists new. split; [done|]. split; [done|]. intros z' Hz'. by eapply law_snapshot_newer.
  - intros cid. apply Hother. by intros [_ ?]%log_key_inj.
Qed.

(** Deleting events the snapshot covers. *)
Lemma compaction_on_table a ts check id through keys z :
  on_table t a ts → is_reserved id = false → covers t ts id z → through ≤ z →
  (∀ ts, action_writes ts check = None) →
  Forall (λ key, ∃ n, key = stream_key id n ∧ 1 ≤ n ≤ through) keys →
  let items := check :: map (λ key, TDelete t key None ∅ ∅) keys in
  applicable ts items →
  on_table t a (apply_actions ts items) ∧ snapshots_advance t ts (apply_actions ts items).
Proof.
  intros Hon Hr Hz Hthrough Hcheck Hkeys items Happ. rewrite Forall_forall in Hkeys.
  assert (∀ pk sk, pk ≠ id ∨ ¬ 1 ≤ sk ≤ through →
    stored t (apply_actions ts items) pk sk = stored t ts pk sk) as Hother.
  { intros pk sk Hne. apply applied_elsewhere. intros x [->|Hx]%elem_of_cons Hpx; [apply Hcheck|].
    apply list_elem_of_fmap in Hx as (key & -> & Hkey). destruct (Hkeys key Hkey) as (n & -> & Hn).
    apply (inj Some), log_key_inj in Hpx as [<- <-]. destruct Hne; [done|lia]. }
  assert (covers t (apply_actions ts items) id z) as Hz'.
  { unfold covers. rewrite Hother; [done|]. right. unfold SNAPSHOT_SORT_KEY. lia. }
  apply (kept_on_table a ts _ Hon).
  - intros id' Hr'. destruct (decide (id' = id)) as [->|Hne];
      [|apply kept_same; intros sk; apply Hother; by left].
    split; [apply Hother; right; unfold HEAD_SORT_KEY; lia| |left; apply Hother; right; unfold SNAPSHOT_SORT_KEY; lia].
    intros n Hn.
    destruct (decide (Some (log_key t id n) ∈ map action_place (map (λ key, TDelete t key None ∅ ∅) keys))) as [Hin|Hnin].
    + right. apply list_elem_of_fmap in Hin as (x & Hp & Hx). pose proof Hx as Hx'.
      apply list_elem_of_fmap in Hx' as (key & -> & Hkey). destruct (Hkeys key Hkey) as (n' & -> & Hn').
      split; [unfold stored; by rewrite (applied_at _ _ _ _ Happ (list_elem_of_further _ _ _ Hx) (eq_sym Hp))|].
      apply (inj Some), log_key_inj in Hp as [_ ->]. exists z. split; [done|lia].
    + left. apply applied_elsewhere. intros x [->|Hx]%elem_of_cons Hpx; [apply Hcheck|]. destruct Hnin.
      rewrite <-Hpx. by apply list_elem_of_fmap_2.
  - intros cid. apply Hother. left. intros Heq. by rewrite <-Heq, outcome_key_reserved in Hr.
Qed.
End upkeep.
