(* ===== verification/DynamoClients.v ===== *)
(** * Concurrent writers of a DynamoDB table

    Programs of the DynamoDB repository that commit, write snapshots and compact, run by any number
    of instances at once. Between the transactions that write the log a program is quiet: it reads,
    locks its cells or puts the manifest. The ghost state is the order in which the commits were
    applied, and the log they make. *)

From S2P Require Import Prelude Types Features Outcome Rebuild Wire WireProofs Projection Repository RebuildBatch Mem.
From S2P Require Import MemInvariant MemRefinement Program Dynamo DynamoLog.

(** ** Quiet programs *)

(** A call that leaves the log as it is. *)
Definition quiet {B} (q : DynamoCall B) : Prop :=
  match q with
  | PutItem table item _ _ => place table item = Some (log_key table FEATURES_ID FEATURES_SORT_KEY)
  | q => reads_only q
  end.

(** Every call is quiet, and what is returned satisfies [Q]. *)
Fixpoint quietly {A} (p : Tree DynamoCall A) (Q : A → Prop) : Prop :=
  match p with
  | Ret a => Q a
  | Ask q k => quiet q ∧ ∀ b, quietly (k b) Q
  | Panic | OutOfFuel => True
  end.

Definition still {A} (p : Tree DynamoCall A) : Prop := quietly p (λ _, True).

Lemma quietly_mono {A} (p : Tree DynamoCall A) (P Q : A → Prop) : (∀ a, P a → Q a) → quietly p P → quietly p Q.
Proof.
  intros HPQ. induction p as [a|B q k IH| |]; simpl; [apply HPQ| |done|done]. intros [Hq Hk]. split; [done|]. auto.
Qed.

Lemma quietly_bind {A C} (p : Tree DynamoCall A) (f : A → Tree DynamoCall C) P Q :
  quietly p P → (∀ a, P a → quietly (f a) Q) → quietly (bind p f) Q.
Proof.
  intros Hp Hf. induction p as [a|B q k IH| |]; simpl; [by apply Hf| |done|done].
  destruct Hp as [Hq Hk]. split; [done|]. auto.
Qed.

Lemma quietly_try {A C F} (p : Tree DynamoCall (result A F)) (f : A → Tree DynamoCall (result C F)) P Q :
  quietly p (λ x, ∀ a, x = Ok a → P a) → (∀ a, P a → quietly (f a) Q) → (∀ e, Q (Err e)) → quietly (try_bind p f) Q.
Proof. intros Hp Hf He. eapply quietly_bind; [done|]. intros [a|e] Ha; [by apply Hf, Ha|apply He]. Qed.

Lemma still_bind {A C} (p : Tree DynamoCall A) (f : A → Tree DynamoCall C) :
  still p → (∀ a, still (f a)) → still (bind p f).
Proof. intros Hp Hf. eapply quietly_bind; [done|]. intros a _. apply Hf. Qed.

Lemma still_try {A C F} (p : Tree DynamoCall (result A F)) (f : A → Tree DynamoCall (result C F)) :
  still p → (∀ a, still (f a)) → still (try_bind p f).
Proof. intros Hp Hf. apply still_bind; [done|]. intros [a|e]; [apply Hf|done]. Qed.

Lemma still_send {A} text (q : DynamoCall (result A SdkError)) : quiet q → still (send text q).
Proof. intros Hq. apply still_bind; [|done]. by split. Qed.

Lemma still_call {B} (q : DynamoCall B) : quiet q → still (call q).
Proof. intros Hq. by split. Qed.

Create HintDb quiet.

(** Programs that only read, step by step. *)
Ltac still_step :=
  lazymatch goal with
  | |- still (Ret _) => exact I
  | |- still OutOfFuel => exact I
  | |- still (send _ _) => apply still_send; exact I
  | |- still (call _) => apply still_call; exact I
  | |- still (note_ttl _ _ _) => apply still_call; exact I
  | |- still (invalidate_manifest _) => apply still_call; exact I
  | |- still (try_bind _ _) => apply still_try; [|intros ?]
  | |- still (bind _ _) => apply still_bind; [|intros ?]
  | |- still (match ?x with _ => _ end) => destruct x
  | |- still _ => solve [auto with quiet]
  end.
Ltac stills := repeat (cbv beta zeta; still_step).

Section still.
Context `{SerdeJson} (text : SdkError → string) (r : DynamoRepository).

Lemma note_item_still id item : still (note_item r id item).
Proof. unfold note_item. stills. Qed.
#[local] Hint Resolve note_item_still : quiet.

Lemma read_manifest_still : still (dynamo_read_manifest text r).
Proof. unfold dynamo_read_manifest. stills. Qed.
#[local] Hint Resolve read_manifest_still : quiet.

Lemma marker_place table m :
  place table (to_sdk_item (feature_marker_item m)) = Some (log_key table FEATURES_ID FEATURES_SORT_KEY).
Proof.
  apply place_keyed. assert (∀ name value item, name ∉ ["pk"; "sk"]%string → plain value →
    keyed FEATURES_ID FEATURES_SORT_KEY item → keyed FEATURES_ID FEATURES_SORT_KEY (<[name := value]> item)) as Hins
    by (intros; by apply keyed_insert).
  unfold feature_marker_item. cbv zeta. set (base := <["features"%string := _]> _).
  assert (keyed FEATURES_ID FEATURES_SORT_KEY base) as Hb by (split; [unfold base; auto 10 with evt|done]).
  clearbody base. repeat (destruct (decide _)); repeat (apply Hins; [set_solver|done|]); done.
Qed.

Lemma revise_loop_still change attempts : still (revise_loop text r change attempts).
Proof.
  induction attempts as [|attempts IH]; [done|]. cbn [revise_loop]. apply still_try; [stills|]. intros observed.
  cbv zeta. destruct (negb _); [done|]. apply still_bind; [apply still_call, marker_place|].
  intros [[]|err]; [stills|]. destruct err as [| | | |status code [| |]]; stills.
Qed.
#[local] Hint Resolve revise_loop_still : quiet.

Lemma read_head_still id : still (read_head text r id).
Proof. unfold read_head, read_head_item. stills. Qed.
#[local] Hint Resolve read_head_still : quiet.

Lemma read_head_item_still id : still (read_head_item text r id).
Proof. unfold read_head_item. stills. Qed.
#[local] Hint Resolve read_head_item_still : quiet.

Lemma any_headless_still pks : still (any_headless text r pks).
Proof. induction pks as [|pk pks IH]; [done|]. cbn [any_headless]. stills. Qed.
#[local] Hint Resolve any_headless_still : quiet.

Lemma headless_loop_still fuel seen start : still (headless_loop text r fuel seen start).
Proof. revert seen start. induction fuel as [|fuel IH]; intros seen start; [done|]. cbn [headless_loop]. stills. Qed.
#[local] Hint Resolve headless_loop_still : quiet.

Lemma data_loop_still fuel start : still (data_loop text r fuel start).
Proof. revert start. induction fuel as [|fuel IH]; intros start; [done|]. cbn [data_loop]. stills. Qed.
#[local] Hint Resolve data_loop_still : quiet.

Lemma initialize_still fuel : still (dynamo_initialize text r fuel).
Proof. unfold dynamo_initialize, initialize_fresh, dynamo_update_manifest, revise_manifest. stills. Qed.
#[local] Hint Resolve initialize_still : quiet.

Lemma validated_still fuel : still (ensure_manifest_validated text r fuel).
Proof. unfold ensure_manifest_validated, validate_once. stills. Qed.

Lemma derive_head_still id : still (derive_head text r id).
Proof. unfold derive_head, highest_event. stills. Qed.
#[local] Hint Resolve derive_head_still : quiet.

Lemma expired_loop_still id now fuel start : still (expired_loop text r id now fuel start).
Proof. revert start. induction fuel as [|fuel IH]; intros start; [done|]. cbn [expired_loop]. stills. Qed.
#[local] Hint Resolve expired_loop_still : quiet.

Lemma remaining_still id fuel : still (remaining_items_expired text r id fuel).
Proof. unfold remaining_items_expired, dynamo_now. stills. Qed.
#[local] Hint Resolve remaining_still : quiet.

Lemma probe_still id retained fuel : still (probe_stream text r id retained fuel).
Proof. unfold probe_stream, drift_or_expired. stills. Qed.
#[local] Hint Resolve probe_still : quiet.

Lemma stream_verdicts_still streams codes fuel : still (stream_verdicts text r streams codes fuel).
Proof.
  induction streams as [|stream streams IH]; [done|]. cbn [stream_verdicts]. unfold stream_verdict, certain_drift. stills.
Qed.
#[local] Hint Resolve stream_verdicts_still : quiet.

Lemma fence_verdicts_still fences codes fuel : still (fence_verdicts text r fences codes fuel).
Proof. induction fences as [|[index fence] fences IH]; [done|]. cbn [fence_verdicts]. stills. Qed.
#[local] Hint Resolve fence_verdicts_still : quiet.

Lemma classify_still layout carries err fuel : still (classify_commit_failure text r layout carries err fuel).
Proof. unfold classify_commit_failure. stills. Qed.

Lemma note_committed_still streams : still (note_committed r streams).
Proof. induction streams as [|stream streams IH]; [done|]. cbn [note_committed]. stills. Qed.

Lemma ttl_for_still type : still (ttl_for r type).
Proof. unfold ttl_for. stills. Qed.
#[local] Hint Resolve ttl_for_still : quiet.

Lemma event_sizes_still events : still (timed_event_sizes r events).
Proof. induction events as [|e events IH]; [done|]. cbn [timed_event_sizes]. stills. Qed.
#[local] Hint Resolve event_sizes_still : quiet.

Lemma stream_sizes_still c : still (timed_stream_sizes r c).
Proof. unfold timed_stream_sizes. stills. Qed.
#[local] Hint Resolve stream_sizes_still : quiet.

Lemma commit_sizes_still c : still (timed_commit_sizes r c).
Proof. unfold timed_commit_sizes. stills. Qed.

Lemma streams_sizes_still streams : still (timed_streams_sizes r streams).
Proof. induction streams as [|c streams IH]; [done|]. cbn [timed_streams_sizes]. stills. Qed.
#[local] Hint Resolve streams_sizes_still : quiet.

Lemma transaction_sizes_still tc : still (timed_transaction_sizes r tc).
Proof. unfold timed_transaction_sizes. stills. Qed.
End still.

(** ** What is sent *)

(** An action on another table. *)
Definition off (t : string) (x : TransactWriteItem) : Prop :=
  match x with
  | TPut table _ _ _ _ | TUpdate table _ _ _ _ _ | TDelete table _ _ _ _ | TCheck table _ _ _ _ => table ≠ t
  end.

Lemma off_place t x key : off t x → action_place x = Some key → key.1.1 ≠ t.
Proof.
  assert (∀ table item, place table item = Some key → key.1.1 = table) as Hp.
  { intros table item. unfold place. repeat case_match; try done; by intros [= <-]. }
  destruct x; simpl; intros Hoff Hplace; by rewrite (Hp _ _ Hplace).
Qed.

(** A repository of the table whose entities do not expire, and whose views are in another table. *)
Record plain_repository (t : string) (r : DynamoRepository) : Prop := {
  pr_table : dr_table r = t;
  pr_retention : dr_retention r = ∅;
  pr_views : dr_views_table r ≠ Some t
}.

Section built.
Context `{SerdeJson} (t : string) (r : DynamoRepository) (Hr : plain_repository t r).

Lemma no_ttl type : ttl_for r type = Ret None.
Proof. unfold ttl_for. by rewrite (pr_retention _ _ Hr), lookup_empty. Qed.

Lemma view_items_off views items : view_items r views = Ok items → Forall (off t) items.
Proof.
  unfold view_items. destruct (nil_b views); [intros [= <-]; constructor|].
  destruct (dr_views_table r) as [table|] eqn:Htable; [|done]. intros Hc%collect_ok.
  assert (table ≠ t) as Hne by (intros ->; by destruct (pr_views _ _ Hr)).
  induction Hc as [|view x views items Hx _ IH]; constructor; [|done]. revert Hx. unfold view_action. cbv zeta.
  destruct (vo_kind _); [|by intros [= <-]]. destruct (vo_expected_payload _) as [expected|].
  - destruct (negb _); [done|]. destruct (view_operation_item _); [|done]. by intros [= <-].
  - destruct (view_operation_item _); [|done]. by intros [= <-].
Qed.

Lemma push_group_ok c built :
  quietly (push_group r c built) (λ x, ∀ b, x = Ok b → ∃ group, group_of r c group ∧ b.1 = built.1 ++ group).
Proof.
  unfold push_group. destruct (cm_events c) as [|first rest] eqn:Hev.
  - intros b [= <-]. exists []. rewrite app_nil_r. split; [|done]. apply stream_group_ok.
    unfold stream_group. by rewrite Hev.
  - rewrite no_ttl. cbn [bind]. unfold stream_head_ttl. rewrite Hev. cbn [bind try_bind].
    destruct (stream_group r c None None) as [group|e] eqn:Hg; [|done]. intros b [= <-].
    exists group. split; [by apply stream_group_ok|done].
Qed.

Lemma push_groups_ok streams built :
  quietly (push_groups r streams built) (λ x, ∀ b, x = Ok b →
    ∃ groups, Forall2 (group_of r) streams groups ∧ b.1 = built.1 ++ concat groups).
Proof.
  revert built. induction streams as [|c streams IH]; intros built.
  - intros b [= <-]. exists []. split; [constructor|]. simpl. by rewrite app_nil_r.
  - cbn [push_groups]. eapply quietly_try; [apply push_group_ok| |done].
    intros b (group & Hg & Hb). eapply quietly_mono, IH. intros x Hx b' Hb'.
    destruct (Hx b' Hb') as (groups & Hgs & Heq). exists (group :: groups). split; [by constructor|].
    simpl. by rewrite Heq, Hb, app_assoc.
Qed.

Lemma push_fences_items fences built :
  (fold_left (push_fence r) fences built).1 =
  built.1 ++ map (λ f, head_action t (head_fence (fe_entity_id f) (fe_head f))) fences.
Proof.
  revert built. induction fences as [|f fences IH]; intros built; [simpl; by rewrite app_nil_r|].
  cbn [fold_left map]. rewrite IH. unfold push_fence at 1. cbn [fst]. rewrite <-app_assoc. by rewrite (pr_table _ _ Hr).
Qed.

Lemma push_outcome_items outcome built b :
  push_outcome r outcome built = Ok b →
  ∃ puts, b.1 = built.1 ++ puts ∧
    match outcome with Some o => ∃ x, records r o x ∧ puts = [x] | None => puts = [] end.
Proof.
  unfold push_outcome, outcome_put. destruct outcome as [o|]; [|intros [= <-]; exists []; by rewrite app_nil_r].
  destruct (outcome_item o) as [i|] eqn:Hi; [|done]. cbn [result_bind]. intros [= <-]. eexists. split; [done|].
  eexists. split; [|done]. by exists i.
Qed.

(** The actions in the order they are sent. *)
Lemma sent_actions streams fences outcome validated ops views groups puts :
  Forall (off t) ops → Forall (off t) views → Forall2 (group_of r) streams groups →
  match outcome with Some o => ∃ x, records r o x ∧ puts = [x] | None => puts = [] end →
  commit_actions r streams fences outcome
    (((([marker_check r validated; rebuild_lock_check r] ++ ops) ++ views) ++ concat groups ++
      map (λ f, head_action t (head_fence (fe_entity_id f) (fe_head f))) fences) ++ puts).
Proof.
  intros Hops Hviews Hgroups Hputs. rewrite Forall_forall in Hops, Hviews. split.
  - intros c Hc. destruct (elem_of_Forall2_l _ _ _ _ Hgroups Hc) as (group & Hin & Hg). exists group. split; [done|].
    intros x Hx. rewrite !elem_of_app. left. right. left. apply elem_of_concat. by exists group.
  - intros f Hf. rewrite !elem_of_app. left. right. right. rewrite (pr_table _ _ Hr).
    by apply (list_elem_of_fmap_2 (λ f, head_action t (head_fence (fe_entity_id f) (fe_head f)))).
  - intros o ->. destruct Hputs as (x & Hx & ->). exists x. split; [done|]. rewrite !elem_of_app. right.
    by apply list_elem_of_singleton.
  - rewrite (pr_table _ _ Hr). intros x. rewrite !elem_of_app.
    intros [[[[Hx|Hx]|Hx]|[Hx|Hx]]|Hx].
    + right. right. left. apply elem_of_cons in Hx as [->|Hx%list_elem_of_singleton]; [|by subst].
      unfold marker_check. by destruct validated.
    + right. right. right. intros key. by apply off_place, Hops.
    + right. right. right. intros key. by apply off_place, Hviews.
    + left. apply elem_of_concat in Hx as (group & Hx & Hin).
      destruct (elem_of_Forall2_r _ _ _ _ Hgroups Hin) as (c & Hc & Hg). exists c. split; [done|]. by apply Hg.
    + right. right. left. apply list_elem_of_fmap in Hx as (f & -> & _). unfold head_action, head_fence.
      by destruct (fe_head f <=? 0).
    + right. left. destruct outcome as [o|]; [|subst; by apply not_elem_of_nil in Hx].
      destruct Hputs as (y & Hy & ->). apply list_elem_of_singleton in Hx as ->. by exists o.
Qed.
End built.

(** ** Writers *)

(** What a write does to the log. *)
Record Effect := mkEffect { ef_streams : list DCommit; ef_fences : list ReadFence; ef_outcome : option Outcome }.

(** The calls that write the log. *)
Inductive Write :=
| WCommit (commit : DCommit)
| WTransaction (commit : DTransaction)
| WSnapshot (snapshot : SerializedSnapshot)
| WCompact (entity_id : EntityId) (through : EventSequence).

Section writes.
Context `{SerdeJson} (text : SdkError → string).

Definition effect_of (w : Write) : option Effect :=
  match w with
  | WCommit c =>
      if nil_b (cm_events c) && match cm_outcome c with None => true | Some _ => false end then None
      else Some (mkEffect [c] [] (stored_outcome c))
  | WTransaction c =>
      match normalize c with
      | Ok c => if transaction_is_empty c then None
                else Some (mkEffect (tc_streams c) (tc_fences c) (transaction_stored_outcome c))
      | Err _ => None
      end
  | WSnapshot _ | WCompact _ _ => None
  end.

Definition write_prog (r : DynamoRepository) (fuel : nat) (w : Write) : DProg unit :=
  match w with
  | WCommit c => dynamo_commit text r fuel c
  | WTransaction c => dynamo_commit_transaction text r fuel c
  | WSnapshot sn => await? written := dynamo_put_snapshot text r fuel sn in Ret (Ok tt)
  | WCompact id through => await? deleted := dynamo_compact_below text r fuel id through in Ret (Ok tt)
  end.

(** The caller's own operations are on other tables. *)
Definition writes_off (t : string) (w : Write) : Prop :=
  match w with
  | WCommit c => Forall (off t) (cm_operations c)
  | WTransaction c => Forall (off t) (tc_operations c) ∧ Forall (λ s, Forall (off t) (cm_operations s)) (tc_streams c)
  | WSnapshot _ | WCompact _ _ => True
  end.
End writes.

Section ghost.
Context `{SerdeJson} {W : Type} `{!DynamoWorld W, !DynamoExpressions, !ExpressionLaws, !Handles DynamoCall W, !DynamoService W}.
Context (t : string) (a0 : Abs) (effect : nat → option Effect).

(** The order of the applied commits and the log they make. *)
Inductive history : list nat → Abs → Prop :=
| history_nil : history [] a0
| history_snoc order a i e :
    history order a → i ∉ order → effect i = Some e → fits (ef_streams e) (ef_fences e) (ef_outcome e) a →
    abs_step a (abs_after a (ef_streams e) (ef_outcome e)) →
    history (order ++ [i]) (abs_after a (ef_streams e) (ef_outcome e)).

Lemma history_NoDup order a : history order a → NoDup order.
Proof.
  induction 1 as [|order a i e _ IH Hi]; [constructor|]. apply NoDup_app. split; [done|]. split.
  - intros x Hx ->%list_elem_of_singleton. done.
  - apply NoDup_singleton.
Qed.

Abbreviation Ghost := (W * (list nat * Abs))%type.
Implicit Types (g : Ghost).

Definition advance (i : nat) (x : list nat * Abs) : list nat * Abs :=
  match effect i with
  | Some e => (x.1 ++ [i], abs_after x.2 (ef_streams e) (ef_outcome e))
  | None => x
  end.

(** What a transaction of client [i] does to the order and the log. *)
Definition transacted_ghost (i : nat) (items : list TransactWriteItem) g (b : result unit SdkError) g' : Prop :=
  (tables g'.1 = tables g.1 ∧ g'.2 = g.2 ∧ b ≠ Ok tt) ∨
  (applicable (tables g.1) items ∧ tables g'.1 = apply_actions (tables g.1) items ∧ g'.2 = advance i g.2 ∧
   ∀ err, b = Err err → result_unknown err).

Definition ghost_step (i : nat) {B} (q : DynamoCall B) g : B → Ghost → Prop :=
  match q in DynamoCall B return B → Ghost → Prop with
  | TransactWriteItems items => λ b g', transacted_ghost i items g b g'
  | _ => λ _ g', g'.2 = g.2
  end.

#[local] Instance ghost_handles (i : nat) : Handles DynamoCall Ghost :=
  λ B q g b g', performs q g.1 b g'.1 ∧ ghost_step i q g b g'.

Lemma ghost_law i g B (q : DynamoCall B) b w' :
  performs q g.1 b w' → ∃ g', g'.1 = w' ∧ @performs _ _ (ghost_handles i) _ q g b g'.
Proof.
  intros Hq. destruct q; try (exists (w', g.2); split; [done|by split]).
  pose proof (ds_transact _ _ _ _ Hq) as Ht. inversion Ht as [Happ Hb Hts|err Hreasons Hb Hts|err Hun Happ Hb Hts]; subst.
  - exists (w', advance i g.2). split; [done|]. split; [done|]. right. by split_and!.
  - exists (w', g.2). split; [done|]. split; [done|]. left. by split_and!.
  - exists (w', advance i g.2). split; [done|]. split; [done|]. right. split_and!; [done|done|done|]. by intros err' [= <-].
Qed.

(** The invariant, and what clients may do. *)
Definition log_inv g : Prop := on_table t g.2.2 (tables g.1) ∧ history g.2.1 g.2.2.
Definition log_le g g' : Prop := snapshots_advance t (tables g.1) (tables g'.1).

#[export] Instance log_le_preorder : PreOrder log_le.
Proof.
  split; [intros g; apply snapshots_advance_preorder|]. intros g1 g2 g3 Ha Hb. unfold log_le in *. by etrans.
Qed.

Definition log_rely (i : nat) g g' : Prop := log_le g g' ∧ (i ∈ g'.2.1 ↔ i ∈ g.2.1).
Definition log_guar (i : nat) g g' : Prop := log_le g g' ∧ ∀ j, j ≠ i → j ∈ g'.2.1 ↔ j ∈ g.2.1.

#[export] Instance log_rely_preorder i : PreOrder (log_rely i).
Proof.
  split; [intros g; by split|]. intros g1 g2 g3 [Ha Hb] [Hc Hd]. split; [by etrans|]. by rewrite Hd.
Qed.

Definition log_role (i : nat) : Role log_le :=
  mkRoleOf (log_rely i) (log_guar i) True (log_rely_preorder i) (λ _ _ Hr, proj1 Hr) (λ _ _ Hg, proj1 Hg).

Lemma quiet_step i g B (q : DynamoCall B) b g' :
  quiet q → log_inv g → @performs _ _ (ghost_handles i) _ q g b g' → g'.2 = g.2 ∧ log_inv g' ∧ log_le g g'.
Proof.
  intros Hquiet [Hon Hh] [Hq Hg].
  assert (g'.2 = g.2) as Heq by (by destruct q). split; [done|]. unfold log_inv, log_le. rewrite Heq.
  assert (on_table t g.2.2 (tables g'.1) ∧ snapshots_advance t (tables g.1) (tables g'.1)) as [? ?]; [|by split_and!].
  destruct q; try (rewrite (ds_reads _ _ _ _ _ Hq Hquiet); by split); try done.
  cbn [quiet] in Hquiet.
  destruct (ds_put _ _ _ _ _ _ _ Hq) as [->|(key & Hkey & ->)]; [by split|]. rewrite Hquiet in Hkey. injection Hkey as <-.
  destruct (decide (table = t)) as [->|Hne]; [by apply manifest_on_table|by apply other_table_on_table].
Qed.

(** A quiet program leaves the log and its client's place in the order. *)
Lemma quietly_assures i {A} (p : Tree DynamoCall A) (Q : A → Prop) g :
  log_inv g → quietly p Q →
  @assures _ _ (ghost_handles i) log_inv log_le (log_role i) A p (λ a g', Q a ∧ (i ∈ g'.2.1 ↔ i ∈ g.2.1)) g.
Proof.
  revert g. induction p as [a|B q k IH| |]; intros g Hg Hp; [|change (Ask q k) with (bind (call q) k)|done|done].
  { returns. by split. }
  destruct Hp as [Hq Hk]. apply assures_bind; [apply _|]. apply assures_call; [apply _|done|].
  intros g1 b g2 Hg1 [Hle Hin] Hstep. destruct (quiet_step i g1 B q b g2 Hq Hg1 Hstep) as (Heq & Hg2 & Hle2).
  split; [done|]. split; [split; [done|]; intros j _; by rewrite Heq|].
  eapply assures_mono, (IH b g2 Hg2 (Hk b)). intros a g3 _ _ [HQ Hin3]. split; [done|]. by rewrite Hin3, Heq.
Qed.

(** ** Commits *)

(** What a client is told of its commit: applied if it succeeded; if it failed and was applied
    nonetheless, the error says so: the result is indeterminate, or unknown when the commit carries
    no outcome by which it could be determined. *)
Definition told (i : nat) {A} (x : result A Error) g : Prop :=
  match x with
  | Ok _ => effect i ≠ None → i ∈ g.2.1
  | Err error => i ∈ g.2.1 → ∃ e box, effect i = Some e ∧
      error = match ef_outcome e with Some _ => Indeterminate box | None => Types.Backend box end
  end.

Abbreviation does i p Q g := (@assures _ _ (ghost_handles i) log_inv log_le (log_role i) _ p Q g).

Lemma told_error i {A} error g : i ∉ g.2.1 → told i (Err error : result A Error) g.
Proof. by intros Hi Hin. Qed.

(** A quiet program of a client that has not committed, up to an error. *)
Lemma quiet_try_does i {A C} (p : DProg A) (f : A → DProg C) (P : A → Prop) (Q : result C Error → Ghost → Prop) g :
  log_inv g → i ∉ g.2.1 → quietly p (λ x, ∀ a, x = Ok a → P a) →
  (∀ a g', log_inv g' → log_le g g' → i ∉ g'.2.1 → P a → does i (f a) Q g') →
  (∀ error g', log_le g g' → i ∉ g'.2.1 → Q (Err error) g') → does i (try_bind p f) Q g.
Proof.
  intros Hg Hi Hp Hf He. step_try. eapply assures_mono, (quietly_assures i p _ g Hg Hp).
  intros [a|e] g' Hg' Hle [HP Hin]; cbv beta in HP, Hin.
  - apply Hf; [done|done|by rewrite Hin|by apply HP].
  - apply He; [done|by rewrite Hin].
Qed.

Lemma still_try_does i {A C} (p : DProg A) (f : A → DProg C) (P : A → Prop) g :
  log_inv g → i ∉ g.2.1 → quietly p (λ x, ∀ a, x = Ok a → P a) →
  (∀ a g', log_inv g' → log_le g g' → i ∉ g'.2.1 → P a → does i (f a) (told i) g') → does i (try_bind p f) (told i) g.
Proof. intros Hg Hi Hp Hf. eapply quiet_try_does; [done..|]. intros error g' _. apply told_error. Qed.

Lemma still_quietly {A} (p : DProg A) : still p → quietly p (λ x, ∀ a, x = Ok a → True).
Proof. apply quietly_mono. done. Qed.

Lemma pure_does i {A C} (x : Result A) (f : A → DProg C) g :
  log_inv g → i ∉ g.2.1 → (∀ a, x = Ok a → does i (f a) (told i) g) → does i (try_bind (Ret x) f) (told i) g.
Proof. intros Hg Hi Hf. destruct x as [a|e]; [by apply Hf|]. returns. by apply told_error. Qed.

Section commit.
Context (text : SdkError → string) (r : DynamoRepository) (Hr : plain_repository t r) (i : nat) (e : Effect).
Context (He : effect i = Some e) (Hok : Forall commit_ok (ef_streams e)) (Hnd : NoDup (map cm_entity_id (ef_streams e))).
Abbreviation sends items := (commit_actions r (ef_streams e) (ef_fences e) (ef_outcome e) items).

Lemma dynamo_commit_step items g b g' :
  sends items → log_inv g → i ∉ g.2.1 → @performs _ _ (ghost_handles i) _ (TransactWriteItems items) g b g' →
  log_inv g' ∧ log_guar i g g' ∧
  ((b ≠ Ok tt ∧ i ∉ g'.2.1) ∨ (i ∈ g'.2.1 ∧ ∀ err, b = Err err → result_unknown err)).
Proof.
  intros Hsends [Hon Hh] Hi [_ Hq]. pose proof (pr_table _ _ Hr) as Ht.
  destruct Hq as [(Hts & Hgh & Hb)|(Happ & Hts & Hgh & Hb)]; unfold log_inv, log_guar, log_le; rewrite Hts, Hgh.
  - split; [done|]. split; [done|]. by left.
  - unfold advance. rewrite He. cbn [fst snd]. rewrite <-Ht in Hon |- *. split; [split|split; [split|]].
    + by eapply write_on_table.
    + apply history_snoc; [done|done|done|by eapply write_fits|by eapply write_abs_step].
    + by eapply write_snapshots.
    + intros j Hj. rewrite elem_of_app, list_elem_of_singleton. naive_solver.
    + right. split; [|done]. apply elem_of_app. right. by apply list_elem_of_singleton.
Qed.

Lemma no_stream_verdicts streams fuel : stream_verdicts text r streams [] fuel = Ret (Ok []).
Proof.
  induction streams as [|stream streams IH]; [done|]. cbn [stream_verdicts]. unfold stream_verdict.
  change (condition_failed_at [] (sl_head stream)) with false. cbv iota.
  assert (∀ l, existsb (condition_failed_at []) l = false) as -> by (by induction l).
  destruct (sl_snapshot stream); cbn [try_bind bind]; by rewrite IH.
Qed.

Lemma no_fence_verdicts fences fuel : fence_verdicts text r fences [] fuel = Ret (Ok []).
Proof. induction fences as [|[index fence] fences IH]; [done|]. cbn [fence_verdicts]. done. Qed.

Lemma no_failed_view layout : failed_view layout [] = None.
Proof. unfold failed_view. induction (ly_views layout) as [|v views IH]; [done|]. cbn [omap list_omap] in *. done. Qed.

(** An error that leaves it open whether the commit was applied is reported as such. *)
Lemma unknown_result layout outcome err again fuel :
  result_unknown err →
  commit_failed text r layout outcome err again fuel =
  Ret (Err match outcome with
           | Some _ => Indeterminate (sdk_box text err)
           | None => Types.Backend (sdk_box text err)
           end).
Proof.
  intros (Hun & Hth & Hcodes). unfold commit_failed, classify_commit_failure, classify_rest, classify_transaction_error.
  rewrite Hcodes, no_stream_verdicts, no_fence_verdicts. cbn [bind app rank failed_items imap omap list_omap head].
  destruct outcome as [o|]; cbn -[failed_view]; [|by rewrite no_failed_view, Hth].
  destruct (ly_outcome layout); cbn -[failed_view]; by rewrite no_failed_view, Hth, Hun.
Qed.

Lemma sent_does items layout again fuel g :
  sends items → log_inv g → i ∉ g.2.1 →
  (∀ p g', again = Some p → log_inv g' → i ∉ g'.2.1 → does i p (told i) g') →
  does i (await sent := call (TransactWriteItems items) in
          match sent with
          | Ok _ => await noted := note_committed r (ly_streams layout) in Ret (Ok tt)
          | Err err => commit_failed text r layout (ef_outcome e) err again fuel
          end) (told i) g.
Proof.
  intros Hsends Hg Hi Hagain. step_bind. apply assures_call; [apply _|done|].
  intros g1 b g2 Hg1 [Hle Hin] Hq. rewrite <-Hin in Hi.
  destruct (dynamo_commit_step items g1 b g2 Hsends Hg1 Hi Hq) as (Hg2 & Hguar & Hb). split; [done|]. split; [done|].
  destruct Hb as [[Hb Hi2]|[Hi2 Hb]].
  - destruct b as [[]|err]; [done|]. unfold commit_failed. cbv zeta.
    assert (∀ x, does i (Ret (Err x) : DProg unit) (told i) g2) as Herr by (intros x; returns; by apply told_error).
    assert (∀ carries, does i (await error := classify_commit_failure text r layout carries err fuel in Ret (Err error) : DProg unit)
      (told i) g2) as Hclass.
    { intros carries. step_bind. eapply assures_mono, quietly_assures; [|done|apply classify_still].
      intros x g3 Hg3 _ [_ Hin3]. returns. apply told_error. by rewrite Hin3. }
    destruct (bool_decide _).
    + destruct again as [p|]; [|done]. step_bind.
      eapply assures_mono, (quietly_assures i _ (λ _, True)); [|done|done].
      intros x g3 Hg3 _ [_ Hin3]. apply (Hagain p); [done|done|]. by rewrite Hin3.
    + destruct (rebuild_lock_failed _); [done|]. destruct (ef_outcome e); [|done]. by destruct (outcome_put_failed _ _).
  - destruct b as [[]|err].
    + step_bind. eapply assures_mono, quietly_assures; [|done|apply note_committed_still].
      intros x g3 Hg3 _ [_ Hin3]. returns. intros _. by rewrite Hin3.
    + rewrite unknown_result by (by apply Hb). returns. intros _. exists e, (sdk_box text err). split; [done|].
      by destruct (ef_outcome e).
Qed.
End commit.

Section commits.
Context (text : SdkError → string) (r : DynamoRepository) (Hr : plain_repository t r) (i : nat).

Lemma commit_loop_does c views fuel rounds g :
  effect i = Some (mkEffect [c] [] (stored_outcome c)) → commit_ok c →
  Forall (off t) (cm_operations c) → Forall (off t) views → log_inv g → i ∉ g.2.1 →
  does i (commit_loop text r c (stored_outcome c) views fuel rounds) (told i) g.
Proof.
  intros He Hok Hops Hviews. revert g. induction rounds as [|rounds IH]; intros g Hg Hi; cbn [commit_loop];
    (apply (still_try_does i _ _ (λ _, True)); [done|done|apply still_quietly, validated_still|]);
    intros validated g1 Hg1 _ Hi1 _; (eapply still_try_does; [done|done|by eapply push_group_ok|]);
    intros built g2 Hg2 _ Hi2 (group & Hgroup & Hb); (apply pure_does; [done|done|]);
    intros built' (puts & Hb' & Hputs)%push_outcome_items;
    (apply (sent_does text r Hr i _ He); [by apply Forall_singleton|by apply NoDup_singleton| |done|done|]).
  1,3: replace built'.1 with (((([marker_check r validated; rebuild_lock_check r] ++ cm_operations c) ++ views) ++
      concat [group] ++ map (λ f, head_action t (head_fence (fe_entity_id f) (fe_head f))) []) ++ puts)
    by (rewrite Hb', Hb; simpl; by rewrite !app_nil_r);
    apply sent_actions; [done|done|done|by constructor|done].
  - done.
  - intros p g3 [= <-] Hg3 Hi3. by apply IH.
Qed.

Lemma transaction_loop_does c views fuel rounds g :
  effect i = Some (mkEffect (tc_streams c) (tc_fences c) (transaction_stored_outcome c)) →
  Forall commit_ok (tc_streams c) → NoDup (map cm_entity_id (tc_streams c)) →
  Forall (off t) (tc_operations c) → Forall (off t) views → log_inv g → i ∉ g.2.1 →
  does i (transaction_loop text r c (transaction_stored_outcome c) views fuel rounds) (told i) g.
Proof.
  intros He Hok Hnd Hops Hviews. revert g.
  assert (still (if nil_b (tc_fences c) then Ret (Ok tt)
    else await? manifest := dynamo_read_manifest text r in Ret (check_retention c manifest (retains r)))) as Hret.
  { destruct (nil_b _); [done|]. apply still_try; [apply read_manifest_still|done]. }
  set (built_ok := λ validated (b : Built), ∃ groups, Forall2 (group_of r) (tc_streams c) groups ∧
    b.1 = (([marker_check r validated; rebuild_lock_check r] ++ tc_operations c) ++ views) ++
      concat groups ++ map (λ f, head_action t (head_fence (fe_entity_id f) (fe_head f))) (tc_fences c)).
  assert (∀ validated, quietly (transaction_stream_items_with r c validated views)
    (λ x, ∀ b, x = Ok b → built_ok validated b)) as Hbuilt.
  { intros validated. eapply quietly_try; [by eapply push_groups_ok| |done].
    intros b (groups & Hgroups & Hb) b' [= <-]. exists groups. split; [done|].
    rewrite (push_fences_items t r Hr), Hb. by rewrite <-app_assoc. }
  induction rounds as [|rounds IH]; intros g Hg Hi; cbn [transaction_loop];
    (apply (still_try_does i _ _ (λ _, True)); [done|done|apply still_quietly, validated_still|]);
    intros validated g1 Hg1 _ Hi1 _; (apply (still_try_does i _ _ (λ _, True)); [done|done|by apply still_quietly|]);
    intros [] g2 Hg2 _ Hi2 _; (eapply still_try_does; [done|done|apply Hbuilt|]);
    intros built g3 Hg3 _ Hi3 (groups & Hgroups & Hb); (apply pure_does; [done|done|]);
    intros built' (puts & Hb' & Hputs)%push_outcome_items;
    (apply (sent_does text r Hr i _ He); [done|done| |done|done|]).
  1,3: rewrite Hb', Hb; apply sent_actions; done.
  - done.
  - intros p g4 [= <-] Hg4 Hi4. by apply IH.
Qed.

Lemma commit_does fuel c g :
  effect i = effect_of (WCommit c) → writes_off t (WCommit c) → log_inv g → i ∉ g.2.1 →
  does i (dynamo_commit text r fuel c) (told i) g.
Proof.
  intros He Hoff Hg Hi. unfold dynamo_commit. apply pure_does; [done|done|].
  intros [] [Hv Hres]%check_bind_ok. unfold check_not_reserved in Hres. destruct (is_reserved _) eqn:Hrs; [done|].
  cbn [effect_of] in He. destruct (_ && _); [returns; by intros []|].
  apply pure_does; [done|done|]. intros views Hviews%(view_items_off t r Hr).
  apply (still_try_does i _ _ (λ _, True)); [done|done|apply still_quietly, commit_sizes_still|].
  intros sizes g1 Hg1 _ Hi1 _. apply pure_does; [done|done|]. intros fits _.
  apply commit_loop_does; [done|by apply validate_commit_ok|done|done|done|done].
Qed.

Lemma normalized_off c c' : normalize c = Ok c' → writes_off t (WTransaction c) → Forall (off t) (tc_operations c').
Proof.
  unfold normalize. rewrite !check_bind_ok. intros (_ & _ & _ & _ & Hn) [Hops Hstreams].
  destruct (_ && _); [done|]. apply check_bind_ok in Hn as [_ Hn]. injection Hn as <-. cbn [tc_operations].
  apply Forall_app. split; [|done]. apply Forall_concat, Forall_fmap, Forall_forall.
  intros s [Hs _]%elem_of_list_filter. rewrite Forall_forall in Hstreams. by apply Hstreams.
Qed.

Lemma transaction_does fuel c g :
  effect i = effect_of (WTransaction c) → writes_off t (WTransaction c) → log_inv g → i ∉ g.2.1 →
  does i (dynamo_commit_transaction text r fuel c) (told i) g.
Proof.
  intros He Hoff Hg Hi. unfold dynamo_commit_transaction. apply pure_does; [done|done|]. intros c' Hn.
  pose proof (normalized_off c c' Hn Hoff) as Hops. cbn [effect_of] in He. rewrite Hn in He. apply normalize_ok in Hn as Hnz.
  destruct (transaction_is_empty c'); [returns; by intros []|].
  apply pure_does; [done|done|]. intros views Hviews%(view_items_off t r Hr).
  apply (still_try_does i _ _ (λ _, True)); [done|done|apply still_quietly, transaction_sizes_still|].
  intros sizes g1 Hg1 _ Hi1 _. apply pure_does; [done|done|]. intros fits _. apply pure_does; [done|done|]. intros ret _.
  apply transaction_loop_does; [done|by eapply normalized_commit_ok|apply Hnz|done|done|done|done].
Qed.

(** ** Snapshots and compaction *)

Context (He : effect i = None).

Lemma upkeep_call items {A} (k : result unit SdkError → DProg A) (Q : result A Error → Ghost → Prop) g :
  log_inv g → i ∉ g.2.1 →
  (∀ g1, log_inv g1 → log_le g g1 → applicable (tables g1.1) items →
     on_table t g1.2.2 (apply_actions (tables g1.1) items) ∧
     snapshots_advance t (tables g1.1) (apply_actions (tables g1.1) items)) →
  (∀ b g', log_inv g' → log_le g g' → i ∉ g'.2.1 → does i (k b) Q g') →
  does i (await sent := call (TransactWriteItems items) in k sent) Q g.
Proof.
  intros Hg Hi Heffect Hk. step_bind. apply assures_call; [apply _|done|]. intros g1 b g2 Hg1 [Hle Hin] [_ Hq].
  rewrite <-Hin in Hi.
  assert (g2.2 = g1.2 ∧ on_table t g1.2.2 (tables g2.1) ∧ log_le g1 g2) as (Heq & Hon & Hle2).
  { unfold log_le. destruct Hq as [(Hts & Hgh & _)|(Happ & Hts & Hgh & _)]; rewrite Hts.
    - split; [done|]. split; [apply Hg1|done].
    - unfold advance in Hgh. rewrite He in Hgh. split; [done|]. by apply Heffect. }
  assert (log_inv g2) as Hg2 by (unfold log_inv; rewrite Heq; split; [done|apply Hg1]).
  split; [done|]. split; [split; [done|]; intros j _; by rewrite Heq|].
  apply Hk; [done|by etrans|by rewrite Heq].
Qed.

Lemma still_does {A} (p : DProg A) g : log_inv g → i ∉ g.2.1 → still p → does i p (told i) g.
Proof.
  intros Hg Hi Hp. eapply assures_mono, (quietly_assures i p _ g Hg Hp). intros [x|error] g' _ _ [_ Hin].
  - by intros Hx.
  - apply told_error. by rewrite Hin.
Qed.

Lemma snapshot_drift_still sn : still (snapshot_drift text r sn).
Proof.
  unfold snapshot_drift. apply still_try; [apply read_head_still|]. intros st.
  apply still_try; [apply derive_head_still|done].
Qed.

Lemma put_snapshot_loop_does sn item fuel guards rounds g :
  is_reserved (sn_entity_id sn) = false → snapshot_item sn None = Ok item → log_inv g → i ∉ g.2.1 →
  let guard := snapshot_cover (sn_entity_id sn) (sn_event_sequence sn) in
  does i (put_snapshot_loop text r sn
    (put_action (dr_table r) item (Some PUT_SNAPSHOT_CONDITION) [(":new"%string, an (sn_event_sequence sn))])
    None guard fuel guards rounds guard) (told i) g.
Proof.
  intros Hres Hitem Hg Hi guard. revert g Hg Hi.
  assert (∀ validated g, log_inv g → let items := snapshot_items r validated guard
    (put_action (dr_table r) item (Some PUT_SNAPSHOT_CONDITION) [(":new"%string, an (sn_event_sequence sn))]) in
    applicable (tables g.1) items → on_table t g.2.2 (apply_actions (tables g.1) items) ∧
    snapshots_advance t (tables g.1) (apply_actions (tables g.1) items)) as Hstep.
  { intros validated g [Hon _] items Happ. unfold items, snapshot_items in *. rewrite (pr_table _ _ Hr) in Happ |- *.
    eapply snapshot_on_table; [apply _|exact Hon|exact Hres|exact Hitem| |exact Happ]. unfold marker_check. by destruct validated. }
  assert (∀ (x : Error) g, log_inv g → i ∉ g.2.1 → does i (Ret (Err x) : DProg bool) (told i) g) as Herr
    by (intros; returns; by apply told_error).
  induction rounds as [|rounds IH]; intros g Hg Hi; destruct guards as [|guards]; cbn [put_snapshot_loop];
    (apply (still_try_does i _ _ (λ _, True)); [done|done|apply still_quietly, validated_still|]);
    intros validated g1 Hg1 _ Hi1 _; (apply upkeep_call; [done|done|intros g2 Hg2 _; by apply Hstep|]);
    intros [[]|err] g2 Hg2 _ Hi2; try (returns; by intros []); cbv zeta;
    (destruct (condition_failed_at _ 0);
      [step_bind; eapply assures_mono, (quietly_assures i _ (λ _, True)); [|done|done];
       intros x g3 Hg3 _ [_ Hin3]; cbv beta; first [apply IH|apply Herr]; [done|by rewrite Hin3]|]);
    (destruct (condition_failed_at _ 1); [apply still_does; [done|done|apply snapshot_drift_still]|]);
    (destruct (condition_failed_at _ 2); [returns; by intros []|by apply Herr]).
Qed.

Lemma put_snapshot_does fuel sn g :
  log_inv g → i ∉ g.2.1 → does i (dynamo_put_snapshot text r fuel sn) (told i) g.
Proof.
  intros Hg Hi. unfold dynamo_put_snapshot. apply pure_does; [done|done|]. intros [] Hres.
  unfold check_not_reserved in Hres. destruct (is_reserved _) eqn:Hrs; [done|].
  unfold snapshot_parts. rewrite (no_ttl t r Hr). cbn [bind].
  destruct (snapshot_item sn None) as [item|error] eqn:Hitem; [|returns; by apply told_error].
  cbn [try_bind bind]. by apply put_snapshot_loop_does.
Qed.

(** A stream whose snapshot covers a sequence. *)
Definition covered (id : EntityId) (through : Z) g : Prop := ∃ z, covers t (tables g.1) id z ∧ through ≤ z.

Lemma covered_le id through g g' : is_reserved id = false → log_le g g' → covered id through g → covered id through g'.
Proof.
  intros Hres Hle (z & Hz & Hthrough). destruct (Hle id z Hres Hz) as (z' & Hz' & Hle'). exists z'. split; [done|lia].
Qed.

Lemma snapshot_covers a ts id item sn :
  on_table t a ts → is_reserved id = false → stored t ts id SNAPSHOT_SORT_KEY = Some item →
  snapshot_from_item (from_sdk_item item) = Ok sn → 1 ≤ sn_event_sequence sn → covers t ts id (sn_event_sequence sn).
Proof.
  intros Hon Hres Hs Hsn Hone. unfold snapshot_from_item in Hsn.
  apply result_bind_ok in Hsn as (type & _ & Hsn). apply result_bind_ok in Hsn as (pk & _ & Hsn).
  apply result_bind_ok in Hsn as (sequence & _ & Hsn). apply result_bind_ok in Hsn as (covered & Hc & Hsn).
  apply result_bind_ok in Hsn as (payload & _ & [= <-]). cbn [sn_event_sequence] in *.
  pose proof (so_covered _ _ _ _ (ot_stream _ _ _ Hon id Hres)) as Hcov. unfold covers. rewrite Hs in Hcov |- *.
  cbn [attribute] in *. unfold optional_number, from_sdk_item in Hc. rewrite lookup_fmap in Hc.
  destruct (item !! "eventSeq"%string) as [v|]; [|injection Hc as <-; simpl in Hone; lia].
  destruct (Hcov v eq_refl) as (z & -> & _). cbn [fmap option_fmap option_map from_sdk an] in Hc.
  rewrite parse_i64_shown in Hc. destruct (in_i64 z); [|done]. injection Hc as <-. done.
Qed.

Lemma read_snapshot_does id g :
  is_reserved id = false → log_inv g → i ∉ g.2.1 →
  does i (read_snapshot text r id true) (λ x g', i ∉ g'.2.1 ∧
    ∀ sn, x = Ok (Some sn) → 1 ≤ sn_event_sequence sn → covered id (sn_event_sequence sn) g') g.
Proof.
  intros Hres Hg Hi. unfold read_snapshot, send. step_try. apply assures_map_err; [apply _|].
  apply assures_call; [apply _|done|]. intros g1 b g2 Hg1 [Hle Hin] Hq. rewrite <-Hin in Hi.
  assert (quiet (GetItem (dr_table r) true (stream_key id SNAPSHOT_SORT_KEY) None ∅)) as Hquiet by exact I.
  destruct (quiet_step i g1 _ _ b g2 Hquiet Hg1 Hq) as (Heq & Hg2 & Hle2). rewrite <-Heq in Hi.
  split; [done|]. split; [split; [done|]; intros j _; by rewrite Heq|].
  destruct b as [item|err]; cbn [map_err]; [|by split].
  pose proof (ds_reads _ _ _ _ _ (proj1 Hq) Hquiet) as Hts. pose proof (ds_get _ _ _ _ _ _ _ (proj1 Hq)) as Hread.
  cbn [reads] in Hread. rewrite place_stream_key, (pr_table _ _ Hr), <-Hts in Hread. cbn [at_place] in Hread.
  destruct item as [item|]; cbn [present]; [|returns; by split]. destruct (bool_decide _); [returns; by split|]. cbv zeta.
  step_bind. eapply assures_mono, quietly_assures; [|done|apply note_item_still]. intros [] g3 Hg3 Hle3 [_ Hin3].
  returns. split; [by rewrite Hin3|]. intros sn Hsn Hone.
  destruct (snapshot_from_item (from_sdk_item item)) as [sn'|] eqn:Hs; [|done]. injection Hsn as ->.
  eapply covered_le; [done|done|]. exists (sn_event_sequence sn). split; [|done]. destruct Hg2 as [Hon2 _].
  by eapply snapshot_covers.
Qed.

Abbreviation in_range id through := (Forall (λ key, ∃ n, key = stream_key id n ∧ 1 ≤ n ≤ through)).

Lemma between_keys id through items :
  Forall (between id 1 through) items → in_range id through (omap item_key items).
Proof.
  intros Hb. apply Forall_forall. intros key (item & Hin & Hkey)%list_elem_of_omap.
  rewrite Forall_forall in Hb. destruct (Hb item Hin) as [Hpk Hsk]. unfold item_key in Hkey.
  destruct (item !! "pk"%string) as [pk|]; [|done]. destruct (item !! "sk"%string) as [sk|]; [|done].
  injection Hkey as <-. rewrite (Hpk pk eq_refl). destruct (Hsk sk eq_refl) as (z & -> & Hz). by exists z.
Qed.

Lemma event_keys_does id through fuel keys start g :
  in_range id through keys → log_inv g → i ∉ g.2.1 →
  does i (event_keys_through text r id through fuel keys start)
    (λ x g', i ∉ g'.2.1 ∧ ∀ keys', x = Ok keys' → in_range id through keys') g.
Proof.
  revert keys start g. induction fuel as [|fuel IH]; intros keys start g Hkeys Hg Hi; [done|]. cbn [event_keys_through].
  unfold send. step_try. apply assures_map_err; [apply _|]. apply assures_call; [apply _|done|].
  intros g1 b g2 Hg1 [Hle Hin] Hq. rewrite <-Hin in Hi.
  assert (∀ request, quiet (Query request)) as Hquiet by done.
  destruct (quiet_step i g1 _ _ b g2 (Hquiet _) Hg1 Hq) as (Heq & Hg2 & Hle2). rewrite <-Heq in Hi.
  split; [done|]. split; [split; [done|]; intros j _; by rewrite Heq|].
  destruct b as [page|err]; cbn [map_err]; [|by split]. cbv zeta.
  pose proof (ds_between _ id 1 through _ _ _ (proj1 Hq) eq_refl eq_refl eq_refl eq_refl) as Hb.
  assert (in_range id through (keys ++ omap item_key (pg_items page))) as Hkeys'
    by (apply Forall_app; split; [done|by apply between_keys]).
  destruct (next_key page) as [key|]; [by apply IH|]. returns. split; [done|]. by intros keys' [= <-].
Qed.

(** An action that writes nothing. *)
Definition checks (x : TransactWriteItem) : Prop := ∀ ts, action_writes ts x = None.

Lemma compaction_check_ok sn : quietly (compaction_check text r sn) (λ x, ∀ a, x = Ok a → checks a).
Proof.
  unfold compaction_check. eapply quietly_try; [apply still_quietly, read_manifest_still| |done]. intros manifest _.
  destruct (validate_for_write r manifest) as [observed|]; [|done]. cbn [try_bind bind].
  destruct (match manifest with Some _ => _ | None => _ end); [done|]. by destruct observed; intros a [= <-].
Qed.

Section compaction.
Context (sn : SerializedSnapshot) (id : EntityId) (through : Z) (Hres : is_reserved id = false).

Lemma deletes_step keys check g g1 :
  in_range id through keys → covered id through g → checks check → log_inv g1 → log_le g g1 →
  let items := check :: map (λ key, TDelete (dr_table r) key None ∅ ∅) keys in
  applicable (tables g1.1) items →
  on_table t g1.2.2 (apply_actions (tables g1.1) items) ∧
  snapshots_advance t (tables g1.1) (apply_actions (tables g1.1) items).
Proof.
  intros Hkeys Hcov Hcheck [Hon _] Hle. rewrite (pr_table _ _ Hr). cbv zeta.
  destruct (covered_le id through g g1 Hres Hle Hcov) as (z & Hz & Hthrough).
  by apply (compaction_on_table t _ _ check id through keys z Hon Hres Hz Hthrough Hcheck Hkeys).
Qed.

Lemma delete_chunk_does keys rounds check g :
  in_range id through keys → covered id through g → checks check → log_inv g → i ∉ g.2.1 →
  does i (delete_chunk text r sn (map (λ key, TDelete (dr_table r) key None ∅ ∅) keys) rounds check)
    (λ x g', i ∉ g'.2.1 ∧ covered id through g' ∧ ∀ check, x = Ok check → checks check) g.
Proof.
  intros Hkeys. revert check g. induction rounds as [|rounds IH]; intros check g Hcov Hcheck Hg Hi;
    cbn [delete_chunk]; (apply upkeep_call; [done|done|intros g1 Hg1 Hle; by apply (deletes_step keys check g)|]);
    intros [[]|err] g1 Hg1 Hle1 Hi1; (eapply covered_le in Hcov; [|done|done]);
    try (returns; split; [done|split; [done|by intros ? [= <-]]]);
    (destruct (negb _); [by returns|]);
    (eapply quiet_try_does; [done|done|apply compaction_check_ok| |]);
    try (intros error g2 Hle2 Hi2; split; [done|split; [by eapply covered_le|done]]);
    intros check' g2 Hg2 Hle2 Hi2 Hcheck'; (eapply covered_le in Hcov; [|done|done]); [by returns|by apply IH].
Qed.

Lemma delete_chunks_does chunks check deleted g :
  Forall (in_range id through) chunks → covered id through g → checks check → log_inv g → i ∉ g.2.1 →
  does i (delete_chunks text r sn chunks check deleted) (told i) g.
Proof.
  intros Hchunks. revert check deleted g. induction Hchunks as [|chunk chunks Hchunk _ IH];
    intros check deleted g Hcov Hcheck Hg Hi; cbn [delete_chunks]; [returns; by intros []|].
  step_try. eapply assures_mono, delete_chunk_does; [|done..].
  intros [check'|error] g' Hg' _ (Hi' & Hcov' & Hc'); [|by apply told_error]. apply IH; [done|by apply Hc'|done|done].
Qed.

Lemma chunks_in_range n fuel keys : in_range id through keys → Forall (in_range id through) (chunks_of n fuel keys).
Proof.
  revert keys. induction fuel as [|fuel IH]; intros keys Hkeys; [constructor|]. cbn [chunks_of].
  destruct keys as [|key keys]; [constructor|]. constructor; [by apply Forall_take|]. by apply IH, Forall_drop.
Qed.
End compaction.

Lemma compact_does fuel id through g :
  log_inv g → i ∉ g.2.1 → does i (dynamo_compact_below text r fuel id through) (told i) g.
Proof.
  intros Hg Hi. unfold dynamo_compact_below. apply pure_does; [done|done|]. intros [] Hres.
  unfold check_not_reserved in Hres. destruct (is_reserved id) eqn:Hrs; [done|].
  destruct (Z.ltb_spec through 1) as [_|Hthrough]; [returns; by intros []|].
  apply (still_try_does i _ _ (λ _, True)); [done|done|apply still_quietly, read_manifest_still|].
  intros manifest g1 Hg1 _ Hi1 _. apply pure_does; [done|done|]. intros validated _.
  step_try. eapply assures_mono, read_snapshot_does; [|done..].
  intros [snapshot|error] g2 Hg2 _ (Hi2 & Hsn); [|by apply told_error]. cbv zeta.
  destruct snapshot as [sn|]; [|returns; by apply told_error].
  destruct (Z.ltb_spec (sn_event_sequence sn) through) as [_|Hle]; [returns; by apply told_error|].
  assert (covered id through g2) as Hcov.
  { destruct (Hsn sn eq_refl) as (z & Hz & Hz'); [lia|]. exists z. split; [done|lia]. }
  eapply still_try_does; [done|done|apply compaction_check_ok|]. intros check g3 Hg3 Hle3 Hi3 Hcheck.
  eapply covered_le in Hcov; [|done|done].
  step_try. eapply assures_mono, event_keys_does; [|constructor|done|done].
  intros [keys|error] g4 Hg4 Hle4 (Hi4 & Hkeys); [|by apply told_error]. eapply covered_le in Hcov; [|done|done].
  destruct (nil_b keys); [returns; by intros []|].
  eapply delete_chunks_does; [done|by apply chunks_in_range, Hkeys|done|done|done|done].
Qed.
End commits.

(** ** All writers together *)

(** Something else happens, which leaves the items of the table. *)
Definition elsewhere (w w' : W) : Prop := ∀ pk sk, stored t (tables w') pk sk = stored t (tables w) pk sk.

Lemma elsewhere_step i g w' : log_inv g → elsewhere g.1 w' → log_inv (w', g.2) ∧ log_rely i g (w', g.2).
Proof.
  intros [Hon Hh] He.
  destruct (kept_on_table t g.2.2 (tables g.1) (tables w') Hon) as [Hon' Hadv].
  - intros id Hres. by apply kept_same.
  - intros cid. apply He.
  - by split; [split|split].
Qed.

Lemma in_history order a i : history order a → i ∈ order → effect i ≠ None.
Proof.
  intros Hh Hi. induction Hh as [|order a j e _ IH _ He]; [by apply not_elem_of_nil in Hi|].
  apply elem_of_app in Hi as [Hi|Heq%list_elem_of_singleton]; [by apply IH|]. subst. by rewrite He.
Qed.

Lemma write_does text r fuel i (x : Write) g :
  plain_repository t r → writes_off t x → effect i = effect_of x → log_inv g → i ∉ g.2.1 →
  does i (write_prog text r fuel x) (told i) g.
Proof.
  intros Hr Hoff He Hg Hi. destruct x as [c|c|sn|id through]; cbn [write_prog].
  - by apply commit_does.
  - by apply transaction_does.
  - step_try. eapply assures_mono, (put_snapshot_does text r Hr i); [|done|done|done].
    intros [b|error] g' Hg' _ Hx; [|done]. returns. intros Hne. by rewrite He in Hne.
  - step_try. eapply assures_mono, (compact_does text r Hr i); [|done|done|done].
    intros [b|error] g' Hg' _ Hx; [|done]. returns. intros Hne. by rewrite He in Hne.
Qed.

Lemma told_later i {A} (x : result A Error) g g' : log_rely i g g' → told i x g → told i x g'.
Proof. intros [_ Hin] Ht. destruct x as [x|error]; intros Hx; [by apply Hin, Ht|by apply Ht, Hin]. Qed.
End ghost.

(** ** Properties *)

Section property.
Context `{SerdeJson} {W : Type} `{!DynamoWorld W, !DynamoExpressions, !ExpressionLaws, !Handles DynamoCall W, !DynamoService W}.

End property.
