(* ===== verification/DynamoSample.v ===== *)
(** * A DynamoDB to run on

    A service over a map of items that satisfies the contract: it evaluates the conditions of the
    log by their texts, applies transactions whole, and may lose the answer to one. The runs that
    accompany the property of the writers are on it. *)

From S2P Require Import Prelude Types Features Outcome Rebuild Wire Projection Repository RebuildBatch Samples Mem.
From S2P Require Import MemInvariant MemRefinement Program Dynamo DynamoLog DynamoClients.

(** ** Expressions *)

Definition number_of (value : option AttributeValue) : option Z :=
  match value with Some (AN text) => parse_i64 text | _ => None end.

Definition same_text (x y : option AttributeValue) : bool :=
  match x, y with Some (AN x), Some (AN y) => bool_decide (x = y) | _, _ => false end.

Definition at_most (x y : option AttributeValue) : bool :=
  match number_of x, number_of y with Some x, Some y => x <=? y | _, _ => false end.

Definition map_holds (condition : string) (names : Names) (values : Item) (item : option Item) : bool :=
  let absent name := match attribute item name with None => true | Some _ => false end in
  if bool_decide (condition = "attribute_not_exists(pk)"%string) then absent "pk"%string
  else if bool_decide (condition = "attribute_not_exists(sk)"%string) then absent "sk"%string
  else if bool_decide (condition = "attribute_not_exists(head)"%string) then absent "head"%string
  else if bool_decide (condition = FIRST_SNAPSHOT_CONDITION) then absent "seq"%string
  else if bool_decide (condition = NEXT_SNAPSHOT_CONDITION) then
    same_text (attribute item "seq") (values !! ":seq"%string)
  else if bool_decide (condition = "head = :prev"%string) then same_text (attribute item "head") (values !! ":prev"%string)
  else if bool_decide (condition = "head = :head"%string) then same_text (attribute item "head") (values !! ":head"%string)
  else if bool_decide (condition = HEAD_COVERS_CONDITION) then
    at_most (values !! ":new"%string) (attribute item "head")
  else if bool_decide (condition = HEAD_COVERS_OR_ABSENT_CONDITION) then
    absent "head"%string || at_most (values !! ":new"%string) (attribute item "head")
  else if bool_decide (condition = PUT_SNAPSHOT_CONDITION) then
    absent "eventSeq"%string || at_most (attribute item "eventSeq") (values !! ":new"%string)
  else if bool_decide (condition = MARKER_CONDITION) then
    absent "pk"%string || same_text (attribute item "version") (values !! ":v"%string)
  else if bool_decide (condition = OBSERVED_CONDITION) then
    same_text (attribute item "version") (values !! ":observed"%string)
  else false.

Definition map_updates (update : string) (names : Names) (values item : Item) : Item :=
  if bool_decide (update = HEAD_UPDATE) then
    match values !! ":last"%string with Some last => <["head"%string := last]> item | None => item end
  else item.

#[export] Instance map_expressions : DynamoExpressions := {| holds_of := map_holds; updates_to := map_updates |}.

Lemma at_most_shown x y : at_most (Some (an x)) (Some (an y)) = true → x ≤ y.
Proof.
  unfold at_most, number_of, an. rewrite !parse_i64_shown. destruct (in_i64 x), (in_i64 y); try done. apply Z.leb_le.
Qed.

Lemma same_text_shown x y : same_text (Some (an x)) (Some (an y)) = true → x = y.
Proof. unfold same_text, an. intros Hx%bool_decide_eq_true. by apply (inj pretty) in Hx. Qed.

Lemma holds_absent name names values item :
  name ∈ ["pk"; "sk"; "head"]%string →
  map_holds ("attribute_not_exists(" +:+ name +:+ ")") names values item =
  match attribute item name with None => true | Some _ => false end.
Proof.
  rewrite !elem_of_cons. intros [->|[->|[->|Hn]]]; [reflexivity..|by apply not_elem_of_nil in Hn].
Qed.

Lemma holds_equals placeholder names values item :
  placeholder ∈ [":prev"; ":head"]%string →
  map_holds ("head = " +:+ placeholder) names values item = same_text (attribute item "head") (values !! placeholder).
Proof. rewrite !elem_of_cons. intros [->|[->|Hn]]; [reflexivity..|by apply not_elem_of_nil in Hn]. Qed.

#[export] Instance map_laws : ExpressionLaws.
Proof.
  split; cbn [holds_of updates_to map_expressions].
  - intros name names values item Hname. rewrite holds_absent by done. by destruct (attribute item name).
  - intros placeholder names values item expected stored Hp. rewrite holds_equals by done. intros Hh Hv Ha.
    rewrite Hv, Ha in Hh. by apply same_text_shown.
  - intros placeholder names values item Hp. rewrite holds_equals by done. by destruct (attribute item "head").
  - intros names values item new stored Hh Hv Ha.
    change (at_most (values !! ":new"%string) (attribute item "head") = true) in Hh. rewrite Hv, Ha in Hh.
    by apply at_most_shown.
  - intros names values item Hh. change (at_most (values !! ":new"%string) (attribute item "head") = true) in Hh.
    unfold at_most in Hh. destruct (attribute item "head"); [done|]. by destruct (number_of _).
  - intros names values item new stored Hh Hv Ha.
    change (match attribute item "eventSeq" with None => true | Some _ => false end
      || at_most (attribute item "eventSeq") (values !! ":new"%string) = true) in Hh.
    rewrite Hv, Ha in Hh. by apply at_most_shown.
  - intros names values item last Hl. unfold map_updates. rewrite bool_decide_true by done. by rewrite Hl.
Qed.

(** ** The service *)

Record MapWorld := mkMapWorld { mw_tables : Tables; mw_cells : nat → Cells }.

#[export] Instance map_world : DynamoWorld MapWorld := {| tables := mw_tables; cells := mw_cells |}.

Definition with_tables (w : MapWorld) (ts : Tables) : MapWorld := mkMapWorld ts (mw_cells w).

(** The items of a table, in the order of the map. *)
Definition table_items (ts : Tables) (table : string) : list Item :=
  map snd (List.filter (λ x : Key * Item, bool_decide (x.1.1.1 = table)) (map_to_list ts)).

(** The sort key of an item of a partition, when it is a number in normal form. *)
Definition partition_key (pk : string) (item : Item) : option Z :=
  match item !! "pk"%string, item !! "sk"%string with
  | Some (AS own), Some (AN sk) =>
      match parse_i64 sk with
      | Some z => if bool_decide (own = pk) && bool_decide (show z = sk) then Some z else None
      | None => None
      end
  | _, _ => None
  end.

(** Whether a sort key satisfies the key condition of a query. *)
Definition selects (condition : string) (values : Item) (z : Z) : bool :=
  if bool_decide (condition = EVENTS_AFTER) then
    match number_of (values !! ":sk"%string) with Some after => after <? z | None => false end
  else if bool_decide (condition = "pk = :pk AND sk BETWEEN :lo AND :hi"%string) then
    match number_of (values !! ":lo"%string), number_of (values !! ":hi"%string) with
    | Some lo, Some hi => (lo <=? z) && (z <=? hi)
    | _, _ => false
    end
  else true.

Definition query_items (ts : Tables) (q : QueryRequest) : list Item :=
  match qr_values q !! ":pk"%string with
  | Some (AS pk) =>
      let found := omap (λ item, match partition_key pk item with
                                 | Some z => if selects (qr_key_condition q) (qr_values q) z then Some (z, item) else None
                                 | None => None
                                 end) (table_items ts (qr_table q)) in
      let sorted := map snd (sort_by (λ x y : Z * Item, x.1 <=? y.1) found) in
      let ordered := if qr_forward q then sorted else reverse sorted in
      match qr_limit q with Some limit => take (Z.to_nat limit) ordered | None => ordered end
  | _ => []
  end.

(** A transaction that is refused names the conditions that failed. *)
Definition refusal (ts : Tables) (items : list TransactWriteItem) : SdkError :=
  ServiceError (Some 400) (Some "TransactionCanceledException"%string) (TransactionCanceled
    (map (λ x, Some (if action_holds ts x then "None" else "ConditionalCheckFailed")%string) items)).

Definition applicable_b (ts : Tables) (items : list TransactWriteItem) : bool :=
  forallb (action_holds ts) items && forallb (λ x, bool_decide (is_Some (action_place x))) items
  && bool_decide (NoDup (omap action_place items)).

Definition unserved : SdkError := ServiceError (Some 400) None OtherFault.

(** One call; [lost] loses the answer to a transaction. *)
Definition serve (lost : bool) {B} (q : DynamoCall B) (w : MapWorld) : B * MapWorld :=
  match q in DynamoCall B return B * MapWorld with
  | GetItem table _ key _ _ => (Ok (at_place (mw_tables w) (place table key)), w)
  | Query request => (Ok (mkPage (query_items (mw_tables w) request) None), w)
  | Scan request => (Ok (mkPage (table_items (mw_tables w) (sq_table request)) None), w)
  | PutItem table item condition values =>
      match place table item with
      | Some key =>
          if map_holds condition ∅ values (mw_tables w !! key) then (Ok tt, with_tables w (<[key := item]> (mw_tables w)))
          else (Err (ServiceError (Some 400) (Some "ConditionalCheckFailedException"%string) ConditionalCheckFailed), w)
      | None => (Err unserved, w)
      end
  | TransactWriteItems items =>
      if applicable_b (mw_tables w) items then
        (if lost then Err TimeoutError else Ok tt, with_tables w (apply_actions (mw_tables w) items))
      else (Err (refusal (mw_tables w) items), w)
  | UpdateItem _ _ _ _ _ _ => (Err unserved, w)
  | BatchWriteItem _ => (Err unserved, w)
  | BatchGetItem _ => (Err unserved, w)
  | Locked handle section =>
      let x := section (mw_cells w handle) in
      (x.2, mkMapWorld (mw_tables w) (λ other, if decide (other = handle) then x.1 else mw_cells w other))
  | Now => (0, w)
  | Sleep _ => (tt, w)
  end.

#[export] Instance map_handles : Handles DynamoCall MapWorld := λ B q w b w', ∃ lost, serve lost q w = (b, w').

Lemma partition_key_between pk item z lo hi :
  partition_key pk item = Some z → lo ≤ z ≤ hi → between pk lo hi item.
Proof.
  unfold partition_key, between. intros Hk Hz. destruct (item !! "pk"%string) as [[own| | | | | | | | |]|]; try done.
  destruct (item !! "sk"%string) as [[|sk| | | | | | | |]|]; try done. destruct (parse_i64 sk) as [z'|]; [|done].
  destruct (bool_decide (own = pk)) eqn:Hown; [|done]. apply bool_decide_eq_true in Hown.
  destruct (bool_decide (show z' = sk)) eqn:Hsk; [|done]. apply bool_decide_eq_true in Hsk. injection Hk as ->. subst.
  split; [by intros v [= <-]|]. intros v [= <-]. by exists z.
Qed.

Lemma query_between ts q pk lo hi :
  qr_key_condition q = "pk = :pk AND sk BETWEEN :lo AND :hi"%string →
  qr_values q !! ":pk"%string = Some (AS pk) → qr_values q !! ":lo"%string = Some (an lo) →
  qr_values q !! ":hi"%string = Some (an hi) → Forall (between pk lo hi) (query_items ts q).
Proof.
  intros Hc Hpk Hlo Hhi. unfold query_items. rewrite Hpk. cbv zeta. set (found := omap _ _).
  assert (Forall (λ x : Z * Item, between pk lo hi x.2) found) as Hf.
  { apply Forall_forall. intros [z item] (item' & _ & Hx)%list_elem_of_omap.
    destruct (partition_key pk item') as [z'|] eqn:Hk; [|done]. rewrite Hc in Hx.
    change (selects _ _ z') with (match number_of (qr_values q !! ":lo"%string), number_of (qr_values q !! ":hi"%string) with
      | Some lo, Some hi => (lo <=? z') && (z' <=? hi) | _, _ => false end) in Hx.
    rewrite Hlo, Hhi in Hx. unfold number_of, an in Hx. rewrite !parse_i64_shown in Hx.
    destruct (in_i64 lo), (in_i64 hi); try done. destruct (Z.leb_spec lo z'), (Z.leb_spec z' hi); try done.
    injection Hx as <- <-. by eapply partition_key_between. }
  assert (Forall (between pk lo hi) (map snd (sort_by (λ x y : Z * Item, x.1 <=? y.1) found))) as Hs.
  { apply Forall_fmap, Forall_forall. intros x Hx%elem_of_sort_by. rewrite Forall_forall in Hf. by apply Hf. }
  destruct (qr_forward q), (qr_limit q); try apply Forall_take; try done; by rewrite Forall_reverse || apply Forall_reverse.
Qed.

Lemma applicable_b_spec ts items : applicable_b ts items = true ↔ applicable ts items.
Proof.
  unfold applicable_b, applicable. rewrite !andb_true_iff, !forallb_forall, bool_decide_eq_true, !Forall_forall.
  setoid_rewrite bool_decide_eq_true. setoid_rewrite list_elem_of_In. tauto.
Qed.

#[export] Instance map_service : DynamoService MapWorld.
Proof.
  split.
  - intros B q w b w' [lost Hq] Hr. destruct q; try done; cbn [serve] in Hq; injection Hq as _ <-; done.
  - intros table key projection names w item w' [lost Hq]. injection Hq as <- _.
    destruct projection; [|done]. intros item Hitem. exists item. by split.
  - intros q pk lo hi w page w' [lost Hq]. injection Hq as <- _. apply query_between.
  - intros table item condition values w b w' [lost Hq]. cbn [serve] in Hq.
    destruct (place table item) as [key|]; [|injection Hq as _ <-; by left].
    destruct (map_holds _ _ _ _); injection Hq as _ <-; [right; by exists key|by left].
  - intros items w b w' [lost Hq]. cbn [serve] in Hq. destruct (applicable_b (mw_tables w) items) eqn:Happ.
    + apply applicable_b_spec in Happ. destruct lost; injection Hq as <- <-; [by apply transact_unknown|by apply transact_applied].
    + injection Hq as <- <-. apply transact_refused. intros i action Hi. unfold code_at, refusal. cbn [cancellation_reasons].
      rewrite list_lookup_fmap, Hi. cbn [fmap option_fmap option_map]. cbn [tables map_world].
      by destruct (action_holds (mw_tables w) action).
Qed.

(** ** Runs *)

Section schedule.
Context {A : Type} (env : MapWorld → MapWorld → Prop).

(** Client [turn.1] makes its next call; [turn.2] loses the answer. *)
Definition take_dynamo_turn (turn : nat * bool) (x : MapWorld * list (Tree DynamoCall A))
  : MapWorld * list (Tree DynamoCall A) :=
  match x.2 !! turn.1 with
  | Some (Ask q k) => let y := serve turn.2 q x.1 in (y.2, <[turn.1 := k y.1]> x.2)
  | _ => x
  end.

Fixpoint dynamo_schedule (turns : list (nat * bool)) (x : MapWorld * list (Tree DynamoCall A)) :=
  match turns with [] => x | turn :: turns => dynamo_schedule turns (take_dynamo_turn turn x) end.

Lemma dynamo_schedule_steps turns x : rtc (pool_step env) x (dynamo_schedule turns x).
Proof.
  revert x. induction turns as [|turn turns IH]; intros [w ps]; [reflexivity|]. cbn [dynamo_schedule].
  etrans; [|apply IH]. unfold take_dynamo_turn. cbn [fst snd].
  destruct (ps !! turn.1) as [[a|B q k| |]|] eqn:Hp; try reflexivity. apply rtc_once. eapply pool_call; [done|].
  exists turn.2. apply surjective_pairing.
Qed.
End schedule.

(** A JSON library that reads back the one manifest of the runs. *)
Definition marker_json : SerdeJson := {|
  json_metadata := λ _, Ok "{}"%string;
  json_strings := λ _, Ok "[]"%string;
  json_rejection := λ _, Ok "{}"%string;
  json_parse_rejection := λ _, Ok (mkRejection "no" "" None);
  json_parse_metadata := λ _, Ok (Some Metadata_default);
  json_parse_strings := λ _, Ok (Some []);
  json_parse_string_options := λ _, Ok [];
  json_feature_map := λ _, "{}"%string;
  json_string_set := λ _, "[]"%string;
  json_parse_feature_map := λ _, Ok (fm_features (declare_stream_heads FeatureManifest_default));
  json_parse_string_set := λ _, Ok ∅;
  json_string_map := λ _, Ok "{}"%string;
  json_parse_string_map := λ _, Ok ∅
|}.

#[local] Existing Instance marker_json.

Definition dynamo_sample (id : EntityId) (sequences : list EventSequence) (outcome : option CommandId) : DCommit :=
  mkCommit id (map (sample_event id) sequences) None [] [] (option_map sample_outcome outcome).

Definition dynamo_instance (handle : nat) : DynamoRepository := with_lazy_initialization (dynamo_new handle "log") true.

(** Three instances: two append the first event of one stream, the other to two streams at once. *)
Definition writers : list (DynamoRepository * nat * Write) :=
  [(dynamo_instance 0, 5%nat, WCommit (dynamo_sample "t" [1] (Some "c"%string)));
   (dynamo_instance 1, 5%nat, WCommit (dynamo_sample "t" [1; 2] None));
   (dynamo_instance 2, 5%nat, WTransaction (mkTransactionCommit [dynamo_sample "u" [1] None; dynamo_sample "v" [1] None]
      [mkReadFence "w" "Account" 0 Engine] [] [] None))].

(** The first instance takes two turns for one of the others, and loses the answer to its commit. *)
Definition turns : list (nat * bool) :=
  concat (replicate 30 [(0%nat, true); (0%nat, true); (1%nat, false); (2%nat, false)]).
Definition text_of (err : SdkError) : string := "error".
Definition writers_run :=
  dynamo_schedule turns (mkMapWorld ∅ (λ _, Cells_new), map (λ c, write_prog text_of c.1.1 c.1.2 c.2) writers).

