(* ===== verification/Postgres.v ===== *)
(** * The PostgreSQL repository

    [wire/postgres.rs], the tables, the texts of the statements and the rows, and [postgres.rs], the
    repository over them. A program awaits statements of a connection, which is borrowed from a pool
    for a scope and given back at its end, whatever it returns; a transaction that was not committed
    is rolled back then. The server is a parameter: what it answers to a text and its parameters. *)

From S2P Require Import Prelude Types Features Numbers Outcome Rebuild Wire Projection Repository Program Mem JournalScope.

(** ** Text *)

Definition NL : string := String (ascii_of_nat 10) EmptyString.
Definition QUOTE : string := String (ascii_of_nat 34) EmptyString.

(** [char::is_ascii_alphabetic], [str::to_ascii_lowercase], [str::eq_ignore_ascii_case]. *)
Definition is_ascii_upper (c : ascii) : bool := (65 <=? byte_of c) && (byte_of c <=? 90).
Definition is_ascii_alphabetic (c : ascii) : bool :=
  is_ascii_upper c || (97 <=? byte_of c) && (byte_of c <=? 122).
Definition ascii_lower (c : ascii) : ascii :=
  if is_ascii_upper c then ascii_of_nat (nat_of_ascii c + 32) else c.
Fixpoint to_ascii_lowercase (s : string) : string :=
  match s with
  | EmptyString => EmptyString
  | String c rest => String (ascii_lower c) (to_ascii_lowercase rest)
  end.
Definition eq_ignore_ascii_case (a b : string) : bool :=
  bool_decide (to_ascii_lowercase a = to_ascii_lowercase b).

Fixpoint all_chars (p : ascii → bool) (s : string) : bool :=
  match s with EmptyString => true | String c rest => p c && all_chars p rest end.

(** [str::contains] of a text. *)
Fixpoint text_contains (needle s : string) : bool :=
  starts_with needle s || match s with EmptyString => false | String _ rest => text_contains needle rest end.

(** ** Tables *)

(** crates/evt/src/wire/postgres.rs:15-24 [DEFAULT_EVENTS_TABLE] *)
Definition DEFAULT_EVENTS_TABLE : string := "evt_events".
Definition DEFAULT_SNAPSHOTS_TABLE : string := "evt_snapshots".
Definition RESERVED_INFIX : string := "__evt_".

(** crates/evt/src/wire/postgres.rs:29-29 [MAX_EVENTS_TABLE_NAME_LEN] *)
Definition MAX_EVENTS_TABLE_NAME_LEN : Z := 63 - slen "__evt_rebuild_generation_pkey".

(** crates/evt/src/wire/postgres.rs:320-320 [MAX_SNAPSHOTS_TABLE_NAME_LEN] *)
Definition MAX_SNAPSHOTS_TABLE_NAME_LEN : Z := 63 - slen "_pkey".

(** crates/evt/src/wire/postgres.rs:33-35 [outcomes_table] *)
Definition outcomes_table (events_table : string) : string := events_table +:+ RESERVED_INFIX +:+ "command_outcomes".

(** crates/evt/src/wire/postgres.rs:39-41 [features_table] *)
Definition features_table (events_table : string) : string := events_table +:+ RESERVED_INFIX +:+ "features".

(** crates/evt/src/wire/postgres.rs:46-48 [rebuild_lock_table] *)
Definition rebuild_lock_table (events_table : string) : string := events_table +:+ RESERVED_INFIX +:+ "rebuild_lock".

(** crates/evt/src/wire/postgres.rs:52-54 [rebuild_generation_table] *)
Definition rebuild_generation_table (events_table : string) : string := events_table +:+ RESERVED_INFIX +:+ "rebuild_generation".

(** crates/evt/src/wire/postgres.rs:58-60 [stream_heads_table] *)
Definition stream_heads_table (events_table : string) : string := events_table +:+ RESERVED_INFIX +:+ "stream_heads".

(** crates/evt/src/wire/postgres.rs:65-67 [views_table] *)
Definition views_table (events_table : string) : string := events_table +:+ RESERVED_INFIX +:+ "views".

(** crates/evt/src/wire/postgres.rs:72-77 [journal_channel] *)
Definition journal_channel (events_table : string) : string :=
  to_ascii_lowercase events_table +:+ RESERVED_INFIX +:+ "journal".

(** crates/evt/src/wire/postgres.rs:82-85 [MAX_VIEW_INDEX_KEY_BYTES] *)
Definition MAX_VIEW_INDEX_KEY_BYTES : Z := 2600.
Definition MAX_VIEW_PAGE_ROWS : nat := Z.to_nat 1000.

(** crates/evt/src/wire/postgres.rs:90-108 [views_ddl] *)
Definition views_ddl (events_table : string) : string :=
  let views := views_table events_table in
  NL +:+
  "CREATE TABLE IF NOT EXISTS " +:+ views +:+ " (" +:+ NL +:+
  "    pk          text COLLATE " +:+ QUOTE +:+ "C" +:+ QUOTE +:+ " NOT NULL," +:+ NL +:+
  "    sk          text COLLATE " +:+ QUOTE +:+ "C" +:+ QUOTE +:+ " NOT NULL," +:+ NL +:+
  "    entity_id   text   NOT NULL," +:+ NL +:+
  "    entity_type text   NOT NULL," +:+ NL +:+
  "    payload     text   NOT NULL," +:+ NL +:+
  "    ttl         bigint NOT NULL DEFAULT 0," +:+ NL +:+
  "    PRIMARY KEY (pk, sk)" +:+ NL +:+
  ");" +:+ NL +:+
  "CREATE INDEX IF NOT EXISTS " +:+ views +:+ "_type_idx ON " +:+ views +:+ " (entity_type, pk, sk);" +:+ NL +:+
  "CREATE INDEX IF NOT EXISTS " +:+ views +:+ "_ttl_idx ON " +:+ views +:+ " (ttl) WHERE ttl > 0;" +:+ NL.

(** crates/evt/src/wire/postgres.rs:112-210 [schema_ddl] *)
Definition schema_ddl (events_table snapshots_table : string) : string :=
  let outcomes := outcomes_table events_table in
  let features := features_table events_table in
  let rebuild_lock := rebuild_lock_table events_table in
  let rebuild_generation := rebuild_generation_table events_table in
  let stream_heads := stream_heads_table events_table in
  NL +:+
  "CREATE TABLE IF NOT EXISTS " +:+ events_table +:+ " (" +:+ NL +:+
  "    entity_id   text   NOT NULL," +:+ NL +:+
  "    sequence    bigint NOT NULL," +:+ NL +:+
  "    event_id    text   NOT NULL," +:+ NL +:+
  "    event_type  text   NOT NULL," +:+ NL +:+
  "    version     bigint NOT NULL," +:+ NL +:+
  "    entity_type text   NOT NULL," +:+ NL +:+
  "    payload     bytea  NOT NULL," +:+ NL +:+
  "    metadata    jsonb  NOT NULL DEFAULT '{}'::jsonb," +:+ NL +:+
  "    created_at  timestamptz NOT NULL DEFAULT now()," +:+ NL +:+
  "    PRIMARY KEY (entity_id, sequence)" +:+ NL +:+
  ");" +:+ NL +:+
  "CREATE INDEX IF NOT EXISTS " +:+ events_table +:+ "__evt_entity_type_idx ON " +:+ events_table +:+ " (entity_type);" +:+ NL +:+
  "DO $$" +:+ NL +:+
  "BEGIN" +:+ NL +:+
  "    IF EXISTS (" +:+ NL +:+
  "        SELECT 1 FROM pg_index" +:+ NL +:+
  "        WHERE indexrelid = to_regclass('" +:+ events_table +:+ "_entity_type_idx')" +:+ NL +:+
  "          AND indrelid = '" +:+ events_table +:+ "'::regclass" +:+ NL +:+
  "    ) THEN" +:+ NL +:+
  "        DROP INDEX " +:+ events_table +:+ "_entity_type_idx;" +:+ NL +:+
  "    END IF;" +:+ NL +:+
  "END $$;" +:+ NL +:+
  NL +:+
  "CREATE TABLE IF NOT EXISTS " +:+ snapshots_table +:+ " (" +:+ NL +:+
  "    entity_id      text   PRIMARY KEY," +:+ NL +:+
  "    entity_type    text   NOT NULL," +:+ NL +:+
  "    sequence       bigint NOT NULL," +:+ NL +:+
  "    event_sequence bigint NOT NULL," +:+ NL +:+
  "    payload        bytea  NOT NULL," +:+ NL +:+
  "    updated_at     timestamptz NOT NULL DEFAULT now()" +:+ NL +:+
  ");" +:+ NL +:+
  NL +:+
  "CREATE TABLE IF NOT EXISTS " +:+ outcomes +:+ " (" +:+ NL +:+
  "    command_id text        PRIMARY KEY," +:+ NL +:+
  "    status     text        NOT NULL CHECK (status IN ('accepted', 'rejected'))," +:+ NL +:+
  "    digest     text        NOT NULL," +:+ NL +:+
  "    response   bytea," +:+ NL +:+
  "    events     jsonb       NOT NULL DEFAULT '[]'::jsonb," +:+ NL +:+
  "    rejection  jsonb," +:+ NL +:+
  "    code       text," +:+ NL +:+
  "    created_at timestamptz NOT NULL DEFAULT now()," +:+ NL +:+
  "    command_type text," +:+ NL +:+
  "    targets      jsonb," +:+ NL +:+
  "    principal    text," +:+ NL +:+
  "    CHECK ((status = 'rejected' AND rejection IS NOT NULL AND code IS NOT NULL)" +:+ NL +:+
  "           OR (status = 'accepted' AND rejection IS NULL AND code IS NULL))" +:+ NL +:+
  ");" +:+ NL +:+
  NL +:+
  "DO $$" +:+ NL +:+
  "BEGIN" +:+ NL +:+
  "    IF (SELECT count(*) FROM pg_attribute" +:+ NL +:+
  "        WHERE attrelid = '" +:+ outcomes +:+ "'::regclass" +:+ NL +:+
  "          AND attname IN ('command_type', 'targets', 'principal')" +:+ NL +:+
  "          AND NOT attisdropped) < 3 THEN" +:+ NL +:+
  "        ALTER TABLE " +:+ outcomes +:+ NL +:+
  "            ADD COLUMN IF NOT EXISTS command_type text," +:+ NL +:+
  "            ADD COLUMN IF NOT EXISTS targets      jsonb," +:+ NL +:+
  "            ADD COLUMN IF NOT EXISTS principal    text;" +:+ NL +:+
  "    END IF;" +:+ NL +:+
  "END $$;" +:+ NL +:+
  NL +:+
  "CREATE TABLE IF NOT EXISTS " +:+ features +:+ " (" +:+ NL +:+
  "    id                integer PRIMARY KEY," +:+ NL +:+
  "    version           bigint NOT NULL," +:+ NL +:+
  "    features          text   NOT NULL," +:+ NL +:+
  "    history_dependent text   NOT NULL DEFAULT '[]'," +:+ NL +:+
  "    retention         text   NOT NULL DEFAULT '[]'" +:+ NL +:+
  ");" +:+ NL +:+
  NL +:+
  "CREATE TABLE IF NOT EXISTS " +:+ rebuild_lock +:+ " (" +:+ NL +:+
  "    id               integer PRIMARY KEY," +:+ NL +:+
  "    owner            text        NOT NULL," +:+ NL +:+
  "    generation       bigint      NOT NULL," +:+ NL +:+
  "    lease_expires_at timestamptz NOT NULL" +:+ NL +:+
  ");" +:+ NL +:+
  NL +:+
  "CREATE TABLE IF NOT EXISTS " +:+ rebuild_generation +:+ " (" +:+ NL +:+
  "    id             integer PRIMARY KEY," +:+ NL +:+
  "    value          bigint   NOT NULL," +:+ NL +:+
  "    force_released boolean  NOT NULL DEFAULT false" +:+ NL +:+
  ");" +:+ NL +:+
  NL +:+
  "CREATE TABLE IF NOT EXISTS " +:+ stream_heads +:+ " (" +:+ NL +:+
  "    entity_id   text   PRIMARY KEY," +:+ NL +:+
  "    entity_type text   NOT NULL," +:+ NL +:+
  "    head        bigint NOT NULL CHECK (head >= 1)" +:+ NL +:+
  ");" +:+ NL.

(** crates/evt/src/wire/postgres.rs:214-316 [RESERVED_KEYWORDS] *)
Definition RESERVED_KEYWORDS : list string :=
  ["all"; "analyse"; "analyze"; "and"; "any"; "array"; "as"; "asc"; "asymmetric"; "authorization";
   "binary"; "both"; "case"; "cast"; "check"; "collate"; "collation"; "column"; "concurrently";
   "constraint"; "create"; "cross"; "current_catalog"; "current_date"; "current_role"; "current_schema";
   "current_time"; "current_timestamp"; "current_user"; "default"; "deferrable"; "desc"; "distinct"; "do";
   "else"; "end"; "except"; "false"; "fetch"; "for"; "foreign"; "freeze"; "from"; "full"; "grant"; "group";
   "having"; "ilike"; "in"; "initially"; "inner"; "intersect"; "into"; "is"; "isnull"; "join"; "lateral";
   "leading"; "left"; "like"; "limit"; "localtime"; "localtimestamp"; "natural"; "not"; "notnull"; "null";
   "offset"; "on"; "only"; "or"; "order"; "outer"; "overlaps"; "placing"; "primary"; "references";
   "returning"; "right"; "select"; "session_user"; "similar"; "some"; "symmetric"; "system_user"; "table";
   "tablesample"; "then"; "to"; "trailing"; "true"; "union"; "unique"; "user"; "using"; "variadic";
   "verbose"; "when"; "where"; "window"; "with"]%string.

(** crates/evt/src/wire/postgres.rs:325-336 [ENTITY_LOCK] *)
Definition ENTITY_LOCK : string := "SELECT pg_advisory_xact_lock(1702261760, hashtext($1))".
Definition FEATURES_LOCK_SHARED : string := "SELECT pg_advisory_xact_lock_shared(1702261761, hashtext($1))".
Definition FEATURES_LOCK_EXCLUSIVE : string := "SELECT pg_advisory_xact_lock(1702261761, hashtext($1))".

(** crates/evt/src/wire/postgres.rs:340-342 [features_lock_key] *)
Definition features_lock_key (events_table : string) : string := to_ascii_lowercase events_table +:+ ":features".

(** crates/evt/src/wire/postgres.rs:349-351 [rebuild_lock_key] *)
Definition pg_rebuild_lock_key (events_table : string) : string := to_ascii_lowercase events_table +:+ ":rebuild".

(** crates/evt/src/wire/postgres.rs:355-366 [is_valid_identifier] *)
Definition is_valid_identifier (name : string) (max_len : Z) : bool :=
  let word c := is_ascii_alphabetic c || Ascii.eqb c "_" in
  (slen name <=? max_len)
  && match name with
     | EmptyString => false
     | String first rest => word first && all_chars (λ c, word c || is_ascii_digit c) rest
     end
  && negb (existsb (λ keyword, eq_ignore_ascii_case keyword name) RESERVED_KEYWORDS).

(** crates/evt/src/wire/postgres.rs:391-419 [check_table_names]

    Every relation the schema makes. *)
Definition relations_of (events_table snapshots_table : string) : list string :=
  let events := to_ascii_lowercase events_table in
  let snapshots := to_ascii_lowercase snapshots_table in
  let features := features_table events in
  let outcomes := outcomes_table events in
  let heads := stream_heads_table events in
  let rebuild_lock := rebuild_lock_table events in
  let rebuild_generation := rebuild_generation_table events in
  let views := views_table events in
  [events; events +:+ "_pkey"; events +:+ RESERVED_INFIX +:+ "entity_type_idx";
   outcomes; outcomes +:+ "_pkey"; features; features +:+ "_pkey"; rebuild_lock; rebuild_lock +:+ "_pkey";
   rebuild_generation; rebuild_generation +:+ "_pkey"; heads; heads +:+ "_pkey";
   views; views +:+ "_pkey"; views +:+ "_type_idx"; views +:+ "_ttl_idx"; snapshots; snapshots +:+ "_pkey"].

(** The first entry that occurs before it. *)
Fixpoint first_repeated (seen rest : list string) : option string :=
  match rest with
  | [] => None
  | name :: rest => if existsb (String.eqb name) seen then Some name else first_repeated (seen ++ [name]) rest
  end.

(** crates/evt/src/wire/postgres.rs:375-430 [check_table_names] *)
Definition check_table_names (events_table snapshots_table : string) : result unit Message :=
  check? check_each (λ x : string * Z,
    if negb (is_valid_identifier x.1 x.2) then Err (Fmt "invalid table name {name:?}" [x.1])
    else if text_contains RESERVED_INFIX (to_ascii_lowercase x.1) then
      Err (Fmt "table name {name:?} must not contain the reserved infix {RESERVED_INFIX:?}" [x.1; RESERVED_INFIX])
    else Ok tt)
    [(events_table, MAX_EVENTS_TABLE_NAME_LEN); (snapshots_table, MAX_SNAPSHOTS_TABLE_NAME_LEN)];
  match first_repeated [] (relations_of events_table snapshots_table) with
  | Some relation =>
      Err (Fmt "tables {events_table:?} and {snapshots_table:?} would both use the name {relation:?}"
        [events_table; snapshots_table; relation])
  | None => Ok tt
  end.

(** crates/evt/src/wire/postgres.rs:436-443 [insert_outcome_sql] *)
Definition insert_outcome_sql (events_table : string) : string :=
  "INSERT INTO " +:+ outcomes_table events_table +:+
  " (command_id, status, digest, response, events, rejection, code, command_type, targets, principal) VALUES ($1, $2, $3, $4, $5::text::jsonb, $6::text::jsonb, $7, $8, $9::text::jsonb, $10)".

(** crates/evt/src/wire/postgres.rs:447-453 [select_outcome_sql] *)
Definition select_outcome_sql (events_table : string) : string :=
  "SELECT status, digest, response, events::text, rejection::text, code, command_type, targets::text, principal FROM " +:+
  outcomes_table events_table +:+ " WHERE command_id = $1".

(** ** Rows *)

(** crates/evt/src/wire/postgres.rs:459-481 [OutcomeRow] *)
Record OutcomeRow := mkOutcomeRow {
  or_command_id : string;
  or_status : string;
  or_digest : string;
  or_response : option string;
  or_events : string;
  or_rejection : option string;
  or_code : option string;
  or_command_type : option string;
  or_targets : option string;
  or_principal : option string
}.

(** crates/evt/src/wire/postgres.rs:577-594 [EventRow] *)
Record EventRow := mkEventRow {
  er_entity_id : string;
  er_sequence : Z;
  er_event_id : string;
  er_event_type : string;
  er_version : Z;
  er_entity_type : string;
  er_payload : string;
  er_metadata : string
}.

(** crates/evt/src/wire/postgres.rs:638-649 [SnapshotRow] *)
Record SnapshotRow := mkSnapshotRow {
  sr_entity_id : string;
  sr_entity_type : string;
  sr_sequence : Z;
  sr_event_sequence : Z;
  sr_payload : string
}.

(** [Option::transpose] on an encoder or decoder. *)
Definition transposed {A B} (f : A → Result B) (x : option A) : Result (option B) :=
  match x with Some a => let? b := f a in Ok (Some b) | None => Ok None end.

Section rows.
Context `{SerdeJson}.

(** crates/evt/src/wire/postgres.rs:485-519 [OutcomeRow::from_outcome] *)
Definition from_outcome (outcome : Outcome) : Result OutcomeRow :=
  let? events := encode_event_ids (oc_event_ids outcome) in
  let? rejection := transposed encode_rejection (oc_rejection outcome) in
  let? targets := transposed encode_targets (oc_identity outcome) in
  Ok (mkOutcomeRow (oc_command_id outcome) (status_as_str (oc_status outcome)) (oc_digest outcome)
    (non_empty (oc_response outcome)) events rejection (option_map rj_code (oc_rejection outcome))
    (option_map ri_command_type (oc_identity outcome)) targets
    match oc_identity outcome with Some identity => ri_principal identity | None => None end).

(** crates/evt/src/wire/postgres.rs:523-572 [OutcomeRow::into_outcome] *)
Definition into_outcome (row : OutcomeRow) : Result Outcome :=
  let? status := ok_or (status_parse (or_status row))
    (InvalidRecord (Fmt "unknown outcome status {:?}" [or_status row])) in
  let? event_ids := decode_event_ids (or_events row) in
  let? rejection := transposed decode_rejection (or_rejection row) in
  let outcome := mkOutcome (or_command_id row) status (or_digest row) (non_empty (or_response row)) event_ids rejection None in
  check? validate_stored outcome;
  check? match rejection, or_code row with
         | None, Some _ => Err (InvalidRecord
             (Fmt "stored outcome for command {} is corrupt: an accepted outcome carries a code" [or_command_id row]))
         | _, _ => Ok tt
         end;
  check? match rejection with
         | Some rejection =>
             if negb (bool_decide (or_code row = Some (rj_code rejection))) then Err (InvalidRecord
               (Fmt "stored outcome for command {} is corrupt: the code column disagrees with the rejection"
                 [or_command_id row]))
             else Ok tt
         | None => Ok tt
         end;
  let? identity := decode_identity (or_command_id row) (or_command_type row) (or_targets row) (or_principal row) in
  Ok (mkOutcome (or_command_id row) status (or_digest row) (non_empty (or_response row)) event_ids rejection identity).

(** crates/evt/src/wire/postgres.rs:598-609 [EventRow::from_event] *)
Definition from_event (event : SerializedEvent) : Result EventRow :=
  let? metadata := json_metadata (ev_metadata event) in
  Ok (mkEventRow (ev_entity_id event) (ev_sequence event) (ev_id event) (ev_type event) (ev_version event)
    (ev_entity_type event) (ev_payload event) metadata).

(** crates/evt/src/wire/postgres.rs:612-633 [EventRow::into_event] *)
Definition into_event (row : EventRow) : Result SerializedEvent :=
  let? metadata :=
    if is_blank (er_metadata row) then Ok Metadata_default
    else
      let? metadata := map_err (λ err, InvalidRecord (Fmt "event {} metadata: {err}" [er_event_id row; err]))
        (json_parse_metadata (er_metadata row)) in
      Ok (default Metadata_default metadata) in
  Ok (mkEvent (er_event_id row) (er_sequence row) (er_event_type row) (er_version row) (er_entity_id row)
    (er_entity_type row) (er_payload row) metadata).
End rows.

(** crates/evt/src/wire/postgres.rs:653-661 [SnapshotRow::from_snapshot] *)
Definition from_snapshot (snapshot : SerializedSnapshot) : SnapshotRow :=
  mkSnapshotRow (sn_entity_id snapshot) (sn_entity_type snapshot) (sn_sequence snapshot)
    (sn_event_sequence snapshot) (sn_payload snapshot).

(** crates/evt/src/wire/postgres.rs:664-672 [SnapshotRow::into_snapshot] *)
Definition into_snapshot (row : SnapshotRow) : SerializedSnapshot :=
  mkSnapshot (sr_entity_type row) (sr_entity_id row) (sr_sequence row) (sr_event_sequence row) (sr_payload row).

(** ** Statements *)

(** The values that are bound and read. *)
Inductive SqlValue := VNull | VText (s : string) | VBytes (s : string) | VInt (z : Z) | VBool (b : bool) | VTexts (l : list string).
Abbreviation Row := (list SqlValue).

Definition opt_text (s : option string) : SqlValue := match s with Some s => VText s | None => VNull end.
Definition opt_bytes (s : option string) : SqlValue := match s with Some s => VBytes s | None => VNull end.

Definition as_text (v : SqlValue) : option string := match v with VText s => Some s | _ => None end.
Definition as_bytes (v : SqlValue) : option string := match v with VBytes s => Some s | _ => None end.
Definition as_int (v : SqlValue) : option Z := match v with VInt z => Some z | _ => None end.
Definition as_bool (v : SqlValue) : option bool := match v with VBool b => Some b | _ => None end.
Definition nullable {A} (f : SqlValue → option A) (v : SqlValue) : option (option A) :=
  match v with VNull => Some None | v => Some <$> f v end.

(** [tokio_postgres::Error], as far as the code looks at it: an error the database raised, with its
    code and the constraint it names, or any other. *)
Inductive PgError := DbError (code : string) (constraint : option string) | OtherPgError.
Inductive PoolError := PoolTimeout | OtherPoolError.

Definition pg_code (err : PgError) : option string := match err with DbError code _ => Some code | OtherPgError => None end.
Definition is_db_error (err : PgError) : bool := match err with DbError _ _ => true | OtherPgError => false end.

(** [SqlState]. *)
Definition UNIQUE_VIOLATION : string := "23505".
Definition T_R_SERIALIZATION_FAILURE : string := "40001".
Definition T_R_DEADLOCK_DETECTED : string := "40P01".

(** crates/evt/src/postgres.rs:53-64 [PgStatement] *)
Record PgStatement := mkPgStatement { ps_sql : string; ps_params : list SqlValue; ps_key_constraint : option string }.

(** crates/evt/src/postgres.rs:68-74 [PgStatement::new] *)
Definition PgStatement_new (sql : string) (params : list SqlValue) : PgStatement := mkPgStatement sql params None.

(** crates/evt/src/postgres.rs:79-82 [PgStatement::with_key_constraint] *)
Definition with_key_constraint (s : PgStatement) (constraint : string) : PgStatement :=
  mkPgStatement (ps_sql s) (ps_params s) (Some constraint).

(** crates/evt/src/postgres.rs:89-91 [PgStatement::budget_size] *)
Definition pg_budget_size (s : PgStatement) : Z := slen (ps_sql s).

(** ** Calls *)

(** The pool, the statements of a connection, the repository's cells and its clock. [Release] gives a
    connection back; a transaction that is open on it is rolled back. [QueryRaw] starts a row stream,
    which [NextRow] polls. *)
Inductive PgCall : Type → Type :=
| Connect : PgCall (result nat PoolError)
| Release (c : nat) : PgCall unit
| Begin (c : nat) : PgCall (result unit PgError)
| Execute (c : nat) (sql : string) (params : list SqlValue) : PgCall (result Z PgError)
| QueryAll (c : nat) (sql : string) (params : list SqlValue) : PgCall (result (list Row) PgError)
| QueryOpt (c : nat) (sql : string) (params : list SqlValue) : PgCall (result (option Row) PgError)
| QueryOne (c : nat) (sql : string) (params : list SqlValue) : PgCall (result Row PgError)
| QueryRaw (c : nat) (sql : string) (params : list SqlValue) : PgCall (result unit PgError)
| NextRow (c : nat) : PgCall (option (result Row PgError))
| BatchExecute (c : nat) (sql : string) : PgCall (result unit PgError)
| Prepare (c : nat) (sql : string) : PgCall (result unit PgError)
| CommitTx (c : nat) : PgCall (result unit PgError)
| MarkerCell {B : Type} (handle : nat) (section : CachedMarker → CachedMarker * B) : PgCall B
| FlagLoad (flag : nat) : PgCall bool
| FlagStore (flag : nat) (value : bool) : PgCall unit
| UnixSeconds : PgCall Z.

Abbreviation PProg A := (Tree PgCall (result A Error)).
Abbreviation PCommit := (Commit PgStatement).
Abbreviation PTransaction := (TransactionCommit PgStatement).

(** [row.get(index)], which panics on a column that is not there or of another type. *)
Definition get {A} (f : SqlValue → option A) (row : Row) (index : nat) : Tree PgCall A :=
  match row !! index with
  | Some value => match f value with Some a => Ret a | None => Panic end
  | None => Panic
  end.

(** ** The repository *)

(** crates/evt/src/postgres.rs:104-132 [PostgresRepository]

    [pg_handle] names the instance's marker cell, and the flags are cells that clones share. *)
Record PostgresRepository := mkPostgresRepository {
  pg_handle : nat;
  pg_events_table : string;
  pg_snapshots_table : string;
  pg_view_writer : option (ViewOperation → Result PgStatement);
  pg_journaling : bool;
  pg_rebuild_ready : nat;
  pg_encoding_checked : nat;
  pg_views_table_target : bool;
  pg_views_declared : nat;
  pg_wakeups : bool
}.

(** crates/evt/src/postgres.rs:134-151 [PostgresRepository::clone]

    The clone has a marker cell of its own, with what is in this one's. *)
Definition pg_clone (r : PostgresRepository) (handle : nat) : PostgresRepository :=
  mkPostgresRepository handle (pg_events_table r) (pg_snapshots_table r) (pg_view_writer r) (pg_journaling r)
    (pg_rebuild_ready r) (pg_encoding_checked r) (pg_views_table_target r) (pg_views_declared r) (pg_wakeups r).

(** crates/evt/src/postgres.rs:165-166 [EVENT_COLUMNS] *)
Definition EVENT_COLUMNS : string := "event_id, sequence, event_type, version, entity_id, entity_type, payload, metadata::text".

(** crates/evt/src/postgres.rs:170-185 [PostgresRepository::new] *)
Definition pg_new (handle ready checked declared : nat) : PostgresRepository :=
  mkPostgresRepository handle DEFAULT_EVENTS_TABLE DEFAULT_SNAPSHOTS_TABLE None false ready checked false declared true.

(** crates/evt/src/postgres.rs:229-233 [PostgresRepository::with_view_writer] *)
Definition with_view_writer (r : PostgresRepository) (writer : ViewOperation → Result PgStatement) : PostgresRepository :=
  mkPostgresRepository (pg_handle r) (pg_events_table r) (pg_snapshots_table r) (Some writer) (pg_journaling r)
    (pg_rebuild_ready r) (pg_encoding_checked r) false (pg_views_declared r) (pg_wakeups r).

(** crates/evt/src/postgres.rs:241-244 [PostgresRepository::with_wakeups] *)
Definition with_wakeups (r : PostgresRepository) (wakeups : bool) : PostgresRepository :=
  mkPostgresRepository (pg_handle r) (pg_events_table r) (pg_snapshots_table r) (pg_view_writer r) (pg_journaling r)
    (pg_rebuild_ready r) (pg_encoding_checked r) (pg_views_table_target r) (pg_views_declared r) wakeups.

(** crates/evt/src/postgres.rs:255-259 [PostgresRepository::with_views_table] *)
Definition pg_with_views_table (r : PostgresRepository) : PostgresRepository :=
  mkPostgresRepository (pg_handle r) (pg_events_table r) (pg_snapshots_table r) None (pg_journaling r)
    (pg_rebuild_ready r) (pg_encoding_checked r) true (pg_views_declared r) (pg_wakeups r).

(** crates/evt/src/postgres.rs:1664-1666 [PostgresRepository::accept_journal] *)
Definition pg_accept_journal (r : PostgresRepository) : PostgresRepository :=
  mkPostgresRepository (pg_handle r) (pg_events_table r) (pg_snapshots_table r) (pg_view_writer r) true
    (pg_rebuild_ready r) (pg_encoding_checked r) (pg_views_table_target r) (pg_views_declared r) (pg_wakeups r).

(** crates/evt/src/postgres.rs:324-335 [PostgresRepository::with_tables]

    The cells it replaces are new ones. *)
Definition with_tables (r : PostgresRepository) (events_table snapshots_table : string) (handle ready declared : nat)
  : Result PostgresRepository :=
  check? map_err (λ message, InvalidConfig (Fmt ("postgres: " +:+ template message) (args message)))
    (check_table_names events_table snapshots_table);
  Ok (mkPostgresRepository handle (to_ascii_lowercase events_table) (to_ascii_lowercase snapshots_table)
    (pg_view_writer r) (pg_journaling r) ready (pg_encoding_checked r) (pg_views_table_target r) declared (pg_wakeups r)).

(** ** Errors *)

Section pg.
(** serde_json, and the display texts of the errors of the driver and the pool. *)
Context `{SerdeJson} (pg_text : PgError → string) (pool_text : PoolError → string).

Definition pg_box (err : PgError) : BoxError := BoxText (pg_text err).

(** [Error::backend]. *)
Definition pg_backend (err : PgError) : Error := Types.Backend (pg_box err).

(** crates/evt/src/postgres.rs:1994-1998 [transient] *)
Definition transient (err : PgError) : bool :=
  match pg_code err with
  | Some code => bool_decide (code = T_R_SERIALIZATION_FAILURE) || bool_decide (code = T_R_DEADLOCK_DETECTED)
  | None => false
  end.

(** crates/evt/src/postgres.rs:1984-1990 [statement_error] *)
Definition statement_error (err : PgError) : Error :=
  if transient err then Transient (pg_box err) else pg_backend err.

(** crates/evt/src/postgres.rs:1970-1980 [commit_error] *)
Definition commit_error (err : PgError) (carries_outcome : bool) : Error :=
  if transient err then Transient (pg_box err)
  else if match pg_code err with Some code => starts_with "23" code | None => false end then Projector (pg_box err)
  else if carries_outcome && negb (is_db_error err) then Indeterminate (pg_box err)
  else pg_backend err.

(** crates/evt/src/postgres.rs:1684-1693 [classify] *)
Definition pg_classify (entity_id : EntityId) (err : PgError) : Error :=
  if bool_decide (pg_code err = Some UNIQUE_VIOLATION) then Conflict entity_id (Fmt "{}" [pg_text err])
  else if transient err then Transient (pg_box err)
  else pg_backend err.

(** crates/evt/src/postgres.rs:1699-1706 [outcome_error] *)
Definition outcome_error (command_id : CommandId) (err : PgError) : Error :=
  if bool_decide (pg_code err = Some UNIQUE_VIOLATION) then OutcomeConflict command_id else statement_error err.

(** crates/evt/src/postgres.rs:1710-1716 [pool_error] *)
Definition pool_error (err : PoolError) : Error :=
  match err with
  | PoolTimeout => Transient (BoxText (pool_text err))
  | OtherPoolError => Types.Backend (BoxText (pool_text err))
  end.

(** crates/evt/src/postgres.rs:1720-1728 [projector_error] *)
Definition projector_error (err : PgError) : Error :=
  if transient err then Transient (pg_box err)
  else if is_db_error err then Projector (pg_box err)
  else pg_backend err.

(** crates/evt/src/postgres.rs:1931-1962 [view_error] *)
Definition view_error (view : ProjectedView) (key_constraint : option string) (err : PgError) : Error :=
  if transient err then Transient (pg_box err)
  else
    match err with
    | OtherPgError => pg_backend err
    | DbError code constraint =>
        let condition_failed :=
          bool_decide (code = UNIQUE_VIOLATION) && bool_decide (vo_kind (pv_op view) = Put)
          && bool_decide (vo_condition (pv_op view) = CondAbsent)
          && match key_constraint, constraint with
             | Some key, Some violated => eq_ignore_ascii_case violated key
             | _, _ => false
             end in
        ProjectorOperation (for_view view (if condition_failed then REASON_CONDITION_FAILED else code)
          (Some (OtherError (pg_text err))))
    end.

(** ** Connections *)

(** [let client = self.pool.get().await?], to the end of its scope. *)
Definition with_client {A} (body : nat → PProg A) : PProg A :=
  await? c := map_err_prog pool_error (call Connect) in
  await result := body c in
  await released := call (Release c) in
  Ret result.

(** crates/evt/src/postgres.rs:2005-2014 [read_committed] *)
Definition read_committed (c : nat) : PProg unit := map_err_prog pg_backend (call (Begin c)).

(** A connection with a transaction on it. *)
Definition with_transaction {A} (body : nat → PProg A) : PProg A :=
  with_client (λ c, await? begun := read_committed c in body c).

(** [tx.execute(sql, params).await.map_err(statement_error)]. *)
Definition execute (c : nat) (sql : string) (params : list SqlValue) : PProg Z :=
  map_err_prog statement_error (call (Execute c sql params)).

(** crates/evt/src/postgres.rs:344-361 [PostgresRepository::ensure_schema] *)
Definition ensure_schema (r : PostgresRepository) : PProg unit :=
  with_transaction (λ c,
    await? locked := map_err_prog pg_backend (call (Execute c "SELECT pg_advisory_xact_lock(1702261762, hashtext($1))"
      [VText (to_ascii_lowercase (pg_events_table r))])) in
    await? made := map_err_prog pg_backend (call (BatchExecute c (schema_ddl (pg_events_table r) (pg_snapshots_table r)))) in
    await? made := map_err_prog pg_backend (call (BatchExecute c (views_ddl (pg_events_table r)))) in
    map_err_prog pg_backend (call (CommitTx c))).

(** ** The manifest *)

(** crates/evt/src/postgres.rs:396-396 [PostgresRepository::read_manifest_in] *)
Definition REGCLASS : string := "SELECT to_regclass($1) IS NOT NULL".

(** crates/evt/src/postgres.rs:404-406 [PostgresRepository::read_manifest_in] *)
Definition select_manifest_sql (r : PostgresRepository) : string :=
  "SELECT version, features, history_dependent, retention FROM " +:+ features_table (pg_events_table r) +:+ " WHERE id = 0".

(** crates/evt/src/postgres.rs:387-418 [PostgresRepository::read_manifest_in] *)
Definition read_manifest_in (r : PostgresRepository) (c : nat) : PProg (option FeatureManifest) :=
  let table := features_table (pg_events_table r) in
  await? row := map_err_prog pg_backend (call (QueryOne c REGCLASS [VText table])) in
  await exists_ := get as_bool row 0 in
  if negb exists_ then Ret (Ok None)
  else
    await? row := map_err_prog pg_backend (call (QueryOpt c
      (select_manifest_sql r) [])) in
    match row with
    | None => Ret (Ok None)
    | Some row =>
        await version := get as_int row 0 in
        await features := get as_text row 1 in
        await history := get as_text row 2 in
        await retention := get as_text row 3 in
        Ret (let? manifest := from_attributes version features (Some history) (Some retention) in Ok (Some manifest))
    end.

(** crates/evt/src/postgres.rs:380-384 [PostgresRepository::read_manifest] *)
Definition pg_read_manifest (r : PostgresRepository) : PProg (option FeatureManifest) :=
  with_client (read_manifest_in r).

(** [set_json().unwrap_or_else(|| "[]".into())]. *)
Definition set_text (s : gset string) : string := if decide (s = ∅) then "[]" else json_string_set s.

(** crates/evt/src/postgres.rs:512-515 [PostgresRepository::declare]

    The statements of a declaration. *)
Definition insert_manifest_sql (r : PostgresRepository) : string :=
  "INSERT INTO " +:+ features_table (pg_events_table r) +:+
      " (id, version, features, history_dependent, retention) VALUES (0, $1, $2, $3, $4)".

(** crates/evt/src/postgres.rs:529-533 [PostgresRepository::declare]

    The update of a manifest at the version that was read. *)
Definition update_manifest_sql (r : PostgresRepository) : string :=
  "UPDATE " +:+ features_table (pg_events_table r) +:+
      " SET version = $1, features = $2, history_dependent = $3, retention = $4 WHERE id = 0 AND version = $5".

(** crates/evt/src/postgres.rs:502-562 [PostgresRepository::declare]

    The write, once the observed manifest may change. *)
Definition write_manifest (r : PostgresRepository) (c : nat) (observed : option FeatureManifest)
    (change : FeatureManifest → FeatureManifest) : PProg bool :=
  let next := with_version (change (default FeatureManifest_default observed))
    match observed with Some manifest => i64_add (fm_version manifest) 1 | None => 1 end in
  let table := features_table (pg_events_table r) in
  let values := [VInt (fm_version next); VText (json_feature_map (fm_features next));
    VText (set_text (fm_history_dependent next)); VText (set_text (fm_retention next))] in
  await? written :=
    match observed with
    | None =>
        map_err_prog pg_backend (call (Execute c
          (insert_manifest_sql r) values))
    | Some manifest =>
        await? written := map_err_prog pg_backend (call (Execute c
          (update_manifest_sql r)
          (values ++ [VInt (fm_version manifest)]))) in
        if written =? 0 then
          Ret (Err (Types.Backend (BoxText "the feature manifest moved during its declaration despite the exclusive lock")))
        else Ret (Ok written)
    end in
  await? committed := map_err_prog pg_backend (call (CommitTx c)) in
  await forgotten := call (MarkerCell (pg_handle r) (λ _, (None, tt))) in
  Ret (Ok true).

(** crates/evt/src/postgres.rs:488-492 [PostgresRepository::declare]

    Whether the tables hold anything. *)
Definition populated_sql (r : PostgresRepository) : string :=
  "SELECT EXISTS (SELECT 1 FROM " +:+ pg_events_table r +:+ ") OR EXISTS (SELECT 1 FROM " +:+
      pg_snapshots_table r +:+ ")".

(** crates/evt/src/postgres.rs:464-563 [PostgresRepository::declare] *)
Definition pg_declare (r : PostgresRepository) (change : FeatureManifest → FeatureManifest) (only_if_empty : bool)
  : PProg bool :=
  with_transaction (λ c,
    await? locked := execute c FEATURES_LOCK_EXCLUSIVE [VText (features_lock_key (pg_events_table r))] in
    await? observed := read_manifest_in r c in
    if only_if_empty then
      match match observed with
            | Some manifest => check? validate_supported manifest; Ok (declares_stream_heads manifest)
            | None => Ok false
            end with
      | Err error => Ret (Err error)
      | Ok true => Ret (Ok false)
      | Ok false =>
          await? row := map_err_prog pg_backend (call (QueryOne c
            (populated_sql r) [])) in
          await populated := get as_bool row 0 in
          if populated : bool then Ret (Err StreamHeadsNotMigrated) else write_manifest r c observed change
      end
    else write_manifest r c observed change).

(** crates/evt/src/postgres.rs:424-429 [PostgresRepository::update_manifest] *)
Definition pg_update_manifest (r : PostgresRepository) (change : FeatureManifest → FeatureManifest) : PProg unit :=
  await? declared := pg_declare r change false in Ret (Ok tt).

(** crates/evt/src/postgres.rs:441-444 [PostgresRepository::declare_stream_heads] *)
Definition pg_declare_stream_heads (r : PostgresRepository) : PProg unit := pg_update_manifest r declare_stream_heads.

(** crates/evt/src/postgres.rs:455-458 [PostgresRepository::initialize] *)
Definition pg_initialize (r : PostgresRepository) : PProg bool := pg_declare r declare_stream_heads true.

(** crates/evt/src/postgres.rs:636-645 [PostgresRepository::refuse_foreign_views] *)
Definition refuse_foreign_views (r : PostgresRepository) (observed : option FeatureManifest) : Result unit :=
  match match observed with Some manifest => fm_features manifest !! POSTGRES_VIEWS_FEATURE | None => None end with
  | Some version =>
      if negb (pg_views_table_target r) then Err (UnsupportedFeature POSTGRES_VIEWS_FEATURE version) else Ok tt
  | None => Ok tt
  end.

(** crates/evt/src/postgres.rs:574-590 [PostgresRepository::ensure_stream_heads] *)
Definition ensure_stream_heads (r : PostgresRepository) (journaling : bool) : PProg unit :=
  await cached := call (MarkerCell (pg_handle r) (λ marker, (marker, marker))) in
  match cached with
  | Some _ => Ret (Ok tt)
  | None =>
      await? observed := pg_read_manifest r in
      match check? refuse_foreign_views r observed; validate_marker_for_write observed journaling with
      | Ok _ => Ret (Ok tt)
      | Err StreamHeadsNotMigrated => await? initialized := pg_initialize r in Ret (Ok tt)
      | Err error => Ret (Err error)
      end
  end.

(** crates/evt/src/postgres.rs:613-632 [PostgresRepository::validate_for_write]

    With whether it resets the flag that says the views are declared. *)
Definition pg_validate_for_write (r : PostgresRepository) (observed : option FeatureManifest) (views : bool)
  : Result ValidatedMarker * bool :=
  match refuse_foreign_views r observed with
  | Err error => (Err error, false)
  | Ok _ =>
      let declared := match observed with
                      | Some manifest => bool_decide (is_Some (fm_features manifest !! POSTGRES_VIEWS_FEATURE))
                      | None => false
                      end in
      if views && pg_views_table_target r && negb declared then
        (Err (Transient (BoxText "the store no longer declares postgres-views; declaring it again")), true)
      else (validate_marker_for_write observed (pg_journaling r), false)
  end.

(** The flag is stored when the section that found it out ends. *)
Definition undeclare {A} (r : PostgresRepository) (result : Result A) (reset : bool) : PProg A :=
  if reset then await stored := call (FlagStore (pg_views_declared r) false) in Ret result else Ret result.

(** crates/evt/src/postgres.rs:688-703 [PostgresRepository::check_manifest] *)
Definition pg_check_manifest (r : PostgresRepository) (observed : option FeatureManifest) (views : bool) : PProg unit :=
  await checked := call (MarkerCell (pg_handle r) (λ cached,
    if negb (marker_matches cached observed) then
      match pg_validate_for_write r observed views with
      | (Ok validated, reset) => (Some validated, (Ok tt, reset))
      | (Err error, reset) => (cached, (Err error, reset))
      end
    else if views then
      match pg_validate_for_write r observed true with
      | (Ok _, reset) => (cached, (Ok tt, reset))
      | (Err error, reset) => (cached, (Err error, reset))
      end
    else (cached, (refuse_foreign_views r observed, false)))) in
  undeclare r checked.1 checked.2.

(** crates/evt/src/postgres/views.rs:34-40 [PgViewRepository]

    The pool is the repository's. *)
Record PgViewRepository := mkPgViewRepository { pgv_table : string; pgv_encoding_checked : nat }.

(** crates/evt/src/postgres/views.rs:52-58 [PgViewRepository::new] *)
Definition pg_views_new (events_table : string) (encoding_checked : nat) : PgViewRepository :=
  mkPgViewRepository (views_table events_table) encoding_checked.

(** crates/evt/src/postgres.rs:365-371 [PostgresRepository::view_repository] *)
Definition pg_view_repository (r : PostgresRepository) : PgViewRepository :=
  pg_views_new (pg_events_table r) (pg_encoding_checked r).

(** crates/evt/src/postgres/views.rs:106-106 [PgViewRepository::client]

    The encoding of the database. *)
Definition ENCODING_SQL : string := "SELECT current_setting('server_encoding')".

(** crates/evt/src/postgres/views.rs:101-121 [PgViewRepository::client]

    A connection whose database is known to be UTF-8. *)
Definition checked_client {A} (v : PgViewRepository) (body : nat → PProg A) : PProg A :=
  with_client (λ c,
    await checked := call (FlagLoad (pgv_encoding_checked v)) in
    if checked : bool then body c
    else
      await? row := map_err_prog statement_error (call (QueryOne c ENCODING_SQL [])) in
      await encoding := get as_text row 0 in
      if negb (bool_decide (encoding = "UTF8"%string)) then
        Ret (Err (InvalidConfig (Fmt
          "the PostgreSQL views table needs a UTF8 database, and this one is {encoding}" [encoding])))
      else
        await stored := call (FlagStore (pgv_encoding_checked v) true) in
        body c).

(** crates/evt/src/postgres/views.rs:96-98 [PgViewRepository::check_encoding] *)
Definition check_encoding (v : PgViewRepository) : PProg unit := checked_client v (λ _, Ret (Ok tt)).

(** crates/evt/src/postgres.rs:651-683 [PostgresRepository::ensure_views_declared] *)
Definition ensure_views_declared (r : PostgresRepository) : PProg unit :=
  await declared := (if pg_views_table_target r then call (FlagLoad (pg_views_declared r)) else Ret true) in
  if declared : bool then Ret (Ok tt)
  else
    await? checked := check_encoding (pg_view_repository r) in
    await? manifest := pg_read_manifest r in
    await? declared :=
      match match manifest with Some manifest => fm_features manifest !! POSTGRES_VIEWS_FEATURE | None => None end with
      | Some version =>
          Ret (if version =? POSTGRES_VIEWS_VERSION then Ok tt
               else Err (UnsupportedFeature POSTGRES_VIEWS_FEATURE version))
      | None =>
          pg_update_manifest r (λ manifest, mkManifest (fm_version manifest)
            (<[POSTGRES_VIEWS_FEATURE := POSTGRES_VIEWS_VERSION]> (fm_features manifest))
            (fm_history_dependent manifest) (fm_retention manifest))
      end in
    await stored := call (FlagStore (pg_views_declared r) true) in
    Ret (Ok tt).

(** crates/evt/src/postgres.rs:1341-1343 [PostgresRepository::declare_history_dependent] *)
Definition pg_declare_history (r : PostgresRepository) (types : list EntityType) : PProg unit :=
  await? manifest := pg_read_manifest r in
  let missing := missing_history manifest types in
  if nil_b missing then Ret (Ok tt)
  else pg_update_manifest r (λ manifest, extend_history manifest missing).

(** ** View statements *)

Definition refused (view : ProjectedView) (reason : string) : Error :=
  InvalidViewOperation (Fmt "projector {:?} (#{}) operation {}: {reason}"
    [pv_projector view; show (pv_projector_index view); show (pv_operation view); reason]).

(** crates/evt/src/postgres.rs:1748-1872 [views_table_statement] *)
Definition views_table_statement (table : string) (view : ProjectedView) : Result PgStatement :=
  let op := pv_op view in
  check? (if valid_utf8 (vo_payload op) then Ok tt else Err (refused view "the views table stores a UTF-8 payload"));
  check? check_each (λ x : string * string,
    if contains_nul x.2 then Err (refused view ("a PostgreSQL view " +:+ x.1 +:+ " cannot contain U+0000")) else Ok tt)
    [("pk"%string, vo_pk op); ("sk"%string, vo_sk op); ("owner"%string, vo_owner op);
     ("entity type"%string, vo_entity_type op); ("payload"%string, vo_payload op)];
  let key_bytes := slen (vo_entity_type op) + slen (vo_pk op) + slen (vo_sk op) in
  if MAX_VIEW_INDEX_KEY_BYTES <? key_bytes then
    Err (ViewKeyTooLong "entity type, pk and sk" key_bytes MAX_VIEW_INDEX_KEY_BYTES (pv_projector view) (pv_operation view))
  else
    let key := [VText (vo_pk op); VText (vo_sk op); VText (vo_owner op)] in
    let columns := "(pk, sk, entity_id, entity_type, payload, ttl)"%string in
    match vo_kind op, vo_condition op, vo_expected_payload op with
    | Put, _, Some expected =>
        if negb (valid_utf8 expected) then Err (refused view "an expected view payload must be UTF-8")
        else Ok (PgStatement_new
          ("UPDATE " +:+ table +:+
      " SET entity_type = $4, payload = $5, ttl = 0 WHERE pk = $1 AND sk = $2 AND entity_id = $3 AND payload = $6")
          (key ++ [VText (vo_entity_type op); VText (vo_payload op); VText expected]))
    | Put, CondAbsent, None =>
        Ok (with_key_constraint (PgStatement_new
          ("INSERT INTO " +:+ table +:+ " " +:+ columns +:+ " VALUES ($1, $2, $3, $4, $5, 0)")
          (key ++ [VText (vo_entity_type op); VText (vo_payload op)])) (table +:+ "_pkey"))
    | Put, CondPresent, None =>
        Ok (PgStatement_new
          ("UPDATE " +:+ table +:+
      " SET entity_type = $4, payload = $5, ttl = 0 WHERE pk = $1 AND sk = $2 AND entity_id = $3")
          (key ++ [VText (vo_entity_type op); VText (vo_payload op)]))
    | Put, CondNone, None =>
        Ok (PgStatement_new
          ("INSERT INTO " +:+ table +:+ " " +:+ columns +:+
      " VALUES ($1, $2, $3, $4, $5, 0) ON CONFLICT (pk, sk) DO UPDATE SET entity_type = EXCLUDED.entity_type, payload = EXCLUDED.payload, ttl = 0 WHERE " +:+
      table +:+ ".entity_id = EXCLUDED.entity_id")
          (key ++ [VText (vo_entity_type op); VText (vo_payload op)]))
    | Delete, CondPresent, _ =>
        Ok (PgStatement_new ("DELETE FROM " +:+ table +:+ " WHERE pk = $1 AND sk = $2 AND entity_id = $3") key)
    | Delete, _, _ =>
        Ok (PgStatement_new
          ("WITH gone AS (DELETE FROM " +:+ table +:+ " WHERE pk = $1 AND sk = $2 AND entity_id = $3) SELECT 1 FROM " +:+
      table +:+ " WHERE pk = $1 AND sk = $2 AND entity_id <> $3") key)
    end.

(** crates/evt/src/postgres.rs:286-316 [PostgresRepository::view_statements]

    The statement of a caller's writer. *)
Definition writer_statement (writer : ViewOperation → Result PgStatement) (view : ProjectedView) : Result PgStatement :=
  match vo_expected_payload (pv_op view) with
  | Some _ => Err (refused view "PostgreSQL does not apply an expected payload")
  | None =>
      let? statement := writer (pv_op view) in
      if is_blank (ps_sql statement) then Err (refused view "the view writer returned an empty statement")
      else if bool_decide (vo_kind (pv_op view) = Put) && bool_decide (vo_condition (pv_op view) = CondAbsent)
              && match ps_key_constraint statement with None => true | Some _ => false end then
        Err (refused view "the view writer must name the key constraint of a put that requires the row to be absent")
      else Ok statement
  end.

(** crates/evt/src/postgres.rs:264-318 [PostgresRepository::view_statements] *)
Definition view_statements (r : PostgresRepository) (views : list ProjectedView) : Result (list PgStatement) :=
  if nil_b views then Ok []
  else if pg_views_table_target r then collect (views_table_statement (views_table (pg_events_table r))) views
  else
    match pg_view_writer r with
    | None => Err (ViewsNotConfigured "postgres")
    | Some writer => collect (writer_statement writer) views
    end.

(** crates/evt/src/postgres.rs:596-605 [PostgresRepository::view_sizes] *)
Definition pg_view_sizes (r : PostgresRepository) (views : list ProjectedView) (statements : list PgStatement) : list Z :=
  if pg_views_table_target r then map (λ view, view_operation_size (pv_op view)) views
  else map pg_budget_size statements.

(** crates/evt/src/postgres.rs:1879-1887 [view_condition_failed] *)
Definition view_condition_failed (op : ViewOperation) (affected : Z) : bool :=
  match vo_kind op, vo_condition op with
  | Put, CondAbsent => false
  | Put, _ | Delete, CondPresent => affected =? 0
  | Delete, _ => 0 <? affected
  end.

(** crates/evt/src/postgres.rs:1891-1914 [run_view_statements] *)
Fixpoint run_view_statements (c : nat) (views : list (ProjectedView * PgStatement)) : PProg unit :=
  match views with
  | [] => Ret (Ok tt)
  | (view, statement) :: views =>
      await? affected := map_err_prog (view_error view (ps_key_constraint statement))
        (call (Execute c (ps_sql statement) (ps_params statement))) in
      if view_condition_failed (pv_op view) affected then Ret (Err (ProjectorOperation (condition_failed view)))
      else run_view_statements c views
  end.

(** crates/evt/src/postgres.rs:1732-1742 [journaled_scopes] *)
Definition journaled_scopes (views : list (ProjectedView * PgStatement)) : list string :=
  dedup (sort_by string_leb (omap (λ x : ProjectedView * PgStatement,
    if bool_decide (pv_projector x.1 = "journal"%string) then strip_prefix ROW_PARTITION_PREFIX (vo_pk (pv_op x.1))
    else None) views)).

(** ** Heads *)

(** crates/evt/src/postgres.rs:975-978 [PostgresRepository::stored_head]

    The stored head of a stream. *)
Definition select_head_sql (r : PostgresRepository) : string :=
  "SELECT head FROM " +:+ stream_heads_table (pg_events_table r) +:+ " WHERE entity_id = $1".

(** crates/evt/src/postgres.rs:970-985 [PostgresRepository::stored_head] *)
Definition stored_head (r : PostgresRepository) (c : nat) (entity_id : EntityId) : PProg EventSequence :=
  await? row := map_err_prog statement_error (call (QueryOpt c
    (select_head_sql r) [VText entity_id])) in
  match row with
  | Some row => await head := get as_int row 0 in Ret (Ok head)
  | None => Ret (Ok 0)
  end.

(** crates/evt/src/postgres.rs:994-1000 [PostgresRepository::derived_head]

    The head the rows of a stream have. *)
Definition derived_head_sql (r : PostgresRepository) : string :=
  "SELECT GREATEST(" +:+ NL +:+ "                 COALESCE((SELECT MAX(sequence) FROM " +:+
      pg_events_table r +:+ " WHERE entity_id = $1), 0)," +:+ NL +:+
      "                 COALESCE((SELECT MAX(event_sequence) FROM " +:+ pg_snapshots_table r +:+
      " WHERE entity_id = $1), 0))".

(** crates/evt/src/postgres.rs:989-1006 [PostgresRepository::derived_head] *)
Definition pg_derived_head (r : PostgresRepository) (c : nat) (entity_id : EntityId) : PProg EventSequence :=
  await? row := map_err_prog statement_error (call (QueryOne c
    (derived_head_sql r) [VText entity_id])) in
  await head := get as_int row 0 in Ret (Ok head).

(** crates/evt/src/postgres.rs:1014-1034 [PostgresRepository::probe] *)
Definition pg_probe (r : PostgresRepository) (c : nat) (entity_id : EntityId) : PProg (result (option EventSequence) Error) :=
  await? derived := pg_derived_head r c entity_id in
  await? stored := stored_head r c entity_id in
  match probe_first stored derived with
  | Settled => Ret (Ok (Ok (Some stored)))
  | Drift => Ret (Ok (Err (drift entity_id stored derived)))
  | Ahead =>
      await? rederived := pg_derived_head r c entity_id in
      Ret (Ok (if bool_decide (after_rederive stored rederived = Settled) then Ok None
               else Err (drift entity_id stored rederived)))
  end.

(** crates/evt/src/postgres.rs:1049-1052 [PostgresRepository::run_head_statement]

    The head of a stream that has none. *)
Definition insert_head_sql (r : PostgresRepository) : string :=
  "INSERT INTO " +:+ stream_heads_table (pg_events_table r) +:+ " (entity_id, entity_type, head) VALUES ($1, $2, $3)" +:+ NL +:+
      "                 ON CONFLICT (entity_id) DO NOTHING".

(** crates/evt/src/postgres.rs:1063-1063 [PostgresRepository::run_head_statement]

    The head of a stream, if it is the one the commit is on. *)
Definition update_head_sql (r : PostgresRepository) : string :=
  "UPDATE " +:+ stream_heads_table (pg_events_table r) +:+ " SET head = $3 WHERE entity_id = $1 AND head = $2".

(** crates/evt/src/postgres.rs:1038-1077 [PostgresRepository::run_head_statement] *)
Definition run_head_statement (r : PostgresRepository) (c : nat) (stream : PCommit) : PProg bool :=
  match cm_events stream, last_event (cm_events stream) with
  | first :: _, Some last =>
      await? affected :=
        (if ev_sequence first <=? 1 then
           execute c (insert_head_sql r)
             [VText (cm_entity_id stream); VText (ev_entity_type first); VInt (ev_sequence last)]
         else
           execute c (update_head_sql r)
             [VText (cm_entity_id stream); VInt (ev_sequence first - 1); VInt (ev_sequence last)]) in
      Ret (Ok (affected =? 1))
  | _, _ => Ret (Ok true)
  end.

(** crates/evt/src/postgres.rs:939-943 [PostgresRepository::assert_no_rebuild_lock]

    Whether a rebuild holds the fence. *)
Definition rebuild_held_sql (r : PostgresRepository) : string :=
  "SELECT EXISTS (SELECT 1 FROM " +:+ rebuild_lock_table (pg_events_table r) +:+
      " WHERE id = 0) OR EXISTS (SELECT 1 FROM " +:+ rebuild_generation_table (pg_events_table r) +:+
      " WHERE id = 0 AND value % 2 <> 0)".

(** crates/evt/src/postgres.rs:908-953 [PostgresRepository::assert_no_rebuild_lock] *)
Definition assert_no_rebuild_lock (r : PostgresRepository) (c : nat) : PProg unit :=
  await? locked := execute c FEATURES_LOCK_SHARED [VText (pg_rebuild_lock_key (pg_events_table r))] in
  let table := rebuild_lock_table (pg_events_table r) in
  await ready := call (FlagLoad (pg_rebuild_ready r)) in
  await? exists_ :=
    (if ready : bool then Ret (Ok true)
     else
       await? row := map_err_prog statement_error (call (QueryOne c REGCLASS [VText table])) in
       await exists_ := get as_bool row 0 in
       if negb exists_ then Ret (Ok false)
       else await stored := call (FlagStore (pg_rebuild_ready r) true) in Ret (Ok true)) in
  if negb exists_ then Ret (Ok tt)
  else
    await? row := map_err_prog statement_error (call (QueryOne c
      (rebuild_held_sql r) [])) in
    await held := get as_bool row 0 in
    Ret (if held : bool then Err RebuildInProgress else Ok tt).

(** ** Snapshots and outcomes *)

(** crates/evt/src/postgres.rs:810-813 [PostgresRepository::check_snapshot_predecessor]

    The sequence of the stored snapshot. *)
Definition select_snapshot_sequence_sql (r : PostgresRepository) : string :=
  "SELECT sequence FROM " +:+ pg_snapshots_table r +:+ " WHERE entity_id = $1".

(** crates/evt/src/postgres.rs:804-834 [PostgresRepository::check_snapshot_predecessor] *)
Definition check_snapshot_predecessor (r : PostgresRepository) (c : nat) (entity_id : EntityId) (sequence : Z) : PProg unit :=
  await? row := map_err_prog statement_error (call (QueryOpt c
    (select_snapshot_sequence_sql r) [VText entity_id])) in
  match row with
  | None =>
      Ret (if negb (sequence =? 1) then
             Err (Conflict entity_id (Fmt "snapshot sequence {sequence} has no stored predecessor" [show sequence]))
           else Ok tt)
  | Some row =>
      await stored := get as_int row 0 in
      Ret (if negb (stored =? sequence - 1) then
             Err (Conflict entity_id (Fmt "snapshot sequence moved: stored {stored}, commit writes {sequence}"
               [show stored; show sequence]))
           else Ok tt)
  end.

(** crates/evt/src/postgres.rs:838-865 [PostgresRepository::insert_outcome] *)
Definition insert_outcome (r : PostgresRepository) (c : nat) (outcome : Outcome) : PProg unit :=
  await? row := Ret (from_outcome outcome) in
  await? inserted := map_err_prog (outcome_error (oc_command_id outcome)) (call (Execute c
    (insert_outcome_sql (pg_events_table r))
    [VText (or_command_id row); VText (or_status row); VText (or_digest row); opt_bytes (or_response row);
     VText (or_events row); opt_text (or_rejection row); opt_text (or_code row); opt_text (or_command_type row);
     opt_text (or_targets row); opt_text (or_principal row)])) in
  Ret (Ok tt).

(** crates/evt/src/postgres.rs:872-882 [PostgresRepository::upsert_snapshot]

    A snapshot that does not go back. *)
Definition upsert_snapshot_sql (r : PostgresRepository) : string :=
  let table := pg_snapshots_table r in
  "INSERT INTO " +:+ table +:+ " (entity_id, entity_type, sequence, event_sequence, payload, updated_at)" +:+
      NL +:+ "             VALUES ($1, $2, $3, $4, $5, now())" +:+ NL +:+
      "             ON CONFLICT (entity_id) DO UPDATE SET" +:+ NL +:+
      "                 entity_type = EXCLUDED.entity_type," +:+ NL +:+
      "                 sequence = EXCLUDED.sequence," +:+ NL +:+
      "                 event_sequence = EXCLUDED.event_sequence," +:+ NL +:+
      "                 payload = EXCLUDED.payload," +:+ NL +:+ "                 updated_at = now()" +:+ NL +:+
      "             WHERE EXCLUDED.event_sequence >= " +:+ table +:+ ".event_sequence".

(** crates/evt/src/postgres.rs:867-898 [PostgresRepository::upsert_snapshot] *)
Definition upsert_snapshot (r : PostgresRepository) (c : nat) (snapshot : SnapshotRow) : PProg Z :=
  execute c
    (upsert_snapshot_sql r)
    [VText (sr_entity_id snapshot); VText (sr_entity_type snapshot); VInt (sr_sequence snapshot);
     VInt (sr_event_sequence snapshot); VBytes (sr_payload snapshot)].

(** ** Committing *)

(** crates/evt/src/postgres.rs:1126-1130 [PostgresRepository::write_commit] *)
Fixpoint lock_entities (c : nat) (ids : list string) : PProg unit :=
  match ids with
  | [] => Ret (Ok tt)
  | id :: ids => await? locked := execute c ENTITY_LOCK [VText id] in lock_entities c ids
  end.

(** crates/evt/src/postgres.rs:1155-1158 [PostgresRepository::write_commit]

    Whether an outcome is recorded. *)
Definition outcome_exists_sql (r : PostgresRepository) : string :=
  "SELECT 1 FROM " +:+ outcomes_table (pg_events_table r) +:+ " WHERE command_id = $1".

(** crates/evt/src/postgres.rs:1154-1169 [PostgresRepository::write_commit] *)
Definition check_outcome_absent (r : PostgresRepository) (c : nat) (outcome : option Outcome) : PProg unit :=
  match outcome with
  | None => Ret (Ok tt)
  | Some outcome =>
      await? row := map_err_prog statement_error (call (QueryOpt c
        (outcome_exists_sql r)
        [VText (oc_command_id outcome)])) in
      Ret match row with Some _ => Err (OutcomeConflict (oc_command_id outcome)) | None => Ok tt end
  end.

(** crates/evt/src/postgres.rs:957-961 [HeadStatement] *)
Record HeadStatement := mkHeadStatement { hs_stream : PCommit; hs_first : EventSequence; hs_passed : bool }.

(** crates/evt/src/postgres.rs:1172-1179 [PostgresRepository::write_commit] *)
Fixpoint run_head_statements (r : PostgresRepository) (c : nat) (written : list PCommit) : PProg (list HeadStatement) :=
  match written with
  | [] => Ret (Ok [])
  | stream :: written =>
      match cm_events stream with
      | [] => Panic
      | first :: _ =>
          await? passed := run_head_statement r c stream in
          await? statements := run_head_statements r c written in
          Ret (Ok (mkHeadStatement stream (ev_sequence first) passed :: statements))
      end
  end.

(** crates/evt/src/postgres.rs:1181-1194 [PostgresRepository::write_commit] *)
Fixpoint failed_fences (r : PostgresRepository) (c : nat) (written : list PCommit) (fences : list ReadFence)
  : PProg (list ReadFence) :=
  match fences with
  | [] => Ret (Ok [])
  | fence :: fences =>
      if existsb (λ stream, bool_decide (cm_entity_id stream = fe_entity_id fence)) written then
        failed_fences r c written fences
      else
        await? stored := stored_head r c (fe_entity_id fence) in
        await? failed := failed_fences r c written fences in
        Ret (Ok (if negb (stored =? fe_head fence) then fence :: failed else failed))
  end.

(** crates/evt/src/postgres.rs:1198-1206 [PostgresRepository::write_commit] *)
Fixpoint head_verdicts (r : PostgresRepository) (c : nat) (statements : list HeadStatement) : PProg (list Error) :=
  match statements with
  | [] => Ret (Ok [])
  | statement :: statements =>
      if hs_passed statement then head_verdicts r c statements
      else
        let entity_id := cm_entity_id (hs_stream statement) in
        await? probed := pg_probe r c entity_id in
        await? verdicts := head_verdicts r c statements in
        Ret (Ok (match probed with
                 | Err drift => drift
                 | Ok (Some stored) => gap_or_conflict entity_id (hs_first statement) stored
                 | Ok None => conflict entity_id
                 end :: verdicts))
  end.

(** crates/evt/src/postgres.rs:1207-1212 [PostgresRepository::write_commit] *)
Fixpoint pg_fence_verdicts (r : PostgresRepository) (c : nat) (fences : list ReadFence) : PProg (list Error) :=
  match fences with
  | [] => Ret (Ok [])
  | fence :: fences =>
      await? probed := pg_probe r c (fe_entity_id fence) in
      await? verdicts := pg_fence_verdicts r c fences in
      Ret (Ok (match probed with Err drift => drift | Ok _ => fence_conflict fence end :: verdicts))
  end.

(** crates/evt/src/postgres.rs:1219-1224 [PostgresRepository::write_commit] *)
Definition insert_event_sql (r : PostgresRepository) : string :=
  "INSERT INTO " +:+ pg_events_table r +:+
      " (entity_id, sequence, event_id, event_type, version, entity_type, payload, metadata)" +:+ NL +:+
      "             VALUES ($1, $2, $3, $4, $5, $6, $7, $8::text::jsonb)" +:+ NL +:+
      "             ON CONFLICT (entity_id, sequence) DO NOTHING".

(** crates/evt/src/postgres.rs:1228-1254 [PostgresRepository::write_commit] *)
Fixpoint insert_stream_events (r : PostgresRepository) (c : nat) (statement : HeadStatement) (events : list SerializedEvent)
  : PProg unit :=
  match events with
  | [] => Ret (Ok tt)
  | event :: events =>
      let entity_id := cm_entity_id (hs_stream statement) in
      await? row := Ret (from_event event) in
      await? inserted := map_err_prog (pg_classify entity_id) (call (Execute c (insert_event_sql r)
        [VText (er_entity_id row); VInt (er_sequence row); VText (er_event_id row); VText (er_event_type row);
         VInt (er_version row); VText (er_entity_type row); VBytes (er_payload row); VText (er_metadata row)])) in
      if inserted =? 0 then
        await? derived := pg_derived_head r c entity_id in
        Ret (Err (drift entity_id (hs_first statement - 1) derived))
      else insert_stream_events r c statement events
  end.

(** crates/evt/src/postgres.rs:1225-1255 [PostgresRepository::write_commit] *)
Fixpoint insert_all_events (r : PostgresRepository) (c : nat) (statements : list HeadStatement) : PProg unit :=
  match statements with
  | [] => Ret (Ok tt)
  | statement :: statements =>
      await? inserted := insert_stream_events r c statement (cm_events (hs_stream statement)) in
      insert_all_events r c statements
  end.

(** crates/evt/src/postgres.rs:1259-1268 [PostgresRepository::write_commit] *)
Fixpoint run_operations (c : nat) (operations : list PgStatement) : PProg unit :=
  match operations with
  | [] => Ret (Ok tt)
  | statement :: operations =>
      await? ran := map_err_prog projector_error (call (Execute c (ps_sql statement) (ps_params statement))) in
      run_operations c operations
  end.

(** crates/evt/src/postgres.rs:1284-1284 [PostgresRepository::write_commit]

    A notification of each scope, in order. *)
Definition NOTIFY_SQL : string :=
  "SELECT pg_notify($1, scope) FROM unnest($2::text[]) WITH ORDINALITY AS s(scope, n) ORDER BY n".

(** crates/evt/src/postgres.rs:1276-1290 [PostgresRepository::write_commit] *)
Definition notify_journaled (r : PostgresRepository) (c : nat) (views : list (ProjectedView * PgStatement)) : PProg unit :=
  let scopes := journaled_scopes views in
  if pg_wakeups r && pg_views_table_target r && negb (nil_b scopes) then
    await? notified := execute c NOTIFY_SQL
      [VText (journal_channel (pg_events_table r)); VTexts scopes] in
    Ret (Ok tt)
  else Ret (Ok tt).

(** crates/evt/src/postgres.rs:1295-1315 [PostgresRepository::write_commit] *)
Fixpoint write_snapshots (r : PostgresRepository) (c : nat) (statements : list HeadStatement) : PProg unit :=
  match statements with
  | [] => Ret (Ok tt)
  | statement :: statements =>
      let stream := hs_stream statement in
      match cm_snapshot stream with
      | None => write_snapshots r c statements
      | Some snapshot =>
          await? checked := check_snapshot_predecessor r c (cm_entity_id stream) (ns_sequence snapshot) in
          match last_event (cm_events stream) with
          | None => Panic
          | Some last =>
              await? written := upsert_snapshot r c (mkSnapshotRow (cm_entity_id stream) (ns_entity_type snapshot)
                (ns_sequence snapshot) (ev_sequence last) (ns_payload snapshot)) in
              write_snapshots r c statements
          end
      end
  end.

(** crates/evt/src/postgres.rs:1154-1325 [PostgresRepository::write_commit]

    From the outcome check on, in the transaction. *)
Definition write_rows (r : PostgresRepository) (c : nat) (written : list PCommit) (fences : list ReadFence)
    (operations : list PgStatement) (views : list (ProjectedView * PgStatement)) (outcome : option Outcome) : PProg unit :=
  await? fresh := check_outcome_absent r c outcome in
  await? statements := run_head_statements r c written in
  await? failed := failed_fences r c written fences in
  await? heads := head_verdicts r c statements in
  await? fences := pg_fence_verdicts r c failed in
  match rank (heads ++ fences) with
  | Some error => Ret (Err error)
  | None =>
      await? inserted := insert_all_events r c statements in
      await? ran := run_operations c operations in
      await? ran := run_view_statements c views in
      await? notified := notify_journaled r c views in
      await? covered := write_snapshots r c statements in
      await? recorded := match outcome with Some outcome => insert_outcome r c outcome | None => Ret (Ok tt) end in
      map_err_prog (λ err, commit_error err match outcome with Some _ => true | None => false end) (call (CommitTx c))
  end.

(** crates/evt/src/postgres.rs:1095-1325 [PostgresRepository::write_commit] *)
Definition write_commit (r : PostgresRepository) (streams : list PCommit) (fences : list ReadFence)
    (operations : list PgStatement) (views : list (ProjectedView * PgStatement)) (outcome : option Outcome)
    (check_retention : option FeatureManifest → Result unit) : PProg unit :=
  let written := List.filter (λ stream, negb (nil_b (cm_events stream))) streams in
  await? headed := ensure_stream_heads r (pg_journaling r) in
  await? declared := ensure_views_declared r in
  with_transaction (λ c,
    let ids := dedup (sort_by string_leb (map cm_entity_id written ++ map fe_entity_id fences)) in
    await? locked := lock_entities c ids in
    await? locked := execute c FEATURES_LOCK_SHARED [VText (features_lock_key (pg_events_table r))] in
    await? manifest := read_manifest_in r c in
    await? checked := pg_check_manifest r manifest (pg_views_table_target r) in
    await? retained := Ret (check_retention manifest) in
    await? free := assert_no_rebuild_lock r c in
    write_rows r c written fences operations views outcome).

(** crates/evt/src/postgres.rs:1345-1376 [PostgresRepository::commit] *)
Definition pg_commit (r : PostgresRepository) (commit : PCommit) : PProg unit :=
  await? checked := Ret (check? validate commit; check_not_reserved (cm_entity_id commit)) in
  if nil_b (cm_events commit) && match cm_outcome commit with None => true | Some _ => false end then Ret (Ok tt)
  else
    let outcome := stored_outcome commit in
    await? statements := Ret (view_statements r (cm_views commit)) in
    await? sizes := Ret (commit_sizes commit (λ _, None)) in
    await? fits := Ret (check_budget
      (sizes ++ map pg_budget_size (cm_operations commit) ++ pg_view_sizes r (cm_views commit) statements)) in
    write_commit r [commit] [] (cm_operations commit) (zip (cm_views commit) statements) outcome (λ _, Ok tt).

(** crates/evt/src/postgres.rs:1378-1412 [PostgresRepository::commit_transaction] *)
Definition pg_commit_transaction (r : PostgresRepository) (commit : PTransaction) : PProg unit :=
  await? commit := Ret (normalize commit) in
  if transaction_is_empty commit then Ret (Ok tt)
  else
    let outcome := transaction_stored_outcome commit in
    await? statements := Ret (view_statements r (tc_views commit)) in
    await? sizes := Ret (transaction_sizes commit (λ _, None)) in
    await? fits := Ret (check_budget
      (sizes ++ map pg_budget_size (tc_operations commit) ++ pg_view_sizes r (tc_views commit) statements)) in
    write_commit r (tc_streams commit) (tc_fences commit) (tc_operations commit) (zip (tc_views commit) statements) outcome
      (λ manifest, check_retention commit manifest (λ _, false)).

(** ** Reading *)

(** crates/evt/src/postgres.rs:713-737 [PostgresRepository::outcome_row] *)
Definition outcome_row (r : PostgresRepository) (command_id : CommandId) : PProg (option OutcomeRow) :=
  await? checked := Ret (check_command_id command_id) in
  with_client (λ c,
    await? row := map_err_prog statement_error
      (call (QueryOpt c (select_outcome_sql (pg_events_table r)) [VText command_id])) in
    match row with
    | None => Ret (Ok None)
    | Some row =>
        await status := get as_text row 0 in
        await digest := get as_text row 1 in
        await response := get (nullable as_bytes) row 2 in
        await events := get as_text row 3 in
        await rejection := get (nullable as_text) row 4 in
        await code := get (nullable as_text) row 5 in
        await command_type := get (nullable as_text) row 6 in
        await targets := get (nullable as_text) row 7 in
        await principal := get (nullable as_text) row 8 in
        Ret (Ok (Some (mkOutcomeRow command_id status digest response events rejection code command_type targets principal)))
    end).

(** crates/evt/src/postgres.rs:1424-1431 [PostgresRepository::outcome] *)
Definition pg_outcome (r : PostgresRepository) (command_id : CommandId) : PProg (option Outcome) :=
  await? checked := Ret (check_command_id command_id) in
  await? row := outcome_row r command_id in
  Ret (transposed into_outcome row).

(** crates/evt/src/postgres.rs:742-745 [PostgresRepository::snapshot_row] *)
Definition select_snapshot_sql (r : PostgresRepository) : string :=
  "SELECT entity_type, entity_id, sequence, event_sequence, payload FROM " +:+ pg_snapshots_table r +:+
      " WHERE entity_id = $1".

(** crates/evt/src/postgres.rs:740-759 [PostgresRepository::snapshot_row] *)
Definition snapshot_row (r : PostgresRepository) (entity_id : EntityId) : PProg (option SnapshotRow) :=
  with_client (λ c,
    await? row := map_err_prog pg_backend (call (QueryOpt c
      (select_snapshot_sql r)
      [VText entity_id])) in
    match row with
    | None => Ret (Ok None)
    | Some row =>
        await entity_type := get as_text row 0 in
        await entity_id := get as_text row 1 in
        await sequence := get as_int row 2 in
        await event_sequence := get as_int row 3 in
        await payload := get as_bytes row 4 in
        Ret (Ok (Some (mkSnapshotRow entity_id entity_type sequence event_sequence payload)))
    end).

(** crates/evt/src/postgres.rs:1496-1501 [PostgresRepository::snapshot] *)
Definition pg_snapshot (r : PostgresRepository) (entity_id : EntityId) : PProg (option SerializedSnapshot) :=
  await? row := snapshot_row r entity_id in Ret (Ok (option_map into_snapshot row)).

(** crates/evt/src/postgres.rs:788-797 [PostgresRepository::select_events] *)
Definition event_row_of (row : Row) : Tree PgCall EventRow :=
  await event_id := get as_text row 0 in
  await sequence := get as_int row 1 in
  await event_type := get as_text row 2 in
  await version := get as_int row 3 in
  await entity_id := get as_text row 4 in
  await entity_type := get as_text row 5 in
  await payload := get as_bytes row 6 in
  await metadata := get as_text row 7 in
  Ret (mkEventRow entity_id sequence event_id event_type version entity_type payload metadata).

Fixpoint event_rows_of (rows : list Row) : Tree PgCall (list EventRow) :=
  match rows with
  | [] => Ret []
  | row :: rows => await row := event_row_of row in await rows := event_rows_of rows in Ret (row :: rows)
  end.

(** crates/evt/src/postgres.rs:770-773 [PostgresRepository::select_events]

    The events of a stream, in order. *)
Definition select_events_sql (r : PostgresRepository) : string :=
  "SELECT " +:+ EVENT_COLUMNS +:+ " FROM " +:+ pg_events_table r +:+
      " WHERE entity_id = $1 ORDER BY sequence ASC".

(** crates/evt/src/postgres.rs:777-780 [PostgresRepository::select_events]

    Those after a sequence. *)
Definition select_events_after_sql (r : PostgresRepository) : string :=
  "SELECT " +:+ EVENT_COLUMNS +:+ " FROM " +:+ pg_events_table r +:+
      " WHERE entity_id = $1 AND sequence > $2 ORDER BY sequence ASC".

(** crates/evt/src/postgres.rs:761-799 [PostgresRepository::select_events] *)
Definition select_events (r : PostgresRepository) (entity_id : EntityId) (after : option EventSequence)
  : PProg (list EventRow) :=
  with_client (λ c,
    await? rows := map_err_prog pg_backend match after with
      | None => call (QueryAll c
          (select_events_sql r) [VText entity_id])
      | Some after => call (QueryAll c
          (select_events_after_sql r)
          [VText entity_id; VInt after])
      end in
    await rows := event_rows_of rows in
    Ret (Ok rows)).

(** crates/evt/src/postgres.rs:707-709 [PostgresRepository::event_rows] *)
Definition event_rows (r : PostgresRepository) (entity_id : EntityId) : PProg (list EventRow) := select_events r entity_id None.

(** crates/evt/src/postgres.rs:1433-1439 [PostgresRepository::events] *)
Definition pg_events (r : PostgresRepository) (entity_id : EntityId) : PProg (list SerializedEvent) :=
  await? rows := select_events r entity_id None in Ret (collect into_event rows).

(** crates/evt/src/postgres.rs:1441-1451 [PostgresRepository::events_after] *)
Definition pg_events_after (r : PostgresRepository) (entity_id : EntityId) (after : EventSequence) : PProg (list SerializedEvent) :=
  await? rows := select_events r entity_id (Some after) in Ret (collect into_event rows).

(** crates/evt/src/postgres.rs:1465-1468 [PostgresRepository::latest]

    The last events of a stream, the last first. *)
Definition select_latest_sql (r : PostgresRepository) : string :=
  "SELECT " +:+ EVENT_COLUMNS +:+ " FROM " +:+ pg_events_table r +:+
      " WHERE entity_id = $1 ORDER BY sequence DESC LIMIT $2".

(** crates/evt/src/postgres.rs:1453-1494 [PostgresRepository::latest] *)
Definition pg_latest (r : PostgresRepository) (entity_id : EntityId) (count : Z) : PProg (list SerializedEvent) :=
  if count =? 0 then Ret (Err (InvalidArgument (Fmt "latest(n) requires at least one event: got n = 0" [])))
  else
    with_client (λ c,
      await? rows := map_err_prog pg_backend (call (QueryAll c
        (select_latest_sql r)
        [VText entity_id; VInt (Z.min count i64_max)])) in
      await rows := event_rows_of rows in
      Ret (collect into_event rows)).

(** crates/evt/src/postgres.rs:1503-1539 [PostgresRepository::put_snapshot] *)
Definition pg_put_snapshot (r : PostgresRepository) (snapshot : SerializedSnapshot) : PProg bool :=
  await? checked := Ret (check_not_reserved (sn_entity_id snapshot)) in
  await? headed := ensure_stream_heads r (pg_journaling r) in
  with_transaction (λ c,
    await? locked := execute c ENTITY_LOCK [VText (sn_entity_id snapshot)] in
    await? locked := execute c FEATURES_LOCK_SHARED [VText (features_lock_key (pg_events_table r))] in
    await? manifest := read_manifest_in r c in
    await? checked := pg_check_manifest r manifest false in
    await? head := stored_head r c (sn_entity_id snapshot) in
    if (0 <? sn_event_sequence snapshot) && (head <? sn_event_sequence snapshot) then
      await? derived := pg_derived_head r c (sn_entity_id snapshot) in
      Ret (Err (drift (sn_entity_id snapshot) head (Z.max derived (sn_event_sequence snapshot))))
    else
      await? written := upsert_snapshot r c (from_snapshot snapshot) in
      await? committed := map_err_prog statement_error (call (CommitTx c)) in
      Ret (Ok (0 <? written))).

(** crates/evt/src/postgres.rs:1565-1568 [PostgresRepository::compact_below]

    The type and the cover of a snapshot. *)
Definition select_cover_sql (r : PostgresRepository) : string :=
  "SELECT entity_type, event_sequence FROM " +:+ pg_snapshots_table r +:+ " WHERE entity_id = $1".

(** crates/evt/src/postgres.rs:1593-1596 [PostgresRepository::compact_below]

    The events at or below a sequence. *)
Definition delete_events_sql (r : PostgresRepository) : string :=
  "DELETE FROM " +:+ pg_events_table r +:+ " WHERE entity_id = $1 AND sequence >= 1 AND sequence <= $2".

(** crates/evt/src/postgres.rs:1565-1603 [PostgresRepository::compact_below]

    In the transaction, once the manifest is read. *)
Definition compact_read (r : PostgresRepository) (c : nat) (manifest : option FeatureManifest) (entity_id : EntityId)
    (through : EventSequence) : PProg Z :=
  let validated := pg_validate_for_write r manifest false in
  await? validated := undeclare r validated.1 validated.2 in
  await? snapshot := map_err_prog pg_backend (call (QueryOpt c
    (select_cover_sql r) [VText entity_id])) in
  await covered := match snapshot with
                   | Some row => await covered := get as_int row 1 in Ret (Some covered)
                   | None => Ret None
                   end in
  if match covered with Some covered => covered <? through | None => true end then
    Ret (Err (CompactionUncovered entity_id through covered))
  else
    await? allowed :=
      match manifest, snapshot with
      | Some manifest, Some row =>
          await entity_type := get as_text row 0 in
          Ret (if is_history_dependent manifest entity_type then Err (HistoryDependentProjection entity_type entity_id)
               else Ok tt)
      | _, _ => Ret (Ok tt)
      end in
    await? deleted := map_err_prog pg_backend (call (Execute c
      (delete_events_sql r)
      [VText entity_id; VInt through])) in
    await? committed := map_err_prog pg_backend (call (CommitTx c)) in
    Ret (Ok deleted).

(** crates/evt/src/postgres.rs:1541-1604 [PostgresRepository::compact_below] *)
Definition pg_compact_below (r : PostgresRepository) (entity_id : EntityId) (through : EventSequence) : PProg Z :=
  await? checked := Ret (check_not_reserved entity_id) in
  if through <? 1 then Ret (Ok 0)
  else
    with_transaction (λ c,
      await? locked := execute c FEATURES_LOCK_SHARED [VText (features_lock_key (pg_events_table r))] in
      await? manifest := read_manifest_in r c in
      compact_read r c manifest entity_id through).

Fixpoint heads_of (rows : list Row) : Tree PgCall (gmap EntityId EventSequence) :=
  match rows with
  | [] => Ret ∅
  | row :: rows =>
      await entity_id := get as_text row 0 in
      await head := get as_int row 1 in
      await heads := heads_of rows in
      Ret (if decide (is_Some (heads !! entity_id)) then heads else <[entity_id := head]> heads)
  end.

(** crates/evt/src/postgres.rs:1620-1645 [PostgresRepository::entity_heads]

    The heads of the streams, as stored or as their rows have them. *)
Definition select_heads_sql (r : PostgresRepository) (declared : bool) : string :=
  if declared then
      "SELECT entity_id, head FROM " +:+ stream_heads_table (pg_events_table r) +:+ NL +:+
      "                 WHERE ($1::text IS NULL OR entity_type = $1)" +:+ NL +:+
      "                     AND entity_id NOT LIKE '" +:+ SYSTEM_PREFIX +:+ "%'" +:+ NL +:+
      "                     AND entity_id NOT LIKE '" +:+ COMMAND_OUTCOME_PREFIX +:+ "%'"
       else
      "SELECT entity_id, MAX(head) AS head FROM (" +:+ NL +:+
      "                     SELECT entity_id, sequence AS head, entity_type FROM " +:+ pg_events_table r +:+ NL +:+
      "                     UNION ALL" +:+ NL +:+
      "                     SELECT entity_id, event_sequence AS head, entity_type FROM " +:+
      pg_snapshots_table r +:+ NL +:+ "                 ) sources" +:+ NL +:+
      "                 WHERE ($1::text IS NULL OR entity_type = $1)" +:+ NL +:+
      "                     AND entity_id NOT LIKE '" +:+ SYSTEM_PREFIX +:+ "%'" +:+ NL +:+
      "                     AND entity_id NOT LIKE '" +:+ COMMAND_OUTCOME_PREFIX +:+ "%'" +:+ NL +:+
      "                 GROUP BY entity_id".

(** crates/evt/src/postgres.rs:1606-1660 [PostgresRepository::entity_heads] *)
Definition pg_entity_heads (r : PostgresRepository) (entity_type : option EntityType) : PProg (gmap EntityId EventSequence) :=
  await? manifest := pg_read_manifest r in
  let declared := match manifest with Some manifest => declares_stream_heads manifest | None => false end in
  with_client (λ c,
    await? rows := map_err_prog pg_backend (call (QueryAll c
      (select_heads_sql r declared)
      [opt_text entity_type])) in
    await heads := heads_of rows in
    Ret (Ok heads)).
End pg.

(** ** Names *)

(** The characters of an identifier that needs no quotes and folds to itself. *)
Definition plain_char (c : ascii) : bool :=
  ((97 <=? byte_of c) && (byte_of c <=? 122)) || is_ascii_digit c || Ascii.eqb c "_".

Lemma all_chars_app p a b : all_chars p (a +:+ b) = all_chars p a && all_chars p b.
Proof. induction a as [|c a IH]; [done|]. simpl. by rewrite IH, andb_assoc. Qed.

Lemma slen_app a b : slen (a +:+ b) = slen a + slen b.
Proof.
  unfold slen. rewrite <- Nat2Z.inj_add. f_equal. induction a as [|c a IH]; [done|]. simpl. by rewrite IH.
Qed.

Lemma lowercase_length s : slen (to_ascii_lowercase s) = slen s.
Proof. unfold slen. induction s as [|c s IH]; [done|]. simpl in *. lia. Qed.

Lemma lower_plain c : is_ascii_alphabetic c || Ascii.eqb c "_" || is_ascii_digit c = true → plain_char (ascii_lower c) = true.
Proof. destruct c as [[] [] [] [] [] [] [] []]; vm_compute; auto. Qed.

Lemma lowercase_plain s :
  all_chars (λ c, is_ascii_alphabetic c || Ascii.eqb c "_" || is_ascii_digit c) s = true →
  all_chars plain_char (to_ascii_lowercase s) = true.
Proof.
  induction s as [|c s IH]; [done|]. simpl. intros [Hc Hs]%andb_true_iff. by rewrite (lower_plain c Hc), IH.
Qed.

Lemma valid_identifier name max :
  is_valid_identifier name max = true →
  slen name ≤ max ∧ all_chars plain_char (to_ascii_lowercase name) = true.
Proof.
  unfold is_valid_identifier. intros [[Hl Hn]%andb_true_iff _]%andb_true_iff. split; [lia|].
  destruct name as [|c name]; [done|]. apply andb_true_iff in Hn as [Hc Hn]. apply lowercase_plain. simpl.
  by rewrite Hn, andb_true_r, Hc.
Qed.

Lemma first_repeated_NoDup seen rest :
  first_repeated seen rest = None → NoDup rest ∧ ∀ name, name ∈ seen → name ∉ rest.
Proof.
  revert seen. induction rest as [|name rest IH]; intros seen; simpl; [by split; [constructor|set_solver]|].
  destruct (existsb (String.eqb name) seen) eqn:Hs; [done|]. intros Hr. destruct (IH _ Hr) as [Hnd Hseen].
  assert (name ∉ seen) as Hn.
  { intros Hin. apply not_true_iff_false in Hs. apply Hs, existsb_exists. exists name.
    rewrite <- list_elem_of_In, String.eqb_eq. done. }
  split; [constructor; [|done]; apply Hseen; set_solver|]. intros x Hx Hin.
  apply elem_of_cons in Hin as [->|Hin]; [done|]. apply (Hseen x); set_solver.
Qed.


