(* ===== verification/PostgresStores.v ===== *)
(** * The views, the fence and the journal on PostgreSQL

    [postgres/views.rs], [postgres/rebuild.rs], [postgres/journal.rs], [postgres/enumerate.rs] and
    [postgres/listener.rs]: the other contracts the PostgreSQL repository implements, with the
    statements each runs, and the listener that wakes a journal's consumers. *)

From S2P Require Import Prelude Types Features Outcome Rebuild Wire Projection Repository Program.
From S2P Require Import RebuildBatch Mem JournalScope Compaction Enumerate Postgres.

Section stores.
Context `{SerdeJson} (pg_text : PgError → string) (pool_text : PoolError → string).

Abbreviation pg_backend := (pg_backend pg_text).
Abbreviation statement_error := (statement_error pg_text).
Abbreviation commit_error := (commit_error pg_text).
Abbreviation with_client := (with_client pool_text).
Abbreviation with_transaction := (with_transaction pg_text pool_text).
Abbreviation checked_client := (checked_client pg_text pool_text).
Abbreviation execute := (execute pg_text).

(** ** Views *)

(** A bool's display text. *)
Definition show_bool (b : bool) : string := if b then "true" else "false".

(** crates/evt/src/postgres/views.rs:23-23 [COLUMNS] *)
Definition VIEW_COLUMNS : string := "pk, sk, entity_id, entity_type, payload, ttl".

(** crates/evt/src/postgres/views.rs:26-26 [PURGE_BATCH] *)
Definition PURGE_BATCH : Z := 1000.

(** crates/evt/src/postgres/views.rs:80-92 [PgViewRepository::purge_expired]

    [fuel] bounds the batches. *)
Fixpoint purge_loop (c : nat) (sql : string) (now : Z) (fuel : nat) (deleted : Z) : PProg Z :=
  match fuel with
  | O => OutOfFuel
  | Datatypes.S fuel =>
      await? batch := execute c sql [VInt now; VInt PURGE_BATCH] in
      if batch =? 0 then Ret (Ok (deleted + batch)) else purge_loop c sql now fuel (deleted + batch)
  end.

(** crates/evt/src/postgres/views.rs:73-93 [PgViewRepository::purge_expired] *)
Definition purge_expired (v : PgViewRepository) (fuel : nat) (now : Z) : PProg Z :=
  checked_client v (λ c,
    let table := pgv_table v in
    purge_loop c
      ("DELETE FROM " +:+ table +:+ " WHERE (pk, sk) IN (SELECT pk, sk FROM " +:+ table +:+
      " WHERE ttl > 0 AND ttl <= $1 ORDER BY ttl LIMIT $2) AND ttl > 0 AND ttl <= $1") now fuel 0).

(** [row.try_get(index).map_err(Error::backend)]. *)
Definition try_get {A} (f : SqlValue → option A) (row : Row) (index : nat) : Result A :=
  match row !! index with
  | Some value => ok_or (f value) (pg_backend OtherPgError)
  | None => Err (pg_backend OtherPgError)
  end.

(** crates/evt/src/postgres/views.rs:233-244 [row] *)
Definition view_of_row (row : Row) : Result ViewRow :=
  let? payload := try_get as_text row 4 in
  let? pk := try_get as_text row 0 in
  let? sk := try_get as_text row 1 in
  let? entity_id := try_get as_text row 2 in
  let? entity_type := try_get as_text row 3 in
  let? ttl := try_get as_int row 5 in
  Ok (mkViewRow pk sk entity_id entity_type payload ttl).

(** crates/evt/src/postgres/views.rs:182-184 [PageQuery] *)
Record PageQuery := mkPageQuery { pq_entity_type : bool }.

(** crates/evt/src/postgres/views.rs:187-193 [PageQuery::first] *)
Definition first_query (query : PageQuery) (table : string) : string :=
  if pq_entity_type query then
    ("SELECT " +:+ VIEW_COLUMNS +:+ " FROM " +:+ table +:+ " WHERE entity_type = $1 ORDER BY pk, sk LIMIT $2")
  else ("SELECT " +:+ VIEW_COLUMNS +:+ " FROM " +:+ table +:+ " WHERE pk = $1 ORDER BY sk LIMIT $2").

(** crates/evt/src/postgres/views.rs:195-204 [PageQuery::next] *)
Definition next_query (query : PageQuery) (table : string) : string :=
  if pq_entity_type query then
    ("SELECT " +:+ VIEW_COLUMNS +:+ " FROM " +:+ table +:+
      " WHERE entity_type = $1 AND (pk, sk) > ($2, $3) ORDER BY pk, sk LIMIT $4")
  else ("SELECT " +:+ VIEW_COLUMNS +:+ " FROM " +:+ table +:+ " WHERE pk = $1 AND sk > $2 ORDER BY sk LIMIT $3").

(** crates/evt/src/postgres/views.rs:208-213 [string] *)
Definition key_string (key : Item) (name : string) : string :=
  match key !! name with Some (AS text) => text | _ => EmptyString end.

(** crates/evt/src/postgres/views.rs:217-230 [cursor_key] *)
Definition cursor_key (last : ViewRow) (entity_type : bool) : Item :=
  let key := <["sk"%string := AS (vr_sk last)]> (<["pk"%string := AS (vr_pk last)]> ∅) in
  if entity_type then <["entityType"%string := AS (vr_entity_type last)]> key else key.

(** [i64::try_from(n).unwrap_or(i64::MAX)]. *)
Definition i64_limit (n : nat) : Z := Z.min (Z.of_nat n) i64_max.

(** crates/evt/src/postgres/views.rs:144-148 [PgViewRepository::page] *)
Definition continues (query : PageQuery) (filter : string) (key : Item) : bool :=
  if pq_entity_type query then
    match key !! "entityType"%string with Some (AS kind) => bool_decide (kind = filter) | _ => false end
  else bool_decide (key_string key "pk" = filter).

(** crates/evt/src/postgres/views.rs:125-178 [PgViewRepository::page] *)
Definition view_page (v : PgViewRepository) (query : PageQuery) (filter : string) (limit : option nat) (after : option Item)
  : PProg ViewPage :=
  checked_client v (λ c,
    let size := default MAX_VIEW_PAGE_ROWS (page_limit limit) in
    let bound := VInt (i64_limit size) in
    await? rows :=
      match after with
      | None => map_err_prog statement_error (call (QueryAll c (first_query query (pgv_table v)) [VText filter; bound]))
      | Some key =>
          if negb (continues query filter key) then
            Ret (Err (InvalidArgument (Fmt "invalid pagination cursor: it continues another listing" [])))
          else
            map_err_prog statement_error (call (QueryAll c (next_query query (pgv_table v))
              (if pq_entity_type query
               then [VText filter; VText (key_string key "pk"); VText (key_string key "sk"); bound]
               else [VText filter; VText (key_string key "sk"); bound])))
      end in
    Ret (let? views := collect view_of_row rows in
         let? next_cursor :=
           match last views with
           | Some last =>
               if bool_decide (length views = size) then
                 let? cursor := encode_view_cursor (cursor_key last (pq_entity_type query)) in Ok (Some cursor)
               else Ok None
           | None => Ok None
           end in
         Ok (mkViewPage views next_cursor))).

(** crates/evt/src/postgres/views.rs:248-261 [checked] *)
Definition checked_key (view : ViewRow) : Result string :=
  check? check_view_row view;
  let? sk := resolve_key (vr_pk view) (vr_sk view) in
  let key_bytes := slen (vr_entity_type view) + slen (vr_pk view) + slen sk in
  if MAX_VIEW_INDEX_KEY_BYTES <? key_bytes then
    Err (InvalidArgument (Fmt
      "view key too long for PostgreSQL: entity type, pk and sk are {key_bytes} bytes together, the limit is {MAX_VIEW_INDEX_KEY_BYTES}"
      [show key_bytes; show MAX_VIEW_INDEX_KEY_BYTES]))
  else Ok sk.

(** crates/evt/src/postgres/views.rs:264-270 [upsert_sql] *)
Definition upsert_sql (table : string) : string :=
  ("INSERT INTO " +:+ table +:+ " (" +:+ VIEW_COLUMNS +:+
      ") VALUES ($1, $2, $3, $4, $5, $6) ON CONFLICT (pk, sk) DO UPDATE SET entity_id = EXCLUDED.entity_id, entity_type = EXCLUDED.entity_type, payload = EXCLUDED.payload, ttl = EXCLUDED.ttl").

(** crates/evt/src/postgres/views.rs:273-288 [PgViewRepository::get_view_at] *)
Definition pg_get_view_at (v : PgViewRepository) (pk sk : string) : PProg (option ViewRow) :=
  await? sk := Ret (resolve_key pk sk) in
  checked_client v (λ c,
    await? found := map_err_prog statement_error (call (QueryOpt c
      ("SELECT " +:+ VIEW_COLUMNS +:+ " FROM " +:+ pgv_table v +:+ " WHERE pk = $1 AND sk = $2") [VText pk; VText sk])) in
    Ret (transposed view_of_row found)).

(** crates/evt/src/postgres/views.rs:299-304 [PgViewRepository::put_views]

    The last row of each key. *)
Fixpoint keyed_rows (rows : gmap (string * string) ViewRow) (views : list ViewRow)
  : Result (gmap (string * string) ViewRow) :=
  match views with
  | [] => Ok rows
  | view :: views =>
      let? sk := checked_key view in keyed_rows (<[(vr_pk view, sk) := view]> rows) views
  end.

(** crates/evt/src/postgres/views.rs:317-333 [PgViewRepository::put_views] *)
Fixpoint upsert_rows (c : nat) (sql : string) (rows : list ((string * string) * ViewRow)) : PProg unit :=
  match rows with
  | [] => Ret (Ok tt)
  | (key, view) :: rows =>
      if negb (valid_utf8 (vr_payload view)) then
        Ret (Err (InvalidRecord (Fmt "view payload is not valid UTF-8" [])))
      else
        await? written := execute c sql [VText (vr_pk view); VText key.2; VText (vr_entity_id view);
          VText (vr_entity_type view); VText (vr_payload view); VInt (vr_ttl view)] in
        upsert_rows c sql rows
  end.

(** crates/evt/src/postgres/views.rs:298-336 [PgViewRepository::put_views] *)
Definition pg_put_views (v : PgViewRepository) (views : list ViewRow) : PProg unit :=
  await? rows := Ret (keyed_rows ∅ views) in
  if bool_decide (rows = ∅) then Ret (Ok tt)
  else
    checked_client v (λ c,
      await? begun := read_committed pg_text c in
      let sql := upsert_sql (pgv_table v) in
      await? prepared := map_err_prog statement_error (call (Prepare c sql)) in
      await? written := upsert_rows c sql (btree_entries key_leb rows) in
      map_err_prog statement_error (call (CommitTx c))).

(** crates/evt/src/postgres/views.rs:290-292 [PgViewRepository::put_view] *)
Definition pg_put_view (v : PgViewRepository) (view : ViewRow) : PProg unit := pg_put_views v [view].

(** crates/evt/src/postgres/views.rs:338-350 [PgViewRepository::delete_view] *)
Definition pg_delete_view (v : PgViewRepository) (pk sk : string) : PProg unit :=
  await? sk := Ret (resolve_key pk sk) in
  checked_client v (λ c,
    await? deleted := execute c ("DELETE FROM " +:+ pgv_table v +:+ " WHERE pk = $1 AND sk = $2")
      [VText pk; VText sk] in
    Ret (Ok tt)).

(** [cursor.filter(|cursor| !cursor.is_empty()).map(decode_view_cursor).transpose()?]. *)
Definition cursor_after (cursor : option string) : Result (option Item) :=
  match cursor with
  | Some cursor => if is_empty cursor then Ok None else let? key := decode_view_cursor cursor in Ok (Some key)
  | None => Ok None
  end.

(** crates/evt/src/postgres/views.rs:352-372 [PgViewRepository::list_views_by_pk_paged] *)
Definition pg_list_views_by_pk_paged (v : PgViewRepository) (pk : string) (limit : option nat) (cursor : option string)
  : PProg ViewPage :=
  if is_empty pk then Ret (Err (InvalidArgument (Fmt "a view listing needs a non-empty pk" [])))
  else
    await? after := Ret (check? nul_free pk "pk"; cursor_after cursor) in
    view_page v (mkPageQuery false) pk limit after.

(** crates/evt/src/postgres/views.rs:374-388 [PgViewRepository::list_views_by_entity_type_paged] *)
Definition pg_list_views_by_entity_type_paged (v : PgViewRepository) (entity_type : string) (limit : option nat)
    (cursor : option string) : PProg ViewPage :=
  await? after := Ret (check? nul_free entity_type "entity type"; cursor_after cursor) in
  view_page v (mkPageQuery true) entity_type limit after.

(** ** The rebuild fence *)

(** crates/evt/src/postgres/rebuild.rs:29-33 [Attempt] *)
Inductive Attempt := Begun (lease : RebuildLease) | Moved.

(** crates/evt/src/postgres/rebuild.rs:36-38 [PostgresRepository::lock_table] *)
Definition pg_lock_table (r : PostgresRepository) : string := rebuild_lock_table (pg_events_table r).

(** crates/evt/src/postgres/rebuild.rs:40-42 [PostgresRepository::generation_table] *)
Definition pg_generation_table (r : PostgresRepository) : string := rebuild_generation_table (pg_events_table r).

(** crates/evt/src/postgres/rebuild.rs:45-54 [PostgresRepository::lock_fence] *)
Definition lock_fence (r : PostgresRepository) (c : nat) : PProg unit :=
  await? locked := execute c FEATURES_LOCK_EXCLUSIVE [VText (pg_rebuild_lock_key (pg_events_table r))] in
  Ret (Ok tt).

(** crates/evt/src/postgres/rebuild.rs:62-66 [PostgresRepository::read_generation] *)
Definition select_generation_sql (r : PostgresRepository) (for_update : bool) : string :=
  "SELECT value, force_released FROM " +:+ pg_generation_table r +:+ " WHERE id = 0" +:+
      (if for_update then " FOR UPDATE" else EmptyString).

(** crates/evt/src/postgres/rebuild.rs:57-75 [PostgresRepository::read_generation] *)
Definition read_generation (r : PostgresRepository) (c : nat) (for_update : bool) : PProg RebuildGeneration :=
  await? row := map_err_prog statement_error (call (QueryOpt c
    (select_generation_sql r for_update) [])) in
  match row with
  | None => Ret (Ok (mkGeneration 0 false))
  | Some row =>
      await value := get as_int row 0 in
      await force_released := get as_bool row 1 in
      Ret (Ok (mkGeneration value force_released))
  end.

(** crates/evt/src/postgres/rebuild.rs:83-88 [PostgresRepository::read_lock] *)
Definition select_lock_sql (r : PostgresRepository) (for_update : bool) : string :=
  "SELECT owner, generation, EXTRACT(EPOCH FROM lease_expires_at)::bigint FROM " +:+ pg_lock_table r +:+
      " WHERE id = 0" +:+ (if for_update then " FOR UPDATE" else EmptyString).

(** crates/evt/src/postgres/rebuild.rs:78-96 [PostgresRepository::read_lock] *)
Definition read_lock (r : PostgresRepository) (c : nat) (for_update : bool) : PProg (option RebuildLock) :=
  await? row := map_err_prog statement_error (call (QueryOpt c
    (select_lock_sql r for_update) [])) in
  match row with
  | None => Ret (Ok None)
  | Some row =>
      await owner := get as_text row 0 in
      await generation := get as_int row 1 in
      await lease_expires_at := get as_int row 2 in
      Ret (Ok (Some (mkLock owner generation lease_expires_at)))
  end.

(** crates/evt/src/postgres/rebuild.rs:148-152 [PostgresRepository::acquire]

    The lock row of a new lease. *)
Definition insert_lock_sql (r : PostgresRepository) : string :=
  "INSERT INTO " +:+ pg_lock_table r +:+
      " (id, owner, generation, lease_expires_at) VALUES (0, $1, $3, to_timestamp($2::bigint::double precision))".

(** crates/evt/src/postgres/rebuild.rs:162-168 [PostgresRepository::acquire]

    The generation after an acquisition, if it is the one that was seen. *)
Definition upsert_generation_sql (r : PostgresRepository) : string :=
  let generation := pg_generation_table r in
  "INSERT INTO " +:+ generation +:+
      " (id, value, force_released) VALUES (0, $1, false) ON CONFLICT (id) DO UPDATE SET value = " +:+
      generation +:+ ".value + $1 WHERE " +:+ generation +:+ ".value = $2 OR (" +:+ generation +:+
      ".value = $3 AND " +:+ generation +:+ ".force_released)".

(** crates/evt/src/postgres/rebuild.rs:142-175 [PostgresRepository::acquire] *)
Definition acquire (r : PostgresRepository) (c : nat) (lease : RebuildLease) (plan : Plan) : PProg bool :=
  await inserted := call (Execute c
    (insert_lock_sql r)
    [VText (le_owner lease); VInt (le_expires_at lease); VInt (le_generation lease)]) in
  match inserted with
  | Err err =>
      if bool_decide (pg_code err = Some UNIQUE_VIOLATION) then Ret (Ok false) else Ret (Err (statement_error err))
  | Ok _ =>
      await? affected := execute c
        (upsert_generation_sql r)
        [VInt (pl_increment plan); VInt (pl_seen_even plan); VInt (pl_seen_odd plan)] in
      Ret (Ok (affected =? 1))
  end.

(** crates/evt/src/postgres/rebuild.rs:186-192 [PostgresRepository::take_over]

    The lock row of an expired lease, taken over. *)
Definition take_lock_sql (r : PostgresRepository) : string :=
  "UPDATE " +:+ pg_lock_table r +:+
      " SET owner = $1, generation = $5, lease_expires_at = to_timestamp($2::bigint::double precision) WHERE id = 0 AND owner = $3 AND lease_expires_at < to_timestamp($4::bigint::double precision)".

(** crates/evt/src/postgres/rebuild.rs:211-214 [PostgresRepository::take_over]

    The generation after a takeover. *)
Definition bump_generation_sql (r : PostgresRepository) : string :=
  "UPDATE " +:+ pg_generation_table r +:+ " SET value = value + 2 WHERE id = 0 AND value = $1".

(** crates/evt/src/postgres/rebuild.rs:179-221 [PostgresRepository::take_over] *)
Definition take_over (r : PostgresRepository) (c : nat) (lease : RebuildLease) (plan : Plan) (now : Z) : PProg bool :=
  await? affected := execute c
    (take_lock_sql r)
    [VText (le_owner lease); VInt (le_expires_at lease); VText (default EmptyString (pl_observed_owner plan)); VInt now;
     VInt (le_generation lease)] in
  if negb (affected =? 1) then Ret (Ok false)
  else
    await? affected := execute c
      (bump_generation_sql r) [VInt (pl_seen_odd plan)] in
    Ret (Ok (affected =? 1)).

(** crates/evt/src/postgres/rebuild.rs:99-138 [PostgresRepository::begin_once] *)
Definition begin_once (r : PostgresRepository) (owner : string) (seconds : Z) : PProg Attempt :=
  with_transaction (λ c,
    await? locked := lock_fence r c in
    await? generation := read_generation r c true in
    await? lock := read_lock r c true in
    await now := call UnixSeconds in
    await? plan := Ret (plan_decide (mkRebuildState generation lock) now) in
    let lease := mkRebuildLease owner (i64_add (rg_value generation) (pl_increment plan)) (i64_saturating_add now seconds) in
    await? held := match pl_kind plan with Takeover => take_over r c lease plan now | _ => acquire r c lease plan end in
    if negb held then Ret (Ok Moved)
    else
      await committed := call (CommitTx c) in
      Ret match committed with
          | Ok _ => Ok (Begun lease)
          | Err err =>
              if negb (is_db_error err) then Err (RebuildBeginIndeterminate lease (rg_value generation) (pg_box pg_text err))
              else Err (commit_error err false)
          end).

(** crates/evt/src/postgres/rebuild.rs:226-294 [PostgresRepository::release_rebuild] *)
Definition pg_release_rebuild (r : PostgresRepository) (owner : string) (token : option Z) (increment : Z)
    (force_released : bool) : PProg RebuildGeneration :=
  await? checked := Ret (check_rebuild_owner owner) in
  with_transaction (λ c,
    await? locked := lock_fence r c in
    await? generation := read_generation r c true in
    if is_settled generation || match token with Some token => negb (token =? rg_value generation) | None => false end
    then Ret (Err (lease_lost owner))
    else
      await? deleted :=
        match token with
        | Some token => execute c
            ("DELETE FROM " +:+ pg_lock_table r +:+ " WHERE id = 0 AND owner = $1 AND generation = $2") [VText owner; VInt token]
        | None => execute c
            ("DELETE FROM " +:+ pg_lock_table r +:+ " WHERE id = 0 AND owner = $1") [VText owner]
        end in
      if negb (deleted =? 1) then Ret (Err (lease_lost owner))
      else
        await? bumped := execute c
          ("UPDATE " +:+ pg_generation_table r +:+ " SET value = value + " +:+ show increment +:+
      ", force_released = " +:+ show_bool force_released +:+ " WHERE id = 0 AND value = $1")
          [VInt (rg_value generation)] in
        if negb (bumped =? 1) then Ret (Err (lease_lost owner))
        else
          await? committed := map_err_prog (λ err, commit_error err false) (call (CommitTx c)) in
          Ret (Ok (mkGeneration (i64_add (rg_value generation) increment) force_released))).

(** crates/evt/src/postgres/rebuild.rs:299-303 [PostgresRepository::rebuild_generation] *)
Definition pg_rebuild_generation (r : PostgresRepository) : PProg RebuildGeneration :=
  with_client (λ c, read_generation r c false).

(** crates/evt/src/postgres/rebuild.rs:305-311 [PostgresRepository::rebuild_state] *)
Definition pg_rebuild_state (r : PostgresRepository) : PProg RebuildState :=
  with_client (λ c,
    await? generation := read_generation r c false in
    await? lock := read_lock r c false in
    Ret (Ok (mkRebuildState generation lock))).

(** crates/evt/src/postgres/rebuild.rs:316-324 [PostgresRepository::begin_rebuild] *)
Fixpoint begin_attempts (r : PostgresRepository) (owner : string) (seconds : Z) (attempts : nat) : PProg RebuildLease :=
  match attempts with
  | O => Ret (Err (RebuildConflict (Z.of_nat MAX_REBUILD_BEGIN_ATTEMPTS)))
  | Datatypes.S attempts =>
      await? attempt := begin_once r owner seconds in
      match attempt with
      | Begun lease => Ret (Ok lease)
      | Moved => begin_attempts r owner seconds attempts
      end
  end.

(** crates/evt/src/postgres/rebuild.rs:313-325 [PostgresRepository::begin_rebuild] *)
Definition pg_begin_rebuild (r : PostgresRepository) (owner : string) (lease : Duration) : PProg RebuildLease :=
  await? seconds := Ret (check_lease owner lease) in
  begin_attempts r owner seconds MAX_REBUILD_BEGIN_ATTEMPTS.

(** crates/evt/src/postgres/rebuild.rs:327-355 [PostgresRepository::renew_rebuild] *)
Definition pg_renew_rebuild (r : PostgresRepository) (lease : RebuildLease) (extend : Duration) : PProg RebuildLease :=
  await? seconds := Ret (check_lease (le_owner lease) extend) in
  await now := call UnixSeconds in
  let lease_expires_at := i64_saturating_add now seconds in
  with_client (λ c,
    await? renewed := execute c
      ("UPDATE " +:+ pg_lock_table r +:+
      " SET lease_expires_at = to_timestamp($2::bigint::double precision) WHERE id = 0 AND owner = $1 AND generation = $3")
      [VText (le_owner lease); VInt lease_expires_at; VInt (le_generation lease)] in
    Ret (if negb (renewed =? 1) then Err (lease_lost (le_owner lease))
         else Ok (mkRebuildLease (le_owner lease) (le_generation lease) lease_expires_at))).

(** crates/evt/src/postgres/rebuild.rs:357-360 [PostgresRepository::end_rebuild] *)
Definition pg_end_rebuild (r : PostgresRepository) (lease : RebuildLease) : PProg RebuildGeneration :=
  pg_release_rebuild r (le_owner lease) (Some (le_generation lease)) 1 false.

(** crates/evt/src/postgres/rebuild.rs:362-364 [PostgresRepository::force_release_rebuild] *)
Definition pg_force_release_rebuild (r : PostgresRepository) (owner : string) : PProg RebuildGeneration :=
  pg_release_rebuild r owner None 2 true.

(** crates/evt/src/postgres/rebuild.rs:371-402 [PostgresRepository::write_rebuild_views] *)
Definition pg_write_rebuild_views (r : PostgresRepository) (lease : RebuildLease) (views : list ProjectedView) : PProg unit :=
  await? checked := Ret (check? check_rebuild_owner (le_owner lease); check_view_batch views) in
  await? ready :=
    (if pg_views_table_target r then
       await? headed := ensure_stream_heads pg_text pool_text r true in ensure_views_declared pg_text pool_text r
     else Ret (Ok tt)) in
  await? statements := Ret (view_statements r views) in
  with_transaction (λ c,
    await? lock := read_lock r c true in
    await now := call UnixSeconds in
    if negb match lock with Some lock => holds lease lock && (now <? rl_lease_expires_at lock) | None => false end
    then Ret (Err (lease_lost (le_owner lease)))
    else
      await? manifest := read_manifest_in pg_text r c in
      await? refused := Ret (refuse_foreign_views r manifest) in
      await? written := run_view_statements pg_text c (zip views statements) in
      map_err_prog (λ err, commit_error err false) (call (CommitTx c))).

(** ** The journal *)

Context `{JournalJson}.

(** crates/evt/src/postgres/journal.rs:26-34 [PostgresRepository::journal_table] *)
Definition pg_journal_table (r : PostgresRepository) : Result string :=
  if negb (pg_views_table_target r) then Err (ViewsNotConfigured "postgres") else Ok (views_table (pg_events_table r)).

(** crates/evt/src/postgres/journal.rs:38-49 [PostgresRepository::read_counter] *)
Definition pg_read_counter (r : PostgresRepository) (scope : Scope) : PProg Z :=
  await? table := Ret (pg_journal_table r) in
  await? row := pg_get_view_at (pg_view_repository r) (counter_pk scope) COUNTER_SORT_KEY in
  Ret match row with Some row => read_counter scope row | None => Ok 0 end.

(** crates/evt/src/postgres/journal.rs:68-73 [PostgresRepository::read_counters] *)
Fixpoint found_rows (rows : list Row) (found : gmap string ViewRow) : Result (gmap string ViewRow) :=
  match rows with
  | [] => Ok found
  | row :: rows => let? row := view_of_row row in found_rows rows (<[vr_pk row := row]> found)
  end.

(** crates/evt/src/postgres/journal.rs:52-83 [PostgresRepository::read_counters] *)
Definition pg_read_counters (r : PostgresRepository) (scopes : list Scope) : PProg (list Z) :=
  await? table := Ret (pg_journal_table r) in
  if nil_b scopes then Ret (Ok [])
  else
    with_client (λ c,
      await? rows := map_err_prog statement_error (call (QueryAll c
        ("SELECT " +:+ VIEW_COLUMNS +:+ " FROM " +:+ table +:+ " WHERE pk = ANY($1) AND sk = $2")
        [VTexts (map counter_pk scopes); VText COUNTER_SORT_KEY])) in
      Ret (let? found := found_rows rows ∅ in
           collect (λ scope, match found !! counter_pk scope with
                             | Some row => read_counter scope row
                             | None => Ok 0
                             end) scopes)).

(** crates/evt/src/postgres/journal.rs:85-107 [PostgresRepository::read_last_position] *)
Definition pg_read_last_position (r : PostgresRepository) (scope : Scope) : PProg Z :=
  await? table := Ret (pg_journal_table r) in
  let pk := row_pk scope in
  with_client (λ c,
    await? last := map_err_prog statement_error (call (QueryOpt c
      ("SELECT sk FROM " +:+ table +:+ " WHERE pk = $1 ORDER BY sk DESC LIMIT 1") [VText pk])) in
    match last with
    | None => Ret (Ok 0)
    | Some row =>
        await sk := get as_text row 0 in
        Ret (ok_or (parse_row_sk sk) (InvalidRecord (Fmt "journal row {pk:?}/{sk:?} has no position" [pk; sk])))
    end).

(** crates/evt/src/postgres/journal.rs:109-131 [PostgresRepository::read_rows] *)
Definition pg_read_rows (r : PostgresRepository) (scope : Scope) (after : Z) (limit : nat) : PProg (list JournalRow) :=
  await? table := Ret (pg_journal_table r) in
  with_client (λ c,
    await? rows := map_err_prog statement_error (call (QueryAll c
      ("SELECT " +:+ VIEW_COLUMNS +:+ " FROM " +:+ table +:+ " WHERE pk = $1 AND sk > $2 ORDER BY sk LIMIT $3")
      [VText (row_pk scope); VText (row_sk after); VInt (i64_limit limit)])) in
    Ret (collect (λ row, let? row := view_of_row row in row_from_view scope row) rows)).

(** crates/evt/src/postgres/journal.rs:135-145 [PostgresRepository::read_compaction_row] *)
Definition pg_read_compaction_row (r : PostgresRepository) (scope : Scope) (sort_key : string) : PProg (option ViewRow) :=
  await? table := Ret (pg_journal_table r) in
  pg_get_view_at (pg_view_repository r) (compaction_pk scope) sort_key.

(** crates/evt/src/postgres/journal.rs:319-324 [expected] *)
Definition expected (expect : Expect) : string := match expect with ExpectPayload payload => payload | _ => EmptyString end.

(** crates/evt/src/postgres/journal.rs:172-186 [PostgresRepository::write_compaction] *)
Definition check_texts (write : CompactionWrite) : Result unit :=
  let texts := match write with
               | WritePut row expect => [vr_payload row; expected expect]
               | WriteCheck _ _ expect => [expected expect]
               | WriteDelete _ _ _ => []
               end in
  if existsb (λ text, negb (valid_utf8 text)) texts
  then Err (InvalidArgument (Fmt "a compaction payload must be UTF-8" [])) else Ok tt.

(** crates/evt/src/postgres/journal.rs:210-215 [PostgresRepository::write_compaction]

    The lease row first, then by key. *)
Definition lock_leb (a b : nat * CompactionWrite) : bool :=
  let rank w := negb (bool_decide ((write_key w).2 = LEASE_SORT_KEY)) in
  if rank a.2 then rank b.2 && key_leb (write_key a.2) (write_key b.2)
  else rank b.2 || key_leb (write_key a.2) (write_key b.2).

Definition lock_order (writes : list CompactionWrite) : list (nat * CompactionWrite) :=
  sort_by lock_leb (imap pair writes).

(** crates/evt/src/postgres/journal.rs:219-229 [PostgresRepository::write_compaction] *)
Fixpoint lock_rows (c : nat) (table : string) (writes : list (nat * CompactionWrite))
    (stored : gmap (string * string) ViewRow) : PProg (gmap (string * string) ViewRow) :=
  match writes with
  | [] => Ret (Ok stored)
  | (_, write) :: writes =>
      let key := write_key write in
      await? found := map_err_prog statement_error (call (QueryOpt c
        ("SELECT " +:+ VIEW_COLUMNS +:+ " FROM " +:+ table +:+ " WHERE pk = $1 AND sk = $2 FOR UPDATE")
        [VText key.1; VText key.2])) in
      await? row := Ret (transposed view_of_row found) in
      lock_rows c table writes (match row with Some row => <[key := row]> stored | None => stored end)
  end.

(** crates/evt/src/postgres/journal.rs:232-240 [PostgresRepository::write_compaction] *)
Definition write_met (stored : gmap (string * string) ViewRow) (write : CompactionWrite) : bool :=
  let row := stored !! write_key write in
  match write with
  | WritePut _ expect | WriteCheck _ _ expect => meets expect row
  | WriteDelete _ _ owner => match row with Some row => bool_decide (vr_entity_id row = owner) | None => true end
  end.

(** crates/evt/src/postgres/journal.rs:231-245 [PostgresRepository::write_compaction]

    The first write whose condition is not met. *)
Definition unmet (stored : gmap (string * string) ViewRow) (writes : list CompactionWrite) : option nat :=
  head (omap (λ x : nat * CompactionWrite, if write_met stored x.2 then None else Some x.1) (imap pair writes)).

(** crates/evt/src/postgres/journal.rs:250-289 [PostgresRepository::write_compaction]

    The statement of a write, if it has one. *)
Definition compaction_statement (table : string) (write : CompactionWrite) : option (string * list SqlValue) :=
  match write with
  | WritePut row expect =>
      let values := [VText (vr_pk row); VText (vr_sk row); VText (vr_entity_id row); VText (vr_entity_type row);
                     VText (if valid_utf8 (vr_payload row) then vr_payload row else EmptyString); VInt (vr_ttl row)] in
      Some (match expect with
            | ExpectAbsent => ("INSERT INTO " +:+ table +:+ " (" +:+ VIEW_COLUMNS +:+ ") VALUES ($1, $2, $3, $4, $5, $6)")
            | _ => ("INSERT INTO " +:+ table +:+ " (" +:+ VIEW_COLUMNS +:+
      ") VALUES ($1, $2, $3, $4, $5, $6) ON CONFLICT (pk, sk) DO UPDATE SET entity_id = EXCLUDED.entity_id, entity_type = EXCLUDED.entity_type, payload = EXCLUDED.payload, ttl = EXCLUDED.ttl")
            end, values)
  | WriteDelete pk sk owner =>
      Some (("DELETE FROM " +:+ table +:+ " WHERE pk = $1 AND sk = $2 AND entity_id = $3"), [VText pk; VText sk; VText owner])
  | WriteCheck _ _ _ => None
  end.

(** crates/evt/src/postgres/journal.rs:247-306 [PostgresRepository::write_compaction]

    [Some] is the write whose key appeared since its row was read. *)
Fixpoint run_writes (c : nat) (table : string) (writes : list (nat * CompactionWrite)) : PProg (option nat) :=
  match writes with
  | [] => Ret (Ok None)
  | (at_, write) :: writes =>
      match compaction_statement table write with
      | None => run_writes c table writes
      | Some (sql, params) =>
          await written := call (Execute c sql params) in
          match written with
          | Ok _ => run_writes c table writes
          | Err err =>
              if match err with
                 | DbError _ (Some violated) => eq_ignore_ascii_case violated (table +:+ "_pkey")
                 | _ => false
                 end
              then Ret (Ok (Some at_)) else Ret (Err (statement_error err))
          end
      end
  end.

(** crates/evt/src/postgres/journal.rs:195-206 [PostgresRepository::write_compaction] *)
Definition epoch_moved (r : PostgresRepository) (c : nat) (epoch : option RebuildEpoch) : PProg bool :=
  match epoch with
  | None => Ret (Ok false)
  | Some epoch =>
      await? locked := execute c FEATURES_LOCK_SHARED [VText (pg_rebuild_lock_key (pg_events_table r))] in
      await? generation := read_generation r c false in
      Ret (Ok (negb (rg_value generation =? ep_generation epoch)))
  end.

(** crates/evt/src/postgres/journal.rs:163-311 [PostgresRepository::write_compaction] *)
Definition pg_write_compaction (r : PostgresRepository) (epoch : option RebuildEpoch) (writes : list CompactionWrite)
  : PProg CompactionWritten :=
  await? table := Ret (check? check_compaction_writes writes;
                       let? table := pg_journal_table r in
                       check? check_each check_texts writes; Ok table) in
  await? headed := ensure_stream_heads pg_text pool_text r true in
  await? declared := ensure_views_declared pg_text pool_text r in
  with_transaction (λ c,
    await? moved := epoch_moved r c epoch in
    if moved : bool then Ret (Ok EpochChanged)
    else
      let order := lock_order writes in
      await? stored := lock_rows c table order ∅ in
      match unmet stored writes with
      | Some at_ => Ret (Ok (Refused (Z.of_nat at_)))
      | None =>
          await? appeared := run_writes c table order in
          match appeared with
          | Some at_ => Ret (Ok (Refused (Z.of_nat at_)))
          | None =>
              await? committed := map_err_prog statement_error (call (CommitTx c)) in
              Ret (Ok Written)
          end
      end).

(** crates/evt/src/postgres/journal.rs:313-315 [PostgresRepository::compaction_now] *)
Definition pg_compaction_now : Tree PgCall Z := call UnixSeconds.

(** ** Enumeration *)

(** crates/evt/src/postgres/enumerate.rs:30-42 [State]

    What is read holds its connection and the batch that is being filled. *)
Inductive LogState := LogStart (filter : StreamFilter) | LogReading (c : nat) (batch : list SerializedEvent) | LogDone.

(** crates/evt/src/postgres/enumerate.rs:92-115 [open]

    A connection whose query fails is given back. *)
Definition open_log (r : PostgresRepository) (filter : StreamFilter) : PProg nat :=
  await? c := map_err_prog (pool_error pool_text) (call Connect) in
  await opened := map_err_prog pg_backend (call (QueryRaw c
    ("SELECT " +:+ EVENT_COLUMNS +:+ " FROM " +:+ pg_events_table r +:+ NL +:+
      "         WHERE entity_id NOT LIKE '" +:+ SYSTEM_PREFIX +:+ "%'" +:+ NL +:+
      "             AND entity_id NOT LIKE '" +:+ COMMAND_OUTCOME_PREFIX +:+ "%'" +:+ NL +:+
      "             AND ($1::text IS NULL OR entity_type = $1)" +:+ NL +:+
      "         ORDER BY entity_id ASC, sequence ASC")
    [opt_text (sf_entity_type filter)])) in
  match opened with
  | Ok _ => Ret (Ok c)
  | Err error => await released := call (Release c) in Ret (Err error)
  end.

(** crates/evt/src/postgres/enumerate.rs:54-89 [next_batch]

    [fuel] bounds the rows that are read. *)
Fixpoint read_batch (fuel : nat) (c : nat) (batch : list SerializedEvent)
  : Tree PgCall (option (EventBatch * LogState)) :=
  match fuel with
  | O => OutOfFuel
  | Datatypes.S fuel =>
      await polled := call (NextRow c) in
      match polled with
      | None =>
          await released := call (Release c) in
          Ret (if nil_b batch then None else Some (Ok batch, LogDone))
      | Some polled =>
          await decoded := match polled with
                           | Ok row => await row := event_row_of row in Ret (into_event row)
                           | Err err => Ret (Err (pg_backend err))
                           end in
          match decoded with
          | Err error => await released := call (Release c) in Ret (Some (Err error, LogDone))
          | Ok event =>
              if match last_event batch with
                 | Some last => negb (bool_decide (ev_entity_id last = ev_entity_id event))
                 | None => false
                 end
              then Ret (Some (Ok batch, LogReading c [event]))
              else read_batch fuel c (batch ++ [event])
          end
      end
  end.

(** crates/evt/src/postgres/enumerate.rs:44-90 [next_batch] *)
Definition pg_next_batch (r : PostgresRepository) (fuel : nat) (state : LogState)
  : Tree PgCall (option (EventBatch * LogState)) :=
  match state with
  | LogStart filter =>
      await opened := open_log r filter in
      match opened with
      | Ok c => read_batch fuel c []
      | Err error => Ret (Some (Err error, LogDone))
      end
  | LogReading c batch => read_batch fuel c batch
  | LogDone => Ret None
  end.

(** crates/evt/src/postgres/enumerate.rs:25-27 [PostgresRepository::stream_all_events] *)
Definition pg_stream_all_events (filter : StreamFilter) : LogState := LogStart filter.
End stores.

(** ** The listener *)

(** crates/evt/src/postgres/listener.rs:25-31 [DEFAULT_POLL_INTERVAL]

    In nanoseconds. *)
Definition DEFAULT_POLL_INTERVAL : Z := 30000000000.
Definition DEFAULT_CONNECT_TIMEOUT : Z := 10000000000.

(** crates/evt/src/postgres/listener.rs:34-43 [Wakeup] *)
Inductive Wakeup := WakeScope (scope : Scope) | WakeConnected | WakePoll.

(** [tokio_postgres::AsyncMessage], as far as the code looks at it. *)
Inductive AsyncMessage := Notification (channel payload : string) | OtherMessage.

(** The clock and the connection of a listener. A request answers what was received while it ran
    and its result, and [None] is a deadline that passed. *)
Inductive ListenCall : Type → Type :=
| LNow : ListenCall Z
| LConnect (deadline : Z) : ListenCall (option (result nat PgError))
| LRequest (c : nat) (sql : string) (deadline : Z) : ListenCall (list AsyncMessage * option (result unit PgError))
| LMessage (c : nat) (deadline : Z) : ListenCall (option (option (result AsyncMessage PgError))).

(** crates/evt/src/postgres/listener.rs:49-66 [JournalListener] *)
Record JournalListener := mkJournalListener {
  jl_channel : string;
  jl_poll_interval : Z;
  jl_connect_timeout : Z;
  jl_next_poll : Z;
  jl_check_due : bool;
  jl_connected : option nat;
  jl_pending : list Wakeup
}.

Section listener.
Context (pg_text : PgError → string).

(** crates/evt/src/postgres/listener.rs:91-109 [JournalListener::new] *)
Definition listener_new (events_table : string) : Tree ListenCall (Result JournalListener) :=
  if negb (is_valid_identifier events_table MAX_EVENTS_TABLE_NAME_LEN) then
    Ret (Err (InvalidConfig (Fmt "postgres: invalid events table name {events_table:?}" [events_table])))
  else
    await now := call LNow in
    Ret (Ok (mkJournalListener (journal_channel events_table) DEFAULT_POLL_INTERVAL DEFAULT_CONNECT_TIMEOUT
      (now + DEFAULT_POLL_INTERVAL) false None [])).

(** crates/evt/src/postgres/listener.rs:114-118 [JournalListener::with_poll_interval] *)
Definition with_poll_interval (l : JournalListener) (interval : Z) : Tree ListenCall JournalListener :=
  await now := call LNow in
  Ret (mkJournalListener (jl_channel l) interval (jl_connect_timeout l) (now + interval) (jl_check_due l)
    (jl_connected l) (jl_pending l)).

(** crates/evt/src/postgres/listener.rs:123-126 [JournalListener::with_connect_timeout] *)
Definition with_connect_timeout (l : JournalListener) (timeout : Z) : JournalListener :=
  mkJournalListener (jl_channel l) (jl_poll_interval l) timeout (jl_next_poll l) (jl_check_due l) (jl_connected l)
    (jl_pending l).

Definition set_pending (l : JournalListener) (pending : list Wakeup) : JournalListener :=
  mkJournalListener (jl_channel l) (jl_poll_interval l) (jl_connect_timeout l) (jl_next_poll l) (jl_check_due l)
    (jl_connected l) pending.

Definition set_connected (l : JournalListener) (connected : option nat) : JournalListener :=
  mkJournalListener (jl_channel l) (jl_poll_interval l) (jl_connect_timeout l) (jl_next_poll l) (jl_check_due l)
    connected (jl_pending l).

Definition set_poll (l : JournalListener) (next_poll : Z) (check_due : bool) : JournalListener :=
  mkJournalListener (jl_channel l) (jl_poll_interval l) (jl_connect_timeout l) next_poll check_due (jl_connected l)
    (jl_pending l).

(** crates/evt/src/postgres/listener.rs:244-248 [JournalListener::receive]

    What a message wakes. *)
Definition woken (channel : string) (message : AsyncMessage) : list Wakeup :=
  match message with
  | Notification on payload =>
      if bool_decide (on = channel) then
        match scope_new payload with Ok scope => [WakeScope scope] | Err _ => [] end
      else []
  | OtherMessage => []
  end.

(** crates/evt/src/postgres/listener.rs:243-250 [JournalListener::receive] *)
Definition receive (l : JournalListener) (message : AsyncMessage) : JournalListener :=
  set_pending l (jl_pending l ++ woken (jl_channel l) message).

(** crates/evt/src/postgres/listener.rs:215-240 [JournalListener::connect] *)
Definition listener_connect (l : JournalListener) : Tree ListenCall (Result JournalListener) :=
  let timed_out := Types.Backend (BoxText "connecting to PostgreSQL timed out") in
  await now := call LNow in
  let deadline := now + jl_connect_timeout l in
  await connected := call (LConnect deadline) in
  match connected with
  | None => Ret (Err timed_out)
  | Some (Err err) => Ret (Err (pg_backend pg_text err))
  | Some (Ok c) =>
      await listening := call (LRequest c ("LISTEN " +:+ jl_channel l) deadline) in
      match listening.2 with
      | None => Ret (Err timed_out)
      | Some (Err err) => Ret (Err (pg_backend pg_text err))
      | Some (Ok _) => Ret (Ok (set_connected (fold_left receive listening.1 l) (Some c)))
      end
  end.

(** crates/evt/src/postgres/listener.rs:149-154 [JournalListener::next]

    The backstop is due. *)
Definition poll_due (l : JournalListener) : Tree ListenCall bool :=
  match jl_connected l with
  | Some _ => await now := call LNow in Ret (jl_next_poll l <=? now)
  | None => Ret false
  end.

(** crates/evt/src/postgres/listener.rs:150-153 [JournalListener::next] *)
Definition report_poll (l : JournalListener) : Tree ListenCall (Result Wakeup * JournalListener) :=
  await now := call LNow in
  Ret (Ok WakePoll, set_poll l (now + jl_poll_interval l) true).

(** crates/evt/src/postgres/listener.rs:160-166 [JournalListener::next] *)
Definition report_connected (l : JournalListener) : Tree ListenCall (Result Wakeup * JournalListener) :=
  await connected := listener_connect l in
  match connected with
  | Err error => Ret (Err error, l)
  | Ok l => await now := call LNow in Ret (Ok WakeConnected, set_poll l (now + jl_poll_interval l) false)
  end.

(** crates/evt/src/postgres/listener.rs:170-189 [JournalListener::next]

    The health check the last [Poll] asked for. *)
Definition health_check (l : JournalListener) (c : nat) : Tree ListenCall JournalListener :=
  await now := call LNow in
  await checked := call (LRequest c "SELECT 1" (now + jl_connect_timeout l)) in
  let l := fold_left receive checked.1 (set_poll l (jl_next_poll l) false) in
  Ret match checked.2 with Some (Ok _) => l | _ => set_connected l None end.

(** crates/evt/src/postgres/listener.rs:149-210 [JournalListener::next]

    An iteration of the loop, once it is known whether the backstop is due. *)
Definition next_wakeup (again : JournalListener → Tree ListenCall (Result Wakeup * JournalListener)) (l : JournalListener)
    (due : bool) : Tree ListenCall (Result Wakeup * JournalListener) :=
  if due then report_poll l
  else
    match jl_pending l, jl_connected l with
    | wakeup :: pending, _ => Ret (Ok wakeup, set_pending l pending)
    | [], None => report_connected l
    | [], Some c =>
        if jl_check_due l then await l := health_check l c in again l
        else
          await message := call (LMessage c (jl_next_poll l)) in
          match message with
          | Some (Some (Ok message)) => again (receive l message)
          | Some (Some (Err _)) | Some None => again (set_connected l None)
          | None => report_poll l
          end
    end.

(** crates/evt/src/postgres/listener.rs:145-211 [JournalListener::next]

    [fuel] bounds the iterations of its loop. *)
Fixpoint listener_next (fuel : nat) (l : JournalListener) : Tree ListenCall (Result Wakeup * JournalListener) :=
  match fuel with
  | O => OutOfFuel
  | Datatypes.S fuel => await due := poll_due l in next_wakeup (listener_next fuel) l due
  end.
End listener.

(** ** What the listener reports *)

(** The line of a listener: what it has received, and how many messages can still arrive. *)
Record Line := mkLine { ln_received : list AsyncMessage; ln_left : nat }.

Definition heard (w : Line) (messages : list AsyncMessage) (w' : Line) : Prop :=
  ln_received w' = ln_received w ++ messages ∧ ln_left w = (length messages + ln_left w')%nat.

#[export] Instance line_handles : Handles ListenCall Line := λ B q,
  match q in ListenCall B return Line → B → Line → Prop with
  | LNow | LConnect _ => λ w _ w', heard w [] w'
  | LRequest _ _ _ => λ w b w', heard w b.1 w'
  | LMessage _ _ => λ w b w', heard w match b with Some (Some (Ok message)) => [message] | _ => [] end w'
  end.

Section heard.
Context (pg_text : PgError → string).

Definition is_scope (wakeup : Wakeup) : bool := match wakeup with WakeScope _ => true | _ => false end.

(** The scopes a list of messages wakes, in order. *)
Definition all_woken (channel : string) (messages : list AsyncMessage) : list Wakeup :=
  flat_map (woken channel) messages.

Abbreviation listens := (wp (W := Line) eq (λ _ _, True) False).

(** From [l] to [l'], the messages between [w] and [w'] were queued. *)
Definition queued (l l' : JournalListener) (w w' : Line) : Prop :=
  ∃ messages, heard w messages w' ∧ jl_channel l' = jl_channel l ∧
    jl_pending l' = jl_pending l ++ all_woken (jl_channel l) messages.

(** What a call returns, for a listener that was [l] at [w]. *)
Definition reported (l : JournalListener) (w : Line) (x : Result Wakeup * JournalListener) (w' : Line) : Prop :=
  match x with
  | (Ok wakeup, l') =>
      ∃ messages, heard w messages w' ∧ jl_channel l' = jl_channel l ∧
        List.filter is_scope [wakeup] ++ jl_pending l' = jl_pending l ++ all_woken (jl_channel l) messages ∧
        (wakeup = WakeConnected → is_Some (jl_connected l'))
  | (Err _, l') => jl_pending l = [] ∧ jl_pending l' = [] ∧ jl_connected l' = None ∧ ∃ messages, heard w messages w'
  end.

Lemma heard_nil w : heard w [] w.
Proof. split; [by rewrite app_nil_r|done]. Qed.

Lemma heard_app w w1 w2 m1 m2 : heard w m1 w1 → heard w1 m2 w2 → heard w (m1 ++ m2) w2.
Proof. intros [H1 H2] [H3 H4]. split; [by rewrite H3, H1, app_assoc|]. rewrite length_app. lia. Qed.

Lemma fold_receive messages l :
  fold_left receive messages l = set_pending l (jl_pending l ++ all_woken (jl_channel l) messages).
Proof.
  revert l. induction messages as [|m messages IH]; intros [c p t n d k q]; simpl.
  - unfold set_pending. simpl. by rewrite app_nil_r.
  - rewrite IH. unfold receive, set_pending. simpl. by rewrite <- app_assoc.
Qed.

Lemma is_scope_woken channel messages : Forall (λ x, is_scope x = true) (all_woken channel messages).
Proof.
  induction messages as [|[on payload|] messages IH]; simpl; [done| |done].
  apply Forall_app. split; [|done]. case_bool_decide; [|done]. by destruct (scope_new payload); repeat constructor.
Qed.

Lemma listens_call {A B} (q : ListenCall B) (k : B → Tree ListenCall A) Q w :
  (∀ b w', performs q w b w' → listens (k b) Q w') → listens (bind (call q) k) Q w.
Proof. intros Hk w1 b w2 <- Hq. split; [done|]. by apply Hk. Qed.

Lemma queued_refl l w : queued l l w w.
Proof. exists []. split; [apply heard_nil|]. by rewrite app_nil_r. Qed.

Lemma queued_same l l' w w' :
  heard w [] w' → jl_channel l' = jl_channel l → jl_pending l' = jl_pending l → queued l l' w w'.
Proof. intros Hw Hc Hp. exists []. split; [done|]. by rewrite app_nil_r. Qed.

Lemma all_woken_app channel a b : all_woken channel (a ++ b) = all_woken channel a ++ all_woken channel b.
Proof. apply flat_map_app. Qed.

Lemma queued_trans l1 l2 l3 w1 w2 w3 : queued l1 l2 w1 w2 → queued l2 l3 w2 w3 → queued l1 l3 w1 w3.
Proof.
  intros (m & Hm & Hc & Hp) (m' & Hm' & Hc' & Hp'). exists (m ++ m').
  split; [by eapply heard_app|]. split; [congruence|]. by rewrite Hp', Hp, Hc, all_woken_app, app_assoc.
Qed.

(** What is reported of a listener that queued is reported of the one it was. *)
Lemma reported_queued l l1 w w1 x w' : queued l l1 w w1 → reported l1 w1 x w' → reported l w x w'.
Proof.
  intros (m & Hm & Hc & Hp). destruct x as [[wakeup|e] l']; simpl.
  - intros (m' & Hm' & Hc' & Hp' & Hk). exists (m ++ m'). split; [by eapply heard_app|]. split; [congruence|].
    split; [|done]. by rewrite Hp', Hp, Hc, all_woken_app, app_assoc.
  - intros (Hl & Hl' & Hk & m' & Hm'). rewrite Hp in Hl. apply app_eq_nil in Hl as [Hl _]. split_and!; try done.
    exists (m ++ m'). by eapply heard_app.
Qed.

Lemma listens_queued l l1 w w1 p : queued l l1 w w1 → listens p (reported l1 w1) w1 → listens p (reported l w) w1.
Proof. intros Hq. apply wp_mono. intros x w'. by apply reported_queued. Qed.

Lemma report_poll_ok l w : listens (report_poll l) (reported l w) w.
Proof.
  apply listens_call. intros now w' Hw. exists []. split_and!; try done. simpl. by rewrite app_nil_r.
Qed.

Lemma report_connected_ok l w : jl_pending l = [] → jl_connected l = None → listens (report_connected pg_text l) (reported l w) w.
Proof.
  intros Hp Hk. unfold report_connected, listener_connect. apply wp_bind.
  apply listens_call. intros now w1 H1. apply listens_call. intros [[c|err]|] w2 H2.
  2, 3: by split_and!; try done; exists ([] ++ []); eapply heard_app.
  apply listens_call. intros [messages [[[]|err]|]] w3 H3; simpl in *.
  2, 3: by split_and!; try done; exists (([] ++ []) ++ messages); eapply heard_app; [eapply heard_app|].
  rewrite fold_receive. intros ? now' w4 <- H4. split; [done|].
  exists ((([] ++ []) ++ messages) ++ []). split; [by repeat eapply heard_app|]. split; [done|]. split; [|done].
  simpl. by rewrite app_nil_r.
Qed.

Lemma health_check_ok l c w :
  listens (health_check l c)
    (λ l' w', queued l l' w w' ∧ jl_check_due l' = false ∧ (ln_left w' ≤ ln_left w)%nat ∧
       (jl_connected l' = jl_connected l ∨ jl_connected l' = None)) w.
Proof.
  apply listens_call. intros now w1 H1. apply listens_call. intros [messages checked] w2 H2. simpl in *.
  rewrite fold_receive. destruct H1 as [H1 H1'], H2 as [H2 H2'].
  assert (heard w messages w2) as Hh.
  { split; [by rewrite H2, H1, app_nil_r|simpl in *; lia]. }
  destruct checked as [[[]|]|]; simpl; split_and!; auto; try (exists messages; done); simpl in *; lia.
Qed.

(** The iterations that can follow: messages to come, the health check, the connection. *)
Definition rounds (l : JournalListener) (w : Line) : nat :=
  ln_left w + Nat.b2n (jl_check_due l) + Nat.b2n (bool_decide (is_Some (jl_connected l))).

Lemma next_wakeup_reported again l w due :
  (∀ l' w', (rounds l' w' < rounds l w)%nat → Forall (λ x, is_scope x = true) (jl_pending l') →
     listens (again l') (reported l' w') w') →
  Forall (λ x, is_scope x = true) (jl_pending l) → listens (next_wakeup pg_text again l due) (reported l w) w.
Proof.
  intros IH Hp. unfold next_wakeup, rounds in *.
  destruct due; [apply report_poll_ok|]. destruct (jl_pending l) as [|wakeup pending] eqn:Hl.
  2:{ exists []. split; [apply heard_nil|]. split; [done|]. simpl. rewrite Forall_cons in Hp. destruct Hp as [Hs _].
      rewrite Hs, app_nil_r, Hl. split; [done|]. by intros ->. }
  destruct (jl_connected l) as [c|] eqn:Hc; [|by apply report_connected_ok].
  destruct (jl_check_due l) eqn:Hd; simpl in IH.
  - apply wp_bind. eapply wp_mono, health_check_ok. intros l2 w2 (Hq2 & Hd2 & Hle & Hc2).
    apply (listens_queued _ _ _ _ _ Hq2), IH.
    + rewrite Hd2. destruct Hc2 as [->| ->]; [rewrite Hc|]; simpl; lia.
    + destruct Hq2 as (m & _ & _ & ->). rewrite Hl. apply is_scope_woken.
  - apply listens_call. intros [[[message|err]|]|] w2 H2.
    + apply (listens_queued _ (receive l message)).
      { exists [message]. split; [done|]. split; [done|]. simpl. by rewrite app_nil_r. }
      apply IH; simpl; [rewrite Hd, Hc; destruct H2; simpl in *; lia|]. rewrite Hl.
      pose proof (is_scope_woken (jl_channel l) [message]) as Hm. simpl in Hm. by rewrite app_nil_r in Hm.
    + apply (listens_queued _ (set_connected l None)); [by apply queued_same|].
      apply IH; simpl; [rewrite Hd; destruct H2; simpl in *; lia|by rewrite Hl].
    + apply (listens_queued _ (set_connected l None)); [by apply queued_same|].
      apply IH; simpl; [rewrite Hd; destruct H2; simpl in *; lia|by rewrite Hl].
    + apply (listens_queued _ l); [by apply queued_same|]. apply report_poll_ok.
Qed.

(** C26. Whatever arrives on the connection, whenever it drops and whenever the timers fire, a call of the
    listener returns (after at most one iteration for each message that arrives, and three), and what
    it reports together with what it leaves queued are exactly the scopes that were queued and those
    of the notifications that arrived meanwhile, in order: none is lost, repeated or reordered. A
    call that fails leaves nothing queued and no connection, so the next report is [Connected]. *)
Theorem listener_loses_no_wakeup fuel l w :
  (ln_left w + 2 < fuel)%nat → Forall (λ x, is_scope x = true) (jl_pending l) →
  listens (listener_next pg_text fuel l) (reported l w) w.
Proof.
  intros Hf Hp. assert (rounds l w < fuel)%nat as Hr.
  { unfold rounds. destruct (jl_check_due l), (bool_decide _); simpl; lia. }
  clear Hf. revert l w Hp Hr. induction fuel as [|fuel IH]; intros l w Hp Hr; [lia|]. cbn [listener_next].
  assert (∀ w1 due, heard w [] w1 → listens (next_wakeup pg_text (listener_next pg_text fuel) l due) (reported l w) w1)
    as Hbody.
  { intros w1 due Hw1. apply (listens_queued l l w w1); [by apply queued_same|]. apply next_wakeup_reported; [|done].
    intros l' w' Hlt Hp'. apply IH; [done|]. unfold rounds in *. destruct Hw1. simpl in *. lia. }
  unfold poll_due. destruct (jl_connected l).
  - intros ? now w1 <- Hn. split; [done|]. by apply Hbody.
  - apply Hbody, heard_nil.
Qed.
End heard.

Lemma listener_loses_no_wakeup_witness :
  let l := mkJournalListener "orders__evt_journal" 30 10 0 true (Some 7%nat) [WakeScope "tenant-1"] in
  let w := mkLine [] 4 in
  wp eq (λ _ _, True) False (listener_next (λ _, EmptyString) 7 l) (reported l w) w.
Proof. apply (listener_loses_no_wakeup (λ _, EmptyString) 7); [simpl; lia|by repeat constructor]. Defined.
