(* ===== verification/PostgresCommit.v ===== *)
(** * Transactions on PostgreSQL

    What a connection does with a transaction, whatever the server answers: its statements are kept
    until it is committed, and applied as a whole then; a connection given back drops it; a
    transaction a statement failed in cannot be committed; a commit that fails for a reason the
    database did not raise may have been applied. Under this, the repository's writes are all or
    nothing: a commit applies exactly the statements of its plan, in one transaction, and an error
    other than an indeterminate one means it applied none. *)

From S2P Require Import Prelude Types Features Numbers Outcome Rebuild Wire Projection Repository Program RebuildBatch Mem.
From S2P Require Import WireProofs JournalScope Compaction Postgres PostgresStores.

(** ** Sessions *)

(** A statement that ran, with the rows it affected. *)
Record Ran := mkRan { ran_sql : string; ran_params : list SqlValue; ran_affected : Z }.

Inductive Tx := Active (statements : list Ran) | Aborted.

(** The transactions open on connections, and those that were applied, in order. *)
Record PgWorld := mkPgWorld { pw_open : gmap nat Tx; pw_done : list (list Ran) }.

Definition set_open (w : PgWorld) (c : nat) (tx : Tx) : PgWorld := mkPgWorld (<[c := tx]> (pw_open w)) (pw_done w).
Definition closed (w : PgWorld) (c : nat) : PgWorld := mkPgWorld (delete c (pw_open w)) (pw_done w).
Definition applied (w : PgWorld) (batch : list Ran) : PgWorld := mkPgWorld (pw_open w) (pw_done w ++ [batch]).

(** A statement that succeeds joins the transaction, or is one of its own. *)
Definition ran (w : PgWorld) (c : nat) (statement : Ran) (w' : PgWorld) : Prop :=
  match pw_open w !! c with
  | Some (Active statements) => w' = set_open w c (Active (statements ++ [statement]))
  | Some Aborted => False
  | None => w' = applied w [statement]
  end.

(** A statement that fails may abort the transaction. *)
Definition failed (w : PgWorld) (c : nat) (w' : PgWorld) : Prop :=
  w' = w ∨ is_Some (pw_open w !! c) ∧ w' = set_open w c Aborted.

(** Outside of a transaction, one whose answer is lost may have been applied. *)
Definition unanswered (w : PgWorld) (c : nat) (sql : string) (params : list SqlValue) (w' : PgWorld) : Prop :=
  failed w c w' ∨ pw_open w !! c = None ∧ ∃ n, w' = applied w [mkRan sql params n].

(** [COMMIT], which on an aborted transaction rolls it back and reports success. *)
Definition committed (w : PgWorld) (c : nat) (answer : result unit PgError) (w' : PgWorld) : Prop :=
  match pw_open w !! c, answer with
  | Some (Active statements), Ok _ => w' = applied (closed w c) statements
  | Some (Active statements), Err OtherPgError => w' = closed w c ∨ w' = applied (closed w c) statements
  | _, _ => w' = closed w c
  end.

(** ** Rows *)

Inductive Kind := KText | KInt | KBool | KBytes | KNullText | KNullBytes.

Definition has_kind (value : SqlValue) (kind : Kind) : Prop :=
  match kind, value with
  | KText, VText _ | KInt, VInt _ | KBool, VBool _ | KBytes, VBytes _ => True
  | KNullText, (VText _ | VNull) | KNullBytes, (VBytes _ | VNull) => True
  | _, _ => False
  end.

Definition event_kinds : list Kind := [KText; KInt; KText; KInt; KText; KText; KBytes; KText].

(** The columns the schema gives to the queries of a repository. *)
Definition columns (r : PostgresRepository) : list (string * list Kind) :=
  [(REGCLASS, [KBool]); (select_manifest_sql r, [KInt; KText; KText; KText]); (populated_sql r, [KBool]);
   (ENCODING_SQL, [KText]); (select_head_sql r, [KInt]); (derived_head_sql r, [KInt]); (rebuild_held_sql r, [KBool]);
   (select_snapshot_sequence_sql r, [KInt]); (select_cover_sql r, [KText; KInt]); (select_events_sql r, event_kinds);
   (select_events_after_sql r, event_kinds); (select_latest_sql r, event_kinds);
   (select_snapshot_sql r, [KText; KText; KInt; KInt; KBytes]);
   (select_outcome_sql (pg_events_table r),
    [KText; KText; KNullBytes; KText; KNullText; KNullText; KNullText; KNullText; KNullText]);
   (select_heads_sql r true, [KText; KInt]); (select_heads_sql r false, [KText; KInt]);
   (select_generation_sql r true, [KInt; KBool]); (select_generation_sql r false, [KInt; KBool]);
   (select_lock_sql r true, [KText; KInt; KInt]); (select_lock_sql r false, [KText; KInt; KInt])].

Definition shaped (r : PostgresRepository) (sql : string) (row : Row) : Prop :=
  ∀ kinds, (sql, kinds) ∈ columns r → Forall2 has_kind row kinds.

(** What a query answers: rows with the columns of the schema, or an error. *)
Definition answered {A} (r : PostgresRepository) (w : PgWorld) (c : nat) (sql : string) (rows : A → list Row)
    (answer : result A PgError) (w' : PgWorld) : Prop :=
  match answer with
  | Ok a => w' = w ∧ Forall (shaped r sql) (rows a)
  | Err _ => failed w c w'
  end.

(** ** The server

    What each call of the repository [r] may answer, and the sessions it leaves. The values of rows,
    counts and flags are any. *)
Definition pg_server (r : PostgresRepository) : Handles PgCall PgWorld := λ B q,
  match q in PgCall B return PgWorld → B → PgWorld → Prop with
  | Connect => λ w answer w', w' = w ∧ match answer with Ok c => pw_open w !! c = None | Err _ => True end
  | Release c => λ w _ w', w' = closed w c
  | Begin c => λ w answer w', match answer with Ok _ => w' = set_open w c (Active []) | Err _ => w' = w end
  | Execute c sql params => λ w answer w',
      match answer with Ok n => ran w c (mkRan sql params n) w' | Err _ => unanswered w c sql params w' end
  | BatchExecute c sql => λ w answer w',
      match answer with Ok _ => ran w c (mkRan sql [] 0) w' | Err _ => unanswered w c sql [] w' end
  | QueryAll c sql _ => λ w answer w', answered r w c sql (λ rows, rows) answer w'
  | QueryOpt c sql _ => λ w answer w', answered r w c sql option_list answer w'
  | QueryOne c sql _ => λ w answer w', answered r w c sql (λ row, [row]) answer w'
  | QueryRaw c _ _ | Prepare c _ => λ w answer w', match answer with Ok _ => w' = w | Err _ => failed w c w' end
  | NextRow c => λ w answer w', match answer with Some (Err _) => failed w c w' | _ => w' = w end
  | CommitTx c => λ w answer w', committed w c answer w'
  | MarkerCell _ section => λ w answer w', w' = w ∧ ∃ marker, answer = (section marker).2
  | FlagLoad _ | FlagStore _ _ | UnixSeconds => λ w _ w', w' = w
  end.

(** ** The statements of a commit *)

(** A statement that is to run, and the counts of affected rows it goes on with. *)
Record Planned := mkPlanned { pn_sql : string; pn_params : list SqlValue; pn_expects : Z → bool }.

Definition any_count (affected : Z) : bool := true.

Definition done_as (planned : Planned) (statement : Ran) : Prop :=
  ran_sql statement = pn_sql planned ∧ ran_params statement = pn_params planned ∧
  pn_expects planned (ran_affected statement) = true.

Definition carried_out (plan : list Planned) (statements : list Ran) : Prop := Forall2 done_as plan statements.

Section plan.
Context `{SerdeJson} (r : PostgresRepository).

Definition entity_locks (ids : list string) : list Planned := map (λ id, mkPlanned ENTITY_LOCK [VText id] any_count) ids.

(** The head of a stream is claimed: one row changes, from the head before the stream's first event. *)
Definition head_plan (stream : PCommit) : list Planned :=
  match cm_events stream, last_event (cm_events stream) with
  | first :: _, Some last =>
      if ev_sequence first <=? 1 then
        [mkPlanned (insert_head_sql r)
           [VText (cm_entity_id stream); VText (ev_entity_type first); VInt (ev_sequence last)] (λ affected, affected =? 1)]
      else
        [mkPlanned (update_head_sql r)
           [VText (cm_entity_id stream); VInt (ev_sequence first - 1); VInt (ev_sequence last)] (λ affected, affected =? 1)]
  | _, _ => []
  end.

(** Every event is inserted, where there was none. *)
Definition event_plan (event : SerializedEvent) : list Planned :=
  match from_event event with
  | Ok row =>
      [mkPlanned (insert_event_sql r)
         [VText (er_entity_id row); VInt (er_sequence row); VText (er_event_id row); VText (er_event_type row);
          VInt (er_version row); VText (er_entity_type row); VBytes (er_payload row); VText (er_metadata row)]
         (λ affected, negb (affected =? 0))]
  | Err _ => []
  end.

Definition statement_plan (statement : PgStatement) : Planned := mkPlanned (ps_sql statement) (ps_params statement) any_count.

Definition view_plan (view : ProjectedView * PgStatement) : Planned :=
  mkPlanned (ps_sql view.2) (ps_params view.2) (λ affected, negb (view_condition_failed (pv_op view.1) affected)).

Definition notify_plan (views : list (ProjectedView * PgStatement)) : list Planned :=
  let scopes := journaled_scopes views in
  if pg_wakeups r && pg_views_table_target r && negb (nil_b scopes) then
    [mkPlanned NOTIFY_SQL [VText (journal_channel (pg_events_table r)); VTexts scopes] any_count]
  else [].

Definition snapshot_plan (stream : PCommit) : list Planned :=
  match cm_snapshot stream, last_event (cm_events stream) with
  | Some snapshot, Some last =>
      [mkPlanned (upsert_snapshot_sql r)
         [VText (cm_entity_id stream); VText (ns_entity_type snapshot); VInt (ns_sequence snapshot);
          VInt (ev_sequence last); VBytes (ns_payload snapshot)] any_count]
  | _, _ => []
  end.

Definition outcome_plan (outcome : option Outcome) : list Planned :=
  match outcome with
  | None => []
  | Some outcome =>
      match from_outcome outcome with
      | Ok row =>
          [mkPlanned (insert_outcome_sql (pg_events_table r))
             [VText (or_command_id row); VText (or_status row); VText (or_digest row); opt_bytes (or_response row);
              VText (or_events row); opt_text (or_rejection row); opt_text (or_code row); opt_text (or_command_type row);
              opt_text (or_targets row); opt_text (or_principal row)] any_count]
      | Err _ => []
      end
  end.

(** What a commit writes, after its locks. *)
Definition rows_plan (written : list PCommit) (operations : list PgStatement)
    (views : list (ProjectedView * PgStatement)) (outcome : option Outcome) : list Planned :=
  flat_map head_plan written ++ flat_map (λ stream, flat_map event_plan (cm_events stream)) written
  ++ map statement_plan operations ++ map view_plan views ++ notify_plan views ++ flat_map snapshot_plan written
  ++ outcome_plan outcome.

(** The locks of a commit: its entities in order, the manifest, the rebuild fence. *)
Definition locks_plan (written : list PCommit) (fences : list ReadFence) : list Planned :=
  entity_locks (dedup (sort_by string_leb (map cm_entity_id written ++ map fe_entity_id fences)))
  ++ [mkPlanned FEATURES_LOCK_SHARED [VText (features_lock_key (pg_events_table r))] any_count;
      mkPlanned FEATURES_LOCK_SHARED [VText (pg_rebuild_lock_key (pg_events_table r))] any_count].

(** The streams of a commit that have events. *)
Definition with_events (streams : list PCommit) : list PCommit :=
  List.filter (λ stream, negb (nil_b (cm_events stream))) streams.

Definition write_plan (streams : list PCommit) (fences : list ReadFence) (operations : list PgStatement)
    (views : list ProjectedView) (outcome : option Outcome) : list Planned :=
  match view_statements r views with
  | Ok statements =>
      locks_plan (with_events streams) fences ++ rows_plan (with_events streams) operations (zip views statements) outcome
  | Err _ => []
  end.

Definition commit_plan (commit : PCommit) : list Planned :=
  write_plan [commit] [] (cm_operations commit) (cm_views commit) (stored_outcome commit).

Definition transaction_plan (commit : PTransaction) : list Planned :=
  match normalize commit with
  | Ok commit => write_plan (tc_streams commit) (tc_fences commit) (tc_operations commit) (tc_views commit)
                   (transaction_stored_outcome commit)
  | Err _ => []
  end.

(** The transaction of a declaration: it writes the manifest's row, under the manifest's lock. *)
Definition declares (batch : list Ran) : Prop :=
  ∃ locked sql params written,
    batch = [mkRan FEATURES_LOCK_EXCLUSIVE [VText (features_lock_key (pg_events_table r))] locked; mkRan sql params written] ∧
    (sql = insert_manifest_sql r ∨ sql = update_manifest_sql r).
End plan.

(** ** Programs in a transaction *)

Section transactions.
Context `{SerdeJson} (pg_text : PgError → string) (pool_text : PoolError → string) (r : PostgresRepository).
#[local] Instance server : Handles PgCall PgWorld := pg_server r.

Ltac served H := unfold performs, server, pg_server in H; cbn beta iota in H.

(** Nothing is applied. *)
Definition nothing_applied (w w' : PgWorld) : Prop := pw_done w' = pw_done w.

Abbreviation alone guar := (wp (W := PgWorld) eq guar False).

Definition inside (c : nat) (others : gmap nat Tx) (done : list (list Ran)) (statements : list Ran) (w : PgWorld) : Prop :=
  w = mkPgWorld (<[c := Active statements]> others) done.

Definition given_up (c : nat) (others : gmap nat Tx) (done : list (list Ran)) (w : PgWorld) : Prop :=
  ∃ tx, w = mkPgWorld (<[c := tx]> others) done.

(** In the transaction on [c], [p] applies nothing, and if it returns [a] its statements are such
    that [R a]. *)
Definition runs {A} (c : nat) (p : PProg A) (R : A → list Ran → Prop) : Prop :=
  ∀ others done before w, inside c others done before w →
    alone nothing_applied p (λ x w',
      match x with
      | Ok a => ∃ statements, inside c others done (before ++ statements) w' ∧ R a statements
      | Err _ => given_up c others done w'
      end) w.

Lemma inside_open c others done l w : inside c others done l w → pw_open w !! c = Some (Active l).
Proof. intros ->. apply lookup_insert_eq. Qed.

Lemma runs_ok {A} c (a : A) R : R a [] → runs c (Ret (Ok a)) R.
Proof. intros HR others done l w Hw. exists []. by rewrite app_nil_r. Qed.

Lemma runs_err {A} c e (R : A → list Ran → Prop) : runs c (Ret (Err e)) R.
Proof. intros others done l w Hw. by exists (Active l). Qed.

Lemma runs_ret {A} c (x : Result A) R : (∀ a, x = Ok a → R a []) → runs c (Ret x) R.
Proof. intros HR. destruct x as [a|e]; [by apply runs_ok, HR|apply runs_err]. Qed.

Lemma runs_try {A C} c (p : PProg A) (f : A → PProg C) R R' :
  runs c p R → (∀ a l, R a l → runs c (f a) (λ b l', R' b (l ++ l'))) → runs c (try_bind p f) R'.
Proof.
  intros Hp Hf others done l w Hw. apply wp_bind. eapply wp_mono, (Hp others done l w Hw).
  intros [a|e] w'; [|done]. intros (l1 & Hw' & HR). eapply wp_mono, (Hf a l1 HR others done (l ++ l1) w' Hw').
  intros [b|e] w''; [|done]. intros (l2 & Hw'' & HR'). exists (l1 ++ l2). by rewrite app_assoc.
Qed.

(** A program that leaves the transaction as it is goes before. *)
Lemma runs_mono {A} c (p : PProg A) (R R' : A → list Ran → Prop) : (∀ a l, R a l → R' a l) → runs c p R → runs c p R'.
Proof.
  intros HR Hp others done l w Hw. eapply wp_mono, (Hp others done l w Hw). intros [a|e] w'; [|done].
  intros (l1 & Hw' & Ha). eauto.
Qed.

(** A failed statement gives the transaction up. *)
Lemma failed_inside c others done l w w' :
  inside c others done l w → failed w c w' → nothing_applied w w' ∧ given_up c others done w'.
Proof.
  intros Hw Hf. unfold inside in Hw. subst w. destruct Hf as [->|[_ ->]]; (split; [done|]); [by exists (Active l)|].
  exists Aborted. unfold set_open. simpl. by rewrite insert_insert_eq.
Qed.

Lemma runs_execute c (f : PgError → Error) sql params :
  runs c (map_err_prog f (call (Execute c sql params))) (λ n l, l = [mkRan sql params n]).
Proof.
  intros others done l w Hw w1 [n|err] w2 <- Hq; served Hq.
  - unfold ran in Hq. rewrite (inside_open _ _ _ _ _ Hw) in Hq. unfold inside in Hw. subst w w2. split; [done|].
    exists [mkRan sql params n]. split; [|done]. unfold inside, set_open. simpl. by rewrite insert_insert_eq.
  - apply (failed_inside _ _ _ l); [done|]. destruct Hq as [Hq|[Hn _]]; [done|].
    by rewrite (inside_open _ _ _ _ _ Hw) in Hn.
Qed.

(** ** Programs that only read *)

(** On the connection [c], in a transaction or not, [p] changes nothing and returns what has [R]. *)
Definition reads {A} (c : nat) (p : PProg A) (R : A → Prop) : Prop :=
  ∀ w, alone nothing_applied p (λ x w', match x with Ok a => w' = w ∧ R a | Err _ => failed w c w' end) w.

Lemma reads_ret {A} c (x : Result A) (R : A → Prop) : (∀ a, x = Ok a → R a) → reads c (Ret x) R.
Proof. intros HR w. destruct x as [a|e]; simpl; [auto|by left]. Qed.

Lemma reads_try {A C} c (p : PProg A) (f : A → PProg C) R R' :
  reads c p R → (∀ a, R a → reads c (f a) R') → reads c (try_bind p f) R'.
Proof.
  intros Hp Hf w. apply wp_bind. eapply wp_mono, (Hp w). intros [a|e] w'; [|done]. intros [-> HR].
  by apply (Hf a HR).
Qed.

Lemma reads_query {A} c (q : PgCall (result A PgError)) sql rows (f : PgError → Error) :
  (∀ w answer w', performs q w answer w' → answered r w c sql rows answer w') →
  reads c (map_err_prog f (call q)) (λ a, Forall (shaped r sql) (rows a)).
Proof.
  intros Hq w w1 answer w2 <- Ha. apply Hq in Ha. destruct answer as [a|err]; simpl in Ha.
  - by destruct Ha as [-> Ha].
  - split; [|done]. by destruct Ha as [->|[_ ->]].
Qed.

Lemma reads_mono {A} c (p : PProg A) (R R' : A → Prop) : (∀ a, R a → R' a) → reads c p R → reads c p R'.
Proof. intros HR Hp w. eapply wp_mono, (Hp w). intros [a|e] w'; [|done]. intros [-> Ha]. auto. Qed.

Lemma reads_query_one c (f : PgError → Error) sql params :
  reads c (map_err_prog f (call (QueryOne c sql params))) (shaped r sql).
Proof. eapply reads_mono, (reads_query c _ sql (λ row, [row])); [|done]. intros row Hr. by inversion Hr. Qed.

Lemma reads_query_opt c (f : PgError → Error) sql params :
  reads c (map_err_prog f (call (QueryOpt c sql params))) (λ row, ∀ found, row = Some found → shaped r sql found).
Proof.
  eapply reads_mono, (reads_query c _ sql option_list); [|done]. intros row Hr found ->. by inversion Hr.
Qed.

Lemma reads_query_all c (f : PgError → Error) sql params :
  reads c (map_err_prog f (call (QueryAll c sql params))) (Forall (shaped r sql)).
Proof. by apply (reads_query c _ sql (λ rows, rows)). Qed.

(** A call that is not about the connection. *)
Lemma reads_aside {A B} c (q : PgCall B) (k : B → PProg A) R :
  (∀ w b w', performs q w b w' → w' = w) → (∀ b, reads c (k b) R) → reads c (bind (call q) k) R.
Proof. intros Hq Hk w w1 b w2 <- Hp. apply Hq in Hp as ->. split; [done|]. by apply (Hk b). Qed.

Lemma runs_reads {A} c (p : PProg A) R : reads c p R → runs c p (λ a l, l = [] ∧ R a).
Proof.
  intros Hp others done l w Hw. eapply wp_mono, (Hp w). intros [a|e] w'.
  - intros [-> Ha]. exists []. by rewrite app_nil_r.
  - intros Hf. apply (failed_inside c others done l w w' Hw Hf).
Qed.

(** A read, and what follows in the transaction. *)
Lemma runs_after {A C} c (p : PProg A) (f : A → PProg C) (R : A → Prop) R' :
  reads c p R → (∀ a, R a → runs c (f a) R') → runs c (try_bind p f) R'.
Proof. intros Hp Hf. apply (runs_try _ _ _ _ _ (runs_reads c p R Hp)). intros a l [-> Ha]. by apply Hf. Qed.

(** ** Rows that are read *)

Lemma shaped_bool sql row : shaped r sql row → (sql, [KBool]) ∈ columns r → ∃ b, row = [VBool b].
Proof.
  intros Hs Hc. specialize (Hs _ Hc). inversion Hs as [|v k l ks Hv Hl]; subst. inversion Hl; subst.
  destruct v; try done. eauto.
Qed.

Lemma shaped_int sql row : shaped r sql row → (sql, [KInt]) ∈ columns r → ∃ z, row = [VInt z].
Proof.
  intros Hs Hc. specialize (Hs _ Hc). inversion Hs as [|v k l ks Hv Hl]; subst. inversion Hl; subst.
  destruct v; try done. eauto.
Qed.

Lemma shaped_text sql row : shaped r sql row → (sql, [KText]) ∈ columns r → ∃ t, row = [VText t].
Proof.
  intros Hs Hc. specialize (Hs _ Hc). inversion Hs as [|v k l ks Hv Hl]; subst. inversion Hl; subst.
  destruct v; try done. eauto.
Qed.

(** A row with the kinds of its columns. *)
Ltac row_of H :=
  let rec go H :=
    lazymatch type of H with
    | Forall2 _ _ [] => inversion H; subst; clear H
    | Forall2 _ _ (_ :: _) =>
        let v := fresh "v" in let Hv := fresh "Hv" in let Hl := fresh "Hl" in
        inversion H as [|v ? ? ? Hv Hl]; subst; clear H; destruct v; try (exfalso; exact Hv); clear Hv; go Hl
    end in go H.

Ltac column := unfold columns; repeat first [apply list_elem_of_here|apply list_elem_of_further].

Lemma reads_manifest c : reads c (read_manifest_in pg_text r c) (λ _, True).
Proof.
  apply (reads_try _ _ _ _ _ (reads_query_one _ _ _ _)). intros row Hr.
  destruct (shaped_bool _ _ Hr) as [b ->]; [column|]. destruct b; simpl; [|by apply reads_ret].
  apply (reads_try _ _ _ _ _ (reads_query_opt _ _ _ _)). intros [row|] Hrow; [|by apply reads_ret].
  specialize (Hrow row eq_refl [KInt; KText; KText; KText] ltac:(column)).
  row_of Hrow; by apply reads_ret.
Qed.

Lemma reads_stored_head c id : reads c (stored_head pg_text r c id) (λ _, True).
Proof.
  apply (reads_try _ _ _ _ _ (reads_query_opt _ _ _ _)). intros [row|] Hrow; [|by apply reads_ret].
  destruct (shaped_int _ _ (Hrow row eq_refl)) as [z ->]; [column|]. by apply reads_ret.
Qed.

Lemma reads_derived_head c id : reads c (pg_derived_head pg_text r c id) (λ _, True).
Proof.
  apply (reads_try _ _ _ _ _ (reads_query_one _ _ _ _)). intros row Hr.
  destruct (shaped_int _ _ Hr) as [z ->]; [column|]. by apply reads_ret.
Qed.

Lemma reads_probe c id : reads c (pg_probe pg_text r c id) (λ _, True).
Proof.
  apply (reads_try _ _ _ _ _ (reads_derived_head c id)). intros derived _.
  apply (reads_try _ _ _ _ _ (reads_stored_head c id)). intros stored _.
  destruct (probe_first stored derived); try by apply reads_ret.
  apply (reads_try _ _ _ _ _ (reads_derived_head c id)). intros rederived _. by apply reads_ret.
Qed.

Lemma reads_predecessor c id sequence : reads c (check_snapshot_predecessor pg_text r c id sequence) (λ _, True).
Proof.
  apply (reads_try _ _ _ _ _ (reads_query_opt _ _ _ _)). intros [row|] Hrow; [|by apply reads_ret].
  destruct (shaped_int _ _ (Hrow row eq_refl)) as [z ->]; [column|]. by apply reads_ret.
Qed.

Lemma reads_outcome_absent c outcome : reads c (check_outcome_absent pg_text r c outcome) (λ _, True).
Proof.
  destruct outcome as [outcome|]; [|by apply reads_ret].
  apply (reads_try _ _ _ _ _ (reads_query_opt _ _ _ _)). intros row _. by apply reads_ret.
Qed.

Lemma reads_failed_fences c written fences : reads c (failed_fences pg_text r c written fences) (λ _, True).
Proof.
  induction fences as [|fence fences IH]; simpl; [by apply reads_ret|]. destruct (existsb _ _); [done|].
  apply (reads_try _ _ _ _ _ (reads_stored_head c _)). intros stored _.
  apply (reads_try _ _ _ _ _ IH). intros failed _. by apply reads_ret.
Qed.

Lemma reads_fence_verdicts c fences : reads c (pg_fence_verdicts pg_text r c fences) (λ _, True).
Proof.
  induction fences as [|fence fences IH]; simpl; [by apply reads_ret|].
  apply (reads_try _ _ _ _ _ (reads_probe c _)). intros probed _.
  apply (reads_try _ _ _ _ _ IH). intros verdicts _. by apply reads_ret.
Qed.

(** No verdict means that every head was the expected one. *)
Lemma reads_head_verdicts c statements :
  reads c (head_verdicts pg_text r c statements)
    (λ verdicts, verdicts = [] → Forall (λ s, hs_passed s = true) statements).
Proof.
  induction statements as [|s statements IH]; simpl; [by apply reads_ret|]. destruct (hs_passed s) eqn:Hs.
  - eapply reads_mono, IH. intros verdicts Hv Hn. constructor; auto.
  - apply (reads_try _ _ _ _ _ (reads_probe c _)). intros probed _. apply (reads_try _ _ _ _ _ IH). intros verdicts _.
    apply reads_ret. by intros a [= <-].
Qed.

Lemma reads_check_manifest c observed views : reads c (pg_check_manifest r observed views) (λ _, True).
Proof.
  unfold pg_check_manifest, undeclare. apply reads_aside; [by intros w b w' [-> _]|]. intros [checked reset]. simpl.
  destruct reset; [|by apply reads_ret]. apply reads_aside; [done|]. intros []. by apply reads_ret.
Qed.

(** ** The writes of a commit *)

Lemma carried_out_app plan plan' l l' : carried_out plan l → carried_out plan' l' → carried_out (plan ++ plan') (l ++ l').
Proof. apply Forall2_app. Qed.

Lemma carried_out_nil : carried_out [] [].
Proof. constructor. Qed.

Lemma carried_out_one planned n :
  pn_expects planned n = true → carried_out [planned] [mkRan (pn_sql planned) (pn_params planned) n].
Proof. by repeat constructor. Qed.
#[local] Hint Resolve carried_out_app carried_out_nil : evt.

(** A program whose statements are those of a plan, then one whose statements are those of another. *)
Lemma runs_plan {A C} c (p : PProg A) (f : A → PProg C) plan plan' :
  runs c p (λ _ l, carried_out plan l) → (∀ a, runs c (f a) (λ _ l, carried_out plan' l)) →
  runs c (try_bind p f) (λ _ l, carried_out (plan ++ plan') l).
Proof.
  intros Hp Hf. apply (runs_try _ _ _ _ _ Hp). intros a l Hl. eapply runs_mono, Hf. intros b l' Hl'. auto with evt.
Qed.

(** A read before a plan. *)
Lemma runs_read_plan {A C} c (p : PProg A) (f : A → PProg C) (R : A → Prop) plan :
  reads c p R → (∀ a, runs c (f a) (λ _ l, carried_out plan l)) →
  runs c (try_bind p f) (λ _ l, carried_out plan l).
Proof. intros Hp Hf. apply (runs_after _ _ _ _ _ Hp). intros a _. apply Hf. Qed.

Lemma runs_locked c sql params :
  runs c (execute pg_text c sql params) (λ _ l, carried_out [mkPlanned sql params any_count] l).
Proof. eapply runs_mono, runs_execute. intros n l ->. by apply (carried_out_one (mkPlanned sql params any_count)). Qed.

Lemma runs_entity_locks c ids : runs c (lock_entities pg_text c ids) (λ _ l, carried_out (entity_locks ids) l).
Proof.
  induction ids as [|id ids IH]; simpl; [apply runs_ok, carried_out_nil|].
  apply (runs_plan _ _ _ [_] _ (runs_locked c _ _)). intros _. apply IH.
Qed.

Lemma runs_rebuild_lock c :
  runs c (assert_no_rebuild_lock pg_text r c)
    (λ _ l, carried_out [mkPlanned FEATURES_LOCK_SHARED [VText (pg_rebuild_lock_key (pg_events_table r))] any_count] l).
Proof.
  apply (runs_plan _ _ _ [_] [] (runs_locked c _ _)). intros _.
  eapply runs_mono, (runs_reads _ _ (λ _, True)); [by intros _ l [-> _]; apply carried_out_nil|].
  apply reads_aside; [done|]. intros ready. apply (reads_try _ _ _ (λ _, True)).
  - destruct ready; [by apply reads_ret|]. apply (reads_try _ _ _ _ _ (reads_query_one _ _ _ _)). intros row Hr.
    destruct (shaped_bool _ _ Hr) as [b ->]; [column|]. destruct b; simpl; [|by apply reads_ret].
    apply reads_aside; [done|]. intros _. by apply reads_ret.
  - intros [] _; simpl; [|by apply reads_ret]. apply (reads_try _ _ _ _ _ (reads_query_one _ _ _ _)). intros row Hr.
    destruct (shaped_bool _ _ Hr) as [b ->]; [column|]. by apply reads_ret.
Qed.

(** A head statement passes exactly when it changed one row. *)
Lemma runs_head_statement c stream :
  runs c (run_head_statement pg_text r c stream) (λ passed l, passed = true → carried_out (head_plan r stream) l).
Proof.
  unfold run_head_statement, head_plan. destruct (cm_events stream) as [|first events]; [apply runs_ok; auto with evt|].
  destruct (last_event (first :: events)) as [last|]; [|apply runs_ok; auto with evt].
  destruct (ev_sequence first <=? 1); apply (runs_try _ _ _ _ _ (runs_execute _ _ _ _)); intros n l ->;
    apply runs_ok; intros Hn; by apply (carried_out_one (mkPlanned _ _ (λ affected, affected =? 1))).
Qed.

Lemma runs_head_statements c written :
  Forall (λ stream, cm_events stream ≠ []) written →
  runs c (run_head_statements pg_text r c written)
    (λ statements l, map hs_stream statements = written ∧
       (Forall (λ s, hs_passed s = true) statements → carried_out (flat_map (head_plan r) written) l)).
Proof.
  induction 1 as [|stream written Hs _ IH]; simpl; [apply runs_ok; auto with evt|].
  destruct (cm_events stream) as [|first events]; [done|].
  apply (runs_try _ _ _ _ _ (runs_head_statement c stream)). intros passed l Hl.
  apply (runs_try _ _ _ _ _ IH). intros statements l' [Hm Hl']. apply runs_ok. rewrite app_nil_r.
  split; [simpl; by rewrite Hm|]. intros Hp. rewrite Forall_cons in Hp. destruct Hp as [Hp Hps].
  apply carried_out_app; auto.
Qed.

Lemma runs_stream_events c statement events :
  runs c (insert_stream_events pg_text r c statement events) (λ _ l, carried_out (flat_map (event_plan r) events) l).
Proof.
  induction events as [|event events IH]; simpl; [apply runs_ok; auto with evt|].
  unfold event_plan at 1. destruct (from_event event) as [row|e]; [|apply runs_err].
  apply (runs_try _ _ _ _ _ (runs_execute _ _ _ _)). intros n l ->. destruct (Z.eqb_spec n 0) as [|Hn].
  - apply (runs_after _ _ _ _ _ (reads_derived_head c _)). intros derived _. apply runs_err.
  - eapply runs_mono, IH. intros u l Hl. apply carried_out_app; [|done].
    apply (carried_out_one (mkPlanned _ _ (λ affected, negb (affected =? 0)))). simpl. lia.
Qed.

Lemma runs_all_events c statements :
  runs c (insert_all_events pg_text r c statements)
    (λ _ l, carried_out (flat_map (λ stream, flat_map (event_plan r) (cm_events stream)) (map hs_stream statements)) l).
Proof.
  induction statements as [|s statements IH]; simpl; [apply runs_ok; auto with evt|].
  apply (runs_plan _ _ _ _ _ (runs_stream_events c s _)). intros _. apply IH.
Qed.

Lemma runs_operations c operations :
  runs c (run_operations pg_text c operations) (λ _ l, carried_out (map statement_plan operations) l).
Proof.
  induction operations as [|s operations IH]; simpl; [apply runs_ok; auto with evt|].
  apply (runs_try _ _ _ _ _ (runs_execute _ _ _ _)). intros n l ->. eapply runs_mono, IH. intros u l Hl.
  by apply (carried_out_app [_] _ [_]); [apply (carried_out_one (statement_plan s))|].
Qed.

Lemma runs_views c views :
  runs c (run_view_statements pg_text c views) (λ _ l, carried_out (map view_plan views) l).
Proof.
  induction views as [|[view s] views IH]; simpl; [apply runs_ok; auto with evt|].
  apply (runs_try _ _ _ _ _ (runs_execute _ _ _ _)). intros n l ->.
  destruct (view_condition_failed (pv_op view) n) eqn:Hn; [apply runs_err|].
  eapply runs_mono, IH. intros u l Hl. apply (carried_out_app [_] _ [_]); [|done].
  apply (carried_out_one (view_plan (view, s))). simpl. by rewrite Hn.
Qed.

Lemma runs_notify c views : runs c (notify_journaled pg_text r c views) (λ _ l, carried_out (notify_plan r views) l).
Proof.
  unfold notify_journaled, notify_plan. destruct (_ && _); [|apply runs_ok; auto with evt].
  apply (runs_try _ _ _ _ _ (runs_locked c _ _)). intros n l Hl. apply runs_ok. by rewrite app_nil_r.
Qed.

Lemma last_event_some event events : is_Some (last_event (event :: events)).
Proof. revert event. induction events as [|e events IH]; intros event; [by eexists|]. apply IH. Qed.

Lemma runs_snapshots c statements :
  Forall (λ s, cm_events (hs_stream s) ≠ []) statements →
  runs c (write_snapshots pg_text r c statements) (λ _ l, carried_out (flat_map (snapshot_plan r) (map hs_stream statements)) l).
Proof.
  induction 1 as [|s statements Hs _ IH]; simpl; [apply runs_ok; auto with evt|]. unfold snapshot_plan at 1.
  destruct (cm_snapshot (hs_stream s)) as [snapshot|]; [|done].
  destruct (cm_events (hs_stream s)) as [|event events]; [done|].
  destruct (last_event_some event events) as [last ->].
  apply (runs_read_plan _ _ _ _ _ (reads_predecessor c _ _)). intros _.
  apply (runs_plan _ _ _ _ _ (runs_locked c _ _)). intros _. apply IH.
Qed.

Lemma runs_outcome c outcome :
  runs c match outcome with Some outcome => insert_outcome pg_text r c outcome | None => Ret (Ok tt) end
    (λ _ l, carried_out (outcome_plan r outcome) l).
Proof.
  destruct outcome as [outcome|]; [|apply runs_ok; auto with evt]. unfold insert_outcome, outcome_plan.
  destruct (from_outcome outcome) as [row|e]; [|apply runs_err].
  apply (runs_try _ _ _ _ _ (runs_execute _ _ _ _)). intros n l ->. apply runs_ok.
  by apply (carried_out_one (mkPlanned _ _ any_count)).
Qed.

(** ** Whole transactions *)

(** A step applies nothing, or one transaction that is [whole]. *)
Definition applies_only (whole : list Ran → Prop) (w w' : PgWorld) : Prop :=
  pw_done w' = pw_done w ∨ ∃ batch, whole batch ∧ pw_done w' = pw_done w ++ [batch].

(** What was applied when a result is returned. An error that is [unknown] may hide a commit. *)
Definition settled {A} (whole : list Ran → Prop) (writes : A → bool) (unknown : Error → Prop) (x : Result A)
    (new : list (list Ran)) : Prop :=
  match x with
  | Ok a => if writes a then ∃ batch, new = [batch] ∧ whole batch else new = []
  | Err e => new = [] ∨ unknown e ∧ ∃ batch, new = [batch] ∧ whole batch
  end.

(** What is left of a transaction in which the statements [before] ran. *)
Definition ends {A} (whole : list Ran → Prop) (writes : A → bool) (unknown : Error → Prop) (c : nat) (before : list Ran)
    (p : PProg A) : Prop :=
  ∀ others done w, others !! c = None → inside c others done before w →
    alone (applies_only whole) p (λ x w',
      delete c (pw_open w') = others ∧ ∃ new, pw_done w' = done ++ new ∧ settled whole writes unknown x new) w.

Section ends.
Context {A : Type} (whole : list Ran → Prop) (writes : A → bool) (unknown : Error → Prop).
Abbreviation ends' := (ends whole writes unknown).

Lemma quiet_applies_only w w' : nothing_applied w w' → applies_only whole w w'.
Proof. by left. Qed.

Lemma ends_unwritten c before (x : Result A) : (∀ a, x = Ok a → writes a = false) → ends' c before (Ret x).
Proof.
  intros Hx others done w Hc Hw. unfold inside in Hw. subst w. simpl. rewrite delete_insert_id by done. split; [done|].
  exists []. rewrite app_nil_r. split; [done|]. destruct x as [a|e]; simpl; [by rewrite (Hx a eq_refl)|by left].
Qed.

Lemma ends_try {C} c before (p : PProg C) f R :
  runs c p R → (∀ a l, R a l → ends' c (before ++ l) (f a)) → ends' c before (try_bind p f).
Proof.
  intros Hp Hf others done w Hc Hw. apply wp_bind.
  eapply wp_mono, (wp_weaken eq nothing_applied _ _ _ _ _ quiet_applies_only (Hp others done before w Hw)).
  intros [a|e] w'; [intros (l & Hw' & HR); by apply (Hf a l HR others done w' Hc)|].
  intros [tx ->]. simpl. rewrite delete_insert_id by done. split; [done|]. exists []. rewrite app_nil_r. split; [done|by left].
Qed.

Lemma ends_read {C} c before (p : PProg C) f R :
  reads c p R → (∀ a, R a → ends' c before (f a)) → ends' c before (try_bind p f).
Proof.
  intros Hp Hf. apply (ends_try _ _ _ _ _ (runs_reads c p R Hp)). intros a l [-> Ha]. rewrite app_nil_r. by apply Hf.
Qed.

(** [COMMIT], and a return that makes no statement. *)
Lemma ends_commit c before (f : PgError → Error) (k : unit → PProg A) a :
  whole before → unknown (f OtherPgError) → writes a = true →
  (∀ w, alone nothing_applied (k tt) (λ x w', x = Ok a ∧ w' = w) w) →
  ends' c before (try_bind (map_err_prog f (call (CommitTx c))) k).
Proof.
  intros Hb Hu Ha Hk others done w Hc Hw w1 answer w2 <- Hq. served Hq. unfold committed in Hq.
  rewrite (inside_open _ _ _ _ _ Hw) in Hq. unfold inside in Hw. subst w.
  assert (delete c (<[c := Active before]> others) = others) as Ho by (by apply delete_insert_id).
  assert (delete c others = others) as Ho' by (by apply delete_id).
  destruct answer as [[]|[code constraint|]]; simpl in *.
  - subst w2. split; [right; eexists; split; [done|]; done|]. eapply wp_mono; [|apply (wp_weaken eq nothing_applied), Hk].
    + intros x w' [-> ->]. simpl. rewrite Ho, Ho'. split; [done|]. exists [before]. rewrite Ha. eauto.
    + apply quiet_applies_only.
  - subst w2. split; [by left|]. simpl. rewrite Ho, Ho'. split; [done|]. exists []. rewrite app_nil_r. split; [done|by left].
  - destruct Hq as [->| ->]; simpl; rewrite Ho, Ho'.
    + split; [by left|]. split; [done|]. exists []. rewrite app_nil_r. split; [done|by left].
    + split; [right; eexists; split; [done|]; done|]. split; [done|]. exists [before]. split; [done|]. right. eauto.
Qed.
End ends.

Lemma ends_commit_last whole (unknown : Error → Prop) c before (f : PgError → Error) :
  whole before → unknown (f OtherPgError) →
  ends whole (λ _ : unit, true) unknown c before (map_err_prog f (call (CommitTx c))).
Proof.
  intros Hb Hu others done w Hc Hw w1 answer w2 Hr Hq.
  destruct (ends_commit whole (λ _ : unit, true) unknown c before f (λ u, Ret (Ok u)) tt Hb Hu eq_refl
    (λ w, conj eq_refl eq_refl) others done w Hc Hw w1 answer w2 Hr Hq) as [Hg Hk].
  split; [done|]. by destruct answer as [[]|err].
Qed.

(** ** Operations *)

(** [p] leaves the connections as they were, and what it applies is such that [Q]; each step applies
    nothing or a transaction that is [whole]. *)
Definition leaves {A} (whole : list Ran → Prop) (p : PProg A) (Q : Result A → list (list Ran) → Prop) : Prop :=
  ∀ w, alone (applies_only whole) p (λ x w',
    pw_open w' = pw_open w ∧ ∃ new, pw_done w' = pw_done w ++ new ∧ Q x new) w.

Section leaves.
Context (whole : list Ran → Prop).
Abbreviation leaves' := (leaves whole).

Lemma leaves_ret {A} (x : Result A) (Q : Result A → list (list Ran) → Prop) : Q x [] → leaves' (Ret x) Q.
Proof. intros HQ w. split; [done|]. exists []. by rewrite app_nil_r. Qed.

Lemma leaves_mono {A} (p : PProg A) (Q Q' : Result A → list (list Ran) → Prop) :
  (∀ x new, Q x new → Q' x new) → leaves' p Q → leaves' p Q'.
Proof. intros HQ Hp w. eapply wp_mono, (Hp w). intros x w' (Ho & new & Hd & Hx). eauto. Qed.

Lemma leaves_bind {A C F} (p : Tree PgCall (result A F)) (f : result A F → PProg C) Q Q' :
  (∀ w, alone (applies_only whole) p (λ x w', pw_open w' = pw_open w ∧ ∃ new, pw_done w' = pw_done w ++ new ∧ Q x new) w) →
  (∀ x new, Q x new → leaves' (f x) (λ y new', Q' y (new ++ new'))) → leaves' (bind p f) Q'.
Proof.
  intros Hp Hf w. apply wp_bind. eapply wp_mono, (Hp w). intros x w1 (Ho & new & Hd & Hx).
  eapply wp_mono, (Hf x new Hx w1). intros y w2 (Ho' & new' & Hd' & Hy). split; [congruence|].
  exists (new ++ new'). split; [by rewrite Hd', Hd, app_assoc|done].
Qed.

Lemma leaves_try {A C} (p : PProg A) (f : A → PProg C) Q Q' :
  leaves' p Q → (∀ a new, Q (Ok a) new → leaves' (f a) (λ y new', Q' y (new ++ new'))) →
  (∀ e new, Q (Err e) new → Q' (Err e) new) → leaves' (try_bind p f) Q'.
Proof.
  intros Hp Hf He. apply (leaves_bind _ _ _ _ Hp). intros [a|e] new Hx; [by apply Hf|].
  apply leaves_ret. rewrite app_nil_r. by apply He.
Qed.

Lemma leaves_aside {A B} (q : PgCall B) (k : B → PProg A) Q :
  (∀ w b w', performs q w b w' → w' = w) → (∀ b, leaves' (k b) Q) → leaves' (bind (call q) k) Q.
Proof. intros Hq Hk w w1 b w2 <- Hp. apply Hq in Hp as ->. split; [by left|]. apply Hk. Qed.

(** A connection is given back as it was. *)
Lemma leaves_client {A} (body : nat → PProg A) (Q : Result A → list (list Ran) → Prop) :
  (∀ e, Q (Err e) []) →
  (∀ c others done w, others !! c = None → w = mkPgWorld others done →
     alone (applies_only whole) (body c) (λ x w',
       delete c (pw_open w') = others ∧ ∃ new, pw_done w' = done ++ new ∧ Q x new) w) →
  leaves' (with_client pool_text body) Q.
Proof.
  intros He Hb w w1 [c|err] w2 <- Hq; served Hq; destruct Hq as [-> Hc]; split; try (by left); simpl.
  2:{ split; [done|]. exists []. rewrite app_nil_r. auto. }
  destruct w as [others done]. apply wp_bind. eapply wp_mono, (Hb c others done _ Hc eq_refl).
  intros x w1 (Ho & new & Hd & HQ) w2 [] w3 <- Hr. served Hr. subst w3. split; [by left|]. simpl. eauto.
Qed.

Lemma leaves_reading {A} (body : nat → PProg A) :
  (∀ c, reads c (body c) (λ _, True)) → leaves' (with_client pool_text body) (λ _ new, new = []).
Proof.
  intros Hb. apply leaves_client; [done|]. intros c others done w Hc ->.
  eapply wp_mono; [|apply (wp_weaken eq nothing_applied), (Hb c); apply quiet_applies_only].
  intros x w' Hx. assert (w' = mkPgWorld others done) as ->.
  { destruct x as [a|e]; [by destruct Hx|]. destruct Hx as [->|[[tx Ht] _]]; [done|]. simpl in Ht. congruence. }
  simpl. split; [by apply delete_id|]. exists []. by rewrite app_nil_r.
Qed.

Lemma leaves_transaction {A} (body : nat → PProg A) (writes : A → bool) (unknown : Error → Prop) :
  (∀ c, ends whole writes unknown c [] (body c)) →
  leaves' (with_transaction pg_text pool_text body) (settled whole writes unknown).
Proof.
  intros Hb. apply leaves_client; [by left|]. intros c others done w Hc -> w1 [[]|err] w2 <- Hq; served Hq; subst w2.
  - split; [by left|]. by apply (Hb c others done).
  - split; [by left|]. simpl. split; [by apply delete_id|]. exists []. rewrite app_nil_r. split; [done|by left].
Qed.
End leaves.

(** ** Declarations *)

Section declarations.
Context (whole : list Ran → Prop) (Hdeclares : ∀ batch, declares r batch → whole batch).

(** The result of an operation that may only have declared features. *)
Definition declared_only {A} (x : Result A) (new : list (list Ran)) : Prop := Forall (declares r) new.

Lemma ends_write_manifest c n observed change :
  ends (declares r) (λ b : bool, b) (λ _, True) c
    [mkRan FEATURES_LOCK_EXCLUSIVE [VText (features_lock_key (pg_events_table r))] n]
    (write_manifest pg_text r c observed change).
Proof.
  unfold write_manifest. set (lock := mkRan FEATURES_LOCK_EXCLUSIVE _ n).
  apply (ends_try _ _ _ _ _ _ _ (λ _ l, declares r ([lock] ++ l))).
  - destruct observed as [manifest|].
    + apply (runs_try _ _ _ _ _ (runs_execute _ _ _ _)). intros m l ->.
      destruct (m =? 0); [apply runs_err|apply runs_ok]. repeat eexists. by right.
    + eapply runs_mono, runs_execute. intros m l ->. repeat eexists. by left.
  - intros m l Hl. apply (ends_commit _ _ _ _ _ _ _ true); [done..|].
    intros w w1 [] w2 <- Hq. served Hq. destruct Hq as [-> _]. done.
Qed.

Lemma leaves_declare change only_if_empty :
  leaves whole (pg_declare pg_text pool_text r change only_if_empty) declared_only.
Proof.
  intros w. eapply wp_weaken, (leaves_mono (declares r) _ (settled (declares r) (λ b : bool, b) (λ _, True))).
  { intros x y [H1|(b & Hb & H1)]; [by left|right; eauto]. }
  { intros [[]|e] new; simpl.
    - intros (b & -> & Hb). by constructor.
    - intros ->. constructor.
    - intros [->|(_ & b & -> & Hb)]; by constructor. }
  apply leaves_transaction. intros c. apply (ends_try _ _ _ _ _ _ _ _ (runs_execute _ _ _ _)). intros n l ->.
  apply (ends_read _ _ _ _ _ _ _ _ (reads_manifest c)). intros observed _.
  destruct only_if_empty; [|apply ends_write_manifest].
  destruct (match observed with Some _ => _ | None => _ end) as [[]|e]; [by apply ends_unwritten; intros ? [= <-]| |by apply ends_unwritten].
  apply (ends_read _ _ _ _ _ _ _ _ (reads_query_one _ _ _ _)). intros row Hr.
  destruct (shaped_bool _ _ Hr) as [b ->]; [column|]. destruct b; [by apply ends_unwritten|apply ends_write_manifest].
Qed.

Lemma declared_nothing {A} (x : Result A) new : new = [] → declared_only x new.
Proof. intros ->. constructor. Qed.

Lemma declared_app {A C} (x : Result A) (y : Result C) new new' :
  declared_only x new → declared_only y new' → declared_only y (new ++ new').
Proof. intros H1 H2. by apply Forall_app. Qed.

Lemma leaves_read_manifest : leaves whole (pg_read_manifest pg_text pool_text r) (λ _ new, new = []).
Proof. apply leaves_reading. intros c. apply reads_manifest. Qed.

Lemma leaves_stream_heads journaling : leaves whole (ensure_stream_heads pg_text pool_text r journaling) declared_only.
Proof.
  apply leaves_aside; [by intros w b w' [-> _]|]. intros [marker|]; [by apply leaves_ret, Forall_nil_2|].
  apply (leaves_try _ _ _ _ _ leaves_read_manifest); [|intros e new; apply declared_nothing]. intros observed new ->.
  destruct (check? _; _) as [validated|e]; [by apply leaves_ret, Forall_nil_2|].
  destruct e; try by apply leaves_ret, Forall_nil_2.
  apply (leaves_try _ _ _ _ _ (leaves_declare _ _)); [|done]. intros initialized new Hn.
  apply leaves_ret. by rewrite app_nil_r.
Qed.

Lemma leaves_encoding : leaves whole (check_encoding pg_text pool_text (pg_view_repository r)) (λ _ new, new = []).
Proof.
  apply leaves_reading. intros c. apply reads_aside; [done|]. intros []; [by apply reads_ret|].
  apply (reads_try _ _ _ _ _ (reads_query_one _ _ _ _)). intros row Hr.
  destruct (shaped_text _ _ Hr) as [t ->]; [column|]. cbn [get lookup list_lookup as_text bind].
  destruct (negb _); [by apply reads_ret|]. apply reads_aside; [done|]. intros _. by apply reads_ret.
Qed.

Lemma leaves_views_declared : leaves whole (ensure_views_declared pg_text pool_text r) declared_only.
Proof.
  unfold ensure_views_declared. destruct (pg_views_table_target r); [|by apply leaves_ret, Forall_nil_2].
  apply leaves_aside; [done|]. intros []; [by apply leaves_ret, Forall_nil_2|].
  apply (leaves_try _ _ _ _ _ leaves_encoding); [|intros e new; apply declared_nothing]. intros _ new ->.
  apply (leaves_try _ _ _ _ _ leaves_read_manifest); [|intros e new; apply declared_nothing]. intros manifest new ->.
  apply (leaves_try _ _ _ declared_only); [| |done].
  - destruct (match manifest with Some _ => _ | None => _ end); [by apply leaves_ret, Forall_nil_2|].
    apply (leaves_try _ _ _ _ _ (leaves_declare _ _)); [|done]. intros written new Hn.
    apply leaves_ret. by rewrite app_nil_r.
  - intros u new Hn. apply leaves_aside; [done|]. intros _. apply leaves_ret. by rewrite app_nil_r.
Qed.
End declarations.

(** ** Commits *)

(** What a commit's error is when it is not known whether the commit was applied. *)
Definition commit_unknown (outcome : option Outcome) : Error :=
  match outcome with Some _ => Indeterminate (pg_box pg_text OtherPgError) | None => pg_backend pg_text OtherPgError end.

(** What an operation that writes [plan] leaves, beside declarations: the statements of the plan,
    applied as one transaction if it succeeds, and not at all if it fails for another reason than
    [unknown]. *)
Definition written_whole {A} (plan : list Planned) (unknown : Error) (x : Result A) (new : list (list Ran)) : Prop :=
  ∃ declared rest, new = declared ++ rest ∧ Forall (declares r) declared ∧
    settled (carried_out plan) (λ _, true) (λ e, e = unknown) x rest.

Definition whole_for (plan : list Planned) (batch : list Ran) : Prop := declares r batch ∨ carried_out plan batch.

Lemma ends_rows c written fences operations views outcome locks before :
  Forall (λ stream, cm_events stream ≠ []) written → carried_out locks before →
  ends (carried_out (locks ++ rows_plan r written operations views outcome)) (λ _, true) (λ e, e = commit_unknown outcome)
    c before (write_rows pg_text r c written fences operations views outcome).
Proof.
  intros Hw Hb. unfold write_rows, rows_plan.
  apply (ends_read _ _ _ _ _ _ _ _ (reads_outcome_absent c outcome)). intros _ _.
  apply (ends_try _ _ _ _ _ _ _ _ (runs_head_statements c written Hw)). intros statements l [Hs Hl].
  apply (ends_read _ _ _ _ _ _ _ _ (reads_failed_fences c written fences)). intros failed _.
  apply (ends_read _ _ _ _ _ _ _ _ (reads_head_verdicts c statements)). intros heads Hh.
  apply (ends_read _ _ _ _ _ _ _ _ (reads_fence_verdicts c failed)). intros verdicts _.
  destruct (rank (heads ++ verdicts)) eqn:Hr; [by apply ends_unwritten|].
  assert (heads = []) as -> by (by destruct heads). specialize (Hl (Hh eq_refl)).
  assert (Forall (λ s, cm_events (hs_stream s) ≠ []) statements) as Hne by (by rewrite <- Hs, Forall_map in Hw).
  apply (ends_try _ _ _ _ _ _ _ _ (runs_all_events c statements)). intros u1 l1 H1.
  apply (ends_try _ _ _ _ _ _ _ _ (runs_operations c operations)). intros u2 l2 H2.
  apply (ends_try _ _ _ _ _ _ _ _ (runs_views c views)). intros u3 l3 H3.
  apply (ends_try _ _ _ _ _ _ _ _ (runs_notify c views)). intros u4 l4 H4.
  apply (ends_try _ _ _ _ _ _ _ _ (runs_snapshots c statements Hne)). intros u5 l5 H5.
  apply (ends_try _ _ _ _ _ _ _ _ (runs_outcome c outcome)). intros u6 l6 H6. rewrite Hs in *.
  apply ends_commit_last; [|by destruct outcome]. rewrite <- !app_assoc. by repeat apply carried_out_app.
Qed.

Lemma leaves_weaken {A} (whole whole' : list Ran → Prop) (p : PProg A) Q Q' :
  (∀ b, whole b → whole' b) → (∀ x new, Q x new → Q' x new) → leaves whole p Q → leaves whole' p Q'.
Proof.
  intros Hb HQ Hp w. eapply wp_weaken, (leaves_mono whole p Q Q' HQ Hp w).
  intros x y [H1|(b & Hwb & H1)]; [by left|right; eauto].
Qed.

Lemma leaves_rows streams fences operations views outcome check :
  let plan := locks_plan r (with_events streams) fences ++ rows_plan r (with_events streams) operations views outcome in
  leaves (whole_for plan) (write_commit pg_text pool_text r streams fences operations views outcome check)
    (written_whole plan (commit_unknown outcome)).
Proof.
  intros plan. unfold write_commit. fold (with_events streams).
  assert (∀ batch, declares r batch → whole_for plan batch) as Hd by (by left).
  apply (leaves_try _ _ _ _ _ (leaves_stream_heads _ Hd _));
    [|intros e new Hn; exists new, []; rewrite app_nil_r; split_and!; [done..|by left]]. intros u1 new1 H1.
  apply (leaves_try _ _ _ _ _ (leaves_views_declared _ Hd));
    [|intros e new Hn; exists (new1 ++ new), []; rewrite app_nil_r; split_and!; [done|by apply Forall_app|by left]].
  intros u2 new2 H2.
  apply (leaves_weaken (carried_out plan) _ _ (settled (carried_out plan) (λ _, true) (λ e, e = commit_unknown outcome))).
  { by right. }
  { intros x new Hx. exists (new1 ++ new2), new. rewrite app_assoc. split_and!; [done|by apply Forall_app|done]. }
  apply leaves_transaction. intros c. unfold plan, locks_plan. rewrite <- app_assoc.
  apply (ends_try _ _ _ _ _ _ _ _ (runs_entity_locks c _)). intros u3 l1 Hl1.
  apply (ends_try _ _ _ _ _ _ _ _ (runs_locked c _ _)). intros u4 l2 Hl2.
  apply (ends_read _ _ _ _ _ _ _ _ (reads_manifest c)). intros manifest _.
  apply (ends_read _ _ _ _ _ _ _ _ (reads_check_manifest c _ _)). intros u5 _.
  apply (ends_read _ _ _ _ _ _ _ (λ _, True)); [by apply reads_ret|]. intros u6 _.
  apply (ends_try _ _ _ _ _ _ _ _ (runs_rebuild_lock c)). intros u7 l3 Hl3.
  rewrite app_assoc. apply ends_rows.
  - apply Forall_forall. intros stream Hs. apply elem_of_list_filter in Hs as [_ Hs]. by destruct (cm_events stream).
  - simpl. rewrite <- app_assoc. apply carried_out_app; [done|]. by apply (carried_out_app [_] [_]).
Qed.

(** A check before the first call. *)
Lemma leaves_checked {A C} whole (x : Result A) (f : A → PProg C) (Q : Result C → list (list Ran) → Prop) :
  (∀ a, x = Ok a → leaves whole (f a) Q) → (∀ e, x = Err e → Q (Err e) []) → leaves whole (try_bind (Ret x) f) Q.
Proof. intros Hf He. destruct x as [a|e]; [by apply Hf|by apply leaves_ret, He]. Qed.

Lemma leaves_write streams fences operations views sizes outcome check :
  leaves (whole_for (write_plan r streams fences operations views outcome))
    (await? statements := Ret (view_statements r views) in
     await? sizes := Ret sizes in
     await? fits := Ret (check_budget (sizes ++ map pg_budget_size operations ++ pg_view_sizes r views statements)) in
     write_commit pg_text pool_text r streams fences operations (zip views statements) outcome check)
    (written_whole (write_plan r streams fences operations views outcome) (commit_unknown outcome)).
Proof.
  assert (∀ plan e, written_whole (A := unit) plan (commit_unknown outcome) (Err e) []) as He.
  { intros plan e. exists [], []. split_and!; [done..|by left]. }
  unfold write_plan. apply leaves_checked; [|auto]. intros statements ->.
  apply leaves_checked; [|auto]. intros all _. apply leaves_checked; [|auto]. intros u _. apply leaves_rows.
Qed.

(** C6. A commit and a transaction are applied as a whole or not at all, whatever the server answers and
    wherever the client stops: every call applies nothing, or a declaration of features, or a
    transaction with exactly the statements of the plan, each with the count of rows it needs (the
    head of every stream moves from the one the commit is on, every event is inserted, every view
    operation's condition holds). If the call returns [Ok], the plan was applied once; if it returns
    an error, it was not, unless the error is the one that says the result is unknown, which with an
    outcome is [Indeterminate]. It never panics, and no transaction stays open on a connection that
    goes back to the pool. *)
Theorem pg_commit_is_atomic :
  (∀ commit, leaves (whole_for (commit_plan r commit)) (pg_commit pg_text pool_text r commit)
     (λ x new, cm_events commit = [] ∧ cm_outcome commit = None ∧ new = [] ∨
        written_whole (commit_plan r commit) (commit_unknown (stored_outcome commit)) x new)) ∧
  (∀ commit, leaves (whole_for (transaction_plan r commit)) (pg_commit_transaction pg_text pool_text r commit)
     (λ x new, match normalize commit with
        | Ok normal => transaction_is_empty normal = true ∧ new = [] ∨
            written_whole (transaction_plan r commit) (commit_unknown (transaction_stored_outcome normal)) x new
        | Err e => x = Err e ∧ new = []
        end)).
Proof.
  split; intros commit.
  - apply leaves_checked; [|intros e _; right; exists [], []; split_and!; [done..|by left]]. intros u _.
    destruct (nil_b (cm_events commit) && _) eqn:Hn.
    + apply leaves_ret. left. destruct (cm_events commit), (cm_outcome commit); done.
    + eapply leaves_mono; [|apply leaves_write]. by right.
  - unfold transaction_plan. apply leaves_checked; [|by intros e ->]. intros normal ->.
    destruct (transaction_is_empty normal) eqn:Hn; [apply leaves_ret; by left|].
    eapply leaves_mono; [|apply leaves_write]. by right.
Qed.

(** ** Snapshots and compactions *)

Definition put_snapshot_plan (snapshot : SerializedSnapshot) : list Planned :=
  [mkPlanned ENTITY_LOCK [VText (sn_entity_id snapshot)] any_count;
   mkPlanned FEATURES_LOCK_SHARED [VText (features_lock_key (pg_events_table r))] any_count;
   mkPlanned (upsert_snapshot_sql r)
     [VText (sn_entity_id snapshot); VText (sn_entity_type snapshot); VInt (sn_sequence snapshot);
      VInt (sn_event_sequence snapshot); VBytes (sn_payload snapshot)] any_count].

Definition compact_plan (entity_id : EntityId) (through : EventSequence) : list Planned :=
  [mkPlanned FEATURES_LOCK_SHARED [VText (features_lock_key (pg_events_table r))] any_count;
   mkPlanned (delete_events_sql r) [VText entity_id; VInt through] any_count].

Lemma alone_ret {A} guar (x : A) (Q : A → PgWorld → Prop) w : Q x w → alone guar (Ret x) Q w.
Proof. done. Qed.

Lemma ends_plan {A} whole (writes : A → bool) unknown c before plan sql params (f : PgError → Error) (k : Z → PProg A) :
  carried_out plan before →
  (∀ n l, l = before ++ [mkRan sql params n] → carried_out (plan ++ [mkPlanned sql params any_count]) l →
     ends whole writes unknown c l (k n)) →
  ends whole writes unknown c before (try_bind (map_err_prog f (call (Execute c sql params))) k).
Proof.
  intros Hb Hk. apply (ends_try _ _ _ _ _ _ _ _ (runs_execute _ _ _ _)). intros n l ->. apply (Hk n _ eq_refl).
  apply carried_out_app; [done|]. by apply (carried_out_one (mkPlanned sql params any_count)).
Qed.

Lemma ends_put_snapshot c snapshot :
  ends (carried_out (put_snapshot_plan snapshot)) (λ _ : bool, true) (λ e, e = statement_error pg_text OtherPgError) c []
    (await? locked := execute pg_text c ENTITY_LOCK [VText (sn_entity_id snapshot)] in
     await? locked := execute pg_text c FEATURES_LOCK_SHARED [VText (features_lock_key (pg_events_table r))] in
     await? manifest := read_manifest_in pg_text r c in
     await? checked := pg_check_manifest r manifest false in
     await? head := stored_head pg_text r c (sn_entity_id snapshot) in
     if (0 <? sn_event_sequence snapshot) && (head <? sn_event_sequence snapshot) then
       await? derived := pg_derived_head pg_text r c (sn_entity_id snapshot) in
       Ret (Err (drift (sn_entity_id snapshot) head (Z.max derived (sn_event_sequence snapshot))))
     else
       await? written := upsert_snapshot pg_text r c (from_snapshot snapshot) in
       await? committed := map_err_prog (statement_error pg_text) (call (CommitTx c)) in
       Ret (Ok (0 <? written))).
Proof.
  apply (ends_plan _ _ _ _ _ [] _ _ _ _ carried_out_nil). intros n1 l1 _ H1.
  apply (ends_plan _ _ _ _ _ _ _ _ _ _ H1). intros n2 l2 _ H2.
  apply (ends_read _ _ _ _ _ _ _ _ (reads_manifest c)). intros manifest _.
  apply (ends_read _ _ _ _ _ _ _ _ (reads_check_manifest c _ _)). intros u _.
  apply (ends_read _ _ _ _ _ _ _ _ (reads_stored_head c _)). intros head _. destruct (_ && _).
  - apply (ends_read _ _ _ _ _ _ _ _ (reads_derived_head c _)). intros derived _. by apply ends_unwritten.
  - apply (ends_plan _ _ _ _ _ _ _ _ _ _ H2). intros n3 l3 _ H3. by apply (ends_commit _ _ _ _ _ _ _ (0 <? n3)).
Qed.

Lemma ends_compact c entity_id through :
  ends (carried_out (compact_plan entity_id through)) (λ _ : Z, true) (λ e, e = pg_backend pg_text OtherPgError) c []
    (await? locked := execute pg_text c FEATURES_LOCK_SHARED [VText (features_lock_key (pg_events_table r))] in
     await? manifest := read_manifest_in pg_text r c in
     compact_read pg_text r c manifest entity_id through).
Proof.
  apply (ends_plan _ _ _ _ _ [] _ _ _ _ carried_out_nil). intros n1 l1 _ H1.
  apply (ends_read _ _ _ _ _ _ _ _ (reads_manifest c)). intros manifest _. unfold compact_read.
  apply (ends_read _ _ _ _ _ _ _ (λ _, True)).
  { unfold undeclare. destruct (pg_validate_for_write r manifest false) as [v []]; [|by apply reads_ret].
    apply reads_aside; [done|]. intros _. by apply reads_ret. }
  intros validated _. apply (ends_read _ _ _ _ _ _ _ _ (reads_query_opt _ _ _ _)). intros snapshot Hs.
  assert (∃ x : option (string * Z), snapshot = option_map (λ x, [VText x.1; VInt x.2]) x) as [x ->].
  { destruct snapshot as [row|]; [|by exists None]. specialize (Hs row eq_refl [KText; KInt] ltac:(column)).
    row_of Hs. by eexists (Some (_, _)). }
  destruct x as [[kind covered]|]; cbn -[Z.ltb]; [|by apply ends_unwritten].
  destruct (covered <? through); [by apply ends_unwritten|].
  apply (ends_read _ _ _ _ _ _ _ (λ _, True)); [by destruct manifest; apply reads_ret|]. intros u _.
  apply (ends_plan _ _ _ _ _ _ _ _ _ _ H1). intros n2 l2 _ H2. by apply (ends_commit _ _ _ _ _ _ _ n2).
Qed.

Lemma leaves_put_snapshot snapshot :
  leaves (whole_for (put_snapshot_plan snapshot)) (pg_put_snapshot pg_text pool_text r snapshot)
    (written_whole (put_snapshot_plan snapshot) (statement_error pg_text OtherPgError)).
Proof.
  apply leaves_checked; [|intros e _; exists [], []; split_and!; [done..|by left]]. intros u _.
  apply (leaves_try _ _ _ _ _ (leaves_stream_heads (whole_for (put_snapshot_plan snapshot)) (λ _ Hd, or_introl Hd) _));
    [|intros e new Hn; exists new, []; rewrite app_nil_r; split_and!; [done..|by left]]. intros v declared Hd.
  eapply leaves_weaken, leaves_transaction; [by right| |intros c; apply ends_put_snapshot].
  intros x new Hx. by exists declared, new.
Qed.

Lemma leaves_compact entity_id through :
  leaves (carried_out (compact_plan entity_id through)) (pg_compact_below pg_text pool_text r entity_id through)
    (λ x new, through < 1 ∧ new = [] ∨
       settled (carried_out (compact_plan entity_id through)) (λ _, true) (λ e, e = pg_backend pg_text OtherPgError) x new).
Proof.
  apply leaves_checked; [|by intros e _; right; left]. intros u _.
  destruct (Z.ltb_spec through 1); [by apply leaves_ret; left|].
  eapply leaves_mono; [|apply leaves_transaction; intros c; apply ends_compact]. by right.
Qed.

(** ** Reads *)

Lemma event_rows_ret rows : Forall (λ row, Forall2 has_kind row event_kinds) rows → ∃ l, event_rows_of rows = Ret l.
Proof.
  induction 1 as [|row rows Hr _ [l IH]]; [by exists []|]. unfold event_kinds in Hr. row_of Hr. simpl. rewrite IH. by eexists.
Qed.

Lemma heads_ret rows : Forall (λ row, Forall2 has_kind row [KText; KInt]) rows → ∃ heads, heads_of rows = Ret heads.
Proof.
  induction 1 as [|row rows Hr _ [heads IH]]; [by exists ∅|]. row_of Hr. simpl. rewrite IH. by eexists.
Qed.

Lemma shaped_rows sql kinds rows :
  (sql, kinds) ∈ columns r → Forall (shaped r sql) rows → Forall (λ row, Forall2 has_kind row kinds) rows.
Proof. intros Hc Hr. eapply Forall_impl; [exact Hr|]. intros row Hs. by apply Hs. Qed.

(** A query for events, and what its rows decode to. *)
Lemma leaves_events {A} whole sql params (f : list EventRow → Result A) :
  (sql, event_kinds) ∈ columns r →
  leaves whole (with_client pool_text (λ c,
    await? rows := map_err_prog (pg_backend pg_text) (call (QueryAll c sql params)) in
    await rows := event_rows_of rows in
    Ret (f rows))) (λ _ new, new = []).
Proof.
  intros Hc. apply leaves_reading. intros c. apply (reads_try _ _ _ _ _ (reads_query_all _ _ _ _)). intros rows Hr.
  destruct (event_rows_ret rows) as [l ->]; [by apply (shaped_rows sql)|]. by apply reads_ret.
Qed.

Definition nothing {A} (x : A) (new : list (list Ran)) : Prop := new = [].

Lemma leaves_select_events whole entity_id after :
  leaves whole (select_events pg_text pool_text r entity_id after) nothing.
Proof.
  destruct after as [after|]; [apply (leaves_events _ (select_events_after_sql r) _ Ok)|
    apply (leaves_events _ (select_events_sql r) _ Ok)]; column.
Qed.

Lemma leaves_outcome_row whole command_id : leaves whole (outcome_row pg_text pool_text r command_id) nothing.
Proof.
  apply leaves_checked; [|done]. intros u _. apply leaves_reading. intros c.
  apply (reads_try _ _ _ _ _ (reads_query_opt _ _ _ _)). intros [row|] Hr; [|by apply reads_ret].
  specialize (Hr row eq_refl _ ltac:(column)). row_of Hr; by apply reads_ret.
Qed.

Lemma leaves_snapshot_row whole entity_id : leaves whole (snapshot_row pg_text pool_text r entity_id) nothing.
Proof.
  apply leaves_reading. intros c. apply (reads_try _ _ _ _ _ (reads_query_opt _ _ _ _)).
  intros [row|] Hr; [|by apply reads_ret]. specialize (Hr row eq_refl _ ltac:(column)). row_of Hr. by apply reads_ret.
Qed.

Lemma leaves_then {A C} whole (p : PProg A) (f : A → PProg C) :
  leaves whole p nothing → (∀ a, leaves whole (f a) nothing) → leaves whole (try_bind p f) nothing.
Proof. intros Hp Hf. apply (leaves_try _ _ _ _ _ Hp); [|done]. intros a new ->. apply Hf. Qed.


(** ** Views, rebuilds and compactions *)

Lemma reads_generation c for_update : reads c (read_generation pg_text r c for_update) (λ _, True).
Proof.
  apply (reads_try _ _ _ _ _ (reads_query_opt _ _ _ _)). intros [row|] Hr; [|by apply reads_ret].
  specialize (Hr row eq_refl [KInt; KBool] ltac:(destruct for_update; column)). row_of Hr. by apply reads_ret.
Qed.

Lemma reads_lock c for_update : reads c (read_lock pg_text r c for_update) (λ _, True).
Proof.
  apply (reads_try _ _ _ _ _ (reads_query_opt _ _ _ _)). intros [row|] Hr; [|by apply reads_ret].
  specialize (Hr row eq_refl [KText; KInt; KInt] ltac:(destruct for_update; column)). row_of Hr. by apply reads_ret.
Qed.

Lemma ends_aside {A B} whole (writes : A → bool) unknown c before (q : PgCall B) (k : B → PProg A) :
  (∀ w b w', performs q w b w' → w' = w) → (∀ b, ends whole writes unknown c before (k b)) →
  ends whole writes unknown c before (bind (call q) k).
Proof. intros Hq Hk others done w Hc Hw w1 b w2 <- Hp. apply Hq in Hp as ->. split; [by left|]. by apply Hk. Qed.

(** The statements of a batch of views under a lease. *)
Definition rebuild_plan (views : list ProjectedView) : list Planned :=
  match view_statements r views with Ok statements => map view_plan (zip views statements) | Err _ => [] end.

Lemma ends_rebuild_views c lease views statements :
  view_statements r views = Ok statements →
  ends (carried_out (rebuild_plan views)) (λ _, true) (λ e, e = commit_error pg_text OtherPgError false) c []
    (await? lock := read_lock pg_text r c true in
     await now := call UnixSeconds in
     if negb match lock with Some lock => holds lease lock && (now <? rl_lease_expires_at lock) | None => false end
     then Ret (Err (lease_lost (le_owner lease)))
     else
       await? manifest := read_manifest_in pg_text r c in
       await? refused := Ret (refuse_foreign_views r manifest) in
       await? written := run_view_statements pg_text c (zip views statements) in
       map_err_prog (λ err, commit_error pg_text err false) (call (CommitTx c))).
Proof.
  intros Hs. apply (ends_read _ _ _ _ _ _ _ _ (reads_lock c true)). intros lock _.
  apply ends_aside; [done|]. intros now. destruct (negb _); [by apply ends_unwritten|].
  apply (ends_read _ _ _ _ _ _ _ _ (reads_manifest c)). intros manifest _.
  apply (ends_read _ _ _ _ _ _ _ (λ _, True)); [by apply reads_ret|]. intros u _.
  apply (ends_try _ _ _ _ _ _ _ _ (runs_views c _)). intros v l Hl. apply ends_commit_last; [|done].
  unfold rebuild_plan. by rewrite Hs.
Qed.

(** The statements of a compaction batch, after the lock of the epoch's fence. *)
Definition compaction_plan (epoch : option RebuildEpoch) (writes : list CompactionWrite) : list Planned :=
  match epoch with
  | Some _ => [mkPlanned FEATURES_LOCK_SHARED [VText (pg_rebuild_lock_key (pg_events_table r))] any_count]
  | None => []
  end ++
  flat_map (λ x : nat * CompactionWrite,
    match compaction_statement (views_table (pg_events_table r)) x.2 with
    | Some (sql, params) => [mkPlanned sql params any_count]
    | None => []
    end) (lock_order writes).

Lemma runs_epoch c epoch :
  runs c (epoch_moved pg_text r c epoch)
    (λ _ l, carried_out match epoch with
       | Some _ => [mkPlanned FEATURES_LOCK_SHARED [VText (pg_rebuild_lock_key (pg_events_table r))] any_count]
       | None => []
       end l).
Proof.
  destruct epoch as [epoch|]; [|apply runs_ok; auto with evt].
  apply (runs_plan _ _ _ [_] [] (runs_locked c _ _)). intros n. apply (runs_read_plan _ _ _ _ _ (reads_generation c false)).
  intros generation. apply runs_ok. auto with evt.
Qed.

Lemma reads_lock_rows c table writes stored : reads c (lock_rows pg_text c table writes stored) (λ _, True).
Proof.
  revert stored. induction writes as [|[at_ write] writes IH]; intros stored; simpl; [by apply reads_ret|].
  apply (reads_try _ _ _ _ _ (reads_query_opt _ _ _ _)). intros found _.
  apply (reads_try _ _ _ (λ _, True)); [by apply reads_ret|]. intros row _. apply IH.
Qed.

(** The writes either all run, or a row appeared at a key that had none, or one failed. *)
Lemma run_writes_all c table writes others done before w :
  inside c others done before w →
  alone nothing_applied (run_writes pg_text c table writes) (λ x w',
    match x with
    | Ok None => ∃ l, inside c others done (before ++ l) w' ∧
        carried_out (flat_map (λ x : nat * CompactionWrite,
          match compaction_statement table x.2 with Some (sql, params) => [mkPlanned sql params any_count] | None => [] end)
          writes) l
    | _ => given_up c others done w'
    end) w.
Proof.
  revert before w. induction writes as [|[at_ write] writes IH]; intros before w Hw; simpl.
  { exists []. rewrite app_nil_r. auto with evt. }
  destruct (compaction_statement table write) as [[sql params]|]; [|by apply IH].
  intros w1 answer w2 <- Hq.
  pose proof (runs_execute c (statement_error pg_text) sql params others done before w Hw w answer w2 eq_refl Hq) as [Hg Hx].
  split; [done|]. destruct answer as [n|err]; simpl in Hx.
  - destruct Hx as (l & Hw2 & ->). eapply wp_mono, (IH _ _ Hw2). intros [[at'|]|e] w'; [done| |done].
    intros (l & Hw' & Hl). exists ([mkRan sql params n] ++ l). rewrite app_assoc. split; [done|].
    apply carried_out_app; [|done]. by apply (carried_out_one (mkPlanned sql params any_count)).
  - by destruct (match err with DbError _ (Some _) => _ | _ => _ end).
Qed.

Definition is_written (written : CompactionWritten) : bool := match written with Written => true | _ => false end.

Lemma ends_compaction c epoch writes :
  ends (carried_out (compaction_plan epoch writes)) is_written (λ e, e = statement_error pg_text OtherPgError) c []
    (await? moved := epoch_moved pg_text r c epoch in
     if moved : bool then Ret (Ok EpochChanged)
     else
       await? stored := lock_rows pg_text c (views_table (pg_events_table r)) (lock_order writes) ∅ in
       match unmet stored writes with
       | Some at_ => Ret (Ok (Refused (Z.of_nat at_)))
       | None =>
           await? appeared := run_writes pg_text c (views_table (pg_events_table r)) (lock_order writes) in
           match appeared with
           | Some at_ => Ret (Ok (Refused (Z.of_nat at_)))
           | None =>
               await? committed := map_err_prog (statement_error pg_text) (call (CommitTx c)) in
               Ret (Ok Written)
           end
       end).
Proof.
  apply (ends_try _ _ _ _ _ _ _ _ (runs_epoch c epoch)). intros moved l Hl.
  destruct moved; [by apply ends_unwritten; intros a [= <-]|].
  apply (ends_read _ _ _ _ _ _ _ _ (reads_lock_rows c _ _ _)). intros stored _.
  destruct (unmet stored writes); [by apply ends_unwritten; intros a [= <-]|].
  intros others done w Hc Hw. apply wp_bind.
  eapply wp_mono, (wp_weaken eq nothing_applied _ _ _ _ _ (quiet_applies_only _) (run_writes_all c _ _ _ _ _ _ Hw)).
  assert (∀ (x : Result CompactionWritten) w', (∀ a, x = Ok a → is_written a = false) → given_up c others done w' →
    delete c (pw_open w') = others ∧ ∃ new, pw_done w' = done ++ new ∧
      settled (carried_out (compaction_plan epoch writes)) is_written (λ e, e = statement_error pg_text OtherPgError) x new)
    as Hgone.
  { intros x w' Hx [tx ->]. simpl. rewrite delete_insert_id by done. split; [done|]. exists []. rewrite app_nil_r.
    split; [done|]. destruct x as [a|e]; simpl; [by rewrite (Hx a eq_refl)|by left]. }
  intros [[at_|]|e] w'.
  - intros Hg. apply Hgone; [by intros a [= <-]|done].
  - intros (l' & Hw' & Hl').
    apply (ends_commit (carried_out (compaction_plan epoch writes)) is_written (λ e, e = statement_error pg_text OtherPgError)
      c (([] ++ l) ++ l') (statement_error pg_text) (λ _, Ret (Ok Written)) Written); try done.
    by apply carried_out_app.
  - intros Hg. by apply Hgone.
Qed.

(** An operation that failed before its transaction. *)
Lemma failed_before {A} plan (writes : A → bool) unknown e declared :
  Forall (declares r) declared →
  ∃ declared' rest, declared = declared' ++ rest ∧ Forall (declares r) declared' ∧
    settled (carried_out plan) writes unknown (Err e) rest.
Proof. intros Hd. exists declared, []. rewrite app_nil_r. split_and!; [done..|by left]. Qed.

Lemma leaves_rebuild_views lease views :
  leaves (whole_for (rebuild_plan views)) (pg_write_rebuild_views pg_text pool_text r lease views)
    (written_whole (rebuild_plan views) (commit_error pg_text OtherPgError false)).
Proof.
  set (whole := whole_for (rebuild_plan views)). assert (∀ b, declares r b → whole b) as Hd by (by left).
  apply leaves_checked; [intros _ _|intros e _; by apply failed_before].
  apply (leaves_try _ _ _ declared_only); [|intros u declared H1|intros e new Hn; by apply failed_before].
  { destruct (pg_views_table_target r); [|by apply leaves_ret, Forall_nil_2].
    apply (leaves_try _ _ _ _ _ (leaves_stream_heads whole Hd true)); [|done]. intros v new Hn.
    eapply leaves_mono, (leaves_views_declared whole Hd). intros x new' Hn'. by apply Forall_app. }
  apply leaves_checked; [intros statements Hs|intros e _; rewrite app_nil_r; by apply failed_before].
  eapply leaves_weaken, leaves_transaction; [by right| |intros c; by apply ends_rebuild_views].
  intros x new Hx. by exists declared, new.
Qed.

Lemma leaves_compaction epoch writes :
  leaves (whole_for (compaction_plan epoch writes)) (pg_write_compaction pg_text pool_text r epoch writes)
    (λ x new, ∃ declared rest, new = declared ++ rest ∧ Forall (declares r) declared ∧
       settled (carried_out (compaction_plan epoch writes)) is_written (λ e, e = statement_error pg_text OtherPgError)
         x rest).
Proof.
  set (whole := whole_for (compaction_plan epoch writes)). assert (∀ b, declares r b → whole b) as Hd by (by left).
  apply leaves_checked; [intros table Ht|intros e _; by apply failed_before].
  assert (table = views_table (pg_events_table r)) as ->.
  { revert Ht. unfold pg_journal_table. destruct (check_compaction_writes writes), (negb _); try done. simpl.
    destruct (check_each _ _); by intros [= <-]. }
  apply (leaves_try _ _ _ _ _ (leaves_stream_heads whole Hd true));
    [intros u new1 H1|intros e new Hn; by apply failed_before].
  apply (leaves_try _ _ _ _ _ (leaves_views_declared whole Hd));
    [intros v new2 H2|intros e new Hn; by apply failed_before, Forall_app].
  eapply leaves_weaken, leaves_transaction; [by right| |intros c; apply ends_compaction].
  intros x new Hx. exists (new1 ++ new2), new. rewrite app_assoc. split_and!; [done|by apply Forall_app|done].
Qed.

End transactions.

(** ** Rows that are read back *)

Section rows.
Context `{SerdeJson}.

(** A row with its JSON columns rendered again: [jsonb] keeps the value, not the text. *)
Definition with_metadata (row : EventRow) (metadata : string) : EventRow :=
  mkEventRow (er_entity_id row) (er_sequence row) (er_event_id row) (er_event_type row) (er_version row)
    (er_entity_type row) (er_payload row) metadata.

Definition with_texts (row : OutcomeRow) (events : string) (rejection targets : option string) : OutcomeRow :=
  mkOutcomeRow (or_command_id row) (or_status row) (or_digest row) (or_response row) events rejection (or_code row)
    (or_command_type row) targets (or_principal row).

Lemma event_row_roundtrip event row metadata :
  from_event event = Ok row → is_blank metadata = false →
  json_parse_metadata metadata = Ok (Some (ev_metadata event)) → into_event (with_metadata row metadata) = Ok event.
Proof.
  unfold from_event. destruct (json_metadata (ev_metadata event)); [|done]. simpl. intros [= <-] Hb Hp.
  unfold into_event. simpl. rewrite Hb, Hp. by destruct event.
Qed.

(** An outcome the write path lets through is stored as a row that reads back as the same outcome,
    however the database renders its JSON columns. *)
Theorem pg_outcome_roundtrip outcome row events rejection targets :
  check_outcome outcome = Ok tt → Forall (λ id, canonical_event_id id = true) (oc_event_ids outcome) →
  non_empty (oc_response outcome) = oc_response outcome → from_outcome outcome = Ok row →
  decode_event_ids events = Ok (oc_event_ids outcome) →
  transposed decode_rejection rejection = Ok (oc_rejection outcome) →
  decode_identity (oc_command_id outcome) (or_command_type row) targets (or_principal row) = Ok (oc_identity outcome) →
  into_outcome (with_texts row events rejection targets) = Ok outcome.
Proof.
  intros Hc Hids Hresp Hrow He Hr Ht. destruct (check_outcome_stored outcome Hc Hids) as [Hs _].
  revert Hrow Ht. unfold from_outcome. destruct (encode_event_ids _); [|done].
  destruct (transposed encode_rejection _); [|done]. destruct (transposed encode_targets _); [|done]. simpl.
  intros [= <-] Ht. unfold into_outcome. simpl in *. rewrite status_roundtrip. simpl. rewrite He. simpl. rewrite Hr. simpl.
  rewrite Hresp, Hresp.
  assert (validate_stored (mkOutcome (oc_command_id outcome) (oc_status outcome) (oc_digest outcome)
    (oc_response outcome) (oc_event_ids outcome) (oc_rejection outcome) None) = Ok tt) as -> by exact Hs.
  simpl. destruct (oc_rejection outcome) eqn:Hrej; simpl; [rewrite bool_decide_eq_true_2 by done; simpl|];
    rewrite Ht; simpl; destruct outcome; simpl in *; by subst.
Qed.
End rows.

(** ** A server to run on *)

(** The calls of a program answered one after the other. *)
Section play.
Context (answer : ∀ B, PgCall B → PgWorld → B * PgWorld).

Fixpoint play {A} (p : Tree PgCall A) (w : PgWorld) : option A * PgWorld :=
  match p with
  | Ret a => (Some a, w)
  | Ask q k => let x := answer _ q w in play (k x.1) x.2
  | Panic | OutOfFuel => (None, w)
  end.

Lemma play_wp r guar {A} (p : Tree PgCall A) (Q : A → PgWorld → Prop) w :
  (∀ B (q : PgCall B) w, @performs _ _ (pg_server r) _ q w (answer _ q w).1 (answer _ q w).2) →
  @wp _ _ (pg_server r) eq guar False _ p Q w → ∃ a, (play p w).1 = Some a ∧ Q a (play p w).2.
Proof.
  intros Ha. revert w. induction p as [a|B q k IH| |]; intros w; simpl; [by eauto| |done|done].
  intros Hp. destruct (Hp w _ _ eq_refl (Ha B q w)) as [_ Hk]. by apply IH.
Qed.
End play.

(** A JSON library that reads every map of features as that of a store with stream heads. *)
Definition declared_json : SerdeJson := {|
  json_metadata := λ _, Ok "{}"%string;
  json_strings := λ _, Ok "[]"%string;
  json_rejection := λ _, Ok "{}"%string;
  json_parse_rejection := λ _, Ok (mkRejection "no" "" None);
  json_parse_metadata := λ _, Ok (Some Metadata_default);
  json_parse_strings := λ _, Ok (Some []);
  json_parse_string_options := λ _, Ok [];
  json_feature_map := λ _, "{}"%string;
  json_string_set := λ _, "[]"%string;
  json_parse_feature_map := λ _, Ok {[STREAM_HEADS_FEATURE := STREAM_HEADS_VERSION]};
  json_parse_string_set := λ _, Ok ∅;
  json_string_map := λ _, Ok "{}"%string;
  json_parse_string_map := λ _, Ok ∅
|}.

Definition sample_value (kind : Kind) : SqlValue :=
  match kind with
  | KText | KNullText => VText "[]"
  | KInt => VInt 1
  | KBool => VBool false
  | KBytes | KNullBytes => VBytes "{}"
  end.

(** A row of an empty store: a table that exists, and no rebuild. *)
Definition sample_row (r : PostgresRepository) (sql : string) : Row :=
  if String.eqb sql REGCLASS then [VBool true]
  else match list_find (λ x : string * list Kind, x.1 = sql) (columns r) with
       | Some (_, (_, kinds)) => map sample_value kinds
       | None => []
       end.

Definition run_on (w : PgWorld) (c : nat) (statement : Ran) : option PgWorld :=
  match pw_open w !! c with
  | Some (Active statements) => Some (set_open w c (Active (statements ++ [statement])))
  | Some Aborted => None
  | None => Some (applied w [statement])
  end.

Definition sample_answer (r : PostgresRepository) (B : Type) (q : PgCall B) (w : PgWorld) : B * PgWorld :=
  match q in PgCall B return B * PgWorld with
  | Connect => (Ok (fresh (dom (pw_open w))), w)
  | Release c => (tt, closed w c)
  | Begin c => (Ok tt, set_open w c (Active []))
  | Execute c sql params =>
      match run_on w c (mkRan sql params 1) with Some w' => (Ok 1, w') | None => (Err OtherPgError, w) end
  | BatchExecute c sql =>
      match run_on w c (mkRan sql [] 0) with Some w' => (Ok tt, w') | None => (Err OtherPgError, w) end
  | QueryAll c sql _ => (Ok [], w)
  | QueryOpt c sql _ => (Ok (if String.eqb sql (select_manifest_sql r) then Some (sample_row r sql) else None), w)
  | QueryOne c sql _ => (Ok (sample_row r sql), w)
  | QueryRaw c _ _ => (Ok tt, w)
  | Prepare c _ => (Ok tt, w)
  | NextRow c => (None, w)
  | CommitTx c =>
      (Ok tt, match pw_open w !! c with Some (Active statements) => applied (closed w c) statements | _ => closed w c end)
  | MarkerCell _ section => ((section None).2, w)
  | FlagLoad _ => (false, w)
  | FlagStore _ _ => (tt, w)
  | UnixSeconds => (0, w)
  end.

Definition sample_pg : PostgresRepository := pg_new 0 0 1 2.

Lemma NoDup_map_fst_unique {A B} (l : list (A * B)) a x y :
  NoDup (map fst l) → (a, x) ∈ l → (a, y) ∈ l → x = y.
Proof.
  intros Hnd Hx Hy. induction l as [|[b z] l IH]; [by apply not_elem_of_nil in Hx|].
  simpl in Hnd. apply NoDup_cons in Hnd as [Hb Hnd].
  assert (∀ v, (b, v) ∈ l → False) as Hno by (intros v Hv; apply Hb; by apply (list_elem_of_fmap_2 fst l (b, v))).
  apply elem_of_cons in Hx as [[= -> ->]|Hx], Hy as [Hy|Hy]; try (by destruct (Hno _ ltac:(eassumption)));
    [congruence| |by apply IH]. injection Hy as -> ->. by destruct (Hno _ Hx).
Qed.

Lemma sample_columns : NoDup (map fst (columns sample_pg)).
Proof. apply (bool_decide_unpack _). vm_compute. exact I. Qed.

Lemma sample_row_shaped sql : shaped sample_pg sql (sample_row sample_pg sql).
Proof.
  intros kinds Hk. unfold sample_row. destruct (String.eqb_spec sql REGCLASS) as [->|Hne].
  - assert (kinds = [KBool]) as ->; [|by repeat constructor].
    apply (NoDup_map_fst_unique _ _ _ _ sample_columns Hk). unfold columns. apply list_elem_of_here.
  - destruct (list_find _ _) as [[i [sql' kinds']]|] eqn:Hf.
    + apply list_find_Some in Hf as (Hi & Hs & _). simpl in Hs. subst sql'. apply list_elem_of_lookup_2 in Hi.
      rewrite (NoDup_map_fst_unique _ _ _ _ sample_columns Hk Hi). clear.
      induction kinds' as [|k kinds' IH]; constructor; [by destruct k|done].
    + apply list_find_None in Hf. rewrite Forall_forall in Hf. by destruct (Hf _ Hk).
Qed.

Lemma sample_performs B (q : PgCall B) w :
  @performs _ _ (pg_server sample_pg) _ q w (sample_answer sample_pg B q w).1 (sample_answer sample_pg B q w).2.
Proof.
  destruct q; unfold performs, pg_server; cbn -[sample_row fresh sample_pg]; try done.
  - split; [done|]. apply not_elem_of_dom, is_fresh.
  - unfold run_on, ran. destruct (pw_open w !! c) as [[l|]|] eqn:Hc; simpl; rewrite ?Hc; try done. by left; left.
  - destruct (String.eqb sql _); split; try done. apply Forall_singleton, sample_row_shaped.
  - split; [done|]. simpl. apply Forall_singleton. apply sample_row_shaped.
  - unfold run_on, ran. destruct (pw_open w !! c) as [[l|]|] eqn:Hc; simpl; rewrite ?Hc; try done. by left; left.
  - unfold committed. by destruct (pw_open w !! c) as [[l|]|].
  - split; [done|]. by eexists.
Qed.

Definition sample_pg_commit : PCommit :=
  commit_new "a" [mkEvent (for_event "a" 1) 1 "Opened" 1 "a" "Account" "{}" Metadata_default].

(** On it, the commit of a first event is applied: its two locks of the store, the lock of its
    entity, its head and its event, as one transaction. *)
Lemma pg_commit_is_atomic_witness :
  let run := play (sample_answer sample_pg)
    (@pg_commit declared_json (λ _, EmptyString) (λ _, EmptyString) sample_pg sample_pg_commit) (mkPgWorld ∅ []) in
  run.1 = Some (Ok tt) ∧
  ∃ batch, pw_done run.2 = [batch] ∧ length batch = 5%nat ∧
    carried_out (@commit_plan declared_json sample_pg sample_pg_commit) batch.
Proof.
  intros run.
  destruct (@pg_commit_is_atomic declared_json (λ _, EmptyString) (λ _, EmptyString) sample_pg) as [Hcommit _].
  specialize (Hcommit sample_pg_commit (mkPgWorld ∅ [])).
  apply (play_wp (sample_answer sample_pg)) in Hcommit as (x & Hx & _ & new & Hnew & HQ); [|apply sample_performs].
  fold run in Hx, Hnew.
  assert (run.1 = Some (Ok tt)) as Hok by (vm_compute; reflexivity).
  assert (map length (pw_done run.2) = [5%nat]) as Hlen by (vm_compute; reflexivity).
  clearbody run.
  split; [exact Hok|]. rewrite Hok in Hx. injection Hx as <-.
  destruct HQ as [(Hn & _)|(declared & rest & -> & Hd & batch & -> & Hb)]; [discriminate Hn|].
  rewrite Hnew in Hlen. simpl in Hlen. destruct declared as [|d declared]; simpl in Hlen.
  - injection Hlen as Hlen. exists batch. by split.
  - injection Hlen as _ Hlen. by destruct declared.
Defined.
